(* ===== verification/_CoqProject ===== *)
-Q . S2P
Prelude.v
GoStrings.v
GoPath.v
Frame.v
Api.v
Connection.v
PathMap.v
EventLog.v
Record.v
Prog.v
Message.v
Session.v
Lease.v
Anchor.v
Present.v
Fit.v
Slots.v
Adapter.v
Inspect.v
Emulate.v
Logpoint.v
Breakpoints.v
Replace.v
Exceptions.v
Presence.v
Exec.v
Evalset.v
Forward.v
Snapshot.v
Start.v
TestRun.v
Manager.v
Invariant.v
Machine.v
ExecSpec.v
ReplaceSpec.v
Claims.v
StoreSpec.v
TestRunSpec.v
Group.v
GroupSpec.v
Sideeffects.v
SideeffectsSpec.v
Manifest.v
Template.v
Validate.v
Guard.v
Generic.v
Registry.v
Discovery.v
EditorEvents.v
Mirrors.v
MirrorsSpec.v
ClassifySpec.v
Terminal.v
BuildOutput.v
LaunchArgs.v
Threads.v
Facade.v
Handlers.v
LaunchConn.v
FacadeSystem.v
FacadeRun.v
FacadeSafe.v
HandlersSafe.v
ReaderSafe.v
FacadeSpec.v
FacadeProgress.v
Docker.v
DockerStack.v
Fast.v
DockerSpec.v
Files.v
Mirror.v
Artifacts.v
DirLock.v
Install.v
Dotnet.v
FileStore.v
DotnetDriver.v
