(* ===== verification/Prelude.v ===== *)
(** * EyeDebugger: a verified model of the debug daemon's session core

    EyeDebugger is a daemon that lets editors, people at a command line and
    agents debug one program together. The daemon keeps sessions
    (src/internal/session); a session drives one debug adapter over the Debug
    Adapter Protocol (src/internal/dap), and its clients share its
    breakpoints, its control lease, its event log and its stops. An editor's
    connection (src/internal/facade) speaks DAP to the editor and calls the
    session; adapters are described by manifests (src/internal/adapters) and
    driven by drivers (src/drivers). This library models a session: its
    state, every method that changes it, the adapter's events and the
    goroutines the session starts; the manager's starts and tables; an
    editor's connection with its goroutines; the manifests, the generic
    driver and the side-effect checks of both drivers; what is asked of
    docker (src/internal/container); and eyedbg's own files: dumps, builds
    and a compose project's lock (src/internal/artifacts), an adapter's
    installation, and the daemon's store of sessions (src/internal/daemon).

    ** How the code is modelled

    - A Go string is its bytes; [int] is [Z], wrapped to 64 bits where the
      code can overflow (a frame's length, a budget, an index); times are
      nanoseconds given to the operation that reads the clock. A Go
      [(T, error)] is a [result T]. An error keeps its code and message; the
      hint, which no code looks at but the facade's that prints it
      ([apiError], EditorEvents.v), is left out.
    - [Session] (Session.v) is the struct of session.go. Breakpoints are
      shared by pointer in the code, so they live in a heap whose addresses
      are their ids; the lists [bps] hold addresses.
    - A method is a [handler] (Prog.v): critical sections under [mu]
      ([Atomic], a pure function of the session), round trips to the adapter
      with [mu] released ([Send]), and the outer mutexes [execMu], [syncMu]
      and [captureMu]. The functions called with [mu] held keep their names,
      ending in [Locked]. [run] executes a handler alone against any
      adapter; [safe] is what it guarantees whatever runs between its
      sections; [steps] is the interleaving of many handlers.
    - An editor's connection has goroutines of its own, which share its state
      and a mutex (the gate) and call the session: a [tprog] (Threads.v), its
      calls typed by their answers ([sessionCall]). What a session may answer
      is the class [Serves] (FacadeSystem.v), with the laws the connection
      relies on; its theorems hold of every instance, and run on a small one
      (FacadeRun.v).
    - The file system (symlinks, whether a file is there, its text) is the
      record [fs]; Unicode's tables of letters and digits are arguments.
      What the adapter answers is any function of the requests sent to it.
      An operation on docker is a [tprog] too, its calls the invocations
      ([dockerCall]), of a Unix host's paths; decoding JSON is an argument.
    - Operations on eyedbg's own files are [fsM] computations (Files.v): a
      file system by names, whose calls may each fail ([fails]), and whose
      directories are listed in any order. Only the lock's runs meet others
      between their calls, so they are [tprog]s.

    ** The files

    Shared ground:
    - Prelude: record update, errors and results, 64-bit integers, lists.
    - GoStrings, GoPath: the parts of Go's [strings], [strconv],
      [path], [path/filepath] and [unicode/utf8] the code uses.
    - Prog: handlers, sequential runs, rely and guarantee, pools.
    - Api: the data of internal/api and its parsers.

    Components without a session's state:
    - Frame (internal/dap/frame.go): [ReadMessage] accepts exactly the
      framing [writeMessage] produces, and reports what is too large.
    - Connection (internal/dap/client.go, server.go): the table of calls that
      wait for a response, the read loop and the writes, as a step relation
      over any interleaving. A response reaches the call it answers; no call
      is left waiting behind the stream's end.
    - Message (translate.go): the messages a session forwards, and
      their source paths, rewritten by a container's path map.
    - PathMap (internal/session/pathmap.go): host and container paths; a
      translated path stays inside the directory that is mapped, and host
      paths survive the trip to the container.
    - EventLog (events.go): the ring is the end of the full history, the
      longest its bounds allow and always the newest event; a query
      answers from what is retained, paging loses nothing retained, and the
      long poll answers exactly when there is something to answer.
    - Anchor (anchor.go): an anchor is the one line that holds its text; the
      similarity is that of a longest common subsequence.
    - Present, Fit (internal/present): text cut on rune boundaries, output
      and variable trees fitted to a size; [Fit_spec] has [Fit]'s cost
      accounting, when it cuts and that it cuts breadth first.

    Components of a session:
    - Lease (lease.go, clients.go): who may take control and when; every
      change is logged, and a refusal changes nothing.
    - Slots (slots.go, funcbps.go): breakpoints merged for the adapter, by a
      single pass that equals the reference grouping.
    - Adapter, Inspect (inspect.go, session.go): stacks, variables, paths,
      captures, output, events and lines of source.
    - Emulate, Logpoint (emulate.go): the stop filter, hit conditions and
      log messages. [line_stop_as_alone] is what merging and filtering are
      for: a line stops exactly when an owner's breakpoint alone would stop
      there; [filterStop_correct] says so of the whole handler.
    - Breakpoints (breakpoints.go, caps.go), Replace (replace.go),
      Exceptions (exceptions.go), Presence (presence.go).
    - Exec (session.go): adapter events, execution requests, configuration
      and the end of a session. Evalset (evalset.go): Eval and Set. Snapshot
      (session.go, exceptions.go): what a client is shown.
    - Forward (forward.go): which requests of an editor go to the adapter,
      and under what. Its Module Join (join.go): following the log from where a summary
      was read, with nothing lost or seen twice.
    - Record (record.go): a recording is a bounded prefix of the control
      events, without the program's data.
    - Start (manager.go, session.go): starting an adapter and configuring it.
      TestRun, TestRunSpec (testrun.go): a test run's two processes; their
      ends, in either order, end the session with the runner's exit code.

    Components of the manager, over many sessions:
    - Manager (manager.go, modes.go, launch.go, containerlaunch.go): what a
      start checks and what it then does, and the session an id names.
    - Claims (claims.go, manager.go): the manager's tables as a step
      relation: claims on containers are exclusive, and no metadata outlives
      its session.
    - Group, GroupSpec (group.go): waiting for any member of a group, and
      reading its merged events by cursor.

    Adapters and drivers:
    - Manifest, Template (internal/adapters/manifest.go, template.go): a
      manifest's data; a template splits into text and references in exactly
      one way. Validate (validate.go): what a manifest that passes its checks
      has. Registry (registry.go): loading leaves one manifest per name and
      language.
    - Discovery (find.go, python.go, dirs.go): where an adapter's
      interpreter is looked for, and which may run. Dotnet (dotnet.go): the
      .dll, host and runtime of a .NET adapter ([resolve_newest]); versions
      are a total preorder ([Orders]).
    - Install (install.go, dirs.go, trust_unix.go): a build downloaded,
      checked, extracted and renamed into place. [install_safe]: nothing
      else that was there changes, whatever the archive holds and whichever
      call fails.
    - Generic (drivers/generic): preparing a launch or an attach from a
      manifest. Guard (generic/guard.go) and Sideeffects, SideeffectsSpec
      (drivers/dotnet/sideeffects.go): the checks of an expression for side
      effects, equal to a reading of its tokens, which for .NET are those of
      a grammar of C#'s own ([lexes]).
    - DotnetDriver (drivers/dotnet/fast.go): the project of an assembly, found
      only where no container can write ([find_project_safe]), and its build
      on this machine ([publish_safe]).

    An editor's connection (internal/facade):
    - EditorEvents (events.go, caps.go, custom.go, errors.go): the log's
      events as DAP's, capabilities, errors.
    - Mirrors, MirrorsSpec, ClassifySpec (mirrors.go): other clients'
      breakpoints in an editor. [reconcile_spec]: an editor that handles the
      events sent holds what the connection's view says; [classify_spec]: what
      the breakpoints an editor sends are taken for. Both are of a view that
      says what the editor was told ([told_ok]), as every view a connection
      reaches does ([reached_told]).
    - Terminal (terminal.go, internal/session/launch.go): a program run in
      the editor's terminal: what an adapter may ask for, and that it is
      asked once and answered. BuildOutput (launch.go): a build's output cut
      to lines and bounded. LaunchArgs (launch.go): a launch's arguments.
    - Threads: the goroutines' programs, with rely and guarantee. Facade,
      Handlers (facade.go, requests.go), LaunchConn (events.go, launch.go):
      the connection's state and the program of each request, of the follower
      and of a launch.
    - FacadeSystem: the goroutines together, as a step relation: the reader,
      the queue of ordered requests and its worker, requests of their own,
      the launch, the follower, the session going on, the editor gone.
    - FacadeSafe, HandlersSafe, ReaderSafe: what each goroutine guarantees
      and relies on. FacadeSpec: what a connection promises over every
      interleaving: each request answered once and none forgotten, changes
      made under the gate, responses before the events they cause, silence
      after disconnect. FacadeProgress: no deadlock.
    - FacadeRun: a scheduler of the system and a session to run it against.

    Containers (internal/container):
    - Docker (validate.go, engine.go, inspect.go, composedir.go): the
      grammars of what a client, a container or a label names, invoking
      docker, and inspecting a container. DockerStack (compose.go,
      recreate.go, top.go, fast.go, copy.go): the operations on a project's
      containers. DockerSpec: the command lines of each operation,
      written out ([engine_argv_safe]), and that the directories a project's
      containers can write are all listed, of a docker that prints what its
      templates ask of the containers it has ([writable_complete],
      [truthful]).
    - Fast (fast.go, override.go): fast mode's labels, project files and
      override: what labels can make eyedbg keep, and which labels an
      override corroborates.

    eyedbg's own files (internal/artifacts, internal/daemon/store.go):
    - Files: the file system's calls, and how a computation of them runs.
    - Mirror (mirror.go): making a directory hold exactly a build
      ([mirror_exact]), which builds are refused before anything changes
      ([mirror_refuses]), and that the others are copied
      ([mirror_completes]).
    - Artifacts (artifacts.go, place.go, dir_unix.go, compose.go): names,
      private directories ([private_dirs]), keeping few ([prune_safe],
      [prune_bounds]), putting a dump where the user wants it
      ([place_safe]), the directories of a compose project
      ([stages_safe]).
    - DirLock (compose.go): the lock file of a compose project, taken by any
      number of runs at once: [lock_exclusive] over every interleaving of runs
      that are not older than [LockMaxAge] ([calm_step] says what else it
      needs when a dead run's lock was there), [lock_alone] what one run alone makes of it.
    - FileStore (internal/daemon/store.go, server.go): a session's metadata
      and recording. [store_refines]: the files are a table of sessions and
      of recordings, whatever calls fail; [Save_completes]: a save succeeds when none does;
      [prune_recordings]: which recordings go.

    What holds of a session's handlers together:
    - Invariant: the invariant [wf] of a session and the order [ev] of its
      evolution, kept by every critical section of every handler.
    - Machine: the handlers as threads; [machine_invariant] carries both
      over every interleaving of calls, events and goroutines.
    - ExecSpec, ReplaceSpec, StoreSpec: the contracts of the execution gate,
      of a request in flight, of ending a session, of a setBreakpoints
      request, and of removing and leaving.

    ** Recursion and fuel

    Definitions are structural but for the loops with fuel: decimal
    printing ([itoa_fuel], enough by [itoa_fuel_enough]), the queue of [Fit]
    ([fit_fuel], one step for every variable, enough by [fit_loop_spec],
    which needs only that), the tokens of an anchor (one step for every rune
    of the line), the merge of a group's events (one step for every event,
    enough by [mergeEvents_spec]), the loops that read messages of a stream
    ([readLoop], [ReadRequest]: one step for every byte, and every message
    takes some, enough by [readLoop_written] and [readRequest_first]),
    the tokens of an expression and of a template (one step for every byte or
    rune, enough by [SideEffects_spec], [check_spec] and [scan_spec]), the
    directories above a program (one step for every byte of the path, enough
    by [venv_walk_enough]), those above a project ([covering_up], the same,
    enough by [covering_up_spec]), and taking a claim ([take_alone], enough by
    [take_alone_spec]), and the levels of directories of a build (the
    code's own bound, [maxMirrorDepth], and one more to clear what was
    there: enough by [mirror_completes]). A temporary file's name is tried
    as often as Go does, ten thousand times ([tempTries]). The scheduler's
    fuel (FacadeRun.v) is for examples: the theorems are of the step relation. The long
    polls' fuel is the sequence of logs or states they look at. A handler is
    finite by construction; [variables_bounded] bounds the requests of the
    one whose length the adapter could decide.

    ** What modelling showed

    - [late_stop_reopens] (ExecSpec): a stopped event that comes after the
      session ended makes it stopped again.
    - [keepCapture_same_stop] (Inspect): a refetched capture can be compared
      with the stale one of the same stop.
    - [two_on_one_line] (StoreSpec): a run-until's breakpoint made permanent
      beside the editor's on the same line.
    - [detach_unmaps_newer] (Claims): a detach removes its session by id,
      and can unmap a newer one that was given the id meanwhile.
    - [lock_left] (DirLock): two runs that take one stale lock over can
      leave a lock that no run holds. [lock_race] is the race the code's
      comment names.
    - [version_escapes] (Install): a valid manifest's version can be "..",
      and its directory that of all adapters. [previews_as_text] (Dotnet):
      the ninth preview of a runtime counts as newer than the tenth.
    - [NewFitter_overflow] (Fit): a huge token budget wraps around.
    - [number_method_missed] (SideeffectsSpec), [number_call_missed]
      (Guard): a call on a number's literal passes the checks.
    - [line_comment_missed] (SideeffectsSpec): so does all that follows a
      comment's line.
    - [adopted_mirror_removed] (HandlersSafe): a client's breakpoint from the
      CLI that its editor adopts is answered as two, then told removed.

    ** What is not modelled

    Processes, sockets and the network: starting and killing adapters and
    programs, the recorder's file and an HTTP download (their answers are
    arguments), the daemon's life and its HTTP, packing an adapter's tar and
    writing an override's file. A
    handler's [Send] is a call of the connection; the two are modelled
    apart. Timeouts and canceled contexts are answers like any other error.
    The order of acquiring the outer mutexes is kept, but a thread takes a
    mutex as soon as the pool lets it: fairness and deadlock of a session's
    handlers are not stated (of a connection's goroutines deadlock is
    excluded, fairness not stated). The session behind a connection is any
    instance of [Serves]: the session of Session.v is not made one. Of a
    connection, decoding messages, logs and recovering from panics are not
    modelled. Adapter sockets are not.

    The command line (internal/cli) parses arguments and prints what the
    session core answers; the rest of the .NET driver (launching, attaching,
    the test host, container starts), the helper process and the daemon's
    HTTP are processes, pipes and encodings around the code that is
    modelled. Of eyedbg's own files, Windows' directories are not modelled,
    nor that someone else changes a file while a build is mirrored, an adapter
    is installed or the store is at work, nor a write that fails half way. *)

From stdpp Require Export base gmap strings list sorting fin_maps.
From Stdlib Require Export ZArith Lia.

(** ** Functional record update

    [r <| f := v |>] and [r <| f ::= g |>] for every record that declares
    its eta expansion as an [Eta] instance. *)

Class Eta (R : Type) := eta_mk : R → R.
Class Setter {R T : Type} (get : R → T) := upd : (T → T) → R → R.
Arguments upd {R T} get {_} f r.

Ltac build_setter get :=
  match type of get with
  | ?R → ?T =>
    let body := constr:(@eta_mk R _) in
    let body := eval hnf in body in
    match eval pattern get in body with
    | ?abs get =>
      let r := eval cbv beta in (fun (f : T → T) => abs (fun r => f (get r))) in
      exact r
    end
  end.
#[global] Hint Extern 1 (Setter ?get) => build_setter get : typeclass_instances.

Declare Scope record_scope.
Delimit Scope record_scope with record.
Notation "r <| f := v |>" := (upd f (fun _ => v) r)
  (at level 1, left associativity, f at next level) : record_scope.
Notation "r <| f ::= g |>" := (upd f g r)
  (at level 1, left associativity, f at next level) : record_scope.
#[global] Open Scope record_scope.

(** ** Errors

    [api.Error] (internal/api/errors.go): a stable code and a message. The
    hint, advice for the reader that no code looks at, is not kept. *)

Inductive Code :=
  | CodeInvalidRequest | CodeNoSession | CodeNotStopped | CodeNotRunning
  | CodeSessionExited | CodeAdapterFailed | CodeInternal | CodeLeaseHeld
  | CodeNotOwner | CodeUnsupported | CodeSideEffects | CodeAttachFailed
  | CodeAnchorNotFound | CodeAnchorAmbiguous | CodeAdapterMissing.
#[global] Instance Code_eq_dec : EqDecision Code.
Proof. solve_decision. Defined.

Record Error := NewError { e_code : Code; e_message : string }.
#[global] Instance Error_eq_dec : EqDecision Error.
Proof. solve_decision. Defined.

(** A Go pair [(A, error)] of which exactly one is meaningful. *)
Inductive result (A : Type) := Ok (a : A) | Err (e : Error).
Arguments Ok {A} a.
Arguments Err {A} e.

Definition rbind {A B} (m : result A) (k : A → result B) : result B :=
  match m with Ok a => k a | Err e => Err e end.
Notation "'try' x ':=' m 'in' k" := (rbind m (fun x => k))
  (at level 10, x pattern, m at level 100, k at level 200).

Definition is_ok {A} (m : result A) : bool := match m with Ok _ => true | Err _ => false end.

Lemma rbind_ok_inv {A B} (m : result A) (k : A → result B) b :
  rbind m k = Ok b → ∃ a, m = Ok a ∧ k a = Ok b.
Proof. destruct m; simpl; [eauto | discriminate]. Qed.

(** ** Machine integers: Go's [int] and [int64] are 64-bit two's complement. *)

Definition min_int : Z := (- 2 ^ 63)%Z.
Definition max_int : Z := (2 ^ 63 - 1)%Z.
Definition wrap64 (z : Z) : Z := ((z + 2 ^ 63) mod 2 ^ 64 - 2 ^ 63)%Z.

Lemma wrap64_id z : (min_int ≤ z ≤ max_int)%Z → wrap64 z = z.
Proof. unfold wrap64, min_int, max_int. intros. rewrite Z.mod_small; lia. Qed.

Lemma wrap64_range z : (min_int ≤ wrap64 z ≤ max_int)%Z.
Proof.
  unfold wrap64, min_int, max_int.
  pose proof (Z.mod_pos_bound (z + 2 ^ 63) (2 ^ 64) ltac:(lia)). lia.
Qed.

(** ** Tactics and the shared hint database *)

Create HintDb eyedbg discriminated.
#[export] Hint Resolve wrap64_range : eyedbg.

(** Split every [match] and [if] of the goal, simplifying on the way. *)
Ltac split_cases :=
  repeat (simplify_eq/=; try case_match; simplify_eq/=).

(** Unfold record updates that met a constructor or a projection. *)
Ltac upd_simpl := unfold upd; cbn [upd].

(** ** Lists *)

Section lists.
Context {A : Type}.
Implicit Types (l : list A) (p : A → bool).

(** [slices.ContainsFunc] / [slices.IndexFunc] *)
Fixpoint index_func p l : option nat :=
  match l with
  | [] => None
  | x :: l' => if p x then Some 0 else S <$> index_func p l'
  end.

(** [slices.DeleteFunc] *)
Definition delete_func p l : list A := List.filter (fun x => negb (p x)) l.

Lemma in_delete_func p l x : In x (delete_func p l) ↔ In x l ∧ p x = false.
Proof. unfold delete_func. rewrite List.filter_In. destruct (p x); simpl; naive_solver. Qed.

Lemma index_func_Some p l i :
  index_func p l = Some i →
  ∃ x, l !! i = Some x ∧ p x = true ∧ ∀ j y, j < i → l !! j = Some y → p y = false.
Proof.
  revert i. induction l as [|x l IH]; intros i; simpl; [done|].
  destruct (p x) eqn:Hp.
  - intros [= <-]. exists x. split_and!; [done..|]. intros; lia.
  - destruct (index_func p l) as [k|]; [|done]. intros [= <-].
    destruct (IH k eq_refl) as (y & Hy & Hpy & Hlt).
    exists y. split_and!; [done..|].
    intros [|j] z Hj Hz; simplify_eq/=; [done|]. apply (Hlt j); [lia|done].
Qed.

Lemma index_func_None p l : index_func p l = None ↔ ∀ x, In x l → p x = false.
Proof.
  induction l as [|x l IH]; simpl; [by split|].
  destruct (p x) eqn:Hp.
  - split; [done|]. intros H. by rewrite H in Hp by auto.
  - transitivity (index_func p l = None); [by destruct (index_func p l)|].
    rewrite IH. split; intros H y; [intros [<-|]|]; auto.
Qed.

Lemma delete_func_length p l : length (delete_func p l) ≤ length l.
Proof. unfold delete_func. induction l; simpl; [lia|]. destruct (negb _); simpl; lia. Qed.

Lemma filter_negb_nil p l : List.filter p l = [] ↔ ∀ x, In x l → p x = false.
Proof.
  induction l as [|x l IH]; simpl; [naive_solver|].
  destruct (p x) eqn:Hp; split; intros H; try done.
  - specialize (H x (or_introl eq_refl)). congruence.
  - intros y [<-|Hy]; [done|]. by apply IH.
  - apply IH. naive_solver.
Qed.

Lemma NoDup_filter_list p l : List.NoDup l → List.NoDup (List.filter p l).
Proof. apply List.NoDup_filter. Qed.

Lemma NoDup_map_filter {B} (f : A → B) p l :
  List.NoDup (List.map f l) → List.NoDup (List.map f (List.filter p l)).
Proof.
  induction l as [|x l IH]; simpl; [done|]. intros [Hx Hl]%List.NoDup_cons_iff.
  destruct (p x); simpl; [|auto]. constructor; [|auto].
  intros Hin. apply List.in_map_iff in Hin as (y & Hf & Hy).
  apply List.filter_In in Hy as [Hy _]. apply Hx. rewrite <- Hf.
  by apply List.in_map.
Qed.
End lists.
#[export] Hint Resolve NoDup_filter_list NoDup_map_filter : eyedbg.

(** Sum of a measure over a list. *)
Definition list_sum_Z {A} (f : A → Z) (l : list A) : Z :=
  foldr (fun x n => (f x + n)%Z) 0%Z l.

Lemma list_sum_Z_app {A} (f : A → Z) l1 l2 :
  list_sum_Z f (l1 ++ l2) = (list_sum_Z f l1 + list_sum_Z f l2)%Z.
Proof. induction l1; simpl; lia. Qed.

Lemma list_sum_Z_nonneg {A} (f : A → Z) l :
  (∀ x, 0 ≤ f x)%Z → (0 ≤ list_sum_Z f l)%Z.
Proof. intros H. induction l as [|x l IH]; simpl; [lia|]. specialize (H x). lia. Qed.
Create Rewrite HintDb eyedbg_rw.
#[export] Hint Rewrite @list_sum_Z_app : eyedbg_rw.

(** ** Maps filled by a loop *)

Lemma lookup_fold_insert_other {K} `{Countable K} {X V} (k : X → K) (v : X → V) l (m : gmap K V) id :
  ¬ In id (map k l) → fold_left (fun m x => <[k x := v x]> m) l m !! id = m !! id.
Proof.
  revert m. induction l as [|x l IH]; intros m Hid; [done|]. cbn [fold_left map] in *.
  rewrite IH by (intros ?; apply Hid; by right). apply lookup_insert_ne. intros Heq. apply Hid. by left.
Qed.

Lemma lookup_fold_insert {K} `{Countable K} {X V} (k : X → K) (v : X → V) l (m : gmap K V) x :
  List.NoDup (map k l) → In x l → fold_left (fun m x => <[k x := v x]> m) l m !! k x = Some (v x).
Proof.
  revert m. induction l as [|y l IH]; intros m Hnd Hin; [done|]. cbn [map] in Hnd. apply List.NoDup_cons_iff in Hnd as [Hn Hnd].
  cbn [fold_left]. destruct Hin as [<-|Hin]; [|by apply IH].
  rewrite lookup_fold_insert_other by done. apply lookup_insert_eq.
Qed.
