(* ===== verification/GoStrings.v ===== *)
(** * Go strings: the parts of [strings], [strconv], [unicode/utf8] used

    A Go string is its bytes: a [string] of [ascii], whose code is the byte.
    Runes are [Z] code points. Everything here is the language's standard
    library as its documentation and source define it; no definition of this
    file models code of the repository. *)

From S2P Require Import Prelude.
From Stdlib Require Import Ascii Bool.
Open Scope Z_scope.

#[global] Arguments String.append : simpl nomatch.

Definition byte_of (c : ascii) : Z := Z.of_N (N_of_ascii c).
Definition ascii_of (z : Z) : ascii := ascii_of_N (Z.to_N z).

Definition slen (s : string) : Z := Z.of_nat (String.length s).
Notation "s1 =?s s2" := (String.eqb s1 s2) (at level 70).

(** [s[:n]] and [s[n:]], for [n] in range. *)
Fixpoint stake (n : nat) (s : string) : string :=
  match n, s with
  | S n, String c s => String c (stake n s)
  | _, _ => ""
  end.
Fixpoint sdrop (n : nat) (s : string) : string :=
  match n, s with
  | S n, String _ s => sdrop n s
  | O, _ => s
  | _, EmptyString => ""
  end.
Fixpoint snth (n : nat) (s : string) : option ascii :=
  match n, s with
  | O, String c _ => Some c
  | S n, String _ s => snth n s
  | _, EmptyString => None
  end.

Fixpoint has_prefix (p s : string) : bool :=
  match p, s with
  | EmptyString, _ => true
  | String a p, String b s => Ascii.eqb a b && has_prefix p s
  | _, EmptyString => false
  end.
(** [strings.CutPrefix]: the rest when [s] starts with [p]. *)
Definition cut_prefix (p s : string) : option string :=
  if has_prefix p s then Some (sdrop (String.length p) s) else None.
Definition trim_prefix (p s : string) : string := default s (cut_prefix p s).
Definition has_suffix (p s : string) : bool :=
  (String.length p <=? String.length s)%nat
  && (sdrop (String.length s - String.length p) s =?s p).
Definition trim_suffix (p s : string) : string :=
  if has_suffix p s then stake (String.length s - String.length p) s else s.

Fixpoint contains_byte (a : ascii) (s : string) : bool :=
  match s with EmptyString => false | String b s => Ascii.eqb a b || contains_byte a s end.

(** [strings.IndexByte] *)
Fixpoint index_byte (a : ascii) (s : string) : option nat :=
  match s with
  | EmptyString => None
  | String b s => if Ascii.eqb a b then Some O else S <$> index_byte a s
  end.

(** [strings.Cut] at a one-byte separator. *)
Fixpoint cut_at (a : ascii) (s : string) : option (string * string) :=
  match s with
  | EmptyString => None
  | String b s =>
    if Ascii.eqb a b then Some ("", s)
    else match cut_at a s with
         | Some (x, y) => Some (String b x, y)
         | None => None
         end
  end.

(** [strings.Split] at a one-byte separator: never empty. *)
Fixpoint split_on (a : ascii) (s : string) : list string :=
  match s with
  | EmptyString => [""%string]
  | String b s =>
    if Ascii.eqb a b then ""%string :: split_on a s
    else match split_on a s with
         | x :: l => String b x :: l
         | [] => [String b ""]
         end
  end.

(** [strings.Join] *)
Fixpoint join (sep : string) (l : list string) : string :=
  match l with
  | [] => ""
  | [x] => x
  | x :: l => x +:+ sep +:+ join sep l
  end.

Fixpoint all_bytes (p : ascii → bool) (s : string) : bool :=
  match s with EmptyString => true | String c s => p c && all_bytes p s end.

(** ** Decimal integers: [strconv.Itoa], [strconv.Atoi] *)

Definition is_digit (c : ascii) : bool := (48 <=? byte_of c) && (byte_of c <=? 57).
Definition digit_val (c : ascii) : Z := byte_of c - 48.
Definition digit_char (d : Z) : ascii := ascii_of (48 + d).

Fixpoint digits_val (acc : Z) (s : string) : Z :=
  match s with EmptyString => acc | String c s => digits_val (acc * 10 + digit_val c) s end.

(** The decimal digits of [n ≥ 0], most significant first; [fuel] bounds the
    number of digits. *)
Fixpoint itoa_nat (fuel : nat) (n : Z) (acc : string) : string :=
  match fuel with
  | O => acc
  | S fuel =>
    let acc := String (digit_char (n mod 10)) acc in
    if n <? 10 then acc else itoa_nat fuel (n / 10) acc
  end.
Definition itoa_fuel (n : Z) : nat := S (Z.to_nat (Z.log2 (Z.max 1 n))).
Definition itoa (n : Z) : string :=
  if n <? 0 then "-" +:+ itoa_nat (itoa_fuel (- n)) (- n) ""
  else itoa_nat (itoa_fuel n) n "".

(** [strconv.Atoi]: an optional sign and one or more digits, in [int]. *)
Definition atoi (s : string) : option Z :=
  let '(neg, ds) :=
    match s with
    | String c s' =>
      if Ascii.eqb c "+" then (false, s') else if Ascii.eqb c "-" then (true, s') else (false, s)
    | EmptyString => (false, s)
    end in
  if (ds =?s "") || negb (all_bytes is_digit ds) then None
  else let v := digits_val 0 ds in
       let v := if neg : bool then - v else v in
       if (min_int <=? v) && (v <=? max_int) then Some v else None.

(** ** UTF-8 *)

Definition rune_error : Z := 65533.

(** [utf8.RuneStart]: not a continuation byte. *)
Definition rune_start (c : ascii) : bool := negb (Z.land (byte_of c) 192 =? 128).

Definition cont_in (lo hi : Z) (c : ascii) : bool := (lo <=? byte_of c) && (byte_of c <=? hi).
Definition cont := cont_in 128 191.

(** [utf8.DecodeRuneInString] on a non-empty string: the rune and its size;
    ([rune_error], 1) for bytes that start no valid encoding. *)
Definition decode_rune (c : ascii) (s : string) : Z * nat :=
  let b0 := byte_of c in
  let bad := (rune_error, 1%nat) in
  if b0 <? 128 then (b0, 1%nat)
  else if (194 <=? b0) && (b0 <=? 223) then
    match s with
    | String c1 _ =>
      if cont c1 then (Z.land b0 31 * 64 + Z.land (byte_of c1) 63, 2%nat) else bad
    | _ => bad
    end
  else if (224 <=? b0) && (b0 <=? 239) then
    match s with
    | String c1 (String c2 _) =>
      let lo := if b0 =? 224 then 160 else 128 in
      let hi := if b0 =? 237 then 159 else 191 in
      if cont_in lo hi c1 && cont c2
      then (Z.land b0 15 * 4096 + Z.land (byte_of c1) 63 * 64 + Z.land (byte_of c2) 63, 3%nat)
      else bad
    | _ => bad
    end
  else if (240 <=? b0) && (b0 <=? 244) then
    match s with
    | String c1 (String c2 (String c3 _)) =>
      let lo := if b0 =? 240 then 144 else 128 in
      let hi := if b0 =? 244 then 143 else 191 in
      if cont_in lo hi c1 && cont c2 && cont c3
      then (Z.land b0 7 * 262144 + Z.land (byte_of c1) 63 * 4096
            + Z.land (byte_of c2) 63 * 64 + Z.land (byte_of c3) 63, 4%nat)
      else bad
    | _ => bad
    end
  else bad.

(** The runes of [s] with the bytes each came from ([range] over a string):
    [skip] bytes still belong to the rune being read. *)
Fixpoint segs_go (skip : nat) (s : string) : list (Z * string) :=
  match s with
  | EmptyString => []
  | String c s' =>
    match skip with
    | S k => segs_go k s'
    | O => let '(r, n) := decode_rune c s' in
           (r, stake n s) :: segs_go (n - 1) s'
    end
  end.
Definition segs := segs_go 0.
Definition runes (s : string) : list Z := (segs s).*1.
Definition rune_count (s : string) : Z := Z.of_nat (length (segs s)).
(** [string([]rune(s)[:n])] on a string of valid UTF-8. *)
Definition rune_prefix (n : nat) (s : string) : string := String.concat "" (take n (segs s)).*2.

(** [utf8.ValidString] *)
Definition valid_utf8 (s : string) : bool :=
  forallb (fun '(r, b) => negb ((r =? rune_error) && (String.length b =? 1)%nat)) (segs s).

(** [unicode.IsSpace] (the White_Space property), [unicode.IsControl] *)
Definition is_space (r : Z) : bool :=
  ((9 <=? r) && (r <=? 13)) || (r =? 32) || (r =? 133) || (r =? 160) || (r =? 5760)
  || ((8192 <=? r) && (r <=? 8202)) || (r =? 8232) || (r =? 8233) || (r =? 8239)
  || (r =? 8287) || (r =? 12288).
Definition is_control (r : Z) : bool :=
  ((0 <=? r) && (r <=? 31)) || ((127 <=? r) && (r <=? 159)).

Fixpoint drop_while {A} (p : A → bool) (l : list A) : list A :=
  match l with [] => [] | x :: l' => if p x then drop_while p l' else l end.

(** [strings.TrimSpace] *)
Definition trim_space (s : string) : string :=
  let sp := fun x : Z * string => is_space x.1 in
  String.concat "" (rev (drop_while sp (rev (drop_while sp (segs s))))).*2.

(** [strings.ToLower], exact on ASCII and on the two code points that
    lower-case to an ASCII letter (U+0130, U+212A); other runes are kept. *)
Definition lower_seg (x : Z * string) : string :=
  let '(r, b) := x in
  if (65 <=? r) && (r <=? 90) then String (ascii_of (r + 32)) ""
  else if r =? 304 then "i" else if r =? 8490 then "k" else b.
Definition to_lower (s : string) : string := String.concat "" (map lower_seg (segs s)).

(** [strconv.Quote] / [%q]. Runes outside ASCII are taken as printable, as
    [strconv.IsPrint] says of nearly all of them. *)
Definition hex_digit (d : Z) : ascii := if d <? 10 then ascii_of (48 + d) else ascii_of (87 + d).
Definition quote_seg (x : Z * string) : string :=
  let '(r, b) := x in
  if (r =? 34) || (r =? 92) then String (ascii_of 92) b
  else if r =? 7 then "\a" else if r =? 8 then "\b" else if r =? 12 then "\f"
  else if r =? 10 then "\n" else if r =? 13 then "\r" else if r =? 9 then "\t"
  else if r =? 11 then "\v"
  else if ((r =? rune_error) && (String.length b =? 1)%nat) || (r <? 32) || (r =? 127) then
    match b with
    | String c _ => "\x" +:+ String (hex_digit (byte_of c / 16)) (String (hex_digit (byte_of c mod 16)) "")
    | EmptyString => ""
    end
  else b.
Definition dquote : string := String (ascii_of 34) "".
Definition quote (s : string) : string :=
  dquote +:+ String.concat "" (map quote_seg (segs s)) +:+ dquote.

(** ** Facts *)

(** A rune's UTF-8 bytes, as [string] of a rune slice and [WriteRune] write
    them; what is no rune becomes U+FFFD. *)
Definition encode_rune (r : Z) : string :=
  if (0 <=? r) && (r <=? 127) then String (ascii_of r) ""
  else if (128 <=? r) && (r <=? 2047)
  then String (ascii_of (192 + r / 64)) (String (ascii_of (128 + r mod 64)) "")
  else if (r <? 0) || (1114111 <? r) || ((55296 <=? r) && (r <=? 57343))
  then String (ascii_of 239) (String (ascii_of 191) (String (ascii_of 189) ""))
  else if r <=? 65535
  then String (ascii_of (224 + r / 4096)) (String (ascii_of (128 + r / 64 mod 64)) (String (ascii_of (128 + r mod 64)) ""))
  else String (ascii_of (240 + r / 262144)) (String (ascii_of (128 + r / 4096 mod 64))
         (String (ascii_of (128 + r / 64 mod 64)) (String (ascii_of (128 + r mod 64)) ""))).
Definition string_of_runes (rs : list Z) : string := String.concat "" (map encode_rune rs).

(** [strings.Index] of a substring, and [strings.TrimLeft] of a set of
    one-byte characters. *)
Fixpoint index_str (p s : string) : option nat :=
  if has_prefix p s then Some 0%nat
  else match s with "" => None | String _ t => option_map S (index_str p t) end.
Fixpoint trim_left (cut : ascii → bool) (s : string) : string :=
  match s with "" => "" | String c t => if cut c then trim_left cut t else s end.
(** How many bytes at the start of [s] satisfy [p]. *)
Fixpoint span (p : ascii → bool) (s : string) : nat :=
  match s with "" => 0%nat | String c t => if p c then S (span p t) else 0%nat end.

Lemma has_prefix_app p s : has_prefix p (p +:+ s) = true.
Proof. induction p as [|a p IH]; simpl; [done|]. by rewrite Ascii.eqb_refl, IH. Qed.

Lemma has_prefix_spec p s : has_prefix p s = true ↔ ∃ r, s = p +:+ r.
Proof.
  split.
  - revert s. induction p as [|a p IH]; intros s; simpl; [by exists s|].
    destruct s as [|b s]; [done|]. intros [Hab Hp]%andb_true_iff.
    apply Ascii.eqb_eq in Hab as ->. destruct (IH s Hp) as [r ->]. by exists r.
  - intros [r ->]. apply has_prefix_app.
Qed.

Lemma sdrop_app p s : sdrop (String.length p) (p +:+ s) = s.
Proof. by induction p. Qed.

Lemma cut_prefix_app p s : cut_prefix p (p +:+ s) = Some s.
Proof. unfold cut_prefix. by rewrite has_prefix_app, sdrop_app. Qed.

Lemma cut_prefix_Some p s r : cut_prefix p s = Some r ↔ s = p +:+ r.
Proof.
  unfold cut_prefix. split.
  - destruct (has_prefix p s) eqn:E; [|done]. apply has_prefix_spec in E as [r' ->].
    rewrite sdrop_app. by intros [= ->].
  - intros ->. apply cut_prefix_app.
Qed.

Lemma stake_sdrop n s : stake n s +:+ sdrop n s = s.
Proof. revert s. induction n as [|n IH]; intros [|c s]; simpl; [done..|]. by rewrite IH. Qed.

Lemma string_app_nil_r s : s +:+ "" = s.
Proof. induction s as [|c s IH]; simpl; [done|]. by rewrite IH. Qed.

Lemma string_app_assoc s1 s2 s3 : (s1 +:+ s2) +:+ s3 = s1 +:+ (s2 +:+ s3).
Proof. induction s1 as [|c s IH]; simpl; [done|]. by rewrite IH. Qed.

Lemma string_app_length s1 s2 : String.length (s1 +:+ s2) = (String.length s1 + String.length s2)%nat.
Proof. induction s1; simpl; [done|]. by f_equal. Qed.

Lemma stake_length n s : String.length (stake n s) = Nat.min n (String.length s).
Proof. revert s. induction n as [|n IH]; intros [|c s]; simpl; [done..|]. by rewrite IH. Qed.

Lemma sdrop_length n s : String.length (sdrop n s) = (String.length s - n)%nat.
Proof. revert s. induction n as [|n IH]; intros [|c s]; simpl; [done..|]. by rewrite IH. Qed.

Lemma all_bytes_app p s1 s2 : all_bytes p (s1 +:+ s2) = all_bytes p s1 && all_bytes p s2.
Proof. induction s1; simpl; [done|]. by rewrite IHs1, andb_assoc. Qed.

Lemma contains_byte_app a s1 s2 :
  contains_byte a (s1 +:+ s2) = contains_byte a s1 || contains_byte a s2.
Proof. induction s1; simpl; [done|]. by rewrite IHs1, orb_assoc. Qed.

Lemma all_bytes_contains p a s : all_bytes p s = true → p a = false → contains_byte a s = false.
Proof.
  intros Hs Ha. induction s as [|c s IH]; simpl in *; [done|].
  apply andb_true_iff in Hs as [Hc Hs]. rewrite IH by done.
  destruct (Ascii.eqb_spec a c); [congruence|done].
Qed.

Lemma cut_at_app a s1 s2 :
  contains_byte a s1 = false → cut_at a (s1 +:+ String a s2) = Some (s1, s2).
Proof.
  induction s1 as [|c s1 IH]; simpl; [by rewrite Ascii.eqb_refl|].
  intros [Hc Hs]%orb_false_iff. by rewrite Hc, IH.
Qed.

Lemma cut_at_Some a s x y : cut_at a s = Some (x, y) → s = x +:+ String a y ∧ contains_byte a x = false.
Proof.
  revert x. induction s as [|c s IH]; intros x; simpl; [done|].
  destruct (Ascii.eqb_spec a c) as [->|Hne]; [by intros [= <- <-]|].
  destruct (cut_at a s) as [[x' y']|]; [|done]. intros [= <- <-].
  destruct (IH x' eq_refl) as [-> Hx]. simpl. split; [done|].
  rewrite Hx. destruct (Ascii.eqb_spec a c); done.
Qed.

Lemma split_on_none a s : contains_byte a s = false → split_on a s = [s].
Proof.
  induction s as [|c s IH]; simpl; [done|].
  intros [Hc Hs]%orb_false_iff. by rewrite Hc, IH.
Qed.

Lemma split_on_app a s1 s2 :
  contains_byte a s1 = false → split_on a (s1 +:+ String a s2) = s1 :: split_on a s2.
Proof.
  induction s1 as [|c s1 IH]; simpl; [by rewrite Ascii.eqb_refl|].
  intros [Hc Hs]%orb_false_iff. by rewrite Hc, IH.
Qed.

Lemma split_join a l :
  l ≠ [] → Forall (fun s => contains_byte a s = false) l →
  split_on a (join (String a "") l) = l.
Proof.
  intros Hne Hl. induction Hl as [|x l Hx Hl IH]; [done|].
  destruct l as [|y l]; [by apply split_on_none|].
  change (join (String a "") (x :: y :: l)) with (x +:+ String a (join (String a "") (y :: l))).
  rewrite split_on_app by done. by rewrite IH.
Qed.

(** Decimal round trip. *)

Lemma byte_of_ascii_of z : 0 ≤ z < 256 → byte_of (ascii_of z) = z.
Proof. intros H. unfold byte_of, ascii_of. rewrite N_ascii_embedding; lia. Qed.

Lemma digit_char_val d : 0 ≤ d < 10 → digit_val (digit_char d) = d.
Proof. intros H. unfold digit_val, digit_char. rewrite byte_of_ascii_of; lia. Qed.

Lemma digit_char_digit d : 0 ≤ d < 10 → is_digit (digit_char d) = true.
Proof. intros H. unfold is_digit, digit_char. rewrite byte_of_ascii_of by lia. lia. Qed.

Lemma itoa_nat_digits fuel n acc :
  0 ≤ n → all_bytes is_digit acc = true → all_bytes is_digit (itoa_nat fuel n acc) = true.
Proof.
  revert n acc. induction fuel as [|fuel IH]; intros n acc Hn Hacc; simpl; [done|].
  assert (is_digit (digit_char (n mod 10)) = true)
    by (apply digit_char_digit, Z.mod_pos_bound; lia).
  case_match; [simpl; by rewrite Hacc, H|].
  apply IH; [apply Z.div_pos; lia|]. simpl. by rewrite Hacc, H.
Qed.

Lemma digits_val_itoa fuel n acc a :
  0 ≤ n < 2 ^ Z.of_nat fuel → (0 < fuel)%nat →
  ∃ k, digits_val a (itoa_nat fuel n acc) = digits_val (a * 10 ^ k + n) acc ∧ 0 ≤ k.
Proof.
  revert n acc a. induction fuel as [|fuel IH]; intros n acc a Hn Hf; [lia|]. simpl.
  assert (Hd : 0 ≤ n mod 10 < 10) by (apply Z.mod_pos_bound; lia).
  destruct (Z.ltb_spec n 10).
  - exists 1. split; [|lia]. simpl. rewrite digit_char_val by done.
    f_equal. rewrite Z.mod_small by lia. lia.
  - assert (0 < n / 10) by (apply Z.div_str_pos; lia).
    assert (fuel ≠ O) by (intros ->; simpl in *; lia).
    destruct (IH (n / 10) (String (digit_char (n mod 10)) acc) a) as (k & Hk & Hk0); [|lia|].
    { split; [lia|]. apply Z.div_lt_upper_bound; [lia|].
      rewrite Nat2Z.inj_succ, Z.pow_succ_r in Hn by lia. lia. }
    exists (k + 1). split; [|lia]. rewrite Hk. simpl. rewrite digit_char_val by done.
    f_equal. rewrite Z.pow_add_r, Z.pow_1_r by lia.
    pose proof (Z.div_mod n 10). lia.
Qed.

Lemma itoa_fuel_enough n : 0 ≤ n → n < 2 ^ Z.of_nat (itoa_fuel n).
Proof.
  intros Hn. unfold itoa_fuel. rewrite Nat2Z.inj_succ, Z2Nat.id by apply Z.log2_nonneg.
  destruct (Z.eq_dec n 0) as [->|]; [simpl; lia|].
  rewrite Z.max_r by lia. apply Z.log2_spec. lia.
Qed.

Lemma itoa_nat_nonempty fuel n acc : (0 < fuel)%nat → itoa_nat fuel n acc ≠ "".
Proof.
  revert n acc. induction fuel as [|fuel IH]; intros n acc Hf; [lia|]. simpl.
  case_match; [done|]. destruct fuel; [done|]. apply IH. lia.
Qed.

Lemma itoa_nonneg n : 0 ≤ n → itoa n = itoa_nat (itoa_fuel n) n "".
Proof. intros Hn. unfold itoa. by rewrite (proj2 (Z.ltb_ge _ _) Hn). Qed.

Lemma itoa_digits n : 0 ≤ n → all_bytes is_digit (itoa n) = true.
Proof. intros Hn. rewrite itoa_nonneg by done. by apply itoa_nat_digits. Qed.

Lemma itoa_nonempty n : 0 ≤ n → itoa n ≠ "".
Proof. intros Hn. rewrite itoa_nonneg by done. apply itoa_nat_nonempty. unfold itoa_fuel. lia. Qed.

Lemma digits_val_itoa_0 n : 0 ≤ n → digits_val 0 (itoa n) = n.
Proof.
  intros Hn. rewrite itoa_nonneg by done.
  destruct (digits_val_itoa (itoa_fuel n) n "" 0) as (k & -> & _).
  - split; [done|]. by apply itoa_fuel_enough.
  - unfold itoa_fuel. lia.
  - simpl. lia.
Qed.

Lemma atoi_itoa n : 0 ≤ n ≤ max_int → atoi (itoa n) = Some n.
Proof.
  intros [Hn Hmax]. unfold atoi.
  pose proof (itoa_nonempty n Hn) as Hne. pose proof (itoa_digits n Hn) as Hd.
  pose proof (digits_val_itoa_0 n Hn) as Hv.
  destruct (itoa n) as [|c s] eqn:E; [done|]. simpl in Hd.
  apply andb_true_iff in Hd as [Hc Hs].
  assert (Ascii.eqb c "+" = false ∧ Ascii.eqb c "-" = false) as [-> ->].
  { split; [destruct (Ascii.eqb_spec c "+")|destruct (Ascii.eqb_spec c "-")]; subst; done. }
  simpl. rewrite Hc, Hs. simpl. simpl in Hv. rewrite Hv.
  unfold min_int in *. by rewrite (proj2 (Z.leb_le _ _)), (proj2 (Z.leb_le _ _)) by lia.
Qed.

Lemma digits_val_nonneg s acc : all_bytes is_digit s = true → 0 ≤ acc → 0 ≤ digits_val acc s.
Proof.
  revert acc. induction s as [|c s IH]; intros acc; cbn [all_bytes digits_val]; [done|].
  intros [Hc Hs]%andb_true_iff Ha. apply IH; [done|]. unfold is_digit, digit_val in *.
  apply andb_true_iff in Hc as [Hc%Z.leb_le _]. lia.
Qed.

(** Digits without a sign read as a number that is not negative. *)
Lemma atoi_digits_bounds s n : all_bytes is_digit s = true → atoi s = Some n → 0 ≤ n ≤ max_int.
Proof.
  intros Hd. unfold atoi. destruct s as [|c s]; [done|].
  assert (Ascii.eqb c "+" = false ∧ Ascii.eqb c "-" = false) as [-> ->].
  { cbn in Hd. split; [destruct (Ascii.eqb_spec c "+")|destruct (Ascii.eqb_spec c "-")]; subst; done. }
  rewrite Hd. cbn [orb negb]. rewrite orb_false_r. destruct (_ =?s _); [done|].
  pose proof (digits_val_nonneg (String c s) 0 Hd ltac:(lia)).
  destruct (Z.leb_spec min_int (digits_val 0 (String c s))), (Z.leb_spec (digits_val 0 (String c s)) max_int); cbn; try done.
  intros [= <-]. by split.
Qed.

Lemma itoa_nat_length fuel n acc k :
  0 ≤ n < 10 ^ Z.of_nat (S k) → (String.length (itoa_nat fuel n acc) ≤ S k + String.length acc)%nat.
Proof.
  revert n acc k. induction fuel as [|fuel IH]; intros n acc k Hn; simpl; [lia|].
  destruct (Z.ltb_spec n 10); [simpl; lia|].
  destruct k as [|k]; [simpl in Hn; lia|].
  etransitivity; [apply (IH _ _ k)|simpl; lia].
  rewrite (Nat2Z.inj_succ (S k)), Z.pow_succ_r in Hn by lia.
  split; [apply Z.div_pos; lia|apply Z.div_lt_upper_bound; lia].
Qed.

Lemma itoa_length n k :
  0 ≤ n < 10 ^ Z.of_nat (S k) → (1 ≤ String.length (itoa n) ≤ S k)%nat.
Proof.
  intros Hn. pose proof (itoa_nonempty n ltac:(lia)) as Hne.
  rewrite itoa_nonneg in * by lia. split.
  - destruct (itoa_nat _ _ _); simpl; [done|lia].
  - etransitivity; [apply (itoa_nat_length _ _ _ k Hn)|]. simpl. lia.
Qed.

Lemma stake_app s t : stake (String.length s) (s +:+ t) = s.
Proof. induction s as [|c s IH]; simpl; [by destruct t|]. by rewrite IH. Qed.

Lemma split_on_nonempty a s : split_on a s ≠ [].
Proof.
  destruct s as [|c s]; simpl; [done|]. destruct (Ascii.eqb a c); [done|].
  by destruct (split_on a s).
Qed.

Lemma join_split a s : join (String a "") (split_on a s) = s.
Proof.
  induction s as [|c s IH]; simpl; [done|].
  destruct (split_on a s) as [|x l] eqn:Es; [by apply split_on_nonempty in Es|].
  destruct (Ascii.eqb_spec a c) as [->|].
  - change (join (String c "") (""%string :: x :: l)) with (String c (join (String c "") (x :: l))).
    by rewrite IH.
  - destruct l as [|y l]; [simpl in *; by subst|].
    change (join (String a "") (String c x :: y :: l)) with (String c (join (String a "") (x :: y :: l))).
    by rewrite IH.
Qed.

(** ** Indexing *)

Lemma index_byte_app a s t : contains_byte a s = false → index_byte a (s +:+ String a t) = Some (String.length s).
Proof.
  induction s as [|c s IH]; cbn; [by rewrite Ascii.eqb_refl|]. intros [H1 H2]%orb_false_iff.
  rewrite H1, IH by done. done.
Qed.

Lemma index_byte_split a s i : index_byte a s = Some i → s = stake i s +:+ String a (sdrop (S i) s).
Proof.
  revert i. induction s as [|c s IH]; intros i; cbn; [done|]. destruct (Ascii.eqb_spec a c) as [->|Hne].
  - by intros [= <-].
  - intros (j & Hj & ->)%fmap_Some. cbn. f_equal. by apply IH.
Qed.

Lemma index_byte_lt a s i : index_byte a s = Some i → (i < String.length s)%nat.
Proof.
  revert i. induction s as [|c s IH]; intros i; [done|]. cbn [index_byte String.length].
  destruct (Ascii.eqb a c); [intros [= <-]; lia|].
  intros (j & Hj & ->)%fmap_Some. specialize (IH j Hj). lia.
Qed.

Lemma index_str_Some p s i : index_str p s = Some i → s = stake i s +:+ p +:+ sdrop (i + String.length p) s ∧ (i + String.length p ≤ String.length s)%nat.
Proof.
  assert (H0 : ∀ s, has_prefix p s = true → s = p +:+ sdrop (String.length p) s ∧ (String.length p ≤ String.length s)%nat).
  { clear. intros s [r ->]%has_prefix_spec. rewrite sdrop_app, string_app_length. split; [done|lia]. }
  revert i. induction s as [|c s IH]; intros i; cbn [index_str]; destruct (has_prefix p _) eqn:E.
  - intros [= <-]. by apply H0 in E.
  - done.
  - intros [= <-]. by apply H0 in E.
  - intros (j & Hj & [= ->])%fmap_Some. destruct (IH j Hj) as [H1 H2]. cbn. split; [by f_equal|lia].
Qed.

Lemma has_prefix_more p s t : has_prefix p s = true → has_prefix p (s +:+ t) = true.
Proof. intros [r ->]%has_prefix_spec. rewrite string_app_assoc. apply has_prefix_app. Qed.

Lemma index_str_prefix p s : has_prefix p s = true → index_str p s = Some 0%nat.
Proof. intros H. destruct s; cbn [index_str]; by rewrite H. Qed.

Lemma index_str_app p s t i : index_str p s = Some i → ∃ j, (j ≤ i)%nat ∧ index_str p (s +:+ t) = Some j.
Proof.
  revert i. induction s as [|c s IH]; intros i; cbn [index_str]; destruct (has_prefix p _) eqn:E.
  - intros _. exists 0%nat. split; [lia|]. by apply index_str_prefix, has_prefix_more.
  - done.
  - intros _. exists 0%nat. split; [lia|]. by apply index_str_prefix, has_prefix_more.
  - intros (j & Hj & [= ->])%fmap_Some. destruct (IH j Hj) as (k & Hk & Hi). cbn. rewrite Hi. destruct (has_prefix p (String c (s +:+ t))).
    + exists 0%nat. split; [lia|done].
    + exists (S k). split; [lia|done].
Qed.

(** Before the first occurrence there is none. *)
Lemma index_str_before p s i : (0 < String.length p)%nat → index_str p s = Some i → index_str p (stake i s) = None.
Proof.
  intros Hp H. destruct (index_str p (stake i s)) as [j|] eqn:E; [|done]. exfalso.
  destruct (index_str_app p (stake i s) (p +:+ sdrop (i + String.length p) s) j E) as (k & Hk & Hi).
  rewrite <- (proj1 (index_str_Some _ _ _ H)), H in Hi. injection Hi as ->.
  apply index_str_Some in E as [_ E]. rewrite stake_length in E. lia.
Qed.

(** * Facts about UTF-8: rune boundaries of valid strings

    A valid string is a sequence of encoded runes, each a lead byte and
    continuation bytes, so a valid string may be cut before any byte that is
    not a continuation byte. *)

Open Scope Z_scope.

Definition not_start (c : ascii) : bool := negb (rune_start c).

Lemma cont_not_start lo hi c : 128 ≤ lo → hi ≤ 191 → cont_in lo hi c = true → not_start c = true.
Proof.
  intros Hlo Hhi H. unfold cont_in in H. apply andb_true_iff in H as [H1 H2].
  assert (H : 128 ≤ byte_of c ≤ 191) by lia. clear -H.
  destruct c as [[] [] [] [] [] [] [] []]; vm_compute in H |- *; try done; destruct H; done.
Qed.

Lemma lead_start c : 192 ≤ byte_of c ∨ byte_of c < 128 → rune_start c = true.
Proof.
  intros H. destruct c as [[] [] [] [] [] [] [] []]; vm_compute in H |- *; try done; destruct H; done.
Qed.

(** An encoded rune's bytes: a lead byte, then continuation bytes, which
    decode alike whatever follows them. *)
Definition encodes (b : string) (r : Z) : Prop :=
  ∃ c t, b = String c t ∧ rune_start c = true ∧ all_bytes not_start t = true
    ∧ (∀ rest, decode_rune c (t +:+ rest) = (r, S (String.length t)))
    ∧ ((1 ≤ String.length t)%nat ∨ r ≠ rune_error) ∧ (String.length t ≤ 3)%nat.

Ltac conts :=
  repeat match goal with H : _ && _ = true |- _ => apply andb_true_iff in H as [? ?] end;
  cbn [all_bytes]; repeat (apply andb_true_iff; split); try reflexivity;
  (eapply cont_not_start; [| |eassumption]; repeat case_match; lia).

Lemma decode_rune_inv c s :
  decode_rune c s = (rune_error, 1%nat)
  ∨ ∃ t s' r, s = t +:+ s' ∧ decode_rune c s = (r, S (String.length t)) ∧ encodes (String c t) r.
Proof.
  unfold decode_rune. destruct (byte_of c <? 128) eqn:E0.
  { right. exists "", s, (byte_of c). split_and!; [done|done|].
    exists c, "". split_and!; [done|apply lead_start; lia|done| |right; unfold rune_error; lia|simpl; lia].
    intros rest. unfold decode_rune. by rewrite E0. }
  destruct ((194 <=? byte_of c) && (byte_of c <=? 223)) eqn:E1.
  { destruct s as [|c1 s]; [by left|]. destruct (cont c1) eqn:Ec; [|by left]. right.
    eexists (String c1 ""), s, _. split_and!; [done|done|].
    eexists c, _. split_and!; [done|apply lead_start; lia|conts| |left; simpl; lia|simpl; lia].
    intros rest. unfold decode_rune. rewrite E0, E1. simpl. by rewrite Ec. }
  destruct ((224 <=? byte_of c) && (byte_of c <=? 239)) eqn:E2.
  { destruct s as [|c1 [|c2 s]]; [by left..|]. case_match eqn:Ec; [|by left]. right.
    eexists (String c1 (String c2 "")), s, _. split_and!; [done|done|].
    eexists c, _. split_and!; [done|apply lead_start; lia|conts| |left; simpl; lia|simpl; lia].
    intros rest. unfold decode_rune. rewrite E0, E1, E2. simpl. by rewrite Ec. }
  destruct ((240 <=? byte_of c) && (byte_of c <=? 244)) eqn:E3; [|by left].
  destruct s as [|c1 [|c2 [|c3 s]]]; [by left..|]. case_match eqn:Ec; [|by left]. right.
  eexists (String c1 (String c2 (String c3 ""))), s, _. split_and!; [done|done|].
  eexists c, _. split_and!; [done|apply lead_start; lia|conts| |left; simpl; lia|simpl; lia].
  intros rest. unfold decode_rune. rewrite E0, E1, E2, E3. simpl. by rewrite Ec.
Qed.

Lemma segs_go_skip t s : segs_go (String.length t) (t +:+ s) = segs s.
Proof. induction t as [|c t IH]; [done|apply IH]. Qed.

Lemma segs_encodes b r s : encodes b r → segs (b +:+ s) = (r, b) :: segs s.
Proof.
  intros (c & t & -> & _ & _ & Hd & _ & _). unfold segs. cbn [String.append segs_go].
  rewrite Hd. cbn [Nat.sub]. rewrite Nat.sub_0_r, segs_go_skip. f_equal. f_equal.
  change (String c (t +:+ s)) with (String c t +:+ s).
  change (S (String.length t)) with (String.length (String c t)). apply stake_app.
Qed.

(** Strings as sequences of encoded runes. *)
Inductive runes_of : string → list (Z * string) → Prop :=
  | ro_nil : runes_of "" []
  | ro_cons b r s l : encodes b r → runes_of s l → runes_of (b +:+ s) ((r, b) :: l).

Lemma runes_of_segs s l : runes_of s l → segs s = l.
Proof. induction 1; [done|]. rewrite (segs_encodes _ r) by done. by f_equal. Qed.

Lemma runes_of_valid s l : runes_of s l → valid_utf8 s = true.
Proof.
  intros H. unfold valid_utf8. rewrite (runes_of_segs _ _ H). induction H as [|b r s l He H IH]; [done|].
  simpl. rewrite IH, andb_true_r. destruct He as (c & t & -> & _ & _ & _ & Hr & _).
  apply negb_true_iff, andb_false_iff. simpl. destruct Hr as [Hr|Hr].
  - right. apply Nat.eqb_neq. lia.
  - left. by apply Z.eqb_neq.
Qed.

Lemma valid_runes_of s : valid_utf8 s = true → runes_of s (segs s).
Proof.
  remember (String.length s) as n eqn:Hn. revert s Hn. induction (lt_wf n) as [n _ IH]. intros s -> Hv.
  destruct s as [|c s]; [constructor|].
  destruct (decode_rune_inv c s) as [Hbad|(t & s' & r & -> & Hd & He)].
  - exfalso. unfold valid_utf8, segs in Hv. cbn [segs_go] in Hv. rewrite Hbad in Hv.
    cbn in Hv. rewrite ?andb_false_l in Hv. destruct s; discriminate Hv.
  - change (String c (t +:+ s')) with (String c t +:+ s') in *.
    rewrite (segs_encodes _ r) by done. constructor; [done|].
    eapply IH; [|reflexivity|].
    + rewrite string_app_length. simpl. lia.
    + unfold valid_utf8 in *. rewrite (segs_encodes _ r) in Hv by done. simpl in Hv.
      by apply andb_true_iff in Hv as [_ Hv].
Qed.

(** [s[i:]] starts a rune, or is empty. *)
Definition boundary (s : string) (i : nat) : Prop :=
  match snth i s with Some c => rune_start c = true | None => True end.

Lemma snth_app_l t s i : (i < String.length t)%nat → snth i (t +:+ s) = snth i t.
Proof. revert i. induction t as [|c t IH]; intros [|i]; simpl; try lia; [done|]. intros. apply IH. lia. Qed.

Lemma snth_app_r t s i : snth (String.length t + i) (t +:+ s) = snth i s.
Proof. induction t; [done|]. simpl. done. Qed.

Lemma snth_all p t i c : all_bytes p t = true → snth i t = Some c → p c = true.
Proof.
  revert i. induction t as [|x t IH]; intros [|i]; simpl; [done..| |]; intros [H1 H2]%andb_true_iff.
  - by intros [= <-].
  - by apply IH.
Qed.

Lemma stake_app_le t s i : (String.length t ≤ i)%nat → stake i (t +:+ s) = t +:+ stake (i - String.length t) s.
Proof.
  revert i. induction t as [|c t IH]; intros i; [by rewrite Nat.sub_0_r|].
  destruct i as [|i]; simpl; [lia|]. intros. f_equal. apply IH. lia.
Qed.
Lemma sdrop_app_le t s i : (String.length t ≤ i)%nat → sdrop i (t +:+ s) = sdrop (i - String.length t) s.
Proof.
  revert i. induction t as [|c t IH]; intros i; [by rewrite Nat.sub_0_r|].
  destruct i as [|i]; simpl; [lia|]. intros. apply IH. lia.
Qed.
Lemma snth_app_le t s i : (String.length t ≤ i)%nat → snth i (t +:+ s) = snth (i - String.length t) s.
Proof.
  intros H. rewrite <- (snth_app_r t s). f_equal. lia.
Qed.

(** Cutting a valid string at a boundary leaves two valid strings. *)
Lemma cut_valid s i :
  valid_utf8 s = true → boundary s i → valid_utf8 (stake i s) = true ∧ valid_utf8 (sdrop i s) = true.
Proof.
  intros Hv%valid_runes_of Hb.
  assert (∃ l1 l2, runes_of (stake i s) l1 ∧ runes_of (sdrop i s) l2) as (l1 & l2 & H1 & H2).
  { revert i Hb. induction Hv as [|b r s l He Hv IH]; intros i Hb.
    { exists [], []. destruct i; split; constructor. }
    destruct i as [|i]; [exists [], ((r, b) :: l); split; by constructor|].
    pose proof He as (c & t & -> & _ & Ht & _).
    destruct (decide (String.length t ≤ i)%nat) as [Hle|Hlt].
    - unfold boundary in Hb. rewrite snth_app_le in Hb by (simpl; lia).
      destruct (IH _ Hb) as (l1 & l2 & H1 & H2).
      exists ((r, String c t) :: l1), l2. rewrite stake_app_le, sdrop_app_le by (simpl; lia).
      split; [by constructor|done].
    - exfalso. unfold boundary in Hb. cbn [String.append snth] in Hb.
      rewrite snth_app_l in Hb by lia. destruct (snth i t) as [x|] eqn:Ex.
      + pose proof (snth_all _ _ _ _ Ht Ex) as Hx. unfold not_start in Hx. by rewrite Hb in Hx.
      + clear -Hlt Ex. assert (Hi : (i < String.length t)%nat) by lia. clear Hlt.
        revert i Ex Hi. induction t as [|x t IH]; intros [|i]; simpl; try done; try lia.
        intros. apply (IH i); [done|lia]. }
  split; by eapply runes_of_valid.
Qed.

(** In a valid string a boundary is at most three bytes before any position. *)
Lemma boundary_near s i :
  valid_utf8 s = true → (i ≤ String.length s)%nat → ∃ j, (j ≤ i ∧ i ≤ j + 3)%nat ∧ boundary s j.
Proof.
  intros Hv%valid_runes_of. revert i. induction Hv as [|b r s l He Hv IH]; intros i Hi.
  { exists i. split; [lia|]. by destruct i. }
  pose proof He as (c & t & -> & Hc & Ht & _ & _ & Hlen).
  destruct (decide (String.length t < i)%nat) as [Hlt|Hge].
  - rewrite string_app_length in Hi. cbn [String.length] in Hi.
    destruct (IH (i - S (String.length t))%nat) as (j & Hj & Hb); [lia|].
    exists (S (String.length t) + j)%nat. split; [lia|]. unfold boundary.
    change (S (String.length t)) with (String.length (String c t)). by rewrite snth_app_r.
  - exists 0%nat. split; [lia|]. done.
Qed.

(** ** ASCII *)

Definition plain_ascii (c : ascii) : bool := (byte_of c <? 128) && negb (is_space (byte_of c)).

Lemma encodes_ascii c : byte_of c < 128 → encodes (String c "") (byte_of c).
Proof.
  intros H. exists c, "". split_and!; [done|apply lead_start; lia|done| |right; unfold rune_error; lia|simpl; lia].
  intros rest. unfold decode_rune. by replace (byte_of c <? 128) with true by (symmetry; apply Z.ltb_lt; lia).
Qed.

Lemma segs_plain s :
  all_bytes plain_ascii s = true →
  String.concat "" (segs s).*2 = s ∧ Forall (fun x => is_space x.1 = false) (segs s).
Proof.
  induction s as [|c s IH]; [by split; [|constructor]|].
  cbn [all_bytes]. intros [[Hc Hsp]%andb_true_iff Hs]%andb_true_iff. apply Z.ltb_lt in Hc.
  change (String c s) with (String c "" +:+ s). rewrite (segs_encodes _ _ _ (encodes_ascii c Hc)).
  destruct (IH Hs) as [IH1 IH2]. split; [|constructor; [by apply negb_true_iff|done]].
  rewrite <- IH1 at 2. cbn [fmap list_fmap snd String.concat]. fold (fmap (M:=list) (snd (A:=Z) (B:=string))).
  by destruct ((segs s).*2).
Qed.

Lemma drop_while_none {A} (p : A → bool) l : Forall (fun x => p x = false) l → drop_while p l = l.
Proof. by destruct 1 as [|x l H]; [|simpl; rewrite H]. Qed.

(** Text without white space is what trimming leaves of it. *)
Lemma trim_space_plain s : all_bytes plain_ascii s = true → trim_space s = s.
Proof.
  intros [H1 H2]%segs_plain. unfold trim_space. rewrite (drop_while_none _ _ H2).
  rewrite drop_while_none, rev_involutive; [done|]. by apply Forall_rev.
Qed.

Lemma all_bytes_impl p q s : (∀ c, p c = true → q c = true) → all_bytes p s = true → all_bytes q s = true.
Proof.
  intros H. induction s as [|c s IH]; [done|]. cbn [all_bytes]. rewrite !andb_true_iff. intros [? ?]. auto.
Qed.

Lemma digit_plain c : is_digit c = true → plain_ascii c = true.
Proof.
  unfold is_digit, plain_ascii, is_space. intros [H1 H2]%andb_true_iff.
  apply andb_true_iff. split; [lia|]. apply negb_true_iff. rewrite !orb_false_iff, !andb_false_iff. lia.
Qed.

Lemma itoa_plain n : 0 ≤ n → all_bytes plain_ascii (itoa n) = true.
Proof. intros H. eapply all_bytes_impl; [apply digit_plain|by apply itoa_digits]. Qed.

(** ** Number literals: [strconv.ParseInt(s, 0, 64)], and whether
    [strconv.ParseFloat(s, 64)] reads a zero *)

Module Number.
Definition lower_byte (c : ascii) : Z := Z.lor (byte_of c) 32.
Definition is_char (c : ascii) (z : Z) : bool := lower_byte c =? z.

(** The value of a digit or letter in bases up to 36. *)
Definition digit_of (c : ascii) : option Z :=
  let b := byte_of c in
  if (48 <=? b) && (b <=? 57) then Some (b - 48)
  else let l := lower_byte c in
       if (97 <=? l) && (l <=? 122) then Some (l - 97 + 10) else None.

(** Digits of [base] with underscores skipped. *)
Fixpoint digits_in (base acc : Z) (s : string) : option Z :=
  match s with
  | EmptyString => Some acc
  | String c s =>
    if Ascii.eqb c "_" then digits_in base acc s
    else match digit_of c with
         | Some d => if d <? base then digits_in base (acc * base + d) s else None
         | None => None
         end
  end.

Definition has_underscore (s : string) : bool := contains_byte "_" s.

(** Sign, then the rest. *)
Definition cut_sign (s : string) : bool * string :=
  match s with
  | String c s' => if Ascii.eqb c "-" then (true, s') else if Ascii.eqb c "+" then (false, s') else (false, s)
  | EmptyString => (false, s)
  end.

(** [underscoreOK]: underscores only between digits, or after a base prefix.
    [prev] is 0 at the start, 1 after a digit, 2 after an underscore, 3 after
    anything else. *)
Fixpoint underscore_go (hex : bool) (prev : Z) (s : string) : bool :=
  match s with
  | EmptyString => negb (prev =? 2)
  | String c s =>
    if is_digit c || (hex && (97 <=? lower_byte c) && (lower_byte c <=? 102)) then underscore_go hex 1 s
    else if Ascii.eqb c "_" then (prev =? 1) && underscore_go hex 2 s
    else negb (prev =? 2) && underscore_go hex 3 s
  end.
Definition underscoreOK (s : string) : bool :=
  let s := (cut_sign s).2 in
  match s with
  | String "0" (String c s') =>
    if is_char c 98 || is_char c 111 then underscore_go false 1 s'
    else if is_char c 120 then underscore_go true 1 s'
    else underscore_go false 0 s
  | _ => underscore_go false 0 s
  end.

Definition parse_uint0 (s : string) : option Z :=
  match s with
  | EmptyString => None
  | String "0" rest =>
    match rest with
    | String c (String _ _ as ds) =>
      if is_char c 98 then digits_in 2 0 ds
      else if is_char c 111 then digits_in 8 0 ds
      else if is_char c 120 then digits_in 16 0 ds
      else digits_in 8 0 rest
    | _ => digits_in 8 0 rest
    end
  | _ => digits_in 10 0 s
  end.

(** [strconv.ParseInt(s, 0, 64)] *)
Definition parse_int0 (s : string) : option Z :=
  let '(neg, u) := cut_sign s in
  match parse_uint0 u with
  | None => None
  | Some v =>
    if has_underscore u && negb (underscoreOK u) then None
    else let v := if neg : bool then - v else v in
         if (min_int <=? v) && (v <=? max_int) then Some v else None
  end.

(** The mantissa of a float: digits of [base] (underscores skipped) with at
    most one point; its value, how many digits follow the point, whether any
    digit was read, and the rest. *)
Fixpoint mantissa (base m frac : Z) (point digits : bool) (s : string) : Z * Z * bool * string :=
  match s with
  | EmptyString => (m, frac, digits, s)
  | String c s' =>
    if Ascii.eqb c "_" then mantissa base m frac point digits s'
    else if Ascii.eqb c "." then
      if point then (m, frac, digits, s) else mantissa base m frac true digits s'
    else match digit_of c with
         | Some d =>
           if d <? base then mantissa base (m * base + d) (if point then frac + 1 else frac) point true s'
           else (m, frac, digits, s)
         | None => (m, frac, digits, s)
         end
  end.

(** An exponent's digits, capped as [readFloat] caps them. *)
Fixpoint exponent (e : Z) (s : string) : Z * string :=
  match s with
  | EmptyString => (e, s)
  | String c s' =>
    if Ascii.eqb c "_" then exponent e s'
    else if is_digit c then exponent (if e <? 10000 then e * 10 + digit_val c else e) s'
    else (e, s)
  end.

(** Whether [m * base^e] rounds to zero as a float64: at most half the least
    subnormal number, 2^-1075. *)
Definition rounds_to_zero (m base e : Z) : bool :=
  (m =? 0) || ((e <? 0) && (m * 2 ^ 1075 <=? base ^ (- e))).

Definition special_float (s : string) : bool :=
  existsb (fun x => to_lower (cut_sign s).2 =?s x) ["inf"; "infinity"; "nan"]%string
  && negb ((to_lower s =?s "+nan") || (to_lower s =?s "-nan")).

(** [strconv.ParseFloat(s, 64)]: [Some z] when it parses, with whether the
    value is zero. *)
Definition parse_float_zero (s : string) : option bool :=
  if special_float s then Some false
  else
    let u := (cut_sign s).2 in
    let '(base, ds) := match u with
                       | String "0" (String c (String _ _ as r)) => if is_char c 120 then (16, r) else (10, u)
                       | _ => (10, u)
                       end in
    let '(m, frac, digits, rest) := mantissa base 0 0 false false ds in
    if negb digits || (has_underscore u && negb (underscoreOK u)) then None
    else
      let want := if base =? 16 then 112 else 101 in
      match rest with
      | EmptyString => if base =? 16 then None else Some (rounds_to_zero m 10 (- frac))
      | String c r =>
        if negb (is_char c want) then None
        else
          let '(neg, r) := cut_sign r in
          match r with
          | String d _ =>
            if negb (is_digit d) then None
            else
              let '(e, tail) := exponent 0 r in
              let e := if neg : bool then - e else e in
              if negb (tail =?s "") then None
              else Some (if base =? 16 then rounds_to_zero m 2 (e - 4 * frac) else rounds_to_zero m 10 (e - frac))
          | EmptyString => None
          end
      end.
End Number.
