(* ===== verification/GoPath.v ===== *)
(** * Go paths: [path.Clean], [path.Join], [filepath.Rel] and friends

    The lexical path functions of the standard library on a Unix host (where
    [path] and [path/filepath] agree), by path elements. No definition of
    this file models code of the repository. *)

From S2P Require Import Prelude GoStrings.
From Stdlib Require Import Ascii Bool.

Open Scope Z_scope.

Definition slash : ascii := "/".
Definition is_abs (p : string) : bool := has_prefix "/" p.

(** One element of [Clean]'s input; [out] is the output, last element first. *)
Definition clean_step (rooted : bool) (out : list string) (seg : string) : list string :=
  if (seg =?s "") || (seg =?s ".") then out
  else if seg =?s ".." then
    match out with
    | x :: out' => if x =?s ".." then seg :: out else out'
    | [] => if rooted then out else [seg]
    end
  else seg :: out.

(** The elements of a cleaned path. *)
Definition elems (p : string) : list string :=
  rev (fold_left (clean_step (is_abs p)) (split_on slash p) []).

Definition of_elems (rooted : bool) (es : list string) : string :=
  let body := join "/" es in
  if rooted then "/" +:+ body else if body =?s "" then "." else body.

Definition Clean (p : string) : string := of_elems (is_abs p) (elems p).

(** [path.Join] / [filepath.Join] of two elements. *)
Definition Join (a b : string) : string :=
  if a =?s "" then (if b =?s "" then ""%string else Clean b)
  else if b =?s "" then Clean a else Clean (a +:+ "/" +:+ b).

(** Drop the common prefix of two lists. *)
Fixpoint strip_common (a b : list string) : list string * list string :=
  match a, b with
  | x :: a', y :: b' => if x =?s y then strip_common a' b' else (a, b)
  | _, _ => (a, b)
  end.

(** [filepath.Rel] (None: an error). *)
Definition Rel (base targ : string) : option string :=
  if Clean base =?s Clean targ then Some "."%string
  else if negb (Bool.eqb (is_abs base) (is_abs targ)) then None
  else
    let '(b, t) := strip_common (elems base) (elems targ) in
    match b with
    | ".."%string :: _ => None
    | _ => Some (join "/" (repeat ".."%string (length b) ++ t))
    end.

(** [filepath.Base] *)
Definition Base (p : string) : string :=
  if p =?s "" then "."
  else match List.filter (fun s => negb (s =?s "")) (split_on slash p) with
       | [] => "/"
       | es => List.last es ""
       end.

(** [filepath.Dir] *)
Definition Dir (p : string) : string :=
  match rev (split_on slash p) with
  | _ :: ((_ :: _) as segs) => Clean (join "/" (rev segs) +:+ "/")
  | _ => Clean ""
  end.

Example Dir_examples :
  map Dir ["/a/b/c"; "a/b"; "/x"; "a"; "/"; "a/"; ""; "../a"]%string = ["/a/b"; "a"; "/"; "."; "/"; "a"; "."; ".."]%string.
Proof. vm_compute. reflexivity. Qed.
Example Base_examples : map Base ["/a/b"; "a/"; "/"; ""; "a"]%string = ["b"; "a"; "/"; "."; "a"]%string.
Proof. vm_compute. reflexivity. Qed.
Example Clean_examples :
  map Clean ["/a/../../b"; "a/../.."; "a//b/./c/"; "./a"; "../../x/.."; ""]%string = ["/b"; ".."; "a/b/c"; "a"; "../.."; "."]%string.
Proof. vm_compute. reflexivity. Qed.
Example Rel_examples :
  [Rel "/a" "/a/b/c"; Rel "/a/b" "/a"; Rel "/a" "/a"; Rel "a" "/a"; Rel "/a/b" "/c"]%string
  = [Some "b/c"; Some ".."; Some "."; None; Some "../../c"]%string.
Proof. vm_compute. reflexivity. Qed.

(** ** Facts *)

(** An ordinary element: not empty, "." or "..", and no slash in it. *)
Definition plain_elem (s : string) : bool :=
  negb ((s =?s "") || (s =?s ".") || (s =?s "..")) && negb (contains_byte slash s).

Lemma split_on_no_sep a s : Forall (fun x => contains_byte a x = false) (split_on a s).
Proof.
  induction s as [|c s IH]; simpl; [by repeat constructor|].
  destruct (Ascii.eqb a c) eqn:E; [by constructor|].
  destruct (split_on a s) as [|x l]; [constructor; [simpl; by rewrite E|done]|].
  apply Forall_cons in IH as [Hx Hl]. constructor; [simpl; by rewrite E|done].
Qed.

Lemma clean_step_plain rooted out seg :
  plain_elem seg = true → clean_step rooted out seg = seg :: out.
Proof.
  unfold plain_elem, clean_step. intros [H _]%andb_true_iff.
  apply negb_true_iff, orb_false_iff in H as [H ->].
  apply orb_false_iff in H as [-> ->]. done.
Qed.

(** A rooted cleaned path has ordinary elements only. *)
Lemma clean_fold_plain segs out :
  Forall (fun x => contains_byte slash x = false) segs →
  Forall (fun x => plain_elem x = true) out →
  Forall (fun x => plain_elem x = true) (fold_left (clean_step true) segs out).
Proof.
  revert out. induction segs as [|s segs IH]; intros out Hs Ho; simpl; [done|].
  apply Forall_cons in Hs as [Hc Hs]. apply IH; [done|].
  unfold clean_step. destruct ((s =?s "") || (s =?s ".")) eqn:E1; [done|].
  destruct (s =?s "..") eqn:E2.
  - destruct out as [|x out]; [done|]. apply Forall_cons in Ho as [Hx Ho].
    destruct (x =?s "..") eqn:E3; [|done].
    apply String.eqb_eq in E3 as ->. done.
  - constructor; [|done]. unfold plain_elem. by rewrite E1, E2, Hc.
Qed.

Lemma elems_plain p : is_abs p = true → Forall (fun x => plain_elem x = true) (elems p).
Proof.
  intros Ha. unfold elems. rewrite Ha. apply Forall_rev.
  apply clean_fold_plain; [apply split_on_no_sep|done].
Qed.

Lemma plain_no_slash es :
  Forall (fun x => plain_elem x = true) es → Forall (fun x => contains_byte slash x = false) es.
Proof.
  intros H. eapply Forall_impl; [exact H|]. intros x Hx. unfold plain_elem in Hx.
  apply andb_true_iff in Hx as [_ Hx]. by apply negb_true_iff.
Qed.

Lemma fold_clean_plain rooted es out :
  Forall (fun x => plain_elem x = true) es →
  fold_left (clean_step rooted) es out = rev es ++ out.
Proof.
  revert out. induction es as [|e es IH]; intros out He; simpl; [done|].
  apply Forall_cons in He as [He Hes]. rewrite clean_step_plain, IH by done.
  by rewrite <- app_assoc.
Qed.

Lemma elems_of_rooted es :
  Forall (fun x => plain_elem x = true) es → elems ("/" +:+ join "/" es) = es.
Proof.
  intros He. unfold elems. change (is_abs ("/" +:+ join "/" es)) with true.
  change (split_on slash ("/" +:+ join "/" es)) with (""%string :: split_on slash (join "/" es)).
  simpl fold_left. destruct es as [|e es]; [done|].
  rewrite split_join; [|done|by apply plain_no_slash].
  change (clean_step true [] ""%string) with ([] : list string).
  rewrite fold_clean_plain, app_nil_r by done. apply rev_involutive.
Qed.

Lemma Clean_rooted p : is_abs p = true → Clean p = "/" +:+ join "/" (elems p).
Proof. intros H. unfold Clean, of_elems. by rewrite H. Qed.

Lemma Clean_idem p : is_abs p = true → Clean (Clean p) = Clean p.
Proof.
  intros H. rewrite (Clean_rooted p H). rewrite Clean_rooted by done.
  by rewrite elems_of_rooted by by apply elems_plain.
Qed.

(** Joining ordinary elements below a clean rooted directory appends them. *)
Lemma join_app sep l1 l2 :
  l1 ≠ [] → l2 ≠ [] → join sep (l1 ++ l2) = join sep l1 +:+ sep +:+ join sep l2.
Proof.
  intros H1 H2. induction l1 as [|x l1 IH]; [done|].
  destruct l1 as [|y l1].
  - destruct l2; done.
  - specialize (IH ltac:(done)). cbn [app] in *.
    change (join sep (x :: y :: l1 ++ l2)) with (x +:+ sep +:+ join sep (y :: l1 ++ l2)).
    rewrite IH. change (join sep (x :: y :: l1)) with (x +:+ sep +:+ join sep (y :: l1)).
    by rewrite !string_app_assoc.
Qed.

Lemma split_on_join_app a l s :
  l ≠ [] → Forall (fun x => contains_byte a x = false) l →
  split_on a (join (String a "") l +:+ String a s) = l ++ split_on a s.
Proof.
  intros Hne Hl. induction Hl as [|x l Hx Hl IH]; [done|].
  destruct l as [|y l]; [by apply split_on_app|].
  change (join (String a "") (x :: y :: l)) with (x +:+ String a (join (String a "") (y :: l))).
  rewrite string_app_assoc. cbn [String.append]. rewrite split_on_app by done. by rewrite IH.
Qed.

Lemma Join_rooted dir es :
  Forall (fun x => plain_elem x = true) dir → Forall (fun x => plain_elem x = true) es → es ≠ [] →
  Join ("/" +:+ join "/" dir) (join "/" es) = "/" +:+ join "/" (dir ++ es).
Proof.
  intros Hd He Hne.
  assert (Hj : join "/" es ≠ "").
  { destruct es as [|e es]; [done|]. apply Forall_cons in He as [He _].
    destruct e as [|c e]; [done|]. by destruct es. }
  unfold Join. destruct (String.eqb_spec (join "/" es) ""); [done|].
  destruct (String.eqb_spec ("/" +:+ join "/" dir) ""); [done|].
  set (p := ("/" +:+ join "/" dir) +:+ "/" +:+ join "/" es).
  rewrite (Clean_rooted p) by done. do 2 f_equal. unfold elems.
  change (is_abs p) with true. unfold p. clear p.
  destruct dir as [|d dir].
  - change (split_on slash (("/" +:+ join "/" []) +:+ "/" +:+ join "/" es))
      with (""%string :: ""%string :: split_on slash (join "/" es)).
    simpl fold_left. rewrite split_join by (done || by apply plain_no_slash).
    change (clean_step true (clean_step true [] "") "") with ([] : list string).
    rewrite fold_clean_plain, app_nil_r by done. apply rev_involutive.
  - change (split_on slash (("/" +:+ join "/" (d :: dir)) +:+ "/" +:+ join "/" es))
      with (""%string :: split_on slash (join "/" (d :: dir) +:+ String slash (join "/" es))).
    assert (split_on slash (join "/" (d :: dir) +:+ String slash (join "/" es)) = (d :: dir) ++ es) as ->.
    { etransitivity; [apply (split_on_join_app slash); [done|by apply plain_no_slash]|].
      f_equal. apply (split_join slash); [done|by apply plain_no_slash]. }
    change (fold_left (clean_step true) ("" :: (d :: dir) ++ es) [])
      with (fold_left (clean_step true) ((d :: dir) ++ es) []).
    rewrite fold_clean_plain, app_nil_r by (by apply Forall_app). apply rev_involutive.
Qed.

Lemma strip_common_spec a b a' b' :
  strip_common a b = (a', b') → ∃ pre, a = pre ++ a' ∧ b = pre ++ b'.
Proof.
  revert b. induction a as [|x a IH]; intros b; simpl.
  { intros [= <- <-]. by exists []. }
  destruct b as [|y b]; [intros [= <- <-]; by exists []|].
  destruct (String.eqb_spec x y) as [->|]; [|intros [= <- <-]; by exists []].
  intros H. apply IH in H as (pre & -> & ->). by exists (y :: pre).
Qed.

(** ** Relative paths *)

Lemma clean_fold_relative segs out k :
  Forall (fun x => contains_byte slash x = false) segs →
  Forall (fun x => plain_elem x = true) out →
  ∃ out' k', fold_left (clean_step false) segs (out ++ repeat ".."%string k) = out' ++ repeat ".."%string k'
    ∧ Forall (fun x => plain_elem x = true) out'.
Proof.
  revert out k. induction segs as [|s segs IH]; intros out k Hs Ho; cbn [fold_left]; [by exists out, k|].
  apply Forall_cons in Hs as [Hc Hs]. unfold clean_step at 2. destruct ((s =?s "") || (s =?s ".")) eqn:E1; [by apply IH|].
  destruct (String.eqb_spec s "..") as [->|E2].
  - destruct out as [|x out].
    + cbn [app]. destruct k as [|k]; cbn [repeat]; [apply (IH [] 1%nat); done|]. apply (IH [] (S (S k))); done.
    + cbn [app]. apply Forall_cons in Ho as [Hx Ho]. destruct (String.eqb_spec x "..") as [->|_]; [done|]. by apply IH.
  - apply (IH (s :: out)); [done|]. constructor; [|done]. unfold plain_elem. apply String.eqb_neq in E2. by rewrite E1, E2, Hc.
Qed.

(** A clean relative path that does not start with "..": the directory
    itself, or ordinary elements. *)
Lemma clean_relative p :
  is_abs p = false → Clean p = p → p ≠ ".."%string → has_prefix "../" p = false →
  p = "."%string ∨ ∃ es, es ≠ [] ∧ Forall (fun x => plain_elem x = true) es ∧ p = join "/" es.
Proof.
  intros Ea Ec Edd Ep. unfold Clean, of_elems in Ec. rewrite Ea in Ec.
  destruct (clean_fold_relative (split_on slash p) [] 0%nat) as (out & k & Hf & Ho); [apply split_on_no_sep|done|].
  cbn [app repeat] in Hf. assert (He : elems p = repeat ".."%string k ++ rev out).
  { unfold elems. rewrite Ea, Hf, rev_app_distr. f_equal. clear. induction k as [|k IH]; [done|]. cbn. rewrite IH.
    clear. induction k as [|k IH]; [done|]. cbn. by rewrite IH. }
  rewrite He in Ec. destruct (join "/" _ =?s "") eqn:Ej; [by left|].
  destruct k as [|k].
  - right. exists (rev out). split; [|split; [by apply Forall_rev|done]]. intros Eo. by rewrite Eo in Ej.
  - exfalso. cbn [repeat app] in Ec. destruct (repeat _ k ++ rev out) as [|x l].
    + subst p. done.
    + rewrite <- Ec in Ep. change (join "/" (".."%string :: x :: l)) with ("../" +:+ join "/" (x :: l)) in Ep.
      by rewrite has_prefix_app in Ep.
Qed.
Lemma Base_join es : es ≠ [] → Forall (fun x => plain_elem x = true) es → Base (join "/" es) = List.last es ""%string.
Proof.
  intros Hne Hes. unfold Base. change "/"%string with (String slash "").
  rewrite split_join by (done || by apply plain_no_slash).
  assert (List.filter (fun s => negb (s =?s "")) es = es) as ->.
  { clear Hne. induction Hes as [|x es Hx Hes IH]; [done|]. cbn. rewrite IH. by destruct x. }
  destruct (String.eqb_spec (join (String slash "") es) "") as [E|_]; [|by destruct es].
  destruct es as [|x [|y es]]; [done| |]; cbn in E; apply list.Forall_cons in Hes as [Hx _]; by destruct x.
Qed.
