(* ===== verification/Frame.v ===== *)
(** * DAP base-protocol framing (internal/dap/frame.go)

    [ReadMessage], its header reader and [writeMessage]. A [bufio.Reader] is
    the bytes it will still deliver and the error it reports after them; every
    reader also returns the reader's state, so how much of the stream a
    failed read consumed is part of the model. *)

From S2P Require Import Prelude GoStrings.
From Stdlib Require Import Ascii Bool.

Open Scope Z_scope.

(** What a read reports at the end of the bytes. *)
Inductive io_error := EOF | UnexpectedEOF | OtherIO (what : string).
#[global] Instance io_error_eq_dec : EqDecision io_error.
Proof. solve_decision. Defined.

Record reader := mkReader { r_bytes : string; r_end : io_error }.

(** The errors of [ReadMessage]: [ErrFraming], [*TooLargeError] (which wraps
    it) and I/O errors. *)
Inductive frame_error :=
  | ErrFraming
  | TooLargeError (Size Max : Z)
  | IOError (e : io_error).

Inductive fresult (A : Type) := FOk (a : A) | FErr (e : frame_error).
Arguments FOk {A} a.
Arguments FErr {A} e.

Definition maxLengthDigits : nat := 10.
Definition contentLengthPrefix : string := "Content-Length: ".
Definition CR : ascii := ascii_of 13.
Definition LF : ascii := ascii_of 10.

Definition ReadByte (r : reader) : (io_error + ascii) * reader :=
  match r_bytes r with
  | EmptyString => (inl (r_end r), r)
  | String c s => (inr c, mkReader s (r_end r))
  end.

(** [errors.Is(err, io.EOF)] holds of [io.EOF] alone. *)
Definition unexpectedEOF (e : io_error) : io_error :=
  match e with EOF => UnexpectedEOF | _ => e end.

(** The loop of [readLength] over the bytes [s] still unread: [digits] digits
    read so far, of value [n] (an [int64]). *)
Fixpoint readLength_go (digits : nat) (n : Z) (s : string) (e : io_error) : fresult Z * reader :=
  match s with
  | EmptyString => (FErr (IOError (unexpectedEOF e)), mkReader "" e)
  | String b s' =>
    if is_digit b && (digits <? maxLengthDigits)%nat then
      readLength_go (S digits) (wrap64 (n * 10 + digit_val b)) s' e
    else if Ascii.eqb b CR && (0 <? digits)%nat then (FOk n, mkReader s' e)
    else (FErr ErrFraming, mkReader s' e)
  end.
Definition readLength (r : reader) : fresult Z * reader :=
  readLength_go 0 0 (r_bytes r) (r_end r).

(** Byte by byte, the bytes of [want]; [first] is whether nothing of the
    message has been read yet. The two loops of [readHeader]. *)
Fixpoint expect (first : bool) (want : string) (r : reader) : fresult unit * reader :=
  match want with
  | EmptyString => (FOk (), r)
  | String w want' =>
    match ReadByte r with
    | (inl e, r') => (FErr (IOError (if first then e else unexpectedEOF e)), r')
    | (inr b, r') =>
      if Ascii.eqb b w then expect false want' r' else (FErr ErrFraming, r')
    end
  end.

Definition readHeader (r : reader) : fresult Z * reader :=
  match expect true contentLengthPrefix r with
  | (FErr e, r) => (FErr e, r)
  | (FOk _, r) =>
    match readLength r with
    | (FErr e, r) => (FErr e, r)
    | (FOk n, r) =>
      match expect false (String LF (String CR (String LF ""))) r with
      | (FErr e, r) => (FErr e, r)
      | (FOk _, r) => (FOk n, r)
      end
    end
  end.

(** [io.ReadFull] of [n] bytes. *)
Definition ReadFull (n : nat) (r : reader) : (io_error + string) * reader :=
  if (n <=? String.length (r_bytes r))%nat then
    (inr (stake n (r_bytes r)), mkReader (sdrop n (r_bytes r)) (r_end r))
  else
    let e := match r_bytes r, r_end r with
             | String _ _, EOF => UnexpectedEOF
             | _, e => e
             end in
    (inl e, mkReader "" (r_end r)).

Definition ReadMessage (r : reader) (maxContent : Z) : fresult string * reader :=
  match readHeader r with
  | (FErr e, r) => (FErr e, r)
  | (FOk n, r) =>
    if maxContent <? n then (FErr (TooLargeError n maxContent), r)
    else
      match ReadFull (Z.to_nat n) r with
      | (inl e, r) => (FErr (IOError (unexpectedEOF e)), r)
      | (inr content, r) => (FOk content, r)
      end
  end.

(** The bytes [writeMessage] writes, in one write. *)
Definition writeMessage (content : string) : string :=
  contentLengthPrefix +:+ itoa (slen content) +:+ String CR (String LF (String CR (String LF ""))) +:+ content.

(** ** The readers, byte string by byte string *)

Lemma expect_app first want s e :
  expect first want (mkReader (want +:+ s) e) = (FOk (), mkReader s e).
Proof.
  revert first. induction want as [|w want IH]; intros first; simpl; [done|].
  rewrite Ascii.eqb_refl. apply IH.
Qed.

Lemma expect_inv first want r r' :
  expect first want r = (FOk (), r') →
  r_bytes r = want +:+ r_bytes r' ∧ r_end r' = r_end r.
Proof.
  revert first r. induction want as [|w want IH]; intros first [s e]; simpl; [by intros [= <-]|].
  destruct s as [|b s]; simpl; [done|].
  destruct (Ascii.eqb_spec b w) as [->|]; [|done].
  intros H. apply IH in H as [Hs He]. simpl in *. by rewrite Hs.
Qed.

(** Whatever it answers, a reader only ever moves forward. *)
Definition consumed (n : nat) (r r' : reader) : Prop :=
  ∃ p, r_bytes r = p +:+ r_bytes r' ∧ (String.length p ≤ n)%nat.

Lemma consumed_refl n r : consumed n r r.
Proof. exists "". simpl. split; [done|lia]. Qed.

Lemma consumed_trans n1 n2 r1 r2 r3 :
  consumed n1 r1 r2 → consumed n2 r2 r3 → consumed (n1 + n2) r1 r3.
Proof.
  intros (p1 & H1 & L1) (p2 & H2 & L2). exists (p1 +:+ p2).
  rewrite H1, H2, string_app_assoc, string_app_length. split; [done|lia].
Qed.

Lemma consumed_mono n m r r' : consumed n r r' → (n ≤ m)%nat → consumed m r r'.
Proof. intros (p & H & L) Hm. exists p. split; [done|lia]. Qed.

Lemma expect_consumed first want r : consumed (String.length want) r (expect first want r).2.
Proof.
  revert first r. induction want as [|w want IH]; intros first [s e]; simpl; [apply consumed_refl|].
  destruct s as [|b s]; simpl; [apply consumed_refl|].
  destruct (Ascii.eqb b w).
  - destruct (IH false (mkReader s e)) as (p & Hp & Hl). exists (String b p). simpl in *.
    split; [by f_equal|lia].
  - exists (String b ""). split; [done|simpl; lia].
Qed.

Lemma readLength_go_consumed digits n s e :
  (digits ≤ maxLengthDigits)%nat →
  consumed (11 - digits) (mkReader s e) (readLength_go digits n s e).2.
Proof.
  unfold maxLengthDigits.
  revert digits n. induction s as [|b s IH]; intros digits n Hd; simpl; [apply consumed_refl|].
  destruct (is_digit b && (digits <? maxLengthDigits)%nat) eqn:E; unfold maxLengthDigits in E.
  - apply andb_true_iff in E as [_ E%Nat.ltb_lt].
    destruct (IH (S digits) (wrap64 (n * 10 + digit_val b))) as (p & Hp & Hl); [lia|].
    exists (String b p). simpl in *. split; [by f_equal|lia].
  - exists (String b ""). destruct (Ascii.eqb b CR && (0 <? digits)%nat); simpl; (split; [done|lia]).
Qed.

Lemma is_digit_val b : is_digit b = true → 0 ≤ digit_val b < 10.
Proof. unfold is_digit, digit_val. lia. Qed.

(** Ten digits never overflow an [int64]. *)
Lemma readLength_go_bound digits n s e v r' :
  (digits ≤ maxLengthDigits)%nat → 0 ≤ n < 10 ^ Z.of_nat digits →
  readLength_go digits n s e = (FOk v, r') →
  ∃ ds, s = ds +:+ String CR (r_bytes r') ∧ r_end r' = e ∧ all_bytes is_digit ds = true
    ∧ (1 ≤ digits + String.length ds ≤ maxLengthDigits)%nat
    ∧ v = digits_val n ds ∧ 0 ≤ v < 10 ^ 10.
Proof.
  unfold maxLengthDigits.
  revert digits n. induction s as [|b s IH]; intros digits n Hd Hn; simpl; [done|].
  destruct (is_digit b && (digits <? maxLengthDigits)%nat) eqn:E; unfold maxLengthDigits in E.
  - apply andb_true_iff in E as [Hb E%Nat.ltb_lt].
    pose proof (is_digit_val b Hb).
    assert (10 ^ Z.of_nat (S digits) = 10 * 10 ^ Z.of_nat digits)
      by (rewrite Nat2Z.inj_succ, Z.pow_succ_r; lia).
    assert (10 ^ Z.of_nat (S digits) ≤ 10 ^ 10) by (apply Z.pow_le_mono_r; lia).
    rewrite wrap64_id by (unfold min_int, max_int; lia).
    intros Hr. apply IH in Hr as (ds & -> & He & Hds & Hl & -> & Hv); [|lia|lia].
    exists (String b ds). simpl. rewrite Hb, Hds. split_and!; try done; lia.
  - destruct (Ascii.eqb_spec b CR) as [->|]; simpl; [|done].
    destruct (Nat.ltb_spec 0 digits); [|done]. intros [= <- <-].
    exists "". simpl. split_and!; try done; try lia.
    assert (10 ^ Z.of_nat digits ≤ 10 ^ 10) by (apply Z.pow_le_mono_r; lia). lia.
Qed.

Lemma readLength_go_digits digits n ds s e :
  all_bytes is_digit ds = true → (1 ≤ digits + String.length ds ≤ maxLengthDigits)%nat →
  0 ≤ n < 10 ^ Z.of_nat digits →
  readLength_go digits n (ds +:+ String CR s) e = (FOk (digits_val n ds), mkReader s e).
Proof.
  unfold maxLengthDigits.
  revert digits n. induction ds as [|b ds IH]; intros digits n Hds Hl Hn; simpl in *.
  - unfold maxLengthDigits. destruct (Nat.ltb_spec 0 digits); [done|lia].
  - apply andb_true_iff in Hds as [Hb Hds]. rewrite Hb.
    destruct (Nat.ltb_spec digits maxLengthDigits); [|unfold maxLengthDigits in *; lia]. simpl.
    pose proof (is_digit_val b Hb).
    assert (10 ^ Z.of_nat (S digits) = 10 * 10 ^ Z.of_nat digits)
      by (rewrite Nat2Z.inj_succ, Z.pow_succ_r; lia).
    assert (10 ^ Z.of_nat (S digits) ≤ 10 ^ 10) by (apply Z.pow_le_mono_r; lia).
    rewrite wrap64_id by (unfold min_int, max_int; lia).
    apply IH; [done|lia|lia].
Qed.

(** A header, as the base protocol defines it. *)
Definition header_of (ds : string) : string :=
  contentLengthPrefix +:+ ds +:+ String CR (String LF (String CR (String LF ""))).

Lemma readHeader_header ds s e :
  all_bytes is_digit ds = true → (1 ≤ String.length ds ≤ maxLengthDigits)%nat →
  readHeader (mkReader (header_of ds +:+ s) e) = (FOk (digits_val 0 ds), mkReader s e).
Proof.
  intros Hds Hl. unfold readHeader, header_of. rewrite !string_app_assoc.
  rewrite expect_app. unfold readLength. simpl r_bytes. simpl r_end.
  change (String CR (String LF (String CR (String LF ""))) +:+ s)
    with (String CR (String LF (String CR (String LF "")) +:+ s)).
  rewrite readLength_go_digits by (simpl; done || lia).
  reflexivity.
Qed.

Lemma readHeader_inv r n r' :
  readHeader r = (FOk n, r') →
  ∃ ds, r_bytes r = header_of ds +:+ r_bytes r' ∧ r_end r' = r_end r
    ∧ all_bytes is_digit ds = true ∧ (1 ≤ String.length ds ≤ maxLengthDigits)%nat
    ∧ n = digits_val 0 ds ∧ 0 ≤ n < 10 ^ 10.
Proof.
  unfold readHeader. destruct (expect true _ r) as [[[]|] r1] eqn:E1; [|done].
  apply expect_inv in E1 as [E1 He1].
  destruct (readLength r1) as [[n'|] r2] eqn:E2; [|done].
  destruct (expect false _ r2) as [[[]|] r3] eqn:E3; [|done].
  apply expect_inv in E3 as [E3 He3]. intros [= -> ->].
  apply readLength_go_bound in E2 as (ds & Hs & He2 & Hds & Hl & Hv & Hb); [|unfold maxLengthDigits; lia|simpl; lia].
  exists ds. unfold header_of. rewrite E1, Hs, E3, !string_app_assoc. simpl.
  split_and!; try done; try lia. congruence.
Qed.

Lemma readLength_consumed r : consumed 11 r (readLength r).2.
Proof.
  destruct r as [s e]. apply (readLength_go_consumed 0 0). unfold maxLengthDigits. lia.
Qed.

Lemma readHeader_consumed r : consumed 30 r (readHeader r).2.
Proof.
  unfold readHeader.
  pose proof (expect_consumed true contentLengthPrefix r) as H1.
  destruct (expect true contentLengthPrefix r) as [[[]|] r1]; cbn [snd] in *;
    [|by apply (consumed_mono 16); [|lia]].
  pose proof (readLength_consumed r1) as H2.
  destruct (readLength r1) as [[n|] r2]; cbn [snd] in *.
  - pose proof (expect_consumed false (String LF (String CR (String LF ""))) r2) as H3.
    destruct (expect false _ r2) as [[[]|] r3]; cbn [snd] in *;
      apply (consumed_mono (16 + (11 + 3))); [|lia| |lia];
      (eapply consumed_trans; [exact H1|]; eapply consumed_trans; [exact H2|exact H3]).
  - apply (consumed_mono (16 + 11)); [|lia]. eapply consumed_trans; [exact H1|exact H2].
Qed.

Lemma writeMessage_header content : writeMessage content = header_of (itoa (slen content)) +:+ content.
Proof. unfold writeMessage, header_of. by rewrite !string_app_assoc. Qed.

(** A message under a header that announces its length is read back. *)
Lemma ReadMessage_header ds content rest e maxContent :
  all_bytes is_digit ds = true → (1 ≤ String.length ds ≤ maxLengthDigits)%nat →
  digits_val 0 ds = slen content → slen content ≤ maxContent →
  ReadMessage (mkReader (header_of ds +:+ content +:+ rest) e) maxContent
  = (FOk content, mkReader rest e).
Proof.
  intros Hds Hl Hv Hmax. unfold ReadMessage. rewrite readHeader_header by done. rewrite Hv.
  destruct (Z.ltb_spec maxContent (slen content)); [lia|].
  unfold ReadFull, slen. simpl. rewrite Nat2Z.id, string_app_length.
  destruct (Nat.leb_spec (String.length content) (String.length content + String.length rest)); [|lia].
  by rewrite stake_app, sdrop_app.
Qed.

Lemma ReadMessage_frame content rest e maxContent :
  slen content ≤ maxContent → slen content < 10 ^ 10 →
  ReadMessage (mkReader (writeMessage content +:+ rest) e) maxContent
  = (FOk content, mkReader rest e).
Proof.
  intros Hmax H10. assert (0 ≤ slen content) by (unfold slen; lia).
  rewrite writeMessage_header, string_app_assoc. apply ReadMessage_header; try done.
  - by apply itoa_digits.
  - apply (itoa_length _ 9). simpl. lia.
  - by apply digits_val_itoa_0.
Qed.

(** ** Properties *)

(** The frames of a sequence of messages. *)
Fixpoint writeAll (l : list string) : string :=
  match l with [] => "" | c :: l => writeMessage c +:+ writeAll l end.

(** [n] reads in a row, stopping at the first error. *)
Fixpoint readAll (n : nat) (r : reader) (maxContent : Z) : fresult (list string) * reader :=
  match n with
  | O => (FOk [], r)
  | S n =>
    match ReadMessage r maxContent with
    | (FErr e, r) => (FErr e, r)
    | (FOk c, r) =>
      match readAll n r maxContent with
      | (FErr e, r) => (FErr e, r)
      | (FOk l, r) => (FOk (c :: l), r)
      end
    end
  end.

(** What [writeMessage] writes, [ReadMessage] reads back, message by
    message, whatever follows on the connection. *)
Theorem readAll_writeAll l rest e maxContent :
  Forall (fun c => slen c ≤ maxContent ∧ slen c < 10 ^ 10) l →
  readAll (length l) (mkReader (writeAll l +:+ rest) e) maxContent = (FOk l, mkReader rest e).
Proof.
  intros Hl. induction Hl as [|c l [Hm Hc] Hl IH]; [done|]. cbn [length readAll writeAll].
  rewrite string_app_assoc, ReadMessage_frame by done. by rewrite IH.
Qed.

(** C32: [ReadMessage] accepts exactly the DAP framing language: a
    Content-Length header of one to ten digits, a blank line, and a content of
    that many bytes, at most [maxContent]; it returns that content and leaves
    the reader just behind it. *)
Theorem ReadMessage_language r maxContent c r' :
  ReadMessage r maxContent = (FOk c, r') ↔
  ∃ ds, r_bytes r = header_of ds +:+ c +:+ r_bytes r' ∧ r_end r' = r_end r
    ∧ all_bytes is_digit ds = true ∧ (1 ≤ String.length ds ≤ maxLengthDigits)%nat
    ∧ digits_val 0 ds = slen c ∧ slen c ≤ maxContent.
Proof.
  split.
  - unfold ReadMessage. destruct (readHeader r) as [[n|] r1] eqn:E; [|done].
    apply readHeader_inv in E as (ds & Hr & He & Hds & Hl & Hn & Hb).
    destruct (Z.ltb_spec maxContent n); [done|]. unfold ReadFull.
    destruct (Nat.leb_spec (Z.to_nat n) (String.length (r_bytes r1))) as [Hle|]; [|done].
    intros [= <- <-]. exists ds. simpl. rewrite stake_sdrop, Hr.
    assert (Hc : slen (stake (Z.to_nat n) (r_bytes r1)) = n)
      by (unfold slen; rewrite stake_length; lia).
    rewrite Hc. split_and!; try done; lia.
  - destruct r as [s e], r' as [s' e']. simpl.
    intros (ds & -> & -> & Hds & Hl & Hv & Hm).
    by apply ReadMessage_header.
Qed.

(** A failed read that is not an I/O error has consumed at most the 30
    bytes of the longest header, so a peer that sends garbage is never
    buffered. *)
Theorem ReadMessage_header_bound r maxContent e r' :
  ReadMessage r maxContent = (FErr e, r') →
  (∀ io, e ≠ IOError io) → consumed 30 r r'.
Proof.
  unfold ReadMessage. destruct (readHeader r) as [[n|e0] r1] eqn:E.
  - pose proof (readHeader_consumed r) as Hc. rewrite E in Hc.
    destruct (maxContent <? n); [by intros [= <- <-]|].
    destruct (ReadFull _ _) as [[io|] ?]; intros [= <- <-]; naive_solver.
  - pose proof (readHeader_consumed r) as Hc. rewrite E in Hc. by intros [= <- <-].
Qed.

(** After a [TooLargeError] a reader that skips [Size] bytes is at the byte
    after the message: the stream stays in sync. *)
(** A message over the limit is reported with its size and the limit,
    its header consumed, so that the caller can skip the content and read the
    next message. *)
Theorem ReadMessage_too_large content rest e maxContent :
  maxContent < slen content < 10 ^ 10 →
  ReadMessage (mkReader (writeMessage content +:+ rest) e) maxContent
    = (FErr (TooLargeError (slen content) maxContent), mkReader (content +:+ rest) e)
  ∧ sdrop (Z.to_nat (slen content)) (content +:+ rest) = rest.
Proof.
  intros Hs. assert (0 ≤ slen content) by (unfold slen; lia). split.
  - unfold ReadMessage. rewrite writeMessage_header, string_app_assoc, readHeader_header.
    + rewrite digits_val_itoa_0 by done. by destruct (Z.ltb_spec maxContent (slen content)); [|lia].
    + by apply itoa_digits.
    + apply (itoa_length _ 9). simpl. lia.
  - unfold slen. rewrite Nat2Z.id. apply sdrop_app.
Qed.

(** ** Witnesses *)

Lemma readAll_writeAll_witness :
  readAll 2 (mkReader (writeAll ["{}"; ""] +:+ "Con") EOF) 4 = (FOk ["{}"; ""]%string, mkReader "Con" EOF).
Proof.
  apply (readAll_writeAll ["{}"; ""] "Con" EOF 4).
  repeat constructor; vm_compute; intuition discriminate.
Defined.

Lemma ReadMessage_header_bound_witness :
  ∃ r', ReadMessage (mkReader "Content-Length: 7x rest of the stream" EOF) 100 = (FErr ErrFraming, r')
    ∧ consumed 30 (mkReader "Content-Length: 7x rest of the stream" EOF) r'.
Proof.
  eexists. split; [vm_compute; reflexivity|].
  eapply (ReadMessage_header_bound _ 100); [vm_compute; reflexivity|].
  intros io. discriminate.
Defined.

Lemma ReadMessage_too_large_witness :
  ReadMessage (mkReader (writeMessage "12345" +:+ "next") EOF) 3
  = (FErr (TooLargeError 5 3), mkReader "12345next" EOF).
Proof. apply (ReadMessage_too_large "12345" "next" EOF 3). vm_compute. split; reflexivity. Defined.
