(* ===== verification/Api.v ===== *)
(** * The API's data (internal/api)

    The records and enumerations the session core exchanges with its clients,
    with the source's fields; the parsers of client ids, lease policies,
    exception modes and group names. A Go string enumeration is an inductive
    type with the source's constants (and, where the code has a default case
    for other strings, a constructor for them). Times are nanoseconds. *)

From S2P Require Import Prelude GoStrings.
From Stdlib Require Import Ascii Bool.

Open Scope Z_scope.

(** ** Clients (client.go) *)

Definition KindAgent : string := "agent".
Definition KindHuman : string := "human".
Definition DefaultClientID : string := KindAgent.
Definition maxClientName : Z := 64.

Record Client := mkClient { c_ID : string; c_Kind : string; c_Name : string }.
#[global] Instance Client_eq_dec : EqDecision Client.
Proof. solve_decision. Defined.

(** [api.Client{}]: nobody. *)
Definition noClient : Client := mkClient "" "" "".

Definition IsHuman (c : Client) : bool := c_Kind c =?s KindHuman.

Definition validClientRune (r : Z) : bool :=
  ((97 <=? r) && (r <=? 122)) || ((65 <=? r) && (r <=? 90)) || ((48 <=? r) && (r <=? 57))
  || existsb (fun c => byte_of c =? r) (String.list_ascii_of_string "._@+-").
Definition validClientName (name : string) : bool :=
  negb ((name =?s "") || (maxClientName <? slen name)) && forallb validClientRune (runes name).

Definition ParseClient (s : string) : result Client :=
  if s =?s "" then Ok (mkClient DefaultClientID KindAgent "")
  else
    let '(kind, name, hasName) :=
      match cut_at ":" s with
      | Some (k, n) => (k, n, true)
      | None => (s, ""%string, false)
      end in
    if (negb (kind =?s KindAgent) && negb (kind =?s KindHuman))
       || (hasName && negb (validClientName name))
    then Err (NewError CodeInvalidRequest
           ("invalid client " +:+ quote s +:+ ": want agent, human, agent:NAME or human:NAME "
            +:+ "(NAME: 1 to 64 of letters, digits and . _ @ + -)"))
    else Ok (mkClient s kind name).

Record ClientInfo := mkClientInfo {
  ci_Client : Client; ci_FirstSeen : Z; ci_LastSeen : Z; ci_Connected : Z }.
#[global] Instance eta_ClientInfo : Eta ClientInfo :=
  fun r => mkClientInfo (ci_Client r) (ci_FirstSeen r) (ci_LastSeen r) (ci_Connected r).

(** ** The control lease (lease.go) *)

Inductive LeasePolicy := LeaseFree | LeaseHandoff | LeaseHumanPriority | LeaseOther (name : string).
#[global] Instance LeasePolicy_eq_dec : EqDecision LeasePolicy.
Proof. solve_decision. Defined.

Definition LeasePolicies : list LeasePolicy := [LeaseFree; LeaseHandoff; LeaseHumanPriority].
Definition policy_name (p : LeasePolicy) : string :=
  match p with
  | LeaseFree => "free" | LeaseHandoff => "handoff" | LeaseHumanPriority => "human-priority"
  | LeaseOther s => s
  end.

Definition ParseLeasePolicy (s : string) : result LeasePolicy :=
  if s =?s "" then Ok LeaseFree
  else match List.find (fun p => policy_name p =?s s) LeasePolicies with
       | Some p => Ok p
       | None => Err (NewError CodeInvalidRequest
           ("invalid lease policy " +:+ quote s +:+ ": want free, handoff or human-priority"))
       end.

Definition MaxLeaseRequestMessage : Z := 200.

Record LeaseRequest := mkLeaseRequest { lr_Client : string; lr_Message : string; lr_At : Z }.
Record LeaseInfo := mkLeaseInfo {
  li_Policy : LeasePolicy; li_Holder : string; li_Since : option Z; li_Requests : list LeaseRequest }.
#[global] Instance eta_LeaseInfo : Eta LeaseInfo :=
  fun r => mkLeaseInfo (li_Policy r) (li_Holder r) (li_Since r) (li_Requests r).

(** ** Sessions, stops and breakpoints (session.go) *)

Inductive SessionState := StateStarting | StateRunning | StateStopped | StateExited | StateLost.
#[global] Instance SessionState_eq_dec : EqDecision SessionState.
Proof. solve_decision. Defined.
Definition state_name (s : SessionState) : string :=
  match s with
  | StateStarting => "starting" | StateRunning => "running" | StateStopped => "stopped"
  | StateExited => "exited" | StateLost => "lost"
  end.

(** How a session gets its program: launched (""), attached or a test run. *)
Inductive Mode := ModeLaunch | ModeAttach | ModeTest.
#[global] Instance Mode_eq_dec : EqDecision Mode.
Proof. solve_decision. Defined.
Definition mode_name (m : Mode) : string :=
  match m with ModeLaunch => "" | ModeAttach => "attach" | ModeTest => "test" end.

Record StopBreakpoint := mkStopBreakpoint { sb_ID : Z; sb_Owner : string }.
Record StopInfo := mkStopInfo {
  si_Reason : string; si_ThreadID : Z; si_Description : string; si_Text : string;
  si_AllThreadsStopped : bool; si_Breakpoints : list StopBreakpoint }.
#[global] Instance eta_StopInfo : Eta StopInfo :=
  fun r => mkStopInfo (si_Reason r) (si_ThreadID r) (si_Description r) (si_Text r)
    (si_AllThreadsStopped r) (si_Breakpoints r).
Definition noStop : StopInfo := mkStopInfo "" 0 "" "" false [].

Record BreakpointSpec := mkSpec {
  sp_File : string; sp_Line : Z; sp_Condition : string; sp_Function : string;
  sp_Anchor : string; sp_HitCondition : string; sp_LogMessage : string }.
#[global] Instance eta_BreakpointSpec : Eta BreakpointSpec :=
  fun r => mkSpec (sp_File r) (sp_Line r) (sp_Condition r) (sp_Function r) (sp_Anchor r)
    (sp_HitCondition r) (sp_LogMessage r).

Record Breakpoint := mkBreakpoint {
  b_ID : Z; b_File : string; b_RequestedLine : Z; b_Line : Z; b_Verified : bool;
  b_Message : string; b_Condition : string; b_Temporary : bool; b_Owner : string;
  b_CreatedAt : Z; b_Note : string; b_Function : string; b_Anchor : string;
  b_HitCondition : string; b_LogMessage : string; b_Hits : Z; b_Editor : bool }.
#[global] Instance eta_Breakpoint : Eta Breakpoint :=
  fun r => mkBreakpoint (b_ID r) (b_File r) (b_RequestedLine r) (b_Line r) (b_Verified r)
    (b_Message r) (b_Condition r) (b_Temporary r) (b_Owner r) (b_CreatedAt r) (b_Note r)
    (b_Function r) (b_Anchor r) (b_HitCondition r) (b_LogMessage r) (b_Hits r) (b_Editor r).
Definition zeroBreakpoint : Breakpoint :=
  mkBreakpoint 0 "" 0 0 false "" "" false "" 0 "" "" "" "" "" 0 false.

Record Frame := mkFrame { fr_Index : Z; fr_Name : string; fr_File : string; fr_Line : Z; fr_Column : Z }.
Record OutputLine := mkOutputLine { ol_Seq : Z; ol_Category : string; ol_Text : string }.
#[global] Instance eta_OutputLine : Eta OutputLine :=
  fun r => mkOutputLine (ol_Seq r) (ol_Category r) (ol_Text r).

(** A variable; [v_Children] are filled only up to the requested depth. *)
Inductive Var := mkVar {
  v_Name : string; v_Type : string; v_Value : string; v_HasChildren : bool; v_Children : list Var;
  v_More : Z; v_Change : string; v_Previous : string }.
#[global] Instance eta_Var : Eta Var :=
  fun r => mkVar (v_Name r) (v_Type r) (v_Value r) (v_HasChildren r) (v_Children r) (v_More r)
    (v_Change r) (v_Previous r).
Record Scope := mkScope {
  sc_Name : string; sc_Vars : list Var; sc_More : Z; sc_Expensive : bool; sc_Truncated : bool }.
#[global] Instance eta_Scope : Eta Scope :=
  fun r => mkScope (sc_Name r) (sc_Vars r) (sc_More r) (sc_Expensive r) (sc_Truncated r).
Record Changes := mkChanges { ch_NewFrame : bool; ch_Vars : list Var; ch_More : Z; ch_Truncated : bool }.

(** A line of source (session.go). *)
Record SourceLine := mkSourceLine { sl_Line : Z; sl_Text : string; sl_Current : bool }.

(** An exception, with its inner ones (breadth.go). *)

Inductive ExceptionInfo := mkExceptionInfo {
  x_ID : string; x_Description : string; x_BreakMode : string; x_Type : string; x_Message : string;
  x_StackTrace : string; x_Inner : list ExceptionInfo; x_Truncated : bool }.
#[global] Instance eta_ExceptionInfo : Eta ExceptionInfo :=
  fun r => mkExceptionInfo (x_ID r) (x_Description r) (x_BreakMode r) (x_Type r) (x_Message r)
    (x_StackTrace r) (x_Inner r) (x_Truncated r).

(** ** Exception modes (breadth.go) *)

Inductive ExceptionMode := ExceptionsNone | ExceptionsUncaught | ExceptionsAll.
#[global] Instance ExceptionMode_eq_dec : EqDecision ExceptionMode.
Proof. solve_decision. Defined.
Definition ExceptionModes : list ExceptionMode := [ExceptionsNone; ExceptionsUncaught; ExceptionsAll].
Definition exception_mode_name (m : ExceptionMode) : string :=
  match m with ExceptionsNone => "none" | ExceptionsUncaught => "uncaught" | ExceptionsAll => "all" end.

Definition ParseExceptionMode (s : string) : result ExceptionMode :=
  match List.find (fun m => exception_mode_name m =?s s) ExceptionModes with
  | Some m => Ok m
  | None => Err (NewError CodeInvalidRequest ("unknown exception mode " +:+ quote s))
  end.

Record ClientExceptionMode := mkCEM { cm_Client : string; cm_Mode : ExceptionMode }.
Record ExceptionsResult := mkExceptionsResult {
  xr_SessionID : string; xr_Modes : list ClientExceptionMode; xr_Filters : list string }.

(** ** Events (events.go) *)

Inductive EventKind :=
  | EventStarted | EventClient | EventLease | EventExec | EventContinued | EventStopped
  | EventOutput | EventBreakpoint | EventThread | EventExited | EventEnded | EventExceptions.
#[global] Instance EventKind_eq_dec : EqDecision EventKind.
Proof. solve_decision. Defined.
Definition EventKinds : list EventKind :=
  [EventStarted; EventClient; EventLease; EventExec; EventContinued; EventStopped;
   EventOutput; EventBreakpoint; EventThread; EventExited; EventEnded; EventExceptions].
Definition kind_name (k : EventKind) : string :=
  match k with
  | EventStarted => "started" | EventClient => "client" | EventLease => "lease"
  | EventExec => "exec" | EventContinued => "continued" | EventStopped => "stopped"
  | EventOutput => "output" | EventBreakpoint => "breakpoint" | EventThread => "thread"
  | EventExited => "exited" | EventEnded => "ended" | EventExceptions => "exceptions"
  end.

Definition MaxEventsLimit : Z := 1000.

Record Event := mkEvent {
  ev_Seq : Z; ev_Time : Z; ev_Kind : EventKind; ev_Client : string; ev_Action : string;
  ev_Program : string; ev_Lease : option LeaseInfo; ev_Previous : string;
  ev_Stop : option StopInfo; ev_ThreadID : Z; ev_Reason : string; ev_Category : string;
  ev_Text : string; ev_Truncated : bool; ev_Breakpoint : option Breakpoint;
  ev_ExitCode : option Z }.
#[global] Instance eta_Event : Eta Event :=
  fun r => mkEvent (ev_Seq r) (ev_Time r) (ev_Kind r) (ev_Client r) (ev_Action r) (ev_Program r)
    (ev_Lease r) (ev_Previous r) (ev_Stop r) (ev_ThreadID r) (ev_Reason r) (ev_Category r)
    (ev_Text r) (ev_Truncated r) (ev_Breakpoint r) (ev_ExitCode r).

(** [api.Event{Kind: k}]: every other field at its zero value. *)
Definition event (k : EventKind) : Event :=
  mkEvent 0 0 k "" "" "" None "" None 0 "" "" "" false None None.

Record EventsParams := mkEventsParams {
  q_Since : Z; q_Newest : bool; q_Limit : Z; q_Kinds : list EventKind; q_Budget : Z }.
#[global] Instance eta_EventsParams : Eta EventsParams :=
  fun r => mkEventsParams (q_Since r) (q_Newest r) (q_Limit r) (q_Kinds r) (q_Budget r).
Record EventsResult := mkEventsResult {
  er_Events : list Event; er_Latest : Z; er_Dropped : Z; er_More : Z; er_TimedOut : bool }.
#[global] Instance eta_EventsResult : Eta EventsResult :=
  fun r => mkEventsResult (er_Events r) (er_Latest r) (er_Dropped r) (er_More r) (er_TimedOut r).

(** ** Groups (group.go, container.go) *)

Definition MaxGroupCursor : Z := 64.
Definition maxGroupLen : Z := 63.

Definition isLowerAlnum (r : Z) : bool := ((97 <=? r) && (r <=? 122)) || ((48 <=? r) && (r <=? 57)).
(** [quoteShort] only builds the message; the model keeps the code. *)
Definition CheckGroup (g : string) : result unit :=
  let head_ok := match g with String c _ => isLowerAlnum (byte_of c) | EmptyString => false end in
  let ok := negb (g =?s "") && (slen g <=? maxGroupLen) && head_ok
            && all_bytes (fun c => isLowerAlnum (byte_of c) || Ascii.eqb c "_" || Ascii.eqb c "-") g in
  if ok then Ok () else Err (NewError CodeInvalidRequest "invalid group name").

Record GroupEvent := mkGroupEvent { ge_SessionID : string; ge_Service : string; ge_Event : Event }.
#[global] Instance eta_GroupEvent : Eta GroupEvent :=
  fun r => mkGroupEvent (ge_SessionID r) (ge_Service r) (ge_Event r).

(** ** Properties of the parsers *)

Lemma find_name {A} (name : A → string) l x s :
  List.find (fun y => name y =?s s) l = Some x → In x l ∧ name x = s.
Proof. intros H. apply List.find_some in H as [? H%String.eqb_eq]. done. Qed.

(** A parsed client is of one of the two kinds, its name (when it has one)
    is valid, its id is the kind with the name, and the id parses back to the
    same client. *)
Theorem ParseClient_sound s c :
  ParseClient s = Ok c →
  (c_Kind c = KindAgent ∨ c_Kind c = KindHuman)
  ∧ (c_ID c = c_Kind c ∧ c_Name c = ""%string
     ∨ c_ID c = c_Kind c +:+ ":" +:+ c_Name c ∧ validClientName (c_Name c) = true)
  ∧ ParseClient (c_ID c) = Ok c.
Proof.
  intros H. assert (Hs : (s =?s "") = true ∨ c_ID c = s).
  { revert H. unfold ParseClient. destruct (s =?s ""); [by left|]. destruct (cut_at ":" s) as [[? ?]|];
      case_match; intros [= <-]; by right. }
  destruct Hs as [Hs| <-].
  { apply String.eqb_eq in Hs as ->. injection H as <-. simpl. split_and!; [by left| by left|done]. }
  pose proof H as H'. revert H. unfold ParseClient. destruct (c_ID c =?s "") eqn:E0.
  { apply String.eqb_eq in E0 as E. rewrite E in H'. by injection H' as <-. }
  destruct (cut_at ":" (c_ID c)) as [[k n]|] eqn:Ec; cbv beta iota zeta.
  - destruct (_ || _) eqn:E; [done|]. intros [= Hc].
    apply orb_false_iff in E as [Ek Ev]. apply andb_false_iff in Ek.
    apply cut_at_Some in Ec as [Hid _].
    assert (c_Kind c = k ∧ c_Name c = n) as [-> ->] by (rewrite <- Hc; done).
    split_and!; [|right; split; [done|by destruct (validClientName n)]|].
    + destruct Ek as [Ek|Ek]; apply negb_false_iff, String.eqb_eq in Ek; auto.
    + by rewrite Hc.
  - destruct (_ || _) eqn:E; [done|]. intros [= Hc].
    apply orb_false_iff in E as [Ek _]. apply andb_false_iff in Ek.
    assert (c_Kind c = c_ID c ∧ c_Name c = ""%string) as [-> ->] by (rewrite <- Hc; done).
    split_and!; [|by left|by rewrite Hc].
    destruct Ek as [Ek|Ek]; apply negb_false_iff, String.eqb_eq in Ek; auto.
Qed.

Theorem ParseLeasePolicy_spec s p :
  ParseLeasePolicy s = Ok p ↔
  (s = ""%string ∧ p = LeaseFree) ∨ (In p LeasePolicies ∧ policy_name p = s).
Proof.
  unfold ParseLeasePolicy. destruct (String.eqb_spec s "") as [->|Hne].
  - split; [intros [= <-]; by left|]. intros [[_ ->]|[H E]]; [done|].
    exfalso. destruct p; simpl in *; naive_solver.
  - destruct (List.find _ _) as [p'|] eqn:E.
    + apply find_name in E as [Hin Hn]. split; [intros [= <-]; by right|].
      intros [[? _]|[Hp Hps]]; [done|]. f_equal. rewrite <- Hps in Hn.
      simpl in Hin, Hp. naive_solver.
    + split; [done|]. intros [[? _]|[Hin <-]]; [done|].
      eapply List.find_none in E; [|exact Hin]. simpl in E. by rewrite String.eqb_refl in E.
Qed.

Lemma ParseClient_sound_witness :
  ParseClient "human:zoe@work" = Ok (mkClient "human:zoe@work" "human" "zoe@work")
  ∧ ParseClient "human:zoe@work" = Ok (mkClient "human:zoe@work" "human" "zoe@work").
Proof.
  split; [vm_compute; reflexivity|].
  apply (ParseClient_sound "human:zoe@work" (mkClient "human:zoe@work" "human" "zoe@work")).
  vm_compute; reflexivity.
Defined.
