(* ===== verification/Connection.v ===== *)
(** * DAP connections (internal/dap/client.go, server.go)

    The client's side of a connection, to an adapter: requests are numbered
    and registered, a read loop hands each response to the request it
    answers, and callers wait. The calls, the read loop and the replies to
    reverse requests run at once; [cstep] is one step of one of them. And the
    server's side, to an editor. Encoding and decoding are go-dap's. *)

From S2P Require Import Prelude GoStrings Frame Api.
From Stdlib Require Import Ascii Bool.
Open Scope Z_scope.

(** ** Responses *)

(** A response's envelope, and the details of an [ErrorResponse]. *)
Record errorMessage := mkErrorMessage { em_Format : string; em_Variables : list (string * string) }.
Record response := mkResponse {
  rp_RequestSeq : Z; rp_Success : bool; rp_Message : string;
  rp_Error : option (option errorMessage);   (* an [ErrorResponse], with its body's error *)
  rp_Body : string }.
#[global] Instance eta_response : Eta response :=
  fun r => mkResponse (rp_RequestSeq r) (rp_Success r) (rp_Message r) (rp_Error r) (rp_Body r).

(** [formatErrorMessage], the variables in the order the map gives them. *)
Definition formatErrorMessage (replaceAll : string → string → string → string) (e : errorMessage) : string :=
  fold_left (fun s '(k, v) => replaceAll s ("{" +:+ k +:+ "}") v) (em_Variables e) (em_Format e).

(** [responseError]: the adapter's refusal, if it refused. *)
Definition responseError (replaceAll : string → string → string → string) (m : response) : option string :=
  match rp_Error m with
  | Some e =>
    Some match e with
         | Some e => if em_Format e =?s "" then rp_Message m else formatErrorMessage replaceAll e
         | None => rp_Message m
         end
  | None => if rp_Success m then None else Some (rp_Message m)
  end.

(** ** The client *)

(** A waiter's channel, of one message. *)
Inductive chan := Empty | Full (m : response) | Closed.

Record Client := mkClient {
  cl_seq : Z; cl_pending : option (gmap Z nat); cl_chans : gmap nat chan; cl_sent : list Z; cl_done : bool }.
#[global] Instance eta_Client : Eta Client :=
  fun r => mkClient (cl_seq r) (cl_pending r) (cl_chans r) (cl_sent r) (cl_done r).
Definition NewClient : Client := mkClient 0 (Some ∅) ∅ [] false.

Definition register (q : Z) (ch : nat) (c : Client) : bool * Client :=
  match cl_pending c with
  | None => (false, c)
  | Some m => (true, c <| cl_pending := Some (<[q := ch]> m) |>)
  end.
Definition unregister (q : Z) (c : Client) : Client := c <| cl_pending ::= fmap (delete q) |>.

(** The number of the next message, under [wmu]. *)
Definition next_message (c : Client) : Z * Client := (cl_seq c + 1, c <| cl_seq ::= Z.succ |>).
(** A message written. *)
Definition written (q : Z) (c : Client) : Client := c <| cl_sent ::= fun l => l ++ [q] |>.

(** [deliver]'s section: the waiter a response goes to, if any. *)
Definition take_waiter (q : Z) (c : Client) : option nat * Client :=
  (m ← cl_pending c; m !! q, unregister q c).
(** The end of the read loop: every waiter's channel is closed. *)
Definition close_all (m : gmap Z nat) (chans : gmap nat chan) : gmap nat chan :=
  map_fold (fun _ ch chans => <[ch := Closed]> chans) chans m.
Definition endLoop (c : Client) : Client :=
  c <| cl_chans ::= close_all (default ∅ (cl_pending c)) |> <| cl_pending := None |> <| cl_done := true |>.

(** ** Its threads *)

Inductive outcome := Got (m : response) | ErrClosed | WriteFailed | CtxDone.
(** A call of [Do]: holding [wmu] with its message registered; waiting; about
    to give up its registration; returned. *)
Inductive call := Sending | Waiting | Unregistering (o : outcome) | Returned (o : outcome).

(** The client, its calls (each with its number, named by its channel), who
    holds [wmu], and the response the read loop is about to hand over. *)
Record world := mkWorld {
  w_client : Client; w_calls : gmap nat (Z * call); w_wmu : option nat; w_handing : option (nat * response) }.
#[global] Instance eta_world : Eta world := fun r => mkWorld (w_client r) (w_calls r) (w_wmu r) (w_handing r).
Definition new_world : world := mkWorld NewClient ∅ None None.

Inductive cstep : world → world → Prop :=
  | st_register w id q c c' :
      (* Do, up to the write: wmu is taken, and kept *)
      w_wmu w = None → w_calls w !! id = None → next_message (w_client w) = (q, c) → register q id c = (true, c') →
      cstep w (w <| w_client := c' <| cl_chans ::= <[id := Empty]> |> |> <| w_calls ::= <[id := (q, Sending)]> |> <| w_wmu := Some id |>)
  | st_closed w id q c c' :
      w_wmu w = None → w_calls w !! id = None → next_message (w_client w) = (q, c) → register q id c = (false, c') →
      cstep w (w <| w_client := c' |> <| w_calls ::= <[id := (q, Returned ErrClosed)]> |>)
  | st_written w id q :
      w_wmu w = Some id → w_calls w !! id = Some (q, Sending) →
      cstep w (w <| w_client ::= written q |> <| w_calls ::= <[id := (q, Waiting)]> |> <| w_wmu := None |>)
  | st_write_failed w id q :
      w_wmu w = Some id → w_calls w !! id = Some (q, Sending) →
      cstep w (w <| w_calls ::= <[id := (q, Unregistering WriteFailed)]> |> <| w_wmu := None |>)
  | st_got w id q m :
      w_calls w !! id = Some (q, Waiting) → cl_chans (w_client w) !! id = Some (Full m) →
      cstep w (w <| w_calls ::= <[id := (q, Returned (Got m))]> |>)
  | st_got_closed w id q :
      w_calls w !! id = Some (q, Waiting) → cl_chans (w_client w) !! id = Some Closed →
      cstep w (w <| w_calls ::= <[id := (q, Returned ErrClosed)]> |>)
  | st_timeout w id q :
      w_calls w !! id = Some (q, Waiting) → cstep w (w <| w_calls ::= <[id := (q, Unregistering CtxDone)]> |>)
  | st_unregister w id q o :
      w_calls w !! id = Some (q, Unregistering o) →
      cstep w (w <| w_client ::= unregister q |> <| w_calls ::= <[id := (q, Returned o)]> |>)
  | st_response w m ch c :
      (* the read loop reads a response a request waits for *)
      w_handing w = None → cl_done (w_client w) = false → take_waiter (rp_RequestSeq m) (w_client w) = (Some ch, c) →
      cstep w (w <| w_client := c |> <| w_handing := Some (ch, m) |>)
  | st_unasked w m c :
      w_handing w = None → cl_done (w_client w) = false → take_waiter (rp_RequestSeq m) (w_client w) = (None, c) →
      cstep w (w <| w_client := c |>)
  | st_hand w ch m :
      w_handing w = Some (ch, m) → cl_chans (w_client w) !! ch = Some Empty →
      cstep w (w <| w_client ::= (fun c => c <| cl_chans ::= <[ch := Full m]> |>) |> <| w_handing := None |>)
  | st_end w :
      w_handing w = None → cl_done (w_client w) = false → cstep w (w <| w_client ::= endLoop |>)
  | st_reply w q c ok :
      (* respond, to a reverse request: its section under wmu, whose write may fail *)
      w_wmu w = None → next_message (w_client w) = (q, c) →
      cstep w (w <| w_client := if ok : bool then written q c else c |>).

(** ** Its read loop *)

Definition MaxAdapterMessage : Z := 4 * 2 ^ 20.

(** The contents [readLoop] dispatches, and the error it ends with. Every
    round takes a header off the stream, so its length is fuel enough. *)
Fixpoint readLoop_go (fuel : nat) (r : reader) : list string * frame_error :=
  match fuel with
  | O => ([], IOError (r_end r))
  | S fuel =>
    match ReadMessage r MaxAdapterMessage with
    | (FErr (TooLargeError size _), r) =>
      if size <=? slen (r_bytes r) then readLoop_go fuel (mkReader (sdrop (Z.to_nat size) (r_bytes r)) (r_end r))
      else ([], IOError (unexpectedEOF (r_end r)))
    | (FErr e, _) => ([], e)
    | (FOk raw, r) => let '(l, e) := readLoop_go fuel r in (raw :: l, e)
    end
  end.
Definition readLoop (r : reader) : list string * frame_error := readLoop_go (S (String.length (r_bytes r))) r.
(** [c.err], once the loop ended: an end of the stream is [ErrClosed]. *)
Definition loop_error (e : frame_error) : option frame_error :=
  match e with IOError EOF => None | _ => Some e end.

Section dispatch.
(** Messages, as decoded; an envelope alone, of what does not decode. *)
Context {M : Type} (decode : string → option M) (unknown : string → option M) (incoming : M → M).

Inductive message_kind := KResponse | KEvent | KRequest.
Context (kind : M → message_kind).

Inductive action := Deliver (m : M) | HandleEvent (m : M) | AnswerRequest (m : M) | Drop.
Definition dispatch (raw : string) : action :=
  match decode raw with
  | None => match unknown raw with Some m => Deliver m | None => Drop end
  | Some m =>
    match kind m with
    | KRequest => AnswerRequest m
    | KResponse => Deliver (incoming m)
    | KEvent => HandleEvent (incoming m)
    end
  end.

(** [answer]: left to the Reverse handler, or answered at once; [respond]
    writes nothing once the stream has ended. *)
Definition answer (reverse : option (M → bool)) (handle : option (M → option M)) (notSupported : M → M) (req : M) : option M :=
  if match reverse with Some take => take req | None => false end then None
  else Some (default (notSupported req) (match handle with Some h => h req | None => None end)).
Definition respond (done : bool) (resp : option M) : option M := if done then None else resp.
End dispatch.

(** ** The server *)

(** The bytes that reached the peer. *)
Record Server := mkServer { sv_seq : Z; sv_broken : bool; sv_stream : string }.
#[global] Instance eta_Server : Eta Server := fun r => mkServer (sv_seq r) (sv_broken r) (sv_stream r).
Definition NewServer : Server := mkServer 0 false "".

Inductive write_error := errBroken | EncodeError | WriteError.
(** [write]: [encode] is the message's JSON with its seq, [n] how many of the
    bytes the connection took before it failed. *)
Definition write (encode : Z → option string) (n : option nat) (s : Server) : option write_error * Server :=
  if sv_broken s then (Some errBroken, s)
  else
    let s := s <| sv_seq ::= Z.succ |> in
    match encode (sv_seq s) with
    | None => (Some EncodeError, s)
    | Some content =>
      match n with
      | None => (None, s <| sv_stream ::= fun out => out +:+ writeMessage content |>)
      | Some n => (Some WriteError, s <| sv_stream ::= fun out => out +:+ stake n (writeMessage content) |> <| sv_broken := true |>)
      end
    end.

Section requests.
Context {Q : Type} (maxContent : Z).
(** The envelope of a message (seq, type, command), and the whole of a request. *)
Context (head : string → option (Z * string * string)) (decode : string → option Q).

Inductive request_read :=
  | GotRequest (req : Q)
  | DecodeError (seq : Z) (command : string)
  | NotDap
  | Unreadable (e : frame_error).
Fixpoint ReadRequest_go (fuel : nat) (r : reader) : request_read * reader :=
  match fuel with
  | O => (Unreadable (IOError (r_end r)), r)
  | S fuel =>
    match ReadMessage r maxContent with
    | (FErr e, r) => (Unreadable e, r)
    | (FOk raw, r) =>
      match head raw with
      | None => (NotDap, r)
      | Some (seq, typ, command) =>
        if negb (typ =?s "request") then ReadRequest_go fuel r
        else match decode raw with
             | None => (DecodeError seq command, r)
             | Some req => (GotRequest req, r)
             end
      end
    end
  end.
Definition ReadRequest (r : reader) : request_read * reader := ReadRequest_go (S (String.length (r_bytes r))) r.
End requests.

(** * What a DAP connection promises (client.go, server.go)

    Each call gets the response that answers its own request, or an error;
    the read loop never blocks on a caller and never writes to a channel that
    was closed; and no caller is left waiting when the stream ends. *)

Open Scope Z_scope.

(** ** The invariant *)

Definition answerable (w : world) (id : nat) (q : Z) : Prop :=
  (∃ m, cl_chans (w_client w) !! id = Some (Full m)) ∨ cl_chans (w_client w) !! id = Some Closed
  ∨ (∃ m, w_handing w = Some (id, m)) ∨ ∃ p, cl_pending (w_client w) = Some p ∧ p !! q = Some id.

Record numbered (w : world) : Prop := {
  nb_seq : ∀ id q k, w_calls w !! id = Some (q, k) → 1 ≤ q ≤ cl_seq (w_client w);
  nb_once : ∀ id id' q k k', w_calls w !! id = Some (q, k) → w_calls w !! id' = Some (q, k') → id = id';
  nb_wmu : ∀ id q, w_calls w !! id = Some (q, Sending) → w_wmu w = Some id;
  nb_holder : ∀ id, w_wmu w = Some id → w_calls w !! id = Some (cl_seq (w_client w), Sending);
  nb_sent : StronglySorted Z.lt (cl_sent (w_client w));
  nb_sent_le : ∀ q, In q (cl_sent (w_client w)) → q ≤ cl_seq (w_client w) ∧ (w_wmu w ≠ None → q < cl_seq (w_client w));
  nb_pos : 0 ≤ cl_seq (w_client w) }.

Record delivered (w : world) : Prop := {
  dl_pending : ∀ p q id, cl_pending (w_client w) = Some p → p !! q = Some id →
    (∃ k, w_calls w !! id = Some (q, k) ∧ ∀ o, k ≠ Returned o) ∧ cl_chans (w_client w) !! id = Some Empty
    ∧ ∀ m, w_handing w ≠ Some (id, m);
  dl_handing : ∀ id m, w_handing w = Some (id, m) →
    cl_chans (w_client w) !! id = Some Empty ∧ ∃ k, w_calls w !! id = Some (rp_RequestSeq m, k);
  dl_full : ∀ id m, cl_chans (w_client w) !! id = Some (Full m) → ∃ k, w_calls w !! id = Some (rp_RequestSeq m, k);
  dl_waiting : ∀ id q k, w_calls w !! id = Some (q, k) → k = Sending ∨ k = Waiting → answerable w id q;
  dl_got : ∀ id q m, w_calls w !! id = Some (q, Returned (Got m)) ∨ w_calls w !! id = Some (q, Unregistering (Got m)) →
    rp_RequestSeq m = q;
  dl_done : cl_done (w_client w) = true ↔ cl_pending (w_client w) = None;
  dl_fresh : ∀ id, w_calls w !! id = None → cl_chans (w_client w) !! id = None }.

(** ** Closing every channel *)

Lemma close_all_in m chans q id : m !! q = Some id → close_all m chans !! id = Some Closed.
Proof.
  unfold close_all. revert q id.
  apply (map_fold_weak_ind (fun r m => ∀ q id, m !! q = Some id → r !! id = Some Closed)).
  - intros q id H. by rewrite lookup_empty in H.
  - intros q ch m' r Hq IH q' id. rewrite lookup_insert_Some. intros [[-> ->]|[Hne H]]; [apply lookup_insert_eq|].
    destruct (decide (ch = id)) as [->|]; [apply lookup_insert_eq|]. rewrite lookup_insert_ne by done. by eapply IH.
Qed.

Lemma close_all_out m chans id : (∀ q, m !! q ≠ Some id) → close_all m chans !! id = chans !! id.
Proof.
  unfold close_all. revert id.
  apply (map_fold_weak_ind (fun r m => ∀ id, (∀ q, m !! q ≠ Some id) → r !! id = chans !! id)); [done|].
  intros q ch m' r Hq IH id H. assert (ch ≠ id) by (intros ->; by apply (H q); rewrite lookup_insert_eq).
  rewrite lookup_insert_ne by done. apply IH. intros q' Hq'. apply (H q').
  rewrite lookup_insert_ne; [done|]. intros ->. by rewrite Hq in Hq'.
Qed.

Lemma close_all_full m chans id x : close_all m chans !! id = Some (Full x) → chans !! id = Some (Full x).
Proof.
  intros H. rewrite close_all_out in H; [done|]. intros q Hq. by rewrite (close_all_in _ _ q) in H.
Qed.

(** ** The numbering *)

Lemma numbered_new : numbered new_world.
Proof. split; cbn; try done. constructor. Qed.

(** A step that leaves the numbers as they are. *)
Lemma numbered_same w w' :
  numbered w → w_calls w' = w_calls w → cl_seq (w_client w') = cl_seq (w_client w) →
  cl_sent (w_client w') = cl_sent (w_client w) → w_wmu w' = w_wmu w → numbered w'.
Proof. intros [H1 H2 H3 H4 H5 H6 H7] E1 E2 E3 E4. split; rewrite ?E1, ?E2, ?E3, ?E4; done. Qed.

(** A call moves on, and gives up [wmu] if it held it. *)
Lemma numbered_call w w' id q k k' :
  numbered w → w_calls w !! id = Some (q, k) → k' ≠ Sending →
  w_calls w' = <[id := (q, k')]> (w_calls w) → cl_seq (w_client w') = cl_seq (w_client w) →
  cl_sent (w_client w') = cl_sent (w_client w) →
  (k ≠ Sending ∧ w_wmu w' = w_wmu w ∨ k = Sending ∧ w_wmu w' = None) → numbered w'.
Proof.
  intros [H1 H2 H3 H4 H5 H6 H7] Hc Hk' E1 E2 E3 Hw.
  assert (Hl : ∀ id' q' x, w_calls w' !! id' = Some (q', x) →
    ∃ x', w_calls w !! id' = Some (q', x') ∧ (x = Sending → id ≠ id' ∧ x' = Sending)).
  { intros id' q' x. rewrite E1, lookup_insert_Some. intros [[<- [= <- <-]]|[Hne H]]; [by exists k|exists x; naive_solver]. }
  split; rewrite ?E2, ?E3; try done.
  - intros id' q' x H. destruct (Hl _ _ _ H) as (? & ? & _). by eapply H1.
  - intros id' id'' q' x x' Ha Hb. destruct (Hl _ _ _ Ha) as (? & ? & _), (Hl _ _ _ Hb) as (? & ? & _). by eapply H2.
  - intros id' q' H. destruct (Hl _ _ _ H) as (x' & Hx & Hs). destruct (Hs eq_refl) as [Hne ->]. apply H3 in Hx.
    destruct Hw as [[_ ->]|[-> _]]; [done|]. apply H3 in Hc. congruence.
  - intros id' H. destruct Hw as [[Hk Hw]|[-> Hw]]; rewrite Hw in H; [|done].
    rewrite E1, lookup_insert_ne; [by apply H4|]. intros ->. apply H4 in H. congruence.
  - intros q' Hq. destruct (H6 q' Hq) as [? Hlt]. split; [done|]. destruct Hw as [[_ ->]|[_ ->]]; [done|by intros []].
Qed.

Lemma sorted_snoc_lt l q : StronglySorted Z.lt l → (∀ x, In x l → x < q) → StronglySorted Z.lt (l ++ [q]).
Proof.
  induction 1 as [|x l Hs IH Hall]; intros Hq; cbn; [repeat constructor|]. constructor.
  - apply IH. intros y Hy. apply Hq. by right.
  - apply Forall_app. split; [done|]. constructor; [|done]. apply Hq. by left.
Qed.

(** A message is numbered: for a call, which keeps [wmu] or fails; or for a reply. *)
Lemma numbered_next w w' id k :
  numbered w → w_wmu w = None → w_calls w !! id = None →
  w_calls w' = <[id := (cl_seq (w_client w) + 1, k)]> (w_calls w) → cl_seq (w_client w') = cl_seq (w_client w) + 1 →
  cl_sent (w_client w') = cl_sent (w_client w) →
  (k = Sending ∧ w_wmu w' = Some id ∨ k ≠ Sending ∧ w_wmu w' = None) → numbered w'.
Proof.
  intros [H1 H2 H3 H4 H5 H6 H7] Hw Hc E1 E2 E3 Hk.
  assert (Hl : ∀ id' q' x, w_calls w' !! id' = Some (q', x) →
    id' = id ∧ q' = cl_seq (w_client w) + 1 ∧ x = k ∨ id' ≠ id ∧ w_calls w !! id' = Some (q', x)).
  { intros id' q' x. rewrite E1, lookup_insert_Some. intros [[<- [= <- <-]]|[Hne H]]; [by left|right; naive_solver]. }
  split; rewrite ?E2, ?E3; try done; try lia.
  - intros id' q' x [(_ & -> & _)|[_ H]]%Hl; [lia|]. apply H1 in H. lia.
  - intros id' id'' q' x x' [(-> & -> & _)|[_ Ha]]%Hl [(-> & Hq & _)|[_ Hb]]%Hl; [done|..].
    + apply H1 in Hb. lia.
    + apply H1 in Ha. lia.
    + by eapply H2.
  - intros id' q' [(-> & _ & <-)|[_ H]]%Hl; [naive_solver|]. apply H3 in H. congruence.
  - intros id' H. destruct Hk as [[-> Hk]|[_ Hk]]; rewrite Hk in H; [|done]. injection H as <-. by rewrite E1, lookup_insert_eq.
  - intros q' Hq. destruct (H6 q' Hq) as [? _]. split; [lia|]. intros _. lia.
Qed.

Lemma numbered_reply w q c ok :
  numbered w → w_wmu w = None → next_message (w_client w) = (q, c) →
  numbered (w <| w_client := if ok : bool then written q c else c |>).
Proof.
  intros [H1 H2 H3 H4 H5 H6 H7] Hw [= <- <-].
  assert (Hlt : ∀ x, In x (cl_sent (w_client w)) → x < cl_seq (w_client w) + 1) by (intros x Hx; apply H6 in Hx; lia).
  split; try done; destruct ok; cbn; try done; try lia.
  - intros id q k H. apply H1 in H. lia.
  - intros id q k H. apply H1 in H. lia.
  - by rewrite Hw.
  - by rewrite Hw.
  - by apply sorted_snoc_lt.
  - rewrite Hw. intros x [Hx|[<-|[]]]%List.in_app_iff; [apply Hlt in Hx|]; (split; [lia|by intros []]).
  - rewrite Hw. intros x Hx. apply Hlt in Hx. split; [lia|by intros []].
Qed.

Lemma numbered_written w id q :
  numbered w → w_wmu w = Some id → w_calls w !! id = Some (q, Sending) →
  numbered (w <| w_client ::= written q |> <| w_calls ::= <[id := (q, Waiting)]> |> <| w_wmu := None |>).
Proof.
  intros Hn Hw Hc. pose proof Hn as [H1 H2 H3 H4 H5 H6 H7]. pose proof (H4 _ Hw) as Hq. rewrite Hc in Hq. injection Hq as Hq.
  assert (Hlt : ∀ x, In x (cl_sent (w_client w)) → x < q).
  { intros x Hx. apply H6 in Hx as [_ Hx]. rewrite Hq. apply Hx. by rewrite Hw. }
  destruct (numbered_call w (w <| w_calls ::= <[id := (q, Waiting)]> |> <| w_wmu := None |>) id q Sending Waiting) as [G1 G2 G3 G4 _ _ _];
    [done|done|done|done|done|done|by right|].
  split; try done; cbn.
  - by apply sorted_snoc_lt.
  - intros x [Hx|[<-|[]]]%List.in_app_iff; [apply Hlt in Hx|]; (split; [lia|by intros []]).
Qed.

Lemma register_fields q ch c b c' :
  register q ch c = (b, c') → cl_seq c' = cl_seq c ∧ cl_sent c' = cl_sent c ∧ cl_chans c' = cl_chans c ∧ cl_done c' = cl_done c.
Proof. unfold register. destruct (cl_pending c); by intros [= <- <-]. Qed.

Lemma numbered_step w w' : cstep w w' → numbered w → numbered w'.
Proof.
  intros Hs Hn. destruct Hs.
  - injection H1 as <- <-. apply register_fields in H2 as (E1 & E2 & _). cbn in E1, E2.
    eapply (numbered_next w _ id Sending); [done|done|done|done|done|done|by left].
  - injection H1 as <- <-. apply register_fields in H2 as (E1 & E2 & _). cbn in E1, E2.
    eapply (numbered_next w _ id (Returned ErrClosed)); [done|done|done|done|done|done|by right].
  - by apply numbered_written.
  - eapply (numbered_call w _ id q Sending (Unregistering WriteFailed)); [done|done|done|done|done|done|by right].
  - eapply (numbered_call w _ id q Waiting (Returned (Got m))); [done|done|done|done|done|done|by left].
  - eapply (numbered_call w _ id q Waiting (Returned ErrClosed)); [done|done|done|done|done|done|by left].
  - eapply (numbered_call w _ id q Waiting (Unregistering CtxDone)); [done|done|done|done|done|done|by left].
  - eapply (numbered_call w _ id q (Unregistering o) (Returned o)); [done|done|done|done|done|done|by left].
  - injection H1 as _ <-. by apply (numbered_same w).
  - injection H1 as _ <-. by apply (numbered_same w).
  - by apply (numbered_same w).
  - by apply (numbered_same w).
  - by apply numbered_reply.
Qed.

(** ** The deliveries *)

Lemma delivered_new : delivered new_world.
Proof.
  split; cbn; try done.
  - intros p q id [= <-]. by rewrite lookup_empty.
  - intros id q m [H|H]; by rewrite lookup_empty in H.
Qed.

(** A step that moves no message and no call. *)
Lemma delivered_same w w' :
  delivered w → w_calls w' = w_calls w → w_handing w' = w_handing w → cl_pending (w_client w') = cl_pending (w_client w) →
  cl_chans (w_client w') = cl_chans (w_client w) → cl_done (w_client w') = cl_done (w_client w) → delivered w'.
Proof.
  intros [H1 H2 H3 H4 H5 H6 H7] E1 E2 E3 E4 E5. split; unfold answerable in *; rewrite ?E1, ?E2, ?E3, ?E4, ?E5; done.
Qed.

(** A call moves on by itself: to return, it is registered no more. *)
Lemma delivered_call w w' id q k k' :
  delivered w → w_calls w !! id = Some (q, k) → w_calls w' = <[id := (q, k')]> (w_calls w) →
  w_handing w' = w_handing w → cl_pending (w_client w') = cl_pending (w_client w) →
  cl_chans (w_client w') = cl_chans (w_client w) → cl_done (w_client w') = cl_done (w_client w) →
  (k' = Sending ∨ k' = Waiting → k = Sending ∨ k = Waiting) →
  (∀ o, k' = Returned o → ∀ p, cl_pending (w_client w) = Some p → p !! q ≠ Some id) →
  (∀ m, k' = Returned (Got m) ∨ k' = Unregistering (Got m) → rp_RequestSeq m = q) → delivered w'.
Proof.
  intros [H1 H2 H3 H4 H5 H6 H7] Hc E1 E2 E3 E4 E5 Hk Hr Hm.
  assert (Hl : ∀ id' q' x, w_calls w !! id' = Some (q', x) → ∃ x', w_calls w' !! id' = Some (q', x') ∧ (x' = x ∨ id' = id ∧ x' = k')).
  { intros id' q' x H. rewrite E1. destruct (decide (id = id')) as [<-|]; [|rewrite lookup_insert_ne by done; eauto].
    rewrite lookup_insert_eq. exists k'. split; [|by right]. congruence. }
  split; unfold answerable in *; rewrite ?E2, ?E3, ?E4, ?E5; try done.
  - intros p q' id' Hp Hq. destruct (H1 p q' id' Hp Hq) as ((x & Hx & Hno) & Hch & Hh). split; [|done].
    destruct (Hl _ _ _ Hx) as (x' & Hx' & [->|[-> ->]]); [by exists x|]. exists k'. split; [done|].
    intros o ->. apply (Hr o eq_refl p Hp). congruence.
  - intros id' m Hh. destruct (H2 id' m Hh) as (Hch & x & Hx). split; [done|]. destruct (Hl _ _ _ Hx) as (x' & Hx' & _). by exists x'.
  - intros id' m Hf. destruct (H3 id' m Hf) as (x & Hx). destruct (Hl _ _ _ Hx) as (x' & Hx' & _). by exists x'.
  - intros id' q' x. rewrite E1, lookup_insert_Some. intros [[<- [= <- <-]]|[_ H]] Hx; [|by eapply H4]. by apply (H4 id q k), Hk.
  - intros id' q' m. rewrite E1, !lookup_insert_Some. intros [[[_ [= <- Hx]]|[_ H]]|[[_ [= <- Hx]]|[_ H]]]; eauto.
  - intros id'. rewrite E1, lookup_insert_None. intros [H _]. by apply H7.
Qed.

(** A new call, with its channel registered. *)
Lemma delivered_register w id q c c' :
  numbered w → delivered w → w_calls w !! id = None → next_message (w_client w) = (q, c) → register q id c = (true, c') →
  delivered (w <| w_client := c' <| cl_chans ::= <[id := Empty]> |> |> <| w_calls ::= <[id := (q, Sending)]> |> <| w_wmu := Some id |>).
Proof.
  intros Hn [H1 H2 H3 H4 H5 H6 H7] Hc [= <- <-]. unfold register. cbn [cl_pending].
  change (cl_pending ((w_client w) <| cl_seq ::= Z.succ |>)) with (cl_pending (w_client w)).
  destruct (cl_pending (w_client w)) as [p|] eqn:Ep; [|done]. intros [= <-]. set (q := cl_seq (w_client w) + 1) in *.
  assert (Hne : ∀ id' x, w_calls w !! id' = Some x → id ≠ id') by (intros id' x H <-; congruence).
  assert (Hq : ∀ id' q' x, w_calls w !! id' = Some (q', x) → q ≠ q') by (intros id' q' x H; apply (nb_seq w Hn) in H; lia).
  split; cbn; try done.
  - intros p' q' id' [= <-]. rewrite lookup_insert_Some. intros [[<- <-]|[_ Hp]].
    + split; [exists Sending; by rewrite lookup_insert_eq|]. split; [apply lookup_insert_eq|]. intros m Hm.
      apply H2 in Hm as (_ & x & Hx). congruence.
    + destruct (H1 p q' id' eq_refl Hp) as ((x & Hx & Ho) & Hch & Hh). specialize (Hne _ _ Hx).
      split; [exists x|split; [|done]]; by rewrite lookup_insert_ne.
  - intros id' m Hm. apply H2 in Hm as (Hch & x & Hx). specialize (Hne _ _ Hx).
    split; [by rewrite lookup_insert_ne|]. exists x. by rewrite lookup_insert_ne.
  - intros id' m. rewrite lookup_insert_Some. intros [[_ [=]]|[_ Hf]]. apply H3 in Hf as (x & Hx). exists x.
    rewrite lookup_insert_ne; [done|by eapply Hne].
  - intros id' q' x. rewrite lookup_insert_Some. unfold answerable. cbn. intros [[<- [= <- <-]]|[Hi Hx]] Hk.
    + right; right; right. eexists. split; [done|]. apply lookup_insert_eq.
    + rewrite lookup_insert_ne by done. destruct (H4 id' q' x Hx Hk) as [?|[?|[?|(p' & Hp & Hpq)]]]; auto.
      right; right; right. eexists. split; [done|]. rewrite lookup_insert_ne by by eapply Hq. congruence.
  - intros id' q' m [H|H]; apply lookup_insert_Some in H as [[_ [=]]|[_ H]]; eauto.
  - split; [|done]. intros Hd. apply H6 in Hd. congruence.
  - intros id'. rewrite lookup_insert_None. intros [H Hi]. rewrite lookup_insert_ne by done. by apply H7.
Qed.

(** Dropping a registration that no call waits on any more. *)
Lemma delivered_unregister w id q o :
  numbered w → delivered w → w_calls w !! id = Some (q, Unregistering o) →
  delivered (w <| w_client ::= unregister q |> <| w_calls ::= <[id := (q, Returned o)]> |>).
Proof.
  intros Hn D Hc. assert (D' : delivered (w <| w_client ::= unregister q |>)).
  { destruct D as [H1 H2 H3 H4 H5 H6 H7]. split; cbn; try done.
    - intros p q' id' (p0 & Hp & ->)%fmap_Some (Hne & Hq)%lookup_delete_Some. by apply (H1 p0).
    - intros id' q' k Hk Hw. unfold answerable. cbn. destruct (H4 id' q' k Hk Hw) as [?|[?|[?|(p & Hp & Hq)]]]; auto.
      right; right; right. exists (delete q p). rewrite Hp. split; [done|]. rewrite lookup_delete_ne; [done|]. intros <-.
      rewrite (nb_once w Hn _ _ _ _ _ Hk Hc) in Hk. destruct Hw as [-> | ->]; congruence.
    - rewrite fmap_None. exact H6. }
  eapply (delivered_call _ _ id q (Unregistering o) (Returned o) D'); try done.
  - by intros [[=]|[=]].
  - cbn. intros o' _ p (p0 & _ & ->)%fmap_Some. by rewrite lookup_delete_eq.
  - intros m [[= ->]|[=]]. apply (dl_got w D id). by right.
Qed.

(** The read loop takes a response's waiter. *)
Lemma delivered_take w m ch c :
  numbered w → delivered w → w_handing w = None → take_waiter (rp_RequestSeq m) (w_client w) = (Some ch, c) →
  delivered (w <| w_client := c |> <| w_handing := Some (ch, m) |>).
Proof.
  intros Hn [H1 H2 H3 H4 H5 H6 H7] Hh [= Ht <-]. destruct (cl_pending (w_client w)) as [p|] eqn:Ep; [|done]. cbn in Ht.
  destruct (H1 p _ _ eq_refl Ht) as ((k & Hk & Ho) & Hch & _). unfold unregister. split; cbn; rewrite ?Ep; cbn; try done.
  - intros p' q' id' [= <-] (Hne & Hq)%lookup_delete_Some. destruct (H1 p q' id' eq_refl Hq) as ((k' & Hk' & Ho') & Hch' & _).
    split; [by exists k'|]. split; [done|]. intros m' [= <- _]. congruence.
  - intros id' m' [= <- <-]. split; [done|]. by exists k.
  - intros id' q' k' Hk' Hw. unfold answerable. cbn. rewrite Ep. destruct (H4 id' q' k' Hk' Hw) as [?|[?|[(m' & ?)|(p' & Hp & Hq)]]]; auto.
    { congruence. }
    rewrite Ep in Hp. injection Hp as <-. destruct (decide (q' = rp_RequestSeq m)) as [->|].
    + right; right; left. exists m. congruence.
    + right; right; right. eexists. split; [done|]. by rewrite lookup_delete_ne.
  - by rewrite H6.
Qed.

(** It hands the response over. *)
Lemma delivered_hand w ch m :
  delivered w → w_handing w = Some (ch, m) → cl_chans (w_client w) !! ch = Some Empty →
  delivered (w <| w_client ::= (fun c => c <| cl_chans ::= <[ch := Full m]> |>) |> <| w_handing := None |>).
Proof.
  intros [H1 H2 H3 H4 H5 H6 H7] Hh Hch. destruct (H2 _ _ Hh) as (_ & k & Hk). split; cbn; try done.
  - intros p q id Hp Hq. destruct (H1 p q id Hp Hq) as (Hc & He & Hno). split; [done|]. split; [|done].
    rewrite lookup_insert_ne; [done|]. intros <-. by apply (Hno m).
  - intros id m'. rewrite lookup_insert_Some. intros [[<- [= <-]]|[_ Hf]]; [by exists k|by apply H3].
  - intros id q k' Hk' Hw. unfold answerable. cbn. destruct (decide (ch = id)) as [<-|Hne].
    { left. exists m. apply lookup_insert_eq. }
    rewrite lookup_insert_ne by done. destruct (H4 id q k' Hk' Hw) as [?|[?|[(m' & Hm)|?]]]; auto. congruence.
  - intros id Hn. rewrite lookup_insert_ne; [by apply H7|]. intros <-. congruence.
Qed.

(** The stream ends. *)
Lemma delivered_end w : delivered w → w_handing w = None → delivered (w <| w_client ::= endLoop |>).
Proof.
  intros [H1 H2 H3 H4 H5 H6 H7] Hh. split; cbn; try done.
  - intros id m Hm. congruence.
  - intros id m Hf%close_all_full. by apply H3.
  - intros id q k Hk Hw. unfold answerable. cbn. destruct (H4 id q k Hk Hw) as [(m & Hm)|[Hcl|[(m & Hm)|(p & Hp & Hq)]]]; [| |congruence|].
    + left. exists m. rewrite close_all_out; [done|]. intros q' Hq'. destruct (cl_pending (w_client w)) as [p|] eqn:Ep; [|done].
      destruct (H1 p q' id eq_refl Hq') as (_ & He & _). congruence.
    + right; left. destruct (cl_pending (w_client w)) as [p|] eqn:Ep; [|by rewrite close_all_out].
      rewrite close_all_out; [done|]. intros q' Hq'. destruct (H1 p q' id eq_refl Hq') as (_ & He & _). congruence.
    + right; left. rewrite Hp. by apply (close_all_in _ _ q).
  - intros id Hn. rewrite close_all_out; [by apply H7|]. intros q Hq. destruct (cl_pending (w_client w)) as [p|] eqn:Ep; [|done].
    destruct (H1 p q id eq_refl Hq) as ((k & Hk & _) & _). congruence.
Qed.

(** A call on an ended stream. *)
Lemma delivered_refused w w' id q :
  delivered w → cl_pending (w_client w) = None → w_calls w !! id = None →
  w_calls w' = <[id := (q, Returned ErrClosed)]> (w_calls w) → w_handing w' = w_handing w →
  cl_pending (w_client w') = None → cl_chans (w_client w') = cl_chans (w_client w) →
  cl_done (w_client w') = cl_done (w_client w) → delivered w'.
Proof.
  intros [H1 H2 H3 H4 H5 H6 H7] Hp Hc E1 E2 E3 E4 E5.
  assert (Hl : ∀ id' x, w_calls w !! id' = Some x → w_calls w' !! id' = Some x).
  { intros id' x H. rewrite E1, lookup_insert_ne; [done|]. intros <-. congruence. }
  split; unfold answerable in *; rewrite ?E2, ?E3, ?E4, ?E5, ?Hp in *; try done.
  - intros id' m Hm. destruct (H2 _ _ Hm) as (He & k & Hk). split; [done|]. exists k. by apply Hl.
  - intros id' m Hm. destruct (H3 _ _ Hm) as (k & Hk). exists k. by apply Hl.
  - intros id' q' k. rewrite E1, lookup_insert_Some. intros [[_ [= _ <-]]|[_ H]] Hw; [by destruct Hw|by eapply H4].
  - intros id' q' m. rewrite E1, !lookup_insert_Some. intros [[[_ [=]]|[_ H]]|[[_ [=]]|[_ H]]]; eauto.
  - intros id'. rewrite E1, lookup_insert_None. intros [H _]. by apply H7.
Qed.

Lemma pending_chan w id x p q :
  delivered w → cl_chans (w_client w) !! id = Some x → x ≠ Empty → cl_pending (w_client w) = Some p → p !! q ≠ Some id.
Proof. intros D Hx Hne Hp Hq. destruct (dl_pending w D p q id Hp Hq) as (_ & He & _). congruence. Qed.

Lemma delivered_step w w' : cstep w w' → numbered w → delivered w → delivered w'.
Proof.
  intros Hs Hn D. destruct Hs.
  - by eapply delivered_register.
  - injection H1 as <- <-. unfold register in H2.
    change (cl_pending ((w_client w) <| cl_seq ::= Z.succ |>)) with (cl_pending (w_client w)) in H2.
    destruct (cl_pending (w_client w)) as [p|] eqn:Ep; [done|]. injection H2 as <-.
    by apply (delivered_refused w _ id (cl_seq (w_client w) + 1)).
  - eapply (delivered_call w _ id q Sending Waiting D); try done; [by left|by intros m [[=]|[=]]].
  - eapply (delivered_call w _ id q Sending (Unregistering WriteFailed) D); try done; [by left|by intros m [[=]|[=]]].
  - eapply (delivered_call w _ id q Waiting (Returned (Got m)) D); try done; [by right| |].
    + intros o _ p Hp. by eapply (pending_chan w id (Full m)).
    + intros m' [[= <-]|[=]]. destruct (dl_full w D _ _ H0) as (k & Hk). congruence.
  - eapply (delivered_call w _ id q Waiting (Returned ErrClosed) D); try done; [by right| |by intros m [[=]|[=]]].
    intros o _ p Hp. by eapply (pending_chan w id Closed).
  - eapply (delivered_call w _ id q Waiting (Unregistering CtxDone) D); try done; [by right|by intros m [[=]|[=]]].
  - by eapply delivered_unregister.
  - by eapply delivered_take.
  - injection H1 as Ht <-. apply (delivered_same w); try done. cbn. destruct (cl_pending (w_client w)) as [p|]; [|done].
    cbn in *. by rewrite delete_id.
  - by apply delivered_hand.
  - by apply delivered_end.
  - injection H0 as <- <-. by apply (delivered_same w); destruct ok.
Qed.

(** ** The client *)

Lemma reachable_ok w : rtc cstep new_world w → numbered w ∧ delivered w.
Proof.
  intros H. assert (Hn : ∀ w0, rtc cstep w0 w → numbered w0 → delivered w0 → numbered w ∧ delivered w).
  { clear. induction 1 as [w|w0 w1 w Hs _ IH]; intros Hn D; [done|]. apply IH; [by eapply numbered_step|by eapply delivered_step]. }
  apply (Hn _ H); [apply numbered_new|apply delivered_new].
Qed.

(** C17: in every state a client reaches, however its calls, its read loop and
    its replies interleave: no two calls have one number, and the messages
    written are numbered upwards; a call that got a response got the one that
    answers its own request; the channel the read loop is about to write to
    is open and empty, so it neither blocks on a caller nor panics; and a call
    still waiting is answered already, is being handed its response, or is
    registered to get it, and once the stream has ended it is not left
    waiting: its channel holds a response or is closed. *)
Theorem client_calls w (Hw : rtc cstep new_world w) :
  (∀ id id' q k k', w_calls w !! id = Some (q, k) → w_calls w !! id' = Some (q, k') → id = id')
  ∧ StronglySorted Z.lt (cl_sent (w_client w))
  ∧ (∀ id q m, w_calls w !! id = Some (q, Returned (Got m)) → rp_RequestSeq m = q)
  ∧ (∀ id m, w_handing w = Some (id, m) → cl_chans (w_client w) !! id = Some Empty)
  ∧ (∀ id q, w_calls w !! id = Some (q, Waiting) → answerable w id q)
  ∧ ∀ id q, cl_done (w_client w) = true → w_handing w = None → w_calls w !! id = Some (q, Waiting) →
      ∃ o w', o ≠ CtxDone ∧ cstep w w' ∧ w_calls w' !! id = Some (q, Returned o).
Proof.
  destruct (reachable_ok w Hw) as [Hn D]. split_and!.
  - apply (nb_once w Hn).
  - apply (nb_sent w Hn).
  - intros id q m H. apply (dl_got w D id). by left.
  - intros id m H. by apply (dl_handing w D id m).
  - intros id q H. apply (dl_waiting w D id q Waiting H). by right.
  - intros id q Hd Hh Hc. destruct (dl_waiting w D id q Waiting Hc (or_intror eq_refl)) as [(m & Hm)|[Hcl|[(m & Hm)|(p & Hp & _)]]].
    + eexists (Got m), _. split; [done|]. split; [by apply (st_got w id q m)|apply lookup_insert_eq].
    + eexists ErrClosed, _. split; [done|]. split; [by apply (st_got_closed w id q)|apply lookup_insert_eq].
    + congruence.
    + apply (dl_done w D) in Hd. congruence.
Qed.

(** A call that is answered. *)
Definition the_response : response := mkResponse 1 true "" None "body".

Lemma client_calls_witness :
  ∃ w, rtc cstep new_world w ∧ w_calls w !! 0%nat = Some (1, Returned (Got the_response)) ∧ rp_RequestSeq the_response = 1.
Proof.
  assert (H : ∃ w, rtc cstep new_world w ∧ w_calls w !! 0%nat = Some (1, Returned (Got the_response))).
  { eexists. split.
    - eapply rtc_l; [eapply (st_register new_world 0%nat 1); reflexivity|].
      eapply rtc_l; [eapply (st_written _ 0%nat 1); reflexivity|].
      eapply rtc_l; [eapply (st_response _ the_response 0%nat); reflexivity|].
      eapply rtc_l; [eapply (st_hand _ 0%nat the_response); reflexivity|].
      eapply rtc_l; [eapply (st_got _ 0%nat 1 the_response); reflexivity|]. apply rtc_refl.
    - reflexivity. }
  destruct H as (w & Hw & Hc). exists w. split; [exact Hw|]. split; [exact Hc|].
  destruct (client_calls w Hw) as (_ & _ & H & _). exact (H 0%nat 1 the_response Hc).
Defined.

(** ** The read loop *)

Definition fits (content : string) : bool := slen content <=? MaxAdapterMessage.

(** The read loop dispatches the messages of the stream in their order,
    whole, and skips one over the limit without losing its place; at the end
    of the stream it ends as closed. *)
Theorem readLoop_written l :
  Forall (fun c => slen c < 10 ^ 10) l →
  readLoop (mkReader (writeAll l) EOF) = (List.filter fits l, IOError EOF)
  ∧ loop_error (IOError EOF) = None.
Proof.
  intros Hl. split; [|done]. unfold readLoop. cbn [r_bytes].
  assert (Hf : (length l < S (String.length (writeAll l)))%nat).
  { clear. induction l as [|c l IH]; [cbn; lia|]. cbn [writeAll length].
    rewrite string_app_length, writeMessage_header, string_app_length. unfold header_of. rewrite string_app_length.
    change (String.length contentLengthPrefix) with 16%nat. lia. }
  revert Hf. generalize (S (String.length (writeAll l))). induction Hl as [|c l Hc Hl IH]; intros [|n] Hn; try (cbn in Hn; lia).
  - by vm_compute.
  - cbn [length] in Hn. cbn [readLoop_go writeAll List.filter]. unfold fits at 1. destruct (Z.leb_spec (slen c) MaxAdapterMessage).
    + rewrite ReadMessage_frame by done. rewrite IH by lia. done.
    + destruct (ReadMessage_too_large c (writeAll l) EOF MaxAdapterMessage ltac:(lia)) as [-> Hs]. cbn [r_bytes r_end].
      rewrite Hs. rewrite (proj2 (Z.leb_le _ _)); [|unfold slen; rewrite string_app_length; lia]. apply IH. lia.
Qed.

Lemma readLoop_written_witness : readLoop (mkReader (writeAll ["{}"; "[]"]) EOF) = (["{}"; "[]"]%string, IOError EOF).
Proof. apply (readLoop_written ["{}"; "[]"]). repeat constructor. Defined.

(** ** The server *)

(** Writes in a row. *)
Fixpoint serve (ws : list ((Z → option string) * option nat)) (s : Server) : list (option write_error) * Server :=
  match ws with
  | [] => ([], s)
  | (encode, n) :: ws =>
    let '(e, s) := write encode n s in
    let '(es, s) := serve ws s in (e :: es, s)
  end.

Definition sent_fine (e : option write_error) : bool := match e with None => true | Some _ => false end.

Lemma serve_broken ws s : sv_broken s = true → (serve ws s).2 = s ∧ Forall (fun e => e = Some errBroken) (serve ws s).1.
Proof.
  intros Hb. induction ws as [|[encode n] ws IH]; [done|]. cbn [serve]. unfold write. rewrite Hb.
  destruct (serve ws s) as [es s']. destruct IH as [IH1 IH2]. split; [done|by constructor].
Qed.

Lemma writeAll_app l1 l2 : writeAll (l1 ++ l2) = writeAll l1 +:+ writeAll l2.
Proof. induction l1 as [|c l1 IH]; [done|]. cbn [app writeAll]. by rewrite IH, string_app_assoc. Qed.

Lemma write_alone encode n s :
  sv_broken s = false →
  write encode n s
  = match encode (Z.succ (sv_seq s)) with
    | None => (Some EncodeError, mkServer (Z.succ (sv_seq s)) (sv_broken s) (sv_stream s))
    | Some content =>
      match n with
      | None => (None, mkServer (Z.succ (sv_seq s)) (sv_broken s) (sv_stream s +:+ writeMessage content))
      | Some n => (Some WriteError, mkServer (Z.succ (sv_seq s)) true (sv_stream s +:+ stake n (writeMessage content)))
      end
    end.
Proof. destruct s as [q b out]. cbn. by intros ->. Qed.

Lemma serve_spec ws s sent :
  sv_broken s = false → sv_stream s = writeAll (map snd sent) → StronglySorted Z.lt (map fst sent) →
  (∀ q, In q (map fst sent) → q ≤ sv_seq s) →
  let '(es, s') := serve ws s in
  ∃ more rest, sv_stream s' = writeAll (map snd (sent ++ more)) +:+ rest
    ∧ StronglySorted Z.lt (map fst (sent ++ more))
    ∧ length more = length (List.filter sent_fine es) ∧ (sv_broken s' = false → rest = ""%string).
Proof.
  revert s sent. induction ws as [|[encode n] ws IH]; intros s sent Hb Hst Hs Hle; cbn [serve].
  { exists [], ""%string. rewrite app_nil_r, string_app_nil_r. by split_and!. }
  rewrite write_alone by done. destruct (encode (Z.succ (sv_seq s))) as [content|].
  - destruct n as [n|].
    + pose proof (serve_broken ws (mkServer (Z.succ (sv_seq s)) true (sv_stream s +:+ stake n (writeMessage content))) eq_refl) as [H1 H2].
      destruct (serve ws _) as [es s']. cbn [fst snd] in *. subst s'. exists [], (stake n (writeMessage content)).
      rewrite app_nil_r. cbn [sv_stream]. split_and!; [by rewrite <- Hst|done| |done]. cbn [List.filter sent_fine].
      clear -H2. induction H2 as [|e es -> _ IH]; [done|]. exact IH.
    + set (s1 := mkServer (Z.succ (sv_seq s)) (sv_broken s) (sv_stream s +:+ writeMessage content)).
      assert (Hall : ∀ q, In q (map fst (sent ++ [(Z.succ (sv_seq s), content)])) → q ≤ Z.succ (sv_seq s)).
      { intros q. rewrite map_app. intros [Hq|[<-|[]]]%List.in_app_iff; [apply Hle in Hq; lia|done]. }
      destruct (serve ws s1) as [es s'] eqn:E. specialize (IH s1 (sent ++ [(Z.succ (sv_seq s), content)]) Hb). rewrite E in IH.
      destruct IH as (more & rest & H1 & H2 & H3 & H4); [|rewrite map_app; apply sorted_snoc_lt; [done|intros x Hx; apply Hle in Hx; cbn; lia]|done|].
      { cbn [s1 sv_stream]. rewrite map_app, writeAll_app, <- Hst. cbn [map snd writeAll]. by rewrite string_app_nil_r. }
      exists ((Z.succ (sv_seq s), content) :: more), rest. rewrite <- app_assoc in H1, H2. cbn [app] in H1, H2.
      split_and!; [done|done|cbn; by rewrite H3|done].
  - set (s1 := mkServer (Z.succ (sv_seq s)) (sv_broken s) (sv_stream s)).
    destruct (serve ws s1) as [es s'] eqn:E. specialize (IH s1 sent Hb Hst Hs).
    rewrite E in IH. apply IH. intros q Hq. apply Hle in Hq. cbn. lia.
Qed.

(** What a server writes: the messages it reports as sent, whole, one
    after another, numbered upwards, and nothing else but, after a write that failed, the part of
    that message the connection took, behind which nothing more is written. *)
Theorem server_writes ws :
  let '(es, s') := serve ws NewServer in
  ∃ sent rest, sv_stream s' = writeAll (map snd sent) +:+ rest ∧ StronglySorted Z.lt (map fst sent)
    ∧ length sent = length (List.filter sent_fine es) ∧ (sv_broken s' = false → rest = ""%string).
Proof. apply (serve_spec ws NewServer []); try done. constructor. Qed.

(** Reading a request passes over messages that are none. *)
Lemma readRequest_first {Q} (head : string → option (Z * string * string)) (decode : string → option Q) maxContent pre raw post e seq command :
  Forall (fun c => slen c ≤ maxContent ∧ slen c < 10 ^ 10) (pre ++ [raw]) →
  Forall (fun c => ∃ q typ cmd, head c = Some (q, typ, cmd) ∧ typ ≠ "request"%string) pre →
  head raw = Some (seq, "request"%string, command) →
  ReadRequest maxContent head decode (mkReader (writeAll (pre ++ [raw]) +:+ post) e)
  = (match decode raw with Some req => GotRequest req | None => DecodeError seq command end, mkReader post e).
Proof.
  intros Hl Hpre Hraw. unfold ReadRequest. cbn [r_bytes].
  assert (Hf : (length pre < S (String.length (writeAll (pre ++ [raw]) +:+ post)))%nat).
  { clear. induction pre as [|c l IH]; [cbn; lia|]. cbn [writeAll length app].
    rewrite string_app_assoc, string_app_length, writeMessage_header, string_app_length. unfold header_of. rewrite string_app_length.
    change (String.length contentLengthPrefix) with 16%nat. lia. }
  revert Hf. generalize (S (String.length (writeAll (pre ++ [raw]) +:+ post))).
  induction Hpre as [|c pre (q & typ & cmd & Hc & Ht) Hpre IH]; intros [|n] Hn; try (cbn in Hn; lia); cbn [app writeAll] in *;
    apply Forall_cons in Hl as [[H1 H2] Hl]; rewrite string_app_assoc; cbn [ReadRequest_go]; rewrite ReadMessage_frame by done.
  - rewrite Hraw. cbn. by destruct (decode raw).
  - rewrite Hc. destruct (String.eqb_spec typ "request"); [done|]. apply IH; [done|]. cbn in Hn. lia.
Qed.
