(* ===== verification/PathMap.v ===== *)
(** * The path map of container sessions (internal/session/pathmap.go)

    Source paths between the host and a debuggee that names its sources by
    another file system's paths, on a Unix host. What the file system answers
    (symlink resolution, whether a path is a directory, which file it is) is a
    parameter of the operations that ask it. *)

From S2P Require Import Prelude GoStrings GoPath Api.
From Stdlib Require Import Ascii Bool.

Open Scope Z_scope.

Definition maxPathMappings : Z := 16.
Definition maxRemotePath : Z := 1024.

Definition sourceExtensions : list string :=
  [".cs"; ".csx"; ".vb"; ".fs"; ".fsi"; ".fsx"; ".razor"; ".cshtml"; ".xaml"]%string.
Definition isSourceName (name : string) : bool :=
  let lower := to_lower name in
  existsb (fun ext => has_suffix ext lower && (slen ext <? slen lower)) sourceExtensions.

Record pathPair := mkPair { remote : string; local : string }.
#[global] Instance pathPair_eq_dec : EqDecision pathPair.
Proof. solve_decision. Defined.
Record PathMap := mkPathMap {
  pairs : list pathPair;                    (* as given *)
  byLocal : list pathPair; byRemote : list pathPair }. (* longest side first *)

Definition mapError (msg : string) : Error := NewError CodeInvalidRequest ("invalid path map: " +:+ msg).

(** Valid UTF-8 without control characters. *)
Definition plainText (s : string) : bool :=
  valid_utf8 s && negb (existsb is_control (runes s)).

Definition hasDotDot (p : string) : bool := existsb (fun seg => seg =?s "..") (split_on slash p).

Definition checkRemoteRoot (r : string) : result unit :=
  if maxRemotePath <? slen r then
    Err (mapError ("container path of " +:+ itoa (slen r) +:+ " bytes: at most 1024 are allowed"))
  else if negb (has_prefix "/" r) || contains_byte "\" r || negb (plainText r) then
    Err (mapError ("container path " +:+ quote r
      +:+ ": want an absolute POSIX path (from /, no backslashes or control characters)"))
  else if negb (r =?s Clean r) then
    Err (mapError ("container path " +:+ quote r +:+ ": want it clean, as " +:+ quote (Clean r)))
  else Ok ().

Section fs.
(** [filepath.EvalSymlinks] and [os.Stat] (the identity of a directory;
    [None]: not there or not a directory). *)
Context (EvalSymlinks : string → option string) (stat_dir : string → option Z).

Definition checkLocalRoot (l : string) : result (string * Z) :=
  if negb (is_abs l) then Err (mapError ("host directory " +:+ quote l +:+ ": want an absolute path"))
  else match EvalSymlinks (Clean l) with
       | None => Err (mapError ("host directory " +:+ quote l +:+ ": not found"))
       | Some resolved =>
         match stat_dir resolved with
         | None => Err (mapError ("host directory " +:+ quote l +:+ ": not a directory"))
         | Some id => Ok (resolved, id)
         end
       end.

(** The check of one pair against those before it. *)
Fixpoint mapped_twice (r l : string) (dir : Z) (before : list (pathPair * Z)) : result unit :=
  match before with
  | [] => Ok ()
  | (p, d) :: before =>
    if remote p =?s r then Err (mapError ("container path " +:+ quote r +:+ " is mapped twice"))
    else if (local p =?s l) || (d =? dir) then
      Err (mapError ("host directory " +:+ quote l +:+ " is mapped twice"))
    else mapped_twice r l dir before
  end.

Fixpoint check_pairs (ps : list pathPair) (before : list (pathPair * Z)) : result (list (pathPair * Z)) :=
  match ps with
  | [] => Ok before
  | p :: ps =>
    try _ := checkRemoteRoot (remote p) in
    try (l, dir) := checkLocalRoot (local p) in
    try _ := mapped_twice (remote p) l dir before in
    check_pairs ps (before ++ [(mkPair (remote p) l, dir)])
  end.
End fs.

(** [slices.SortStableFunc] by length, longest first: stable insertion. *)
Fixpoint insert_by (len : pathPair → Z) (p : pathPair) (l : list pathPair) : list pathPair :=
  match l with
  | [] => [p]
  | q :: l' => if len q <? len p then p :: l else q :: insert_by len p l'
  end.
Definition sort_by (len : pathPair → Z) (l : list pathPair) : list pathPair :=
  fold_left (fun acc p => insert_by len p acc) l [].

Definition NewPathMap (EvalSymlinks : string → option string) (stat_dir : string → option Z)
    (ps : list pathPair) : result PathMap :=
  if maxPathMappings <? Z.of_nat (length ps) then
    Err (mapError (itoa (Z.of_nat (length ps)) +:+ " path mappings: at most 16 are allowed"))
  else
    try checked := check_pairs EvalSymlinks stat_dir ps [] in
    let ps := checked.*1 in
    Ok (mkPathMap ps (sort_by (fun p => slen (local p)) ps) (sort_by (fun p => slen (remote p)) ps)).

Definition Mappings (m : PathMap) : list pathPair := pairs m.

Definition PathMap_String (m : PathMap) : string :=
  match pairs m with
  | [] => "(empty)"
  | ps => join ", " (map (fun p => remote p +:+ "=" +:+ local p) ps)
  end.

(** [under]: [c]'s path below [root], "" for [root] itself. *)
Definition under (root c : string) : option string :=
  if root =?s "/" then Some (sdrop 1 c)
  else if c =?s root then Some ""%string
  else cut_prefix (root +:+ "/") c.

(** On a Unix host [filepath.Localize] refuses what the segment check has
    refused already, and a NUL, which is not plain text. *)
Definition localRel (rel : string) : option string :=
  if contains_byte "\" rel || negb (plainText rel) then None
  else if existsb (fun seg => (seg =?s "") || (seg =?s ".") || (seg =?s "..")) (split_on slash rel) then None
  else Some rel.

Definition escapes (rel : string) : bool := (rel =?s "..") || has_prefix "../" rel || is_abs rel.

Definition within (root p : string) : bool :=
  if p =?s root then true
  else has_prefix (if has_suffix "/" root then root else root +:+ "/") p.

Fixpoint ToRemote_go (ps : list pathPair) (host : string) : option string :=
  match ps with
  | [] => None
  | p :: ps =>
    match Rel (local p) host with
    | None => ToRemote_go ps host
    | Some rel =>
      if escapes rel then ToRemote_go ps host
      else if rel =?s "." then Some (remote p)
      else match localRel rel with
           | None => None
           | Some _ => Some (Join (remote p) rel)
           end
    end
  end.
Definition ToRemote (m : PathMap) (host : string) : option string := ToRemote_go (byLocal m) host.

Fixpoint ToLocal_go (ps : list pathPair) (c : string) : option string :=
  match ps with
  | [] => None
  | p :: ps =>
    match under (remote p) c with
    | None => ToLocal_go ps c
    | Some rel =>
      if rel =?s "" then Some (local p)
      else match localRel rel with
           | None => None
           | Some osRel =>
             let out := Join (local p) osRel in
             if within (local p) out then Some out else None
           end
    end
  end.
Definition ToLocal (m : PathMap) (r : string) : option string :=
  if negb (has_prefix "/" r) || negb (plainText r) || hasDotDot r then None
  else ToLocal_go (byRemote m) (Clean r).

(** [resolve], given the resolved path: the longest host directory holding
    it and the path below. *)
Definition resolve (EvalSymlinks : string → option string) (m : PathMap) (l : string) : option (string * string) :=
  match EvalSymlinks l with
  | None => None
  | Some resolved =>
    if negb (isSourceName (Base resolved)) then None
    else match List.find (fun p => within (local p) resolved) (byLocal m) with
         | None => None
         | Some p =>
           let rel := trim_prefix "/" (trim_prefix (local p) resolved) in
           Some (local p, if rel =?s "" then "."%string else rel)
         end
  end.
Definition Readable (EvalSymlinks : string → option string) (m : PathMap) (l : string) : bool :=
  bool_decide (is_Some (resolve EvalSymlinks m l)).

Definition MessageOutsidePathMap : string := " is outside the container's path map".
Definition checkBreakpoint (m : option PathMap) (spec : BreakpointSpec) : result unit :=
  match m with
  | None => Ok ()
  | Some m =>
    if negb (sp_Function spec =?s "") then Ok ()
    else match ToRemote m (sp_File spec) with
         | Some _ => Ok ()
         | None => Err (NewError CodeInvalidRequest (sp_File spec +:+ MessageOutsidePathMap))
         end
  end.

(** ** Well-formed maps *)

(** Both sides are clean absolute paths (what [NewPathMap] stores, given that
    [EvalSymlinks] answers clean absolute paths). *)
Definition clean_root (p : string) : Prop :=
  ∃ es, p = "/" +:+ join "/" es ∧ Forall (fun x => plain_elem x = true) es.
Definition wf_pair (p : pathPair) : Prop := clean_root (remote p) ∧ clean_root (local p).

Lemma clean_root_elems p : clean_root p → Clean p = p ∧ is_abs p = true ∧ p = "/" +:+ join "/" (elems p).
Proof.
  intros (es & -> & He). rewrite Clean_rooted by done. rewrite elems_of_rooted by done. done.
Qed.

Lemma Clean_clean_root p : is_abs p = true → clean_root (Clean p).
Proof. intros H. exists (elems p). rewrite Clean_rooted by done. split; [done|by apply elems_plain]. Qed.

Lemma insert_by_Permutation len p l : Permutation (insert_by len p l) (p :: l).
Proof.
  induction l as [|q l IH]; simpl; [done|]. case_match; [done|].
  rewrite IH. apply Permutation_swap.
Qed.

Lemma sort_by_Permutation len l : Permutation (sort_by len l) l.
Proof.
  unfold sort_by. rewrite <- (app_nil_r l) at 2. generalize (@nil pathPair).
  induction l as [|p l IH]; intros acc; simpl; [done|].
  rewrite IH, insert_by_Permutation. symmetry. apply Permutation_middle.
Qed.

Definition longer (len : pathPair → Z) (p q : pathPair) : Prop := len q ≤ len p.

Lemma insert_by_sorted len p l :
  StronglySorted (longer len) l → StronglySorted (longer len) (insert_by len p l).
Proof.
  induction 1 as [|q l Hl IH Hq]; simpl; [by repeat constructor|].
  destruct (Z.ltb_spec (len q) (len p)).
  - constructor; [by constructor|]. constructor; [unfold longer; lia|].
    eapply Forall_impl; [exact Hq|]. unfold longer. intros; lia.
  - constructor; [done|]. rewrite insert_by_Permutation. constructor; [unfold longer; lia|done].
Qed.

Lemma sort_by_sorted len l : StronglySorted (longer len) (sort_by len l).
Proof.
  unfold sort_by. assert (StronglySorted (longer len) []) as H by constructor.
  revert H. generalize (@nil pathPair). induction l as [|p l IH]; intros acc H; simpl; [done|].
  by apply IH, insert_by_sorted.
Qed.

(** The elements of a path that passed [localRel]. *)
Lemma localRel_elems rel out :
  localRel rel = Some out →
  out = rel ∧ rel = join "/" (split_on slash rel)
  ∧ Forall (fun x => plain_elem x = true) (split_on slash rel).
Proof.
  unfold localRel. destruct (_ || _); [done|]. destruct (existsb _ _) eqn:E; [done|].
  intros [= <-]. split; [done|]. split.
  - symmetry. apply (join_split slash).
  - apply List.Forall_forall. intros x Hx. unfold plain_elem.
    pose proof (split_on_no_sep slash rel) as Hs. rewrite List.Forall_forall in Hs.
    rewrite (Hs x Hx). rewrite <- not_true_iff_false, List.existsb_exists in E.
    destruct ((x =?s "") || (x =?s ".") || (x =?s "..")) eqn:Ex; [|done].
    exfalso. apply E. by exists x.
Qed.

(** ** Properties *)

Lemma under_spec root c rel :
  is_abs c = true →
  under root c = Some rel →
  (root = "/"%string ∧ c = "/" +:+ rel) ∨ (c = root ∧ rel = ""%string) ∨ c = root +:+ "/" +:+ rel.
Proof.
  intros Hc. unfold under. destruct (String.eqb_spec root "/") as [->|].
  - intros [= <-]. left. split; [done|]. apply has_prefix_spec in Hc as [r ->]. by destruct r.
  - destruct (String.eqb_spec c root) as [->|]; [intros [= <-]; by right; left|].
    intros H%cut_prefix_Some. right. right. by rewrite H, string_app_assoc.
Qed.

Lemma ToLocal_go_spec ps c out :
  ToLocal_go ps c = Some out →
  ∃ p pre post rel, ps = pre ++ p :: post ∧ under (remote p) c = Some rel
    ∧ Forall (fun q => under (remote q) c = None) pre
    ∧ (rel = ""%string ∧ out = local p ∨
       rel ≠ ""%string ∧ localRel rel = Some rel ∧ out = Join (local p) rel ∧ within (local p) out = true).
Proof.
  induction ps as [|p ps IH]; simpl; [done|]. destruct (under (remote p) c) as [rel|] eqn:Hu.
  - intros H. exists p, [], ps, rel. split_and!; [done|done|done|].
    destruct (String.eqb_spec rel "") as [->|Hne]; [left; by injection H as <-|right].
    destruct (localRel rel) as [r|] eqn:El; [|done].
    apply localRel_elems in El as Hr. destruct Hr as [-> _].
    destruct (within (local p) (Join (local p) rel)) eqn:Hw; [|done]. by injection H as <-.
  - intros H. destruct (IH H) as (p' & pre & post & rel & -> & Hu' & Hpre & Hout).
    exists p', (p :: pre), post, rel. split_and!; [done|done|by constructor|done].
Qed.

(** What a container path maps to: the longest container directory that holds
    it decides, the host path has the same elements below that pair's host
    directory, and it never leaves it. *)
(** A path the container reports maps below the host directory of the pair
    with the longest container root above it, with exactly the segments below
    that root: no ".." in it leaves the mapped directory. *)
Theorem ToLocal_inside m r out :
  byRemote m = sort_by (fun p => slen (remote p)) (pairs m) →
  Forall wf_pair (pairs m) →
  ToLocal m r = Some out →
  ∃ p rel, In p (pairs m) ∧ under (remote p) (Clean r) = Some rel
    ∧ (∀ q, In q (pairs m) → is_Some (under (remote q) (Clean r)) → slen (remote q) ≤ slen (remote p))
    ∧ within (local p) out = true
    ∧ elems out = elems (local p) ++ (if rel =?s "" then [] else split_on slash rel).
Proof.
  intros Hby Hwf. unfold ToLocal. destruct (_ || _) eqn:E; [done|]. intros H.
  apply ToLocal_go_spec in H as (p & pre & post & rel & Hps & Hu & Hpre & Hout).
  rewrite Hby in Hps.
  assert (HP : Permutation (pairs m) (pre ++ p :: post)) by (rewrite <- Hps; symmetry; apply sort_by_Permutation).
  assert (Hin : In p (pairs m)).
  { rewrite HP. apply List.in_app_iff. right. by left. }
  rewrite List.Forall_forall in Hwf. destruct (Hwf p Hin) as [_ Hl].
  exists p, rel. split_and!; [done|done| | |].
  - intros q Hq [rq Hrq].
    pose proof (sort_by_sorted (fun p => slen (remote p)) (pairs m)) as Hs. rewrite Hps in Hs.
    rewrite HP in Hq. apply List.in_app_iff in Hq as [Hq|[<-|Hq]]; [|lia|].
    + rewrite List.Forall_forall in Hpre. by rewrite (Hpre q Hq) in Hrq.
    + clear -Hs Hq. induction pre as [|x pre IH]; simpl in Hs; apply StronglySorted_inv in Hs as [Hs Hall];
        [|by apply IH]. rewrite List.Forall_forall in Hall. exact (Hall q Hq).
  - destruct Hout as [[_ ->]|(_ & _ & _ & Hw)]; [|done]. unfold within. by rewrite String.eqb_refl.
  - destruct Hout as [[-> ->]|(Hne & Hlr & -> & _)]; simpl; [by rewrite app_nil_r|].
    destruct (String.eqb_spec rel ""); [done|].
    apply localRel_elems in Hlr as (_ & Hj & Hf). destruct Hl as (dir & Hdir & Hd).
    rewrite Hj at 1. rewrite Hdir, Join_rooted; [|done|done|by destruct (split_on slash rel) eqn:Es;
      [apply split_on_nonempty in Es|]].
    rewrite !elems_of_rooted; [done|done|by apply Forall_app].
Qed.

Lemma escapes_up (b t : list string) : b ≠ [] → escapes (join "/" (repeat ".."%string (length b) ++ t)) = true.
Proof.
  destruct b as [|x b]; [done|]. intros _. simpl length. simpl repeat. unfold escapes.
  destruct (repeat ".."%string (length b) ++ t) as [|y l] eqn:E; [by simpl; rewrite E|].
  cbn [app]. rewrite E.
  change (join "/" (".."%string :: y :: l)) with (".." +:+ "/" +:+ join "/" (y :: l)).
  by rewrite orb_true_r.
Qed.

Lemma join_rooted_inj es1 es2 :
  Forall (fun x => plain_elem x = true) es1 → Forall (fun x => plain_elem x = true) es2 →
  "/" +:+ join "/" es1 = "/" +:+ join "/" es2 → es1 = es2.
Proof. intros H1 H2 E. by rewrite <- (elems_of_rooted es1), E, elems_of_rooted. Qed.

(** A host path that [Rel] takes below a clean root, without escaping it. *)
Lemma Rel_below l host rel :
  clean_root l → is_abs host = true → Rel l host = Some rel → escapes rel = false →
  (rel = "."%string ∧ Clean host = l)
  ∨ ∃ t, t ≠ [] ∧ rel = join "/" t ∧ elems host = elems l ++ t ∧ Forall (fun x => plain_elem x = true) t.
Proof.
  intros Hl Hh. pose proof (clean_root_elems l Hl) as (Hc & Ha & He).
  unfold Rel. rewrite Hc, Ha, Hh. destruct (String.eqb_spec l (Clean host)) as [->|Hne].
  { intros [= <-] _. by left. }
  simpl. destruct (strip_common (elems l) (elems host)) as [b t] eqn:Es.
  apply strip_common_spec in Es as (pre & Hb & Ht).
  intros Hrel Hesc. right. destruct b as [|x b].
  - injection Hrel as <-. rewrite app_nil_r in Hb. exists t. simpl. split_and!; [|done|by rewrite Hb|].
    + intros ->. apply Hne. rewrite (Clean_rooted host Hh), Ht, app_nil_r, <- Hb. done.
    + pose proof (elems_plain host Hh) as Hp. rewrite Ht in Hp. by apply Forall_app in Hp as [_ Hp].
  - assert (escapes rel = true); [|congruence].
    destruct (decide (x = ".."%string)) as [->|]; [done|].
    assert (rel = join "/" (repeat ".."%string (length (x :: b)) ++ t)) as ->.
    { clear -n Hrel. repeat case_match; congruence. }
    by apply (escapes_up (x :: b)).
Qed.

Lemma plain_elem_head es : Forall (fun x => plain_elem x = true) es → es ≠ [] →
  join "/" es ≠ "" ∧ join "/" es ≠ ".".
Proof.
  intros H Hne. destruct es as [|e es]; [done|]. apply Forall_cons in H as [He _].
  unfold plain_elem in He. destruct e as [|c e]; [done|].
  destruct es as [|e' es].
  - simpl. split; [done|]. intros E. by rewrite E in He.
  - change (join "/" (String c e :: e' :: es)) with (String c (e +:+ "/" +:+ join "/" (e' :: es))).
    split; [done|]. intros [= -> E]. by destruct e.
Qed.

Lemma hasDotDot_rooted es :
  Forall (fun x => plain_elem x = true) es → hasDotDot ("/" +:+ join "/" es) = false.
Proof.
  intros H. unfold hasDotDot. change (split_on slash ("/" +:+ join "/" es))
    with (""%string :: split_on slash (join "/" es)). simpl.
  destruct es as [|e es]; [done|]. rewrite split_join by (done || by apply plain_no_slash).
  apply not_true_iff_false. intros (x & Hx & E)%List.existsb_exists.
  rewrite List.Forall_forall in H. apply H in Hx. apply String.eqb_eq in E as ->. done.
Qed.

Lemma split_on_app_last s : ∃ x l, split_on slash (s +:+ "/") = x :: l ++ [""%string].
Proof.
  induction s as [|c s (x & l & IH)]; [by exists ""%string, []|].
  cbn [String.append split_on]. rewrite IH. destruct (Ascii.eqb slash c); [by exists ""%string, (x :: l)|].
  by exists (String c x), l.
Qed.

Lemma has_suffix_slash es :
  Forall (fun x => plain_elem x = true) es → es ≠ [] → has_suffix "/" ("/" +:+ join "/" es) = false.
Proof.
  intros H Hne. apply not_true_iff_false. unfold has_suffix. intros [_ E%String.eqb_eq]%andb_true_iff.
  pose proof (stake_sdrop (String.length ("/" +:+ join "/" es) - String.length "/")
                ("/" +:+ join "/" es)) as Hd.
  rewrite E in Hd. apply (f_equal (split_on slash)) in Hd.
  destruct (split_on_app_last (stake (String.length ("/" +:+ join "/" es) - String.length "/")
    ("/" +:+ join "/" es))) as (x & l & Hl).
  rewrite Hl in Hd.
  change (split_on slash ("/" +:+ join "/" es)) with (""%string :: split_on slash (join "/" es)) in Hd.
  assert (split_on slash (join "/" es) = es) as Hs by (apply (split_join slash); [done|by apply plain_no_slash]).
  rewrite Hs in Hd. injection Hd as _ Hd. rewrite <- Hd in H.
  apply Forall_app in H as [_ H]. apply Forall_cons in H as [H _]. discriminate H.
Qed.

(** ** From the host to the container and back *)

(** The pair that the reverse translation uses is the first that applies. *)
Lemma ToLocal_uses m p es rel :
  plainText ("/" +:+ join "/" es) = true → Forall (fun x => plain_elem x = true) es →
  under (remote p) ("/" +:+ join "/" es) = Some rel →
  List.find (fun q => bool_decide (is_Some (under (remote q) ("/" +:+ join "/" es)))) (byRemote m) = Some p →
  ToLocal m ("/" +:+ join "/" es) = ToLocal_go [p] ("/" +:+ join "/" es).
Proof.
  intros Hpt Hes Hu. unfold ToLocal. rewrite Hpt, hasDotDot_rooted by done.
  rewrite Clean_rooted, elems_of_rooted by done. cbn [has_prefix Ascii.eqb negb orb andb].
  induction (byRemote m) as [|q qs IHq]; [done|]. cbn [List.find ToLocal_go].
  case_bool_decide as Hq.
  - intros [= ->]. by rewrite Hu.
  - destruct (under (remote q) _); [by destruct Hq|]. exact IHq.
Qed.

Lemma Join_below root t :
  clean_root root → t ≠ [] → Forall (fun x => plain_elem x = true) t →
  Join root (join "/" t) = "/" +:+ join "/" (elems root ++ t).
Proof.
  intros (_ & Ha & Hr)%clean_root_elems Hne Ht. rewrite Hr at 1. apply Join_rooted; [by apply elems_plain|done|done].
Qed.

Lemma under_below root t :
  clean_root root → t ≠ [] → Forall (fun x => plain_elem x = true) t →
  under root ("/" +:+ join "/" (elems root ++ t)) = Some (join "/" t).
Proof.
  intros (_ & Ha & Hr)%clean_root_elems Hne Ht. unfold under.
  destruct (String.eqb_spec root "/") as [E|E]; [by rewrite E|].
  assert (elems root ≠ []) as Hnil by (intros E'; by rewrite E' in Hr).
  assert (Hsp : "/" +:+ join "/" (elems root ++ t) = root +:+ "/" +:+ join "/" t).
  { rewrite join_app by done. rewrite Hr at 2. by rewrite !string_app_assoc. }
  rewrite Hsp. destruct (String.eqb_spec (root +:+ "/" +:+ join "/" t) root) as [E2|_].
  { exfalso. apply (f_equal String.length) in E2. rewrite !string_app_length in E2. simpl in E2. lia. }
  rewrite <- string_app_assoc. apply cut_prefix_app.
Qed.

Lemma within_below root t :
  clean_root root → t ≠ [] → within root ("/" +:+ join "/" (elems root ++ t)) = true.
Proof.
  intros (_ & Ha & Hr)%clean_root_elems Hne. unfold within. case_match; [done|].
  destruct (decide (elems root = [])) as [Ee|Ee].
  - by rewrite Hr, Ee.
  - rewrite join_app by done.
    assert (has_suffix "/" root = false) as ->.
    { rewrite Hr. apply has_suffix_slash; [|done]. by apply elems_plain. }
    rewrite Hr at 1. rewrite <- !string_app_assoc. apply has_prefix_app.
Qed.

(** A host path translated to the container translates back to the same
    (cleaned) path, when the pair used is the longest container root of the
    result. *)
Theorem ToLocal_ToRemote m host r :
  Forall wf_pair (byLocal m) → is_abs host = true → plainText r = true →
  ToRemote m host = Some r →
  ∃ p, In p (byLocal m) ∧ is_Some (under (remote p) r) ∧
    (List.find (fun q => bool_decide (is_Some (under (remote q) r))) (byRemote m) = Some p →
     ToLocal m r = Some (Clean host)).
Proof.
  intros Hwf Hh Hpt. unfold ToRemote.
  assert (Hsub : ∀ p, In p (byLocal m) → In p (byLocal m)) by done. revert Hsub Hwf.
  generalize (byLocal m) at 1 3 4. intros ps. induction ps as [|p ps IH]; simpl; [done|].
  intros Hsub [[Hwr Hwl] Hwf]%Forall_cons.
  assert (Hskip : ToRemote_go ps host = Some r → _) by (apply IH; auto).
  destruct (Rel (local p) host) as [rel|] eqn:Hrel; [|done].
  destruct (escapes rel) eqn:Hesc; [done|]. clear IH Hskip.
  pose proof (clean_root_elems _ Hwr) as (Hcr & Har & Her).
  pose proof (clean_root_elems _ Hwl) as (Hcl & Hal & Hel).
  apply Rel_below in Hrel as [[-> Hch]|(t & Hne & -> & Het & Hpl)]; [| |done..].
  - simpl. intros [= <-]. exists p. assert (Hu : under (remote p) (remote p) = Some ""%string).
    { unfold under. destruct (String.eqb_spec (remote p) "/") as [->|]; [done|]. by rewrite String.eqb_refl. }
    split_and!; [by apply Hsub; left|by eexists|]. intros Hf. rewrite Her in Hpt, Hf.
    pose proof (ToLocal_uses m p (elems (remote p)) ""%string Hpt) as HT. rewrite <- Her in HT, Hf.
    rewrite HT; [|by apply elems_plain|done|done]. simpl. rewrite Hu. simpl. by rewrite Hch.
  - destruct (plain_elem_head t Hpl Hne) as [H1 H2].
    destruct (String.eqb_spec (join "/" t) "."); [done|].
    destruct (localRel (join "/" t)) eqn:Hlr; [|done]. intros [= <-]. exists p.
    rewrite (Join_below _ _ Hwr Hne Hpl) in *. pose proof (under_below _ _ Hwr Hne Hpl) as Hu.
    split_and!; [by apply Hsub; left|by eexists|]. intros Hf.
    rewrite (ToLocal_uses m p _ (join "/" t) Hpt); [|by apply Forall_app; split; [apply elems_plain|]|done|done].
    cbn [ToLocal_go]. rewrite Hu. destruct (String.eqb_spec (join "/" t) ""); [done|].
    apply localRel_elems in Hlr as Hs. destruct Hs as [-> _]. rewrite Hlr, (Join_below _ _ Hwl Hne Hpl).
    by rewrite (within_below _ _ Hwl Hne), (Clean_rooted host Hh), Het.
Qed.

(** ** Witnesses *)

Definition sample_map : PathMap :=
  let ps := [mkPair "/app" "/home/u/web"; mkPair "/app/lib" "/home/u/lib"] in
  mkPathMap ps (sort_by (fun p => slen (local p)) ps) (sort_by (fun p => slen (remote p)) ps).

Definition clean_rootb (p : string) : bool := is_abs p && (Clean p =?s p).
Lemma wf_pairs_decided ps :
  forallb (fun p => clean_rootb (remote p) && clean_rootb (local p)) ps = true → Forall wf_pair ps.
Proof.
  intros H. apply List.Forall_forall. intros p Hp.
  apply (proj1 (List.forallb_forall _ ps) H) in Hp. unfold clean_rootb in Hp.
  rewrite !andb_true_iff, !String.eqb_eq in Hp. destruct Hp as [[Ha1 Hc1] [Ha2 Hc2]].
  split; [rewrite <- Hc1|rewrite <- Hc2]; by apply Clean_clean_root.
Qed.

Lemma ToLocal_inside_witness :
  ToLocal sample_map "/app/lib/x/A.cs" = Some "/home/u/lib/x/A.cs"%string
  ∧ ∃ p rel, In p (pairs sample_map) ∧ under (remote p) (Clean "/app/lib/x/A.cs") = Some rel
    ∧ (∀ q, In q (pairs sample_map) → is_Some (under (remote q) (Clean "/app/lib/x/A.cs")) → slen (remote q) ≤ slen (remote p))
    ∧ within (local p) "/home/u/lib/x/A.cs" = true
    ∧ elems "/home/u/lib/x/A.cs" = elems (local p) ++ (if rel =?s "" then [] else split_on slash rel).
Proof.
  split; [vm_compute; reflexivity|].
  apply (ToLocal_inside sample_map "/app/lib/x/A.cs"); [reflexivity| |vm_compute; reflexivity].
  apply wf_pairs_decided. vm_compute; reflexivity.
Defined.

Lemma ToLocal_ToRemote_witness :
  ToRemote sample_map "/home/u/web/./src/B.cs" = Some "/app/src/B.cs"%string
  ∧ ∃ p, In p (byLocal sample_map) ∧ is_Some (under (remote p) "/app/src/B.cs") ∧
    (List.find (fun q => bool_decide (is_Some (under (remote q) "/app/src/B.cs"))) (byRemote sample_map) = Some p →
     ToLocal sample_map "/app/src/B.cs" = Some (Clean "/home/u/web/./src/B.cs")).
Proof.
  split; [vm_compute; reflexivity|].
  apply (ToLocal_ToRemote sample_map "/home/u/web/./src/B.cs"); [|vm_compute; reflexivity..].
  apply wf_pairs_decided. vm_compute; reflexivity.
Defined.
