(* ===== verification/EventLog.v ===== *)
(** * The event log (internal/session/events.go)

    A bounded in-memory ring of events with a global sequence number from 1,
    its queries, and the long-poll read. [events] holds the suffix of the
    log's history that the bounds left; [seq] counts everything ever
    appended. *)

From S2P Require Import Prelude GoStrings Api.
From Stdlib Require Import Bool.

Open Scope Z_scope.

Definition maxEvents : Z := 10000.
Definition maxEventBytes : Z := 8 * 2 ^ 20.
Definition eventOverhead : Z := 128.
Definition defaultEventLimit : Z := 100.

Record eventLog := mkLog {
  l_maxCount : Z; l_maxBytes : Z;
  l_events : list Event;            (* oldest first *)
  l_bytes : Z; l_seq : Z;
  l_sink : option (list Event) }.   (* what the sink was given, in order; [None]: no sink *)
#[global] Instance eta_eventLog : Eta eventLog :=
  fun r => mkLog (l_maxCount r) (l_maxBytes r) (l_events r) (l_bytes r) (l_seq r) (l_sink r).

Definition newEventLog (maxCount maxBytes : Z) : eventLog := mkLog maxCount maxBytes [] 0 0 None.
Definition setSink (l : eventLog) : eventLog := l <| l_sink := Some [] |>.

(** What an event counts against the byte bound. *)
Definition eventSize (e : Event) : Z :=
  eventOverhead + slen (ev_Client e) + slen (ev_Action e) + slen (ev_Program e)
  + slen (ev_Previous e) + slen (ev_Reason e) + slen (ev_Category e) + slen (ev_Text e)
  + match ev_Stop e with
    | Some st => slen (si_Reason st) + slen (si_Description st) + slen (si_Text st)
                 + list_sum_Z (fun b => slen (sb_Owner b) + 8) (si_Breakpoints st)
    | None => 0
    end
  + match ev_Breakpoint e with
    | Some b => slen (b_File b) + slen (b_Condition b) + slen (b_Message b) + slen (b_Note b)
                + slen (b_Owner b)
    | None => 0
    end
  + match ev_Lease e with Some li => slen (li_Holder li) | None => 0 end.

(** [trimLocked]'s loop over the events still held, of size [bytes]. *)
Fixpoint trim (maxCount maxBytes : Z) (evs : list Event) (bytes : Z) : list Event * Z :=
  match evs with
  | [] => (evs, bytes)
  | e :: rest =>
    match rest with
    | [] => (evs, bytes)
    | _ :: _ =>
      if (maxCount <? Z.of_nat (length evs)) || (maxBytes <? bytes)
      then trim maxCount maxBytes rest (bytes - eventSize e)
      else (evs, bytes)
    end
  end.

Definition trimLocked (l : eventLog) : eventLog :=
  let '(evs, bytes) := trim (l_maxCount l) (l_maxBytes l) (l_events l) (l_bytes l) in
  l <| l_events := evs |> <| l_bytes := bytes |>.

(** [append] at time [now]: the event as stored, and the log. *)
Definition append (now : Z) (e : Event) (l : eventLog) : Event * eventLog :=
  let seq := l_seq l + 1 in
  let e := e <| ev_Seq := seq |> <| ev_Time := now |> in
  let l := l <| l_seq := seq |> <| l_events ::= fun evs => evs ++ [e] |>
             <| l_bytes ::= Z.add (eventSize e) |> in
  let l := trimLocked l in
  (e, l <| l_sink ::= fmap (fun given => given ++ [e]) |>).

Definition latest (l : eventLog) : Z := l_seq l.

Definition eventLimit (n : Z) : Z :=
  if n <=? 0 then defaultEventLimit else Z.min n MaxEventsLimit.

Definition matches (kinds : list EventKind) (e : Event) : bool :=
  match kinds with [] => true | _ => bool_decide (ev_Kind e ∈ kinds) end.

(** The selection loop over [held]: up to [limit] matching events, the rest
    counted. *)
Fixpoint select (limit : Z) (kinds : list EventKind) (held : list Event)
    (got : list Event) (more : Z) : list Event * Z :=
  match held with
  | [] => (got, more)
  | e :: held =>
    if negb (matches kinds e) then select limit kinds held got more
    else if Z.of_nat (length got) <? limit then select limit kinds held (got ++ [e]) more
    else select limit kinds held got (more + 1)
  end.

(** The sequence number of the oldest held event. *)
Definition first_seq (l : eventLog) : Z := l_seq l - Z.of_nat (length (l_events l)) + 1.

(** The held events after [since]: [l.events[min(max(since+1-first, 0), len):]]. *)
Definition held_after (since : Z) (l : eventLog) : list Event :=
  drop (Z.to_nat (Z.min (Z.max (since + 1 - first_seq l) 0) (Z.of_nat (length (l_events l))))) (l_events l).

Definition queryLocked (q : EventsParams) (l : eventLog) : EventsResult :=
  let since := if q_Since q <? 0 then l_seq l else q_Since q in
  let first := first_seq l in
  let dropped := if since + 1 <? first then first - since - 1 else 0 in
  let held := held_after since l in
  let limit := eventLimit (q_Limit q) in
  if q_Newest q then
    let '(got, more) := select limit (q_Kinds q) (rev held) [] 0 in
    mkEventsResult (rev got) (l_seq l) dropped more false
  else
    let '(got, more) := select limit (q_Kinds q) held [] 0 in
    mkEventsResult got (l_seq l) dropped more false.

Definition query := queryLocked.

(** [wait]: [l] is the log when the call locks it, [wakes] the log at each
    later append the waiter is woken by, [final] the log when the context
    ends. *)
Fixpoint wait_loop (q : EventsParams) (l : eventLog) (wakes : list eventLog) (final : eventLog) : EventsResult :=
  let res := queryLocked q l in
  match er_Events res with
  | _ :: _ => res
  | [] =>
    match wakes with
    | l' :: wakes => wait_loop q l' wakes final
    | [] => let res := query q final in
            res <| er_TimedOut := bool_decide (er_Events res = []) |>
    end
  end.
Definition wait (q : EventsParams) (l : eventLog) (wakes : list eventLog) (final : eventLog) : EventsResult :=
  let q := if q_Since q <? 0 then q <| q_Since := l_seq l |> else q in
  wait_loop q l wakes final.

Definition output_line (e : Event) : OutputLine := mkOutputLine (ev_Seq e) (ev_Category e) (ev_Text e).
Definition is_output (e : Event) : bool := bool_decide (ev_Kind e = EventOutput).

Definition outputSince (since : Z) (l : eventLog) : list OutputLine :=
  map output_line (List.filter is_output (held_after since l)).

Fixpoint outputUntil_go (seq : Z) (evs : list Event) : list OutputLine :=
  match evs with
  | [] => []
  | e :: evs =>
    if seq <? ev_Seq e then []
    else if is_output e then output_line e :: outputUntil_go seq evs else outputUntil_go seq evs
  end.
Definition outputUntil (seq : Z) (l : eventLog) : list OutputLine := outputUntil_go seq (l_events l).

(** ** The invariant *)

(** Consecutive sequence numbers ending at [seq], and the byte count. *)
Record wf_log (l : eventLog) : Prop := {
  wf_seqs : ∀ i e, l_events l !! i = Some e → ev_Seq e = first_seq l + Z.of_nat i;
  wf_len : Z.of_nat (length (l_events l)) ≤ l_seq l;
  wf_bytes : l_bytes l = list_sum_Z eventSize (l_events l);
}.

(** The bounds: at most [maxCount] events and [maxBytes] bytes, but always
    the newest event. *)
Definition within_bounds (l : eventLog) : Prop :=
  (length (l_events l) ≤ 1)%nat
  ∨ (Z.of_nat (length (l_events l)) ≤ l_maxCount l ∧ l_bytes l ≤ l_maxBytes l).

Lemma eventSize_pos e : 0 < eventSize e.
Proof.
  unfold eventSize, eventOverhead, slen.
  assert (∀ l, 0 ≤ list_sum_Z (fun b => Z.of_nat (String.length (sb_Owner b)) + 8) l)
    by (intros; apply list_sum_Z_nonneg; intros; lia).
  destruct (ev_Stop e) as [st|]; [specialize (H (si_Breakpoints st))|];
    destruct (ev_Breakpoint e), (ev_Lease e); lia.
Qed.

Lemma trim_step maxCount maxBytes e e' evs bytes :
  trim maxCount maxBytes (e :: e' :: evs) bytes
  = if (maxCount <? Z.of_nat (length (e :: e' :: evs))) || (maxBytes <? bytes)
    then trim maxCount maxBytes (e' :: evs) (bytes - eventSize e)
    else (e :: e' :: evs, bytes).
Proof. done. Qed.

(** Events beyond the bounds. *)
Definition too_much (maxCount maxBytes : Z) (evs : list Event) : Prop :=
  maxCount < Z.of_nat (length evs) ∨ maxBytes < list_sum_Z eventSize evs.

Lemma trim_is_suffix maxCount maxBytes evs bytes :
  bytes = list_sum_Z eventSize evs →
  ∃ n, (trim maxCount maxBytes evs bytes).1 = drop n evs
    ∧ (n ≤ length evs)%nat ∧ (evs ≠ [] → n < length evs)%nat
    ∧ (trim maxCount maxBytes evs bytes).2 = list_sum_Z eventSize (drop n evs)
    ∧ ((length (drop n evs) ≤ 1)%nat
       ∨ Z.of_nat (length (drop n evs)) ≤ maxCount ∧ list_sum_Z eventSize (drop n evs) ≤ maxBytes)
    ∧ (∀ m, (m < n)%nat → too_much maxCount maxBytes (drop m evs)).
Proof.
  revert bytes. induction evs as [|e evs IH]; intros bytes Hb.
  { exists 0%nat. simpl. split_and!; (done || lia || (left; lia)). }
  destruct evs as [|e' evs].
  { exists 0%nat. simpl in *. split_and!; (done || lia || (left; lia)). }
  rewrite trim_step. destruct (_ || _) eqn:E.
  - destruct (IH (bytes - eventSize e)) as (n & H1 & H2 & H2' & H3 & H4 & H5).
    { simpl in *. lia. }
    exists (S n). rewrite !H1, !H3. simpl drop. split_and!; [done|simpl in *; lia| |done|done|].
    + intros _. specialize (H2' ltac:(done)). simpl in *. lia.
    + intros [|m] Hm; [|apply H5; lia]. rewrite drop_0. apply orb_true_iff in E as [E%Z.ltb_lt|E%Z.ltb_lt]; [by left|right; lia].
  - exists 0%nat. apply orb_false_iff in E as [E1 E2].
    apply Z.ltb_ge in E1, E2. rewrite drop_0. split_and!; [done|lia|simpl; lia|done|right; lia|lia].
Qed.

Lemma trimLocked_events l :
  l_bytes l = list_sum_Z eventSize (l_events l) →
  ∃ n, l_events (trimLocked l) = drop n (l_events l)
    ∧ (n ≤ length (l_events l))%nat ∧ (l_events l ≠ [] → n < length (l_events l))%nat
    ∧ l_bytes (trimLocked l) = list_sum_Z eventSize (drop n (l_events l))
    ∧ within_bounds (trimLocked l) ∧ l_seq (trimLocked l) = l_seq l
    ∧ l_maxCount (trimLocked l) = l_maxCount l ∧ l_maxBytes (trimLocked l) = l_maxBytes l
    ∧ l_sink (trimLocked l) = l_sink l
    ∧ (∀ m, (m < n)%nat → too_much (l_maxCount l) (l_maxBytes l) (drop m (l_events l))).
Proof.
  intros Hb. destruct (trim_is_suffix (l_maxCount l) (l_maxBytes l) _ _ Hb) as (n & H1 & H2 & H2' & H3 & H4 & H5).
  exists n. unfold trimLocked, within_bounds. destruct (trim _ _ _ _) as [evs bytes]. simpl in *. subst.
  by split_and!.
Qed.

(** The log refines its history: everything ever appended, in order. *)
Record refines (h : list Event) (l : eventLog) : Prop := {
  rf_seq : l_seq l = Z.of_nat (length h);
  rf_suffix : ∃ n, l_events l = drop n h ∧ (n ≤ length h)%nat;
  rf_seqs : ∀ i e, h !! i = Some e → ev_Seq e = Z.of_nat i + 1;
  rf_bytes : l_bytes l = list_sum_Z eventSize (l_events l);
}.

Lemma refines_new maxCount maxBytes : refines [] (newEventLog maxCount maxBytes).
Proof. split; try done. by exists 0%nat. Qed.

Lemma refines_setSink h l : refines h l → refines h (setSink l).
Proof. intros [H1 H2 H3]. by split. Qed.

Lemma append_spec now e l h :
  refines h l →
  let e' := e <| ev_Seq := l_seq l + 1 |> <| ev_Time := now |> in
  (append now e l).1 = e'
  ∧ refines (h ++ [e']) (append now e l).2
  ∧ within_bounds (append now e l).2
  ∧ (∃ evs, l_events (append now e l).2 = evs ++ [e'])
  ∧ l_sink (append now e l).2 = (fun g => g ++ [e']) <$> l_sink l.
Proof.
  intros [Hseq (n & Hev & Hn) Hseqs Hb] e'. unfold append.
  set (l1 := l <| l_seq := _ |> <| l_events ::= _ |> <| l_bytes ::= _ |>).
  assert (Hev1 : l_events l1 = drop n (h ++ [e'])).
  { unfold l1. simpl. rewrite Hev, drop_app_le by done. done. }
  assert (Hb1 : l_bytes l1 = list_sum_Z eventSize (l_events l1)).
  { unfold l1. simpl. rewrite list_sum_Z_app, <- Hb. simpl. fold e'. lia. }
  destruct (trimLocked_events l1 Hb1) as (m & Ht & Hm & Hm' & Htb & Hwb & Hts & _ & _ & Htk & _).
  assert (Hlen : (m < length (drop n (h ++ [e'])))%nat).
  { rewrite <- Hev1. apply Hm'. rewrite Hev1, drop_app_le by done. by destruct (drop n h). }
  rewrite length_drop, length_app in Hlen. simpl in Hlen.
  split_and!; simpl.
  - done.
  - split; simpl.
    + rewrite Hts. unfold l1. simpl. rewrite length_app. simpl. lia.
    + exists (n + m)%nat. rewrite Ht, Hev1, drop_drop, length_app. simpl. split; [done|lia].
    + intros i x. rewrite lookup_app. destruct (h !! i) eqn:E; [intros [= <-]; eauto|].
      destruct (i - length h)%nat eqn:Ei; simpl; [|done]. intros [= <-]. simpl.
      apply lookup_ge_None in E. lia.
    + by rewrite Htb, Ht.
  - apply Hwb.
  - exists (drop (n + m) h). rewrite Ht, Hev1, drop_drop. rewrite drop_app_le by lia. done.
  - by rewrite Htk.
Qed.

Lemma refines_wf h l : refines h l → wf_log l.
Proof.
  intros [Hseq (n & Hev & Hn) Hseqs Hb]. split; [| |done]; unfold first_seq; rewrite Hev, ?length_drop.
  - intros i e. rewrite lookup_drop. intros H. apply Hseqs in H. lia.
  - lia.
Qed.

(** ** Queries *)

Lemma eventLimit_bounds n : 1 ≤ eventLimit n ≤ MaxEventsLimit.
Proof. unfold eventLimit, defaultEventLimit, MaxEventsLimit. destruct (Z.leb_spec n 0); lia. Qed.

Lemma select_spec limit kinds held got more :
  0 ≤ limit → Z.of_nat (length got) ≤ limit →
  select limit kinds held got more =
  (let ms := List.filter (matches kinds) held in
   let k := (Z.to_nat limit - length got)%nat in
   (got ++ take k ms, more + Z.of_nat (length ms - k))).
Proof.
  intros Hlim. revert got more. induction held as [|e held IH]; intros got more Hgot; simpl.
  { rewrite take_nil, app_nil_r. f_equal. lia. }
  destruct (matches kinds e) eqn:Hm; simpl; [|by apply IH].
  destruct (Z.ltb_spec (Z.of_nat (length got)) limit).
  - rewrite IH by (rewrite length_app; simpl; lia). rewrite length_app. simpl.
    destruct (Z.to_nat limit - length got)%nat eqn:Ek; [lia|].
    replace (Z.to_nat limit - (length got + 1))%nat with n by lia.
    rewrite <- app_assoc. simpl. f_equal.
  - rewrite IH by done. replace (Z.to_nat limit - length got)%nat with 0%nat by lia.
    rewrite !take_0. f_equal. lia.
Qed.

(** Matching events of the history after [since] that the log still holds. *)
Definition retained (h : list Event) (l : eventLog) : list Event :=
  drop (length h - length (l_events l)) h.
Definition wanted (q : EventsParams) (since : Z) (evs : list Event) : list Event :=
  List.filter (fun e => (since <? ev_Seq e) && matches (q_Kinds q) e) evs.

Lemma filter_after_drop k l since p :
  (∀ i e, l !! i = Some e → ev_Seq e = Z.of_nat k + Z.of_nat i + 1) → 0 ≤ since →
  List.filter (fun e => (since <? ev_Seq e) && p e) l
  = List.filter p (drop (Z.to_nat since - k) l).
Proof.
  intros Hk Hsince. revert k Hk. induction l as [|e l IH]; intros k Hk; simpl.
  { by rewrite drop_nil. }
  pose proof (Hk 0%nat e eq_refl) as He.
  assert (Hk' : ∀ i x, l !! i = Some x → ev_Seq x = Z.of_nat (S k) + Z.of_nat i + 1).
  { intros i x Hx. rewrite (Hk (S i) x Hx). lia. }
  specialize (IH (S k) Hk'). destruct (Z.ltb_spec since (ev_Seq e)); simpl.
  - replace (Z.to_nat since - k)%nat with 0%nat by lia. simpl.
    replace (Z.to_nat since - S k)%nat with 0%nat in IH by lia. simpl in IH. by rewrite IH.
  - destruct (Z.to_nat since - k)%nat eqn:E; [lia|]. simpl.
    replace (Z.to_nat since - S k)%nat with n in IH by lia. done.
Qed.

(** How many events of a stretch of the history come after [since]. *)
Lemma count_after k l since :
  (∀ i e, l !! i = Some e → ev_Seq e = Z.of_nat k + Z.of_nat i + 1) → 0 ≤ since →
  length (List.filter (fun e => since <? ev_Seq e) l) = (length l - (Z.to_nat since - k))%nat.
Proof.
  intros Hk Hs. rewrite <- length_drop.
  transitivity (length (List.filter (fun e => (since <? ev_Seq e) && (fun _ => true) e) l)).
  { f_equal. apply List.filter_ext. intros e. by rewrite andb_true_r. }
  rewrite (filter_after_drop k) by done. f_equal.
  induction (drop _ l) as [|x l' IH]; simpl; [done|by rewrite IH].
Qed.

Lemma held_after_spec h l since p :
  refines h l → 0 ≤ since →
  List.filter p (held_after since l)
  = List.filter (fun e => (since <? ev_Seq e) && p e) (l_events l).
Proof.
  intros Hr Hs. pose proof (refines_wf _ _ Hr) as [Hseqs Hlen _].
  unfold held_after. set (k := Z.to_nat _).
  assert (Hk : ∀ i e, l_events l !! i = Some e → (since <? ev_Seq e) = (k <=? i)%nat).
  { intros i e He. pose proof (Hseqs i e He) as Hseq. apply lookup_lt_Some in He.
    unfold k, first_seq in *. destruct (Nat.leb_spec (Z.to_nat
      (Z.min (Z.max (since + 1 - (l_seq l - Z.of_nat (length (l_events l)) + 1)) 0)
       (Z.of_nat (length (l_events l))))) i); [apply Z.ltb_lt|apply Z.ltb_ge]; lia. }
  clearbody k. clear -Hk. revert k Hk. induction (l_events l) as [|e evs IH]; intros k Hk; simpl.
  { by rewrite drop_nil. }
  pose proof (Hk 0%nat e eq_refl) as He. destruct k as [|k]; simpl in *.
  - rewrite He. simpl. rewrite <- (IH 0%nat); [done|]. intros i x Hx. by apply (Hk (S i) x).
  - rewrite He. simpl. apply IH. intros i x Hx. by rewrite (Hk (S i) x Hx).
Qed.

Lemma retained_events h l : refines h l → retained h l = l_events l.
Proof.
  intros [_ (n & Hev & Hn) _ _]. unfold retained. rewrite Hev, length_drop. f_equal. lia.
Qed.

Lemma select_all limit kinds held :
  0 ≤ limit →
  select limit kinds held [] 0 =
  (take (Z.to_nat limit) (List.filter (matches kinds) held),
   Z.of_nat (length (List.filter (matches kinds) held) - Z.to_nat limit)).
Proof. intros H. rewrite select_spec by (simpl; lia). simpl. by rewrite Nat.sub_0_r. Qed.

Lemma filter_rev {A} (p : A → bool) l : List.filter p (rev l) = rev (List.filter p l).
Proof.
  induction l as [|x l IH]; simpl; [done|].
  rewrite List.filter_app, IH. simpl. destruct (p x); simpl; [done|by rewrite app_nil_r].
Qed.

Definition since_of (q : EventsParams) (l : eventLog) : Z :=
  if q_Since q <? 0 then l_seq l else q_Since q.

Lemma since_of_nonneg q h l : refines h l → 0 ≤ since_of q l.
Proof. intros [Hs _ _ _]. unfold since_of. destruct (Z.ltb_spec (q_Since q) 0); lia. Qed.

Lemma query_events q h l :
  refines h l →
  let ms := wanted q (since_of q l) (l_events l) in
  let k := Z.to_nat (eventLimit (q_Limit q)) in
  er_Events (query q l) = (if q_Newest q then drop (length ms - k) ms else take k ms)
  ∧ er_More (query q l) = Z.of_nat (length ms - k)
  ∧ er_Latest (query q l) = l_seq l
  ∧ er_Dropped (query q l) = Z.max 0 (first_seq l - since_of q l - 1)
  ∧ er_TimedOut (query q l) = false.
Proof.
  intros Hr ms k. unfold query, queryLocked. fold (since_of q l).
  pose proof (since_of_nonneg q h l Hr) as Hs. pose proof (eventLimit_bounds (q_Limit q)) as Hlim.
  assert (Hms : List.filter (matches (q_Kinds q)) (held_after (since_of q l) l) = ms)
    by (unfold ms, wanted; by eapply held_after_spec).
  assert (Hd : (if since_of q l + 1 <? first_seq l then first_seq l - since_of q l - 1 else 0)
               = Z.max 0 (first_seq l - since_of q l - 1)).
  { destruct (Z.ltb_spec (since_of q l + 1) (first_seq l)); lia. }
  rewrite Hd. destruct (q_Newest q); rewrite select_all by lia; simpl.
  - rewrite filter_rev, Hms, length_rev. split_and!; try done.
    by rewrite List.firstn_rev, rev_involutive.
  - rewrite Hms. by split_and!.
Qed.

(** ** Properties *)

(** The log after a sequence of appends, each with its time. *)
Fixpoint append_all (es : list (Z * Event)) (l : eventLog) : eventLog :=
  match es with
  | [] => l
  | (now, e) :: es => append_all es (append now e l).2
  end.

(** The history a sequence of appends makes, from [seq]. *)
Fixpoint stamped (seq : Z) (es : list (Z * Event)) : list Event :=
  match es with
  | [] => []
  | (now, e) :: es => e <| ev_Seq := seq + 1 |> <| ev_Time := now |> :: stamped (seq + 1) es
  end.

Lemma append_all_refines es h l :
  refines h l → refines (h ++ stamped (l_seq l) es) (append_all es l).
Proof.
  revert h l. induction es as [|[now e] es IH]; intros h l Hr; simpl.
  { by rewrite app_nil_r. }
  pose proof (append_spec now e l h Hr) as (_ & Hr' & _ & _ & _).
  assert (Hseq : l_seq (append now e l).2 = l_seq l + 1).
  { destruct Hr as [-> _ _ _], Hr' as [-> _ _ _]. rewrite length_app. simpl. lia. }
  apply IH in Hr'. by rewrite Hseq, <- app_assoc in Hr'.
Qed.

Lemma append_all_bounds es h l :
  refines h l → within_bounds l → within_bounds (append_all es l).
Proof.
  revert h l. induction es as [|[now e] es IH]; intros h l Hr Hb; simpl; [done|].
  pose proof (append_spec now e l h Hr) as (_ & Hr' & Hb' & _ & _). by eapply IH.
Qed.

Lemma append_all_bound es l :
  l_maxCount (append_all es l) = l_maxCount l ∧ l_maxBytes (append_all es l) = l_maxBytes l.
Proof.
  revert l. induction es as [|[now e] es IH]; intros l; [done|]. change (append_all ((now, e) :: es) l) with (append_all es (append now e l).2).
  destruct (IH (append now e l).2) as [-> ->]. unfold append, trimLocked. by destruct (trim _ _ _ _).
Qed.
(** What is dropped had to be: with one event more the bounds are exceeded. *)
Definition longest (h : list Event) (l : eventLog) : Prop :=
  ∃ n, l_events l = drop n h ∧ (n ≤ length h)%nat ∧ ∀ m, (m < n)%nat → too_much (l_maxCount l) (l_maxBytes l) (drop m h).
Lemma too_much_more maxCount maxBytes evs e : too_much maxCount maxBytes evs → too_much maxCount maxBytes (evs ++ [e]).
Proof.
  unfold too_much. rewrite length_app, list_sum_Z_app. simpl. pose proof (eventSize_pos e). intros [?|?]; [left|right]; lia.
Qed.
Lemma append_longest now e h l : refines h l → longest h l → longest (h ++ [(append now e l).1]) (append now e l).2.
Proof.
  intros [_ _ _ Hb] (n & Hev & Hn & Hout). unfold append. set (e' := e <| ev_Seq := _ |> <| ev_Time := _ |>).
  set (l1 := l <| l_seq := _ |> <| l_events ::= _ |> <| l_bytes ::= _ |>).
  assert (Hev1 : l_events l1 = drop n (h ++ [e'])) by (unfold l1; simpl; rewrite Hev, drop_app_le by done; done).
  assert (Hb1 : l_bytes l1 = list_sum_Z eventSize (l_events l1)).
  { unfold l1. simpl. rewrite list_sum_Z_app, <- Hb. simpl. fold e'. lia. }
  destruct (trimLocked_events l1 Hb1) as (k & Ht & Hk & _ & _ & _ & _ & Hc & Hby & _ & Hmore). simpl.
  exists (n + k)%nat. simpl. rewrite Ht, Hev1, drop_drop, Hc, Hby. split; [done|].
  rewrite Hev1, length_drop, length_app in Hk. rewrite length_app. simpl in *. split; [lia|]. intros m Hm.
  destruct (decide (m < n)%nat) as [Hlt|Hge]; [rewrite drop_app_le by lia; by apply too_much_more, Hout|].
  specialize (Hmore (m - n)%nat ltac:(lia)). rewrite Hev1, drop_drop in Hmore. by replace (n + (m - n))%nat with m in Hmore by lia.
Qed.
Lemma append_all_longest es h l : refines h l → longest h l → longest (h ++ stamped (l_seq l) es) (append_all es l).
Proof.
  revert h l. induction es as [|[now e] es IH]; intros h l Hr Hl; simpl; [by rewrite app_nil_r|].
  destruct (append_spec now e l h Hr) as (He & Hr' & _). pose proof (append_longest now e h l Hr Hl) as Hl'. rewrite He in Hl'.
  assert (Hseq : l_seq (append now e l).2 = l_seq l + 1).
  { destruct Hr as [-> _ _ _], Hr' as [-> _ _ _]. rewrite length_app. simpl. lia. }
  pose proof (IH _ _ Hr' Hl') as H. by rewrite Hseq, <- app_assoc in H.
Qed.
Lemma append_all_newest es h l : refines h l → (h ≠ [] → l_events l ≠ []) → h ++ stamped (l_seq l) es ≠ [] → l_events (append_all es l) ≠ [].
Proof.
  revert h l. induction es as [|[now e] es IH]; intros h l Hr Hl; simpl; [by rewrite app_nil_r|]. intros _.
  destruct (append_spec now e l h Hr) as (_ & Hr' & _ & (evs & Hev) & _). eapply (IH _ _ Hr').
  - intros _. rewrite Hev. by destruct evs.
  - by destruct h.
Qed.
Lemma append_all_sink es h l : refines h l → l_sink (append_all es l) = (fun g => g ++ stamped (l_seq l) es) <$> l_sink l.
Proof.
  revert h l. induction es as [|[now e] es IH]; intros h l Hr; [simpl; destruct (l_sink l); simpl; by rewrite ?app_nil_r|].
  destruct (append_spec now e l h Hr) as (_ & Hr' & _ & _ & Hs).
  assert (Hseq : l_seq (append now e l).2 = l_seq l + 1).
  { destruct Hr as [-> _ _ _], Hr' as [-> _ _ _]. rewrite length_app. simpl. lia. }
  change (append_all ((now, e) :: es) l) with (append_all es (append now e l).2). rewrite (IH _ _ Hr'), Hs, Hseq.
  destruct (l_sink l); simpl; [|done]. by rewrite <- app_assoc.
Qed.
Lemma stamped_lookup k es i : stamped k es !! i = (fun x : Z * Event => x.2 <| ev_Seq := k + Z.of_nat i + 1 |> <| ev_Time := x.1 |>) <$> es !! i.
Proof.
  revert k i. induction es as [|[now e] es IH]; intros k [|i]; simpl; [done..| |].
  - do 2 f_equal. by rewrite Z.add_0_r.
  - rewrite IH. by replace (k + 1 + Z.of_nat i + 1) with (k + Z.of_nat (S i) + 1) by lia.
Qed.
Lemma stamped_app k es es' : stamped k (es ++ es') = stamped k es ++ stamped (k + Z.of_nat (length es)) es'.
Proof.
  revert k. induction es as [|[now e] es IH]; intros k; simpl; [by rewrite Z.add_0_r|]. rewrite IH.
  by replace (k + 1 + Z.of_nat (length es)) with (k + Z.of_nat (S (length es))) by lia.
Qed.
Lemma stamped_length k es : length (stamped k es) = length es.
Proof. revert k. induction es as [|[now e] es IH]; intros k; simpl; [done|by rewrite IH]. Qed.

(** C30: whatever is appended to a new log, a recording attached on the way:
    its history is every event, stamped with its place from 1 and its time,
    otherwise as it was given, and the log holds the end of it: always the
    newest event, otherwise at most the count and bytes it may hold, and no
    less than fits. The recording was given the events appended since it was
    attached, in order; an append answers the event as it is stored. *)
Theorem log_refines_history maxCount maxBytes before es :
  let l := append_all es (setSink (append_all before (newEventLog maxCount maxBytes))) in
  ∃ h, length h = length (before ++ es)
  ∧ (∀ i now e, (before ++ es) !! i = Some (now, e) → h !! i = Some (e <| ev_Seq := Z.of_nat i + 1 |> <| ev_Time := now |>))
  ∧ l_seq l = Z.of_nat (length h)
  ∧ (∃ n, l_events l = drop n h ∧ (h ≠ [] → n < length h)%nat
      ∧ ((S n < length h)%nat → ¬ too_much maxCount maxBytes (drop n h)) ∧ (∀ m, (m < n)%nat → too_much maxCount maxBytes (drop m h)))
  ∧ l_sink l = Some (drop (length before) h)
  ∧ ∀ now e, (append now e l).1 = e <| ev_Seq := Z.of_nat (length h) + 1 |> <| ev_Time := now |>.
Proof.
  intros l. set (l0 := append_all before (newEventLog maxCount maxBytes)). set (h := stamped 0 (before ++ es)).
  pose proof (append_all_refines before [] _ (refines_new maxCount maxBytes)) as H0. fold l0 in H0. cbn [l_seq newEventLog app] in H0.
  assert (Hl0 : longest (stamped 0 before) l0).
  { apply (append_all_longest before [] _ (refines_new maxCount maxBytes)). exists 0%nat. split_and!; [done|simpl; lia|lia]. }
  assert (Hseq0 : l_seq (setSink l0) = Z.of_nat (length before)).
  { change (l_seq (setSink l0)) with (l_seq l0). by rewrite (rf_seq _ _ H0), stamped_length. }
  assert (Hh : stamped 0 before ++ stamped (l_seq (setSink l0)) es = h) by (unfold h; by rewrite stamped_app, Hseq0).
  pose proof (append_all_refines es _ _ (refines_setSink _ _ H0)) as Hr. rewrite Hh in Hr. change (refines h l) in Hr.
  pose proof (append_all_longest es _ _ (refines_setSink _ _ H0) Hl0) as (n & Hev & Hn & Hout). rewrite Hh in Hev, Hn, Hout.
  change (l_events l = drop n h) in Hev.
  assert (Hb : within_bounds l).
  { eapply append_all_bounds; [by apply refines_setSink|]. apply (append_all_bounds before []); [apply refines_new|left; simpl; lia]. }
  assert (l_maxCount l = maxCount ∧ l_maxBytes l = maxBytes) as [Ec Eb].
  { change l with (append_all es (setSink l0)). destruct (append_all_bound es (setSink l0)) as [-> ->]. apply (append_all_bound before (newEventLog maxCount maxBytes)). }
  assert (Hnew : h ≠ [] → l_events l ≠ []).
  { rewrite <- Hh. apply (append_all_newest es _ _ (refines_setSink _ _ H0)).
    apply (append_all_newest before [] _ (refines_new maxCount maxBytes)). done. }
  exists h. split_and!.
  - apply stamped_length.
  - intros i now e E. unfold h. rewrite stamped_lookup, E. done.
  - apply (rf_seq _ _ Hr).
  - assert (Hmore : ∀ m, (m < n)%nat → too_much (l_maxCount l) (l_maxBytes l) (drop m h)) by exact Hout.
    exists n. rewrite Ec, Eb in Hmore. split_and!; [done| | |done].
    + intros Hne. destruct (decide (n < length h)%nat) as [|Hge]; [done|]. exfalso. apply Hnew; [done|]. rewrite Hev. apply drop_ge. lia.
    + intros Hlen. destruct Hb as [Hb|[Hb1 Hb2]]; [rewrite Hev, length_drop in Hb; lia|].
      rewrite (rf_bytes _ _ Hr) in Hb2. rewrite Ec, Eb, Hev in *. unfold too_much. lia.
  - change l with (append_all es (setSink l0)). rewrite (append_all_sink es _ _ (refines_setSink _ _ H0)). simpl. f_equal.
    rewrite <- Hh, drop_app_length'; [done|by rewrite stamped_length].
  - intros now e. by rewrite (proj1 (append_spec now e l h Hr)), (rf_seq _ _ Hr).
Qed.

(** A query answers from the retained history: the matching events after
    [since], the oldest (or newest) up to the limit, in order; [More] counts the
    matching rest, [Latest] the whole history and [Dropped] what retention lost. *)
Theorem query_spec q h l :
  refines h l →
  let since := since_of q l in
  let ms := wanted q since (retained h l) in
  let k := Z.to_nat (eventLimit (q_Limit q)) in
  er_Events (query q l) = (if q_Newest q then drop (length ms - k) ms else take k ms)
  ∧ er_More (query q l) = Z.of_nat (length ms - k)
  ∧ er_Latest (query q l) = Z.of_nat (length h)
  ∧ er_Dropped (query q l)
    = Z.of_nat (length (List.filter (fun e => since <? ev_Seq e) h)
                - length (List.filter (fun e => since <? ev_Seq e) (retained h l))).
Proof.
  intros Hr since ms k. pose proof (query_events q h l Hr) as (H1 & H2 & H3 & H4 & _).
  pose proof (since_of_nonneg q h l Hr) as Hs.
  unfold ms. rewrite retained_events by done. split_and!; [done|done|..].
  - rewrite H3. by destruct Hr.
  - rewrite H4. fold since. fold since in Hs. pose proof Hr as [Hseq (n & Hev & Hn) Hseqs Hb].
    rewrite (count_after 0), Hev, (count_after n); [|intros i e; rewrite lookup_drop; intros He;
      rewrite (Hseqs _ _ He); lia|done|intros i e He; rewrite (Hseqs _ _ He); lia|done].
    unfold first_seq. rewrite Hseq, Hev, length_drop. lia.
Qed.

(** What a page leaves out comes after everything it returns: a reader that
    continues from the last event it got misses nothing the log holds. *)
Definition seq_lt (a b : Event) : Prop := ev_Seq a < ev_Seq b.

Lemma consecutive_sorted k l :
  (∀ i e, l !! i = Some e → ev_Seq e = k + Z.of_nat i) → StronglySorted seq_lt l.
Proof.
  revert k. induction l as [|e l IH]; intros k Hk; [constructor|]. constructor.
  - apply (IH (k + 1)). intros i x Hx. rewrite (Hk (S i) x Hx). lia.
  - apply Forall_lookup. intros i x Hx. unfold seq_lt.
    rewrite (Hk 0%nat e eq_refl), (Hk (S i) x Hx). lia.
Qed.

Lemma filter_sorted p l : StronglySorted seq_lt l → StronglySorted seq_lt (List.filter p l).
Proof.
  induction 1 as [|e l Hl IH Hall]; simpl; [constructor|].
  destruct (p e); [|done]. constructor; [done|].
  apply List.Forall_forall. intros x [Hx _]%List.filter_In.
  rewrite List.Forall_forall in Hall. auto.
Qed.

Lemma sorted_app_lt l1 l2 :
  StronglySorted seq_lt (l1 ++ l2) → ∀ a b, In a l1 → In b l2 → seq_lt a b.
Proof.
  induction l1 as [|e l1 IH]; simpl; [done|]. intros [Hs Hall]%StronglySorted_inv a b [<-|Ha] Hb.
  - rewrite List.Forall_forall in Hall. apply Hall, List.in_app_iff. by right.
  - by apply IH.
Qed.

Lemma wanted_sorted q since h l : refines h l → StronglySorted seq_lt (wanted q since (l_events l)).
Proof.
  intros Hr. apply filter_sorted, (consecutive_sorted (first_seq l)). by apply (refines_wf h l Hr).
Qed.

(** Paging loses nothing: a retained matching event is on the page, or the
    page says there are more and everything on it comes before the event. *)
Theorem query_page_no_gap q h l e :
  refines h l → q_Newest q = false →
  In e (wanted q (since_of q l) (l_events l)) →
  In e (er_Events (query q l))
  ∨ 0 < er_More (query q l) ∧ ∀ e', In e' (er_Events (query q l)) → ev_Seq e' < ev_Seq e.
Proof.
  intros Hr Hq Hin. pose proof (query_events q h l Hr) as (H1 & H2 & _). rewrite Hq in H1.
  pose proof (wanted_sorted q (since_of q l) h l Hr) as Hsort.
  set (ms := wanted _ _ _) in *. set (k := Z.to_nat _) in *.
  rewrite <- (take_drop k ms) in Hin, Hsort. rewrite H1, H2.
  apply List.in_app_iff in Hin as [Hin|Hin]; [by left|right]. split.
  - assert (length (drop k ms) ≠ 0%nat) as Hne by (by destruct (drop k ms)).
    rewrite length_drop in Hne. lia.
  - intros e' He'. by eapply sorted_app_lt.
Qed.

(** Whether some held event answers [q]. *)
Definition answers (q : EventsParams) (l : eventLog) : Prop := er_Events (queryLocked q l) ≠ [].

Lemma query_not_timed_out q l : er_TimedOut (queryLocked q l) = false.
Proof. unfold queryLocked. destruct (q_Newest q); by destruct (select _ _ _ _ _). Qed.

(** A long-poll answers with events exactly when some log it looked at
    (when called, at a wake, or at its deadline) has one, and says it timed out
    exactly when it has none; "from now" is fixed when it is called. *)
Theorem wait_result q l wakes final :
  let q' := if q_Since q <? 0 then q <| q_Since := l_seq l |> else q in
  let res := wait q l wakes final in
  (er_Events res ≠ [] ↔ Exists (answers q') (l :: wakes ++ [final]))
  ∧ er_TimedOut res = bool_decide (er_Events res = []).
Proof.
  unfold wait. cbv zeta.
  generalize (if q_Since q <? 0 then q <| q_Since := l_seq l |> else q). clear q. intros q.
  revert l. induction wakes as [|l' wakes IH]; intros l; cbn [wait_loop app].
  - destruct (er_Events (queryLocked q l)) as [|e evs] eqn:E.
    + unfold query. split; [|simpl; done]. simpl. rewrite !Exists_cons, Exists_nil.
      unfold answers. rewrite E. naive_solver.
    + split; [|by rewrite query_not_timed_out, E].
      rewrite Exists_cons. unfold answers. rewrite E. naive_solver.
  - destruct (er_Events (queryLocked q l)) as [|e evs] eqn:E.
    + destruct (IH l') as [H1 H2]. split; [|done]. rewrite H1, (Exists_cons _ l).
      assert (¬ answers q l) by (unfold answers; rewrite E; intros Hn; by apply Hn). naive_solver.
    + split; [|by rewrite query_not_timed_out, E].
      rewrite Exists_cons. unfold answers. rewrite E. naive_solver.
Qed.

(** ** Witnesses *)

Definition sample_history : list (Z * Event) :=
  [(5, event EventStarted); (6, event EventOutput); (7, event EventStopped)].
Definition sample_log : eventLog := append_all sample_history (newEventLog 2 maxEventBytes).

Lemma sample_refines : refines (stamped 0 sample_history) sample_log.
Proof. apply (append_all_refines sample_history [] _ (refines_new 2 maxEventBytes)). Qed.

Lemma query_spec_witness :
  let q := mkEventsParams 0 false 1 [] 0 in
  map ev_Seq (er_Events (query q sample_log)) = [2] ∧ er_More (query q sample_log) = 1
  ∧ er_Dropped (query q sample_log) = 1.
Proof.
  cbv zeta. destruct (query_spec (mkEventsParams 0 false 1 [] 0) _ _ sample_refines) as (-> & -> & _ & ->).
  split_and!; vm_compute; reflexivity.
Defined.

Lemma query_page_no_gap_witness :
  let q := mkEventsParams 0 false 1 [] 0 in
  ∃ e, ev_Seq e = 3 ∧ ¬ In e (er_Events (query q sample_log))
    ∧ (In e (er_Events (query q sample_log))
       ∨ 0 < er_More (query q sample_log) ∧ ∀ e', In e' (er_Events (query q sample_log)) → ev_Seq e' < ev_Seq e).
Proof.
  cbv zeta. exists ((event EventStopped) <| ev_Seq := 3 |> <| ev_Time := 7 |>). split; [reflexivity|]. split.
  - vm_compute. intros [H|[]]. discriminate.
  - apply (query_page_no_gap (mkEventsParams 0 false 1 [] 0) _ _ _ sample_refines); [reflexivity|].
    vm_compute. right. left. reflexivity.
Defined.
