(* ===== verification/Record.v ===== *)
(** * Recordings (internal/session/record.go)

    The recorder is the event log's sink: it writes the control events of a
    session to a file, each as a line of JSON, without the program's data. The
    length of an event's line is the JSON encoder's, and what a write
    achieves is the file's. *)

From S2P Require Import Prelude GoStrings Api EventLog.
From Stdlib Require Import Bool.

Open Scope Z_scope.

Definition maxRecording : Z := 4 * 2 ^ 20.

(** [recordable]: what of an event is recorded, if anything is. *)
Definition strip_stop (st : StopInfo) : StopInfo := mkStopInfo (si_Reason st) (si_ThreadID st) "" "" false [].
Definition strip_event (e : Event) : Event :=
  let e := e <| ev_Lease ::= option_map (fun li => li <| li_Requests := [] |>) |> in
  e <| ev_Text := ""%string |> <| ev_Truncated := false |>.
Definition recordable (e : Event) : option Event :=
  match ev_Kind e with
  | EventOutput => None
  | EventStopped => Some (strip_event (e <| ev_Stop ::= option_map strip_stop |>))
  | EventStarted | EventClient | EventLease | EventExec | EventContinued
  | EventBreakpoint | EventThread | EventExited | EventEnded | EventExceptions => Some (strip_event e)
  end.

(** A recorder: its bound, whether it still writes, and what it wrote: each
    event with how many bytes of its line reached the file. *)
Record recorder := mkRecorder {
  rc_limit : Z; rc_open : bool; rc_written : Z; rc_file : list (Event * Z) }.
#[global] Instance eta_recorder : Eta recorder :=
  fun r => mkRecorder (rc_limit r) (rc_open r) (rc_written r) (rc_file r).
Definition newRecorder (limit : Z) : recorder := mkRecorder limit true 0 [].
Definition closeLocked (r : recorder) : recorder := r <| rc_open := false |>.

Section recorder.
(** An event's line, with its newline; and a write of the next line: the
    bytes written, and whether the write succeeded. *)
Context (line : Event → option Z) (write : list (Event * Z) → Event → Z * bool).

(** [record] *)
Definition record (e : Event) (r : recorder) : recorder :=
  match recordable e with
  | None => r
  | Some e =>
    match line e with
    | None => r
    | Some len =>
      if negb (rc_open r) then r
      else if rc_limit r <? rc_written r + len then closeLocked r
      else
        let '(n, ok) := write (rc_file r) e in
        let r := r <| rc_written ::= Z.add n |> <| rc_file ::= fun f => f ++ [(e, n)] |> in
        if negb ok then closeLocked r
        else if decide (ev_Kind e = EventEnded) then closeLocked r
        else r
    end
  end.
Definition record_all (evs : list Event) (r : recorder) : recorder := fold_left (fun r e => record e r) evs r.

(** ** What a recording is *)

(** What is recorded of a history, line by line. *)
Definition lines_of (evs : list Event) : list (Event * Z) :=
  omap (fun e => e' ← recordable e; len ← line e'; Some (e', len)) evs.

(** [io.Writer]: at most the line, and less only with an error. *)
Definition io_writer : Prop :=
  ∀ f e len, line e = Some len → 0 ≤ (write f e).1 ≤ len ∧ ((write f e).2 = true → (write f e).1 = len).

Definition ends (x : Event * Z) : bool := bool_decide (ev_Kind x.1 = EventEnded).

Lemma lines_of_snoc evs e : lines_of (evs ++ [e]) = lines_of evs ++ lines_of [e].
Proof. unfold lines_of. by rewrite omap_app. Qed.

(** Every whole line but the last, which a failed write may have cut; open,
    everything so far; the bytes are counted and bounded. *)
Record recording (evs : list Event) (r : recorder) : Prop := {
  rec_limit : 0 ≤ rc_written r ≤ rc_limit r;
  rec_bytes : rc_written r = list_sum_Z snd (rc_file r);
  rec_prefix : ∃ whole cut, rc_file r = whole ++ cut ∧ (length cut ≤ 1)%nat
                 ∧ whole `prefix_of` lines_of evs ∧ (rc_file r).*1 `prefix_of` (lines_of evs).*1;
  rec_open : rc_open r = true → rc_file r = lines_of evs;
  rec_ended : (∃ x, In x (removelast (rc_file r)) ∧ ends x = true) → False;
  rec_closed : (∃ x, In x (rc_file r) ∧ ends x = true) → rc_open r = false }.

(** What a recording may hold: no output, no text, no requester's message, and
    of a stop only why and where. *)
Definition public (e : Event) : Prop :=
  ev_Kind e ≠ EventOutput ∧ ev_Text e = ""%string ∧ ev_Truncated e = false
  ∧ (∀ li, ev_Lease e = Some li → li_Requests li = [])
  ∧ (ev_Kind e = EventStopped → ∀ st, ev_Stop e = Some st → st = strip_stop st).

Lemma recordable_public e e' : recordable e = Some e' → public e'.
Proof.
  intros H. assert (Hs : (∃ e0, ev_Kind e0 ≠ EventOutput ∧ e' = strip_event e0
    ∧ (ev_Kind e0 = EventStopped → ∀ st, ev_Stop e0 = Some st → st = strip_stop st))).
  { unfold recordable in H. destruct (ev_Kind e) eqn:E; try done; injection H as <-;
      (eexists; split; [|split; [reflexivity|]]; cbn; rewrite ?E; [done|]); try done.
    intros _ st. destruct (ev_Stop e); cbn; [|done]. by intros [= <-]. }
  destruct Hs as (e0 & Hk & -> & Hst). split_and!; [done|done|done| |exact Hst].
  intros li. cbn. destruct (ev_Lease e0); cbn; [|done]. by intros [= <-].
Qed.

Lemma lines_public evs : Forall (fun x => public x.1) (lines_of evs).
Proof.
  apply Forall_forall. intros x (e & _ & H)%list_elem_of_omap.
  destruct (recordable e) as [e'|] eqn:E; cbn in H; [|done]. destruct (line e'); cbn in H; [|done]. injection H as <-.
  by apply (recordable_public e).
Qed.

Lemma recording_public evs r : recording evs r → Forall public (rc_file r).*1.
Proof.
  intros [_ _ (_ & _ & _ & _ & _ & [rest Hp]) _ _ _].
  assert (H : Forall public (lines_of evs).*1) by (apply Forall_fmap, lines_public).
  rewrite Hp in H. by apply Forall_app in H as [H _].
Qed.

Lemma recording_new limit : 0 ≤ limit → recording [] (newRecorder limit).
Proof.
  intros H. split; cbn; [lia|done| |done|naive_solver|naive_solver].
  exists [], []. by split_and!; cbn; [|lia|apply prefix_nil|apply prefix_nil].
Qed.

Lemma recording_skip evs e r : lines_of [e] = [] → recording evs r → recording (evs ++ [e]) r.
Proof. intros H []. split; rewrite ?lines_of_snoc, ?H, ?app_nil_r; done. Qed.

Lemma recording_closed evs e r : rc_open r = false → recording evs r → recording (evs ++ [e]) r.
Proof.
  intros Hc [H1 H2 (w & c & H3 & H4 & H5 & H6) H7 H8 H9]. split; try done.
  - exists w, c. rewrite lines_of_snoc, fmap_app. split_and!; try done; by apply prefix_app_r.
  - by rewrite Hc.
Qed.

Lemma recording_close evs r : recording evs r → recording evs (closeLocked r).
Proof. intros []. by split. Qed.

(** A line written, whole or not. *)
Lemma recording_wrote evs e r x n ok :
  recording evs r → rc_open r = true → lines_of [e] = [x] →
  0 ≤ n ≤ x.2 → (ok = true → n = x.2) → rc_written r + x.2 ≤ rc_limit r →
  let r' := r <| rc_written ::= Z.add n |> <| rc_file ::= fun f => f ++ [(x.1, n)] |> in
  recording (evs ++ [e]) (if negb ok then closeLocked r' else if ends x then closeLocked r' else r').
Proof.
  intros [H1 H2 _ Ho He Hc] Hopen Hx Hn Hok Hfit. specialize (Ho Hopen). cbv zeta.
  assert (Hno : ∀ y, In y (rc_file r) → ends y = false).
  { intros y Hy. destruct (ends y) eqn:E; [|done]. exfalso. rewrite (Hc (ex_intro _ y (conj Hy E))) in Hopen. done. }
  assert (Hbase : ∀ o, (o = true → ok = true ∧ ends x = false) →
    recording (evs ++ [e]) (mkRecorder (rc_limit r) o (n + rc_written r) (rc_file r ++ [(x.1, n)]))).
  { intros o Hopn. split; cbn [rc_written rc_limit rc_file rc_open].
    - lia.
    - rewrite list_sum_Z_app, H2. cbn. lia.
    - exists (rc_file r), [(x.1, n)]. rewrite lines_of_snoc, Hx, Ho, !fmap_app. split_and!; [done|cbn; lia|by apply prefix_app_r|done].
    - intros ->. destruct (Hopn eq_refl) as [Hk _]. rewrite lines_of_snoc, Hx, Ho, (Hok Hk). by destruct x.
    - rewrite removelast_last. intros (y & Hy & Hey). by rewrite (Hno y Hy) in Hey.
    - intros (y & [Hy|[<-|[]]]%List.in_app_iff & Hey); [by rewrite (Hno y Hy) in Hey|].
      destruct o; [|done]. destruct (Hopn eq_refl) as [_ Hex]. unfold ends in *. cbn in Hey. congruence. }
  destruct r as [lim o w fl]. cbn in *. subst o.
  destruct ok; cbn; [destruct (ends x) eqn:E|]; apply Hbase; done.
Qed.

Lemma lines_of_one e :
  lines_of [e] = match recordable e with
                 | Some e' => match line e' with Some len => [(e', len)] | None => [] end
                 | None => [] end.
Proof. unfold lines_of. cbn. destruct (recordable e) as [e'|]; cbn; [|done]. by destruct (line e'). Qed.

Lemma recording_step evs e r :
  io_writer → (∀ x n, line x = Some n → 0 ≤ n) →
  recording evs r → recording (evs ++ [e]) (record e r).
Proof.
  intros Hw Hpos Hr. pose proof (lines_of_one e) as H1. unfold record.
  destruct (recordable e) as [e'|]; [|by apply recording_skip].
  destruct (line e') as [len|] eqn:El; [|by apply recording_skip].
  destruct (rc_open r) eqn:Eo; cbn [negb]; [|by apply recording_closed].
  destruct (Z.ltb_spec (rc_limit r) (rc_written r + len)).
  - apply recording_closed; [done|]. by apply recording_close.
  - destruct (Hw (rc_file r) e' len El) as [Hn Hok]. destruct (write (rc_file r) e') as [n ok]. cbn [fst snd] in *.
    pose proof (recording_wrote evs e r (e', len) n ok Hr Eo H1 Hn Hok H) as Hres. cbv zeta in Hres.
    unfold ends in Hres. cbn [fst] in Hres. destruct ok; cbn [negb] in *; [|exact Hres]. by repeat case_decide || case_bool_decide.
Qed.

(** A recording is the session's history as it should be recorded: never
    more bytes than its bound, its lines the recordable events from the first
    on, in order and without gaps, each whole but perhaps the last, which a
    failed write cut; while it is open it has all of them, and nothing follows
    an ended event. What it holds is free of the program's data. *)
Theorem recorder_prefix limit evs :
  io_writer → (∀ x n, line x = Some n → 0 ≤ n) → 0 ≤ limit →
  let r := record_all evs (newRecorder limit) in recording evs r ∧ Forall public (rc_file r).*1.
Proof.
  intros Hw Hpos Hl. cbv zeta. cut (recording evs (record_all evs (newRecorder limit))).
  { intros H. split; [exact H|by eapply recording_public]. }
  induction evs as [|e evs IH] using rev_ind; [by apply recording_new|].
  unfold record_all in *. rewrite fold_left_app. cbn [fold_left]. by apply recording_step.
Qed.
End recorder.

(** ** Witness: a bound of two lines *)

Definition sample_history : list Event :=
  [event EventStarted; (event EventOutput) <| ev_Text := "secret"%string |>; event EventExec; event EventEnded].
Definition all_written (f : list (Event * Z)) (e : Event) : Z * bool := (100, true).

Lemma recorder_prefix_witness :
  let r := record_all (fun _ => Some 100) all_written sample_history (newRecorder 250) in
  rc_file r = [(event EventStarted, 100); (event EventExec, 100)] ∧ rc_open r = false ∧ Forall public (rc_file r).*1.
Proof.
  cbv zeta. split; [reflexivity|]. split; [reflexivity|].
  apply (recorder_prefix (fun _ => Some 100) all_written 250 sample_history).
  - intros f e len [= <-]. cbn. lia.
  - intros x n [= <-]. lia.
  - lia.
Defined.
