(* ===== verification/Prog.v ===== *)
(** * Handlers as programs over shared state

    A session's methods take [mu] for short critical sections, wait on the
    adapter with [mu] released, and some hold [execMu] or [syncMu] across
    both. [prog] keeps that structure: an [Atomic] is a critical section
    under [mu], a [Send] a round trip to the adapter, [Lock]/[Unlock] the
    outer mutexes. [run] executes a program alone against an adapter; [safe]
    is what it guarantees when other programs run between its steps
    (rely/guarantee), and [steps] the interleaving semantics of a pool of
    programs, which [pool_ok_steps] carries an invariant over. *)

From S2P Require Import Prelude.

(** The session's mutexes other than [mu] (session.go: the lock order). *)
Inductive mutex := execMu | syncMu | captureMu.
#[global] Instance mutex_eq_dec : EqDecision mutex.
Proof. solve_decision. Defined.

Inductive prog (S Q R A : Type) : Type :=
  | Ret (a : A)
  | Atomic (X : Type) (f : S → X * S) (k : X → prog S Q R A)
  | Send (q : Q) (k : R → prog S Q R A)
  | Lock (m : mutex) (k : prog S Q R A)
  | Unlock (m : mutex) (k : prog S Q R A).
Arguments Ret {S Q R A} a.
Arguments Atomic {S Q R A X} f k.
Arguments Send {S Q R A} q k.
Arguments Lock {S Q R A} m k.
Arguments Unlock {S Q R A} m k.

Section prog.
Context {S Q R : Type}.

Fixpoint pbind {A B} (p : prog S Q R A) (k : A → prog S Q R B) : prog S Q R B :=
  match p with
  | Ret a => k a
  | Atomic f k' => Atomic f (fun x => pbind (k' x) k)
  | Send q k' => Send q (fun r => pbind (k' r) k)
  | Lock m p => Lock m (pbind p k)
  | Unlock m p => Unlock m (pbind p k)
  end.

(** One critical section returning a value. *)
Definition atomically {X} (f : S → X * S) : prog S Q R X := Atomic f Ret.
Definition send (q : Q) : prog S Q R R := Send q Ret.
Definition lock (m : mutex) : prog S Q R () := Lock m (Ret ()).
Definition unlock (m : mutex) : prog S Q R () := Unlock m (Ret ()).

(** ** Sequential execution

    [ad] is the adapter: its answer to a request may depend on the requests
    before it. The result, the final state and the requests sent. *)
Fixpoint run {A} (ad : list Q → Q → R) (p : prog S Q R A) (s : S) (h : list Q) : A * S * list Q :=
  match p with
  | Ret a => (a, s, h)
  | Atomic f k => let '(x, s') := f s in run ad (k x) s' h
  | Send q k => run ad (k (ad h q)) s (h ++ [q])
  | Lock _ p | Unlock _ p => run ad p s h
  end.

Lemma run_bind {A B} ad (p : prog S Q R A) (k : A → prog S Q R B) s h :
  run ad (pbind p k) s h = let '(a, s', h') := run ad p s h in run ad (k a) s' h'.
Proof.
  revert s h. induction p as [a|X f k' IH|q k' IH|m p IH|m p IH]; intros s h; simpl; auto.
  destruct (f s) as [x s']. apply IH.
Qed.

(** ** Rely/guarantee

    Between two steps of a program others may take the state along [ev];
    every step of the program keeps [I] and moves along [ev] itself. *)
Section safe.
Context (I : S → Prop) (ev : S → S → Prop) `{!PreOrder ev}.

Fixpoint safe {A} (p : prog S Q R A) (post : A → S → Prop) (s0 : S) : Prop :=
  match p with
  | Ret a => post a s0
  | Atomic f k => ∀ s, ev s0 s → I s →
      I (f s).2 ∧ ev s (f s).2 ∧ safe (k (f s).1) post (f s).2
  | Send _ k => ∀ r s, ev s0 s → safe (k r) post s
  | Lock _ p | Unlock _ p => ∀ s, ev s0 s → safe p post s
  end.

Definition stable {A} (post : A → S → Prop) : Prop :=
  ∀ a s s', ev s s' → post a s → post a s'.

Lemma safe_ev {A} (p : prog S Q R A) post s s' :
  stable post → ev s s' → safe p post s → safe p post s'.
Proof.
  intros Hst Hev. destruct p as [a|X f k|q k|m p|m p]; simpl; intros H; eauto.
  - intros s2 H2 HI. apply H; [by etrans|done].
  - intros r s2 H2. apply H. by etrans.
  - intros s2 H2. apply H. by etrans.
  - intros s2 H2. apply H. by etrans.
Qed.

Lemma safe_bind {A B} (p : prog S Q R A) (k : A → prog S Q R B) post post' s :
  safe p post s → (∀ a s', post a s' → safe (k a) post' s') → safe (pbind p k) post' s.
Proof.
  intros Hp Hk. revert s Hp. induction p as [a|X f k' IH|q k' IH|m p IH|m p IH];
    intros s; simpl; [by auto|..].
  - intros Hp s2 H2 HI. destruct (Hp s2 H2 HI) as (H1 & H3 & H4). split_and!; [done|done|]. by apply IH.
  - intros Hp r s2 H2. apply IH. by apply Hp.
  - intros Hp s2 H2. apply IH. by apply Hp.
  - intros Hp s2 H2. apply IH. by apply Hp.
Qed.

Lemma safe_post {A} (p : prog S Q R A) (post post' : A → S → Prop) s :
  (∀ a s', post a s' → post' a s') → safe p post s → safe p post' s.
Proof.
  intros Hpp. revert s. induction p as [a|X f k' IH|q k' IH|m p IH|m p IH]; intros s; simpl; [by auto|..].
  - intros Hp s2 H2 HI. destruct (Hp s2 H2 HI) as (? & ? & ?). split_and!; [done|done|]. by apply IH.
  - intros Hp r s2 H2. apply IH. by apply Hp.
  - intros Hp s2 H2. apply IH. by apply Hp.
  - intros Hp s2 H2. apply IH. by apply Hp.
Qed.

(** A sequential run of a safe program keeps the invariant. *)
Lemma safe_run {A} ad (p : prog S Q R A) post s h :
  safe p post s → I s → let '(a, s', _) := run ad p s h in I s' ∧ ev s s' ∧ post a s'.
Proof.
  revert s h. induction p as [a|X f k' IH|q k' IH|m p IH|m p IH]; intros s h; simpl; intros Hp HI.
  - by split_and!.
  - destruct (Hp s ltac:(done) HI) as (H1 & H2 & H3).
    specialize (IH (f s).1 (f s).2 h H3 H1). destruct (f s) as [x s']. simpl in *.
    destruct (run ad (k' x) s' h) as [[a s2] h2]. destruct IH as (? & ? & ?).
    split_and!; [done|by etrans|done].
  - apply IH; [by apply Hp|done].
  - apply IH; [by apply Hp|done].
  - apply IH; [by apply Hp|done].
Qed.

(** ** Interleaving

    [spawnable] are the programs a thread may start with, all of them safe.
    A pool of threads, each a program whose result nobody waits for, the
    shared state and who holds each mutex. A step is a step of any
    thread; an answer from the adapter may be anything. *)
Context (spawnable : prog S Q R () → Prop).

Record pool := mkPool {
  pl_threads : gmap nat (prog S Q R ());
  pl_state : S;
  pl_held : mutex → option nat;   (* the thread that holds a mutex *)
}.
Definition hold (m : mutex) (o : option nat) (held : mutex → option nat) : mutex → option nat :=
  fun m' => if decide (m' = m) then o else held m'.

Inductive pstep : pool → pool → Prop :=
  | st_atomic t X (f : S → X * S) k th s held :
      th !! t = Some (Atomic f k) →
      pstep (mkPool th s held) (mkPool (<[t := k (f s).1]> th) (f s).2 held)
  | st_send t q k r th s held :
      th !! t = Some (Send q k) →
      pstep (mkPool th s held) (mkPool (<[t := k r]> th) s held)
  | st_lock t m p th s held :
      th !! t = Some (Lock m p) → held m = None →
      pstep (mkPool th s held) (mkPool (<[t := p]> th) s (hold m (Some t) held))
  | st_unlock t m p th s held :
      th !! t = Some (Unlock m p) → held m = Some t →
      pstep (mkPool th s held) (mkPool (<[t := p]> th) s (hold m None held))
  | st_spawn t p th s held :
      th !! t = None → spawnable p →
      pstep (mkPool th s held) (mkPool (<[t := p]> th) s held).

Context (Hspawn : ∀ p s, spawnable p → safe p (fun _ _ => True) s).

Definition pool_ok (pl : pool) : Prop :=
  I (pl_state pl) ∧
  ∀ t p, pl_threads pl !! t = Some p → safe p (fun _ _ => True) (pl_state pl).

Lemma stable_true {A} : stable (fun (_ : A) (_ : S) => True).
Proof. done. Qed.

Lemma pool_ok_step pl pl' : pool_ok pl → pstep pl pl' → pool_ok pl' ∧ ev (pl_state pl) (pl_state pl').
Proof.
  intros [HI Hth] Hstep.
  assert (Hother : ∀ (th : gmap nat (prog S Q R ())) t (p : prog S Q R ()) s s', ev s s' →
    (∀ t p, th !! t = Some p → safe p (fun _ _ => True) s) → safe p (fun _ _ => True) s' →
    ∀ t' p', <[t := p]> th !! t' = Some p' → safe p' (fun _ _ => True) s').
  { intros th t p s s' Hev Hall Hp t' p' [[_ <-]|[_ Hp']]%lookup_insert_Some; [done|].
    eapply safe_ev; [apply stable_true|exact Hev|by eapply Hall]. }
  destruct Hstep as [t X f k th s held H|t q k r th s held H|t m p th s held H _|t m p th s held H _|t p th s held _ H];
    simpl in *; [destruct (Hth t _ H s ltac:(done) HI) as (H1 & H2 & H3)|..];
    (split; [split; [done|]|done]); simpl; (eapply Hother; [|exact Hth|]);
    try done; try (by apply (Hth t _ H)). by apply Hspawn.
Qed.

Lemma pool_ok_steps pl pl' :
  pool_ok pl → rtc pstep pl pl' → pool_ok pl' ∧ ev (pl_state pl) (pl_state pl').
Proof.
  intros H Hsteps. induction Hsteps as [pl|pl1 pl2 pl3 Hstep _ IH]; [done|].
  destruct (pool_ok_step _ _ H Hstep) as [H2 He]. destruct (IH H2) as [H3 He']. split; [done|by etrans].
Qed.

Lemma pool_ok_start s : I s → pool_ok (mkPool ∅ s (fun _ => None)).
Proof. intros HI. split; [done|]. simpl. intros t p. by rewrite lookup_empty. Qed.
End safe.
End prog.
Arguments run {S Q R A} ad p s h.
Arguments safe {S Q R} I ev {A} p post s0.

Declare Scope prog_scope.
Delimit Scope prog_scope with prog.
Bind Scope prog_scope with prog.
Notation "x <- p ;; k" := (pbind p (fun x => k))
  (at level 100, p at next level, right associativity) : prog_scope.
Notation "p ;;; k" := (pbind p (fun _ => k)) (at level 100, right associativity) : prog_scope.
