(* ===== verification/Message.v ===== *)
(** * The DAP messages a session forwards and translates

    Requests, responses and events of go-dap, as far as the session looks at
    them (forward.go, translate.go): the fields it reads, and the others as
    they are. Their encoding is go-dap's. *)

From S2P Require Import Prelude GoStrings GoPath PathMap.
From Stdlib Require Import Bool.
Open Scope Z_scope.

Module Dap.

(** A source, with the sources nested in it; [rest] is the fields that are
    never looked at. *)
Inductive Source := mkSource (name path : string) (sources : list Source) (rest : string).

(** A frame, scope, breakpoint or instruction: where it is, and the rest. *)
Record located := mkLocated { lc_Source : option Source; lc_rest : string }.
#[global] Instance eta_located : Eta located := fun r => mkLocated (lc_Source r) (lc_rest r).

Inductive request :=
  | ThreadsRequest (rest : string)
  | SourceRequest (src : option Source) (rest : string)
  | LoadedSourcesRequest (rest : string)
  | ModulesRequest (rest : string)
  | BreakpointLocationsRequest (args : option (Source * string))
  | ReadMemoryRequest (rest : string)
  | DisassembleRequest (rest : string)
  | StackTraceRequest (rest : string)
  | ScopesRequest (rest : string)
  | VariablesRequest (rest : string)
  | ExceptionInfoRequest (rest : string)
  | CompletionsRequest (column : Z) (rest : string)
  | EvaluateRequest (expression : string) (frameId : Z) (context : string) (rest : string)
  | SetVariableRequest (name : string) (rest : string)
  | SetExpressionRequest (expression : string) (rest : string)
  | SetBreakpointsRequest (src : Source) (rest : string)
  | GotoTargetsRequest (src : Source) (rest : string)
  | OtherRequest (command : string) (rest : string).

Definition Command (r : request) : string :=
  match r with
  | ThreadsRequest _ => "threads"
  | SourceRequest _ _ => "source"
  | LoadedSourcesRequest _ => "loadedSources"
  | ModulesRequest _ => "modules"
  | BreakpointLocationsRequest _ => "breakpointLocations"
  | ReadMemoryRequest _ => "readMemory"
  | DisassembleRequest _ => "disassemble"
  | StackTraceRequest _ => "stackTrace"
  | ScopesRequest _ => "scopes"
  | VariablesRequest _ => "variables"
  | ExceptionInfoRequest _ => "exceptionInfo"
  | CompletionsRequest _ _ => "completions"
  | EvaluateRequest _ _ _ _ => "evaluate"
  | SetVariableRequest _ _ => "setVariable"
  | SetExpressionRequest _ _ => "setExpression"
  | SetBreakpointsRequest _ _ => "setBreakpoints"
  | GotoTargetsRequest _ _ => "gotoTargets"
  | OtherRequest command _ => command
  end.

Inductive message :=
  | SetBreakpointsResponse (bps : list located) (rest : string)
  | SetFunctionBreakpointsResponse (bps : list located) (rest : string)
  | SetExceptionBreakpointsResponse (bps : list located) (rest : string)
  | SetDataBreakpointsResponse (bps : list located) (rest : string)
  | SetInstructionBreakpointsResponse (bps : list located) (rest : string)
  | StackTraceResponse (frames : list located) (rest : string)
  | ScopesResponse (scopes : list located) (rest : string)
  | BreakpointEvent (bp : located) (rest : string)
  | LoadedSourcesResponse (sources : list Source) (rest : string)
  | LoadedSourceEvent (src : Source) (rest : string)
  | OutputEvent (src : option Source) (rest : string)
  | DisassembleResponse (instructions : list located) (rest : string)
  | OtherMessage (rest : string).
End Dap.

(** * Translating source paths (internal/session/translate.go)

    A session with a path map rewrites the paths of the sources in the
    messages crossing its DAP connection: host to container in requests,
    container to host in responses and events. *)

Open Scope Z_scope.

(** ** The operations *)

Fixpoint walkSource (conv : string → option string) (src : Dap.Source) : Dap.Source :=
  match src with
  | Dap.mkSource name path sources rest =>
    let path := if path =?s "" then path else default path (conv path) in
    Dap.mkSource name path (map (walkSource conv) sources) rest
  end.

Definition on_located (f : Dap.Source → Dap.Source) (l : Dap.located) : Dap.located :=
  Dap.mkLocated (option_map f (Dap.lc_Source l)) (Dap.lc_rest l).

(** The sources of a request, and of what the adapter sends. *)
Definition on_request (f : Dap.Source → Dap.Source) (req : Dap.request) : Dap.request :=
  match req with
  | Dap.SetBreakpointsRequest src rest => Dap.SetBreakpointsRequest (f src) rest
  | Dap.BreakpointLocationsRequest (Some (src, rest)) => Dap.BreakpointLocationsRequest (Some (f src, rest))
  | Dap.GotoTargetsRequest src rest => Dap.GotoTargetsRequest (f src) rest
  | Dap.SourceRequest src rest => Dap.SourceRequest (option_map f src) rest
  | _ => req
  end.
Definition on_message (f : Dap.Source → Dap.Source) (msg : Dap.message) : Dap.message :=
  let located := map (on_located f) in
  match msg with
  | Dap.SetBreakpointsResponse bps rest => Dap.SetBreakpointsResponse (located bps) rest
  | Dap.SetFunctionBreakpointsResponse bps rest => Dap.SetFunctionBreakpointsResponse (located bps) rest
  | Dap.SetExceptionBreakpointsResponse bps rest => Dap.SetExceptionBreakpointsResponse (located bps) rest
  | Dap.SetDataBreakpointsResponse bps rest => Dap.SetDataBreakpointsResponse (located bps) rest
  | Dap.SetInstructionBreakpointsResponse bps rest => Dap.SetInstructionBreakpointsResponse (located bps) rest
  | Dap.StackTraceResponse frames rest => Dap.StackTraceResponse (located frames) rest
  | Dap.ScopesResponse scopes rest => Dap.ScopesResponse (located scopes) rest
  | Dap.BreakpointEvent bp rest => Dap.BreakpointEvent (on_located f bp) rest
  | Dap.LoadedSourcesResponse sources rest => Dap.LoadedSourcesResponse (map f sources) rest
  | Dap.LoadedSourceEvent src rest => Dap.LoadedSourceEvent (f src) rest
  | Dap.OutputEvent src rest => Dap.OutputEvent (option_map f src) rest
  | Dap.DisassembleResponse instructions rest => Dap.DisassembleResponse (located instructions) rest
  | Dap.OtherMessage _ => msg
  end.

Definition Outgoing (m : PathMap) : Dap.request → Dap.request := on_request (walkSource (ToRemote m)).
Definition Incoming (m : PathMap) : Dap.message → Dap.message := on_message (walkSource (ToLocal m)).

(** A session without a path map translates nothing. *)
Definition translated_request (m : option PathMap) (req : Dap.request) : Dap.request :=
  match m with Some m => Outgoing m req | None => req end.
Definition translated_message (m : option PathMap) (msg : Dap.message) : Dap.message :=
  match m with Some m => Incoming m msg | None => msg end.

(** ** Sources as trees of paths *)

Section source_ind.
Context (P : Dap.Source → Prop).
Context (H : ∀ name path sources rest, Forall P sources → P (Dap.mkSource name path sources rest)).
Fixpoint source_nested (src : Dap.Source) : P src :=
  match src with
  | Dap.mkSource name path sources rest =>
    H name path sources rest
      ((fix go (l : list Dap.Source) : Forall P l :=
          match l with
          | [] => List.Forall_nil P
          | x :: l => @List.Forall_cons _ P x l (source_nested x) (go l)
          end) sources)
  end.
End source_ind.

(** Every path of a source, its own first; and the source without them. *)
Fixpoint paths (src : Dap.Source) : list string :=
  match src with Dap.mkSource _ path sources _ => path :: concat (map paths sources) end.
Fixpoint pathless (src : Dap.Source) : Dap.Source :=
  match src with Dap.mkSource name _ sources rest => Dap.mkSource name "" (map pathless sources) rest end.

Definition converted (conv : string → option string) (path : string) : string :=
  if path =?s "" then path else default path (conv path).

Lemma walk_paths conv src : paths (walkSource conv src) = map (converted conv) (paths src).
Proof.
  induction src as [name path sources rest IH] using source_nested. cbn. f_equal.
  induction IH as [|x l Hx _ IHl]; [done|]. cbn. by rewrite map_app, Hx, IHl.
Qed.

Lemma walk_pathless conv src : pathless (walkSource conv src) = pathless src.
Proof.
  induction src as [name path sources rest IH] using source_nested. cbn. f_equal.
  induction IH as [|x l Hx _ IHl]; [done|]. cbn. by rewrite Hx, IHl.
Qed.

(** The sources of messages, in the order they have them. *)
Definition request_sources (r : Dap.request) : list Dap.Source :=
  match r with
  | Dap.SetBreakpointsRequest src _ | Dap.GotoTargetsRequest src _ => [src]
  | Dap.BreakpointLocationsRequest args => match args with Some (src, _) => [src] | None => [] end
  | Dap.SourceRequest src _ => from_option (fun x => [x]) [] src
  | _ => []
  end.
Definition located_sources (l : list Dap.located) : list Dap.Source := concat (map (fun x => from_option (fun x => [x]) [] (Dap.lc_Source x)) l).
Definition message_sources (msg : Dap.message) : list Dap.Source :=
  match msg with
  | Dap.SetBreakpointsResponse l _ | Dap.SetFunctionBreakpointsResponse l _ | Dap.SetExceptionBreakpointsResponse l _
  | Dap.SetDataBreakpointsResponse l _ | Dap.SetInstructionBreakpointsResponse l _ | Dap.StackTraceResponse l _
  | Dap.ScopesResponse l _ | Dap.DisassembleResponse l _ => located_sources l
  | Dap.BreakpointEvent bp _ => from_option (fun x => [x]) [] (Dap.lc_Source bp)
  | Dap.LoadedSourcesResponse sources _ => sources
  | Dap.LoadedSourceEvent src _ => [src]
  | Dap.OutputEvent src _ => from_option (fun x => [x]) [] src
  | Dap.OtherMessage _ => []
  end.

Definition request_paths (r : Dap.request) : list string := concat (map paths (request_sources r)).
Definition message_paths (msg : Dap.message) : list string := concat (map paths (message_sources msg)).

Section on.
Context (f : Dap.Source → Dap.Source).

Lemma on_request_sources r : request_sources (on_request f r) = map f (request_sources r).
Proof. destruct r as [|[]| | |[[]|]| | | | | | | | | | | | |]; done. Qed.

Lemma on_located_sources l : located_sources (map (on_located f) l) = map f (located_sources l).
Proof.
  unfold located_sources. induction l as [|[[src|] rest] l IH]; [done|..]; cbn; by rewrite IH.
Qed.

Lemma on_message_sources msg : message_sources (on_message f msg) = map f (message_sources msg).
Proof. destruct msg as [| | | | | | |[[]]| | |[]| |]; try done; apply on_located_sources. Qed.

(** What [pathless] leaves is not the sources' paths. *)
Context (Hf : ∀ src, pathless (f src) = pathless src).

Lemma on_located_pathless l : map (on_located pathless) (map (on_located f) l) = map (on_located pathless) l.
Proof. rewrite map_map. apply map_ext. intros [[src|] rest]; [|done]. unfold on_located. cbn. by rewrite Hf. Qed.

Lemma on_request_pathless r : on_request pathless (on_request f r) = on_request pathless r.
Proof. destruct r as [|[]| | |[[]|]| | | | | | | | | | | | |]; cbn; by rewrite ?Hf. Qed.

Lemma on_message_pathless msg : on_message pathless (on_message f msg) = on_message pathless msg.
Proof.
  destruct msg as [| | | | | | |[[]]| | |[]| |]; cbn; unfold on_located; cbn; rewrite ?Hf; try done; f_equal; try apply on_located_pathless.
  rewrite map_map. apply map_ext, Hf.
Qed.
End on.

Lemma map_concat_paths conv l :
  concat (map paths (map (walkSource conv) l)) = map (converted conv) (concat (map paths l)).
Proof. induction l as [|x l IH]; [done|]. cbn. by rewrite map_app, walk_paths, IH. Qed.

(** Where a translated path is. *)
Lemma ToLocal_within m r out :
  ToLocal m r = Some out → ∃ p, In p (byRemote m) ∧ within (local p) out = true.
Proof.
  unfold ToLocal. destruct (_ || _); [done|]. intros (p & pre & post & rel & Hps & _ & _ & Hout)%ToLocal_go_spec.
  exists p. split; [rewrite Hps; apply List.in_app_iff; right; by left|].
  destruct Hout as [[_ ->]|(_ & _ & _ & H)]; [|done]. unfold within. by rewrite String.eqb_refl.
Qed.

(** ** What translating does *)

(** A path as it comes back from the debuggee. *)
Definition returns (m : PathMap) (path : string) : Prop :=
  path = ""%string ∨ ∃ r, ToRemote m path = Some r ∧ r ≠ ""%string ∧ ToLocal m r = Some path.

Lemma walk_returns m src :
  Forall (returns m) (paths src) → walkSource (ToLocal m) (walkSource (ToRemote m) src) = src.
Proof.
  induction src as [name path sources rest IH] using source_nested. cbn. intros [Hp Hs]%Forall_cons. f_equal.
  - destruct Hp as [->|(r & H1 & Hr & H2)]; [done|]. rewrite H1. cbn. destruct (String.eqb_spec path "") as [->|]; [done|].
    destruct (String.eqb_spec r ""); [done|]. by rewrite H2.
  - induction IH as [|x l Hx _ IHl]; [done|]. cbn in Hs. apply Forall_app in Hs as [Hs Hl]. cbn. by rewrite Hx, IHl.
Qed.

(** C37: translating rewrites every source path of a message and nothing else:
    the paths of what is sent and received are the old ones, converted one by
    one in their places, a path that does not map staying as it is, and
    without the paths the messages are the same; so a path that came from the
    debuggee either is what it sent or is inside a mapped host directory; and
    a source whose paths map and come back is received as it was sent. *)
Theorem translate_spec m req msg :
  (request_paths (Outgoing m req) = map (converted (ToRemote m)) (request_paths req)
   ∧ on_request pathless (Outgoing m req) = on_request pathless req)
  ∧ (message_paths (Incoming m msg) = map (converted (ToLocal m)) (message_paths msg)
     ∧ on_message pathless (Incoming m msg) = on_message pathless msg)
  ∧ (∀ path, In path (message_paths (Incoming m msg)) →
       In path (message_paths msg) ∨ ∃ p, In p (byRemote m) ∧ within (local p) path = true)
  ∧ ∀ src, Forall (returns m) (paths src) → walkSource (ToLocal m) (walkSource (ToRemote m) src) = src.
Proof.
  assert (Hin : message_paths (Incoming m msg) = map (converted (ToLocal m)) (message_paths msg)).
  { unfold message_paths, Incoming. by rewrite on_message_sources, map_concat_paths. }
  split; [split|split; [split; [done|]|split]].
  - unfold request_paths, Outgoing. by rewrite on_request_sources, map_concat_paths.
  - apply on_request_pathless, walk_pathless.
  - apply on_message_pathless, walk_pathless.
  - intros path. rewrite Hin. intros (q & <- & Hq)%List.in_map_iff. unfold converted.
    destruct (q =?s ""); [by left|]. destruct (ToLocal m q) as [out|] eqn:E; cbn; [|by left].
    right. by apply (ToLocal_within m q).
  - apply walk_returns.
Qed.
