(* ===== verification/Session.v ===== *)
(** * A session's state (internal/session/session.go)

    The [Session] struct, with the fields its modelled operations use, and
    the operations everything else is built from: appending to the log,
    changing the state, reading and writing breakpoints. Breakpoints are
    shared mutable objects in the code (slots, replace items and run-until
    keep pointers to them while other clients change the lists), so they live
    in a heap: [bps] holds their addresses, and an address is the
    breakpoint's ID, which is never reused. *)

From S2P Require Import Prelude GoStrings Api PathMap EventLog Prog Message.

Open Scope Z_scope.

(** ** Data *)

Record lease := mkLease {
  ls_policy : LeasePolicy; ls_holder : Client; ls_since : Z; ls_requests : list LeaseRequest }.
#[global] Instance eta_lease : Eta lease :=
  fun r => mkLease (ls_policy r) (ls_holder r) (ls_since r) (ls_requests r).

(** One client's open editor connections (presence.go). *)
Record presence := mkPresence { p_conns : Z; p_gen : Z; p_excSet : bool }.
#[global] Instance eta_presence : Eta presence :=
  fun r => mkPresence (p_conns r) (p_gen r) (p_excSet r).

(** A parsed --hit (emulate.go): "==", ">=" or "%". *)
Inductive hit_op := HitEq | HitGe | HitEvery.
Record hitCondition := mkHit { h_op : hit_op; h_n : Z }.
(** Literal text, or an expression to evaluate. *)
Record logPart := mkLogPart { lp_text : string; lp_expr : string }.

(** The session's breakpoint: the API's, and what only the session knows. *)
Record breakpoint := mkBp {
  bp : Breakpoint; adapterID : Z; source : string;
  hit : option hitCondition; log : list logPart }.
#[global] Instance eta_breakpoint : Eta breakpoint :=
  fun r => mkBp (bp r) (adapterID r) (source r) (hit r) (log r).
Definition zero_bp : breakpoint := mkBp zeroBreakpoint 0 "" None [].

(** The capabilities the session looks at (go-dap's [Capabilities]);
    [ExceptionFilters] are the ids of its exception filters. *)
Record Capabilities := mkCaps {
  SupportsFunctionBreakpoints : bool; SupportsConditionalBreakpoints : bool;
  SupportsConfigurationDoneRequest : bool; SupportsExceptionInfoRequest : bool;
  SupportsSetVariable : bool; SupportsSetExpression : bool;
  SupportsLoadedSourcesRequest : bool; SupportsModulesRequest : bool;
  SupportsBreakpointLocationsRequest : bool; SupportsReadMemoryRequest : bool;
  SupportsDisassembleRequest : bool; SupportsCompletionsRequest : bool;
  ExceptionFilters : list string }.
Definition noCaps : Capabilities :=
  mkCaps false false false false false false false false false false false false [].

(** The container of a session (internal/api/container.go): the process
    debugged there, and whether eyedbg launched it. *)
Record ContainerInfo := mkContainer {
  ct_ID : string; ct_Name : string; ct_Service : string; ct_Project : string; ct_PID : Z;
  ct_Platform : string; ct_Map : list pathPair; ct_UnhealthyAfter : Z; ct_Launched : bool }.
#[global] Instance eta_ContainerInfo : Eta ContainerInfo :=
  fun r => mkContainer (ct_ID r) (ct_Name r) (ct_Service r) (ct_Project r) (ct_PID r) (ct_Platform r)
    (ct_Map r) (ct_UnhealthyAfter r) (ct_Launched r).

(** What a start settles for the session. Only a test run's settings for its
    host change, once it is known ([fixed] is the rest). *)
Record config := mkConfig {
  cf_ID : string; cf_Lang : string; cf_Program : string; cf_CreatedAt : Z;
  cf_mode : Mode;
  cf_run : option string;           (* the test runner's name, if one exists *)
  cf_starter : Client;
  cf_excFilters : ExceptionMode → option (list string);
  cf_pathMap : option PathMap;
  cf_sideEffects : option (string → option string);
  cf_adapter : string; cf_pauseUnsupported : string;
  cf_setByEval : bool; cf_exitCodeUnknown : string;
  cf_group : string }.
#[global] Instance eta_config : Eta config :=
  fun r => mkConfig (cf_ID r) (cf_Lang r) (cf_Program r) (cf_CreatedAt r) (cf_mode r) (cf_run r) (cf_starter r)
    (cf_excFilters r) (cf_pathMap r) (cf_sideEffects r) (cf_adapter r) (cf_pauseUnsupported r)
    (cf_setByEval r) (cf_exitCodeUnknown r) (cf_group r).
Definition fixed (c : config) : string * string * string * Z * Mode * option string * Client * option PathMap * string :=
  (cf_ID c, cf_Lang c, cf_Program c, cf_CreatedAt c, cf_mode c, cf_run c, cf_starter c, cf_pathMap c, cf_group c).

(** A test run (testrun.go): its runner's exit code, whether the session's
    start finished, and the last lines it printed. *)
Record testRun := mkRun { tr_code : option Z; tr_started : bool; tr_tail : list string }.
#[global] Instance eta_testRun : Eta testRun := fun r => mkRun (tr_code r) (tr_started r) (tr_tail r).

(** The locals of one stop, kept to show what the next one changed. *)
Record stopCapture := mkCapture { sc_stops : Z; sc_frame : Frame; sc_locals : list Var; sc_more : Z }.
Definition noFrame : Frame := mkFrame 0 "" "" 0 0.

Record Session := mkSession {
  conf : config;
  client : bool;                    (* the adapter is connected *)
  initialized : bool;               (* its initialized event arrived *)
  s_log : eventLog;
  state : SessionState;
  stops : Z; stop : StopInfo; pid : Z; stoppedAt : Z;
  exitCode : option Z; endReason : string;
  heap : gmap Z breakpoint;
  bps : gmap string (list Z);       (* by absolute file path *)
  nextBP : Z;
  s_lease : lease;
  clients : list ClientInfo;        (* by first seen *)
  resumedAt : Z;
  presences : gmap string presence; connGen : Z;
  lastOutput : Z;
  execInFlight : bool;
  stopping : string; stopReason : string;
  changed : Z;                      (* how often waiters were woken *)
  ended : bool;
  caps : Capabilities; capsKnown : bool;
  container : option ContainerInfo;
  excModes : list ClientExceptionMode;
  programExited : bool;
  curStale : bool;
  stopGen : Z; stepping : bool; pauseRequested : bool;
  cur : option stopCapture; prev : option stopCapture;
  excInfo : option ExceptionInfo; excInfoStops : Z;
  recPath : string;
  testrun : testRun }.              (* of a session with a test runner *)
#[global] Instance eta_Session : Eta Session :=
  fun r => mkSession (conf r) (client r) (initialized r) (s_log r) (state r) (stops r) (stop r)
    (pid r) (stoppedAt r) (exitCode r) (endReason r) (heap r) (bps r) (nextBP r) (s_lease r)
    (clients r) (resumedAt r) (presences r) (connGen r) (lastOutput r) (execInFlight r)
    (stopping r) (stopReason r) (changed r) (ended r) (caps r) (capsKnown r) (container r)
    (excModes r) (programExited r) (curStale r) (stopGen r) (stepping r) (pauseRequested r)
    (cur r) (prev r) (excInfo r) (excInfoStops r) (recPath r) (testrun r).

Definition s_ID (s : Session) : string := cf_ID (conf s).
Definition Lang (s : Session) : string := cf_Lang (conf s).
Definition s_mode (s : Session) : Mode := cf_mode (conf s).

(** [newSession]: started by [starter], who holds its lease. *)
Definition newSession (cf : config) (policy : LeasePolicy) (launchPID : Z)
    (ct : option ContainerInfo) (now : Z) : Session :=
  let starter := cf_starter cf in
  {| conf := cf; client := false; initialized := false;
     s_log := newEventLog maxEvents maxEventBytes;
     state := StateStarting; stops := 0; stop := noStop;
     pid := (match ct with Some _ => 0 | None => launchPID end);
     stoppedAt := 0; exitCode := None; endReason := "";
     heap := ∅; bps := ∅; nextBP := 0;
     s_lease := mkLease policy starter now [];
     clients := [mkClientInfo starter now now 0];
     resumedAt := 0; presences := ∅; connGen := 0; lastOutput := 0;
     execInFlight := false; stopping := ""; stopReason := ""; changed := 0; ended := false;
     caps := noCaps; capsKnown := false; container := ct;
     excModes := []; programExited := false; curStale := false;
     stopGen := 0; stepping := false; pauseRequested := false;
     cur := None; prev := None; excInfo := None; excInfoStops := 0;
     recPath := ""; testrun := mkRun None false [] |}.

(** ** The adapter

    Requests the modelled operations send, and the answers they look at. An
    adapter error is the [*api.Error] [adapterErr] makes of it. *)

Record dapBreakpoint := mkDapBp {
  g_Id : Z; g_Verified : bool; g_Message : string; g_Line : Z;
  g_Source : option string }.       (* the source's path, if a source is given *)

Inductive exec_kind :=
  | ExecContinue | ExecNext | ExecStepIn | ExecStepOut | ExecPause
  | ExecRunUntil | ExecEval | ExecSet.
#[global] Instance exec_kind_eq_dec : EqDecision exec_kind.
Proof. solve_decision. Defined.
Definition exec_name (k : exec_kind) : string :=
  match k with
  | ExecContinue => "continue" | ExecNext => "next" | ExecStepIn => "stepIn"
  | ExecStepOut => "stepOut" | ExecPause => "pause" | ExecRunUntil => "runUntil"
  | ExecEval => "eval" | ExecSet => "set"
  end.

(** go-dap's stack frames (with the source's path, if a source is given),
    variables, scopes and exception details. *)
Record dapFrame := mkDapFrame {
  gf_Id : Z; gf_Name : string; gf_Line : Z; gf_Column : Z; gf_Source : option string }.
Record dapVariable := mkDapVar { g_Name : string; g_Type : string; g_Value : string; g_Ref : Z }.
Record dapScope := mkDapScope { gs_Name : string; gs_Hint : string; gs_Ref : Z; gs_Expensive : bool }.

Inductive dapDetails := mkDetails {
  d_Message : string; d_TypeName : string; d_FullTypeName : string; d_StackTrace : string;
  d_InnerException : list dapDetails }.
Record dapException := mkDapException {
  e_Id : string; e_Desc : string; e_Break : string; e_Details : option dapDetails }.

Inductive request :=
  | Initialize (adapterID : string) (terminal : bool)
  | StartProgram (attach : bool)    (* launch or attach, with the driver's arguments *)
  | Scopes (frame : Z)
  | Variables (ref : Z)
  | SetExpression (expr value : string) (frame : Z)
  | SetVariable (ref : Z) (name value : string)
  | ExceptionInfoRequest (thread : Z)
  | SetBreakpoints (path : string) (lines : list (Z * string))
  | SetFunctionBreakpoints (functions : list (string * string))
  | SetExceptionBreakpoints (filters : list string)
  | Evaluate (expr : string) (frame : Z) (context : string)
  | StackTrace (thread levels : Z)
  | Threads
  | Execute (k : exec_kind) (thread : Z)
  | Disconnect (terminateDebuggee : option bool)
  | Forwarded (r : Dap.request).

Inductive answer :=
  | AnsError (e : Error)
  | AnsCaps (c : Capabilities)
  | AnsOk
  | AnsBreakpoints (got : list dapBreakpoint)
  | AnsEvaluate (value type : string) (ref : Z)
  | AnsScopes (scopes : list dapScope)
  | AnsVariables (vars : list dapVariable)
  | AnsSet (value type : string)
  | AnsException (body : dapException)
  | AnsStack (frames : list dapFrame)
  | AnsThreads (ids : list Z)
  | AnsResponse (rest : string).

Abbreviation handler A := (prog Session request answer A).
Definition ret {A} (a : A) : handler A := Ret a.

(** A program under a mutex held until it returns ([defer m.Unlock()]). *)
Definition with_lock {A} (m : mutex) (p : handler A) : handler A :=
  Lock m (pbind p (fun a => Unlock m (Ret a))).

(** ** The log *)

(** [s.log.append(e)] at [now]. *)
Definition logEvent (now : Z) (e : Event) (s : Session) : Session :=
  s <| s_log := (append now e (s_log s)).2 |>.

(** [bump]: wake every waiter. *)
Definition bump (s : Session) : Session := s <| changed ::= Z.succ |>.

Definition setStateLocked (st : SessionState) (s : Session) : Session :=
  bump (s <| state := st |>).

(** [stateError]. *)
Definition stateError (id : string) (st : SessionState) (what : string) : Error :=
  let code := match st with
              | StateStopped => CodeNotRunning
              | StateExited => CodeSessionExited
              | _ => CodeNotStopped
              end in
  NewError code (what +:+ ": session " +:+ id +:+ " is " +:+ state_name st).

Definition invalid (msg : string) : Error := NewError CodeInvalidRequest msg.

(** [requireLive] *)
Definition requireLive (what : string) (s : Session) : result unit :=
  if decide (state s = StateExited) then Err (stateError (s_ID s) (state s) what) else Ok ().

(** ** Clients (clients.go) *)

Fixpoint touch_go (now : Z) (id : string) (l : list ClientInfo) : option (list ClientInfo) :=
  match l with
  | [] => None
  | ci :: l =>
    if c_ID (ci_Client ci) =?s id then Some (ci <| ci_LastSeen := now |> :: l)
    else cons ci <$> touch_go now id l
  end.
Definition touchLocked (now : Z) (c : Client) (s : Session) : Session :=
  match touch_go now (c_ID c) (clients s) with
  | Some l => s <| clients := l |>
  | None => logEvent now ((event EventClient) <| ev_Client := c_ID c |>)
              (s <| clients ::= fun l => l ++ [mkClientInfo c now now 0] |>)
  end.
Definition Touch (now : Z) (c : Client) : handler unit :=
  atomically (fun s => ((), touchLocked now c s)).

(** ** The breakpoint store *)

Definition deref (s : Session) (a : Z) : breakpoint := default zero_bp (heap s !! a).
(** [s.bps[key]], empty for a key that isn't there. *)
Definition list_of (s : Session) (key : string) : list Z := default [] (bps s !! key).
Definition set_bp (a : Z) (f : breakpoint → breakpoint) (s : Session) : Session :=
  s <| heap ::= alter f a |>.
Definition set_bps (l : list Z) (f : breakpoint → breakpoint) (s : Session) : Session :=
  fold_left (fun s a => set_bp a f s) l s.
(** Every breakpoint in the lists, list by list. *)
Definition all_addrs (s : Session) : list Z := concat (map_to_list (bps s)).*2.

(** Where a breakpoint is requested (slots.go): a function, or a line of the
    file whose list it is in. *)
Record slotKey := mkKey { k_function : string; k_line : Z }.
#[global] Instance slotKey_eq_dec : EqDecision slotKey.
Proof. solve_decision. Defined.
Definition key (b : breakpoint) : slotKey := mkKey (b_Function (bp b)) (b_RequestedLine (bp b)).

Definition funcKey : string := "".

(** [logBreakpointLocked]: a breakpoint event with a copy of it as it is now. *)
Definition logBreakpointLocked (now : Z) (action actor : string) (a : Z) (s : Session) : Session :=
  logEvent now ((event EventBreakpoint) <| ev_Action := action |> <| ev_Client := actor |>
                  <| ev_Breakpoint := Some (bp (deref s a)) |>) s.

(** ** The host's file system

    What the session asks it: a path with its symlinks resolved, whether a
    source file is there, its bytes, and whether two paths are one file. *)
Record fs := mkFs {
  fs_EvalSymlinks : string → option string;
  fs_isFile : string → bool;
  fs_read : string → result string;
  fs_mtime : string → option Z;
  fs_same : string → string → bool }.

(** [realPath] (manager.go) *)
Definition realPath (f : fs) (p : string) : string :=
  if p =?s "" then p else default p (fs_EvalSymlinks f p).
