(* ===== verification/Lease.v ===== *)
(** * The control lease (internal/session/lease.go)

    Who may change the program's execution. Each method is one critical
    section: a function from the session to its answer and the session
    after. [now] is the clock's reading in the section. *)

From S2P Require Import Prelude GoStrings Api EventLog Prog Session.
From Stdlib Require Import Bool.

Open Scope Z_scope.

Inductive leaseOp := opExec | opTake | opAdmin.
Definition maxLeaseRequests : Z := 16.

Definition allows (l : lease) (op : leaseOp) (c : Client) (force : bool) : bool :=
  if force || (c_ID (ls_holder l) =?s "") || (c_ID (ls_holder l) =?s c_ID c) then true
  else match op with
       | opAdmin => false
       | _ =>
         match ls_policy l with
         | LeaseFree => true
         | LeaseHandoff => false
         | LeaseHumanPriority => IsHuman c && negb (IsHuman (ls_holder l))
         | LeaseOther _ => false
         end
       end.

Definition lease_info (l : lease) : LeaseInfo :=
  mkLeaseInfo (ls_policy l) (c_ID (ls_holder l))
    (if c_ID (ls_holder l) =?s "" then None else Some (ls_since l)) (ls_requests l).

Definition leaseHeldLocked (c : Client) (s : Session) : Error :=
  NewError CodeLeaseHeld
    ("the lease of session " +:+ s_ID s +:+ " is held by " +:+ c_ID (ls_holder (s_lease s))
     +:+ " (policy " +:+ policy_name (ls_policy (s_lease s)) +:+ ")").

(** Moves the lease to [holder] (zero: nobody), clears the pending requests
    and logs it. *)
Definition setHolderLocked (now : Z) (holder : Client) (actor action reason : string) (s : Session) : Session :=
  let previous := c_ID (ls_holder (s_lease s)) in
  let s := s <| s_lease ::= fun l =>
             l <| ls_holder := holder |> <| ls_since := now |> <| ls_requests := [] |> |> in
  logEvent now ((event EventLease) <| ev_Client := actor |> <| ev_Action := action |>
                  <| ev_Lease := Some (lease_info (s_lease s)) |> <| ev_Previous := previous |>
                  <| ev_Reason := reason |>) s.

Definition Lease (s : Session) : LeaseInfo := lease_info (s_lease s).

Definition TakeLease (now : Z) (c : Client) (force : bool) (s : Session) : result LeaseInfo * Session :=
  if c_ID (ls_holder (s_lease s)) =?s c_ID c then (Ok (lease_info (s_lease s)), s)
  else if allows (s_lease s) opTake c false then
    let s := setHolderLocked now c (c_ID c) "take" "" s in (Ok (lease_info (s_lease s)), s)
  else if force then
    let s := setHolderLocked now c (c_ID c) "force" "" s in (Ok (lease_info (s_lease s)), s)
  else (Err (leaseHeldLocked c s), s).

Definition ReleaseLease (now : Z) (c : Client) (s : Session) : LeaseInfo * Session :=
  let s := if c_ID (ls_holder (s_lease s)) =?s c_ID c
           then setHolderLocked now noClient (c_ID c) "release" "" s else s in
  (lease_info (s_lease s), s).

Definition GrantLease (now : Z) (c : Client) (to : string) (force : bool) (s : Session) : result LeaseInfo * Session :=
  if to =?s "" then
    (Err (NewError CodeInvalidRequest "lease grant needs the client to give it to"), s)
  else match ParseClient to with
       | Err e => (Err (NewError CodeInvalidRequest (e_message e)), s)
       | Ok target =>
         if negb (allows (s_lease s) opAdmin c force) then (Err (leaseHeldLocked c s), s)
         else
           let s := if negb (c_ID (ls_holder (s_lease s)) =?s c_ID target)
                    then setHolderLocked now target (c_ID c) "grant" "" s else s in
           (Ok (lease_info (s_lease s)), s)
       end.

Definition SetLeasePolicy (now : Z) (c : Client) (policy : string) (force : bool) (s : Session) : result LeaseInfo * Session :=
  match ParseLeasePolicy policy with
  | Err e => (Err e, s)
  | Ok p =>
    if negb (allows (s_lease s) opAdmin c force) then (Err (leaseHeldLocked c s), s)
    else
      let s := if decide (ls_policy (s_lease s) = p) then s
               else
                 let s := s <| s_lease ::= fun l => l <| ls_policy := p |> |> in
                 logEvent now ((event EventLease) <| ev_Client := c_ID c |> <| ev_Action := "policy" |>
                                 <| ev_Lease := Some (lease_info (s_lease s)) |>
                                 <| ev_Previous := c_ID (ls_holder (s_lease s)) |>) s in
      (Ok (lease_info (s_lease s)), s)
  end.

(** Lets [c] execute: takes the lease when the policy allows it. *)
Definition acquireLocked (now : Z) (c : Client) (s : Session) : result unit * Session :=
  if c_ID (ls_holder (s_lease s)) =?s c_ID c then (Ok (), s)
  else if negb (allows (s_lease s) opExec c false) then (Err (leaseHeldLocked c s), s)
  else (Ok (), setHolderLocked now c (c_ID c) "auto" "" s).

Definition RequestLease (now : Z) (c : Client) (message : string) (s : Session) : result LeaseInfo * Session :=
  if MaxLeaseRequestMessage <? rune_count message then
    (Err (NewError CodeInvalidRequest
       ("the lease request's message has " +:+ itoa (rune_count message) +:+ " characters, more than 200")), s)
  else if decide (state s = StateExited) then
    (Err (stateError (s_ID s) (state s) "requesting the lease needs a live session"), s)
  else if (c_ID (ls_holder (s_lease s)) =?s "") || (c_ID (ls_holder (s_lease s)) =?s c_ID c) then
    (Ok (lease_info (s_lease s)), s)
  else
    let rs := delete_func (fun r => lr_Client r =?s c_ID c) (ls_requests (s_lease s)) in
    let n := Z.of_nat (length rs) in
    let rs := if maxLeaseRequests <=? n then drop (Z.to_nat (n - maxLeaseRequests + 1)) rs else rs in
    let rs := rs ++ [mkLeaseRequest (c_ID c) message now] in
    let s := s <| s_lease ::= fun l => l <| ls_requests := rs |> |> in
    let info := lease_info (s_lease s) in
    (Ok info, logEvent now ((event EventLease) <| ev_Client := c_ID c |> <| ev_Action := "request" |>
                              <| ev_Lease := Some info |> <| ev_Text := message |>) s).

Definition dropRequestLocked (clientID : string) (s : Session) : Session :=
  s <| s_lease ::= fun l =>
    l <| ls_requests ::= delete_func (fun r => lr_Client r =?s clientID) |> |>.

(** ** One relation for every way the lease can change *)

Inductive lease_op :=
  | OpTake (force : bool) | OpRelease | OpGrant (to : string) (force : bool)
  | OpPolicy (policy : string) (force : bool) | OpRequest (message : string)
  | OpAcquire | OpDropRequest.

Definition forced (op : lease_op) : bool :=
  match op with OpTake f | OpGrant _ f | OpPolicy _ f => f | _ => false end.

Definition lease_step (now : Z) (c : Client) (op : lease_op) (s : Session) : Session :=
  match op with
  | OpTake f => (TakeLease now c f s).2
  | OpRelease => (ReleaseLease now c s).2
  | OpGrant to f => (GrantLease now c to f s).2
  | OpPolicy p f => (SetLeasePolicy now c p f s).2
  | OpRequest m => (RequestLease now c m s).2
  | OpAcquire => (acquireLocked now c s).2
  | OpDropRequest => dropRequestLocked (c_ID c) s
  end.

Definition holder (s : Session) : string := c_ID (ls_holder (s_lease s)).
Definition policy (s : Session) : LeasePolicy := ls_policy (s_lease s).

(** ** The invariant of the pending requests *)

Record wf_lease (l : lease) : Prop := {
  wl_nodup : List.NoDup (map lr_Client (ls_requests l));
  wl_bound : Z.of_nat (length (ls_requests l)) ≤ maxLeaseRequests;
  wl_holder : ¬ In (c_ID (ls_holder l)) (map lr_Client (ls_requests l));
  wl_nobody : c_ID (ls_holder l) = ""%string → ls_requests l = [];
}.

Lemma in_map_delete (p : LeaseRequest → bool) x l :
  In x (map lr_Client (delete_func p l)) → In x (map lr_Client l).
Proof.
  rewrite !List.in_map_iff. intros (r & Hr & [Hin _]%in_delete_func). by exists r.
Qed.

Lemma in_map_drop n x (l : list LeaseRequest) :
  In x (map lr_Client (drop n l)) → In x (map lr_Client l).
Proof.
  intros H. rewrite <- (take_drop n l), List.map_app, List.in_app_iff. by right.
Qed.

Lemma nodup_map_drop n (l : list LeaseRequest) :
  List.NoDup (map lr_Client l) → List.NoDup (map lr_Client (drop n l)).
Proof.
  intros H. rewrite <- (take_drop n l), List.map_app in H. by apply List.NoDup_app_remove_l in H.
Qed.

Lemma wf_cleared l h now : wf_lease (l <| ls_holder := h |> <| ls_since := now |> <| ls_requests := [] |>).
Proof. split; simpl; [constructor|unfold maxLeaseRequests; lia|tauto|done]. Qed.
#[export] Hint Resolve wf_cleared : eyedbg.

Lemma wf_with_policy l p : wf_lease l → wf_lease (l <| ls_policy := p |>).
Proof. intros [H1 H2 H3 H4]. by split. Qed.
#[export] Hint Resolve wf_with_policy : eyedbg.

Lemma wf_dropRequest l id :
  wf_lease l → wf_lease (l <| ls_requests ::= delete_func (fun r => lr_Client r =?s id) |>).
Proof.
  intros [H1 H2 H3 H4]. split; simpl.
  - apply NoDup_map_filter, H1.
  - etransitivity; [|exact H2]. apply inj_le, delete_func_length.
  - intros H. apply in_map_delete in H. done.
  - intros H. by rewrite (H4 H).
Qed.
#[export] Hint Resolve wf_dropRequest : eyedbg.

Lemma wf_request l c m now :
  wf_lease l → c_ID (ls_holder l) ≠ ""%string → c_ID (ls_holder l) ≠ c_ID c →
  let rs := delete_func (fun r => lr_Client r =?s c_ID c) (ls_requests l) in
  let n := Z.of_nat (length rs) in
  wf_lease (l <| ls_requests :=
    (if maxLeaseRequests <=? n then drop (Z.to_nat (n - maxLeaseRequests + 1)) rs else rs)
    ++ [mkLeaseRequest (c_ID c) m now] |>).
Proof.
  intros [H1 H2 H3 H4] Hne Hc rs n.
  set (rs' := if maxLeaseRequests <=? n then _ else rs).
  assert (Hrs' : ∃ k, rs' = drop k rs) by (unfold rs'; case_match; [by eexists|by exists 0%nat]).
  assert (Hlen : Z.of_nat (length rs') + 1 ≤ maxLeaseRequests).
  { unfold rs'. unfold maxLeaseRequests in *. destruct (Z.leb_spec 16 n); [rewrite length_drop|]; lia. }
  clearbody rs'. destruct Hrs' as [k ->].
  assert (Hfresh : ¬ In (c_ID c) (map lr_Client (drop k rs))).
  { intros H%in_map_drop. apply List.in_map_iff in H as (r & Hr & [_ Hf]%in_delete_func).
    by rewrite Hr, String.eqb_refl in Hf. }
  split; simpl; rewrite ?List.map_app, ?length_app; simpl.
  - apply List.NoDup_app; [|constructor; [simpl; tauto|constructor]|].
    + apply nodup_map_drop, NoDup_map_filter, H1.
    + intros x Hx [<-|[]]. done.
  - lia.
  - rewrite List.in_app_iff. intros [H%in_map_drop%in_map_delete|[H|[]]]; [done|congruence].
  - done.
Qed.

(** ** Properties *)

Lemma wf_lease_step now c op s :
  wf_lease (s_lease s) → wf_lease (s_lease (lease_step now c op s)).
Proof.
  intros Hwf. destruct op as [f| |to f|p f|m| |]; simpl.
  - unfold TakeLease. repeat case_match; simpl; auto with eyedbg.
  - unfold ReleaseLease. case_match; simpl; auto with eyedbg.
  - unfold GrantLease. repeat case_match; simpl; auto with eyedbg.
  - unfold SetLeasePolicy. repeat case_match; simpl; auto with eyedbg.
  - unfold RequestLease. repeat case_match; simpl; try done; simplify_eq/=.
    all: match goal with H : _ || _ = false |- _ => apply orb_false_iff in H as [Hh Hc] end.
    all: apply String.eqb_neq in Hh, Hc.
    all: pose proof (wf_request (s_lease s) c m now Hwf Hh Hc) as Hr; cbv zeta in Hr.
    all: try (rewrite H2 in Hr); done.
  - unfold acquireLocked. repeat case_match; simpl; auto with eyedbg.
  - auto with eyedbg.
Qed.

(** C39: every lease operation keeps the pending requests well formed: at most
    16, at most one per client, none by the holder, none while nobody holds. *)
Theorem lease_step_wf now c op s :
  wf_lease (s_lease s) → wf_lease (s_lease (lease_step now c op s)).
Proof. apply wf_lease_step. Qed.

(** The result of an operation that can be refused. *)
Definition lease_refusal (now : Z) (c : Client) (op : lease_op) (s : Session) : option Error :=
  let err {A} (r : result A) := match r with Ok _ => None | Err e => Some e end in
  match op with
  | OpTake f => err (TakeLease now c f s).1
  | OpGrant to f => err (GrantLease now c to f s).1
  | OpPolicy p f => err (SetLeasePolicy now c p f s).1
  | OpRequest m => err (RequestLease now c m s).1
  | OpAcquire => err (acquireLocked now c s).1
  | OpRelease | OpDropRequest => None
  end.

Ltac lease_cases :=
  unfold lease_step, lease_refusal, TakeLease, ReleaseLease, GrantLease, SetLeasePolicy, RequestLease,
    acquireLocked, holder, policy in *;
  repeat (case_match; simpl in *; simplify_eq).

(** A lease operation that answers with an error changes nothing of the
    session: neither the lease nor the log. *)
Theorem lease_refused_no_effect now c op s e :
  lease_refusal now c op s = Some e → lease_step now c op s = s.
Proof. destruct op; lease_cases; done. Qed.

Lemma allows_other l op c :
  allows l op c false = true → c_ID (ls_holder l) ≠ ""%string → c_ID (ls_holder l) ≠ c_ID c →
  op ≠ opAdmin ∧ (ls_policy l = LeaseFree ∨
    ls_policy l = LeaseHumanPriority ∧ IsHuman c = true ∧ IsHuman (ls_holder l) = false).
Proof.
  unfold allows. intros H H1%String.eqb_neq H2%String.eqb_neq. rewrite H1, H2 in H. simpl in H.
  destruct op; try done; (split; [done|]); destruct (ls_policy l); try done; auto;
    apply andb_true_iff in H as [? ?%negb_true_iff]; auto.
Qed.

Lemma allows_forced l c force :
  allows l opAdmin c force = true → force = false →
  c_ID (ls_holder l) = ""%string ∨ c_ID (ls_holder l) = c_ID c.
Proof.
  unfold allows. intros H ->. simpl in H.
  destruct (String.eqb_spec (c_ID (ls_holder l)) ""); [by left|].
  destruct (String.eqb_spec (c_ID (ls_holder l)) (c_ID c)); [by right|]. done.
Qed.

Lemma lease_moves now c op s :
  let s' := lease_step now c op s in
  holder s' ≠ holder s → holder s ≠ ""%string → holder s ≠ c_ID c → forced op = false →
  (op = OpTake false ∨ op = OpAcquire) ∧ holder s' = c_ID c ∧
  (policy s = LeaseFree ∨
   policy s = LeaseHumanPriority ∧ IsHuman c = true ∧ IsHuman (ls_holder (s_lease s)) = false).
Proof.
  intros s' Hch Hne Hc Hf. unfold s' in *. clear s'.
  assert (Htake : allows (s_lease s) opTake c false = true → _) by
    (intros Ha; apply allows_other in Ha; [exact (proj2 Ha)|exact Hne|exact Hc]).
  assert (Hexec : allows (s_lease s) opExec c false = true → _) by
    (intros Ha; apply allows_other in Ha; [exact (proj2 Ha)|exact Hne|exact Hc]).
  assert (Hadm : ∀ f, allows (s_lease s) opAdmin c f = true → f = false → False).
  { intros f Ha Hff. by destruct (allows_forced _ _ _ Ha Hff). }
  destruct op; lease_cases; try done; try (exfalso; by eauto using negb_false_iff);
    try (split_and!; [by auto|done|by auto]).
  - exfalso. match goal with H : (_ =?s _) = true |- _ => apply String.eqb_eq in H; congruence end.
  - match goal with H : negb _ = false |- _ => apply negb_false_iff in H; exfalso; eauto end.
  - match goal with H : negb _ = false |- _ => apply negb_false_iff in H; split_and!; auto end.
Qed.

(** An unforced operation by a client that takes the lease from another
    holder is a take or an execution, gives it to that client, and happens only
    under the free policy or by a human under human-priority from a non-human. *)
Theorem lease_transfer now c op s :
  let s' := lease_step now c op s in
  holder s' ≠ holder s → holder s ≠ ""%string → holder s ≠ c_ID c → forced op = false →
  (op = OpTake false ∨ op = OpAcquire) ∧ holder s' = c_ID c ∧
  (policy s = LeaseFree ∨
   policy s = LeaseHumanPriority ∧ IsHuman c = true ∧ IsHuman (ls_holder (s_lease s)) = false).
Proof. apply lease_moves. Qed.

(** A change of the holder or the policy is exactly one lease event, naming
    the client, the holder before and the lease after. *)
Theorem lease_change_logged now c op s :
  let s' := lease_step now c op s in
  holder s' ≠ holder s ∨ policy s' ≠ policy s →
  ∃ e, s_log s' = (append now e (s_log s)).2 ∧ ev_Kind e = EventLease
    ∧ ev_Client e = c_ID c ∧ ev_Previous e = holder s ∧ ev_Lease e = Some (Lease s').
Proof.
  cbv zeta. intros Hch. destruct op; revert Hch; lease_cases; intros [Hch|Hch]; try done;
    (eexists; split_and!; [reflexivity|done..]).
Qed.

(** A run of operations by clients. *)
Definition lease_run (ops : list (Z * Client * lease_op)) (s : Session) : Session :=
  fold_left (fun s '(now, c, op) => lease_step now c op s) ops s.

(** The clients the policy never lets take the lease from another. *)
Definition protected (s : Session) (c : Client) : Prop :=
  policy s = LeaseHandoff ∨ (policy s = LeaseHumanPriority ∧ IsHuman c = false).

Lemma lease_step_policy now c op s :
  holder s ≠ ""%string → holder s ≠ c_ID c → forced op = false →
  policy (lease_step now c op s) = policy s.
Proof.
  intros Hne Hc Hf. destruct op; lease_cases; try done.
  all: match goal with H : negb (allows _ opAdmin _ _) = false |- _ =>
         apply negb_false_iff in H; destruct (allows_forced _ _ _ H eq_refl); done end.
Qed.

(** C6: whatever unforced operations other clients run, in any order, a holder
    keeps its lease under handoff, and under human-priority against agents. *)
Theorem lease_protected ops s :
  holder s ≠ ""%string →
  (∀ now c op, In (now, c, op) ops → c_ID c ≠ holder s ∧ forced op = false ∧ protected s c) →
  holder (lease_run ops s) = holder s.
Proof.
  revert s. induction ops as [|[[now c] op] ops IH]; intros s Hne Hops; simpl; [done|].
  destruct (Hops now c op (or_introl eq_refl)) as (Hc & Hf & Hp).
  assert (Hpol := lease_step_policy now c op s Hne (not_eq_sym Hc) Hf).
  assert (Hh : holder (lease_step now c op s) = holder s).
  { destruct (decide (holder (lease_step now c op s) = holder s)) as [|Hch]; [done|].
    destruct (lease_moves now c op s Hch Hne (not_eq_sym Hc) Hf) as (_ & _ & [H|[H [H' _]]]);
      destruct Hp as [Hp|[Hp Hp']]; congruence. }
  rewrite <- Hh. apply IH; [by rewrite Hh|]. intros now' c' op' Hin.
  rewrite Hh. destruct (Hops now' c' op' (or_intror Hin)) as (? & ? & Hp').
  split_and!; [done|done|]. unfold protected in *. by rewrite Hpol.
Qed.

(** ** Witnesses *)

Definition human (n : string) : Client := mkClient ("human:" +:+ n) KindHuman n.
Definition agent (n : string) : Client := mkClient ("agent:" +:+ n) KindAgent n.
Definition sample_conf (starter : Client) : config :=
  {| cf_ID := "s1"; cf_Lang := "dotnet"; cf_Program := "/app/a.dll"; cf_CreatedAt := 0;
     cf_mode := ModeLaunch; cf_run := None; cf_starter := starter;
     cf_excFilters := fun m => match m with
                               | ExceptionsAll => Some ["all"; "user-unhandled"]%string
                               | ExceptionsUncaught => Some ["user-unhandled"]%string
                               | ExceptionsNone => None
                               end;
     cf_pathMap := None; cf_sideEffects := None; cf_adapter := "netcoredbg";
     cf_pauseUnsupported := ""; cf_setByEval := true; cf_exitCodeUnknown := ""; cf_group := "" |}.
Definition sample_session (p : LeasePolicy) : Session :=
  newSession (sample_conf (agent "a")) p 42 None 100.

Lemma wf_lease_new cf p pid ct now : wf_lease (s_lease (newSession cf p pid ct now)).
Proof. split; simpl; [constructor|unfold maxLeaseRequests; lia|tauto|done]. Qed.

Lemma lease_step_wf_witness :
  let s := lease_step 101 (human "h") (OpRequest "mine?") (sample_session LeaseHandoff) in
  length (ls_requests (s_lease s)) = 1%nat ∧ wf_lease (s_lease s).
Proof.
  cbv zeta. split; [vm_compute; reflexivity|].
  exact (lease_step_wf 101 (human "h") (OpRequest "mine?") (sample_session LeaseHandoff) (wf_lease_new _ _ _ _ _)).
Defined.

Lemma lease_refused_no_effect_witness :
  lease_step 101 (human "h") (OpTake false) (sample_session LeaseHandoff) = sample_session LeaseHandoff.
Proof.
  eapply (lease_refused_no_effect 101 (human "h") (OpTake false) (sample_session LeaseHandoff)).
  vm_compute. reflexivity.
Defined.

Lemma lease_transfer_witness :
  let s := sample_session LeaseHumanPriority in
  holder (lease_step 101 (human "h") OpAcquire s) = "human:h"%string ∧
  (policy s = LeaseFree ∨ policy s = LeaseHumanPriority ∧ IsHuman (human "h") = true
     ∧ IsHuman (ls_holder (s_lease s)) = false).
Proof.
  apply (lease_transfer 101 (human "h") OpAcquire (sample_session LeaseHumanPriority)); vm_compute;
    try reflexivity; discriminate.
Defined.

Lemma lease_change_logged_witness :
  let s := sample_session LeaseFree in
  let s' := lease_step 101 (human "h") (OpTake false) s in
  ∃ e, s_log s' = (append 101 e (s_log s)).2 ∧ ev_Kind e = EventLease
    ∧ ev_Client e = "human:h"%string ∧ ev_Previous e = "agent:a"%string ∧ ev_Lease e = Some (Lease s').
Proof.
  apply (lease_change_logged 101 (human "h") (OpTake false) (sample_session LeaseFree)).
  left. vm_compute. discriminate.
Defined.

Lemma lease_protected_witness :
  holder (lease_run [(101, human "h", OpTake false); (102, agent "b", OpAcquire);
                     (103, human "h", OpPolicy "free" false)] (sample_session LeaseHandoff)) = "agent:a"%string.
Proof.
  apply (lease_protected _ (sample_session LeaseHandoff)); [vm_compute; discriminate|].
  intros now c op Hin. simpl in Hin.
  destruct Hin as [[= <- <- <-]|[[= <- <- <-]|[[= <- <- <-]|[]]]];
    (split; [vm_compute; discriminate|split; [reflexivity|left; reflexivity]]).
Defined.
