(* ===== verification/Anchor.v ===== *)
(** * Anchors: breakpoints by a line's text (internal/session/anchor.go)

    Finding the one line that holds a text, and scoring the lines suggested
    when none does. Which code points are letters or digits ([unicode]'s
    tables) is a parameter of the tokenizer. *)

From S2P Require Import Prelude GoStrings GoPath Api Session.
From Stdlib Require Import Ascii Bool.

Open Scope Z_scope.

Definition maxAmbiguousLines : Z := 10.
Definition maxSuggestions : Z := 3.
Definition maxScoredLines : Z := 5000.
Definition maxAnchorTokens : Z := 64.
Definition maxLineTokens : Z := 200.
Definition maxSourceFileSize : Z := 4 * 2 ^ 20.

(** [strings.Fields]: the runs of other than white space. *)
Fixpoint fields_go (l : list (Z * string)) (cur : string) : list string :=
  match l with
  | [] => if cur =?s "" then [] else [cur]
  | (r, b) :: l =>
    if is_space r then (if cur =?s "" then fields_go l "" else cur :: fields_go l "")
    else fields_go l (cur +:+ b)
  end.
Definition fields (s : string) : list string := fields_go (segs s) "".

Definition normalize (s : string) : string := join " " (fields s).

(** [strings.Contains] *)
Fixpoint contains (s sub : string) : bool :=
  has_prefix sub s || match s with EmptyString => false | String _ s' => contains s' sub end.

Definition byte_order_mark : string :=
  String (ascii_of 239) (String (ascii_of 187) (String (ascii_of 191) "")).
Definition CR : string := String (ascii_of 13) "".
Definition LF : ascii := ascii_of 10.

(** A file that can't be looked at or read is the same error. *)
Definition sourceLines (f : fs) (path : string) : result (list string) :=
  match fs_read f path with
  | Err e => Err (NewError CodeInvalidRequest ("can't read " +:+ path +:+ " to find the anchor: " +:+ e_message e))
  | Ok data =>
    if maxSourceFileSize <? slen data then
      Err (NewError CodeInvalidRequest (path +:+ " is too big to search for an anchor (" +:+ itoa (slen data)
             +:+ " bytes; the limit is " +:+ itoa maxSourceFileSize +:+ ")"))
    else Ok (map (trim_suffix CR) (split_on LF (trim_prefix byte_order_mark data)))
  end.

(** The numbers, from [i] on, of the lines whose normalized text holds [want]. *)
Fixpoint matching_lines (want : string) (i : Z) (lines : list string) : list Z :=
  match lines with
  | [] => []
  | l :: lines =>
    if contains (normalize l) want then i :: matching_lines want (i + 1) lines
    else matching_lines want (i + 1) lines
  end.

Definition ambiguous (want base : string) (found : list Z) : Error :=
  let shown := take (Z.to_nat (Z.min (Z.of_nat (length found)) maxAmbiguousLines)) found in
  let more := Z.of_nat (length found) - Z.of_nat (length shown) in
  NewError CodeAnchorAmbiguous
    (quote want +:+ " is on " +:+ itoa (Z.of_nat (length found)) +:+ " lines of " +:+ base +:+ ": "
     +:+ join ", " (map itoa shown) +:+ if 0 <? more then " and " +:+ itoa more +:+ " more" else "").

Definition resolveAnchor (f : fs) (path text : string) : result Z :=
  let want := normalize text in
  if (want =?s "") || contains_byte (ascii_of 13) text || contains_byte LF text then
    Err (NewError CodeInvalidRequest ("invalid anchor " +:+ quote text))
  else
    try lines := sourceLines f path in
    match matching_lines want 1 lines with
    | [n] => Ok n
    | [] => Err (NewError CodeAnchorNotFound ("no line of " +:+ Base path +:+ " holds " +:+ quote want))
    | found => Err (ambiguous want (Base path) found)
    end.

(** ** Suggestions *)

(** One row of [lcs]'s table: [prev] is the row before, [left] the entry to
    the left, [diag] and the head of [prev] the entries above. *)
Fixpoint lcs_row (x : string) (b : list string) (diag left : Z) (prev : list Z) : list Z :=
  match b, prev with
  | y :: b, up :: prev =>
    let c := if x =?s y then diag + 1 else if left <=? up then up else left in
    c :: lcs_row x b up c prev
  | _, _ => []
  end.
(** The rows keep the entries from column 1 on; column 0 is always 0. *)
Definition lcs_table (a b : list string) : list Z :=
  fold_left (fun prev x => lcs_row x b 0 0 prev) a (repeat 0 (length b)).
Definition lcs (a b : list string) : Z := List.last (lcs_table a b) 0.

Section tokens.
Context (isLetter isDigit : Z → bool).

Definition ident_rune (r : Z) : bool := (r =? 95) || isLetter r.

(** Tokens from the runes left: [cur] is the token being read, with the
    class of rune that continues it. *)
Fixpoint take_while (p : Z → bool) (l : list (Z * string)) : string * list (Z * string) :=
  match l with
  | (r, b) :: l' => if p r then let '(t, rest) := take_while p l' in (b +:+ t, rest) else (""%string, l)
  | [] => (""%string, [])
  end.
Fixpoint tokens_go (fuel : nat) (l : list (Z * string)) (limit : nat) : list string :=
  match fuel, limit, l with
  | S fuel, S limit', (r, b) :: l' =>
    if is_space r then tokens_go fuel l' limit
    else
      let '(t, rest) :=
        if ident_rune r then take_while (fun r => ident_rune r || isDigit r) l'
        else if isDigit r then take_while isDigit l'
        else (""%string, l') in
      (b +:+ t) :: tokens_go fuel rest limit'
  | _, _, _ => []
  end.
Definition tokens (s : string) (limit : Z) : list string :=
  tokens_go (length (segs s)) (segs s) (Z.to_nat limit).

Definition isIdentToken (t : string) : bool :=
  match runes t with r :: _ => ident_rune r | [] => ident_rune rune_error end.

Definition sharesIdent (lt idents : list string) : bool :=
  existsb (fun t => bool_decide (t ∈ idents)) lt.

(** The scoring loop: the lines from number [i] on, [scored] of them scored
    so far. A score of [s] common tokens of [n] is at least one half when
    [2 * s >= n]. *)
Fixpoint score_lines (want idents : list string) (i scored : Z) (lines : list string) : list (Z * Z) :=
  match lines with
  | [] => []
  | l :: lines =>
    if maxScoredLines <=? scored then []
    else
      let lt := tokens l maxLineTokens in
      let n := Z.of_nat (length want) in
      if negb (sharesIdent lt idents) || (2 * Z.min (Z.of_nat (length lt)) n <? n)
      then score_lines want idents (i + 1) scored lines
      else
        let s := lcs want lt in
        let rest := score_lines want idents (i + 1) (scored + 1) lines in
        if n <=? 2 * s then (i, s) :: rest else rest
  end.

(** Stable, best first: insertion behind the entries that score as well. *)
Fixpoint insert_score (x : Z * Z) (l : list (Z * Z)) : list (Z * Z) :=
  match l with
  | [] => [x]
  | y :: l' => if y.2 <? x.2 then x :: l else y :: insert_score x l'
  end.

Definition closestLines (lines : list string) (want : string) (n : Z) : list Z :=
  match tokens want maxAnchorTokens with
  | [] => []
  | wantTokens =>
    let idents := List.filter isIdentToken wantTokens in
    let best := fold_left (fun acc x => insert_score x acc) (score_lines wantTokens idents 1 0 lines) [] in
    map fst (take (Z.to_nat n) best)
  end.
End tokens.

(** [staleNote]: [since] is the session's start. *)
Definition staleNote (f : fs) (path : string) (since : Z) : string :=
  match fs_mtime f path with
  | None => ""
  | Some t => if t <=? since then "" else
    Base path +:+ " changed after the session started: the program runs the code it was built from, so this line may not match it (restart the session to debug the new code)"
  end.

(** ** The line found *)

Lemma matching_lines_spec want i lines n :
  In n (matching_lines want i lines) ↔
  ∃ k l, n = i + Z.of_nat k ∧ lines !! k = Some l ∧ contains (normalize l) want = true.
Proof.
  revert i. induction lines as [|l lines IH]; intros i.
  - cbn. split; [done|]. intros (k & l & _ & Hk & _). by rewrite lookup_nil in Hk.
  - cbn [matching_lines]. assert (Hrest : In n (matching_lines want (i + 1) lines) ↔
      ∃ k l', n = i + Z.of_nat (S k) ∧ lines !! k = Some l' ∧ contains (normalize l') want = true).
    { rewrite IH. split; intros (k & l' & -> & ?); exists k, l'; (split; [lia|done]). }
    destruct (contains (normalize l) want) eqn:E.
    + cbn [In]. rewrite Hrest. split.
      * intros [<-|(k & l' & H)]; [exists 0%nat, l; split_and!; [lia|done|done]|by exists (S k), l'].
      * intros ([|k] & l' & Hn & Hk & Hc); [left; lia|right; by exists k, l'].
    + rewrite Hrest. split; [intros (k & l' & H); by exists (S k), l'|].
      intros ([|k] & l' & Hn & Hk & Hc); [cbn in Hk; congruence|by exists k, l'].
Qed.

Lemma matching_lines_NoDup want i lines : List.NoDup (matching_lines want i lines).
Proof.
  revert i. induction lines as [|l lines IH]; intros i; cbn [matching_lines]; [constructor|].
  destruct (contains _ _); [|done]. constructor; [|done].
  intros (k & l' & H & _)%matching_lines_spec. lia.
Qed.

(** A line, by number from 1, that holds the anchor. *)
Definition holds_anchor (lines : list string) (text : string) (n : Z) : Prop :=
  ∃ l, 1 ≤ n ∧ lines !! Z.to_nat (n - 1) = Some l ∧ contains (normalize l) (normalize text) = true.

Lemma matching_holds lines text n : In n (matching_lines (normalize text) 1 lines) ↔ holds_anchor lines text n.
Proof.
  rewrite matching_lines_spec. unfold holds_anchor. split.
  - intros (k & l & -> & Hk & Hc). exists l. split_and!; [lia| |done]. by replace (Z.to_nat (1 + Z.of_nat k - 1)) with k by lia.
  - intros (l & Hn & Hk & Hc). exists (Z.to_nat (n - 1)), l. split_and!; [lia|done|done].
Qed.

(** An anchor resolves to a line exactly when that is the only line that
    holds it; no line and several lines are told apart by the error's code. *)
Theorem resolveAnchor_spec f path text lines :
  sourceLines f path = Ok lines →
  normalize text ≠ ""%string → contains_byte (ascii_of 13) text = false → contains_byte LF text = false →
  match resolveAnchor f path text with
  | Ok n => ∀ m, holds_anchor lines text m ↔ m = n
  | Err e =>
    e_code e = CodeAnchorNotFound ∧ (∀ m, ¬ holds_anchor lines text m)
    ∨ e_code e = CodeAnchorAmbiguous ∧ ∃ m m', m ≠ m' ∧ holds_anchor lines text m ∧ holds_anchor lines text m'
  end.
Proof.
  intros Hl Hw%String.eqb_neq Hcr Hlf. unfold resolveAnchor. rewrite Hw, Hcr, Hlf, Hl. cbn [orb rbind].
  pose proof (matching_lines_NoDup (normalize text) 1 lines) as Hnd.
  assert (Hm : ∀ m, holds_anchor lines text m ↔ In m (matching_lines (normalize text) 1 lines))
    by (intros m; symmetry; apply matching_holds).
  destruct (matching_lines _ 1 lines) as [|n [|n' found]].
  - left. split; [done|]. by intros m []%Hm.
  - intros m. rewrite Hm. split; [intros [->|[]]; done|intros ->; by left].
  - right. split; [done|]. exists n, n'. inversion Hnd as [|? ? Hn _]; subst. split_and!.
    + intros ->. apply Hn. by left.
    + apply Hm. by left.
    + apply Hm. right. by left.
Qed.

(** ** The longest common subsequence *)

(** [n] is the length of a longest list that is a subsequence of both. *)
Definition optimal (n : Z) (a b : list string) : Prop :=
  (∃ c, c `sublist_of` a ∧ c `sublist_of` b ∧ Z.of_nat (length c) = n)
  ∧ ∀ c, c `sublist_of` a → c `sublist_of` b → Z.of_nat (length c) ≤ n.

Lemma sublist_snoc_inv {A} (c a : list A) x :
  c `sublist_of` a ++ [x] → c `sublist_of` a ∨ ∃ c', c = c' ++ [x] ∧ c' `sublist_of` a.
Proof.
  intros (c1 & c2 & -> & H1 & H2)%sublist_app_r. apply sublist_cons_r in H2 as [H2|(k & -> & H2)].
  - apply sublist_nil_r in H2 as ->. rewrite app_nil_r. by left.
  - apply sublist_nil_r in H2 as ->. right. by exists c1.
Qed.

Lemma optimal_nil_l b : optimal 0 [] b.
Proof.
  split; [exists []; split_and!; [done|apply sublist_nil_l|done]|].
  intros c ->%sublist_nil_r _. done.
Qed.
Lemma optimal_nil_r a : optimal 0 a [].
Proof.
  split; [exists []; split_and!; [apply sublist_nil_l|done|done]|].
  intros c _ ->%sublist_nil_r. done.
Qed.

Lemma optimal_eq n a b x : optimal n a b → optimal (n + 1) (a ++ [x]) (b ++ [x]).
Proof.
  intros [(c & Ha & Hb & Hn) Hmax]. split.
  - exists (c ++ [x]). rewrite length_app. split_and!; [by apply sublist_app|by apply sublist_app|simpl; lia].
  - intros c' [Ha'|(c1 & -> & Ha')]%sublist_snoc_inv [Hb'|(c2 & Hc & Hb')]%sublist_snoc_inv.
    + specialize (Hmax c' Ha' Hb'). lia.
    + subst c'. rewrite length_app. simpl. assert (c2 `sublist_of` a) as H2.
      { etrans; [|exact Ha']. apply sublist_inserts_r. done. }
      specialize (Hmax c2 H2 Hb'). lia.
    + rewrite length_app. simpl. assert (c1 `sublist_of` b) as H1.
      { etrans; [|exact Hb']. apply sublist_inserts_r. done. }
      specialize (Hmax c1 Ha' H1). lia.
    + apply app_inj_tail in Hc as [-> _]. rewrite length_app. simpl. specialize (Hmax c2 Ha' Hb'). lia.
Qed.

Lemma optimal_ne n m a b x y :
  x ≠ y → optimal n a (b ++ [y]) → optimal m (a ++ [x]) b → optimal (Z.max n m) (a ++ [x]) (b ++ [y]).
Proof.
  intros Hxy [(c1 & Ha1 & Hb1 & Hn) Hmax1] [(c2 & Ha2 & Hb2 & Hm) Hmax2]. split.
  - destruct (Z.max_spec n m) as [[_ ->]|[_ ->]].
    + exists c2. split_and!; [done|by apply sublist_inserts_r|done].
    + exists c1. split_and!; [by apply sublist_inserts_r|done|done].
  - intros c Ha Hb. destruct (sublist_snoc_inv _ _ _ Ha) as [Ha'|(c' & -> & Ha')].
    { specialize (Hmax1 c Ha' Hb). lia. }
    destruct (sublist_snoc_inv _ _ _ Hb) as [Hb'|(c'' & Hc & Hb')].
    { specialize (Hmax2 _ Ha Hb'). lia. }
    apply app_inj_tail in Hc as [_ ->]. done.
Qed.

(** A row of the table: entry [j] is for the first [j + 1] of [b], behind [b0]. *)
Definition row_ok (a b0 b : list string) (row : list Z) : Prop :=
  length row = length b ∧ ∀ j v, row !! j = Some v → optimal v a (b0 ++ take (S j) b).

Lemma lcs_row_ok a x b0 b diag left prev :
  optimal diag a b0 → optimal left (a ++ [x]) b0 → row_ok a b0 b prev →
  row_ok (a ++ [x]) b0 b (lcs_row x b diag left prev).
Proof.
  revert b0 diag left prev. induction b as [|y b IH]; intros b0 diag left prev Hd Hl [Hlen Hrow].
  { by split. }
  destruct prev as [|up prev]; [done|]. cbn [lcs_row].
  set (c := if x =?s y then diag + 1 else if left <=? up then up else left).
  assert (Hup : optimal up a (b0 ++ [y])) by exact (Hrow 0%nat up eq_refl).
  assert (Hc : optimal c (a ++ [x]) (b0 ++ [y])).
  { unfold c. destruct (String.eqb_spec x y) as [->|Hxy]; [by apply optimal_eq|].
    replace (if left <=? up then up else left) with (Z.max up left) by (destruct (Z.leb_spec left up); lia).
    by apply optimal_ne. }
  destruct (IH (b0 ++ [y]) up c prev) as [Hlen' Hrow']; [done|done| |].
  { split; [simpl in Hlen; lia|]. intros j v Hj. specialize (Hrow (S j) v Hj).
    rewrite <- app_assoc. exact Hrow. }
  split; [simpl; lia|]. intros [|j] v Hj; simpl in Hj; [by injection Hj as <-|].
  specialize (Hrow' j v Hj). rewrite <- app_assoc in Hrow'. exact Hrow'.
Qed.

Lemma lcs_table_ok a b : row_ok a [] b (lcs_table a b).
Proof.
  unfold lcs_table. induction a as [|x a IH] using rev_ind.
  - split; [simpl; apply repeat_length|]. intros j v Hj. simpl in Hj.
    apply repeat_spec with (n := length b) (x := 0) in Hj || idtac.
    assert (v = 0) as ->; [|apply optimal_nil_l].
    apply list_elem_of_lookup_2, list_elem_of_In, repeat_spec in Hj. done.
  - rewrite fold_left_app. cbn [fold_left]. apply lcs_row_ok; [apply optimal_nil_r|apply optimal_nil_r|done].
Qed.

(** The two-row table computes the length of a longest common subsequence. *)
Theorem lcs_correct a b : optimal (lcs a b) a b.
Proof.
  destruct (lcs_table_ok a b) as [Hlen Hrow]. unfold lcs.
  destruct (decide (b = [])) as [->|Hb].
  - destruct (lcs_table a []); [|done]. apply optimal_nil_r.
  - destruct (exists_last (l := lcs_table a b)) as (row & v & Hrv).
    { intros E. rewrite E in Hlen. by destruct b. }
    rewrite Hrv in *. rewrite List.last_last. rewrite length_app in Hlen. simpl in Hlen.
    specialize (Hrow (length row) v). rewrite lookup_app_r, Nat.sub_diag in Hrow by lia.
    specialize (Hrow eq_refl). simpl in Hrow. rewrite firstn_all2 in Hrow by lia. done.
Qed.

(** ** Witnesses *)

Definition sample_file : string :=
  join (String LF "") ["int Main() {"; "  total +=  price;"; "  total = 0;"; "}"].
Definition sample_fs : fs :=
  mkFs Some (fun _ => true) (fun _ => Ok sample_file) (fun _ => None) String.eqb.

Lemma resolveAnchor_spec_witness :
  resolveAnchor sample_fs "/src/P.cs" "total   += price" = Ok 2
  ∧ ∀ m, holds_anchor (split_on LF sample_file) "total   += price" m ↔ m = 2.
Proof.
  split; [vm_compute; reflexivity|].
  pose proof (resolveAnchor_spec sample_fs "/src/P.cs" "total   += price" (split_on LF sample_file)) as H.
  assert (E : resolveAnchor sample_fs "/src/P.cs" "total   += price" = Ok 2) by (vm_compute; reflexivity).
  rewrite E in H. apply H; [vm_compute; reflexivity|vm_compute; discriminate|reflexivity|reflexivity].
Defined.
