(* ===== verification/Present.v ===== *)
(** * Fitting output and events to a size (internal/present/events.go)

    Cutting text on rune boundaries, keeping as many items as fit a byte
    limit, and the two users of both: output chunks and events. The JSON
    encoder's sizes are exact for output chunks; for events, whose encoding
    nothing else depends on, [jsonSize] is the size function's argument. *)

From S2P Require Import Prelude GoStrings Api.
From Stdlib Require Import Ascii Bool.

Open Scope Z_scope.

Definition MaxResultBytes : Z := 512 * 1024.
Definition EventTextLimit : Z := 1000.
Definition CharsPerToken : Z := 4.

(** The loops of [CutText]: the next boundary from byte [i] on ([s] is what
    starts there), and the last one at most at [i]. *)
Fixpoint next_boundary (s : string) : nat :=
  match s with
  | EmptyString => 0
  | String c s' => if rune_start c then 0 else S (next_boundary s')
  end.
Fixpoint prev_boundary (s : string) (i : nat) : nat :=
  match i with
  | O => O
  | S j => match snth i s with
           | Some c => if rune_start c then i else prev_boundary s j
           | None => i
           end
  end.

Definition CutText (s : string) (n : Z) (keepEnd : bool) : string :=
  if slen s <=? n then s
  else if keepEnd then
    let i := (String.length s - Z.to_nat n)%nat in
    sdrop (i + next_boundary (sdrop i s)) s
  else stake (prev_boundary s (Z.to_nat n)) s.

Section fit.
Context {T : Type}.
Implicit Types (items : list T) (size : T → Z).

(** [fit]'s loop over the items in the order it visits them; [n] of them,
    of size [total], have been counted. *)
Fixpoint fit_go (limit : Z) (size : T → Z) (items : list T) (n : nat) (total : Z) : nat :=
  match items with
  | [] => n
  | x :: rest =>
    let total := total + size x in
    if (limit <? total) && (0 <? n)%nat then n else fit_go limit size rest (S n) total
  end.
Definition fit (items : list T) (limit : Z) (fromEnd : bool) (size : T → Z) : nat :=
  fit_go limit size (if fromEnd then rev items else items) 0 0.

(** The [n] items kept: the oldest, or the newest. *)
Definition keep (items : list T) (n : nat) (newest : bool) : list T :=
  if newest then drop (length items - n) items else take n items.
End fit.

(** The size of a string as JSON: quotes, and the escapes of [encoding/json]
    (which also escapes HTML's special characters). *)
Definition json_rune_size (x : Z * string) : Z :=
  let '(r, b) := x in
  if (r =? rune_error) && (String.length b =? 1)%nat then 6
  else if (r =? 34) || (r =? 92) || (r =? 8) || (r =? 9) || (r =? 10) || (r =? 12) || (r =? 13) then 2
  else if (r <? 32) || (r =? 60) || (r =? 62) || (r =? 38) || (r =? 8232) || (r =? 8233) then 6
  else slen b.
Definition json_string_size (s : string) : Z := 2 + list_sum_Z json_rune_size (segs s).

(** [jsonSize] of an [api.OutputLine]. *)
Definition jsonSize_line (l : OutputLine) : Z :=
  slen "{'seq':,'category':,'text':}" + slen (itoa (ol_Seq l))
  + json_string_size (ol_Category l) + json_string_size (ol_Text l).

Definition CapOutput (lines : list OutputLine) (maxBytes : Z) (newest : bool) : list OutputLine * Z :=
  let n := fit lines maxBytes newest jsonSize_line in
  let kept := keep lines n newest in
  let kept := match kept with
              | [l] => if (n =? 1)%nat && (maxBytes <? jsonSize_line l)
                       then [l <| ol_Text := CutText (ol_Text l) maxBytes newest |>] else kept
              | _ => kept
              end in
  (kept, Z.of_nat (length lines - n)).

Definition ellipsis : string := String (ascii_of 226) (String (ascii_of 128) (String (ascii_of 166) "")).

(** [string([]rune(s)[:n])]: each rune encoded again, so that bytes that are
    no UTF-8 become U+FFFD. *)
Definition rune_error_bytes : string :=
  String (ascii_of 239) (String (ascii_of 191) (String (ascii_of 189) "")).
Definition reencode (x : Z * string) : string :=
  if (x.1 =? rune_error) && (String.length x.2 =? 1)%nat then rune_error_bytes else x.2.
Definition cut_runes (n : nat) (s : string) : string := String.concat "" (map reencode (take n (segs s))).

Definition cut_event (e : Event) : Event :=
  if EventTextLimit <? rune_count (ev_Text e)
  then e <| ev_Text := cut_runes (Z.to_nat EventTextLimit) (ev_Text e) |> <| ev_Truncated := true |>
  else e.

(** The byte limit of a budget; the product is an [int]. *)
Definition shape_limit (budget : Z) : Z :=
  if 0 <? budget then Z.min MaxResultBytes (wrap64 (budget * CharsPerToken)) else MaxResultBytes.

(** [shapeEvents]: [upd_event] applies a function to an item's event. *)
Definition shapeEvents {T} (jsonSize : T → Z) (upd_event : (Event → Event) → T → T)
    (events : list T) (budget : Z) (newest : bool) : list T * Z :=
  let out := map (upd_event cut_event) events in
  let n := fit out (shape_limit budget) newest jsonSize in
  (keep out n newest, Z.of_nat (length out - n)).
Definition ShapeEvents (jsonSize : Event → Z) := shapeEvents jsonSize (fun f e => f e).
Definition ShapeGroupEvents (jsonSize : GroupEvent → Z) :=
  shapeEvents jsonSize (fun f (g : GroupEvent) => g <| ge_Event ::= f |>).

(** ** Cutting text *)

Lemma next_boundary_spec s :
  (next_boundary s ≤ String.length s)%nat ∧ boundary s (next_boundary s)
  ∧ ∀ j, (j < next_boundary s)%nat → ¬ boundary s j.
Proof.
  unfold boundary. induction s as [|c s (IH1 & IH2 & IH3)]; simpl.
  - split_and!; [lia|done|lia].
  - destruct (rune_start c) eqn:E; simpl; [rewrite E; split_and!; [lia|done|lia]|].
    split_and!; [lia|done|]. intros [|j] Hj; simpl; [congruence|]. apply IH3. lia.
Qed.

Lemma prev_boundary_spec s i :
  (prev_boundary s i ≤ i)%nat ∧ (boundary s (prev_boundary s i) ∨ prev_boundary s i = 0%nat)
  ∧ ∀ j, (prev_boundary s i < j ≤ i)%nat → ¬ boundary s j.
Proof.
  induction i as [|i (IH1 & IH2 & IH3)]; cbn [prev_boundary].
  - split_and!; [lia|by right|lia].
  - unfold boundary at 1 in IH2. destruct (snth (S i) s) as [c|] eqn:E.
    2:{ split_and!; [lia|left; unfold boundary; by rewrite E|lia]. }
    destruct (rune_start c) eqn:Es.
    { split_and!; [lia|left; unfold boundary; by rewrite E|lia]. }
    split_and!; [lia|done|]. intros j Hj. destruct (decide (j = S i)) as [->|].
    + unfold boundary. rewrite E. congruence.
    + apply IH3. lia.
Qed.

Lemma valid_boundary_0 s : valid_utf8 s = true → boundary s 0.
Proof.
  intros Hv%valid_runes_of. destruct Hv as [|b r s l (c & t & -> & Hc & _) _]; [done|].
  done.
Qed.

Lemma snth_sdrop i j s : snth j (sdrop i s) = snth (i + j) s.
Proof.
  revert i. induction s as [|c s IH]; intros [|i]; simpl; try (by destruct j); apply IH.
Qed.

Lemma boundary_sdrop i j s : boundary (sdrop i s) j ↔ boundary s (i + j).
Proof. unfold boundary. by rewrite snth_sdrop. Qed.

Lemma sdrop_next_boundary s i :
  valid_utf8 s = true → (i ≤ String.length s)%nat →
  valid_utf8 (sdrop (i + next_boundary (sdrop i s)) s) = true ∧ (next_boundary (sdrop i s) ≤ 3)%nat.
Proof.
  intros Hv Hi. pose proof (next_boundary_spec (sdrop i s)) as (H1 & H2 & H3).
  rewrite sdrop_length in H1. apply boundary_sdrop in H2. split; [by apply cut_valid|].
  destruct (decide (i + 3 ≤ String.length s)%nat) as [Hle|]; [|lia].
  destruct (boundary_near s (i + 3) Hv Hle) as (j & Hj & Hb).
  apply Nat.nlt_ge. intros Hlt. apply (H3 (j - i)%nat); [lia|].
  apply boundary_sdrop. by replace (i + (j - i))%nat with j by lia.
Qed.

Lemma stake_prev_boundary s i :
  valid_utf8 s = true → (i ≤ String.length s)%nat →
  valid_utf8 (stake (prev_boundary s i) s) = true ∧ (i ≤ prev_boundary s i + 3)%nat.
Proof.
  intros Hv Hi. pose proof (prev_boundary_spec s i) as (H1 & H2 & H3).
  split.
  - apply cut_valid; [done|]. destruct H2 as [H2| ->]; [done|by apply valid_boundary_0].
  - destruct (boundary_near s i Hv Hi) as (j & Hj & Hb).
    apply Nat.nlt_ge. intros Hlt. apply (H3 j); [lia|done].
Qed.

Lemma cut_text_ok s n keepEnd :
  0 ≤ n →
  let t := CutText s n keepEnd in
  (if keepEnd then ∃ p, s = p +:+ t else ∃ q, s = t +:+ q)
  ∧ slen t ≤ n ∧ (slen s ≤ n → t = s)
  ∧ (valid_utf8 s = true → valid_utf8 t = true ∧ (n < slen s → n - 3 ≤ slen t)).
Proof.
  intros Hn t. unfold t, CutText, slen. clear t. destruct (Z.leb_spec (Z.of_nat (String.length s)) n) as [Hle|Hgt].
  { split; [destruct keepEnd; [by exists ""|by exists ""; rewrite string_app_nil_r]|].
    split_and!; [done|done|]. intros Hv. split; [done|lia]. }
  destruct keepEnd.
  - set (i := (String.length s - Z.to_nat n)%nat).
    split; [eexists; symmetry; apply stake_sdrop|]. rewrite sdrop_length. split_and!; [lia|lia|]. intros Hv.
    destruct (sdrop_next_boundary s i Hv ltac:(lia)) as [Hok Hk]. split; [done|lia].
  - pose proof (prev_boundary_spec s (Z.to_nat n)) as (H1 & _).
    split; [eexists; symmetry; apply stake_sdrop|]. rewrite stake_length. split_and!; [lia|lia|]. intros Hv.
    destruct (stake_prev_boundary s (Z.to_nat n) Hv ltac:(lia)) as [Hok Hk]. split; [done|lia].
Qed.

(** [CutText] keeps a start (or end) of the text of at most [n] bytes;
    valid UTF-8 stays valid, and then at most three bytes fewer than [n] are
    kept. *)
Theorem CutText_spec s n keepEnd :
  0 ≤ n →
  let t := CutText s n keepEnd in
  (if keepEnd then ∃ p, s = p +:+ t else ∃ q, s = t +:+ q)
  ∧ slen t ≤ n ∧ (slen s ≤ n → t = s)
  ∧ (valid_utf8 s = true → valid_utf8 t = true ∧ (n < slen s → n - 3 ≤ slen t)).
Proof. apply cut_text_ok. Qed.

(** ** Keeping what fits *)

Section fit_facts.
Context {T : Type} (size : T → Z) (limit : Z).

Definition total (items : list T) : Z := list_sum_Z size items.

Lemma fit_go_spec items n0 tot :
  (1 ≤ n0)%nat →
  let n := (fit_go limit size items n0 tot - n0)%nat in
  (n0 ≤ fit_go limit size items n0 tot ≤ n0 + length items)%nat
  ∧ ((tot ≤ limit ∨ (1 ≤ n)%nat) → tot + total (take n items) ≤ limit)
  ∧ ((n < length items)%nat → limit < tot + total (take (S n) items)).
Proof.
  revert n0 tot. induction items as [|x items IH]; intros n0 tot Hn0; cbn zeta; cbn [fit_go].
  { simpl. unfold total. rewrite Nat.sub_diag, take_nil. simpl. split_and!; [lia|lia| |lia]. intros [?|?]; lia. }
  replace (0 <? n0)%nat with true by (symmetry; apply Nat.ltb_lt; lia). rewrite andb_true_r.
  destruct (Z.ltb_spec limit (tot + size x)) as [E|E].
  { rewrite Nat.sub_diag. unfold total. simpl. rewrite ?take_0. simpl. split_and!; [lia|lia|intros [?|?]; lia|lia]. }
  destruct (IH (S n0) (tot + size x) ltac:(lia)) as (H1 & H2 & H3).
  set (r := fit_go limit size items (S n0) (tot + size x)) in *.
  assert (Hr : (r - n0 = S (r - S n0))%nat) by lia.
  rewrite Hr. unfold total in *. simpl length. cbn [take list_sum_Z foldr]. fold (list_sum_Z size).
  split_and!; [lia|lia| |].
  - intros _. specialize (H2 (or_introl E)). unfold list_sum_Z in *. lia.
  - intros Hlt. specialize (H3 ltac:(lia)). unfold list_sum_Z in *. simpl in *. lia.
Qed.

(** [fit] counts the longest run of items, in the order visited, that is one
    item or fits the limit. *)
Lemma fit_spec items fromEnd :
  let n := fit items limit fromEnd size in
  let visited := if fromEnd then rev items else items in
  (n ≤ length items)%nat ∧ (items ≠ [] → (1 ≤ n)%nat)
  ∧ ((2 ≤ n)%nat → total (take n visited) ≤ limit)
  ∧ ((n < length items)%nat → limit < total (take (S n) visited)).
Proof.
  cbn zeta. unfold fit. set (visited := if fromEnd then rev items else items).
  assert (Hlen : length visited = length items) by (unfold visited; destruct fromEnd; [apply length_rev|done]).
  rewrite <- Hlen. assert (Hne : items ≠ [] → visited ≠ []).
  { intros Hne. destruct items; [done|]. by destruct visited. }
  destruct visited as [|x vs]; [split_and!; [simpl; lia|intros H; by destruct Hne|simpl; lia|simpl; lia]|].
  cbn [fit_go]. rewrite andb_false_r. clear Hlen Hne.
  destruct (fit_go_spec vs 1 (0 + size x) ltac:(lia)) as (H1 & H2 & H3).
  set (r := fit_go limit size vs 1 (0 + size x)) in *.
  destruct r as [|r]; [lia|]. rewrite Nat.sub_succ, Nat.sub_0_r in H2, H3. unfold total in *. simpl length.
  cbn [take list_sum_Z foldr]. unfold list_sum_Z in *. split_and!; [lia|lia| |].
  - intros. specialize (H2 ltac:(lia)). lia.
  - intros. specialize (H3 ltac:(lia)). simpl in *. lia.
Qed.

Lemma length_keep (items : list T) n newest : (n ≤ length items)%nat → length (keep items n newest) = n.
Proof. intros H. unfold keep. destruct newest; [rewrite length_drop|rewrite length_take]; lia. Qed.

Lemma total_rev l : total (rev l) = total l.
Proof. unfold total. induction l as [|x l IH]; [done|]. simpl. rewrite list_sum_Z_app, IH. simpl. lia. Qed.

Lemma keep_visited (items : list T) n (newest : bool) :
  (n ≤ length items)%nat → total (take n (if newest then rev items else items)) = total (keep items n newest).
Proof.
  intros H. destruct newest; [|done]. unfold keep.
  rewrite List.firstn_rev. apply total_rev.
Qed.
End fit_facts.

(** Output chunks are cut to a contiguous end of what there is (its newest
    or oldest), never empty, whose JSON fits the limit, unless it is one chunk,
    whose text is then at most the limit long; the rest is counted. *)
Theorem CapOutput_spec lines maxBytes newest :
  0 ≤ maxBytes → lines ≠ [] →
  let '(kept, omitted) := CapOutput lines maxBytes newest in
  Z.of_nat (length kept) + omitted = Z.of_nat (length lines)
  ∧ kept ≠ []
  ∧ (total jsonSize_line kept ≤ maxBytes ∧ kept = keep lines (length kept) newest
     ∨ ∃ l l', kept = [l'] ∧ keep lines 1 newest = [l] ∧ slen (ol_Text l') ≤ maxBytes
         ∧ ol_Text l' = CutText (ol_Text l) maxBytes newest ∧ ol_Seq l' = ol_Seq l)
  ∧ (0 < omitted → ∃ more, more ≠ [] ∧ maxBytes < total jsonSize_line more
       ∧ more = keep lines (S (length kept)) newest).
Proof.
  intros Hmax Hne. unfold CapOutput.
  destruct (fit_spec jsonSize_line maxBytes lines newest) as (H1 & H2 & H3 & H4).
  cbv zeta in *. set (n := fit lines maxBytes newest jsonSize_line) in *. specialize (H2 Hne).
  rewrite (keep_visited jsonSize_line) in H3 by done.
  pose proof (length_keep lines n newest H1) as Hlen.
  assert (Hmore : (n < length lines)%nat → maxBytes < total jsonSize_line (keep lines (S n) newest)).
  { intros H. rewrite <- (keep_visited jsonSize_line) by lia. by apply H4. }
  assert (Hrest : 0 < Z.of_nat (length lines - n) → ∃ more, more ≠ [] ∧ maxBytes < total jsonSize_line more
            ∧ more = keep lines (S n) newest).
  { intros H. exists (keep lines (S n) newest). split_and!; [|apply Hmore; lia|done].
    intros Hnil. pose proof (length_keep lines (S n) newest ltac:(lia)) as Hl. by rewrite Hnil in Hl. }
  destruct (keep lines n newest) as [|l [|l2 rest]] eqn:Ek; simpl in Hlen; [lia| |].
  - assert (Hn : n = 1%nat) by lia. rewrite Hn in *. cbn [Nat.eqb andb].
    destruct (Z.ltb_spec maxBytes (jsonSize_line l)) as [Hbig|Hfit].
    + split_and!; [simpl; lia|done| |done]. right. exists l, (l <| ol_Text := CutText (ol_Text l) maxBytes newest |>).
      split_and!; [done|done| |done|done]. by apply (cut_text_ok (ol_Text l) maxBytes newest Hmax).
    + split_and!; [simpl; lia|done| |done]. left. split; [unfold total; simpl; lia|done].
  - assert (Hl : length (l :: l2 :: rest) = n) by done. rewrite Hl.
    split_and!; [lia|done| |done]. left. split; [apply H3; lia|done].
Qed.

Lemma CutText_spec_witness :
  let t := CutText (String (ascii_of 195) (String (ascii_of 169) "abc")) 1 false in
  t = ""%string ∧ slen t ≤ 1.
Proof.
  cbv zeta. split; [vm_compute; reflexivity|].
  destruct (CutText_spec (String (ascii_of 195) (String (ascii_of 169) "abc")) 1 false) as (_ & H & _); [lia|exact H].
Defined.

Lemma CapOutput_spec_witness :
  let lines := [mkOutputLine 1 "stdout" "hello"; mkOutputLine 2 "stdout" "a longer line of output"] in
  let '(kept, omitted) := CapOutput lines 60 true in
  omitted = 1 ∧ Z.of_nat (length kept) + omitted = 2.
Proof.
  cbv zeta.
  pose proof (CapOutput_spec [mkOutputLine 1 "stdout" "hello"; mkOutputLine 2 "stdout" "a longer line of output"] 60 true
    ltac:(lia) ltac:(discriminate)) as H.
  destruct (CapOutput _ _ _) as [kept omitted] eqn:E.
  split; [vm_compute in E; congruence|apply H].
Defined.
