(* ===== verification/Fit.v ===== *)
(** * Fitting variable trees to a budget, and diffing them (internal/present/budget.go, diff.go)

    [Fit] works breadth-first over a queue of levels, each with a pointer to
    where its variables go. A pointer into the result is a path here: the
    indices from the roots down to the variable whose members a level is. *)

From S2P Require Import Prelude GoStrings Api Present.
From Stdlib Require Import Bool.

Open Scope Z_scope.

(** [NewFitter]: the characters left; negative: no budget. *)
Definition NewFitter (tokens : Z) : Z := if tokens <=? 0 then -1 else wrap64 (tokens * CharsPerToken).

(** The product wraps around: 2^61 tokens are no budget, 2^62 are no room. *)
Lemma NewFitter_overflow : NewFitter (2 ^ 61) < 0 ∧ NewFitter (2 ^ 62) = 0.
Proof. by vm_compute. Qed.

Definition cost (v : Var) (indent : Z) : Z :=
  2 * indent + slen (v_Name v) + slen (v_Type v) + slen (v_Value v) + slen (v_Previous v) + 8.

Record level := mkLevel { lv_path : list nat; lv_src : list Var; lv_extra : Z; lv_indent : Z }.

(** What a level's pointers reach: a list of variables and its count of more. *)
Abbreviation place := (list Var * Z)%type.
Fixpoint upd_at (p : list nat) (f : place → place) (d : place) : place :=
  match p with
  | [] => f d
  | i :: p =>
    (alter (fun v => let cm := upd_at p f (v_Children v, v_More v) in
                     v <| v_Children := cm.1 |> <| v_More := cm.2 |>) i d.1, d.2)
  end.

Definition bare (v : Var) : Var := v <| v_Children := [] |> <| v_More := 0 |>.

(** The loop over a level's variables: those kept, the characters left, and
    whether it was cut. *)
Fixpoint fit_level (indent room : Z) (src : list Var) : list Var * Z * bool :=
  match src with
  | [] => ([], room, false)
  | v :: src =>
    if room <? cost v indent then ([], room, true)
    else let '(kept, room, cut) := fit_level indent (room - cost v indent) src in
         (bare v :: kept, room, cut)
  end.

(** The levels queued for the members of [src], from index [i] on. *)
Fixpoint child_levels (p : list nat) (indent : Z) (i : nat) (src : list Var) : list level :=
  match src with
  | [] => []
  | v :: src =>
    let rest := child_levels p indent (S i) src in
    match v_Children v with
    | [] => rest
    | cs => mkLevel (p ++ [i]) cs (v_More v) indent :: rest
    end
  end.

Fixpoint fit_loop (fuel : nat) (queue : list level) (room : Z) (dst : place) : place * Z * bool :=
  match fuel, queue with
  | S fuel, lv :: queue =>
    let '(kept, room, cut) := fit_level (lv_indent lv) room (lv_src lv) in
    let n := length kept in
    if cut : bool then
      let more := if (n =? 0)%nat && (0 <? lv_indent lv) then 0
                  else Z.of_nat (length (lv_src lv) - n) + lv_extra lv in
      (upd_at (lv_path lv) (fun d => (kept, d.2 + more)) dst, room, true)
    else
      fit_loop fuel (queue ++ child_levels (lv_path lv) (lv_indent lv + 1) 0 (lv_src lv)) room
        (upd_at (lv_path lv) (fun d => (kept, d.2 + lv_extra lv)) dst)
  | _, _ => (dst, room, false)
  end.

(** A level per variable and one for the roots. *)
Fixpoint var_count (v : Var) : nat :=
  match v with mkVar _ _ _ _ cs _ _ _ => S (list_sum (map var_count cs)) end.
Definition fit_fuel (vars : list Var) : nat := S (list_sum (map var_count vars)).

(** [Fit]: what is kept, how many are omitted, whether anything was cut, and
    the characters left. *)
Definition Fit (room : Z) (vars : list Var) : (list Var * Z * bool) * Z :=
  if room <? 0 then ((vars, 0, false), room)
  else
    let '(dst, room, cut) := fit_loop (fit_fuel vars) [mkLevel [] vars 0 0] room ([], 0) in
    ((dst.1, dst.2, cut), room).

(** ** Diff *)

Definition ChangeNew : string := "new".
Definition ChangeChanged : string := "changed".
Definition Diff (prev cur : list Var) : list Var :=
  let before : gmap string Var := fold_left (fun m v => <[v_Name v := v]> m) prev ∅ in
  omap (fun v =>
    let v := bare v in
    match before !! v_Name v with
    | None => Some (v <| v_Change := ChangeNew |>)
    | Some old =>
      if negb (v_Value old =?s v_Value v) || negb (v_Type old =?s v_Type v)
      then Some (v <| v_Change := ChangeChanged |> <| v_Previous := v_Value old |>)
      else None
    end) cur.

(** ** Trees *)

Section Var_rect.
Context (P : Var → Prop).
Context (step : ∀ v, Forall P (v_Children v) → P v).
Fixpoint Var_nested_ind (v : Var) : P v :=
  step v ((fix go (cs : list Var) : Forall P cs :=
             match cs with
             | [] => List.Forall_nil P
             | c :: cs => List.Forall_cons P c cs (Var_nested_ind c) (go cs)
             end) (v_Children v)).
End Var_rect.

(** The cost of the lines a tree takes. *)
Fixpoint tree_cost (indent : Z) (v : Var) : Z :=
  match v with
  | mkVar n t x _ cs _ _ p =>
    2 * indent + slen n + slen t + slen x + slen p + 8 + list_sum_Z (tree_cost (indent + 1)) cs
  end.
Definition forest_cost (indent : Z) (vs : list Var) : Z := list_sum_Z (tree_cost indent) vs.

Lemma tree_cost_eq indent v : tree_cost indent v = cost v indent + forest_cost (indent + 1) (v_Children v).
Proof. by destruct v. Qed.

(** A tree with everything kept: the counts of what the adapter left out are
    dropped where there are no members to list them after. *)
Fixpoint full (v : Var) : Var :=
  match v with
  | mkVar n t x h cs m c p => mkVar n t x h (map full cs) (match cs with [] => 0 | _ => m end) c p
  end.

Lemma full_eq v :
  full v = v <| v_Children := map full (v_Children v) |>
             <| v_More := match v_Children v with [] => 0 | _ => v_More v end |>.
Proof. by destruct v. Qed.

(** ** Paths *)

Fixpoint lookup_at (p : list nat) (d : place) : option place :=
  match p with
  | [] => Some d
  | i :: p => match d.1 !! i with Some v => lookup_at p (v_Children v, v_More v) | None => None end
  end.

(** Two paths neither of which is above the other. *)
Definition apart (p q : list nat) : Prop := ¬ p `prefix_of` q ∧ ¬ q `prefix_of` p.

Lemma apart_cons i p q : apart (i :: p) (i :: q) ↔ apart p q.
Proof.
  unfold apart. split; intros [H1 H2]; split; intros H;
    [apply H1|apply H2|apply H1|apply H2]; first [by apply prefix_cons | by apply prefix_cons_inv_2 in H].
Qed.

Lemma apart_sym p q : apart p q → apart q p.
Proof. unfold apart. tauto. Qed.

Lemma apart_below p q r : apart p q → apart (p ++ r) q.
Proof.
  unfold apart. intros [H1 H2]. split; intros H.
  - apply H1. etrans; [by apply prefix_app_r|exact H].
  - destruct (prefix_weak_total p q (p ++ r)) as [?|?]; [by apply prefix_app_r|done|done|done].
Qed.

Lemma upd_at_lookup p f d x : lookup_at p d = Some x → lookup_at p (upd_at p f d) = Some (f x).
Proof.
  revert d. induction p as [|i p IH]; intros d; cbn [lookup_at upd_at]; [by intros [= ->]|].
  destruct (d.1 !! i) as [v|] eqn:E; [|done]. intros H. cbn [fst].
  rewrite list_lookup_alter_eq, E. cbn. apply IH in H. by destruct (upd_at p f _).
Qed.

Lemma upd_at_other p q f d : apart p q → lookup_at q (upd_at p f d) = lookup_at q d.
Proof.
  revert q d. induction p as [|i p IH]; intros q d Ha.
  { destruct (proj1 Ha). apply prefix_nil. }
  destruct q as [|j q]; [destruct (proj2 Ha); apply prefix_nil|]. cbn [lookup_at upd_at fst].
  destruct (decide (i = j)) as [<-|Hne].
  - rewrite list_lookup_alter_eq. destruct (d.1 !! i) as [v|]; cbn; [|done].
    apply apart_cons in Ha. rewrite <- surjective_pairing. by apply IH.
  - by rewrite list_lookup_alter_ne.
Qed.

Lemma upd_at_comm p q f g d : apart p q → upd_at p f (upd_at q g d) = upd_at q g (upd_at p f d).
Proof.
  revert q d. induction p as [|i p IH]; intros q d Ha.
  { destruct (proj1 Ha). apply prefix_nil. }
  destruct q as [|j q]; [destruct (proj2 Ha); apply prefix_nil|]. cbn [upd_at fst snd]. f_equal.
  destruct (decide (i = j)) as [<-|Hne].
  - apply apart_cons in Ha. rewrite !list_alter_alter_eq. apply list_alter_ext; [|done]. intros v _. cbn.
    specialize (IH q (v_Children v, v_More v) Ha). destruct v as [n t x h cs m c pr]. cbn in *.
    rewrite <- !surjective_pairing. by rewrite IH.
  - by apply list_alter_alter_ne.
Qed.

Lemma upd_at_below p i f d :
  upd_at (p ++ [i]) f d = upd_at p (upd_at [i] f) d.
Proof.
  revert d. induction p as [|j p IH]; intros d; [done|]. cbn [app upd_at fst snd]. f_equal.
  apply list_alter_ext; [|done]. intros v _. by rewrite IH.
Qed.

Lemma upd_at_compose p f g d : upd_at p f (upd_at p g d) = upd_at p (fun x => f (g x)) d.
Proof.
  revert d. induction p as [|i p IH]; intros d; [done|]. cbn [upd_at fst snd]. f_equal.
  rewrite list_alter_alter_eq. apply list_alter_ext; [|done]. intros v _. cbn.
  specialize (IH (v_Children v, v_More v)). destruct v as [n t x h cs m c pr]. cbn in *.
  rewrite <- !surjective_pairing. by rewrite IH.
Qed.

Lemma upd_at_ext p f g d x : lookup_at p d = Some x → f x = g x → upd_at p f d = upd_at p g d.
Proof.
  revert d. induction p as [|i p IH]; intros d; cbn [lookup_at upd_at]; [by intros [= ->]|].
  intros H Hfg. f_equal. apply list_alter_ext; [|done]. intros v Hv. rewrite Hv in H. by rewrite (IH _ H Hfg).
Qed.

Lemma Var_eta v : v <| v_Children := v_Children v |> <| v_More := v_More v |> = v.
Proof. by destruct v. Qed.

Lemma upd_at_id p d : upd_at p (fun x => x) d = d.
Proof.
  revert d. induction p as [|i p IH]; intros d; [done|]. cbn [upd_at].
  rewrite list_alter_id; [by rewrite <- surjective_pairing|]. intros v. rewrite IH. apply Var_eta.
Qed.

Lemma lookup_at_app p q d : lookup_at (p ++ q) d = match lookup_at p d with Some x => lookup_at q x | None => None end.
Proof.
  revert d. induction p as [|i p IH]; intros d; [done|]. cbn [app lookup_at].
  destruct (d.1 !! i); [apply IH|done].
Qed.

(** Two places with the same variables and counts, whatever is below. *)
Definition same_top (x y : place) : Prop := map bare x.1 = map bare y.1 ∧ x.2 = y.2.

Lemma upd_at_top p f d q x :
  lookup_at q (upd_at p f d) = Some x →
  (∃ r z, q = p ++ r ∧ lookup_at p d = Some z ∧ lookup_at r (f z) = Some x)
  ∨ ∃ x0, lookup_at q d = Some x0 ∧ same_top x0 x.
Proof.
  revert q d. induction p as [|i p IH]; intros q d; cbn [upd_at].
  { intros H. left. by exists q, d. }
  destruct q as [|j q]; cbn [lookup_at fst].
  { intros [= <-]. right. exists d. split; [done|]. split; [|done]. cbn [fst].
    apply list_eq. intros k. rewrite <- !list_fmap_alt || idtac.
    change (map bare d.1) with (bare <$> d.1). change (map bare (alter ?h i d.1)) with (bare <$> alter h i d.1).
    rewrite !list_lookup_fmap. destruct (decide (i = k)) as [<-|Hne].
    - rewrite list_lookup_alter_eq. destruct (d.1 !! i) as [v|]; [|done]. cbn. by destruct v.
    - by rewrite list_lookup_alter_ne. }
  destruct (decide (i = j)) as [<-|Hne].
  - rewrite list_lookup_alter_eq. destruct (d.1 !! i) as [v|]; cbn; [|done].
    rewrite <- surjective_pairing. intros [(r & z & -> & Hz & Hr)|(x0 & Hx0 & Ht)]%IH.
    + left. by exists r, z.
    + right. by exists x0.
  - rewrite list_lookup_alter_ne by done. intros H. right. exists x. by split.
Qed.

Lemma list_sum_Z_cons {A} (g : A → Z) a l : list_sum_Z g (a :: l) = g a + list_sum_Z g l.
Proof. done. Qed.

Lemma sum_alter {A} (g : A → Z) h i l v :
  l !! i = Some v → list_sum_Z g (alter h i l) = list_sum_Z g l - g v + g (h v).
Proof.
  revert i. induction l as [|a l IH]; intros [|i] H; try done.
  - injection H as ->. change (alter h 0%nat (v :: l)) with (h v :: l). rewrite !list_sum_Z_cons. lia.
  - change (alter h (S i) (a :: l)) with (a :: alter h i l). rewrite !list_sum_Z_cons, (IH i H). lia.
Qed.

Lemma forest_cost_upd p f d x indent :
  lookup_at p d = Some x →
  forest_cost indent (upd_at p f d).1
  = forest_cost indent d.1 - forest_cost (indent + Z.of_nat (length p)) x.1
    + forest_cost (indent + Z.of_nat (length p)) (f x).1.
Proof.
  revert d indent. induction p as [|i p IH]; intros d indent; cbn [lookup_at upd_at length fst].
  { intros [= ->]. rewrite Z.add_0_r. lia. }
  destruct (d.1 !! i) as [v|] eqn:E; [|done]. intros H. unfold forest_cost at 1.
  rewrite (sum_alter _ _ _ _ _ E), !tree_cost_eq. fold (forest_cost indent d.1).
  specialize (IH (v_Children v, v_More v) (indent + 1) H). cbn [fst] in IH.
  replace (indent + Z.of_nat (S (length p))) with (indent + 1 + Z.of_nat (length p)) by lia.
  assert (Hc : ∀ a b, cost (v <| v_Children := a |> <| v_More := b |>) indent = cost v indent) by (by destruct v).
  assert (Hk : ∀ a b, v_Children (v <| v_Children := a |> <| v_More := b |>) = a) by (by destruct v).
  cbv zeta. rewrite Hc, Hk, IH. lia.
Qed.

(** ** One level *)

Lemma fit_level_spec indent room src :
  let '(kept, room', cut) := fit_level indent room src in
  (length kept ≤ length src)%nat ∧ kept = map bare (take (length kept) src)
  ∧ room' = room - forest_cost indent kept ∧ (0 ≤ room → 0 ≤ room')
  ∧ (cut = false ↔ length kept = length src).
Proof.
  revert room. induction src as [|v src IH]; intros room; cbn [fit_level].
  { split_and!; [done|done|cbn; lia|done|done]. }
  destruct (Z.ltb_spec room (cost v indent)); [split_and!; [cbn; lia|done|cbn; lia|done|done]|].
  specialize (IH (room - cost v indent)). destruct (fit_level _ _ src) as [[kept room'] cut].
  destruct IH as (H1 & H2 & H3 & H4 & H5). split_and!.
  - cbn. lia.
  - cbn [length take map]. by rewrite <- H2.
  - unfold forest_cost in *. cbn [list_sum_Z foldr]. fold (list_sum_Z (tree_cost indent) kept).
    rewrite tree_cost_eq. destruct v; cbn in *. unfold cost in *. cbn in *. lia.
  - intros. apply H4. lia.
  - cbn [length]. rewrite H5. lia.
Qed.

(** ** Filling what is queued *)

Definition fill (queue : list level) (d : place) : place :=
  fold_left (fun d lv => upd_at (lv_path lv) (fun _ => (map full (lv_src lv), lv_extra lv)) d) queue d.

Lemma fill_app q1 q2 d : fill (q1 ++ q2) d = fill q2 (fill q1 d).
Proof. apply fold_left_app. Qed.

Lemma fill_upd_comm q p f d :
  (∀ lv, In lv q → apart p (lv_path lv)) → fill q (upd_at p f d) = upd_at p f (fill q d).
Proof.
  revert d. induction q as [|lv q IH]; intros d H; [done|]. cbn [fill fold_left]. fold fill.
  change (fold_left _ q ?x) with (fill q x). rewrite <- (upd_at_comm p) by (apply H; by left).
  rewrite IH by (intros; apply H; by right). done.
Qed.

Lemma fill_comm q1 q2 d :
  (∀ a b, In a q1 → In b q2 → apart (lv_path a) (lv_path b)) → fill q2 (fill q1 d) = fill q1 (fill q2 d).
Proof.
  revert d. induction q1 as [|lv q1 IH]; intros d H; [done|].
  change (fill (lv :: q1) ?x) with (fill q1 (upd_at (lv_path lv) (fun _ => (map full (lv_src lv), lv_extra lv)) x)).
  rewrite IH by (intros; apply H; [by right|done]). f_equal. apply fill_upd_comm. intros b Hb. apply H; [by left|done].
Qed.

Lemma fill_children p indent i src d :
  fill (child_levels p indent i src) d = upd_at p (fill (child_levels [] indent i src)) d.
Proof.
  revert i d. induction src as [|v src IH]; intros i d; cbn [child_levels].
  { cbn. by rewrite upd_at_id. }
  destruct (v_Children v) as [|c cs] eqn:E; [apply IH|].
  change (fill (?lv :: ?q) ?x) with (fill q (upd_at (lv_path lv) (fun _ => (map full (lv_src lv), lv_extra lv)) x)).
  cbn [lv_path lv_src lv_extra app]. rewrite IH, upd_at_below, upd_at_compose. done.
Qed.

Lemma fill_local indent src pre e :
  fill (child_levels [] indent (length pre) src) (pre ++ map bare src, e) = (pre ++ map full src, e).
Proof.
  revert pre. induction src as [|v src IH]; intros pre; [done|]. cbn [child_levels map].
  assert (Hpre : ∀ x l, pre ++ x :: l = (pre ++ [x]) ++ l) by (intros; by rewrite <- app_assoc).
  assert (Hlen : S (length pre) = length (pre ++ [full v])) by (rewrite length_app; cbn; lia).
  destruct (v_Children v) as [|c cs] eqn:E.
  - assert (Hb : bare v = full v) by (destruct v; cbn in *; by subst).
    rewrite Hb, Hpre, Hlen, IH. by rewrite <- app_assoc.
  - change (fill (?lv :: ?q) ?x) with (fill q (upd_at (lv_path lv) (fun _ => (map full (lv_src lv), lv_extra lv)) x)).
    cbn [lv_path lv_src lv_extra app upd_at fst snd].
    rewrite alter_app_r_alt, Nat.sub_diag by lia. cbn [alter list_alter].
    assert (Hv : (bare v) <| v_Children := map full (c :: cs) |> <| v_More := v_More v |> = full v).
    { destruct v; cbn in *. by subst. }
    cbn [fst snd]. cbn in Hv |- *. rewrite Hv. rewrite Hpre, Hlen, IH. by rewrite <- app_assoc.
Qed.

Lemma child_levels_in p indent i src lv :
  In lv (child_levels p indent i src) →
  ∃ j v, (i ≤ j)%nat ∧ src !! (j - i)%nat = Some v ∧ v_Children v ≠ []
    ∧ lv = mkLevel (p ++ [j]) (v_Children v) (v_More v) indent.
Proof.
  revert i. induction src as [|v src IH]; intros i; cbn [child_levels]; [done|].
  assert (Hrest : In lv (child_levels p indent (S i) src) → ∃ j w, (i ≤ j)%nat ∧ (v :: src) !! (j - i)%nat = Some w
    ∧ v_Children w ≠ [] ∧ lv = mkLevel (p ++ [j]) (v_Children w) (v_More w) indent).
  { intros (j & w & Hj & Hw & Hne & ->)%IH. exists j, w. split_and!; [lia| |done|done].
    by replace (j - i)%nat with (S (j - S i)) by lia. }
  destruct (v_Children v) as [|c cs] eqn:E; [done|]. intros [<-|H]; [|auto].
  exists i, v. rewrite Nat.sub_diag, E. by split_and!.
Qed.

Definition all_apart : list level → Prop := ForallOrdPairs (fun a b => apart (lv_path a) (lv_path b)).

Lemma apart_siblings p i j : i ≠ j → apart (p ++ [i]) (p ++ [j]).
Proof.
  intros Hne. induction p as [|k p IH]; [|by apply apart_cons].
  split; intros [r Hr]; by injection Hr.
Qed.

Lemma child_levels_apart p indent i src : all_apart (child_levels p indent i src).
Proof.
  revert i. induction src as [|v src IH]; intros i; cbn [child_levels]; [constructor|].
  destruct (v_Children v); [apply IH|]. constructor; [|apply IH].
  apply List.Forall_forall. intros lv (j & w & Hj & _ & _ & ->)%child_levels_in. cbn [lv_path].
  apply apart_siblings. lia.
Qed.

Lemma all_apart_app q1 q2 :
  all_apart q1 → all_apart q2 → (∀ a b, In a q1 → In b q2 → apart (lv_path a) (lv_path b)) → all_apart (q1 ++ q2).
Proof.
  intros H1 H2 H. induction H1 as [|a q1 Ha H1 IH]; [done|]. cbn [app]. constructor.
  - apply List.Forall_forall. intros b [Hb|Hb]%List.in_app_iff.
    + by apply (proj1 (List.Forall_forall _ _) Ha).
    + by apply H; [left|].
  - apply IH. intros; apply H; [by right|done].
Qed.

(** A place that has everything it should. *)
Definition whole (orig x : place) : Prop :=
  map bare x.1 = map bare orig.1 ∧ (x.2 = orig.2 ∨ orig.1 = [] ∧ x.2 = 0).

(** Before anything is cut: the levels queued are holes of the result, whose
    filling gives the whole forest; the characters spent are its cost. *)
Record fitting (vars : list Var) (room0 : Z) (queue : list level) (room : Z) (d : place) : Prop := {
  ft_holes : ∀ lv, In lv queue → lookup_at (lv_path lv) d = Some ([], 0) ∧ Z.of_nat (length (lv_path lv)) = lv_indent lv;
  ft_apart : all_apart queue;
  ft_fill : fill queue d = (map full vars, 0);
  ft_cost : forest_cost 0 d.1 + room = room0;
  ft_room : 0 ≤ room;
  ft_orig : ∀ lv, In lv queue → lookup_at (lv_path lv) (vars, 0) = Some (lv_src lv, lv_extra lv);
  ft_done : ∀ p x, lookup_at p d = Some x → (∃ lv, In lv queue ∧ p = lv_path lv ∧ x = ([], 0))
                   ∨ ∃ vs m, lookup_at p (vars, 0) = Some (vs, m) ∧ whole (vs, m) x;
  ft_depth : ∀ p x lv, lookup_at p d = Some x → x.1 ≠ [] → In lv queue → (length p ≤ length (lv_path lv))%nat;
  ft_sorted : StronglySorted (fun a b => (length (lv_path a) ≤ length (lv_path b))%nat) queue;
  ft_near : ∀ a b, In a queue → In b queue → (length (lv_path b) ≤ S (length (lv_path a)))%nat }.

Lemma fitting_init vars room : 0 ≤ room → fitting vars room [mkLevel [] vars 0 0] room ([], 0).
Proof.
  intros H. split; try done.
  - by intros lv [<-|[]].
  - repeat constructor.
  - by intros lv [<-|[]].
  - intros p x Hx. destruct p as [|i p]; [|done]. injection Hx as <-. left. eexists. split; [by left|done].
  - intros p x lv Hx. destruct p as [|i p]; [|done]. cbn. lia.
  - repeat constructor.
  - intros a b [<-|[]] [<-|[]]. cbn. lia.
Qed.

Lemma upd_hole p f d : lookup_at p d = Some ([], 0) → upd_at p f d = upd_at p (fun _ => f ([], 0)) d.
Proof. intros H. by apply (upd_at_ext p _ _ d _ H). Qed.

Lemma map_bare_bare l : map bare (map bare l) = map bare l.
Proof. rewrite map_map. apply map_ext. by intros []. Qed.

Lemma whole_top o x y : same_top x y → whole o x → whole o y.
Proof. intros [H1 H2] [H3 H4]. unfold whole. by rewrite <- H1, <- H2. Qed.

Lemma same_top_hole x : same_top ([], 0) x → x = ([], 0).
Proof. destruct x as [[|? ?] ?]; intros [H1 H2]; cbn in *; by simplify_eq. Qed.

Lemma same_top_length x y : same_top x y → length x.1 = length y.1.
Proof. intros [H _]. by rewrite <- (length_map bare x.1), H, length_map. Qed.

(** What is found where, once a hole has its variables. *)
Lemma placed_lookup p d ws e q x :
  lookup_at p d = Some ([], 0) → lookup_at q (upd_at p (fun _ => (map bare ws, e)) d) = Some x →
  (q = p ∧ x = (map bare ws, e))
  ∨ (∃ i w, q = p ++ [i] ∧ ws !! i = Some w ∧ x = ([], 0))
  ∨ (q ≠ p ∧ ∃ x0, lookup_at q d = Some x0 ∧ same_top x0 x).
Proof.
  intros Hhole Hx. destruct (decide (q = p)) as [->|Hne].
  { left. rewrite (upd_at_lookup _ _ _ _ Hhole) in Hx. by injection Hx as <-. }
  right. apply upd_at_top in Hx as [(r & z & -> & _ & Hr)|H]; [|by right]. left.
  destruct r as [|i r]; [by rewrite app_nil_r in Hne|]. cbn [lookup_at fst] in Hr.
  change (map bare ws) with (bare <$> ws) in Hr. rewrite list_lookup_fmap in Hr.
  destruct (ws !! i) as [w|] eqn:E; [|done]. exists i, w. cbn in Hr.
  destruct r as [|j r]; [by injection Hr as <-|]. done.
Qed.

Lemma child_levels_has p indent i src j v :
  src !! j = Some v → v_Children v ≠ [] →
  In (mkLevel (p ++ [(i + j)%nat]) (v_Children v) (v_More v) indent) (child_levels p indent i src).
Proof.
  revert i j. induction src as [|w src IH]; intros i [|j] Hj Hc; try done; cbn [child_levels].
  - injection Hj as ->. rewrite Nat.add_0_r. destruct (v_Children v); [done|]. by left.
  - specialize (IH (S i) j Hj Hc). rewrite Nat.add_succ_comm in IH. destruct (v_Children w); [done|]. by right.
Qed.

Lemma child_levels_length p indent i src lv : In lv (child_levels p indent i src) → length (lv_path lv) = S (length p).
Proof. intros (j & w & _ & _ & _ & ->)%child_levels_in. cbn. rewrite length_app. cbn. lia. Qed.

Lemma sorted_app {A} (R : A → A → Prop) l1 l2 :
  StronglySorted R l1 → StronglySorted R l2 → (∀ a b, In a l1 → In b l2 → R a b) → StronglySorted R (l1 ++ l2).
Proof.
  intros H1 H2 H. induction H1 as [|a l1 H1 IH Ha]; [done|]. cbn [app]. constructor.
  - apply IH. intros; apply H; [by right|done].
  - apply List.Forall_forall. intros b [Hb|Hb]%List.in_app_iff; [|apply H; [by left|done]].
    by apply (proj1 (List.Forall_forall _ _) Ha).
Qed.

Lemma sorted_same {A} (R : A → A → Prop) l : (∀ a b, In a l → In b l → R a b) → StronglySorted R l.
Proof.
  intros H. induction l as [|a l IH]; constructor.
  - apply IH. intros; apply H; by right.
  - apply List.Forall_forall. intros b Hb. apply H; [by left|by right].
Qed.

Lemma sorted_head {A} (R : A → A → Prop) a l : StronglySorted R (a :: l) → ∀ b, In b l → R a b.
Proof. intros [_ H]%StronglySorted_inv. by apply List.Forall_forall. Qed.

Lemma filled_done vars room0 lv queue room d q x :
  fitting vars room0 (lv :: queue) room d →
  lookup_at q (upd_at (lv_path lv) (fun _ => (map bare (lv_src lv), lv_extra lv)) d) = Some x →
  (∃ a, In a (queue ++ child_levels (lv_path lv) (lv_indent lv + 1) 0 (lv_src lv)) ∧ q = lv_path a ∧ x = ([], 0))
  ∨ ∃ vs m, lookup_at q (vars, 0) = Some (vs, m) ∧ whole (vs, m) x.
Proof.
  intros F Hx. pose proof (ft_orig _ _ _ _ _ F lv (or_introl eq_refl)) as Ho.
  pose proof (proj1 (ft_holes _ _ _ _ _ F lv (or_introl eq_refl))) as Hhole.
  apply (placed_lookup _ _ _ _ _ _ Hhole) in Hx as [[-> ->]|[(i & w & -> & Hw & ->)|(Hne & x0 & Hx0 & Ht)]].
  - right. exists (lv_src lv), (lv_extra lv). split; [done|]. split; [apply map_bare_bare|by left].
  - destruct (decide (v_Children w = [])) as [E|E].
    + right. exists (v_Children w), (v_More w). rewrite lookup_at_app, Ho. cbn [lookup_at fst]. rewrite Hw.
      split; [done|]. unfold whole. rewrite E. by split; [|right].
    + left. eexists. split; [apply List.in_app_iff; right; by apply (child_levels_has _ _ 0)|done].
  - apply (ft_done _ _ _ _ _ F) in Hx0 as [(a & [<-|Ha] & -> & ->)|(vs & m & Hl & Hw)]; [done| |].
    + left. exists a. split; [apply List.in_app_iff; by left|]. split; [done|]. by apply same_top_hole.
    + right. exists vs, m. split; [done|]. by apply (whole_top _ x0).
Qed.

Lemma filled_depth vars room0 lv queue room d q x a :
  fitting vars room0 (lv :: queue) room d →
  lookup_at q (upd_at (lv_path lv) (fun _ => (map bare (lv_src lv), lv_extra lv)) d) = Some x → x.1 ≠ [] →
  In a (queue ++ child_levels (lv_path lv) (lv_indent lv + 1) 0 (lv_src lv)) →
  (length q ≤ length (lv_path a))%nat.
Proof.
  intros F Hx Hxne Ha. pose proof (proj1 (ft_holes _ _ _ _ _ F lv (or_introl eq_refl))) as Hhole.
  assert (Hlv : (length (lv_path lv) ≤ length (lv_path a))%nat).
  { apply List.in_app_iff in Ha as [Ha|Ha%child_levels_length]; [|lia].
    by apply (sorted_head _ _ _ (ft_sorted _ _ _ _ _ F)). }
  apply (placed_lookup _ _ _ _ _ _ Hhole) in Hx as [[-> ->]|[(i & w & -> & Hw & ->)|(Hne & x0 & Hx0 & Ht)]]; [done|done|].
  etrans; [|exact Hlv]. apply (ft_depth _ _ _ _ _ F q x0 lv Hx0); [|by left].
  destruct x0 as [[|? ?] ?]; [|done]. destruct Hxne. destruct x as [[|? ?] ?]; [done|]. destruct Ht as [Ht _]. by cbn in Ht.
Qed.

Lemma fitting_step vars room0 lv queue room d kept room' :
  fitting vars room0 (lv :: queue) room d →
  fit_level (lv_indent lv) room (lv_src lv) = (kept, room', false) →
  fitting vars room0 (queue ++ child_levels (lv_path lv) (lv_indent lv + 1) 0 (lv_src lv)) room'
    (upd_at (lv_path lv) (fun x => (kept, x.2 + lv_extra lv)) d).
Proof.
  intros F Hlv. pose proof F as [Hholes Hap Hfill Hcost Hroom Horig _ _ Hsort Hnear].
  pose proof (fit_level_spec (lv_indent lv) room (lv_src lv)) as Hs. rewrite Hlv in Hs.
  destruct Hs as (_ & Hk & Hr & Hr0 & [Hlen _]). specialize (Hlen eq_refl). rewrite Hlen, firstn_all in Hk. subst kept.
  destruct (Hholes lv (or_introl eq_refl)) as [Hhole Hind].
  inversion Hap as [|? ? Hq Hap']; subst. rewrite List.Forall_forall in Hq.
  set (p := lv_path lv) in *. set (C := child_levels p (lv_indent lv + 1) 0 (lv_src lv)).
  rewrite (upd_hole p _ _ Hhole). cbn [snd]. rewrite Z.add_0_l.
  assert (HC : ∀ a b, In a queue → In b C → apart (lv_path a) (lv_path b)).
  { intros a b Ha (j & w & _ & _ & _ & ->)%child_levels_in. apply apart_sym, apart_below. by apply Hq. }
  split.
  - intros a [Ha|Ha]%List.in_app_iff.
    + rewrite upd_at_other by (by apply Hq). by apply Hholes; right.
    + apply child_levels_in in Ha as (j & w & _ & Hw & _ & ->). cbn [lv_path lv_indent]. rewrite Nat.sub_0_r in Hw.
      split; [|rewrite length_app; cbn; lia].
      rewrite lookup_at_app, (upd_at_lookup _ _ _ _ Hhole). cbn [lookup_at fst].
      change (map bare (lv_src lv)) with (bare <$> lv_src lv). by rewrite list_lookup_fmap, Hw.
  - apply all_apart_app; [done|apply child_levels_apart|done].
  - rewrite fill_app, fill_comm by done. unfold C. rewrite fill_children, upd_at_compose, <- Hfill.
    change (fill (lv :: queue) d) with (fill queue (upd_at p (fun _ => (map full (lv_src lv), lv_extra lv)) d)).
    f_equal. apply (upd_at_ext _ _ _ _ _ Hhole).
    apply (fill_local (lv_indent lv + 1) (lv_src lv) [] (lv_extra lv)).
  - rewrite (forest_cost_upd _ _ _ _ _ Hhole), Z.add_0_l, Hind. cbn [fst].
    change (forest_cost _ []) with 0. lia.
  - by apply Hr0.
  - intros a [Ha|Ha]%List.in_app_iff; [by apply Horig; right|].
    apply child_levels_in in Ha as (j & w & _ & Hw & _ & ->). cbn [lv_path lv_src lv_extra].
    rewrite Nat.sub_0_r in Hw. unfold p. rewrite lookup_at_app, (Horig lv (or_introl eq_refl)). cbn [lookup_at fst]. by rewrite Hw.
  - intros q x. by apply (filled_done _ _ _ _ _ _ _ _ F).
  - intros q x a. by apply (filled_depth _ _ _ _ _ _ _ _ _ F).
  - apply sorted_app; [by apply StronglySorted_inv in Hsort as []| |].
    + apply sorted_same. intros a b Ha%child_levels_length Hb%child_levels_length. lia.
    + intros a b Ha Hb%child_levels_length. rewrite Hb. apply Hnear; [by left|by right].
  - intros a b Ha Hb.
    assert (Hlow : ∀ c, In c (queue ++ C) → (length p ≤ length (lv_path c) ≤ S (length p))%nat).
    { intros c [Hc|Hc%child_levels_length]%List.in_app_iff; [|fold p in Hc; rewrite Hc; lia]. split; [by apply (sorted_head _ _ _ Hsort)|].
      apply (Hnear lv); [by left|by right]. }
    apply Hlow in Ha, Hb. lia.
Qed.

(** ** What is left once a level is cut *)

(** Everywhere in [kept] there is a first part of what [orig] has there, with
    the rest counted; or, below the roots, no members at all. *)
Definition trimmed (orig kept : place) : Prop :=
  ∀ p ks m, lookup_at p kept = Some (ks, m) →
  ∃ vs m0, lookup_at p orig = Some (vs, m0) ∧ map bare ks = map bare (take (length ks) vs)
    ∧ (m = m0 + Z.of_nat (length vs - length ks) ∨ p ≠ [] ∧ ks = [] ∧ m = 0).

(** Where a list of variables is not whole, nothing deeper is shown. *)
Definition breadth_first (orig kept : place) : Prop :=
  ∀ p q vs m0 ks m ks' m',
  lookup_at p orig = Some (vs, m0) → lookup_at p kept = Some (ks, m) → (length ks < length vs)%nat →
  lookup_at q kept = Some (ks', m') → ks' ≠ [] → (length q ≤ length p)%nat.

Lemma whole_length vs m x : whole (vs, m) x → length x.1 = length vs.
Proof. intros [H _]. by rewrite <- (length_map bare x.1), H, length_map. Qed.

Lemma whole_trimmed p vars vs m ks k :
  lookup_at p (vars, 0) = Some (vs, m) → whole (vs, m) (ks, k) →
  ∃ vs m0, lookup_at p (vars, 0) = Some (vs, m0) ∧ map bare ks = map bare (take (length ks) vs)
    ∧ (k = m0 + Z.of_nat (length vs - length ks) ∨ p ≠ [] ∧ ks = [] ∧ k = 0).
Proof.
  intros Hp Hw. exists vs, m. pose proof (whole_length _ _ _ Hw) as Hl. destruct Hw as [H1 H2].
  cbn [fst snd] in *. rewrite Hl, firstn_all, Nat.sub_diag. split_and!; [done|done|].
  destruct H2 as [->|[-> ->]]; [left; lia|].
  destruct p as [|i p]; [injection Hp as -> <-; by left|]. right. split_and!; [done|by destruct ks|done].
Qed.

Section cut.
Context (vars : list Var) (room0 : Z) (lv : level) (queue : list level) (room : Z) (d : place).
Context (F : fitting vars room0 (lv :: queue) room d).
Context (n : nat) (e : Z) (Hn : (n < length (lv_src lv))%nat).
Context (He : e = Z.of_nat (length (lv_src lv) - n) + lv_extra lv ∨ 0 < lv_indent lv ∧ n = 0%nat ∧ e = 0).
Let d' := upd_at (lv_path lv) (fun _ => (map bare (take n (lv_src lv)), e)) d.

Lemma cut_lookup q x :
  lookup_at q d' = Some x →
  (q = lv_path lv ∧ x = (map bare (take n (lv_src lv)), e))
  ∨ (∃ i w, q = lv_path lv ++ [i] ∧ lv_src lv !! i = Some w ∧ x = ([], 0))
  ∨ (∃ a, In a queue ∧ q = lv_path a ∧ x = ([], 0) ∧ (length (lv_path lv) ≤ length q)%nat ∧ q ≠ [])
  ∨ (∃ vs m, lookup_at q (vars, 0) = Some (vs, m) ∧ whole (vs, m) x ∧ (x.1 ≠ [] → (length q ≤ length (lv_path lv))%nat)).
Proof.
  pose proof (proj1 (ft_holes _ _ _ _ _ F lv (or_introl eq_refl))) as Hhole.
  intros [H|[(i & w & -> & Hw & ->)|(Hne & x0 & Hx0 & Ht)]]%(placed_lookup _ _ _ _ _ _ Hhole); [by left| |].
  { right; left. exists i, w. split; [done|]. apply lookup_take_Some in Hw as [Hw _]. done. }
  right; right. pose proof Hx0 as Hd0.
  apply (ft_done _ _ _ _ _ F) in Hx0 as [(a & [<-|Ha] & -> & ->)|(vs & m & Hl & Hw)]; [done| |].
  - left. exists a. split_and!; [done|done|by apply same_top_hole| |].
    + by apply (sorted_head _ _ _ (ft_sorted _ _ _ _ _ F)).
    + pose proof (ft_apart _ _ _ _ _ F) as Hap. inversion Hap as [|? ? Hq _]; subst.
      rewrite List.Forall_forall in Hq. destruct (Hq a Ha) as [_ Hq2]. intros E. apply Hq2. rewrite E. apply prefix_nil.
  - right. exists vs, m. split_and!; [done|by apply (whole_top _ x0)|]. intros Hxne.
    apply (ft_depth _ _ _ _ _ F q x0 lv Hd0); [|by left]. destruct x0 as [[|? ?] ?]; [|done].
    apply same_top_length in Ht. by destruct x as [[|? ?] ?].
Qed.

Lemma cut_trimmed : trimmed (vars, 0) d'.
Proof.
  intros q ks m H. pose proof (ft_orig _ _ _ _ _ F lv (or_introl eq_refl)) as Ho.
  apply cut_lookup in H as [[-> [= -> ->]]|[(i & w & -> & Hw & [= -> ->])|[(a & Ha & -> & [= -> ->] & _ & Hne)|(vs & k & Hl & Hwh & _)]]].
  - exists (lv_src lv), (lv_extra lv). rewrite map_bare_bare, length_map, length_take, Nat.min_l by lia.
    split_and!; [done|done|]. destruct He as [->|(Hi & -> & ->)]; [left; lia|]. right. split_and!; [|done|done].
    pose proof (proj2 (ft_holes _ _ _ _ _ F lv (or_introl eq_refl))) as Hind. intros E. rewrite E in Hind. cbn in Hind. lia.
  - exists (v_Children w), (v_More w). rewrite lookup_at_app, Ho. cbn [lookup_at fst]. rewrite Hw.
    split_and!; [done|done|]. right. split_and!; [|done|done]. by destruct (lv_path lv).
  - exists (lv_src a), (lv_extra a). split_and!; [by apply (ft_orig _ _ _ _ _ F); right|done|by right].
  - by apply (whole_trimmed _ _ vs k).
Qed.

Lemma cut_breadth_first : breadth_first (vars, 0) d'.
Proof.
  intros p q vs m0 ks m ks' m' Hp Hk Hlt Hq Hne.
  assert (length (lv_path lv) ≤ length p)%nat.
  { apply cut_lookup in Hk as [[-> _]|[(i & w & -> & _)|[(a & _ & _ & _ & Hl & _)|(vs1 & k & Hl & Hwh & _)]]].
    - done.
    - rewrite length_app. lia.
    - done.
    - rewrite Hl in Hp. injection Hp as -> ->. apply whole_length in Hwh. cbn in Hwh. lia. }
  assert (length q ≤ length (lv_path lv))%nat; [|lia].
  by apply cut_lookup in Hq as [[-> _]|[(i & w & -> & _ & [= -> ->])|[(a & _ & _ & [= -> ->] & _)|(vs1 & k & _ & _ & Hl)]]]; [| | |apply Hl].
Qed.

End cut.

(** ** The loop *)

Definition level_size (lv : level) : nat := S (list_sum (map var_count (lv_src lv))).
Definition queue_size (queue : list level) : nat := list_sum (map level_size queue).

Lemma var_count_eq v : var_count v = S (list_sum (map var_count (v_Children v))).
Proof. by destruct v. Qed.

Lemma child_levels_size p indent i src :
  (queue_size (child_levels p indent i src) ≤ list_sum (map var_count src))%nat.
Proof.
  revert i. induction src as [|v src IH]; intros i; cbn [child_levels]; [done|].
  specialize (IH (S i)). pose proof (var_count_eq v) as Hv. cbn [map].
  change (list_sum (?a :: ?l)) with (a + list_sum l)%nat.
  destruct (v_Children v) as [|c cs] eqn:E; [lia|].
  unfold queue_size in *. cbn [map]. change (list_sum (?a :: ?l)) with (a + list_sum l)%nat.
  unfold level_size at 1. cbn [lv_src]. lia.
Qed.

Lemma queue_size_app q1 q2 : queue_size (q1 ++ q2) = (queue_size q1 + queue_size q2)%nat.
Proof. unfold queue_size. by rewrite map_app, list_sum_app. Qed.

Lemma cost_pos v indent : 0 ≤ indent → 0 ≤ cost v indent.
Proof.
  unfold cost, slen. lia.
Qed.

Lemma forest_cost_nonneg_if indent vs : Forall (fun v => ∀ i, 0 ≤ i → 0 ≤ tree_cost i v) vs → 0 ≤ indent → 0 ≤ forest_cost indent vs.
Proof.
  intros H Hi. unfold forest_cost. induction H as [|v vs Hv H IH]; [done|].
  rewrite list_sum_Z_cons. specialize (Hv _ Hi). lia.
Qed.

Lemma tree_cost_nonneg v : ∀ indent, 0 ≤ indent → 0 ≤ tree_cost indent v.
Proof.
  induction v as [v IH] using Var_nested_ind. intros indent Hi. rewrite tree_cost_eq.
  pose proof (cost_pos v indent Hi). assert (0 ≤ forest_cost (indent + 1) (v_Children v)); [|lia].
  apply forest_cost_nonneg_if; [done|lia].
Qed.

Lemma forest_cost_nonneg indent vs : 0 ≤ indent → 0 ≤ forest_cost indent vs.
Proof. apply forest_cost_nonneg_if. apply List.Forall_forall. intros v _. apply tree_cost_nonneg. Qed.

Lemma full_cost indent src : 0 ≤ indent → forest_cost indent (map bare src) ≤ forest_cost indent (map full src).
Proof.
  intros Hi. unfold forest_cost. induction src as [|v src IH]; [done|]. cbn [map]. rewrite !list_sum_Z_cons.
  assert (tree_cost indent (bare v) ≤ tree_cost indent (full v)); [|lia]. rewrite !tree_cost_eq.
  assert (cost (bare v) indent = cost v indent ∧ cost (full v) indent = cost v indent) as [-> ->] by (by destruct v).
  pose proof (forest_cost_nonneg (indent + 1) (v_Children (full v)) ltac:(lia)).
  replace (v_Children (bare v)) with (@nil Var) by (by destruct v). cbn. lia.
Qed.

Lemma fill_cost queue d :
  (∀ lv, In lv queue → lookup_at (lv_path lv) d = Some ([], 0)) → all_apart queue →
  forest_cost 0 d.1 ≤ forest_cost 0 (fill queue d).1.
Proof.
  revert d. induction queue as [|lv queue IH]; intros d Hh Hap; [done|].
  inversion Hap as [|? ? Hq Hap']; subst. rewrite List.Forall_forall in Hq.
  change (fill (lv :: queue) d) with (fill queue (upd_at (lv_path lv) (fun _ => (map full (lv_src lv), lv_extra lv)) d)).
  etrans; [|apply IH; [|done]].
  - rewrite (forest_cost_upd _ _ _ _ _ (Hh lv (or_introl eq_refl))). cbn [fst].
    pose proof (forest_cost_nonneg (0 + Z.of_nat (length (lv_path lv))) (map full (lv_src lv)) ltac:(lia)).
    change (forest_cost ?i []) with 0. lia.
  - intros a Ha. rewrite upd_at_other by (by apply Hq). apply Hh. by right.
Qed.

Lemma fit_level_cut indent room src kept room' :
  0 ≤ indent → fit_level indent room src = (kept, room', true) → room < forest_cost indent (map bare src).
Proof.
  intros Hi. revert kept room room'. induction src as [|v src IH]; intros kept room room'; cbn [fit_level]; [done|].
  unfold forest_cost. cbn [map]. rewrite list_sum_Z_cons, tree_cost_eq. fold (forest_cost indent (map bare src)).
  replace (cost (bare v) indent) with (cost v indent) by (by destruct v).
  replace (v_Children (bare v)) with (@nil Var) by (by destruct v). change (forest_cost _ []) with 0.
  pose proof (forest_cost_nonneg indent (map bare src) Hi).
  destruct (Z.ltb_spec room (cost v indent)); [lia|].
  destruct (fit_level indent (room - cost v indent) src) as [[k r] c] eqn:E. intros [= _ _ ->]. apply IH in E. lia.
Qed.

(** What [Fit] promises of a result. *)
Record fitted (vars : list Var) (room0 : Z) (dst : place) (cut : bool) (room : Z) : Prop := {
  fd_cost : forest_cost 0 dst.1 + room = room0;
  fd_room : 0 ≤ room;
  fd_cut : if cut then room0 < forest_cost 0 (map full vars) else dst = (map full vars, 0);
  fd_trimmed : trimmed (vars, 0) dst;
  fd_breadth : breadth_first (vars, 0) dst }.

Lemma fitting_done vars room0 room d : fitting vars room0 [] room d → fitted vars room0 d false room.
Proof.
  intros F. split.
  - apply F.
  - apply F.
  - apply (ft_fill _ _ _ _ _ F).
  - intros p ks m H. apply (ft_done _ _ _ _ _ F) in H as [(a & [] & _)|(vs & k & Hl & Hw)].
    by apply (whole_trimmed _ _ vs k).
  - intros p q vs m0 ks m ks' m' Hp Hk Hlt _ _.
    apply (ft_done _ _ _ _ _ F) in Hk as [(a & [] & _)|(vs1 & k & Hl & Hw)].
    rewrite Hl in Hp. injection Hp as -> ->. apply whole_length in Hw. cbn in Hw. lia.
Qed.

Lemma fitting_cut vars room0 lv queue room d kept room' :
  fitting vars room0 (lv :: queue) room d →
  fit_level (lv_indent lv) room (lv_src lv) = (kept, room', true) →
  let n := length kept in
  let more := if (n =? 0)%nat && (0 <? lv_indent lv) then 0
              else Z.of_nat (length (lv_src lv) - n) + lv_extra lv in
  fitted vars room0 (upd_at (lv_path lv) (fun d => (kept, d.2 + more)) d) true room'.
Proof.
  intros F Hlv n more. pose proof (fit_level_spec (lv_indent lv) room (lv_src lv)) as Hs. rewrite Hlv in Hs.
  destruct Hs as (Hle & Hk & Hr & Hr0 & [_ Hc]).
  assert (Hn : (n < length (lv_src lv))%nat) by (destruct (decide (n = length (lv_src lv))); [by apply Hc in e|unfold n in *; lia]).
  pose proof (ft_holes _ _ _ _ _ F lv (or_introl eq_refl)) as [Hhole Hind].
  assert (He : more = Z.of_nat (length (lv_src lv) - n) + lv_extra lv ∨ 0 < lv_indent lv ∧ n = 0%nat ∧ more = 0).
  { unfold more. destruct (Nat.eqb_spec n 0); [|by left]. destruct (Z.ltb_spec 0 (lv_indent lv)); [by right|by left]. }
  rewrite (upd_hole _ _ _ Hhole). cbn [snd]. rewrite Z.add_0_l, Hk. split.
  - rewrite (forest_cost_upd _ _ _ _ _ Hhole), Z.add_0_l, Hind. cbn [fst]. change (forest_cost _ []) with 0.
    rewrite <- Hk. pose proof (ft_cost _ _ _ _ _ F). lia.
  - apply Hr0, F.
  - pose proof (fit_level_cut (lv_indent lv) _ _ _ _ ltac:(lia) Hlv). rewrite <- (ft_cost _ _ _ _ _ F).
    pose proof (ft_apart _ _ _ _ _ F) as Hap. inversion Hap as [|? ? Hq Hap']; subst. rewrite List.Forall_forall in Hq.
    change (map full vars) with (map full vars, 0).1. rewrite <- (ft_fill _ _ _ _ _ F).
    change (fill (lv :: queue) d) with (fill queue (upd_at (lv_path lv) (fun _ => (map full (lv_src lv), lv_extra lv)) d)).
    eapply Z.lt_le_trans; [|apply fill_cost; [|done]].
    + rewrite (forest_cost_upd _ _ _ _ _ Hhole), Z.add_0_l, Hind. cbn [fst]. change (forest_cost _ []) with 0.
      pose proof (full_cost (lv_indent lv) (lv_src lv) ltac:(lia)). lia.
    + intros a Ha. rewrite upd_at_other by (by apply Hq). apply (ft_holes _ _ _ _ _ F). by right.
  - by apply (cut_trimmed _ _ _ _ _ _ F).
  - by apply (cut_breadth_first _ _ _ _ _ _ F).
Qed.

Lemma fit_loop_spec fuel vars room0 queue room d :
  fitting vars room0 queue room d → (queue_size queue ≤ fuel)%nat →
  let '(dst, room', cut) := fit_loop fuel queue room d in fitted vars room0 dst cut room'.
Proof.
  revert queue room d. induction fuel as [|fuel IH]; intros [|lv queue] room d F Hf; cbn [fit_loop];
    try by apply fitting_done.
  { unfold queue_size, level_size in Hf. cbn in Hf. lia. }
  destruct (fit_level (lv_indent lv) room (lv_src lv)) as [[kept room'] [|]] eqn:E.
  - by apply (fitting_cut _ _ _ _ _ _ _ _ F).
  - apply IH; [by apply fitting_step with (room := room)|]. rewrite queue_size_app.
    pose proof (child_levels_size (lv_path lv) (lv_indent lv + 1) 0 (lv_src lv)).
    change (queue_size (lv :: queue)) with (level_size lv + queue_size queue)%nat in Hf. unfold level_size in Hf. lia.
Qed.

(** C31: [Fit] with a budget keeps what it shows within it: the lines kept cost
    exactly what it takes off the budget, which does not go below nothing. It
    cuts exactly when the whole forest does not fit, and then what is kept is
    a first part of each list of variables, with the number left out beside
    it (or a variable shown collapsed), breadth first: nothing is shown below
    a level that was cut. *)
Theorem Fit_spec room vars :
  0 ≤ room →
  let '((kept, omitted, cut), left') := Fit room vars in
  forest_cost 0 kept + left' = room ∧ 0 ≤ left'
  ∧ (cut = true ↔ room < forest_cost 0 (map full vars))
  ∧ (cut = false → kept = map full vars ∧ omitted = 0)
  ∧ trimmed (vars, 0) (kept, omitted) ∧ breadth_first (vars, 0) (kept, omitted).
Proof.
  intros H. unfold Fit. destruct (Z.ltb_spec room 0); [lia|].
  pose proof (fit_loop_spec (fit_fuel vars) vars room [mkLevel [] vars 0 0] room ([], 0) (fitting_init _ _ H)) as Hf.
  destruct (fit_loop _ _ _ _) as [[[kept omitted] left'] cut].
  destruct Hf as [H1 H2 H3 H4 H5]; [change (queue_size [?lv]) with (level_size lv + 0)%nat; unfold level_size, fit_fuel; cbn [lv_src]; lia|]. cbn [fst snd] in *.
  split_and!; [done|done| | |done|done]; destruct cut; try done.
  - split; [done|]. intros Hlt. injection H3 as -> ->. lia.
  - by injection H3 as -> ->.
Qed.

Lemma Fit_spec_witness :
  let v := mkVar "xs" "[]int" "len 2" true [mkVar "0" "int" "1" false [] 0 "" ""] 3 "" "" in
  0 ≤ 20 ∧ Fit 20 [v; v] = (([bare v], 1, true), 0) ∧ 20 < forest_cost 0 (map full [v; v]).
Proof.
  intros v. assert (E : Fit 20 [v; v] = (([bare v], 1, true), 0)) by (vm_compute; reflexivity).
  split; [lia|]. split; [exact E|].
  pose proof (Fit_spec 20 [v; v] ltac:(lia)) as H. rewrite E in H. by apply H.
Defined.
