(* ===== verification/Slots.v ===== *)
(** * Slots: breakpoints merged for the adapter (internal/session/slots.go, funcbps.go)

    Adapters keep one breakpoint per line or function, so the breakpoints
    requested at one place are merged into a slot. [slotsFor] is the code's
    one-pass grouping; [ref_slots] is the reference it is proved equal to. *)

From S2P Require Import Prelude GoStrings Api PathMap Prog Session.
From Stdlib Require Import Bool.

Open Scope Z_scope.

#[global] Instance slotKey_countable : Countable slotKey.
Proof.
  refine (inj_countable' (fun k => (k_function k, k_line k)) (fun p => mkKey p.1 p.2) _).
  by intros [].
Defined.

Definition sharedFunctionNote : string :=
  "shares its function with another client's breakpoint that has a different condition: it stops there unconditionally".

(** The slot's breakpoints are held by address. *)
Record slot := mkSlot { sl_key : slotKey; sl_condition : string; sl_note : bool; sl_bps : list Z }.
#[global] Instance eta_slot : Eta slot :=
  fun r => mkSlot (sl_key r) (sl_condition r) (sl_note r) (sl_bps r).

Definition condition (b : breakpoint) : string := b_Condition (bp b).

(** The first loop's body: [index] is where each key's slot is. *)
Definition group_step (look : Z → breakpoint) (st : list slot * gmap slotKey nat) (a : Z)
    : list slot * gmap slotKey nat :=
  let '(slots, index) := st in
  let b := look a in
  let '(i, slots, index) :=
    match index !! key b with
    | Some i => (i, slots, index)
    | None => (length slots, slots ++ [mkSlot (key b) (condition b) false []],
               <[key b := length slots]> index)
    end in
  (alter (fun sl => sl <| sl_bps ::= fun l => l ++ [a] |>) i slots, index).

(** The second loop's body. *)
Definition merge_conditions (look : Z → breakpoint) (sl : slot) : slot :=
  let unconditional := existsb (fun a => condition (look a) =?s "") (sl_bps sl) in
  let differ := existsb (fun a => negb (condition (look a) =?s sl_condition sl)) (sl_bps sl) in
  if unconditional then sl <| sl_condition := ""%string |>
  else if differ then sl <| sl_condition := ""%string |> <| sl_note := true |>
  else sl.

Definition slotsFor (look : Z → breakpoint) (l : list Z) : list slot :=
  map (merge_conditions look) (fold_left (group_step look) l ([], ∅)).1.

(** [applySlotsLocked]: one slot's answer on one breakpoint of it. *)
Definition apply_answer (note : string) (g : dapBreakpoint) (b : breakpoint) : breakpoint :=
  let b := b <| adapterID := g_Id g |>
             <| bp ::= fun x => x <| b_Verified := g_Verified g |> <| b_Message := g_Message g |>
                                  <| b_Note := note |> |> in
  let b := if (0 <? g_Line g) && (b_Function (bp b) =?s "")
           then b <| bp ::= fun x => x <| b_Line := g_Line g |> |> else b in
  match g_Source g with
  | Some p => if p =?s "" then b else b <| source := p |>
  | None => b
  end.
Definition slot_note (sl : slot) : string :=
  if sl_note sl && negb (k_function (sl_key sl) =?s "") then sharedFunctionNote else "".
Fixpoint applySlotsLocked (slots : list slot) (got : list dapBreakpoint) (s : Session) : Session :=
  match got, slots with
  | g :: got, sl :: slots =>
    applySlotsLocked slots got (set_bps (sl_bps sl) (apply_answer (slot_note sl) g) s)
  | _, _ => s
  end.

(** ** Sending a list to the adapter (breakpoints.go, funcbps.go)

    The timeout of a request is an adapter error like any other. *)

Definition adapter_ok (a : answer) : result (list dapBreakpoint) :=
  match a with
  | AnsBreakpoints got => Ok got
  | AnsError e => Err e
  | _ => Err (NewError CodeAdapterFailed "unexpected response")
  end.

Definition checkMapped (pm : option PathMap) (spec : BreakpointSpec) : result unit :=
  checkBreakpoint pm spec.

Definition record_answer (slots : list slot) (a : answer) : handler (result unit) :=
  match adapter_ok a with
  | Err e => ret (Err e)
  | Ok got => atomically (fun s => (Ok (), applySlotsLocked slots got s))
  end.

Definition syncFunctionBreakpoints : handler (result unit) :=
  (init <- atomically (fun s => (initialized s, s)) ;;
   if negb init then ret (Ok ())
   else with_lock syncMu (
     slots <- atomically (fun s => (slotsFor (deref s) (list_of s funcKey), s)) ;;
     ans <- send (SetFunctionBreakpoints (map (fun sl => (k_function (sl_key sl), sl_condition sl)) slots)) ;;
     record_answer slots ans))%prog.

Definition zero_spec : BreakpointSpec := mkSpec "" 0 "" "" "" "" "".

Definition syncBreakpoints (file : string) : handler (result unit) :=
  (init <- atomically (fun s => (initialized s, s)) ;;
   if negb init then ret (Ok ())
   else with_lock syncMu (
     sp <- atomically (fun s => ((slotsFor (deref s) (list_of s file), cf_pathMap (conf s)), s)) ;;
     let '(slots, pm) := sp in
     let mapped := match pm with
                   | None => true
                   | Some m => bool_decide (is_Some (ToRemote m file))
                   end in
     if negb mapped then
       ret (match slots with [] => Ok () | _ => checkMapped pm (zero_spec <| sp_File := file |>) end)
     else
       ans <- send (SetBreakpoints file (map (fun sl => (k_line (sl_key sl), sl_condition sl)) slots)) ;;
       record_answer slots ans))%prog.

Definition syncKey (key : string) : handler (result unit) :=
  if key =?s funcKey then syncFunctionBreakpoints else syncBreakpoints key.

(** ** The reference: group by key, in order of first appearance *)

Definition first_keys (ks : list slotKey) : list slotKey :=
  fold_left (fun acc k => if decide (k ∈ acc) then acc else acc ++ [k]) ks [].

Definition at_key (look : Z → breakpoint) (k : slotKey) (l : list Z) : list Z :=
  List.filter (fun a => bool_decide (key (look a) = k)) l.

(** The conditions of a group as one: nothing to check when one of them has
    none, the condition when all have it, and otherwise nothing, with a note. *)
Definition merged (conds : list string) : string * bool :=
  if existsb (fun c => c =?s "") conds then (""%string, false)
  else match conds with
       | [] => (""%string, false)
       | c :: _ => if forallb (fun d => d =?s c) conds then (c, false) else (""%string, true)
       end.

Definition ref_slot (look : Z → breakpoint) (l : list Z) (k : slotKey) : slot :=
  let '(c, note) := merged (map (fun a => condition (look a)) (at_key look k l)) in
  mkSlot k c note (at_key look k l).

Definition ref_slots (look : Z → breakpoint) (l : list Z) : list slot :=
  map (ref_slot look l) (first_keys (map (fun a => key (look a)) l)).

Lemma first_keys_snoc ks k :
  first_keys (ks ++ [k]) = if decide (k ∈ first_keys ks) then first_keys ks else first_keys ks ++ [k].
Proof. unfold first_keys. by rewrite fold_left_app. Qed.

Lemma elem_of_first_keys ks k : k ∈ first_keys ks ↔ k ∈ ks.
Proof.
  revert k. induction ks as [|x ks IH] using rev_ind; intros k; [done|].
  rewrite first_keys_snoc, elem_of_app, list_elem_of_singleton, <- IH.
  case_decide; [|rewrite elem_of_app, list_elem_of_singleton]; naive_solver.
Qed.

Lemma NoDup_first_keys ks : NoDup (first_keys ks).
Proof.
  induction ks as [|x ks IH] using rev_ind; [constructor|].
  rewrite first_keys_snoc. case_decide; [done|]. apply NoDup_app. split_and!; [done| |].
  - intros y Hy ->%list_elem_of_singleton. done.
  - apply NoDup_singleton.
Qed.

Section slots.
Context (look : Z → breakpoint).
Abbreviation keys_of l := (map (fun a => key (look a)) l).

(** What the first loop has built after [l]. *)
Definition raw_slot (l : list Z) (k : slotKey) : slot :=
  mkSlot k (match at_key look k l with a :: _ => condition (look a) | [] => "" end) false (at_key look k l).

Lemma at_key_snoc k l a :
  at_key look k (l ++ [a]) = at_key look k l ++ (if bool_decide (key (look a) = k) then [a] else []).
Proof. unfold at_key. rewrite List.filter_app. simpl. by case_match. Qed.

Lemma at_key_nil k l : k ∉ keys_of l → at_key look k l = [].
Proof.
  intros H. apply filter_negb_nil. intros a Ha. apply bool_decide_eq_false. intros <-.
  apply H, list_elem_of_In. by apply (in_map (fun a => key (look a))).
Qed.

Lemma at_key_cons k l : k ∈ keys_of l → ∃ a rest, at_key look k l = a :: rest.
Proof.
  intros (a & Hk & Ha)%list_elem_of_In%in_map_iff.
  destruct (at_key look k l) as [|x rest] eqn:E; [|by eauto].
  assert (In a []) as []. rewrite <- E. apply List.filter_In. split; [done|]. by apply bool_decide_eq_true.
Qed.

Lemma raw_slot_other k l a : key (look a) ≠ k → raw_slot (l ++ [a]) k = raw_slot l k.
Proof.
  intros H. unfold raw_slot. rewrite at_key_snoc, bool_decide_eq_false_2 by done.
  by rewrite app_nil_r.
Qed.

Lemma raw_slot_same l a :
  raw_slot (l ++ [a]) (key (look a))
  = (if decide (key (look a) ∈ keys_of l) then raw_slot l (key (look a))
     else mkSlot (key (look a)) (condition (look a)) false []) <| sl_bps ::= fun bs => bs ++ [a] |>.
Proof.
  unfold raw_slot. rewrite at_key_snoc, bool_decide_eq_true_2 by done. case_decide as H.
  - destruct (at_key_cons _ _ H) as (x & rest & ->). done.
  - by rewrite (at_key_nil _ _ H).
Qed.

Definition index_ok (ks : list slotKey) (index : gmap slotKey nat) : Prop :=
  ∀ k i, index !! k = Some i ↔ ks !! i = Some k.

Lemma group_step_spec l :
  let '(slots, index) := fold_left (group_step look) l ([], ∅) in
  slots = map (raw_slot l) (first_keys (keys_of l)) ∧ index_ok (first_keys (keys_of l)) index.
Proof.
  induction l as [|a l IH] using rev_ind.
  { split; [done|]. intros k i. simpl. by rewrite lookup_empty.  }
  rewrite fold_left_app. cbn [fold_left].
  destruct (fold_left (group_step look) l ([], ∅)) as [slots index]. destruct IH as [-> Hidx].
  rewrite map_app. cbn [map]. rewrite first_keys_snoc. unfold group_step.
  set (k := key (look a)). set (ks := first_keys (keys_of l)) in *.
  assert (Hother : ∀ ks', k ∉ ks' → map (raw_slot (l ++ [a])) ks' = map (raw_slot l) ks').
  { intros ks' Hk. apply map_ext_in. intros k' Hk'%list_elem_of_In. apply raw_slot_other.
    fold k. intros ->. done. }
  pose proof (NoDup_first_keys (keys_of l)) as Hnd. fold ks in Hnd.
  destruct (index !! k) as [i|] eqn:Hi.
  - pose proof (proj1 (Hidx k i) Hi) as Hki.
    rewrite decide_True by (by eapply list_elem_of_lookup_2). split; [|done].
    destruct (list_elem_of_split_length _ _ _ Hki) as (ks1 & ks2 & Hks & ->).
    rewrite Hks in Hnd. apply NoDup_app in Hnd as (_ & H1 & Hnd). inversion Hnd as [|? ? Hk2 Hnd2]; subst.
    rewrite Hks, !map_app. cbn [map]. rewrite !Hother by (try done; intros Hk1; by apply (H1 k Hk1), list_elem_of_here).
    rewrite <- (length_map (raw_slot l) ks1), alter_app_r_alt, Nat.sub_diag by lia. cbn.
    unfold k. rewrite raw_slot_same. rewrite decide_True; [done|].
    apply elem_of_first_keys. fold ks k. by eapply list_elem_of_lookup_2.
  - assert (Hk : k ∉ ks).
    { intros (i & Hki)%list_elem_of_lookup. apply Hidx in Hki. congruence. }
    rewrite decide_False by done. split.
    + rewrite map_app. cbn [map]. rewrite Hother by done.
      rewrite alter_app_r_alt, Nat.sub_diag by lia. cbn. unfold k. rewrite raw_slot_same.
      rewrite decide_False; [done|]. intros H. apply Hk. by apply elem_of_first_keys.
    + rewrite length_map. intros k' i. destruct (decide (k' = k)) as [->|Hne].
      * rewrite lookup_insert_eq. split.
        { intros [= <-]. by rewrite lookup_app_r, Nat.sub_diag by lia. }
        intros Hl. apply lookup_app_Some in Hl as [Hl|[Hlen Hl]].
        { exfalso. apply Hk. by eapply list_elem_of_lookup_2. }
        destruct (i - length ks)%nat as [|n] eqn:E; [|done]. f_equal. lia.
      * rewrite lookup_insert_ne by done. rewrite (Hidx k' i), lookup_app_Some. split; [by left|].
        intros [?|[Hlen Hl]]; [done|]. destruct (i - length ks)%nat as [|n]; [|done]. naive_solver.
Qed.

Lemma existsb_map_f {A B} (f : A → B) p l : existsb p (map f l) = existsb (fun x => p (f x)) l.
Proof. induction l as [|x l IH]; simpl; [done|by rewrite IH]. Qed.

Lemma existsb_negb {A} (p : A → bool) l : existsb (fun x => negb (p x)) l = negb (forallb p l).
Proof. induction l as [|x l IH]; simpl; [done|]. by rewrite IH, negb_andb. Qed.

Lemma forallb_map_f {A B} (f : A → B) p l : forallb p (map f l) = forallb (fun x => p (f x)) l.
Proof. induction l as [|x l IH]; simpl; [done|by rewrite IH]. Qed.

Lemma merge_raw l k : k ∈ keys_of l → merge_conditions look (raw_slot l k) = ref_slot look l k.
Proof.
  intros (a & rest & Hk)%at_key_cons. unfold merge_conditions, raw_slot, ref_slot, merged.
  rewrite Hk, existsb_map_f, existsb_negb. cbn [sl_bps sl_condition].
  destruct (existsb _ _); [done|]. cbn [map]. cbn [forallb]. rewrite forallb_map_f.
  by destruct (_ && _).
Qed.

Lemma slotsFor_ref l : slotsFor look l = ref_slots look l.
Proof.
  unfold slotsFor, ref_slots. pose proof (group_step_spec l) as H.
  destruct (fold_left (group_step look) l ([], ∅)) as [slots index]. destruct H as [-> _].
  cbn [fst]. rewrite map_map. apply map_ext_in. intros k Hk%list_elem_of_In.
  apply merge_raw. by apply elem_of_first_keys.
Qed.

End slots.

(** ** What a slot's condition says of its breakpoints'

    [holds] is the truth of conditions where the program is; a missing
    condition holds. *)

Definition truth (holds : string → bool) (c : string) : bool := (c =?s "") || holds c.

Lemma merged_covers holds cs c note d :
  merged cs = (c, note) → In d cs → truth holds d = true → truth holds c = true.
Proof.
  unfold merged. case_match eqn:E1; [by intros [= <- <-]|]. destruct cs as [|x cs]; [by intros _ []|].
  case_match eqn:E2; intros [= <- <-] Hd Ht; [|done].
  apply (proj1 (List.forallb_forall _ _) E2) in Hd. apply String.eqb_eq in Hd as ->. done.
Qed.

(** Without a note the merged condition is exact. *)
Lemma merged_exact holds cs c :
  merged cs = (c, false) → cs ≠ [] → truth holds c = existsb (truth holds) cs.
Proof.
  unfold merged. case_match eqn:E1.
  - intros [= <-] _. symmetry. apply existsb_exists. apply existsb_exists in E1 as (x & Hx & Hx0).
    exists x. split; [done|]. unfold truth. by rewrite Hx0.
  - destruct cs as [|x cs]; [done|]. case_match eqn:E2; intros [= <-] _.
    simpl. destruct (truth holds x) eqn:Ex; [done|]. symmetry. apply not_true_is_false.
    intros (y & Hy & Hyt)%existsb_exists.
    assert (Hyx := proj1 (List.forallb_forall _ _) E2 y (or_intror Hy)).
    apply String.eqb_eq in Hyx as ->. congruence.
Qed.

Lemma merged_same cs c : cs ≠ [] → Forall (eq c) cs → merged cs = (c, false).
Proof.
  intros Hne Hall. unfold merged. case_match eqn:E1.
  - apply existsb_exists in E1 as (x & Hx & ->%String.eqb_eq).
    by rewrite (proj1 (List.Forall_forall _ _) Hall "" Hx).
  - destruct cs as [|x cs]; [done|]. inversion Hall; subst. case_match eqn:E2; [done|].
    exfalso. apply not_true_iff_false in E2. apply E2, List.forallb_forall. intros y Hy.
    rewrite (proj1 (List.Forall_forall _ _) Hall y Hy). apply String.eqb_refl.
Qed.

(** The one-pass grouping by a map of slot indices is the reference
    grouping: one slot per distinct place, in order of first appearance, with
    the merged condition and, in order, every breakpoint requested there. *)
Theorem slotsFor_reference look l :
  slotsFor look l = ref_slots look l
  ∧ NoDup (map sl_key (slotsFor look l))
  ∧ ∀ a, a ∈ l ↔ ∃ sl, sl ∈ slotsFor look l ∧ sl_key sl = key (look a) ∧ a ∈ sl_bps sl.
Proof.
  rewrite slotsFor_ref. split; [done|]. unfold ref_slots.
  assert (Hkey : ∀ k, sl_key (ref_slot look l k) = k) by (intros k; unfold ref_slot; by destruct (merged _)).
  assert (Hbps : ∀ k, sl_bps (ref_slot look l k) = at_key look k l) by (intros k; unfold ref_slot; by destruct (merged _)).
  split.
  - rewrite map_map, (map_ext _ id), map_id by apply Hkey. apply NoDup_first_keys.
  - intros a. split.
    + intros Ha. exists (ref_slot look l (key (look a))). rewrite Hkey, Hbps. split_and!; [|done|].
      * apply list_elem_of_In, (in_map (ref_slot look l)), list_elem_of_In, elem_of_first_keys.
        apply list_elem_of_In, (in_map (fun a => key (look a))). by apply list_elem_of_In.
      * apply list_elem_of_In, List.filter_In. split; [by apply list_elem_of_In|by apply bool_decide_eq_true].
    + intros (sl & (k & <- & _)%list_elem_of_In%in_map_iff & _ & Ha). rewrite Hbps in Ha.
      apply list_elem_of_In, List.filter_In in Ha as [Ha _]. by apply list_elem_of_In.
Qed.
