(* ===== verification/Adapter.v ===== *)
(** * Requests to the adapter, and its output (session.go, emulate.go)

    The round trips the session's operations are built from. A request's
    timeout and a closed connection are adapter errors ([AnsError]) like a
    refusal; an answer of another kind is the error [dap.Call] makes of it. *)

From S2P Require Import Prelude GoStrings Api EventLog Prog Session Present.
From Stdlib Require Import Bool.

Open Scope Z_scope.

Definition maxOutputChunk : Z := 64 * 1024.
Definition contextWatch : string := "watch".
Definition contextRepl : string := "repl".

Definition unexpected : Error := NewError CodeInternal "unexpected DAP response".

(** [s.client.Do]: any answer but an error will do. *)
Definition answer_ok (a : answer) : result unit :=
  match a with AnsError e => Err e | _ => Ok () end.

(** A frame as clients see it, by its index on the stack, and its id. *)
Definition api_frame (i : nat) (g : dapFrame) : Frame * Z :=
  (mkFrame (Z.of_nat i) (gf_Name g) (default ""%string (gf_Source g)) (gf_Line g) (gf_Column g), gf_Id g).
Definition stack (thread levels : Z) : handler (result (list (Frame * Z))) :=
  (ans <- send (StackTrace thread levels) ;;
   ret (match ans with AnsStack frames => Ok (imap api_frame frames) | AnsError e => Err e | _ => Err unexpected end))%prog.

Definition evalBody (fid : Z) (expr evalContext : string) : handler (result (string * string * Z)) :=
  (ans <- send (Evaluate expr fid evalContext) ;;
   ret (match ans with AnsEvaluate v t r => Ok (v, t, r) | AnsError e => Err e | _ => Err unexpected end))%prog.
Definition evalRaw (fid : Z) (expr : string) : handler (result string) :=
  (body <- evalBody fid expr contextWatch ;;
   ret (match body with Ok (v, _, _) => Ok v | Err e => Err e end))%prog.

(** The kinds that are DAP requests; the others are refused without one. *)
Definition dap_kind (k : exec_kind) : bool :=
  match k with
  | ExecContinue | ExecNext | ExecStepIn | ExecStepOut | ExecPause => true
  | ExecRunUntil | ExecEval | ExecSet => false
  end.
Definition sendExec (k : exec_kind) (thread : Z) : handler (result unit) :=
  if dap_kind k then (ans <- send (Execute k thread) ;; ret (answer_ok ans))%prog
  else ret (Err (NewError CodeInvalidRequest ("unknown execution kind " +:+ exec_name k))).

(** [appendOutputLocked]: a chunk of output, cut to [maxOutputChunk]. *)
Definition appendOutputLocked (now : Z) (category text : string) (s : Session) : Session :=
  if (category =?s "telemetry") || (text =?s "") then s
  else
    let category := if category =?s "" then "console"%string else category in
    let cut := CutText text maxOutputChunk false in
    let '(e, l) := append now ((event EventOutput) <| ev_Category := category |> <| ev_Text := cut |>
                                 <| ev_Truncated := slen cut <? slen text |>) (s_log s) in
    s <| s_log := l |> <| lastOutput := ev_Seq e |>.

(** ** Programs that only ask *)

(** A program that only asks the adapter: what it returns depends on the
    answers, the session is as it was. *)
Definition asks {A} (p : handler A) : Prop :=
  ∀ ad s h, ∃ a t, run ad p s h = (a, s, h ++ t).

Lemma asks_ret {A} (a : A) : asks (ret a).
Proof. intros ad s h. exists a, []. simpl. by rewrite app_nil_r. Qed.

Lemma asks_bind {A B} (p : handler A) (k : A → handler B) :
  asks p → (∀ a, asks (k a)) → asks (pbind p k).
Proof.
  intros Hp Hk ad s h. destruct (Hp ad s h) as (a & t & Ha). destruct (Hk a ad s (h ++ t)) as (b & t' & Hb).
  exists b, (t ++ t'). rewrite run_bind, Ha, Hb. by rewrite app_assoc.
Qed.

Lemma asks_send q : asks (send q : handler answer).
Proof. intros ad s h. by exists (ad h q), [q]. Qed.

Lemma asks_read {A} (f : Session → A) : asks (atomically (fun s => (f s, s))).
Proof. intros ad s h. exists (f s), []. simpl. by rewrite app_nil_r. Qed.

Create HintDb asks discriminated.
#[export] Hint Resolve asks_ret asks_send asks_read : asks.

Lemma asks_evalBody fid e ctx : asks (evalBody fid e ctx).
Proof. unfold evalBody. apply asks_bind; auto with asks. Qed.
#[export] Hint Resolve asks_evalBody : asks.

Lemma asks_evalRaw fid e : asks (evalRaw fid e).
Proof. unfold evalRaw. apply asks_bind; auto with asks. Qed.

Lemma asks_stack thread n : asks (stack thread n).
Proof. unfold stack. apply asks_bind; auto with asks. Qed.
#[export] Hint Resolve asks_evalRaw asks_stack : asks.
