(* ===== verification/Inspect.v ===== *)
(** * Looking at a stopped program (internal/session/inspect.go, session.go)

    Stacks, scopes and variables, the paths that name a member, the capture
    of a stop's locals that the next stop is compared with, output, events
    and lines of source. *)

From S2P Require Import Prelude GoStrings Api PathMap EventLog Prog Session Anchor Present Fit Adapter.
From Stdlib Require Import Ascii Bool.

Open Scope Z_scope.

Definition maxChildren : Z := 50.
Definition maxValueLength : Z := 200.

(** ** Paths of members *)

Definition dot : ascii := ".".
Definition open_bracket : ascii := "[".
Definition close_bracket : ascii := "]".

(** A name up to the next "." or "[" ([strings.IndexAny]). *)
Fixpoint cut_name (s : string) : string * string :=
  match s with
  | EmptyString => (""%string, ""%string)
  | String c s' =>
    if Ascii.eqb c dot || Ascii.eqb c open_bracket then (""%string, s)
    else let '(n, rest) := cut_name s' in (String c n, rest)
  end.

Fixpoint splitPath_go (fuel : nat) (path rest : string) (segs : list string) : result (list string) :=
  match fuel, rest with
  | S fuel, String c rest' =>
    if Ascii.eqb c open_bracket then
      match index_byte close_bracket rest with
      | None => Err (invalid ("unclosed [ in " +:+ path))
      | Some end_ => splitPath_go fuel path (sdrop (S end_) rest) (segs ++ [stake (S end_) rest])
      end
    else if Ascii.eqb c dot && negb (bool_decide (segs = [])) then splitPath_go fuel path rest' segs
    else
      let '(name, rest) := cut_name rest in
      if name =?s "" then Err (invalid ("empty name in " +:+ path))
      else splitPath_go fuel path rest (segs ++ [name])
  | _, _ => match segs with [] => Err (invalid "empty variable path") | _ => Ok segs end
  end.
Definition splitPath (path : string) : result (list string) :=
  splitPath_go (String.length path) path path [].

Fixpoint joinPath_go (first : bool) (segs : list string) : string :=
  match segs with
  | [] => ""
  | seg :: segs =>
    (if negb first && negb (has_prefix "[" seg) then "." +:+ seg else seg) +:+ joinPath_go false segs
  end.
Definition joinPath (segs : list string) : string := joinPath_go true segs.

(** ** Reading frames and variables *)

Definition truncate (v : string) : string :=
  if rune_count v <=? maxValueLength then v
  else cut_runes (Z.to_nat maxValueLength) v +:+ ellipsis.

Definition scopes (fid : Z) : handler (result (list dapScope)) :=
  (ans <- send (Scopes fid) ;;
   ret (match ans with AnsScopes l => Ok l | AnsError e => Err e | _ => Err unexpected end))%prog.

Definition children (ref : Z) : handler (result (list dapVariable)) :=
  (ans <- send (Variables ref) ;;
   ret (match ans with AnsVariables l => Ok l | AnsError e => Err e | _ => Err unexpected end))%prog.

(** [f] on each of [l] in turn, until one fails. *)
Fixpoint each {A B} (f : A → handler (result B)) (l : list A) : handler (result (list B)) :=
  match l with
  | [] => ret (Ok [])
  | a :: l =>
    (b <- f a ;;
     match b with
     | Err e => ret (Err e)
     | Ok b => bs <- each f l ;; ret (match bs with Ok bs => Ok (b :: bs) | Err e => Err e end)
     end)%prog
  end.

Definition api_var (v : dapVariable) (cs : list Var) (more : Z) : Var :=
  mkVar (g_Name v) (g_Type v) (truncate (g_Value v)) (0 <? g_Ref v) cs more "" "".

(** The first [maxChildren] and how many more there are. *)
Definition first_children (vars : list dapVariable) : list dapVariable * Z :=
  (take (Z.to_nat maxChildren) vars, Z.max 0 (Z.of_nat (length vars) - maxChildren)).

(** [variables]: [depth] is one less than the code's, 0 for 1 and below. *)
Fixpoint variables (depth : nat) (ref : Z) : handler (result (list Var * Z)) :=
  (vars <- children ref ;;
   match vars with
   | Err e => ret (Err e)
   | Ok vars =>
     let '(vars, more) := first_children vars in
     out <- each (fun v =>
       match depth with
       | S depth =>
         if 0 <? g_Ref v then
           sub <- variables depth (g_Ref v) ;;
           ret (match sub with Ok (cs, m) => Ok (api_var v cs m) | Err e => Err e end)
         else ret (Ok (api_var v [] 0))
       | O => ret (Ok (api_var v [] 0))
       end) vars ;;
     ret (match out with Ok out => Ok (out, more) | Err e => Err e end)
   end)%prog.
Definition depth_of (depth : Z) : nat := Z.to_nat (depth - 1).

Definition localScopes (l : list dapScope) : list dapScope :=
  let marked := List.filter (fun sc => gs_Hint sc =?s "locals") l in
  match marked with
  | [] => List.filter (fun sc => negb (gs_Expensive sc)) l
  | _ => marked
  end.

Definition frameLocals (fid : Z) : handler (result (list Var * Z)) :=
  (scs <- scopes fid ;;
   match scs with
   | Err e => ret (Err e)
   | Ok scs =>
     parts <- each (fun sc => variables 0 (gs_Ref sc)) (localScopes scs) ;;
     ret (match parts with
          | Ok parts => Ok (concat parts.*1, list_sum_Z snd parts)
          | Err e => Err e
          end)
   end)%prog.

Definition requireStopped (s : Session) : result Z :=
  if decide (state s = StateStopped) then Ok (si_ThreadID (stop s))
  else Err (stateError (s_ID s) (state s) "inspecting needs a stopped program").

Definition Stack (threadID levels : Z) : handler (result (list Frame)) :=
  (st <- atomically (fun s => (requireStopped s, s)) ;;
   match st with
   | Err e => ret (Err e)
   | Ok stopped =>
     frames <- stack (if threadID =? 0 then stopped else threadID) levels ;;
     ret (match frames with Ok fs => Ok fs.*1 | Err e => Err e end)
   end)%prog.

(** [frameID]; frames are numbered by their order. *)
Definition frameID (index : Z) : handler (result Z) :=
  (st <- atomically (fun s => (requireStopped s, s)) ;;
   match st with
   | Err e => ret (Err e)
   | Ok stopped =>
     frames <- stack stopped (wrap64 (index + 1)) ;;
     ret (match frames with
          | Err e => Err e
          | Ok fs =>
            match (if index <? 0 then None else fs !! Z.to_nat index) with
            | Some (_, id) => Ok id
            | None => Err (invalid ("frame " +:+ itoa index +:+ " does not exist (the stack has "
                                    +:+ itoa (Z.of_nat (length fs)) +:+ ")"))
            end
          end)
   end)%prog.

(** The scopes of frame number [frameIndex], with its id. *)
Definition frame_scopes (frameIndex : Z) : handler (result (Z * list dapScope)) :=
  (fid <- frameID frameIndex ;;
   match fid with
   | Err e => ret (Err e)
   | Ok fid => scs <- scopes fid ;; ret (match scs with Ok scs => Ok (fid, scs) | Err e => Err e end)
   end)%prog.

(** The loop of [Vars]: [room] is the fitter's. *)
Fixpoint vars_loop (depth : Z) (room : Z) (l : list dapScope) : handler (result (list Scope)) :=
  match l with
  | [] => ret (Ok [])
  | sc :: l =>
    (fitted <- (if gs_Expensive sc then ret (Ok (mkScope (gs_Name sc) [] 0 true false, room))
               else
                 vars <- variables (depth_of depth) (gs_Ref sc) ;;
                 ret (match vars with
                      | Err e => Err e
                      | Ok (vars, more) =>
                        let '((kept, omitted, cut), room) := Fit room vars in
                        Ok (mkScope (gs_Name sc) kept (more + omitted) false cut, room)
                      end)) ;;
     match fitted with
     | Err e => ret (Err e)
     | Ok (scope, room) =>
       rest <- vars_loop depth room l ;;
       ret (match rest with Ok rest => Ok (scope :: rest) | Err e => Err e end)
     end)%prog
  end.
Definition Vars (frameIndex depth budget : Z) : handler (result (list Scope)) :=
  (scs <- frame_scopes frameIndex ;;
   match scs with
   | Err e => ret (Err e)
   | Ok (_, scs) => vars_loop depth (NewFitter budget) scs
   end)%prog.

Definition noMember (parent : list string) (seg : string) : Error :=
  invalid ("no " +:+ seg +:+ " in " +:+
           match parent with [] => "the frame's variables"%string | _ => joinPath parent end).
Definition noMembers (segs : list string) : Error := invalid (joinPath segs +:+ " has no members").

(** [walk], with [before] the segments followed so far. *)
Fixpoint walk_from (before : list string) (candidates : list dapVariable) (segs : list string)
    : handler (result dapVariable) :=
  match segs with
  | [] => ret (Ok (mkDapVar "" "" "" 0))
  | seg :: segs =>
    match List.find (fun c => g_Name c =?s seg) candidates with
    | None => ret (Err (noMember before seg))
    | Some cur =>
      match segs with
      | [] => ret (Ok cur)
      | _ =>
        if g_Ref cur =? 0 then ret (Err (noMembers (before ++ [seg])))
        else
          (cs <- children (g_Ref cur) ;;
           match cs with
           | Err e => ret (Err e)
           | Ok cs => walk_from (before ++ [seg]) cs segs
           end)%prog
      end
    end
  end.
Definition walk := walk_from [].

Definition sideEffectsOf (expr : string) : handler (option string) :=
  atomically (fun s => (match cf_sideEffects (conf s) with Some check => check expr | None => None end, s)).

Definition evaluatePath (fid : Z) (path : string) (walkErr : Error) : handler (result dapVariable) :=
  (found <- sideEffectsOf path ;;
   match found with
   | Some _ => ret (Err walkErr)
   | None =>
     body <- evalBody fid path contextWatch ;;
     ret (match body with Ok (v, t, r) => Ok (mkDapVar path t v r) | Err _ => Err walkErr end)
   end)%prog.

Definition cheap_refs (l : list dapScope) : list Z :=
  map gs_Ref (List.filter (fun sc => negb (gs_Expensive sc)) l).

Definition Expand (frameIndex : Z) (path : string) (depth budget : Z) : handler (result (list Scope)) :=
  match splitPath path with
  | Err e => ret (Err e)
  | Ok segs =>
    (scs <- frame_scopes frameIndex ;;
     match scs with
     | Err e => ret (Err e)
     | Ok (fid, scs) =>
       lists <- each children (cheap_refs scs) ;;
       match lists with
       | Err e => ret (Err e)
       | Ok lists =>
         found <- walk (concat lists) segs ;;
         target <- match found with
                   | Ok v => ret (Ok v)
                   | Err e => evaluatePath fid path e
                   end ;;
         match target with
         | Err e => ret (Err e)
         | Ok t =>
           sub <- (if 0 <? g_Ref t then variables (depth_of depth) (g_Ref t) else ret (Ok ([], 0))) ;;
           ret (match sub with
                | Err e => Err e
                | Ok (cs, more) =>
                  let '((kept, omitted, cut), _) := Fit (NewFitter budget) [api_var t cs more] in
                  Ok [mkScope path kept omitted false cut]
                end)
         end
       end
     end)%prog
  end.

(** ** The capture of a stop *)

(** The capture in hand, if it is the current stop's and nothing changed
    since; else the state, stop number and thread to fetch it at. *)
Definition captured (s : Session) : option (stopCapture * option stopCapture) * (SessionState * Z * Z * string) :=
  (match cur s with
   | Some c => if (sc_stops c =? stops s) && negb (curStale s) then Some (c, prev s) else None
   | None => None
   end, (state s, stops s, si_ThreadID (stop s), s_ID s)).

(** What is fetched is kept, unless the program was resumed meanwhile. *)
Definition keepCapture (c : stopCapture) (s : Session) : (stopCapture * option stopCapture) * Session :=
  if negb (stops s =? sc_stops c) then ((c, cur s), s)
  else
    let moved := match cur s with Some old => negb (sc_stops old =? sc_stops c) | None => true end in
    let s := if moved then s <| prev := cur s |> else s in
    let s := s <| cur := Some c |> <| curStale := false |> in
    ((c, prev s), s).

(** A refetch of a stop's capture (after a change made it stale) that ends
    when the program was resumed meanwhile has the stale capture of the same
    stop as the one before it. *)
Lemma keepCapture_same_stop c old s :
  cur s = Some old → sc_stops old = sc_stops c → stops s ≠ sc_stops c →
  ∃ before, (keepCapture c s).1 = (c, Some before) ∧ sc_stops before = sc_stops c.
Proof.
  intros Hc Ho Hs. exists old. unfold keepCapture. destruct (Z.eqb_spec (stops s) (sc_stops c)); [done|]. by rewrite <- Hc.
Qed.

Definition capture : handler (result (stopCapture * option stopCapture)) :=
  with_lock captureMu (
    have <- atomically (fun s => (captured s, s)) ;;
    match have with
    | (Some got, _) => ret (Ok got)
    | (None, (st, stops, thread, id)) =>
      if decide (st = StateStopped) then
        frames <- stack thread 1 ;;
        match frames with
        | Err e => ret (Err e)
        | Ok [] => r <- atomically (keepCapture (mkCapture stops noFrame [] 0)) ;; ret (Ok r)
        | Ok ((f, fid) :: _) =>
          locals <- frameLocals fid ;;
          match locals with
          | Err e => ret (Err e)
          | Ok (vars, more) => r <- atomically (keepCapture (mkCapture stops f vars more)) ;; ret (Ok r)
          end
        end
      else ret (Err (stateError id st "reading locals needs a stopped program"))
    end)%prog.

(** [changes] *)
Definition changes (cur : stopCapture) (prev : option stopCapture) : Changes :=
  let fresh := mkChanges true (Diff [] (sc_locals cur)) 0 false in
  match prev with
  | None => fresh
  | Some p =>
    if negb (fr_Name (sc_frame p) =?s fr_Name (sc_frame cur)) || negb (fr_File (sc_frame p) =?s fr_File (sc_frame cur))
    then fresh
    else mkChanges false (Diff (sc_locals p) (sc_locals cur)) 0 false
  end.

Definition changed_scope (ch : Changes) (budget : Z) : Scope :=
  let '((kept, omitted, cut), _) := Fit (NewFitter budget) (ch_Vars ch) in
  mkScope (if ch_NewFrame ch then "Locals (first stop in this function: all new)"
           else "Changed since the previous stop") kept omitted false cut.
Definition Changes_ (budget : Z) : handler (result (list Scope)) :=
  (c <- capture ;;
   ret (match c with Ok (cur, prev) => Ok [changed_scope (changes cur prev) budget] | Err e => Err e end))%prog.

(** [markStale]: the next capture fetches the current stop's locals again. *)
Definition markStale : handler unit :=
  with_lock captureMu (atomically (fun s => ((), s <| curStale := true |>))).

(** ** Output, events and source *)

Definition Output (since tail : Z) (s : Session) : list OutputLine * Z :=
  let lines := outputSince since (s_log s) in
  let lines := if (0 <? tail) && (tail <? Z.of_nat (length lines))
               then drop (length lines - Z.to_nat tail) lines else lines in
  CapOutput lines MaxResultBytes (0 <? tail).

Definition checkEventKinds (kinds : list string) : result unit :=
  match List.find (fun k => negb (existsb (fun k' => kind_name k' =?s k) EventKinds)) kinds with
  | Some k => Err (invalid ("unknown event kind " +:+ quote k))
  | None => Ok ()
  end.

(** [Events]'s answer, made of the log's. *)
Definition shaped (jsonSize : Event → Z) (q : EventsParams) (res : EventsResult) : EventsResult :=
  let '(events, omitted) := ShapeEvents jsonSize (er_Events res) (q_Budget q) (q_Newest q) in
  res <| er_Events := events |> <| er_More ::= Z.add omitted |>.

(** The lines [bufio.Scanner] reads: it stops at one that doesn't fit its
    buffer with its newline. *)
Definition maxScanToken : Z := 64 * 1024.
Fixpoint scan_lines (lines : list string) : list string :=
  match lines with
  | [] => []
  | l :: rest =>
    if (slen l <? maxScanToken) && negb (bool_decide (rest = []) && (l =?s ""))
    then trim_suffix CR l :: scan_lines rest else []
  end.

(** The lines from [line - around] to [line + around], the first being [n]. *)
Fixpoint source_window (line around n : Z) (lines : list string) : list SourceLine :=
  match lines with
  | [] => []
  | l :: lines =>
    if n <? line - around then source_window line around (n + 1) lines
    else if line + around <? n then []
    else mkSourceLine n l (n =? line) :: source_window line around (n + 1) lines
  end.

Definition readSource (f : fs) (m : option PathMap) (path : string) (line around : Z) : list SourceLine :=
  if (path =?s "") || (line <? 1) then []
  else if negb (match m with Some m => Readable (fs_EvalSymlinks f) m path | None => true end) then []
  else match fs_read f path with
       | Err _ => []
       | Ok data =>
         if maxSourceFileSize <? slen data then []
         else source_window line around 1 (scan_lines (split_on LF data))
       end.

(** ** Paths read back *)

Definition is_sep (c : ascii) : bool := Ascii.eqb c dot || Ascii.eqb c open_bracket.

(** A segment as the adapter shows a member: "[...]" up to the first "]", or
    a name without "." and "[". *)
Definition good_seg (s : string) : Prop :=
  (∃ inner, s = String open_bracket (inner +:+ "]") ∧ contains_byte close_bracket inner = false)
  ∨ (s ≠ ""%string ∧ all_bytes (fun c => negb (is_sep c)) s = true).

Lemma cut_name_app n rest :
  all_bytes (fun c => negb (is_sep c)) n = true →
  match rest with String c _ => is_sep c = true | EmptyString => True end →
  cut_name (n +:+ rest) = (n, rest).
Proof.
  intros Hn Hr. induction n as [|c n IH]; cbn [all_bytes] in Hn.
  - destruct rest as [|c rest]; [done|]. cbn. unfold is_sep in Hr. by rewrite Hr.
  - apply andb_true_iff in Hn as [Hc Hn]. cbn. apply negb_true_iff in Hc. unfold is_sep in Hc.
    rewrite Hc. by rewrite (IH Hn).
Qed.

Lemma cut_name_split s n rest :
  cut_name s = (n, rest) → s = n +:+ rest ∧ all_bytes (fun c => negb (is_sep c)) n = true.
Proof.
  revert n rest. induction s as [|c s IH]; intros n rest; cbn [cut_name]; [by intros [= <- <-]|].
  destruct (_ || _) eqn:E; [by intros [= <- <-]|]. destruct (cut_name s) as [n' rest'].
  intros [= <- <-]. destruct (IH n' rest' eq_refl) as [-> Hn]. split; [done|].
  cbn. unfold is_sep. by rewrite E.
Qed.

Lemma index_byte_at a s1 s2 :
  contains_byte a s1 = false → index_byte a (s1 +:+ String a s2) = Some (String.length s1).
Proof.
  induction s1 as [|c s1 IH]; cbn; [by rewrite Ascii.eqb_refl|].
  intros [Hc H]%orb_false_iff. rewrite Hc. by rewrite (IH H).
Qed.

Lemma index_byte_Some a s n :
  index_byte a s = Some n → ∃ x y, s = x +:+ String a y ∧ contains_byte a x = false ∧ n = String.length x.
Proof.
  revert n. induction s as [|c s IH]; intros n; cbn; [done|]. destruct (Ascii.eqb a c) eqn:E.
  - intros [= <-]. apply Ascii.eqb_eq in E as ->. by exists "", s.
  - destruct (index_byte a s) as [k|]; [|done]. intros [= <-].
    destruct (IH k eq_refl) as (x & y & -> & Hx & ->). exists (String c x), y. cbn. by rewrite E, Hx.
Qed.

(** What follows a segment in a joined path starts with a separator. *)
Lemma joinPath_sep segs :
  Forall good_seg segs → match joinPath_go false segs with String c _ => is_sep c = true | EmptyString => True end.
Proof.
  destruct segs as [|seg segs]; [done|]. intros [Hs _]%Forall_cons. cbn [joinPath_go].
  destruct (has_prefix "[" seg) eqn:E; [|done].
  by apply has_prefix_spec in E as [r ->].
Qed.

Lemma bracket_shape inner rest :
  contains_byte close_bracket inner = false →
  let s := String open_bracket (inner +:+ "]") in
  index_byte close_bracket (s +:+ rest) = Some (S (String.length inner))
  ∧ stake (S (S (String.length inner))) (s +:+ rest) = s ∧ sdrop (S (S (String.length inner))) (s +:+ rest) = rest.
Proof.
  intros H s. assert (Hs : s +:+ rest = String open_bracket (inner +:+ String close_bracket rest)).
  { unfold s. cbn. by rewrite string_app_assoc. }
  assert (Hl : String.length s = S (S (String.length inner))) by (unfold s; cbn; rewrite string_app_length; cbn; lia).
  split_and!.
  - rewrite Hs. cbn [index_byte]. by rewrite (index_byte_at _ _ _ H).
  - rewrite <- Hl. apply stake_app.
  - rewrite <- Hl. apply sdrop_app.
Qed.

Lemma splitPath_join fuel path segs acc first :
  Forall good_seg segs → segs ++ acc ≠ [] → (first = true ↔ acc = []) →
  (String.length (joinPath_go first segs) ≤ fuel)%nat →
  splitPath_go fuel path (joinPath_go first segs) acc = Ok (acc ++ segs).
Proof.
  intros Hg. revert fuel acc first. induction Hg as [|seg segs Hs Hg IH]; intros fuel acc first Hne Hf Hl.
  { rewrite app_nil_r. cbn [app] in Hne. destruct fuel; cbn; by destruct acc. }
  assert (Hnext : ∀ fuel, (String.length (joinPath_go false segs) ≤ fuel)%nat →
    splitPath_go fuel path (joinPath_go false segs) (acc ++ [seg]) = Ok (acc ++ seg :: segs)).
  { intros fuel' Hl'. rewrite IH; [by rewrite <- app_assoc|by destruct segs, acc| |done].
    split; [done|]. by destruct acc. }
  assert (Hname : ∀ fuel, seg ≠ ""%string → all_bytes (fun c => negb (is_sep c)) seg = true →
    (String.length (seg +:+ joinPath_go false segs) ≤ fuel)%nat →
    splitPath_go fuel path (seg +:+ joinPath_go false segs) acc = Ok (acc ++ seg :: segs)).
  { intros fuel' Hn Ha Hl'. pose proof (cut_name_app seg _ Ha (joinPath_sep _ Hg)) as Hcut.
    rewrite string_app_length in Hl'. destruct seg as [|c seg]; [done|]. destruct fuel' as [|fuel']; [cbn in Hl'; lia|].
    cbn [String.append splitPath_go] in *. cbn [all_bytes] in Ha. apply andb_true_iff in Ha as [Hc _].
    apply negb_true_iff, orb_false_iff in Hc as [Hd Hb].
 rewrite Hb, Hd, Hcut. cbn [andb].
    change (String c seg =?s "") with false. cbv iota. apply Hnext. cbn in Hl'. lia. }
  cbn [joinPath_go] in *. destruct Hs as [(inner & -> & Hin)|(Hn & Ha)].
  - change (has_prefix "[" (String open_bracket (inner +:+ "]"))) with true in *. rewrite andb_false_r in *.
    destruct (bracket_shape inner (joinPath_go false segs) Hin) as (H1 & H2 & H3).
    rewrite string_app_length in Hl. destruct fuel as [|fuel]; [cbn in Hl; lia|].
    cbn [String.append] in *. cbn [splitPath_go]. change (Ascii.eqb open_bracket open_bracket) with true. cbv iota.
    rewrite H1. cbv iota beta. rewrite H2, H3. apply Hnext. cbn in Hl. lia.
  - assert (Hp : has_prefix "[" seg = false).
    { destruct (has_prefix "[" seg) eqn:E; [|done]. apply has_prefix_spec in E as [r ->]. done. }
    rewrite Hp in *. destruct first; cbn [negb andb] in *; [by apply Hname|].
    change (("." +:+ seg) +:+ joinPath_go false segs) with (String dot (seg +:+ joinPath_go false segs)) in *.
    destruct fuel as [|fuel]; [cbn in Hl; lia|]. cbn [splitPath_go].
    change (Ascii.eqb dot open_bracket) with false. change (Ascii.eqb dot dot) with true.
    destruct acc as [|a acc]; [by destruct Hf as [_ Hf]; specialize (Hf eq_refl)|].
    cbn [andb]. rewrite bool_decide_eq_false_2 by done. apply Hname; [done|done|]. cbn in Hl. lia.
Qed.

Lemma splitPath_good fuel path rest acc segs :
  Forall good_seg acc → splitPath_go fuel path rest acc = Ok segs → Forall good_seg segs ∧ segs ≠ [].
Proof.
  revert rest acc. induction fuel as [|fuel IH]; intros rest acc Hacc; [|destruct rest as [|c rest]];
    try (cbn; destruct acc; [done|by intros [= <-]]).
  cbn [splitPath_go]. destruct (Ascii.eqb c open_bracket) eqn:Ec.
  - apply Ascii.eqb_eq in Ec as ->. destruct (index_byte _ _) as [n|] eqn:En; [|done]. apply IH.
    apply Forall_app. split; [done|]. apply Forall_singleton. left.
    cbn [index_byte] in En. change (Ascii.eqb close_bracket open_bracket) with false in En. cbv iota in En.
    destruct (index_byte close_bracket rest) as [k|] eqn:Ek; [|done]. injection En as <-.
    apply index_byte_Some in Ek as (x & y & -> & Hx & ->). exists x. split; [|done].
    pose proof (bracket_shape x y Hx) as (_ & H2 & _). cbn [String.append] in H2.
    rewrite string_app_assoc in H2. exact H2.
  - destruct (_ && _); [by apply IH|]. destruct (cut_name _) as [n r] eqn:Ecut.
    destruct (String.eqb_spec n "") as [|Hn]; [done|]. apply IH. apply Forall_app. split; [done|].
    apply Forall_singleton. right. split; [done|]. by apply cut_name_split in Ecut as [_ ?].
Qed.

(** A variable's path that [splitPath] takes is one or more segments, each a
    member's name or an index as the adapter shows it, and joining them
    gives a path that splits into the same segments; so does joining any
    segments of those two shapes. *)
Theorem splitPath_joinPath segs :
  (Forall good_seg segs ∧ segs ≠ [] ↔ splitPath (joinPath segs) = Ok segs)
  ∧ ∀ path, splitPath path = Ok segs → splitPath (joinPath segs) = Ok segs.
Proof.
  assert (H : Forall good_seg segs ∧ segs ≠ [] → splitPath (joinPath segs) = Ok segs).
  { intros [Hg Hne]. unfold splitPath, joinPath. rewrite splitPath_join; [done|done|by rewrite app_nil_r|done|done]. }
  split; [split; [done|]|]; intros; [|apply H]; by eapply splitPath_good; [constructor|eassumption].
Qed.

(** ** Bounds of a tree of variables *)

(** At most [maxChildren] in every list, and nothing below [depth]. *)
Fixpoint bounded (depth : nat) (vs : list Var) : Prop :=
  Z.of_nat (length vs) ≤ maxChildren ∧
  match depth with
  | O => Forall (fun v => v_Children v = []) vs
  | S depth => Forall (fun v => bounded depth (v_Children v)) vs
  end.

(** Requests for a tree of that depth: one per list. *)
Fixpoint request_bound (depth : nat) : Z :=
  match depth with O => 1 | S depth => 1 + maxChildren * request_bound depth end.

Lemma request_bound_pos depth : 1 ≤ request_bound depth.
Proof. unfold maxChildren. induction depth as [|depth IH]; cbn [request_bound]; unfold maxChildren in *; lia. Qed.

Lemma run_each {A B} (f : A → handler (result B)) (P : B → Prop) k ad l s h :
  (∀ a s h, let '(r, s', h') := run ad (f a) s h in
     s' = s ∧ (∃ t, h' = h ++ t ∧ Z.of_nat (length t) ≤ k) ∧ match r with Ok b => P b | Err _ => True end) →
  0 ≤ k →
  let '(r, s', h') := run ad (each f l) s h in
  s' = s ∧ (∃ t, h' = h ++ t ∧ Z.of_nat (length t) ≤ Z.of_nat (length l) * k)
  ∧ match r with Ok bs => length bs = length l ∧ Forall P bs | Err _ => True end.
Proof.
  intros Hf Hk. revert h. induction l as [|a l IH]; intros h; cbn [each].
  { cbn. split_and!; [done| |done|constructor]. exists []. rewrite app_nil_r. split; [done|cbn; lia]. }
  rewrite run_bind. specialize (Hf a s h). destruct (run ad (f a) s h) as [[[b|e] s1] h1];
    destruct Hf as (-> & (t & -> & Ht) & HP).
  2: { cbn. split_and!; [done| |done]. exists t. split; [done|]. cbn [length]. nia. }
  rewrite run_bind. specialize (IH (h ++ t)). destruct (run ad (each f l) s (h ++ t)) as [[[bs|e] s2] h2];
    destruct IH as (-> & (t' & -> & Ht') & HPs); cbn [run ret]; (split; [done|]);
    (split; [exists (t ++ t'); rewrite app_assoc; split; [done|]; rewrite length_app; cbn [length]; nia|]); [|done].
  destruct HPs. split; [cbn; lia|by constructor].
Qed.

Lemma first_children_length vars : Z.of_nat (length (first_children vars).1) ≤ maxChildren.
Proof. unfold first_children, maxChildren. cbn [fst]. rewrite length_take. lia. Qed.

Lemma run_children ad ref s h :
  ∃ r, run ad (children ref) s h = (r, s, h ++ [Variables ref]).
Proof. unfold children. rewrite run_bind. cbn [run send ret]. by eexists. Qed.

Lemma run_variables ad depth ref s h :
  let '(r, s', h') := run ad (variables depth ref) s h in
  s' = s ∧ (∃ t, h' = h ++ t ∧ Z.of_nat (length t) ≤ request_bound depth)
  ∧ match r with Ok (vs, more) => bounded depth vs ∧ 0 ≤ more | Err _ => True end.
Proof.
  revert ref s h. induction depth as [|depth IH]; intros ref s h; cbn [variables]; rewrite run_bind;
    destruct (run_children ad ref s h) as [[l|e] ->];
    try (cbn [run ret]; split; [done|]; split; [|done]; eexists; split; [done|];
         cbn [length request_bound]; try pose proof (request_bound_pos depth); unfold maxChildren; lia).
  all: pose proof (first_children_length l) as Hl; assert (Hm : 0 ≤ (first_children l).2) by (unfold first_children; cbn; lia);
    destruct (first_children l) as [vars more]; cbn [fst snd] in Hl, Hm; rewrite run_bind.
  - pose proof (run_each (fun v => ret (Ok (api_var v [] 0))) (fun v => v_Children v = []) 0 ad vars s (h ++ [Variables ref])) as H.
    specialize (H ltac:(intros a s' h'; cbn; split_and!; [done|exists []; by rewrite app_nil_r|done]) ltac:(lia)).
    destruct (run ad (each _ vars) s _) as [[[out|e] s1] h1]; destruct H as (-> & (t & -> & Ht) & HP); cbn [run ret].
    + split_and!; [done|exists (Variables ref :: t); rewrite <- app_assoc; split; [done|cbn [length request_bound] in *; lia]| |done].
      destruct HP as [HP1 HP2]. cbn [bounded]. split; [lia|done].
    + split_and!; [done|exists (Variables ref :: t); rewrite <- app_assoc; split; [done|cbn [length request_bound] in *; lia]|done].
  - pose proof (request_bound_pos depth) as Hb.
    match goal with |- context [each ?f vars] =>
      pose proof (run_each f (fun v => bounded depth (v_Children v)) (request_bound depth) ad vars s (h ++ [Variables ref])) as H end.
    assert (Hf : ∀ (a : dapVariable) s0 h0, let '(r, s', h') := run ad
      (if 0 <? g_Ref a then sub <- variables depth (g_Ref a) ;;
         ret (match sub with Ok (cs, m) => Ok (api_var a cs m) | Err e => Err e end)
       else ret (Ok (api_var a [] 0)))%prog s0 h0 in
      s' = s0 ∧ (∃ t, h' = h0 ++ t ∧ Z.of_nat (length t) ≤ request_bound depth)
      ∧ match r with Ok b => bounded depth (v_Children b) | Err _ => True end).
    { intros a s0 h0. destruct (0 <? g_Ref a).
      - rewrite run_bind. specialize (IH (g_Ref a) s0 h0). destruct (run ad (variables depth (g_Ref a)) s0 h0) as [[[[cs m]|e] s1] h1];
          destruct IH as (-> & (t & -> & Ht) & HP); cbn [run ret]; (split_and!; [done|by exists t|]); [by destruct HP|done].
      - cbn. split_and!; [done|exists []; rewrite app_nil_r; split; [done|cbn; lia]|]. destruct depth; cbn; (split; [unfold maxChildren; lia|constructor]). }
    specialize (H Hf ltac:(lia)).
    match goal with |- context [run ad (each ?f vars) s ?h1] => destruct (run ad (each f vars) s h1) as [[[out|e] s1] h2] end;
      destruct H as (-> & (t & -> & Ht) & HP); cbn [run ret].
    + split_and!; [done|exists (Variables ref :: t); rewrite <- app_assoc; split; [done|cbn [length request_bound]; nia]| |done].
      destruct HP as [HP1 HP2]. cbn [bounded]. split; [lia|done].
    + split_and!; [done|exists (Variables ref :: t); rewrite <- app_assoc; split; [done|cbn [length request_bound]; nia]|done].
Qed.

(** Whatever the adapter answers, reading variables to a depth ends after
    at most 1 + 50 + ... + 50^(depth-1) requests, leaves the session as it
    is, and gives at most 50 variables in every list and none below the
    depth. *)
Theorem variables_bounded ad depth ref s h :
  let '(r, s', h') := run ad (variables (depth_of depth) ref) s h in
  s' = s ∧ (∃ t, h' = h ++ t ∧ Z.of_nat (length t) ≤ request_bound (depth_of depth))
  ∧ match r with Ok (vs, more) => bounded (depth_of depth) vs ∧ 0 ≤ more | Err _ => True end.
Proof. apply run_variables. Qed.
