(* ===== verification/Emulate.v ===== *)
(** * The stop filter (internal/session/emulate.go)

    Hit counts and logpoints for every adapter, and the conditions an adapter
    doesn't check because a line's breakpoints differ in them. When the
    program stops at a breakpoint that may be one to count, log or pass, the
    filter decides whether the stop is published or the program continues. *)

From S2P Require Import Prelude GoStrings GoPath Api PathMap EventLog Prog Session Lease Present Slots.
From S2P Require Import Adapter.
From Stdlib Require Import Ascii Bool.
Import GoStrings.Number.

Open Scope Z_scope.

Definition maxLogExprs : Z := 10.
Definition maxLogValue : Z := 200.
Definition maxLogMessage : Z := 1000.
Definition logpointCategory : string := "logpoint".
Definition reasonBreakpoint : string := "breakpoint".
Definition stepEndedDescription : string :=
  "the step ended at a breakpoint that doesn't stop here (a logpoint, an unmet hit count or a condition that doesn't hold)".
Definition pausedDescription : string :=
  "paused at a breakpoint that doesn't stop here (a logpoint, an unmet hit count or a condition that doesn't hold)".

(** ** Hit conditions and log messages *)

Definition parseHit (s : string) : result hitCondition :=
  let text := trim_space s in
  let '(op, text) :=
    match cut_prefix ">=" text with
    | Some rest => (HitGe, trim_space rest)
    | None => match cut_prefix "%" text with
              | Some rest => (HitEvery, trim_space rest)
              | None => (HitEq, text)
              end
    end in
  match atoi text with
  | Some n => if n <? 1 then Err (NewError CodeInvalidRequest ("invalid hit count " +:+ quote s))
              else Ok (mkHit op n)
  | None => Err (NewError CodeInvalidRequest ("invalid hit count " +:+ quote s))
  end.

(** [hitCondition.holds]; Go's [%] truncates, as [Z.rem] does. *)
Definition holds (h : hitCondition) (count : Z) : bool :=
  match h_op h with
  | HitGe => h_n h <=? count
  | HitEvery => Z.rem count (h_n h) =? 0
  | HitEq => count =? h_n h
  end.

Definition lbrace : ascii := "{".
Definition rbrace : ascii := "}".
Definition is_brace (c : ascii) : bool := Ascii.eqb c lbrace || Ascii.eqb c rbrace.

Definition logError (msg why : string) : Error :=
  NewError CodeInvalidRequest ("invalid log message " +:+ quote msg +:+ ": " +:+ why).

(** The text read so far, as a part. *)
Definition flush (parts : list logPart) (text : string) : list logPart :=
  if text =?s "" then parts else parts ++ [mkLogPart text ""].

(** The loop of [parseLog] over the bytes [rest] left; [skip] of them were
    consumed already. *)
Fixpoint parseLog_go (msg : string) (skip : nat) (rest : string)
    (parts : list logPart) (text : string) (exprs : Z) : result (list logPart) :=
  match rest with
  | EmptyString => Ok (flush parts text)
  | String c r =>
    match skip with
    | S k => parseLog_go msg k r parts text exprs
    | O =>
      if is_brace c && has_prefix (String c "") r then
        parseLog_go msg 1 r parts (text +:+ String c "") exprs
      else if Ascii.eqb c rbrace then Err (logError msg "a } has no {")
      else if Ascii.eqb c lbrace then
        match index_byte rbrace r with
        | None => Err (logError msg "a { is not closed")
        | Some e =>
          let expr := trim_space (stake e r) in
          if expr =?s "" then Err (logError msg "{} has no expression")
          else if maxLogExprs <? exprs + 1 then
            Err (logError msg ("more than " +:+ itoa maxLogExprs +:+ " {expressions}"))
          else parseLog_go msg (e + 1) r (flush parts text ++ [mkLogPart "" expr]) "" (exprs + 1)
        end
      else parseLog_go msg 0 r parts (text +:+ String c "") exprs
    end
  end.
Definition parseLog (msg : string) : result (list logPart) :=
  if trim_space msg =?s "" then Err (logError msg "the message is empty")
  else parseLog_go msg 0 msg [] "" 0.

(** ** When the filter decides *)

Definition emulated (b : breakpoint) : bool :=
  match hit b, log b with None, [] => false | _, _ => true end.

Fixpoint conditionsDiffer (look : Z → breakpoint) (l : list Z) (seen : gmap Z string) : bool :=
  match l with
  | [] => false
  | a :: l =>
    let b := look a in
    match seen !! b_Line (bp b) with
    | None => conditionsDiffer look l (<[b_Line (bp b) := condition b]> seen)
    | Some c => if c =?s condition b then conditionsDiffer look l seen else true
    end
  end.

(** The files' lists, and their keys. *)
Definition files (s : Session) : list (string * list Z) :=
  List.filter (fun '(k, _) => negb (k =?s funcKey)) (map_to_list (bps s)).

Definition needs_filter (look : Z → breakpoint) (l : list Z) : bool :=
  existsb (fun a => emulated (look a)) l
  || ((2 <=? Z.of_nat (length l)) && conditionsDiffer look l ∅).
Definition needsFilterLocked (s : Session) : bool :=
  existsb (fun '(_, l) => needs_filter (deref s) l) (files s).

Definition pendingLocked (gen : Z) (s : Session) : bool :=
  (stopGen s =? gen) && negb (bool_decide (state s = StateExited)).

Definition applyStopLocked (now : Z) (st : StopInfo) (s : Session) : Session :=
  logEvent now ((event EventStopped) <| ev_Stop := Some st |>)
    (setStateLocked StateStopped
       (s <| stops ::= Z.succ |> <| stop := st |> <| stoppedAt := now |>
          <| stepping := false |> <| pauseRequested := false |>)).

Definition publishLocked (now gen : Z) (st : StopInfo) (desc : string) (s : Session) : Session :=
  if negb (pendingLocked gen s) then s
  else applyStopLocked now (if desc =?s "" then st else st <| si_Description := desc |>) s.
Definition publish (now gen : Z) (st : StopInfo) (desc : string) : handler unit :=
  atomically (fun s => ((), publishLocked now gen st desc s)).

(** ** The rule *)

(** The breakpoint is held by address. *)
Record planRecord := mkPlan {
  pr_b : Z; pr_condition : string; pr_hits : Z; pr_hit : option hitCondition; pr_log : list logPart }.
#[global] Instance eta_planRecord : Eta planRecord :=
  fun r => mkPlan (pr_b r) (pr_condition r) (pr_hits r) (pr_hit r) (pr_log r).
Record decision := mkDecision {
  d_stopFor : list planRecord; d_hit : list planRecord; d_logs : list planRecord }.
#[global] Instance eta_decision : Eta decision :=
  fun r => mkDecision (d_stopFor r) (d_hit r) (d_logs r).
Definition d_stop (d : decision) : bool := (0 <? Z.of_nat (length (d_stopFor d))).

(** [decide]'s loop body. *)
Definition decide_one (d : decision) (rh : planRecord * bool) : decision :=
  let '(r, held) := rh in
  if negb held then d
  else match pr_hit r, pr_log r with
       | None, [] => d <| d_stopFor ::= fun l => l ++ [r] |>
       | _, _ =>
         let d := d <| d_hit ::= fun l => l ++ [r] |> in
         let unmet := match pr_hit r with Some h => negb (holds h (pr_hits r + 1)) | None => false end in
         if unmet then d
         else match pr_log r with
              | _ :: _ => d <| d_logs ::= fun l => l ++ [r] |>
              | [] => d <| d_stopFor ::= fun l => l ++ [r] |>
              end
       end.
Definition filter_decide (records : list planRecord) (held : list bool) : decision :=
  fold_left decide_one (zip records held) (mkDecision [] [] []).

Definition toEvaluate (records : list planRecord) : list string :=
  fold_left (fun conds r =>
    if negb (pr_condition r =?s "") && negb (bool_decide (pr_condition r ∈ conds))
    then conds ++ [pr_condition r] else conds) records [].

Definition sb_le (a b : StopBreakpoint) : Prop := sb_ID a ≤ sb_ID b.
#[global] Instance sb_le_dec a b : Decision (sb_le a b).
Proof. unfold sb_le. apply _. Defined.
#[global] Instance sb_le_total : Total sb_le.
Proof. intros a b. unfold sb_le. lia. Qed.
Definition attribution (look : Z → breakpoint) (records : list planRecord) : list StopBreakpoint :=
  merge_sort sb_le (map (fun r => let b := bp (look (pr_b r)) in mkStopBreakpoint (b_ID b) (b_Owner b)) records).

(** ** What is at a location *)

Definition samePath (a b : string) : bool :=
  negb (a =?s "") && negb (b =?s "") && ((a =?s b) || (Clean a =?s Clean b)).
Definition sameFile (f : fs) (a b : string) : bool :=
  if samePath a b then true
  else if (a =?s "") || (b =?s "") then false
  else fs_same f a b.

Definition record_of (look : Z → breakpoint) (a : Z) : planRecord :=
  let b := look a in mkPlan a (condition b) (b_Hits (bp b)) (hit b) (log b).

(** [planLocked]'s body for one file: a group of breakpoints at the line whose
    conditions are all the same needs no evaluation. *)
Definition plan_group (look : Z → breakpoint) (line : Z) (at_loc : breakpoint → bool) (l : list Z) : list planRecord :=
  let group := map (record_of look)
                 (List.filter (fun a => (b_Line (bp (look a)) =? line) && at_loc (look a)) l) in
  let differs := match group with
                 | [] => false
                 | r0 :: _ => existsb (fun r => negb (pr_condition r =?s pr_condition r0)) group
                 end in
  if differs then group else map (fun r => r <| pr_condition := ""%string |>) group.
Definition planLocked (s : Session) (fr : Frame) (at_loc : breakpoint → bool) : list planRecord * list string :=
  (concat (map (fun '(_, l) => plan_group (deref s) (fr_Line fr) at_loc l) (files s)), (files s).*1).

Definition at_frame (fr : Frame) (b : breakpoint) : bool :=
  samePath (source b) (fr_File fr) || samePath (b_File (bp b)) (fr_File fr).

(** [fs_same] is whether both files can be looked at and are one. *)
Definition planStop (f : fs) (fr : Frame) : handler (list planRecord) :=
  (pk <- atomically (fun s => (planLocked s fr (at_frame fr), s)) ;;
   let '(records, keys) := pk in
   if (0 <? Z.of_nat (length records)) || (fr_File fr =?s "") then ret records
   else match List.find (fun k => (Base k =?s Base (fr_File fr)) && fs_same f k (fr_File fr)) keys with
        | None => ret []
        | Some same => atomically (fun s => ((planLocked s fr (fun b => b_File (bp b) =?s same)).1, s))
        end)%prog.

(** ** Evaluating *)

Definition falsy : list string :=
  (["false"; "none"; "null"; "nil"; "''"; dquote +:+ dquote; "[]"; "{}"; "()"; "set()"])%string.
Definition truthy (value : string) : bool :=
  let text := trim_space value in
  if existsb (fun w => w =?s to_lower text) falsy then false
  else match parse_int0 text with
       | Some n => negb (n =? 0)
       | None => match parse_float_zero text with
                 | Some zero => negb zero
                 | None => true
                 end
       end.

(** A condition's answer: it holds unless its value reads as false. *)
Definition condition_answer (v : result string) : bool :=
  match v with Err _ => true | Ok value => truthy value end.
Definition conditionHolds (fid : Z) (cond : string) : handler bool :=
  (v <- evalRaw fid cond ;; ret (condition_answer v))%prog.

Fixpoint eval_conditions (fid : Z) (conds : list string) (results : gmap string bool) : handler (gmap string bool) :=
  match conds with
  | [] => ret results
  | c :: conds => (h <- conditionHolds fid c ;; eval_conditions fid conds (<[c := h]> results))%prog
  end.
Definition held (fid : Z) (records : list planRecord) : handler (list bool) :=
  (results <- eval_conditions fid (toEvaluate records) ∅ ;;
   ret (map (fun r => (pr_condition r =?s "") || default false (results !! pr_condition r)) records))%prog.

Definition cutValue (s : string) (n : Z) : string :=
  if rune_count s <=? n then s else cut_runes (Z.to_nat n) s +:+ ellipsis.

Definition log_value (v : result string) : string :=
  match v with Ok value => value | Err e => "<error: " +:+ e_message e +:+ ">" end.
Fixpoint render_parts (fid : Z) (parts : list logPart) (b : string) : handler string :=
  match parts with
  | [] => ret b
  | p :: parts =>
    if lp_expr p =?s "" then render_parts fid parts (b +:+ lp_text p)
    else (v <- evalRaw fid (lp_expr p) ;;
          render_parts fid parts (b +:+ cutValue (log_value v) maxLogValue))%prog
  end.
Definition renderLog (fid : Z) (parts : list logPart) : handler string :=
  (b <- render_parts fid parts "" ;; ret (cutValue b maxLogMessage))%prog.

Fixpoint render_all (fid : Z) (records : list planRecord) : handler (list string) :=
  match records with
  | [] => ret []
  | r :: records => (m <- renderLog fid (pr_log r) ;; ms <- render_all fid records ;; ret (m :: ms))%prog
  end.

(** ** The filter *)

Definition publishReasonLocked (s : Session) (st : bool) : string :=
  if st then "" else if stepping s then stepEndedDescription
  else if pauseRequested s then pausedDescription else "".

Definition autoContinue (now gen : Z) (st : StopInfo) : handler unit :=
  (go <- atomically (fun s => if negb (pendingLocked gen s) then (false, s)
                              else (true, s <| execInFlight := true |>)) ;;
   if negb go then ret ()
   else
     err <- sendExec ExecContinue (si_ThreadID st) ;;
     atomically (fun s => ((), s <| execInFlight := false |>)) ;;;
     if is_ok err then ret () else publish now gen st "")%prog.

Definition newline : string := String (ascii_of 10) "".

(** The critical section that records what was decided. *)
Definition settleLocked (now : Z) (d : decision) (messages : list string) (st : StopInfo) (s : Session)
    : (string * StopInfo) * Session :=
  let s := set_bps (map pr_b (d_hit d)) (fun b => b <| bp ::= fun x => x <| b_Hits ::= Z.succ |> |>) s in
  let s := fold_left (fun s m => appendOutputLocked now logpointCategory (m +:+ newline) s) messages s in
  let desc := publishReasonLocked s (d_stop d) in
  let st := if d_stop d then st <| si_Breakpoints := attribution (deref s) (d_stopFor d) |> else st in
  ((desc, st), s).

Definition filterStop (f : fs) (now gen : Z) (st : StopInfo) : handler unit :=
  with_lock execMu (
    pending <- atomically (fun s => (pendingLocked gen s, s)) ;;
    if negb pending then ret ()
    else
      frames <- stack (si_ThreadID st) 1 ;;
      match frames with
      | Err _ | Ok [] => publish now gen st ""
      | Ok ((fr, fid) :: _) =>
        records <- planStop f fr ;;
        match records with
        | [] => publish now gen st ""
        | _ =>
          hs <- held fid records ;;
          let d := filter_decide records hs in
          messages <- render_all fid (d_logs d) ;;
          ds <- atomically (settleLocked now d messages st) ;;
          let '(desc, st) := ds in
          if d_stop d || negb (desc =?s "") then publish now gen st desc
          else autoContinue now gen st
        end
      end)%prog.

(** ** The rule, as a specification *)

(** What a breakpoint whose condition holds does: stop, log, or only count. *)
Definition wants_stop (h : option hitCondition) (lg : list logPart) (hits : Z) : bool :=
  match lg with
  | _ :: _ => false
  | [] => match h with None => true | Some h => holds h (hits + 1) end
  end.
Definition wants_log (h : option hitCondition) (lg : list logPart) (hits : Z) : bool :=
  match lg with
  | [] => false
  | _ :: _ => match h with None => true | Some h => holds h (hits + 1) end
  end.
Definition counts (h : option hitCondition) (lg : list logPart) : bool :=
  match h, lg with None, [] => false | _, _ => true end.

Definition on_record {A} (f : option hitCondition → list logPart → A) (r : planRecord) : A := f (pr_hit r) (pr_log r).

Lemma filter_decide_go zs d :
  let held_and p := map fst (List.filter (fun rh : planRecord * bool => rh.2 && p rh.1) zs) in
  fold_left decide_one zs d =
  mkDecision (d_stopFor d ++ held_and (fun r => wants_stop (pr_hit r) (pr_log r) (pr_hits r)))
    (d_hit d ++ held_and (fun r => counts (pr_hit r) (pr_log r)))
    (d_logs d ++ held_and (fun r => wants_log (pr_hit r) (pr_log r) (pr_hits r))).
Proof.
  cbv zeta. revert d. induction zs as [|[r h] zs IH]; intros d.
  - simpl. rewrite !app_nil_r. by destruct d.
  - cbn [fold_left]. rewrite IH. clear IH. unfold decide_one. destruct d as [df dh dl].
    destruct h; [|done]. destruct r as [a c n hc lg]. simpl.
    destruct hc as [hc|], lg as [|p lg]; simpl; try destruct (holds hc (n + 1)); simpl;
      by rewrite <- ?app_assoc.
Qed.

Lemma zip_map_filter {A} (f p : A → bool) l :
  map fst (List.filter (fun rh : A * bool => rh.2 && p rh.1) (zip l (map f l)))
  = List.filter (fun r => f r && p r) l.
Proof. induction l as [|x l IH]; [done|]. simpl. destruct (f x && p x); simpl; by rewrite IH. Qed.

Lemma filter_decide_spec records f :
  filter_decide records (map f records) =
  mkDecision (List.filter (fun r => f r && wants_stop (pr_hit r) (pr_log r) (pr_hits r)) records)
    (List.filter (fun r => f r && counts (pr_hit r) (pr_log r)) records)
    (List.filter (fun r => f r && wants_log (pr_hit r) (pr_log r) (pr_hits r)) records).
Proof. unfold filter_decide. rewrite filter_decide_go. cbn [d_stopFor d_hit d_logs app]. cbv zeta beta.
  by rewrite !(zip_map_filter f (fun r => wants_stop (pr_hit r) (pr_log r) (pr_hits r))), !(zip_map_filter f (fun r => counts (pr_hit r) (pr_log r))), !(zip_map_filter f (fun r => wants_log (pr_hit r) (pr_log r) (pr_hits r))).
Qed.

(** ** One line, several owners *)

Section one_line.
Context (look : Z → breakpoint) (ev : string → bool) (place : slotKey → Z) (line : Z).

(** The adapter has one breakpoint per slot, where it placed it. *)
Definition adapter_stops (slots : list slot) : bool :=
  existsb (fun sl => (place (sl_key sl) =? line) && truth ev (sl_condition sl)) slots.

Definition at_line (a : Z) : bool := b_Line (bp (look a)) =? line.
(** What [a]'s owner would see alone. *)
Definition wants (a : Z) : bool :=
  truth ev (condition (look a)) && wants_stop (hit (look a)) (log (look a)) (b_Hits (bp (look a))).
(** What the filter is told of a record: an empty condition holds. *)
Definition record_held (r : planRecord) : bool := truth ev (pr_condition r).

Definition placed (l : list Z) : Prop := ∀ a, In a l → b_Line (bp (look a)) = place (key (look a)).
Definition uniform (l : list Z) : Prop :=
  ∀ a b, In a l → In b l → at_line a = true → at_line b = true → condition (look a) = condition (look b).

Lemma in_at_key k a l : In a (at_key look k l) ↔ In a l ∧ key (look a) = k.
Proof. unfold at_key. by rewrite List.filter_In, bool_decide_eq_true. Qed.

Lemma adapter_stops_covers l a :
  placed l → In a l → at_line a = true → truth ev (condition (look a)) = true →
  adapter_stops (slotsFor look l) = true.
Proof.
  intros Hp Ha Hl Ht. rewrite slotsFor_ref. apply existsb_exists.
  exists (ref_slot look l (key (look a))). split.
  - unfold ref_slots. apply in_map, list_elem_of_In, elem_of_first_keys, list_elem_of_In.
    by apply (in_map (fun a => key (look a))).
  - unfold ref_slot. destruct (merged _) as [c note] eqn:Em. simpl.
    apply andb_true_iff. split; [rewrite <- Hp by done; exact Hl|].
    eapply merged_covers; [exact Em| |exact Ht].
    apply (in_map (fun a => condition (look a))). by apply in_at_key.
Qed.

Lemma adapter_stops_inv l :
  placed l → adapter_stops (slotsFor look l) = true →
  ∃ a, In a l ∧ at_line a = true ∧ (uniform l → truth ev (condition (look a)) = true).
Proof.
  intros Hp. rewrite slotsFor_ref. intros (sl & Hsl & [Hpl Ht]%andb_true_iff)%existsb_exists.
  apply in_map_iff in Hsl as (k & <- & Hk). apply list_elem_of_In in Hk. apply (proj1 (elem_of_first_keys _ _)) in Hk.
  destruct (at_key_cons look _ _ Hk) as (a & rest & E).
  assert (Hin : ∀ x, In x (at_key look k l) → In x l ∧ at_line x = true).
  { intros x [Hx Hxk]%in_at_key. split; [done|]. unfold at_line. rewrite Hp by done. rewrite Hxk.
    revert Hpl. unfold ref_slot. by destruct (merged _). }
  exists a. destruct (Hin a) as [Ha Hal]; [rewrite E; by left|]. split_and!; [done|done|]. intros Hu.
  revert Ht. unfold ref_slot. rewrite (merged_same _ (condition (look a))); [done|by rewrite E|].
  apply List.Forall_forall. intros c (x & <- & Hx)%in_map_iff.
  destruct (Hin x Hx) as [Hx1 Hx2]. by apply Hu.
Qed.

Lemma plan_group_uniform l at_loc :
  (∀ a, In a l → at_loc (look a) = true) →
  ∃ f, plan_group look line at_loc l
       = map (fun a => (record_of look a) <| pr_condition := (f (condition (look a)) : string) |>) (List.filter at_line l)
     ∧ ((f = id) ∨ (uniform l ∧ f = fun _ => ""%string)).
Proof.
  intros Hat. unfold plan_group.
  rewrite (List.filter_ext_in _ at_line l).
  2: { intros a Ha. unfold at_line. by rewrite Hat, andb_true_r. }
  set (g := List.filter at_line l).
  destruct (match map (record_of look) g with [] => false | r0 :: _ => _ end) eqn:E.
  - exists id. split; [|by left]. done.
  - exists (fun _ => ""%string). split; [by rewrite map_map|]. right. split; [|done].
    intros a b Ha Hb Hal Hbl.
    assert (In a g ∧ In b g) as [Hag Hbg] by (unfold g; split; by apply List.filter_In).
    destruct g as [|x g]; [done|]. simpl map in E. cbn [existsb pr_condition record_of] in E.
    assert (Heq : ∀ y, In y (x :: g) → condition (look y) = condition (look x)).
    { intros y [<-|Hy]; [done|]. apply orb_false_iff in E as [_ E].
      destruct (String.eqb_spec (condition (look y)) (condition (look x))) as [|Hne]; [done|].
      assert (existsb (fun r => negb (pr_condition r =?s condition (look x))) (map (record_of look) g) = true) as Hx.
      { apply existsb_exists. exists (record_of look y). split; [by apply in_map|]. simpl.
        apply negb_true_iff. by apply String.eqb_neq. }
      simpl in E. rewrite Hx in E. discriminate E. }
    rewrite (Heq a), (Heq b) by done. done.
Qed.

Lemma map_filter_map {A B C} (p : B → bool) (f : A → B) (g : B → C) (q : A → bool) l :
  map g (List.filter p (map f (List.filter q l))) = map (fun x => g (f x)) (List.filter (fun x => q x && p (f x)) l).
Proof.
  induction l as [|x l IH]; [done|]. simpl. destruct (q x); simpl; [|done].
  destruct (p (f x)); simpl; by rewrite IH.
Qed.

(** Once the adapter stopped, what the filter selects of a file's breakpoints
    is what their own conditions say. *)
Lemma plan_select l at_loc (p : option hitCondition → list logPart → Z → bool) :
  placed l → (∀ a, In a l → at_loc (look a) = true) → adapter_stops (slotsFor look l) = true →
  map pr_b (List.filter (fun r => record_held r && p (pr_hit r) (pr_log r) (pr_hits r)) (plan_group look line at_loc l))
  = List.filter (fun a => at_line a && (truth ev (condition (look a)) && p (hit (look a)) (log (look a)) (b_Hits (bp (look a))))) l.
Proof.
  intros Hp Hat Hs. destruct (plan_group_uniform l at_loc Hat) as (f & -> & Hf).
  rewrite map_filter_map. cbn [pr_b record_of]. rewrite map_id. destruct Hf as [->|[Hu ->]]; [done|].
  destruct (adapter_stops_inv l Hp Hs) as (a0 & Ha0 & Hl0 & Ht0). specialize (Ht0 Hu).
  apply List.filter_ext_in. intros a Ha. unfold record_held. simpl.
  destruct (at_line a) eqn:E; [|done]. simpl. rewrite (Hu a a0) by done. by rewrite Ht0.
Qed.

Lemma conditionsDiffer_spec l seen :
  conditionsDiffer look l seen = false →
  (∀ a, In a l → match seen !! b_Line (bp (look a)) with
                 | Some c => condition (look a) = c | None => True end)
  ∧ ∀ a b, In a l → In b l → b_Line (bp (look a)) = b_Line (bp (look b)) → condition (look a) = condition (look b).
Proof.
  revert seen. induction l as [|x l IH]; intros seen; simpl; [by split|].
  destruct (seen !! b_Line (bp (look x))) as [c|] eqn:Ex.
  - destruct (String.eqb_spec c (condition (look x))) as [->|]; [|done].
    intros H. destruct (IH _ H) as [H1 H2]. split.
    + intros a [<-|Ha]; [by rewrite Ex|by apply H1].
    + assert (Hx : ∀ b, In b l → b_Line (bp (look x)) = b_Line (bp (look b)) → condition (look b) = condition (look x)).
      { intros b Hb Hl. specialize (H1 b Hb). rewrite <- Hl, Ex in H1. done. }
      intros a b [<-|Ha] [<-|Hb] Hl; [done|symmetry; by apply Hx|by apply Hx|by apply H2].
  - intros H. destruct (IH _ H) as [H1 H2].
    assert (Hx : ∀ b, In b l → b_Line (bp (look x)) = b_Line (bp (look b)) → condition (look b) = condition (look x)).
    { intros b Hb Hl. specialize (H1 b Hb). by rewrite <- Hl, lookup_insert_eq in H1. }
    split.
    + intros a [<-|Ha]; [by rewrite Ex|]. specialize (H1 a Ha).
      destruct (decide (b_Line (bp (look a)) = b_Line (bp (look x)))) as [e|Hne].
      * rewrite e, Ex. done.
      * by rewrite lookup_insert_ne in H1.
    + intros a b [<-|Ha] [<-|Hb] Hl; [done|symmetry; by apply Hx|by apply Hx|by apply H2].
Qed.

(** Nothing for the filter to do: the adapter's stop is an owner's. *)
Lemma unfiltered_verdict l :
  placed l → needs_filter look l = false → adapter_stops (slotsFor look l) = true →
  existsb (fun a => at_line a && wants a) l = true.
Proof.
  intros Hp [Hem Hcd]%orb_false_iff Hs. destruct (adapter_stops_inv l Hp Hs) as (a & Ha & Hl & Ht).
  apply existsb_exists. exists a. split; [done|]. rewrite Hl. simpl. unfold wants.
  rewrite Ht; simpl.
  - assert (He : emulated (look a) = false).
    { apply not_true_is_false. intros He. assert (existsb (fun a => emulated (look a)) l = true); [|congruence].
      apply existsb_exists. by exists a. }
    unfold emulated in He. by destruct (hit (look a)), (log (look a)).
  - intros x y Hx Hy Hxl Hyl. apply Z.eqb_eq in Hxl, Hyl.
    apply andb_false_iff in Hcd as [Hlen|Hcd].
    + apply Z.leb_gt in Hlen. destruct l as [|z [|z2 l]]; [done| |cbn [length] in Hlen; lia].
      simpl in Hx, Hy. destruct Hx as [->|[]], Hy as [->|[]]. done.
    + apply (conditionsDiffer_spec l ∅ Hcd); [done|done|]. by rewrite Hxl, Hyl.
Qed.
End one_line.

Lemma length_filter_pos {A} (p : A → bool) l : (0 <? Z.of_nat (length (List.filter p l))) = existsb p l.
Proof. induction l as [|x l IH]; [done|]. simpl. by destruct (p x). Qed.

Lemma concat_nil_all {A} (ls : list (list A)) : (∀ x, In x ls → x = []) → concat ls = [].
Proof.
  induction ls as [|x ls IH]; intros H; [done|]. cbn [concat]. rewrite (H x) by (by left).
  apply IH. intros y Hy. apply H. by right.
Qed.

(** Of a list of groups only one is not empty. *)
Lemma concat_one {K A B} (g : list A → list B) (m : list (K * list A)) k l :
  List.NoDup m.*1 → In (k, l) m → (∀ k' l', In (k', l') m → k' ≠ k → g l' = []) →
  concat (map (fun '(_, l) => g l) m) = g l.
Proof.
  induction m as [|[k' l'] m IH]; [done|]. cbn [fmap list_fmap fst map concat].
  intros [Hk Hnd]%List.NoDup_cons_iff Hin Ho.
  assert (Ho' : ∀ k' l', In (k', l') m → k' ≠ k → g l' = []) by (intros k2 l2 H2; apply Ho; by right).
  destruct Hin as [[= -> ->]|Hin].
  - rewrite concat_nil_all, app_nil_r; [done|]. intros x ([k2 l2] & <- & H2)%in_map_iff.
    apply (Ho' k2); [done|]. intros ->. apply Hk. change (In (fst (k, l2)) (map fst m)). by apply in_map.
  - rewrite (Ho k' l'); [by apply IH|by left|]. intros ->. apply Hk.
    change (In (fst (k, l)) (map fst m)). by apply in_map.
Qed.

Lemma filter_false {A} (l : list A) : List.filter (fun _ => false) l = [].
Proof. by induction l. Qed.

Lemma in_files s k l : In (k, l) (files s) ↔ bps s !! k = Some l ∧ k ≠ funcKey.
Proof.
  unfold files. rewrite List.filter_In, <- list_elem_of_In, elem_of_map_to_list, negb_true_iff, String.eqb_neq. done.
Qed.

Lemma NoDup_files s : List.NoDup (files s).*1.
Proof. apply NoDup_map_filter, NoDup_ListNoDup, NoDup_fst_map_to_list. Qed.

(** ** Running the filter alone *)

Lemma asks_eval_conditions fid conds results : asks (eval_conditions fid conds results).
Proof.
  revert results. induction conds as [|c conds IH]; intros results; cbn [eval_conditions]; [auto with asks|].
  apply asks_bind; [|done]. unfold conditionHolds. apply asks_bind; auto with asks.
Qed.

Lemma asks_render_parts fid parts b : asks (render_parts fid parts b).
Proof.
  revert b. induction parts as [|p parts IH]; intros b; cbn [render_parts]; [auto with asks|].
  destruct (lp_expr p =?s ""); [done|]. apply asks_bind; auto with asks.
Qed.

Lemma asks_render_all fid records : asks (render_all fid records).
Proof.
  induction records as [|r records IH]; cbn [render_all]; [auto with asks|].
  apply asks_bind; [unfold renderLog; apply asks_bind; [apply asks_render_parts|auto with asks]|].
  intros m. apply asks_bind; auto with asks.
Qed.

Lemma asks_held fid records : asks (held fid records).
Proof. unfold held. apply asks_bind; [apply asks_eval_conditions|auto with asks]. Qed.

Lemma asks_planStop f fr : asks (planStop f fr).
Proof.
  unfold planStop. apply asks_bind; [apply asks_read|]. intros [records keys].
  destruct (_ || _); [auto with asks|]. destruct (List.find _ _); auto with asks.
Qed.
#[export] Hint Resolve asks_held asks_render_all asks_planStop : asks.

(** What [settleLocked] leaves alone. *)
Record same_stop (s s' : Session) : Prop := {
  ss_state : state s' = state s; ss_stops : stops s' = stops s; ss_gen : stopGen s' = stopGen s;
  ss_stepping : stepping s' = stepping s; ss_pause : pauseRequested s' = pauseRequested s;
  ss_stop : stop s' = stop s }.

Lemma same_stop_refl s : same_stop s s.
Proof. done. Qed.
Lemma same_stop_trans s1 s2 s3 : same_stop s1 s2 → same_stop s2 s3 → same_stop s1 s3.
Proof. intros [] []. split; congruence. Qed.

Lemma same_stop_output now c t s : same_stop s (appendOutputLocked now c t s).
Proof. unfold appendOutputLocked. destruct (_ || _); [done|]. by destruct (append _ _ _). Qed.

Lemma same_stop_set_bps l f s : same_stop s (set_bps l f s).
Proof.
  unfold set_bps. revert s. induction l as [|a l IH]; intros s; simpl; [done|].
  eapply same_stop_trans; [|apply IH]. done.
Qed.

Lemma same_stop_fold {X} (f : Session → X → Session) l s :
  (∀ s x, same_stop s (f s x)) → same_stop s (fold_left f l s).
Proof.
  intros Hf. revert s. induction l as [|x l IH]; intros s; simpl; [done|].
  eapply same_stop_trans; [apply Hf|apply IH].
Qed.

Lemma same_stop_pending gen s s' : same_stop s s' → pendingLocked gen s' = pendingLocked gen s.
Proof. intros [H1 _ H2 _ _ _]. unfold pendingLocked. by rewrite H1, H2. Qed.

Lemma settle_same now d ms st s : same_stop s (settleLocked now d ms st s).2.
Proof.
  unfold settleLocked. cbn [snd]. eapply same_stop_trans; [apply same_stop_set_bps|].
  apply same_stop_fold. intros; apply same_stop_output.
Qed.

(** The stop was published: the session's stop is [st], whatever description
    and breakpoints it got, and it counts. *)
Definition published (st : StopInfo) (s s' : Session) : Prop :=
  state s' = StateStopped ∧ stops s' = Z.succ (stops s)
  ∧ si_Reason (stop s') = si_Reason st ∧ si_ThreadID (stop s') = si_ThreadID st.

Lemma applyStop_published now st st0 s s0 :
  same_stop s0 s → si_Reason st = si_Reason st0 → si_ThreadID st = si_ThreadID st0 →
  published st0 s0 (applyStopLocked now st s).
Proof. intros Hs H1 H2. unfold published. simpl. by rewrite (ss_stops _ _ Hs). Qed.

Lemma stop_applyStop now st s : stop (applyStopLocked now st s) = st.
Proof. done. Qed.

Lemma publish_published now gen st st0 desc s s0 :
  pendingLocked gen s = true → same_stop s0 s → si_Reason st = si_Reason st0 → si_ThreadID st = si_ThreadID st0 →
  published st0 s0 (publishLocked now gen st desc s).
Proof.
  intros Hp Hs H1 H2. unfold publishLocked, published. rewrite Hp. simpl.
  rewrite (ss_stops _ _ Hs). destruct (desc =?s ""); done.
Qed.

Lemma run_publish ad now gen st desc s h :
  run ad (publish now gen st desc) s h = ((), publishLocked now gen st desc s, h).
Proof. done. Qed.

Lemma run_autoContinue ad now gen st s h :
  pendingLocked gen s = true →
  let q := Execute ExecContinue (si_ThreadID st) in
  run ad (autoContinue now gen st) s h =
    (let s1 := s <| execInFlight := true |> <| execInFlight := false |> in
     if is_ok (answer_ok (ad h q)) then ((), s1, h ++ [q])
     else ((), publishLocked now gen st "" s1, h ++ [q])).
Proof.
  intros Hp q. unfold autoContinue. rewrite run_bind. cbn [run atomically]. rewrite Hp. cbn [negb run].
  rewrite run_bind. unfold sendExec. cbn [dap_kind]. rewrite run_bind. cbn [run send ret]. fold q.
  rewrite run_bind. cbn [run atomically]. by destruct (is_ok (answer_ok (ad h q))).
Qed.

(** What a run of the filter does with a pending stop: it publishes it, or
    its last request is a continue that the adapter accepted. *)
Definition passed (ad : list request → request → answer) (st : StopInfo) (s s' : Session) (h h' : list request) : Prop :=
  same_stop s s' ∧ ∃ h1, h' = h ++ h1 ++ [Execute ExecContinue (si_ThreadID st)]
    ∧ is_ok (answer_ok (ad (h ++ h1) (Execute ExecContinue (si_ThreadID st)))) = true.

Definition finish (now gen : Z) (d : decision) (messages : list string) (st : StopInfo) : handler unit :=
  (ds <- atomically (settleLocked now d messages st) ;;
   let '(desc, st) := ds in
   if d_stop d || negb (desc =?s "") then publish now gen st desc
   else autoContinue now gen st)%prog.

Lemma run_finish ad now gen d messages st s h h0 s0 :
  pendingLocked gen s0 = true → same_stop s0 s →
  let '(_, s', h') := run ad (finish now gen d messages st) s (h0 ++ h) in
  published st s0 s' ∨ passed ad st s0 s' h0 h'.
Proof.
  intros Hp Hs. unfold finish. rewrite run_bind. cbn [run atomically].
  pose proof (settle_same now d messages st s) as Hset.
  assert (Hst : si_Reason (settleLocked now d messages st s).1.2 = si_Reason st
              ∧ si_ThreadID (settleLocked now d messages st s).1.2 = si_ThreadID st)
    by (unfold settleLocked; cbn [fst snd]; by destruct (d_stop d)).
  destruct (settleLocked now d messages st s) as [[desc st'] s1]. cbn [fst snd] in *. destruct Hst as [Hr Ht].
  assert (Hs1 : same_stop s0 s1) by by eapply same_stop_trans.
  assert (Hp1 : pendingLocked gen s1 = true) by by rewrite (same_stop_pending gen _ _ Hs1).
  destruct (d_stop d || negb (desc =?s "")) eqn:E.
  - rewrite run_publish. left. by apply publish_published.
  - rewrite run_autoContinue by done. cbv zeta.
    set (s2 := s1 <| execInFlight := true |> <| execInFlight := false |>).
    assert (Hs2 : same_stop s0 s2) by (eapply same_stop_trans; [exact Hs1|done]).
    destruct (is_ok _) eqn:Eok.
    + right. split; [done|]. exists h. rewrite Ht in *. by rewrite app_assoc.
    + left. apply publish_published; [|done..]. by rewrite (same_stop_pending gen _ _ Hs2).
Qed.

(** The filter up to its verdict: it publishes the stop as it came, or asks
    its questions and settles. *)
Lemma run_filterStop f ad now gen st s h :
  pendingLocked gen s = true →
  (∃ t, run ad (filterStop f now gen st) s h = ((), publishLocked now gen st "" s, h ++ t))
  ∨ ∃ d ms t, run ad (filterStop f now gen st) s h = run ad (finish now gen d ms st) s (h ++ t).
Proof.
  intros Hp. unfold filterStop, with_lock. cbn [run]. rewrite run_bind.
  assert (Hend : ∀ r : unit * Session * list request,
    (let '(a, s', h') := r in run ad (Unlock execMu (Ret a)) s' h') = r) by (intros [[[] ?] ?]; done).
  rewrite Hend. clear Hend. rewrite run_bind. cbn [run atomically]. rewrite Hp. cbn [negb].
  rewrite run_bind. destruct (asks_stack (si_ThreadID st) 1 ad s h) as (frames & t1 & ->).
  destruct frames as [[|[fr fid] fs]|e]; [left; by eexists| |left; by eexists].
  rewrite run_bind. destruct (asks_planStop f fr ad s (h ++ t1)) as (recs & t2 & ->).
  destruct recs as [|r recs]; [left; rewrite <- app_assoc; by eexists|].
  rewrite run_bind. destruct (asks_held fid (r :: recs) ad s ((h ++ t1) ++ t2)) as (hs & t3 & ->).
  rewrite run_bind. destruct (asks_render_all fid (d_logs (filter_decide (r :: recs) hs)) ad s (((h ++ t1) ++ t2) ++ t3))
    as (ms & t4 & ->).
  right. exists (filter_decide (r :: recs) hs), ms, (t1 ++ t2 ++ t3 ++ t4). by rewrite !app_assoc.
Qed.

(** C7: the stop filter fails open: a pending stop is published, whatever the
    adapter answers, unless the filter decided that no breakpoint wants it and
    the adapter accepted the continue it then sent, its last request. *)
Theorem filterStop_fail_open f ad now gen st s h :
  pendingLocked gen s = true →
  let '(_, s', h') := run ad (filterStop f now gen st) s h in
  published st s s' ∨ passed ad st s s' h h'.
Proof.
  intros Hp. destruct (run_filterStop f ad now gen st s h Hp) as [(t & ->)|(d & ms & t & ->)].
  - left. by apply publish_published.
  - by apply run_finish.
Qed.

(** ** Evaluating the conditions *)

Lemma elem_of_toEvaluate records c :
  c ∈ toEvaluate records ↔ c ≠ ""%string ∧ ∃ r, In r records ∧ pr_condition r = c.
Proof.
  unfold toEvaluate. induction records as [|r records IH] using rev_ind.
  { cbn [fold_left]. rewrite elem_of_nil. split; [done|by intros (_ & r & [] & _)]. }
  rewrite fold_left_app. cbn [fold_left]. set (cs := fold_left _ records []) in *.
  assert (Hr : (∃ r0, In r0 (records ++ [r]) ∧ pr_condition r0 = c)
               ↔ (∃ r0, In r0 records ∧ pr_condition r0 = c) ∨ pr_condition r = c).
  { setoid_rewrite List.in_app_iff. simpl. naive_solver. }
  rewrite Hr. destruct (String.eqb_spec (pr_condition r) "") as [He|He]; simpl.
  { rewrite IH. split; [intros [? ?]; auto|intros [Hc [H|<-]]; [auto|done]]. }
  case_bool_decide as Hin; simpl.
  - rewrite IH. split; [intros [? ?]; auto|]. intros [Hc [H|<-]]; [auto|]. by apply IH in Hin.
  - rewrite elem_of_app, list_elem_of_singleton, IH.
    split; [intros [[? ?]| ->]; auto|intros [Hc [H|<-]]; auto].
Qed.

Section evaluations.
Context (ad : list request → request → answer) (evals : string → answer).
Context (Hev : ∀ h e fid, ad h (Evaluate e fid contextWatch) = evals e).

(** What the filter makes of a condition. *)
Definition cond_ev (c : string) : bool :=
  condition_answer (match evals c with AnsEvaluate v _ _ => Ok v | AnsError e => Err e | _ => Err unexpected end).

Lemma run_eval_conditions fid conds results s h :
  ∃ t, run ad (eval_conditions fid conds results) s h
       = (fold_left (fun m c => <[c := cond_ev c]> m) conds results, s, h ++ t).
Proof.
  revert results h. induction conds as [|c conds IH]; intros results h; cbn [eval_conditions fold_left].
  { exists []. by rewrite app_nil_r. }
  rewrite run_bind. unfold conditionHolds, evalRaw, evalBody. rewrite !run_bind. cbn [run send ret]. rewrite Hev.
  destruct (IH (<[c := cond_ev c]> results) (h ++ [Evaluate c fid contextWatch])) as (t & Ht).
  exists (Evaluate c fid contextWatch :: t). unfold cond_ev in *. cbn [app].
  rewrite <- app_assoc in Ht. destruct (evals c); exact Ht.
Qed.

Lemma lookup_results conds (results : gmap string bool) c :
  fold_left (fun m c => <[c := cond_ev c]> m) conds results !! c
  = if bool_decide (c ∈ conds) then Some (cond_ev c) else results !! c.
Proof.
  revert results. induction conds as [|x conds IH]; intros results; simpl; [done|].
  rewrite IH. repeat case_bool_decide; try done.
  - exfalso. apply H0. by right.
  - apply elem_of_cons in H0 as [->|]; [by rewrite lookup_insert_eq|done].
  - rewrite lookup_insert_ne; [done|]. intros ->. apply H0. by left.
Qed.

Lemma run_held fid records s h :
  ∃ t, run ad (held fid records) s h = (map (record_held cond_ev) records, s, h ++ t).
Proof.
  unfold held. rewrite run_bind. destruct (run_eval_conditions fid (toEvaluate records) ∅ s h) as (t & ->).
  exists t. cbn [run ret]. f_equal. f_equal. apply map_ext_in. intros r Hr. rewrite lookup_results.
  unfold record_held, truth. destruct (String.eqb_spec (pr_condition r) "") as [|He]; [done|]. simpl.
  rewrite bool_decide_eq_true_2; [done|]. apply elem_of_toEvaluate. eauto.
Qed.
End evaluations.

(** The program stopped in a frame whose path is that of [file], and of no
    other file with breakpoints; the adapter has the slots of [file]'s list,
    each placed on a line that its breakpoints know. *)
Record stop_scene (s : Session) (fr : Frame) (file : string) (l : list Z) (place : slotKey → Z) : Prop := {
  sc_file : bps s !! file = Some l;
  sc_key : file ≠ funcKey;
  sc_placed : placed (deref s) place l;
  sc_at : ∀ k l' a, bps s !! k = Some l' → k ≠ funcKey → In a l' → at_frame fr (deref s a) = (k =?s file) }.

Section line_stop.
Context (s : Session) (fr : Frame) (file : string) (l : list Z) (ev : string → bool) (place : slotKey → Z).
Context (scene : stop_scene s fr file l place).

Lemma plan_one_file : (planLocked s fr (at_frame fr)).1 = plan_group (deref s) (fr_Line fr) (at_frame fr) l.
Proof.
  destruct scene as [Hfile Hkey Hplaced Hat]. unfold planLocked. cbn [fst]. apply (concat_one _ _ file); [apply NoDup_files|by apply in_files|].
  intros k l' [Hk Hne]%in_files Hnf. unfold plan_group.
  rewrite (List.filter_ext_in _ (fun _ => false)).
  - by rewrite filter_false.
  - intros a Ha. rewrite (Hat k l' a) by done. apply String.eqb_neq in Hnf. by rewrite Hnf, andb_false_r.
Qed.

Lemma not_needed : needsFilterLocked s = false → needs_filter (deref s) l = false.
Proof.
  destruct scene as [Hfile Hkey _ _]. unfold needsFilterLocked. intros H. apply not_true_is_false. intros Hn.
  assert (existsb (fun '(_, l) => needs_filter (deref s) l) (files s) = true); [|congruence].
  apply existsb_exists. exists (file, l). split; [by apply in_files|done].
Qed.

Definition records : list planRecord := (planLocked s fr (at_frame fr)).1.
Definition verdict : decision := filter_decide records (map (record_held ev) records).
Definition line_wants (a : Z) : bool := at_line (deref s) (fr_Line fr) a && wants (deref s) ev a.

Lemma select_records (p : option hitCondition → list logPart → Z → bool) :
  adapter_stops ev place (fr_Line fr) (slotsFor (deref s) l) = true →
  map pr_b (List.filter (fun r => record_held ev r && p (pr_hit r) (pr_log r) (pr_hits r)) records)
  = List.filter (fun a => at_line (deref s) (fr_Line fr) a && (truth ev (condition (deref s a))
      && p (hit (deref s a)) (log (deref s a)) (b_Hits (bp (deref s a))))) l.
Proof.
  destruct scene as [Hfile Hkey Hplaced Hat]. intros Hs. unfold records. rewrite plan_one_file.
  apply (plan_select (deref s) ev place (fr_Line fr)); [done| |done].
  intros a Ha. rewrite (Hat file l a) by done. apply String.eqb_refl.
Qed.

Lemma verdict_stopFor :
  adapter_stops ev place (fr_Line fr) (slotsFor (deref s) l) = true →
  map pr_b (d_stopFor verdict) = List.filter line_wants l.
Proof. intros Hs. unfold verdict. rewrite filter_decide_spec. by apply (select_records wants_stop). Qed.

(** C1: one line, many owners: with the breakpoints of every client merged
    into one per line, and the filter deciding when some line needs it, the
    program stops at a line exactly when one of the breakpoints there would
    stop it alone (its condition holds and, for a hit count, this hit is one
    of its own; a logpoint never). *)
Theorem line_stop_as_alone :
  adapter_stops ev place (fr_Line fr) (slotsFor (deref s) l)
    && (if needsFilterLocked s then d_stop verdict else true)
  = existsb line_wants l.
Proof.
  pose proof (sc_placed _ _ _ _ _ scene) as Hplaced. destruct (adapter_stops _ _ _ _) eqn:Hs; simpl.
  - destruct (needsFilterLocked s) eqn:Hn.
    + unfold d_stop. rewrite <- (length_map pr_b), (verdict_stopFor Hs). apply length_filter_pos.
    + symmetry. by apply (unfiltered_verdict (deref s) ev place (fr_Line fr) l Hplaced (not_needed Hn)).
  - symmetry. apply not_true_is_false. intros (a & Ha & [Hl [Ht _]%andb_true_iff]%andb_true_iff)%existsb_exists.
    assert (Hs' := adapter_stops_covers _ ev place _ l a Hplaced Ha Hl Ht). congruence.
Qed.

Lemma records_nonempty :
  adapter_stops ev place (fr_Line fr) (slotsFor (deref s) l) = true → records ≠ [].
Proof.
  destruct scene as [Hfile Hkey Hplaced Hat]. intros Hs.
  destruct (adapter_stops_inv (deref s) ev place (fr_Line fr) l Hplaced Hs) as (a & Ha & Hl & _).
  unfold records. rewrite plan_one_file.
  destruct (plan_group_uniform (deref s) (fr_Line fr) l (at_frame fr)) as (g & -> & _).
  { intros x Hx. rewrite (Hat file l x) by done. apply String.eqb_refl. }
  assert (In a (List.filter (at_line (deref s) (fr_Line fr)) l)) as Hin by (by apply List.filter_In).
  by destruct (List.filter _ _).
Qed.

(** A stop the filter publishes names exactly the breakpoints that want
    it, by id. *)
Theorem stop_attribution :
  adapter_stops ev place (fr_Line fr) (slotsFor (deref s) l) = true →
  Permutation (attribution (deref s) (d_stopFor verdict))
    (map (fun a => mkStopBreakpoint (b_ID (bp (deref s a))) (b_Owner (bp (deref s a)))) (List.filter line_wants l))
  ∧ Sorted sb_le (attribution (deref s) (d_stopFor verdict)).
Proof.
  intros Hs. unfold attribution. split.
  - rewrite merge_sort_Permutation, <- (verdict_stopFor Hs), map_map. done.
  - apply (Sorted_merge_sort _).
Qed.
End line_stop.

(** ** The filter, end to end *)

Lemma attribution_ids look look' records :
  (∀ a, b_ID (bp (look' a)) = b_ID (bp (look a)) ∧ b_Owner (bp (look' a)) = b_Owner (bp (look a))) →
  attribution look' records = attribution look records.
Proof. intros H. unfold attribution. f_equal. apply map_ext. intros r. by destruct (H (pr_b r)) as [-> ->]. Qed.

Lemma deref_set_bp a f s x :
  f zero_bp = zero_bp ∨ is_Some (heap s !! x) →
  deref (set_bp a f s) x = if decide (x = a) then f (deref s x) else deref s x.
Proof.
  intros H. unfold deref, set_bp. simpl. case_decide as E; [subst x|by rewrite lookup_alter_ne].
  rewrite lookup_alter_eq. destruct (heap s !! a) eqn:Eh; [done|]. destruct H as [H|[? H]]; [simpl; by rewrite H|done].
Qed.

Lemma deref_set_bps_keep {X} (g : breakpoint → X) l f s :
  (∀ b, g (f b) = g b) → ∀ a, g (deref (set_bps l f s) a) = g (deref s a).
Proof.
  intros Hg. unfold set_bps. revert s. induction l as [|x l IH]; intros s a; simpl; [done|].
  rewrite IH. unfold deref, set_bp. simpl. destruct (decide (a = x)) as [->|].
  - rewrite lookup_alter_eq. destruct (heap s !! x); simpl; [apply Hg|done].
  - by rewrite lookup_alter_ne.
Qed.

Lemma deref_outputs now ms s a :
  deref (fold_left (fun s m => appendOutputLocked now logpointCategory (m +:+ newline) s) ms s) a = deref s a.
Proof.
  revert s. induction ms as [|m ms IH]; intros s; cbn [fold_left]; [done|]. rewrite IH.
  unfold appendOutputLocked. destruct (_ || _); [done|]. by destruct (append _ _ _).
Qed.

(** The filter with every answer known: the stack, a plan and the conditions. *)
Lemma run_filterStop_known s fr f ad evals now gen st fid g more h :
  (∀ h e fid, ad h (Evaluate e fid contextWatch) = evals e) →
  (∀ h, ad h (StackTrace (si_ThreadID st) 1) = AnsStack (g :: more)) → api_frame 0 g = (fr, fid) →
  pendingLocked gen s = true → records s fr ≠ [] →
  ∃ ms t, run ad (filterStop f now gen st) s h
          = run ad (finish now gen (verdict s fr (cond_ev evals)) ms st) s (h ++ t).
Proof.
  intros Hev Hstack Hg Hp Hne. unfold filterStop, with_lock. cbn [run]. rewrite run_bind.
  assert (Hend : ∀ r : unit * Session * list request,
    (let '(a, s', h') := r in run ad (Unlock execMu (Ret a)) s' h') = r) by (intros [[[] ?] ?]; done).
  rewrite Hend. clear Hend. rewrite run_bind. cbn [run atomically]. rewrite Hp. cbn [negb].
  unfold stack. rewrite !run_bind. cbn [run send ret]. rewrite Hstack, imap_cons, Hg.
  assert (Hplan : ∀ h, run ad (planStop f fr) s h = (records s fr, s, h)).
  { intros h'. unfold planStop. rewrite run_bind. cbn [run atomically].
    rewrite (surjective_pairing (planLocked s fr (at_frame fr))). fold (records s fr).
    by destruct (records s fr) as [|r rs] eqn:E. }
  rewrite run_bind, Hplan. unfold verdict. destruct (records s fr) as [|r recs]; [done|].
  rewrite run_bind. destruct (run_held ad evals Hev fid (r :: recs) s (h ++ [StackTrace (si_ThreadID st) 1])) as (t3 & ->).
  rewrite run_bind. set (d := filter_decide _ _).
  destruct (asks_render_all fid (d_logs d) ad s ((h ++ [StackTrace (si_ThreadID st) 1]) ++ t3)) as (ms & t4 & ->).
  exists ms, ([StackTrace (si_ThreadID st) 1] ++ t3 ++ t4). by rewrite !app_assoc.
Qed.

Lemma run_finish_stop ad now gen d ms st s h :
  pendingLocked gen s = true → d_stop d = true →
  run ad (finish now gen d ms st) s h
  = ((), applyStopLocked now (st <| si_Breakpoints := attribution (deref s) (d_stopFor d) |>)
           (settleLocked now d ms st s).2, h).
Proof.
  intros Hp Hd. unfold finish. rewrite run_bind. cbn [run atomically].
  pose proof (settle_same now d ms st s) as Hset. unfold settleLocked in *. cbn [fst snd] in *.
  rewrite Hd. cbn [orb publishReasonLocked]. rewrite run_publish. unfold publishLocked.
  rewrite (same_stop_pending gen _ _ Hset), Hp. cbn [negb String.eqb].
  erewrite attribution_ids; [done|]. intros a. rewrite deref_outputs.
  split; by apply (deref_set_bps_keep (fun b => _ (bp b))).
Qed.

(** C4: the filter end to end: at a line where the adapter stopped, the run
    publishes the stop, attributed to exactly the breakpoints that want it, when
    an owner's breakpoint alone would stop; otherwise its last request is an
    accepted continue, or the stop is published (a refused continue, or a step
    or pause that ended there). *)
Theorem filterStop_correct s fr file l place f ad evals now gen st fid g more h :
  stop_scene s fr file l place →
  (∀ h e fid, ad h (Evaluate e fid contextWatch) = evals e) →
  (∀ h, ad h (StackTrace (si_ThreadID st) 1) = AnsStack (g :: more)) → api_frame 0 g = (fr, fid) →
  pendingLocked gen s = true →
  adapter_stops (cond_ev evals) place (fr_Line fr) (slotsFor (deref s) l) = true →
  let '(_, s', h') := run ad (filterStop f now gen st) s h in
  if existsb (line_wants s fr (cond_ev evals)) l
  then published st s s' ∧ Permutation (si_Breakpoints (stop s'))
         (map (fun a => mkStopBreakpoint (b_ID (bp (deref s a))) (b_Owner (bp (deref s a))))
            (List.filter (line_wants s fr (cond_ev evals)) l))
  else published st s s' ∨ passed ad st s s' h h'.
Proof.
  intros Hscene Hev Hstack Hg Hp Hs.
  pose proof (records_nonempty s fr file l _ place Hscene Hs) as Hne.
  destruct (run_filterStop_known s fr f ad evals now gen st fid g more h Hev Hstack Hg Hp Hne) as (ms & t & ->).
  pose proof (verdict_stopFor s fr file l _ place Hscene Hs) as Hv.
  destruct (existsb _ l) eqn:Hw.
  - assert (Hd : d_stop (verdict s fr (cond_ev evals)) = true).
    { unfold d_stop. by rewrite <- (length_map pr_b), Hv, length_filter_pos. }
    rewrite run_finish_stop by done. pose proof (settle_same now (verdict s fr (cond_ev evals)) ms st s) as Hset.
    split; [by apply applyStop_published|]. rewrite stop_applyStop. cbn [si_Breakpoints upd].
    unfold attribution. by rewrite merge_sort_Permutation, <- Hv, map_map.
  - pose proof (run_finish ad now gen (verdict s fr (cond_ev evals)) ms st s t h s Hp (same_stop_refl s)) as Hf.
    exact Hf.
Qed.

(** ** Witnesses: two owners, one line *)

Definition sample_bp (id : Z) (owner cond : string) : breakpoint :=
  zero_bp <| bp := zeroBreakpoint <| b_ID := id |> <| b_File := "/src/a.cs"%string |> <| b_RequestedLine := 10 |>
                     <| b_Line := 10 |> <| b_Owner := owner |> <| b_Condition := cond |> |>.
Definition two_owners : Session :=
  (sample_session LeaseFree)
    <| state := StateRunning |> <| stopGen := 1 |>
    <| heap := {[1 := sample_bp 1 "agent:a" "x > 1"; 2 := sample_bp 2 "human:h" "y > 1"]} |>
    <| bps := {["/src/a.cs"%string := [1; 2]]} |>.
Definition sample_frame : Frame := mkFrame 0 "Main" "/src/a.cs" 10 1.
Definition sample_dap_frame : dapFrame := mkDapFrame 7 "Main" 10 1 (Some "/src/a.cs"%string).
Definition sample_stop : StopInfo := mkStopInfo reasonBreakpoint 4 "" "" true [].
Definition sample_evals (e : string) : answer :=
  if e =?s "y > 1" then AnsEvaluate "true" "bool" 0 else AnsEvaluate "false" "bool" 0.
Definition sample_adapter (h : list request) (q : request) : answer :=
  match q with
  | StackTrace _ _ => AnsStack [sample_dap_frame]
  | Evaluate e _ _ => sample_evals e
  | _ => AnsOk
  end.

Lemma two_owners_scene : stop_scene two_owners sample_frame "/src/a.cs" [1; 2] k_line.
Proof.
  split; [by vm_compute|done| |].
  - intros a [<-|[<-|[]]]; by vm_compute.
  - intros k l' a Hk _ Ha. change (bps two_owners) with ({["/src/a.cs"%string := [1; 2]]} : gmap string (list Z)) in Hk.
    apply lookup_singleton_Some in Hk as [<- <-]. destruct Ha as [<-|[<-|[]]]; by vm_compute.
Qed.

Lemma line_stop_as_alone_witness :
  adapter_stops (cond_ev sample_evals) k_line 10 (slotsFor (deref two_owners) [1; 2])
    && (if needsFilterLocked two_owners then d_stop (verdict two_owners sample_frame (cond_ev sample_evals)) else true)
  = existsb (line_wants two_owners sample_frame (cond_ev sample_evals)) [1; 2].
Proof. exact (line_stop_as_alone two_owners sample_frame "/src/a.cs" [1; 2] (cond_ev sample_evals) k_line two_owners_scene). Defined.

Lemma stop_attribution_witness :
  Permutation (attribution (deref two_owners) (d_stopFor (verdict two_owners sample_frame (cond_ev sample_evals))))
    [mkStopBreakpoint 2 "human:h"].
Proof.
  destruct (stop_attribution two_owners sample_frame "/src/a.cs" [1; 2] (cond_ev sample_evals) k_line two_owners_scene)
    as [H _]; [vm_compute; reflexivity|].
  etransitivity; [exact H|]. vm_compute. reflexivity.
Defined.

Lemma filterStop_fail_open_witness :
  let '(_, s', h') := run sample_adapter (filterStop (mkFs Some (fun _ => true) (fun _ => Ok ""%string) (fun _ => None) String.eqb)
                            50 1 sample_stop) two_owners [] in
  published sample_stop two_owners s' ∨ passed sample_adapter sample_stop two_owners s' [] h'.
Proof. apply filterStop_fail_open. vm_compute. reflexivity. Defined.

Lemma filterStop_correct_witness :
  let '(_, s', h') := run sample_adapter (filterStop (mkFs Some (fun _ => true) (fun _ => Ok ""%string) (fun _ => None) String.eqb)
                            50 1 sample_stop) two_owners [] in
  published sample_stop two_owners s' ∧ Permutation (si_Breakpoints (stop s')) [mkStopBreakpoint 2 "human:h"].
Proof.
  pose proof (filterStop_correct two_owners sample_frame "/src/a.cs" [1; 2] k_line
    (mkFs Some (fun _ => true) (fun _ => Ok ""%string) (fun _ => None) String.eqb)
    sample_adapter sample_evals 50 1 sample_stop 7 sample_dap_frame [] [] two_owners_scene) as H.
  destruct (run _ _ _ _) as [[u s'] h'].
  apply H; [reflexivity|reflexivity|reflexivity|vm_compute; reflexivity|vm_compute; reflexivity].
Defined.
