(* ===== verification/Logpoint.v ===== *)
(** * Hit conditions and log messages read back (internal/session/emulate.go)

    The texts [parseHit] and [parseLog] accept, as printers they invert. *)

From S2P Require Import Prelude GoStrings Api Session Emulate.
From Stdlib Require Import Ascii Bool.

Open Scope Z_scope.

Definition hit_text (h : hitCondition) : string :=
  match h_op h with
  | HitEq => itoa (h_n h)
  | HitGe => ">=" +:+ itoa (h_n h)
  | HitEvery => "%" +:+ itoa (h_n h)
  end.

(** The hits a condition stops at. *)
Definition stops_at (h : hitCondition) (k : Z) : Prop :=
  match h_op h with HitEq => k = h_n h | HitGe => h_n h ≤ k | HitEvery => (h_n h | k) end.

Lemma atoi_range s n : atoi s = Some n → min_int ≤ n ≤ max_int.
Proof. unfold atoi. repeat case_match; try done; intros [= <-]; lia. Qed.

Lemma itoa_head n : 0 ≤ n → ∃ c t, itoa n = String c t ∧ is_digit c = true.
Proof.
  intros H. pose proof (itoa_nonempty n H) as Hne. pose proof (itoa_digits n H) as Hd.
  destruct (itoa n) as [|c t]; [done|]. simpl in Hd. apply andb_true_iff in Hd as [? ?]. by exists c, t.
Qed.

Lemma digit_not c d : is_digit c = true → is_digit d = false → Ascii.eqb d c = false.
Proof. intros H1 H2. apply Ascii.eqb_neq. intros ->. congruence. Qed.

Lemma parseHit_text h : 1 ≤ h_n h ≤ max_int → parseHit (hit_text h) = Ok h.
Proof.
  destruct h as [op n]. cbn [h_n]. intros Hn. assert (H0 : 0 ≤ n) by lia.
  destruct (itoa_head n H0) as (c & t & Hc & Hd).
  assert (Hplain := itoa_plain n H0). assert (Hatoi := atoi_itoa n ltac:(lia)).
  assert (Hlt : (n <? 1) = false) by (apply Z.ltb_ge; lia).
  assert (Hcut : ∀ p d, is_digit d = false → cut_prefix (String d p) (itoa n) = None).
  { intros p d Hdd. unfold cut_prefix. rewrite Hc. cbn [has_prefix]. by rewrite digit_not. }
  unfold parseHit, hit_text. cbn [h_op h_n]. destruct op; rewrite trim_space_plain by (cbn; by rewrite ?Hplain).
  - rewrite !Hcut by done. by rewrite Hatoi, Hlt.
  - rewrite cut_prefix_app, trim_space_plain by done. by rewrite Hatoi, Hlt.
  - replace (cut_prefix ">=" ("%" +:+ itoa n)) with (None : option string) by done.
    rewrite cut_prefix_app, trim_space_plain by done. by rewrite Hatoi, Hlt.
Qed.

(** [parseHit] yields a count from 1 on, reads back every condition it can
    yield, and a parsed condition holds at exactly the Nth hit, from it on, or
    at its multiples. *)
Theorem parseHit_spec s h :
  parseHit s = Ok h →
  1 ≤ h_n h ≤ max_int ∧ parseHit (hit_text h) = Ok h
  ∧ ∀ k, 0 ≤ k → holds h k = true ↔ stops_at h k.
Proof.
  intros Hp. assert (Hn : 1 ≤ h_n h ≤ max_int).
  { revert Hp. unfold parseHit. destruct (match cut_prefix ">=" _ with Some _ => _ | None => _ end) as [op text].
    destruct (atoi text) as [n|] eqn:E; [|done]. destruct (Z.ltb_spec n 1); [done|]. intros [= <-].
    apply atoi_range in E. simpl. lia. }
  split_and!; [lia|lia|by apply parseHit_text|]. intros k Hk. unfold holds, stops_at. destruct (h_op h).
  - apply Z.eqb_eq.
  - apply Z.leb_le.
  - rewrite Z.eqb_eq. rewrite Z.rem_mod_nonneg by lia. apply Z.mod_divide. lia.
Qed.

(** ** Log messages *)

Fixpoint escape (t : string) : string :=
  match t with
  | EmptyString => EmptyString
  | String c t => if is_brace c then String c (String c (escape t)) else String c (escape t)
  end.
Definition print_part (p : logPart) : string :=
  if lp_expr p =?s "" then escape (lp_text p) else String lbrace (lp_expr p +:+ String rbrace "").
Fixpoint printLog (parts : list logPart) : string :=
  match parts with [] => "" | p :: parts => print_part p +:+ printLog parts end.

Definition is_expr (p : logPart) : bool := negb (lp_expr p =?s "").
(** An expression as it can be written between braces. *)
Definition expr_ok (e : string) : Prop :=
  e ≠ ""%string ∧ trim_space e = e ∧ contains_byte rbrace e = false ∧ has_prefix (String lbrace "") e = false.
Definition part_ok (p : logPart) : Prop :=
  if is_expr p then lp_text p = ""%string ∧ expr_ok (lp_expr p) else lp_text p ≠ ""%string.
(** Text parts are not adjacent. *)
Fixpoint alternating (after_text : bool) (parts : list logPart) : Prop :=
  match parts with
  | [] => True
  | p :: parts => (after_text = true → is_expr p = true) ∧ alternating (negb (is_expr p)) parts
  end.
Definition exprs_of (parts : list logPart) : Z := Z.of_nat (length (List.filter is_expr parts)).

Lemma go_text msg t rest parts text n :
  parseLog_go msg 0 (escape t +:+ rest) parts text n = parseLog_go msg 0 rest parts (text +:+ t) n.
Proof.
  revert text. induction t as [|c t IH]; intros text; [by rewrite string_app_nil_r|].
  cbn [escape]. destruct (is_brace c) eqn:Eb.
  - cbn [String.append parseLog_go]. rewrite Eb. cbn [andb has_prefix]. rewrite Ascii.eqb_refl. cbn [andb].
    rewrite IH. by rewrite string_app_assoc.
  - cbn [String.append parseLog_go]. rewrite Eb. cbn [andb]. unfold is_brace in Eb.
    apply orb_false_iff in Eb as [-> ->]. rewrite IH. by rewrite string_app_assoc.
Qed.

Lemma go_skip msg k t rest parts text n :
  k = String.length t → parseLog_go msg k (t +:+ rest) parts text n = parseLog_go msg 0 rest parts text n.
Proof. intros ->. induction t as [|c t IH]; [done|]. exact IH. Qed.

Lemma go_expr msg e rest parts text n :
  expr_ok e → n + 1 ≤ maxLogExprs →
  parseLog_go msg 0 (String lbrace (e +:+ String rbrace "") +:+ rest) parts text n
  = parseLog_go msg 0 rest (flush parts text ++ [mkLogPart "" e]) "" (n + 1).
Proof.
  intros (Hne & Htrim & Hc & Hpre) Hn. cbn [String.append parseLog_go].
  rewrite string_app_assoc. cbn [String.append].
  assert (Hp : has_prefix (String lbrace "") (e +:+ String rbrace rest) = false).
  { destruct e as [|c e]; [done|]. exact Hpre. }
  rewrite Hp, andb_false_r. change (Ascii.eqb lbrace rbrace) with false. change (Ascii.eqb lbrace lbrace) with true.
  cbv iota. rewrite index_byte_app, stake_app, Htrim by done. apply String.eqb_neq in Hne. rewrite Hne.
  replace (maxLogExprs <? n + 1) with false by (symmetry; apply Z.ltb_ge; lia).
  change (String rbrace rest) with (String rbrace "" +:+ rest). rewrite <- string_app_assoc.
  apply go_skip. rewrite string_app_length. simpl. lia.
Qed.

Lemma flush_snoc parts text : text ≠ ""%string → flush parts text = parts ++ [mkLogPart text ""].
Proof. intros H%String.eqb_neq. unfold flush. by rewrite H. Qed.

Lemma go_parts msg parts acc text n :
  Forall part_ok parts → alternating (negb (text =?s "")) parts → n + exprs_of parts ≤ maxLogExprs →
  parseLog_go msg 0 (printLog parts) acc text n = Ok (flush acc text ++ parts).
Proof.
  revert acc text n. induction parts as [|[t e] parts IH]; intros acc text n Hall Halt Hn.
  { cbn. by rewrite app_nil_r. }
  inversion Hall as [|? ? Hp Hrest]; subst. destruct Halt as [Hadj Halt]. cbn [printLog].
  unfold exprs_of in *. cbn [List.filter] in Hn. unfold part_ok, print_part, is_expr in *. cbn [lp_text lp_expr] in *.
  destruct (e =?s "") eqn:Ee; cbn [negb] in *.
  - apply String.eqb_eq in Ee as ->. assert (text = ""%string) as ->.
    { destruct (text =?s "") eqn:E; [by apply String.eqb_eq in E|]. discriminate (Hadj eq_refl). }
    rewrite go_text. cbn [String.append]. apply String.eqb_neq in Hp as Hp'. rewrite IH; [|done|by rewrite Hp'|done].
    rewrite flush_snoc by done. by rewrite <- app_assoc.
  - destruct Hp as [-> Hp]. rewrite go_expr; [|done|cbn [length] in Hn; lia].
    rewrite IH; [|done|done|cbn [length] in Hn; lia]. unfold flush at 1. cbn. by rewrite <- app_assoc.
Qed.

(** A log message of at most ten expressions, written with doubled braces
    in its text, parses back into its parts. *)
Theorem parseLog_print parts :
  Forall part_ok parts → alternating false parts → exprs_of parts ≤ maxLogExprs →
  trim_space (printLog parts) ≠ ""%string →
  parseLog (printLog parts) = Ok parts.
Proof.
  intros H1 H2 H3 H4%String.eqb_neq. unfold parseLog. rewrite H4. by rewrite go_parts.
Qed.

(** ** Witnesses *)

Lemma parseHit_spec_witness :
  parseHit " >= 3" = Ok (mkHit HitGe 3) ∧ (holds (mkHit HitGe 3) 5 = true ↔ stops_at (mkHit HitGe 3) 5).
Proof.
  split; [vm_compute; reflexivity|].
  apply (parseHit_spec " >= 3" (mkHit HitGe 3)); [vm_compute; reflexivity|lia].
Defined.

Lemma parseLog_print_witness :
  let parts := [mkLogPart "{i}=" ""; mkLogPart "" "a[i]"; mkLogPart "" "b"]%string in
  printLog parts = "{{i}}={a[i]}{b}"%string ∧ parseLog (printLog parts) = Ok parts.
Proof.
  cbv zeta. split; [vm_compute; reflexivity|]. apply parseLog_print.
  - repeat constructor; vm_compute; discriminate.
  - repeat split; vm_compute; discriminate.
  - vm_compute. discriminate.
  - vm_compute. discriminate.
Defined.
