(* ===== verification/Breakpoints.v ===== *)
(** * Breakpoints (internal/session/breakpoints.go, caps.go)

    Checking a breakpoint's spec, adding, updating, removing and annotating
    breakpoints, the adapter's breakpoint events, and run-until's temporary
    breakpoint. Each method is a handler over the session; its critical
    sections are the definitions ending in [Locked]. *)

From S2P Require Import Prelude GoStrings GoPath Api PathMap EventLog Prog Session Anchor Present Slots Adapter.
From S2P Require Import Emulate.
From Stdlib Require Import Bool.

Open Scope Z_scope.

(** ** Specs *)


Definition parseEmulated (spec : BreakpointSpec) : result (option hitCondition * list logPart) :=
  try h := (if sp_HitCondition spec =?s "" then Ok None
            else try h := parseHit (sp_HitCondition spec) in Ok (Some h)) in
  try logs := (if sp_LogMessage spec =?s "" then Ok [] else parseLog (sp_LogMessage spec)) in
  Ok (h, logs).

Definition checkSourceFile (f : fs) (path : string) : result unit :=
  if fs_isFile f path then Ok () else Err (invalid ("no source file " +:+ path)).

Definition resolveSpec (f : fs) (spec : BreakpointSpec) (allowFunction : bool) : result BreakpointSpec :=
  if negb (sp_Function spec =?s "") then
    if negb allowFunction then Err (invalid "run-until needs a line, not a function")
    else if negb (sp_File spec =?s "") || negb (sp_Line spec =? 0) || negb (sp_Anchor spec =?s "") then
      Err (invalid "a function breakpoint has no file, line or anchor")
    else if negb (sp_HitCondition spec =?s "") || negb (sp_LogMessage spec =?s "") then
      Err (invalid "--hit and --log work on line breakpoints only")
    else Ok spec
  else if negb (is_abs (sp_File spec)) then
    Err (invalid ("invalid breakpoint file " +:+ sp_File spec +:+ ": want an absolute path"))
  else
    let spec := spec <| sp_File ::= realPath f |> in
    try _ := checkSourceFile f (sp_File spec) in
    try spec := (if negb (sp_Anchor spec =?s "") && (sp_Line spec =? 0)
                 then try line := resolveAnchor f (sp_File spec) (sp_Anchor spec) in Ok (spec <| sp_Line := line |>)
                 else Ok spec) in
    if sp_Line spec <? 1 then
      Err (invalid ("invalid breakpoint " +:+ sp_File spec +:+ ":" +:+ itoa (sp_Line spec)))
    else try _ := parseEmulated spec in Ok spec.

(** ** What the adapter can do (caps.go) *)

Definition unsupported (lang what : string) : Error :=
  NewError CodeUnsupported ("the " +:+ lang +:+ " debug adapter can't " +:+ what).

Definition setCaps (c : Capabilities) (s : Session) : Session :=
  bump (s <| caps := c |> <| capsKnown := true |>).

Definition checkBreakpointCapsLocked (spec : BreakpointSpec) (s : Session) : result unit :=
  if negb (capsKnown s) then Ok ()
  else if negb (sp_Function spec =?s "") && negb (SupportsFunctionBreakpoints (caps s)) then
    Err (unsupported (Lang s) "set function breakpoints")
  else if negb (sp_Condition spec =?s "") && negb (SupportsConditionalBreakpoints (caps s)) then
    Err (unsupported (Lang s) "evaluate breakpoint conditions (--if)")
  else Ok ().

(** ** The lists *)

(** [setEmulated]: on texts that don't parse (they were checked), nothing. *)
Definition setEmulated (spec : BreakpointSpec) (b : breakpoint) : breakpoint :=
  let '(h, lg) := match parseEmulated spec with Ok hl => hl | Err _ => (None, []) end in
  b <| bp ::= fun x => x <| b_HitCondition := sp_HitCondition spec |> <| b_LogMessage := sp_LogMessage spec |>
                         <| b_Hits := 0 |> |>
    <| hit := h |> <| log := lg |>.

Definition spec_key (spec : BreakpointSpec) : slotKey := mkKey (sp_Function spec) (sp_Line spec).

(** A new breakpoint of [owner]'s, with id [id]. *)
Definition new_breakpoint (now id : Z) (owner : string) (spec : BreakpointSpec) : breakpoint :=
  setEmulated spec
    (zero_bp <| bp := zeroBreakpoint <| b_ID := id |> <| b_File := sp_File spec |>
                        <| b_RequestedLine := sp_Line spec |> <| b_Line := sp_Line spec |>
                        <| b_Condition := sp_Condition spec |> <| b_Function := sp_Function spec |>
                        <| b_Anchor := sp_Anchor spec |> <| b_Owner := owner |> <| b_CreatedAt := now |> |>).
Definition addNewLocked (now : Z) (owner : string) (spec : BreakpointSpec) (s : Session) : Z * Session :=
  let id := nextBP s + 1 in
  (id, s <| nextBP := id |> <| heap ::= <[id := new_breakpoint now id owner spec]> |>
         <| bps ::= <[sp_File spec := list_of s (sp_File spec) ++ [id]]> |>).

(** Whether the spec differs from what the breakpoint has; one that was
    temporary becomes permanent. *)
Definition spec_changes (spec : BreakpointSpec) (b : breakpoint) : bool :=
  negb (condition b =?s sp_Condition spec) || b_Temporary (bp b) || negb (b_Anchor (bp b) =?s sp_Anchor spec)
  || negb (b_HitCondition (bp b) =?s sp_HitCondition spec) || negb (b_LogMessage (bp b) =?s sp_LogMessage spec).
Definition respec (spec : BreakpointSpec) (b : breakpoint) : breakpoint :=
  setEmulated spec
    (b <| bp ::= fun x => x <| b_Condition := sp_Condition spec |> <| b_Temporary := false |>
                           <| b_Anchor := sp_Anchor spec |> |>).

(** The breakpoint, whether it is new, and whether an existing one changed. *)
Definition addBreakpointLocked (now : Z) (owner : string) (spec : BreakpointSpec) (s : Session)
    : (Z * bool * bool) * Session :=
  let owned a := let b := deref s a in
                 (b_Owner (bp b) =?s owner) && bool_decide (key b = spec_key spec) in
  match List.find owned (list_of s (sp_File spec)) with
  | Some a => ((a, false, spec_changes spec (deref s a)), set_bp a (respec spec) s)
  | None => let '(a, s) := addNewLocked now owner spec s in ((a, true, false), s)
  end.

Definition findBreakpointLocked (id : Z) (s : Session) : option Z :=
  List.find (fun a => b_ID (bp (deref s a)) =? id) (all_addrs s).

Definition id_le (look : Z → breakpoint) (a b : Z) : Prop := b_ID (bp (look a)) ≤ b_ID (bp (look b)).
#[global] Instance id_le_dec look a b : Decision (id_le look a b).
Proof. unfold id_le. apply _. Defined.
(** [sort.Slice] by ID. *)
Definition by_id (look : Z → breakpoint) (l : list Z) : list Z := merge_sort (id_le look) l.

Definition not_nil {A} (l : list A) : option (list A) := match l with [] => None | _ => Some l end.

(** [removeBreakpoints]' first section: what is gone, the keys it was under
    and how many are left. *)
Definition removeLocked (matching : Session → Z → breakpoint → bool) (s : Session)
    : (list Z * list string * Z * bool) * Session :=
  let m a := matching s a (deref s a) in
  let lists := map_to_list (bps s) in
  let gone := List.filter m (concat lists.*2) in
  let touched := (List.filter (fun '(_, l) => existsb m l) lists).*1 in
  let kept := Z.of_nat (length (delete_func m (concat lists.*2))) in
  ((gone, touched, kept, bool_decide (state s = StateExited)),
   s <| bps ::= omap (fun l => not_nil (delete_func m l)) |>).

(** Sends keys' lists to the adapter until one fails. *)
Fixpoint sync_keys (keys : list string) : handler (result unit) :=
  match keys with
  | [] => ret (Ok ())
  | k :: keys =>
    (r <- syncKey k ;;
     match r with Err e => ret (Err e) | Ok _ => sync_keys keys end)%prog
  end.

(** A breakpoint event per breakpoint. *)
Definition logAllLocked (now : Z) (action actor : string) (l : list Z) (s : Session) : Session :=
  fold_left (fun s a => logBreakpointLocked now action actor a s) l s.

Definition removeBreakpoints (now : Z) (actor : string) (matching : Session → Z → breakpoint → bool)
    : handler (Z * Z * result unit) :=
  (gtl <- atomically (removeLocked matching) ;;
   let '(gone, touched, kept, exited) := gtl in
   err <- (if exited : bool then ret (Ok ()) else sync_keys touched) ;;
   atomically (fun s => ((), logAllLocked now "removed" actor (by_id (deref s) gone) s)) ;;;
   ret (Z.of_nat (length gone), kept, err))%prog.

(** ** Notes (the host's file times are read outside the lock) *)

Definition annotate (f : fs) (since : Z) (l : list Breakpoint) : list Breakpoint :=
  map (fun b =>
    if b_File b =?s "" then b
    else let note := staleNote f (b_File b) since in
         if note =?s "" then b
         else if b_Note b =?s "" then b <| b_Note := note |>
         else b <| b_Note := b_Note b +:+ "; " +:+ note |>) l.

(** ** The methods *)

Definition add_checked (now : Z) (c : Client) (spec : BreakpointSpec) (s : Session)
    : result (Z * bool * bool) * Session :=
  if decide (state s = StateExited) then
    (Err (stateError (s_ID s) (state s) "adding a breakpoint needs a live session"), s)
  else match checkBreakpointCapsLocked spec s with
       | Err e => (Err e, s)
       | Ok _ =>
         match checkMapped (cf_pathMap (conf s)) spec with
         | Err e => (Err e, s)
         | Ok _ => let '(r, s) := addBreakpointLocked now (c_ID c) spec s in (Ok r, s)
         end
       end.

Definition added_event (now : Z) (actor : string) (a : Z) (isNew changed : bool) (s : Session) : Session :=
  if isNew then logBreakpointLocked now "added" actor a s
  else if changed then logBreakpointLocked now "changed" actor a s else s.

Definition AddBreakpoint (f : fs) (now : Z) (c : Client) (spec : BreakpointSpec) : handler (result Breakpoint) :=
  match resolveSpec f spec true with
  | Err e => ret (Err e)
  | Ok spec =>
    (added <- atomically (add_checked now c spec) ;;
     match added with
     | Err e => ret (Err e)
     | Ok (a, isNew, changed) =>
       synced <- syncKey (sp_File spec) ;;
       match synced with
       | Err e => ret (Err e)
       | Ok _ =>
         out <- atomically (fun s => ((bp (deref s a), cf_CreatedAt (conf s)),
                                      added_event now (c_ID c) a isNew changed s)) ;;
         ret (match annotate f out.2 [out.1] with b :: _ => Ok b | [] => Ok out.1 end)
       end
     end)%prog
  end.

Definition RemoveBreakpoint (now : Z) (c : Client) (id : Z) (force : bool) : handler (Z * Z * result unit) :=
  if id =? 0 then
    removeBreakpoints now (c_ID c) (fun _ _ b => force || (b_Owner (bp b) =?s c_ID c))
  else
    (target <- atomically (fun s => (option_map (fun a => (a, b_Owner (bp (deref s a)))) (findBreakpointLocked id s), s)) ;;
     match target with
     | None => ret (0, 0, Err (invalid ("no breakpoint " +:+ itoa id)))
     | Some (t, owner) =>
       if negb (owner =?s c_ID c) && negb force then
         ret (0, 0, Err (NewError CodeNotOwner ("breakpoint " +:+ itoa id +:+ " belongs to " +:+ owner)))
       else
         r <- removeBreakpoints now (c_ID c) (fun _ a _ => a =? t) ;;
         let '(removed, _, err) := r in ret (removed, 0, err)
     end)%prog.

(** [Breakpoints]: those of [owner] ("": all), by id. *)
Definition bp_le (a b : Breakpoint) : Prop := b_ID a ≤ b_ID b.
#[global] Instance bp_le_dec a b : Decision (bp_le a b).
Proof. unfold bp_le. apply _. Defined.
Definition Breakpoints (f : fs) (owner : string) : handler (list Breakpoint) :=
  (out <- atomically (fun s =>
     ((map (fun a => bp (deref s a))
         (List.filter (fun a => (owner =?s "") || (b_Owner (bp (deref s a)) =?s owner)) (all_addrs s)),
       cf_CreatedAt (conf s)), s)) ;;
   ret (annotate f out.2 (merge_sort bp_le out.1)))%prog.

(** [updateBreakpointLocked]: an adapter's breakpoint event. *)
Definition apply_update (got : dapBreakpoint) (b : breakpoint) : breakpoint :=
  let b := b <| bp ::= fun x => x <| b_Verified := g_Verified got |> <| b_Message := g_Message got |> |> in
  let b := if (0 <? g_Line got) && (b_Function (bp b) =?s "")
           then b <| bp ::= fun x => x <| b_Line := g_Line got |> |> else b in
  match g_Source got with
  | Some p => if p =?s "" then b else b <| source := p |>
  | None => b
  end.
Definition updateBreakpointLocked (now : Z) (got : dapBreakpoint) (s : Session) : Session :=
  if g_Id got =? 0 then s
  else
    let hits := List.filter (fun a => adapterID (deref s a) =? g_Id got) (all_addrs s) in
    let s := set_bps hits (apply_update got) s in
    logAllLocked now "changed" "" (by_id (deref s) hits) s.

(** ** Run-until's breakpoint *)

Definition stillTemporary (temp : Z) (_ : Session) (a : Z) (b : breakpoint) : bool := (a =? temp) && b_Temporary (bp b).

Definition removeTemporary (now : Z) (actor : string) : handler (result unit) :=
  (r <- removeBreakpoints now actor (fun _ _ b => b_Temporary (bp b)) ;; ret r.2)%prog.

(** The target, and whether it is a new temporary breakpoint: the last of
    the client's own there that stops, else a new one. *)
Definition targetLocked (now : Z) (c : Client) (spec : BreakpointSpec) (s : Session) : (Z * bool) * Session :=
  let own a := let b := deref s a in
               (b_Owner (bp b) =?s c_ID c) && bool_decide (key b = mkKey "" (sp_Line spec)) && negb (emulated b) in
  match List.find own (rev (list_of s (sp_File spec))) with
  | Some a => ((a, false), s)
  | None => let '(a, s) := addNewLocked now (c_ID c) spec s in
            ((a, true), set_bp a (fun b => b <| bp ::= fun x => x <| b_Temporary := true |> |>) s)
  end.

(** Where the target landed, its id and the temporary breakpoint, if placed. *)
Definition placeTarget (now : Z) (c : Client) (spec : BreakpointSpec)
    : handler (result (BreakpointSpec * Z * option Z)) :=
  (tt <- atomically (targetLocked now c spec) ;;
   let '(target, isTemp) := tt in
   err <- (if isTemp : bool then syncBreakpoints (sp_File spec) else ret (Ok ())) ;;
   match err with
   | Err e =>
     removeBreakpoints now (c_ID c) (stillTemporary target) ;;;
     ret (Err e)
   | Ok _ =>
     atomically (fun s =>
       let s := if isTemp : bool then logBreakpointLocked now "added" (c_ID c) target s else s in
       let b := bp (deref s target) in
       (Ok (mkSpec (b_File b) (b_Line b) (b_Condition b) "" "" "" "", b_ID b,
            if isTemp then Some target else None), s))
   end)%prog.
