(* ===== verification/Replace.v ===== *)
(** * Replacing an editor's breakpoints (internal/session/replace.go)

    A DAP setBreakpoints request: a client's editor breakpoints in a file
    become exactly a list of specs, matched to the ones it has. The matched
    breakpoints are updated in place, so the session is threaded through. *)

From S2P Require Import Prelude GoStrings GoPath Api EventLog Prog Session Slots Adapter Emulate Breakpoints.
From Stdlib Require Import Bool.

Open Scope Z_scope.

Record replaceItem := mkItem {
  it_spec : BreakpointSpec; it_refused : option Error; it_b : option Z; it_isNew : bool; it_changed : bool }.
#[global] Instance eta_replaceItem : Eta replaceItem :=
  fun r => mkItem (it_spec r) (it_refused r) (it_b r) (it_isNew r) (it_changed r).

Definition refused_text : string :=
  "another breakpoint of this request is on the same line: eyedbg keeps one per line per client (columns are ignored)".

(** [refuseLocked]: [seen] are the places of the items accepted so far. *)
Fixpoint refuse_go (s : Session) (seen : list slotKey) (items : list replaceItem) : list replaceItem :=
  match items with
  | [] => []
  | it :: items =>
    match it_refused it with
    | Some _ => it :: refuse_go s seen items
    | None =>
      let refuse e := it <| it_refused := Some e |> :: refuse_go s seen items in
      match checkBreakpointCapsLocked (it_spec it) s with
      | Err e => refuse e
      | Ok _ =>
        match checkMapped (cf_pathMap (conf s)) (it_spec it) with
        | Err e => refuse e
        | Ok _ =>
          if bool_decide (spec_key (it_spec it) ∈ seen) then refuse (invalid refused_text)
          else it :: refuse_go s (spec_key (it_spec it) :: seen) items
        end
      end
    end
  end.
Definition refuseLocked (s : Session) (items : list replaceItem) : list replaceItem := refuse_go s [] items.

(** [update]: whether it changed, and the breakpoint. *)
Definition unchanged_by (spec : BreakpointSpec) (b : breakpoint) : bool :=
  (condition b =?s sp_Condition spec) && (b_HitCondition (bp b) =?s sp_HitCondition spec)
  && (b_LogMessage (bp b) =?s sp_LogMessage spec) && (b_Anchor (bp b) =?s "").
Definition update (spec : BreakpointSpec) (b : breakpoint) : breakpoint :=
  if unchanged_by spec b then b
  else setEmulated spec
         (b <| bp ::= fun x => x <| b_Condition := sp_Condition spec |> <| b_Anchor := ""%string |> |>).

Definition byRequested (b : breakpoint) (spec : BreakpointSpec) : bool := bool_decide (key b = spec_key spec).
Definition byPlaced (b : breakpoint) (spec : BreakpointSpec) : bool :=
  (sp_Function spec =?s "") && (b_Line (bp b) =? sp_Line spec).

(** One pass of [matchItems]: [old] are the breakpoints not matched yet,
    [None] where one was. *)
Fixpoint match_pass (same : breakpoint → BreakpointSpec → bool) (items : list replaceItem)
    (old : list (option Z)) (s : Session) : list replaceItem * list (option Z) * Session :=
  match items with
  | [] => ([], old, s)
  | it :: items =>
    let is_same o := match o with Some a => same (deref s a) (it_spec it) | None => false end in
    let '(it, old, s) :=
      match it_refused it, it_b it with
      | None, None =>
        match index_func is_same old with
        | Some j =>
          match old !! j with
          | Some (Some a) =>
            (it <| it_b := Some a |> <| it_changed := negb (unchanged_by (it_spec it) (deref s a)) |>,
             <[j := None]> old, set_bp a (update (it_spec it)) s)
          | _ => (it, old, s)
          end
        | None => (it, old, s)
        end
      | _, _ => (it, old, s)
      end in
    let '(items, old, s) := match_pass same items old s in
    (it :: items, old, s)
  end.

(** The items matched, and the breakpoints that weren't, by id. *)
Definition matchItems (old : list Z) (items : list replaceItem) (s : Session)
    : list replaceItem * list Z * Session :=
  let '(items, o, s) := match_pass byRequested items (map Some old) s in
  let '(items, o, s) := match_pass byPlaced items o s in
  (items, by_id (deref s) (omap id o), s).

(** The last loop of [matchLocked]: every accepted item gets a breakpoint,
    marked as the editor's. *)
Definition mark_editor (a : Z) (s : Session) : Session :=
  set_bp a (fun b => b <| bp ::= fun x => x <| b_Editor := true |> |>) s.
Fixpoint place_items (now : Z) (owner : string) (items : list replaceItem) (s : Session)
    : list replaceItem * Session :=
  match items with
  | [] => ([], s)
  | it :: items =>
    let '(it, s) :=
      match it_refused it, it_b it with
      | Some _, _ => (it, s)
      | None, None =>
        let '(a, s) := addNewLocked now owner (it_spec it) s in
        (it <| it_b := Some a |> <| it_isNew := true |>, mark_editor a s)
      | None, Some a =>
        (if b_Editor (bp (deref s a)) then it else it <| it_changed := true |>, mark_editor a s)
      end in
    let '(items, s) := place_items now owner items s in
    (it :: items, s)
  end.

(** [s.bps[key]] without [gone]; a key without breakpoints isn't there. *)
Definition drop_from (key : string) (gone : list Z) (s : Session) : Session :=
  match gone with
  | [] => s
  | _ =>
    match not_nil (delete_func (fun a => bool_decide (a ∈ gone)) (list_of s key)) with
    | Some l => s <| bps ::= <[key := l]> |>
    | None => s <| bps ::= delete key |>
    end
  end.

Definition matchLocked (now : Z) (owner key : string) (items : list replaceItem) (keep : list Z) (s : Session)
    : list replaceItem * list Z * Session :=
  let old := List.filter (fun a => let b := bp (deref s a) in (b_Owner b =?s owner) && negb (b_Temporary b))
               (list_of s key) in
  let '(items, rest, s) := matchItems old items s in
  let gone := delete_func (fun a => let b := bp (deref s a) in
                                    negb (b_Editor b) || bool_decide (b_ID b ∈ keep)) rest in
  let s := drop_from key gone s in
  let '(items, s) := place_items now owner items s in
  (items, gone, s).

Definition refusalText (e : Error) : string := e_message e.
Definition replace_result (s : Session) (it : replaceItem) : Breakpoint :=
  match it_b it with
  | Some a => bp (deref s a)
  | None =>
    zeroBreakpoint <| b_RequestedLine := sp_Line (it_spec it) |> <| b_Line := sp_Line (it_spec it) |>
      <| b_Function := sp_Function (it_spec it) |>
      <| b_Message := match it_refused it with Some e => refusalText e | None => ""%string end |>
  end.
Definition replaceResults (f : fs) (items : list replaceItem) : handler (list Breakpoint) :=
  (out <- atomically (fun s => ((map (replace_result s) items, cf_CreatedAt (conf s)), s)) ;;
   ret (annotate f out.2 out.1))%prog.

Definition item_event (now : Z) (actor : string) (it : replaceItem) (s : Session) : Session :=
  match it_b it with
  | None => s
  | Some a => added_event now actor a (it_isNew it) (it_changed it) s
  end.
Definition replace_events (now : Z) (actor : string) (gone : list Z) (items : list replaceItem) (s : Session) : Session :=
  fold_left (fun s it => item_event now actor it s) items (logAllLocked now "removed" actor gone s).

Definition replace_matched (now : Z) (c : Client) (key : string) (items : list replaceItem) (keep : list Z) (s : Session)
    : result (list replaceItem * list Z) * Session :=
  if decide (state s = StateExited) then
    (Err (stateError (s_ID s) (state s) "setting breakpoints needs a live session"), s)
  else
    let '(items, gone, s) := matchLocked now (c_ID c) key (refuseLocked s items) keep s in
    (Ok (items, gone), s).

(** The results come with the adapter's error, if it has one. *)
Definition replace (f : fs) (now : Z) (c : Client) (key : string) (items : list replaceItem) (keep : list Z)
    : handler (list Breakpoint * result unit) :=
  (matched <- atomically (replace_matched now c key items keep) ;;
   match matched with
   | Err e => ret ([], Err e)
   | Ok (items, gone) =>
     err <- syncKey key ;;
     atomically (fun s => ((), replace_events now (c_ID c) gone items s)) ;;;
     out <- replaceResults f items ;;
     ret (out, err)
   end)%prog.

Definition FileKey (f : fs) (file : string) : result string :=
  if file =?s "" then Err (invalid "breakpoints need a file on disk")
  else if negb (is_abs file) then Err (invalid ("invalid breakpoint file " +:+ file +:+ ": want an absolute path"))
  else match fs_EvalSymlinks f file with
       | Some resolved => Ok resolved
       | None => Ok (Join (realPath f (Dir file)) (Base file))
       end.

Definition new_item (spec : BreakpointSpec) (r : result BreakpointSpec) : replaceItem :=
  match r with
  | Ok spec => mkItem spec None None false false
  | Err e => mkItem spec (Some e) None false false
  end.

(** Of a refused spec only the line and the function are read again, which
    [resolveSpec] leaves as they are without an anchor. *)
Definition ReplaceBreakpoints (f : fs) (now : Z) (c : Client) (file : string) (specs : list BreakpointSpec) (keep : list Z)
    : handler (list Breakpoint * result unit) :=
  let specs := map (fun spec => spec <| sp_File := file |> <| sp_Function := ""%string |> <| sp_Anchor := ""%string |>) specs in
  match FileKey f file with
  | Err e =>
    (out <- replaceResults f (map (fun spec => mkItem spec (Some e) None false false) specs) ;;
     err <- atomically (fun s => (requireLive "setting breakpoints needs a live session" s, s)) ;;
     ret (out, err))%prog
  | Ok key => replace f now c key (map (fun spec => new_item spec (resolveSpec f spec false)) specs) keep
  end.

Definition function_item (f : fs) (spec : BreakpointSpec) : replaceItem :=
  let spec := spec <| sp_File := ""%string |> <| sp_Line := 0 |> <| sp_Anchor := ""%string |> <| sp_LogMessage := ""%string |> in
  new_item spec
    (if sp_Function spec =?s "" then Err (invalid "a function breakpoint needs a function name")
     else if negb (sp_HitCondition spec =?s "") then Err (invalid "hit counts work on line breakpoints only")
     else resolveSpec f spec true).
Definition ReplaceFunctionBreakpoints (f : fs) (now : Z) (c : Client) (specs : list BreakpointSpec)
    : handler (list Breakpoint * result unit) :=
  replace f now c funcKey (map (function_item f) specs) [].
