(* ===== verification/Exceptions.v ===== *)
(** * Exception modes (internal/session/exceptions.go, caps.go)

    Each client has its own mode; the adapter's filters are the union of
    what the modes turn on. *)

From S2P Require Import Prelude GoStrings Api EventLog Prog Session Adapter Breakpoints.
From Stdlib Require Import Bool.

Open Scope Z_scope.

Definition reasonException : string := "exception".
Definition reasonPause : string := "pause".

Definition pauseSignal (st : StopInfo) : bool :=
  (si_Reason st =?s reasonException) && (si_Description st =?s "signal SIGSTOP").

(** [withMode]'s loop: the list, and whether [client] was in it. *)
Definition is_none (mode : ExceptionMode) : bool := bool_decide (mode = ExceptionsNone).
Fixpoint withMode_go (modes : list ClientExceptionMode) (client : string) (mode : ExceptionMode)
    : list ClientExceptionMode * bool :=
  match modes with
  | [] => ([], false)
  | m :: modes =>
    let '(out, found) := withMode_go modes client mode in
    if negb (cm_Client m =?s client) then (m :: out, found)
    else (if is_none mode then out else mkCEM client mode :: out, true)
  end.
Definition withMode (modes : list ClientExceptionMode) (client : string) (mode : ExceptionMode) (force : bool)
    : list ClientExceptionMode :=
  if force then (if is_none mode then [] else [mkCEM client mode])
  else
    let '(out, found) := withMode_go modes client mode in
    if negb found && negb (is_none mode) then out ++ [mkCEM client mode] else out.

(** The filters of one mode: the driver's, else one named as the mode. *)
Definition mode_filters (excFilters : ExceptionMode → option (list string)) (m : ExceptionMode) : list string :=
  default [exception_mode_name m] (excFilters m).
Definition add_filter (filters : list string) (id : string) : list string :=
  if bool_decide (id ∈ filters) then filters else filters ++ [id].
Definition filtersFor (excFilters : ExceptionMode → option (list string)) (modes : list ClientExceptionMode) : list string :=
  fold_left (fun filters m => fold_left add_filter (mode_filters excFilters (cm_Mode m)) filters) modes [].

Definition exceptionsResultLocked (s : Session) : ExceptionsResult :=
  mkExceptionsResult (s_ID s) (excModes s) (filtersFor (cf_excFilters (conf s)) (excModes s)).

Definition checkFiltersLocked (filters : list string) (s : Session) : result unit :=
  if negb (capsKnown s) then Ok ()
  else
    let ids := ExceptionFilters (caps s) in
    match List.find (fun f => negb (bool_decide (f ∈ ids))) filters with
    | None => Ok ()
    | Some f =>
      match ids with
      | [] => Err (unsupported (Lang s) "stop at exceptions")
      | _ => Err (NewError CodeUnsupported
               ("the " +:+ Lang s +:+ " debug adapter has no exception filter " +:+ f
                +:+ " (its filters: " +:+ join ", " ids +:+ ")"))
      end
    end.

(** Call with [syncMu] held. *)
Definition sendFilters (filters : list string) : handler (result unit) :=
  (init <- atomically (fun s => (initialized s, s)) ;;
   if negb init then ret (Ok ())
   else ans <- send (SetExceptionBreakpoints filters) ;; ret (answer_ok ans))%prog.

(** The first section of [setExceptionMode]: refused, nothing to do, or the
    modes and filters to set. *)
Definition set_mode_checked (c : Client) (mode : ExceptionMode) (force : bool) (guard : Session → bool) (s : Session)
    : result (ExceptionsResult + list ClientExceptionMode * list string) :=
  if decide (state s = StateExited) then
    Err (stateError (s_ID s) (state s) "setting exception stops needs a live session")
  else if negb (guard s) then Ok (inl (exceptionsResultLocked s))
  else
    let modes := withMode (excModes s) (c_ID c) mode force in
    let filters := filtersFor (cf_excFilters (conf s)) modes in
    try _ := checkFiltersLocked filters s in Ok (inr (modes, filters)).

Definition set_modes (now : Z) (c : Client) (mode : ExceptionMode) (force : bool) (modes : list ClientExceptionMode) (s : Session)
    : Session :=
  logEvent now ((event EventExceptions) <| ev_Client := c_ID c |> <| ev_Action := exception_mode_name mode |>
                  <| ev_Reason := if force then "force"%string else ""%string |>)
    (s <| excModes := modes |>).

(** A [nil] guard is one that always holds. *)
Definition setExceptionMode (now : Z) (c : Client) (mode : ExceptionMode) (force : bool) (guard : Session → bool)
    : handler (result ExceptionsResult) :=
  with_lock syncMu (
    checked <- atomically (fun s => (set_mode_checked c mode force guard s, s)) ;;
    match checked with
    | Err e => ret (Err e)
    | Ok (inl r) => ret (Ok r)
    | Ok (inr (modes, filters)) =>
      err <- sendFilters filters ;;
      match err with
      | Err e => ret (Err e)
      | Ok _ => atomically (fun s => let s := set_modes now c mode force modes s in
                                     (Ok (exceptionsResultLocked s), s))
      end
    end)%prog.

(** [p.Mode] as the text it comes as, "" for a report. *)
Definition Exceptions (now : Z) (c : Client) (mode : string) (force : bool) : handler (result ExceptionsResult) :=
  if mode =?s "" then
    if force then ret (Err (invalid "--force needs a mode"))
    else atomically (fun s => (Ok (exceptionsResultLocked s), s))
  else match ParseExceptionMode mode with
       | Err e => ret (Err e)
       | Ok m => setExceptionMode now c m force (fun _ => true)
       end.

Definition configureExceptions : handler (result unit) :=
  with_lock syncMu (
    fe <- atomically (fun s => let filters := filtersFor (cf_excFilters (conf s)) (excModes s) in
                               ((filters, checkFiltersLocked filters s), s)) ;;
    match fe.2 with
    | Err e => ret (Err e)
    | Ok _ => sendFilters fe.1
    end)%prog.

(** ** The union *)

Definition mode_of (modes : list ClientExceptionMode) (client : string) : ExceptionMode :=
  match List.find (fun m => cm_Client m =?s client) modes with
  | Some m => cm_Mode m
  | None => ExceptionsNone
  end.

(** The modes kept: one per client, none of them [none]. *)
Definition wf_modes (modes : list ClientExceptionMode) : Prop :=
  List.NoDup (map cm_Client modes) ∧ ∀ m, In m modes → cm_Mode m ≠ ExceptionsNone.

Lemma mode_of_cons m modes c :
  mode_of (m :: modes) c = if cm_Client m =?s c then cm_Mode m else mode_of modes c.
Proof. unfold mode_of. simpl. by destruct (cm_Client m =?s c). Qed.

Lemma mode_of_app modes m c :
  mode_of (modes ++ [m]) c
  = if existsb (fun x => cm_Client x =?s c) modes then mode_of modes c
    else if cm_Client m =?s c then cm_Mode m else ExceptionsNone.
Proof.
  induction modes as [|x modes IH]; cbn [app existsb]; rewrite mode_of_cons; [done|].
  destruct (cm_Client x =?s c) eqn:E; cbn [orb]; [by rewrite mode_of_cons, E|].
  rewrite IH, mode_of_cons, E. done.
Qed.

Lemma mode_of_absent modes c : ¬ In c (map cm_Client modes) → mode_of modes c = ExceptionsNone.
Proof.
  induction modes as [|m modes IH]; [done|]. intros H. rewrite mode_of_cons.
  destruct (String.eqb_spec (cm_Client m) c) as [E|E]; [by destruct H; left|].
  apply IH. intros Hin. apply H. by right.
Qed.

Section with_mode.
Context (client : string) (mode : ExceptionMode).

Lemma withMode_go_in modes m :
  In m (withMode_go modes client mode).1 →
  (In m modes ∧ cm_Client m ≠ client) ∨ (m = mkCEM client mode ∧ mode ≠ ExceptionsNone ∧ In client (map cm_Client modes)).
Proof.
  induction modes as [|x modes IH]; [done|]. cbn [withMode_go map In].
  destruct (withMode_go modes client mode) as [out found]. cbn [fst] in *.
  destruct (String.eqb_spec (cm_Client x) client) as [E|E]; cbn [negb fst].
  - unfold is_none. case_bool_decide as Hm; cbn [In]; [|intros [<-|H]]; naive_solver.
  - cbn [In]. intros [<-|H]; naive_solver.
Qed.

Lemma withMode_go_clients modes c :
  In c (map cm_Client (withMode_go modes client mode).1) → In c (map cm_Client modes).
Proof.
  intros (m & <- & Hm)%in_map_iff. apply withMode_go_in in Hm as [[H _]|(-> & _ & H)]; [by apply in_map|done].
Qed.

Lemma withMode_go_nodup modes :
  List.NoDup (map cm_Client modes) → List.NoDup (map cm_Client (withMode_go modes client mode).1).
Proof.
  induction modes as [|x modes IH]; [done|]. cbn [map]. intros [Hx Hnd]%List.NoDup_cons_iff.
  pose proof (withMode_go_clients modes) as Hsub. cbn [withMode_go].
  destruct (withMode_go modes client mode) as [out found]. cbn [fst] in *.
  destruct (String.eqb_spec (cm_Client x) client) as [E|E]; cbn [negb fst map].
  - destruct (is_none mode); [auto|]. cbn [map]. constructor; [|auto]. cbn. rewrite <- E. auto.
  - constructor; auto.
Qed.

Lemma withMode_go_spec modes :
  List.NoDup (map cm_Client modes) →
  (withMode_go modes client mode).2 = existsb (fun m => cm_Client m =?s client) modes
  ∧ ∀ c, mode_of (withMode_go modes client mode).1 c
         = if client =?s c then (if (withMode_go modes client mode).2 then mode else ExceptionsNone) else mode_of modes c.
Proof.
  induction modes as [|x modes IH].
  { intros _. split; [done|]. intros c. by destruct (client =?s c). }
  cbn [map]. intros [Hx Hnd]%List.NoDup_cons_iff. destruct (IH Hnd) as [IH1 IH2]. cbn [withMode_go existsb].
  destruct (withMode_go modes client mode) as [out found]. cbn [fst snd] in *.
  destruct (String.eqb_spec (cm_Client x) client) as [E|E]; cbn [negb fst snd orb].
  - assert (Hf : found = false).
    { rewrite IH1. apply not_true_is_false. intros (m & Hm & Hc%String.eqb_eq)%existsb_exists.
      apply Hx. rewrite E, <- Hc. by apply in_map. }
    split; [done|]. intros c. rewrite mode_of_cons, E. unfold is_none. case_bool_decide as Hm.
    + rewrite IH2, Hf. destruct (client =?s c); [done|done].
    + rewrite mode_of_cons. cbn [cm_Client cm_Mode]. rewrite IH2, Hf. by destruct (client =?s c).
  - split; [done|]. intros c. rewrite !mode_of_cons, IH2. destruct (String.eqb_spec client c) as [->|]; [|done].
    by apply String.eqb_neq in E as ->.
Qed.
End with_mode.

Lemma withMode_ok modes client mode force :
  wf_modes modes →
  wf_modes (withMode modes client mode force)
  ∧ ∀ c, mode_of (withMode modes client mode force) c
         = if client =?s c then mode else if force then ExceptionsNone else mode_of modes c.
Proof.
  intros [Hnd Hne]. unfold withMode, is_none. destruct force.
  { case_bool_decide as Hm.
    - split; [split; [constructor|done]|]. intros c. subst. by destruct (client =?s c).
    - split; [split; [repeat constructor; by intros []|by intros m [<-|[]]]|].
      intros c. rewrite mode_of_cons. cbn. by destruct (client =?s c). }
  destruct (withMode_go_spec client mode modes Hnd) as [Hf Hm].
  pose proof (withMode_go_nodup client mode modes Hnd) as Hnd'.
  pose proof (withMode_go_in client mode modes) as Hin.
  pose proof (withMode_go_clients client mode modes client) as Hcl.
  destruct (withMode_go modes client mode) as [out found]. cbn [fst snd] in *.
  assert (Hok : ∀ m, In m out → cm_Mode m ≠ ExceptionsNone).
  { intros m [[H _]|(-> & H & _)]%Hin; [by apply Hne|done]. }
  assert (Habs : found = false → ¬ In client (map cm_Client modes)).
  { intros -> (m & Hmc & Hmin)%in_map_iff. symmetry in Hf.
    assert (existsb (fun m => cm_Client m =?s client) modes = true); [|congruence].
    apply existsb_exists. exists m. split; [done|]. by apply String.eqb_eq. }
  destruct found; cbn [negb andb].
  { split; [done|]. intros c. rewrite Hm. done. }
  case_bool_decide as Hmode; cbn [negb].
  { split; [done|]. intros c. rewrite Hm, Hmode. done. }
  split.
  - split.
    + rewrite map_app. apply List.NoDup_app; [done|repeat constructor; by intros []|].
      cbn. intros x Hx [<-|[]]. by apply (Habs eq_refl), Hcl.
    + intros m [H|[<-|[]]]%List.in_app_iff; [by apply Hok|done].
  - intros c. rewrite mode_of_app. cbn [cm_Client cm_Mode].
    destruct (String.eqb_spec client c) as [<-|Hc].
    + replace (existsb _ out) with false; [done|]. symmetry. apply not_true_is_false.
      intros (m & Hmin & Hmc%String.eqb_eq)%existsb_exists. apply (Habs eq_refl), Hcl. rewrite <- Hmc. by apply in_map.
    + apply String.eqb_neq in Hc as Hc'. specialize (Hm c). rewrite Hc' in Hm.
      destruct (existsb _ out) eqn:E; [done|]. rewrite <- Hm. symmetry. apply mode_of_absent.
      intros (m & Hmc & Hmin)%in_map_iff.
      assert (existsb (fun x => cm_Client x =?s c) out = true); [|congruence].
      apply existsb_exists. exists m. split; [done|]. by apply String.eqb_eq.
Qed.

(** Setting a client's exception mode sets that client's alone (with
    force: clears every other's), and keeps one entry per client, none of them
    for the mode none. *)
Theorem withMode_spec modes client mode force :
  wf_modes modes →
  wf_modes (withMode modes client mode force)
  ∧ ∀ c, mode_of (withMode modes client mode force) c
         = if client =?s c then mode else if force then ExceptionsNone else mode_of modes c.
Proof. apply withMode_ok. Qed.

Lemma in_add_filters ids filters f : In f (fold_left add_filter ids filters) ↔ In f filters ∨ In f ids.
Proof.
  revert filters. induction ids as [|id ids IH]; intros filters; cbn [fold_left]; [cbn; tauto|].
  rewrite IH. unfold add_filter. case_bool_decide as H; [apply list_elem_of_In in H|]; rewrite ?List.in_app_iff; cbn; naive_solver.
Qed.

Lemma NoDup_add_filters ids filters : List.NoDup filters → List.NoDup (fold_left add_filter ids filters).
Proof.
  revert filters. induction ids as [|id ids IH]; intros filters H; cbn [fold_left]; [done|]. apply IH.
  unfold add_filter. case_bool_decide as Hin; [done|]. apply List.NoDup_app; [done|repeat constructor; by intros []|].
  intros x Hx [<-|[]]. apply Hin. by apply list_elem_of_In.
Qed.

Lemma filtersFor_go ef modes filters f :
  In f (fold_left (fun fs m => fold_left add_filter (mode_filters ef (cm_Mode m)) fs) modes filters)
  ↔ In f filters ∨ ∃ m, In m modes ∧ In f (mode_filters ef (cm_Mode m)).
Proof.
  revert filters. induction modes as [|m modes IH]; intros filters; cbn [fold_left].
  - split; [by left|]. intros [?|(m & [] & _)]. done.
  - rewrite IH, in_add_filters. cbn [In]. naive_solver.
Qed.

Lemma filtersFor_NoDup ef modes : List.NoDup (filtersFor ef modes).
Proof.
  unfold filtersFor. assert (H : List.NoDup ([] : list string)) by constructor. revert H.
  generalize ([] : list string). induction modes as [|m modes IH]; intros fs H; cbn [fold_left]; [done|].
  apply IH. by apply NoDup_add_filters.
Qed.

(** The adapter's exception filters are the union of what the clients'
    modes turn on, each once. *)
Theorem filtersFor_union ef modes f :
  (In f (filtersFor ef modes) ↔ ∃ m, In m modes ∧ In f (mode_filters ef (cm_Mode m)))
  ∧ List.NoDup (filtersFor ef modes).
Proof.
  split; [|apply filtersFor_NoDup]. unfold filtersFor. rewrite filtersFor_go. cbn. naive_solver.
Qed.

(** ** Setting a mode *)

Lemma run_sendFilters ad filters s h :
  run ad (sendFilters filters) s h
  = if initialized s
    then (answer_ok (ad h (SetExceptionBreakpoints filters)), s, h ++ [SetExceptionBreakpoints filters])
    else (Ok (), s, h).
Proof. unfold sendFilters. rewrite run_bind. cbn [run atomically]. by destruct (initialized s). Qed.

(** A mode that was set is one whose filters the adapter, when it is
    initialized, was just sent and accepted; a refusal changes no mode. *)
Theorem setExceptionMode_synced ad now c mode force guard s h :
  let '(r, s', h') := run ad (setExceptionMode now c mode force guard) s h in
  match r with
  | Err _ => excModes s' = excModes s ∧ s_log s' = s_log s
  | Ok r =>
    xr_Modes r = excModes s' ∧ xr_Filters r = filtersFor (cf_excFilters (conf s)) (excModes s')
    ∧ if guard s
      then excModes s' = withMode (excModes s) (c_ID c) mode force
           ∧ (initialized s = true → h' = h ++ [SetExceptionBreakpoints (xr_Filters r)]
              ∧ is_ok (answer_ok (ad h (SetExceptionBreakpoints (xr_Filters r)))) = true)
      else s' = s ∧ h' = h
  end.
Proof.
  unfold setExceptionMode, with_lock. cbn [run]. rewrite run_bind, run_bind. cbn [run atomically].
  unfold set_mode_checked. case_decide; [done|]. destruct (guard s) eqn:Hg; cbn [negb]; [|by cbn; rewrite ?Hg].
  set (filters := filtersFor _ (withMode _ _ _ _)).
  destruct (checkFiltersLocked filters s) as [[]|e]; cbn [rbind]; [|done].
  rewrite run_bind, run_sendFilters. destruct (initialized s) eqn:Hi.
  - destruct (answer_ok (ad h (SetExceptionBreakpoints filters))) as [[]|e] eqn:Ea; [|done].
    cbn [run atomically]. split_and!; [done|done|done|]. intros _. split; [done|].
    transitivity (is_ok (answer_ok (ad h (SetExceptionBreakpoints filters)))); [done|by rewrite Ea].
  - cbn. by split_and!.
Qed.

(** ** Witnesses *)

Lemma withMode_spec_witness :
  let ms := [mkCEM "agent:a" ExceptionsAll; mkCEM "human:h" ExceptionsUncaught]%string in
  mode_of (withMode ms "agent:a" ExceptionsNone false) "agent:a" = ExceptionsNone
  ∧ mode_of (withMode ms "agent:a" ExceptionsNone false) "human:h" = ExceptionsUncaught.
Proof.
  cbv zeta. destruct (withMode_spec [mkCEM "agent:a" ExceptionsAll; mkCEM "human:h" ExceptionsUncaught]
    "agent:a" ExceptionsNone false) as [_ H].
  { split; [repeat constructor; cbn; intuition discriminate|]. intros m [<-|[<-|[]]]; discriminate. }
  rewrite !H. split; reflexivity.
Defined.
