(* ===== verification/Presence.v ===== *)
(** * Editor connections (internal/session/presence.go)

    A client's open editor connections and the cleanup when the last one
    closes. A [*presence] is reached only through the map, by client id. *)

From S2P Require Import Prelude GoStrings Api EventLog Prog Session Lease Adapter Breakpoints Exceptions.
From Stdlib Require Import Bool.

Open Scope Z_scope.

Definition live (s : Session) : bool := negb (bool_decide (state s = StateExited)).

Definition client_event (now : Z) (id action : string) (s : Session) : Session :=
  logEvent now ((event EventClient) <| ev_Client := id |> <| ev_Action := action |>) s.

Definition connectLocked (now : Z) (c : Client) (s : Session) : Session :=
  let s := touchLocked now c s in
  let p := default (mkPresence 0 0 false) (presences s !! c_ID c) in
  let gen := connGen s + 1 in
  let s := s <| connGen := gen |>
             <| presences ::= <[c_ID c := p <| p_conns ::= Z.succ |> <| p_gen := gen |>]> |> in
  if live s then client_event now (c_ID c) "connected" s else s.
Definition Connect (now : Z) (c : Client) : handler unit :=
  atomically (fun s => ((), connectLocked now c s)).

(** A [Presence]'s own [left] flag is threaded by its owner: it is false until
    the first [Leave]. *)
Definition exceptionsSetLocked (c : Client) (hasLeft : bool) (mode : ExceptionMode) (s : Session) : Session :=
  match presences s !! c_ID c with
  | Some e => if hasLeft then s
              else s <| presences ::= <[c_ID c := e <| p_excSet := negb (is_none mode) |>]> |>
  | None => s
  end.

(** [decrement]: the generation a cleanup is valid for, if the client left;
    [done]: the daemon's context has ended. *)
Definition decrementLocked (now : Z) (c : Client) (hasLeft done : bool) (s : Session) : option Z * Session :=
  if hasLeft then (None, s)
  else match presences s !! c_ID c with
       | None => (None, s)
       | Some e =>
         let e := e <| p_conns ::= Z.pred |> in
         let s := s <| presences ::= <[c_ID c := e]> |> in
         let l := live s in
         let s := if l then client_event now (c_ID c) "disconnected" s else s in
         if 0 <? p_conns e then (None, s)
         else if negb l || done then (None, s <| presences ::= delete (c_ID c) |>)
         else (Some (p_gen e), s)
       end.

Definition leftLocked (id : string) (gen : Z) (s : Session) : bool :=
  live s && match presences s !! id with
            | Some e => (p_conns e =? 0) && (p_gen e =? gen)
            | None => false
            end.

Definition reset_wanted (c : Client) (gen : Z) (s : Session) : bool :=
  leftLocked (c_ID c) gen s
  && match presences s !! c_ID c with Some e => p_excSet e | None => false end
  && existsb (fun m => cm_Client m =?s c_ID c) (excModes s).

(** The last section of [leave]. *)
Definition leave_lease (now : Z) (c : Client) (gen : Z) (s : Session) : Session :=
  if negb (leftLocked (c_ID c) gen s) then s
  else
    let s := dropRequestLocked (c_ID c) s in
    let s := if c_ID (ls_holder (s_lease s)) =?s c_ID c
             then setHolderLocked now noClient (c_ID c) "release" "disconnected" s else s in
    s <| presences ::= delete (c_ID c) |>.

Definition departed (c : Client) (gen : Z) (s : Session) (_ : Z) (b : breakpoint) : bool :=
  (b_Owner (bp b) =?s c_ID c) && b_Editor (bp b) && negb (b_Temporary (bp b)) && leftLocked (c_ID c) gen s.

Definition leave (now : Z) (c : Client) (gen : Z) : handler unit :=
  (removeBreakpoints now (c_ID c) (departed c gen) ;;;
   reset <- atomically (fun s => (reset_wanted c gen s, s)) ;;
   (if reset then setExceptionMode now c ExceptionsNone false (leftLocked (c_ID c) gen) ;;; ret () else ret ()) ;;;
   atomically (fun s => ((), leave_lease now c gen s)))%prog.

(** [Leave]: the cleanup runs at once or, after a grace, as a thread of its
    own; [expired] is that the daemon's context ended before it did. *)
Definition Leave (now : Z) (c : Client) (hasLeft done expired : bool) : handler unit :=
  (gen <- atomically (decrementLocked now c hasLeft done) ;;
   match gen with
   | None => ret ()
   | Some gen => if expired then ret () else leave now c gen
   end)%prog.

Definition clientsLocked (s : Session) : list ClientInfo :=
  map (fun ci => match presences s !! c_ID (ci_Client ci) with
                 | Some e => ci <| ci_Connected := p_conns e |>
                 | None => ci
                 end) (clients s).
