(* ===== verification/Exec.v ===== *)
(** * Execution and the adapter's events (internal/session/session.go)

    The state machine of a session: what the adapter's events do to it, the
    execution requests and their lease, configuration, and the end of a
    session. Starting processes, killing them and waiting for them are the
    host's: the model has what the session asks the adapter and records. *)

From S2P Require Import Prelude GoStrings Api PathMap EventLog Prog Message Session Lease Present Fit Slots Adapter Inspect.
From S2P Require Import Emulate Breakpoints Exceptions Presence.
From Stdlib Require Import Bool.

Open Scope Z_scope.

(** ** Events of the adapter *)

(** The DAP events the session looks at; others carry nothing. *)
Inductive adapter_event :=
  | InitializedEvent
  | StoppedEvent (st : StopInfo)
  | ContinuedEvent (thread : Z)
  | ExitedEvent (code : Z)
  | ThreadEvent (reason : string) (thread : Z)
  | TerminatedEvent
  | ProcessEvent (pid : Z)
  | OutputEvent (category text : string)
  | BreakpointEvent (b : dapBreakpoint)
  | OtherEvent.

(** The goroutines an event handler starts. *)
Inductive spawned :=
  | SpawnFilter (gen : Z) (st : StopInfo)
  | SpawnShutdown (terminate : bool).

Definition s_run (s : Session) : bool := match cf_run (conf s) with Some _ => true | None => false end.

(** [endReasonLocked] *)
Definition endReasonLocked (def : string) (s : Session) : string :=
  let unknown := cf_exitCodeUnknown (conf s) in
  let program_exit := if programExited s then def +:+ "; its exit code is unknown (" +:+ unknown +:+ ")" else def in
  match s_mode s, s_run s, exitCode s with
  | ModeTest, false, Some code =>
    "the test run finished: the test app exited with code " +:+ itoa code
  | ModeTest, false, None =>
    if programExited s then
      "the test run finished; the test app's exit code is unknown (" +:+ unknown
      +:+ "): read the test output for the result"
    else program_exit
  | _, _, _ => program_exit
  end.

(** [endLocked]: ends the session (once); the adapter's shutdown it starts. *)
Definition endLocked (now : Z) (reason : string) (s : Session) : list spawned * Session :=
  if decide (state s = StateExited) then ([], s)
  else
    let reason := if stopReason s =?s "" then reason else stopReason s in
    let s := setStateLocked StateExited (s <| endReason := reason |>) in
    let s := logEvent now ((event EventEnded) <| ev_Reason := reason |> <| ev_Client := stopping s |>) s in
    (if client s then [SpawnShutdown (bool_decide (s_mode s = ModeTest))] else [], s).

Definition onStoppedLocked (now : Z) (st : StopInfo) (s : Session) : list spawned * Session :=
  let s := s <| stopGen ::= Z.succ |> in
  let st := if pauseRequested s && pauseSignal st then st <| si_Reason := reasonPause |> else st in
  if (si_Reason st =?s reasonBreakpoint) && needsFilterLocked s then ([SpawnFilter (stopGen s) st], s)
  else ([], applyStopLocked now st s).

Definition onContinuedLocked (now thread : Z) (s : Session) : Session :=
  let s := s <| stopGen ::= Z.succ |> in
  let s := if decide (state s = StateStopped) then setStateLocked StateRunning s else s in
  if execInFlight s then s
  else logEvent now ((event EventContinued) <| ev_ThreadID := thread |>) s.

(** [hostExitedLocked] (testrun.go) *)
Definition hostExitedLocked (now code : Z) (s : Session) : Session :=
  appendOutputLocked now "console" ("eyedbg: the test host exited with code " +:+ itoa code +:+ newline) s.

Definition onExitedLocked (now code : Z) (s : Session) : Session :=
  if s_run s then
    if negb (cf_exitCodeUnknown (conf s) =?s "")
    then appendOutputLocked now "console" ("eyedbg: the test host exited" +:+ newline) s
    else hostExitedLocked now code s
  else if negb (cf_exitCodeUnknown (conf s) =?s "") then
    logEvent now (event EventExited) (bump (s <| programExited := true |>))
  else
    logEvent now ((event EventExited) <| ev_ExitCode := Some code |>) (bump (s <| exitCode := Some code |>)).

Definition onEventLocked (now : Z) (ev : adapter_event) (s : Session) : list spawned * Session :=
  match ev with
  | InitializedEvent => ([], s <| initialized := true |>)
  | StoppedEvent st => onStoppedLocked now (st <| si_Breakpoints := [] |>) s
  | ContinuedEvent thread => ([], onContinuedLocked now thread s)
  | ExitedEvent code => ([], onExitedLocked now code s)
  | ThreadEvent reason thread =>
    ([], logEvent now ((event EventThread) <| ev_Reason := reason |> <| ev_ThreadID := thread |>) s)
  | TerminatedEvent =>
    if s_run s then ([SpawnShutdown true], s)
    else endLocked now (endReasonLocked "the program terminated" s) s
  | ProcessEvent p =>
    match container s with
    | None => ([], s <| pid := p |>)
    | Some c => ([], if ct_Launched c then s <| container := Some (c <| ct_PID := p |>) |> else s)
    end
  | OutputEvent category text => ([], appendOutputLocked now category text s)
  | BreakpointEvent b => ([], updateBreakpointLocked now b s)
  | OtherEvent => ([], s)
  end.

(** ** The end of a session *)

(** [disconnect]'s [terminateDebuggee], left out when the adapter may choose. *)
Definition disconnect (terminate explicit : bool) : request :=
  Disconnect (if terminate || explicit then Some terminate else None).

(** [shutdownAdapter]: whether this is the one call that shuts it down. *)
Definition shutdown_once (s : Session) : bool * Session :=
  if ended s || negb (client s) then (false, s) else (true, s <| ended := true |>).
Definition shutdownAdapter (terminate : bool) : handler unit :=
  (go <- atomically (fun s => let '(go, s) := shutdown_once s in ((go, s_mode s), s)) ;;
   if negb go.1 then ret ()
   else send (disconnect terminate (negb (bool_decide (go.2 = ModeLaunch)))) ;;; ret ())%prog.

(** [watchAdapter], once the adapter's connection is closed. *)
Definition adapterGone (now : Z) : handler (list spawned) :=
  atomically (fun s => if s_run s then ([], s) else endLocked now (endReasonLocked "the debug adapter exited" s) s).

Definition endedBy (m : Mode) (by_ : string) : string :=
  let who := if by_ =?s "" then "the daemon"%string else by_ in
  match m with
  | ModeAttach => "detached by " +:+ who +:+ " (the program keeps running)"
  | _ => "stopped by " +:+ who
  end.

(** [terminate]'s first section: whether the session was running, and its mode. *)
Definition markStopping (by_ reason : string) (s : Session) : (bool * Mode) * Session :=
  let running := live s in
  ((running, s_mode s),
   if running && (stopReason s =?s "") then s <| stopping := by_ |> <| stopReason := reason |> else s).
Definition terminate (now : Z) (by_ reason : string) : handler (list spawned) :=
  (rm <- atomically (markStopping by_ reason) ;;
   shutdownAdapter (rm.1 && negb (bool_decide (rm.2 = ModeAttach))) ;;;
   atomically (endLocked now reason))%prog.

(** [Terminate]: an execution request while the program is live. *)
Definition terminate_lease (now : Z) (c : Client) (s : Session) : (result unit * Mode) * Session :=
  if live s then let '(r, s) := acquireLocked now c s in ((r, s_mode s), s) else ((Ok (), s_mode s), s).
Definition Terminate (now : Z) (c : Client) : handler (result unit) :=
  with_lock execMu (
    rm <- atomically (terminate_lease now c) ;;
    match rm.1 with
    | Err e => ret (Err e)
    | Ok _ => terminate now (c_ID c) (endedBy rm.2 (c_ID c)) ;;; ret (Ok ())
    end)%prog.

(** ** Execution requests *)

Record execRequest := mkExec {
  x_client : Client; x_kind : exec_kind; x_thread : Z; x_target : option BreakpointSpec; x_text : string }.
Record execution := mkExecution {
  ex_before : Z; ex_target : BreakpointSpec; ex_targetID : Z; ex_temp : option Z }.
#[global] Instance eta_execution : Eta execution :=
  fun r => mkExecution (ex_before r) (ex_target r) (ex_targetID r) (ex_temp r).

Definition is_pause (k : exec_kind) : bool := bool_decide (k = ExecPause).

(** Why the state refuses the request, if it does. *)
Definition admit_state (r : execRequest) (s : Session) : result unit :=
  let refuse what := Err (stateError (s_ID s) (state s) what) in
  if is_pause (x_kind r) && negb (bool_decide (state s = StateRunning)) then refuse "pause needs a running program"%string
  else if bool_decide (x_kind r = ExecRunUntil) && negb (bool_decide (state s = StateStopped)) then
    refuse "run-until needs a stopped program"%string
  else if negb (is_pause (x_kind r)) && negb (bool_decide (state s = StateStopped)) then
    refuse (exec_name (x_kind r) +:+ " needs a stopped program")
  else Ok ().

(** [admit]: the stops seen and the thread to act on. *)
Definition admitLocked (now : Z) (r : execRequest) (pauseThread : Z) (s : Session) : result (execution * Z) * Session :=
  if is_pause (x_kind r) && negb (cf_pauseUnsupported (conf s) =?s "") then
    (Err (NewError CodeUnsupported ("the " +:+ Lang s +:+ " debug adapter (" +:+ cf_adapter (conf s)
            +:+ ") can't pause a running program: it stops it without reporting where")), s)
  else match admit_state r s with
       | Err e => (Err e, s)
       | Ok _ =>
         match acquireLocked now (x_client r) s with
         | (Err e, s) => (Err e, s)
         | (Ok _, s) =>
           let thread := if negb (x_thread r =? 0) then x_thread r
                         else if is_pause (x_kind r) && negb (pauseThread =? 0) then pauseThread
                         else si_ThreadID (stop s) in
           let s := logEvent now ((event EventExec) <| ev_Client := c_ID (x_client r) |>
                                    <| ev_Action := exec_name (x_kind r) |> <| ev_ThreadID := x_thread r |>
                                    <| ev_Text := x_text r |>) s in
           (Ok (mkExecution (stops s) zero_spec 0 None, thread), s)
         end
       end.

Definition pauseReady (c : Client) (s : Session) : bool :=
  (cf_pauseUnsupported (conf s) =?s "") && bool_decide (state s = StateRunning) && allows (s_lease s) opExec c false.

Definition pauseThread : handler Z :=
  (ans <- send Threads ;;
   match ans with
   | AnsThreads (first :: _ as ids) =>
     last <- atomically (fun s => (si_ThreadID (stop s), s)) ;;
     ret (if bool_decide (last ∈ ids) then last else first)
   | _ => ret 0
   end)%prog.

Definition is_step (k : exec_kind) : bool :=
  match k with ExecNext | ExecStepIn | ExecStepOut => true | _ => false end.

(** [send]'s two sections, around the request. *)
Definition sendingLocked (k : exec_kind) (s : Session) : Session :=
  let s := if is_pause k then s <| pauseRequested := true |>
           else s <| resumedAt := latest (s_log s) |> <| stepping := is_step k |> <| pauseRequested := false |> in
  s <| execInFlight := true |>.
Definition sentLocked (k : exec_kind) (before : Z) (ok : bool) (s : Session) : Session :=
  let s := s <| execInFlight := false |> in
  let s := if ok then s
           else if is_pause k then s <| pauseRequested := false |> else s <| stepping := false |> in
  if ok && negb (is_pause k) && bool_decide (state s = StateStopped) && (stops s =? before)
  then setStateLocked StateRunning s else s.

Definition send_exec (k : exec_kind) (thread before : Z) : handler (result unit) :=
  (atomically (fun s => ((), sendingLocked k s)) ;;;
   err <- sendExec (if decide (k = ExecRunUntil) then ExecContinue else k) thread ;;
   atomically (fun s => (err, sentLocked k before (is_ok err) s)))%prog.

Definition execute (now : Z) (r : execRequest) : handler (result execution) :=
  with_lock execMu (
    ready <- (if is_pause (x_kind r) && (x_thread r =? 0)
              then atomically (fun s => (pauseReady (x_client r) s, s)) else ret false) ;;
    pt <- (if ready : bool then pauseThread else ret 0) ;;
    admitted <- atomically (admitLocked now r pt) ;;
    match admitted with
    | Err e => ret (Err e)
    | Ok (x, thread) =>
      removed <- (if is_pause (x_kind r) then ret (Ok ()) else removeTemporary now (c_ID (x_client r))) ;;
      match removed with
      | Err e => ret (Err e)
      | Ok _ =>
        placed <- match x_target r with
                  | None => ret (Ok x)
                  | Some target =>
                    p <- placeTarget now (x_client r) target ;;
                    ret (match p with
                         | Err e => Err e
                         | Ok (at_, id, temp) =>
                           Ok (x <| ex_target := at_ |> <| ex_targetID := id |> <| ex_temp := temp |>)
                         end)
                  end ;;
        match placed with
        | Err e => ret (Err e)
        | Ok x =>
          (if is_pause (x_kind r) then ret () else capture ;;; ret ()) ;;;
          sent <- send_exec (x_kind r) thread (ex_before x) ;;
          match sent with
          | Err e =>
            match ex_temp x with
            | Some t => removeBreakpoints now (c_ID (x_client r)) (stillTemporary t) ;;; ret (Err e)
            | None => ret (Err e)
            end
          | Ok _ => ret (Ok x)
          end
        end
      end
    end)%prog.

(** [Exec], by the kind's name. *)
Definition exec_kind_of (name : string) : option exec_kind :=
  List.find (fun k => exec_name k =?s name) [ExecContinue; ExecNext; ExecStepIn; ExecStepOut; ExecPause].
Definition Exec (now : Z) (c : Client) (kind : string) (threadID : Z) : handler (result Z) :=
  match exec_kind_of kind with
  | None => ret (Err (invalid ("unknown execution kind " +:+ kind)))
  | Some k =>
    (x <- execute now (mkExec c k threadID None "") ;;
     ret (match x with Ok x => Ok (ex_before x) | Err e => Err e end))%prog
  end.

(** ** Configuration *)

Fixpoint config_bps (now : Z) (specs : list BreakpointSpec) (s : Session) (added : list Z)
    : result (list Z) * Session :=
  match specs with
  | [] => (Ok added, s)
  | spec :: specs =>
    match checkBreakpointCapsLocked spec s with
    | Err e => (Err e, s)
    | Ok _ =>
      match checkMapped (cf_pathMap (conf s)) spec with
      | Err e => (Err e, s)
      | Ok _ =>
        let '(a, isNew, _, s) := addBreakpointLocked now (c_ID (cf_starter (conf s))) spec s in
        config_bps now specs s (if isNew : bool then added ++ [a] else added)
      end
    end
  end.
Definition config_section (now : Z) (specs : list BreakpointSpec) (s : Session)
    : result (list Z * list string * string) * Session :=
  let '(r, s) := config_bps now specs s [] in
  (match r with
   | Ok added => Ok (added, (map_to_list (bps s)).*1, c_ID (cf_starter (conf s)))
   | Err e => Err e
   end, s).
Definition configurationPhase (now : Z) (specs : list BreakpointSpec) : handler (result unit) :=
  (r <- atomically (config_section now specs) ;;
   match r with
   | Err e => ret (Err e)
   | Ok (added, keys, starter) =>
     err <- sync_keys keys ;;
     match err with
     | Err e => ret (Err e)
     | Ok _ =>
       atomically (fun s => ((), logAllLocked now "added" starter added s)) ;;;
       configureExceptions
     end
   end)%prog.

Definition configurationDone : handler (result unit) :=
  (c <- atomically (fun s => (SupportsConfigurationDoneRequest (caps s), s)) ;;
   if negb c then ret (Ok ())
   else ans <- send (Forwarded (Dap.OtherRequest "configurationDone" "")) ;; ret (answer_ok ans))%prog.

(** The end of [configure]. *)
Definition startedLocked (s : Session) : Session :=
  if decide (state s = StateStarting) then setStateLocked StateRunning s else s.

(** ** Summaries *)

Record SessionInfo := mkSessionInfo {
  i_ID : string; i_Lang : string; i_Program : string; i_State : SessionState; i_PID : Z; i_CreatedAt : Z;
  i_ExitCode : option Z; i_Lease : LeaseInfo; i_Clients : list ClientInfo; i_Recording : string; i_Mode : Mode; i_Adapter : string;
  i_Group : string; i_Container : option ContainerInfo; i_Stop : option StopInfo; i_StoppedAt : option Z;
  i_EndReason : string }.
Definition infoLocked (s : Session) : SessionInfo :=
  let stopped {A} (x : A) := if decide (state s = StateStopped) then Some x else None in
  mkSessionInfo (s_ID s) (Lang s) (cf_Program (conf s)) (state s) (pid s) (cf_CreatedAt (conf s)) (exitCode s)
    (lease_info (s_lease s)) (clientsLocked s) (recPath s) (s_mode s) (cf_adapter (conf s)) (cf_group (conf s)) (container s)
    (stopped (stop s)) (stopped (stoppedAt s))
    (if decide (state s = StateExited) then endReason s else ""%string).

(** ** Waiting for output *)

Definition snapshotOutput : Z := 20.
Definition snapshotOutputBytes : Z := 16 * 1024.

(** [outputSinceResume]: two looks, at the session and at its log. *)
Definition last_output (lines : list OutputLine) : list OutputLine * Z :=
  let omitted := Z.max 0 (Z.of_nat (length lines) - snapshotOutput) in
  let '(lines, cut) := CapOutput (drop (Z.to_nat omitted) lines) snapshotOutputBytes true in
  (lines, omitted + cut).
Definition outputSinceResume : handler (list OutputLine * Z) :=
  (since <- atomically (fun s => (resumedAt s, s)) ;;
   atomically (fun s => (last_output (outputSince since (s_log s)), s)))%prog.

(** [Wait]'s predicate. *)
Definition settled (stopsSeen : Z) (s : Session) : bool :=
  (stopsSeen <? stops s) || bool_decide (state s = StateExited).
