(* ===== verification/Evalset.v ===== *)
(** * Evaluating and assigning (internal/session/evalset.go)

    [Eval] with side effects and [Set] change the program, so they are
    admitted like execution requests: the lease, an exec event, one at a time.
    Which code points are letters or digits is the Unicode tables'. *)

From S2P Require Import Prelude GoStrings Api EventLog Prog Session Present Fit Adapter Inspect Breakpoints Exec.
From Stdlib Require Import Ascii Bool.

Open Scope Z_scope.

Record EvalParams := mkEvalParams {
  ep_Expression : string; ep_Frame : Z; ep_AllowSideEffects : bool; ep_Depth : Z; ep_Budget : Z }.
Record EvalResult := mkEvalResult {
  rs_Expression : string; rs_Value : string; rs_Type : string; rs_HasChildren : bool;
  rs_Children : list Var; rs_More : Z; rs_Truncated : bool }.

(** [evaluate] *)
Definition evaluate (p : EvalParams) (evalContext : string) : handler (result EvalResult) :=
  (fid <- frameID (ep_Frame p) ;;
   match fid with
   | Err e => ret (Err e)
   | Ok fid =>
     body <- evalBody fid (ep_Expression p) evalContext ;;
     match body with
     | Err e => ret (Err e)
     | Ok (value, type, ref) =>
       let res := mkEvalResult (ep_Expression p) (truncate value) type (0 <? ref) in
       if (1 <? ep_Depth p) && (0 <? ref) then
         sub <- variables (depth_of (ep_Depth p - 1)) ref ;;
         ret (match sub with
              | Err e => Err e
              | Ok (children, more) =>
                let '((kept, omitted, cut), _) := Fit (NewFitter (ep_Budget p)) children in
                Ok (res kept (more + omitted) cut)
              end)
       else ret (Ok (res [] 0 false))
     end
   end)%prog.

(** [admit], for the requests that have no target. *)
Definition Admit (now : Z) (r : execRequest) : handler (result (execution * Z)) :=
  atomically (admitLocked now r 0).

Definition Eval (now : Z) (c : Client) (p : EvalParams) : handler (result EvalResult) :=
  if negb (ep_AllowSideEffects p) then
    (found <- sideEffectsOf (ep_Expression p) ;;
     match found with
     | Some reason =>
       ret (Err (NewError CodeSideEffects ("eval would " +:+ reason +:+ ", which can change the program")))
     | None => evaluate p contextWatch
     end)%prog
  else
    with_lock execMu (
      admitted <- Admit now (mkExec c ExecEval 0 None (ep_Expression p)) ;;
      match admitted with
      | Err e => ret (Err e)
      | Ok _ => r <- evaluate p contextRepl ;; markStale ;;; ret r
      end)%prog.

(** ** What may be assigned by evaluating *)

Section assign.
Context (isLetter isDigit : Z → bool).

Fixpoint ident_runes (first : bool) (l : list Z) : bool :=
  match l with
  | [] => true
  | r :: l => ((r =? 95) || isLetter r || negb first && isDigit r) && ident_runes false l
  end.
Definition isIdentifier (s : string) : bool :=
  let s := trim_prefix "@" s in
  if s =?s "" then false else ident_runes true (runes s).

Definition isIndexLiteral (s : string) : bool :=
  let n := trim_prefix "-" s in
  if negb (n =?s "") && all_bytes is_digit n then true
  else match cut_prefix dquote s with
       | None => false
       | Some inner =>
         if negb (has_suffix dquote inner) then false
         else forallb (fun r => negb ((r =? 34) || (r =? 92) || is_control r)) (runes (trim_suffix dquote inner))
       end.

Definition assignable_seg (seg : string) : bool :=
  match cut_prefix "[" seg with
  | Some inner => isIndexLiteral (trim_suffix "]" inner)
  | None => isIdentifier seg
  end.
Definition checkAssignable (segs : list string) : result unit :=
  match List.find (fun seg => negb (assignable_seg seg)) segs with
  | Some seg =>
    Err (invalid ("with this adapter set takes a name or member path (names, [N] or ["
                  +:+ dquote +:+ "key" +:+ dquote +:+ "] indexes); " +:+ seg +:+ " is not one"))
  | None => Ok ()
  end.

(** ** Set *)

Record SetParams := mkSetParams { st_Variable : string; st_Value : string; st_Frame : Z }.
Record SetResult := mkSetResult { tr_Variable : string; tr_Value : string; tr_Type : string }.
#[global] Instance eta_SetResult : Eta SetResult :=
  fun r => mkSetResult (tr_Variable r) (tr_Value r) (tr_Type r).

Definition setByEvaluate (fid : Z) (path : string) (p : SetParams) : handler (result SetResult) :=
  (body <- evalBody fid (path +:+ " = " +:+ st_Value p) contextRepl ;;
   ret (match body with
        | Ok (v, t, _) => Ok (mkSetResult (st_Variable p) (truncate v) t)
        | Err e => Err e
        end))%prog.

Definition adapter_set (a : answer) : result (string * string) :=
  match a with AnsSet v t => Ok (v, t) | AnsError e => Err e | _ => Err unexpected end.

Definition setVariableResult (parent : Z) (name variable value type : string) : handler SetResult :=
  let res := mkSetResult variable (truncate value) type in
  if negb (tr_Value res =?s "") then ret res
  else
    (vars <- children parent ;;
     ret (match vars with
          | Err _ => res
          | Ok vars =>
            match List.find (fun v => g_Name v =?s name) vars with
            | None => res
            | Some v => mkSetResult variable (truncate (g_Value v)) (if type =?s "" then g_Type v else type)
            end
          end))%prog.

(** The first cheap scope that shows a variable called [name]. *)
Definition scope_of (name : string) (lists : list (Z * list dapVariable)) : option Z :=
  option_map fst (List.find (fun '(_, vars) => existsb (fun v => g_Name v =?s name) vars) lists).

Definition scope_members (ref : Z) : handler (result (Z * list dapVariable)) :=
  (vars <- children ref ;; ret (match vars with Ok vars => Ok (ref, vars) | Err e => Err e end))%prog.

Definition setVariable (fid : Z) (segs : list string) (p : SetParams) : handler (result SetResult) :=
  (scs <- scopes fid ;;
   match scs with
   | Err e => ret (Err e)
   | Ok scs =>
     lists <- each scope_members (cheap_refs scs) ;;
     match lists with
     | Err e => ret (Err e)
     | Ok lists =>
       let first := List.hd ""%string segs in
       let name := List.last segs ""%string in
       let before := removelast segs in
       match scope_of first lists with
       | None => ret (Err (noMember [] first))
       | Some scope =>
         parent <- match before with
                   | [] => ret (Ok scope)
                   | _ =>
                     v <- walk (concat lists.*2) before ;;
                     ret (match v with
                          | Err e => Err e
                          | Ok v => if g_Ref v =? 0 then Err (noMembers before) else Ok (g_Ref v)
                          end)
                   end ;;
         match parent with
         | Err e => ret (Err e)
         | Ok parent =>
           ans <- send (SetVariable parent name (st_Value p)) ;;
           match adapter_set ans with
           | Err e => ret (Err e)
           | Ok (v, t) => r <- setVariableResult parent name (st_Variable p) v t ;; ret (Ok r)
           end
         end
       end
     end
   end)%prog.

(** How the variable is set, once the request is admitted. *)
Definition set_admitted (byEval setExpression : bool) (segs : list string) (p : SetParams) : handler (result SetResult) :=
  (fid <- frameID (st_Frame p) ;;
   match fid with
   | Err e => ret (Err e)
   | Ok fid =>
     if byEval then setByEvaluate fid (joinPath segs) p
     else if setExpression then
       ans <- send (SetExpression (st_Variable p) (st_Value p) fid) ;;
       ret (match adapter_set ans with
            | Ok (v, t) => Ok (mkSetResult (st_Variable p) (truncate v) t)
            | Err e => Err e
            end)
     else setVariable fid segs p
   end)%prog.

(** By evaluation, by setExpression, and whether the adapter can at all. *)
Definition set_means (segs : list string) (s : Session) : result (bool * bool) :=
  let can := SupportsSetExpression (caps s) || SupportsSetVariable (caps s) in
  if cf_setByEval (conf s) && negb can then
    match checkAssignable segs with Ok _ => Ok (true, false) | Err e => Err e end
  else if negb can then Err (unsupported (Lang s) "set variables")
  else Ok (false, SupportsSetExpression (caps s)).

Definition Set_ (now : Z) (c : Client) (p : SetParams) : handler (result SetResult) :=
  match splitPath (st_Variable p) with
  | Err e => ret (Err e)
  | Ok segs =>
    (means <- atomically (fun s => (set_means segs s, s)) ;;
     match means with
     | Err e => ret (Err e)
     | Ok (byEval, setExpression) =>
       with_lock execMu (
         admitted <- Admit now (mkExec c ExecSet 0 None (st_Variable p)) ;;
         match admitted with
         | Err e => ret (Err e)
         | Ok _ => r <- set_admitted byEval setExpression segs p ;; markStale ;;; ret r
         end)
     end)%prog
  end.
End assign.
