(* ===== verification/Forward.v ===== *)
(** * An editor's requests (internal/session/forward.go, join.go)

    Requests the DAP facade does not handle itself go to the adapter as the
    passthrough policy allows: what only reads as it is, what may change the
    program as an execution request of the client's. [copy] is go-dap's
    encoding and decoding of a request. *)

From S2P Require Import Prelude GoStrings Api EventLog Prog Message Session Lease Present Slots Adapter Inspect Breakpoints Exceptions Exec Evalset.
From Stdlib Require Import Bool.
Open Scope Z_scope.

(** ** The policy *)

Inductive forwardClass := classRefused | classRead | classStoppedRead | classGuardedRead | classExecution.
#[global] Instance forwardClass_eq_dec : EqDecision forwardClass.
Proof. solve_decision. Defined.

(** A request's class, and for evaluate the context to send. *)
Definition forwardPolicy (req : Dap.request) : forwardClass * string :=
  match req with
  | Dap.ThreadsRequest _ | Dap.SourceRequest _ _ | Dap.LoadedSourcesRequest _ | Dap.ModulesRequest _
  | Dap.BreakpointLocationsRequest _ | Dap.ReadMemoryRequest _ | Dap.DisassembleRequest _ => (classRead, ""%string)
  | Dap.StackTraceRequest _ | Dap.ScopesRequest _ | Dap.VariablesRequest _ | Dap.ExceptionInfoRequest _
  | Dap.CompletionsRequest _ _ => (classStoppedRead, ""%string)
  | Dap.EvaluateRequest _ _ c _ =>
    if (c =?s contextWatch) || (c =?s "hover") || (c =?s "variables") then (classGuardedRead, c)
    else if c =?s "clipboard" then (classGuardedRead, contextWatch)
    else if (c =?s contextRepl) || (c =?s "") then (classExecution, contextRepl)
    else (classRefused, ""%string)
  | Dap.SetVariableRequest _ _ | Dap.SetExpressionRequest _ _ => (classExecution, ""%string)
  | Dap.SetBreakpointsRequest _ _ | Dap.GotoTargetsRequest _ _ | Dap.OtherRequest _ _ => (classRefused, ""%string)
  end.

Definition ForwardsAsExecution (req : Dap.request) : bool := bool_decide ((forwardPolicy req).1 = classExecution).

Definition declares (cs : Capabilities) (req : Dap.request) : bool :=
  match req with
  | Dap.LoadedSourcesRequest _ => SupportsLoadedSourcesRequest cs
  | Dap.ModulesRequest _ => SupportsModulesRequest cs
  | Dap.BreakpointLocationsRequest _ => SupportsBreakpointLocationsRequest cs
  | Dap.ReadMemoryRequest _ => SupportsReadMemoryRequest cs
  | Dap.DisassembleRequest _ => SupportsDisassembleRequest cs
  | Dap.ExceptionInfoRequest _ => SupportsExceptionInfoRequest cs
  | Dap.CompletionsRequest _ _ => SupportsCompletionsRequest cs
  | _ => true
  end.

Definition refusedRequest (req : Dap.request) : Error :=
  match req with
  | Dap.EvaluateRequest _ _ c _ => invalid ("evaluate context " +:+ quote c +:+ " is not supported")
  | _ => invalid ("eyedbg's DAP facade does not support " +:+ Dap.Command req)
  end.

(** ** Forwarding *)

Section forward.
Context (copy : Dap.request → result Dap.request).

(** [outgoing]: a copy, with the context the policy decided on. *)
Definition set_context (evalContext : string) (req : Dap.request) : Dap.request :=
  match req with
  | Dap.EvaluateRequest e f c rest => Dap.EvaluateRequest e f (if evalContext =?s "" then c else evalContext) rest
  | _ => req
  end.
Definition outgoing (req : Dap.request) (evalContext : string) : result Dap.request :=
  match copy req with Ok out => Ok (set_context evalContext out) | Err e => Err e end.

Definition sendRequest (req : Dap.request) : handler (result answer) :=
  (connected <- atomically (fun s => (client s, s)) ;;
   if connected : bool then
     ans <- send (Forwarded req) ;;
     ret (match ans with AnsError e => Err e | _ => Ok ans end)
   else ret (Err (NewError CodeSessionExited "the session has no debug adapter")))%prog.

Definition forwardGuarded (req : Dap.request) : handler (result answer) :=
  match req with
  | Dap.EvaluateRequest e f _ _ =>
    if f =? 0 then
      ret (Err (invalid "evaluate in a read context (watch, hover, variables, clipboard) needs a frameId"))
    else
      (st <- atomically (fun s => (requireStopped s, s)) ;;
       match st with
       | Err e => ret (Err e)
       | Ok _ =>
         found <- sideEffectsOf e ;;
         match found with
         | Some reason =>
           ret (Err (NewError CodeSideEffects ("evaluating would " +:+ reason +:+ ", which can change the program")))
         | None => sendRequest req
         end
       end)%prog
  | _ => ret (Err (refusedRequest req))
  end.

(** What an execution request is admitted as: its kind and the text logged. *)
Definition execution_of (req : Dap.request) (s : Session) : result (exec_kind * string) :=
  match req with
  | Dap.EvaluateRequest e _ _ _ => Ok (ExecEval, e)
  | Dap.SetVariableRequest name _ =>
    if SupportsSetVariable (caps s) then Ok (ExecSet, name) else Err (unsupported (Lang s) "set variables")
  | Dap.SetExpressionRequest e _ =>
    if SupportsSetExpression (caps s) then Ok (ExecSet, e) else Err (unsupported (Lang s) "set expressions")
  | _ => Err (refusedRequest req)
  end.
Definition forwardExecution (now : Z) (c : Client) (req : Dap.request) : handler (result answer) :=
  (x <- atomically (fun s => (execution_of req s, s)) ;;
   match x with
   | Err e => ret (Err e)
   | Ok (kind, text) =>
     with_lock execMu (
       admitted <- Admit now (mkExec c kind 0 None text) ;;
       match admitted with
       | Err e => ret (Err e)
       | Ok _ => r <- sendRequest req ;; markStale ;;; ret r
       end)
   end)%prog.

Definition no_column (req : Dap.request) : bool :=
  match req with Dap.CompletionsRequest column _ => column <? 1 | _ => false end.

Definition Forward (now : Z) (c : Client) (req : Dap.request) : handler (result answer) :=
  let '(class, evalContext) := forwardPolicy req in
  if decide (class = classRefused) then ret (Err (refusedRequest req))
  else
    (caps <- atomically (fun s => (caps s, s)) ;;
     if negb (declares caps req) then
       lang <- atomically (fun s => (Lang s, s)) ;;
       ret (Err (NewError CodeUnsupported ("the " +:+ lang +:+ " debug adapter doesn't support " +:+ Dap.Command req)))
     else
       match outgoing req evalContext with
       | Err e => ret (Err e)
       | Ok out =>
         match class with
         | classRead => sendRequest out
         | classStoppedRead =>
           if no_column out then ret (Err (invalid "completions needs a 1-based column"))
           else
             st <- atomically (fun s => (requireStopped s, s)) ;;
             match st with Err e => ret (Err e) | Ok _ => sendRequest out end
         | classGuardedRead => forwardGuarded out
         | classExecution => forwardExecution now c out
         | classRefused => ret (Err (refusedRequest req))
         end
       end)%prog.
End forward.

(** * What forwarding lets through (forward.go)

    An editor's request reaches the adapter only as its class allows, once,
    re-encoded; and what may change the program only after it was admitted
    as an execution request of the client's. *)

Open Scope Z_scope.

(** ** The policy, read backwards *)

Definition read_context (c : string) : Prop := c = contextWatch ∨ c = "hover"%string ∨ c = "variables"%string.

Lemma policy_guarded req ctx :
  forwardPolicy req = (classGuardedRead, ctx) →
  read_context ctx ∧ ∃ e f c rest, req = Dap.EvaluateRequest e f c rest.
Proof.
  destruct req; try done. cbn. unfold read_context.
  destruct (String.eqb_spec context contextWatch) as [->|]; [intros [= <-]; split; [auto|by do 4 eexists]|].
  destruct (String.eqb_spec context "hover") as [->|]; [intros [= <-]; split; [auto|by do 4 eexists]|].
  destruct (String.eqb_spec context "variables") as [->|]; [intros [= <-]; split; [auto|by do 4 eexists]|]. cbn [orb].
  destruct (context =?s "clipboard"); [intros [= <-]; split; [auto|by do 4 eexists]|]. by destruct (_ || _).
Qed.

Lemma policy_evaluate e f c rest class ctx :
  forwardPolicy (Dap.EvaluateRequest e f c rest) = (class, ctx) → class ≠ classRefused →
  class = classGuardedRead ∨ class = classExecution ∧ ctx = contextRepl.
Proof. cbn. repeat case_match; intros [= <- <-]; auto. done. Qed.

Lemma policy_stopped req ctx : forwardPolicy req = (classExecution, ctx) → ∀ n rest, req ≠ Dap.CompletionsRequest n rest.
Proof. by destruct req. Qed.

(** ** Running a forwarded request *)

Section runs.
Context (ad : list request → request → answer) (h : list request).

Lemma run_sendRequest out s :
  ∃ r, run ad (sendRequest out) s h = (r, s, if client s then h ++ [Forwarded out] else h)
       ∧ (client s = false → ∃ e, r = Err e).
Proof.
  unfold sendRequest. rewrite run_bind. cbn [run atomically]. destruct (client s).
  - rewrite run_bind. cbn [run send]. by eexists.
  - eexists. split; [done|]. intros _. by eexists.
Qed.

(** What a forwarded request may come to: not sent, and then an error; or
    sent, once. *)
Definition sent_once (out : Dap.request) (r : result answer) (sent : list request) : Prop :=
  sent = h ∧ (∃ e, r = Err e) ∨ sent = h ++ [Forwarded out].

Lemma sendRequest_once out s :
  let '(r, s', sent) := run ad (sendRequest out) s h in s' = s ∧ sent_once out r sent.
Proof. destruct (run_sendRequest out s) as (r & -> & Hr). split; [done|]. unfold sent_once. destruct (client s); auto. Qed.

(** A read in a stopped program. *)
Lemma run_stopped (p : handler (result answer)) s :
  run ad (st <- atomically (fun s => (requireStopped s, s)) ;; match st with Err e => ret (Err e) | Ok _ => p end)%prog s h
  = if decide (state s = StateStopped) then run ad p s h
    else (Err (stateError (s_ID s) (state s) "inspecting needs a stopped program"), s, h).
Proof. rewrite run_bind. cbn [run atomically]. unfold requireStopped. by case_decide. Qed.

Lemma guarded_once e f c rest s :
  let out := Dap.EvaluateRequest e f c rest in
  let '(r, s', sent) := run ad (forwardGuarded out) s h in
  s' = s ∧ sent_once out r sent
  ∧ (sent ≠ h → f ≠ 0 ∧ state s = StateStopped ∧ ∀ check, cf_sideEffects (conf s) = Some check → check e = None).
Proof.
  cbv zeta. unfold forwardGuarded. destruct (Z.eqb_spec f 0) as [->|Hf]; [cbn; split_and!; [done|left; by eauto|done]|].
  rewrite run_stopped. case_decide as Hst; [|split_and!; [done|left; by eauto|done]].
  unfold sideEffectsOf. rewrite run_bind. cbn [run atomically].
  destruct (match cf_sideEffects (conf s) with Some check => check e | None => None end) eqn:E;
    [cbn; split_and!; [done|left; by eauto|done]|].
  pose proof (sendRequest_once (Dap.EvaluateRequest e f c rest) s) as H. destruct (run ad _ s h) as [[r s'] sent].
  destruct H as [-> H]. split_and!; [done|done|]. intros _. split_and!; [done|done|]. intros check Hc. by rewrite Hc in E.
Qed.

(** The admission of an execution request takes the lease, and a refusal
    changes nothing. *)
Lemma admit_holds now c k text s :
  match admitLocked now (mkExec c k 0 None text) 0 s with
  | (Ok _, sa) => c_ID (ls_holder (s_lease sa)) = c_ID c
  | (Err _, sa) => sa = s
  end.
Proof.
  unfold admitLocked. destruct (_ && _); [done|]. destruct (admit_state _ s); [|done]. unfold acquireLocked. cbn [x_client].
  destruct (String.eqb_spec (c_ID (ls_holder (s_lease s))) (c_ID c)) as [He|]; [exact He|]. destruct (negb _); done.
Qed.

(** An execution request: admitted in the state it found, or nothing happens. *)
Definition refused_execution (now : Z) (c : Client) (out : Dap.request) (s : Session) (r : result answer) : Prop :=
  match execution_of out s with
  | Err e => r = Err e
  | Ok (k, text) => ∃ e, admitLocked now (mkExec c k 0 None text) 0 s = (Err e, s) ∧ r = Err e
  end.
Definition admitted_execution (now : Z) (c : Client) (out : Dap.request) (s s' : Session) : Prop :=
  ∃ k text x sa, execution_of out s = Ok (k, text) ∧ admitLocked now (mkExec c k 0 None text) 0 s = (Ok x, sa) ∧
    c_ID (ls_holder (s_lease sa)) = c_ID c ∧ s' = sa <| curStale := true |>.
Lemma execution_once now c out s :
  let '(r, s', sent) := run ad (forwardExecution now c out) s h in
  (s' = s ∧ sent = h ∧ refused_execution now c out s r) ∨
  (admitted_execution now c out s s' ∧ sent_once out r sent ∧ (client s' = true → sent = h ++ [Forwarded out])).
Proof.
  unfold forwardExecution, refused_execution, admitted_execution. rewrite run_bind. cbn [run atomically].
  destruct (execution_of out s) as [[k text]|e] eqn:Ex; [|cbn; by left].
  unfold with_lock. cbn [run]. rewrite run_bind. rewrite run_bind. unfold Admit. cbn [run atomically].
  pose proof (admit_holds now c k text s) as Ha. destruct (admitLocked now (mkExec c k 0 None text) 0 s) as [[x|e] sa] eqn:Ea.
  - rewrite run_bind. destruct (run_sendRequest out sa) as (r & Hrun & Hr). rewrite Hrun.
    rewrite run_bind. cbn [run markStale with_lock pbind atomically ret]. right. split_and!.
    + by exists k, text, x, sa.
    + unfold sent_once. destruct (client sa); [by right|left; split; [done|by apply Hr]].
    + cbn. by intros ->.
  - cbn. left. subst sa. split_and!; [done|done|]. by exists e.
Qed.
End runs.

(** C16: what a forwarded request does, by its class. At most one request is
    sent, the copy of the editor's with the context decided on, and otherwise
    the answer is an error. Nothing refused, or needing a capability the
    adapter did not declare, is sent; no evaluation is sent but in a read context, with a frame, of a
    stopped program, when the driver saw no side effect, or as a repl
    evaluation that was admitted. Only an execution request changes the
    session: one that is admitted in the state it found (the client then has
    the lease, the exec event is logged) is sent when there is an adapter,
    and the captured locals are stale; one that is refused is answered with
    the refusal, and nothing is sent or changed. *)
Theorem forward_spec copy (Hcopy : ∀ r r', copy r = Ok r' → r' = r) now c req ad s h :
  let '(class, ctx) := forwardPolicy req in
  let out := set_context ctx req in
  let '(r, s', sent) := run ad (Forward copy now c req) s h in
  sent_once h out r sent
  ∧ (sent ≠ h → class ≠ classRefused ∧ declares (caps s) req = true)
  ∧ (class ≠ classExecution → s' = s)
  ∧ (sent ≠ h → class = classStoppedRead ∨ class = classGuardedRead → state s = StateStopped)
  ∧ (sent ≠ h → ∀ e f c0 rest, req = Dap.EvaluateRequest e f c0 rest →
       read_context ctx ∧ f ≠ 0 ∧ (∀ check, cf_sideEffects (conf s) = Some check → check e = None)
       ∨ class = classExecution ∧ ctx = contextRepl)
  ∧ (class = classExecution →
       s' = s ∧ sent = h ∧ (declares (caps s) req = false ∨ copy req ≠ Ok req ∨ refused_execution now c out s r) ∨
       admitted_execution now c out s s' ∧ (client s' = true → sent = h ++ [Forwarded out])).
Proof.
  destruct (forwardPolicy req) as [class ctx] eqn:Ep. cbv zeta. unfold Forward. rewrite Ep.
  case_decide as Hc; [cbn; split_and!; try done; [left; by eauto|by rewrite Hc]|]. rewrite run_bind. cbn [run atomically].
  destruct (declares (caps s) req) eqn:Ed; cbn [negb];
    [|rewrite run_bind; cbn; split_and!; try done; [left; by eauto|intros _; left; auto]].
  unfold outgoing. destruct (copy req) as [req'|e] eqn:Ec; [|cbn; split_and!; try done; [left; by eauto|intros _; left; auto]].
  apply Hcopy in Ec as ->. set (out := set_context ctx req).
  assert (Hev : ∀ e f c0 rest, req = Dap.EvaluateRequest e f c0 rest → class = classGuardedRead ∨ class = classExecution ∧ ctx = contextRepl).
  { intros e f c0 rest ->. by apply policy_evaluate in Ep. }
  destruct class; try done.
  - pose proof (sendRequest_once ad h out s) as H. destruct (run ad _ s h) as [[r s'] sent]. destruct H as [-> H].
    split_and!; [done|done|done|naive_solver|naive_solver|done].
  - destruct (no_column out); [cbn; split_and!; try done; left; by eauto|]. rewrite run_stopped.
    case_decide; [|cbn; split_and!; try done; left; by eauto].
    pose proof (sendRequest_once ad h out s) as H'. destruct (run ad _ s h) as [[r s'] sent]. destruct H' as [-> H'].
    split_and!; [done|done|done|done|naive_solver|done].
  - destruct (policy_guarded req ctx Ep) as (Hr & e & f & c0 & rest & ->). unfold out. cbn [set_context].
    set (c1 := if ctx =?s "" then c0 else ctx). pose proof (guarded_once ad h e f c1 rest s) as H. cbv zeta in H.
    destruct (run ad _ s h) as [[r s'] sent]. destruct H as (-> & H & Hg).
    split_and!; [done|done|done|intros Hs _; by apply Hg|..|done].
    intros Hs e' f' c0' rest' [= <- <- _ _]. left. destruct (Hg Hs) as (? & _ & ?). done.
  - pose proof (execution_once ad h now c out s) as H. destruct (run ad _ s h) as [[r s'] sent].
    assert (Ho : sent_once h out r sent).
    { destruct H as [(_ & -> & Hr)|(_ & Ho & _)]; [left; split; [done|]|done].
      unfold refused_execution in Hr. destruct (execution_of out s) as [[k text]|e]; [|by eexists]. destruct Hr as (e & _ & ->). by eexists. }
    split_and!; [done|done|done|naive_solver|naive_solver|]. intros _.
    destruct H as [(Hs & Hh & Hr)|(Ha & _ & Hs)]; [left; auto|by right].
Qed.

(** A debug console's evaluation, of a client who may take the lease. *)
Definition forward_session : Session := (sample_session LeaseFree) <| state := StateStopped |> <| client := true |>.
Definition console : Dap.request := Dap.EvaluateRequest "x = 1" 3 "repl" "".
Definition answering : list request → request → answer := fun _ _ => AnsResponse "1".

Lemma forward_spec_witness :
  let '(r, s', sent) := run answering (Forward Ok 7 (human "h") console) forward_session [] in
  sent = [Forwarded console] ∧ curStale s' = true ∧ admitted_execution 7 (human "h") console forward_session s'.
Proof.
  pose proof (forward_spec Ok ltac:(congruence) 7 (human "h") console answering forward_session []) as H. cbv beta in H.
  assert (Hs : (run answering (Forward Ok 7 (human "h") console) forward_session []).2 = [Forwarded console]) by (vm_compute; reflexivity).
  assert (Hst : curStale (run answering (Forward Ok 7 (human "h") console) forward_session []).1.2 = true) by (vm_compute; reflexivity).
  assert (Hp : forwardPolicy console = (classExecution, contextRepl)) by reflexivity. rewrite Hp in H.
  destruct (run answering (Forward Ok 7 (human "h") console) forward_session []) as [[r s'] sent]. cbn [fst snd] in *.
  destruct H as (_ & _ & _ & _ & _ & H). rewrite Hs in *. split; [reflexivity|]. split; [exact Hst|].
  destruct (H eq_refl) as [(_ & Hn & _)|[Ha _]]; [discriminate Hn|exact Ha].
Defined.

(** * Joining a session (internal/session/join.go)

    What an editor joining a session reads: its capabilities once it
    finished starting, its summary with a point of its log, the output
    before that point, and every event after it. *)
Module Join.


(** [Ready], after its wait: the state may still be starting then. *)
Definition Ready (s : Session) : result Capabilities :=
  if decide (state s = StateStarting) then Err (stateError (s_ID s) (state s) "joining needs a session that finished starting")
  else if negb (capsKnown s) then Err (stateError (s_ID s) StateExited "joining needs a live session")
  else Ok (caps s).

Definition JoinPoint (s : Session) : SessionInfo * Z := (infoLocked s, l_seq (s_log s)).

(** [Follow]: from the look when called, over its wakes, to its deadline. *)
Definition follow_query (since : Z) : EventsParams := mkEventsParams (Z.max since 0) false MaxEventsLimit [] 0.
Definition Follow (since : Z) (l : eventLog) (wakes : list eventLog) (final : eventLog) : EventsResult :=
  wait (follow_query since) l wakes final.

Definition OutputBefore (seq maxChunks maxBytes : Z) (s : Session) : list OutputLine * Z :=
  let held := outputUntil seq (s_log s) in
  let newest := drop (Z.to_nat (Z.max (Z.of_nat (length held) - maxChunks) 0)) held in
  let '(lines, omitted) := CapOutput newest maxBytes true in
  match held with
  | [] => ([], 0)
  | _ => (lines, omitted + Z.of_nat (length held) - Z.of_nat (length newest))
  end.

Definition SupportedExceptionModes (s : Session) : list ExceptionMode :=
  if negb (capsKnown s) || (Z.of_nat (length (ExceptionFilters (caps s))) =? 0) then []
  else
    List.filter (fun m =>
      let filters := filtersFor (cf_excFilters (conf s)) [mkCEM "" m] in
      (0 <? Z.of_nat (length filters)) && is_ok (checkFiltersLocked filters s)) [ExceptionsAll; ExceptionsUncaught].

(** ** Joining loses nothing *)

(** A long poll answers a query of one of the logs it looked at. *)
Lemma wait_looked q l wakes final :
  0 ≤ q_Since q → ∃ x b, In x (l :: wakes ++ [final]) ∧ wait q l wakes final = (query q x) <| er_TimedOut := b |>.
Proof.
  intros Hq. unfold wait. rewrite (proj2 (Z.ltb_ge _ _)) by done.
  assert (Hl : ∀ l, queryLocked q l = query q l) by done.
  revert l. induction wakes as [|l' wakes IH]; intros l; cbn [wait_loop app]; rewrite Hl.
  - destruct (er_Events (query q l)) as [|e evs] eqn:E.
    + exists final, (bool_decide (er_Events (query q final) = [])). split; [right; by left|done].
    + exists l, (er_TimedOut (query q l)). split; [by left|]. by destruct (query q l).
  - destruct (er_Events (query q l)) as [|e evs] eqn:E.
    + destruct (IH l') as (x & b & Hx & ->). exists x, b. split; [by right|done].
    + exists l, (er_TimedOut (query q l)). split; [by left|]. by destruct (query q l).
Qed.

(** Of a history that went on, what comes after its point. *)
Lemma wanted_after n h es :
  (∀ i e, (h ++ es) !! i = Some e → ev_Seq e = Z.of_nat i + 1) →
  List.filter (fun e => (Z.of_nat (length h) <? ev_Seq e) && matches [] e) (drop n (h ++ es))
  = drop (n - length h) es.
Proof.
  intros Hseq. rewrite drop_app, List.filter_app.
  replace (List.filter _ (drop n h)) with (@nil Event); [cbn [app]|symmetry].
  - apply forallb_filter_id, List.forallb_forall. intros e He. apply list_elem_of_In, list_elem_of_lookup in He as [i He].
    rewrite lookup_drop in He. rewrite andb_true_r. apply Z.ltb_lt.
    rewrite (Hseq (length h + (n - length h + i))%nat e); [lia|]. by rewrite lookup_app_r, Nat.add_sub' by lia.
  - apply filter_negb_nil. intros e He. apply list_elem_of_In, list_elem_of_lookup in He as [i He]. rewrite lookup_drop in He.
    pose proof (lookup_lt_Some _ _ _ He). rewrite (Hseq (n + i)%nat e) by by apply lookup_app_l_Some.
    apply andb_false_intro1, Z.ltb_ge. lia.
Qed.

Lemma follow_looked seq h es l :
  refines (h ++ es) l → seq = Z.of_nat (length h) →
  let r := query (follow_query seq) l in
  er_Events r = take (Z.to_nat MaxEventsLimit) (drop (Z.to_nat (er_Dropped r)) es)
  ∧ 0 ≤ er_Dropped r ≤ Z.of_nat (length es).
Proof.
  intros Hr ->. destruct (query_events (follow_query (Z.of_nat (length h))) _ _ Hr) as (H1 & _ & _ & H4 & _).
  pose proof Hr as [Hs (n & Hev & Hn) Hseqs _]. unfold since_of in H1, H4. cbn [follow_query q_Newest q_Since q_Kinds q_Limit] in H1, H4.
  rewrite (Z.max_l (Z.of_nat (length h)) 0), (proj2 (Z.ltb_ge (Z.of_nat (length h)) 0)) in H1, H4 by lia.
  unfold wanted in H1. rewrite Hev, wanted_after in H1 by done. unfold first_seq in H4. rewrite Hs, Hev, length_drop, length_app in H4.
  rewrite length_app in Hn. cbv zeta. rewrite H1, H4. split; [|lia].
  change (eventLimit MaxEventsLimit) with MaxEventsLimit. do 2 f_equal. lia.
Qed.

(** Joining a session loses nothing and sees nothing twice. The point of
    the log read with the summary is all of the history so far; and whatever
    was logged since, at whichever look answers the follower, what it gets is
    the events after that point in order, at most a page of them, starting
    right after as many as it says the log had dropped. *)
Theorem join_follow s h es l wakes final :
  refines h (s_log s) →
  Forall (fun x => ∃ n, refines (h ++ take n es) x) (l :: wakes ++ [final]) →
  let r := Follow (JoinPoint s).2 l wakes final in
  (JoinPoint s).2 = Z.of_nat (length h)
  ∧ ∃ n, er_Events r = take (Z.to_nat MaxEventsLimit) (drop (Z.to_nat (er_Dropped r)) (take n es))
         ∧ 0 ≤ er_Dropped r ≤ Z.of_nat (length (take n es)).
Proof.
  intros Hr Hl. rewrite List.Forall_forall in Hl. unfold JoinPoint. cbn [snd].
  assert (Hseq : l_seq (s_log s) = Z.of_nat (length h)) by by destruct Hr. cbv zeta. split; [done|].
  destruct (wait_looked (follow_query (l_seq (s_log s))) l wakes final) as (x & b & Hx & Hw); [cbn; lia|].
  unfold Follow. rewrite Hw. destruct (Hl x Hx) as [n Hn]. exists n. cbn [er_Events er_Dropped].
  exact (follow_looked _ h (take n es) x Hn Hseq).
Qed.

(** A session at its third event, whose log by the next look kept two of five. *)
Definition joined_history : list (Z * Event) :=
  [(5, event EventStarted); (6, event EventOutput); (7, event EventStopped); (8, event EventContinued); (9, event EventExited)].
Definition later_log : eventLog := append_all joined_history (newEventLog 2 maxEventBytes).
Definition joined_session : Session :=
  (sample_session LeaseFree) <| s_log := append_all (firstn 3 joined_history) (newEventLog 2 maxEventBytes) |>.

Lemma join_follow_witness :
  map ev_Seq (er_Events (Follow (JoinPoint joined_session).2 later_log [] later_log)) = [4; 5]
  ∧ er_Dropped (Follow (JoinPoint joined_session).2 later_log [] later_log) = 0
  ∧ (JoinPoint joined_session).2 = 3.
Proof.
  set (h := stamped 0 joined_history).
  destruct (join_follow joined_session (take 3 h) (drop 3 h) later_log [] later_log) as (H & n & H1 & H2).
  - apply (append_all_refines (firstn 3 joined_history) [] _ (refines_new 2 maxEventBytes)).
  - assert (Hh : ∃ n, refines (take 3 h ++ take n (drop 3 h)) later_log).
    { exists 2%nat. change (take 3 h ++ take 2 (drop 3 h)) with ([] ++ h). apply (append_all_refines joined_history [] _ (refines_new 2 maxEventBytes)). }
    constructor; [exact Hh|constructor; [exact Hh|constructor]].
  - split; [vm_compute; reflexivity|split; [vm_compute; reflexivity|exact H]].
Defined.

End Join.
