(* ===== verification/Snapshot.v ===== *)
(** * Snapshots (internal/session/session.go, exceptions.go)

    What a client is shown of a session: its summary, the output since the
    program last resumed and, when it is stopped, where, why and with which
    locals. *)

From S2P Require Import Prelude GoStrings Api PathMap EventLog Prog Session Anchor Present Fit Slots Adapter Inspect.
From S2P Require Import Emulate Breakpoints Exceptions Exec.
From Stdlib Require Import Ascii Bool.

Open Scope Z_scope.

(** ** The exception a program stopped at *)

Definition maxExceptionMessage : Z := 1000.
Definition maxStackTraceLines : Z := 20.
Definition maxStackTraceBytes : Z := 4000.
Definition maxInnerDepth : nat := 3.

Definition cut (s : string) (n : Z) : string * bool :=
  let c := CutText s n false in (c, slen c <? slen s).

(** [strings.TrimRight(st, "\r\n")] *)
Fixpoint trim_newlines (s : string) : string :=
  match s with
  | EmptyString => ""
  | String c s =>
    let s := trim_newlines s in
    if (s =?s "") && (Ascii.eqb c LF || Ascii.eqb c (ascii_of 13)) then "" else String c s
  end.

Definition cutStackTrace (st : string) : string * bool :=
  let lines := split_on LF (trim_newlines st) in
  let cutLines := maxStackTraceLines <? Z.of_nat (length lines) in
  let lines := take (Z.to_nat maxStackTraceLines) lines in
  let '(out, cutBytes) := cut (join newline lines) maxStackTraceBytes in
  (out, cutLines || cutBytes).

Definition noInfo : ExceptionInfo := mkExceptionInfo "" "" "" "" "" "" [] false.

Fixpoint convertDetails (depth : nat) (d : dapDetails) : ExceptionInfo :=
  let type := if d_FullTypeName d =?s "" then d_TypeName d else d_FullTypeName d in
  let '(msg, cutMsg) := cut (d_Message d) maxExceptionMessage in
  let '(stack, cutStack) := cutStackTrace (d_StackTrace d) in
  let inner :=
    match depth with
    | O => []
    | S depth => map (fun i => (convertDetails depth i) <| x_StackTrace := ""%string |>) (d_InnerException d)
    end in
  let cutInner := match depth with
                  | O => match d_InnerException d with [] => false | _ => true end
                  | S _ => existsb x_Truncated inner
                  end in
  mkExceptionInfo "" "" "" type msg stack inner (cutMsg || cutStack || cutInner).

Definition convertException (body : dapException) : ExceptionInfo :=
  let '(desc, cutDesc) := cut (e_Desc body) maxExceptionMessage in
  match e_Details body with
  | None => mkExceptionInfo (e_Id body) desc (e_Break body) "" "" "" [] cutDesc
  | Some d =>
    let d := convertDetails maxInnerDepth d in
    mkExceptionInfo (e_Id body) desc (e_Break body) (x_Type d) (x_Message d) (x_StackTrace d) (x_Inner d)
      (cutDesc || x_Truncated d)
  end.

(** The exception of a stop, kept for that stop. *)
Definition known_exception (stopsSeen : Z) (s : Session) : option ExceptionInfo :=
  if excInfoStops s =? stopsSeen then excInfo s else None.
Definition keep_exception (stopsSeen : Z) (info : ExceptionInfo) (s : Session) : Session :=
  if stops s =? stopsSeen then s <| excInfo := Some info |> <| excInfoStops := stopsSeen |> else s.
Definition exceptionInfo (stopsSeen thread : Z) : handler (option ExceptionInfo) :=
  (have <- atomically (fun s => ((known_exception stopsSeen s, SupportsExceptionInfoRequest (caps s)), s)) ;;
   match have with
   | (Some info, _) => ret (Some info)
   | (None, false) => ret None
   | (None, true) =>
     ans <- send (ExceptionInfoRequest thread) ;;
     match ans with
     | AnsException body =>
       let info := convertException body in
       atomically (fun s => (Some info, keep_exception stopsSeen info s))
     | _ => ret None
     end
   end)%prog.

(** ** Snapshots *)

Definition DumpLocals : string := "locals".
Definition DumpChanged : string := "changed".
Definition DumpStack : string := "stack".
Record DumpSpec := mkDump { dm_Dump : list string; dm_Budget : Z }.
Definition Wants (d : DumpSpec) (what : string) : bool := existsb (fun w => w =?s what) (dm_Dump d).
Definition dumpFrames : Z := 10.

Record SnapshotR := mkSnapshot {
  sn_Session : SessionInfo; sn_Output : list OutputLine; sn_OutputOmitted : Z;
  sn_Frame : option Frame; sn_Source : list SourceLine; sn_Stack : list Frame;
  sn_Exception : option ExceptionInfo; sn_Changes : option Changes; sn_Locals : option Scope;
  sn_TimedOut : bool; sn_Target : option BreakpointSpec; sn_Reached : option bool }.
#[global] Instance eta_SnapshotR : Eta SnapshotR :=
  fun r => mkSnapshot (sn_Session r) (sn_Output r) (sn_OutputOmitted r) (sn_Frame r) (sn_Source r) (sn_Stack r)
    (sn_Exception r) (sn_Changes r) (sn_Locals r) (sn_TimedOut r) (sn_Target r) (sn_Reached r).

(** The two parts cut to one budget, the changes first. *)
Definition with_locals (dump : DumpSpec) (cur : stopCapture) (prev : option stopCapture) (snap : SnapshotR) : SnapshotR :=
  let room := NewFitter (dm_Budget dump) in
  let '(snap, room) :=
    if Wants dump DumpChanged then
      let ch := changes cur prev in
      let '((kept, omitted, cut), room) := Fit room (ch_Vars ch) in
      (snap <| sn_Changes := Some (mkChanges (ch_NewFrame ch) kept omitted cut) |>, room)
    else (snap, room) in
  if Wants dump DumpLocals then
    let '((kept, omitted, cut), _) := Fit room (sc_locals cur) in
    snap <| sn_Locals := Some (mkScope "Locals" kept (omitted + sc_more cur) false cut) |>
  else snap.

(** Where the program stopped, from its stack. *)
Definition with_frames (f : fs) (m : option PathMap) (dump : DumpSpec) (frames : result (list (Frame * Z)))
    (snap : SnapshotR) : SnapshotR :=
  match frames with
  | Ok ((fr, _) :: _ as fs) =>
    snap <| sn_Frame := Some fr |> <| sn_Source := readSource f m (fr_File fr) (fr_Line fr) 2 |>
         <| sn_Stack := if Wants dump DumpStack then fs.*1 else [] |>
  | _ => snap
  end.

Definition SnapshotOf (f : fs) (dump : DumpSpec) : handler SnapshotR :=
  (info <- atomically (fun s => (infoLocked s, s)) ;;
   out <- outputSinceResume ;;
   let snap := mkSnapshot info out.1 out.2 None [] [] None None None false None None in
   match i_Stop info with
   | None => ret snap
   | Some st =>
     exc <- (if si_Reason st =?s reasonException then
               n <- atomically (fun s => (stops s, s)) ;; exceptionInfo n (si_ThreadID st)
             else ret None) ;;
     frames <- stack (si_ThreadID st) (if Wants dump DumpStack then dumpFrames else 1) ;;
     m <- atomically (fun s => (cf_pathMap (conf s), s)) ;;
     let snap := with_frames f m dump frames (snap <| sn_Exception := exc |>) in
     if negb (Wants dump DumpLocals) && negb (Wants dump DumpChanged) then ret snap
     else
       got <- capture ;;
       ret (match got with Ok (cur, prev) => with_locals dump cur prev snap | Err _ => snap end)
   end)%prog.

(** ** Waiting

    A waiter looks at the session at every change of it until it is settled or
    its time is over: the one look that counts is its last. *)

Definition Wait (f : fs) (stopsSeen : Z) (dump : DumpSpec) : handler SnapshotR :=
  (ok <- atomically (fun s => (settled stopsSeen s, s)) ;;
   snap <- SnapshotOf f dump ;;
   ret (snap <| sn_TimedOut := negb ok |>))%prog.

Definition Resume (f : fs) (now : Z) (c : Client) (kind : string) (threadID : Z) (dump : DumpSpec)
    : handler (result SnapshotR) :=
  (before <- Exec now c kind threadID ;;
   match before with
   | Err e => ret (Err e)
   | Ok before => snap <- Wait f before dump ;; ret (Ok snap)
   end)%prog.

(** Whether the program is at run-until's target, for its breakpoint. *)
Definition target_reached (f : fs) (x : execution) (snap : SnapshotR) : bool :=
  match sn_Frame snap with
  | None => false
  | Some fr =>
    (fr_Line fr =? sp_Line (ex_target x)) && sameFile f (fr_File fr) (sp_File (ex_target x))
    && match i_Stop (sn_Session snap) with
       | Some st => match si_Breakpoints st with
                    | [] => true
                    | bps => existsb (fun b => sb_ID b =? ex_targetID x) bps
                    end
       | None => true
       end
  end.

(** The checks before anything is placed. *)
Definition check_target (spec : BreakpointSpec) (s : Session) : result unit :=
  match checkBreakpointCapsLocked spec s with
  | Err e => Err e
  | Ok _ => checkMapped (cf_pathMap (conf s)) spec
  end.

(** A failed removal of the temporary breakpoint comes with the snapshot. *)
Definition RunUntil (f : fs) (now : Z) (c : Client) (spec : BreakpointSpec) (threadID : Z) (dump : DumpSpec)
    : handler (result (SnapshotR * result unit)) :=
  match resolveSpec f spec false with
  | Err e => ret (Err e)
  | Ok spec =>
    let spec := spec <| sp_HitCondition := ""%string |> <| sp_LogMessage := ""%string |> in
    (checked <- atomically (fun s => (check_target spec s, s)) ;;
     match checked with
     | Err e => ret (Err e)
     | Ok _ =>
       executed <- execute now (mkExec c ExecRunUntil threadID (Some spec) "") ;;
       match executed with
       | Err e => ret (Err e)
       | Ok x =>
         snap <- Wait f (ex_before x) dump ;;
         let snap := snap <| sn_Target := Some (ex_target x) |> in
         if sn_TimedOut snap then ret (Ok (snap, Ok ()))
         else
           let snap := snap <| sn_Reached := Some (target_reached f x snap) |> in
           match ex_temp x with
           | None => ret (Ok (snap, Ok ()))
           | Some temp =>
             removed <- removeBreakpoints now (c_ID c) (stillTemporary temp) ;;
             ret (Ok (snap, if bool_decide (i_State (sn_Session snap) = StateExited) then Ok () else removed.2))
           end
       end
     end)%prog
  end.
