(* ===== verification/Start.v ===== *)
(** * Starting a session (internal/session/manager.go, session.go, testrun.go)

    A session's creation, its adapter's start-up sequence, and the runner of a
    test run. What the host does (whether a process started, what arrived
    first, what a test host's driver settles) is an argument. *)

From S2P Require Import Prelude GoStrings GoPath Api PathMap EventLog Prog Session Lease Slots Adapter Breakpoints.
From S2P Require Import Exceptions Exec.
From Stdlib Require Import Bool.

Open Scope Z_scope.

(** ** A new session *)

(** [attachRecorder], to the recording at [path]. *)
Definition attachRecorder (path : string) (s : Session) : Session :=
  s <| recPath := path |> <| s_log ::= setSink |>.

Definition logStarted (now : Z) (s : Session) : Session :=
  logEvent now ((event EventStarted) <| ev_Client := c_ID (cf_starter (conf s)) |> <| ev_Program := cf_Program (conf s) |>
                  <| ev_Lease := Some (lease_info (s_lease s)) |> <| ev_Action := mode_name (s_mode s) |>) s.

(** [create]: recorded, if a recording could be made, from the first event. *)
Definition create (cf : config) (policy : LeasePolicy) (launchPID : Z) (ct : option ContainerInfo)
    (exceptions : ExceptionMode) (recording : option string) (now : Z) : Session :=
  let starter := c_ID (cf_starter cf) in
  let s := newSession cf policy launchPID ct now in
  let s := s <| excModes := withMode [] starter exceptions false |> in
  let s := match recording with Some path => attachRecorder path s | None => s end in
  let s := logStarted now s in
  if decide (exceptions = ExceptionsNone) then s
  else logEvent now ((event EventExceptions) <| ev_Client := starter |> <| ev_Action := exception_mode_name exceptions |>) s.

(** ** The adapter's start-up sequence *)

(** A driver's answer: the adapter (its process and arguments, and the
    request's, aside) and what is settled for the session. *)
Record Launch := mkLaunch {
  la_AdapterID : string; la_Program : string; la_Request : string; la_PID : Z;
  la_ExceptionFilters : ExceptionMode → option (list string); la_SideEffects : option (string → option string);
  la_AdapterName : string; la_PauseUnsupported : string; la_SetByEval : bool; la_ExitCodeUnknown : string;
  la_PathMap : option PathMap; la_Container : option ContainerInfo }.
#[global] Instance eta_Launch : Eta Launch :=
  fun r => mkLaunch (la_AdapterID r) (la_Program r) (la_Request r) (la_PID r) (la_ExceptionFilters r) (la_SideEffects r)
    (la_AdapterName r) (la_PauseUnsupported r) (la_SetByEval r) (la_ExitCodeUnknown r) (la_PathMap r) (la_Container r).
Definition RequestLaunch : string := "launch".
Definition RequestAttach : string := "attach".
Definition la_attach (l : Launch) : bool := la_Request l =?s RequestAttach.

(** [startAdapter], once the process runs: the DAP client is connected. *)
Definition adapterStarted (s : Session) : Session := s <| client := true |>.

Definition initialize (adapterID : string) (terminal : bool) : handler (result unit) :=
  (ans <- send (Initialize adapterID terminal) ;;
   match ans with
   | AnsCaps c => atomically (fun s => (Ok (), setCaps c s))
   | AnsError e => ret (Err e)
   | _ => ret (Err unexpected)
   end)%prog.

(** What [waitInitialized] sees first: the initialized event; the launch's
    answer (and what came after it); the adapter gone; the deadline. *)
Inductive init_wait :=
  | InitArrived
  | LaunchFirst (r later : result unit)
  | AdapterClosed
  | InitTimeout (e : Error).
Definition waitInitialized (w : init_wait) : result unit :=
  match w with
  | InitArrived => Ok ()
  | LaunchFirst (Err e) _ => Err e
  | LaunchFirst (Ok _) later => later
  | AdapterClosed => Err (NewError CodeAdapterFailed "the debug adapter exited during start-up")
  | InitTimeout e => Err e
  end.

(** An attach's refusal by the adapter is ATTACH_FAILED. *)
Definition startErr (l : Launch) (e : Error) : Error :=
  if negb (la_attach l) || negb (bool_decide (e_code e = CodeAdapterFailed)) then e
  else NewError CodeAttachFailed ("attach to pid " +:+ itoa (la_PID l) +:+ " failed: " +:+ e_message e).

(** What [configure]'s last wait sees: the launch's answer, or the deadline. *)
Inductive launch_end := Answered (r : result unit) | LaunchTimeout (e : Error).

(** The hook of a start, and whether its context ended while it ran. *)
Record configureHook := mkHook { hk_run : handler (result unit); hk_ctx : option Error }.
Definition run_hook (h : option configureHook) : handler (result unit) :=
  match h with
  | None => ret (Ok ())
  | Some h =>
    (r <- hk_run h ;;
     ret (match r, hk_ctx h with
          | Err e, _ => Err e
          | Ok _, Some e => Err e
          | Ok _, None => Ok ()
          end))%prog
  end.

Definition configure (now : Z) (l : Launch) (terminal : bool) (specs : list BreakpointSpec)
    (w : init_wait) (hook : option configureHook) (launched : launch_end) : handler (result unit) :=
  (i <- initialize (la_AdapterID l) terminal ;;
   match i with
   | Err e => ret (Err e)
   | Ok _ =>
     send (StartProgram (la_attach l)) ;;;    (* its answer is awaited later *)
     match waitInitialized w with
     | Err e => ret (Err (startErr l e))
     | Ok _ =>
       c <- configurationPhase now specs ;;
       match c with
       | Err e => ret (Err e)
       | Ok _ =>
         h <- run_hook hook ;;
         match h with
         | Err e => ret (Err e)
         | Ok _ =>
           d <- configurationDone ;;
           match d, launched with
           | Err e, _ => ret (Err (startErr l e))
           | Ok _, Answered (Err e) => ret (Err (startErr l e))
           | Ok _, LaunchTimeout e => ret (Err e)
           | Ok _, Answered (Ok _) => atomically (fun s => (Ok (), startedLocked s))
           end
         end
       end
     end
   end)%prog.

Definition stoppedWhileStarting (s : Session) : Error :=
  NewError CodeSessionExited ("session " +:+ s_ID s +:+ " was stopped while starting").

(** [fail]: ends a session whose start failed. *)
Definition fail_start (now : Z) (e : Error) : handler (result unit) :=
  (terminate now "" "its start failed" ;;; ret (Err e))%prog.
(** A start that failed before the session was shared is only dropped. *)
Definition fail_shared (now : Z) (e : Error) : handler (result unit) :=
  (shared <- atomically (fun s => (s_run s, s)) ;;
   if shared : bool then fail_start now e else ret (Err e))%prog.

(** The first breakpoint the path map refuses. *)
Fixpoint refused_by_map (m : option PathMap) (specs : list BreakpointSpec) : option Error :=
  match specs with
  | [] => None
  | spec :: specs => match checkMapped m spec with Err e => Some e | Ok _ => refused_by_map m specs end
  end.

(** [Manager.run]; [process] is how starting the adapter ended. *)
Definition run_start (now : Z) (l : Launch) (process : result unit) (terminal : bool) (specs : list BreakpointSpec)
    (w : init_wait) (hook : option configureHook) (launched : launch_end) : handler (result unit) :=
  match refused_by_map (la_PathMap l) specs, process with
  | Some e, _ => fail_shared now e
  | None, Err e => fail_shared now e
  | None, Ok _ =>
    (atomically (fun s => ((), adapterStarted s)) ;;;
     gone <- atomically (fun s => (if decide (state s = StateExited) then Some (stoppedWhileStarting s) else None, s)) ;;
     match gone with
     | Some e => fail_start now e
     | None =>
       r <- configure now l terminal specs w hook launched ;;
       match r with
       | Err e => fail_start now e
       | Ok _ => ret (Ok ())
       end
     end)%prog
  end.
