(* ===== verification/TestRun.v ===== *)
(** * Test runs (internal/session/testrun.go)

    A test session's runner starts a test host, which the session attaches
    to. The runner's exit and the end of the start may come in either order,
    and whichever comes second ends the session. *)

From S2P Require Import Prelude GoStrings GoPath Api PathMap EventLog Prog Session Lease Slots Adapter Breakpoints.
From S2P Require Import Emulate Exceptions Exec Start.
From Stdlib Require Import Bool.

Open Scope Z_scope.

Definition runnerTailLines : Z := 100.

(** [runnerName], e.g. "dotnet test". *)
Definition runnerName (path : string) (args : list string) : string :=
  let name := trim_suffix ".exe" (Base path) in
  match args with a :: _ => name +:+ " " +:+ a | [] => name end.

(** ** The runner's output *)

Definition pumpLine (now : Z) (category line : string) (s : Session) : Session :=
  let s := appendOutputLocked now category (line +:+ newline) s in
  s <| testrun ::= fun t =>
    let tail := tr_tail t ++ [line] in
    t <| tr_tail := drop (Z.to_nat (Z.max 0 (Z.of_nat (length tail) - runnerTailLines))) tail |> |>.
Definition otherHost (now pid first : Z) (s : Session) : Session :=
  appendOutputLocked now "stderr" ("eyedbg: test host " +:+ itoa pid +:+ " is not debugged (only the first one, "
    +:+ itoa first +:+ ", is): to debug one target framework, pass --framework" +:+ newline) s.

(** [pump]: the runner's lines, and the pid it sends on as the test host's.
    [hostPID] is the driver's reading of a line, if it reads this stream. *)
Fixpoint pump (now : Z) (category : string) (hostPID : option (string → option Z)) (lines : list string) (first : Z)
    : handler (list Z) :=
  match lines with
  | [] => ret []
  | line :: lines =>
    (atomically (fun s => ((), pumpLine now category line s)) ;;;
     match hostPID with
     | None => pump now category hostPID lines first
     | Some read =>
       match read line with
       | None => pump now category hostPID lines first
       | Some pid =>
         if pid =? first then pump now category hostPID lines first
         else if first =? 0 then
           sent <- pump now category hostPID lines pid ;; ret (pid :: sent)
         else
           atomically (fun s => ((), otherHost now pid first s)) ;;;
           pump now category hostPID lines first
       end
     end)%prog
  end.

(** ** The runner's exit *)

(** [watchRunner]'s section: whether the start had finished. *)
Definition setCode (code : Z) (s : Session) : bool * Session :=
  (tr_started (testrun s), s <| testrun ::= fun t => t <| tr_code := Some code |> |>).
(** The end of [startTestRunner]: whether the runner had exited. *)
Definition setStarted (s : Session) : bool * Session :=
  (match tr_code (testrun s) with Some _ => true | None => false end,
   s <| testrun ::= fun t => t <| tr_started := true |> |>).

Definition runReason (name : string) (code : Z) : string :=
  "the test run finished: " +:+ name +:+ " exited with code " +:+ itoa code.
Definition finishRun (now : Z) (s : Session) : list spawned * Session :=
  match tr_code (testrun s) with
  | None => ([], s)
  | Some code =>
    if decide (state s = StateExited) then ([], s)
    else
      let s := s <| exitCode := Some code |> in
      let s := logEvent now ((event EventExited) <| ev_ExitCode := Some code |>) s in
      endLocked now (runReason (default ""%string (cf_run (conf s))) code) s
  end.

Definition watchRunner (now code : Z) : handler (list spawned) :=
  (started <- atomically (setCode code) ;;
   if started : bool then atomically (finishRun now) else ret [])%prog.
Definition startedRunner (now : Z) : handler (list spawned) :=
  (finished <- atomically setStarted ;;
   if finished : bool then atomically (finishRun now) else ret [])%prog.

(** ** The start of a test run *)

(** What [waitHostPID]'s select takes: a host's pid, the runner's exit, the
    end of the context, or another change of the session. *)
Inductive host_wait := HostPID (pid : Z) | RunnerDone | HostDeadline (e : Error) | SessionChanged.

(** Each round looks at the state first; a wait that never ends is an
    endless list of changes. [failure] is the driver's reading of a runner
    that exited without a host. *)
Fixpoint waitHostPID (failure : Z → string → Error) (seen : list host_wait) : handler (result Z) :=
  (gone <- atomically (fun s => (if decide (state s = StateExited) then Some (stoppedWhileStarting s) else None, s)) ;;
   match gone, seen with
   | Some e, _ => ret (Err e)
   | None, HostPID pid :: _ => ret (Ok pid)
   | None, RunnerDone :: _ =>
     atomically (fun s =>
       (if negb (stopReason s =?s "") || bool_decide (state s = StateExited) then Err (stoppedWhileStarting s)
        else Err (failure (default 0 (tr_code (testrun s))) (join newline (tr_tail (testrun s)))), s))
   | None, HostDeadline e :: _ => ret (Err e)
   | None, SessionChanged :: seen => waitHostPID failure seen
   | None, [] => ret (Err unexpected)
   end)%prog.

(** What a driver settles for the test host it attaches to. *)
Record hostSettings := mkHostSettings {
  hs_excFilters : ExceptionMode → option (list string); hs_sideEffects : option (string → option string);
  hs_adapter : string; hs_pauseUnsupported : string; hs_setByEval : bool; hs_exitCodeUnknown : string }.
Definition takeHost (hostpid : Z) (h : hostSettings) (s : Session) : Session :=
  s <| pid := hostpid |>
    <| conf ::= fun c => c <| cf_excFilters := hs_excFilters h |> <| cf_sideEffects := hs_sideEffects h |>
         <| cf_adapter := hs_adapter h |> <| cf_pauseUnsupported := hs_pauseUnsupported h |>
         <| cf_setByEval := hs_setByEval h |> <| cf_exitCodeUnknown := hs_exitCodeUnknown h |> |>.
(** [prepareHost]: [prepared] is the process's check and the driver's answer. *)
Definition prepareHost (hostpid : Z) (prepared : result hostSettings) : handler (result unit) :=
  match prepared with
  | Err e => ret (Err e)
  | Ok h => atomically (fun s => (Ok (), takeHost hostpid h s))
  end.

(** [startRunner]'s end: a stop that came before the runner was there. *)
Definition startRunner (process : result unit) : handler (result unit) :=
  match process with
  | Err e => ret (Err e)
  | Ok _ => atomically (fun s => (if decide (state s = StateExited) then Err (stoppedWhileStarting s) else Ok (), s))
  end.

(** [startTestRunner], from the session made and shared to the host attached. *)
Definition startTestRunner (now : Z) (runner : result unit) (failure : Z → string → Error) (seen : list host_wait)
    (prepared : Z → result hostSettings) (l : Z → Launch) (process : result unit) (specs : list BreakpointSpec)
    (w : init_wait) (launched : launch_end) : handler (result unit) :=
  (r <- startRunner runner ;;
   match r with
   | Err e => fail_start now e
   | Ok _ =>
     p <- waitHostPID failure seen ;;
     match p with
     | Err e => fail_start now e
     | Ok hostpid =>
       h <- prepareHost hostpid (prepared hostpid) ;;
       match h with
       | Err e => fail_start now e
       | Ok _ =>
         started <- run_start now (l hostpid) process false specs w None launched ;;
         match started with
         | Err e => ret (Err e)
         | Ok _ => startedRunner now ;;; ret (Ok ())
         end
       end
     end
   end)%prog.
