(* ===== verification/Manager.v ===== *)
(** * Starting and finding sessions (internal/session/manager.go, modes.go,
      containerlaunch.go, launch.go, testrun.go)

    The checks every start makes before anything is built or run, what each
    kind of start asks of its driver, and how a session is found. A driver is
    what it can do: [Context]s, as are the processes of the host. *)

From S2P Require Import Prelude GoStrings GoPath Api PathMap EventLog Prog Message Session Lease Breakpoints Exec Start TestRun.
From Stdlib Require Import Bool.
Open Scope Z_scope.

(** ** Start parameters (internal/api/session.go, breadth.go, container.go) *)

Record LaunchSpec := mkLaunchSpec {
  l_Project : string; l_Program : string; l_Args : list string; l_Cwd : string; l_Env : list (string * string);
  l_NoBuild : bool; l_StopOnEntry : bool; l_Options : list (string * string); l_ClientDir : string; l_VirtualEnv : string }.
#[global] Instance eta_LaunchSpec : Eta LaunchSpec :=
  fun r => mkLaunchSpec (l_Project r) (l_Program r) (l_Args r) (l_Cwd r) (l_Env r) (l_NoBuild r) (l_StopOnEntry r)
    (l_Options r) (l_ClientDir r) (l_VirtualEnv r).
Record ContainerSpec := mkContainerSpec { k_Ref : string; k_Map : list pathPair; k_PID : Z }.
Record AttachSpec := mkAttachSpec { a_PID : Z; a_Container : option ContainerSpec }.
Record TestSpec := mkTestSpec { t_Filter : string; t_Framework : string }.
Record StartParams := mkStartParams {
  p_Launch : LaunchSpec; p_Lang : string; p_Breakpoints : list BreakpointSpec; p_LeasePolicy : string; p_NoRecord : bool;
  p_Exceptions : string; p_Attach : option AttachSpec; p_Test : option TestSpec; p_ContainerLaunch : option ContainerSpec;
  p_Adapter : string; p_Group : string }.
#[global] Instance eta_StartParams : Eta StartParams :=
  fun r => mkStartParams (p_Launch r) (p_Lang r) (p_Breakpoints r) (p_LeasePolicy r) (p_NoRecord r) (p_Exceptions r)
    (p_Attach r) (p_Test r) (p_ContainerLaunch r) (p_Adapter r) (p_Group r).

(** ** Launch options *)

Definition launchOptions (spec : LaunchSpec) : list (string * bool) :=
  [("--program"%string, negb (l_Program spec =?s ""));
   ("--project"%string, negb (l_Project spec =?s ""));
   ("program arguments"%string, 0 <? Z.of_nat (length (l_Args spec)));
   ("--cwd"%string, negb (l_Cwd spec =?s ""));
   ("--env"%string, 0 <? Z.of_nat (length (l_Env spec)));
   ("--stop-on-entry"%string, l_StopOnEntry spec);
   ("--no-build"%string, l_NoBuild spec)].
Definition refuseOptions (spec : LaunchSpec) (only : option (list string)) (msg : string) : result unit :=
  let taken name := match only with None => true | Some names => bool_decide (name ∈ names) end in
  match map fst (List.filter (fun '(name, isset) => isset && taken name) (launchOptions spec)) with
  | [] => Ok ()
  | names => Err (invalid (msg +:+ join ", " names))
  end.
Definition launchOnly (spec : LaunchSpec) : result unit :=
  refuseOptions spec None "attaching takes no launch options: ".
Definition testOnly (spec : LaunchSpec) : result unit :=
  refuseOptions spec (Some ["--program"; "--cwd"; "--stop-on-entry"]%string) "a test run takes no ".
Definition containerLaunchOnly (spec : LaunchSpec) : result unit :=
  match refuseOptions spec None "launching in a container takes no host launch options: " with
  | Err e => Err e
  | Ok _ =>
    match l_Options spec with
    | [] => Ok ()
    | _ => Err (invalid "launching in a container takes no --opt options")
    end
  end.

(** ** Processes (internal/proc) *)

Record procInfo := mkProcInfo { pr_PID : Z; pr_Name : string; pr_Owner : string; pr_SameUser : bool }.
Inductive proc_answer := NoProcess | LookupFailed (why : string) | Found (info : procInfo).

Definition checkProcess (lookup : Z → proc_answer) (pid : Z) : result procInfo :=
  match lookup pid with
  | NoProcess => Err (invalid ("no process " +:+ itoa pid))
  | LookupFailed why => Err (NewError CodeAttachFailed ("can't check process " +:+ itoa pid +:+ ": " +:+ why))
  | Found info =>
    if negb (pr_SameUser info) then
      let owner := if pr_Owner info =?s "" then "unknown"%string else pr_Owner info in
      Err (NewError CodeAttachFailed ("process " +:+ itoa pid +:+ " belongs to another user (" +:+ owner +:+ ")"))
    else Ok info
  end.
Definition processName (info : procInfo) : string :=
  let name := "pid " +:+ itoa (pr_PID info) in
  if pr_Name info =?s "" then name else name +:+ " (" +:+ pr_Name info +:+ ")".

(** ** The checks every start makes *)

(** [checkStart]: the exception mode, the paths, and the breakpoints' anchors. *)
Fixpoint resolve_specs (f : fs) (specs : list BreakpointSpec) : result (list BreakpointSpec) :=
  match specs with
  | [] => Ok []
  | spec :: specs =>
    match resolveSpec f spec true with
    | Err e => Err e
    | Ok spec => match resolve_specs f specs with Err e => Err e | Ok specs => Ok (spec :: specs) end
    end
  end.
Definition checkStart (f : fs) (p : StartParams) : result StartParams :=
  let p := if p_Exceptions p =?s "" then p <| p_Exceptions := exception_mode_name ExceptionsNone |> else p in
  match ParseExceptionMode (p_Exceptions p) with
  | Err e => Err e
  | Ok _ =>
    let p := p <| p_Launch ::= fun l => l <| l_Project ::= realPath f |> <| l_Program ::= realPath f |>
                                          <| l_Cwd ::= realPath f |> <| l_ClientDir ::= realPath f |> |> in
    match resolve_specs f (p_Breakpoints p) with
    | Err e => Err e
    | Ok bps => Ok (p <| p_Breakpoints := bps |>)
    end
  end.

(** What a test command is, as far as the session looks at it. *)
Record TestCommand := mkTestCommand {
  tc_Path : string; tc_Args : list string; tc_Program : string; tc_HostPID : string → option Z;
  tc_Failure : Z → string → Error; tc_Launch : option Launch }.

(** What a start comes to: a session to run, with the claim it needs on its
    container (a process of it, or all of it); or a test command to run. *)
Inductive plan :=
  | RunSession (l : Launch) (mode : Mode) (claim : option (string * option Z))
  | RunTests (tc : TestCommand).

Definition string_le (a b : string) : Prop := String.leb a b = true.
#[global] Instance string_le_dec a b : Decision (string_le a b).
Proof. unfold string_le. apply _. Defined.

Definition checkContainerLaunch (lang : string) (l : Launch) : result Launch :=
  match la_Container l with
  | None => Err (NewError CodeInternal (lang +:+ "'s driver returned no container to launch in"))
  | Some c =>
    if ct_ID c =?s "" then Err (NewError CodeInternal (lang +:+ "'s driver returned no container to launch in"))
    else if negb (la_Request l =?s "") && negb (la_Request l =?s RequestLaunch)
    then Err (NewError CodeInternal (lang +:+ "'s driver returned an attach for a container launch"))
    else Ok (l <| la_Container := Some (c <| ct_Launched := true |>) |> <| la_Request := RequestLaunch |> <| la_PID := 0 |>)
  end.

Section drivers.
(** The drivers, what each can do (each an interface a driver may have), and the host. *)
Context {D : Type} (drivers : gmap string D) (prepare : D → LaunchSpec → result Launch).
Context (withAdapter_of : D → option (string → result D)) (prepareWith : D → option (LaunchSpec → bool → result Launch)).
Context (attacher : D → option (AttachSpec → result Launch)) (containerAttacher : D → option (AttachSpec → result Launch)).
Context (containerLauncher : D → option (ContainerSpec → result Launch)) (tester : D → option (LaunchSpec → TestSpec → result TestCommand)).
Context (lookup : Z → proc_answer) (f : fs) (stat_dir : string → option Z).
(** [liveClaimOn]: the live session that debugs a container. *)
Context (liveClaimOn : string → option string).

Definition Languages : list string := merge_sort string_le (map fst (map_to_list drivers)).

Definition withAdapter (drv : D) (p : StartParams) : result D :=
  if p_Adapter p =?s "" then Ok drv
  else match withAdapter_of drv with
       | None => Err (invalid ("--adapter " +:+ p_Adapter p +:+ ": " +:+ p_Lang p +:+ " has only its own adapter"))
       | Some sel => sel (p_Adapter p)
       end.

Definition isSome {A} (x : option A) : bool := match x with Some _ => true | None => false end.
Definition checkedStart (p : StartParams) : result (D * LeasePolicy * StartParams) :=
  match drivers !! p_Lang p with
  | None => Err (invalid ("unknown language " +:+ p_Lang p))
  | Some drv =>
    match ParseLeasePolicy (p_LeasePolicy p) with
    | Err e => Err e
    | Ok policy =>
      if isSome (p_Attach p) && isSome (p_Test p) then Err (invalid "a session either attaches or runs tests, not both")
      else if isSome (p_ContainerLaunch p) && (isSome (p_Attach p) || isSome (p_Test p))
      then Err (invalid "a session either launches in a container, attaches or runs tests, not several")
      else
        match (if p_Group p =?s "" then Ok tt else CheckGroup (p_Group p)) with
        | Err e => Err e
        | Ok _ =>
          match checkStart f p with
          | Err e => Err e
          | Ok p =>
            match withAdapter drv p with
            | Err e => Err e
            | Ok drv => Ok (drv, policy, p)
            end
          end
        end
    end
  end.

(** ** What each kind of start asks of its driver *)

Definition startContainerAttach (drv : D) (p : StartParams) (a : AttachSpec) (k : ContainerSpec) : result plan :=
  match containerAttacher drv with
  | None => Err (invalid (p_Lang p +:+ " can't attach inside a container"))
  | Some att =>
    match launchOnly (p_Launch p) with
    | Err e => Err e
    | Ok _ =>
      if negb (a_PID a =? 0) then
        Err (invalid "a container attach names its process in the container spec, not as a host pid")
      else
        match NewPathMap (fs_EvalSymlinks f) stat_dir (k_Map k) with
        | Err e => Err e
        | Ok _ =>
          match att a with
          | Err e => Err e
          | Ok l =>
            match la_Container l with
            | None => Err (NewError CodeInternal (p_Lang p +:+ "'s driver returned no container to attach to"))
            | Some c =>
              if (ct_ID c =?s "") || (la_PID l <? 1)
              then Err (NewError CodeInternal (p_Lang p +:+ "'s driver returned no container to attach to"))
              else Ok (RunSession (l <| la_Request := RequestAttach |>) ModeAttach (Some (ct_ID c, Some (la_PID l))))
            end
          end
        end
    end
  end.

Definition startAttach (drv : D) (p : StartParams) (a : AttachSpec) : result plan :=
  match a_Container a with
  | Some k => startContainerAttach drv p a k
  | None =>
    match attacher drv with
    | None => Err (invalid (p_Lang p +:+ " can't attach to a running process"))
    | Some att =>
      match launchOnly (p_Launch p) with
      | Err e => Err e
      | Ok _ =>
        match checkProcess lookup (a_PID a) with
        | Err e => Err e
        | Ok info =>
          match att a with
          | Err e => Err e
          | Ok l =>
            Ok (RunSession (l <| la_Request := RequestAttach |> <| la_PID := pr_PID info |> <| la_Program := processName info |>)
                  ModeAttach None)
          end
        end
      end
    end
  end.

Definition startContainerLaunch (drv : D) (p : StartParams) (k : ContainerSpec) : result plan :=
  match containerLauncher drv with
  | None => Err (invalid (p_Lang p +:+ " can't launch inside a container"))
  | Some cl =>
    match containerLaunchOnly (p_Launch p) with
    | Err e => Err e
    | Ok _ =>
      match NewPathMap (fs_EvalSymlinks f) stat_dir (k_Map k) with
      | Err e => Err e
      | Ok _ =>
        match liveClaimOn (k_Ref k) with
        | Some holder => Err (invalid ("container " +:+ k_Ref k +:+ " is already debugged by session " +:+ holder))
        | None =>
          match cl k with
          | Err e => Err e
          | Ok l =>
            match checkContainerLaunch (p_Lang p) l with
            | Err e => Err e
            | Ok l => Ok (RunSession l ModeLaunch (Some (from_option ct_ID "" (la_Container l), None)))
            end
          end
        end
      end
    end
  end.

Definition startTest (drv : D) (p : StartParams) (t : TestSpec) : result plan :=
  match tester drv, attacher drv with
  | Some test, Some _ =>
    match testOnly (p_Launch p) with
    | Err e => Err e
    | Ok _ =>
      match test (p_Launch p) t with
      | Err e => Err e
      | Ok tc =>
        match tc_Launch tc with
        | Some l => Ok (RunSession (l <| la_Program := tc_Program tc |>) ModeTest None)
        | None =>
          match l_Args (p_Launch p) with
          | [] => Ok (RunTests tc)
          | args => Err (invalid ("a test run takes no arguments after " +:+ dquote +:+ "--" +:+ dquote +:+ ": " +:+ join " " args))
          end
        end
      end
    end
  | _, _ => Err (invalid (p_Lang p +:+ " can't debug test runs"))
  end.

(** [Start], up to the session. *)
Definition start_plan (p : StartParams) : result (D * LeasePolicy * StartParams * plan) :=
  match checkedStart p with
  | Err e => Err e
  | Ok (drv, policy, p) =>
    match (match p_ContainerLaunch p, p_Attach p, p_Test p with
           | Some k, _, _ => startContainerLaunch drv p k
           | None, Some a, _ => startAttach drv p a
           | None, None, Some t => startTest drv p t
           | None, None, None => match prepare drv (p_Launch p) with Ok l => Ok (RunSession l ModeLaunch None) | Err e => Err e end
           end) with
    | Err e => Err e
    | Ok pl => Ok (drv, policy, p, pl)
    end
  end.

(** [Launch], up to the session; [terminal] is whether it has that hook. *)
Definition launch_plan (p : StartParams) (terminal : bool) : result (D * LeasePolicy * StartParams * Launch) :=
  if isSome (p_Attach p) || isSome (p_Test p) then Err (invalid "a launch neither attaches nor runs tests")
  else
    match checkedStart p with
    | Err e => Err e
    | Ok (drv, policy, p) =>
      match (match prepareWith drv with
             | Some prep => prep (p_Launch p) terminal
             | None =>
               if terminal then Err (NewError CodeUnsupported ("the " +:+ p_Lang p +:+ " debug adapter can't run the program in a terminal"))
               else prepare drv (p_Launch p)
             end) with
      | Err e => Err e
      | Ok l => Ok (drv, policy, p, l)
      end
    end.
End drivers.

(** ** The session of a start *)

(** What [newSession] takes from the launch. *)
Definition session_config (id : string) (p : StartParams) (l : Launch) (mode : Mode) (run : option string) (c : Client) (now : Z) : config :=
  {| cf_ID := id; cf_Lang := p_Lang p; cf_Program := la_Program l; cf_CreatedAt := now; cf_mode := mode; cf_run := run;
     cf_starter := c; cf_excFilters := la_ExceptionFilters l; cf_pathMap := la_PathMap l; cf_sideEffects := la_SideEffects l;
     cf_adapter := la_AdapterName l; cf_pauseUnsupported := la_PauseUnsupported l; cf_setByEval := la_SetByEval l;
     cf_exitCodeUnknown := la_ExitCodeUnknown l; cf_group := p_Group p |}.
Definition hostPID (l : Launch) : Z := match la_Container l with Some _ => 0 | None => la_PID l end.

(** [create]: [recorded] is where the store made a recording, if it did. *)
Definition create_session (id : string) (c : Client) (p : StartParams) (policy : LeasePolicy) (l : Launch) (mode : Mode)
    (run : option string) (recorded : option string) (now : Z) : Session :=
  let mode_ := match ParseExceptionMode (p_Exceptions p) with Ok m => m | Err _ => ExceptionsNone end in
  create (session_config id p l mode run c now) policy (hostPID l) (la_Container l) mode_
    (if p_NoRecord p then None else recorded) now.

(** ** Finding a session *)

Definition exited (s : Session) : bool := bool_decide (state s = StateExited).

(** [sharedGroup] *)
Definition sharedGroup (l : list Session) : string :=
  match l with
  | [] => ""
  | s :: l =>
    let g := cf_group (conf s) in
    if negb (g =?s "") && forallb (fun s' => cf_group (conf s') =?s g) l then g else ""
  end.

(** [only], over the sessions in the order the map gives them. *)
Definition only (all : list Session) : result Session :=
  let live := List.filter (fun s => negb (exited s)) all in
  match all, live with
  | [], _ => Err (NewError CodeNoSession "there are no debug sessions")
  | _, [s] => Ok s
  | [s], _ => Ok s
  | _, _ =>
    let named := match live with [] => all | _ => live end in
    Err (NewError CodeNoSession ("several sessions exist: " +:+ join ", " (merge_sort string_le (map s_ID named))))
  end.

(** [Get]: sessions by id, and the infos of those an earlier daemon lost. *)
Definition Get (sessions : gmap string Session) (lost : gmap string SessionInfo) (id : string) : result Session :=
  if id =?s "" then only (map snd (map_to_list sessions))
  else match sessions !! id, lost !! id with
       | Some s, _ => Ok s
       | None, Some _ => Err (NewError CodeNoSession ("session " +:+ id +:+ " was lost: eyedbgd exited while it was live"))
       | None, None => Err (NewError CodeNoSession ("no session " +:+ id))
       end.

Definition older (a b : SessionInfo) : Prop := i_CreatedAt a <= i_CreatedAt b.
#[global] Instance older_dec a b : Decision (older a b).
Proof. unfold older. apply _. Defined.
Definition List_ (sessions : gmap string Session) (lost : gmap string SessionInfo) : list SessionInfo :=
  merge_sort older (map snd (map_to_list lost) ++ map infoLocked (map snd (map_to_list sessions))).
Definition Live (sessions : gmap string Session) : Z :=
  Z.of_nat (length (List.filter (fun s => negb (exited s)) (map snd (map_to_list sessions)))).

(** [newID]: of the ids drawn, the first no live or lost session has. *)
Definition newID (sessions : gmap string Session) (lost : gmap string SessionInfo) (drawn : list string) : option string :=
  List.find (fun id => match sessions !! id, lost !! id with None, None => true | _, _ => false end)
    (map (fun t => "s-" +:+ to_lower t) drawn).

(** [Detach] of a session: only one that attached. *)
Definition Detach (now : Z) (c : Client) : handler (result unit) :=
  (m <- atomically (fun s => ((s_mode s, s_ID s), s)) ;;
   match m with
   | (ModeAttach, _) => Terminate now c
   | (ModeTest, _) => ret (Err (invalid "a test run can't be detached: 'eyedbg stop' ends it"))
   | (ModeLaunch, id) => ret (Err (invalid ("session " +:+ id +:+ " was started, not attached: 'eyedbg stop' ends it")))
   end)%prog.

(** * What starting and finding sessions promises (manager.go, modes.go)

    A start that passes its checks is one of few kinds, each with what makes
    it safe; and which session an empty id names does not depend on the order
    the map gives them in. *)

Open Scope Z_scope.

(** ** Plans *)

(** No launch option is set. *)
Definition no_options (spec : LaunchSpec) : Prop := Forall (fun o => o.2 = false) (launchOptions spec).

Lemma refuseOptions_ok spec only msg u :
  refuseOptions spec only msg = Ok u →
  Forall (fun o => o.2 = true → match only with None => False | Some names => o.1 ∉ names end) (launchOptions spec).
Proof.
  unfold refuseOptions. destruct (map fst _) as [|x l] eqn:E; [|done]. intros _. apply List.Forall_forall.
  intros [name isset] Hin Hset. cbn in Hset. subst isset. apply map_eq_nil in E. apply filter_negb_nil with (x := (name, true)) in E; [|done].
  cbn in E. destruct only as [names|]; [|done]. by apply bool_decide_eq_false in E.
Qed.

Lemma refuse_all_ok spec msg u : refuseOptions spec None msg = Ok u → no_options spec.
Proof.
  intros H. apply refuseOptions_ok in H. apply (Forall_impl _ _ _ H). intros [name isset] Hi. destruct isset; [by destruct Hi|done].
Qed.

Lemma launchOnly_ok spec u : launchOnly spec = Ok u → no_options spec.
Proof. apply refuse_all_ok. Qed.

Lemma containerLaunchOnly_ok spec u : containerLaunchOnly spec = Ok u → no_options spec ∧ l_Options spec = [].
Proof.
  unfold containerLaunchOnly. destruct (refuseOptions _ _ _) as [x|] eqn:E; [|done]. destruct (l_Options spec); [|done].
  intros _. split; [|done]. by apply refuse_all_ok in E.
Qed.

Section plans.
Context {D : Type} (drivers : gmap string D) (prepare : D → LaunchSpec → result Launch).
Context (withAdapter_of : D → option (string → result D)).
Context (attacher : D → option (AttachSpec → result Launch)) (containerAttacher : D → option (AttachSpec → result Launch)).
Context (containerLauncher : D → option (ContainerSpec → result Launch)) (tester : D → option (LaunchSpec → TestSpec → result TestCommand)).
Context (lookup : Z → proc_answer) (f : fs) (stat_dir : string → option Z) (liveClaimOn : string → option string).

(** What a plan may be for checked parameters. *)
Inductive planned (p : StartParams) : plan → Prop :=
  | pl_attach a info l :
      p_Attach p = Some a → a_Container a = None → lookup (a_PID a) = Found info → pr_SameUser info = true →
      la_Request l = RequestAttach → la_PID l = pr_PID info → no_options (p_Launch p) →
      planned p (RunSession l ModeAttach None)
  | pl_container_attach a k c l m :
      p_Attach p = Some a → a_Container a = Some k → a_PID a = 0 → NewPathMap (fs_EvalSymlinks f) stat_dir (k_Map k) = Ok m →
      la_Request l = RequestAttach → la_Container l = Some c → ct_ID c ≠ ""%string → 1 ≤ la_PID l → no_options (p_Launch p) →
      planned p (RunSession l ModeAttach (Some (ct_ID c, Some (la_PID l))))
  | pl_container_launch k c l m :
      p_ContainerLaunch p = Some k → p_Attach p = None → p_Test p = None → liveClaimOn (k_Ref k) = None →
      NewPathMap (fs_EvalSymlinks f) stat_dir (k_Map k) = Ok m → la_Request l = RequestLaunch → la_PID l = 0 →
      la_Container l = Some c → ct_ID c ≠ ""%string → ct_Launched c = true → no_options (p_Launch p) →
      planned p (RunSession l ModeLaunch (Some (ct_ID c, None)))
  | pl_test l : is_Some (p_Test p) → p_Attach p = None → planned p (RunSession l ModeTest None)
  | pl_runner tc : is_Some (p_Test p) → p_Attach p = None → l_Args (p_Launch p) = [] → tc_Launch tc = None → planned p (RunTests tc)
  | pl_launch l : p_Attach p = None → p_Test p = None → p_ContainerLaunch p = None → planned p (RunSession l ModeLaunch None).

Lemma startContainerAttach_planned drv p a k pl :
  p_Attach p = Some a → a_Container a = Some k →
  startContainerAttach containerAttacher f stat_dir drv p a k = Ok pl → planned p pl.
Proof.
  intros Ha Hk. unfold startContainerAttach. destruct (containerAttacher drv) as [att|]; [|done].
  destruct (launchOnly _) as [u|] eqn:Eo; [|done]. apply launchOnly_ok in Eo. destruct (Z.eqb_spec (a_PID a) 0) as [Ep|]; [|done].
  cbn [negb]. destruct (NewPathMap _ _ _) as [m|] eqn:Em; [|done]. destruct (att a) as [l|]; [|done].
  destruct (la_Container l) as [c|] eqn:Ec; [|done]. destruct (String.eqb_spec (ct_ID c) ""); [done|]. cbn [orb].
  destruct (Z.ltb_spec (la_PID l) 1); [done|]. intros [= <-].
  exact (pl_container_attach p a k c (l <| la_Request := RequestAttach |>) m Ha Hk Ep Em eq_refl Ec ltac:(done) ltac:(done) Eo).
Qed.

Lemma startAttach_planned drv p a pl :
  p_Attach p = Some a → startAttach attacher containerAttacher lookup f stat_dir drv p a = Ok pl → planned p pl.
Proof.
  intros Ha. unfold startAttach. destruct (a_Container a) as [k|] eqn:Ek; [by apply startContainerAttach_planned|].
  destruct (attacher drv) as [att|]; [|done]. destruct (launchOnly _) as [u|] eqn:Eo; [|done]. apply launchOnly_ok in Eo.
  unfold checkProcess. destruct (lookup (a_PID a)) as [| |info] eqn:El; [done..|]. destruct (pr_SameUser info) eqn:Es; [|done].
  cbn [negb]. destruct (att a) as [l|]; [|done]. intros [= <-]. exact (pl_attach p a info
    (l <| la_Request := RequestAttach |> <| la_PID := pr_PID info |> <| la_Program := processName info |>) Ha Ek El Es eq_refl eq_refl Eo).
Qed.

Lemma startContainerLaunch_planned drv p k pl :
  p_ContainerLaunch p = Some k → p_Attach p = None → p_Test p = None →
  startContainerLaunch containerLauncher f stat_dir liveClaimOn drv p k = Ok pl → planned p pl.
Proof.
  intros Hk Ha Ht. unfold startContainerLaunch. destruct (containerLauncher drv) as [cl|]; [|done].
  destruct (containerLaunchOnly _) as [u|] eqn:Eo; [|done]. apply containerLaunchOnly_ok in Eo as [Eo _].
  destruct (NewPathMap _ _ _) as [m|] eqn:Em; [|done]. destruct (liveClaimOn (k_Ref k)) eqn:El; [done|].
  destruct (cl k) as [l|]; [|done]. unfold checkContainerLaunch. destruct (la_Container l) as [c|] eqn:Ec; [|done].
  destruct (String.eqb_spec (ct_ID c) ""); [done|]. destruct (_ && _); [done|]. intros [= <-].
  exact (pl_container_launch p k (c <| ct_Launched := true |>)
    (l <| la_Container := Some (c <| ct_Launched := true |>) |> <| la_Request := RequestLaunch |> <| la_PID := 0 |>) m Hk Ha Ht El Em eq_refl eq_refl eq_refl ltac:(done) eq_refl Eo).
Qed.

Lemma startTest_planned drv p t pl :
  p_Test p = Some t → p_Attach p = None → startTest attacher tester drv p t = Ok pl → planned p pl.
Proof.
  intros Ht Ha. unfold startTest. destruct (tester drv) as [test|]; [|done]. destruct (attacher drv); [|done].
  destruct (testOnly _); [|done]. destruct (test _ _) as [tc|]; [|done]. destruct (tc_Launch tc) as [l|] eqn:El.
  - intros [= <-]. apply pl_test; [by eexists|done].
  - destruct (l_Args (p_Launch p)) eqn:Eargs; [|done]. intros [= <-]. apply pl_runner; [by eexists|done..].
Qed.

Lemma checkStart_fields p p' :
  checkStart f p = Ok p' → p_Attach p' = p_Attach p ∧ p_Test p' = p_Test p ∧ p_ContainerLaunch p' = p_ContainerLaunch p
  ∧ p_Lang p' = p_Lang p ∧ p_Group p' = p_Group p ∧ is_ok (ParseExceptionMode (p_Exceptions p')) = true
  ∧ resolve_specs f (p_Breakpoints p) = Ok (p_Breakpoints p').
Proof.
  unfold checkStart. cbv zeta. set (p1 := if _ =?s _ then _ else p).
  assert (H : p_Attach p1 = p_Attach p ∧ p_Test p1 = p_Test p ∧ p_ContainerLaunch p1 = p_ContainerLaunch p
    ∧ p_Lang p1 = p_Lang p ∧ p_Group p1 = p_Group p ∧ p_Breakpoints p1 = p_Breakpoints p) by (unfold p1; by case_match).
  clearbody p1. destruct H as (H1 & H2 & H3 & H4 & H5 & H6). destruct (ParseExceptionMode (p_Exceptions p1)) as [m|] eqn:Em; [|done].
  match goal with |- context [resolve_specs f (p_Breakpoints ?q)] => change (p_Breakpoints q) with (p_Breakpoints p1) end.
  rewrite H6. destruct (resolve_specs f (p_Breakpoints p)) as [bps|]; [|done]. intros [= <-]. split_and!; try done. cbn. by rewrite Em.
Qed.

(** A start whose checks pass has a lease policy and an exception mode that
    parse, its breakpoints resolved, and is one of these: an attach to a host process of
    the caller's own user, which the adapter is told by its pid; an attach to
    a process of a container, or a launch in one no session debugs, by the container's id
    and with a valid path map, with the claim it must take; a test run;
    or a launch. None but a launch or a test run comes with launch options. *)
Theorem start_planned p drv policy p' pl :
  start_plan drivers prepare withAdapter_of attacher containerAttacher containerLauncher tester lookup f stat_dir liveClaimOn p
    = Ok (drv, policy, p', pl) →
  ParseLeasePolicy (p_LeasePolicy p) = Ok policy ∧ is_ok (ParseExceptionMode (p_Exceptions p')) = true
  ∧ resolve_specs f (p_Breakpoints p) = Ok (p_Breakpoints p')
  ∧ (p_Group p ≠ ""%string → is_ok (CheckGroup (p_Group p)) = true)
  ∧ planned p' pl.
Proof.
  unfold start_plan. destruct (checkedStart _ _ _ p) as [[[drv0 policy0] p0]|] eqn:Ec; [|done].
  unfold checkedStart in Ec. destruct (drivers !! p_Lang p) as [d|]; [|done].
  destruct (ParseLeasePolicy (p_LeasePolicy p)) as [pol|] eqn:Epol; [|done].
  destruct (isSome (p_Attach p) && isSome (p_Test p)) eqn:E1; [done|].
  destruct (isSome (p_ContainerLaunch p) && (isSome (p_Attach p) || isSome (p_Test p))) eqn:E2; [done|].
  destruct (if p_Group p =?s "" then Ok tt else CheckGroup (p_Group p)) as [u|] eqn:Eg; [|done].
  destruct (checkStart f p) as [p1|] eqn:Es; [|done]. destruct (withAdapter _ d p1) as [d1|]; [|done]. injection Ec as <- <- <-.
  apply checkStart_fields in Es as (F1 & F2 & F3 & F4 & F5 & F6 & F7).
  assert (Hg : p_Group p ≠ ""%string → is_ok (CheckGroup (p_Group p)) = true).
  { intros Hne. destruct (String.eqb_spec (p_Group p) ""); [done|]. by rewrite Eg. }
  assert (Hboth : ∀ t, p_Test p1 = Some t → p_Attach p1 = None).
  { rewrite F1, F2. intros t Ht. rewrite Ht in E1. by destruct (p_Attach p). }
  assert (Hcl : ∀ k, p_ContainerLaunch p1 = Some k → p_Attach p1 = None ∧ p_Test p1 = None).
  { rewrite F1, F2, F3. intros k Hk. rewrite Hk in E2. by destruct (p_Attach p), (p_Test p). }
  destruct (p_ContainerLaunch p1) as [k|] eqn:Ek; [|destruct (p_Attach p1) as [a|] eqn:Ea; [|destruct (p_Test p1) as [t|] eqn:Et]].
  - destruct (Hcl k eq_refl) as [Ha Ht]. destruct (startContainerLaunch _ _ _ _ _ _ _) as [x|] eqn:Ex; [|done].
    intros [= <- <- <- <-]. split_and!; try done. by eapply startContainerLaunch_planned.
  - destruct (startAttach _ _ _ _ _ _ _ _) as [x|] eqn:Ex; [|done]. intros [= <- <- <- <-]. split_and!; try done.
    by eapply startAttach_planned.
  - destruct (startTest _ _ _ _ _) as [x|] eqn:Ex; [|done]. intros [= <- <- <- <-]. split_and!; try done.
    by eapply startTest_planned.
  - destruct (prepare d1 (p_Launch p1)) as [l|]; [|done]. intros [= <- <- <- <-]. split_and!; try done. by apply pl_launch.
Qed.
End plans.

(** A plan of an attach to a process. *)
Definition no_driver_ability {A} : unit → option A := fun _ => None.
Definition a_launch : Launch :=
  mkLaunch "coreclr" "" "" 0 (fun _ => None) None "netcoredbg" "" true "" None None.
Definition own_process (pid : Z) : proc_answer := if pid =? 7 then Found (mkProcInfo 7 "app" "me" true) else NoProcess.
Definition no_fs : fs := mkFs (fun _ => None) (fun _ => false) (fun _ => Err (invalid "no file")) (fun _ => None) (fun _ _ => false).
Definition attach_params : StartParams :=
  mkStartParams (mkLaunchSpec "" "" [] "" [] false false [] "" "") "dotnet" [] "" false "" (Some (mkAttachSpec 7 None)) None None "" "".

Lemma start_planned_witness :
  ∃ p' l, start_plan {["dotnet"%string := tt]} (fun _ _ => Ok a_launch) no_driver_ability (fun _ => Some (fun _ => Ok a_launch))
            no_driver_ability no_driver_ability no_driver_ability own_process no_fs (fun _ => None) (fun _ => None) attach_params
          = Ok (tt, LeaseFree, p', RunSession l ModeAttach None)
    ∧ la_PID l = 7 ∧ is_ok (ParseExceptionMode (p_Exceptions p')) = true.
Proof.
  eexists _, _. split; [vm_compute; reflexivity|]. split; [reflexivity|].
  eapply (start_planned {["dotnet"%string := tt]} (fun _ _ => Ok a_launch) no_driver_ability (fun _ => Some (fun _ => Ok a_launch))
    no_driver_ability no_driver_ability no_driver_ability own_process no_fs (fun _ => None) (fun _ => None) attach_params).
  vm_compute. reflexivity.
Defined.

(** ** The session an empty id names *)

#[global] Instance string_le_total : Total string_le.
Proof. intros a b. destruct (String.leb_total a b); [by left|by right]. Qed.
#[global] Instance string_le_trans : Transitive string_le.
Proof.
  intros x y z Hx%Is_true_true Hy%Is_true_true. apply Is_true_true. change (String.le x z). by transitivity y.
Qed.
#[global] Instance string_le_antisymm : AntiSymm eq string_le.
Proof. intros x y Hx Hy. by apply String.leb_antisym. Qed.

Lemma sorted_any_order l l' : l ≡ₚ l' → merge_sort string_le l = merge_sort string_le l'.
Proof.
  intros H. apply (StronglySorted_unique string_le); [apply (StronglySorted_merge_sort string_le _)..|].
  by rewrite !merge_sort_Permutation.
Qed.

Definition live_ones (all : list Session) : list Session := List.filter (fun s => negb (exited s)) all.

Lemma live_ones_perm all all' : all ≡ₚ all' → live_ones all ≡ₚ live_ones all'.
Proof.
  induction 1 as [|x l l' _ IH|x y l|l1 l2 l3 _ IH1 _ IH2]; unfold live_ones in *; cbn [List.filter]; [done| | |by etrans].
  - destruct (negb _); [by constructor|done].
  - destruct (negb (exited x)), (negb (exited y)); try done. apply Permutation_swap.
Qed.

(** The session an empty id names is the only one that has not exited, else
    the only one there is; and neither which session, nor the error that
    names them otherwise, depends on the order the map lists them in. *)
Theorem only_spec all :
  (∀ s, only all = Ok s ↔ live_ones all = [s] ∨ all = [s])
  ∧ ∀ all', all ≡ₚ all' → only all = only all'.
Proof.
  assert (H2 : ∀ s, all = [s] → ∀ x, live_ones all = [x] → x = s).
  { intros s -> x. unfold live_ones. cbn. destruct (negb (exited s)); [by intros [= ->]|done]. }
  split.
  - intros s. unfold only. fold (live_ones all). destruct all as [|a [|b more]] eqn:Ea.
    + split; [done|]. by intros [?|?].
    + assert (Hl : live_ones [a] = [a] ∨ live_ones [a] = []) by (unfold live_ones; cbn; destruct (negb (exited a)); auto).
      destruct Hl as [-> | ->]; split; try (intros [= <-]); naive_solver.
    + destruct (live_ones (a :: b :: more)) as [|x [|y l]] eqn:El; split; try done; try (by intros [?|?]); naive_solver.
  - intros all' Hp. pose proof (live_ones_perm _ _ Hp) as Hl. unfold only. fold (live_ones all) (live_ones all').
    destruct all as [|a [|b more]].
    + apply Permutation_nil_l in Hp as <-. done.
    + apply Permutation_singleton_l in Hp as <-. done.
    + pose proof (Permutation_length Hp) as Hlen. destruct all' as [|a' [|b' all']]; try done.
      destruct (live_ones (a :: b :: more)) as [|x [|y l]] eqn:E1.
      * apply Permutation_nil_l in Hl as <-. do 2 f_equal. f_equal. f_equal. apply sorted_any_order. by apply Permutation_map.
      * apply Permutation_singleton_l in Hl as <-. done.
      * pose proof (Permutation_length Hl) as Hll. destruct (live_ones (a' :: b' :: all')) as [|x' [|y' l']]; try done.
        do 4 f_equal. apply sorted_any_order. by apply Permutation_map.
Qed.
