(* ===== verification/Invariant.v ===== *)
(** * The session's invariant, and what every operation keeps

    [wf] is what holds of a session's state between critical sections, [ev]
    how a state may evolve: nothing that was given out (an id, an event, a
    stop's number) is taken back. [good] says of a critical section that it
    moves along [ev] and keeps [wf]; [guarded] says so of every critical
    section of a handler, whatever runs between them. *)

From S2P Require Import Prelude GoStrings Api EventLog Prog Session Lease Present Slots Adapter Inspect Emulate.
From S2P Require Import Breakpoints Replace Exceptions Presence Exec Evalset Forward Snapshot Start TestRun.
From Stdlib Require Import Bool.

Open Scope Z_scope.

(** ** The invariant *)

(** A key's list: breakpoints of that file, each once. *)
Definition wf_list (s : Session) (k : string) (l : list Z) : Prop :=
  l ≠ [] ∧ List.NoDup l ∧ ∀ a, In a l → ∃ b, heap s !! a = Some b ∧ b_File (bp b) = k.

(** The captures are of this and of an earlier stop. *)
Definition wf_capture (s : Session) : Prop :=
  match cur s with
  | None => prev s = None
  | Some c => sc_stops c ≤ stops s ∧ ∀ p, prev s = Some p → sc_stops p < sc_stops c
  end.

Record wf (s : Session) : Prop := {
  wf_store : ∀ k l, bps s !! k = Some l → wf_list s k l;
  wf_ids : ∀ a b, heap s !! a = Some b → b_ID (bp b) = a ∧ 1 ≤ a ≤ nextBP s;
  wf_next : 0 ≤ nextBP s;
  wf_events : ∃ h, refines h (s_log s);
  wf_requests : wf_lease (s_lease s);
  wf_captures : wf_capture s;
  wf_excs : wf_modes (excModes s) }.

Lemma newSession_wf cf policy pid ct now : wf (newSession cf policy pid ct now).
Proof.
  split; cbn.
  - intros k l. by rewrite lookup_empty.
  - intros a b. by rewrite lookup_empty.
  - done.
  - exists []. apply refines_new.
  - split; cbn; [constructor|unfold maxLeaseRequests; lia|tauto|done].
  - done.
  - split; [constructor|done].
Qed.

(** What of a breakpoint never changes. *)
Definition ident (b : breakpoint) : Z * string * Z * string * string * Z :=
  (b_ID (bp b), b_File (bp b), b_RequestedLine (bp b), b_Function (bp b), b_Owner (bp b), b_CreatedAt (bp b)).

(** How a session may evolve. *)
Record ev (s s' : Session) : Prop := {
  ev_conf : fixed (conf s') = fixed (conf s);
  ev_next : nextBP s ≤ nextBP s';
  ev_heap : ∀ a b, heap s !! a = Some b → ∃ b', heap s' !! a = Some b' ∧ ident b' = ident b;
  ev_log : ∀ h, refines h (s_log s) → ∃ es, refines (h ++ es) (s_log s');
  ev_stops : stops s ≤ stops s';
  ev_gen : stopGen s ≤ stopGen s';
  ev_init : initialized s = true → initialized s' = true;
  ev_ended : ended s = true → ended s' = true }.

#[global] Instance ev_preorder : PreOrder ev.
Proof.
  split.
  - intros s. split; try done; [intros a b ->; by exists b|intros h Hh; exists []; by rewrite app_nil_r].
  - intros s1 s2 s3 [] []. split; try (etrans; eassumption); try congruence; auto.
    + intros a b (b' & Hb' & Hi)%ev_heap0. destruct (ev_heap1 _ _ Hb') as (b'' & Hb'' & Hi').
      exists b''. split; [done|congruence].
    + intros h (es & Hes)%ev_log0. destruct (ev_log1 _ Hes) as (es' & Hes'). exists (es ++ es'). by rewrite app_assoc.
Qed.

Definition good (s s' : Session) : Prop := wf s → ev s s' ∧ wf s'.
#[global] Instance good_preorder : PreOrder good.
Proof.
  split; [by intros s; split|]. intros s1 s2 s3 H1 H2 W. destruct (H1 W) as [? W2]. destruct (H2 W2).
  split; [by etrans|done].
Qed.

Create HintDb good discriminated.

Lemma good_refl s : good s s.
Proof. reflexivity. Qed.
#[export] Hint Resolve good_refl : good.

(** ** Critical sections' building blocks *)

(** Nothing the invariant looks at changes. *)
Lemma good_same s s' :
  fixed (conf s') = fixed (conf s) → nextBP s' = nextBP s → heap s' = heap s → bps s' = bps s → s_log s' = s_log s →
  s_lease s' = s_lease s → stops s' = stops s → stopGen s ≤ stopGen s' → cur s' = cur s → prev s' = prev s →
  excModes s' = excModes s → (initialized s = true → initialized s' = true) → (ended s = true → ended s' = true) →
  good s s'.
Proof.
  intros H1 H2 H3 H4 H5 H6 H7 H8 H9 H10 H11 H12 H13 W. split.
  - split; try done; [lia|rewrite H3; by eauto|rewrite H5; intros h Hh; exists []; by rewrite app_nil_r|lia].
  - destruct W as [W1 W2 W3 W4 W5 W6 W7]. unfold wf_list, wf_capture in *. split; unfold wf_list, wf_capture;
      rewrite ?H2, ?H3, ?H4, ?H5, ?H6, ?H7, ?H9, ?H10, ?H11; done.
Qed.
Ltac good_same := apply good_same; try reflexivity; try done; cbn; try lia.

Lemma good_logEvent now e s : good s (logEvent now e s).
Proof.
  intros W. split.
  - split; try done; [by eauto|]. intros h Hh.
    destruct (append_spec now e (s_log s) h Hh) as (_ & Hr & _). eexists. exact Hr.
  - destruct W as [W1 W2 W3 [h Hh] W5 W6 W7]. split; try done.
    destruct (append_spec now e (s_log s) h Hh) as (_ & Hr & _). eexists. exact Hr.
Qed.

Lemma good_log s l : (∃ now e, l = (append now e (s_log s)).2) → good s (s <| s_log := l |>).
Proof. intros (now & e & ->). apply good_logEvent. Qed.

Lemma good_bump s : good s (bump s).
Proof. good_same. Qed.

Lemma good_setState st s : good s (setStateLocked st s).
Proof. good_same. Qed.

Definition keeps_ident (f : breakpoint → breakpoint) : Prop := ∀ b, ident (f b) = ident b.

Lemma good_set_bp a f s : keeps_ident f → good s (set_bp a f s).
Proof.
  intros Hf. assert (Hl : ∀ k b, alter f a (heap s) !! k = Some b →
    ∃ b0, heap s !! k = Some b0 ∧ ident b = ident b0).
  { intros k b. rewrite lookup_alter. case_decide as E; [|by eauto]. subst k.
    destruct (heap s !! a) as [b0|]; [|done]. intros [= <-]. exists b0. by split. }
  assert (Hr : ∀ k b, heap s !! k = Some b → ∃ b', alter f a (heap s) !! k = Some b' ∧ ident b' = ident b).
  { intros k b H. rewrite lookup_alter. case_decide as E; [|by eauto]. subst k. rewrite H. by eexists. }
  intros W. split.
  - split; try done. intros h Hh. exists []. by rewrite app_nil_r.
  - destruct W as [W1 W2 W3 W4 W5 W6 W7]. split; try done.
    + intros k l Hk. destruct (W1 k l Hk) as (H1 & H2 & H3). split_and!; [done|done|].
      intros x Hx. destruct (H3 x Hx) as (b & Hb & Hbk). destruct (Hr _ _ Hb) as (b' & Hb' & Hi).
      exists b'. split; [done|]. unfold ident in Hi. congruence.
    + intros k b (b0 & Hb0 & Hi)%Hl. apply W2 in Hb0. unfold ident in Hi. destruct Hb0. split; [congruence|done].
Qed.

Lemma good_set_bps l f s : keeps_ident f → good s (set_bps l f s).
Proof.
  intros Hf. revert s. unfold set_bps. induction l as [|a l IH]; intros s; cbn [fold_left]; [apply good_refl|].
  etrans; [by apply good_set_bp|apply IH].
Qed.

Lemma good_setEmulated spec : keeps_ident (setEmulated spec).
Proof. intros b. unfold setEmulated. by destruct (match parseEmulated spec with Ok hl => hl | Err _ => (None, []) end). Qed.

Lemma ident_new now id owner spec : ident (new_breakpoint now id owner spec)
  = (id, sp_File spec, sp_Line spec, sp_Function spec, owner, now).
Proof. unfold new_breakpoint. by rewrite good_setEmulated. Qed.

(** Lists made smaller. *)
Lemma good_bps s m :
  (∀ k l', m !! k = Some l' → ∃ l, bps s !! k = Some l ∧ l' ≠ [] ∧ List.NoDup l' ∧ ∀ a, In a l' → In a l) ∨
  (wf s → ∀ k l', m !! k = Some l' → wf_list s k l') →
  good s (s <| bps := m |>).
Proof.
  intros H W. split; [split; try done; [by eauto|intros h Hh; exists []; by rewrite app_nil_r]|].
  pose proof W as [W1 W2 W3 W4 W5 W6 W7]. split; try done. cbn. intros k l' Hk.
  destruct H as [H|H]; [|by apply (H W)].
  destruct (H k l' Hk) as (l & Hl & Hne & Hnd & Hin). destruct (W1 k l Hl) as (_ & _ & H3). split_and!; [done|done|].
  intros a Ha. apply H3, Hin, Ha.
Qed.

Lemma list_of_wf s k : wf s → List.NoDup (list_of s k) ∧ ∀ a, In a (list_of s k) → ∃ b, heap s !! a = Some b ∧ b_File (bp b) = k.
Proof.
  intros W. unfold list_of. destruct (bps s !! k) as [l|] eqn:E; cbn; [|split; [constructor|by intros a []]].
  by destruct (wf_store s W k l E) as (_ & ? & ?).
Qed.

Lemma good_addNew now owner spec s : good s (addNewLocked now owner spec s).2.
Proof.
  intros W. pose proof W as [W1 W2 W3 W4 W5 W6 W7]. unfold addNewLocked. cbn [snd].
  set (id := nextBP s + 1). set (b := new_breakpoint now id owner spec).
  assert (Hfresh : heap s !! id = None).
  { destruct (heap s !! id) as [b0|] eqn:E; [|done]. apply W2 in E. unfold id in E. lia. }
  pose proof (ident_new now id owner spec) as Hid. fold b in Hid. unfold ident in Hid. injection Hid as Hb1 Hb2 _ _ _ _.
  assert (Hold : ∀ a b0, heap s !! a = Some b0 → <[id := b]> (heap s) !! a = Some b0).
  { intros a b0 Ha. rewrite lookup_insert_ne; [done|]. intros ->. congruence. }
  split.
  - split; try done; cbn; [lia|eauto|intros h Hh; exists []; by rewrite app_nil_r].
  - split; try done; cbn.
    + intros k l. destruct (list_of_wf s (sp_File spec) W) as [Hnd Hin].
      intros [[<- <-]|[Hne Hk]]%lookup_insert_Some.
      * split_and!; [by destruct (list_of s (sp_File spec))| |].
        -- apply List.NoDup_app; [done|repeat constructor; by intros []|].
           intros x Hx [<-|[]]. destruct (Hin _ Hx) as (b0 & Hb0 & _). congruence.
        -- intros a [Ha|[<-|[]]]%List.in_app_iff; cbn.
           ++ destruct (Hin _ Ha) as (b0 & Hb0 & Hf). exists b0. split; [by apply Hold|done].
           ++ exists b. split; [apply lookup_insert_eq|done].
      * destruct (W1 _ _ Hk) as (H1 & H2 & H3). split_and!; [done|done|]. intros a Ha.
        destruct (H3 a Ha) as (b0 & Hb0 & Hf). exists b0. cbn. split; [by apply Hold|done].
    + intros a b0 [[<- <-]|[Hne Ha]]%lookup_insert_Some; [split; [done|unfold id; lia]|].
      apply W2 in Ha as [? ?]. split; [done|lia].
    + lia.
Qed.
#[export] Hint Resolve good_logEvent good_bump good_setState good_set_bp good_set_bps good_setEmulated good_addNew : good.

(** ** Clients and the lease *)

Lemma good_touch now c s : good s (touchLocked now c s).
Proof.
  unfold touchLocked. destruct (touch_go _ _ _); [good_same|].
  etrans; [|apply good_logEvent]. good_same.
Qed.

Lemma good_lease f s :
  (wf_lease (s_lease s) → wf_lease (f (s_lease s))) → good s (s <| s_lease ::= f |>).
Proof.
  intros H W. split; [split; try done; [by eauto|intros h Hh; exists []; by rewrite app_nil_r]|].
  destruct W as [W1 W2 W3 W4 W5 W6 W7]. split; try done. by apply H.
Qed.

Lemma good_setHolder now holder actor action reason s : good s (setHolderLocked now holder actor action reason s).
Proof.
  unfold setHolderLocked. etrans; [|apply good_logEvent]. apply good_lease. auto with eyedbg.
Qed.

Lemma good_dropRequest id s : good s (dropRequestLocked id s).
Proof. apply good_lease. auto with eyedbg. Qed.
#[export] Hint Resolve good_touch good_setHolder good_dropRequest : good.

Lemma good_acquire now c s : good s (acquireLocked now c s).2.
Proof. unfold acquireLocked. repeat case_match; cbn [fst snd]; auto with good. Qed.

Lemma good_lease_step now c op s : good s (lease_step now c op s).
Proof.
  destruct op as [f| |to f|p f|m| |]; cbn [lease_step].
  - unfold TakeLease. repeat case_match; cbn [fst snd]; auto with good.
  - unfold ReleaseLease. cbn [snd]. case_match; auto with good.
  - unfold GrantLease. repeat case_match; cbn [fst snd]; auto with good.
  - unfold SetLeasePolicy. repeat case_match; cbn [fst snd]; auto with good. cbn [snd].
    etrans; [|apply good_logEvent]. apply good_lease. auto with eyedbg.
  - intros W. pose proof (wf_lease_step now c (OpRequest m) s (wf_requests _ W)) as Hw.
    cbn [lease_step] in Hw. revert W. change (good s (RequestLease now c m s).2). revert Hw.
    unfold RequestLease. repeat (case_match; [intros _; apply good_refl|]). cbn [snd]. intros Hw.
    etrans; [|apply good_logEvent]. apply good_lease. intros _. exact Hw.
  - apply good_acquire.
  - apply good_dropRequest.
Qed.
#[export] Hint Resolve good_acquire good_lease_step : good.

Lemma good_connect now c s : good s (connectLocked now c s).
Proof.
  unfold connectLocked. etrans; [apply (good_touch now c)|].
  case_match; [etrans; [|apply good_logEvent]|]; good_same.
Qed.

Lemma good_exceptionsSet c hasLeft mode s : good s (exceptionsSetLocked c hasLeft mode s).
Proof. unfold exceptionsSetLocked. repeat case_match; good_same. Qed.

Lemma good_decrement now c hasLeft done s : good s (decrementLocked now c hasLeft done s).2.
Proof.
  unfold decrementLocked. destruct hasLeft; [apply good_refl|]. destruct (presences s !! c_ID c) as [e|]; [|apply good_refl].
  cbv zeta. set (s1 := s <| presences ::= _ |>). assert (H1 : good s s1) by good_same. clearbody s1.
  set (s2 := if live s1 then _ else s1).
  assert (H2 : good s s2) by (etrans; [exact H1|]; unfold s2; case_match; [apply good_logEvent|apply good_refl]).
  clearbody s2. repeat case_match; cbn [snd]; try done. etrans; [exact H2|]. good_same.
Qed.

Lemma good_leave_lease now c gen s : good s (leave_lease now c gen s).
Proof.
  unfold leave_lease. case_match; [apply good_refl|].
  etrans; [apply (good_dropRequest (c_ID c))|]. case_match; [|good_same].
  etrans; [apply (good_setHolder now noClient (c_ID c) "release" "disconnected")|]. good_same.
Qed.
#[export] Hint Resolve good_connect good_exceptionsSet good_decrement good_leave_lease : good.

(** ** Breakpoints *)

Lemma good_logBreakpoint now action actor a s : good s (logBreakpointLocked now action actor a s).
Proof. apply good_logEvent. Qed.
#[export] Hint Resolve good_logBreakpoint : good.

Lemma good_fold {A} (f : Session → A → Session) l s :
  (∀ s a, good s (f s a)) → good s (fold_left f l s).
Proof.
  intros H. revert s. induction l as [|a l IH]; intros s; cbn [fold_left]; [apply good_refl|].
  etrans; [apply H|apply IH].
Qed.

Lemma good_logAll now action actor l s : good s (logAllLocked now action actor l s).
Proof. apply good_fold. auto with good. Qed.

Lemma good_respec spec : keeps_ident (respec spec).
Proof. intros b. unfold respec. by rewrite good_setEmulated. Qed.

Lemma good_addBreakpoint now owner spec s : good s (addBreakpointLocked now owner spec s).2.
Proof.
  unfold addBreakpointLocked. destruct (List.find _ _) as [a|]; cbn [snd].
  - apply good_set_bp, good_respec.
  - pose proof (good_addNew now owner spec s) as H. by destruct (addNewLocked now owner spec s).
Qed.

Lemma good_target now c spec s : good s (targetLocked now c spec s).2.
Proof.
  unfold targetLocked. destruct (List.find _ _) as [a|]; cbn [snd]; [apply good_refl|].
  pose proof (good_addNew now (c_ID c) spec s) as H. destruct (addNewLocked now (c_ID c) spec s) as [a s']. cbn [snd] in *.
  etrans; [exact H|]. apply good_set_bp. by intros b.
Qed.
#[export] Hint Resolve good_logAll good_addBreakpoint good_target : good.

Lemma wf_shrunk s k p l : wf_list s k l → delete_func p l ≠ [] → wf_list s k (delete_func p l).
Proof.
  intros (_ & H2 & H3) Hne. split_and!; [done|by apply NoDup_filter_list|].
  intros a [Ha _]%in_delete_func. by apply H3.
Qed.

Lemma not_nil_Some {A} (l l' : list A) : not_nil l = Some l' ↔ l = l' ∧ l ≠ [].
Proof. destruct l; cbn; [naive_solver|]. split; [by intros [= <-]|by intros [-> _]]. Qed.

Lemma good_remove matching s : good s (removeLocked matching s).2.
Proof.
  unfold removeLocked. cbn [snd]. apply good_bps. right. intros W k l'.
  rewrite lookup_omap. destruct (bps s !! k) as [l|] eqn:E; [|done]. cbn.
  intros [<- Hne]%not_nil_Some. apply wf_shrunk; [|done]. by apply (wf_store _ W).
Qed.

Lemma ident_apply_update got : keeps_ident (apply_update got).
Proof. intros b. unfold apply_update. repeat case_match; done. Qed.

Lemma ident_apply_answer note g : keeps_ident (apply_answer note g).
Proof. intros b. unfold apply_answer. repeat case_match; done. Qed.
#[export] Hint Resolve good_respec good_remove ident_apply_update ident_apply_answer : good.

Lemma good_update now got s : good s (updateBreakpointLocked now got s).
Proof.
  unfold updateBreakpointLocked. case_match; [apply good_refl|]. etrans; [|apply good_logAll]. auto with good.
Qed.

Lemma good_applySlots slots got s : good s (applySlotsLocked slots got s).
Proof.
  revert slots s. induction got as [|g got IH]; intros [|sl slots] s; try apply good_refl. cbn [applySlotsLocked].
  etrans; [|apply IH]. auto with good.
Qed.

Lemma good_add_checked now c spec s : good s (add_checked now c spec s).2.
Proof.
  unfold add_checked. repeat case_match; cbn [snd]; auto with good.
  match goal with H : addBreakpointLocked now (c_ID c) spec s = (_, ?s') |- _ =>
    pose proof (good_addBreakpoint now (c_ID c) spec s) as Hg; by rewrite H in Hg end.
Qed.

Lemma good_added_event now actor a isNew changed s : good s (added_event now actor a isNew changed s).
Proof. unfold added_event. repeat case_match; auto with good. Qed.

(** ** Replacing *)

Lemma good_update_spec spec : keeps_ident (update spec).
Proof. intros b. unfold update. case_match; [done|]. by rewrite good_setEmulated. Qed.

Lemma good_mark_editor a s : good s (mark_editor a s).
Proof. apply good_set_bp. by intros b. Qed.
#[export] Hint Resolve good_update good_applySlots good_add_checked good_added_event good_update_spec good_mark_editor : good.

Lemma good_match_pass same items old s : good s (match_pass same items old s).2.
Proof.
  revert old s. induction items as [|it items IH]; intros old s; [apply good_refl|]. cbn [match_pass].
  set (step := match it_refused it with Some _ => _ | None => _ end).
  assert (Hs : good s step.2) by (unfold step; repeat case_match; cbn [snd]; auto with good).
  destruct step as [[it' old'] s']. cbn [snd] in Hs. specialize (IH old' s').
  destruct (match_pass same items old' s') as [[items' old''] s'']. cbn [snd] in *. by etrans.
Qed.

Lemma good_matchItems old items s : good s (matchItems old items s).2.
Proof.
  unfold matchItems. pose proof (good_match_pass byRequested items (map Some old) s) as H1.
  destruct (match_pass byRequested _ _ _) as [[items1 o1] s1]. pose proof (good_match_pass byPlaced items1 o1 s1) as H2.
  destruct (match_pass byPlaced _ _ _) as [[items2 o2] s2]. cbn [snd] in *. by etrans.
Qed.

Lemma good_drop_from key gone s : good s (drop_from key gone s).
Proof.
  unfold drop_from. destruct gone as [|g gone]; [apply good_refl|]. case_match eqn:E.
  - apply not_nil_Some in E as [<- Hne]. apply good_bps. right. intros W k l.
    intros [[<- <-]|[_ Hk]]%lookup_insert_Some; [|by apply (wf_store _ W)].
    apply wf_shrunk; [|done]. unfold list_of in *. destruct (bps s !! key) as [l|] eqn:El; [|done].
    by apply (wf_store _ W).
  - apply good_bps. right. intros W k l [_ Hk]%lookup_delete_Some. by apply (wf_store _ W).
Qed.

Lemma good_place_items now owner items s : good s (place_items now owner items s).2.
Proof.
  revert s. induction items as [|it items IH]; intros s; [apply good_refl|]. cbn [place_items].
  set (step := match it_refused it with Some _ => _ | None => _ end).
  assert (Hs : good s step.2).
  { unfold step. repeat case_match; cbn [snd]; auto with good.
    pose proof (good_addNew now owner (it_spec it) s) as Hn.
    destruct (addNewLocked now owner (it_spec it) s) as [a s']. cbn [snd] in *. simplify_eq.
    etrans; [exact Hn|apply good_mark_editor]. }
  destruct step as [it' s']. cbn [snd] in Hs. specialize (IH s').
  destruct (place_items now owner items s') as [items' s'']. cbn [snd] in *. by etrans.
Qed.

Lemma good_matchLocked now owner key items keep s : good s (matchLocked now owner key items keep s).2.
Proof.
  unfold matchLocked. cbv zeta. set (old := List.filter _ _). pose proof (good_matchItems old items s) as H1.
  destruct (matchItems old items s) as [[items1 rest] s1]. cbn [snd] in H1.
  set (gone := delete_func _ rest). pose proof (good_drop_from key gone s1) as H2.
  pose proof (good_place_items now owner items1 (drop_from key gone s1)) as H3.
  destruct (place_items _ _ _ _) as [items2 s2]. cbn [snd] in *. do 2 (etrans; [eassumption|]). done.
Qed.

Lemma good_replace_matched now c key items keep s : good s (replace_matched now c key items keep s).2.
Proof.
  unfold replace_matched. case_match; [apply good_refl|].
  pose proof (good_matchLocked now (c_ID c) key (refuseLocked s items) keep s) as H1.
  by destruct (matchLocked _ _ _ _ _ _) as [[? ?] ?].
Qed.

Lemma good_replace_events now actor gone items s : good s (replace_events now actor gone items s).
Proof.
  unfold replace_events. etrans; [apply good_logAll|]. apply good_fold. intros s' it. unfold item_event.
  case_match; auto with good.
Qed.
#[export] Hint Resolve good_replace_matched good_replace_events : good.

(** ** Stops, output and the adapter's events *)

Lemma good_applyStop now st s : good s (applyStopLocked now st s).
Proof.
  unfold applyStopLocked. etrans; [|apply good_logEvent]. etrans; [|apply good_setState].
  intros W. split; [split; try done; [by eauto|intros h Hh; exists []; by rewrite app_nil_r|cbn; lia]|].
  destruct W as [W1 W2 W3 W4 W5 W6 W7]. split; try done. unfold wf_capture in *. cbn.
  destruct (cur s); [|done]. destruct W6. split; [lia|done].
Qed.

Lemma good_appendOutput now category text s : good s (appendOutputLocked now category text s).
Proof.
  unfold appendOutputLocked. case_match; [apply good_refl|]. cbv zeta.
  set (e := (event EventOutput) <| ev_Category := _ |> <| ev_Text := _ |> <| ev_Truncated := _ |>). clearbody e.
  destruct (append now e (s_log s)) as [e' l] eqn:E. etrans.
  - apply (good_log s l). exists now, e. by rewrite E.
  - good_same.
Qed.
#[export] Hint Resolve good_applyStop good_appendOutput : good.

Lemma good_publishLocked now gen st desc s : good s (publishLocked now gen st desc s).
Proof. unfold publishLocked. repeat case_match; auto with good. Qed.

Lemma good_settle now d messages st s : good s (settleLocked now d messages st s).2.
Proof.
  unfold settleLocked. cbv zeta. cbn [snd]. etrans; [|apply good_fold; auto with good].
  apply good_set_bps. by intros b.
Qed.

Lemma good_endLocked now reason s : good s (endLocked now reason s).2.
Proof.
  unfold endLocked. case_decide; [apply good_refl|]. cbv zeta. cbn [snd]. etrans; [|apply good_logEvent].
  etrans; [|apply good_setState]. good_same.
Qed.

Lemma good_setStopGen s : good s (s <| stopGen ::= Z.succ |>).
Proof. good_same. Qed.

Lemma good_onStopped now st s : good s (onStoppedLocked now st s).2.
Proof.
  unfold onStoppedLocked. etrans; [apply good_setStopGen|]. repeat case_match; cbn [snd]; auto with good.
Qed.

Lemma good_onContinued now thread s : good s (onContinuedLocked now thread s).
Proof.
  unfold onContinuedLocked. etrans; [apply good_setStopGen|]. repeat case_match; auto with good.
  etrans; [|apply good_logEvent]. auto with good.
Qed.

Lemma good_onExited now code s : good s (onExitedLocked now code s).
Proof.
  unfold onExitedLocked, hostExitedLocked. repeat case_match; auto with good.
  all: etrans; [|apply good_logEvent]; etrans; [|apply good_bump]; good_same.
Qed.
#[export] Hint Resolve good_publishLocked good_settle good_endLocked good_onStopped good_onContinued good_onExited : good.

Lemma good_onEvent now e s : good s (onEventLocked now e s).2.
Proof.
  unfold onEventLocked. repeat case_match; cbn [snd]; auto with good; good_same.
Qed.

(** ** Execution and configuration *)

Lemma good_admit now r pt s : good s (admitLocked now r pt s).2.
Proof.
  unfold admitLocked. destruct (_ && _); [apply good_refl|]. destruct (admit_state r s); [|apply good_refl].
  pose proof (good_acquire now (x_client r) s) as H. destruct (acquireLocked now (x_client r) s) as [[?|?] s']; cbn [snd] in *; [|done].
  cbv zeta. cbn [snd]. etrans; [exact H|]. apply good_logEvent.
Qed.

Lemma good_sending k s : good s (sendingLocked k s).
Proof. unfold sendingLocked. case_match; good_same. Qed.

Lemma good_sent k before ok s : good s (sentLocked k before ok s).
Proof. unfold sentLocked. repeat case_match; try (etrans; [|apply good_setState]); good_same. Qed.

Lemma good_keepCapture c s : good s (keepCapture c s).2.
Proof.
  unfold keepCapture. destruct (stops s =? sc_stops c) eqn:E; cbn [negb]; [|apply good_refl]. apply Z.eqb_eq in E.
  intros W. split.
  - case_match; split; try done; try (by eauto); intros h Hh; exists []; by rewrite app_nil_r.
  - pose proof W as [W1 W2 W3 W4 W5 W6 W7]. unfold wf_capture in W6.
    set (moved := match cur s with Some _ => _ | None => true end).
    assert (Hc : wf_capture ((if moved then s <| prev := cur s |> else s) <| cur := Some c |> <| curStale := false |>)).
    { unfold wf_capture, moved. destruct (cur s) as [old|]; cbn.
      - destruct W6 as [Ho Hp]. destruct (Z.eqb_spec (sc_stops old) (sc_stops c)) as [Eo|Eo]; cbn; (split; [lia|]).
        + intros p Hpp. apply Hp in Hpp. lia.
        + intros p [= <-]. lia.
      - split; [lia|done]. }
    clearbody moved. split; try done; by destruct moved.
Qed.

Lemma good_config_bps now specs s added : good s (config_bps now specs s added).2.
Proof.
  revert s added. induction specs as [|spec specs IH]; intros s added; cbn [config_bps]; [apply good_refl|].
  destruct (checkBreakpointCapsLocked spec s); [|apply good_refl].
  destruct (checkMapped _ spec); [|apply good_refl].
  pose proof (good_addBreakpoint now (c_ID (cf_starter (conf s))) spec s) as H.
  destruct (addBreakpointLocked _ _ _ _) as [[[? ?] ?] s']. cbn [snd] in H. etrans; [exact H|apply IH].
Qed.

Lemma good_config_section now specs s : good s (config_section now specs s).2.
Proof.
  unfold config_section. pose proof (good_config_bps now specs s []) as H.
  by destruct (config_bps now specs s []).
Qed.
#[export] Hint Resolve good_onEvent good_admit good_sending good_sent good_keepCapture good_config_section : good.

Lemma good_setCaps c s : good s (setCaps c s).
Proof. unfold setCaps. etrans; [|apply good_bump]. good_same. Qed.
Lemma good_started s : good s (startedLocked s).
Proof. unfold startedLocked. case_match; auto with good. Qed.
Lemma good_markStopping by_ reason s : good s (markStopping by_ reason s).2.
Proof. unfold markStopping. cbn [snd]. case_match; good_same. Qed.
Lemma good_shutdown s : good s (shutdown_once s).2.
Proof. unfold shutdown_once. case_match; cbn [snd]; good_same. Qed.
Lemma good_terminate_lease now c s : good s (terminate_lease now c s).2.
Proof.
  unfold terminate_lease. case_match; [|apply good_refl].
  pose proof (good_acquire now c s) as H1. by destruct (acquireLocked now c s).
Qed.
Lemma good_keep_exception n info s : good s (keep_exception n info s).
Proof. unfold keep_exception. case_match; good_same. Qed.
Lemma good_stale s : good s (s <| curStale := true |>).
Proof. good_same. Qed.
Lemma good_execInFlight b s : good s (s <| execInFlight := b |>).
Proof. good_same. Qed.
#[export] Hint Resolve good_setCaps good_started good_markStopping good_shutdown good_terminate_lease
  good_keep_exception good_stale good_execInFlight : good.

Lemma good_set_modes now c mode force modes s : wf_modes modes → good s (set_modes now c mode force modes s).
Proof.
  intros Hm. unfold set_modes. etrans; [|apply good_logEvent].
  intros W. split; [split; try done; [by eauto|intros h Hh; exists []; by rewrite app_nil_r]|].
  destruct W as [W1 W2 W3 W4 W5 W6 W7]. by split.
Qed.

(** ** Handlers *)

(** Every critical section of the handler is good, whatever other threads do
    between them and whatever the adapter answers. *)
Definition guarded {A} (p : handler A) : Prop := ∀ s, safe wf ev p (fun _ _ => True) s.

Create HintDb guarded discriminated.

Lemma guarded_ret {A} (a : A) : guarded (ret a).
Proof. done. Qed.

Lemma guarded_bind {A B} (p : handler A) (k : A → handler B) :
  guarded p → (∀ a, guarded (k a)) → guarded (pbind p k).
Proof. intros Hp Hk s. apply (safe_bind wf ev p k (fun _ _ => True)); [apply Hp|]. intros a s' _. apply Hk. Qed.

Lemma guarded_atomically {A} (f : Session → A * Session) : (∀ s, good s (f s).2) → guarded (atomically f).
Proof. intros H s s' _ W. destruct (H s' W) as [? ?]. by split_and!. Qed.

Lemma guarded_read {A} (f : Session → A) : guarded (atomically (fun s => (f s, s))).
Proof. apply guarded_atomically. intros s. apply good_refl. Qed.

Lemma guarded_send q : guarded (send q : handler answer).
Proof. done. Qed.

Lemma guarded_with_lock {A} m (p : handler A) : guarded p → guarded (with_lock m p).
Proof.
  intros Hp s s' _. apply (safe_bind wf ev p _ (fun _ _ => True)); [apply Hp|]. by intros a s'' _ s3 _.
Qed.
#[export] Hint Resolve guarded_ret guarded_read guarded_send : guarded.

(** One step into a handler; what is left is a named handler or a section. *)
Ltac guarded_step :=
  first
    [ solve [auto with guarded]
    | apply guarded_with_lock
    | apply guarded_bind; [|intros ?]
    | apply guarded_atomically; intros ?; cbv zeta; cbn [fst snd];
        solve [auto with good | repeat case_match; cbn [fst snd]; auto with good]
    | match goal with |- guarded (match ?x with _ => _ end) => destruct x end ].
Ltac guarded_go := repeat guarded_step.

Lemma guarded_stack thread levels : guarded (stack thread levels).
Proof. unfold stack. guarded_go. Qed.
Lemma guarded_evalBody fid e ctx : guarded (evalBody fid e ctx).
Proof. unfold evalBody. guarded_go. Qed.
#[export] Hint Resolve guarded_stack guarded_evalBody : guarded.
Lemma guarded_evalRaw fid e : guarded (evalRaw fid e).
Proof. unfold evalRaw. guarded_go. Qed.
Lemma guarded_sendExec k thread : guarded (sendExec k thread).
Proof. unfold sendExec. guarded_go. Qed.
#[export] Hint Resolve guarded_evalRaw guarded_sendExec : guarded.

(** *** Inspection *)

Lemma guarded_each {A B} (f : A → handler (result B)) l : (∀ a, guarded (f a)) → guarded (each f l).
Proof. intros Hf. induction l as [|a l IH]; cbn [each]; guarded_go. Qed.

Lemma guarded_scopes fid : guarded (scopes fid).
Proof. unfold scopes. guarded_go. Qed.
Lemma guarded_children ref : guarded (children ref).
Proof. unfold children. guarded_go. Qed.
#[export] Hint Resolve guarded_scopes guarded_children : guarded.

Lemma guarded_variables depth ref : guarded (variables depth ref).
Proof.
  revert ref. induction depth as [|depth IH]; intros ref; cbn [variables]; guarded_go;
    (apply guarded_each; intros v; guarded_go).
Qed.
#[export] Hint Resolve guarded_variables : guarded.

Lemma guarded_frameLocals fid : guarded (frameLocals fid).
Proof. unfold frameLocals. guarded_go. apply guarded_each. auto with guarded. Qed.
Lemma guarded_frameID index : guarded (frameID index).
Proof. unfold frameID. guarded_go. Qed.
#[export] Hint Resolve guarded_frameLocals guarded_frameID : guarded.
Lemma guarded_frame_scopes index : guarded (frame_scopes index).
Proof. unfold frame_scopes. guarded_go. Qed.
Lemma guarded_vars_loop depth room l : guarded (vars_loop depth room l).
Proof. revert room. induction l as [|sc l IH]; intros room; cbn [vars_loop]; guarded_go. Qed.
Lemma guarded_walk_from before candidates segs : guarded (walk_from before candidates segs).
Proof. revert before candidates. induction segs as [|seg segs IH]; intros before candidates; cbn [walk_from]; guarded_go. Qed.
Lemma guarded_sideEffectsOf expr : guarded (sideEffectsOf expr).
Proof. unfold sideEffectsOf. auto with guarded. Qed.
#[export] Hint Resolve guarded_frame_scopes guarded_vars_loop guarded_walk_from guarded_sideEffectsOf : guarded.
Lemma guarded_evaluatePath fid path e : guarded (evaluatePath fid path e).
Proof. unfold evaluatePath. guarded_go. Qed.
Lemma guarded_walk candidates segs : guarded (walk candidates segs).
Proof. apply guarded_walk_from. Qed.
#[export] Hint Resolve guarded_evaluatePath guarded_walk : guarded.

Lemma guarded_Stack thread levels : guarded (Stack thread levels).
Proof. unfold Stack. guarded_go. Qed.
Lemma guarded_Vars frame depth budget : guarded (Vars frame depth budget).
Proof. unfold Vars. guarded_go. Qed.
Lemma guarded_Expand frame path depth budget : guarded (Expand frame path depth budget).
Proof. unfold Expand. guarded_go. all: apply guarded_each; auto with guarded. Qed.
Lemma guarded_capture : guarded capture.
Proof. unfold capture. guarded_go. Qed.
Lemma guarded_markStale : guarded markStale.
Proof. unfold markStale. guarded_go. Qed.
#[export] Hint Resolve guarded_Stack guarded_Vars guarded_Expand guarded_capture guarded_markStale : guarded.
Lemma guarded_Changes budget : guarded (Changes_ budget).
Proof. unfold Changes_. guarded_go. Qed.
Lemma guarded_exceptionInfo n thread : guarded (exceptionInfo n thread).
Proof. unfold exceptionInfo. guarded_go. Qed.
#[export] Hint Resolve guarded_Changes guarded_exceptionInfo : guarded.
Lemma guarded_SnapshotOf f dump : guarded (SnapshotOf f dump).
Proof. unfold SnapshotOf. cbv zeta. guarded_go. Qed.
#[export] Hint Resolve guarded_SnapshotOf : guarded.
Lemma guarded_Wait f n dump : guarded (Wait f n dump).
Proof. unfold Wait. guarded_go. Qed.
#[export] Hint Resolve guarded_Wait : guarded.

(** *** Breakpoints *)

Lemma guarded_record_answer slots ans : guarded (record_answer slots ans).
Proof. unfold record_answer. guarded_go. Qed.
#[export] Hint Resolve guarded_record_answer : guarded.
Lemma guarded_syncFunctions : guarded syncFunctionBreakpoints.
Proof. unfold syncFunctionBreakpoints. guarded_go. Qed.
Lemma guarded_syncBreakpoints file : guarded (syncBreakpoints file).
Proof. unfold syncBreakpoints. guarded_go. Qed.
#[export] Hint Resolve guarded_syncFunctions guarded_syncBreakpoints : guarded.
Lemma guarded_syncKey key : guarded (syncKey key).
Proof. unfold syncKey. guarded_go. Qed.
#[export] Hint Resolve guarded_syncKey : guarded.
Lemma guarded_sync_keys keys : guarded (sync_keys keys).
Proof. induction keys as [|k keys IH]; cbn [sync_keys]; guarded_go. Qed.
#[export] Hint Resolve guarded_sync_keys : guarded.
Lemma guarded_remove now actor matching : guarded (removeBreakpoints now actor matching).
Proof. unfold removeBreakpoints. guarded_go. Qed.
#[export] Hint Resolve guarded_remove : guarded.
Lemma guarded_AddBreakpoint f now c spec : guarded (AddBreakpoint f now c spec).
Proof. unfold AddBreakpoint. guarded_go. Qed.
Lemma guarded_RemoveBreakpoint now c id force : guarded (RemoveBreakpoint now c id force).
Proof. unfold RemoveBreakpoint. guarded_go. Qed.
Lemma guarded_Breakpoints f owner : guarded (Breakpoints f owner).
Proof. unfold Breakpoints. guarded_go. Qed.
Lemma guarded_removeTemporary now actor : guarded (removeTemporary now actor).
Proof. unfold removeTemporary. guarded_go. Qed.
Lemma guarded_placeTarget now c spec : guarded (placeTarget now c spec).
Proof. unfold placeTarget. guarded_go. Qed.
Lemma guarded_replaceResults f items : guarded (replaceResults f items).
Proof. unfold replaceResults. guarded_go. Qed.
#[export] Hint Resolve guarded_AddBreakpoint guarded_RemoveBreakpoint guarded_Breakpoints guarded_removeTemporary
  guarded_placeTarget guarded_replaceResults : guarded.
Lemma guarded_replace f now c key items keep : guarded (replace f now c key items keep).
Proof. unfold replace. guarded_go. Qed.
#[export] Hint Resolve guarded_replace : guarded.
Lemma guarded_ReplaceBreakpoints f now c file specs keep : guarded (ReplaceBreakpoints f now c file specs keep).
Proof. unfold ReplaceBreakpoints. guarded_go. Qed.
Lemma guarded_ReplaceFunctionBreakpoints f now c specs : guarded (ReplaceFunctionBreakpoints f now c specs).
Proof. unfold ReplaceFunctionBreakpoints. guarded_go. Qed.
#[export] Hint Resolve guarded_ReplaceBreakpoints guarded_ReplaceFunctionBreakpoints : guarded.

(** *** The stop filter *)

Lemma guarded_publish now gen st desc : guarded (publish now gen st desc).
Proof. unfold publish. guarded_go. Qed.
Lemma guarded_eval_conditions fid conds results : guarded (eval_conditions fid conds results).
Proof.
  revert results. induction conds as [|c conds IH]; intros results; cbn [eval_conditions]; unfold conditionHolds; guarded_go.
Qed.
#[export] Hint Resolve guarded_publish guarded_eval_conditions : guarded.
Lemma guarded_held fid records : guarded (held fid records).
Proof. unfold held. guarded_go. Qed.
Lemma guarded_render_parts fid parts b : guarded (render_parts fid parts b).
Proof. revert b. induction parts as [|p parts IH]; intros b; cbn [render_parts]; guarded_go. Qed.
#[export] Hint Resolve guarded_held guarded_render_parts : guarded.
Lemma guarded_render_all fid records : guarded (render_all fid records).
Proof. induction records as [|r records IH]; cbn [render_all]; unfold renderLog; guarded_go. Qed.
Lemma guarded_planStop f fr : guarded (planStop f fr).
Proof. unfold planStop. guarded_go. Qed.
Lemma guarded_autoContinue now gen st : guarded (autoContinue now gen st).
Proof.
  unfold autoContinue. apply guarded_bind; [|intros go; guarded_go].
  apply guarded_atomically. intros s. case_match; cbn [snd]; auto with good.
Qed.
#[export] Hint Resolve guarded_render_all guarded_planStop guarded_autoContinue : guarded.
Lemma guarded_filterStop f now gen st : guarded (filterStop f now gen st).
Proof. unfold filterStop. cbv zeta. guarded_go. Qed.
#[export] Hint Resolve guarded_filterStop : guarded.

(** *** Exception modes *)

Lemma guarded_sendFilters filters : guarded (sendFilters filters).
Proof. unfold sendFilters. guarded_go. Qed.
#[export] Hint Resolve guarded_sendFilters : guarded.
Lemma guarded_configureExceptions : guarded configureExceptions.
Proof. unfold configureExceptions. guarded_go. Qed.

(** The modes that are stored were made of the session's own. *)
Definition checked_modes (r : result (ExceptionsResult + list ClientExceptionMode * list string)) (_ : Session) : Prop :=
  match r with Ok (inr (modes, _)) => wf_modes modes | _ => True end.

Lemma set_mode_checked_wf c mode force guard s : wf s → checked_modes (set_mode_checked c mode force guard s) s.
Proof.
  intros W. unfold set_mode_checked. case_decide; [done|]. case_match; [done|].
  destruct (checkFiltersLocked _ _); [|done]. cbn. apply withMode_ok. apply W.
Qed.

Lemma guarded_setExceptionMode now c mode force guard : guarded (setExceptionMode now c mode force guard).
Proof.
  unfold setExceptionMode. apply guarded_with_lock. intros s0.
  apply (safe_bind wf ev _ _ checked_modes).
  - intros s _ W. split_and!; [done|done|]. by apply set_mode_checked_wf.
  - intros r s Hr. destruct r as [[r|[modes filters]]|e]; [done| |done].
    apply (safe_bind wf ev _ _ (fun _ _ => True)); [apply guarded_sendFilters|].
    intros [?|?] s' _; [|done]. intros s'' _ W.
    destruct (good_set_modes now c mode force modes s'' Hr W). by split_and!.
Qed.
#[export] Hint Resolve guarded_configureExceptions guarded_setExceptionMode : guarded.

Lemma guarded_Exceptions now c mode force : guarded (Exceptions now c mode force).
Proof. unfold Exceptions. guarded_go. Qed.

(** *** Presence *)

Lemma guarded_leave now c gen : guarded (leave now c gen).
Proof. unfold leave. guarded_go. Qed.
#[export] Hint Resolve guarded_Exceptions guarded_leave : guarded.
Lemma guarded_Leave now c hasLeft done expired : guarded (Leave now c hasLeft done expired).
Proof. unfold Leave. guarded_go. Qed.
Lemma guarded_Connect now c : guarded (Connect now c).
Proof. unfold Connect. guarded_go. Qed.
Lemma guarded_Touch now c : guarded (Touch now c).
Proof. unfold Touch. guarded_go. Qed.
#[export] Hint Resolve guarded_Leave guarded_Connect guarded_Touch : guarded.

(** *** Execution *)

Lemma guarded_pauseThread : guarded pauseThread.
Proof. unfold pauseThread. guarded_go. Qed.
Lemma guarded_send_exec k thread before : guarded (send_exec k thread before).
Proof. unfold send_exec. guarded_go. Qed.
#[export] Hint Resolve guarded_pauseThread guarded_send_exec : guarded.
Lemma guarded_execute now r : guarded (execute now r).
Proof. unfold execute. guarded_go. Qed.
#[export] Hint Resolve guarded_execute : guarded.
Lemma guarded_Exec now c kind thread : guarded (Exec now c kind thread).
Proof. unfold Exec. guarded_go. Qed.
#[export] Hint Resolve guarded_Exec : guarded.
Lemma guarded_Resume f now c kind thread dump : guarded (Resume f now c kind thread dump).
Proof. unfold Resume. guarded_go. Qed.
Lemma guarded_RunUntil f now c spec thread dump : guarded (RunUntil f now c spec thread dump).
Proof. unfold RunUntil. cbv zeta. guarded_go. Qed.
#[export] Hint Resolve guarded_Resume guarded_RunUntil : guarded.
Lemma guarded_shutdownAdapter terminate : guarded (shutdownAdapter terminate).
Proof.
  unfold shutdownAdapter. apply guarded_bind; [|intros go; guarded_go].
  apply guarded_atomically. intros s. pose proof (good_shutdown s). by destruct (shutdown_once s).
Qed.
#[export] Hint Resolve guarded_shutdownAdapter : guarded.
Lemma guarded_terminate now by_ reason : guarded (terminate now by_ reason).
Proof. unfold terminate. guarded_go. Qed.
#[export] Hint Resolve guarded_terminate : guarded.
Lemma guarded_Terminate now c : guarded (Terminate now c).
Proof. unfold Terminate. guarded_go. Qed.
Lemma guarded_adapterGone now : guarded (adapterGone now).
Proof. unfold adapterGone. apply guarded_atomically. intros s. case_match; cbn [snd]; auto with good. Qed.
Lemma guarded_configurationPhase now specs : guarded (configurationPhase now specs).
Proof. unfold configurationPhase. guarded_go. Qed.
Lemma guarded_configurationDone : guarded configurationDone.
Proof. unfold configurationDone. guarded_go. Qed.
#[export] Hint Resolve guarded_Terminate guarded_adapterGone guarded_configurationPhase guarded_configurationDone : guarded.

(** *** Evaluation and assignment *)

Lemma guarded_evaluate p ctx : guarded (evaluate p ctx).
Proof. unfold evaluate. cbv zeta. guarded_go. Qed.
Lemma guarded_admit now r : guarded (Admit now r).
Proof. unfold Admit. guarded_go. Qed.
#[export] Hint Resolve guarded_evaluate guarded_admit : guarded.
Lemma guarded_Eval now c p : guarded (Eval now c p).
Proof. unfold Eval. guarded_go. Qed.
Lemma guarded_setVariableResult parent name variable value type :
  guarded (setVariableResult parent name variable value type).
Proof. unfold setVariableResult. cbv zeta. guarded_go. Qed.
#[export] Hint Resolve guarded_Eval guarded_setVariableResult : guarded.
Lemma guarded_setVariable fid segs p : guarded (setVariable fid segs p).
Proof. unfold setVariable. cbv zeta. guarded_go. all: apply guarded_each; intros ref; unfold scope_members; guarded_go. Qed.
#[export] Hint Resolve guarded_setVariable : guarded.
Lemma guarded_set_admitted byEval setExpression segs p : guarded (set_admitted byEval setExpression segs p).
Proof. unfold set_admitted, setByEvaluate. guarded_go. Qed.
#[export] Hint Resolve guarded_set_admitted : guarded.
Lemma guarded_Set isLetter isDigit now c p : guarded (Set_ isLetter isDigit now c p).
Proof. unfold Set_. guarded_go. Qed.
#[export] Hint Resolve guarded_Set : guarded.

Lemma guarded_sendRequest out : guarded (sendRequest out).
Proof. unfold sendRequest. guarded_go. Qed.
#[export] Hint Resolve guarded_sendRequest : guarded.
Lemma guarded_forwardGuarded out : guarded (forwardGuarded out).
Proof. unfold forwardGuarded. guarded_go. Qed.
Lemma guarded_forwardExecution now c out : guarded (forwardExecution now c out).
Proof. unfold forwardExecution, Admit. guarded_go. Qed.
#[export] Hint Resolve guarded_forwardGuarded guarded_forwardExecution : guarded.
Lemma guarded_Forward copy now c req : guarded (Forward copy now c req).
Proof. unfold Forward. guarded_go. Qed.
#[export] Hint Resolve guarded_Forward : guarded.

(** *** Starting and test runs *)

Lemma create_wf cf policy pid ct exceptions recording now : wf (create cf policy pid ct exceptions recording now).
Proof.
  unfold create. cbv zeta. set (s := newSession cf policy pid ct now).
  assert (W : wf s) by apply newSession_wf. clearbody s.
  set (s1 := s <| excModes := _ |>). assert (W1 : wf s1).
  { destruct W as [W1 W2 W3 W4 W5 W6 W7]. split; [exact W1|exact W2|exact W3|exact W4|exact W5|exact W6|].
    apply withMode_ok. split; [constructor|done]. }
  clearbody s1. set (s2 := match recording with Some path => _ | None => _ end). assert (W2 : wf s2).
  { unfold s2. destruct recording as [path|]; [|done]. destruct W1 as [V1 V2 V3 [h Hh] V5 V6 V7].
    split; [exact V1|exact V2|exact V3|exists h; by apply refines_setSink|exact V5|exact V6|exact V7]. }
  clearbody s2. assert (W3 : wf (logStarted now s2)) by (unfold logStarted; exact (proj2 (good_logEvent _ _ s2 W2))).
  case_decide; [exact W3|exact (proj2 (good_logEvent _ _ _ W3))].
Qed.

Lemma good_adapterStarted s : good s (adapterStarted s).
Proof. good_same. Qed.
Lemma good_testrun g s : good s (s <| testrun ::= g |>).
Proof. good_same. Qed.
Lemma good_pumpLine now category line s : good s (pumpLine now category line s).
Proof. unfold pumpLine. cbv zeta. etrans; [|apply good_testrun]. auto with good. Qed.
Lemma good_otherHost now pid first s : good s (otherHost now pid first s).
Proof. unfold otherHost. auto with good. Qed.
Lemma good_setCode code s : good s (setCode code s).2.
Proof. apply good_testrun. Qed.
Lemma good_setStarted s : good s (setStarted s).2.
Proof. apply good_testrun. Qed.
Lemma good_finishRun now s : good s (finishRun now s).2.
Proof.
  unfold finishRun. case_match; [|auto with good]. case_decide; [auto with good|]. cbv zeta.
  etrans; [|apply good_endLocked]. etrans; [|apply good_logEvent]. good_same.
Qed.
Lemma good_takeHost pid h s : good s (takeHost pid h s).
Proof. good_same. Qed.
#[export] Hint Resolve good_adapterStarted good_pumpLine good_otherHost good_setCode good_setStarted good_finishRun good_takeHost : good.

Lemma guarded_initialize adapterID terminal : guarded (initialize adapterID terminal).
Proof. unfold initialize. guarded_go. Qed.
Lemma guarded_run_hook h : (∀ k, h = Some k → guarded (hk_run k)) → guarded (run_hook h).
Proof.
  intros H. unfold run_hook. destruct h as [k|]; [|guarded_go]. apply guarded_bind; [by apply H|]. intros r. guarded_go.
Qed.
#[export] Hint Resolve guarded_initialize guarded_run_hook : guarded.
Lemma guarded_configure now l terminal specs w hook launched :
  (∀ k, hook = Some k → guarded (hk_run k)) → guarded (configure now l terminal specs w hook launched).
Proof. intros H. unfold configure. guarded_go. Qed.
Lemma guarded_fail_start now e : guarded (fail_start now e).
Proof. unfold fail_start. guarded_go. Qed.
#[export] Hint Resolve guarded_configure guarded_fail_start : guarded.
Lemma guarded_fail_shared now e : guarded (fail_shared now e).
Proof. unfold fail_shared. guarded_go. Qed.
#[export] Hint Resolve guarded_fail_shared : guarded.
Lemma guarded_run_start now l process terminal specs w hook launched :
  (∀ k, hook = Some k → guarded (hk_run k)) → guarded (run_start now l process terminal specs w hook launched).
Proof. intros H. unfold run_start. guarded_go. Qed.
#[export] Hint Resolve guarded_run_start : guarded.

Lemma guarded_pump now category hostPID lines first : guarded (pump now category hostPID lines first).
Proof. revert first. induction lines as [|line lines IH]; intros first; cbn [pump]; guarded_go; apply IH. Qed.
Lemma guarded_watchRunner now code : guarded (watchRunner now code).
Proof. unfold watchRunner. guarded_go. Qed.
Lemma guarded_startedRunner now : guarded (startedRunner now).
Proof. unfold startedRunner. guarded_go. Qed.
Lemma guarded_waitHostPID failure seen : guarded (waitHostPID failure seen).
Proof. induction seen as [|w seen IH]; cbn [waitHostPID]; guarded_go. Qed.
Lemma guarded_prepareHost pid prepared : guarded (prepareHost pid prepared).
Proof. unfold prepareHost. guarded_go. Qed.
Lemma guarded_startRunner process : guarded (startRunner process).
Proof. unfold startRunner. guarded_go. Qed.
#[export] Hint Resolve guarded_pump guarded_watchRunner guarded_startedRunner guarded_waitHostPID guarded_prepareHost guarded_startRunner : guarded.
Lemma guarded_startTestRunner now runner failure seen prepared l process specs w launched :
  guarded (startTestRunner now runner failure seen prepared l process specs w launched).
Proof. unfold startTestRunner. guarded_go. apply guarded_run_start. done. Qed.
#[export] Hint Resolve guarded_startTestRunner : guarded.
