(* ===== verification/Machine.v ===== *)
(** * A session among its clients

    Every method of a session, every event of its adapter and every goroutine
    the session starts, as threads that interleave at their critical
    sections, with any answers from the adapter. What the host does for a
    start (a process started, a line printed) is any. A goroutine is spawned here
    whenever it could be, which is at least whenever the code does. *)

From S2P Require Import Prelude GoStrings Api EventLog Prog Message Session Lease Present Slots Adapter Inspect Emulate.
From S2P Require Import Breakpoints Replace Exceptions Presence Exec Evalset Forward Snapshot Start TestRun Invariant.
From Stdlib Require Import Bool.

Open Scope Z_scope.

(** ** The threads *)

Inductive op :=
  | CallTouch (c : Client)
  | CallConnect (c : Client)
  | CallLeave (c : Client) (hasLeft done expired : bool)
  | CallExceptionsSet (c : Client) (hasLeft : bool) (mode : ExceptionMode)
  | CallLease (c : Client) (o : lease_op)
  | CallExceptions (c : Client) (mode : string) (force : bool)
  | CallAddBreakpoint (c : Client) (spec : BreakpointSpec)
  | CallRemoveBreakpoint (c : Client) (id : Z) (force : bool)
  | CallReplace (c : Client) (file : string) (specs : list BreakpointSpec) (keep : list Z)
  | CallReplaceFunctions (c : Client) (specs : list BreakpointSpec)
  | CallBreakpoints (owner : string)
  | CallExec (r : execRequest)
  | CallResume (c : Client) (kind : string) (thread : Z) (dump : DumpSpec)
  | CallRunUntil (c : Client) (spec : BreakpointSpec) (thread : Z) (dump : DumpSpec)
  | CallEval (c : Client) (p : EvalParams)
  | CallSet (c : Client) (p : SetParams)
  | CallForward (c : Client) (copy : Dap.request → result Dap.request) (req : Dap.request)
  | CallStack (thread levels : Z)
  | CallVars (frame depth budget : Z)
  | CallExpand (frame : Z) (path : string) (depth budget : Z)
  | CallChanges (budget : Z)
  | CallSnapshot (dump : DumpSpec)
  | CallTerminate (c : Client)
  | DaemonTerminate (reason : string)
  | StartSession (l : Launch) (process : result unit) (terminal : bool) (specs : list BreakpointSpec)
      (w : init_wait) (hook : option (result unit * option Error)) (launched : launch_end)
  | StartTest (runner : result unit) (failure : Z → string → Error) (seen : list host_wait)
      (prepared : Z → result hostSettings) (l : Z → Launch) (process : result unit)
      (specs : list BreakpointSpec) (w : init_wait) (launched : launch_end)
  | RunnerPrinted (category : string) (hostPID : option (string → option Z)) (lines : list string)
  | RunnerExited (code : Z)
  | AdapterEvent (e : adapter_event)
  | AdapterGone
  | FilterStop (gen : Z) (st : StopInfo)
  | ShutdownAdapter (terminate : bool).

Section machine.
Context (f : fs) (isLetter isDigit : Z → bool).

Definition section (g : Session → Session) : handler unit := atomically (fun s => ((), g s)).
Definition forget {A} (p : handler A) : handler unit := pbind p (fun _ => ret ()).

(** A thread, started at [now]. *)
Definition thread (now : Z) (o : op) : handler unit :=
  match o with
  | CallTouch c => Touch now c
  | CallConnect c => Connect now c
  | CallLeave c hasLeft done expired => Leave now c hasLeft done expired
  | CallExceptionsSet c hasLeft mode => section (exceptionsSetLocked c hasLeft mode)
  | CallLease c o => section (lease_step now c o)
  | CallExceptions c mode force => forget (Exceptions now c mode force)
  | CallAddBreakpoint c spec => forget (AddBreakpoint f now c spec)
  | CallRemoveBreakpoint c id force => forget (RemoveBreakpoint now c id force)
  | CallReplace c file specs keep => forget (ReplaceBreakpoints f now c file specs keep)
  | CallReplaceFunctions c specs => forget (ReplaceFunctionBreakpoints f now c specs)
  | CallBreakpoints owner => forget (Breakpoints f owner)
  | CallExec r => forget (execute now r)
  | CallResume c kind thread dump => forget (Resume f now c kind thread dump)
  | CallRunUntil c spec thread dump => forget (RunUntil f now c spec thread dump)
  | CallEval c p => forget (Eval now c p)
  | CallSet c p => forget (Set_ isLetter isDigit now c p)
  | CallForward c copy req => forget (Forward copy now c req)
  | CallStack thread levels => forget (Stack thread levels)
  | CallVars frame depth budget => forget (Vars frame depth budget)
  | CallExpand frame path depth budget => forget (Expand frame path depth budget)
  | CallChanges budget => forget (Changes_ budget)
  | CallSnapshot dump => forget (SnapshotOf f dump)
  | CallTerminate c => forget (Terminate now c)
  | DaemonTerminate reason => forget (terminate now "" reason)
  | StartSession l process terminal specs w hook launched =>
    forget (run_start now l process terminal specs w (option_map (fun '(r, e) => mkHook (ret r) e) hook) launched)
  | StartTest runner failure seen prepared l process specs w launched =>
    forget (startTestRunner now runner failure seen prepared l process specs w launched)
  | RunnerPrinted category hostPID lines => forget (pump now category hostPID lines 0)
  | RunnerExited code => forget (watchRunner now code)
  | AdapterEvent e => section (fun s => (onEventLocked now e s).2)
  | AdapterGone => forget (adapterGone now)
  | FilterStop gen st => filterStop f now gen st
  | ShutdownAdapter terminate => shutdownAdapter terminate
  end%prog.

Definition is_thread (p : handler unit) : Prop := ∃ now o, p = thread now o.

Lemma guarded_section g : (∀ s, good s (g s)) → guarded (section g).
Proof. intros H. by apply guarded_atomically. Qed.

Lemma guarded_forget {A} (p : handler A) : guarded p → guarded (forget p).
Proof. intros H. apply guarded_bind; [done|]. intros a. apply guarded_ret. Qed.

Lemma guarded_thread now o : guarded (thread now o).
Proof.
  destruct o; cbn [thread];
    first [ solve [auto with guarded]
          | solve [apply guarded_section; intros s; auto with good]
          | solve [apply guarded_forget; auto with guarded]
          | solve [apply guarded_forget, guarded_run_start; intros k Hk; destruct hook as [[r e]|]; [|done];
                   cbn in Hk; injection Hk as <-; apply guarded_ret]
          | apply guarded_bind; [apply guarded_forget; auto with guarded|intros _; apply guarded_section; auto with good] ].
Qed.

(** ** Reachable states *)

Abbreviation mpool := (@pool Session request answer).
Definition mstep : mpool → mpool → Prop := pstep is_thread.
Definition started (cf : config) (policy : LeasePolicy) (pid : Z) (ct : option ContainerInfo)
    (exceptions : ExceptionMode) (recording : option string) (now : Z) : mpool :=
  mkPool ∅ (create cf policy pid ct exceptions recording now) (fun _ => None).

Lemma machine_ok cf policy pid ct exceptions recording now pl :
  rtc mstep (started cf policy pid ct exceptions recording now) pl → pool_ok wf ev pl.
Proof.
  intros H. eapply (pool_ok_steps wf ev is_thread); [|by apply pool_ok_start, create_wf|exact H].
  intros p s (now' & o & ->). apply guarded_thread.
Qed.

(** C2: in every state a session reaches, whatever its clients call, its
    adapter sends and answers, and however their critical sections
    interleave, the session is well formed: every breakpoint in a list is
    stored under its own id and file, once; ids are at most the last one
    given; the log is the end of a history numbered from 1; lease requests,
    captures and exception modes are well formed. And from one reached state
    to a later one nothing given out is taken back: a breakpoint's id names
    the same place and owner for ever, the history only grows, the numbers
    of stops and ids do not go back. *)
Theorem machine_invariant cf policy pid ct exceptions recording now pl pl' :
  rtc mstep (started cf policy pid ct exceptions recording now) pl → rtc mstep pl pl' →
  wf (pl_state pl) ∧ wf (pl_state pl') ∧ ev (pl_state pl) (pl_state pl').
Proof.
  intros H H'. apply machine_ok in H as Hpl.
  destruct (pool_ok_steps wf ev is_thread ltac:(intros p s (now' & o & ->); apply guarded_thread) _ _ Hpl H') as [Hpl' He].
  split_and!; [apply Hpl|apply Hpl'|done].
Qed.
End machine.

(** ** Witness: a client seen for the first time *)

Definition no_files : fs := mkFs (fun _ => None) (fun _ => false) (fun _ => Err unexpected) (fun _ => None) (fun _ _ => false).
Definition no_rune (_ : Z) : bool := false.
Definition sample_start : Session := create (sample_conf (agent "a")) LeaseFree 1 None ExceptionsNone None 0.
Abbreviation spool := (@pool Session request answer).
Definition spawned_touch : spool :=
  mkPool (<[0%nat := thread no_files no_rune no_rune 5 (CallTouch (human "h"))]> ∅) sample_start (fun _ => None).
Definition touched : spool :=
  mkPool (<[0%nat := Ret ()]> (pl_threads spawned_touch)) (touchLocked 5 (human "h") sample_start) (fun _ => None).

Lemma machine_invariant_witness :
  rtc (mstep no_files no_rune no_rune) (started (sample_conf (agent "a")) LeaseFree 1 None ExceptionsNone None 0) touched
  ∧ wf (pl_state touched) ∧ length (clients (pl_state touched)) = 2%nat.
Proof.
  assert (H : rtc (mstep no_files no_rune no_rune) (started (sample_conf (agent "a")) LeaseFree 1 None ExceptionsNone None 0) touched).
  { apply (rtc_l _ _ spawned_touch).
    { apply (st_spawn (is_thread no_files no_rune no_rune)); [reflexivity|]. by exists 5, (CallTouch (human "h")). }
    apply (rtc_l _ _ touched); [|apply rtc_refl].
    apply (st_atomic (is_thread no_files no_rune no_rune) 0%nat unit (fun s => ((), touchLocked 5 (human "h") s)) Ret
             (pl_threads spawned_touch) sample_start (fun _ => None)). reflexivity. }
  split_and!; [exact H| |reflexivity].
  apply (machine_invariant no_files no_rune no_rune (sample_conf (agent "a")) LeaseFree 1 None ExceptionsNone None 0 touched touched H).
  apply rtc_refl.
Defined.
