(* ===== verification/ExecSpec.v ===== *)
(** * What execution requests promise (session.go)

    The gate every execution request passes, what of a stop survives a
    request in flight, how a session is ended, and the late stop that
    reopens one. *)

From S2P Require Import Prelude GoStrings Api EventLog Prog Session Lease Present Slots Adapter Inspect Emulate.
From S2P Require Import Breakpoints Exceptions Presence Exec Evalset Invariant.
From Stdlib Require Import Bool.

Open Scope Z_scope.

(** ** The gate *)

(** The state an execution request needs. *)
Definition needs_state (k : exec_kind) : SessionState := if is_pause k then StateRunning else StateStopped.

(** Whether [s] lets [c] execute [k]. *)
Definition admissible (c : Client) (k : exec_kind) (s : Session) : bool :=
  bool_decide (state s = needs_state k)
  && ((c_ID (ls_holder (s_lease s)) =?s c_ID c) || allows (s_lease s) opExec c false)
  && negb (is_pause k && negb (cf_pauseUnsupported (conf s) =?s "")).

Lemma admit_state_ok r s : is_ok (admit_state r s) = bool_decide (state s = needs_state (x_kind r)).
Proof.
  unfold admit_state, needs_state, is_pause. destruct (x_kind r), (state s); reflexivity.
Qed.

Lemma acquire_ok now c s :
  (acquireLocked now c s).1
  = if (c_ID (ls_holder (s_lease s)) =?s c_ID c) || allows (s_lease s) opExec c false then Ok () else Err (leaseHeldLocked c s).
Proof. unfold acquireLocked. destruct (_ =?s _); [done|]. by destruct (allows _ _ _ _). Qed.

Lemma acquire_holder now c s : (acquireLocked now c s).1 = Ok () → holder (acquireLocked now c s).2 = c_ID c.
Proof.
  unfold acquireLocked, holder. destruct (String.eqb_spec (c_ID (ls_holder (s_lease s))) (c_ID c)) as [E|E]; [done|].
  by case_match.
Qed.

Lemma acquire_refused now c s e : (acquireLocked now c s).1 = Err e → (acquireLocked now c s).2 = s.
Proof. unfold acquireLocked. repeat case_match; cbn; congruence. Qed.

Lemma acquire_frame now c s h :
  refines h (s_log s) →
  state (acquireLocked now c s).2 = state s ∧ stops (acquireLocked now c s).2 = stops s
  ∧ ∃ h', refines h' (s_log (acquireLocked now c s).2).
Proof.
  intros Hh. unfold acquireLocked. repeat case_match; cbn [snd]; split_and!; try done; [by eauto|by eauto|].
  eexists. by apply append_spec.
Qed.

Lemma admit_ok_spec now r pt s h :
  refines h (s_log s) →
  let '(res, s') := admitLocked now r pt s in
  is_ok res = admissible (x_client r) (x_kind r) s
  ∧ match res with
    | Ok (x, thread) =>
      holder s' = c_ID (x_client r) ∧ ex_before x = stops s ∧ state s' = state s
      ∧ ∃ evs e, l_events (s_log s') = evs ++ [e] ∧ ev_Kind e = EventExec ∧ ev_Client e = c_ID (x_client r)
        ∧ ev_Action e = exec_name (x_kind r)
    | Err _ => s' = s
    end.
Proof.
  intros Hh. unfold admitLocked, admissible.
  destruct (is_pause (x_kind r) && negb (cf_pauseUnsupported (conf s) =?s "")); [by rewrite !andb_false_r|].
  rewrite andb_true_r, <- admit_state_ok. destruct (admit_state r s) as [[]|e]; cbn [is_ok andb]; [|done].
  pose proof (acquire_ok now (x_client r) s) as Hok. pose proof (acquire_holder now (x_client r) s) as Hold.
  pose proof (acquire_refused now (x_client r) s) as Href.
  pose proof (acquire_frame now (x_client r) s h Hh) as (Hst & Hsp & h' & Hh').
  destruct (acquireLocked now (x_client r) s) as [[[]|e] s1]; cbn [fst snd] in *.
  - destruct (_ || _); [|done]. split; [done|]. cbn [ex_before].
    destruct (append_spec now ((event EventExec) <| ev_Client := c_ID (x_client r) |>
       <| ev_Action := exec_name (x_kind r) |> <| ev_ThreadID := x_thread r |> <| ev_Text := x_text r |>) _ _ Hh')
      as (_ & _ & _ & (evs & Hev) & _).
    split_and!; [by rewrite <- Hold|done|done|]. exists evs. eexists. split; [exact Hev|done].
  - destruct (_ || _); [done|]. split; [done|]. by eapply Href.
Qed.

Lemma admit_refused now r pt s h :
  refines h (s_log s) → admissible (x_client r) (x_kind r) s = false →
  is_ok (admitLocked now r pt s).1 = false ∧ (admitLocked now r pt s).2 = s.
Proof.
  intros Hh Ha. pose proof (admit_ok_spec now r pt s h Hh) as H.
  destruct (admitLocked now r pt s) as [[[x t]|e] s']; destruct H as [H1 H2]; rewrite Ha in H1; done.
Qed.

(** An execution request (resuming, stepping, pausing, an evaluation with
    side effects, an assignment) is admitted exactly when the session is in
    the state it needs, the lease allows the client and the adapter can
    pause, if it is a pause. Admitted, the client holds the lease and the
    request is the newest event of the log; refused, nothing changed. *)
Theorem admitLocked_spec now r pt s h :
  refines h (s_log s) →
  let '(res, s') := admitLocked now r pt s in
  is_ok res = admissible (x_client r) (x_kind r) s
  ∧ match res with
    | Ok (x, thread) =>
      holder s' = c_ID (x_client r) ∧ ex_before x = stops s ∧ state s' = state s
      ∧ ∃ evs e, l_events (s_log s') = evs ++ [e] ∧ ev_Kind e = EventExec ∧ ev_Client e = c_ID (x_client r)
        ∧ ev_Action e = exec_name (x_kind r)
    | Err _ => s' = s
    end.
Proof. apply admit_ok_spec. Qed.

(** ** Refused *)

Lemma run_pauseThread ad s h :
  ∃ t, run ad pauseThread s h = (t, s, h ++ [Threads]).
Proof.
  unfold pauseThread. rewrite run_bind. cbn [run send]. destruct (ad h Threads) as [e|cs| |g|v t r|l|l|v t|b|fs|ids|rest]; try by eexists.
  destruct ids as [|first ids]; [by eexists|]. rewrite run_bind. cbn [run atomically]. by eexists.
Qed.

Lemma run_pause_ready ad r s h :
  let p := (ready <- (if is_pause (x_kind r) && (x_thread r =? 0)
                      then atomically (fun s => (pauseReady (x_client r) s, s)) else ret false) ;;
            if ready : bool then pauseThread else ret 0)%prog in
  ∃ pt t, run ad p s h = (pt, s, h ++ t) ∧ (t = [] ∨ t = [Threads]).
Proof.
  cbv zeta. assert (H0 : ∀ q, run ad (ret q : handler Z) s h = (q, s, h ++ [])) by (intros q; cbn; by rewrite app_nil_r).
  destruct (_ && _); cbn [pbind]; [|exists 0, []; split; [apply H0|by left]].
  rewrite run_bind. cbn [run atomically]. destruct (pauseReady (x_client r) s).
  - destruct (run_pauseThread ad s h) as [t Ht]. exists t, [Threads]. split; [done|by right].
  - exists 0, []. split; [apply H0|by left].
Qed.

(** An execution request that is not admissible fails, leaves the session
    as it was and asks the adapter for nothing but (before a pause) its
    threads: nothing is resumed, and no breakpoint is set or removed. *)
Theorem execute_refused ad now r s h hist :
  refines hist (s_log s) → admissible (x_client r) (x_kind r) s = false →
  let '(res, s', h') := run ad (execute now r) s h in
  is_ok res = false ∧ s' = s ∧ (h' = h ∨ h' = h ++ [Threads]).
Proof.
  intros Hh Hadm. destruct (run_pause_ready ad r s h) as (pt & t & Hrun & Ht). revert Hrun.
  unfold execute, with_lock. cbn [run]. rewrite !run_bind.
  set (ready := if is_pause (x_kind r) && (x_thread r =? 0) then _ else _).
  destruct (run ad ready s h) as [[rd s1] h1]. rewrite run_bind. intros ->. rewrite run_bind. cbn [run atomically].
  pose proof (admit_refused now r pt s hist Hh Hadm) as [He Hs].
  destruct (admitLocked now r pt s) as [[x|e] s2]; cbn [fst snd] in *; [done|]. subst s2. cbn [run].
  split_and!; [done|done|]. destruct Ht as [-> | ->]; [left; by rewrite app_nil_r|by right].
Qed.

(** ** Stops and a request in flight *)

Lemma sent_keeps k before ok s : before < stops s → state (sentLocked k before ok s) = state s.
Proof.
  intros Hlt. unfold sentLocked. cbv zeta. set (s1 := if ok then _ else _).
  assert (H1 : stops s1 = stops s ∧ state s1 = state s) by (unfold s1; by repeat case_match).
  clearbody s1. destruct H1 as [H1 H2]. rewrite H1.
  replace (stops s =? before) with false by (symmetry; apply Z.eqb_neq; lia). by rewrite andb_false_r.
Qed.

(** Where an execution request sent at stop [before] leaves the session: an
    accepted one but a pause is not left at that stop. *)
Definition moved_on {A} (k : exec_kind) (before : Z) (r : result A) (s' : Session) : Prop :=
  is_ok r = true → is_pause k = false → state s' = StateStopped → before < stops s'.

(** C5: a continue or step that the adapter accepted leaves the session at a
    stop only if that stop is newer than the one it was sent from, whatever
    the adapter's events and other clients do meanwhile: the old stop is
    never shown as where the program is, and a new one is never lost. *)
Theorem send_exec_settles k thread before s :
  before ≤ stops s →
  safe wf ev (send_exec k thread before) (moved_on k before) s
  ∧ ∀ ok s', before < stops s' → state (sentLocked k before ok s') = state s'.
Proof.
  intros Hb. split; [|by apply sent_keeps]. apply (safe_bind wf ev _ _ (fun _ s' => before ≤ stops s')).
  { intros s1 He1 W1. destruct (good_sending k s1 W1) as [Hg1 Hw1]. split_and!; [done|done|].
    pose proof (ev_stops _ _ He1). pose proof (ev_stops _ _ Hg1). change (before ≤ stops (sendingLocked k s1)). lia. }
  intros _ s1 H1. apply (safe_bind wf ev _ _ (fun _ s' => before ≤ stops s')).
  - unfold sendExec. destruct (dap_kind _); [|exact H1]. intros a s2 He2. cbn. pose proof (ev_stops _ _ He2). lia.
  - intros r s2 Hst s3 He3 W3. destruct (good_sent k before (is_ok r) s3 W3) as [Hg3 Hw3]. split_and!; [done|done|].
    cbn. unfold moved_on. intros Hok Hp. pose proof (ev_stops _ _ He3). unfold sentLocked. rewrite Hok, Hp. cbn [negb andb].
    destruct (bool_decide (state _ = StateStopped)) eqn:E; cbn [andb].
    + destruct (Z.eqb_spec (stops (s3 <| execInFlight := false |>)) before); [done|]. cbn in *. lia.
    + apply bool_decide_eq_false in E. done.
Qed.

(** ** The end of a session *)

(** Whether the adapter is asked to kill the program: always or never by
    what the session is, or as the adapter chooses for a launched program
    that is gone. *)
Definition kills (s : Session) : option bool :=
  match s_mode s with
  | ModeAttach => Some false
  | ModeTest => Some (live s)
  | ModeLaunch => if live s then Some true else None
  end.

Lemma run_shutdownAdapter ad terminate s h :
  run ad (shutdownAdapter terminate) s h
  = if ended s || negb (client s) then ((), s, h)
    else ((), s <| ended := true |>, h ++ [disconnect terminate (negb (bool_decide (s_mode s = ModeLaunch)))]).
Proof.
  unfold shutdownAdapter. rewrite run_bind. cbn [run atomically]. unfold shutdown_once.
  destruct (ended s || negb (client s)); [done|]. by cbn [negb fst snd run send pbind].
Qed.

Lemma endLocked_state now reason s :
  state (endLocked now reason s).2 = StateExited
  ∧ endReason (endLocked now reason s).2
    = (if decide (state s = StateExited) then endReason s else if stopReason s =?s "" then reason else stopReason s)
  ∧ ended (endLocked now reason s).2 = ended s.
Proof. unfold endLocked. by case_decide. Qed.

(** Stopping a session ends it, with the first reason a client gave, and
    disconnects from the adapter at most once, asking it to kill the program
    exactly when the session started it and it is still live: an attached
    program keeps running. *)
Theorem terminate_spec ad now by_ reason s h :
  let '(_, s', h') := run ad (terminate now by_ reason) s h in
  state s' = StateExited
  ∧ (state s ≠ StateExited → reason ≠ ""%string → endReason s' = if stopReason s =?s "" then reason else stopReason s)
  ∧ h' = h ++ (if ended s || negb (client s) then [] else [Disconnect (kills s)])
  ∧ (ended s' = ended s || client s).
Proof.
  unfold terminate. rewrite run_bind. cbn [run atomically]. unfold markStopping. cbn [fst snd].
  set (s1 := if live s && (stopReason s =?s "") then _ else s).
  assert (H1 : ended s1 = ended s ∧ client s1 = client s ∧ conf s1 = conf s ∧ state s1 = state s) by (unfold s1; by case_match).
  assert (Hr : state s ≠ StateExited → reason ≠ ""%string →
    (if stopReason s1 =?s "" then reason else stopReason s1) = if stopReason s =?s "" then reason else stopReason s).
  { intros Hs Hne. unfold s1, live. rewrite bool_decide_eq_false_2 by done. cbn [negb andb].
    destruct (stopReason s =?s "") eqn:E; [|by rewrite E]. cbn. by destruct (reason =?s ""). }
  clearbody s1. destruct H1 as (He & Hc & Hcf & Hst). rewrite run_bind, run_shutdownAdapter, He, Hc.
  assert (Hd : disconnect (live s && negb (bool_decide (s_mode s = ModeAttach)))
      (negb (bool_decide (s_mode s1 = ModeLaunch))) = Disconnect (kills s)).
  { unfold disconnect, kills, s_mode. rewrite Hcf. destruct (cf_mode (conf s)), (live s); reflexivity. }
  destruct (ended s || negb (client s)) eqn:E; cbn [run atomically].
  - pose proof (endLocked_state now reason s1) as (H1 & H2 & H3).
    destruct (endLocked now reason s1) as [sp s2]. cbn [snd] in *. cbn [run]. rewrite H1, H2, H3, He, Hst. split_and!; [done| |by rewrite app_nil_r|].
    + intros Hs Hne. rewrite decide_False by done. by apply Hr.
    + destruct (ended s), (client s); done.
  - pose proof (endLocked_state now reason (s1 <| ended := true |>)) as (H1 & H2 & H3).
    destruct (endLocked now reason (s1 <| ended := true |>)) as [sp s2]. cbn [snd] in *. cbn [run]. rewrite H1, H2, H3. cbn. rewrite Hst, Hd.
    split_and!; [done| |done|].
    + intros Hs Hne. rewrite decide_False by done. by apply Hr.
    + by destruct (ended s), (client s).
Qed.

Lemma applyStop_state now st s h :
  refines h (s_log s) →
  state (applyStopLocked now st s) = StateStopped ∧ stops (applyStopLocked now st s) = stops s + 1
  ∧ ∃ h', refines h' (s_log (applyStopLocked now st s)).
Proof. intros Hh. split_and!; [done|done|]. eexists. by apply append_spec. Qed.

Lemma onStopped_applied now st s :
  si_Reason st ≠ reasonBreakpoint → pauseRequested s = false →
  (onStoppedLocked now st s).2 = applyStopLocked now st (s <| stopGen ::= Z.succ |>).
Proof.
  intros Hr%String.eqb_neq Hp. unfold onStoppedLocked.
  assert (Hp' : pauseRequested (s <| stopGen ::= Z.succ |>) = false) by (by rewrite <- Hp).
  rewrite Hp', andb_false_l, Hr. done.
Qed.

Lemma endLocked_logs now reason s h :
  refines h (s_log s) → state s ≠ StateExited →
  ∃ evs e, l_events (s_log (endLocked now reason s).2) = evs ++ [e] ∧ ev_Kind e = EventEnded.
Proof.
  intros Hh Hs. unfold endLocked. rewrite decide_False by done. cbv zeta. cbn [snd].
  set (s1 := setStateLocked StateExited _). assert (H1 : refines h (s_log s1)) by exact Hh. clearbody s1.
  match goal with |- context [logEvent now ?e s1] =>
    destruct (append_spec now e _ _ H1) as (_ & _ & _ & (evs & Hev) & _) end.
  exists evs. eexists. split; [exact Hev|done].
Qed.

(** [s1] is stopped, at a stop of its own, and ending it is reported. *)
Definition reopened (now : Z) (s s1 : Session) : Prop :=
  state s1 = StateStopped ∧ stops s1 = stops s + 1
  ∧ ∀ reason, ∃ evs e, l_events (s_log (endLocked now reason s1).2) = evs ++ [e] ∧ ev_Kind e = EventEnded.

(** A stopped event of the adapter that comes after the session ended
    (any stop that isn't handed to the stop filter) makes it stopped again:
    the session's end is not final, and it can be ended, and reported as
    ended, once more. *)
Theorem late_stop_reopens now st s h :
  refines h (s_log s) → state s = StateExited → si_Reason st ≠ reasonBreakpoint → pauseRequested s = false →
  reopened now s (onEventLocked now (StoppedEvent st) s).2.
Proof.
  intros Hh Hs Hr Hp. cbn [onEventLocked]. rewrite onStopped_applied by done.
  destruct (applyStop_state now (st <| si_Breakpoints := [] |>) (s <| stopGen ::= Z.succ |>) h Hh) as (H1 & H2 & h' & H3).
  split; [done|]. split; [exact H2|]. intros reason. apply (endLocked_logs _ _ _ h'); [exact H3|]. intros E. discriminate (eq_trans (eq_sym H1) E).
Qed.

(** ** Witnesses *)

Definition stopped_session : Session := (sample_session LeaseHandoff) <| state := StateStopped |> <| stops := 1 |>.
Definition continue_by (c : Client) : execRequest := mkExec c ExecContinue 0 None "".

Lemma admitLocked_spec_witness :
  refines [] (s_log stopped_session)
  ∧ is_ok (admitLocked 7 (continue_by (agent "a")) 0 stopped_session).1 = true
  ∧ is_ok (admitLocked 7 (continue_by (human "other")) 0 stopped_session).1 = false.
Proof.
  assert (H : refines [] (s_log stopped_session)) by apply refines_new.
  pose proof (admitLocked_spec 7 (continue_by (agent "a")) 0 stopped_session [] H) as H1.
  pose proof (admitLocked_spec 7 (continue_by (human "other")) 0 stopped_session [] H) as H2.
  split_and!; [exact H| |].
  - destruct (admitLocked 7 (continue_by (agent "a")) 0 stopped_session) as [r s']. apply H1.
  - destruct (admitLocked 7 (continue_by (human "other")) 0 stopped_session) as [r s']. apply H2.
Defined.

Lemma execute_refused_witness :
  admissible (human "other") ExecContinue stopped_session = false
  ∧ (run (fun _ _ => AnsOk) (execute 7 (continue_by (human "other"))) stopped_session []).1.2 = stopped_session.
Proof.
  assert (H : refines [] (s_log stopped_session)) by apply refines_new.
  assert (Ha : admissible (human "other") ExecContinue stopped_session = false) by (vm_compute; reflexivity).
  split; [exact Ha|].
  pose proof (execute_refused (fun _ _ => AnsOk) 7 (continue_by (human "other")) stopped_session [] [] H Ha) as Hr.
  destruct (run _ _ _ _) as [[r s'] h']. apply Hr.
Defined.

Lemma send_exec_settles_witness :
  1 ≤ stops stopped_session
  ∧ safe wf ev (send_exec ExecContinue 4 1) (moved_on ExecContinue 1) stopped_session
  ∧ state (sentLocked ExecContinue 0 true stopped_session) = StateStopped.
Proof.
  assert (H : 1 ≤ stops stopped_session) by (cbn; lia). split; [exact H|].
  split; [by apply send_exec_settles|]. apply (send_exec_settles ExecContinue 4 0 stopped_session); [cbn; lia|reflexivity].
Defined.

Lemma late_stop_reopens_witness :
  let s := stopped_session <| state := StateExited |> in
  state s = StateExited ∧ state (onEventLocked 9 (StoppedEvent (mkStopInfo "step" 4 "" "" true [])) s).2 = StateStopped.
Proof.
  cbv zeta. split; [reflexivity|].
  apply (late_stop_reopens 9 (mkStopInfo "step" 4 "" "" true []) (stopped_session <| state := StateExited |>) []);
    [apply refines_new|reflexivity|discriminate|reflexivity].
Defined.
