(* ===== verification/ReplaceSpec.v ===== *)
(** * What replacing an editor's breakpoints promises (replace.go)

    A setBreakpoints request makes a client's editor breakpoints of one file
    exactly what it asks for, and touches no one else's. *)

From S2P Require Import Prelude GoStrings Api EventLog Prog Session Lease Slots Adapter Emulate Breakpoints Replace.
From S2P Require Import Invariant.
From Stdlib Require Import Bool.

Open Scope Z_scope.

(** ** Lists with holes *)

Lemma omap_id_insert {A} (old : list (option A)) j a :
  old !! j = Some (Some a) → omap id old ≡ₚ a :: omap id (<[j := None]> old).
Proof.
  revert j. induction old as [|o old IH]; intros [|j] H; try done.
  - injection H as ->. done.
  - cbn [lookup list_lookup] in H. specialize (IH j H).
    change (<[S j := None]> (o :: old)) with (o :: <[j := None]> old).
    destruct o as [x|]; cbn [omap list_omap id] in *; [|done].
    rewrite IH. apply perm_swap.
Qed.

Lemma omap_id_map {A} (l : list A) : omap id (map Some l) = l.
Proof. induction l as [|x l IH]; [done|]. cbn [map]. change (omap id (Some x :: map Some l)) with (x :: omap id (map Some l)). by rewrite IH. Qed.

Lemma deref_set_bp_if a f s x :
  deref (set_bp a f s) x = if decide (x = a ∧ is_Some (heap s !! a)) then f (deref s a) else deref s x.
Proof.
  unfold deref, set_bp. cbn. rewrite lookup_alter. case_decide as E1; case_decide as E2; try done.
  - subst. by destruct (heap s !! x) as [b|]; [|destruct E2 as [_ [? ?]]].
  - subst. destruct (heap s !! x) as [b|] eqn:E; [|done]. destruct E2. by split.
  - destruct E2 as [-> _]. done.
Qed.

(** ** One pass *)

Definition same_item (it it' : replaceItem) : Prop :=
  it_spec it' = it_spec it ∧ it_refused it' = it_refused it ∧ it_isNew it' = it_isNew it.

(** What a pass did of an item: left it as it was, or matched it. *)
Definition passed (same : breakpoint → BreakpointSpec → bool) (old : list Z) (s s' : Session) (it it' : replaceItem) : Prop :=
  same_item it it' ∧
  (it_b it' = it_b it
   ∨ it_b it = None ∧ it_refused it = None ∧ ∃ a, it_b it' = Some a ∧ In a old
     ∧ same (deref s a) (it_spec it) = true ∧ deref s' a = update (it_spec it) (deref s a)).

Abbreviation matched items := (omap it_b items).

Record pass_spec same (items : list replaceItem) (old : list Z) (s : Session)
    (items' : list replaceItem) (old' : list Z) (s' : Session) : Prop := {
  ps_items : Forall2 (passed same old s s') items items';
  ps_perm : matched items' ++ old' ≡ₚ matched items ++ old;
  ps_sub : ∀ a, In a old' → In a old;
  ps_bps : bps s' = bps s; ps_next : nextBP s' = nextBP s;
  ps_stored : ∀ a, is_Some (heap s !! a) → is_Some (heap s' !! a);
  ps_other : ∀ a, In a old' ∨ ¬ In a old → heap s' !! a = heap s !! a;
  ps_max : ∀ it', In it' items' → it_refused it' = None → it_b it' = None → ∀ a, In a old' → same (deref s a) (it_spec it') = false }.

Lemma matched_cons it items : matched (it :: items) = match it_b it with Some a => [a] | None => [] end ++ matched items.
Proof. cbn. by destruct (it_b it). Qed.

Lemma in_omap_id {A} (l : list (option A)) a : In a (omap id l) ↔ In (Some a) l.
Proof.
  induction l as [|o l IH]; [done|]. destruct o as [x|]; cbn [omap list_omap id In].
  - rewrite <- IH. change (omap id (Some x :: l)) with (x :: omap id l). cbn [In]. naive_solver.
  - rewrite <- IH. change (omap id (None :: l)) with (omap id l). naive_solver.
Qed.

Lemma match_pass_nothing same it items old s items' old' s' :
  (it_refused it = None → it_b it = None → ∀ a, In a old → same (deref s a) (it_spec it) = false) →
  pass_spec same items old s items' old' s' → pass_spec same (it :: items) old s (it :: items') old' s'.
Proof.
  intros Hit [H1 H2 Hsub H3 H4 H5 H6 H7]. split; try done.
  - constructor; [|done]. split; [done|by left].
  - rewrite !matched_cons, <- !app_assoc. by rewrite H2.
  - intros x [<-|Hx] Hr Hb a Ha; [by apply Hit; auto|by apply H7].
Qed.

Lemma index_some (same : breakpoint → BreakpointSpec → bool) (old : list (option Z)) spec s j :
  index_func (fun o => match o with Some a => same (deref s a) spec | None => false end) old = Some j →
  ∃ a, old !! j = Some (Some a) ∧ same (deref s a) spec = true.
Proof.
  intros H. apply index_func_Some in H as (o & Ho & Hs & _). destruct o as [a|]; [|done]. by exists a.
Qed.

Lemma index_none (same : breakpoint → BreakpointSpec → bool) (old : list (option Z)) spec s a :
  index_func (fun o => match o with Some a => same (deref s a) spec | None => false end) old = None →
  In a (omap id old) → same (deref s a) spec = false.
Proof.
  intros H Ha%in_omap_id. exact (proj1 (index_func_None _ _) H (Some a) Ha).
Qed.

Lemma match_pass_spec same items old s :
  List.NoDup (omap id old) → (∀ a, In a (omap id old) → is_Some (heap s !! a)) →
  let '(items', old', s') := match_pass same items old s in
  pass_spec same items (omap id old) s items' (omap id old') s' ∧ List.NoDup (omap id old').
Proof.
  revert old s. induction items as [|it items IH]; intros old s Hnd Hst; cbn [match_pass].
  { split; [by split|done]. }
  assert (Hno : (it_refused it = None → it_b it = None → ∀ a, In a (omap id old) → same (deref s a) (it_spec it) = false) →
    let '(items', old', s') := match_pass same items old s in
    pass_spec same (it :: items) (omap id old) s (it :: items') (omap id old') s' ∧ List.NoDup (omap id old')).
  { intros Hit. specialize (IH old s Hnd Hst). destruct (match_pass same items old s) as [[items' old'] s'].
    destruct IH. split; [by apply match_pass_nothing|done]. }
  destruct (it_refused it) eqn:Er; [specialize (Hno ltac:(done)); by destruct (match_pass same items old s) as [[? ?] ?]|].
  destruct (it_b it) eqn:Eb; [specialize (Hno ltac:(done)); by destruct (match_pass same items old s) as [[? ?] ?]|].
  destruct (index_func _ old) as [j|] eqn:Ej.
  2: { specialize (Hno ltac:(intros _ _ a Ha; by eapply index_none)). by destruct (match_pass same items old s) as [[? ?] ?]. }
  apply index_some in Ej as (a & Hj & Hsame). rewrite Hj. clear Hno.
  pose proof (omap_id_insert old j a Hj) as Hperm. set (old1 := <[j := None]> old) in *.
  assert (Hnd1 : List.NoDup (a :: omap id old1)) by (by eapply Permutation_NoDup).
  apply List.NoDup_cons_iff in Hnd1 as [Ha Hnd1].
  assert (Hin : ∀ x, In x (omap id old1) → In x (omap id old)) by (intros x Hx; eapply Permutation_in; [by symmetry|by right]).
  assert (Ha0 : In a (omap id old)) by (eapply Permutation_in; [by symmetry|by left]).
  set (s1 := set_bp a (update (it_spec it)) s).
  assert (Hs1 : ∀ x, x ≠ a → heap s1 !! x = heap s !! x) by (intros x Hx; unfold s1, set_bp; cbn; by rewrite lookup_alter_ne).
  assert (Hst1 : ∀ x, is_Some (heap s !! x) → is_Some (heap s1 !! x)).
  { intros x Hx. destruct (decide (x = a)) as [->|Hne]; [|by rewrite Hs1]. unfold s1, set_bp. cbn.
    rewrite lookup_alter_eq. by apply fmap_is_Some. }
  specialize (IH old1 s1 Hnd1 ltac:(auto)). destruct (match_pass same items old1 s1) as [[items' old'] s'].
  destruct IH as [[H1 H2 Hsub H3 H4 H5 H6 H7] Hnd']. split; [|done].
  split.
  - constructor.
    + split; [done|]. right. split_and!; [done|done|]. exists a. split_and!; [done|done|done|]. cbn.
      unfold deref at 1. rewrite (H6 a) by (right; done). change (default zero_bp (heap s1 !! a)) with (deref s1 a).
      unfold s1. rewrite deref_set_bp_if, decide_True by auto. done.
    + eapply Forall2_impl; [exact H1|]. intros x x' [Hi [Hx|(Hn & Hr & b & Hb & Hbo & Hbs & Hbu)]]; (split; [done|]); [by left|].
      right. split_and!; [done|done|]. exists b. assert (b ≠ a) by (intros ->; done).
      assert (Hd : deref s1 b = deref s b) by (unfold deref; by rewrite Hs1). rewrite Hd in *. by split_and!; auto.
  - rewrite !matched_cons, Eb. cbn [it_b upd app]. change (matched (?x :: items')) with (a :: matched items').
    cbn. rewrite H2, Hperm. by rewrite <- Permutation_middle.
  - auto.
  - done.
  - done.
  - auto.
  - intros x Hx. destruct (decide (x = a)) as [->|Hne].
    + exfalso. destruct Hx as [Hx|Hx]; [|done]. by apply Hsub in Hx.
    + rewrite <- Hs1 by done. apply H6. destruct Hx as [Hx|Hx]; [by left|]. right. auto.
  - intros x [<-|Hx] Hr Hb b Hb'; [done|]. rewrite <- (H7 x Hx Hr Hb b Hb'). f_equal. unfold deref. rewrite Hs1; [done|].
    intros ->. by apply Hsub in Hb'.
Qed.

(** ** Both passes *)

Definition same_place (b : breakpoint) (spec : BreakpointSpec) : bool := byRequested b spec || byPlaced b spec.

(** An item after both passes, when none was matched before them. *)
Definition item_matched (old : list Z) (s s' : Session) (it it' : replaceItem) : Prop :=
  same_item it it' ∧
  ∀ a, it_b it' = Some a → it_refused it = None ∧ In a old ∧ same_place (deref s a) (it_spec it) = true
    ∧ deref s' a = update (it_spec it) (deref s a).

Record matched_spec (items : list replaceItem) (old : list Z) (s : Session)
    (items' : list replaceItem) (rest : list Z) (s' : Session) : Prop := {
  ms_items : Forall2 (item_matched old s s') items items';
  ms_perm : matched items' ++ rest ≡ₚ old;
  ms_bps : bps s' = bps s; ms_next : nextBP s' = nextBP s;
  ms_stored : ∀ a, is_Some (heap s !! a) → is_Some (heap s' !! a);
  ms_other : ∀ a, ¬ In a (matched items') → heap s' !! a = heap s !! a;
  ms_max : ∀ it', In it' items' → it_refused it' = None → it_b it' = None → ∀ a, In a rest → same_place (deref s a) (it_spec it') = false }.

Lemma by_id_perm look l : by_id look l ≡ₚ l.
Proof. apply merge_sort_Permutation. Qed.

Lemma not_in_perm {A} (l1 l2 old : list A) a : l1 ++ l2 ≡ₚ old → List.NoDup old → In a l2 → ¬ In a l1.
Proof.
  intros Hp Hnd Ha Ha1. apply (Permutation_NoDup (Permutation_sym Hp)), NoDup_ListNoDup, NoDup_app in Hnd as (_ & H & _).
  apply (H a); by apply list_elem_of_In.
Qed.

Lemma Forall2_and_l {A B} (P : A → Prop) (R : A → B → Prop) l k :
  Forall P l → Forall2 R l k → Forall2 (fun x y => P x ∧ R x y) l k.
Proof. intros HP HR. induction HR; inversion HP; subst; constructor; auto. Qed.

Lemma Forall2_both {A B} (R S : A → B → Prop) l k :
  Forall2 R l k → Forall2 S l k → Forall2 (fun x y => R x y ∧ S x y) l k.
Proof. intros H1 H2. induction H1; inversion H2; subst; constructor; auto. Qed.

Lemma Forall2_impl_in {A B} (R R' : A → B → Prop) l k :
  Forall2 R l k → (∀ x y, In x l → R x y → R' x y) → Forall2 R' l k.
Proof. intros H. induction H; intros Hi; constructor; [apply Hi; [by left|done]|]. apply IHForall2. intros; apply Hi; [by right|done]. Qed.

Lemma Forall2_pull {A B} (R : A → B → Prop) l k : Forall2 R l k → ∀ y, In y k → ∃ x, In x l ∧ R x y.
Proof. induction 1 as [|x y l k H _ IH]; [done|]. intros z [<-|Hz]; [exists x; split; [by left|done]|]. destruct (IH z Hz) as (w & ? & ?). exists w. split; [by right|done]. Qed.

Lemma in_matched items it a : In it items → it_b it = Some a → In a (matched items).
Proof.
  induction items as [|x items IH]; [done|]. rewrite matched_cons, List.in_app_iff. intros [->|H] Hb; [|by right; apply IH].
  rewrite Hb. left. by left.
Qed.

Lemma two_passes items items1 items2 old old1 old2 s s1 s2 x y z :
  pass_spec byRequested items old s items1 old1 s1 → pass_spec byPlaced items1 old1 s1 items2 old2 s2 →
  it_b x = None → (∀ a, it_b y = Some a → ¬ In a old1) →
  passed byRequested old s s1 x y → passed byPlaced old1 s1 s2 y z → item_matched old s s2 x z.
Proof.
  intros P1 P2 Hx Hy [(Hs1 & Hr1 & Hn1) Hp] [(Hs2 & Hr2 & Hn2) Hq].
  split; [split_and!; congruence|]. intros a Hz. destruct Hq as [Hq|(Hyn & Hyr & b & Hb & Hin & Hsame & Hupd)].
  - rewrite Hq in Hz. destruct Hp as [Hp|(_ & Hxr & b & Hb & Hin & Hsame & Hupd)]; [congruence|].
    rewrite Hz in Hb. injection Hb as <-. split_and!; [done|done|unfold same_place; by rewrite Hsame|].
    rewrite <- Hupd. unfold deref. by rewrite (ps_other _ _ _ _ _ _ _ P2 a (or_intror (Hy a Hz))).
  - rewrite Hz in Hb. injection Hb as <-. rewrite Hs1 in *.
    assert (Hd : deref s1 a = deref s a) by (unfold deref; by rewrite (ps_other _ _ _ _ _ _ _ P1 a (or_introl Hin))).
    rewrite Hd in *. split_and!; [congruence|by apply (ps_sub _ _ _ _ _ _ _ P1)|unfold same_place; by rewrite Hsame, orb_true_r|done].
Qed.

Lemma matchItems_spec old items s :
  List.NoDup old → (∀ a, In a old → is_Some (heap s !! a)) → Forall (fun it => it_b it = None) items →
  let '(items', rest, s') := matchItems old items s in matched_spec items old s items' rest s'.
Proof.
  intros Hnd Hst Hnone. unfold matchItems.
  pose proof (match_pass_spec byRequested items (map Some old) s) as P1. rewrite omap_id_map in P1. specialize (P1 Hnd Hst).
  destruct (match_pass byRequested items (map Some old) s) as [[items1 old1] s1]. destruct P1 as [P1 Hnd1].
  pose proof (match_pass_spec byPlaced items1 old1 s1 Hnd1) as P2.
  destruct (match_pass byPlaced items1 old1 s1) as [[items2 old2] s2].
  destruct P2 as [P2 Hnd2]; [intros a Ha; apply (ps_stored _ _ _ _ _ _ _ P1), Hst, (ps_sub _ _ _ _ _ _ _ P1), Ha|].
  assert (Hm0 : matched items = []).
  { clear P1. induction Hnone as [|it items Hn _ IH]; [done|]. rewrite matched_cons, Hn. exact IH. }
  assert (Hp1 : matched items1 ++ omap id old1 ≡ₚ old) by (rewrite (ps_perm _ _ _ _ _ _ _ P1), Hm0; done).
  assert (Hp2 : matched items2 ++ omap id old2 ≡ₚ old) by (rewrite (ps_perm _ _ _ _ _ _ _ P2); done).
  split.
  - assert (Hn1 : Forall (fun it => ∀ a, it_b it = Some a → ¬ In a (omap id old1)) items1).
    { apply List.Forall_forall. intros it Hit a Hb Ha. apply (not_in_perm _ _ _ a Hp1 Hnd Ha). by eapply in_matched. }
    pose proof (Forall2_and_l _ _ _ _ Hnone (ps_items _ _ _ _ _ _ _ P1)) as F1.
    pose proof (Forall2_and_l _ _ _ _ Hn1 (ps_items _ _ _ _ _ _ _ P2)) as F2.
    eapply Forall2_trans; [|exact F1|exact F2]. intros x y z [Hx Hp] [Hy Hq].
    by eapply two_passes; [apply P1|apply P2|exact Hx|exact Hy|exact Hp|exact Hq].
  - rewrite by_id_perm. done.
  - rewrite (ps_bps _ _ _ _ _ _ _ P2). apply P1.
  - rewrite (ps_next _ _ _ _ _ _ _ P2). apply P1.
  - intros a Ha. apply P2, P1, Ha.
  - intros a Ha. assert (Hor : ¬ In a old ∨ In a (omap id old2)).
    { destruct (in_dec Z.eq_dec a old) as [Hin|Hin]; [|by left]. right.
      eapply Permutation_in in Hin; [|by symmetry; exact Hp2]. apply List.in_app_iff in Hin. tauto. }
    rewrite (ps_other _ _ _ _ _ _ _ P2), (ps_other _ _ _ _ _ _ _ P1); [done| |].
    + destruct Hor as [H|H]; [by right|left]. by apply (ps_sub _ _ _ _ _ _ _ P2).
    + destruct Hor as [H|H]; [|by left]. right. intros H1. by apply H, (ps_sub _ _ _ _ _ _ _ P1).
  - intros it' Hit Hr Hb a Ha. apply (Permutation_in _ (by_id_perm _ _)) in Ha.
    pose proof (ps_sub _ _ _ _ _ _ _ P2 a Ha) as Ha1. unfold same_place. apply orb_false_intro.
    + destruct (Forall2_pull _ _ _ (ps_items _ _ _ _ _ _ _ P2) it' Hit) as (y & Hy & (Hs & Hr' & _) & Hp).
      rewrite Hs. apply (ps_max _ _ _ _ _ _ _ P1 y Hy); [congruence| |done].
      destruct Hp as [Hp|(Hp & _)]; congruence.
    + rewrite <- (ps_max _ _ _ _ _ _ _ P2 it' Hit Hr Hb a Ha). f_equal. unfold deref.
      by rewrite (ps_other _ _ _ _ _ _ _ P1 a (or_introl Ha1)).
Qed.

(** ** The lists *)

Lemma delete_none {A} (p : A → bool) l : (∀ a, In a l → p a = false) → delete_func p l = l.
Proof.
  unfold delete_func. induction l as [|a l IH]; intros H; [done|]. cbn [List.filter].
  rewrite (H a) by (by left). cbn [negb]. f_equal. apply IH. intros b Hb. apply H. by right.
Qed.

Lemma drop_from_list key gone s k :
  list_of (drop_from key gone s) k
  = if decide (k = key) then delete_func (fun a => bool_decide (a ∈ gone)) (list_of s key) else list_of s k.
Proof.
  unfold drop_from. destruct gone as [|g gone].
  { case_decide; [subst|done]. by rewrite delete_none. }
  set (l := delete_func _ (list_of s key)). unfold list_of at 1. destruct (not_nil l) as [l'|] eqn:E; cbn.
  - apply not_nil_Some in E as [<- _]. case_decide; [subst; by rewrite lookup_insert_eq|by rewrite lookup_insert_ne].
  - assert (l = []) as -> by (by destruct l). case_decide; [subst; by rewrite lookup_delete_eq|by rewrite lookup_delete_ne].
Qed.

Lemma drop_from_frame key gone s : heap (drop_from key gone s) = heap s ∧ nextBP (drop_from key gone s) = nextBP s.
Proof. unfold drop_from. by repeat case_match. Qed.

(** ** Placing the accepted *)

Definition mark (b : breakpoint) : breakpoint := b <| bp ::= fun x => x <| b_Editor := true |> |>.

(** What placing did of an item. *)
Definition item_placed (now : Z) (owner : string) (s s' : Session) (it it' : replaceItem) : Prop :=
  it_spec it' = it_spec it ∧ it_refused it' = it_refused it ∧
  match it_refused it with
  | Some _ => it_b it' = it_b it
  | None => ∃ a, it_b it' = Some a ∧
      match it_b it with
      | Some a0 => a0 = a ∧ heap s' !! a = mark <$> heap s !! a
      | None => nextBP s < a ∧ heap s' !! a = Some (mark (new_breakpoint now a owner (it_spec it)))
      end
  end.

Record placed_spec now owner key (items : list replaceItem) (s : Session) (items' : list replaceItem) (new : list Z) (s' : Session) : Prop := {
  pl_items : Forall2 (item_placed now owner s s') items items';
  pl_matched : matched items' ≡ₚ matched items ++ new;
  pl_nodup : List.NoDup new;
  pl_new : ∀ a, In a new → nextBP s < a ≤ nextBP s';
  pl_next : nextBP s ≤ nextBP s';
  pl_list : list_of s' key = list_of s key ++ new;
  pl_lists : ∀ k, k ≠ key → list_of s' k = list_of s k;
  pl_other : ∀ a, a ≤ nextBP s → ¬ In a (matched items) → heap s' !! a = heap s !! a }.

Lemma list_of_insert s k l k' : list_of (s <| bps ::= <[k := l]> |>) k' = if decide (k' = k) then l else list_of s k'.
Proof. unfold list_of. cbn. case_decide; [subst; by rewrite lookup_insert_eq|by rewrite lookup_insert_ne]. Qed.

Section place.
Context (now : Z) (owner key : string).

(** An item that is placed on a new breakpoint. *)
Lemma place_new it items s items' new s' :
  it_refused it = None → it_b it = None → sp_File (it_spec it) = key →
  (∀ a, In a (matched items) → a ≤ nextBP s) →
  let a := nextBP s + 1 in
  let s1 := mark_editor a (addNewLocked now owner (it_spec it) s).2 in
  placed_spec now owner key items s1 items' new s' →
  placed_spec now owner key (it :: items) s (it <| it_b := Some a |> <| it_isNew := true |> :: items') (a :: new) s'.
Proof.
  intros Hr Hb Hf Hle a s1 [H1 H2 H3 H4 H5 H6 H7 H8].
  assert (Hn1 : nextBP s1 = a) by done.
  assert (Hh1 : ∀ x, x ≠ a → heap s1 !! x = heap s !! x).
  { intros x Hx. unfold s1, mark_editor, set_bp, addNewLocked. cbn. rewrite lookup_alter_ne, lookup_insert_ne; done. }
  assert (Ha1 : heap s1 !! a = Some (mark (new_breakpoint now a owner (it_spec it)))).
  { unfold s1, mark_editor, set_bp, addNewLocked. cbn. fold a. by rewrite lookup_alter_eq, lookup_insert_eq. }
  assert (Hl1 : ∀ k, list_of s1 k = if decide (k = key) then list_of s key ++ [a] else list_of s k).
  { intros k. transitivity (list_of (s <| bps ::= <[sp_File (it_spec it) := list_of s (sp_File (it_spec it)) ++ [a]]> |>) k); [done|].
    rewrite list_of_insert, Hf. done. }
  assert (Hna : ¬ In a (matched items)) by (intros H; apply Hle in H; unfold a in H; lia).
  split.
  - constructor.
    + split_and!; [done|done|]. rewrite Hr. exists a. split; [done|]. rewrite Hb. split; [unfold a; lia|].
      rewrite H8; [done|lia|done].
    + eapply Forall2_impl_in; [exact H1|]. intros x x' Hx (Hs & Hrf & Hp). split_and!; [done|done|].
      destruct (it_refused x); [done|]. destruct Hp as (b & Hb' & Hp). exists b. split; [done|].
      destruct (it_b x) as [b0|] eqn:Eb; [|destruct Hp; split; [unfold a in *; lia|done]].
      destruct Hp as [-> Hp]. split; [done|]. rewrite Hp, Hh1; [done|]. intros ->. by eapply Hna, in_matched.
  - rewrite !matched_cons, Hb. cbn [it_b upd]. cbn. rewrite H2. by rewrite <- Permutation_middle.
  - constructor; [|done]. intros H%H4. rewrite Hn1 in H. lia.
  - intros x [<-|Hx]; [unfold a in *; lia|]. apply H4 in Hx. unfold a in *. lia.
  - unfold a in *. lia.
  - rewrite H6, Hl1, decide_True by done. by rewrite <- app_assoc.
  - intros k Hk. rewrite H7, Hl1, decide_False by done. done.
  - intros x Hx Hnx. rewrite matched_cons, Hb in Hnx. cbn in Hnx. rewrite H8; [apply Hh1; unfold a; lia|unfold a in *; lia|done].
Qed.

(** An item that has its breakpoint, or none because it was refused. *)
Lemma place_kept it it' items s s1 items' new s' :
  item_placed now owner s s1 it it' → it_b it' = it_b it → (it_refused it = None → is_Some (it_b it)) →
  nextBP s1 = nextBP s → bps s1 = bps s → (∀ x, it_b it ≠ Some x → heap s1 !! x = heap s !! x) →
  (∀ a, In a (matched (it :: items)) → a ≤ nextBP s) → List.NoDup (matched (it :: items)) →
  placed_spec now owner key items s1 items' new s' →
  placed_spec now owner key (it :: items) s (it' :: items') new s'.
Proof.
  intros (Hs & Hrf & Hp) Hb Hsome Hnx Hbps Hh Hle Hnd [H1 H2 H3 H4 H5 H6 H7 H8].
  assert (Hl : ∀ k, list_of s1 k = list_of s k) by (intros k; unfold list_of; by rewrite Hbps).
  rewrite matched_cons in Hle, Hnd.
  assert (Hown : ∀ a, it_b it = Some a → a ≤ nextBP s ∧ ¬ In a (matched items)).
  { intros a Ha. rewrite Ha in *. cbn in *. split; [apply Hle; by left|]. by apply List.NoDup_cons_iff in Hnd as [? _]. }
  split; try done.
  - constructor.
    + split_and!; [done|done|]. destruct (it_refused it); [done|]. destruct Hp as (a & Ha & Hp). exists a. split; [done|].
      destruct (it_b it) as [a0|] eqn:Eb; [|by destruct (Hsome eq_refl)]. destruct Hp as [-> Hp]. split; [done|].
      destruct (Hown a eq_refl). rewrite H8; [done|lia|done].
    + eapply Forall2_impl_in; [exact H1|]. intros x x' Hx (Hsx & Hrx & Hpx). split_and!; [done|done|].
      destruct (it_refused x); [done|]. destruct Hpx as (b & Hb' & Hpx). exists b. split; [done|].
      destruct (it_b x) as [b0|] eqn:Eb; [|by rewrite Hnx in Hpx].
      destruct Hpx as [-> Hpx]. split; [done|]. rewrite Hpx, Hh; [done|]. intros Hit. apply (Hown b Hit). by eapply in_matched.
  - rewrite !matched_cons, Hb, <- app_assoc. by rewrite H2.
  - by rewrite <- Hnx.
  - by rewrite <- Hnx.
  - by rewrite H6, Hl.
  - intros k Hk. by rewrite H7, Hl.
  - intros x Hx Hnin. rewrite matched_cons in Hnin. rewrite H8, Hh; [done| |lia|].
    + intros Hit. apply Hnin. rewrite Hit. by left.
    + intros Hin. apply Hnin, List.in_app_iff. by right.
Qed.

Lemma place_items_spec items s :
  (∀ it, In it items → it_refused it = None → sp_File (it_spec it) = key) →
  (∀ it, In it items → it_refused it ≠ None → it_b it = None) →
  (∀ a, In a (matched items) → a ≤ nextBP s) → List.NoDup (matched items) →
  let '(items', s') := place_items now owner items s in ∃ new, placed_spec now owner key items s items' new s'.
Proof.
  revert s. induction items as [|it items IH]; intros s Hf Hrf Hle Hnd; cbn [place_items].
  { exists []. split; try done; try constructor; by rewrite ?app_nil_r. }
  assert (Hle' : ∀ a, In a (matched items) → a ≤ nextBP s) by (intros a Ha; apply Hle; rewrite matched_cons, List.in_app_iff; by right).
  assert (Hnd' : List.NoDup (matched items)) by (rewrite matched_cons in Hnd; by apply List.NoDup_app_remove_l in Hnd).
  assert (Hf' : ∀ it, In it items → it_refused it = None → sp_File (it_spec it) = key) by (intros; apply Hf; [by right|done]).
  assert (Hrf' : ∀ it, In it items → it_refused it ≠ None → it_b it = None) by (intros; apply Hrf; [by right|done]).
  destruct (it_refused it) as [e|] eqn:Er.
  - specialize (IH s Hf' Hrf' Hle' Hnd'). destruct (place_items now owner items s) as [items' s']. destruct IH as [new H].
    exists new. apply (place_kept it it items s s); try done; [|by rewrite Er]. split_and!; [done|done|]. by rewrite Er.
  - destruct (it_b it) as [a|] eqn:Eb.
    + specialize (IH (mark_editor a s) Hf' Hrf' Hle' Hnd').
      assert (Hk : ∀ it', it_spec it' = it_spec it → it_refused it' = it_refused it → it_b it' = it_b it →
        let '(items', s') := place_items now owner items (mark_editor a s) in
        ∃ new, placed_spec now owner key (it :: items) s (it' :: items') new s').
      { intros it' Hs' Hr' Hb'. destruct (place_items now owner items (mark_editor a s)) as [items' s']. destruct IH as [new H].
        exists new. apply (place_kept it it' items s (mark_editor a s)); try done.
        - split_and!; [done|done|]. rewrite Er, Eb. exists a. split; [congruence|]. split; [done|].
          unfold mark_editor, set_bp. cbn. by rewrite lookup_alter_eq.
        - intros x Hx. unfold mark_editor, set_bp. cbn. rewrite lookup_alter_ne; [done|]. intros ->. by rewrite Eb in Hx. }
      clear IH. destruct (place_items now owner items (mark_editor a s)) as [items' s']. apply Hk; by case_match.
    + assert (Ha : addNewLocked now owner (it_spec it) s = (nextBP s + 1, (addNewLocked now owner (it_spec it) s).2)) by done.
      rewrite Ha. clear Ha. set (s1 := mark_editor (nextBP s + 1) (addNewLocked now owner (it_spec it) s).2). specialize (IH s1 Hf' Hrf').
      assert (Hn1 : nextBP s1 = nextBP s + 1) by done.
      specialize (IH ltac:(intros a Ha; rewrite Hn1; apply Hle' in Ha; lia) Hnd').
      destruct (place_items now owner items s1) as [items' s']. destruct IH as [new H].
      exists ((nextBP s + 1) :: new). apply (place_new it items s items' new s'); try done. apply Hf; [by left|done].
Qed.
End place.

Lemma matched_item items old s items1 rest s1 :
  matched_spec items old s items1 rest s1 →
  ∀ it, In it items1 → ∃ it0, In it0 items ∧ item_matched old s s1 it0 it.
Proof.
  intros M it Hit. apply list_elem_of_In, list_elem_of_lookup in Hit as [i Hi].
  destruct (Forall2_lookup_r _ _ _ _ _ (ms_items _ _ _ _ _ _ M) Hi) as (it0 & Hi0 & Hm).
  exists it0. split; [|done]. by apply list_elem_of_In, (list_elem_of_lookup_2 _ i).
Qed.

(** ** The request *)

(** A breakpoint is what a client's editor asked for. *)
Record as_asked (owner : string) (spec : BreakpointSpec) (b : breakpoint) : Prop := {
  aa_owner : b_Owner (bp b) = owner; aa_editor : b_Editor (bp b) = true;
  aa_condition : b_Condition (bp b) = sp_Condition spec; aa_hit : b_HitCondition (bp b) = sp_HitCondition spec;
  aa_log : b_LogMessage (bp b) = sp_LogMessage spec;
  aa_place : key b = spec_key spec ∨ sp_Function spec = ""%string ∧ b_Line (bp b) = sp_Line spec }.

Definition own_editor (owner : string) (b : breakpoint) : Prop :=
  b_Owner (bp b) = owner ∧ b_Editor (bp b) = true ∧ b_Temporary (bp b) = false.

Lemma setEmulated_fields spec b :
  let b' := setEmulated spec b in
  bp b' = (bp b) <| b_HitCondition := sp_HitCondition spec |> <| b_LogMessage := sp_LogMessage spec |> <| b_Hits := 0 |>.
Proof. unfold setEmulated. by destruct (match parseEmulated spec with Ok hl => hl | Err _ => (None, []) end). Qed.

Lemma updated_as_asked owner spec b :
  b_Owner (bp b) = owner → same_place b spec = true → as_asked owner spec (mark (update spec b)).
Proof.
  intros Ho Hs. pose proof (good_update_spec spec b) as Hi. unfold ident in Hi. injection Hi as H1 H2 H3 H4 H5 H6.
  assert (Hline : b_Line (bp (update spec b)) = b_Line (bp b)).
  { unfold update. case_match; [done|]. by rewrite setEmulated_fields. }
  assert (Hf : b_Condition (bp (update spec b)) = sp_Condition spec ∧ b_HitCondition (bp (update spec b)) = sp_HitCondition spec
    ∧ b_LogMessage (bp (update spec b)) = sp_LogMessage spec).
  { unfold update. destruct (unchanged_by spec b) eqn:E; [|by rewrite setEmulated_fields].
    unfold unchanged_by in E. apply andb_true_iff in E as [[[Ec%String.eqb_eq Eh%String.eqb_eq]%andb_true_iff El%String.eqb_eq]%andb_true_iff _].
    done. }
  destruct Hf as (Hc & Hh & Hl). split; try done; cbn.
  - by rewrite H5.
  - unfold same_place, byRequested, byPlaced, key in *. cbn. rewrite H4, H3, Hline.
    apply orb_true_iff in Hs as [Hs%bool_decide_eq_true|[Hs%String.eqb_eq Hl'%Z.eqb_eq]%andb_true_iff]; [by left|by right].
Qed.

Lemma new_as_asked now a owner spec : as_asked owner spec (mark (new_breakpoint now a owner spec)).
Proof.
  pose proof (ident_new now a owner spec) as Hi. unfold ident in Hi. injection Hi as H1 H2 H3 H4 H5 H6.
  unfold new_breakpoint in *. split; cbn; rewrite ?setEmulated_fields in *; try done.
  left. unfold key, spec_key. cbn. by rewrite setEmulated_fields.
Qed.

(** What [matchLocked] promises. *)
Record replaced (owner key : string) (items : list replaceItem) (keep : list Z) (s : Session)
    (items' : list replaceItem) (gone : list Z) (s' : Session) : Prop := {
  rp_items : Forall2 (fun it it' => it_spec it' = it_spec it ∧ it_refused it' = it_refused it ∧
    match it_refused it with
    | Some _ => it_b it' = None
    | None => ∃ a b, it_b it' = Some a ∧ In a (list_of s' key) ∧ heap s' !! a = Some b ∧ as_asked owner (it_spec it) b
    end) items items';
  rp_distinct : List.NoDup (matched items');
  rp_own : ∀ a, In a (list_of s' key) → own_editor owner (deref s' a) →
    In a (matched items') ∨ In a (list_of s key) ∧ b_ID (bp (deref s a)) ∈ keep ∧ heap s' !! a = heap s !! a;
  rp_others : ∀ a, In a (list_of s key) → b_Owner (bp (deref s a)) ≠ owner ∨ b_Temporary (bp (deref s a)) = true →
    In a (list_of s' key) ∧ heap s' !! a = heap s !! a;
  rp_untouched : ∀ a, is_Some (heap s !! a) → ¬ In a (matched items') → heap s' !! a = heap s !! a;
  rp_matched : ∀ a, In a (list_of s key) → In a (matched items') → b_Owner (bp (deref s a)) = owner ∧ b_Temporary (bp (deref s a)) = false;
  rp_new : ∀ it a, In it items' → it_b it = Some a → ¬ In a (list_of s key) →
    ∀ b, In b (list_of s key) → b_Owner (bp (deref s b)) = owner → b_Temporary (bp (deref s b)) = false → ¬ In b (matched items') →
    same_place (deref s b) (it_spec it) = false;
  rp_gone : ∀ a, In a gone ↔ In a (list_of s key) ∧ ¬ In a (list_of s' key);
  rp_removed : ∀ a, In a gone ↔
    In a (list_of s key) ∧ own_editor owner (deref s a) ∧ (b_ID (bp (deref s a)) ∉ keep) ∧ ¬ In a (matched items');
  rp_files : ∀ k, k ≠ key → list_of s' k = list_of s k }.

Section replaced.
Context (now : Z) (owner key : string) (items : list replaceItem) (keep : list Z) (s : Session).
Context (W : wf s).
Context (Hitems : Forall (fun it => it_b it = None ∧ (it_refused it = None → sp_File (it_spec it) = key)) items).
Let old := List.filter (fun a => let b := bp (deref s a) in (b_Owner b =?s owner) && negb (b_Temporary b)) (list_of s key).

Lemma old_in a : In a old ↔ In a (list_of s key) ∧ b_Owner (bp (deref s a)) = owner ∧ b_Temporary (bp (deref s a)) = false.
Proof. unfold old. rewrite List.filter_In, andb_true_iff, String.eqb_eq, negb_true_iff. tauto. Qed.

Lemma stored_le a : In a (list_of s key) → is_Some (heap s !! a) ∧ a ≤ nextBP s.
Proof.
  intros Ha. destruct (list_of_wf s key W) as [_ Hin]. destruct (Hin a Ha) as (b & Hb & _).
  split; [by eexists|]. by apply (wf_ids _ W) in Hb as [_ [_ ?]].
Qed.

Lemma nodup_old : List.NoDup old.
Proof. apply NoDup_filter_list. by apply list_of_wf. Qed.

Context (items1 : list replaceItem) (rest : list Z) (s1 : Session) (M : matched_spec items old s items1 rest s1).
Let gone := delete_func (fun a => let b := bp (deref s1 a) in negb (b_Editor b) || bool_decide (b_ID b ∈ keep)) rest.
Let s2 := drop_from key gone s1.
Context (items2 : list replaceItem) (new : list Z) (s3 : Session).
Context (P : placed_spec now owner key items1 s2 items2 new s3).

Lemma matched_old a : In a (matched items1) → In a old ∧ ¬ In a rest.
Proof.
  intros Ha. pose proof (ms_perm _ _ _ _ _ _ M) as Hp. split.
  - eapply Permutation_in; [exact Hp|]. apply List.in_app_iff. by left.
  - intros Hr. by apply (not_in_perm _ _ _ a Hp nodup_old Hr).
Qed.

Lemma list_kept a : In a (list_of s key) → ¬ In a gone → In a (list_of s3 key).
Proof.
  intros Ha Hg. rewrite (pl_list _ _ _ _ _ _ _ _ P). apply List.in_app_iff. left. unfold s2.
  rewrite drop_from_list, decide_True by done. apply in_delete_func. unfold list_of at 1. rewrite (ms_bps _ _ _ _ _ _ M).
  split; [done|]. apply bool_decide_eq_false. by rewrite list_elem_of_In.
Qed.

Lemma list_inv a : In a (list_of s3 key) → In a new ∨ In a (list_of s key) ∧ ¬ In a gone.
Proof.
  rewrite (pl_list _ _ _ _ _ _ _ _ P), List.in_app_iff. intros [Ha|Ha]; [right|by left]. unfold s2 in Ha.
  rewrite drop_from_list, decide_True in Ha by done. apply in_delete_func in Ha as [Ha Hg].
  unfold list_of at 1 in Ha. rewrite (ms_bps _ _ _ _ _ _ M) in Ha. split; [done|].
  apply bool_decide_eq_false in Hg. by rewrite list_elem_of_In in Hg.
Qed.

Lemma heap_unmatched a : a ≤ nextBP s → ¬ In a (matched items1) → heap s3 !! a = heap s !! a.
Proof.
  intros Hle Hm.
  rewrite (pl_other _ _ _ _ _ _ _ _ P); [| |done].
  - unfold s2. rewrite (proj1 (drop_from_frame key gone s1)). by apply (ms_other _ _ _ _ _ _ M).
  - unfold s2. rewrite (proj2 (drop_from_frame key gone s1)), (ms_next _ _ _ _ _ _ M). done.
Qed.

Lemma new_fresh a : In a new → nextBP s < a.
Proof.
  intros Ha. apply (pl_new _ _ _ _ _ _ _ _ P) in Ha. unfold s2 in Ha.
  rewrite (proj2 (drop_from_frame key gone s1)), (ms_next _ _ _ _ _ _ M) in Ha. lia.
Qed.

Lemma gone_in a : In a gone → In a rest ∧ In a old.
Proof.
  intros [Ha _]%in_delete_func. split; [done|]. eapply Permutation_in; [exact (ms_perm _ _ _ _ _ _ M)|].
  apply List.in_app_iff. by right.
Qed.

(** What is removed: the client's editor breakpoints that are neither matched
    nor to be kept. *)
Lemma removed_in a : In a gone ↔ In a (list_of s key) ∧ own_editor owner (deref s a) ∧ (b_ID (bp (deref s a)) ∉ keep) ∧ ¬ In a (matched items1).
Proof.
  assert (Hd : ∀ a, ¬ In a (matched items1) → deref s1 a = deref s a).
  { intros x Hx. unfold deref. by rewrite (ms_other _ _ _ _ _ _ M x Hx). }
  unfold own_editor. split.
  - intros Hg. pose proof (gone_in a Hg) as [Hr Hold]. apply in_delete_func in Hg as [_ Hg]. cbv beta zeta in Hg.
    assert (Hm : ¬ In a (matched items1)) by (by intros [_ ?]%matched_old).
    rewrite (Hd a Hm) in Hg. apply orb_false_iff in Hg as [He%negb_false_iff Hk%bool_decide_eq_false]. by apply old_in in Hold as (? & ? & ?).
  - intros (Hl & (Ho & He & Ht) & Hk & Hm). apply in_delete_func. cbv beta zeta. rewrite (Hd a Hm), He, bool_decide_eq_false_2 by done.
    split; [|done]. assert (Hold : In a old) by (by apply old_in).
    eapply Permutation_in in Hold; [|symmetry; exact (ms_perm _ _ _ _ _ _ M)]. by apply List.in_app_iff in Hold as [|].
Qed.

Lemma item_as_asked it it1 it2 :
  it_b it = None → item_matched old s s1 it it1 → In it1 items1 → item_placed now owner s2 s3 it1 it2 →
  In it2 items2 →
  it_spec it2 = it_spec it ∧ it_refused it2 = it_refused it ∧
  match it_refused it with
  | Some _ => it_b it2 = None
  | None => ∃ a b, it_b it2 = Some a ∧ In a (list_of s3 key) ∧ heap s3 !! a = Some b ∧ as_asked owner (it_spec it) b
  end.
Proof.
  intros Hn [(Hs1 & Hr1 & _) Hm] Hin1 (Hs2 & Hr2 & Hp) Hin2. split_and!; [congruence|congruence|]. rewrite Hr1 in Hp.
  destruct (it_refused it) as [e|].
  { rewrite Hp. destruct (it_b it1) as [a|] eqn:Ea; [|done]. by destruct (Hm a eq_refl) as [? _]. }
  destruct Hp as (a & Ha & Hp). exists a. destruct (it_b it1) as [a0|] eqn:E1.
  - destruct Hp as [-> Hp]. destruct (Hm a eq_refl) as (_ & Hold & Hsame & Hupd).
    apply old_in in Hold as (Hl & Ho & Ht). destruct (stored_le a Hl) as [Hst _].
    assert (Hm1 : In a (matched items1)) by (by eapply in_matched).
    assert (Hh : heap s3 !! a = Some (mark (update (it_spec it) (deref s a)))).
    { rewrite Hp. unfold s2. rewrite (proj1 (drop_from_frame key gone s1)).
      destruct (ms_stored _ _ _ _ _ _ M a Hst) as [b Hb]. rewrite Hb. cbn. f_equal. f_equal.
      rewrite <- Hupd. unfold deref. by rewrite Hb. }
    exists (mark (update (it_spec it) (deref s a))). split_and!; [done| |done|by apply updated_as_asked].
    apply list_kept; [done|]. intros [Hr _]%gone_in. by apply matched_old in Hm1 as [_ ?].
  - destruct Hp as [Hlt Hp]. rewrite Hs1 in Hp. exists (mark (new_breakpoint now a owner (it_spec it))).
    split_and!; [done| |done|apply new_as_asked].
    rewrite (pl_list _ _ _ _ _ _ _ _ P). apply List.in_app_iff. right.
    assert (Hin : In a (matched items2)) by (by eapply in_matched).
    eapply Permutation_in in Hin; [|exact (pl_matched _ _ _ _ _ _ _ _ P)].
    apply List.in_app_iff in Hin as [Hin|Hin]; [|done]. exfalso.
    apply matched_old in Hin as [Hin _]. apply old_in in Hin as [Hin _]. apply stored_le in Hin as [_ Hle].
    unfold s2 in Hlt. rewrite (proj2 (drop_from_frame key gone s1)), (ms_next _ _ _ _ _ _ M) in Hlt. lia.
Qed.

Lemma items_as_asked :
  Forall2 (fun it it' => it_spec it' = it_spec it ∧ it_refused it' = it_refused it ∧
    match it_refused it with
    | Some _ => it_b it' = None
    | None => ∃ a b, it_b it' = Some a ∧ In a (list_of s3 key) ∧ heap s3 !! a = Some b ∧ as_asked owner (it_spec it) b
    end) items items2.
Proof.
  assert (F0 : Forall (fun it => it_b it = None) items) by (eapply Forall_impl; [exact Hitems|]; by intros it [? _]).
  pose proof (Forall2_and_l _ _ _ _ F0 (ms_items _ _ _ _ _ _ M)) as F1.
  assert (F2 : Forall (fun it => In it items1) items1) by (by apply List.Forall_forall).
  pose proof (Forall2_and_l _ _ _ _ F2 (pl_items _ _ _ _ _ _ _ _ P)) as F3.
  assert (F4 : Forall2 (fun it1 it2 => In it2 items2) items1 items2).
  { apply Forall2_flip. eapply Forall2_impl_in; [apply Forall2_flip, (pl_items _ _ _ _ _ _ _ _ P)|]. done. }
  eapply Forall2_trans; [|exact F1|exact (Forall2_both _ _ _ _ F3 F4)].
  intros x y z [H1 H2] [[H3 H4] H5]. by apply (item_as_asked x y z).
Qed.

Lemma new_unmatched it a b :
  In it items2 → it_b it = Some a → ¬ In a (list_of s key) →
  In b (list_of s key) → b_Owner (bp (deref s b)) = owner → b_Temporary (bp (deref s b)) = false → ¬ In b (matched items1) →
  same_place (deref s b) (it_spec it) = false.
Proof.
  intros Hit Hb Hn Hlb Ho Ht Hm.
  destruct (Forall2_pull _ _ _ (pl_items _ _ _ _ _ _ _ _ P) it Hit) as (y & Hy & Hs & Hr & Hp).
  assert (it_refused y = None ∧ it_b y = None) as [Hry Hby].
  { destruct (it_refused y) eqn:Ery.
    - rewrite Hp in Hb. destruct Hn. apply (in_matched _ _ _ Hy), matched_old in Hb as [Hb _]. by apply old_in in Hb as [? _].
    - split; [done|]. destruct Hp as (a1 & Ha1 & Hp). destruct (it_b y) eqn:Eby; [|done]. destruct Hp as [-> _].
      assert (a1 = a) as -> by congruence. destruct Hn. apply (in_matched _ _ _ Hy), matched_old in Eby as [Hb1 _]. by apply old_in in Hb1 as [? _]. }
  rewrite Hs. apply (ms_max _ _ _ _ _ _ M y Hy Hry Hby). assert (Hold : In b old) by (by apply old_in).
  eapply Permutation_in in Hold; [|symmetry; exact (ms_perm _ _ _ _ _ _ M)]. apply List.in_app_iff in Hold as [Hx|]; done.
Qed.

Lemma replaced_holds : replaced owner key items keep s items2 gone s3.
Proof.
  assert (Hdist : List.NoDup (matched items2)).
  { eapply Permutation_NoDup; [symmetry; exact (pl_matched _ _ _ _ _ _ _ _ P)|]. apply List.NoDup_app.
    - pose proof (Permutation_NoDup (Permutation_sym (ms_perm _ _ _ _ _ _ M)) nodup_old) as H.
      by apply List.NoDup_app_remove_r in H.
    - exact (pl_nodup _ _ _ _ _ _ _ _ P).
    - intros a Ha Hnew. apply new_fresh in Hnew. apply matched_old in Ha as [Ha _].
      apply old_in in Ha as [Ha _]. apply stored_le in Ha as [_ ?]. lia. }
  assert (Hm3 : ∀ a, In a (list_of s key) → In a (matched items2) → In a (matched items1)).
  { intros a Hl Ha. eapply Permutation_in in Ha; [|exact (pl_matched _ _ _ _ _ _ _ _ P)].
    apply List.in_app_iff in Ha as [|Ha%new_fresh]; [done|]. apply stored_le in Hl as [_ ?]. lia. }
  assert (Hm4 : ∀ a, In a (matched items1) → In a (matched items2)).
  { intros a Ha. eapply Permutation_in; [symmetry; exact (pl_matched _ _ _ _ _ _ _ _ P)|]. apply List.in_app_iff. by left. }
  split; [|done| | | | | | | |].
  - exact items_as_asked.
  - intros a Ha Hown. destruct (list_inv a Ha) as [Hnew|[Hl Hg]].
    + left. eapply Permutation_in; [symmetry; exact (pl_matched _ _ _ _ _ _ _ _ P)|]. apply List.in_app_iff. by right.
    + destruct (in_dec Z.eq_dec a (matched items1)) as [Hm|Hm].
      { left. eapply Permutation_in; [symmetry; exact (pl_matched _ _ _ _ _ _ _ _ P)|]. apply List.in_app_iff. by left. }
      right. pose proof (heap_unmatched a (proj2 (stored_le a Hl)) Hm) as Hh. split_and!; [done| |done].
      assert (Hd : deref s3 a = deref s a) by (unfold deref; by rewrite Hh). rewrite Hd in Hown. destruct Hown as (Ho & He & Ht).
      assert (Hold : In a old) by (by apply old_in).
      eapply Permutation_in in Hold; [|symmetry; exact (ms_perm _ _ _ _ _ _ M)].
      apply List.in_app_iff in Hold as [|Hr]; [done|].
      assert (Hd1 : deref s1 a = deref s a) by (unfold deref; by rewrite (ms_other _ _ _ _ _ _ M a Hm)).
      destruct (decide (b_ID (bp (deref s a)) ∈ keep)) as [|Hk]; [done|]. exfalso. apply Hg. apply in_delete_func.
      split; [done|]. cbv beta zeta. rewrite Hd1, He, bool_decide_eq_false_2 by done. done.
  - intros a Ha Hne. assert (Hno : ¬ In a old) by (rewrite old_in; intros (_ & ? & ?); destruct Hne; congruence).
    split; [apply list_kept; [done|]; intros [_ ?]%gone_in; done|]. apply heap_unmatched; [by apply stored_le|].
    intros Hm. by apply matched_old in Hm as [? _].
  - intros a [b Hb] Hm. apply heap_unmatched.
    + by apply (wf_ids _ W) in Hb as (_ & _ & ?).
    + by intros ?%Hm4.
  - intros a Hl Ha%Hm3; [|done]. apply matched_old in Ha as [Ha _]. by apply old_in in Ha as (_ & ? & ?).
  - intros it a Hit Hb Hn b Hlb Ho Ht Hm. apply (new_unmatched it a b); auto.
  - intros a. split.
    + intros Hg. pose proof (gone_in a Hg) as [_ Hold]. apply old_in in Hold as [Hl _]. split; [done|].
      intros Ha. apply list_inv in Ha as [Hnew|[_ ?]]; [|done]. apply new_fresh in Hnew. apply stored_le in Hl as [_ ?]. lia.
    + intros [Hl Hn]. destruct (in_dec Z.eq_dec a gone) as [|Hg]; [done|]. destruct Hn. by apply list_kept.
  - intros a. rewrite removed_in. split.
    + intros (Hl & He & Hk & Hm). split_and!; try done. by intros ?%Hm3.
    + intros (Hl & He & Hk & Hm). split_and!; try done. by intros ?%Hm4.
  - intros k Hk. rewrite (pl_lists _ _ _ _ _ _ _ _ P) by done. unfold s2. rewrite drop_from_list, decide_False by done.
    unfold list_of. by rewrite (ms_bps _ _ _ _ _ _ M).
Qed.
End replaced.

(** C3: replacing a client's editor breakpoints in a file: every accepted item
    has a breakpoint of its own in the file's list, the client's and its
    editor's, with the item's condition, hit condition and log message, on
    the line or function asked for; every refused one has none. What leaves
    the list is reported as gone, and is exactly the client's editor
    breakpoints there that match no item and are not to be kept: one it set
    with the CLI stays. A breakpoint is new only where no unmatched one of
    the client's is, or was placed, on the line or function asked for. Every
    other breakpoint (another client's, a run-until's, one kept, one of
    another file) is as it was, and so are the other files' lists. *)
Theorem matchLocked_spec now owner key items keep s :
  wf s →
  Forall (fun it => it_b it = None ∧ (it_refused it = None → sp_File (it_spec it) = key)) items →
  let '(items', gone, s') := matchLocked now owner key items keep s in replaced owner key items keep s items' gone s'.
Proof.
  intros W Hitems. unfold matchLocked. cbv zeta.
  assert (F0 : Forall (fun it => it_b it = None) items) by (eapply Forall_impl; [exact Hitems|]; by intros it [? _]).
  pose proof (matchItems_spec _ items s (nodup_old owner key s W)) as HM.
  specialize (HM ltac:(intros a [Ha _]%List.filter_In; by apply (stored_le key s W)) F0).
  destruct (matchItems _ items s) as [[items1 rest] s1].
  pose proof (place_items_spec now owner key items1 (drop_from key
    (delete_func (fun a => negb (b_Editor (bp (deref s1 a))) || bool_decide (b_ID (bp (deref s1 a)) ∈ keep)) rest) s1)) as HP.
  pose proof (drop_from_frame key
    (delete_func (fun a => negb (b_Editor (bp (deref s1 a))) || bool_decide (b_ID (bp (deref s1 a)) ∈ keep)) rest) s1) as [Hh2 Hn2].
  destruct (place_items now owner items1 _) as [items2 s3]. destruct HP as [new HP].
  - intros it Hit Hr. destruct (matched_item _ _ _ _ _ _ HM it Hit) as (it0 & Hit0 & (Hs & Hrf & _) & _).
    rewrite List.Forall_forall in Hitems. rewrite Hs. apply Hitems; congruence.
  - intros it Hit Hr. destruct (matched_item _ _ _ _ _ _ HM it Hit) as (it0 & Hit0 & (Hs & Hrf & _) & Hm).
    destruct (it_b it) as [a|] eqn:E; [|done]. destruct (Hm a eq_refl) as [? _]. congruence.
  - intros a Ha. rewrite Hn2, (ms_next _ _ _ _ _ _ HM).
    destruct (matched_old owner key items s W items1 rest s1 HM a Ha) as [[Hl _]%old_in _]. by apply (stored_le key s W).
  - pose proof (Permutation_NoDup (Permutation_sym (ms_perm _ _ _ _ _ _ HM)) (nodup_old owner key s W)) as H.
    by apply List.NoDup_app_remove_r in H.
  - by apply (replaced_holds now owner key items keep s W Hitems items1 rest s1 HM items2 new s3 HP).
Qed.

(** ** Witness: an editor's breakpoint moved from line 10 to line 12 *)

Definition on_line (n : Z) : BreakpointSpec := mkSpec "/src/a.cs" n "" "" "" "" "".
Definition editor_session : Session :=
  let '(a, s) := addNewLocked 5 "human:h" (on_line 10) (sample_session LeaseFree) in mark_editor a s.

Lemma editor_session_wf : wf editor_session.
Proof.
  apply (good_mark_editor 1 (addNewLocked 5 "human:h" (on_line 10) (sample_session LeaseFree)).2).
  apply (good_addNew 5 "human:h" (on_line 10) (sample_session LeaseFree)), newSession_wf.
Qed.

Lemma matchLocked_spec_witness :
  let items := [mkItem (on_line 12) None None false false] in
  wf editor_session ∧
  let '(items', gone, s') := matchLocked 6 "human:h" "/src/a.cs" items [] editor_session in
  gone = [1] ∧ replaced "human:h" "/src/a.cs" items [] editor_session items' gone s'.
Proof.
  cbv zeta. split; [exact editor_session_wf|].
  pose proof (matchLocked_spec 6 "human:h" "/src/a.cs" [mkItem (on_line 12) None None false false] [] editor_session
    editor_session_wf ltac:(repeat constructor)) as H.
  assert (Hg : (matchLocked 6 "human:h" "/src/a.cs" [mkItem (on_line 12) None None false false] [] editor_session).1.2 = [1])
    by (vm_compute; reflexivity).
  destruct (matchLocked _ _ _ _ _ _) as [[items' gone] s']. split; [exact Hg|exact H].
Defined.
