(* ===== verification/Claims.v ===== *)
(** * The manager's table (internal/session/claims.go, manager.go)

    The maps the manager keeps under its lock: sessions by id, claims on
    container processes, the metadata of live sessions on disk. Sessions are
    pointers. An operation is a run of critical sections with the session's
    own lock taken in between, so the table's steps are those sections, and
    what a start or a stop has still to do is a task. *)

From S2P Require Import Prelude GoStrings.
From Stdlib Require Import Ascii Bool.
Open Scope Z_scope.

(** ** Claims *)

Definition launchClaimSuffix : string := "launch".
Definition claimKey (containerID : string) (pid : Z) : string := containerID +:+ "/" +:+ itoa pid.
Definition launchClaimKey (containerID : string) : string := containerID +:+ "/" +:+ launchClaimSuffix.
Definition shortID (id : string) : string := if 12 <? slen id then stake 12 id else id.

(** What a start wants of its container: a process of it, or all of it. *)
Record wanted := mkWanted { wt_container : string; wt_pid : option Z }.
Definition key_of (w : wanted) : string :=
  match wt_pid w with Some pid => claimKey (wt_container w) pid | None => launchClaimKey (wt_container w) end.
(** [claim]'s and [claimLaunch]'s test of a claim in the way. *)
Definition conflicts (w : wanted) (k : string) : bool :=
  has_prefix (wt_container w +:+ "/") k
  && match wt_pid w with
     | Some _ => (k =?s key_of w) || (k =?s launchClaimKey (wt_container w))
     | None => true
     end.

Abbreviation ptr := nat.

(** The first section of [take]: the claims in the way, or the claim taken. *)
Definition found_claims (w : wanted) (claims : gmap string ptr) : list (string * ptr) :=
  List.filter (fun '(k, _) => conflicts w k) (map_to_list claims).
(** Its last: the claims of the ended sessions it saw go, if still theirs. *)
Definition drop_ended (found : list (string * ptr)) (claims : gmap string ptr) : gmap string ptr :=
  fold_left (fun m '(k, h) => if decide (m !! k = Some h) then delete k m else m) found claims.
(** [release] *)
Definition release_claim (key : option string) (s : ptr) (claims : gmap string ptr) : gmap string ptr :=
  match key with
  | Some k => if decide (claims !! k = Some s) then delete k claims else claims
  | None => claims
  end.

(** [take], when nothing runs in between: [live] is what a session's [Info]
    says, [order] the order the map gives its claims in. Two rounds are
    enough (the second finds none). *)
Fixpoint take_alone (fuel : nat) (live : ptr → bool) (order : list (string * ptr) → list (string * ptr))
    (w : wanted) (s : ptr) (claims : gmap string ptr) : (option (string * ptr)) * gmap string ptr :=
  match order (found_claims w claims) with
  | [] => (None, <[key_of w := s]> claims)
  | found =>
    match List.find (fun '(_, h) => live h) found, fuel with
    | Some c, _ => (Some c, claims)
    | None, S fuel => take_alone fuel live order w s (drop_ended found claims)
    | None, O => (None, claims)
    end
  end.

(** [liveClaimOn]: of the sessions with a claim, in the map's order, the first
    live one whose container [ref] names. *)
Definition liveClaimOn (live : ptr → bool) (container_of : ptr → option (string * string)) (holders : list ptr) (ref : string)
    : option ptr :=
  List.find live
    (List.filter (fun h => match container_of h with
                           | Some (id, name) => (name =?s ref) || ((12 <=? slen ref) && has_prefix ref id)
                           | None => false
                           end) holders).

(** ** The table *)

Record table := mkTable {
  tb_sessions : gmap string ptr; tb_claims : gmap string ptr; tb_disk : gmap string ptr;
  tb_key : gmap ptr string }.   (* each session's claimKey *)
#[global] Instance eta_table : Eta table :=
  fun r => mkTable (tb_sessions r) (tb_claims r) (tb_disk r) (tb_key r).
Definition empty_table : table := mkTable ∅ ∅ ∅ ∅.

Definition add (id : string) (s : ptr) (t : table) : table := t <| tb_sessions ::= <[id := s]> |>.
Definition remove (id : string) (t : table) : table := t <| tb_sessions ::= delete id |>.
(** [removeSession]: whether [s]'s id still named it. *)
Definition removeSession (id : string) (s : ptr) (t : table) : bool * table :=
  if decide (tb_sessions t !! id = Some s) then (true, remove id t) else (false, t).
Definition saveIfLive (id : string) (s : ptr) (t : table) : table :=
  if decide (tb_sessions t !! id = Some s) then t <| tb_disk ::= <[id := s]> |> else t.
Definition forget (id : string) (t : table) : table := t <| tb_disk ::= delete id |>.
(** [StopAll]'s section: every session unmapped, those it had. *)
Definition clear (t : table) : list string * table :=
  (map fst (map_to_list (tb_sessions t)), t <| tb_sessions := ∅ |>).
Definition release (s : ptr) (t : table) : table := t <| tb_claims ::= release_claim (tb_key t !! s) s |>.

(** What is still to do: the rest of a [take] (looking for claims in its way,
    reading the state of those found, having seen that they all ended), and
    the metadata a removed session leaves. *)
Inductive task :=
  | Taking (s : ptr) (w : wanted)
  | Reading (s : ptr) (w : wanted) (found : list (string * ptr)) (rest : list (string * ptr))
  | Forgetting (id : string).

(** The table and its tasks; and, of the history, the sessions released and
    those some [take] saw exited. *)
Record world := mkWorld { wd_table : table; wd_tasks : list task; wd_released : gset ptr; wd_seen : gset ptr }.
#[global] Instance eta_world : Eta world := fun r => mkWorld (wd_table r) (wd_tasks r) (wd_released r) (wd_seen r).
Definition new_world : world := mkWorld empty_table [] ∅ ∅.

(** Whether a session's claim is taken or being taken. *)
Definition taker (t : task) : option ptr :=
  match t with Taking s _ | Reading s _ _ _ => Some s | Forgetting _ => None end.
Definition claimant (s : ptr) (w : world) : Prop := is_Some (tb_key (wd_table w) !! s) ∨ Some s ∈ map taker (wd_tasks w).

Inductive tstep : world → world → Prop :=
  | ts_claim w s wt : ¬ claimant s w → contains_byte "/" (wt_container wt) = false → (∀ pid, wt_pid wt = Some pid → 0 ≤ pid) →
      tstep w (w <| wd_tasks ::= cons (Taking s wt) |>)
  | ts_taken w l1 l2 s wt :
      wd_tasks w = l1 ++ Taking s wt :: l2 → found_claims wt (tb_claims (wd_table w)) = [] →
      tstep w (w <| wd_table ::= (fun t => t <| tb_claims ::= <[key_of wt := s]> |> <| tb_key ::= <[s := key_of wt]> |>) |>
                 <| wd_tasks := l1 ++ l2 |>)
  | ts_found w l1 l2 s wt found :
      wd_tasks w = l1 ++ Taking s wt :: l2 → found ≡ₚ found_claims wt (tb_claims (wd_table w)) → found ≠ [] →
      tstep w (w <| wd_tasks := l1 ++ Reading s wt found found :: l2 |>)
  | ts_refused w l1 l2 s wt found k h rest :
      (* the session read is live: the start fails *)
      wd_tasks w = l1 ++ Reading s wt found ((k, h) :: rest) :: l2 → tstep w (w <| wd_tasks := l1 ++ l2 |>)
  | ts_ended w l1 l2 s wt found k h rest :
      wd_tasks w = l1 ++ Reading s wt found ((k, h) :: rest) :: l2 →
      tstep w (w <| wd_tasks := l1 ++ Reading s wt found rest :: l2 |> <| wd_seen ::= union {[h]} |>)
  | ts_takeover w l1 l2 s wt found :
      wd_tasks w = l1 ++ Reading s wt found [] :: l2 →
      tstep w (w <| wd_table ::= (fun t => t <| tb_claims ::= drop_ended found |>) |> <| wd_tasks := l1 ++ Taking s wt :: l2 |>)
  | ts_release w s : tstep w (w <| wd_table ::= release s |> <| wd_released ::= union {[s]} |>)
  | ts_add w id s : tstep w (w <| wd_table ::= add id s |>)
  | ts_save w id s : tstep w (w <| wd_table ::= saveIfLive id s |>)
  | ts_remove_session w id s t :
      removeSession id s (wd_table w) = (true, t) →
      tstep w (w <| wd_table := t |> <| wd_tasks ::= cons (Forgetting id) |>)
  | ts_remove w id : tstep w (w <| wd_table ::= remove id |> <| wd_tasks ::= cons (Forgetting id) |>)
  | ts_clear w ids t :
      clear (wd_table w) = (ids, t) → tstep w (w <| wd_table := t |> <| wd_tasks ::= app (map Forgetting ids) |>)
  | ts_forget w l1 l2 id :
      wd_tasks w = l1 ++ Forgetting id :: l2 → tstep w (w <| wd_table ::= forget id |> <| wd_tasks := l1 ++ l2 |>)
  | ts_forget_lost w id : tstep w (w <| wd_table ::= forget id |>).

(** * What the manager's table promises (claims.go, manager.go)

    However starts, stops and ends of sessions interleave: two sessions whose
    claims fight over a container are never both at work, and no metadata
    stays on disk of a session that was removed. *)

Open Scope Z_scope.

(** ** Keys *)

Definition ok_wanted (w : wanted) : Prop :=
  contains_byte "/" (wt_container w) = false ∧ ∀ pid, wt_pid w = Some pid → 0 ≤ pid.

(** Two claims fight: the same process, or a whole container and any part of it. *)
Definition rivals (w w' : wanted) : Prop :=
  wt_container w = wt_container w' ∧ (wt_pid w = wt_pid w' ∨ wt_pid w = None ∨ wt_pid w' = None).

Definition suffix_of (w : wanted) : string := match wt_pid w with Some pid => itoa pid | None => launchClaimSuffix end.

Lemma key_of_cut w : ok_wanted w → cut_at "/" (key_of w) = Some (wt_container w, suffix_of w).
Proof. intros [H _]. unfold key_of, suffix_of, claimKey, launchClaimKey. destruct (wt_pid w); by apply cut_at_app. Qed.

Lemma itoa_inj a b : 0 ≤ a → 0 ≤ b → itoa a = itoa b → a = b.
Proof. intros Ha Hb H. rewrite <- (digits_val_itoa_0 a), <- (digits_val_itoa_0 b) by done. by rewrite H. Qed.
Lemma itoa_not_launch a : 0 ≤ a → itoa a ≠ launchClaimSuffix.
Proof. intros Ha H. apply itoa_digits in Ha. by rewrite H in Ha. Qed.

Lemma suffix_inj w w' : ok_wanted w → ok_wanted w' → suffix_of w = suffix_of w' → wt_pid w = wt_pid w'.
Proof.
  intros [_ H] [_ H']. unfold suffix_of. destruct (wt_pid w) as [a|], (wt_pid w') as [b|]; [| | |done].
  - intros E. f_equal. by apply itoa_inj; [apply H|apply H'|].
  - intros E. by destruct (itoa_not_launch a (H a eq_refl)).
  - intros E. by destruct (itoa_not_launch b (H' b eq_refl)).
Qed.

Lemma key_of_inj w w' : ok_wanted w → ok_wanted w' → key_of w = key_of w' → w = w'.
Proof.
  intros Hw Hw' H. pose proof (key_of_cut w Hw) as E. rewrite H, (key_of_cut w' Hw') in E. injection E as E1 E2.
  symmetry in E2. apply suffix_inj in E2; [|done..]. destruct w, w'; cbn in *; by subst.
Qed.

(** A key has a container's prefix when it is that container's. *)
Lemma key_prefix w c : ok_wanted w → contains_byte "/" c = false → has_prefix (c +:+ "/") (key_of w) = true ↔ c = wt_container w.
Proof.
  intros Hw Hc. split.
  - intros [r Hr]%has_prefix_spec. pose proof (key_of_cut w Hw) as E. rewrite Hr in E.
    change ((c +:+ "/") +:+ r) with ((c +:+ String "/" "") +:+ r) in E. rewrite string_app_assoc in E.
    change (String "/" "" +:+ r) with (String "/" r) in E. rewrite cut_at_app in E by done. by injection E as -> _.
  - intros ->. apply has_prefix_spec. exists (suffix_of w). rewrite string_app_assoc. unfold key_of, suffix_of, claimKey, launchClaimKey.
    by destruct (wt_pid w).
Qed.

Lemma launch_key w : ok_wanted w → key_of (mkWanted (wt_container w) None) = launchClaimKey (wt_container w) ∧ ok_wanted (mkWanted (wt_container w) None).
Proof. intros [H _]. done. Qed.

Lemma conflicts_rivals w w' : ok_wanted w → ok_wanted w' → conflicts w (key_of w') = true ↔ rivals w w'.
Proof.
  intros Hw Hw'. unfold conflicts, rivals. rewrite andb_true_iff, key_prefix by (done || apply Hw).
  split; intros [Hc H]; (split; [done|]).
  - destruct (wt_pid w) as [pid|] eqn:Ep; [|auto]. apply orb_true_iff in H as [H|H]; apply String.eqb_eq in H.
    + apply key_of_inj in H as ->; [|done..]. by left.
    + rewrite Hc in H. destruct (launch_key w' Hw') as [E Hl]. rewrite <- E in H. apply key_of_inj in H as ->; [|done..]. by right; right.
  - destruct (wt_pid w) as [pid|] eqn:Ep; [|done]. apply orb_true_iff. destruct H as [H|[H|H]]; [|done|].
    + left. apply String.eqb_eq. f_equal. destruct w, w'; cbn in *; by subst.
    + right. apply String.eqb_eq. rewrite Hc. unfold key_of. by rewrite H.
Qed.

Lemma drop_ended_lookup found m k h :
  drop_ended found m !! k = Some h ↔ m !! k = Some h ∧ (k, h) ∉ found.
Proof.
  unfold drop_ended. revert m. induction found as [|[k0 h0] found IH]; intros m; cbn [fold_left].
  { split; [intros H; split; [done|apply not_elem_of_nil]|by intros [? _]]. }
  rewrite IH. rewrite not_elem_of_cons. case_decide as E.
  - rewrite lookup_delete_Some. split.
    + intros [[Hne H] Hn]. split; [done|]. split; [congruence|done].
    + intros [H [Hne Hn]]. split; [split; [|done]|done]. intros ->. congruence.
  - split; [intros [H Hn]; split; [done|split; [congruence|done]]|by intros [H [_ Hn]]].
Qed.

Lemma found_claims_spec wt m k h : (k, h) ∈ found_claims wt m ↔ m !! k = Some h ∧ conflicts wt k = true.
Proof.
  unfold found_claims. rewrite list_elem_of_In, List.filter_In, <- list_elem_of_In, elem_of_map_to_list. done.
Qed.

(** ** The claims *)

(** What a task of a [take] knows: it works for a session without a claim, and
    the claims it found are others' that fight its own; those it has read of
    sessions that had ended. *)
Definition task_ok (w : world) (t : task) : Prop :=
  match t with
  | Taking s wt => ok_wanted wt ∧ tb_key (wd_table w) !! s = None
  | Reading s wt found rest =>
    ok_wanted wt ∧ tb_key (wd_table w) !! s = None
    ∧ (∀ k h, (k, h) ∈ found → conflicts wt k = true ∧ tb_key (wd_table w) !! h = Some k ∧ ((k, h) ∈ rest ∨ h ∈ wd_seen w))
    ∧ ∀ x, x ∈ rest → x ∈ found
  | Forgetting _ => True
  end.

Record claims_ok (w : world) : Prop := {
  co_key : ∀ k h, tb_claims (wd_table w) !! k = Some h → tb_key (wd_table w) !! h = Some k;
  co_form : ∀ h k, tb_key (wd_table w) !! h = Some k → ∃ wt, ok_wanted wt ∧ k = key_of wt;
  co_apart : ∀ wt wt' h h', ok_wanted wt → ok_wanted wt' → tb_claims (wd_table w) !! key_of wt = Some h →
    tb_claims (wd_table w) !! key_of wt' = Some h' → rivals wt wt' → h = h';
  co_kept : ∀ h k, tb_key (wd_table w) !! h = Some k →
    tb_claims (wd_table w) !! k = Some h ∨ h ∈ wd_released w ∨ h ∈ wd_seen w;
  co_takers : NoDup (omap taker (wd_tasks w));
  co_tasks : ∀ t, t ∈ wd_tasks w → task_ok w t }.

Lemma claims_ok_new : claims_ok new_world.
Proof.
  split; cbn; try done; try (intros *; by rewrite ?lookup_empty); try apply NoDup_nil_2.
  all: try (intros t Ht; by apply elem_of_nil in Ht).
Qed.

(** The tasks alone change. *)
Lemma claims_ok_tasks w w' :
  claims_ok w → wd_table w' = wd_table w → wd_released w' = wd_released w → wd_seen w ⊆ wd_seen w' →
  NoDup (omap taker (wd_tasks w')) → (∀ t, t ∈ wd_tasks w' → t ∈ wd_tasks w ∨ task_ok w' t) → claims_ok w'.
Proof.
  intros [H1 H2 H3 H4 H5 H6] E1 E2 E3 Hnd Ht. split; rewrite ?E1, ?E2; try done.
  - intros h k Hk. destruct (H4 h k Hk) as [?|[?|?]]; auto.
  - intros t Hin. destruct (Ht t Hin) as [Hold|?]; [|done]. apply H6 in Hold. unfold task_ok in *. rewrite E1.
    destruct t as [s0 wt|s wt found rest|id]; [done| |done]. destruct Hold as (? & ? & Hf & ?).
    split; [done|]. split; [done|]. split; [|done]. intros k h Hkh. destruct (Hf k h Hkh) as (? & ? & [?|?]); auto.
Qed.

Lemma takers_drop l1 l2 t : NoDup (omap taker (l1 ++ t :: l2)) → NoDup (omap taker (l1 ++ l2)).
Proof.
  rewrite !omap_app. cbn. destruct (taker t); [|done]. rewrite !NoDup_app, NoDup_cons. set_solver.
Qed.
Lemma takers_replace l1 l2 t t' : taker t' = taker t → NoDup (omap taker (l1 ++ t :: l2)) → NoDup (omap taker (l1 ++ t' :: l2)).
Proof. rewrite !omap_app. cbn. by intros ->. Qed.

Lemma claims_taken w l1 l2 s wt :
  claims_ok w → wd_tasks w = l1 ++ Taking s wt :: l2 → found_claims wt (tb_claims (wd_table w)) = [] →
  claims_ok (w <| wd_table ::= (fun t => t <| tb_claims ::= <[key_of wt := s]> |> <| tb_key ::= <[s := key_of wt]> |>) |>
               <| wd_tasks := l1 ++ l2 |>).
Proof.
  intros [H1 H2 H3 H4 H5 H6] Ht Hf.
  assert (Hnew : task_ok w (Taking s wt)) by (apply H6; rewrite Ht; set_solver). destruct Hnew as [Hok Hs].
  assert (Hnone : ∀ wt' h, ok_wanted wt' → tb_claims (wd_table w) !! key_of wt' = Some h → ¬ rivals wt wt').
  { intros wt' h Hok' Hh Hr. apply conflicts_rivals in Hr; [|done..].
    assert (Hin : (key_of wt', h) ∈ found_claims wt (tb_claims (wd_table w))) by by apply found_claims_spec. rewrite Hf in Hin. set_solver. }
  assert (Hfree : tb_claims (wd_table w) !! key_of wt = None).
  { destruct (tb_claims (wd_table w) !! key_of wt) as [h|] eqn:E; [|done]. destruct (Hnone wt h Hok E). split; auto. }
  assert (Hne : ∀ h k, tb_key (wd_table w) !! h = Some k → s ≠ h) by (intros h k Hk <-; congruence).
  split; cbn; try done.
  - intros k h. rewrite lookup_insert_Some. intros [[<- <-]|[Hk Hh]]; [apply lookup_insert_eq|].
    apply H1 in Hh. rewrite lookup_insert_ne; [done|by eapply Hne].
  - intros h k. rewrite lookup_insert_Some. intros [[_ <-]|[_ Hk]]; [by exists wt|by eapply H2].
  - intros wt1 wt2 h h' Ho1 Ho2. rewrite !lookup_insert_Some.
    intros [[E1 <-]|[_ Hh]] [[E2 <-]|[_ Hh']] [Hc Hp]; [done| | |by apply (H3 wt1 wt2)].
    + apply key_of_inj in E1 as <-; [|done..]. by destruct (Hnone wt2 h' Ho2 Hh').
    + apply key_of_inj in E2 as <-; [|done..]. destruct (Hnone wt1 h Ho1 Hh). split; [done|]. naive_solver.
  - intros h k. rewrite lookup_insert_Some. intros [[<- <-]|[_ Hk]]; [left; apply lookup_insert_eq|].
    destruct (H4 h k Hk) as [Hh|?]; [|by right]. left. rewrite lookup_insert_ne; [done|]. intros <-. congruence.
  - apply (takers_drop _ _ (Taking s wt)). by rewrite <- Ht.
  - assert (Hother : ∀ t, t ∈ l1 ++ l2 → taker t ≠ Some s).
    { intros t Hin Hts. rewrite Ht, omap_app in H5. cbn in H5. apply NoDup_app in H5 as (_ & Hd & Hn). apply NoDup_cons in Hn as [Hn _].
      assert (Hm : ∀ l, t ∈ l → s ∈ omap taker l) by (intros l Hl; apply list_elem_of_omap; by exists t).
      apply elem_of_app in Hin as [Hin|Hin]; [apply (Hd s (Hm _ Hin)); by left|by apply Hn, Hm]. }
    intros t Hin. specialize (Hother t Hin). assert (Ho : task_ok w t) by (apply H6; rewrite Ht; set_solver).
    destruct t as [s' wt'|s' wt' found rest|]; cbn in *; [| |done].
    + destruct Ho as [? Hk]. split; [done|]. rewrite lookup_insert_ne; [done|congruence].
    + destruct Ho as (? & Hk & Hr & ?). split; [done|]. split; [rewrite lookup_insert_ne; [done|congruence]|]. split; [|done].
      intros k h Hkh. destruct (Hr k h Hkh) as (? & Hkey & ?). split_and!; [done| |done]. rewrite lookup_insert_ne; [done|by eapply Hne].
Qed.

(** Claims go: of sessions released, or seen exited. *)
Lemma claims_gone w w' :
  claims_ok w → tb_key (wd_table w') = tb_key (wd_table w) → wd_seen w' = wd_seen w → wd_released w ⊆ wd_released w' →
  (∀ k h, tb_claims (wd_table w') !! k = Some h → tb_claims (wd_table w) !! k = Some h) →
  (∀ k h, tb_claims (wd_table w) !! k = Some h →
     tb_claims (wd_table w') !! k = Some h ∨ h ∈ wd_released w' ∨ h ∈ wd_seen w') →
  NoDup (omap taker (wd_tasks w')) → (∀ t, t ∈ wd_tasks w' → t ∈ wd_tasks w ∨ task_ok w' t) → claims_ok w'.
Proof.
  intros [H1 H2 H3 H4 H5 H6] E1 E2 E3 Hsub Hgone Hnd Ht. split; rewrite ?E1; try done.
  - intros k h Hk. by apply H1, Hsub.
  - intros wt wt' h h' Ho Ho' Hk Hk' Hr. eapply (H3 wt wt'); eauto.
  - intros h k Hk. destruct (H4 h k Hk) as [Hc|[?|?]]; [by apply Hgone|auto|right; right; by rewrite E2].
  - intros t Hin. destruct (Ht t Hin) as [Hold|?]; [|done]. apply H6 in Hold. unfold task_ok in *. rewrite E1, E2. by destruct t.
Qed.

Lemma claims_ok_table w w' :
  claims_ok w → tb_key (wd_table w') = tb_key (wd_table w) → tb_claims (wd_table w') = tb_claims (wd_table w) →
  wd_seen w' = wd_seen w → wd_released w' = wd_released w →
  NoDup (omap taker (wd_tasks w')) → (∀ t, t ∈ wd_tasks w' → t ∈ wd_tasks w ∨ task_ok w' t) → claims_ok w'.
Proof.
  intros H E1 E2 E3 E4. apply claims_gone; try done; rewrite ?E2, ?E4; auto.
Qed.

Lemma claims_release w s : claims_ok w → claims_ok (w <| wd_table ::= release s |> <| wd_released ::= union {[s]} |>).
Proof.
  intros H. apply (claims_gone w); try done; cbn; [set_solver| | |apply (co_takers w H)|auto]; intros k h; unfold release_claim.
  - destruct (tb_key (wd_table w) !! s) as [k'|]; [|done]. case_decide; [|done]. by intros [_ ?]%lookup_delete_Some.
  - intros Hk. destruct (tb_key (wd_table w) !! s) as [k'|]; [|by left]. case_decide as E; [|by left].
    destruct (decide (k' = k)) as [->|]; [|left; by apply lookup_delete_Some]. right; left.
    assert (h = s) as -> by congruence. set_solver.
Qed.

Lemma claims_takeover w l1 l2 s wt found :
  claims_ok w → wd_tasks w = l1 ++ Reading s wt found [] :: l2 →
  claims_ok (w <| wd_table ::= (fun t => t <| tb_claims ::= drop_ended found |>) |> <| wd_tasks := l1 ++ Taking s wt :: l2 |>).
Proof.
  intros H Ht. assert (Hr : task_ok w (Reading s wt found [])) by (apply (co_tasks w H); rewrite Ht; set_solver).
  destruct Hr as (Hok & Hs & Hf & _). apply (claims_gone w); try done; cbn.
  - intros k h [Hk _]%drop_ended_lookup. done.
  - intros k h Hk. destruct (decide ((k, h) ∈ found)) as [Hin|]; [|left; by apply drop_ended_lookup].
    destruct (Hf k h Hin) as (_ & _ & [Hno|?]); [by apply elem_of_nil in Hno|auto].
  - apply (takers_replace _ _ (Reading s wt found [])); [done|]. rewrite <- Ht. apply (co_takers w H).
  - intros t. rewrite elem_of_app, elem_of_cons. intros [Hin|[->|Hin]]; [|right; done|]; left; rewrite Ht; set_solver.
Qed.

(** Tasks that leave the claims as they are. *)
Lemma claims_read w l1 l2 t t' seen :
  claims_ok w → wd_tasks w = l1 ++ t :: l2 → taker t' = taker t → wd_seen w ⊆ seen →
  (task_ok w t → task_ok (w <| wd_tasks := l1 ++ t' :: l2 |> <| wd_seen := seen |>) t') →
  claims_ok (w <| wd_tasks := l1 ++ t' :: l2 |> <| wd_seen := seen |>).
Proof.
  intros H Ht Et Hs Hok. apply (claims_ok_tasks w); try done; cbn.
  - apply (takers_replace _ _ t); [done|]. rewrite <- Ht. apply (co_takers w H).
  - intros x. rewrite elem_of_app, elem_of_cons. intros [Hin|[->|Hin]]; [left; rewrite Ht; set_solver| |left; rewrite Ht; set_solver].
    right. apply Hok, (co_tasks w H). rewrite Ht. set_solver.
Qed.

Lemma takers_forgetting ids l : omap taker (map Forgetting ids ++ l) = omap taker l.
Proof. induction ids as [|id ids IH]; [done|]. cbn. exact IH. Qed.

Lemma claims_drop_task w l1 l2 t :
  claims_ok w → wd_tasks w = l1 ++ t :: l2 →
  NoDup (omap taker (l1 ++ l2)) ∧ ∀ x, x ∈ l1 ++ l2 → x ∈ wd_tasks w.
Proof.
  intros H Ht. split; [apply (takers_drop _ _ t); rewrite <- Ht; apply (co_takers w H)|].
  intros x. rewrite Ht. set_solver.
Qed.

Lemma claims_step w w' : tstep w w' → claims_ok w → claims_ok w'.
Proof.
  intros Hs H. pose proof (co_takers w H) as Hnd. destruct Hs.
  - apply (claims_ok_tasks w); try done; cbn.
    + apply NoDup_cons. split; [|done]. intros Hin. apply H0. right. apply list_elem_of_omap in Hin as (t & Ht & Et).
      apply list_elem_of_fmap. by exists t.
    + intros t. rewrite elem_of_cons. intros [->|?]; [right|by left]. split; [done|].
      destruct (tb_key (wd_table w) !! s) eqn:E; [|done]. destruct H0. left. cbn. by rewrite E.
  - by apply claims_taken.
  - apply (claims_read w l1 l2 (Taking s wt) (Reading s wt found found) (wd_seen w)); try done.
    intros [Hok Hk]. split; [done|]. split; [done|]. split; [|done]. intros k h Hkh. split; [|split; [|by left]].
    + rewrite H1 in Hkh. by apply found_claims_spec in Hkh as [_ ?].
    + rewrite H1 in Hkh. apply found_claims_spec in Hkh as [? _]. by apply (co_key w H).
  - destruct (claims_drop_task w l1 l2 _ H H0) as [? ?]. apply (claims_ok_tasks w); auto.
  - apply (claims_read w l1 l2 (Reading s wt found ((k, h) :: rest)) (Reading s wt found rest) ({[h]} ∪ wd_seen w)); try done; [set_solver|].
    intros (Hok & Hk & Hf & Hsub). split; [done|]. split; [done|]. split; [|intros x Hx; apply Hsub; by right]. intros k' h' Hkh. destruct (Hf k' h' Hkh) as (? & ? & Hr).
    split_and!; [done|done|]. destruct Hr as [[[= -> ->]|?]%elem_of_cons|?]; cbn; set_solver.
  - by apply claims_takeover.
  - by apply claims_release.
  - by apply (claims_ok_table w); auto.
  - apply (claims_ok_table w); auto; cbn; unfold saveIfLive; by case_decide.
  - unfold removeSession in H0. case_decide; [|done]. injection H0 as <-.
    apply (claims_ok_table w); auto. cbn. intros t. rewrite elem_of_cons. intros [->|?]; [by right|by left].
  - apply (claims_ok_table w); auto. cbn. intros t. rewrite elem_of_cons. intros [->|?]; [by right|by left].
  - injection H0 as <- <-. apply (claims_ok_table w); auto; cbn; [by rewrite takers_forgetting|].
    intros t. rewrite elem_of_app. intros [(id & -> & _)%list_elem_of_fmap|?]; [by right|by left].
  - destruct (claims_drop_task w l1 l2 _ H H0) as [? ?]. apply (claims_ok_table w); auto.
  - by apply (claims_ok_table w); auto.
Qed.

(** A session at work under a claim: it was given one, and was neither
    released nor seen exited by a start that took its claim over. *)
Definition at_work (w : world) (s : ptr) (wt : wanted) : Prop :=
  ok_wanted wt ∧ tb_key (wd_table w) !! s = Some (key_of wt) ∧ (s ∉ wd_released w) ∧ (s ∉ wd_seen w).

(** C18: in every state the manager's table reaches, two sessions whose claims
    fight (for one process of a container, or for a whole container and part
    of it) are never both at work: a claim is only taken over from a session
    that was seen exited. And a start that is refused names a session that was
    given a claim that does fight its own. *)
Theorem claims_exclusive w (Hw : rtc tstep new_world w) :
  (∀ s s' wt wt', at_work w s wt → at_work w s' wt' → rivals wt wt' → s = s')
  ∧ ∀ s wt found k h rest, Reading s wt found ((k, h) :: rest) ∈ wd_tasks w →
      ∃ wt', ok_wanted wt' ∧ tb_key (wd_table w) !! h = Some (key_of wt') ∧ k = key_of wt' ∧ rivals wt wt'.
Proof.
  assert (H : claims_ok w).
  { clear -Hw. assert (Hg : ∀ w0, rtc tstep w0 w → claims_ok w0 → claims_ok w).
    { clear. induction 1 as [|w0 w1 w2 Hs _ IH]; [done|]. intros H. by apply IH, (claims_step w0). }
    apply (Hg _ Hw), claims_ok_new. }
  split.
  - intros s s' wt wt' (Ho & Hk & Hr & Hsn) (Ho' & Hk' & Hr' & Hsn') Hriv.
    destruct (co_kept w H _ _ Hk) as [Hc|[?|?]]; [|done..]. destruct (co_kept w H _ _ Hk') as [Hc'|[?|?]]; [|done..].
    by apply (co_apart w H wt wt').
  - intros s wt found k h rest Hin. apply (co_tasks w H) in Hin as (Hok & _ & Hr & Hsub).
    destruct (Hr k h ltac:(apply Hsub; by left)) as (Hc & Hk & _). destruct (co_form w H h k Hk) as (wt' & Hok' & ->). exists wt'.
    split_and!; [done..|]. by apply conflicts_rivals in Hc.
Qed.

(** ** The metadata *)

Definition metadata_ok (w : world) : Prop :=
  ∀ id s, tb_disk (wd_table w) !! id = Some s → is_Some (tb_sessions (wd_table w) !! id) ∨ Forgetting id ∈ wd_tasks w.

Lemma metadata_same w w' :
  metadata_ok w → tb_disk (wd_table w') = tb_disk (wd_table w) → tb_sessions (wd_table w') = tb_sessions (wd_table w) →
  (∀ id, Forgetting id ∈ wd_tasks w → Forgetting id ∈ wd_tasks w') → metadata_ok w'.
Proof. intros H E1 E2 Ht id s. rewrite E1, E2. intros Hd. destruct (H id s Hd); auto. Qed.

Lemma metadata_step w w' : tstep w w' → metadata_ok w → metadata_ok w'.
Proof.
  assert (Hm : ∀ l1 l2 (t : task) id, (∀ id, t ≠ Forgetting id) → Forgetting id ∈ l1 ++ t :: l2 → Forgetting id ∈ l1 ++ l2).
  { intros l1 l2 t id Hne. rewrite !elem_of_app, elem_of_cons. intros [?|[E|?]]; auto. by destruct (Hne id). }
  assert (Hr : ∀ l1 l2 (t t' : task) id, (∀ id, t ≠ Forgetting id) → Forgetting id ∈ l1 ++ t :: l2 → Forgetting id ∈ l1 ++ t' :: l2).
  { intros l1 l2 t t' id Hne. rewrite !elem_of_app, !elem_of_cons. intros [?|[E|?]]; auto. by destruct (Hne id). }
  intros Hs H. destruct Hs.
  - apply (metadata_same w); try done. cbn. intros id Hin. by right.
  - apply (metadata_same w); try done. cbn. intros id. rewrite H0. by apply Hm.
  - apply (metadata_same w); try done. cbn. intros id. rewrite H0. by apply Hr.
  - apply (metadata_same w); try done. cbn. intros id. rewrite H0. by apply Hm.
  - apply (metadata_same w); try done. cbn. intros id. rewrite H0. by apply Hr.
  - apply (metadata_same w); try done. cbn. intros id. rewrite H0. by apply Hr.
  - by apply (metadata_same w).
  - intros i x Hd. cbn in *. destruct (H i x Hd) as [Hi|?]; [left|by right]. destruct (decide (id = i)) as [<-|].
    + by rewrite lookup_insert_eq.
    + by rewrite lookup_insert_ne.
  - intros i x. cbn. unfold saveIfLive. case_decide as E; [|by apply H]. cbn. rewrite lookup_insert_Some.
    intros [[<- <-]|[_ Hd]]; [left; by rewrite E|by apply (H i x)].
  - unfold removeSession in H0. case_decide; [|done]. injection H0 as <-. intros i x Hd. cbn in *.
    destruct (decide (id = i)) as [<-|]; [right; by left|]. rewrite lookup_delete_ne by done.
    destruct (H i x Hd); [by left|right; by right].
  - intros i x Hd. cbn in *. destruct (decide (id = i)) as [<-|]; [right; by left|]. rewrite lookup_delete_ne by done.
    destruct (H i x Hd); [by left|right; by right].
  - injection H0 as <- <-. intros i x Hd. cbn in *. right. apply elem_of_app. destruct (H i x Hd) as [[y Hy]|?]; [left|by right].
    apply list_elem_of_fmap. exists i. split; [done|]. apply list_elem_of_fmap. exists (i, y). split; [done|]. by apply elem_of_map_to_list.
  - intros i x. cbn. rewrite lookup_delete_Some. intros [Hne Hd]. destruct (H i x Hd) as [?|Hin]; [by left|right].
    rewrite H0, elem_of_app, elem_of_cons in Hin. apply elem_of_app. destruct Hin as [?|[[= ->]|?]]; auto. done.
  - intros i x. cbn. rewrite lookup_delete_Some. intros [_ Hd]. by apply (H i x).
Qed.

(** No metadata outlives its session: in every state the table reaches,
    an id with metadata on disk names a session of the table, or is about to
    be forgotten; once nothing is left to do, the disk holds sessions of the
    table only, however a late save raced with a stop. *)
Theorem metadata_follows w (Hw : rtc tstep new_world w) :
  metadata_ok w ∧ (wd_tasks w = [] → ∀ id, is_Some (tb_disk (wd_table w) !! id) → is_Some (tb_sessions (wd_table w) !! id)).
Proof.
  assert (H : metadata_ok w).
  { assert (Hg : ∀ w0, rtc tstep w0 w → metadata_ok w0 → metadata_ok w).
    { clear. induction 1 as [|w0 w1 w2 Hs _ IH]; [done|]. intros H. by apply IH, (metadata_step w0). }
    apply (Hg _ Hw). intros id s. cbn. by rewrite lookup_empty. }
  split; [done|]. intros Ht id [s Hs]. destruct (H id s Hs) as [?|Hin]; [done|]. rewrite Ht in Hin. by apply elem_of_nil in Hin.
Qed.

(** ** A container launched by one session, that another wants to attach to *)

Definition launched : wanted := mkWanted "c0ffee" None.
Definition attaching : wanted := mkWanted "c0ffee" (Some 7).
Definition after_launch : world :=
  new_world <| wd_table := mkTable ∅ {["c0ffee/launch"%string := 0%nat]} ∅ {[0%nat := "c0ffee/launch"%string]} |>.
Definition refusing : world := after_launch <| wd_tasks := [Reading 1%nat attaching [("c0ffee/launch"%string, 0%nat)] [("c0ffee/launch"%string, 0%nat)]] |>.

Lemma refusing_reached : rtc tstep new_world refusing.
Proof.
  eapply rtc_l; [apply (ts_claim new_world 0%nat launched)|].
  { intros [[x Hx]|Hin]; [by vm_compute in Hx|by apply elem_of_nil in Hin]. }
  { reflexivity. }
  { intros pid [=]. }
  eapply rtc_l; [eapply (ts_taken _ [] [] 0%nat launched); [reflexivity|vm_compute; reflexivity]|].
  eapply rtc_l; [apply (ts_claim _ 1%nat attaching)|].
  { intros [[x Hx]|Hin]; [by vm_compute in Hx|by apply elem_of_nil in Hin]. }
  { reflexivity. }
  { intros pid [= <-]. done. }
  eapply rtc_l; [eapply (ts_found _ [] [] 1%nat attaching [("c0ffee/launch"%string, 0%nat)]); [reflexivity|vm_compute; reflexivity|discriminate]|].
  apply rtc_refl.
Qed.

Lemma claims_exclusive_witness :
  ∃ wt', ok_wanted wt' ∧ tb_key (wd_table refusing) !! 0%nat = Some (key_of wt') ∧ "c0ffee/launch"%string = key_of wt' ∧ rivals attaching wt'.
Proof.
  destruct (claims_exclusive refusing refusing_reached) as [_ H].
  apply (H 1%nat attaching [("c0ffee/launch"%string, 0%nat)] "c0ffee/launch"%string 0%nat []). left.
Defined.

(** ** A session stopped while its metadata was being saved *)

Definition kept : world :=
  new_world <| wd_table := mkTable {["s-cd34"%string := 1%nat]} ∅ {["s-cd34"%string := 1%nat]} ∅ |>.

Lemma kept_reached : rtc tstep new_world kept.
Proof.
  eapply rtc_l; [apply (ts_add _ "s-ab12" 0%nat)|].
  eapply rtc_l; [apply (ts_add _ "s-cd34" 1%nat)|].
  eapply rtc_l; [apply (ts_save _ "s-ab12" 0%nat)|].
  eapply rtc_l; [apply (ts_save _ "s-cd34" 1%nat)|].
  eapply rtc_l; [eapply (ts_remove_session _ "s-ab12" 0%nat); vm_compute; reflexivity|].
  eapply rtc_l; [apply (ts_save _ "s-ab12" 0%nat)|].
  eapply rtc_l; [apply (ts_forget _ [] [] "s-ab12"); reflexivity|]. vm_compute. apply rtc_refl.
Qed.

Lemma metadata_follows_witness :
  tb_disk (wd_table kept) !! "s-cd34"%string = Some 1%nat ∧ is_Some (tb_sessions (wd_table kept) !! "s-cd34"%string).
Proof.
  split; [vm_compute; reflexivity|].
  apply (proj2 (metadata_follows kept kept_reached) ltac:(reflexivity) "s-cd34"%string). exists 1%nat. vm_compute. reflexivity.
Defined.

(** [Detach] unmaps by id: once its session was stopped by another client and
    its id drawn again, it unmaps the newer session, which nothing ends. *)
Lemma detach_unmaps_newer id : tb_sessions (remove id (add id 1%nat (remove id (add id 0%nat empty_table)))) !! id = None.
Proof. cbn. apply lookup_delete_eq. Qed.

(** ** A [take] that nothing interrupts *)

(** It is refused exactly when a live session holds a claim in the way, and
    then changes nothing; else the claim is the session's, and no other claim
    in its way is left. Two rounds are enough. *)
Lemma take_alone_spec live order wt s claims :
  (∀ l, order l ≡ₚ l) →
  let '(refused, claims') := take_alone 1 live order wt s claims in
  match refused with
  | Some (k, h) => claims !! k = Some h ∧ conflicts wt k = true ∧ live h = true ∧ claims' = claims
  | None => claims' !! key_of wt = Some s ∧ ∀ k h, claims !! k = Some h → conflicts wt k = true → live h = false
  end.
Proof.
  intros Ho.
  assert (Hin : ∀ m k h, (k, h) ∈ order (found_claims wt m) ↔ m !! k = Some h ∧ conflicts wt k = true).
  { intros m k h. rewrite Ho. apply found_claims_spec. }
  cbn [take_alone]. destruct (order (found_claims wt claims)) as [|c found] eqn:E.
  { split; [apply lookup_insert_eq|]. intros k h Hk Hc. assert (Hx : (k, h) ∈ order (found_claims wt claims)) by by apply Hin.
    rewrite E in Hx. by apply elem_of_nil in Hx. }
  rewrite <- E. destruct (List.find _ _) as [[k h]|] eqn:Ef.
  { apply List.find_some in Ef as [Hk Hl]. apply list_elem_of_In, Hin in Hk as [? ?]. by split_and!. }
  assert (Hl : ∀ k h, claims !! k = Some h → conflicts wt k = true → live h = false).
  { intros k h Hk Hc. pose proof (List.find_none _ _ Ef (k, h)) as Hn. apply Hn, list_elem_of_In, Hin. done. }
  destruct (order (found_claims wt (drop_ended (order (found_claims wt claims)) claims))) as [|[k h] found'] eqn:E'.
  { split; [apply lookup_insert_eq|done]. }
  exfalso. assert (Hx : (k, h) ∈ order (found_claims wt (drop_ended (order (found_claims wt claims)) claims))) by (rewrite E'; left).
  apply Hin in Hx as [[Hk Hno]%drop_ended_lookup Hc]. by apply Hno, Hin.
Qed.
