(* ===== verification/StoreSpec.v ===== *)
(** * What adding, removing and leaving promise (breakpoints.go, presence.go)

    Breakpoints are added to and removed from the lists by their owners, and
    a client that disconnects takes with it what its editor set, unless it
    is back by then. *)

From S2P Require Import Prelude GoStrings Api EventLog Prog Session Lease Slots Adapter Emulate Breakpoints Replace.
From S2P Require Import Exceptions Presence Invariant ReplaceSpec.
From Stdlib Require Import Bool.

Open Scope Z_scope.

(** ** Programs that leave the lists alone *)

Definition keeps_lists {A} (p : handler A) : Prop :=
  ∀ ad s h, let '(_, s', _) := run ad p s h in bps s' = bps s ∧ state s' = state s ∧ presences s' = presences s.

Lemma kl_ret {A} (a : A) : keeps_lists (ret a).
Proof. by intros ad s h. Qed.
Lemma kl_bind {A B} (p : handler A) (k : A → handler B) : keeps_lists p → (∀ a, keeps_lists (k a)) → keeps_lists (pbind p k).
Proof.
  intros Hp Hk ad s h. rewrite run_bind. specialize (Hp ad s h). destruct (run ad p s h) as [[a s1] h1].
  specialize (Hk a ad s1 h1). destruct (run ad (k a) s1 h1) as [[b s2] h2]. 
  destruct Hp as (H1 & H2 & H3), Hk as (H4 & H5 & H6). by rewrite H4, H5, H6.
Qed.
Lemma kl_section {A} (f : Session → A * Session) :
  (∀ s, bps (f s).2 = bps s ∧ state (f s).2 = state s ∧ presences (f s).2 = presences s) → keeps_lists (atomically f).
Proof. intros H ad s h. cbn. specialize (H s). by destruct (f s). Qed.
Lemma kl_send q : keeps_lists (send q : handler answer).
Proof. by intros ad s h. Qed.
Lemma kl_lock {A} m (p : handler A) : keeps_lists p → keeps_lists (with_lock m p).
Proof. intros Hp. intros ad s h. unfold with_lock. cbn [run]. apply (kl_bind p); [done|]. by intros a ad' s' h'. Qed.

Create HintDb lists discriminated.
#[export] Hint Resolve kl_ret kl_send : lists.

Lemma set_bps_lists l f s : bps (set_bps l f s) = bps s ∧ state (set_bps l f s) = state s ∧ presences (set_bps l f s) = presences s.
Proof. unfold set_bps. revert s. induction l as [|a l IH]; intros s; cbn [fold_left]; [done|]. by destruct (IH (set_bp a f s)) as (-> & -> & ->). Qed.

Lemma applySlots_lists slots got s :
  bps (applySlotsLocked slots got s) = bps s ∧ state (applySlotsLocked slots got s) = state s
  ∧ presences (applySlotsLocked slots got s) = presences s.
Proof.
  revert slots s. induction got as [|g got IH]; intros [|sl slots] s; cbn [applySlotsLocked]; try done.
  destruct (IH slots (set_bps (sl_bps sl) (apply_answer (slot_note sl) g) s)) as (-> & -> & ->). apply set_bps_lists.
Qed.

Lemma logAll_lists now action actor l s :
  bps (logAllLocked now action actor l s) = bps s ∧ state (logAllLocked now action actor l s) = state s
  ∧ presences (logAllLocked now action actor l s) = presences s.
Proof.
  unfold logAllLocked. revert s. induction l as [|a l IH]; intros s; cbn [fold_left]; [done|].
  by destruct (IH (logBreakpointLocked now action actor a s)) as (-> & -> & ->).
Qed.

Ltac lists_step :=
  first [ solve [auto with lists] | apply kl_lock | apply kl_bind; [|intros ?]
        | apply kl_section; intros ?; cbn [fst snd]; solve [done | apply applySlots_lists | apply logAll_lists]
        | match goal with |- keeps_lists (match ?x with _ => _ end) => destruct x end ].

Lemma kl_record slots ans : keeps_lists (record_answer slots ans).
Proof. unfold record_answer. repeat lists_step. Qed.
#[export] Hint Resolve kl_record : lists.
Lemma kl_syncKey key : keeps_lists (syncKey key).
Proof. unfold syncKey, syncFunctionBreakpoints, syncBreakpoints. repeat lists_step. Qed.
#[export] Hint Resolve kl_syncKey : lists.
Lemma kl_sync_keys keys : keeps_lists (sync_keys keys).
Proof. induction keys as [|k keys IH]; cbn [sync_keys]; repeat lists_step. Qed.
#[export] Hint Resolve kl_sync_keys : lists.

(** ** Removing *)

Definition doomed (matching : Session → Z → breakpoint → bool) (s : Session) (a : Z) : bool := matching s a (deref s a).

Lemma removed_lists matching s k :
  list_of (removeLocked matching s).2 k = delete_func (doomed matching s) (list_of s k).
Proof.
  unfold removeLocked, list_of. cbn. rewrite lookup_omap. destruct (bps s !! k) as [l|]; [|done].
  cbn [default option_bind mbind]. change (fun a => matching s a (deref s a)) with (doomed matching s).
  change (match not_nil (delete_func (doomed matching s) l) with Some x => x | None => [] end = delete_func (doomed matching s) l).
  by destruct (delete_func (doomed matching s) l).
Qed.

Lemma lists_after matching s s' k :
  bps s' = bps (removeLocked matching s).2 → list_of s' k = delete_func (doomed matching s) (list_of s k).
Proof. intros H. rewrite <- removed_lists. unfold list_of. by rewrite H. Qed.

Lemma filter_delete_length {A} (p : A → bool) l : (length (List.filter p l) + length (delete_func p l) = length l)%nat.
Proof. unfold delete_func. induction l as [|a l IH]; [done|]. cbn. destruct (p a); cbn; lia. Qed.

Lemma in_all_addrs s a : In a (all_addrs s) ↔ ∃ k, In a (list_of s k).
Proof.
  unfold all_addrs, list_of. rewrite List.in_concat. split.
  - intros (l & Hl & Ha). apply list_elem_of_In, list_elem_of_fmap in Hl as ([k l'] & -> & Hkl%elem_of_map_to_list).
    exists k. by rewrite Hkl.
  - intros (k & Ha). destruct (bps s !! k) as [l|] eqn:E; [|done]. exists l. split; [|done].
    apply list_elem_of_In, list_elem_of_fmap. exists (k, l). split; [done|]. by apply elem_of_map_to_list.
Qed.

Lemma run_removeBreakpoints ad now actor matching s h :
  let '(r, s', h') := run ad (removeBreakpoints now actor matching) s h in
  r.1 = (Z.of_nat (length (List.filter (doomed matching s) (all_addrs s))),
         Z.of_nat (length (delete_func (doomed matching s) (all_addrs s))))
  ∧ bps s' = bps (removeLocked matching s).2 ∧ state s' = state s ∧ presences s' = presences s
  ∧ (state s = StateExited → h' = h).
Proof.
  unfold removeBreakpoints. rewrite run_bind. cbn [run atomically].
  destruct (removeLocked matching s) as [[[[gone touched] kept] exited] s1] eqn:E.
  assert (Hs1 : state s1 = state s ∧ presences s1 = presences s ∧ gone = List.filter (doomed matching s) (all_addrs s)
    ∧ kept = Z.of_nat (length (delete_func (doomed matching s) (all_addrs s))) ∧ exited = bool_decide (state s = StateExited)).
  { unfold removeLocked in E. by injection E as <- <- <- <- <-. }
  destruct Hs1 as (Hst & Hpr & Hg & Hk & He). rewrite run_bind.
  assert (Hsync : let '(_, s2, h2) := run ad (if exited then ret (Ok ()) else sync_keys touched) s1 h in
    bps s2 = bps s1 ∧ state s2 = state s1 ∧ presences s2 = presences s1 ∧ (state s = StateExited → h2 = h)).
  { destruct exited; [done|]. pose proof (kl_sync_keys touched ad s1 h) as H. destruct (run _ _ _ _) as [[? ?] ?].
    destruct H as (? & ? & ?). split_and!; try done. intros Hx. by rewrite bool_decide_eq_true_2 in He. }
  destruct (run ad (if exited then ret (Ok ()) else sync_keys touched) s1 h) as [[err s2] h2].
  destruct Hsync as (Hb2 & Hs2 & Hp2 & Hh2). rewrite run_bind. cbn [run atomically].
  destruct (logAll_lists now "removed" actor (by_id (deref s2) gone) s2) as (Hb3 & Hs3 & Hp3). cbn [run ret].
  rewrite Hb3, Hs3, Hp3, Hb2, Hs2, Hp2, Hst, Hpr, Hg, Hk. by split_and!.
Qed.

(** A breakpoint's id is its address, so looking for an id finds it. *)
Lemma findBreakpoint_spec id s :
  wf s →
  match findBreakpointLocked id s with
  | Some a => a = id ∧ ∃ k, In id (list_of s k)
  | None => ¬ ∃ k, In id (list_of s k)
  end.
Proof.
  intros W. unfold findBreakpointLocked. destruct (List.find _ _) as [a|] eqn:E.
  - apply List.find_some in E as [Hin Hi%Z.eqb_eq]. apply in_all_addrs in Hin as [k Hin].
    destruct (list_of_wf s k W) as [_ Hst]. destruct (Hst a Hin) as (b & Hb & _).
    pose proof (wf_ids _ W a b Hb) as [Hbi _]. unfold deref in Hi. rewrite Hb in Hi. cbn in Hi.
    assert (a = id) as -> by congruence. by eauto.
  - intros [k Hk]. assert (Hin : In id (all_addrs s)) by (apply in_all_addrs; by exists k).
    pose proof (List.find_none _ _ E _ Hin) as Hn. cbv beta in Hn. apply Z.eqb_neq in Hn. apply Hn.
    destruct (list_of_wf s k W) as [_ Hst]. destruct (Hst id Hk) as (b & Hb & _).
    unfold deref. rewrite Hb. cbn. by apply (wf_ids _ W).
Qed.

(** Every breakpoint that is not [c]'s is in the list it was in. *)
Definition keeps_others (c : Client) (s s' : Session) : Prop :=
  ∀ k a, In a (list_of s k) → b_Owner (bp (deref s a)) ≠ c_ID c → In a (list_of s' k).

(** Without force a client removes only its own breakpoints, whether it
    names one or removes them all: every other client's stays in its list. By
    id it removes the one it named, alone; an id that is not its own is
    refused, and nothing changes. *)
Theorem RemoveBreakpoint_own ad now c id s h :
  wf s →
  let '((removed, kept, err), s', h') := run ad (RemoveBreakpoint now c id false) s h in
  keeps_others c s s'
  ∧ (id = 0 → ∀ k a, In a (list_of s' k) → In a (list_of s k) ∧ b_Owner (bp (deref s a)) ≠ c_ID c)
  ∧ (id ≠ 0 → ∀ k a, In a (list_of s k) → a ≠ id → In a (list_of s' k))
  ∧ (id ≠ 0 → (∃ k, In id (list_of s k)) →
       if b_Owner (bp (deref s id)) =?s c_ID c then ∀ k, ¬ In id (list_of s' k)
       else s' = s ∧ h' = h ∧ ∃ msg, err = Err (NewError CodeNotOwner msg)).
Proof.
  intros W. unfold keeps_others, RemoveBreakpoint. destruct (Z.eqb_spec id 0) as [->|Hid].
  - pose proof (run_removeBreakpoints ad now (c_ID c) (fun _ _ b => false || (b_Owner (bp b) =?s c_ID c)) s h) as H.
    destruct (run _ _ _ _) as [[[[removed kept] err] s'] h']. destruct H as (_ & Hb & _).
    assert (Hl : ∀ k, list_of s' k = delete_func (fun a => b_Owner (bp (deref s a)) =?s c_ID c) (list_of s k)).
    { intros k. exact (lists_after _ s s' k Hb). }
    split_and!; try done.
    + intros k a Ha Ho. rewrite Hl. apply in_delete_func. split; [done|]. by apply String.eqb_neq.
    + intros _ k a Ha. rewrite Hl in Ha. apply in_delete_func in Ha as [Ha Ho]. split; [done|]. by apply String.eqb_neq.
  - pose proof (findBreakpoint_spec id s W) as Hfind. rewrite run_bind. cbn [run atomically].
    destruct (findBreakpointLocked id s) as [a|] eqn:E; cbn [option_map].
    2: { cbn [run ret]. by split_and!. }
    destruct Hfind as [-> Hex]. rewrite andb_true_r.
    destruct (b_Owner (bp (deref s id)) =?s c_ID c) eqn:Eo; cbn [negb].
    2: { cbn [run ret]. split_and!; try done. intros _ _. split_and!; [done|done|by eexists]. }
    rewrite run_bind. pose proof (run_removeBreakpoints ad now (c_ID c) (fun _ a _ => a =? id) s h) as H.
    destruct (run ad (removeBreakpoints now (c_ID c) _) s h) as [[[[removed kept] err] s'] h']. destruct H as (_ & Hb & _). cbn [run ret].
    assert (Hl : ∀ k, list_of s' k = delete_func (fun a => a =? id) (list_of s k)).
    { intros k. exact (lists_after _ s s' k Hb). }
    apply String.eqb_eq in Eo. split_and!; try done.
    + intros k a Ha Ho. rewrite Hl. apply in_delete_func. split; [done|]. apply Z.eqb_neq. congruence.
    + intros _ k a Ha Ho. rewrite Hl. apply in_delete_func. split; [done|]. by apply Z.eqb_neq.
    + intros _ _ k Ha. rewrite Hl in Ha. apply in_delete_func in Ha as [_ Ha]. by rewrite Z.eqb_refl in Ha.
Qed.

(** ** Leaving *)

(** What a client's editor set, which goes with its last connection. *)
Definition editors (c : Client) (b : breakpoint) : bool :=
  (b_Owner (bp b) =?s c_ID c) && b_Editor (bp b) && negb (b_Temporary (bp b)).

Lemma leftLocked_same id gen s s' :
  state s' = state s → presences s' = presences s → leftLocked id gen s' = leftLocked id gen s.
Proof. intros H1 H2. unfold leftLocked, live. by rewrite H1, H2. Qed.

Lemma kl_setExceptionMode now c mode force guard : keeps_lists (setExceptionMode now c mode force guard).
Proof.
  unfold setExceptionMode, sendFilters. repeat lists_step.
Qed.

Lemma no_doomed matching s : wf s → (∀ a, doomed matching s a = false) → removeLocked matching s = (([], [], Z.of_nat (length (all_addrs s)), bool_decide (state s = StateExited)), s).
Proof.
  intros W H. assert (Hd : ∀ l, delete_func (doomed matching s) l = l).
  { intros l. unfold delete_func. induction l as [|a l IH]; [done|]. cbn. rewrite (H a). cbn. by rewrite IH. }
  assert (Hf : ∀ l, List.filter (doomed matching s) l = []) by (intros l; apply filter_negb_nil; auto).
  assert (Ht : ∀ m : list (string * list Z), List.filter (fun '(_, l) => existsb (doomed matching s) l) m = []).
  { intros m. apply filter_negb_nil. intros [k l] _. apply not_true_is_false. intros (a & _ & Ha)%existsb_exists. by rewrite H in Ha. }
  unfold removeLocked. change (fun a => matching s a (deref s a)) with (doomed matching s).
  fold (all_addrs s). rewrite Hf, Hd, Ht. f_equal.
  assert (Hm : omap (fun l => not_nil (delete_func (doomed matching s) l)) (bps s) = bps s).
  { apply map_eq. intros k. rewrite lookup_omap. destruct (bps s !! k) as [l|] eqn:E; [|done]. cbn.
    change (List.filter (fun x => negb (doomed matching s x)) l) with (delete_func (doomed matching s) l). rewrite Hd.
    destruct (wf_store s W k l E) as (Hne & _). by destruct l. }
  assert (Hs : ∀ m, m = bps s → s <| bps := m |> = s) by (intros m ->; by destruct s).
  exact (Hs _ Hm).
Qed.

Lemma run_remove_nothing ad now actor matching s h :
  wf s → (∀ a, doomed matching s a = false) →
  run ad (removeBreakpoints now actor matching) s h = ((0, Z.of_nat (length (all_addrs s)), Ok ()), s, h).
Proof.
  intros W H. unfold removeBreakpoints. rewrite run_bind. cbn [run atomically]. rewrite (no_doomed _ _ W H).
  rewrite run_bind. destruct (bool_decide _); reflexivity.
Qed.

Lemma leave_section now c s :
  c_ID c ≠ ""%string →
  let s1 := dropRequestLocked (c_ID c) s in
  let s2 := if c_ID (ls_holder (s_lease s1)) =?s c_ID c
            then setHolderLocked now noClient (c_ID c) "release" "disconnected" s1 else s1 in
  let s3 := s2 <| presences ::= delete (c_ID c) |> in
  bps s3 = bps s ∧ holder s3 ≠ c_ID c ∧ ¬ In (c_ID c) (map lr_Client (ls_requests (s_lease s3)))
  ∧ presences s3 !! c_ID c = None ∧ state s3 = state s.
Proof.
  intros Hne s1 s2 s3. assert (Hreq : ¬ In (c_ID c) (map lr_Client (ls_requests (s_lease s1)))).
  { intros (r & Hr & [_ Hf]%in_delete_func)%List.in_map_iff. by rewrite Hr, String.eqb_refl in Hf. }
  unfold s3, s2. destruct (String.eqb_spec (c_ID (ls_holder (s_lease s1))) (c_ID c)) as [E|E].
  - split_and!; [done| | |apply lookup_delete_eq|done]; [exact (not_eq_sym Hne)|intros []].
  - split_and!; [done|exact E|exact Hreq|apply lookup_delete_eq|done].
Qed.

(** The cleanup after a client's last editor connection closed. If it has
    no connection still, and none was opened since, its editor's breakpoints
    are removed, and no other; it holds neither the lease nor a request for
    it, and is no longer present. If it is back (or the session has ended),
    nothing happens at all. *)
Theorem leave_spec ad now c gen s h :
  wf s → c_ID c ≠ ""%string →
  let '(_, s', h') := run ad (leave now c gen) s h in
  if leftLocked (c_ID c) gen s
  then (∀ k, list_of s' k = delete_func (fun a => editors c (deref s a)) (list_of s k))
       ∧ holder s' ≠ c_ID c ∧ ¬ In (c_ID c) (map lr_Client (ls_requests (s_lease s')))
       ∧ presences s' !! c_ID c = None ∧ state s' = state s
  else s' = s ∧ h' = h.
Proof.
  intros W Hne. unfold leave. rewrite run_bind. destruct (leftLocked (c_ID c) gen s) eqn:El.
  - pose proof (run_removeBreakpoints ad now (c_ID c) (departed c gen) s h) as HR.
    destruct (run ad (removeBreakpoints now (c_ID c) (departed c gen)) s h) as [[r s1] h1].
    destruct HR as (_ & Hb1 & Hs1 & Hp1 & _). rewrite run_bind. cbn [run atomically]. rewrite run_bind.
    assert (HE : let '(_, s2, _) := run ad (if reset_wanted c gen s1 then setExceptionMode now c ExceptionsNone false (leftLocked (c_ID c) gen) ;;; ret () else ret ())%prog s1 h1 in
      bps s2 = bps s1 ∧ state s2 = state s1 ∧ presences s2 = presences s1).
    { assert (HK : keeps_lists (if reset_wanted c gen s1 then setExceptionMode now c ExceptionsNone false (leftLocked (c_ID c) gen) ;;; ret () else ret ())%prog).
      { destruct (reset_wanted c gen s1); [apply kl_bind; [apply kl_setExceptionMode|]; intros; apply kl_ret|apply kl_ret]. }
      apply HK. }
    destruct (run ad (if reset_wanted c gen s1 then _ else _)%prog s1 h1) as [[u s2] h2]. destruct HE as (Hb2 & Hs2 & Hp2).
    cbn [run atomically]. unfold leave_lease.
    rewrite (leftLocked_same _ _ s s2), El by congruence. cbn [negb].
    assert (Hl : ∀ k, list_of s2 k = delete_func (fun a => editors c (deref s a)) (list_of s k)).
    { intros k. transitivity (delete_func (doomed (departed c gen) s) (list_of s k)).
      - apply (lists_after _ s). congruence.
      - unfold delete_func. apply List.filter_ext. intros a. unfold doomed, departed, editors. by rewrite El, andb_true_r. }
    pose proof (leave_section now c s2 Hne) as (H1 & H2 & H3 & H4 & H5). cbv zeta in *.
    split_and!; [|exact H2|exact H3|exact H4|congruence]. intros k. rewrite <- Hl. unfold list_of. by rewrite H1.
  - rewrite (run_remove_nothing ad now (c_ID c) (departed c gen) s h W).
    2: { intros a. unfold doomed, departed. by rewrite El, andb_false_r. }
    rewrite run_bind. cbn [run atomically]. rewrite run_bind. unfold reset_wanted. rewrite El. cbn [andb run ret atomically].
    unfold leave_lease. by rewrite El.
Qed.

(** ** Two breakpoints of one client on a line

    A run-until's temporary breakpoint is not matched by a setBreakpoints
    request, which adds its own; an add then finds the temporary one first,
    and makes it permanent beside the editor's. *)
Definition until_then_editor_then_add (spec : BreakpointSpec) (c : Client) (s : Session) : Session :=
  let '(_, s) := targetLocked 5 c spec s in
  let '(_, s) := matchLocked 6 (c_ID c) (sp_File spec) [mkItem spec None None false false] [] s in
  (addBreakpointLocked 7 (c_ID c) spec s).2.

Lemma two_on_one_line :
  let s := until_then_editor_then_add (on_line 10) (human "h") (sample_session LeaseFree) in
  map (fun a => let b := bp (deref s a) in (b_Owner b, b_Line b, b_Temporary b)) (list_of s "/src/a.cs")
  = [("human:h"%string, 10, false); ("human:h"%string, 10, false)].
Proof. by vm_compute. Qed.

(** ** Witnesses *)

Definition closed_adapter (_ : list request) (_ : request) : answer := AnsError unexpected.

Lemma RemoveBreakpoint_own_witness :
  wf editor_session
  ∧ In 1 (list_of (run closed_adapter (RemoveBreakpoint 9 (agent "a") 0 false) editor_session []).1.2 "/src/a.cs").
Proof.
  split; [exact editor_session_wf|].
  pose proof (RemoveBreakpoint_own closed_adapter 9 (agent "a") 0 editor_session [] editor_session_wf) as H.
  destruct (run closed_adapter (RemoveBreakpoint 9 (agent "a") 0 false) editor_session []) as [[[[n k] e] s'] h'].
  destruct H as [H _]. apply H; [left; reflexivity|discriminate].
Defined.

(** The editor's client connected and left. *)
Definition left_session : Session :=
  (decrementLocked 7 (human "h") false false (connectLocked 6 (human "h") editor_session)).2.

Lemma left_session_wf : wf left_session.
Proof. apply (good_decrement 7), (good_connect 6), editor_session_wf. Qed.

Lemma leave_spec_witness :
  leftLocked "human:h" 1 left_session = true ∧ wf left_session
  ∧ list_of (run closed_adapter (leave 8 (human "h") 1) left_session []).1.2 "/src/a.cs" = [].
Proof.
  assert (Hl : leftLocked "human:h" 1 left_session = true) by (vm_compute; reflexivity).
  split_and!; [exact Hl|exact left_session_wf|].
  pose proof (leave_spec closed_adapter 8 (human "h") 1 left_session [] left_session_wf ltac:(discriminate)) as H.
  change (c_ID (human "h")) with "human:h"%string in H. rewrite Hl in H.
  destruct (run closed_adapter (leave 8 (human "h") 1) left_session []) as [[u s'] h']. destruct H as [H _].
  change (list_of s' "/src/a.cs" = []). rewrite H. vm_compute. reflexivity.
Defined.
