(* ===== verification/TestRunSpec.v ===== *)
(** * The end of a test run (testrun.go)

    The runner's exit and the end of the session's start are two goroutines
    that meet: whichever finds the other done ends the session. *)

From S2P Require Import Prelude GoStrings Api EventLog Prog Session Lease Exec TestRun Invariant.
From Stdlib Require Import Bool.

Open Scope Z_scope.

(** ** Two programs and their environment *)

(** A program's next critical section. *)
Definition section_step {A} (p : handler A) (s : Session) : option (handler A * Session) :=
  match p with Atomic f k => let '(x, s') := f s in Some (k x, s') | _ => None end.

(** [env] is what the rest of the session may do between their steps. *)
Inductive together {A B} (env : Session → Session → Prop)
    : handler A * handler B * Session → handler A * handler B * Session → Prop :=
  | tg_left p q s p' s' : section_step p s = Some (p', s') → together env (p, q, s) (p', q, s')
  | tg_right p q s q' s' : section_step q s = Some (q', s') → together env (p, q, s) (p, q', s')
  | tg_env p q s s' : env s s' → together env (p, q, s) (p, q, s').

(** Nobody else tells of the runner or the start, and who ends the session
    leaves it ended. *)
Definition others (s s' : Session) : Prop :=
  tr_code (testrun s') = tr_code (testrun s) ∧ tr_started (testrun s') = tr_started (testrun s)
  ∧ (state s = StateExited → state s' = StateExited ∧ exitCode s' = exitCode s).

(** No other thread ends the session. *)
Definition nobody_ends (env : Session → Session → Prop) : Prop :=
  ∀ s s', env s s' → state s ≠ StateExited → state s' ≠ StateExited.

Definition ended_by (code : Z) (strict : bool) (s : Session) : Prop :=
  state s = StateExited ∧ (strict = true → exitCode s = Some code).

(** Where the two may be. *)
Inductive meeting (now now' code : Z) (strict : bool)
    : handler (list spawned) * handler (list spawned) * Session → Prop :=
  | mt_start s : tr_code (testrun s) = None → tr_started (testrun s) = false →
      (strict = true → state s ≠ StateExited) →
      meeting now now' code strict (watchRunner now code, startedRunner now', s)
  | mt_exited s l : tr_code (testrun s) = Some code → tr_started (testrun s) = false →
      (strict = true → state s ≠ StateExited) →
      meeting now now' code strict (Ret l, startedRunner now', s)
  | mt_started s l : tr_code (testrun s) = None → tr_started (testrun s) = true →
      (strict = true → state s ≠ StateExited) →
      meeting now now' code strict (watchRunner now code, Ret l, s)
  | mt_finish_left s l : tr_code (testrun s) = Some code →
      (strict = true → state s ≠ StateExited) →
      meeting now now' code strict (atomically (finishRun now), Ret l, s)
  | mt_finish_right s l : tr_code (testrun s) = Some code →
      (strict = true → state s ≠ StateExited) →
      meeting now now' code strict (Ret l, atomically (finishRun now'), s)
  | mt_done s l l' : ended_by code strict s → meeting now now' code strict (Ret l, Ret l', s).

Lemma finishRun_ends now code strict s :
  tr_code (testrun s) = Some code → (strict = true → state s ≠ StateExited) →
  ended_by code strict (finishRun now s).2.
Proof.
  intros Hc Hs. unfold finishRun, ended_by. rewrite Hc. case_decide as E.
  - split; [done|]. intros H. by apply Hs in H.
  - unfold endLocked. rewrite decide_False by done. by case_match.
Qed.

Lemma meeting_env now now' code strict env p q s s' :
  (∀ s s', env s s' → others s s') → (strict = true → nobody_ends env) → env s s' →
  meeting now now' code strict (p, q, s) → meeting now now' code strict (p, q, s').
Proof.
  intros Ho Hn He H. destruct (Ho _ _ He) as (H1 & H2 & H3).
  assert (Hs : (strict = true → state s ≠ StateExited) → strict = true → state s' ≠ StateExited).
  { intros Hk Hst. by apply (Hn Hst _ _ He), Hk. }
  inversion H; subst; try (constructor; first [congruence|by apply Hs]).
  destruct H4 as [H5 H6]. destruct (H3 H5) as [H7 H8]. apply mt_done. split; [done|]. intros Hst. rewrite H8. by apply H6.
Qed.

Lemma meeting_left now now' code strict p q s p' s' :
  section_step p s = Some (p', s') →
  meeting now now' code strict (p, q, s) → meeting now now' code strict (p', q, s').
Proof.
  intros Hstep H. inversion H; subst; try done; cbn in Hstep.
  - injection Hstep as <- <-. rewrite H4. by apply mt_exited.
  - injection Hstep as <- <-. rewrite H4. by apply mt_finish_left.
  - pose proof (finishRun_ends now code strict s ltac:(assumption) ltac:(assumption)) as He. destruct (finishRun now s) as [l1 s1].
    injection Hstep as <- <-. by apply mt_done.
Qed.

Lemma meeting_right now now' code strict p q s q' s' :
  section_step q s = Some (q', s') →
  meeting now now' code strict (p, q, s) → meeting now now' code strict (p, q', s').
Proof.
  intros Hstep H. inversion H; subst; try done; cbn in Hstep.
  - injection Hstep as <- <-. rewrite H3. by apply mt_started.
  - injection Hstep as <- <-. rewrite H3. by apply mt_finish_right.
  - pose proof (finishRun_ends now' code strict s ltac:(assumption) ltac:(assumption)) as He. destruct (finishRun now' s) as [l1 s1].
    injection Hstep as <- <-. by apply mt_done.
Qed.

(** C34: when a test run's runner has exited and its session's start has
    finished, in whichever order and whatever other threads did between the
    two, the session has ended; and unless another thread ended it first, with
    the runner's exit code. *)
Theorem runner_ends_session now now' code env s s' l l' :
  (∀ s s', env s s' → others s s') →
  tr_code (testrun s) = None → tr_started (testrun s) = false →
  rtc (together env) (watchRunner now code, startedRunner now', s) (Ret l, Ret l', s') →
  state s' = StateExited
  ∧ (nobody_ends env → state s ≠ StateExited → exitCode s' = Some code).
Proof.
  intros Ho Hc Hst Hrun.
  assert (Hinv : ∀ strict x, (strict = true → nobody_ends env) →
    rtc (together env) x (Ret l, Ret l', s') → meeting now now' code strict x → ended_by code strict s').
  { intros strict x Hn Hr. remember (Ret l, Ret l', s') as y eqn:Ey. induction Hr as [x|x y z Hstep _ IH]; subst; intros Hm.
    - inversion Hm; subst; try discriminate. done.
    - apply IH; try done. destruct Hstep as [p q t p' t' Hp|p q t q' t' Hq|p q t t' He].
      + by eapply meeting_left.
      + by eapply meeting_right.
      + by eapply meeting_env. }
  split.
  - by apply (Hinv false _ ltac:(done) Hrun), mt_start.
  - intros Hn Hs. by apply (Hinv true _ ltac:(done) Hrun); [apply mt_start|].
Qed.

(** ** Witness: the runner exits first, and a client reads the session *)

Definition test_session : Session :=
  (sample_session LeaseFree) <| state := StateRunning |>
    <| conf ::= fun c => c <| cf_mode := ModeTest |> <| cf_run := Some "dotnet test"%string |> |>.
Definition run_ended : Session := (finishRun 9 (setStarted (setCode 3 test_session).2).2).2.

Lemma finish_step now s :
  (finishRun now s).1 = [] → section_step (atomically (finishRun now)) s = Some (Ret [], (finishRun now s).2).
Proof. intros H. cbn. destruct (finishRun now s) as [l s']. cbn in H. by subst l. Qed.

Lemma runner_ends_session_witness :
  rtc (together eq) (watchRunner 8 3, startedRunner 9, test_session) (Ret [], Ret [], run_ended)
  ∧ state run_ended = StateExited ∧ exitCode run_ended = Some 3.
Proof.
  assert (H : rtc (together eq) (watchRunner 8 3, startedRunner 9, test_session) (Ret [], Ret [], run_ended)).
  { apply (rtc_l _ _ (Ret [], startedRunner 9, (setCode 3 test_session).2)); [by apply tg_left|].
    apply (rtc_l _ _ (Ret [], atomically (finishRun 9), (setStarted (setCode 3 test_session).2).2)); [by apply tg_right|].
    apply (rtc_l _ _ (Ret [], Ret [], run_ended)); [|apply rtc_refl].
    apply tg_right, finish_step. vm_compute. reflexivity. }
  split; [exact H|].
  destruct (runner_ends_session 8 9 3 eq test_session run_ended [] []) as [H1 H2];
    [by intros s ? <-|reflexivity|reflexivity|exact H|].
  split; [exact H1|]. apply H2; [by intros s ? <-|discriminate].
Defined.
