(* ===== verification/Group.v ===== *)
(** * Groups of sessions (internal/session/group.go)

    A group's members are sessions of the manager's map. Group operations
    look at one member at a time, so what one saw of the group is a list of
    sessions, each as it was at its own look; a wait is the list of its looks.
    What [Snapshot] answers for a member is a parameter of the reports. *)

From S2P Require Import Prelude GoStrings Api EventLog Prog Session Lease Present Inspect Exec Snapshot.
From Stdlib Require Import Ascii Bool.

Open Scope Z_scope.

(** ** Members *)

Definition member_le (a b : Session) : Prop :=
  cf_CreatedAt (conf a) < cf_CreatedAt (conf b)
  ∨ cf_CreatedAt (conf a) = cf_CreatedAt (conf b) ∧ String.leb (s_ID a) (s_ID b) = true.
#[global] Instance member_le_dec a b : Decision (member_le a b).
Proof. unfold member_le. apply _. Defined.

(** [members]: the group's sessions, oldest first. *)
Definition members (g : string) (sessions : list Session) : list Session :=
  merge_sort member_le (List.filter (fun s => cf_group (conf s) =?s g) sessions).

(** [groupMembers]: checked, and touched for the client. *)
Definition groupMembers (now : Z) (c : Client) (g : string) (sessions : list Session) : result (list Session) :=
  if g =?s "" then Err (invalid "a group is required")
  else match CheckGroup g with
       | Err e => Err e
       | Ok _ =>
         match members g sessions with
         | [] => Err (NewError CodeNoSession ("no group " +:+ g))
         | ms => Ok (map (touchLocked now c) ms)
         end
       end.

Definition service (s : Session) : string :=
  match container s with Some c => ct_Service c | None => "" end.

(** ** Waiting for any member *)

Record memberState := mkMemberState {
  ms_ID : string; ms_service : string; ms_state : SessionState; ms_stops : Z; ms_reason : string;
  ms_threadID : Z; ms_stoppedAt : Z }.
Definition memberStateOf (s : Session) : memberState :=
  mkMemberState (s_ID s) (service s) (state s) (stops s) (si_Reason (stop s)) (si_ThreadID (stop s)) (stoppedAt s).
Definition statesOf (ms : list Session) : list memberState := map memberStateOf ms.

Definition stoppedFirst (a b : memberState) : Prop :=
  ms_stoppedAt a < ms_stoppedAt b ∨ ms_stoppedAt a = ms_stoppedAt b ∧ String.leb (ms_ID a) (ms_ID b) = true.
#[global] Instance stoppedFirst_dec a b : Decision (stoppedFirst a b).
Proof. unfold stoppedFirst. apply _. Defined.
(** [slices.MinFunc] of a list that is not empty. *)
Definition firstStopped (a : memberState) (l : list memberState) : memberState :=
  fold_left (fun best x => if decide (stoppedFirst best x) then best else x) l a.
Definition oldestStop (l : list memberState) : option memberState :=
  match l with [] => None | a :: l => Some (firstStopped a l) end.

Definition is_exited (ms : memberState) : bool := bool_decide (ms_state ms = StateExited).
Definition is_stopped (ms : memberState) : bool := bool_decide (ms_state ms = StateStopped).

(** Since the marks: the members that stopped, and those that ended. *)
Definition stoppedSince (marks states : list memberState) : list memberState :=
  map snd (List.filter (fun '(mark, ms) => negb (is_exited mark) && (ms_stops mark <? ms_stops ms)) (zip marks states)).
Definition endedSince (marks states : list memberState) : list memberState :=
  map snd (List.filter (fun '(mark, ms) => negb (is_exited mark) && negb (ms_stops mark <? ms_stops ms) && is_exited ms)
             (zip marks states)).
Definition answered (marks states : list memberState) : option memberState :=
  match oldestStop (stoppedSince marks states) with
  | Some ms => Some ms
  | None => head (endedSince marks states)
  end.

Record GroupStop := mkGroupStop {
  gs_SessionID : string; gs_Service : string; gs_Reason : string; gs_ThreadID : Z; gs_StoppedAt : Z }.
Record GroupWaitResult := mkGroupWait {
  gw_Session : option SnapshotR; gw_Service : string; gw_Stopped : list GroupStop;
  gw_TimedOut : bool; gw_Ended : bool }.

(** [stoppedMembers], but the one named. *)
Definition stoppedMembers (ms : list Session) (skip : option string) : list GroupStop :=
  map (fun m => mkGroupStop (ms_ID m) (ms_service m) (ms_reason m) (ms_threadID m) (ms_stoppedAt m))
    (merge_sort stoppedFirst
       (List.filter (fun m => is_stopped m && negb (bool_decide (Some (ms_ID m) = skip))) (statesOf ms))).

Section wait.
Context (snapshot : string → SnapshotR).

(** [groupReport] names a member; its two looks at the group come later. *)
Definition groupReport (m : memberState) (look look' : list Session) : GroupWaitResult :=
  mkGroupWait (Some (snapshot (ms_ID m))) (ms_service m) (stoppedMembers look (Some (ms_ID m))) false
    (forallb is_exited (statesOf look')).

(** The looks of a wait, one at each wake, and the last at its deadline. *)
Fixpoint wait_looks (marks : list memberState) (looks : list (list Session)) (last : list Session) : option memberState :=
  match looks with
  | [] => answered marks (statesOf last)
  | l :: looks =>
    match answered marks (statesOf l) with Some m => Some m | None => wait_looks marks looks last end
  end.
Definition groupWaitFrom (marks : list memberState) (newOnly : bool) (looks : list (list Session)) (last look look' : list Session)
    : GroupWaitResult :=
  if forallb is_exited marks then mkGroupWait None "" [] false true
  else
    match (if newOnly then None else oldestStop (List.filter is_stopped marks)) with
    | Some m => groupReport m look look'
    | None =>
      match wait_looks marks looks last with
      | Some m => groupReport m look look'
      | None => mkGroupWait None "" (stoppedMembers look None) true false
      end
    end.
Definition groupWait (ms : list Session) (newOnly : bool) (looks : list (list Session)) (last look look' : list Session) :=
  groupWaitFrom (statesOf ms) newOnly looks last look look'.
End wait.

(** ** Merging events *)

(** [memberEvents]: a member's part of a query. *)
Record part := mkPart { pt_ID : string; pt_service : string; pt_events : list Event; pt_latest : Z; pt_more : Z }.
#[global] Instance eta_part : Eta part :=
  fun r => mkPart (pt_ID r) (pt_service r) (pt_events r) (pt_latest r) (pt_more r).

Definition mergeBefore (a : Event) (aID : string) (b : Event) (bID : string) : bool :=
  match ev_Time a ?= ev_Time b with
  | Lt => true
  | Gt => false
  | Eq => negb (String.leb bID aID)
  end.

(** The part whose next event is merged next, by its index. *)
Fixpoint best_part (i : nat) (parts : list part) (best : option (nat * (Event * string))) : option nat :=
  match parts with
  | [] => fst <$> best
  | pt :: parts =>
    best_part (S i) parts
      match pt_events pt with
      | [] => best
      | e :: _ =>
        if match best with None => true | Some (_, (b, bID)) => mergeBefore e (pt_ID pt) b bID end
        then Some (i, (e, pt_ID pt)) else best
      end
  end.

(** The loop: a head past its events is the list of the events left. *)
Fixpoint merge_loop (n : nat) (parts : list part) : list GroupEvent :=
  match n with
  | O => []
  | S n =>
    match i ← best_part 0 parts None; pt ← parts !! i; e ← head (pt_events pt); Some (i, pt, e) with
    | None => []
    | Some (i, pt, e) =>
      mkGroupEvent (pt_ID pt) (pt_service pt) e :: merge_loop n (<[i := pt <| pt_events ::= tail |>]> parts)
    end
  end.
Definition mergeEvents (parts : list part) : list GroupEvent :=
  merge_loop (list_sum (map (fun pt => length (pt_events pt)) parts)) parts.

(** ** Cursors *)

Definition maxCursorID : Z := 32.
Definition cursorError (why : string) : Error := invalid ("invalid group events cursor: " +:+ why).
Definition id_byte (c : ascii) : bool :=
  ((97 <=? byte_of c) && (byte_of c <=? 122)) || ((48 <=? byte_of c) && (byte_of c <=? 57)).
Definition validCursorID (id : string) : bool :=
  match cut_prefix "s-" id with
  | None => false
  | Some rest => negb (rest =?s "") && negb (maxCursorID <? slen id) && all_bytes id_byte rest
  end.
Definition allDigits (s : string) : bool := negb (s =?s "") && all_bytes is_digit s.

Fixpoint parse_entries (entries : list string) (cursor : gmap string Z) : result (gmap string Z) :=
  match entries with
  | [] => Ok cursor
  | e :: entries =>
    match cut_at ":" e with
    | None => Err (cursorError ("entry " +:+ quote (CutText e 40 false) +:+ " is not SESSION:SEQ"))
    | Some (id, seq) =>
      if negb (validCursorID id) || negb (allDigits seq)
      then Err (cursorError ("entry " +:+ quote (CutText e 40 false) +:+ " is not SESSION:SEQ"))
      else match atoi seq with
           | None => Err (cursorError ("entry " +:+ quote (CutText e 40 false) +:+ ": strconv.Atoi: parsing "
                       +:+ quote seq +:+ ": value out of range"))
           | Some n =>
             match cursor !! id with
             | Some _ => Err (cursorError ("it names " +:+ id +:+ " twice"))
             | None => parse_entries entries (<[id := n]> cursor)
             end
           end
    end
  end.
Definition parseGroupCursor (s : string) : result (gmap string Z) :=
  if s =?s "" then Ok ∅
  else
    let entries := split_on "," s in
    if MaxGroupCursor <? Z.of_nat (length entries)
    then Err (cursorError ("it has " +:+ itoa (Z.of_nat (length entries)) +:+ " entries, at most " +:+ itoa MaxGroupCursor))
    else parse_entries entries ∅.
Definition at_cursor (at_ : gmap string Z) (id : string) : Z := default 0 (at_ !! id).
Definition formatGroupCursor (ids : list string) (at_ : gmap string Z) : string :=
  join "," (map (fun id => id +:+ ":" +:+ itoa (at_cursor at_ id)) ids).

(** [nextCursor]: a member's next place. *)
Definition events_of (id : string) (evs : list GroupEvent) : list Event :=
  map ge_Event (List.filter (fun g => ge_SessionID g =?s id) evs).
Definition next_at (pt : part) (kept : list GroupEvent) (at_ : Z) (newest : bool) : Z :=
  let returned := events_of (pt_ID pt) kept in
  if (pt_more pt =? 0) && (Z.of_nat (length returned) =? Z.of_nat (length (pt_events pt))) then Z.max at_ (pt_latest pt)
  else if negb newest && negb (Z.of_nat (length returned) =? 0)
  then Z.max at_ (match last returned with Some e => ev_Seq e | None => 0 end)
  else at_.
Definition nextCursor (parts : list part) (kept : list GroupEvent) (cursor : gmap string Z) (newest : bool) : gmap string Z :=
  fold_left (fun next pt => <[pt_ID pt := next_at pt kept (at_cursor cursor (pt_ID pt)) newest]> next) parts ∅.

(** ** Reading a group's events *)

Record GroupEventsParams := mkGroupEvents {
  gp_Group : string; gp_Since : string; gp_Newest : bool; gp_Limit : Z; gp_Kinds : list string; gp_Budget : Z }.
Record GroupEventsResult := mkGroupEventsResult {
  gr_Events : list GroupEvent; gr_Cursor : string; gr_More : Z; gr_Dropped : Z; gr_TimedOut : bool }.
#[global] Instance eta_GroupEventsResult : Eta GroupEventsResult :=
  fun r => mkGroupEventsResult (gr_Events r) (gr_Cursor r) (gr_More r) (gr_Dropped r) (gr_TimedOut r).

Definition kinds_of (names : list string) : list EventKind :=
  omap (fun k => List.find (fun k' => kind_name k' =?s k) EventKinds) names.

Section events.
Context (jsonSize : GroupEvent → Z).

Definition member_query (p : GroupEventsParams) (cursor : gmap string Z) (s : Session) : EventsParams :=
  mkEventsParams (at_cursor cursor (s_ID s)) (gp_Newest p) (eventLimit (gp_Limit p)) (kinds_of (gp_Kinds p)) 0.
Definition part_of (p : GroupEventsParams) (cursor : gmap string Z) (s : Session) : part :=
  let r := query (member_query p cursor s) (s_log s) in
  mkPart (s_ID s) (service s) (er_Events r) (er_Latest r) (er_More r).

Definition groupEventsOnce (ms : list Session) (cursor : gmap string Z) (p : GroupEventsParams)
    : GroupEventsResult * gmap string Z :=
  let limit := eventLimit (gp_Limit p) in
  let results := map (fun s => query (member_query p cursor s) (s_log s)) ms in
  let parts := map (part_of p cursor) ms in
  let merged := mergeEvents parts in
  let kept := if limit <? Z.of_nat (length merged)
              then if gp_Newest p then drop (length merged - Z.to_nat limit) merged else take (Z.to_nat limit) merged
              else merged in
  let '(kept, _) := ShapeGroupEvents jsonSize kept (gp_Budget p) (gp_Newest p) in
  let next := nextCursor parts kept cursor (gp_Newest p) in
  (mkGroupEventsResult kept (formatGroupCursor (map s_ID ms) next)
     (list_sum_Z er_More results + (Z.of_nat (length merged) - Z.of_nat (length kept)))
     (list_sum_Z er_Dropped results) false,
   next).

(** The looks of a long poll, one at each wake, and the last at its deadline. *)
Fixpoint events_looks (looks : list (list Session)) (final : list Session) (next : gmap string Z) (dropped : Z)
    (p : GroupEventsParams) : GroupEventsResult :=
  match looks with
  | [] =>
    let '(res, _) := groupEventsOnce final next p in
    res <| gr_Dropped ::= Z.add dropped |> <| gr_TimedOut := bool_decide (gr_Events res = []) |>
  | ms :: looks =>
    let '(res, next) := groupEventsOnce ms next p in
    let dropped := dropped + gr_Dropped res in
    match gr_Events res with
    | _ :: _ => res <| gr_Dropped := dropped |>
    | [] => events_looks looks final next dropped p
    end
  end.
Definition groupEvents (ms : list Session) (cursor : gmap string Z) (p : GroupEventsParams) (wait : Z)
    (looks : list (list Session)) (final : list Session) : GroupEventsResult :=
  let '(res, next) := groupEventsOnce ms cursor p in
  match gr_Events res with
  | _ :: _ => res
  | [] => if wait <=? 0 then res else events_looks looks final next (gr_Dropped res) p
  end.

(** [GroupEvents]: the checks, in their order. *)
Definition GroupEvents (now : Z) (c : Client) (p : GroupEventsParams) (sessions : list Session) (wait : Z)
    (looks : list (list Session)) (final : list Session) : result GroupEventsResult :=
  match checkEventKinds (gp_Kinds p) with
  | Err e => Err e
  | Ok _ =>
    match parseGroupCursor (gp_Since p) with
    | Err e => Err e
    | Ok cursor =>
      match groupMembers now c (gp_Group p) sessions with
      | Err e => Err e
      | Ok ms =>
        if MaxGroupCursor <? Z.of_nat (length ms) then
          Err (invalid ("group " +:+ gp_Group p +:+ " has " +:+ itoa (Z.of_nat (length ms))
                 +:+ " sessions: its events are read for at most " +:+ itoa MaxGroupCursor))
        else Ok (groupEvents ms cursor p wait looks final)
      end
    end
  end.
End events.

Definition GroupWait (snapshot : string → SnapshotR) (now : Z) (c : Client) (g : string) (newOnly : bool)
    (sessions : list Session) (looks : list (list Session)) (last look look' : list Session) : result GroupWaitResult :=
  match groupMembers now c g sessions with
  | Err e => Err e
  | Ok ms => Ok (groupWait snapshot ms newOnly looks last look look')
  end.
