(* ===== verification/GroupSpec.v ===== *)
(** * What group reads promise (group.go)

    The members' logs merge into one stream that keeps each member's order
    and, as far as their clocks do, the order of time; a cursor never skips
    an event; a wait misses no member's stop. *)

From S2P Require Import Prelude GoStrings Api EventLog Prog Session Lease Present Inspect Exec Snapshot Invariant Group.
From Stdlib Require Import Ascii Bool.

Open Scope Z_scope.

(** ** The order of merging *)

(** Of two members' events, the first does not merge after the second. *)
Definition ev_le (x y : Event * string) : Prop := mergeBefore y.1 y.2 x.1 x.2 = false.

Lemma ev_le_iff x y :
  ev_le x y ↔ ev_Time x.1 < ev_Time y.1 ∨ ev_Time x.1 = ev_Time y.1 ∧ String.leb x.2 y.2 = true.
Proof.
  unfold ev_le, mergeBefore. destruct (Z.compare_spec (ev_Time y.1) (ev_Time x.1)) as [E|E|E].
  - rewrite negb_false_iff. split; [right; by split|]. intros [?|[_ ?]]; [lia|done].
  - split; [done|]. intros [?|[? _]]; lia.
  - split; [left; lia|done].
Qed.

#[global] Instance ev_le_refl : Reflexive ev_le.
Proof. intros x. apply ev_le_iff. right. split; [done|]. destruct (String.leb_total x.2 x.2); done. Qed.
#[global] Instance ev_le_trans : Transitive ev_le.
Proof.
  intros x y z Hx%ev_le_iff Hy%ev_le_iff. apply ev_le_iff.
  destruct Hx as [Hx|[Hx Hsx]], Hy as [Hy|[Hy Hsy]]; try (left; lia). right. split; [lia|].
  apply Is_true_true in Hsx, Hsy. apply Is_true_true. change (String.le x.2 z.2). by transitivity y.2.
Qed.
Lemma ev_le_total x y : mergeBefore y.1 y.2 x.1 x.2 = true → ev_le y x.
Proof.
  intros H. apply ev_le_iff. unfold mergeBefore in H. destruct (Z.compare_spec (ev_Time y.1) (ev_Time x.1)) as [E|E|E]; [|by left|done].
  right. split; [done|]. apply negb_true_iff in H. destruct (String.leb_total x.2 y.2); [congruence|done].
Qed.

(** ** The next event *)

Definition head_of (pt : part) : option (Event * string) := (fun e => (e, pt_ID pt)) <$> head (pt_events pt).
Definition below (x : Event * string) (parts : list part) : Prop := ∀ pt y, In pt parts → head_of pt = Some y → ev_le x y.

Lemma best_part_spec i parts best :
  match best_part i parts best with
  | None => best = None ∧ ∀ pt, In pt parts → pt_events pt = []
  | Some k => ∃ x, (best = Some (k, x) ∨ ∃ j pt, k = (i + j)%nat ∧ parts !! j = Some pt ∧ head_of pt = Some x)
                   ∧ (∀ k' b, best = Some (k', b) → ev_le x b) ∧ below x parts
  end.
Proof.
  revert i best. induction parts as [|pt parts IH]; intros i best; cbn [best_part].
  { destruct best as [[k x]|]; cbn; [|done]. exists x. split; [by left|]. split; [|by intros pt y []].
    intros k' b [= -> ->]. reflexivity. }
  destruct (pt_events pt) as [|e es] eqn:Ee.
  - specialize (IH (S i) best). destruct (best_part (S i) parts best) as [k|].
    + destruct IH as (x & Hx & Hb & Hl). exists x. split; [|split; [done|]].
      * destruct Hx as [Hx|(j & pt' & -> & Hj & Hx)]; [by left|]. right. exists (S j), pt'. split; [lia|done].
      * intros pt' y [<-|Hin] Hy; [|by eapply Hl]. unfold head_of in Hy. by rewrite Ee in Hy.
    + destruct IH as [-> Hl]. split; [done|]. intros pt' [<-|Hin]; auto.
  - set (better := match best with None => true | Some (_, (b, bID)) => mergeBefore e (pt_ID pt) b bID end).
    assert (Hh : head_of pt = Some (e, pt_ID pt)) by (unfold head_of; by rewrite Ee).
    specialize (IH (S i) (if better then Some (i, (e, pt_ID pt)) else best)).
    destruct (best_part (S i) parts _) as [k|].
    + destruct IH as (x & Hx & Hb & Hl). destruct better eqn:Eb; unfold better in Eb.
      * pose proof (Hb i _ eq_refl) as He. exists x. split; [|split].
        -- right. destruct Hx as [[= <- <-]|(j & pt' & -> & Hj & Hx)]; [exists 0%nat, pt; split; [lia|done]|].
           exists (S j), pt'. split; [lia|done].
        -- intros k' [b bID] ->. etrans; [exact He|]. by apply (ev_le_total (b, bID) (e, pt_ID pt)).
        -- intros pt' y [<-|Hin] Hy; [|by eapply Hl]. by simplify_eq.
      * destruct best as [[k' [b bID]]|]; [|done]. exists x. split; [|split; [done|]].
        -- destruct Hx as [Hx|(j & pt' & -> & Hj & Hx)]; [by left|]. right. exists (S j), pt'. split; [lia|done].
        -- intros pt' y [<-|Hin] Hy; [|by eapply Hl]. simplify_eq. etrans; [by eapply Hb|exact Eb].
    + destruct IH as [HN _]. destruct better eqn:Eb; [done|]. unfold better in Eb. by destruct best as [[? [? ?]]|].
Qed.

(** ** Merging *)

Definition left_of (parts : list part) : nat := list_sum (map (fun pt => length (pt_events pt)) parts).

(** One turn of the merge: the event [e] of the part at [i] is out. *)
Lemma merge_turn n parts :
  (left_of parts ≤ S n)%nat → left_of parts ≠ 0%nat →
  ∃ i pt e es, parts !! i = Some pt ∧ pt_events pt = e :: es ∧ below (e, pt_ID pt) parts
    ∧ merge_loop (S n) parts
      = mkGroupEvent (pt_ID pt) (pt_service pt) e :: merge_loop n (<[i := pt <| pt_events := es |>]> parts).
Proof.
  intros Hn Hne. cbn [merge_loop]. pose proof (best_part_spec 0 parts None) as H.
  destruct (best_part 0 parts None) as [i|].
  - destruct H as (x & [?|(j & pt & -> & Hj & Hx)] & _ & Hb); [done|]. cbn [Nat.add].
    unfold head_of in Hx. destruct (pt_events pt) as [|e es] eqn:Ee; [done|]. cbn in Hx. injection Hx as <-.
    exists j, pt, e, es. split_and!; [done|done|done|].
    cbn. rewrite Hj. cbn. rewrite Ee. cbn.
    do 3 f_equal. destruct pt; cbn in *. by subst.
  - destruct H as [_ H]. exfalso. apply Hne. unfold left_of. clear Hn Hne. induction parts as [|pt parts IH]; [done|].
    cbn. rewrite (H pt (or_introl eq_refl)). apply IH. intros pt' ?. apply H. by right.
Qed.

Lemma left_of_cons pt parts : left_of (pt :: parts) = (length (pt_events pt) + left_of parts)%nat.
Proof. done. Qed.

Lemma left_of_insert parts i pt e es :
  parts !! i = Some pt → pt_events pt = e :: es → left_of parts = S (left_of (<[i := pt <| pt_events := es |>]> parts)).
Proof.
  revert i. induction parts as [|p parts IH]; intros [|i] Hi He; try done.
  - injection Hi as ->. change (<[0%nat := ?x]> (pt :: parts)) with (x :: parts). rewrite !left_of_cons, He. cbn. lia.
  - cbn in Hi. change (<[S i := ?x]> (p :: parts)) with (p :: <[i := x]> parts). rewrite !left_of_cons, (IH i Hi He). lia.
Qed.

Definition group_events (pt : part) : list GroupEvent :=
  map (fun e => mkGroupEvent (pt_ID pt) (pt_service pt) e) (pt_events pt).
Definition all_events (parts : list part) : list GroupEvent := concat (map group_events parts).

Lemma all_events_insert parts i pt e es :
  parts !! i = Some pt → pt_events pt = e :: es →
  all_events parts ≡ₚ mkGroupEvent (pt_ID pt) (pt_service pt) e :: all_events (<[i := pt <| pt_events := es |>]> parts).
Proof.
  revert i. induction parts as [|p parts IH]; intros [|i] Hi He; try done.
  - injection Hi as ->. change (<[0%nat := ?x]> (pt :: parts)) with (x :: parts). unfold all_events, group_events. cbn. by rewrite He.
  - cbn in Hi. change (<[S i := ?x]> (p :: parts)) with (p :: <[i := x]> parts). unfold all_events in *. cbn [map concat].
    rewrite (IH i Hi He). by rewrite Permutation_middle.
Qed.

Lemma all_events_none parts : left_of parts = 0%nat → all_events parts = [].
Proof.
  induction parts as [|pt parts IH]; [done|]. rewrite left_of_cons. intros H. unfold all_events, group_events in *. cbn.
  rewrite IH by lia. by destruct (pt_events pt).
Qed.

(** The times of a member's events do not go back. *)
Definition in_time (evs : list Event) : Prop := StronglySorted (fun a b => ev_Time a ≤ ev_Time b) evs.
Definition merged_le (g g' : GroupEvent) : Prop := ev_le (ge_Event g, ge_SessionID g) (ge_Event g', ge_SessionID g').

(** The next event merges before all that is left, if each member's are in time. *)
Lemma below_all x parts :
  below x parts → Forall (fun pt => in_time (pt_events pt)) parts →
  ∀ g, In g (all_events parts) → ev_le x (ge_Event g, ge_SessionID g).
Proof.
  intros Hb Ht g (l & (pt & <- & Hpt)%List.in_map_iff & (e & <- & He)%List.in_map_iff)%List.in_concat. cbn.
  rewrite List.Forall_forall in Ht. specialize (Ht pt Hpt). specialize (Hb pt).
  unfold head_of in Hb. destruct (pt_events pt) as [|e0 es]; [done|]. specialize (Hb _ Hpt eq_refl).
  destruct He as [<-|He]; [done|]. apply StronglySorted_inv in Ht as [_ Ht]. rewrite List.Forall_forall in Ht.
  etrans; [exact Hb|]. apply ev_le_iff. cbn. specialize (Ht e He). destruct (Z.eq_dec (ev_Time e0) (ev_Time e)); [right|left; lia].
  split; [done|]. by destruct (String.leb_total (pt_ID pt) (pt_ID pt)).
Qed.

Lemma in_time_turn parts i pt e es :
  parts !! i = Some pt → pt_events pt = e :: es → Forall (fun pt => in_time (pt_events pt)) parts →
  Forall (fun pt => in_time (pt_events pt)) (<[i := pt <| pt_events := es |>]> parts).
Proof.
  intros Hi He Ht. apply Forall_insert; [done|]. cbn.
  pose proof (proj1 (Forall_lookup _ _) Ht i pt Hi) as H. cbv beta in H. rewrite He in H. by apply StronglySorted_inv in H as [? _].
Qed.

(** Everything comes out, once; in time, if each member's events are; a member's in its order. *)
Lemma merge_loop_spec n parts :
  (left_of parts ≤ n)%nat →
  let out := merge_loop n parts in
  out ≡ₚ all_events parts
  ∧ (Forall (fun pt => in_time (pt_events pt)) parts → StronglySorted merged_le out)
  ∧ (List.NoDup (map pt_ID parts) → ∀ pt, In pt parts → events_of (pt_ID pt) out = pt_events pt).
Proof.
  revert parts. induction n as [|n IH]; intros parts Hn; cbv zeta.
  { cbn. rewrite all_events_none by lia. split_and!; [done|constructor|]. intros _ pt Hpt.
    assert (H : length (pt_events pt) = 0%nat).
    { assert (length (pt_events pt) ≤ left_of parts)%nat; [|lia]. clear Hn. induction parts as [|p parts IH]; [done|].
      rewrite left_of_cons. destruct Hpt as [->|Hpt]; [lia|]. specialize (IH Hpt). lia. }
    by destruct (pt_events pt). }
  destruct (decide (left_of parts = 0%nat)) as [E0|E0].
  { specialize (IH parts ltac:(lia)). cbv zeta in IH.
    assert (Hs : merge_loop (S n) parts = []).
    { cbn [merge_loop]. pose proof (best_part_spec 0 parts None) as H. destruct (best_part 0 parts None) as [i|]; [|done].
      destruct H as (x & [?|(j & pt & -> & Hj & Hx)] & _); [done|]. unfold head_of in Hx.
      destruct (pt_events pt) as [|e es] eqn:Ee; [done|]. rewrite (left_of_insert _ _ _ _ _ Hj Ee) in E0. done. }
    assert (Hm : merge_loop n parts = []).
    { destruct IH as [H _]. rewrite all_events_none in H by done. by apply Permutation_nil_r. }
    by rewrite Hs, <- Hm. }
  destruct (merge_turn n parts Hn E0) as (i & pt & e & es & Hi & He & Hb & ->).
  set (parts' := <[i := _]> parts).
  pose proof (left_of_insert parts i pt e es Hi He) as Hl. fold parts' in Hl.
  destruct (IH parts' ltac:(lia)) as (H1 & H2 & H3). split_and!.
  - rewrite H1. symmetry. by apply all_events_insert.
  - intros Ht. constructor; [by apply H2, (in_time_turn _ _ _ e)|].
    apply List.Forall_forall. intros g Hg. apply (below_all (e, pt_ID pt) parts Hb Ht).
    eapply Permutation_in; [symmetry; by apply (all_events_insert parts i pt e es)|]. right. by eapply Permutation_in.
  - intros Hnd pt' Hpt'. assert (Hnd' : List.NoDup (map pt_ID parts')).
    { replace (map pt_ID parts') with (map pt_ID parts); [done|]. unfold parts'.
      change (map pt_ID) with (fmap (M:=list) pt_ID). rewrite list_fmap_insert. cbn. rewrite list_insert_id; [done|].
      by rewrite list_lookup_fmap, Hi. }
    specialize (H3 Hnd'). apply list_elem_of_In, list_elem_of_lookup in Hpt' as [j Hj].
    unfold events_of. cbn [List.filter ge_SessionID]. destruct (decide (j = i)) as [->|Hji].
    + assert (pt' = pt) as -> by congruence. rewrite String.eqb_refl. cbn [map ge_Event]. rewrite He. f_equal.
      refine (H3 (pt <| pt_events := es |>) _). apply list_elem_of_In, list_elem_of_lookup. exists i. unfold parts'.
      apply list_lookup_insert_eq. by eapply lookup_lt_Some.
    + assert (pt_ID pt ≠ pt_ID pt').
      { intros E. apply Hji. eapply (NoDup_lookup (map pt_ID parts)); [by apply NoDup_ListNoDup| |].
        - change (map pt_ID) with (fmap (M:=list) pt_ID). by rewrite list_lookup_fmap, Hj.
        - change (map pt_ID) with (fmap (M:=list) pt_ID). rewrite list_lookup_fmap, Hi. cbn. by rewrite E. }
      destruct (String.eqb_spec (pt_ID pt) (pt_ID pt')); [done|].
      apply H3, list_elem_of_In, list_elem_of_lookup. exists j. unfold parts'. by rewrite list_lookup_insert_ne.
Qed.

(** The merge of a group's events has every event of every member once,
    each member's in its own order; and in the order of time, then of session
    id, as far as each member's own clock did not go back. *)
Theorem mergeEvents_spec parts :
  List.NoDup (map pt_ID parts) →
  mergeEvents parts ≡ₚ all_events parts
  ∧ (∀ pt, In pt parts → events_of (pt_ID pt) (mergeEvents parts) = pt_events pt)
  ∧ (Forall (fun pt => in_time (pt_events pt)) parts → StronglySorted merged_le (mergeEvents parts)).
Proof.
  intros Hnd. destruct (merge_loop_spec (left_of parts) parts ltac:(lia)) as (H1 & H2 & H3).
  split_and!; [exact H1|by apply H3|exact H2].
Qed.

(** ** Paging *)

Lemma events_of_app id l l' : events_of id (l ++ l') = events_of id l ++ events_of id l'.
Proof. unfold events_of. by rewrite List.filter_app, map_app. Qed.

Definition seqs (evs : list Event) : list Z := map ev_Seq evs.

(** Cutting the events' text changes no number. *)
Lemma events_of_cut id l :
  seqs (events_of id (map (fun g => g <| ge_Event ::= cut_event |>) l)) = seqs (events_of id l).
Proof.
  assert (Hc : ∀ e, ev_Seq (cut_event e) = ev_Seq e) by (intros e; unfold cut_event; by case_match).
  unfold seqs, events_of. induction l as [|g l IH]; [done|]. cbn [map List.filter].
  change (ge_SessionID (g <| ge_Event ::= cut_event |>)) with (ge_SessionID g).
  destruct (ge_SessionID g =?s id); [|done]. cbn [map]. rewrite IH. by cbn; rewrite Hc.
Qed.

(** What the limit and the budget keep of the merge. *)
Definition page (jsonSize : GroupEvent → Z) (p : GroupEventsParams) (merged : list GroupEvent) : list GroupEvent :=
  let limit := eventLimit (gp_Limit p) in
  let kept := if limit <? Z.of_nat (length merged)
              then if gp_Newest p then drop (length merged - Z.to_nat limit) merged else take (Z.to_nat limit) merged
              else merged in
  (ShapeGroupEvents jsonSize kept (gp_Budget p) (gp_Newest p)).1.

Lemma page_part jsonSize p merged :
  ∃ kept, (∀ id, seqs (events_of id (page jsonSize p merged)) = seqs (events_of id kept))
  ∧ ∃ out, merged = if gp_Newest p then out ++ kept else kept ++ out.
Proof.
  unfold page. set (k0 := if _ <? _ then _ else _).
  assert (H0 : ∃ out, merged = if gp_Newest p then out ++ k0 else k0 ++ out).
  { unfold k0. destruct (_ <? _); destruct (gp_Newest p).
    - eexists. by rewrite take_drop.
    - eexists. by rewrite take_drop.
    - by exists [].
    - exists []. by rewrite app_nil_r. }
  clearbody k0. unfold ShapeGroupEvents, shapeEvents. cbn [fst].
  set (cutl := map _ k0). set (n := fit _ _ _ _). unfold keep.
  destruct H0 as [out H0]. destruct (gp_Newest p).
  - exists (drop (length cutl - n) k0). split.
    + intros id. unfold cutl. rewrite skipn_map. apply events_of_cut.
    + exists (out ++ take (length cutl - n) k0). by rewrite <- app_assoc, take_drop.
  - exists (take n k0). split.
    + intros id. unfold cutl. rewrite firstn_map. apply events_of_cut.
    + exists (drop n k0 ++ out). by rewrite app_assoc, take_drop.
Qed.

Lemma nextCursor_at parts kept cursor newest pt :
  List.NoDup (map pt_ID parts) → In pt parts →
  at_cursor (nextCursor parts kept cursor newest) (pt_ID pt) = next_at pt kept (at_cursor cursor (pt_ID pt)) newest.
Proof.
  intros Hnd Hin. unfold nextCursor, at_cursor at 1.
  by rewrite (lookup_fold_insert pt_ID (fun pt => next_at pt kept (at_cursor cursor (pt_ID pt)) newest)).
Qed.

(** ** A member's part *)

Section member.
Context (p : GroupEventsParams) (cursor : gmap string Z) (s : Session) (h : list Event).
Context (Hr : refines h (s_log s)) (Hc : 0 ≤ at_cursor cursor (s_ID s)).

(** The member's events the reader wants, after [since], that its log still has. *)
Definition wants (since : Z) : list Event :=
  wanted (member_query p cursor s) since (l_events (s_log s)).
Let at0 := at_cursor cursor (s_ID s).

Lemma since_member : since_of (member_query p cursor s) (s_log s) = at0.
Proof. unfold since_of. cbn. destruct (Z.ltb_spec (at_cursor cursor (s_ID s)) 0); [lia|done]. Qed.

Lemma part_member :
  pt_events (part_of p cursor s)
  = (if gp_Newest p then drop (length (wants at0) - Z.to_nat (eventLimit (eventLimit (gp_Limit p)))) (wants at0)
     else take (Z.to_nat (eventLimit (eventLimit (gp_Limit p)))) (wants at0))
  ∧ pt_more (part_of p cursor s)
    = Z.of_nat (length (wants at0) - Z.to_nat (eventLimit (eventLimit (gp_Limit p))))
  ∧ pt_latest (part_of p cursor s) = l_seq (s_log s).
Proof.
  destruct (query_events (member_query p cursor s) h (s_log s) Hr) as (H1 & H2 & H3 & _).
  rewrite since_member in H1, H2. split_and!; [exact H1|exact H2|exact H3].
Qed.

Lemma wants_sorted since : StronglySorted seq_lt (wants since).
Proof. by apply (wanted_sorted _ _ h). Qed.

Lemma wants_later since since' : since ≤ since' → wants since' = List.filter (fun e => since' <? ev_Seq e) (wants since).
Proof.
  intros H. unfold wants, wanted. induction (l_events (s_log s)) as [|e l IH]; [done|]. cbn [List.filter]. rewrite IH.
  destruct (matches _ e); rewrite ?andb_false_r, ?andb_true_r; [|done].
  destruct (Z.ltb_spec since (ev_Seq e)), (Z.ltb_spec since' (ev_Seq e)); cbn [List.filter]; try lia; try done.
  - by rewrite (proj2 (Z.ltb_lt _ _)).
  - by rewrite (proj2 (Z.ltb_ge _ _)).
Qed.

Lemma wants_seq since e : In e (wants since) → since < ev_Seq e ≤ l_seq (s_log s).
Proof.
  intros [Hin [H _]%andb_prop]%List.filter_In. split; [by apply Z.ltb_lt|].
  destruct (refines_wf h _ Hr) as [Hs _ _]. apply list_elem_of_In, list_elem_of_lookup in Hin as [i Hi].
  rewrite (Hs i e Hi). apply lookup_lt_Some in Hi. unfold first_seq. lia.
Qed.

Lemma wants_none since : l_seq (s_log s) ≤ since → wants since = [].
Proof.
  intros H. destruct (wants since) as [|e l] eqn:E; [done|]. assert (Hin : In e (wants since)) by (rewrite E; by left).
  apply wants_seq in Hin. lia.
Qed.
End member.

(** After the last of a first part of a sorted list comes the rest. *)
Lemma after_last l1 l2 e :
  StronglySorted seq_lt (l1 ++ l2) → last l1 = Some e →
  List.filter (fun x => ev_Seq e <? ev_Seq x) (l1 ++ l2) = l2.
Proof.
  intros Hs He. apply last_Some in He as [l1' ->]. rewrite <- app_assoc in Hs |- *. cbn [app] in *.
  rewrite List.filter_app. cbn [List.filter]. rewrite Z.ltb_irrefl.
  replace (List.filter _ l1') with (@nil Event).
  - cbn [app]. apply forallb_filter_id, List.forallb_forall. intros x Hx. apply Z.ltb_lt.
    apply (sorted_app_lt (l1' ++ [e]) l2); [by rewrite <- app_assoc|apply List.in_app_iff; right; by left|done].
  - symmetry. apply filter_negb_nil. intros x Hx. apply Z.ltb_ge.
    assert (seq_lt x e) by (apply (sorted_app_lt l1' (e :: l2)); [done|done|by left]). unfold seq_lt in *. lia.
Qed.

(** ** The page and the next cursor *)

Lemma eventLimit_idem n : eventLimit (eventLimit n) = eventLimit n.
Proof.
  pose proof (eventLimit_bounds n). unfold eventLimit at 1. destruct (Z.leb_spec (eventLimit n) 0); [lia|].
  unfold MaxEventsLimit in *. lia.
Qed.

(** [next_at] looks at no more of what was returned than the numbers. *)
Definition next_seq (pt : part) (got : list Z) (at_ : Z) (newest : bool) : Z :=
  if (pt_more pt =? 0) && (Z.of_nat (length got) =? Z.of_nat (length (pt_events pt))) then Z.max at_ (pt_latest pt)
  else if negb newest && negb (Z.of_nat (length got) =? 0) then Z.max at_ (default 0 (last got))
  else at_.
Lemma next_at_seq pt kept at_ newest : next_at pt kept at_ newest = next_seq pt (seqs (events_of (pt_ID pt) kept)) at_ newest.
Proof.
  unfold next_at, next_seq, seqs. rewrite length_map. set (l := events_of _ _).
  replace (default 0 (last (map ev_Seq l))) with (match last l with Some e => ev_Seq e | None => 0 end); [done|].
  change (map ev_Seq l) with (ev_Seq <$> l). rewrite fmap_last. by destruct (last l).
Qed.

(** What a page says of one member. *)
Definition paged (p : GroupEventsParams) (cursor next : gmap string Z) (s : Session) (got : list Z) : Prop :=
  let at_ := at_cursor cursor (s_ID s) in
  let at' := at_cursor next (s_ID s) in
  at_ ≤ at' ≤ Z.max at_ (l_seq (s_log s))
  ∧ (gp_Newest p = false → got ++ seqs (wants p cursor s at') = seqs (wants p cursor s at_))
  ∧ ∀ e, In e (wants p cursor s at_) → In (ev_Seq e) got ∨ at' < ev_Seq e.

(** The three places a page can leave a member at: past everything, past the
    last event returned, and where it was. *)
Lemma next_cases p cursor s h A B :
  refines h (s_log s) → 0 ≤ at_cursor cursor (s_ID s) →
  pt_events (part_of p cursor s) = (if gp_Newest p then B ++ A else A ++ B) →
  let at0 := at_cursor cursor (s_ID s) in
  let W := wants p cursor s at0 in
  let at' := next_seq (part_of p cursor s) (seqs A) at0 (gp_Newest p) in
  (A = W ∧ at' = Z.max at0 (l_seq (s_log s)))
  ∨ (∃ e R, W = A ++ R ∧ last A = Some e ∧ at' = Z.max at0 (ev_Seq e))
  ∨ (at' = at0 ∧ (gp_Newest p = false → A = [])).
Proof.
  intros Hr Hc HT at0 W at'. subst at'. destruct (part_member p cursor s h Hr Hc) as (HE & Hm & Hl). fold at0 W in HE, Hm.
  set (k := Z.to_nat _) in *. unfold next_seq. rewrite Hm, Hl. unfold seqs. rewrite length_map.
  destruct ((Z.of_nat (length W - k) =? 0) && (Z.of_nat (length A) =? Z.of_nat (length (pt_events (part_of p cursor s))))) eqn:E.
  - left. split; [|done]. apply andb_prop in E as [Hk%Z.eqb_eq Hn%Z.eqb_eq].
    assert (HB : B = []) by (rewrite HT in Hn; destruct B; [done|]; destruct (gp_Newest p); rewrite length_app in Hn; cbn in Hn; lia).
    rewrite HE, HB in HT. destruct (gp_Newest p); cbn in HT; rewrite ?app_nil_r in HT; rewrite <- HT.
    + by replace (length W - k)%nat with 0%nat by lia.
    + apply take_ge. lia.
  - destruct (gp_Newest p) eqn:Hnew; cbn [negb andb]; [by right; right|].
    destruct A as [|a A'] using rev_ind; [by right; right|]. clear IHA'. rewrite length_app. cbn [length].
    rewrite (proj2 (Z.eqb_neq _ 0)) by lia. right; left. exists a, (B ++ drop k W). split_and!.
    + by rewrite app_assoc, <- HT, HE, take_drop.
    + by rewrite last_snoc.
    + rewrite map_app. cbn [map]. by rewrite last_snoc.
Qed.

Lemma paged_member p cursor next s h got A B :
  refines h (s_log s) → 0 ≤ at_cursor cursor (s_ID s) →
  pt_events (part_of p cursor s) = (if gp_Newest p then B ++ A else A ++ B) → got = seqs A →
  at_cursor next (s_ID s) = next_seq (part_of p cursor s) got (at_cursor cursor (s_ID s)) (gp_Newest p) →
  paged p cursor next s got.
Proof.
  intros Hr Hc HT -> Hnext. unfold paged. rewrite Hnext.
  pose proof (wants_sorted p cursor s h Hr (at_cursor cursor (s_ID s))) as Hs.
  pose proof (λ e, wants_seq p cursor s h Hr (at_cursor cursor (s_ID s)) e) as HW.
  destruct (next_cases p cursor s h A B Hr Hc HT) as [[HA ->]|[(e & R & HWR & He & ->)|[-> HA]]].
  - rewrite <- HA in *. split; [lia|]. split; [|intros e He; left; by apply (List.in_map ev_Seq)].
    intros _. rewrite (wants_none p cursor s h Hr) by lia. apply app_nil_r.
  - assert (Hin : In e A) by (apply last_Some in He as [A' ->]; apply List.in_app_iff; right; by left).
    rewrite HWR in Hs, HW |- *. assert (He0 : at_cursor cursor (s_ID s) < ev_Seq e ≤ l_seq (s_log s)) by (apply HW, List.in_app_iff; by left).
    rewrite Z.max_r by lia. split; [lia|]. split.
    + intros _. rewrite (wants_later p cursor s (at_cursor cursor (s_ID s))), HWR, after_last by first [done|lia].
      symmetry. apply map_app.
    + intros x [Hx|Hx]%List.in_app_iff; [left; by apply (List.in_map ev_Seq)|]. right. by apply (sorted_app_lt A R).
  - split; [lia|]. split; [intros Hn; by rewrite HA|]. intros e He. right. by apply HW in He as [He _].
Qed.

(** One read of a group's events, from a cursor that was parsed. *)
Lemma group_page jsonSize p ms cursor :
  List.NoDup (map s_ID ms) →
  (∀ s, In s ms → (∃ h, refines h (s_log s)) ∧ 0 ≤ at_cursor cursor (s_ID s)) →
  let '(res, next) := groupEventsOnce jsonSize ms cursor p in
  gr_Cursor res = formatGroupCursor (map s_ID ms) next
  ∧ ∀ s, In s ms → paged p cursor next s (seqs (events_of (s_ID s) (gr_Events res))).
Proof.
  intros Hnd Hms. unfold groupEventsOnce. set (parts := map (part_of p cursor) ms).
  assert (Hids : map pt_ID parts = map s_ID ms) by (unfold parts; by rewrite map_map).
  assert (Hndp : List.NoDup (map pt_ID parts)) by by rewrite Hids.
  destruct (page_part jsonSize p (mergeEvents parts)) as (kept & Hseqs & out & Hmerge). unfold page in Hseqs.
  destruct (ShapeGroupEvents _ _ _ _) as [evs b] eqn:E. cbn [fst] in Hseqs. split; [done|]. cbn [gr_Events].
  intros s Hin. destruct (Hms s Hin) as [[h Hr] Hc].
  assert (Hpt : In (part_of p cursor s) parts) by by apply List.in_map.
  destruct (merge_loop_spec (left_of parts) parts ltac:(lia)) as (_ & _ & Hall). specialize (Hall Hndp _ Hpt).
  apply (paged_member p cursor _ s h _ (events_of (s_ID s) kept) (events_of (s_ID s) out) Hr Hc).
  - change (merge_loop _ parts) with (mergeEvents parts) in Hall. rewrite Hmerge in Hall. rewrite <- Hall. cbn [pt_ID part_of].
    destruct (gp_Newest p); apply events_of_app.
  - apply Hseqs.
  - change (s_ID s) with (pt_ID (part_of p cursor s)) at 1. rewrite nextCursor_at by done. apply next_at_seq.
Qed.

(** ** Cursors *)

Lemma validCursorID_bytes id c : validCursorID id = true → id_byte c = false → c ≠ "-"%char → contains_byte c id = false.
Proof.
  unfold validCursorID. destruct (cut_prefix "s-" id) as [rest|] eqn:E; [|done]. apply cut_prefix_Some in E as ->.
  intros [_ Hb]%andb_prop Hc Hne. change ("s-" +:+ rest) with (String "s" (String "-" rest)). cbn [contains_byte].
  rewrite (all_bytes_contains id_byte) by done. destruct (Ascii.eqb_spec c "s"); [by subst|]. by destruct (Ascii.eqb_spec c "-").
Qed.

(** An entry, printed and read. *)
Definition entry (at_ : gmap string Z) (id : string) : string := id +:+ ":" +:+ itoa (at_cursor at_ id).
Definition printable (at_ : gmap string Z) (id : string) : Prop :=
  validCursorID id = true ∧ 0 ≤ at_cursor at_ id ≤ max_int.

Lemma allDigits_itoa n : 0 ≤ n → allDigits (itoa n) = true.
Proof. intros H. unfold allDigits. rewrite itoa_digits by done. destruct (String.eqb_spec (itoa n) ""); [by apply itoa_nonempty in H|done]. Qed.

Lemma entry_no_comma at_ id : printable at_ id → contains_byte "," (entry at_ id) = false.
Proof.
  intros [Hv Hn]. unfold entry. rewrite !contains_byte_app, validCursorID_bytes by done. cbn [orb].
  change (contains_byte "," ":") with false. cbn [orb]. apply (all_bytes_contains is_digit); [apply itoa_digits; lia|done].
Qed.

Lemma parse_entries_print at_ ids m :
  List.NoDup ids → Forall (printable at_) ids → (∀ id, In id ids → m !! id = None) →
  parse_entries (map (entry at_) ids) m = Ok (fold_left (fun m id => <[id := at_cursor at_ id]> m) ids m).
Proof.
  intros Hnd Hp. revert m. induction Hp as [|id ids [Hv Hn] Hp IH]; intros m Hm; [done|].
  apply List.NoDup_cons_iff in Hnd as [Hni Hnd]. cbn [map parse_entries fold_left]. unfold entry at 1.
  change (id +:+ ":" +:+ itoa (at_cursor at_ id)) with (id +:+ String ":" (itoa (at_cursor at_ id))).
  rewrite cut_at_app by by apply validCursorID_bytes. rewrite Hv, allDigits_itoa, atoi_itoa, Hm by (lia || by left).
  apply IH; [done|]. intros id' Hid'. rewrite lookup_insert_ne by (intros ->; done). apply Hm. by right.
Qed.

Lemma groupCursor_print ids at_ :
  List.NoDup ids → Forall (printable at_) ids → Z.of_nat (length ids) ≤ MaxGroupCursor →
  ∃ cursor, parseGroupCursor (formatGroupCursor ids at_) = Ok cursor
  ∧ (∀ id, In id ids → cursor !! id = Some (at_cursor at_ id)) ∧ ∀ id, ¬ In id ids → cursor !! id = None.
Proof.
  intros Hnd Hp Hlen. exists (fold_left (fun m id => <[id := at_cursor at_ id]> m) ids ∅).
  split; [|split; [intros id Hid; apply (lookup_fold_insert (fun id => id))
    |intros id Hid; rewrite (lookup_fold_insert_other (fun id => id))]].
  - destruct (decide (ids = [])) as [->|Hne]; [done|]. unfold parseGroupCursor, formatGroupCursor.
    change (map (fun id => _) ids) with (map (entry at_) ids). set (l := map (entry at_) ids).
    assert (Hs : split_on "," (join "," l) = l).
    { apply split_join; [by destruct ids|]. apply Forall_map. eapply Forall_impl; [exact Hp|]. apply entry_no_comma. }
    rewrite Hs. destruct (String.eqb_spec (join "," l) "") as [E|_].
    { exfalso. unfold l in *. destruct Hp as [|id ids' [Hv _] Hp']; [done|]. destruct ids'; cbn in E; by destruct id. }
    unfold l. rewrite length_map, (proj2 (Z.ltb_ge _ _)) by done. by apply parse_entries_print.
  - by rewrite List.map_id.
  - done.
  - done.
  - by rewrite List.map_id.
Qed.

(** Any cursor that is read names ids of sessions, and places a count can have. *)
Lemma parse_entries_bounds es m m' :
  parse_entries es m = Ok m' → map_Forall (fun id n => validCursorID id = true ∧ 0 ≤ n ≤ max_int) m →
  map_Forall (fun id n => validCursorID id = true ∧ 0 ≤ n ≤ max_int) m'.
Proof.
  revert m. induction es as [|e es IH]; intros m; cbn [parse_entries]; [by intros [= ->]|].
  destruct (cut_at ":" e) as [[id seq]|]; [|done]. destruct (validCursorID id) eqn:Hv; [|done].
  destruct (allDigits seq) eqn:Hd; [|done]. cbn [negb orb]. destruct (atoi seq) as [n|] eqn:En; [|done].
  destruct (m !! id); [done|]. intros H Hm. apply (IH _ H). apply map_Forall_insert_2; [|done]. split; [done|].
  apply (atoi_digits_bounds seq); [|done]. by apply andb_prop in Hd as [_ Hd].
Qed.

(** ** Waiting for any member *)

#[global] Instance stoppedFirst_refl : Reflexive stoppedFirst.
Proof. intros x. right. split; [done|]. destruct (String.leb_total (ms_ID x) (ms_ID x)); done. Qed.
#[global] Instance stoppedFirst_trans : Transitive stoppedFirst.
Proof.
  intros x y z [Hx|[Hx Hsx]] [Hy|[Hy Hsy]]; try (left; lia). right. split; [lia|].
  apply Is_true_true in Hsx, Hsy. apply Is_true_true. change (String.le (ms_ID x) (ms_ID z)). by transitivity (ms_ID y).
Qed.
Lemma stoppedFirst_total x y : ¬ stoppedFirst x y → stoppedFirst y x.
Proof.
  unfold stoppedFirst. intros H. destruct (Z.lt_trichotomy (ms_stoppedAt x) (ms_stoppedAt y)) as [?|[E|?]]; [|right|left; lia].
  - exfalso. apply H. by left.
  - split; [done|]. destruct (String.leb_total (ms_ID x) (ms_ID y)) as [E'|E']; [|done]. exfalso. apply H. by right.
Qed.

Lemma oldestStop_spec l :
  match oldestStop l with
  | None => l = []
  | Some m => In m l ∧ ∀ x, In x l → stoppedFirst m x
  end.
Proof.
  destruct l as [|a l]; [done|]. cbn [oldestStop]. unfold firstStopped. revert a.
  induction l as [|x l IH]; intros a; cbn [fold_left]; [split; [by left|intros x [<-|[]]; reflexivity]|].
  destruct (IH (if decide (stoppedFirst a x) then a else x)) as [H1 H2].
  assert (Hh : stoppedFirst (if decide (stoppedFirst a x) then a else x) a ∧ stoppedFirst (if decide (stoppedFirst a x) then a else x) x).
  { destruct (decide (stoppedFirst a x)); split; try reflexivity; [done|by apply stoppedFirst_total]. }
  split.
  - destruct H1 as [<-|H1]; [|by do 2 right]. destruct (decide _); [by left|right; by left].
  - specialize (H2 _ (or_introl eq_refl)). intros y [<-|[<-|Hy]]; [etrans; [exact H2|apply Hh]..|].
    destruct (IH (if decide (stoppedFirst a x) then a else x)) as [_ H3]. apply H3. by right.
Qed.

(** A member live at the marks that has stopped anew since, or has ended. *)
Definition stoppedAnew (mark ms : memberState) : Prop := ms_state mark ≠ StateExited ∧ ms_stops mark < ms_stops ms.
Definition moved (mark ms : memberState) : Prop :=
  stoppedAnew mark ms ∨ ms_state mark ≠ StateExited ∧ ms_state ms = StateExited.

Lemma is_exited_spec ms : is_exited ms = true ↔ ms_state ms = StateExited.
Proof. unfold is_exited. apply bool_decide_eq_true. Qed.
Lemma is_exited_false ms : negb (is_exited ms) = true ↔ ms_state ms ≠ StateExited.
Proof. unfold is_exited. rewrite negb_true_iff. apply bool_decide_eq_false. Qed.

Lemma stoppedSince_In marks states m :
  In m (stoppedSince marks states) ↔ ∃ mark, In (mark, m) (zip marks states) ∧ stoppedAnew mark m.
Proof.
  unfold stoppedSince, stoppedAnew. rewrite List.in_map_iff. split.
  - intros ([mark ms] & <- & [Hin [He%is_exited_false Hs%Z.ltb_lt]%andb_prop]%List.filter_In). by exists mark.
  - intros (mark & Hin & He & Hs). exists (mark, m). split; [done|]. apply List.filter_In. split; [done|].
    by rewrite (proj2 (is_exited_false mark)), (proj2 (Z.ltb_lt _ _)).
Qed.
Lemma endedSince_In marks states m :
  In m (endedSince marks states)
  ↔ ∃ mark, In (mark, m) (zip marks states) ∧ moved mark m ∧ ¬ stoppedAnew mark m.
Proof.
  unfold endedSince, moved, stoppedAnew. rewrite List.in_map_iff. split.
  - intros ([mark ms] & <- & [Hin [[He%is_exited_false Hs]%andb_prop Hx%is_exited_spec]%andb_prop]%List.filter_In).
    exists mark. apply negb_true_iff, Z.ltb_ge in Hs. split_and!; [done|by right|cbn [snd]; intros [_ ?]; lia].
  - intros (mark & Hin & Hm & Hs). exists (mark, m). split; [done|]. apply List.filter_In. split; [done|].
    destruct Hm as [?|[He Hx]]; [done|]. rewrite (proj2 (is_exited_false mark)), (proj2 (is_exited_spec m)) by done.
    rewrite (proj2 (Z.ltb_ge _ _)); [done|]. apply Z.nlt_ge. by intros ?; apply Hs.
Qed.

(** The member that answers: of those that stopped anew the one that stopped
    first, else one that ended; none when no member moved. *)
Definition answer (marks states : list memberState) (m : memberState) : Prop :=
  ∃ mark, In (mark, m) (zip marks states) ∧ moved mark m
  ∧ ∀ mark' x, In (mark', x) (zip marks states) → stoppedAnew mark' x → stoppedAnew mark m ∧ stoppedFirst m x.
Definition nobody_moved (marks states : list memberState) : Prop :=
  ∀ mark ms, In (mark, ms) (zip marks states) → ¬ moved mark ms.

Lemma answered_spec marks states :
  match answered marks states with Some m => answer marks states m | None => nobody_moved marks states end.
Proof.
  unfold answered. pose proof (oldestStop_spec (stoppedSince marks states)) as Ho. destruct (oldestStop _) as [m|].
  - destruct Ho as [Hin Hmin]. apply stoppedSince_In in Hin as (mark & Hin & Hs). exists mark. split_and!; [done|by left|].
    intros mark' x Hx Hsx. split; [done|]. apply Hmin, stoppedSince_In. by exists mark'.
  - assert (Hno : ∀ mark ms, In (mark, ms) (zip marks states) → ¬ stoppedAnew mark ms).
    { intros mark ms Hin Hs. assert (H : In ms (stoppedSince marks states)) by (apply stoppedSince_In; by exists mark). by rewrite Ho in H. }
    destruct (endedSince marks states) as [|m l] eqn:E; cbn [head].
    + intros mark ms Hin Hm. assert (H : In ms (endedSince marks states)) by (apply endedSince_In; exists mark; auto). by rewrite E in H.
    + assert (H : In m (endedSince marks states)) by (rewrite E; by left). apply endedSince_In in H as (mark & Hin & Hm & _).
      exists mark. split_and!; [done|done|]. intros mark' x Hx Hsx. by destruct (Hno _ _ Hx).
Qed.

Lemma wait_looks_spec marks looks last :
  match wait_looks marks looks last with
  | Some m => ∃ before l after, looks ++ [last] = before ++ l :: after
              ∧ Forall (fun l => nobody_moved marks (statesOf l)) before ∧ answer marks (statesOf l) m
  | None => Forall (fun l => nobody_moved marks (statesOf l)) (looks ++ [last])
  end.
Proof.
  induction looks as [|l looks IH]; cbn [wait_looks app].
  - pose proof (answered_spec marks (statesOf last)) as Ha. destruct (answered _ _) as [m|]; [|by constructor].
    by exists [], last, [].
  - pose proof (answered_spec marks (statesOf l)) as Ha. destruct (answered _ _) as [m|]; [by exists [], l, (looks ++ [last])|].
    destruct (wait_looks _ _ _) as [m|]; [|by constructor]. destruct IH as (b & l' & a & -> & Hb & Hm).
    exists (l :: b), l', a. split_and!; [done|by constructor|done].
Qed.

(** What a wait for any member of a group answers. That all have ended, at
    once and only when they had when the wait began. A member, when it was
    stopped at the start and none stopped before it (unless only new stops are
    asked for), or when at the first look that saw any member move it is the
    one that stopped first of those that stopped anew, or, none having
    stopped, one that ended. And a timeout only when no look, the last one at
    the deadline included, saw a member stop anew or end. *)
Theorem groupWait_spec snapshot marks newOnly looks final look look' :
  let r := groupWaitFrom snapshot marks newOnly looks final look look' in
  let stoppedThen := if newOnly then [] else List.filter is_stopped marks in
  (∃ m, gw_Session r = Some (snapshot (ms_ID m)) ∧ gw_TimedOut r = false
     ∧ (In m stoppedThen ∧ (∀ x, In x stoppedThen → stoppedFirst m x)
        ∨ ∃ before l after, looks ++ [final] = before ++ l :: after
          ∧ Forall (fun l => nobody_moved marks (statesOf l)) before ∧ answer marks (statesOf l) m))
  ∨ gw_Session r = None ∧ gw_TimedOut r = true ∧ gw_Ended r = false ∧ stoppedThen = []
    ∧ Forall (fun l => nobody_moved marks (statesOf l)) (looks ++ [final])
  ∨ gw_Session r = None ∧ gw_TimedOut r = false ∧ gw_Ended r = true ∧ Forall (fun m => ms_state m = StateExited) marks.
Proof.
  cbv zeta. unfold groupWaitFrom. destruct (forallb is_exited marks) eqn:Ee.
  { right; right. split_and!; try done. apply List.Forall_forall. intros m Hm. apply is_exited_spec. by eapply List.forallb_forall in Ee. }
  set (st := if newOnly then [] else List.filter is_stopped marks).
  assert (Hst : (if newOnly then None else oldestStop (List.filter is_stopped marks)) = oldestStop st) by (unfold st; by destruct newOnly).
  rewrite Hst. pose proof (oldestStop_spec st) as Ho. destruct (oldestStop st) as [m|]; [left; exists m; split_and!; [done..|by left]|].
  pose proof (wait_looks_spec marks looks final) as Hw. destruct (wait_looks marks looks final) as [m|].
  - left. exists m. split_and!; [done..|by right].
  - right; left. done.
Qed.

(** ** A read, from cursor to cursor *)

Lemma parseGroupCursor_bounds s cursor id :
  parseGroupCursor s = Ok cursor → 0 ≤ at_cursor cursor id ≤ max_int.
Proof.
  unfold parseGroupCursor. destruct (s =?s ""); [intros [= <-]; unfold at_cursor; by rewrite lookup_empty|].
  destruct (_ <? _); [done|]. intros H%parse_entries_bounds; [|by apply map_Forall_empty].
  unfold at_cursor. destruct (cursor !! id) as [n|] eqn:E; [|done]. by destruct (H id n E).
Qed.

(** A group a read accepts: its members' ids are distinct and session ids, not
    more than a cursor has entries, each with a log. *)
Record readable (ms : list Session) : Prop := {
  rd_ids : List.NoDup (map s_ID ms);
  rd_valid : Forall (fun s => validCursorID (s_ID s) = true) ms;
  rd_few : Z.of_nat (length ms) ≤ MaxGroupCursor;
  rd_logs : Forall (fun s => (∃ h, refines h (s_log s)) ∧ l_seq (s_log s) ≤ max_int) ms }.

(** C33: reading a group's events from a cursor, of any limit and budget. The
    cursor answered is one that can be read back, and for every member it is
    never before the reader's and never past the member's last event; oldest
    first, the events returned of the member and those the new cursor still
    wants are together those the reader's cursor wanted, in their order, so none is
    skipped and none comes twice; and whichever end is read, a wanted event is
    returned or still ahead of the new cursor: what the limit or the budget
    left out is never lost. *)
Theorem group_read jsonSize p ms cursor :
  readable ms → parseGroupCursor (gp_Since p) = Ok cursor →
  let res := (groupEventsOnce jsonSize ms cursor p).1 in
  ∃ next, parseGroupCursor (gr_Cursor res) = Ok next
  ∧ ∀ s, In s ms → paged p cursor next s (seqs (events_of (s_ID s) (gr_Events res))).
Proof.
  intros [Hids Hv Hfew Hlogs] Hp. rewrite List.Forall_forall in Hv, Hlogs. cbv zeta.
  pose proof (λ id, parseGroupCursor_bounds _ _ id Hp) as Hb.
  pose proof (group_page jsonSize p ms cursor Hids) as Hpage.
  destruct (groupEventsOnce jsonSize ms cursor p) as [res next]. cbn [fst].
  destruct Hpage as [Hcur Hpage]; [intros s Hs; split; [apply Hlogs, Hs|apply Hb]|].
  destruct (groupCursor_print (map s_ID ms) next) as (next' & Hnext & Hsame & _); [done| |by rewrite length_map|].
  - apply List.Forall_forall. intros id (s & <- & Hs)%List.in_map_iff. split; [by apply Hv|].
    destruct (Hpage s Hs) as [Hat _]. destruct (Hlogs s Hs) as [_ Hmax]. specialize (Hb (s_ID s)). lia.
  - exists next'. rewrite Hcur. split; [done|]. intros s Hs. specialize (Hpage s Hs). unfold paged in *.
    assert (Heq : at_cursor next' (s_ID s) = at_cursor next (s_ID s)) by (unfold at_cursor at 1; by rewrite Hsame by by apply List.in_map).
    by rewrite Heq.
Qed.

(** A group events cursor is read back: what [formatGroupCursor] prints for
    at most 64 members, [parseGroupCursor] reads as the same place for each of
    them and as no place for any other id; and what it accepts, printed or
    not, is never a place a count cannot have. *)
Theorem groupCursor_roundtrip ids at_ :
  List.NoDup ids → Forall (printable at_) ids → Z.of_nat (length ids) ≤ MaxGroupCursor →
  (∃ cursor, parseGroupCursor (formatGroupCursor ids at_) = Ok cursor
   ∧ (∀ id, In id ids → cursor !! id = Some (at_cursor at_ id)) ∧ ∀ id, ¬ In id ids → cursor !! id = None)
  ∧ ∀ s cursor, parseGroupCursor s = Ok cursor → ∀ id, 0 ≤ at_cursor cursor id ≤ max_int.
Proof.
  intros Hnd Hp Hlen. split; [by apply groupCursor_print|]. intros s cursor H id. by apply (parseGroupCursor_bounds s).
Qed.

(** ** A group of two *)

Definition api_log : eventLog := append_all [(5, event EventStopped); (9, event EventStopped)] (newEventLog 8 maxEventBytes).
Definition web_log : eventLog := append_all [(7, event EventStopped)] (newEventLog 8 maxEventBytes).
Definition group_member (id : string) (l : eventLog) : Session :=
  (newSession ((sample_conf (agent "a")) <| cf_ID := id |> <| cf_group := "shop"%string |>) LeaseHandoff 0 None 1) <| s_log := l |>.
Definition shop : list Session := [group_member "s-api1" api_log; group_member "s-web1" web_log].
Definition shop_query : GroupEventsParams := mkGroupEvents "shop" "s-api1:0" false 2 [] 0.
Definition at_api1 : gmap string Z := {["s-api1"%string := 0]}.

Lemma shop_readable : readable shop.
Proof.
  split; [|repeat constructor|done|].
  - repeat constructor; cbn; intuition discriminate.
  - constructor; [|constructor; [|constructor]]; (split; [eexists; apply (append_all_refines _ [] _ (refines_new 8 maxEventBytes))|by vm_compute]).
Qed.

Lemma group_read_witness :
  let res := (groupEventsOnce (fun _ => 10) shop at_api1 shop_query).1 in
  gr_Cursor res = "s-api1:1,s-web1:1"
  ∧ ∃ next, parseGroupCursor (gr_Cursor res) = Ok next
    ∧ ∀ s, In s shop → paged shop_query at_api1 next s (seqs (events_of (s_ID s) (gr_Events res))).
Proof.
  split; [vm_compute; reflexivity|]. apply (group_read (fun _ => 10) shop_query shop at_api1 shop_readable).
  vm_compute. reflexivity.
Defined.

Definition shop_parts : list part := map (part_of shop_query at_api1) shop.
Lemma mergeEvents_spec_witness :
  map ge_SessionID (mergeEvents shop_parts) = ["s-api1"; "s-web1"; "s-api1"]%string
  ∧ mergeEvents shop_parts ≡ₚ all_events shop_parts ∧ StronglySorted merged_le (mergeEvents shop_parts).
Proof.
  split; [vm_compute; reflexivity|]. destruct (mergeEvents_spec shop_parts) as (H1 & _ & H3).
  - repeat constructor; cbn; intuition discriminate.
  - split; [exact H1|]. apply H3. repeat constructor; cbn; lia.
Defined.

Lemma groupCursor_roundtrip_witness :
  formatGroupCursor ["s-api1"%string] at_api1 = "s-api1:0"
  ∧ ∃ cursor, parseGroupCursor "s-api1:0" = Ok cursor ∧ cursor !! "s-api1" = Some 0.
Proof.
  split; [vm_compute; reflexivity|]. destruct (groupCursor_roundtrip ["s-api1"%string] at_api1) as [(c & H1 & H2 & _) _].
  - repeat constructor. by intros [].
  - repeat constructor; by vm_compute.
  - by vm_compute.
  - exists c. split; [exact H1|]. exact (H2 _ (or_introl eq_refl)).
Defined.
