(* ===== verification/Sideeffects.v ===== *)
(** * What an expression would change: the .NET driver's check

    src/drivers/dotnet/sideeffects.go. Every expression a client evaluates
    without the lease is scanned first; [SideEffects] is the scan, over the
    expression's bytes. A method that advances the scanner returns the
    scanner after it, or the reason it found. *)

From Stdlib Require Import Ascii Bool.
From S2P Require Import Prelude GoStrings.

Open Scope nat_scope.

Definition reasonNew : string := "create an object".
Definition reasonAssign : string := "assign".
Definition reasonIncrement : string := "increment or decrement".
Definition reasonInterpolated : string := "use an interpolated string (it can call methods)".

(** An open parenthesis. *)
Record paren := mkParen { p_name : bool; p_empty : bool }.

(** The scanner, without the text, which does not change. The stacks
    [generics] and [parens] have their tops first. *)
Record scanner := mkScanner {
  pos : nat; prev : string; prevEnd : nat; generics : list string; closed : string;
  parens : list paren; castClose : bool }.
#[global] Instance eta_scanner : Eta scanner := fun s =>
  mkScanner (pos s) (prev s) (prevEnd s) (generics s) (closed s) (parens s) (castClose s).

Definition new_scanner : scanner := mkScanner 0 "" 0 [] "" [] false.

Inductive scanned := Found (reason : string) | Scanned (sc : scanner).

(** ** Characters *)

Definition dq : ascii := ascii_of 34.
Definition lower_letter (c : ascii) : bool := (97 <=? byte_of c)%Z && (byte_of c <=? 122)%Z.
Definition upper_letter (c : ascii) : bool := (65 <=? byte_of c)%Z && (byte_of c <=? 90)%Z.
Definition isIdentStart (c : ascii) : bool :=
  (c =? "_")%char || lower_letter c || upper_letter c || (128 <=? byte_of c)%Z.
Definition isIdentPart (c : ascii) : bool := isIdentStart c || is_digit c.

Definition isIdent (t : string) : bool :=
  match t with
  | "" => false
  | String c _ => isIdentStart c || (c =? "$")%char || (c =? "@")%char
  end.

Definition notCall (word : string) : bool :=
  bool_decide (word ∈ ["typeof"; "sizeof"; "default"; "nameof"; "checked"; "unchecked"; "is"; "and"; "or"; "not"]%string).

(** ** The scanner's methods *)

Section scan.
Context (src : string).

(** A byte of the text, and whether it is [c]; past the end none is. *)
Definition byte (i : nat) : option ascii := snth i src.
Definition is_at (c : ascii) (i : nat) : bool :=
  match byte i with Some b => (b =? c)%char | None => false end.

Definition content (partOfName : bool) (sc : scanner) : scanner :=
  match parens sc with
  | p :: rest => sc <| parens := mkParen (p_name p && partOfName) false :: rest |>
  | [] => sc
  end.

Definition token (tok : string) (e : nat) (sc : scanner) : scanner :=
  sc <| prev := tok |> <| prevEnd := e |> <| pos := e |> <| closed := ""%string |> <| castClose := false |>.

(** [skipComment] and [skipSpace]: where the space that starts at [i] ends. *)
Definition comment_end (i : nat) : nat :=
  if is_at "/" (S i) then String.length src
  else match index_str "*/" (sdrop (i + 2) src) with
       | Some n => i + 2 + n + 2
       | None => String.length src
       end.
Definition space_end (c : ascii) (i : nat) : option nat :=
  if (c =? " ")%char || (c =? ascii_of 9)%char || (c =? ascii_of 13)%char || (c =? ascii_of 10)%char then Some (S i)
  else if (c =? "/")%char && (is_at "*" (S i) || is_at "/" (S i)) then Some (comment_end i)
  else None.

(** [skipString] and [skipChar]: how many bytes of the text a literal takes
    after its opening quote. *)
Fixpoint string_rest (verbatim : bool) (s : string) : nat :=
  match s with
  | "" => 0
  | String c t =>
    if verbatim && (c =? dq)%char && has_prefix (String dq "") t
    then match t with String _ u => 2 + string_rest verbatim u | "" => 1 end
    else if negb verbatim && (c =? "\")%char
    then match t with String _ u => 2 + string_rest verbatim u | "" => 1 end
    else if (c =? dq)%char then 1
    else S (string_rest verbatim t)
  end.
Definition skipString (from : nat) (verbatim : bool) (sc : scanner) : scanner :=
  token (String dq "") (from + string_rest verbatim (sdrop from src)) (content false sc).

Fixpoint char_rest (s : string) : nat :=
  match s with
  | "" => 0
  | String c t =>
    if (c =? "'")%char then 1
    else if (c =? "\")%char then match t with String _ u => 2 + char_rest u | "" => 1 end
    else S (char_rest t)
  end.
Definition skipChar (sc : scanner) : scanner :=
  token "'" (S (pos sc) + char_rest (sdrop (S (pos sc)) src)) (content false sc).

Definition number_end (i : nat) : nat := i + span (fun c => isIdentPart c || (c =? ".")%char) (sdrop i src).
Definition number (sc : scanner) : scanner := token "0" (number_end (pos sc)) (content false sc).

Definition ident_end (i : nat) : nat := S i + span isIdentPart (sdrop (S i) src).
Definition substr (i j : nat) : string := stake (j - i) (sdrop i src).
Definition ident (sc : scanner) : scanned :=
  let i := ident_end (pos sc) in
  let word := substr (pos sc) i in
  if (word =?s "new")%string then Found reasonNew else Scanned (token word i (content true sc)).

(** [callee]: the name of what a parenthesis at [pos] calls, if it calls. *)
Definition sigil (c : ascii) : bool := (c =? "@")%char || (c =? "$")%char.
Definition callee (sc : scanner) : option string :=
  if isIdent (prev sc) && negb (notCall (prev sc)) then Some (" (" +:+ trim_left sigil (prev sc) +:+ ")")%string
  else if negb (prevEnd sc =? pos sc) then None
  else if (prev sc =?s ")")%string && negb (castClose sc) || (prev sc =?s "]")%string then Some ""%string
  else if (prev sc =?s ">")%string && negb (closed sc =?s "")%string
  then Some (" (" +:+ trim_left sigil (closed sc) +:+ ")")%string
  else None.

Definition do_paren (sc : scanner) : scanned :=
  if is_at ")" (pos sc) then
    match parens sc with
    | p :: rest =>
      Scanned ((token ")" (S (pos sc)) (sc <| parens := rest |>)) <| castClose := p_name p && negb (p_empty p) |>)
    | [] => Scanned sc
    end
  else match callee sc with
       | Some name => Found ("call a method" +:+ name)%string
       | None =>
         let sc := content false sc in
         Scanned (token "(" (S (pos sc)) (sc <| parens ::= cons (mkParen true true) |>))
       end.

(** [equals]: whether an equals sign at [i] assigns, when no other follows. *)
Definition compares (i : nat) : bool :=
  match i with
  | O => false
  | S j =>
    is_at "!" j
    || (is_at "<" j && negb (match j with O => false | S k => is_at "<" k end))
    || (is_at ">" j && negb (match j with O => false | S k => is_at ">" k end))
  end.
Definition equals (sc : scanner) : scanned :=
  let sc := content false sc in
  if is_at "=" (S (pos sc)) || is_at ">" (S (pos sc)) then Scanned (token "=" (pos sc + 2) sc)
  else if compares (pos sc) then Scanned (token "=" (S (pos sc)) sc)
  else Found reasonAssign.

Definition punct (c : ascii) (sc : scanner) : scanned :=
  let plain sc := Scanned (token (String c "") (S (pos sc)) (content (c =? ".")%char sc)) in
  if (c =? "+")%char && is_at "+" (S (pos sc)) || (c =? "-")%char && is_at "-" (S (pos sc)) then Found reasonIncrement
  else if (c =? "(")%char || (c =? ")")%char && negb (match parens sc with [] => true | _ => false end) then do_paren sc
  else if (c =? "=")%char then equals sc
  else if (c =? "<")%char && (prevEnd sc =? pos sc) && isIdent (prev sc) && negb (is_at "=" (S (pos sc))) && negb (is_at "<" (S (pos sc)))
  then plain (sc <| generics ::= cons (prev sc) |>)
  else match generics sc with
       | name :: rest =>
         if (c =? ">")%char && negb (is_at "=" (S (pos sc)))
         then Scanned ((token ">" (S (pos sc)) (content false (sc <| generics := rest |>))) <| closed := name |>)
         else plain sc
       | [] => plain sc
       end.

(** [literal]; [None] when none starts at [pos]. *)
Definition literal (c : ascii) (sc : scanner) : option scanned :=
  let i := S (pos sc) in
  if (c =? "$")%char && (is_at dq i || is_at "@" i) || (c =? "@")%char && is_at "$" i then Some (Found reasonInterpolated)
  else if (c =? dq)%char then Some (Scanned (skipString i false sc))
  else if (c =? "@")%char && is_at dq i then Some (Scanned (skipString (S i) true sc))
  else if (c =? "'")%char then Some (Scanned (skipChar sc))
  else if match byte i with Some n => isIdentStart n | None => false end then Some (ident sc)
  else None.

Definition next (sc : scanner) : scanned :=
  match byte (pos sc) with
  | None => Scanned sc
  | Some c =>
    match space_end c (pos sc) with
    | Some e => Scanned (sc <| pos := e |>)
    | None =>
      if (c =? "$")%char || (c =? "@")%char || (c =? dq)%char || (c =? "'")%char
      then match literal c sc with Some r => r | None => punct c sc end
      else if isIdentStart c then ident sc
      else if is_digit c then Scanned (number sc)
      else punct c sc
    end
  end.

(** The loop of [SideEffects], [None] when its fuel runs out. *)
Fixpoint scan (fuel : nat) (sc : scanner) : option (option string) :=
  if pos sc <? String.length src
  then match fuel with
       | O => None
       | S n => match next sc with Found r => Some (Some r) | Scanned sc => scan n sc end
       end
  else Some None.
End scan.

Definition scan_all (expr : string) : option (option string) := scan expr (String.length expr) new_scanner.
Definition SideEffects (expr : string) : option string := default None (scan_all expr).
