(* ===== verification/SideeffectsSpec.v ===== *)
(** * What the .NET driver's check finds

    A grammar of an expression's tokens, as C# has them ([lexes]), and when
    a token is a side effect, said of the tokens before it ([effect]): neither
    mentions the scanner, its state or its helpers. [SideEffects] finds
    something exactly when one of the tokens is. In between, [tokens] reads
    the tokens where the scanner does. *)

From Stdlib Require Import Ascii Bool.
From S2P Require Import Prelude GoStrings Sideeffects.

Open Scope nat_scope.

Inductive kind := Word | Number | Text | Interpolated | Twice | Punct.
#[global] Instance kind_eq_dec : EqDecision kind.
Proof. solve_decision. Defined.

Record tok := mkTok { t_kind : kind; t_from : nat; t_to : nat }.

(** ** C#'s tokens

    A text's bytes, cut into tokens and what is between them: each relation
    is of a piece and of the text that follows it. A literal that is not
    closed goes on to the end. *)

Definition between (a b c : ascii) : bool := (byte_of a <=? byte_of c)%Z && (byte_of c <=? byte_of b)%Z.
(** What a name starts with, and goes on with; a byte outside ASCII is part
    of a letter. *)
Definition initial (c : ascii) : bool :=
  (c =? "_")%char || between "a" "z" c || between "A" "Z" c || negb (between (ascii_of 0) (ascii_of 127) c).
Definition figure (c : ascii) : bool := between "0" "9" c.
Definition later (c : ascii) : bool := initial c || figure c.
Definition line_break (c : ascii) : bool := (c =? ascii_of 10)%char || (c =? ascii_of 13)%char.
Definition white (c : ascii) : bool := (c =? " ")%char || (c =? ascii_of 9)%char || line_break c.
Definition starts (p : ascii → bool) (s : string) : bool := match s with String c _ => p c | "" => false end.
Definition starts_with (c : ascii) : string → bool := starts (fun b => b =? c)%char.

(** Space and comments. *)
Inductive blank : string → string → Prop :=
  | blank_char c r : white c = true → blank (String c "") r
  | blank_comment b r : (∀ x y, b +:+ "*/" = x +:+ "*/" +:+ y → y = ""%string) → blank ("/*" +:+ b +:+ "*/") r
  | blank_unclosed b : (∀ x y, b ≠ x +:+ "*/" +:+ y) → blank ("/*" +:+ b) ""
  | blank_line b r : all_bytes (fun c => negb (line_break c)) b = true → (r = ""%string ∨ starts line_break r = true) →
      blank ("//" +:+ b) r.

(** The rest of a literal, from after the quote [q] that opens it: with
    backslash escapes, or a verbatim string's, where a quote is doubled. *)
Inductive quoted (q : ascii) : string → string → Prop :=
  | quoted_close r : quoted q (String q "") r
  | quoted_char c s r : c ≠ q → c ≠ "\"%char → quoted q s r → quoted q (String c s) r
  | quoted_escape c s r : quoted q s r → quoted q (String "\" (String c s)) r
  | quoted_open : quoted q "" ""
  | quoted_lone : quoted q "\" "".
Inductive verbatim : string → string → Prop :=
  | verbatim_close r : starts_with dq r = false → verbatim (String dq "") r
  | verbatim_char c s r : c ≠ dq → verbatim s r → verbatim (String c s) r
  | verbatim_double s r : verbatim s r → verbatim (String dq (String dq s)) r
  | verbatim_open : verbatim "" "".

(** A name; and the rest of a number, which a dot belongs to only before a
    digit. An exponent's sign is read as an operator. *)
Inductive name : string → string → Prop :=
  | name_all c s r : initial c = true → all_bytes later s = true → starts later r = false → name (String c s) r.
Inductive numeral : string → string → Prop :=
  | numeral_end r : starts later r = false → (∀ r', r = String "." r' → starts figure r' = false) → numeral "" r
  | numeral_char c s r : later c = true → numeral s r → numeral (String c s) r
  | numeral_point c s r : figure c = true → numeral (String c s) r → numeral (String "." (String c s)) r.

(** The mark of an interpolated string; a character by itself. *)
Definition interpolates (c : ascii) (r : string) : Prop :=
  (c = "$"%char ∧ (starts_with dq r = true ∨ starts_with "@" r = true)) ∨ (c = "@"%char ∧ starts_with "$" r = true).
Definition alone (c : ascii) (r : string) : Prop :=
  white c = false ∧ initial c = false ∧ figure c = false ∧ c ≠ dq ∧ c ≠ "'"%char ∧ ¬ interpolates c r
  ∧ (c = "$"%char ∨ c = "@"%char → starts initial r = false)
  ∧ (c = "@"%char → starts_with dq r = false)
  ∧ (c = "/"%char → starts_with "*" r = false ∧ starts_with "/" r = false)
  ∧ (c = "+"%char → starts_with "+" r = false) ∧ (c = "-"%char → starts_with "-" r = false)
  ∧ (c = "="%char → starts_with "=" r = false ∧ starts_with ">" r = false).

Inductive lexeme : kind → string → string → Prop :=
  | lexeme_interpolated c r : interpolates c r → lexeme Interpolated (String c "") r
  | lexeme_string s r : quoted dq s r → lexeme Text (String dq s) r
  | lexeme_verbatim s r : verbatim s r → lexeme Text (String "@" (String dq s)) r
  | lexeme_character s r : quoted "'" s r → lexeme Text (String "'" s) r
  | lexeme_name s r : name s r → lexeme Word s r
  | lexeme_sigil c s r : c = "$"%char ∨ c = "@"%char → name s r → lexeme Word (String c s) r
  | lexeme_number c s r : figure c = true → numeral s r → lexeme Number (String c s) r
  | lexeme_twice c r : c = "+"%char ∨ c = "-"%char → lexeme Twice (String c (String c "")) r
  | lexeme_equals c r : c = "="%char ∨ c = ">"%char → lexeme Punct (String "=" (String c "")) r
  | lexeme_alone c r : alone c r → lexeme Punct (String c "") r.

(** The tokens of a text that is at [i]. *)
Inductive lexes_from : nat → string → list tok → Prop :=
  | lexes_end i : lexes_from i "" []
  | lexes_blank i w r ts : blank w r → lexes_from (i + String.length w) r ts → lexes_from i (w +:+ r) ts
  | lexes_token i k w r ts : lexeme k w r → lexes_from (i + String.length w) r ts →
      lexes_from i (w +:+ r) (mkTok k i (i + String.length w) :: ts).
Definition lexes (expr : string) : list tok → Prop := lexes_from 0 expr.

(** No member of a number is named; no line follows a comment's. *)
Definition plain_numbers (expr : string) (ts : list tok) : Prop :=
  ∀ t, t ∈ ts → t_kind t = Number → snth (t_to t) expr ≠ Some "."%char.
Definition no_line_after (expr : string) : Prop :=
  ∀ x y, expr = x +:+ "//" +:+ y → all_bytes (fun c => negb (line_break c)) y = true.

Section tokens.
Context (src : string).

Definition text (t : tok) : string := substr src (t_from t) (t_to t).

(** ** The tokens, where the scanner reads them *)

(** What starts at [i] with [c], if not space, and where it ends. *)
Definition lex_literal (c : ascii) (i : nat) : option (kind * nat) :=
  if (c =? "$")%char && (is_at src dq (S i) || is_at src "@" (S i)) || (c =? "@")%char && is_at src "$" (S i)
  then Some (Interpolated, S i)
  else if (c =? dq)%char then Some (Text, S i + string_rest false (sdrop (S i) src))
  else if (c =? "@")%char && is_at src dq (S i) then Some (Text, S (S i) + string_rest true (sdrop (S (S i)) src))
  else if (c =? "'")%char then Some (Text, S i + char_rest (sdrop (S i) src))
  else if match byte src (S i) with Some n => isIdentStart n | None => false end then Some (Word, ident_end src i)
  else None.
Definition lex_punct (c : ascii) (i : nat) : kind * nat :=
  if (c =? "+")%char && is_at src "+" (S i) || (c =? "-")%char && is_at src "-" (S i) then (Twice, i + 2)
  else (Punct, if (c =? "=")%char && (is_at src "=" (S i) || is_at src ">" (S i)) then i + 2 else S i).
Definition lex (c : ascii) (i : nat) : kind * nat :=
  match (if (c =? "$")%char || (c =? "@")%char || (c =? dq)%char || (c =? "'")%char then lex_literal c i
         else if isIdentStart c then Some (Word, ident_end src i)
         else if is_digit c then Some (Number, number_end src i) else None) with
  | Some r => r
  | None => lex_punct c i
  end.

Fixpoint tokens_from (fuel i : nat) : list tok :=
  match fuel, byte src i with
  | S n, Some c =>
    match space_end src c i with
    | Some e => tokens_from n e
    | None => let '(k, e) := lex c i in mkTok k i e :: tokens_from n e
    end
  | _, _ => []
  end.
Definition tokens : list tok := tokens_from (String.length src) 0.

(** ** When a token is a side effect *)

Definition punct_is (p : string) (t : tok) : Prop := t_kind t = Punct ∧ text t = p.
(** A name, or a [$] or [@] by itself. *)
Definition named (t : tok) : Prop := t_kind t = Word ∨ punct_is "$" t ∨ punct_is "@" t.
(** Part of a dotted name. *)
Definition name_part (t : tok) : Prop := t_kind t = Word ∨ punct_is "." t.

(** The angle brackets that are open after [ts] (a list with the last token
    first) as those of a generic's arguments, innermost first: each follows
    its name directly. *)
Definition opens (before : list tok) (t : tok) : Prop :=
  punct_is "<" t ∧ is_at src "=" (t_to t) = false ∧ is_at src "<" (t_to t) = false
  ∧ ∃ w rest, before = w :: rest ∧ named w ∧ t_to w = t_from t.
Inductive generic : list tok → list tok → Prop :=
  | generic_nil : generic [] []
  | generic_open t ts st w rest : generic ts st → ts = w :: rest → opens ts t → generic (t :: ts) (w :: st)
  | generic_close t ts w st : generic ts (w :: st) → punct_is ">" t → is_at src "=" (t_to t) = false → generic (t :: ts) st
  | generic_other t ts st : generic ts st → ¬ opens ts t →
      (st = [] ∨ ¬ (punct_is ">" t ∧ is_at src "=" (t_to t) = false)) → generic (t :: ts) st.

(** A closing parenthesis around nothing but a dotted name, as in a cast. *)
Definition cast (before : list tok) : Prop :=
  ∃ r names l rest, before = r :: names ++ l :: rest ∧ punct_is ")" r ∧ punct_is "(" l
    ∧ names ≠ [] ∧ Forall name_part names.

(** The keywords that take parentheses and call nothing. *)
Definition keywords : list string :=
  ["typeof"; "sizeof"; "default"; "nameof"; "checked"; "unchecked"; "is"; "and"; "or"; "not"]%string.
(** An operator ends at [j]. *)
Definition ends_at (op : string) (j : nat) : Prop := ∃ a b, src = a +:+ op +:+ b ∧ String.length (a +:+ op) = j.
(** An equals sign that ends at [j] assigns, whatever operator it ends, but
    for the comparisons; the shifts end in one of those and do assign. *)
Definition assigned (j : nat) : Prop :=
  (¬ ends_at "!=" j ∧ ¬ ends_at "<=" j ∧ ¬ ends_at ">=" j) ∨ ends_at "<<=" j ∨ ends_at ">>=" j.

(** What a parenthesis right after these tokens calls: a name, spaces
    allowed; or, directly before it, a value in brackets or parentheses, or
    a generic's closing bracket. *)
Definition calls (before : list tok) (at_ : nat) : Prop :=
  match before with
  | [] => False
  | t :: ts =>
    (named t ∧ (text t ∉ keywords))
    ∨ (t_to t = at_
       ∧ (punct_is "]" t ∨ (punct_is ")" t ∧ ¬ cast before)
          ∨ (punct_is ">" t ∧ is_at src "=" (t_to t) = false ∧ ∃ w st, generic ts (w :: st))))
  end.

Definition effect (before : list tok) (t : tok) : Prop :=
  t_kind t = Interpolated ∨ t_kind t = Twice
  ∨ (t_kind t = Word ∧ text t = "new"%string)
  ∨ (punct_is "=" t ∧ assigned (t_to t))
  ∨ (punct_is "(" t ∧ calls before (t_from t)).
End tokens.

Arguments punct_is : simpl never.

(** ** The tokens' texts *)

Section lexed.
Context (src : string).
Local Abbreviation text := (text src).
Local Abbreviation punct_is := (punct_is src).
Local Abbreviation named := (named src).
Local Abbreviation name_part := (name_part src).
Local Abbreviation generic := (generic src).
Local Abbreviation opens := (opens src).
Local Abbreviation cast := (cast src).
Local Abbreviation calls := (calls src).
Local Abbreviation effect := (effect src).
Local Abbreviation lex := (lex src).
Local Abbreviation ends_at := (ends_at src).

Lemma notCall_keyword w : notCall w = false ↔ w ∉ keywords.
Proof. unfold notCall. by rewrite bool_decide_eq_false. Qed.

Lemma sdrop_snth i c : byte src i = Some c → sdrop i src = String c (sdrop (S i) src).
Proof.
  unfold byte. revert src. induction i as [|i IH]; intros [|d s]; cbn; try done.
  - by intros [= ->].
  - intros H. by apply IH in H.
Qed.

Lemma byte_length i c : byte src i = Some c → i < String.length src.
Proof.
  unfold byte. revert src. induction i as [|i IH]; intros [|d s]; cbn; try done; [intros _; lia|]. intros H%IH. lia.
Qed.

(** A token starts with the byte it was read from. *)
Lemma substr_first i j c : byte src i = Some c → i < j → ∃ t, substr src i j = String c t.
Proof.
  intros H Hj. unfold substr. rewrite (sdrop_snth i c H). destruct (j - i) as [|n] eqn:E; [lia|]. cbn. by eexists.
Qed.
Lemma substr_one i c : byte src i = Some c → substr src i (S i) = String c "".
Proof. intros H. unfold substr. rewrite (sdrop_snth i c H). by replace (S i - i) with 1 by lia. Qed.
Lemma substr_two i c : byte src i = Some c → i + 1 < String.length src → substr src i (i + 2) ≠ String c "".
Proof.
  intros H Hl. unfold substr. replace (i + 2 - i) with 2 by lia. intros E%(f_equal String.length).
  rewrite stake_length, sdrop_length in E. change (String.length (String c "")) with 1 in E. lia.
Qed.

Lemma is_at_byte c i : is_at src c i = true → byte src i = Some c.
Proof. unfold is_at. destruct (byte src i) as [b|]; [|done]. by intros ->%Ascii.eqb_eq. Qed.

Lemma ident_end_gt i : i < ident_end src i.
Proof. unfold ident_end. lia. Qed.

(** What the scanner keeps of the last token's text, its [prev]. *)
Definition bracket (c : ascii) : bool := (c =? ")")%char || (c =? "]")%char || (c =? ">")%char.
Record prev_is (t : tok) (p : string) : Prop := {
  pi_named : isIdent p = true ↔ named t;
  pi_text : named t → p = text t;
  pi_punct : ∀ c, bracket c = true → p = String c "" ↔ punct_is (String c "") t }.

Lemma isIdent_first c t : isIdent (String c t) = isIdentStart c || (c =? "$")%char || (c =? "@")%char.
Proof. done. Qed.

Lemma not_named k i j : k ≠ Word → k ≠ Punct → ¬ named (mkTok k i j).
Proof. intros H1 H2 [?|[[? _]|[? _]]]; cbn in *; congruence. Qed.

Lemma prev_is_literal k i j p :
  k ≠ Word → k ≠ Punct → p ∈ ["0"; "'"; String dq ""]%string → prev_is (mkTok k i j) p.
Proof.
  intros H1 H2 Hp. pose proof (not_named k i j H1 H2) as Hn.
  rewrite !elem_of_cons in Hp.
  destruct Hp as [->|[->|[->|[]%elem_of_nil]]]; (split; [split; [done|by intros ?%Hn]|by intros ?%Hn|]);
    intros c Hc; (split; [by intros [= <-]|by intros [? _]]).
Qed.

Lemma prev_is_word i j c t : substr src i j = String c t → isIdent (String c t) = true → prev_is (mkTok Word i j) (String c t).
Proof.
  intros Ht Hi. assert (Hn : named (mkTok Word i j)) by by left.
  split; [by rewrite Hi|by intros _; exact (eq_sym Ht)|].
  intros d Hd. split; [intros [= -> ->]|by intros [? _]].
  unfold bracket in Hd. rewrite !orb_true_iff, !Ascii.eqb_eq in Hd. by destruct Hd as [[-> | ->]| ->].
Qed.

Lemma prev_is_punct i c : byte src i = Some c → isIdentStart c = false → prev_is (mkTok Punct i (S i)) (String c "").
Proof.
  intros Hb Hc. assert (Ht : text (mkTok Punct i (S i)) = String c "") by by apply substr_one.
  split.
  - rewrite isIdent_first, Hc. cbn. rewrite orb_true_iff, !Ascii.eqb_eq. split.
    + intros [-> | ->]; right; [left|right]; done.
    + intros [?|[[_ E]|[_ E]]]; [done|rewrite Ht in E; injection E; auto..].
  - by rewrite Ht.
  - intros d _. split; [intros E; by rewrite <- E|intros [_ E]; by rewrite Ht in E].
Qed.

(** ** The open parentheses *)

(** [before] is inside a parenthesis, after only [names]. *)
Definition inside (before names : list tok) : Prop :=
  ∃ l pre, before = names ++ l :: pre ∧ punct_is "(" l ∧ Forall name_part names.

Definition tracked (before : list tok) (ps : list paren) : Prop :=
  (∀ names, inside before names → ∃ rest, ps = mkParen true (bool_decide (names = [])) :: rest)
  ∧ match ps with
    | [] => True
    | p :: rest => (p_name p = true → ∃ names, inside before names) ∧ Forall (fun q => p_name q = false) rest
    end.

Lemma inside_cons t before names :
  inside (t :: before) names → (names = [] ∧ punct_is "(" t) ∨ ∃ names', names = t :: names' ∧ name_part t ∧ inside before names'.
Proof.
  intros (l & pre & E & Hl & Hn). destruct names as [|x names]; injection E as -> ->.
  - by left.
  - apply Forall_cons in Hn as [Hx Hn]. right. exists names. split; [done|]. split; [done|]. by exists l, pre.
Qed.

Lemma not_part p t : punct_is p t → p ≠ "."%string → ¬ name_part t.
Proof. intros [Hk Ht] Hp [Hw|[_ Hd]]; congruence. Qed.

Lemma inside_more t before names : inside before names → name_part t → inside (t :: before) (t :: names).
Proof. intros (l & pre & -> & Hl & Hn) Ht. exists l, pre. split; [done|]. split; [done|by constructor]. Qed.

Lemma tracked_content t before b sc :
  tracked before (parens sc) → ¬ punct_is "(" t → (b = true ↔ name_part t) → tracked (t :: before) (parens (content b sc)).
Proof.
  intros [H1 H2] Hnl Hb. unfold content. destruct (parens sc) as [|p rest] eqn:E; cbn.
  - split; [|by rewrite E]. intros names [[_ ?]|(names' & -> & _ & Hi)]%inside_cons; [done|]. by destruct (H1 _ Hi).
  - destruct H2 as [H2 H3]. split.
    + intros names [[_ ?]|(names' & -> & Ht & Hi)]%inside_cons; [done|]. apply H1 in Hi as (rest' & [= -> ->]).
      cbn. rewrite (proj2 Hb Ht). by exists rest'.
    + split; [|done]. cbn. intros [Hp Hbt]%andb_true_iff. destruct (H2 Hp) as [names Hi]. exists (t :: names).
      apply inside_more; [done|by apply Hb].
Qed.

Lemma tracked_open t before sc :
  tracked before (parens sc) → punct_is "(" t → tracked (t :: before) (mkParen true true :: parens (content false sc)).
Proof.
  intros [H1 H2] Ht. assert (Hnp : ¬ name_part t) by by apply (not_part "(").
  split.
  - intros names [[-> _]|(names' & _ & ? & _)]%inside_cons; [|done]. by eexists.
  - split; [intros _; exists []; by exists t, before|]. unfold content. destruct (parens sc) as [|p rest] eqn:E; cbn; [rewrite E; constructor|].
    constructor; [cbn; by rewrite andb_false_r|by destruct H2].
Qed.

Lemma tracked_close t before p rest :
  tracked before (p :: rest) → punct_is ")" t →
  tracked (t :: before) rest ∧ (p_name p && negb (p_empty p) = true ↔ cast (t :: before)).
Proof.
  intros (H1 & H2 & H3) Ht. assert (Hnp : ¬ name_part t) by by apply (not_part ")").
  assert (Hnl : ¬ punct_is "(" t). { intros [_ E]. destruct Ht as [_ E']. congruence. }
  split; [split|split].
  - by intros names [[_ ?]|(? & _ & ? & _)]%inside_cons.
  - destruct rest as [|q rest]; [done|]. apply Forall_cons in H3 as [Hq H3]. split; [congruence|done].
  - intros [Hp He]%andb_true_iff. destruct (H2 Hp) as [names Hi]. destruct (H1 _ Hi) as (r & [= -> ->]).
    destruct Hi as (l & pre & -> & Hl & Hn). exists t, names, l, pre. split_and!; try done.
    intros ->. done.
  - intros (r & names & l & pre & [= <- ->] & _ & Hl & Hne & Hn). destruct (H1 names) as (r' & [= -> ->]); [by exists l, pre|].
    by destruct names.
Qed.

Lemma cast_closes t before ps : tracked before ps → cast (t :: before) → punct_is ")" t ∧ ps ≠ [].
Proof.
  intros [H1 _] (r & names & l & pre & [= <- ->] & Hr & Hl & _ & Hn). split; [done|].
  destruct (H1 names) as (? & ->); [by exists l, pre|done].
Qed.

(** ** The open generics *)

Lemma opens_closes before t : opens before t → ¬ punct_is ">" t.
Proof. intros ((_ & E) & _) [_ E']. congruence. Qed.

Lemma generic_fun before st st' : generic before st → generic before st' → st = st'.
Proof.
  intros H. revert st'. induction H as [|t ts st w rest H IH -> Ho|t ts w st H IH Hc He|t ts st H IH Ho Hc]; intros st' H'.
  - by inversion H'.
  - inversion H' as [|? ? st2 w2 rest2 H2 E2 Ho2|? ? w2 st2 H2 Hc2 He2|? ? st2 H2 Hno Hnc]; subst; [|by apply opens_closes in Ho|done].
    injection E2 as <- _. f_equal. by apply IH.
  - inversion H' as [|? ? st2 w2 rest2 H2 E2 Ho2|? ? w2 st2 H2 Hc2 He2|? ? st2 H2 Hno Hnc]; subst.
    + by apply opens_closes in Ho2.
    + by injection (IH _ H2).
    + apply IH in H2 as <-. destruct Hnc as [?|Hnc]; [done|]. by destruct Hnc.
  - inversion H' as [|? ? st2 w2 rest2 H2 E2 Ho2|? ? w2 st2 H2 Hc2 He2|? ? st2 H2 Hno Hnc]; subst; [done| |by apply IH].
    apply IH in H2 as ->. destruct Hc as [?|Hnc]; [done|]. by destruct Hnc.
Qed.

(** ** What the scanner knows of the tokens before it *)

Definition closing (ts : list tok) (t : tok) : Prop :=
  punct_is ">" t ∧ is_at src "=" (t_to t) = false ∧ ∃ w st, generic ts (w :: st).

Record tracks (before : list tok) (sc : scanner) : Prop := {
  tr_prev : match before with
            | [] => prev sc = ""%string ∧ prevEnd sc = 0
            | t :: _ => prev_is t (prev sc) ∧ prevEnd sc = t_to t
            end;
  tr_generics : ∃ st, generic before st ∧ generics sc = map text st ∧ Forall (fun w => text w ≠ ""%string) st;
  tr_closed : closed sc ≠ ""%string ↔ match before with [] => False | t :: ts => closing ts t end;
  tr_parens : tracked before (parens sc);
  tr_cast : castClose sc = true ↔ cast before }.

Lemma tracks_new : tracks [] new_scanner.
Proof.
  split; cbn; try done.
  - exists []. split; [constructor|done].
  - split; [|done]. intros names (l & pre & E & _). by destruct names.
  - split; [done|]. by intros (r & names & l & rest & E & _).
Qed.

(** A token that opens and closes nothing. *)
Lemma tracks_plain before sc t p b :
  tracks before sc → prev_is t p → (b = true ↔ name_part t) → ¬ punct_is "(" t →
  (punct_is ")" t → parens sc = []) → ¬ opens before t →
  (generics sc = [] ∨ ¬ (punct_is ">" t ∧ is_at src "=" (t_to t) = false)) →
  tracks (t :: before) (token p (t_to t) (content b sc)).
Proof.
  intros H Hp Hb Hl Hr Ho Hg. destruct (tr_generics _ _ H) as (st & Hst & Egs & Hns).
  assert (Ec : generics (content b sc) = generics sc) by (unfold content; by destruct (parens sc)).
  split; cbn.
  - done.
  - exists st. rewrite Ec. split; [|done]. apply generic_other; [done..|]. destruct Hg as [E|?]; [left|by right].
    rewrite Egs in E. by destruct st.
  - split; [done|]. intros (Hc & He & w & st' & Hw). apply (generic_fun _ _ _ Hst) in Hw as ->.
    destruct Hg as [E|Hg]; [by rewrite Egs in E|by destruct Hg].
  - by apply tracked_content; [apply (tr_parens _ _ H)|..].
  - split; [done|]. intros Hc. destruct (cast_closes _ _ _ (tr_parens _ _ H) Hc) as [Hcl Hne]. by apply Hr in Hcl.
Qed.

Lemma opens_tracks before sc t :
  tracks before sc → t_from t = pos sc →
  opens before t ↔ punct_is "<" t ∧ prevEnd sc = pos sc ∧ isIdent (prev sc) = true
                   ∧ is_at src "=" (t_to t) = false ∧ is_at src "<" (t_to t) = false.
Proof.
  intros H Ht. pose proof (tr_prev _ _ H) as Hp. split.
  - intros (H1 & H2 & H3 & w & rest & -> & Hn & Hw). destruct Hp as [Hp ->]. split_and!; try done; [congruence|by apply (pi_named _ _ Hp)].
  - intros (H1 & H2 & H3 & H4 & H5). split_and!; [done..|]. destruct before as [|w rest].
    + destruct Hp as [E _]. by rewrite E in H3.
    + destruct Hp as [Hp E]. exists w, rest. split_and!; [done|by apply (pi_named _ _ Hp)|congruence].
Qed.

(** ** What a parenthesis calls *)

Lemma callee_calls before sc : tracks before sc → callee sc ≠ None ↔ calls before (pos sc).
Proof.
  intros H. pose proof (tr_prev _ _ H) as Hp. unfold callee. destruct before as [|t ts].
  { destruct Hp as [-> _]. cbn. by destruct (negb _). }
  destruct Hp as [Hp He]. cbn [SideeffectsSpec.calls].
  assert (Hb : ∀ c, bracket c = true → (prev sc =?s String c "")%string = true ↔ punct_is (String c "") t).
  { intros c Hc. rewrite String.eqb_eq. by apply (pi_punct _ _ Hp). }
  destruct (isIdent (prev sc) && negb (notCall (prev sc))) eqn:E1.
  { apply andb_true_iff in E1 as [Hn%(pi_named _ _ Hp) Hc%negb_true_iff]. rewrite (pi_text _ _ Hp Hn) in Hc. apply notCall_keyword in Hc. split; [by auto|done]. }
  assert (H1 : ¬ (named t ∧ (text t ∉ keywords))).
  { intros [Hn Hc]. rewrite <- (pi_text _ _ Hp Hn) in Hc. apply notCall_keyword in Hc. rewrite (proj2 (pi_named _ _ Hp) Hn), Hc in E1. done. }
  destruct (Nat.eqb_spec (prevEnd sc) (pos sc)) as [E|E]; cbn [negb]; [|split; [done|by intros [?|[? _]]; [|congruence]]].
  pose proof (Hb ")"%char eq_refl) as Hr. pose proof (Hb "]"%char eq_refl) as Hs. pose proof (Hb ">"%char eq_refl) as Hg.
  pose proof (tr_cast _ _ H) as Hcast. pose proof (tr_closed _ _ H) as Hcl. cbn in Hcl.
  destruct ((prev sc =?s ")")%string && negb (castClose sc) || (prev sc =?s "]")%string) eqn:E2.
  - split; [|done]. intros _. right. split; [congruence|]. apply orb_true_iff in E2 as [[Hx Hy%negb_true_iff]%andb_true_iff|Hx].
    + right; left. split; [by apply Hr|]. intros Hc%Hcast. congruence.
    + left. by apply Hs.
  - apply orb_false_iff in E2 as [E2 E3]. destruct ((prev sc =?s ">")%string && negb (closed sc =?s "")%string) eqn:E4.
    + split; [|done]. intros _. right. split; [congruence|]. right; right. apply andb_true_iff in E4 as [_ Hne%negb_true_iff].
      apply Hcl. by apply String.eqb_neq.
    + split; [done|]. intros [?|(_ & [Hx%Hs|[[Hx%Hr Hy]|Hx]])]; [done|congruence|..].
      * rewrite Hx in E2. destruct Hy. apply Hcast. by destruct (castClose sc).
      * pose proof (proj1 Hx) as Hx1. apply Hg in Hx1. rewrite Hx1 in E4. apply Hcl in Hx. apply String.eqb_neq in Hx.
        by rewrite Hx in E4.
Qed.

(** ** An operator, by its bytes *)

Lemma byte_app a b i : src = a +:+ b → byte src (String.length a + i) = snth i b.
Proof. unfold byte. intros ->. apply snth_app_r. Qed.
Lemma split_at i c : byte src i = Some c → src = stake i src +:+ String c (sdrop (S i) src) ∧ String.length (stake i src) = i.
Proof.
  intros H. rewrite <- (sdrop_snth i c H). split; [by rewrite stake_sdrop|]. apply byte_length in H. rewrite stake_length. lia.
Qed.
Lemma ends_at_two x y i :
  byte src i = Some y → ends_at (String x (String y "")) (S i) ↔ ∃ j, i = S j ∧ byte src j = Some x.
Proof.
  intros Hy. split.
  - intros (a & b & E & Hl). rewrite string_app_length in Hl. cbn in Hl. exists (String.length a). split; [lia|].
    pose proof (byte_app _ _ 0 E) as H. by rewrite Nat.add_0_r in H.
  - intros (j & -> & Hx). destruct (split_at j x Hx) as [E Hl]. rewrite (sdrop_snth (S j) y Hy) in E.
    exists (stake j src), (sdrop (S (S j)) src). split; [exact E|]. rewrite string_app_length, Hl. cbn. lia.
Qed.
Lemma ends_at_three x y z i :
  byte src i = Some z → ends_at (String x (String y (String z ""))) (S i) ↔ ∃ j, i = S (S j) ∧ byte src (S j) = Some y ∧ byte src j = Some x.
Proof.
  intros Hz. split.
  - intros (a & b & E & Hl). rewrite string_app_length in Hl. cbn in Hl. exists (String.length a). split; [lia|].
    pose proof (byte_app _ _ 0 E) as H0. pose proof (byte_app _ _ 1 E) as H1. rewrite Nat.add_0_r in H0. rewrite Nat.add_1_r in H1. done.
  - intros (j & -> & Hy & Hx). destruct (split_at j x Hx) as [E Hl]. rewrite (sdrop_snth (S j) y Hy), (sdrop_snth (S (S j)) z Hz) in E.
    exists (stake j src), (sdrop (S (S (S j))) src). split; [exact E|]. rewrite string_app_length, Hl. cbn. lia.
Qed.
Lemma compares_assigned i : byte src i = Some "="%char → compares src i = false ↔ assigned src (S i).
Proof.
  intros Hi. unfold assigned. change (ends_at "!=") with (ends_at (String "!" (String "=" ""))).
  rewrite !(ends_at_two _ "="%char i Hi), !(ends_at_three _ _ "="%char i Hi). unfold compares.
  assert (Hat : ∀ c j, is_at src c j = true ↔ byte src j = Some c).
  { intros c j. unfold is_at. destruct (byte src j) as [d|]; [|done]. rewrite Ascii.eqb_eq. naive_solver. }
  destruct i as [|j]; [split; [intros _; left; split_and!; by intros (k & ? & _)|done]|].
  assert (Hone : ∀ c, (∃ k, S j = S k ∧ byte src k = Some c) ↔ is_at src c j = true).
  { intros c. rewrite Hat. split; [by intros (k & [= <-] & ?)|by exists j]. }
  rewrite !Hone, !not_true_iff_false.
  assert (Htwo : ∀ c, (∃ k, S j = S (S k) ∧ byte src (S k) = Some c ∧ byte src k = Some c) ↔
    is_at src c j = true ∧ match j with O => false | S k => is_at src c k end = true).
  { intros c. destruct j as [|k]; [split; [by intros (k & ? & _)|by intros [_ ?]]|]. rewrite !Hat.
    split; [by intros (l & [= <-] & ? & ?)|intros [? ?]; by exists k]. }
  rewrite !Htwo, !orb_false_iff, !andb_false_iff, !negb_false_iff.
  assert (Hneq : ∀ c d, c ≠ d → is_at src c j = true → is_at src d j = false).
  { intros c d Hcd. unfold is_at. destruct (byte src j) as [e|]; [|done]. intros ->%Ascii.eqb_eq. by apply Ascii.eqb_neq. }
  pose proof (Hneq "<"%char "!"%char) as N1. pose proof (Hneq ">"%char "!"%char) as N2. pose proof (Hneq "<"%char ">"%char) as N3. pose proof (Hneq ">"%char "<"%char) as N4.
  destruct (is_at src "!" j), (is_at src "<" j), (is_at src ">" j); try (by specialize (N1 ltac:(done) eq_refl)); try (by specialize (N2 ltac:(done) eq_refl));
    try (by specialize (N3 ltac:(done) eq_refl)); try (by specialize (N4 ltac:(done) eq_refl)); naive_solver.
Qed.

(** ** One token *)

Definition steps_to (before : list tok) (t : tok) (r : scanned) : Prop :=
  match r with
  | Found _ => effect before t
  | Scanned sc => ¬ effect before t ∧ tracks (t :: before) sc ∧ pos sc = t_to t
  end.

Lemma content_pos b sc : pos (content b sc) = pos sc.
Proof. unfold content. by destruct (parens sc). Qed.

Lemma not_punct k i j p : k ≠ Punct → ¬ punct_is p (mkTok k i j).
Proof. by intros H [? _]. Qed.

Lemma plain_step before sc k j p b :
  tracks before sc → k = Word ∨ k = Number ∨ k = Text → prev_is (mkTok k (pos sc) j) p → (b = true ↔ k = Word) →
  ¬ (k = Word ∧ text (mkTok k (pos sc) j) = "new"%string) →
  steps_to before (mkTok k (pos sc) j) (Scanned (token p j (content b sc))).
Proof.
  intros H Hk Hp Hb Hnew. assert (Hn : ∀ q, ¬ punct_is q (mkTok k (pos sc) j)).
  { intros q. apply not_punct. by destruct Hk as [-> |[-> | ->]]. }
  split; [|split; [|done]].
  - intros [E|[E|[E|[[E%Hn _]|[E%Hn _]]]]]; try done; cbn in E; subst k; by destruct Hk as [?|[?|?]].
  - apply (tracks_plain before sc (mkTok k (pos sc) j) p b); try done.
    + rewrite Hb. split; [by left|]. by intros [?|?%Hn].
    + by intros ?%Hn.
    + by intros (?%Hn & _).
    + right. by intros (?%Hn & _).
Qed.

Lemma ident_step before sc c :
  tracks before sc → byte src (pos sc) = Some c → isIdent (String c "") = true →
  steps_to before (mkTok Word (pos sc) (ident_end src (pos sc))) (ident src sc).
Proof.
  intros H Hc Hi. destruct (substr_first (pos sc) (ident_end src (pos sc)) c Hc (ident_end_gt _)) as [u Hu].
  unfold ident. destruct (String.eqb_spec (substr src (pos sc) (ident_end src (pos sc))) "new") as [E|E].
  - right; right; left. by split.
  - apply plain_step; [done|by auto| |done|by intros [_ ?]].
    rewrite Hu. apply prev_is_word; [done|]. by rewrite isIdent_first in *.
Qed.

Lemma number_step before sc :
  tracks before sc → steps_to before (mkTok Number (pos sc) (number_end src (pos sc))) (Scanned (number src sc)).
Proof.
  intros H. apply plain_step; [done|by auto|apply prev_is_literal; try done; set_solver|done|by intros [? _]].
Qed.

Lemma text_step before sc j p :
  tracks before sc → p ∈ ["'"; String dq ""]%string →
  steps_to before (mkTok Text (pos sc) j) (Scanned (token p j (content false sc))).
Proof.
  intros H Hp. apply plain_step; [done|by auto|apply prev_is_literal; try done; set_solver|done|by intros [? _]].
Qed.

Lemma literal_step before sc c :
  tracks before sc → byte src (pos sc) = Some c → ((c =? "$") || (c =? "@") || (c =? dq) || (c =? "'"))%char = true →
  match lex_literal src c (pos sc), literal src c sc with
  | Some (k, e), Some r => steps_to before (mkTok k (pos sc) e) r
  | None, None => True
  | _, _ => False
  end.
Proof.
  intros H Hc Hk. unfold lex_literal, literal. destruct (_ || _ && _) eqn:E1; [by left|].
  destruct (c =? dq)%char eqn:E2; [apply text_step; [done|set_solver]|].
  destruct (_ && is_at src dq _) eqn:E3; [apply text_step; [done|set_solver]|].
  destruct (c =? "'")%char eqn:E4; [apply text_step; [done|set_solver]|].
  destruct (match byte src (S (pos sc)) with Some n => isIdentStart n | None => false end) eqn:E5; [|done].
  apply (ident_step _ _ c); [done|done|]. rewrite !orb_true_iff in Hk. rewrite isIdent_first, !orb_true_iff. naive_solver.
Qed.

(** ** Punctuation *)

Lemma punct_one i c p : byte src i = Some c → punct_is p (mkTok Punct i (S i)) ↔ p = String c "".
Proof.
  intros H. unfold SideeffectsSpec.punct_is, SideeffectsSpec.text. cbn [t_kind t_from t_to]. rewrite (substr_one i c H). naive_solver.
Qed.

Lemma punct_effect before i c :
  byte src i = Some c → c ≠ "="%char → c ≠ "("%char → ¬ effect before (mkTok Punct i (S i)).
Proof.
  intros H H1 H2 [E|[E|[[E _]|[[E _]|[E _]]]]]; try done; apply (punct_one i c _ H) in E; injection E as <-; done.
Qed.

Section punct.
Context (before : list tok) (sc : scanner) (c : ascii).
Context (H : tracks before sc) (Hc : byte src (pos sc) = Some c) (Hi : isIdentStart c = false).
Local Abbreviation this := (mkTok Punct (pos sc) (S (pos sc))).

Local Lemma one p : punct_is p this ↔ p = String c "".
Proof. by apply punct_one. Qed.

Local Lemma is_here d : is_at src d (pos sc) = (c =? d)%char.
Proof. unfold is_at. by rewrite Hc. Qed.

Lemma dot_part : (c =? ".")%char = true ↔ name_part this.
Proof.
  rewrite Ascii.eqb_eq. split; [intros E; right; apply one; by rewrite E|]. intros [?|E%one]; [done|by injection E].
Qed.

(** Punctuation that opens and closes nothing. *)
Lemma other_step :
  c ≠ "="%char → c ≠ "("%char → (c = ")"%char → parens sc = []) → ¬ opens before this →
  (generics sc = [] ∨ ¬ (c = ">"%char ∧ is_at src "=" (S (pos sc)) = false)) →
  steps_to before this (Scanned (token (String c "") (S (pos sc)) (content (c =? ".")%char sc))).
Proof.
  intros H1 H2 H3 H4 H5. split; [by apply (punct_effect _ _ c)|]. split; [|done].
  apply (tracks_plain before sc this); [done|by apply prev_is_punct|apply dot_part| | |done|].
  - intros E%one. by injection E as <-.
  - intros E%one. apply H3. by injection E.
  - destruct H5 as [?|H5]; [by left|right]. intros [E%one He]. apply H5. split; [by injection E|done].
Qed.

Lemma paren_step : c = "("%char → steps_to before this (do_paren src sc).
Proof.
  intros E. unfold do_paren. rewrite is_here, E. cbn [Ascii.eqb Bool.eqb]. destruct (callee sc) as [name|] eqn:Ec.
  - do 4 right. split; [by apply one; rewrite E|]. apply (callee_calls before sc H). by rewrite Ec.
  - assert (Ht : punct_is "(" this) by (apply one; by rewrite E).
    rewrite content_pos. split; [|split; [|done]].
    + intros [?|[?|[[? _]|[[E' _]|[_ Hcalls]]]]]; try done.
      * apply one in E'. by rewrite E in E'.
      * by apply (callee_calls before sc H) in Hcalls.
    + destruct (tr_generics _ _ H) as (st & Hst & Egs & Hns). split; cbn.
      * split; [|done]. rewrite <- E. by apply prev_is_punct.
      * exists st. split; [|split; [|done]].
        -- apply generic_other; [done|..]; [intros (E' & _); apply one in E'; by rewrite E in E'|].
           right. intros [E' _]. apply one in E'. by rewrite E in E'.
        -- rewrite <- Egs. unfold content. by destruct (parens sc).
      * split; [done|]. intros (E' & _). apply one in E'. by rewrite E in E'.
      * apply tracked_open; [apply (tr_parens _ _ H)|done].
      * split; [done|]. intros Hca. destruct (cast_closes _ _ _ (tr_parens _ _ H) Hca) as [E' _]. apply one in E'. by rewrite E in E'.
Qed.

Lemma close_step p rest : c = ")"%char → parens sc = p :: rest → steps_to before this (do_paren src sc).
Proof.
  intros E Ep. unfold do_paren. rewrite is_here, E, Ep. cbn [Ascii.eqb Bool.eqb].
  assert (Ht : punct_is ")" this) by (apply one; by rewrite E).
  pose proof (tr_parens _ _ H) as Hps. rewrite Ep in Hps. destruct (tracked_close this before p rest Hps Ht) as [Hr Hca].
  split; [apply (punct_effect _ _ c); [done|by rewrite E..]|]. split; [|done].
  destruct (tr_generics _ _ H) as (st & Hst & Egs & Hns). split; cbn.
  - split; [|done]. rewrite <- E. by apply prev_is_punct.
  - exists st. split; [|done]. apply generic_other; [done|..]; [intros (E' & _); apply one in E'; by rewrite E in E'|].
    right. intros [E' _]. apply one in E'. by rewrite E in E'.
  - split; [done|]. intros (E' & _). apply one in E'. by rewrite E in E'.
  - done.
  - done.
Qed.

Lemma generic_open_step :
  opens before this → steps_to before this (Scanned (token (String c "") (S (pos sc)) (content (c =? ".")%char (sc <| generics ::= cons (prev sc) |>)))).
Proof.
  intros Ho. assert (E : c = "<"%char) by (destruct Ho as [E%one _]; by injection E).
  split; [apply (punct_effect _ _ c); [done|by rewrite E..]|]. split; [|done].
  destruct (tr_generics _ _ H) as (st & Hst & Egs & Hns). pose proof (tr_prev _ _ H) as Hp.
  pose proof Ho as (_ & _ & _ & w & rest & Eb & Hw & _). rewrite Eb in Hp. split; cbn.
  - split; [by apply prev_is_punct|done].
  - exists (w :: st). split; [by apply (generic_open _ _ _ _ _ rest)|]. split.
    2:{ constructor; [|done]. rewrite <- (pi_text _ _ (proj1 Hp) Hw). intros E'. pose proof (proj2 (pi_named _ _ (proj1 Hp)) Hw) as Hid.
        by rewrite E' in Hid. }
    unfold content. cbn. destruct (parens sc); cbn; rewrite Egs; by rewrite (pi_text _ _ (proj1 Hp) Hw).
  - split; [done|]. intros (E' & _). by apply opens_closes in Ho.
  - apply (tracked_content _ _ _ (sc <| generics ::= cons (prev sc) |>)); [apply (tr_parens _ _ H)| |apply dot_part].
    intros E'%one. by rewrite E in E'.
  - split; [done|]. intros Hca. destruct (cast_closes _ _ _ (tr_parens _ _ H) Hca) as [E' _]. apply one in E'. by rewrite E in E'.
Qed.

Lemma generic_close_step name rest :
  c = ">"%char → is_at src "=" (S (pos sc)) = false → generics sc = name :: rest →
  steps_to before this
    (Scanned ((token ">" (S (pos sc)) (content false (sc <| generics := rest |>))) <| closed := name |>)).
Proof.
  intros E He Eg. destruct (tr_generics _ _ H) as (st & Hst & Egs & Hns). rewrite Eg in Egs.
  destruct st as [|w st]; [done|]. injection Egs as -> ->. apply Forall_cons in Hns as [Hw Hns].
  assert (Ht : punct_is ">" this) by (apply one; by rewrite E).
  split; [apply (punct_effect _ _ c); [done|by rewrite E..]|]. split; [|done]. split; cbn.
  - split; [|done]. rewrite <- E. by apply prev_is_punct.
  - exists st. split; [by apply (generic_close _ _ _ w)|]. split; [|done]. unfold content. by destruct (parens _).
  - split; [|done]. intros _. split; [done|]. split; [done|]. by exists w, st.
  - apply (tracked_content _ _ _ (sc <| generics := map text st |>)); [apply (tr_parens _ _ H)| |].
    + intros E'%one. by rewrite E in E'.
    + rewrite <- dot_part. by rewrite E.
  - split; [done|]. intros Hca. destruct (cast_closes _ _ _ (tr_parens _ _ H) Hca) as [E' _]. apply one in E'. by rewrite E in E'.
Qed.

Lemma equals_step : c = "="%char → let '(k, e) := lex_punct src c (pos sc) in steps_to before (mkTok k (pos sc) e) (equals src sc).
Proof.
  intros E. assert (Hi' : isIdentStart "="%char = false) by done. assert (Hc' : byte src (pos sc) = Some "="%char) by by rewrite Hc, E.
  unfold lex_punct, equals. rewrite content_pos, E. cbn [Ascii.eqb Bool.eqb orb andb].
  destruct (is_at src "=" (S (pos sc)) || is_at src ">" (S (pos sc))) eqn:E2.
  - assert (Hl : pos sc + 1 < String.length src).
    { apply orb_true_iff in E2 as [E2|E2]; apply is_at_byte, byte_length in E2; lia. }
    assert (Hno : ∀ d, ¬ punct_is (String d "") (mkTok Punct (pos sc) (pos sc + 2))).
    { intros d [_ E']. unfold SideeffectsSpec.text in E'. cbn [t_from t_to] in E'. apply (f_equal String.length) in E'.
      unfold substr in E'. rewrite stake_length, sdrop_length in E'. change (String.length (String d "")) with 1 in E'. lia. }
    assert (Hnn : ¬ named (mkTok Punct (pos sc) (pos sc + 2))) by (intros [?|[?%Hno|?%Hno]]; done).
    assert (Hnp : ¬ name_part (mkTok Punct (pos sc) (pos sc + 2))) by (intros [?|?%Hno]; done).
    split; [|split; [|done]].
    + intros [?|[?|[[? _]|[[?%Hno _]|[?%Hno _]]]]]; done.
    + apply (tracks_plain before sc (mkTok Punct (pos sc) (pos sc + 2))); try done.
      * split; [split; [done|by intros ?%Hnn]|by intros ?%Hnn|]. intros d Hd. split; [by intros [= <-]|by intros ?%Hno].
      * by intros ?%Hno.
      * by intros (?%Hno & _).
      * right. by intros (?%Hno & _).
  - assert (Heq : punct_is "=" this) by (apply one; by rewrite E).
    pose proof (compares_assigned (pos sc) Hc') as Ha.
    destruct (compares src (pos sc)) eqn:E3; [|do 3 right; left; split; [done|by apply Ha]].
    split; [|split; [|done]].
    + intros [?|[?|[[? _]|[[_ ?]|[E' _]]]]]; try done; [by apply Ha in H0|]. apply one in E'. by rewrite E in E'.
    + apply (tracks_plain before sc this); try done.
      * rewrite <- E. by apply prev_is_punct.
      * rewrite <- dot_part. by rewrite E.
      * intros E'%one. by rewrite E in E'.
      * intros E'%one. by rewrite E in E'.
      * intros (E'%one & _). by rewrite E in E'.
      * right. intros (E'%one & _). by rewrite E in E'.
Qed.

Lemma punct_step : let '(k, e) := lex_punct src c (pos sc) in steps_to before (mkTok k (pos sc) e) (punct src c sc).
Proof.
  destruct (decide (c = "="%char)) as [E|Heq].
  { pose proof (equals_step E) as He. unfold punct. rewrite E in *. exact He. }
  unfold lex_punct, punct. rewrite (proj2 (Ascii.eqb_neq _ _) Heq).
  destruct (_ && _ || _ && _); [by right; left|]. cbn [andb].
  destruct (c =? "(")%char eqn:E1; [apply Ascii.eqb_eq in E1; by apply paren_step|]. cbn [orb]. apply Ascii.eqb_neq in E1.
  destruct ((c =? ")")%char && _) eqn:E2.
  { apply andb_true_iff in E2 as [E2%Ascii.eqb_eq Ep]. destruct (parens sc) as [|p rest] eqn:Eps; [done|]. by apply (close_step p rest). }
  assert (Hr : c = ")"%char → parens sc = []). { intros E. rewrite E in E2. cbn in E2. by destruct (parens sc). }
  destruct ((c =? "<")%char && _ && _ && _ && _) eqn:E3.
  { rewrite !andb_true_iff, !negb_true_iff in E3. destruct E3 as [[[[E3%Ascii.eqb_eq E4%Nat.eqb_eq] E5] E6] E7].
    apply generic_open_step, (opens_tracks before sc); [done|done|]. split; [|done]. apply one. by rewrite E3. }
  assert (Ho : ¬ opens before this).
  { intros Ho. apply (opens_tracks before sc) in Ho; [|done..]. destruct Ho as (E%one & H1 & H2 & H3 & H4). injection E as E.
    rewrite <- E, H1, H2, Nat.eqb_refl in E3. cbn in E3, H3, H4. by rewrite H3, H4 in E3. }
  destruct (generics sc) as [|name rest] eqn:Eg; [apply other_step; auto|].
  destruct ((c =? ">")%char && _) eqn:E4.
  - apply andb_true_iff in E4 as [E4%Ascii.eqb_eq E5%negb_true_iff]. by apply generic_close_step.
  - apply other_step; auto. right. intros [-> E]. by rewrite E in E4.
Qed.
End punct.

(** ** The scan *)

Lemma next_space sc c e : byte src (pos sc) = Some c → space_end src c (pos sc) = Some e → next src sc = Scanned (sc <| pos := e |>).
Proof. intros H He. unfold next. by rewrite H, He. Qed.

Lemma next_step before sc c :
  tracks before sc → byte src (pos sc) = Some c → space_end src c (pos sc) = None →
  let '(k, e) := lex c (pos sc) in steps_to before (mkTok k (pos sc) e) (next src sc).
Proof.
  intros H Hc Hs. unfold next, SideeffectsSpec.lex. rewrite Hc, Hs.
  destruct ((c =? "$") || (c =? "@") || (c =? dq) || (c =? "'"))%char eqn:E1.
  - pose proof (literal_step before sc c H Hc E1) as Hl.
    destruct (lex_literal src c (pos sc)) as [[k e]|], (literal src c sc) as [r|]; try done.
    apply punct_step; [done..|]. rewrite !orb_true_iff, !Ascii.eqb_eq in E1. by destruct E1 as [[[-> | ->]| ->]| ->].
  - destruct (isIdentStart c) eqn:E2; [apply (ident_step _ _ c); [done|done|by rewrite isIdent_first, E2]|].
    destruct (is_digit c); [by apply number_step|by apply punct_step].
Qed.
End lexed.

(** ** The whole expression *)

Section whole.
Context (src : string).

Lemma byte_some i : i < String.length src ↔ ∃ c, byte src i = Some c.
Proof.
  split; [|intros [c H]; by apply (byte_length src i c)]. unfold byte. revert src. induction i as [|i IH]; intros [|d s]; cbn.
  - intros H. inversion H.
  - eauto.
  - intros H. inversion H.
  - intros H. apply IH. lia.
Qed.

Lemma lex_end c i : byte src i = Some c → i < (lex src c i).2.
Proof.
  intros Hc.
  assert (Hp : i < (lex_punct src c i).2) by (unfold lex_punct; repeat case_match; cbn; lia).
  assert (Hl : match lex_literal src c i with Some r => i < r.2 | None => True end).
  { unfold lex_literal. repeat case_match; try done; simplify_eq; cbn; try lia; apply ident_end_gt. }
  unfold lex. destruct (_ || _ || _ || _); [by destruct (lex_literal src c i)|].
  destruct (isIdentStart c); [apply ident_end_gt|]. destruct (is_digit c) eqn:E; [|done].
  cbn. unfold number_end. rewrite (sdrop_snth src i c Hc). cbn [span]. unfold isIdentPart. rewrite E, orb_true_r. cbn. lia.
Qed.

Lemma space_end_gt c i e : byte src i = Some c → space_end src c i = Some e → i < e.
Proof.
  intros Hc%byte_length. unfold space_end, comment_end. repeat case_match; intros; simplify_eq; lia.
Qed.

Lemma tracks_at before sc i : tracks src before sc → tracks src before (sc <| pos := i |>).
Proof. by intros []. Qed.

Lemma scan_tokens n before sc :
  tracks src before sc → String.length src - pos sc ≤ n →
  ∃ r, scan src n sc = Some r
    ∧ (r = None ↔ ∀ pre t post, tokens_from src n (pos sc) = pre ++ t :: post → ¬ effect src (rev pre ++ before) t).
Proof.
  revert before sc. induction n as [|n IH]; intros before sc H Hn; cbn [scan tokens_from].
  - rewrite (proj2 (Nat.ltb_ge _ _)) by lia. exists None. split; [done|]. split; [|done]. by intros _ [|? ?].
  - destruct (Nat.ltb_spec (pos sc) (String.length src)) as [Hl|Hl].
    2:{ exists None. split; [done|]. split; [|done]. intros _ pre t post.
        destruct (byte src (pos sc)) as [c|] eqn:Ec; [apply byte_length in Ec; lia|]. by destruct pre. }
    apply byte_some in Hl as [c Hc]. rewrite Hc. destruct (space_end src c (pos sc)) as [e|] eqn:Es.
    + rewrite (next_space _ _ _ _ Hc Es). apply space_end_gt in Es; [|done].
      pose proof (IH before (sc <| pos := e |>) (tracks_at _ _ _ H)) as IHe. change (pos (sc <| pos := e |>)) with e in IHe. apply IHe. lia.
    + pose proof (next_step src before sc c H Hc Es) as Hs. pose proof (lex_end c (pos sc) Hc) as Hend.
      destruct (lex src c (pos sc)) as [k e]. destruct (next src sc) as [r|sc'].
      * exists (Some r). split; [done|]. split; [done|]. intros Hno. exfalso. by apply (Hno [] (mkTok k (pos sc) e) _ eq_refl).
      * destruct Hs as (Hne & Ht & Hp). cbn in Hp, Hend. destruct (IH _ sc' Ht) as (r & Hr & Hiff); [lia|].
        exists r. split; [done|]. rewrite Hiff, Hp. split.
        -- intros Hall [|x pre] t post [= <- E]; [done|]. cbn [rev]. rewrite <- app_assoc. by apply (Hall pre t post).
        -- intros Hall pre t post E. specialize (Hall (mkTok k (pos sc) e :: pre) t post). cbn [rev app] in Hall.
           rewrite <- app_assoc in Hall. apply Hall. by rewrite E.
Qed.
End whole.

(** ** The scanner's tokens are C#'s *)

Lemma initial_start c : initial c = isIdentStart c.
Proof. destruct c as [[] [] [] [] [] [] [] []]; vm_compute; reflexivity. Qed.
Lemma later_part c : later c = isIdentPart c.
Proof. unfold later, isIdentPart. by rewrite initial_start. Qed.
Lemma figure_digit c : figure c = is_digit c.
Proof. done. Qed.
Lemma digit_not_start c : is_digit c = true → isIdentStart c = false.
Proof. destruct c as [[] [] [] [] [] [] [] []]; vm_compute; congruence. Qed.

Lemma sdrop_string i src c s : sdrop i src = String c s → byte src i = Some c ∧ sdrop (S i) src = s.
Proof. unfold byte. revert src. induction i as [|i IH]; intros [|d t]; cbn; try done; [by intros [= -> ->]|apply IH]. Qed.
Lemma sdrop_empty i src : sdrop i src = ""%string → byte src i = None.
Proof. unfold byte. revert src. induction i as [|i IH]; intros [|d t]; cbn; try done. apply IH. Qed.
Lemma byte_starts p i src : match byte src i with Some c => p c | None => false end = starts p (sdrop i src).
Proof.
  destruct (sdrop i src) as [|c s] eqn:E; [by rewrite (sdrop_empty _ _ E)|]. by rewrite (proj1 (sdrop_string _ _ _ _ E)).
Qed.
Lemma is_at_starts c i src : is_at src c i = starts_with c (sdrop i src).
Proof. apply byte_starts. Qed.
Lemma sdrop_more i src w r : sdrop i src = w +:+ r → sdrop (i + String.length w) src = r.
Proof.
  revert i. induction w as [|c w IH]; intros i H; cbn; [by rewrite Nat.add_0_r|].
  apply sdrop_string in H as [_ H]. rewrite <- Nat.add_succ_comm. by apply IH.
Qed.

Lemma span_all p a r : all_bytes p a = true → starts p r = false → span p (a +:+ r) = String.length a.
Proof.
  intros Ha Hr. induction a as [|c a IH]; cbn in *; [destruct r as [|d r]; cbn in *; [done|by rewrite Hr]|].
  apply andb_true_iff in Ha as [-> Ha]. by rewrite IH.
Qed.
Lemma span_split p s : ∃ a r, s = a +:+ r ∧ all_bytes p a = true ∧ starts p r = false.
Proof.
  induction s as [|c s (a & r & -> & Ha & Hr)]; [by exists "", ""|]. destruct (p c) eqn:E.
  - exists (String c a), r. cbn. by rewrite E, Ha.
  - by exists "", (String c (a +:+ r)).
Qed.

Lemma string_rest_quoted s r : quoted dq s r → string_rest false (s +:+ r) = String.length s.
Proof.
  induction 1 as [r|c s r Hq Hb H IH|c s r H IH| |]; cbn [String.append string_rest negb andb]; [done| |cbn; by rewrite IH|done|done].
  rewrite (proj2 (Ascii.eqb_neq _ _) Hb), (proj2 (Ascii.eqb_neq _ _) Hq). cbn [andb]. by rewrite IH.
Qed.
Lemma char_rest_quoted s r : quoted "'" s r → char_rest (s +:+ r) = String.length s.
Proof.
  induction 1 as [r|c s r Hq Hb H IH|c s r H IH| |]; cbn [String.append char_rest]; [done| |cbn; by rewrite IH|done|done].
  rewrite (proj2 (Ascii.eqb_neq _ _) Hb), (proj2 (Ascii.eqb_neq _ _) Hq). by rewrite IH.
Qed.
Lemma string_rest_verbatim s r : verbatim s r → string_rest true (s +:+ r) = String.length s.
Proof.
  induction 1 as [r Hr|c s r Hq H IH|s r H IH|]; cbn [String.append string_rest negb andb].
  - destruct (has_prefix (String dq "") r) eqn:E; [|done]. apply has_prefix_spec in E as [t ->]. unfold starts_with in Hr. cbn [String.append starts] in Hr.
    by rewrite Ascii.eqb_refl in Hr.
  - rewrite (proj2 (Ascii.eqb_neq _ _) Hq). cbn [andb]. by rewrite IH.
  - cbn. by rewrite IH.
  - done.
Qed.
Lemma span_numeral s r : numeral s r → starts_with "." r = false →
  span (fun c => isIdentPart c || (c =? ".")%char) (s +:+ r) = String.length s.
Proof.
  intros H Hr. induction H as [r Hl _|c s r Hc H IH|c s r Hc H IH]; cbn [String.append span].
  - destruct r as [|c r]; [done|]. cbn in *. rewrite later_part in Hl. by rewrite Hl, Hr.
  - rewrite <- later_part, Hc. cbn. by rewrite IH.
  - rewrite orb_true_r. exact (f_equal S (IH Hr)).
Qed.

(** The end of a comment is its first. *)
Lemma index_str_occurs p x y : ∃ j, index_str p (x +:+ p +:+ y) = Some j ∧ j ≤ String.length x.
Proof.
  induction x as [|c x (j & Hj & Hl)].
  - exists 0. split; [|done]. exact (index_str_prefix p (p +:+ y) (has_prefix_app p y)).
  - cbn [String.append index_str]. destruct (has_prefix p _); [exists 0; split; [done|lia]|]. exists (S j). rewrite Hj. cbn. split; [done|lia].
Qed.
Lemma append_cut a b c d : a +:+ b = c +:+ d → String.length c ≤ String.length a → ∃ y, a = c +:+ y.
Proof.
  revert c. induction a as [|h a IH]; intros [|k c] E Hl; cbn in *; [by exists ""|lia|by exists (String h a)|].
  injection E as -> E. destruct (IH c E) as [y ->]; [lia|by exists y].
Qed.
Lemma index_str_first b r :
  (∀ x y, b +:+ "*/" = x +:+ "*/" +:+ y → y = ""%string) → index_str "*/" (b +:+ "*/" +:+ r) = Some (String.length b).
Proof.
  intros H. destruct (index_str_occurs "*/" b r) as (j & Hj & Hl). rewrite Hj. f_equal.
  apply index_str_Some in Hj as [E Hj]. set (t := b +:+ "*/" +:+ r) in *. rewrite <- string_app_assoc in E. unfold t in E at 1. rewrite <- string_app_assoc in E.
  assert (Hs : String.length (stake j t) = j) by (rewrite stake_length; cbn in Hj; lia).
  destruct (append_cut _ _ _ _ E) as [y Ey]; [rewrite !string_app_length, Hs; lia|].
  rewrite string_app_assoc in Ey. pose proof (H _ _ Ey) as ->. apply (f_equal String.length) in Ey.
  rewrite !string_app_length, Hs in Ey. cbn in Ey. lia.
Qed.
Lemma index_str_none p b : index_str p b = None → ∀ x y, b ≠ x +:+ p +:+ y.
Proof. intros H x y ->. destruct (index_str_occurs p x y) as (j & Hj & _). congruence. Qed.
Lemma index_str_never b : (∀ x y, b ≠ x +:+ "*/" +:+ y) → index_str "*/" b = None.
Proof. intros H. destruct (index_str "*/" b) as [j|] eqn:E; [|done]. apply index_str_Some in E as [E _]. by destruct (H _ _ E). Qed.

(** What is not a token starts nothing else. *)
Lemma lex_alone src c i r : sdrop i src = String c r → alone c r →
  space_end src c i = None ∧ lex src c i = (Punct, S i).
Proof.
  intros Hs (Hw & Hi & Hf & Hdq & Hq & Hin & Hsig & Hv & Hsl & Hp & Hm & He). apply sdrop_string in Hs as [_ Hs]. split.
  - unfold space_end. rewrite !is_at_starts, Hs. unfold white, line_break in Hw. rewrite !orb_false_iff in Hw. destruct Hw as ((W1 & W2) & W3 & W4).
    rewrite W1, W2, W3, W4. destruct (Ascii.eqb_spec c "/") as [->|]; [|done]. destruct Hsl as [-> ->]; done.
  - unfold lex, lex_literal, lex_punct. rewrite !is_at_starts, byte_starts, Hs, <- initial_start, Hi, <- figure_digit, Hf.
    rewrite (proj2 (Ascii.eqb_neq _ _) Hdq), (proj2 (Ascii.eqb_neq _ _) Hq).
    assert (Hst : starts isIdentStart r = starts initial r) by (destruct r; [done|cbn; by rewrite initial_start]). rewrite Hst.
    unfold interpolates in Hin.
    destruct (Ascii.eqb_spec c "$") as [->|N1].
    { rewrite Hsig by auto. destruct (starts_with dq r) eqn:E1; [naive_solver|]. destruct (starts_with "@" r) eqn:E2; [naive_solver|done]. }
    destruct (Ascii.eqb_spec c "@") as [->|N2].
    { rewrite Hsig, Hv by auto. destruct (starts_with "$" r) eqn:E1; [naive_solver|done]. }
    cbn [orb andb]. destruct (Ascii.eqb_spec c "+") as [->|]; [rewrite Hp by done; done|].
    destruct (Ascii.eqb_spec c "-") as [->|]; [rewrite Hm by done; done|].
    destruct (Ascii.eqb_spec c "=") as [->|]; [destruct He as [-> ->]; done|done].
Qed.

(** A name starts no other token, and no space. *)
Lemma start_only c : isIdentStart c = true →
  (c =? "$")%char || (c =? "@")%char || (c =? dq)%char || (c =? "'")%char || (c =? " ")%char || (c =? ascii_of 9)%char
  || (c =? ascii_of 13)%char || (c =? ascii_of 10)%char || (c =? "/")%char = false.
Proof. destruct c as [[] [] [] [] [] [] [] []]; vm_compute; congruence. Qed.
Lemma digit_only c : is_digit c = true →
  (c =? "$")%char || (c =? "@")%char || (c =? dq)%char || (c =? "'")%char || (c =? " ")%char || (c =? ascii_of 9)%char
  || (c =? ascii_of 13)%char || (c =? ascii_of 10)%char || (c =? "/")%char = false.
Proof. destruct c as [[] [] [] [] [] [] [] []]; vm_compute; congruence. Qed.
Lemma plain_start src c i :
  (c =? "$")%char || (c =? "@")%char || (c =? dq)%char || (c =? "'")%char || (c =? " ")%char || (c =? ascii_of 9)%char
  || (c =? ascii_of 13)%char || (c =? ascii_of 10)%char || (c =? "/")%char = false →
  space_end src c i = None
  ∧ lex src c i = match (if isIdentStart c then Some (Word, ident_end src i) else if is_digit c then Some (Number, number_end src i) else None) with
                  | Some r => r | None => lex_punct src c i end.
Proof. rewrite !orb_false_iff. intros ((((((((H1 & H2) & H3) & H4) & H5) & H6) & H7) & H8) & H9). unfold space_end, lex. by rewrite H1, H2, H3, H4, H5, H6, H7, H8, H9. Qed.

Lemma span_later s : span isIdentPart s = span later s.
Proof. induction s as [|c s IH]; cbn; [done|]. by rewrite later_part, IH. Qed.
Lemma name_end s r src i : name s r → sdrop i src = s +:+ r → ident_end src i = i + String.length s.
Proof.
  intros [c t r' Hc Ht Hr] [_ H]%sdrop_string. unfold ident_end. rewrite H, span_later, span_all by done. cbn. lia.
Qed.
Lemma sigil_end s r src i : name s r → sdrop (S i) src = s +:+ r → ident_end src i = S i + String.length s.
Proof.
  intros [c t r' Hc Ht Hr] H. unfold ident_end. rewrite H, span_later, span_all; [done| |done]. cbn. unfold later at 1. by rewrite Hc.
Qed.

(** A token of the grammar is where the scanner reads one. *)
Lemma lexeme_lex src k w r i :
  lexeme k w r → sdrop i src = w +:+ r → (k = Number → starts_with "." r = false) →
  ∃ c t, w +:+ r = String c t ∧ space_end src c i = None ∧ lex src c i = (k, i + String.length w).
Proof.
  intros H Hs Hn.
  destruct H as [c r Hi|s r Hq|s r Hv|s r Hq|s r Hw|c s r Hc Hw|c s r Hc Hw|c r Hc|c r Hc|c r Ha]; cbn [String.append] in *.
  - pose proof (sdrop_string _ _ _ _ Hs) as [_ Hr]. exists c, r. split; [done|]. unfold lex, lex_literal. rewrite !is_at_starts, Hr. cbn [String.length].
    rewrite Nat.add_1_r. destruct Hi as [[-> [-> | ->]]|[-> ->]]; (split; [done|]); cbn; by rewrite ?orb_true_r.
  - pose proof (sdrop_string _ _ _ _ Hs) as [_ Hr]. exists dq, (s +:+ r). split; [done|]. split; [done|].
    unfold lex, lex_literal. rewrite Hr, (string_rest_quoted s r) by done. cbn. by rewrite Nat.add_succ_r.
  - pose proof (sdrop_string _ _ _ _ Hs) as [_ Hr]. pose proof (sdrop_string _ _ _ _ Hr) as [Hb Hr']. exists "@"%char, (String dq (s +:+ r)). split; [done|]. split; [done|].
    unfold lex, lex_literal. rewrite !is_at_starts, Hr, Hr', (string_rest_verbatim s r) by done. cbn. by rewrite !Nat.add_succ_r.
  - pose proof (sdrop_string _ _ _ _ Hs) as [_ Hr]. exists "'"%char, (s +:+ r). split; [done|]. split; [done|].
    unfold lex, lex_literal. rewrite Hr, (char_rest_quoted s r) by done. cbn. by rewrite Nat.add_succ_r.
  - pose proof (name_end s r src i Hw Hs) as He. destruct Hw as [c t r Hc Ht Hr]. exists c, (t +:+ r). split; [done|].
    rewrite initial_start in Hc. destruct (plain_start src c i (start_only c Hc)) as [-> ->]. by rewrite Hc, He.
  - pose proof (sdrop_string _ _ _ _ Hs) as [_ Hr]. pose proof (sigil_end s r src i Hw Hr) as He. destruct Hw as [d t r Hd Ht Ht']. exists c, (String d t +:+ r). split; [done|].
    cbn [String.append] in Hr. unfold lex, lex_literal. rewrite !is_at_starts, byte_starts, Hr, He. cbn [starts_with starts]. rewrite initial_start in Hd. pose proof (start_only d Hd) as Ho.
    rewrite !orb_false_iff in Ho. destruct Ho as ((((((((Ho1 & Ho2) & Ho3) & Ho4) & _) & _) & _) & _) & _). unfold starts_with, starts. rewrite Hd, Ho1, Ho2, Ho3.
    destruct Hc as [-> | ->]; (split; [done|]); cbn; by rewrite !Nat.add_succ_r.
  - pose proof (sdrop_string _ _ _ _ Hs) as [_ Hr]. exists c, (s +:+ r). split; [done|]. rewrite figure_digit in Hc.
    destruct (plain_start src c i (digit_only c Hc)) as [-> ->]. rewrite (digit_not_start c Hc), Hc. split; [done|]. f_equal. unfold number_end.
    rewrite Hs. cbn [span]. unfold isIdentPart at 1. rewrite Hc, orb_true_r. cbn [orb]. by rewrite (span_numeral s r Hw (Hn eq_refl)).
  - pose proof (sdrop_string _ _ _ _ Hs) as [_ Hr]. exists c, (String c r). split; [done|]. unfold lex, lex_punct. rewrite !is_at_starts, Hr. cbn [starts_with starts].
    destruct Hc as [-> | ->]; split; done.
  - pose proof (sdrop_string _ _ _ _ Hs) as [_ Hr]. exists "="%char, (String c r). split; [done|]. unfold lex, lex_punct. rewrite !is_at_starts, Hr. cbn [starts_with starts].
    destruct Hc as [-> | ->]; split; done.
  - exists c, r. split; [done|]. destruct (lex_alone src c i r Hs Ha) as [-> ->]. cbn. by rewrite Nat.add_1_r.
Qed.

Lemma comment_end_length src i w : sdrop i src = w → i < String.length src → String.length src = i + String.length w.
Proof. intros <- H. rewrite sdrop_length. lia. Qed.
Lemma blank_end src w r i :
  no_line_after src → blank w r → sdrop i src = w +:+ r →
  ∃ c t, w +:+ r = String c t ∧ space_end src c i = Some (i + String.length w).
Proof.
  intros Hn H Hs.
  assert (Hl : w ≠ ""%string → i < String.length src).
  { intros Hw. destruct w as [|c t]; [done|]. cbn in Hs. apply sdrop_string in Hs as [Hs _]. by apply byte_length in Hs. }
  destruct H as [c r Hc|b r Hb|b Hb|b r Hb Hr].
  - exists c, r. split; [done|]. unfold space_end. unfold white, line_break in Hc. rewrite Nat.add_1_r.
    rewrite <- orb_assoc, (orb_comm (c =? ascii_of 13)%char), Hc. done.
  - exists "/"%char, ("*" +:+ (b +:+ "*/" +:+ r)). cbn [String.append] in Hs. rewrite !string_app_assoc in *. split; [done|].
    pose proof (sdrop_string _ _ _ _ Hs) as [_ H1]. pose proof (sdrop_string _ _ _ _ H1) as [_ H2].
    unfold space_end, comment_end. rewrite !is_at_starts, H1. replace (i + 2) with (S (S i)) by lia. rewrite H2. rewrite index_str_first by done.
    cbn [Ascii.eqb Bool.eqb andb orb starts_with starts String.append]. f_equal. cbn. rewrite ?string_app_length. cbn. lia.
  - exists "/"%char, ("*" +:+ b). rewrite string_app_nil_r in *. cbn [String.append] in Hs. split; [done|].
    pose proof (sdrop_string _ _ _ _ Hs) as [_ H1]. pose proof (sdrop_string _ _ _ _ H1) as [_ H2].
    unfold space_end, comment_end. rewrite !is_at_starts, H1. replace (i + 2) with (S (S i)) by lia. rewrite H2, index_str_never by done.
    cbn [Ascii.eqb Bool.eqb andb orb starts_with starts]. f_equal. apply (comment_end_length src i _ Hs). by apply Hl.
  - assert (r = ""%string) as ->.
    { destruct Hr as [?|Hr]; [done|]. specialize (Hn (stake i src) (b +:+ r)). rewrite <- (stake_sdrop i src) in Hn at 1. rewrite Hs in Hn.
      specialize (Hn eq_refl). rewrite all_bytes_app in Hn. apply andb_true_iff in Hn as [_ Hn]. destruct r as [|c r]; [done|]. cbn in Hn, Hr. by rewrite Hr in Hn. }
    exists "/"%char, ("/" +:+ b). rewrite string_app_nil_r in *. cbn [String.append] in Hs. split; [done|].
    pose proof (sdrop_string _ _ _ _ Hs) as [_ H1].
    unfold space_end, comment_end. rewrite !is_at_starts, H1.
    cbn [Ascii.eqb Bool.eqb andb orb starts_with starts]. f_equal. apply (comment_end_length src i _ Hs). by apply Hl.
Qed.

Lemma lexes_tokens src i s ts :
  lexes_from i s ts → sdrop i src = s → no_line_after src → plain_numbers src ts →
  ∀ n, String.length s ≤ n → tokens_from src n i = ts.
Proof.
  induction 1 as [i|i w r ts Hw H IH|i k w r ts Hw H IH]; intros Hs Hl Hp n Hn.
  - destruct n; cbn; [done|]. by rewrite (sdrop_empty _ _ Hs).
  - destruct (blank_end src w r i Hl Hw Hs) as (c & t & E & He). rewrite string_app_length in Hn.
    pose proof (sdrop_more _ _ _ _ Hs) as Hr. rewrite E in Hs. apply sdrop_string in Hs as [Hc _].
    pose proof (space_end_gt src c i _ Hc He). destruct n as [|n]; [lia|]. cbn [tokens_from]. rewrite Hc, He. apply IH; [done..|lia].
  - pose proof (sdrop_more _ _ _ _ Hs) as Hr.
    assert (Hk : k = Number → starts_with "." r = false).
    { intros ->. specialize (Hp _ (list_elem_of_here _ _) eq_refl). cbn in Hp. rewrite <- Hr, <- is_at_starts. unfold is_at, byte.
      destruct (snth _ src) as [d|]; [|done]. apply Ascii.eqb_neq. congruence. }
    destruct (lexeme_lex src k w r i Hw Hs Hk) as (c & t & E & He & Hlex). rewrite string_app_length in Hn.
    rewrite E in Hs. apply sdrop_string in Hs as [Hc _].
    pose proof (lex_end src c i Hc) as Hend. rewrite Hlex in Hend. cbn in Hend.
    destruct n as [|n]; [lia|]. cbn [tokens_from]. rewrite Hc, He, Hlex. f_equal. apply IH; [done|done| |lia].
    intros u Hu. apply Hp. by right.
Qed.

(** ** Every text has its tokens *)

Lemma quoted_total q s : ∃ w r, s = w +:+ r ∧ quoted q w r.
Proof.
  assert (H : ∀ n s, String.length s ≤ n → ∃ w r, s = w +:+ r ∧ quoted q w r).
  { clear s. induction n as [|n IH]; intros [|c s] Hn; cbn in Hn; [by exists "", ""; split; [|constructor]|lia|by exists "", ""; split; [|constructor]|].
    destruct (decide (c = q)) as [->|Hq]; [exists (String q ""), s; split; [done|constructor]|].
    destruct (decide (c = "\"%char)) as [->|Hb].
    - destruct s as [|d s']; [exists "\", ""; split; [done|apply quoted_lone]|]. assert (Hs : String.length s' ≤ n) by (cbn in Hn; lia). destruct (IH s' Hs) as (w & r & -> & Hw).
      exists (String "\" (String d w)), r. split; [done|by apply quoted_escape].
    - destruct (IH s) as (w & r & -> & Hw); [lia|]. exists (String c w), r. split; [done|by constructor]. }
  by apply (H (String.length s)).
Qed.
Lemma verbatim_total s : ∃ w r, s = w +:+ r ∧ verbatim w r.
Proof.
  assert (H : ∀ n s, String.length s ≤ n → ∃ w r, s = w +:+ r ∧ verbatim w r).
  { clear s. induction n as [|n IH]; intros [|c s] Hn; cbn in Hn; [by exists "", ""; split; [|constructor]|lia|by exists "", ""; split; [|constructor]|].
    destruct (decide (c = dq)) as [->|Hq].
    - destruct (starts_with dq s) eqn:E; [|exists (String dq ""), s; split; [done|by constructor]].
      destruct s as [|d s']; [done|]. apply Ascii.eqb_eq in E as ->. assert (Hs : String.length s' ≤ n) by (cbn in Hn; lia). destruct (IH s' Hs) as (w & r & -> & Hw).
      exists (String dq (String dq w)), r. split; [done|by apply verbatim_double].
    - destruct (IH s) as (w & r & -> & Hw); [lia|]. exists (String c w), r. split; [done|by constructor]. }
  by apply (H (String.length s)).
Qed.
Lemma name_total c s : initial c = true → ∃ w r, String c s = w +:+ r ∧ name w r.
Proof. intros Hc. destruct (span_split later s) as (a & r & -> & Ha & Hr). by exists (String c a), r. Qed.
Lemma numeral_total s : ∃ w r, s = w +:+ r ∧ numeral w r.
Proof.
  induction s as [|c s (w & r & -> & Hw)]; [by exists "", ""; split; [|constructor]|].
  destruct (later c) eqn:Hc; [exists (String c w), r; split; [done|by constructor]|].
  destruct (decide (c = "."%char)) as [->|Hd].
  - destruct w as [|d w].
    + exists "", (String "." r). split; [done|]. constructor; [done|]. intros r' [= <-]. inversion Hw as [? Hl _| |]; subst.
      destruct r as [|d r]; [done|]. cbn in *. unfold later in Hl. by apply orb_false_iff in Hl as [_ ?].
    + destruct (figure d) eqn:Hf; [exists (String "." (String d w)), r; split; [done|by constructor]|].
      exists "", (String "." (String d w +:+ r)). split; [done|]. constructor; [done|]. by intros r' [= <-].
  - exists "", (String c (w +:+ r)). split; [done|]. constructor; [done|]. by intros r' [= -> _].
Qed.
Lemma comment_total s : ∃ w r, "/*" +:+ s = w +:+ r ∧ w ≠ ""%string ∧ blank w r.
Proof.
  destruct (index_str "*/" s) as [n|] eqn:E.
  2:{ exists ("/*" +:+ s), "". rewrite string_app_nil_r. split; [done|]. split; [done|]. constructor. by apply index_str_none. }
  pose proof (index_str_Some _ _ _ E) as [Es _]. exists ("/*" +:+ stake n s +:+ "*/"), (sdrop (n + String.length "*/") s).
  split; [rewrite !string_app_assoc; by rewrite <- Es|]. split; [done|]. constructor. intros x y H.
  rewrite <- string_app_assoc, H, !string_app_assoc in Es. destruct (index_str_occurs "*/" x (y +:+ sdrop (n + String.length "*/") s)) as (j & Hj & Hl).
  rewrite <- Es, E in Hj. injection Hj as <-. apply (f_equal String.length) in H. rewrite !string_app_length, stake_length in H. cbn in H.
  destruct y; [done|]. cbn in H. lia.
Qed.

Definition has_piece (s : string) : Prop :=
  ∃ w r, s = w +:+ r ∧ w ≠ ""%string ∧ (blank w r ∨ ∃ k, lexeme k w r).
Lemma piece_blank s w r : s = w +:+ r → w ≠ ""%string → blank w r → has_piece s.
Proof. intros. exists w, r. auto. Qed.
Lemma piece_token s k w r : s = w +:+ r → w ≠ ""%string → lexeme k w r → has_piece s.
Proof. intros. exists w, r. eauto. Qed.
(** A literal, and a name, with or without a mark before it. *)
Lemma piece_name c s : initial c = true → has_piece (String c s).
Proof. intros (w & r & E & Hw)%(name_total c s). rewrite E. eapply piece_token; [done|by inversion Hw|by constructor]. Qed.
Lemma piece_sigil m s : m = "$"%char ∨ m = "@"%char → starts initial s = true → has_piece (String m s).
Proof.
  intros Hm Hs. destruct s as [|c s]; [done|]. destruct (name_total c s Hs) as (w & r & -> & Hw).
  by apply (piece_token _ Word (String m w) r); [| |constructor].
Qed.
Lemma piece_two c d s : starts_with d s = true → (∃ k, ∀ r, lexeme k (String c (String d "")) r) → has_piece (String c s).
Proof.
  intros Hs [k Hk]. destruct s as [|e s]; [done|]. apply Ascii.eqb_eq in Hs as ->. by apply (piece_token _ k (String c (String d "")) s).
Qed.
Lemma piece_comment s : starts_with "*" s = true ∨ starts_with "/" s = true → has_piece (String "/" s).
Proof.
  destruct s as [|c s]; [by intros [?|?]|]. intros [->%Ascii.eqb_eq| ->%Ascii.eqb_eq].
  - destruct (comment_total s) as (w & r & E & Hw & Hb). by apply (piece_blank _ w r).
  - destruct (span_split (fun c => negb (line_break c)) s) as (a & r & -> & Ha & Hr).
    apply (piece_blank _ ("//" +:+ a) r); [done..|]. constructor; [done|]. destruct r as [|d r]; [by left|right]. cbn in *.
    by apply negb_false_iff.
Qed.

#[local] Instance interpolates_dec c r : Decision (interpolates c r).
Proof. unfold interpolates. apply _. Defined.

(** Something starts every text that is not empty. *)
Lemma piece_total c s : has_piece (String c s).
Proof.
  destruct (white c) eqn:Hw; [by apply (piece_blank _ (String c "") s); [| |constructor]|].
  destruct (initial c) eqn:Hi; [by apply piece_name|].
  destruct (figure c) eqn:Hf.
  { destruct (numeral_total s) as (w & r & -> & Hn). by apply (piece_token _ Number (String c w) r); [| |constructor]. }
  destruct (decide (c = dq)) as [->|Hdq].
  { destruct (quoted_total dq s) as (w & r & -> & Hn). by apply (piece_token _ Text (String dq w) r); [| |constructor]. }
  destruct (decide (c = "'"%char)) as [->|Hq].
  { destruct (quoted_total "'" s) as (w & r & -> & Hn). by apply (piece_token _ Text (String "'" w) r); [| |constructor]. }
  destruct (decide (interpolates c s)) as [Hin|Hin]; [by apply (piece_token _ Interpolated (String c "") s); [| |constructor]|].
  destruct (decide ((c = "$"%char ∨ c = "@"%char) ∧ starts initial s = true)) as [[Hm Hs]|Hm]; [by apply piece_sigil|].
  destruct (decide (c = "@"%char ∧ starts_with dq s = true)) as [[-> Hs]|Hv].
  { destruct s as [|d s]; [done|]. apply Ascii.eqb_eq in Hs as ->. destruct (verbatim_total s) as (w & r & -> & Hn).
    by apply (piece_token _ Text (String "@" (String dq w)) r); [| |constructor]. }
  destruct (decide (c = "/"%char ∧ (starts_with "*" s = true ∨ starts_with "/" s = true))) as [[-> Hs]|Hsl]; [by apply piece_comment|].
  destruct (decide (c = "+"%char ∧ starts_with "+" s = true)) as [[-> Hs]|Hp].
  { apply (piece_two _ "+" _ Hs). exists Twice. constructor. auto. }
  destruct (decide (c = "-"%char ∧ starts_with "-" s = true)) as [[-> Hs]|Hn].
  { apply (piece_two _ "-" _ Hs). exists Twice. constructor. auto. }
  destruct (decide (c = "="%char ∧ starts_with "=" s = true)) as [[-> Hs]|He].
  { apply (piece_two _ "=" _ Hs). exists Punct. intros r. apply lexeme_equals. auto. }
  destruct (decide (c = "="%char ∧ starts_with ">" s = true)) as [[-> Hs]|He'].
  { apply (piece_two _ ">" _ Hs). exists Punct. intros r. apply lexeme_equals. auto. }
  apply (piece_token _ Punct (String c "") s); [done..|]. apply lexeme_alone. unfold alone.
  rewrite <- !not_true_iff_false in *. split_and!; tauto.
Qed.

Lemma lexes_total s i : ∃ ts, lexes_from i s ts.
Proof.
  assert (H : ∀ n s i, String.length s ≤ n → ∃ ts, lexes_from i s ts).
  { clear. induction n as [|n IH]; intros [|c s] i Hn; cbn in Hn; [exists []; constructor|lia|exists []; constructor|].
    destruct (piece_total c s) as (w & r & E & Hw & Hp). pose proof (f_equal String.length E) as El. rewrite string_app_length in El. cbn in El.
    destruct (IH r (i + String.length w)) as [ts Hts]; [destruct w; cbn in *; [done|lia]|]. rewrite E.
    destruct Hp as [Hp|[k Hp]]; [exists ts; by constructor|eexists; by constructor]. }
  by apply (H (String.length s)).
Qed.

(** C35: the check ends on every text, and every text has C#'s tokens. In an
    expression that names no member of a number's literal, and has no line
    after a [//], it finds something exactly when one of the tokens is a side
    effect after those before it: an interpolated string, [++] or [--],
    [new], an equals sign that assigns, or an opening parenthesis that calls
    (a name but the keywords that take parentheses, a generic's closing
    bracket, a value in brackets, or one in parentheses that is no cast to a
    dotted name). *)
Theorem SideEffects_spec expr :
  scan_all expr = Some (SideEffects expr)
  ∧ (∃ ts, lexes expr ts)
  ∧ ∀ ts, lexes expr ts → plain_numbers expr ts → no_line_after expr →
    (SideEffects expr = None ↔ ∀ pre t post, ts = pre ++ t :: post → ¬ effect expr (rev pre) t).
Proof.
  destruct (scan_tokens expr (String.length expr) [] new_scanner (tracks_new expr)) as (r & Hr & Hiff); [cbn; lia|].
  unfold SideEffects, scan_all. rewrite Hr. split; [done|]. split; [apply lexes_total|].
  intros ts Hts Hp Hl. rewrite <- (lexes_tokens expr 0 expr ts Hts eq_refl Hl Hp _ (le_n _)). cbn [default id]. rewrite Hiff.
  split; intros H pre t post E; [rewrite <- (app_nil_r (rev pre))|rewrite app_nil_r]; by apply (H pre t post).
Qed.

(** The tokens of [x<<=1], whose equals sign assigns. *)
Lemma SideEffects_spec_witness : SideEffects "x<<=1" ≠ None.
Proof.
  set (p i j := mkTok Punct i j). set (ts := [mkTok Word 0 1; p 1 2; p 2 3; p 3 4; mkTok Number 4 5]).
  assert (Ha : ∀ i c r ts, alone c r → lexes_from (i + 1) r ts → lexes_from i (String c r) (p i (i + 1) :: ts)).
  { intros i c r l Hc. apply (lexes_token i Punct (String c "") r), lexeme_alone, Hc. }
  assert (Hts : lexes "x<<=1" ts).
  { apply (lexes_token 0 Word "x" "<<=1"); [by apply lexeme_name, (name_all "x" "")|].
    do 3 (apply Ha; [unfold alone, interpolates; split_and!; try done; naive_solver|]).
    apply (lexes_token 4 Number "1" ""); [by apply lexeme_number; [|apply numeral_end]|apply lexes_end]. }
  destruct (SideEffects_spec "x<<=1") as (_ & _ & H). rewrite (H ts Hts).
  - intros Hno. apply (Hno [mkTok Word 0 1; p 1 2; p 2 3] (p 3 4) _ eq_refl). do 3 right. left. split; [done|].
    right. left. by exists "x", "1".
  - intros t Ht Hk. unfold ts in Ht. rewrite !elem_of_cons, elem_of_nil in Ht. naive_solver.
  - intros x y E. destruct (index_str_none "//" "x<<=1" eq_refl x y E).
Defined.

(** The expressions of the driver's own tests. *)
Example passes : forallb (fun e => bool_decide (SideEffects e = None))
  ["a.b.c"; "list[0]"; "(int)x"; "x == 3"; "x<=3"; "typeof(Foo)"; "'('"; "a => a"; "c > (d)"; "x is (1 or 2)";
   "$exception.Message"; "Foo // a comment"; "(System.Int32)(x)"; "(f)(1)"]%string = true.
Proof. vm_compute. reflexivity. Qed.
Example finds : map SideEffects
  ["Foo<int>(1)"; "items[0](1)"; "((int)x)(1)"; "x <<= 1"; "i++"; "new Foo()"]%string =
  map Some ["call a method (Foo)"; "call a method"; "call a method"; reasonAssign; reasonIncrement; reasonNew]%string.
Proof. vm_compute. reflexivity. Qed.

(** A number's token takes in the names after its dots: a method called on a
    number's literal is not found. *)
Lemma number_method_missed : SideEffects "1.ToString()" = None.
Proof. vm_compute. reflexivity. Qed.

(** A comment on a line takes in the lines after it. *)
Lemma line_comment_missed : SideEffects ("x //" +:+ String (ascii_of 10) "= 1") = None.
Proof. vm_compute. reflexivity. Qed.
