(* ===== verification/Manifest.v ===== *)
(** * Adapter manifests: their data

    src/internal/adapters/manifest.go. A manifest says how to find, install
    and run a debug adapter and, for a language of the generic driver, how to
    launch programs with it. Reading one from JSON is the decoder's; a JSON
    value is a [value], its objects lists of members in the order in which
    the map is walked. *)

From S2P Require Import Prelude GoStrings.
From Stdlib Require Import Ascii.

Open Scope Z_scope.

Definition SchemaVersion : Z := 1.

Definition RuntimeNative : string := "".
Definition RuntimePython : string := "python".
Definition RuntimeDotnet : string := "dotnet".
Definition TransportStdio : string := "stdio".
Definition TransportConnect : string := "connect".
Definition OptionString : string := "string".
Definition OptionBool : string := "bool".
Definition OptionInt : string := "int".
Definition SourceBundled : string := "bundled".
Definition SourceUser : string := "user".

(** An [any]: what the JSON decoder gives (a number stays as written), and
    the typed values of template variables. *)
Inductive value :=
  | VNull | VNumber (lit : string) | VBool (b : bool) | VString (s : string)
  | VArray (l : list value) | VObject (members : list (string * value))
  | VInt (n : Z) | VStrings (l : list string) | VStringMap (members : list (string * string)).

(** An option of the language, [start --opt NAME=VALUE]. *)
Record Option_ := mkOption { op_Type : string; op_Default : string; op_Help : string }.

Record Template := mkTemplate {
  tm_Require : list string; tm_Arguments : list (string * value); tm_Terminal : option (list (string * value)) }.

Record EvalGuard := mkEvalGuard {
  Quotes : list string; InterpolatedPrefixes : list string; NonCallWords : list string;
  SafeCalls : list string; AssignOps : list string }.

Record AdapterSpec := mkAdapter {
  ad_ID : string; ad_Transport : string; ad_Runtime : string; ad_Entry : string; ad_Args : list string;
  ad_Environment : list (string * string); ad_Env : string; ad_Path : bool; ad_VersionArgs : list string }.

Record Python := mkPython {
  py_Env : string; py_Option : string; py_Commands : list (list string); py_Venvs : list string;
  py_MinVersion : string; py_Module : string }.

Record Download := mkDownload {
  dl_URL : string; dl_SHA256 : string; dl_Archive : string; dl_Root : string; dl_Size : Z }.

Record Language := mkLanguage {
  ln_Name : string; ln_Builtin : bool; ln_Extensions : list string; ln_Markers : list string }.

(** The maps [Options], [Exceptions] and [Downloads] are lists without a
    repeated key, in the order they are walked. *)
Record Manifest := mkManifest {
  mf_Schema : Z; mf_Name : string; mf_Description : string; mf_Homepage : string; mf_Version : string;
  mf_Adapter : AdapterSpec; mf_Python : option Python; mf_Dotnet : option string;
  mf_Install : option (list (string * Download)); mf_Language : option Language;
  mf_Options : list (string * Option_); mf_Launch : option Template; mf_Attach : option Template;
  mf_AttachUnsupported : string; mf_Exceptions : option (list (string * list string)); mf_EvalGuard : option EvalGuard;
  mf_Source : string; mf_Path : string; mf_Replaces : string }.
#[global] Instance eta_Manifest : Eta Manifest := fun m =>
  mkManifest (mf_Schema m) (mf_Name m) (mf_Description m) (mf_Homepage m) (mf_Version m) (mf_Adapter m) (mf_Python m)
    (mf_Dotnet m) (mf_Install m) (mf_Language m) (mf_Options m) (mf_Launch m) (mf_Attach m) (mf_AttachUnsupported m)
    (mf_Exceptions m) (mf_EvalGuard m) (mf_Source m) (mf_Path m) (mf_Replaces m).

(** A map's entry. *)
Definition assoc {A} (k : string) (l : list (string * A)) : option A :=
  snd <$> List.find (fun x => x.1 =?s k) l.

Definition Kind (o : Option_) : string := if op_Type o =?s "" then OptionString else op_Type o.

(** [strconv.ParseBool] *)
Definition parse_bool (v : string) : option bool :=
  if bool_decide (v ∈ ["1"; "t"; "T"; "true"; "TRUE"; "True"]%string) then Some true
  else if bool_decide (v ∈ ["0"; "f"; "F"; "false"; "FALSE"; "False"]%string) then Some false
  else None.

(** [Parse] of an option; an error is its text. *)
Definition ParseOption (o : Option_) (v : string) : string + value :=
  if Kind o =?s OptionBool then
    match parse_bool v with
    | Some b => inr (VBool b)
    | None => inl (quote v +:+ " is not a bool (true or false)")
    end
  else if Kind o =?s OptionInt then
    match atoi v with
    | Some n => inr (VInt n)
    | None => inl (quote v +:+ " is not an integer")
    end
  else inr (VString v).

Definition LanguageName (m : Manifest) : string := match mf_Language m with Some l => ln_Name l | None => "" end.
Definition Builtin (m : Manifest) : bool := match mf_Language m with Some l => ln_Builtin l | None => false end.

Definition DownloadFor (m : Manifest) (goos goarch : string) : option Download :=
  match mf_Install m with
  | None => None
  | Some downloads =>
    match assoc (goos +:+ "/" +:+ goarch) downloads with
    | Some d => Some d
    | None => assoc "*" downloads
    end
  end.

(** ** Lemmas *)

Lemma assoc_In {A} k (l : list (string * A)) x : assoc k l = Some x → In (k, x) l.
Proof.
  unfold assoc. destruct (List.find _ l) as [[k' y]|] eqn:E; [|done]. intros [= <-].
  apply List.find_some in E as [Hin Hk]. cbn in Hk. by apply String.eqb_eq in Hk as ->.
Qed.

Lemma assoc_None {A} k (l : list (string * A)) : assoc k l = None ↔ ∀ x, ¬ In (k, x) l.
Proof.
  unfold assoc. destruct (List.find _ l) as [[k' y]|] eqn:E; cbn.
  - apply List.find_some in E as [Hin Hk]. cbn in Hk. apply String.eqb_eq in Hk as ->. split; [done|]. intros H. by destruct (H y).
  - split; [|done]. intros _ x Hin. pose proof (List.find_none _ _ E _ Hin) as Hx. cbn in Hx. by rewrite String.eqb_refl in Hx.
Qed.

(** The kinds of an option's parsed value. *)
Lemma ParseOption_kind o v x :
  ParseOption o v = inr x →
  (Kind o = OptionBool ∧ ∃ b, x = VBool b) ∨ (Kind o = OptionInt ∧ ∃ n, x = VInt n)
  ∨ (Kind o ≠ OptionBool ∧ Kind o ≠ OptionInt ∧ x = VString v).
Proof.
  unfold ParseOption. destruct (String.eqb_spec (Kind o) OptionBool) as [E|E].
  - destruct (parse_bool v); [|done]. intros [= <-]. left. eauto.
  - destruct (String.eqb_spec (Kind o) OptionInt) as [E'|E'].
    + destruct (atoi v); [|done]. intros [= <-]. right; left. eauto.
    + intros [= <-]. auto.
Qed.
