(* ===== verification/Template.v ===== *)
(** * Templates of launch and attach arguments

    src/internal/adapters/template.go: [${name}] references in a manifest's
    JSON, checked when the manifest is loaded and rendered for every launch.
    [scan_spec]: a text splits into literal text and references in exactly
    one way. [checked_text]: in a text that was checked no reference goes
    unseen when it is rendered. [Render_member]: what becomes of a member. *)

From S2P Require Import Prelude GoStrings Manifest.
From Stdlib Require Import Ascii Bool.

Open Scope Z_scope.

Definition VarProgram : string := "program".
Definition VarArgs : string := "args".
Definition VarCwd : string := "cwd".
Definition VarEnv : string := "env".
Definition VarEnvList : string := "envList".
Definition VarStopOnEntry : string := "stopOnEntry".
Definition VarRuntime : string := "runtime".
Definition VarPID : string := "pid".
Definition VarSocket : string := "socket".
Definition optPrefix : string := "opt.".
Definition OptVar (name : string) : string := optPrefix +:+ name.

Abbreviation Vars := (gmap string value).

Inductive varKind := kindNone | kindString | kindInt | kindBool | kindList | kindMap.
#[global] Instance varKind_eq_dec : EqDecision varKind.
Proof. solve_decision. Defined.

(** The kind of a variable, [kindNone] for one that is not there. *)
Abbreviation kinds := (gmap string varKind).
Definition kind_of (ks : kinds) (name : string) : varKind := default kindNone (ks !! name).

Definition option_kind (o : Option_) : varKind :=
  if Kind o =?s OptionBool then kindBool else if Kind o =?s OptionInt then kindInt else kindString.

Definition varKinds (m : Manifest) (attach : bool) : kinds :=
  let ks : kinds :=
    if attach then {[VarPID := kindInt]}
    else <[VarEnvList := kindList]> (<[VarStopOnEntry := kindBool]> (<[VarEnv := kindMap]>
           (<[VarCwd := kindString]> (<[VarArgs := kindList]> {[VarProgram := kindString]})))) in
  let ks := if ad_Runtime (mf_Adapter m) =?s RuntimePython then <[VarRuntime := kindString]> ks else ks in
  fold_left (fun ks x => <[OptVar x.1 := option_kind x.2]> ks) (mf_Options m) ks.

(** ** References *)

(** The pattern of a name: letters and digits after a letter, and maybe the
    same again after a dot. *)
Definition letter (c : ascii) : bool :=
  ((65 <=? byte_of c) && (byte_of c <=? 90)) || ((97 <=? byte_of c) && (byte_of c <=? 122)).
Definition alnum (c : ascii) : bool := letter c || is_digit c.
Definition alnum_name (s : string) : bool := match s with "" => false | String c t => letter c && all_bytes alnum t end.
Definition refPattern (s : string) : bool :=
  match cut_at "." s with
  | Some (a, b) => alnum_name a && alnum_name b
  | None => alnum_name s
  end.

(** Literal text, or a reference. *)
Record part := mkPart { pt_text : string; pt_ref : bool }.

(** The loop of [scan]; an error is its text. *)
Fixpoint scan_go (fuel : nat) (s : string) (parts : list part) : string + list part :=
  match index_str "${" s, fuel with
  | Some i, S n =>
    match index_byte "}" (sdrop i s) with
    | None => inl (quote s +:+ " has a '${' without a closing '}'")
    | Some e =>
      let name := stake (e - 2) (sdrop (i + 2) s) in
      if negb (refPattern name) then inl (quote s +:+ ": " +:+ quote name +:+ " is not a variable name")
      else
        let parts := if (0 <? i)%nat then parts ++ [mkPart (stake i s) false] else parts in
        scan_go n (sdrop (i + e + 1) s) (parts ++ [mkPart name true])
    end
  | _, _ => inr (if s =?s "" then parts else parts ++ [mkPart s false])
  end.
Definition scan (s : string) : string + list part := scan_go (String.length s) s [].

Definition exactRef (s : string) : option string :=
  match scan s with inr [mkPart name true] => Some name | _ => None end.

Definition hasVarRef (s name : string) : bool :=
  match scan s with
  | inl _ => false
  | inr parts => existsb (fun p => pt_ref p && (pt_text p =?s name)) parts
  end.

(** ** The check of a template *)

Definition unknownVar (name : string) : string :=
  if name =?s VarPID then "${pid} is only available in attach"
  else if name =?s VarRuntime then "${runtime} needs adapter.runtime python"
  else if has_prefix optPrefix name then "${" +:+ name +:+ "}: no such option"
  else "${" +:+ name +:+ "} is not a variable here".

Fixpoint check_parts (s : string) (exact : bool) (parts : list part) (ks : kinds) : option string :=
  match parts with
  | [] => None
  | p :: rest =>
    let k := kind_of ks (pt_text p) in
    if negb (pt_ref p) then check_parts s exact rest ks
    else if bool_decide (k = kindNone) then Some (unknownVar (pt_text p))
    else if negb exact && negb (bool_decide (k = kindString)) && negb (bool_decide (k = kindInt))
    then Some (quote s +:+ ": ${" +:+ pt_text p +:+ "} can only stand alone (it isn't a string or an integer)")
    else check_parts s exact rest ks
  end.
Definition checkString (s : string) (ks : kinds) : option string :=
  match scan s with
  | inl e => Some e
  | inr parts => check_parts s (match parts with [p] => pt_ref p | _ => false end) parts ks
  end.

Definition contains_ref (k : string) : bool := match index_str "${" k with Some _ => true | None => false end.

(** The first error of a walk. *)
Definition first_error {A} (f : A → option string) : list A → option string :=
  fix go l := match l with [] => None | x :: l => match f x with Some e => Some e | None => go l end end.

Fixpoint checkTemplate (ks : kinds) (v : value) : option string :=
  match v with
  | VObject members =>
    first_error (fun '(k, e) =>
      if contains_ref k then Some ("key " +:+ quote k +:+ ": references are only allowed in values")
      else checkTemplate ks e) members
  | VArray l => first_error (checkTemplate ks) l
  | VString s => checkString s ks
  | _ => None
  end.

(** ** Rendering *)

Definition is_set (v : value) : bool :=
  match v with
  | VString s => negb (s =?s "")
  | VStrings l => match l with [] => false | _ => true end
  | VStringMap m => match m with [] => false | _ => true end
  | _ => true
  end.
Definition lookup_var (vars : Vars) (name : string) : option value :=
  match vars !! name with Some v => if is_set v then Some v else None | None => None end.

Definition part_text (vars : Vars) (p : part) : string :=
  if negb (pt_ref p) then pt_text p
  else match vars !! pt_text p with Some (VString s) => s | Some (VInt n) => itoa n | _ => "" end.
Definition interpolate (s : string) (vars : Vars) : string :=
  match scan s with
  | inl _ => s
  | inr parts => String.concat "" (map (part_text vars) parts)
  end.

(** A list that is spliced into the array it is an element of. *)
Definition spliced (vars : Vars) (e : value) : option (list string) :=
  match e with
  | VString s =>
    match exactRef s with
    | Some name => match vars !! name with Some (VStrings l) => Some l | _ => None end
    | None => None
    end
  | _ => None
  end.

Definition member (k : string) (r : option value) : list (string * value) :=
  match r with Some x => [(k, x)] | None => [] end.
Fixpoint renderValue (vars : Vars) (v : value) : option value :=
  match v with
  | VObject members => Some (VObject (List.flat_map (fun '(k, e) => member k (renderValue vars e)) members))
  | VArray l =>
    Some (VArray (List.flat_map (fun e =>
      match spliced vars e with
      | Some xs => map VString xs
      | None => match renderValue vars e with Some r => [r] | None => [] end
      end) l))
  | VString s =>
    match exactRef s with
    | Some name => lookup_var vars name
    | None => Some (VString (interpolate s vars))
    end
  | _ => Some v
  end.
Definition Render (tmpl : list (string * value)) (vars : Vars) : list (string * value) :=
  List.flat_map (fun '(k, e) => member k (renderValue vars e)) tmpl.
Definition RenderArgs (args : list string) (vars : Vars) : list string := map (fun a => interpolate a vars) args.

(** ** Splitting *)

Definition print_part (p : part) : string := if pt_ref p then "${" +:+ pt_text p +:+ "}" else pt_text p.
Definition unparse (ps : list part) : string := String.concat "" (map print_part ps).

(** Parts as a text splits: no empty text, none with a reference in it, and
    no two texts in a row. *)
Fixpoint canonical (ps : list part) : Prop :=
  match ps with
  | [] => True
  | p :: rest =>
    (if pt_ref p then refPattern (pt_text p) = true
     else pt_text p ≠ ""%string ∧ index_str "${" (pt_text p) = None ∧ match rest with q :: _ => pt_ref q = true | [] => True end)
    ∧ canonical rest
  end.

Lemma concat_cons x l : String.concat "" (x :: l) = x +:+ String.concat "" l.
Proof. destruct l; cbn; [by rewrite string_app_nil_r|done]. Qed.
Lemma unparse_cons p ps : unparse (p :: ps) = print_part p +:+ unparse ps.
Proof. apply concat_cons. Qed.

Lemma refPattern_no_brace s : refPattern s = true → contains_byte "}" s = false.
Proof.
  assert (Hn : ∀ n, alnum_name n = true → contains_byte "}" n = false).
  { intros [|c t]; [done|]. cbn [alnum_name]. intros [Hc Ht]%andb_true_iff. apply (all_bytes_contains alnum); [|done].
    cbn. unfold alnum at 1. by rewrite Hc, Ht. }
  unfold refPattern. destruct (cut_at "." s) as [[a b]|] eqn:E; [|apply Hn].
  intros [Ha Hb]%andb_true_iff. apply cut_at_Some in E as [-> _]. rewrite contains_byte_app. cbn.
  by rewrite (Hn a Ha), (Hn b Hb).
Qed.

Lemma index_ref s t : index_str "${" s = None → index_str "${" (s +:+ "${" +:+ t) = Some (String.length s).
Proof.
  induction s as [|c s IH]; [done|]. cbn [index_str]. destruct (has_prefix "${" (String c s)) eqn:E; [done|].
  intros H. assert (Hs : index_str "${" s = None) by by destruct (index_str "${" s).
  change (String c s +:+ "${" +:+ t) with (String c (s +:+ "${" +:+ t)). cbn [index_str]. rewrite IH by done.
  assert (Hp : ∀ a p d u, has_prefix (String a p) (String d u) = Ascii.eqb a d && has_prefix p u) by done.
  rewrite Hp in *. destruct (Ascii.eqb "$" c); [|done]. cbn [andb] in *. destruct s as [|d s]; [done|].
  change (String d s +:+ "${" +:+ t) with (String d (s +:+ "${" +:+ t)). rewrite Hp in *. by destruct (Ascii.eqb "{" d).
Qed.

Lemma refPattern_ref name t :
  refPattern name = true → index_byte "}" ("${" +:+ name +:+ "}" +:+ t) = Some (String.length name + 2)%nat.
Proof.
  intros H%refPattern_no_brace. rewrite <- string_app_assoc. change ("}" +:+ t) with (String "}" t).
  rewrite index_byte_app; [rewrite string_app_length; cbn; f_equal; lia|]. by cbn.
Qed.

Lemma sdrop_all s t n : n = String.length s → sdrop n (s +:+ t) = t.
Proof. intros ->. apply sdrop_app. Qed.
Lemma stake_all s t n : n = String.length s → stake n (s +:+ t) = s.
Proof. intros ->. apply stake_app. Qed.

(** One round of the loop, on a text that starts as a canonical one does. *)
Lemma scan_go_ref n text name rest acc :
  index_str "${" text = None → refPattern name = true →
  scan_go (S n) (text +:+ "${" +:+ name +:+ "}" +:+ rest) acc
  = scan_go n rest ((if text =?s "" then acc else acc ++ [mkPart text false]) ++ [mkPart name true]).
Proof.
  intros Ht Hn. cbn [scan_go]. rewrite (index_ref text (name +:+ "}" +:+ rest) Ht). cbv zeta.
  rewrite sdrop_all, (refPattern_ref name rest Hn) by done.
  replace (stake (String.length name + 2 - 2) (sdrop (String.length text + 2) (text +:+ "${" +:+ name +:+ "}" +:+ rest))) with name.
  2:{ rewrite <- (string_app_assoc text). rewrite sdrop_all by (rewrite string_app_length; cbn; lia). symmetry. apply stake_all. lia. }
  rewrite Hn. cbn [negb]. rewrite stake_all by done.
  replace (sdrop (String.length text + (String.length name + 2) + 1) (text +:+ "${" +:+ name +:+ "}" +:+ rest)) with rest.
  2:{ rewrite <- !string_app_assoc. symmetry. apply sdrop_all. rewrite !string_app_length. cbn. lia. }
  by destruct text.
Qed.

Lemma scan_go_end n text acc :
  index_str "${" text = None → scan_go n text acc = inr (if text =?s "" then acc else acc ++ [mkPart text false]).
Proof. intros H. destruct n; cbn [scan_go]; by rewrite H. Qed.

Lemma index_nil : index_str "${" "" = None.
Proof. done. Qed.

Lemma canonical_scan n ps acc :
  canonical ps → (String.length (unparse ps) ≤ n)%nat → scan_go n (unparse ps) acc = inr (acc ++ ps).
Proof.
  revert ps acc. induction n as [n IH] using lt_wf_ind. intros ps acc Hc Hl.
  destruct ps as [|[t [|]] ps]; [|destruct Hc as [Hr Hc]|destruct Hc as [(Ht & Hi & Hnext) Hc]]; cbn [pt_text pt_ref] in *.
  - unfold unparse. cbn [map String.concat]. rewrite scan_go_end by done. cbn. by rewrite app_nil_r.
  - rewrite unparse_cons in *. cbn [print_part pt_ref pt_text] in *. rewrite !string_app_length in Hl. cbn in Hl.
    destruct n as [|n]; [lia|]. rewrite !string_app_assoc. rewrite (scan_go_ref n "" t (unparse ps) acc index_nil Hr : scan_go (S n) ("${" +:+ t +:+ "}" +:+ unparse ps) acc = _). change ("" =?s "") with true. cbv iota.
    rewrite IH by (lia || done). by rewrite <- app_assoc.
  - rewrite unparse_cons in *. cbn [print_part pt_ref pt_text] in *. rewrite !string_app_length in Hl.
    destruct ps as [|[u [|]] ps]; [| |done].
    + unfold unparse. cbn. rewrite string_app_nil_r, scan_go_end by done. by destruct t.
    + destruct Hc as [Hr Hc]. rewrite unparse_cons in *. cbn [print_part pt_ref pt_text] in *. rewrite !string_app_length in Hl. cbn in Hl.
      destruct n as [|n]; [lia|]. rewrite !string_app_assoc. rewrite (scan_go_ref n t u (unparse ps) acc Hi Hr).
      rewrite IH by (lia || done). destruct t; [done|]. cbn. by rewrite <- !app_assoc.
Qed.

(** Where a reference starts, the loop has split the text there. *)
Lemma scan_go_found n s acc i :
  index_str "${" s = Some i →
  (∃ err, scan_go (S n) s acc = inl err)
  ∨ ∃ name rest, s = stake i s +:+ "${" +:+ name +:+ "}" +:+ rest ∧ refPattern name = true
      ∧ index_str "${" (stake i s) = None.
Proof.
  intros Hi. pose proof (index_str_Some _ _ _ Hi) as [Hs _]. pose proof (index_str_before "${" s i ltac:(cbn; lia) Hi) as Hb.
  set (a := stake i s) in *. set (r := sdrop (i + String.length "${") s) in *.
  assert (Ha : String.length a = i). { apply index_str_Some in Hi as [_ Hl]. unfold a. rewrite stake_length. lia. }
  cbn [scan_go]. rewrite Hi. assert (Ed : sdrop i s = "${" +:+ r) by (rewrite Hs at 1; apply sdrop_all; done).
  rewrite Ed. assert (Er : sdrop (i + 2) s = r) by done.
  assert (Ee : index_byte "}" ("${" +:+ r) = (fun e => S (S e)) <$> index_byte "}" r).
  { cbn. by destruct (index_byte "}" r). }
  rewrite Ee. destruct (index_byte "}" r) as [e|] eqn:E; cbn [fmap option_fmap option_map]; [|left; by eexists].
  rewrite Er. replace (S (S e) - 2)%nat with e by lia. destruct (refPattern (stake e r)) eqn:Ep; [|left; by eexists].
  right. exists (stake e r), (sdrop (S e) r). split; [|done]. rewrite Hs at 1. do 2 f_equal. by apply index_byte_split.
Qed.

Lemma scan_canonical n s acc out :
  scan_go n s acc = inr out → (String.length s ≤ n)%nat → ∃ ps, out = acc ++ ps ∧ canonical ps ∧ unparse ps = s.
Proof.
  revert s acc. induction n as [|n IH]; intros s acc H Hl.
  - destruct s; [|cbn in Hl; lia]. cbn in H. injection H as <-. exists []. by rewrite app_nil_r.
  - destruct (index_str "${" s) as [i|] eqn:Ei.
    + destruct (scan_go_found n s acc i Ei) as [[err E]|(name & rest & Hs & Hn & Hb)]; [congruence|].
      rewrite Hs in H. rewrite scan_go_ref in H by done. rewrite Hs in Hl. rewrite !string_app_length in Hl. cbn in Hl.
      apply IH in H as (ps & -> & Hc & Hu); [|lia].
      exists ((if stake i s =?s "" then [] else [mkPart (stake i s) false]) ++ mkPart name true :: ps). split; [|split].
      * destruct (stake i s); cbn; by rewrite <- ?app_assoc.
      * destruct (stake i s) eqn:E; cbn; [done|]. split_and!; done.
      * rewrite Hs at 3. destruct (stake i s) eqn:E; cbn [String.eqb app]; rewrite !unparse_cons, Hu; cbn [print_part pt_ref pt_text].
        -- by rewrite !string_app_assoc.
        -- by rewrite !string_app_assoc.
    + rewrite scan_go_end in H by done. injection H as <-. destruct s as [|c s]; cbn [String.eqb].
      * exists []. by rewrite app_nil_r.
      * exists [mkPart (String c s) false]. split_and!; [done|done|]. unfold unparse. done.
Qed.

(** A text splits into the parts that make it up in exactly one way:
    [scan] gives parts exactly when they are canonical (no text empty, with a
    reference in it, or next to another; every reference a name) and print
    as the text, so it fails only on a text that no such parts make up. *)
Theorem scan_spec s ps : scan s = inr ps ↔ canonical ps ∧ unparse ps = s.
Proof.
  split.
  - intros H. by apply scan_canonical in H as (ps' & -> & Hc & Hu).
  - intros [Hc <-]. by apply canonical_scan.
Qed.

(** ** What a checked template renders to *)

Lemma first_error_None {A} (f : A → option string) l : first_error f l = None ↔ ∀ x, In x l → f x = None.
Proof.
  induction l as [|x l IH]; cbn; [split; [done|done]|]. destruct (f x) eqn:E.
  - split; [done|]. intros H. rewrite <- E. apply H. by left.
  - rewrite IH. split; [intros H y [<-|Hy]; auto|auto].
Qed.

(** Induction on a value, with the elements of arrays and objects. *)
Section value_nested.
Context (P : value → Prop).
Context (Hplain : ∀ v, (∀ l, v ≠ VArray l) → (∀ l, v ≠ VObject l) → P v).
Context (Harray : ∀ l, Forall P l → P (VArray l)) (Hobject : ∀ l, Forall (fun x => P x.2) l → P (VObject l)).
Fixpoint value_nested (v : value) : P v.
Proof.
  destruct v; try (by apply Hplain).
  - apply Harray. induction l as [|x l IH]; constructor; [apply value_nested|exact IH].
  - apply Hobject. induction members as [|x l IH]; constructor; [apply value_nested|exact IH].
Defined.
End value_nested.

(** The texts of a template, and its objects' keys. *)
Fixpoint texts_of (v : value) : list string :=
  match v with
  | VString s => [s]
  | VArray l => List.flat_map texts_of l
  | VObject members => List.flat_map (fun '(_, e) => texts_of e) members
  | _ => []
  end.
Fixpoint keys_of (v : value) : list string :=
  match v with
  | VArray l => List.flat_map keys_of l
  | VObject members => List.flat_map (fun '(k, e) => k :: keys_of e) members
  | _ => []
  end.

Lemma checkTemplate_parts ks v :
  checkTemplate ks v = None → (∀ s, In s (texts_of v) → checkString s ks = None) ∧ ∀ k, In k (keys_of v) → contains_ref k = false.
Proof.
  induction v as [v Ha Ho|l IH|l IH] using value_nested.
  - destruct v as [| | |s|l|l| | |]; cbn; try done; try naive_solver; exfalso; by eapply Ha || by eapply Ho.
  - cbn. rewrite first_error_None. intros H. rewrite List.Forall_forall in IH.
    split; intros s (x & Hx & Hs)%List.in_flat_map; by apply (IH x Hx (H x Hx)).
  - cbn. rewrite first_error_None. intros H. rewrite List.Forall_forall in IH.
    assert (Hm : ∀ k e, In (k, e) l → contains_ref k = false ∧ checkTemplate ks e = None).
    { intros k e Hin. specialize (H _ Hin). cbn in H. by destruct (contains_ref k). }
    split.
    + intros s ([k e] & Hx & Hs)%List.in_flat_map. by apply (IH _ Hx (proj2 (Hm k e Hx))).
    + intros s ([k e] & Hx & [<-|Hs])%List.in_flat_map; [by apply (Hm k e)|by apply (IH _ Hx (proj2 (Hm k e Hx)))].
Qed.

Lemma check_parts_None s exact ps ks :
  check_parts s exact ps ks = None ↔
  ∀ p, In p ps → pt_ref p = true → kind_of ks (pt_text p) ≠ kindNone
       ∧ (exact = false → kind_of ks (pt_text p) = kindString ∨ kind_of ks (pt_text p) = kindInt).
Proof.
  induction ps as [|p ps IH]; cbn [check_parts]; [done|].
  destruct (pt_ref p) eqn:Er; cbn [negb].
  2:{ rewrite IH. split; [intros H q [<-|Hq] Hr; [congruence|auto]|intros H q Hq; apply H; by right]. }
  case_bool_decide as Hk; [split; [done|intros H; by destruct (H p (or_introl eq_refl) Er)]|].
  destruct (negb exact && _ && _) eqn:E.
  - split; [done|]. rewrite !andb_true_iff, !negb_true_iff, !bool_decide_eq_false in E. destruct E as [[-> H1] H2].
    intros H. destruct (H p (or_introl eq_refl) Er) as [_ H3]. destruct (H3 eq_refl); done.
  - rewrite IH. split; [|intros H q Hq; apply H; by right]. intros H q [<-|Hq] Hr; [|by apply H]. split; [done|]. intros ->.
    cbn in E. rewrite andb_false_iff, !negb_false_iff, !bool_decide_eq_true in E. done.
Qed.

(** Values of the kinds a check went by. *)
Definition has_kind (k : varKind) (v : value) : bool :=
  match k, v with
  | kindString, VString _ | kindInt, VInt _ | kindBool, VBool _ | kindList, VStrings _ | kindMap, VStringMap _ => true
  | _, _ => false
  end.
Definition typed (ks : kinds) (vars : Vars) : Prop := ∀ x v, vars !! x = Some v → has_kind (kind_of ks x) v = true.

(** How a text renders: alone, a reference is the variable's value, or left
    out when that is not set; elsewhere every reference is to a text or an
    integer, and its place is taken by it. *)
Definition renders (ks : kinds) (vars : Vars) (s : string) : Prop :=
  ∃ ps, canonical ps ∧ unparse ps = s ∧ (∀ x, In (mkPart x true) ps → kind_of ks x ≠ kindNone)
    ∧ ((∃ x, ps = [mkPart x true] ∧ renderValue vars (VString s) = lookup_var vars x)
       ∨ ((∀ x, ps ≠ [mkPart x true])
          ∧ renderValue vars (VString s) = Some (VString (String.concat "" (map (part_text vars) ps)))
          ∧ ∀ x, In (mkPart x true) ps → vars !! x = None ∨ (∃ t, vars !! x = Some (VString t)) ∨ ∃ n, vars !! x = Some (VInt n))).

Lemma checked_string ks vars s : checkString s ks = None → typed ks vars → renders ks vars s.
Proof.
  unfold checkString. destruct (scan s) as [e|ps] eqn:E; [done|]. rewrite check_parts_None. intros H Ht.
  destruct (scan_canonical _ s [] ps E (le_n _)) as (ps' & -> & Hc & Hu). cbn [app] in *. exists ps'. rename ps' into ps. split_and!; [done|done|intros x Hx; by apply (H _ Hx)|].
  unfold renderValue, exactRef, interpolate. rewrite E. destruct ps as [|[x [|]] [|q ps]].
  2:{ left. by exists x. }
  all: right; split; [intros y [=]|]; split; [done|]; intros y Hy; destruct (H _ Hy eq_refl) as [_ Hk];
    specialize (Hk eq_refl); destruct Hk as [Hk|Hk];
    (destruct (vars !! y) as [v|] eqn:Ev; [|by left]); specialize (Ht y v Ev); cbn [pt_text] in Hk; rewrite Hk in Ht; destruct v; try done; eauto.
Qed.

(** In a template that passed the check against the kinds of the
    variables, every text renders in full: it splits into text and references, every
    reference is to a known variable, and each gives the variable's value or,
    in text, its characters; no other text and no key has a reference. *)
Theorem checked_template ks vars tmpl :
  checkTemplate ks (VObject tmpl) = None → typed ks vars →
  (∀ s, In s (texts_of (VObject tmpl)) → renders ks vars s) ∧ ∀ k, In k (keys_of (VObject tmpl)) → contains_ref k = false.
Proof.
  intros H Ht. apply checkTemplate_parts in H as [H1 H2]. split; [|done]. intros s Hs. by apply checked_string, Ht; apply H1.
Qed.

(** What becomes of a member of an object: its value rendered, or no member
    when that is a reference to a variable that is not set. *)
Lemma Render_member tmpl vars k :
  List.NoDup (map fst tmpl) → assoc k (Render tmpl vars) = (e ← assoc k tmpl; renderValue vars e).
Proof.
  assert (Ha : ∀ {A} k' (x : A) l, assoc k ((k', x) :: l) = if k' =?s k then Some x else assoc k l).
  { intros A k' x l. unfold assoc. cbn. by destruct (k' =?s k). }
  induction tmpl as [|[k' e] tmpl IH]; [done|]. intros [Hni Hnd]%List.NoDup_cons_iff. rewrite Ha. unfold Render in *. cbn [List.flat_map].
  destruct (String.eqb_spec k' k) as [->|Hne].
  - cbn. destruct (renderValue vars e) as [r|]; cbn [member app]; [by rewrite Ha, String.eqb_refl|].
    rewrite (IH Hnd). destruct (assoc k tmpl) as [x|] eqn:E; [|done]. apply assoc_In in E. destruct Hni. by apply (List.in_map fst) in E.
  - destruct (renderValue vars e) as [r|]; cbn [member app]; [|by apply IH]. rewrite Ha. apply String.eqb_neq in Hne as ->. by apply IH.
Qed.
