(* ===== verification/Validate.v ===== *)
(** * The checks of a manifest

    src/internal/adapters/validate.go. An error is its text, [None] no error;
    maps are walked in the order they are listed. Parsing a URL and checking
    a glob are the standard library's and parameters. *)

From S2P Require Import Prelude GoStrings GoPath Manifest Template.
From Stdlib Require Import Ascii Bool.
Open Scope Z_scope.

Definition maxDescription : Z := 120.
Definition archiveZip : string := "zip".
Definition archiveTarGz : string := "tar.gz".

(** ** Patterns *)

Definition lower_alpha (c : ascii) : bool := (97 <=? byte_of c) && (byte_of c <=? 122).
Definition upper_alpha (c : ascii) : bool := (65 <=? byte_of c) && (byte_of c <=? 90).
Definition one_of (set : string) (c : ascii) : bool := contains_byte c set.

(** A first character, then others. *)
Definition starts_then (first rest : ascii → bool) (s : string) : bool :=
  match s with "" => false | String c t => first c && all_bytes rest t end.

Definition namePattern (s : string) : bool :=
  starts_then lower_alpha (fun c => lower_alpha c || is_digit c || (c =? "-")%char) s && (slen s <=? 32).
Definition versionPattern (s : string) : bool :=
  all_bytes (fun c => alnum c || one_of "._+-" c) s && (1 <=? slen s) && (slen s <=? 40).
Definition envPattern : string → bool := starts_then upper_alpha (fun c => upper_alpha c || is_digit c || (c =? "_")%char).
Definition wordPattern : string → bool :=
  starts_then (fun c => letter c || (c =? "_")%char) (fun c => alnum c || (c =? "_")%char).
Definition envNamePattern : string → bool := wordPattern.
Definition optionPattern : string → bool := alnum_name.
Definition modulePattern (s : string) : bool := forallb wordPattern (split_on "." s).
Definition minVerPattern (s : string) : bool :=
  match cut_at "." s with
  | Some (a, b) => negb (a =?s "") && all_bytes is_digit a && negb (b =?s "") && all_bytes is_digit b
  | None => false
  end.
Definition sha256Pattern (s : string) : bool :=
  (slen s =? 64) && all_bytes (fun c => is_digit c || ((97 <=? byte_of c) && (byte_of c <=? 102))) s.
Definition extensionPattern (s : string) : bool :=
  match s with String c t => (c =? ".")%char && negb (t =?s "") && all_bytes alnum t | "" => false end.

Definition contains_any (set s : string) : bool := negb (all_bytes (fun c => negb (one_of set c)) s).

Definition fieldError (field msg : string) : option string := Some (field +:+ ": " +:+ msg).
(** An error with its field before it. *)
Definition in_field (field : string) (e : option string) : option string := (fun e => field +:+ ": " +:+ e) <$> e.

(** The first error of several checks. *)
Definition checks : list (option string) → option string := first_error id.

(** [path.Ext], and whether it is ".dll" whatever the case. *)
Fixpoint ext_go (s acc : string) : string :=
  match s with
  | "" => acc
  | String c t => ext_go t (if (c =? "/")%char then "" else if (c =? ".")%char then s else acc)
  end.
Definition Ext (s : string) : string := ext_go s "".
Definition lower_ascii (c : ascii) : ascii := if upper_alpha c then ascii_of (byte_of c + 32) else c.
Fixpoint map_bytes (f : ascii → ascii) (s : string) : string :=
  match s with "" => "" | String c t => String (f c) (map_bytes f t) end.

Section validate.
Context (parseURL : string → string + (string * string)) (badGlob : string → bool).

Definition checkHTTPS (s : string) : option string :=
  match parseURL s with
  | inl e => Some (quote s +:+ " is not a URL: " +:+ e)
  | inr (scheme, host) =>
    if negb (scheme =?s "https") || (host =?s "") then Some (quote s +:+ " must be an https URL") else None
  end.

Definition validateTop (m : Manifest) : option string :=
  if negb (mf_Schema m =? SchemaVersion)
  then fieldError "schema" (itoa (mf_Schema m) +:+ " is not supported (this eyedbg reads schema " +:+ itoa SchemaVersion +:+ ")")
  else if negb (namePattern (mf_Name m))
  then fieldError "name" (quote (mf_Name m) +:+ " must be lowercase letters, digits and '-', starting with a letter (at most 32)")
  else if mf_Description m =?s "" then fieldError "description" "is required"
  else if maxDescription <? rune_count (mf_Description m)
  then fieldError "description" ("is longer than " +:+ itoa maxDescription +:+ " characters")
  else if negb (versionPattern (mf_Version m))
  then fieldError "version" (quote (mf_Version m) +:+ " must be 1-40 letters, digits and ._+-")
  else if negb (mf_Homepage m =?s "") then in_field "homepage" (checkHTTPS (mf_Homepage m))
  else None.

Definition checkAdapterArgs (a : AdapterSpec) : option string :=
  if negb (ad_Transport a =?s TransportConnect) then
    first_error (fun arg => if hasVarRef arg VarSocket then fieldError "adapter.args" (quote arg +:+ " needs transport connect") else None)
      (ad_Args a)
  else
    match first_error (fun arg => in_field "adapter.args" (checkString arg {[VarSocket := kindString]})) (ad_Args a) with
    | Some e => Some e
    | None =>
      if existsb (fun arg => hasVarRef arg VarSocket) (ad_Args a) then None
      else fieldError "adapter.args" "connect needs ${socket} in at least one argument"
    end.

Definition validateTransport (a : AdapterSpec) (builtin : bool) : option string :=
  if negb (ad_Transport a =?s "") && negb (ad_Transport a =?s TransportStdio) && negb (ad_Transport a =?s TransportConnect)
  then fieldError "adapter.transport" (quote (ad_Transport a) +:+ " must be stdio or connect (" +:+ dquote +:+ dquote +:+ " for stdio)")
  else if (ad_Transport a =?s TransportConnect) && negb (ad_Runtime a =?s RuntimeNative)
  then fieldError "adapter.transport" "connect is only for a native adapter"
  else if (ad_Transport a =?s TransportConnect) && builtin
  then fieldError "adapter.transport" "connect is not supported for a built-in language's driver"
  else checkAdapterArgs a.

Definition checkNativeEntry (entry : string) : option string :=
  if is_abs entry then None
  else if contains_any "/\" entry || (entry =?s ".") || (entry =?s "..")
  then Some (quote entry +:+ " must be an executable name or an absolute path")
  else None.

Definition checkRelative (p : string) : option string :=
  if (p =?s "") || contains_any "\:" p || is_abs p || negb (Clean p =?s p) || (p =?s "..") || has_prefix "../" p
  then Some (quote p +:+ " must be a relative slash path without '..'")
  else None.

Definition validatePythonAdapter (m : Manifest) : option string :=
  let a := mf_Adapter m in
  if negb (ad_Env a =?s "") || ad_Path a || match ad_VersionArgs a with [] => false | _ => true end
  then fieldError "adapter" "env, path and versionArgs are only for native adapters (python has its own)"
  else match mf_Python m with
       | None => fieldError "python" "is required for a python adapter"
       | Some _ => in_field "adapter.entry" (checkRelative (ad_Entry a))
       end.

Definition validateDotnetAdapter (m : Manifest) : option string :=
  let a := mf_Adapter m in
  if ad_Path a || match ad_VersionArgs a with [] => false | _ => true end
  then fieldError "adapter" "path and versionArgs are only for native adapters"
  else if match mf_Dotnet m with None => true | Some _ => false end then fieldError "dotnet" "is required for a dotnet adapter"
  else if match mf_Language m with Some l => negb (ln_Builtin l) | None => false end
  then fieldError "adapter.runtime" "dotnet is only for an adapter the .NET driver runs (no language, or a built-in one)"
  else if negb (ad_Env a =?s "") && negb (envPattern (ad_Env a))
  then fieldError "adapter.env" (quote (ad_Env a) +:+ " must be an upper-case environment variable name")
  else checks [in_field "adapter.entry" (checkRelative (ad_Entry a));
               if map_bytes lower_ascii (Ext (ad_Entry a)) =?s ".dll" then None
               else fieldError "adapter.entry" (quote (ad_Entry a) +:+ " must be the adapter's .dll")].

Definition validateAdapter (m : Manifest) : option string :=
  let a := mf_Adapter m in
  match validateTransport a (Builtin m) with
  | Some e => Some e
  | None =>
    if ad_ID a =?s "" then fieldError "adapter.id" "is required"
    else if negb (ad_Runtime a =?s RuntimeNative) && negb (ad_Runtime a =?s RuntimePython) && negb (ad_Runtime a =?s RuntimeDotnet)
    then fieldError "adapter.runtime" (quote (ad_Runtime a) +:+ " is not a runtime (" +:+ dquote +:+ dquote +:+ " for an executable, python or dotnet)")
    else if ad_Entry a =?s "" then fieldError "adapter.entry" "is required"
    else
      match first_error (fun x => if envNamePattern (fst x) then None
                                  else fieldError "adapter.environment" (quote (fst x) +:+ " is not an environment variable name"))
              (ad_Environment a) with
      | Some e => Some e
      | None =>
        if ad_Runtime a =?s RuntimePython then validatePythonAdapter m
        else if ad_Runtime a =?s RuntimeDotnet then validateDotnetAdapter m
        else checks [in_field "adapter.entry" (checkNativeEntry (ad_Entry a));
                     if negb (ad_Env a =?s "") && negb (envPattern (ad_Env a))
                     then fieldError "adapter.env" (quote (ad_Env a) +:+ " must be an upper-case environment variable name")
                     else None]
      end
  end.

Definition checkCommands (cmds : list (list string)) : option string :=
  match cmds with
  | [] => Some "at least one command is required"
  | _ => first_error (fun c => match c with [] => Some "a command is empty" | x :: _ => checkNativeEntry x end) cmds
  end.

Definition validatePythonLookup (m : Manifest) (py : Python) : option string :=
  checks [
    if negb (py_Option py =?s "")
       && match assoc (py_Option py) (mf_Options m) with Some o => negb (Kind o =?s OptionString) | None => true end
    then fieldError "python.option" (quote (py_Option py) +:+ " must name a declared string option") else None;
    first_error (fun v => if contains_any "/\" v || (v =?s "") || (v =?s ".") || (v =?s "..")
                          then fieldError "python.venvs" (quote v +:+ " must be a directory name") else None) (py_Venvs py)].

Definition validatePython (m : Manifest) : option string :=
  match mf_Python m with
  | None => None
  | Some py =>
    if negb (ad_Runtime (mf_Adapter m) =?s RuntimePython) then fieldError "python" "is only for adapter.runtime python"
    else
      match in_field "python.commands" (checkCommands (py_Commands py)) with
      | Some e => Some e
      | None =>
        if negb (py_Env py =?s "") && negb (envPattern (py_Env py))
        then fieldError "python.env" (quote (py_Env py) +:+ " must be an upper-case environment variable name")
        else if negb (py_MinVersion py =?s "") && negb (minVerPattern (py_MinVersion py))
        then fieldError "python.minVersion" (quote (py_MinVersion py) +:+ " must be X.Y")
        else if negb (modulePattern (py_Module py))
        then fieldError "python.module" (quote (py_Module py) +:+ " must be a Python import name")
        else validatePythonLookup m py
      end
  end.

Definition validateDotnet (m : Manifest) : option string :=
  match mf_Dotnet m with
  | None => None
  | Some minRuntime =>
    if negb (ad_Runtime (mf_Adapter m) =?s RuntimeDotnet) then fieldError "dotnet" "is only for adapter.runtime dotnet"
    else if negb (minVerPattern minRuntime) then fieldError "dotnet.minRuntime" (quote minRuntime +:+ " must be X.Y")
    else None
  end.

Definition validPlatform (key : string) : bool :=
  (key =?s "*")
  || match cut_at "/" key with
     | Some (goos, goarch) =>
       bool_decide (goos ∈ ["linux"; "darwin"; "windows"]%string) && bool_decide (goarch ∈ ["amd64"; "arm64"]%string)
     | None => false
     end.

Definition checkDownload (d : Download) : option string :=
  checks [
    in_field "url" (checkHTTPS (dl_URL d));
    if negb (slen (dl_SHA256 d) =? 64) || negb (sha256Pattern (dl_SHA256 d))
    then Some ("sha256 " +:+ quote (dl_SHA256 d) +:+ " must be 64 lowercase hex digits")
    else if negb (dl_Archive d =?s archiveZip) && negb (dl_Archive d =?s archiveTarGz)
    then Some ("archive " +:+ quote (dl_Archive d) +:+ " must be zip or tar.gz")
    else if dl_Size d <? 0 then Some ("size " +:+ itoa (dl_Size d) +:+ " is negative")
    else None;
    if dl_Root d =?s "" then None else in_field "root" (checkRelative (dl_Root d))].

Definition validateInstall (m : Manifest) : option string :=
  match mf_Install m with
  | None => None
  | Some [] => fieldError "install.downloads" "at least one download is required"
  | Some downloads =>
    first_error (fun '(key, d) =>
      let field := "install.downloads[" +:+ key +:+ "]" in
      if negb (validPlatform key)
      then fieldError field ("the key must be " +:+ dquote +:+ "*" +:+ dquote +:+ " or OS/ARCH with OS linux, darwin or windows and ARCH amd64 or arm64")
      else in_field field (checkDownload d)) downloads
  end.

Definition validateDetection (l : Language) : option string :=
  checks [
    first_error (fun e => if extensionPattern e then None
                          else fieldError "language.extensions" (quote e +:+ " must be like " +:+ quote ".py")) (ln_Extensions l);
    first_error (fun g => if badGlob g || (g =?s "") || contains_any "/\" g
                          then fieldError "language.markers" (quote g +:+ " must be a file name or glob") else None) (ln_Markers l)].

Definition is_some {A} (o : option A) : bool := match o with Some _ => true | None => false end.
Definition validateLanguage (m : Manifest) : option string :=
  let generic := is_some (mf_Launch m) || is_some (mf_Attach m) || match mf_Options m with [] => false | _ => true end
                 || is_some (mf_Exceptions m) || is_some (mf_EvalGuard m) in
  match mf_Language m with
  | None => if generic then fieldError "language" "is required with options, launch, attach, exceptions or evalGuard" else None
  | Some l =>
    if negb (namePattern (ln_Name l))
    then fieldError "language.name" (quote (ln_Name l) +:+ " must be lowercase letters, digits and '-', starting with a letter")
    else if ln_Builtin l && generic
    then fieldError "language.builtin" "a built-in language's driver is Go code: drop options, launch, attach, exceptions and evalGuard"
    else if negb (ln_Builtin l) && negb (is_some (mf_Launch m))
    then fieldError "launch" "is required for a language without a built-in driver"
    else validateDetection l
  end.

Definition validateOption (name : string) (o : Option_) : option string :=
  let field := "options." +:+ name in
  if negb (optionPattern name)
  then fieldError "options" (quote name +:+ " must be letters and digits, starting with a letter")
  else if negb (Kind o =?s OptionString) && negb (Kind o =?s OptionBool) && negb (Kind o =?s OptionInt)
  then fieldError (field +:+ ".type") (quote (op_Type o) +:+ " must be string, bool or int")
  else if op_Help o =?s "" then fieldError (field +:+ ".help") "is required"
  else if op_Default o =?s "" then None
  else match ParseOption o (op_Default o) with
       | inl e => fieldError (field +:+ ".default") e
       | inr _ => None
       end.
Definition validateOptions (m : Manifest) : option string := first_error (fun '(name, o) => validateOption name o) (mf_Options m).

Definition validateTemplate (m : Manifest) (field : string) (t : Template) (attach : bool) : option string :=
  let ks := varKinds m attach in
  match tm_Arguments t with
  | [] => fieldError (field +:+ ".arguments") "is required"
  | _ =>
    checks [
      first_error (fun r => if negb (r =?s VarProgram) && (negb (has_prefix optPrefix r) || bool_decide (kind_of ks r = kindNone))
                            then fieldError (field +:+ ".require") (quote r +:+ " must be program or a declared opt.NAME") else None)
        (tm_Require t);
      in_field (field +:+ ".arguments") (checkTemplate ks (VObject (tm_Arguments t)));
      match tm_Terminal t with
      | None => None
      | Some terminal =>
        if attach then fieldError (field +:+ ".terminal") "is only for launch"
        else match terminal with
             | [] => fieldError (field +:+ ".terminal") "must set at least one argument"
             | _ => in_field (field +:+ ".terminal") (checkTemplate ks (VObject terminal))
             end
      end]
  end.

Definition validateTemplates (m : Manifest) : option string :=
  checks [
    match mf_Launch m with
    | None => None
    | Some t =>
      checks [validateTemplate m "launch" t false;
              match tm_Require t with [] => fieldError "launch.require" "name at least one input (program or opt.NAME)" | _ => None end]
    end;
    match mf_Attach m with
    | None => None
    | Some t =>
      match tm_Require t with
      | _ :: _ => fieldError "attach.require" "is only for launch"
      | [] => validateTemplate m "attach" t true
      end
    end].

Definition validateExceptions (m : Manifest) : option string :=
  first_error (fun '(mode, filters) =>
    if negb (mode =?s "all") && negb (mode =?s "uncaught")
    then fieldError "exceptions" (quote mode +:+ " must be all or uncaught (none sets no filters)")
    else if match filters with [] => true | _ => bool_decide (""%string ∈ filters) end
    then fieldError ("exceptions." +:+ mode) "must list at least one filter id"
    else None) (default [] (mf_Exceptions m)).

Definition assignOpChars : string := "=<>!:+-*/%&|^~@".
Definition validateEvalGuard (m : Manifest) : option string :=
  match mf_EvalGuard m with
  | None => None
  | Some g =>
    let words field := first_error (fun w => if wordPattern w then None else fieldError ("evalGuard." +:+ field) (quote w +:+ " must be a word")) in
    checks [
      first_error (fun q => if rune_count q =? 1 then None else fieldError "evalGuard.quotes" (quote q +:+ " must be one character")) (Quotes g);
      words "interpolatedPrefixes" (InterpolatedPrefixes g); words "nonCallWords" (NonCallWords g); words "safeCalls" (SafeCalls g);
      first_error (fun op => if (op =?s "") || negb (all_bytes (one_of assignOpChars) op)
                             then fieldError "evalGuard.assignOps" (quote op +:+ " must be made of " +:+ assignOpChars) else None) (AssignOps g)]
  end.

Definition validate (m : Manifest) : option string :=
  checks (map (fun check => check m)
    [validateTop; validateAdapter; validatePython; validateDotnet; validateInstall; validateLanguage; validateOptions;
     validateTemplates; validateExceptions; validateEvalGuard]).
End validate.

(** * What a manifest that passed its checks promises

    To the generic driver, which reads manifests without checking them again:
    that an adapter that must dial a socket is told which
    ([connect_socket]), and that an adapter's entry is inside the directory
    it is looked for in ([relative_inside]). *)

Open Scope Z_scope.

Lemma checks_None l : checks l = None ↔ ∀ x, In x l → x = None.
Proof. apply (first_error_None id). Qed.
Lemma checks_cons x l : checks (x :: l) = None ↔ x = None ∧ checks l = None.
Proof. unfold checks. cbn. unfold id at 1. destruct x; naive_solver. Qed.
Lemma in_field_None f e : in_field f e = None ↔ e = None.
Proof. unfold in_field. destruct e; cbn; naive_solver. Qed.

Section valid.
Context (parseURL : string → string + (string * string)) (badGlob : string → bool).
Local Abbreviation validate := (validate parseURL badGlob).

Lemma validate_all m :
  validate m = None →
  validateTop parseURL m = None ∧ validateAdapter m = None ∧ validatePython m = None ∧ validateDotnet m = None
  ∧ validateInstall parseURL m = None ∧ validateLanguage badGlob m = None ∧ validateOptions m = None
  ∧ validateTemplates m = None ∧ validateExceptions m = None ∧ validateEvalGuard m = None.
Proof. unfold Validate.validate. cbn [map]. rewrite !checks_cons. tauto. Qed.

(** ** The socket an adapter dials *)

Definition has_text (t s : string) : Prop := ∃ x y, s = x +:+ t +:+ y.

Lemma interpolate_socket arg path :
  hasVarRef arg VarSocket = true → has_text path (interpolate arg {[VarSocket := VString path]}).
Proof.
  unfold hasVarRef, interpolate. destruct (scan arg) as [e|ps]; [done|].
  intros ([t [|]] & Hin & E)%existsb_exists; [|done]. cbn [pt_ref pt_text andb] in E. apply String.eqb_eq in E as ->.
  induction ps as [|p ps IH]; [done|]. cbn [map]. rewrite concat_cons. destruct Hin as [->|Hin].
  - exists ""%string, (String.concat "" (map (part_text {[VarSocket := VString path]}) ps)).
    unfold part_text at 1. cbn [pt_ref pt_text negb]. by rewrite lookup_singleton_eq.
  - destruct (IH Hin) as (x & y & ->). exists (part_text {[VarSocket := VString path]} p +:+ x), y. by rewrite !string_app_assoc.
Qed.

Lemma socket_kind x : kind_of {[VarSocket := kindString]} x ≠ kindNone → x = VarSocket.
Proof.
  unfold kind_of. destruct (decide (x = VarSocket)) as [|Hne]; [done|]. intros H. exfalso. apply H. by rewrite lookup_singleton_ne.
Qed.

Lemma checkAdapterArgs_socket a path :
  ad_Transport a = TransportConnect → checkAdapterArgs a = None →
  (∀ arg, In arg (ad_Args a) → ∃ ps, scan arg = inr ps ∧ ∀ x, In (mkPart x true) ps → x = VarSocket)
  ∧ ∃ arg, In arg (RenderArgs (ad_Args a) {[VarSocket := VString path]}) ∧ has_text path arg.
Proof.
  intros Ht. unfold checkAdapterArgs. rewrite Ht, String.eqb_refl. cbn [negb].
  destruct (first_error _ _) eqn:E; [done|]. rewrite first_error_None in E.
  destruct (existsb _ _) eqn:Ex; [|done]. intros _. split.
  - intros arg Hin. specialize (E arg Hin). rewrite in_field_None in E. unfold checkString in E.
    destruct (scan arg) as [e|ps]; [done|]. exists ps. split; [done|]. intros x Hx.
    rewrite check_parts_None in E. apply socket_kind, (E (mkPart x true) Hx eq_refl).
  - apply existsb_exists in Ex as (arg & Hin & Hr). exists (interpolate arg {[VarSocket := VString path]}). split.
    + unfold RenderArgs. by apply (List.in_map (fun a => interpolate a _)).
    + by apply interpolate_socket.
Qed.

(** An adapter that passed the checks and dials in (the transport
    [connect]) is an executable that the generic driver runs, and its
    arguments rendered for a socket name that socket, and refer to nothing
    else. *)
Theorem connect_socket m path :
  validate m = None → ad_Transport (mf_Adapter m) = TransportConnect →
  ad_Runtime (mf_Adapter m) = RuntimeNative ∧ Builtin m = false
  ∧ (∀ arg, In arg (ad_Args (mf_Adapter m)) → ∃ ps, scan arg = inr ps ∧ ∀ x, In (mkPart x true) ps → x = VarSocket)
  ∧ ∃ arg, In arg (RenderArgs (ad_Args (mf_Adapter m)) {[VarSocket := VString path]}) ∧ has_text path arg.
Proof.
  intros (_ & Ha & _)%validate_all Ht. unfold validateAdapter in Ha. cbv zeta in Ha.
  destruct (validateTransport _ _) eqn:E; [done|]. unfold validateTransport in E. rewrite Ht in E.
  change ((TransportConnect =?s "")) with false in E. change ((TransportConnect =?s TransportStdio)) with false in E.
  rewrite String.eqb_refl in E. cbn [negb andb] in E.
  destruct (String.eqb_spec (ad_Runtime (mf_Adapter m)) RuntimeNative) as [Hr|]; [|done]. cbn [negb] in E.
  destruct (Builtin m); [done|]. split; [done|]. split; [done|]. by apply checkAdapterArgs_socket.
Qed.

End valid.

(** ** Relative paths *)

(** A path that passed: the directory itself, or ordinary elements. *)
Lemma relative_plain p :
  checkRelative p = None → p = "."%string ∨ ∃ es, es ≠ [] ∧ Forall (fun x => plain_elem x = true) es ∧ p = join "/" es.
Proof.
  unfold checkRelative. destruct (_ || _) eqn:E; [done|]. intros _. rewrite !orb_false_iff in E.
  destruct E as [[[[[E1 _] Ea] Ec%negb_false_iff%String.eqb_eq] Edd%String.eqb_neq] Ep]. by apply clean_relative.
Qed.

(** A relative path that passed, looked for in a directory, is that
    directory or something in it: no element of it leads out. *)
Theorem relative_inside p dir :
  checkRelative p = None → Forall (fun x => plain_elem x = true) dir →
  ∃ es, Forall (fun x => plain_elem x = true) es ∧ Join ("/" +:+ join "/" dir) p = "/" +:+ join "/" (dir ++ es).
Proof.
  intros [->|(es & Hne & Hes & ->)]%relative_plain Hd; [|exists es; split; [done|by apply Join_rooted]].
  exists []. split; [done|]. rewrite app_nil_r. unfold Join.
  destruct (String.eqb_spec ("/" +:+ join "/" dir) ""); [done|]. cbn [String.eqb].
  set (p := (("/" +:+ join "/" dir) +:+ "/" +:+ ".")%string). change (Clean p = "/" +:+ join "/" dir).
  rewrite (Clean_rooted p) by done. do 2 f_equal. unfold elems, p. cbn [is_abs].
  destruct dir as [|d dir]; [done|].
  change (split_on slash _) with (""%string :: split_on slash (join "/" (d :: dir) +:+ String slash ".")).
  rewrite (split_on_join_app slash) by (done || by apply plain_no_slash).
  change (fold_left (clean_step (is_abs _)) _ _) with (fold_left (clean_step true) ((d :: dir) ++ ["."%string]) []).
  rewrite fold_left_app, (fold_clean_plain true (d :: dir)), app_nil_r by done. apply rev_involutive.
Qed.

(** ** A manifest that dials in *)

Definition any_url (s : string) : string + (string * string) := inr ("https", "host")%string.
Definition any_glob (s : string) : bool := false.
Definition go_manifest : Manifest :=
  mkManifest 1 "delve" "Go's debugger" "https://go.dev" "1.26.0"
    (mkAdapter "go" "connect" "" "dlv" ["dap"; "--client-addr=unix:${socket}"] [] "EYEDBG_DLV" true ["version"])
    None None (Some [("linux/amd64", mkDownload "https://go.dev/dlv" (join "" (repeat "ab" 32)) "zip" "dlv/bin" 0)])
    (Some (mkLanguage "go" false [".go"] ["go.mod"])) [("mode", mkOption "" "debug" "How to build"); ("depth", mkOption "int" "64" "How deep")]
    (Some (mkTemplate ["program"; "opt.mode"]
             [("program", VString "${program}"); ("mode", VString "${opt.mode}"); ("depth", VString "${opt.depth}");
              ("args", VArray [VString "--"; VString "${args}"]); ("cwd", VString "${cwd}"); ("title", VString "run ${program}")] None))
    (Some (mkTemplate [] [("processId", VString "${pid}")] None)) "" (Some [("uncaught", ["unrecovered-panic"])])
    (Some (mkEvalGuard ["'"] [] ["if"] ["len"] ["="])) SourceBundled "" ""%string.

Lemma go_manifest_valid : validate any_url any_glob go_manifest = None.
Proof. vm_compute. reflexivity. Qed.

Lemma connect_socket_witness : ∃ arg,
  In arg (RenderArgs (ad_Args (mf_Adapter go_manifest)) {[VarSocket := VString "/tmp/x/s"]}) ∧ has_text "/tmp/x/s" arg.
Proof.
  destruct (connect_socket any_url any_glob go_manifest "/tmp/x/s" go_manifest_valid eq_refl) as (_ & _ & _ & H). exact H.
Defined.

Lemma relative_inside_witness : ∃ es, Forall (fun x => plain_elem x = true) es ∧ Join "/data/adapters" "dlv/bin" = "/" +:+ join "/" (["data"; "adapters"]%string ++ es).
Proof. apply (relative_inside "dlv/bin" ["data"; "adapters"]%string); [vm_compute; reflexivity|]. repeat constructor. Defined.
