(* ===== verification/Guard.v ===== *)
(** * What an expression would change: the generic driver's check

    src/drivers/generic/guard.go: a scan of an expression by the words and
    operators a manifest lists (its evalGuard). The expression is its runes;
    the scanner's place is the runes that are left. [check_spec] says what
    the scan finds in terms of the expression's tokens. *)

From S2P Require Import Prelude GoStrings Manifest.
From Stdlib Require Import Ascii Bool.
Open Scope Z_scope.

Definition opChars : string := "=<>!:+-*/%&|^~@".
(** [strings.ContainsRune] *)
Definition in_runes (s : string) (r : Z) : bool := bool_decide (r ∈ runes s).

Record guard := mkGuard {
  quotes : string; prefixes : list string; nonCall : list string; safe : list string; assign : list string }.

Inductive tokenKind := tokOther | tokName | tokCloser.
#[global] Instance tokenKind_eq_dec : EqDecision tokenKind.
Proof. solve_decision. Defined.

(** The scanner: the runes left, and what came before them: the kind of the
    last token, the last name and whether it followed a dot, and the last
    rune that was no space (0: none yet). *)
Record scanner := mkScanner { rs : list Z; prev : tokenKind; name : string; dotted : bool; last_rune : Z }.
#[global] Instance eta_scanner : Eta scanner := fun s => mkScanner (rs s) (prev s) (name s) (dotted s) (last_rune s).

Definition unterminated : string := "use an unterminated string (the rest can't be checked)".
Definition interpolated : string := "use an interpolated string (it can run code)".

(** Runes outside ASCII start identifiers, so the tables of letters and
    digits are asked about ASCII only. *)
Definition ascii_letter (r : Z) : bool := ((65 <=? r) && (r <=? 90)) || ((97 <=? r) && (r <=? 122)).
Definition digit (r : Z) : bool := (48 <=? r) && (r <=? 57).
Definition isIdentStart (r : Z) : bool := (r =? 95) || (128 <=? r) || ascii_letter r.
Definition isIdentPart (r : Z) : bool := isIdentStart r || digit r.

(** The runes from the first that is not [p]'s on. *)
Definition skip_while (p : Z → bool) (l : list Z) : list Z := drop_while p l.
Fixpoint take_while (p : Z → bool) (l : list Z) : list Z :=
  match l with [] => [] | x :: l' => if p x then x :: take_while p l' else [] end.

Section guard.
(** [strings.ToLower] *)
Context (toLower : string → string).

(** [sideEffects]: the guard of a manifest's lists. *)
Definition guard_of (g : EvalGuard) : guard :=
  mkGuard (String.concat "" (Quotes g)) (map toLower (InterpolatedPrefixes g)) (NonCallWords g) (SafeCalls g) (AssignOps g).

Section scan.
Context (g : guard).

(** [closes]: [n] quotes [q] are next. *)
Definition closes (q : Z) (n : nat) (l : list Z) : bool := (n <=? length l)%nat && forallb (Z.eqb q) (take n l).

(** The loop of [skipString]: the runes after the closing quotes. *)
Fixpoint to_close (q : Z) (n : nat) (l : list Z) : option (list Z) :=
  match l with
  | [] => None
  | c :: t =>
    if c =? 92 then match t with [] => None | _ :: u => to_close q n u end
    else if closes q n l then Some (drop n l)
    else to_close q n t
  end.
Definition skip_string (l : list Z) : option (list Z) :=
  match l with
  | q :: a :: b :: _ => if (a =? q) && (b =? q) then to_close q 3 (drop 3 l) else to_close q 1 (drop 1 l)
  | q :: _ => to_close q 1 (drop 1 l)
  | [] => None
  end.

(** The operator that a run of operator characters is or starts with. *)
Definition assignment (run : string) : option string :=
  List.find (fun op => (run =?s op)
    || (has_prefix op run && match snth (String.length op) run with Some c => negb (c =? "=")%char | None => false end)) (assign g).

(** What a step does: go on, go on after a finding, or stop on one. *)
Inductive stepped := Next (s : scanner) | Finding (reason : string).

(** [identifier]: a name, or a string with a prefix. *)
Definition identifier (s : scanner) : stepped :=
  let word := string_of_runes (take_while isIdentPart (rs s)) in
  let rest := skip_while isIdentPart (rs s) in
  match rest with
  | q :: _ =>
    if in_runes (quotes g) q then
      if bool_decide (toLower word ∈ prefixes g) then Finding interpolated
      else match skip_string rest with
           | Some l => Next (s <| rs := l |> <| prev := tokOther |> <| last_rune := q |>)
           | None => Finding unterminated
           end
    else Next (mkScanner rest tokName word (last_rune s =? 46) (List.last (take_while isIdentPart (rs s)) 0))
  | [] => Next (mkScanner rest tokName word (last_rune s =? 46) (List.last (take_while isIdentPart (rs s)) 0))
  end.

(** [call]: whether a parenthesis here calls something. *)
Definition call (s : scanner) : option string :=
  match prev s with
  | tokName =>
    if bool_decide (name s ∈ nonCall g) || (bool_decide (name s ∈ safe g) && negb (dotted s)) then None
    else Some ("call a function (" +:+ name s +:+ ")")
  | tokCloser => Some "call a function"
  | tokOther => None
  end.

Definition step (s : scanner) : stepped :=
  match rs s with
  | [] => Next s
  | c :: t =>
    if is_space c then Next (s <| rs := t |>)
    else if in_runes (quotes g) c then
      match skip_string (rs s) with
      | Some l => Next (s <| rs := l |> <| prev := tokOther |> <| last_rune := c |>)
      | None => Finding unterminated
      end
    else if isIdentStart c then identifier s
    else if digit c
    then Next (s <| rs := skip_while (fun r => isIdentPart r || (r =? 46)) (rs s) |> <| prev := tokOther |> <| last_rune := c |>)
    else if c =? 40 then
      match call s with
      | Some reason => Finding reason
      | None => Next (s <| rs := t |> <| prev := tokOther |> <| last_rune := c |>)
      end
    else if (c =? 41) || (c =? 93) then Next (s <| rs := t |> <| prev := tokCloser |> <| last_rune := c |>)
    else if in_runes opChars c then
      match assignment (string_of_runes (take_while (in_runes opChars) (rs s))) with
      | Some op => Finding ("assign (" +:+ op +:+ ")")
      | None => Next (s <| rs := skip_while (in_runes opChars) (rs s) |> <| prev := tokOther |> <| last_rune := c |>)
      end
    else Next (s <| rs := t |> <| prev := tokOther |> <| last_rune := c |>)
  end.

(** The loop of [check], [None] when its fuel runs out. *)
Fixpoint check_go (fuel : nat) (s : scanner) : option (option string) :=
  match rs s, fuel with
  | [], _ => Some None
  | _, O => None
  | _, S n => match step s with Finding r => Some (Some r) | Next s => check_go n s end
  end.
Definition check_all (expr : string) : option (option string) :=
  check_go (length (runes expr)) (mkScanner (runes expr) tokOther "" false 0).
Definition check (expr : string) : option string := default None (check_all expr).
End scan.

(** [sideEffects]: the check a session evaluates with. *)
Definition sideEffects (g : option EvalGuard) : option (string → option string) := (fun g => check (guard_of g)) <$> g.
End guard.

(** * What the generic driver's check finds

    A reference reading of an expression by its tokens, as in SideeffectsSpec:
    [check] finds something exactly when one of the tokens is a side effect
    after those before it. *)

Open Scope Z_scope.

(** A string, maybe after a prefix, and whether it ends; a name; a number; a
    run of operator characters; parentheses. *)
Inductive kind :=
  | Str (pre : option string) (ends : bool) | Name (word : string) | Number | Open | Closer | Ops (run : string) | Other.
(** With the rune that a dot before a name is told by. *)
Record tok := mkTok { t_kind : kind; t_rune : Z }.

Section spec.
Context (toLower : string → string) (g : guard).

Definition lex_string (pre : option string) (q : Z) (l : list Z) : tok * list Z :=
  match skip_string l with
  | Some rest => (mkTok (Str pre true) q, rest)
  | None => (mkTok (Str pre false) q, [])
  end.
Definition lex_word (l : list Z) : tok * list Z :=
  let word := string_of_runes (take_while isIdentPart l) in
  let name := mkTok (Name word) (List.last (take_while isIdentPart l) 0) in
  match skip_while isIdentPart l with
  | q :: rest => if in_runes (quotes g) q then lex_string (Some word) q (q :: rest) else (name, q :: rest)
  | [] => (name, [])
  end.
Definition lex (c : Z) (t : list Z) : tok * list Z :=
  if in_runes (quotes g) c then lex_string None c (c :: t)
  else if isIdentStart c then lex_word (c :: t)
  else if digit c then (mkTok Number c, skip_while (fun r => isIdentPart r || (r =? 46)) (c :: t))
  else if c =? 40 then (mkTok Open c, t)
  else if (c =? 41) || (c =? 93) then (mkTok Closer c, t)
  else if in_runes opChars c
  then (mkTok (Ops (string_of_runes (take_while (in_runes opChars) (c :: t)))) c, skip_while (in_runes opChars) (c :: t))
  else (mkTok Other c, t).

Fixpoint tokens_from (fuel : nat) (l : list Z) : list tok :=
  match l, fuel with
  | c :: t, S n => if is_space c then tokens_from n t else let '(k, rest) := lex c t in k :: tokens_from n rest
  | _, _ => []
  end.
Definition tokens (expr : string) : list tok := tokens_from (length (runes expr)) (runes expr).

(** ** When a token is a side effect *)

Definition after_dot (before : list tok) : bool := match before with t :: _ => t_rune t =? 46 | [] => false end.

(** An assignment: an operator of the list, or one that something other than
    an equals sign follows in the run. *)
Definition assigns (run : string) : Prop :=
  ∃ op, In op (assign g) ∧ (run = op ∨ ∃ c rest, run = op +:+ String c rest ∧ c ≠ "="%char).

Definition calls (before : list tok) : Prop :=
  match before with
  | t :: ts =>
    match t_kind t with
    | Name w => (w ∉ nonCall g) ∧ ¬ (w ∈ safe g ∧ after_dot ts = false)
    | Closer => True
    | _ => False
    end
  | [] => False
  end.

Definition effect (before : list tok) (t : tok) : Prop :=
  match t_kind t with
  | Str pre ends => ends = false ∨ ∃ w, pre = Some w ∧ toLower w ∈ prefixes g
  | Ops run => assigns run
  | Open => calls before
  | _ => False
  end.

(** ** The scanner follows the tokens *)

Definition prev_of (t : tok) : tokenKind :=
  match t_kind t with Name _ => tokName | Closer => tokCloser | _ => tokOther end.

Definition tracks (before : list tok) (s : scanner) : Prop :=
  match before with
  | [] => prev s = tokOther ∧ last_rune s = 0
  | t :: ts => prev s = prev_of t ∧ last_rune s = t_rune t ∧ ∀ w, t_kind t = Name w → name s = w ∧ dotted s = after_dot ts
  end.

Definition steps_to (before : list tok) (t : tok) (rest : list Z) (r : stepped) : Prop :=
  match r with
  | Finding _ => effect before t
  | Next s => ¬ effect before t ∧ tracks (t :: before) s ∧ rs s = rest
  end.

Lemma assignment_assigns run : assignment g run ≠ None ↔ assigns run.
Proof.
  unfold assignment, assigns. set (p := fun op => _ || _).
  assert (Hp : ∀ op, p op = true ↔ run = op ∨ ∃ c rest, run = op +:+ String c rest ∧ c ≠ "="%char).
  { intros op. unfold p. rewrite orb_true_iff, andb_true_iff, String.eqb_eq, has_prefix_spec. split.
    - intros [->|[[r ->] H]]; [by left|]. right. assert (Hs : snth (String.length op) (op +:+ r) = snth 0 r).
      { clear. induction op as [|c op IH]; [done|]. exact IH. }
      rewrite Hs in H. destruct r as [|c r]; [done|]. cbn in H. exists c, r. split; [done|]. intros ->. done.
    - intros [->|(c & r & -> & Hc)]; [by left|right]. split; [by eexists|].
      assert (Hs : snth (String.length op) (op +:+ String c r) = Some c) by (clear; induction op as [|d op IH]; [done|exact IH]).
      rewrite Hs. apply negb_true_iff, Ascii.eqb_neq, Hc. }
  split.
  - destruct (List.find p (assign g)) as [op|] eqn:E; [|done]. intros _. apply List.find_some in E as [Hin H]. exists op. by rewrite <- Hp.
  - intros (op & Hin & H) E. apply Hp in H. by rewrite (List.find_none _ _ E op Hin) in H.
Qed.

Lemma call_calls before s : tracks before s → call g s ≠ None ↔ calls before.
Proof.
  unfold tracks, call, calls. destruct before as [|t ts]; [by intros [-> _]|]. intros (-> & _ & Hn). unfold prev_of.
  destruct (t_kind t) as [| w | | | | |]; try done. destruct (Hn w eq_refl) as [-> ->].
  case_bool_decide as H1; cbn [orb]; [by split; [done|intros [? _]]|]. case_bool_decide as H2; cbn [andb].
  - destruct (after_dot ts); cbn [negb]; split; try done; [by intros _; split; [|by intros []]|by intros [_ []]].
  - split; [|done]. intros _. split; [done|]. by intros [? _].
Qed.

Lemma string_step before s pre q l :
  (∀ w, pre = Some w → toLower w ∉ prefixes g) →
  let '(t, rest) := lex_string pre q l in
  steps_to before t rest (match skip_string l with
                          | Some l' => Next (s <| rs := l' |> <| prev := tokOther |> <| last_rune := q |>)
                          | None => Finding unterminated
                          end).
Proof.
  intros Hpre. unfold lex_string. destruct (skip_string l) as [rest|]; cbn; [|by left].
  split; [intros [?|(w & -> & Hw)]; [done|by apply (Hpre w)]|]. by split.
Qed.

Lemma identifier_step before s :
  tracks before s → let '(t, rest) := lex_word (rs s) in steps_to before t rest (identifier toLower g s).
Proof.
  intros H. unfold identifier, lex_word. assert (Hd : (last_rune s =? 46) = after_dot before).
  { destruct before as [|b bs]; [by destruct H as [_ ->]|]. by destruct H as (_ & -> & _). }
  destruct (skip_while isIdentPart (rs s)) as [|q rest].
  - cbn. split; [by intros []|]. split; [|done]. split; [done|]. split; [done|]. by intros w [= <-].
  - destruct (in_runes (quotes g) q) eqn:Eq.
    + case_bool_decide as Hp.
      * unfold lex_string. destruct (skip_string _); cbn; right; eauto.
      * apply string_step. by intros w [= <-].
    + cbn. split; [by intros []|]. split; [|done]. split; [done|]. split; [done|]. by intros w [= <-].
Qed.

Lemma step_step before s c t :
  tracks before s → rs s = c :: t → is_space c = false →
  let '(k, rest) := lex c t in steps_to before k rest (step toLower g s).
Proof.
  intros H Hr Hs. unfold step, lex. rewrite Hr, Hs.
  destruct (in_runes (quotes g) c); [by apply string_step|].
  destruct (isIdentStart c); [rewrite <- Hr; by apply identifier_step|].
  destruct (digit c); [cbn; split; [by intros []|by split]|].
  destruct (c =? 40) eqn:E1.
  { destruct (call g s) as [reason|] eqn:Ec; cbn.
    - apply (call_calls before s H). by rewrite Ec.
    - split; [|by split]. intros Hc. by apply (call_calls before s H) in Hc. }
  destruct ((c =? 41) || (c =? 93)); [cbn; split; [by intros []|by split]|].
  destruct (in_runes opChars c); [|cbn; split; [by intros []|by split]].
  pose proof (assignment_assigns (string_of_runes (take_while (in_runes opChars) (c :: t)))) as Ha.
  destruct (assignment g _) as [op|] eqn:Ea; [by apply Ha|].
  split; [|by split]. intros Hc. by apply Ha in Hc.
Qed.

(** ** The whole expression *)

Lemma to_close_shorter q n l rest : (0 < n)%nat → to_close q n l = Some rest → (length rest < length l)%nat.
Proof.
  intros Hn. induction l as [l IH] using (induction_ltof1 _ (@length Z)). unfold ltof in IH. destruct l as [|c t]; [done|].
  cbn [to_close]. destruct (c =? 92).
  - destruct t as [|d u]; [done|]. intros H. apply IH in H; cbn in *; lia.
  - destruct (closes q n (c :: t)); [|intros H; apply IH in H; cbn in *; lia].
    intros [= <-]. rewrite length_drop. cbn. lia.
Qed.

Lemma skip_string_shorter l rest : skip_string l = Some rest → (length rest < length l)%nat.
Proof.
  unfold skip_string. destruct l as [|q [|a [|b l]]]; [done|..].
  - intros H%to_close_shorter; [|lia]. cbn [drop length] in *. lia.
  - intros H%to_close_shorter; [|lia]. cbn [drop length] in *. lia.
  - destruct (_ && _); (intros H%to_close_shorter; [|lia]); rewrite length_drop in H; cbn [length] in *; lia.
Qed.

Lemma skip_while_shorter p l : (length (skip_while p l) ≤ length l)%nat.
Proof. unfold skip_while. induction l as [|x l IH]; cbn [drop_while length]; [done|]. destruct (p x); cbn [length]; lia. Qed.

Lemma lex_shorter c t : let '(_, rest) := lex c t in (length rest < length (c :: t))%nat.
Proof.
  assert (Hl : ∀ pre q l, l ≠ [] → (length (lex_string pre q l).2 < length l)%nat).
  { intros pre q l Hl. unfold lex_string. destruct (skip_string l) as [rest|] eqn:E; cbn; [by apply skip_string_shorter|].
    destruct l; [done|cbn; lia]. }
  assert (Hw : ∀ p, p c = true → (length (skip_while p (c :: t)) < length (c :: t))%nat).
  { intros p Hp. unfold skip_while at 1. cbn [drop_while length]. rewrite Hp. pose proof (skip_while_shorter p t). unfold skip_while in *. lia. }
  unfold lex. destruct (in_runes (quotes g) c); [pose proof (Hl None c (c :: t) ltac:(done)) as H; by destruct (lex_string _ _ _)|].
  destruct (isIdentStart c) eqn:Ei.
  { unfold lex_word. assert (Hp : isIdentPart c = true) by (unfold isIdentPart; by rewrite Ei). specialize (Hw _ Hp).
    destruct (skip_while isIdentPart (c :: t)) as [|q rest]; [done|]. destruct (in_runes (quotes g) q); [|done].
    match goal with |- context [lex_string ?p q ?l] => pose proof (Hl p q l ltac:(done)) as H; destruct (lex_string p q l) end. cbn in *. lia. }
  destruct (digit c) eqn:Ed.
  { apply Hw. unfold isIdentPart. by rewrite Ed, orb_true_r. }
  destruct (c =? 40); [cbn; lia|]. destruct (_ || _); [cbn; lia|]. destruct (in_runes opChars c) eqn:Eo; [by apply Hw|cbn; lia].
Qed.

Lemma check_go_spec n before s :
  tracks before s → (length (rs s) ≤ n)%nat →
  ∃ r, check_go toLower g n s = Some r
    ∧ (r = None ↔ ∀ pre t post, tokens_from n (rs s) = pre ++ t :: post → ¬ effect (rev pre ++ before) t).
Proof.
  revert before s. induction n as [|n IH]; intros before s H Hn.
  - destruct (rs s) eqn:E; [|cbn in Hn; lia]. cbn. rewrite E. exists None. split; [done|]. split; [|done]. by intros _ [|? ?].
  - cbn [check_go tokens_from]. destruct (rs s) as [|c t] eqn:E.
    { exists None. split; [done|]. split; [|done]. by intros _ [|? ?]. }
    destruct (is_space c) eqn:Es.
    + unfold step. rewrite E, Es. pose proof (IH before (s <| rs := t |>)) as IHe. change (rs (s <| rs := t |>)) with t in IHe.
      apply IHe; [by destruct before|cbn in Hn; lia].
    + pose proof (step_step before s c t H E Es) as Hs. pose proof (lex_shorter c t) as Hl.
      destruct (lex c t) as [k rest]. destruct (step toLower g s) as [s'|r].
      * destruct Hs as (Hne & Ht & Hr). destruct (IH _ s' Ht) as (r & Hg & Hiff); [rewrite Hr; cbn in *; lia|].
        exists r. split; [done|]. rewrite Hiff, Hr. split.
        -- intros Hall [|x pre] u post [= <- Eq]; [done|]. cbn [rev]. rewrite <- app_assoc. by apply (Hall pre u post).
        -- intros Hall pre u post Eq. specialize (Hall (k :: pre) u post). cbn [rev app] in Hall.
           rewrite <- app_assoc in Hall. apply Hall. by rewrite Eq.
      * exists (Some r). split; [done|]. split; [done|]. intros Hno. exfalso. by apply (Hno [] k _ eq_refl).
Qed.
End spec.

(** The check ends, and finds something in an expression exactly when one
    of its tokens is a side effect after those before it: a string that does
    not end or whose prefix makes it run code, a run of operator characters
    that is an assignment or starts with one that no equals sign follows, or
    an opening parenthesis after a name (but the words that take one, and
    the safe functions when no dot precedes them) or after a closing one. *)
Theorem check_spec toLower g expr :
  check_all toLower g expr = Some (check toLower g expr)
  ∧ (check toLower g expr = None ↔ ∀ pre t post, tokens g expr = pre ++ t :: post → ¬ effect toLower g (rev pre) t).
Proof.
  destruct (check_go_spec toLower g (length (runes expr)) [] (mkScanner (runes expr) tokOther "" false 0)) as (r & Hr & Hiff); [done|done|].
  unfold check, check_all. rewrite Hr. split; [done|]. cbn [default id]. rewrite Hiff. unfold tokens. cbn [rs].
  split; intros H pre t post E; [rewrite <- (app_nil_r (rev pre))|rewrite app_nil_r]; by apply (H pre t post).
Qed.

(** Expressions of the driver's own tests, with words of the Python manifest. *)
Definition python_guard : guard :=
  mkGuard (String "'" dquote) ["f"; "rf"; "t"] ["if"; "in"; "not"] ["len"; "str"; "isinstance"] ["="; ":="; "+="]%string.
Example guard_passes : forallb (fun e => bool_decide (check to_lower python_guard e = None))
  ["a.b[0]"; "x == 3"; "x ==-1"; "not (x)"; "len (items)"; "'it''s'"; "'''a'b''' + len(x)"; "1e5 + 0x1F"; "-x"]%string = true.
Proof. vm_compute. reflexivity. Qed.
Example guard_finds : map (check to_lower python_guard)
  ["obj.len(x)"; "a[0](1)"; "(y := 5)"; "x=-1"; "rf'{x}'"; "F'x'"; "'''a'b''' + f()"; "r'x"]%string
  = map Some ["call a function (len)"; "call a function"; "assign (:=)"; "assign (=)"; interpolated; interpolated;
              "call a function (f)"; unterminated]%string.
Proof. vm_compute. reflexivity. Qed.

(** A number's token takes in the names after its dots: a method called on a
    number's literal is not found. *)
Lemma number_call_missed : check to_lower python_guard "1.0.hex()" = None.
Proof. vm_compute. reflexivity. Qed.
