(* ===== verification/Generic.v ===== *)
(** * The generic driver

    src/drivers/generic/generic.go, launch.go: debugging a language as its
    manifest describes. Where the adapter is ([find], [resolvePython]) and
    what is on disk are arguments. [Prepared] is a [session.Launch] with the
    fields of the adapter's process, which the session itself never looks
    at. *)

From S2P Require Import Prelude GoStrings GoPath Api PathMap Session Start Manager Manifest Template Validate Guard.
From Stdlib Require Import Ascii Bool.
Open Scope Z_scope.

Record Prepared := mkPrepared {
  pr_Launch : Launch; pr_Adapter : string; pr_AdapterArgs : list string; pr_SocketArgs : option (string → list string);
  pr_AdapterEnv : list string; pr_Arguments : list (string * value) }.
#[global] Instance eta_Prepared : Eta Prepared := fun r =>
  mkPrepared (pr_Launch r) (pr_Adapter r) (pr_AdapterArgs r) (pr_SocketArgs r) (pr_AdapterEnv r) (pr_Arguments r).

(** [PythonInput] and [Runtime] (adapters/python.go). *)
Record PythonInput := mkPythonInput { in_Interpreter : string; in_Cwd : string; in_ProgramDir : string; in_VirtualEnv : string }.
Record Runtime := mkRuntime {
  rt_Exe : string; rt_Version : string; rt_Source : string; rt_Root : string; rt_RootSource : string; rt_ModuleVersion : string }.
Definition Runtime_Entry (r : Runtime) (m : Manifest) : string := Join (rt_Root r) (ad_Entry (mf_Adapter m)).

(** What [Find] answers. *)
Inductive found := FoundAt (path : string) | ErrNotInstalled | FindFailed (why : string).

(** "NAME=VALUE" strings, by name; [Environ] (adapters/find.go) sorts the strings. *)
Definition envList (env : list (string * string)) : list string :=
  map (fun k => k +:+ "=" +:+ default "" (assoc k env)) (merge_sort string_le (map fst env)).
Definition Environ (m : Manifest) : list string :=
  merge_sort string_le (map (fun x => x.1 +:+ "=" +:+ x.2) (ad_Environment (mf_Adapter m))).

(** [exceptionFilters] *)
Definition exceptionFilters (m : Manifest) (mode : ExceptionMode) : option (list string) :=
  assoc (exception_mode_name mode) (default [] (mf_Exceptions m)).

Section driver.
Context (m : Manifest) (toLower : string → string).
Context (find : Manifest → found) (resolvePython : Manifest → PythonInput → result Runtime).
Context (exists_ isDir : string → bool).

Definition Name : string := LanguageName m.

(** ** Options *)

Fixpoint check_given (given : list (string * string)) : option Error :=
  match given with
  | [] => None
  | (name, v) :: rest =>
    match assoc name (mf_Options m) with
    | None => Some (invalid (Name +:+ " has no option " +:+ quote name))
    | Some o =>
      if v =?s "" then check_given rest
      else match ParseOption o v with
           | inl e => Some (invalid ("--opt " +:+ name +:+ "=" +:+ v +:+ ": " +:+ e))
           | inr _ => check_given rest
           end
    end
  end.
(** An option's value, given or its default; one that does not parse is nil. *)
Definition option_value (given : list (string * string)) (name : string) (o : Option_) : option value :=
  let v := default "" (assoc name given) in
  let v := if v =?s "" then op_Default o else v in
  if v =?s "" then None else Some (match ParseOption o v with inr x => x | inl _ => VNull end).
Definition options (given : list (string * string)) : result (list (string * value)) :=
  match check_given given with
  | Some e => Err e
  | None => Ok (List.flat_map (fun '(name, o) => match option_value given name o with Some x => [(name, x)] | None => [] end)
                  (mf_Options m))
  end.

(** ** Inputs *)

(** [%v] of an option's value. *)
Definition show_value (v : value) : string :=
  match v with VString s => s | VInt n => itoa n | VBool b => if b then "true" else "false" | _ => "<nil>" end.

(** The loop of [required]: what runs, "" when nothing required is set. *)
Fixpoint first_input (spec : LaunchSpec) (opts : list (string * value)) (require : list string) : string :=
  match require with
  | [] => ""
  | r :: rest =>
    match cut_prefix optPrefix r with
    | None => if l_Program spec =?s "" then first_input spec opts rest else l_Program spec
    | Some name =>
      match assoc name opts with
      | None | Some VNull => first_input spec opts rest
      | Some (VString s) => if s =?s "" then first_input spec opts rest else name +:+ "=" +:+ s
      | Some v => name +:+ "=" +:+ show_value v
      end
    end
  end.
(** [requireText]; option names are ASCII. *)
Definition upper_ascii (c : ascii) : ascii := if lower_alpha c then ascii_of (byte_of c - 32) else c.
Definition requireText (require : list string) : string :=
  join " or " (map (fun r => match cut_prefix optPrefix r with
                             | Some name => "--opt " +:+ name +:+ "=" +:+ map_bytes upper_ascii name
                             | None => "--program FILE"
                             end) require).
Definition required (require : list string) (spec : LaunchSpec) (opts : list (string * value)) : result string :=
  let program := first_input spec opts require in
  if program =?s "" then Err (invalid (Name +:+ " needs " +:+ requireText require))
  else if negb (l_Program spec =?s "") && negb (exists_ (l_Program spec))
  then Err (invalid ("program " +:+ l_Program spec +:+ " not found"))
  else Ok program.

Definition workDir (spec : LaunchSpec) : result string :=
  if negb (l_Cwd spec =?s "") then
    if isDir (l_Cwd spec) then Ok (l_Cwd spec) else Err (invalid ("--cwd " +:+ l_Cwd spec +:+ " is not a directory"))
  else if negb (l_ClientDir spec =?s "") then Ok (l_ClientDir spec)
  else if negb (l_Program spec =?s "") then Ok (Dir (l_Program spec))
  else Ok "".

(** [interpreterOption]; a Python adapter has its [python] ([validate]). *)
Definition interpreterOption : string :=
  if ad_Runtime (mf_Adapter m) =?s RuntimePython then match mf_Python m with Some py => py_Option py | None => "" end else "".
Definition as_string (v : option value) : string := match v with Some (VString s) => s | _ => "" end.
Definition clientPath (v : option value) (clientDir : string) : string :=
  let s := as_string v in
  if (s =?s "") || (clientDir =?s "") || is_abs s || negb (contains_any "/\" s) then s else Join clientDir s.

(** ** The adapter *)

Definition base_launch : Launch :=
  mkLaunch (ad_ID (mf_Adapter m)) "" "" 0 (exceptionFilters m) (sideEffects toLower (mf_EvalGuard m)) (mf_Name m) "" false "" None None.

Definition adapter (opts : list (string * value)) (inp : PythonInput) : result (Prepared * Vars) :=
  let a := mf_Adapter m in
  let vars : Vars := fold_left (fun vs x => <[OptVar x.1 := x.2]> vs) opts ∅ in
  if ad_Runtime a =?s RuntimePython then
    try rt := resolvePython m inp in
    Ok (mkPrepared base_launch (rt_Exe rt) (Runtime_Entry rt m :: ad_Args a) None (Environ m) [],
        <[VarRuntime := VString (rt_Exe rt)]> vars)
  else
    match find m with
    | ErrNotInstalled => Err (NewError CodeAdapterMissing (mf_Name m +:+ " is not installed"))
    | FindFailed why => Err (NewError CodeAdapterMissing why)
    | FoundAt path =>
      Ok (if ad_Transport a =?s TransportConnect
          then mkPrepared base_launch path []
                 (Some (fun socket => RenderArgs (ad_Args a) {[VarSocket := VString socket]})) (Environ m) []
          else mkPrepared base_launch path (ad_Args a) None (Environ m) [],
          vars)
    end.

(** [maps.Copy]: the members of [src] over those of [dst]. *)
Definition copy_over (dst src : list (string * value)) : list (string * value) :=
  List.filter (fun x => match assoc x.1 src with Some _ => false | None => true end) dst ++ src.

Definition launch_vars (spec : LaunchSpec) (cwd : string) (vars : Vars) : Vars :=
  <[VarStopOnEntry := VBool (l_StopOnEntry spec)]> (<[VarEnvList := VStrings (envList (l_Env spec))]>
  (<[VarEnv := VStringMap (l_Env spec)]> (<[VarCwd := VString cwd]> (<[VarArgs := VStrings (l_Args spec)]>
  (<[VarProgram := VString (l_Program spec)]> vars))))).

(** [PrepareWith]; the language has a launch template ([validate]). *)
Definition PrepareWith (spec : LaunchSpec) (terminal : bool) : result Prepared :=
  match mf_Launch m with
  | None => Err (NewError CodeInternal "no launch template")
  | Some t =>
    if terminal && negb (is_some (tm_Terminal t))
    then Err (NewError CodeUnsupported ("the " +:+ Name +:+ " debug adapter can't run the program in a terminal"))
    else
      try opts := options (l_Options spec) in
      try program := required (tm_Require t) spec opts in
      try cwd := workDir spec in
      let programDir := if l_Program spec =?s "" then "" else Dir (l_Program spec) in
      let interpreter := if interpreterOption =?s "" then "" else clientPath (assoc interpreterOption opts) (l_ClientDir spec) in
      try r := adapter opts (mkPythonInput interpreter cwd programDir (l_VirtualEnv spec)) in
      let '(p, vars) := r in
      let vars := launch_vars spec cwd vars in
      let arguments := Render (tm_Arguments t) vars in
      let arguments := if terminal then copy_over arguments (Render (default [] (tm_Terminal t)) vars) else arguments in
      Ok (p <| pr_Arguments := arguments |>
            <| pr_Launch := (pr_Launch p) <| la_Program := program |> <| la_Request := RequestLaunch |> |>)
  end.
Definition Prepare (spec : LaunchSpec) : result Prepared := PrepareWith spec false.

Definition PrepareAttach (pid : Z) : result Prepared :=
  match mf_Attach m with
  | None => Err (NewError CodeUnsupported ("the " +:+ Name +:+ " debug adapter can't attach to a running process"))
  | Some t =>
    try opts := options [] in
    let interpreter := if interpreterOption =?s "" then "" else as_string (assoc interpreterOption opts) in
    try r := adapter opts (mkPythonInput interpreter "" "" "") in
    let '(p, vars) := r in
    let vars := <[VarPID := VInt pid]> vars in
    Ok (p <| pr_Arguments := Render (tm_Arguments t) vars |>
          <| pr_Launch := (pr_Launch p) <| la_Request := RequestAttach |> <| la_PID := pid |> |>)
  end.
End driver.

(** [Drivers]: the manifests that serve a language no Go driver does. *)
Definition Drivers (ms : list Manifest) : list Manifest :=
  List.filter (fun m => negb (LanguageName m =?s "") && negb (Builtin m)) ms.

(** * What the generic driver makes of a manifest that passed its checks

    [prepare_spec]: the checks of validate.go are enough for the driver,
    which does not check again. Every variable it renders a template with has
    the kind the template was checked for, every option its declared type,
    and an adapter that dials in is told the socket. *)

Open Scope Z_scope.

Section spec.
Context (parseURL : string → string + (string * string)) (badGlob : string → bool).
Context (m : Manifest) (toLower : string → string).
Context (find : Manifest → found) (resolvePython : Manifest → PythonInput → result Runtime).
Context (exists_ isDir : string → bool).
Local Abbreviation options := (options m).
Local Abbreviation adapter := (adapter m toLower find resolvePython).
Local Abbreviation PrepareWith := (PrepareWith m toLower find resolvePython exists_ isDir).

(** A manifest that passed, its options as in a map. *)
Context (Hvalid : validate parseURL badGlob m = None) (Hmap : List.NoDup (map fst (mf_Options m))).

Lemma assoc_of_In {A} k (x : A) l : List.NoDup (map fst l) → In (k, x) l → assoc k l = Some x.
Proof.
  induction l as [|[k' y] l IH]; [done|]. intros [Hn Hnd]%List.NoDup_cons_iff Hin. unfold assoc in *. cbn [List.find fst].
  destruct (String.eqb_spec k' k) as [->|Hne].
  - destruct Hin as [[= <-]|Hin]; [done|]. destruct Hn. by apply (List.in_map fst) in Hin.
  - destruct Hin as [[= -> _]|Hin]; [done|]. by apply IH.
Qed.

(** ** Options *)

Lemma option_default_parses name o :
  In (name, o) (mf_Options m) → op_Default o ≠ ""%string → ∃ x, ParseOption o (op_Default o) = inr x.
Proof.
  intros Hin Hd. apply validate_all in Hvalid as (_ & _ & _ & _ & _ & _ & Ho & _). unfold validateOptions in Ho.
  rewrite first_error_None in Ho. specialize (Ho _ Hin). cbn in Ho. unfold validateOption in Ho.
  destruct (negb (optionPattern name)); [done|]. destruct (_ && _ && _); [done|]. destruct (op_Help o =?s ""); [done|].
  apply String.eqb_neq in Hd. rewrite Hd in Ho. destruct (ParseOption o (op_Default o)) as [|x]; [done|eauto].
Qed.

Lemma check_given_None given name v :
  check_given m given = None → In (name, v) given →
  ∃ o, assoc name (mf_Options m) = Some o ∧ (v = ""%string ∨ ∃ x, ParseOption o v = inr x).
Proof.
  induction given as [|[n w] given IH]; [done|]. cbn [check_given]. destruct (assoc n (mf_Options m)) as [o|] eqn:Eo; [|done].
  destruct (String.eqb_spec w "") as [->|Hw].
  - intros H [[= <- <-]|Hin]; [exists o; auto|by apply IH].
  - destruct (ParseOption o w) as [|x] eqn:Ep; [done|]. intros H [[= <- <-]|Hin]; [exists o; eauto|by apply IH].
Qed.

(** Every option of the manifest that is given or has a default gets a value
    of its type, and nothing else does. *)
Lemma options_spec given opts :
  options given = Ok opts →
  (∀ name v, In (name, v) given → ∃ o, assoc name (mf_Options m) = Some o ∧ (v = ""%string ∨ ∃ x, ParseOption o v = inr x))
  ∧ ∀ name x, In (name, x) opts → ∃ o v, assoc name (mf_Options m) = Some o
      ∧ v = (if default "" (assoc name given) =?s "" then op_Default o else default "" (assoc name given))
      ∧ v ≠ ""%string ∧ ParseOption o v = inr x.
Proof.
  unfold Generic.options. destruct (check_given m given) eqn:Ec; [done|]. intros [= <-]. split.
  { intros name v. by apply check_given_None. }
  intros name x ([n o] & Hin & Hx)%List.in_flat_map. unfold option_value in Hx.
  set (w := if default "" (assoc n given) =?s "" then op_Default o else default "" (assoc n given)) in Hx.
  destruct (String.eqb_spec w "") as [|Hw]; [done|]. destruct Hx as [[= -> <-]|[]].
  pose proof (assoc_of_In _ _ _ Hmap Hin) as Ha. exists o, w. split; [done|]. split; [done|]. split; [done|].
  assert (Hp : ∃ x, ParseOption o w = inr x).
  { unfold w in *. destruct (String.eqb_spec (default "" (assoc name given)) "") as [|Hg]; [by apply (option_default_parses name)|].
    destruct (assoc name given) as [v|] eqn:Eg; [|done]. cbn in *. apply assoc_In in Eg.
    destruct (check_given_None given name v Ec Eg) as (o' & Ho' & [?|Hp]); [done|]. rewrite Ha in Ho'. by injection Ho' as <-. }
  destruct Hp as [y Hy]. by rewrite Hy.
Qed.

Lemma options_kind given opts name x :
  options given = Ok opts → In (name, x) opts → ∃ o, In (name, o) (mf_Options m) ∧ has_kind (option_kind o) x = true.
Proof.
  intros H Hin. apply options_spec in H as [_ H]. destruct (H name x Hin) as (o & v & Ho & _ & _ & Hp). exists o.
  split; [by apply assoc_In|]. unfold option_kind. apply ParseOption_kind in Hp as [[-> [b ->]]|[[Hk [n ->]]|(Hb & Hi & ->)]].
  - done.
  - by rewrite Hk.
  - apply String.eqb_neq in Hb as ->. apply String.eqb_neq in Hi as ->. done.
Qed.

(** ** Variables *)

Lemma OptVar_inj a b : OptVar a = OptVar b → a = b.
Proof. unfold OptVar, optPrefix. cbn. by intros [= ->]. Qed.

Definition base_kinds (attach : bool) : kinds := varKinds (m <| mf_Options := [] |>) attach.

Lemma varKinds_fold attach :
  varKinds m attach = fold_left (fun ks x => <[OptVar x.1 := option_kind x.2]> ks) (mf_Options m) (base_kinds attach).
Proof. done. Qed.

Lemma kind_fixed attach x : (∀ n, x ≠ OptVar n) → kind_of (varKinds m attach) x = kind_of (base_kinds attach) x.
Proof.
  intros Hx. unfold kind_of. rewrite varKinds_fold. f_equal. apply (lookup_fold_insert_other (fun x => OptVar x.1)).
  intros ([n o] & E & _)%List.in_map_iff. by apply (Hx n).
Qed.

Lemma kind_option attach name o : In (name, o) (mf_Options m) → kind_of (varKinds m attach) (OptVar name) = option_kind o.
Proof.
  intros Hin. unfold kind_of. rewrite varKinds_fold.
  rewrite (lookup_fold_insert (fun x : string * Option_ => OptVar x.1) (fun x => option_kind x.2) _ _ (name, o)); [done| |done].
  clear -Hmap. induction (mf_Options m) as [|x l IH]; [constructor|]. cbn [map] in *. apply List.NoDup_cons_iff in Hmap as [Hx Hl].
  constructor; [|by apply IH]. intros (y & E%OptVar_inj & Hy)%List.in_map_iff. apply Hx. rewrite <- E. by apply (List.in_map fst).
Qed.

Lemma vars_of_opts opts (vs : Vars) x v :
  fold_left (fun vs x => <[OptVar x.1 := x.2]> vs) opts vs !! x = Some v →
  (∃ name, x = OptVar name ∧ In (name, v) opts) ∨ vs !! x = Some v.
Proof.
  revert vs. induction opts as [|[n w] opts IH]; intros vs; [by right|]. cbn [fold_left]. intros H.
  apply IH in H as [(name & -> & Hin)|H]; [left; exists name; split; [done|by right]|].
  cbn [fst snd] in H. destruct (decide (OptVar n = x)) as [<-|Hne].
  - rewrite lookup_insert_eq in H. injection H as <-. left. exists n. split; [done|by left].
  - rewrite lookup_insert_ne in H by done. by right.
Qed.

(** The variables the adapter gives: the options, and a Python adapter's
    interpreter. *)
Lemma adapter_vars opts inp p vars x v :
  adapter opts inp = Ok (p, vars) → vars !! x = Some v →
  (∃ name, x = OptVar name ∧ In (name, v) opts)
  ∨ (x = VarRuntime ∧ ad_Runtime (mf_Adapter m) = RuntimePython ∧ has_kind kindString v = true).
Proof.
  unfold Generic.adapter. destruct (String.eqb_spec (ad_Runtime (mf_Adapter m)) RuntimePython) as [Hr|Hr].
  - destruct (resolvePython m inp) as [rt|]; [|done]. cbn. intros [= <- <-] H.
    destruct (decide (VarRuntime = x)) as [<-|Hne].
    + rewrite lookup_insert_eq in H. injection H as <-. by right.
    + rewrite lookup_insert_ne in H by done. apply vars_of_opts in H as [?|H]; [by left|]. by rewrite lookup_empty in H.
  - destruct (find m) as [path| |]; [|done..]. intros [= <- <-] H.
    apply vars_of_opts in H as [?|H]; [by left|]. by rewrite lookup_empty in H.
Qed.

Lemma adapter_typed given opts inp p vars attach :
  options given = Ok opts → adapter opts inp = Ok (p, vars) → typed (varKinds m attach) vars.
Proof.
  intros Ho Ha x v Hx. destruct (adapter_vars _ _ _ _ _ _ Ha Hx) as [(name & -> & Hin)|(-> & Hr & Hk)].
  - destruct (options_kind _ _ _ _ Ho Hin) as (o & Hino & Hk). by rewrite (kind_option attach name o Hino).
  - rewrite kind_fixed by done. unfold base_kinds, varKinds. cbn [mf_Adapter mf_Options upd eta_Manifest fold_left].
    change (mf_Adapter (m <| mf_Options := [] |>)) with (mf_Adapter m). rewrite Hr. destruct attach; by vm_compute.
Qed.

Lemma typed_insert ks vars x v : typed ks vars → has_kind (kind_of ks x) v = true → typed ks (<[x := v]> vars).
Proof.
  intros H Hv y w. destruct (decide (x = y)) as [<-|Hne]; [rewrite lookup_insert_eq; by intros [= <-]|].
  rewrite lookup_insert_ne by done. apply H.
Qed.

Lemma launch_typed spec cwd vars : typed (varKinds m false) vars → typed (varKinds m false) (launch_vars spec cwd vars).
Proof.
  intros H. unfold launch_vars.
  repeat apply typed_insert; try done; (rewrite kind_fixed by done); unfold base_kinds, varKinds;
    change (mf_Adapter (m <| mf_Options := [] |>)) with (mf_Adapter m); destruct (_ =?s _); by vm_compute.
Qed.

(** ** The template *)

Lemma launch_checked t : mf_Launch m = Some t →
  checkTemplate (varKinds m false) (VObject (tm_Arguments t)) = None
  ∧ ∀ terminal, tm_Terminal t = Some terminal → checkTemplate (varKinds m false) (VObject terminal) = None.
Proof.
  intros Ht. apply validate_all in Hvalid as (_ & _ & _ & _ & _ & _ & _ & H & _). unfold validateTemplates in H.
  rewrite checks_cons, Ht, checks_cons in H. destruct H as [[H _] _]. unfold validateTemplate in H.
  destruct (tm_Arguments t) as [|a l]; [done|]. rewrite !checks_cons, in_field_None in H. destruct H as (_ & H1 & H2 & _).
  split; [done|]. intros terminal E. rewrite E in H2. destruct terminal; [done|]. by apply in_field_None in H2.
Qed.

Lemma connect_args opts inp p vars path :
  adapter opts inp = Ok (p, vars) → ad_Transport (mf_Adapter m) = TransportConnect →
  ∃ f arg, pr_SocketArgs p = Some f ∧ In arg (f path) ∧ has_text path arg.
Proof.
  intros Ha Ht. destruct (connect_socket parseURL badGlob m path Hvalid Ht) as (Hr & _ & _ & arg & Hin & Hp).
  unfold Generic.adapter in Ha. rewrite Hr, Ht in Ha. change (RuntimeNative =?s RuntimePython) with false in Ha.
  rewrite String.eqb_refl in Ha. destruct (find m) as [loc| |]; [|done..]. injection Ha as <- <-. by eexists _, arg.
Qed.

(** What starts the adapter of a prepared launch names the socket, for any. *)
Definition told_socket (p : Prepared) : Prop := ∀ path, ∃ f arg, pr_SocketArgs p = Some f ∧ In arg (f path) ∧ has_text path arg.

(** A launch that is prepared from a manifest that passed its checks: its
    options are declared and of their types; one of the required inputs is
    set; the arguments are the launch template's, a terminal's over them,
    rendered in full with variables of the kinds they were checked for, the
    program and the working directory among them; the session's checks are
    the manifest's; and an adapter that dials in is told the socket it is to
    dial. *)
Theorem prepare_spec spec terminal p :
  PrepareWith spec terminal = Ok p →
  ∃ t vars, mf_Launch m = Some t ∧ typed (varKinds m false) vars
  ∧ vars !! VarProgram = Some (VString (l_Program spec)) ∧ vars !! VarArgs = Some (VStrings (l_Args spec))
  ∧ (∀ name v, In (name, v) (l_Options spec) →
       ∃ o, assoc name (mf_Options m) = Some o ∧ (v = ""%string ∨ ∃ x, ParseOption o v = inr x))
  ∧ la_Program (pr_Launch p) ≠ ""%string
  ∧ (terminal = true → is_Some (tm_Terminal t))
  ∧ pr_Arguments p = (if terminal then copy_over (Render (tm_Arguments t) vars) (Render (default [] (tm_Terminal t)) vars)
                      else Render (tm_Arguments t) vars)
  ∧ (∀ s, In s (texts_of (VObject (tm_Arguments t))) ∨ In s (texts_of (VObject (default [] (tm_Terminal t)))) →
       renders (varKinds m false) vars s)
  ∧ la_SideEffects (pr_Launch p) = sideEffects toLower (mf_EvalGuard m)
  ∧ (ad_Transport (mf_Adapter m) = TransportConnect → told_socket p).
Proof.
  unfold Generic.PrepareWith. destruct (mf_Launch m) as [t|] eqn:Et; [|done].
  destruct (terminal && negb (is_some (tm_Terminal t))) eqn:Eterm; [done|].
  destruct (options (l_Options spec)) as [opts|] eqn:Eo; [|done]. cbn [rbind].
  destruct (required m exists_ (tm_Require t) spec opts) as [program|] eqn:Er; [|done]. cbn [rbind].
  destruct (workDir isDir spec) as [cwd|]; [|done]. cbn [rbind]. cbv zeta.
  destruct (adapter _ _) as [[p0 vars0]|] eqn:Ea; [|done]. cbn [rbind]. intros [= <-].
  set (vars := launch_vars spec cwd vars0). exists t, vars.
  assert (Ht : typed (varKinds m false) vars) by (eapply launch_typed, adapter_typed; done).
  destruct (launch_checked t Et) as [Hc1 Hc2]. split_and!; try done.
  - unfold vars, launch_vars. rewrite !lookup_insert_ne by done. apply lookup_insert_eq.
  - unfold vars, launch_vars. rewrite !lookup_insert_ne by done. apply lookup_insert_eq.
  - by apply options_spec in Eo as [H _].
  - cbn. unfold required in Er. destruct (String.eqb_spec (first_input spec opts (tm_Require t)) ""); [done|].
    destruct (negb (l_Program spec =?s "") && _); [done|]. by injection Er as <-.
  - intros ->. by destruct (tm_Terminal t).
  - intros s [Hs|Hs]; [by apply (checked_template _ _ _ Hc1 Ht)|]. destruct (tm_Terminal t) as [terminal'|]; [|done].
    by apply (checked_template _ _ _ (Hc2 _ eq_refl) Ht).
  - cbn. unfold Generic.adapter in Ea. destruct (_ =?s RuntimePython).
    + destruct (resolvePython _ _); [|done]. by injection Ea as <- _.
    + destruct (find m); [|done..]. injection Ea as <- _. by destruct (_ =?s TransportConnect).
  - intros Htr path. by apply (connect_args _ _ _ _ path Ea Htr).
Qed.
End spec.

(** ** A launch of a Go program *)

Definition go_spec : LaunchSpec := mkLaunchSpec "" "/w/main.go" ["-v"] "" [] false false [("mode", "test")] "/w" ""%string.
Definition dlv_found (m : Manifest) : found := FoundAt "/usr/bin/dlv".
Definition no_python (m : Manifest) (i : PythonInput) : result Runtime := Err (invalid "no python").

Lemma prepare_spec_witness : ∃ p t vars,
  PrepareWith go_manifest to_lower dlv_found no_python (fun _ => true) (fun _ => true) go_spec false = Ok p
  ∧ mf_Launch go_manifest = Some t ∧ vars !! VarArgs = Some (VStrings ["-v"%string])
  ∧ pr_Arguments p = Render (tm_Arguments t) vars.
Proof.
  assert (Hok : is_ok (PrepareWith go_manifest to_lower dlv_found no_python (fun _ => true) (fun _ => true) go_spec false) = true)
    by (vm_compute; reflexivity).
  destruct (PrepareWith go_manifest to_lower dlv_found no_python (fun _ => true) (fun _ => true) go_spec false) as [p|] eqn:E;
    [|discriminate Hok].
  destruct (prepare_spec any_url any_glob go_manifest to_lower dlv_found no_python (fun _ => true) (fun _ => true) go_manifest_valid
    ltac:(repeat constructor; cbn; intuition discriminate) go_spec false p E) as (t & vars & H1 & _ & _ & H2 & _ & _ & _ & H3 & _).
  exists p, t, vars. split; [reflexivity|]. split; [exact H1|]. split; [exact H2|exact H3].
Defined.
