(* ===== verification/Registry.v ===== *)
(** * The registry of adapter manifests

    src/internal/adapters/registry.go: which of the bundled and the user's
    manifests are loaded. Reading the files is an argument: what [Parse] gave
    for each, and whether the user's directory is trusted. [load_spec]: one
    manifest at most per name and per language, and none left out without a
    word. *)

From S2P Require Import Prelude GoStrings GoPath Manifest Template Validate.
From Stdlib Require Import Ascii Bool.
Open Scope Z_scope.

Record Problem := mkProblem { pb_Path : string; pb_Err : string }.

(** Reading a user's file: it is no regular file; an error; a manifest. *)
Inductive user_file := errNotAFile | UserFailed (why : string) | UserRead (m : Manifest).
(** Reading the user's directory: there is none; an error, or it is not
    trusted; its entries, by name. *)
Inductive user_dir := NoDir | DirFailed (why : string) | DirEntries (entries : list (string * user_file)).

Record LoadConfig := mkLoadConfig {
  lc_UserDir : string; lc_Builtin : list string;
  lc_bundled : list (string * (string + Manifest)); lc_user : user_dir }.

Definition manifestPath (m : Manifest) : string :=
  if mf_Path m =?s "" then "bundled:" +:+ mf_Name m +:+ ".json" else mf_Path m.

(** Each step gives the manifests it keeps and the problems it reports. *)
Abbreviation kept := (list Manifest * list Problem)%type.

Fixpoint readBundled (files : list (string * (string + Manifest))) : kept :=
  match files with
  | [] => ([], [])
  | (name, r) :: rest =>
    let '(ms, ps) := readBundled rest in
    match r with
    | inr m => ((m <| mf_Source := SourceBundled |>) :: ms, ps)
    | inl e => (ms, mkProblem ("bundled:" +:+ name) e :: ps)
    end
  end.

Fixpoint read_entries (dir : string) (entries : list (string * user_file)) : kept :=
  match entries with
  | [] => ([], [])
  | (name, r) :: rest =>
    let '(ms, ps) := read_entries dir rest in
    if negb (has_suffix ".json" name) then (ms, ps)
    else
      let p := Join dir name in
      match r with
      | errNotAFile => (ms, ps)
      | UserFailed e => (ms, mkProblem p e :: ps)
      | UserRead m => ((m <| mf_Source := SourceUser |> <| mf_Path := p |>) :: ms, ps)
      end
  end.
Definition readUser (cfg : LoadConfig) : kept :=
  if lc_UserDir cfg =?s "" then ([], [])
  else match lc_user cfg with
       | NoDir => ([], [])
       | DirFailed e => ([], [mkProblem (lc_UserDir cfg) e])
       | DirEntries entries => read_entries (lc_UserDir cfg) entries
       end.

(** [slices.DeleteFunc] of the manifests with an error, each reported. *)
Fixpoint leave_out (err : Manifest → option string) (ms : list Manifest) : kept :=
  match ms with
  | [] => ([], [])
  | m :: rest =>
    let '(ks, ps) := leave_out err rest in
    match err m with
    | Some e => (ks, mkProblem (manifestPath m) e :: ps)
    | None => (m :: ks, ps)
    end
  end.

Definition admit_err (builtin : list string) (m : Manifest) : option string :=
  let lang := LanguageName m in
  let goDriver := bool_decide (lang ∈ builtin) in
  if Builtin m && negb goDriver then Some ("language " +:+ quote lang +:+ " is marked builtin, but no built-in driver serves it")
  else if negb (lang =?s "") && negb (Builtin m) && goDriver
  then Some ("language " +:+ quote lang +:+ " has a built-in driver: its manifest must set language.builtin")
  else None.
Definition admitted (builtin : list string) : list Manifest → kept := leave_out (admit_err builtin).

Definition count_of (f : Manifest → string) (x : string) (ms : list Manifest) : nat := length (List.filter (fun m => f m =?s x) ms).
Definition conflict_err (ms : list Manifest) (m : Manifest) : option string :=
  if (1 <? count_of mf_Name (mf_Name m) ms)%nat
  then Some ("another user manifest is also named " +:+ quote (mf_Name m) +:+ "; both are ignored")
  else if negb (LanguageName m =?s "") && (1 <? count_of LanguageName (LanguageName m) ms)%nat
  then Some ("another user manifest also serves language " +:+ quote (LanguageName m) +:+ "; both are ignored")
  else None.
Definition dropConflicts (ms : list Manifest) : kept := leave_out (conflict_err ms) ms.

(** Whether the user's [u] replaces the bundled [b]. *)
Definition replaces (u b : Manifest) : bool :=
  (mf_Name b =?s mf_Name u) || (negb (LanguageName b =?s "") && (LanguageName b =?s LanguageName u)).
Fixpoint replace_all (user bundled : list Manifest) : list Manifest * list Manifest :=
  match user with
  | [] => ([], bundled)
  | u :: rest =>
    let replaced := map mf_Name (List.filter (replaces u) bundled) in
    let '(user, bundled) := replace_all rest (List.filter (fun b => negb (replaces u b)) bundled) in
    ((u <| mf_Replaces := join ", " replaced |>) :: user, bundled)
  end.

Definition name_le (a b : Manifest) : Prop := String.leb (mf_Name a) (mf_Name b) = true.
#[global] Instance name_le_dec a b : Decision (name_le a b).
Proof. unfold name_le. apply _. Defined.
Definition path_le (a b : Problem) : Prop := String.leb (pb_Path a) (pb_Path b) = true.
#[global] Instance path_le_dec a b : Decision (path_le a b).
Proof. unfold path_le. apply _. Defined.

Record registry := mkRegistry { rg_adapters : list Manifest; rg_problems : list Problem }.

Definition Load (cfg : LoadConfig) : registry :=
  let '(bundled, p1) := readBundled (lc_bundled cfg) in
  let '(bundled, p2) := admitted (lc_Builtin cfg) bundled in
  let '(user, p3) := readUser cfg in
  let '(user, p4) := admitted (lc_Builtin cfg) user in
  let '(user, p5) := dropConflicts user in
  let '(user, bundled) := replace_all user bundled in
  mkRegistry (merge_sort name_le (bundled ++ user)) (merge_sort path_le (p1 ++ p2 ++ p3 ++ p4 ++ p5)).

Definition Adapter (r : registry) (name : string) : option Manifest := List.find (fun m => mf_Name m =?s name) (rg_adapters r).
Definition Language_ (r : registry) (lang : string) : option Manifest :=
  List.find (fun m => negb (lang =?s "") && (LanguageName m =?s lang)) (rg_adapters r).
Definition Resolve (r : registry) (s : string) : option Manifest :=
  match Adapter r s with Some m => Some m | None => Language_ r s end.

(** ** Lemmas *)

Lemma leave_out_spec err ms :
  (leave_out err ms).1 = List.filter (fun m => match err m with Some _ => false | None => true end) ms
  ∧ ∀ m e, In m ms → err m = Some e → In (mkProblem (manifestPath m) e) (leave_out err ms).2.
Proof.
  induction ms as [|m ms [IH1 IH2]]; cbn; [done|]. destruct (leave_out err ms) as [ks ps]. cbn in *.
  destruct (err m) as [e|] eqn:E; cbn; rewrite IH1.
  - split; [done|]. intros m' e' [<-|Hin] He; [left; congruence|right; by apply IH2].
  - split; [done|]. intros m' e' [<-|Hin] He; [congruence|by apply IH2].
Qed.

Lemma leave_out_In err ms m : In m (leave_out err ms).1 ↔ In m ms ∧ err m = None.
Proof.
  rewrite (proj1 (leave_out_spec err ms)), List.filter_In. destruct (err m); naive_solver.
Qed.

(** A list in which no key is counted twice has no two with one. *)
Lemma count_unique (f : Manifest → string) (ok : Manifest → bool) ms :
  (∀ m, In m ms → ok m = true → (count_of f (f m) ms ≤ 1)%nat) → List.NoDup (map f (List.filter ok ms)).
Proof.
  induction ms as [|m ms IH]; intros H; cbn; [constructor|].
  assert (Hms : List.NoDup (map f (List.filter ok ms))).
  { apply IH. intros x Hx Ho. specialize (H x (or_intror Hx) Ho). unfold count_of in *. cbn in H. destruct (f m =?s f x); cbn in H; lia. }
  destruct (ok m) eqn:E; [|done]. cbn. constructor; [|done]. intros (x & Ex & [Hx Ho]%List.filter_In)%List.in_map_iff.
  specialize (H m (or_introl eq_refl) E). unfold count_of in H. cbn in H. rewrite String.eqb_refl in H. cbn in H.
  assert (Hin : In x (List.filter (fun y => f y =?s f m) ms)) by (apply List.filter_In; by rewrite Ex, String.eqb_refl).
  destruct (List.filter (fun y => f y =?s f m) ms) as [|y l]; [done|cbn in H; lia].
Qed.

Definition languages (ms : list Manifest) : list string := List.filter (fun l => negb (l =?s "")) (map LanguageName ms).
Definition unique (ms : list Manifest) : Prop := List.NoDup (map mf_Name ms) ∧ List.NoDup (languages ms).

Lemma languages_filter ms : languages ms = map LanguageName (List.filter (fun m => negb (LanguageName m =?s "")) ms).
Proof. unfold languages. induction ms as [|m ms IH]; cbn; [done|]. destruct (negb _); cbn; by rewrite IH. Qed.

Lemma filter_filter {A} (p q : A → bool) l : List.filter p (List.filter q l) = List.filter (fun x => q x && p x) l.
Proof. induction l as [|x l IH]; cbn; [done|]. destruct (q x); cbn; [|done]. destruct (p x); by rewrite IH. Qed.

(** No two of the user's manifests that are kept share a name or a language. *)
Lemma dropConflicts_unique ms : unique (dropConflicts ms).1.
Proof.
  unfold dropConflicts. rewrite (proj1 (leave_out_spec _ ms)). split.
  - apply count_unique. intros m Hm. unfold conflict_err. destruct (Nat.ltb_spec 1 (count_of mf_Name (mf_Name m) ms)); [done|lia].
  - rewrite languages_filter, filter_filter. apply count_unique. intros m Hm. unfold conflict_err.
    destruct (1 <? _)%nat; [done|]. destruct (negb (LanguageName m =?s "")); cbn [andb]; [|done].
    destruct (Nat.ltb_spec 1 (count_of LanguageName (LanguageName m) ms)); [done|lia].
Qed.

Lemma unique_filter p ms : unique ms → unique (List.filter p ms).
Proof.
  intros [H1 H2]. split; [by apply NoDup_map_filter|]. rewrite languages_filter in *. rewrite filter_filter.
  replace (List.filter (fun x => p x && negb (LanguageName x =?s "")) ms)
    with (List.filter p (List.filter (fun x => negb (LanguageName x =?s "")) ms)) by (rewrite filter_filter; apply List.filter_ext; intros; apply andb_comm).
  by apply NoDup_map_filter.
Qed.

Lemma replace_all_spec user bundled :
  let '(us, bs) := replace_all user bundled in
  map mf_Name us = map mf_Name user ∧ map LanguageName us = map LanguageName user
  ∧ bs = List.filter (fun b => negb (existsb (fun u => replaces u b) user)) bundled
  ∧ (∀ u, In u user → ∃ names, In (u <| mf_Replaces := names |>) us)
  ∧ ∀ x, In x us → ∃ u names, In u user ∧ x = u <| mf_Replaces := names |>.
Proof.
  revert bundled. induction user as [|u user IH]; intros bundled; cbn.
  { split_and!; try done. symmetry. apply List.filter_true. }
  specialize (IH (List.filter (fun b => negb (replaces u b)) bundled)).
  destruct (replace_all user _) as [us bs]. destruct IH as (H1 & H2 & H3 & H4 & H5). cbn. split_and!.
  - by rewrite <- H1.
  - by rewrite <- H2.
  - rewrite H3, filter_filter. apply List.filter_ext. intros b. by rewrite negb_orb.
  - intros x [<-|Hx]; [eexists; by left|]. destruct (H4 x Hx) as [n Hn]. exists n. by right.
  - intros x [<-|Hx]; [exists u; eexists; split; [by left|done]|]. destruct (H5 x Hx) as (w & n & Hw & ->). exists w, n. auto.
Qed.

(** * What the registry loads

    [load_spec]: at most one manifest per name and per language, a language
    of a Go driver only by a builtin manifest and the other way round, a
    user's manifest before the bundled ones it replaces, and nothing that was
    read left out but with a problem or for one that replaces it. *)

Open Scope Z_scope.

Lemma NoDup_app_disjoint {A} (l k : list A) :
  List.NoDup l → List.NoDup k → (∀ x, In x l → ¬ In x k) → List.NoDup (l ++ k).
Proof.
  intros Hl Hk. induction Hl as [|x l Hx Hl IH]; intros Hd; [done|]. cbn. constructor.
  - intros [?|?]%List.in_app_iff; [done|]. by apply (Hd x (or_introl eq_refl)).
  - apply IH. intros y Hy. apply Hd. by right.
Qed.

Lemma languages_app a b : languages (a ++ b) = languages a ++ languages b.
Proof. unfold languages. by rewrite map_app, List.filter_app. Qed.

Lemma languages_In l ms : In l (languages ms) ↔ l ≠ ""%string ∧ ∃ m, In m ms ∧ LanguageName m = l.
Proof.
  unfold languages. rewrite List.filter_In, List.in_map_iff, negb_true_iff, String.eqb_neq. naive_solver.
Qed.

Lemma unique_perm a b : a ≡ₚ b → unique a → unique b.
Proof.
  intros Hp [H1 H2]. split.
  - eapply (Permutation_NoDup (l := map mf_Name a)); [|done]. by apply Permutation_map.
  - rewrite languages_filter in *. eapply Permutation_NoDup; [|exact H2]. apply Permutation_map.
    clear -Hp. induction Hp as [|x l l' _ IH|x y l|? ? ? _ IH1 _ IH2]; cbn; [done| | |by etrans].
    + destruct (negb _); [by constructor|done].
    + destruct (negb (LanguageName y =?s "")), (negb (LanguageName x =?s "")); try done. constructor.
Qed.

(** The user's manifests and the bundled ones none of them replaces. *)
Lemma replace_unique user bundled :
  unique user → unique bundled → let '(us, bs) := replace_all user bundled in unique (bs ++ us).
Proof.
  intros Hu Hb. pose proof (replace_all_spec user bundled) as H. destruct (replace_all user bundled) as [us bs].
  destruct H as (Hn & Hl & -> & _ & _).
  set (bs := List.filter _ bundled). assert (Hbs : unique bs) by by apply unique_filter.
  assert (Hno : ∀ b u, In b bs → In u user → replaces u b = false).
  { intros b u [_ Hr]%List.filter_In Hin. apply negb_true_iff in Hr. destruct (replaces u b) eqn:E; [|done].
    rewrite <- Hr. symmetry. apply existsb_exists. eauto. }
  assert (Hlu : languages us = languages user) by (unfold languages; by rewrite Hl).
  destruct Hu as [Hu1 Hu2], Hbs as [Hb1 Hb2]. split.
  - rewrite map_app, Hn. apply NoDup_app_disjoint; [done..|].
    intros x (b & <- & Hin)%List.in_map_iff (u & E & Hu)%List.in_map_iff.
    specialize (Hno b u Hin Hu). unfold replaces in Hno. by rewrite E, String.eqb_refl in Hno.
  - rewrite languages_app, Hlu. apply NoDup_app_disjoint; [done..|].
    intros x (Hne & b & Hin & <-)%languages_In (_ & u & Hu & E)%languages_In.
    specialize (Hno b u Hin Hu). unfold replaces in Hno. apply String.eqb_neq in Hne. rewrite E, String.eqb_refl, Hne in Hno.
    by rewrite orb_true_r in Hno.
Qed.

(** ** Finding a manifest *)

Lemma find_ext {A} (p q : A → bool) l : (∀ x, p x = q x) → List.find p l = List.find q l.
Proof. intros H. induction l as [|x l IH]; cbn; [done|]. by rewrite H, IH. Qed.

Lemma find_unique (f : Manifest → string) (ok : Manifest → bool) ms m :
  List.NoDup (map f (List.filter ok ms)) → In m ms → ok m = true →
  List.find (fun x => ok x && (f x =?s f m)) ms = Some m.
Proof.
  induction ms as [|x ms IH]; [done|]. cbn. intros Hnd [->|Hin] Hm.
  - by rewrite Hm, String.eqb_refl.
  - destruct (ok x) eqn:Ex; cbn in *; [|by apply IH]. apply List.NoDup_cons_iff in Hnd as [Hx Hnd].
    destruct (String.eqb_spec (f x) (f m)) as [E|_]; [|by apply IH]. destruct Hx. rewrite E. apply (List.in_map f), List.filter_In. done.
Qed.

Lemma Adapter_unique r m : unique (rg_adapters r) → In m (rg_adapters r) → Adapter r (mf_Name m) = Some m.
Proof.
  intros [H _] Hin. unfold Adapter. rewrite <- (find_unique mf_Name (fun _ => true) (rg_adapters r) m); [done| |done|done].
  by rewrite List.filter_true.
Qed.

Lemma Language_unique r m :
  unique (rg_adapters r) → In m (rg_adapters r) → LanguageName m ≠ ""%string → Language_ r (LanguageName m) = Some m.
Proof.
  intros [_ H] Hin Hne%String.eqb_neq. unfold Language_. rewrite Hne. cbn [negb andb]. rewrite languages_filter in H.
  rewrite <- (find_unique LanguageName (fun x => negb (LanguageName x =?s "")) (rg_adapters r) m); [|done|done|by rewrite Hne].
  apply find_ext. intros x. destruct (String.eqb_spec (LanguageName x) (LanguageName m)) as [->|]; [by rewrite Hne|by rewrite andb_false_r].
Qed.

(** ** Loading *)

(** What was read, and of that what fits the Go drivers. *)
Definition read_bundled (cfg : LoadConfig) : list Manifest := (readBundled (lc_bundled cfg)).1.
Definition read_user (cfg : LoadConfig) : list Manifest := (readUser cfg).1.
Definition fit_bundled (cfg : LoadConfig) : list Manifest := (admitted (lc_Builtin cfg) (read_bundled cfg)).1.
Definition fit_user (cfg : LoadConfig) : list Manifest := (admitted (lc_Builtin cfg) (read_user cfg)).1.
Definition kept_user (cfg : LoadConfig) : list Manifest := (dropConflicts (fit_user cfg)).1.

Lemma Load_eq cfg :
  rg_adapters (Load cfg) ≡ₚ (replace_all (kept_user cfg) (fit_bundled cfg)).2 ++ (replace_all (kept_user cfg) (fit_bundled cfg)).1
  ∧ rg_problems (Load cfg) ≡ₚ (readBundled (lc_bundled cfg)).2 ++ (admitted (lc_Builtin cfg) (read_bundled cfg)).2
      ++ (readUser cfg).2 ++ (admitted (lc_Builtin cfg) (read_user cfg)).2 ++ (dropConflicts (fit_user cfg)).2.
Proof.
  unfold Load, kept_user, fit_user, fit_bundled, read_user, read_bundled.
  destruct (readBundled (lc_bundled cfg)) as [b0 p1]. cbn [fst snd]. destruct (admitted (lc_Builtin cfg) b0) as [b1 p2]. cbn [fst snd].
  destruct (readUser cfg) as [u0 p3]. cbn [fst snd]. destruct (admitted (lc_Builtin cfg) u0) as [u1 p4]. cbn [fst snd].
  destruct (dropConflicts u1) as [u2 p5]. cbn [fst snd]. destruct (replace_all u2 b1) as [us bs]. cbn [fst snd rg_adapters rg_problems].
  split; apply merge_sort_Permutation.
Qed.

Lemma perm_In {A} (l k : list A) x : l ≡ₚ k → In x l ↔ In x k.
Proof. intros H. split; apply Permutation_in; [done|by symmetry]. Qed.

Lemma admit_fits builtin m :
  admit_err builtin m = None → (Builtin m = true → LanguageName m ∈ builtin)
    ∧ (LanguageName m ≠ ""%string → LanguageName m ∈ builtin → Builtin m = true).
Proof.
  unfold admit_err. cbv zeta. case_bool_decide as H; destruct (Builtin m); cbn; rewrite ?andb_true_r; try done.
  destruct (String.eqb_spec (LanguageName m) ""); naive_solver.
Qed.

Lemma reported_admitted cfg ms m :
  In m ms → In m (admitted (lc_Builtin cfg) ms).1 ∨ ∃ e, In (mkProblem (manifestPath m) e) (admitted (lc_Builtin cfg) ms).2.
Proof.
  intros Hin. destruct (admit_err (lc_Builtin cfg) m) as [e|] eqn:E.
  - right. exists e. by apply (leave_out_spec _ ms).
  - left. by apply leave_out_In.
Qed.

(** The registry, when the bundled manifests are one per name and language:
    it has at most one manifest of a name and one of a language; a builtin
    one has a Go driver's language, and only those do; a manifest of
    the user's that it has is the one its name and its language find; and
    of what was read, a bundled manifest is there, or has a problem, or a
    user's manifest of its name or language is there instead, and a user's is
    there (with what it replaces noted) or has a problem. *)
Theorem load_spec cfg :
  unique (fit_bundled cfg) →
  let r := Load cfg in
  unique (rg_adapters r)
  ∧ (∀ m, In m (rg_adapters r) → (Builtin m = true → LanguageName m ∈ lc_Builtin cfg)
       ∧ (LanguageName m ≠ ""%string → LanguageName m ∈ lc_Builtin cfg → Builtin m = true))
  ∧ (∀ m, In m (rg_adapters r) → Adapter r (mf_Name m) = Some m
       ∧ (LanguageName m ≠ ""%string → Language_ r (LanguageName m) = Some m))
  ∧ (∀ m, In m (read_bundled cfg) →
       In m (rg_adapters r) ∨ (∃ e, In (mkProblem (manifestPath m) e) (rg_problems r))
       ∨ ∃ u, In u (rg_adapters r) ∧ replaces u m = true)
  ∧ ∀ m, In m (read_user cfg) →
       (∃ names, In (m <| mf_Replaces := names |>) (rg_adapters r)) ∨ ∃ e, In (mkProblem (manifestPath m) e) (rg_problems r).
Proof.
  intros Hb. destruct (Load_eq cfg) as [Ha Hp]. set (r := Load cfg) in *.
  pose proof (replace_unique (kept_user cfg) (fit_bundled cfg) (dropConflicts_unique _) Hb) as Hu.
  pose proof (replace_all_spec (kept_user cfg) (fit_bundled cfg)) as Hs.
  destruct (replace_all (kept_user cfg) (fit_bundled cfg)) as [us bs]. cbn [fst snd] in *. destruct Hs as (_ & _ & Hbs & Hus & Hfu).
  assert (Hunique : unique (rg_adapters r)) by (eapply unique_perm; [by symmetry|done]).
  assert (Hrep : ∀ u x names, replaces (u <| mf_Replaces := names |>) x = replaces u x) by done.
  assert (Hfrom : ∀ m, In m (rg_adapters r) → admit_err (lc_Builtin cfg) m = None).
  { intros m [Hm|Hm]%(perm_In _ _ _ Ha)%List.in_app_iff.
    - rewrite Hbs in Hm. apply List.filter_In in Hm as [Hm _]. by apply leave_out_In in Hm as [_ ?].
    - destruct (Hfu m Hm) as (u & names & Hk & ->). apply leave_out_In in Hk as [Hk _]. by apply leave_out_In in Hk as [_ ?]. }
  split_and!; [done| |by intros m Hm; split; [apply Adapter_unique|apply Language_unique]| |].
  - intros m Hm. by apply admit_fits, Hfrom.
  - intros m Hm. destruct (reported_admitted cfg (read_bundled cfg) m Hm) as [Hin|[e He]].
    + destruct (existsb (fun u => replaces u m) (kept_user cfg)) eqn:E.
      * right; right. apply existsb_exists in E as (u & Hk & Hr). destruct (Hus u Hk) as [names Hn]. eexists. split; [|by rewrite Hrep].
        apply (perm_In _ _ _ Ha), List.in_app_iff. by right.
      * left. apply (perm_In _ _ _ Ha), List.in_app_iff. left. rewrite Hbs. apply List.filter_In. by rewrite E.
    + right; left. exists e. apply (perm_In _ _ _ Hp). rewrite !List.in_app_iff. auto.
  - intros m Hm. destruct (reported_admitted cfg (read_user cfg) m Hm) as [Hin|[e He]].
    + destruct (conflict_err (fit_user cfg) m) as [e|] eqn:E.
      * right. exists e. apply (perm_In _ _ _ Hp). rewrite !List.in_app_iff. do 4 right. by apply (leave_out_spec _ (fit_user cfg)).
      * left. destruct (Hus m) as [names Hn]; [by apply leave_out_In|]. exists names. apply (perm_In _ _ _ Ha), List.in_app_iff. by right.
    + right. exists e. apply (perm_In _ _ _ Hp). rewrite !List.in_app_iff. auto.
Qed.

(** ** A user's manifest for Go, before the bundled one *)

Definition my_go : Manifest := go_manifest <| mf_Name := "my-delve"%string |>.
Definition sample_config : LoadConfig :=
  mkLoadConfig "/home/me/adapters" ["dotnet"%string]
    [("delve.json", inr go_manifest); ("broken.json", inl "parse: unexpected end of JSON input")]%string
    (DirEntries [("my-delve.json", UserRead my_go); ("notes.txt", errNotAFile)]%string).
Definition my_go_loaded : Manifest :=
  my_go <| mf_Source := SourceUser |> <| mf_Path := "/home/me/adapters/my-delve.json"%string |> <| mf_Replaces := "delve"%string |>.

Lemma load_spec_witness :
  Language_ (Load sample_config) "go" = Some my_go_loaded ∧ map pb_Path (rg_problems (Load sample_config)) = ["bundled:broken.json"%string].
Proof.
  split; [|vm_compute; reflexivity].
  destruct (load_spec sample_config) as (_ & _ & H & _).
  - split; vm_compute; repeat constructor; cbn; intuition discriminate.
  - apply (H my_go_loaded); [vm_compute; left; reflexivity|discriminate].
Defined.
