(* ===== verification/Discovery.v ===== *)
(** * Finding an adapter and its interpreter

    src/internal/adapters/find.go, python.go, dirs.go on a Unix host. What
    the system answers is [pythonEnv], as in the code: [resolve] gives with
    its result the interpreters it ran, in their order. [resolve_safe]: which
    those can be. [venvDirs_owned]: where venvs are looked for. *)

From S2P Require Import Prelude GoStrings GoPath Manifest Validate Generic.
From Stdlib Require Import Ascii Bool.
Open Scope Z_scope.

Definition PythonFromOption : string := "option".
Definition PythonFromEnv : string := "env".
Definition PythonFromVirtualEnv : string := "virtualenv".
Definition PythonFromVenv : string := "venv".
Definition PythonFromPath : string := "path".
Definition RootInstalled : string := "installed".
Definition RootPython : string := "python".

Record probeResult := mkProbe { pb_Executable : string; pb_Version : string; pb_Root : string; pb_ModuleVersion : string }.

(** What discovery reads from the system; an error is its text. *)
Record pythonEnv := mkPythonEnv {
  getenv : string → string; lookPath : string → string + string; stat : string → option string; dataDir : option string;
  probe : list string → string → string → string + probeResult; trust : string → option string; owned : string → bool }.

Record candidate := mkCandidate { cd_argv : list string; cd_source : string }.

(** [filepath.Join] of three. *)
Definition Join3 (a b c : string) : string := Join (Join a b) c.

Definition installedEntry (m : Manifest) (dir : string) : string := Join dir (ad_Entry (mf_Adapter m)).

(** ** Directories searched for a venv *)

(** The loop of [venvDirs], up from [dir]; [None] when its fuel runs out. *)
Fixpoint venv_walk (fuel : nat) (owned : string → bool) (dir : string) (dirs : list string) : option (list string) :=
  if dir =?s "" then Some dirs
  else match fuel with
       | O => None
       | S n =>
         let dir := Clean dir in
         if negb (owned dir) then Some dirs
         else
           let dirs := match dirs with d :: _ => if d =?s dir then dirs else dirs ++ [dir] | [] => dirs ++ [dir] end in
           if Dir dir =?s dir then Some dirs else venv_walk n owned (Dir dir) dirs
       end.
Definition venv_all (inp : PythonInput) (owned : string → bool) : option (list string) :=
  let dirs := if negb (in_Cwd inp =?s "") && owned (in_Cwd inp) then [Clean (in_Cwd inp)] else [] in
  venv_walk (String.length (in_ProgramDir inp) + 3) owned (in_ProgramDir inp) dirs.
Definition venvDirs (inp : PythonInput) (owned : string → bool) : list string := default [] (venv_all inp owned).

(** ** Versions *)

Definition majorMinor (s : string) : option (Z * Z) :=
  match split_on "." s with
  | a :: b :: _ => match atoi a, atoi b with Some x, Some y => Some (x, y) | _, _ => None end
  | _ => None
  end.
Definition versionAtLeast (version minimum : string) : bool :=
  match majorMinor version, majorMinor minimum with
  | Some (x, y), Some (a, b) => (a <? x) || ((x =? a) && (b <=? y))
  | _, _ => false
  end.

Section resolve.
Context (e : pythonEnv) (m : Manifest) (py : Python).

Definition installedRoot : option string :=
  match dataDir e with
  | None => None
  | Some data =>
    let root := Join3 data (mf_Name m) (mf_Version m) in
    match stat e (installedEntry m root) with Some _ => None | None => Some root end
  end.

(** [command] *)
Definition command (s : string) : string + string :=
  if negb (contains_any "/\" s) then
    match lookPath e s with
    | inl why => inl ("not found on PATH: " +:+ why)
    | inr p => inr p
    end
  else match stat e s with Some why => inl ("not found: " +:+ why) | None => inr s end.

Definition explicit (inp : PythonInput) : result (option candidate) :=
  if negb (in_Interpreter inp =?s "") then
    match command (in_Interpreter inp) with
    | inl why => Err (NewError CodeInvalidRequest ("--opt " +:+ py_Option py +:+ "=" +:+ in_Interpreter inp +:+ ": " +:+ why))
    | inr exe => Ok (Some (mkCandidate [exe] PythonFromOption))
    end
  else if py_Env py =?s "" then Ok None
  else
    let v := getenv e (py_Env py) in
    if v =?s "" then Ok None
    else match command v with
         | inl why => Err (NewError CodeAdapterMissing (py_Env py +:+ "=" +:+ v +:+ ": " +:+ why))
         | inr exe => Ok (Some (mkCandidate [exe] PythonFromEnv))
         end.

(** [venvRoot]: no venv; one that others can write; its interpreter's
    directory and name. *)
Inductive venv_root := NoVenv | Untrusted (why : string) | Venv (bin exe : string).
Definition venvRoot (root : string) : venv_root :=
  let cfg := Join root "pyvenv.cfg" in
  match stat e cfg with
  | Some _ => NoVenv
  | None =>
    let bin := Join root "bin" in
    match trust e root with
    | Some why => Untrusted why
    | None => match trust e bin with
              | Some why => Untrusted why
              | None => match trust e cfg with Some why => Untrusted why | None => Venv bin "python" end
              end
    end
  end.

Definition virtualEnv (inp : PythonInput) : result (option candidate) :=
  if in_VirtualEnv inp =?s "" then Ok None
  else match venvRoot (in_VirtualEnv inp) with
       | NoVenv => Err (NewError CodeAdapterMissing ("$VIRTUAL_ENV=" +:+ in_VirtualEnv inp +:+ " has no pyvenv.cfg"))
       | Untrusted why => Err (NewError CodeAdapterMissing ("$VIRTUAL_ENV=" +:+ in_VirtualEnv inp +:+ " is not safe to run: " +:+ why))
       | Venv bin exe => Ok (Some (mkCandidate [Join bin exe] PythonFromVirtualEnv))
       end.

Fixpoint first_venv (roots : list string) : result (option candidate) :=
  match roots with
  | [] => Ok None
  | root :: rest =>
    match venvRoot root with
    | NoVenv => first_venv rest
    | Untrusted why => Err (NewError CodeAdapterMissing ("the virtual environment " +:+ root +:+ " is not safe to run: " +:+ why))
    | Venv bin exe => Ok (Some (mkCandidate [Join bin exe] PythonFromVenv))
    end
  end.
Definition venv (inp : PythonInput) : result (option candidate) :=
  first_venv (List.flat_map (fun dir => map (Join dir) (py_Venvs py)) (venvDirs inp (owned e))).

Definition probeFailed (c : candidate) (why : string) : Error :=
  let msg := hd ""%string (cd_argv c) +:+ " (from " +:+ cd_source c +:+ ") does not run: " +:+ why in
  NewError (if cd_source c =?s PythonFromOption then CodeInvalidRequest else CodeAdapterMissing) msg.

Definition withRoot (c : candidate) (p : probeResult) : result Runtime :=
  let exe := if pb_Executable p =?s "" then hd ""%string (cd_argv c) else pb_Executable p in
  let rt := mkRuntime exe (pb_Version p) (cd_source c) in
  let oldEnough := (py_MinVersion py =?s "") || versionAtLeast (pb_Version p) (py_MinVersion py) in
  match installedRoot, oldEnough with
  | Some root, true => Ok (rt root RootInstalled (mf_Version m))
  | installed, _ =>
    if negb (pb_Root p =?s "") then
      match stat e (Join (pb_Root p) (ad_Entry (mf_Adapter m))) with
      | Some _ => Err (NewError CodeAdapterMissing (py_Module py +:+ " " +:+ pb_ModuleVersion p +:+ " for " +:+ exe +:+ " has no " +:+ ad_Entry (mf_Adapter m)))
      | None => Ok (rt (pb_Root p) RootPython (pb_ModuleVersion p))
      end
    else match installed with
         | Some _ => Err (NewError CodeAdapterMissing (mf_Name m +:+ " " +:+ mf_Version m +:+ " needs Python " +:+ py_MinVersion py +:+ "+, and "
                                                       +:+ exe +:+ " is Python " +:+ pb_Version p))
         | None => Err (NewError CodeAdapterMissing (py_Module py +:+ " is not installed for " +:+ exe +:+ " (Python " +:+ pb_Version p +:+ ")"))
         end
  end.

(** What was run, and the result. *)
Definition probed : Type := list (list string) * result Runtime.

(** The commands tried on PATH; [None]: none of them runs. *)
Fixpoint try_commands (dir : string) (cmds : list (list string)) : list (list string) * option (result Runtime) :=
  match cmds with
  | [] => ([], None)
  | cmd :: rest =>
    match lookPath e (hd ""%string cmd) with
    | inl _ => try_commands dir rest
    | inr exe =>
      let argv := exe :: tl cmd in
      match probe e argv dir (py_Module py) with
      | inl _ => let '(ran, r) := try_commands dir rest in (argv :: ran, r)
      | inr p => ([argv], Some (withRoot (mkCandidate argv PythonFromPath) p))
      end
    end
  end.

Definition run_candidate (inp : PythonInput) (c : candidate) : probed :=
  ([cd_argv c], match probe e (cd_argv c) (in_Cwd inp) (py_Module py) with
                | inl why => Err (probeFailed c why)
                | inr p => withRoot c p
                end).

(** The first of several ways that has a candidate. *)
Fixpoint first_candidate (ways : list (result (option candidate))) : result (option candidate) :=
  match ways with
  | [] => Ok None
  | Ok None :: rest => first_candidate rest
  | r :: _ => r
  end.

Definition resolve_with (inp : PythonInput) : probed :=
  match first_candidate [explicit inp; virtualEnv inp; venv inp] with
  | Err why => ([], Err why)
  | Ok (Some c) => run_candidate inp c
  | Ok None =>
    let '(ran, r) := try_commands (in_Cwd inp) (py_Commands py) in
    (ran, match r with
          | Some r => r
          | None => Err (NewError CodeAdapterMissing ("no Python interpreter found (tried " +:+ join ", " (map (join " ") (py_Commands py)) +:+ ")"))
          end)
  end.
End resolve.

Definition resolve (e : pythonEnv) (m : Manifest) (inp : PythonInput) : probed :=
  match mf_Python m with
  | None => ([], Err (NewError CodeInternal (mf_Name m +:+ " is not a python adapter")))
  | Some py => resolve_with e m py inp
  end.

(** [Find]: its environment variable, an absolute entry, the installed copy,
    the PATH. *)
Definition Find (e : pythonEnv) (m : Manifest) : found :=
  let a := mf_Adapter m in
  let p := if ad_Env a =?s "" then ""%string else getenv e (ad_Env a) in
  if negb (p =?s "") then
    match stat e p with Some why => FindFailed (ad_Env a +:+ "=" +:+ p +:+ ": " +:+ why) | None => FoundAt p end
  else if is_abs (ad_Entry a) then
    match stat e (ad_Entry a) with Some _ => ErrNotInstalled | None => FoundAt (ad_Entry a) end
  else match installedRoot e m with
       | Some root => FoundAt (installedEntry m root)
       | None =>
         if ad_Path a then match lookPath e (ad_Entry a) with inr p => FoundAt p | inl _ => ErrNotInstalled end
         else ErrNotInstalled
       end.

(** * Which interpreters discovery runs

    [resolve_safe]: an interpreter is only run when a setting of the user
    names it, when it is in a virtual environment that only the user can
    write, or by a manifest's command on PATH; the search for environments
    ends, and looks in the user's own directories only. *)

Open Scope Z_scope.

(** ** The walk up ends *)

(** The bytes of a path's elements, with a separator for each. *)
Fixpoint weight (es : list string) : nat := match es with [] => 0%nat | s :: es => (S (String.length s) + weight es)%nat end.

Lemma weight_split a s : weight (split_on a s) = S (String.length s).
Proof.
  induction s as [|c s IH]; cbn [split_on]; [done|].
  destruct (Ascii.eqb a c); cbn [weight String.length]; [lia|]. destruct (split_on a s) as [|x l]; cbn [weight String.length] in *; lia.
Qed.

Lemma weight_join es : (String.length (join "/" es) ≤ pred (weight es))%nat.
Proof.
  induction es as [|x es IH]; [done|]. destruct es as [|y es]; [cbn [weight join]; lia|].
  change (join "/" (x :: y :: es)) with (x +:+ "/" +:+ join "/" (y :: es)).
  rewrite !string_app_length. change (String.length "/") with 1%nat. cbn [weight] in *. lia.
Qed.

Lemma clean_step_weight rooted out seg : (weight (clean_step rooted out seg) ≤ weight out + S (String.length seg))%nat.
Proof. unfold clean_step. repeat case_match; cbn [weight]; lia. Qed.

Lemma clean_fold_weight rooted segs out : (weight (fold_left (clean_step rooted) segs out) ≤ weight out + weight segs)%nat.
Proof.
  revert out. induction segs as [|s segs IH]; intros out; cbn [fold_left]; [cbn [weight]; lia|].
  specialize (IH (clean_step rooted out s)). pose proof (clean_step_weight rooted out s). cbn [weight]. lia.
Qed.

Lemma weight_app a b : weight (a ++ b) = (weight a + weight b)%nat.
Proof. induction a as [|x a IH]; cbn [weight app]; lia. Qed.
Lemma weight_rev es : weight (rev es) = weight es.
Proof. induction es as [|x es IH]; cbn [weight rev]; [done|]. rewrite weight_app, IH. cbn [weight]. lia. Qed.

Lemma Clean_length p : (String.length (Clean p) ≤ Nat.max 1 (String.length p))%nat.
Proof.
  unfold Clean, of_elems, elems. set (es := rev _). pose proof (weight_join es) as Hj.
  assert (Hw : (weight es ≤ S (String.length p))%nat).
  { unfold es. rewrite weight_rev. pose proof (clean_fold_weight (is_abs p) (split_on slash p) []) as H.
    rewrite weight_split in H. exact H. }
  destruct (is_abs p) eqn:Ea.
  - assert (Hw' : (weight es ≤ String.length p)%nat).
    { destruct p as [|c p]; [done|]. unfold is_abs in Ea. change (has_prefix "/" (String c p)) with (Ascii.eqb "/" c && true) in Ea.
      rewrite andb_true_r in Ea. apply Ascii.eqb_eq in Ea as <-.
      unfold es. rewrite weight_rev. change (split_on slash (String "/" p)) with (""%string :: split_on slash p). cbn [fold_left].
      pose proof (clean_fold_weight (is_abs (String "/" p)) (split_on slash p) (clean_step (is_abs (String "/" p)) [] "")) as H.
      rewrite weight_split in H. cbn [weight clean_step String.eqb orb String.length] in *. exact H. }
    rewrite string_app_length. change (String.length "/") with 1%nat. destruct es; cbn [weight join] in *; [cbn; lia|]. lia.
  - destruct (join "/" es =?s ""); [cbn; lia|]. lia.
Qed.

Lemma Clean_slash q : q ≠ ""%string → Clean (q +:+ "/") = Clean q.
Proof.
  intros Hq. assert (Ha : is_abs (q +:+ "/") = is_abs q) by by destruct q.
  assert (Hs : split_on slash (q +:+ "/") = split_on slash q ++ [""%string]).
  { clear. induction q as [|c q IH]; [done|]. change (String c q +:+ "/") with (String c (q +:+ "/")). cbn [split_on].
    destruct (Ascii.eqb slash c); [by rewrite IH|]. rewrite IH. pose proof (split_on_nonempty slash q). by destruct (split_on slash q). }
  unfold Clean, elems. rewrite Ha, Hs, fold_left_app. done.
Qed.

(** A directory's parent is shorter, or a single byte. *)
Lemma Dir_shorter d : (String.length (Dir d) ≤ 1)%nat ∨ (String.length (Dir d) < String.length d)%nat.
Proof.
  unfold Dir. pose proof (weight_split slash d) as Hw. rewrite <- weight_rev in Hw.
  destruct (rev (split_on slash d)) as [|x [|y l]] eqn:E; [left; apply Nat.le_refl|left; apply Nat.le_refl|].
  set (q := join "/" (rev (y :: l))).
  destruct (String.eqb_spec q "") as [->|Hq]; [left; apply Nat.le_refl|]. rewrite Clean_slash by done.
  pose proof (Clean_length q) as Hc. pose proof (weight_join (rev (y :: l))) as Hj. rewrite weight_rev in Hj. fold q in Hj.
  cbn [weight] in *. destruct (Nat.max_spec 1 (String.length q)) as [[? Hm]|[? Hm]]; rewrite Hm in Hc; [right; lia|left; lia].
Qed.

Lemma venv_walk_one n owned dirs c : ∃ out, venv_walk (S (S n)) owned (String c "") dirs = Some out.
Proof.
  assert (Hdot : ∀ n dirs, ∃ out, venv_walk (S n) owned "." dirs = Some out).
  { clear. intros n dirs. cbn [venv_walk]. change (Clean ".") with "."%string. change (Dir ".") with "."%string. cbn.
    destruct (negb _); eauto. }
  destruct (Ascii.eqb_spec c "."%char) as [->|Hdotc]; [by apply Hdot|].
  cbn [venv_walk]. cbn [String.eqb]. cbv zeta. destruct (negb _); [eauto|].
  destruct (Ascii.eqb_spec c "/"%char) as [->|Hs].
  - change (Dir (Clean (String "/" "")) =?s Clean (String "/" "")) with true. eauto.
  - assert (Hsp : split_on slash (String c "") = [String c ""]).
    { cbn [split_on]. destruct (Ascii.eqb_spec slash c) as [E|]; [by destruct Hs|done]. }
    assert (Ha : is_abs (String c "") = false).
    { unfold is_abs. change (has_prefix "/" (String c "")) with (Ascii.eqb "/" c && true).
      destruct (Ascii.eqb_spec "/" c) as [E|]; [by destruct Hs|done]. }
    assert (Hc : Clean (String c "") = String c "").
    { unfold Clean, elems. rewrite Hsp, Ha. cbn [fold_left]. rewrite clean_step_plain; [done|].
      unfold plain_elem. destruct (String.eqb_spec (String c "") "."); [congruence|].
      destruct (String.eqb_spec (String c "") ".."); [congruence|].
      cbn [contains_byte]. destruct (Ascii.eqb_spec slash c) as [E|]; [by destruct Hs|done]. }
    rewrite Hc. assert (Hd : Dir (String c "") = "."%string) by (unfold Dir; by rewrite Hsp).
    rewrite Hd. destruct ("." =?s String c "")%string; [eauto|]. apply Hdot.
Qed.

(** Enough fuel: a step for every byte of the path, and one or two more. *)
Lemma venv_walk_enough owned n dir dirs : (Nat.max 2 (S (String.length dir)) ≤ n)%nat → ∃ out, venv_walk n owned dir dirs = Some out.
Proof.
  revert dir dirs. induction n as [|n IH]; intros dir dirs Hn; [lia|].
  destruct dir as [|c [|c2 dir]]; [cbn; eauto| |].
  { destruct n as [|n]; [lia|]. apply venv_walk_one. }
  set (d := String c (String c2 dir)) in *. cbn [venv_walk].
  destruct (d =?s ""); [eauto|]. cbv zeta. destruct (negb _); [eauto|]. destruct (Dir (Clean d) =?s Clean d); [eauto|].
  apply IH. pose proof (Clean_length d) as Hc. assert (Hd : (2 ≤ String.length d)%nat) by (cbn; lia).
  rewrite Nat.max_r in Hc by lia. destruct (Dir_shorter (Clean d)); lia.
Qed.

Lemma venv_walk_owned n owned dir dirs out :
  venv_walk n owned dir dirs = Some out → ∀ d, In d out → In d dirs ∨ owned d = true.
Proof.
  revert dir dirs. induction n as [|n IH]; intros dir dirs; cbn [venv_walk]; destruct (dir =?s ""); try done; try (intros [= <-]; auto).
  cbv zeta. destruct (owned (Clean dir)) eqn:Eo; cbn [negb]; [|intros [= <-]; auto].
  set (dirs' := match dirs with [] => _ | _ => _ end).
  assert (Hd : ∀ d, In d dirs' → In d dirs ∨ owned d = true).
  { unfold dirs'. intros d. destruct dirs as [|x dirs]; [intros [<-|[]]; auto|]. destruct (x =?s Clean dir); [auto|].
    intros [?|[<-|[]]]%List.in_app_iff; auto. }
  destruct (Dir (Clean dir) =?s Clean dir); [intros [= <-]; auto|]. intros H d Hin. destruct (IH _ _ H d Hin); auto.
Qed.

(** The search ends, and every directory it looks in is the user's. *)
Lemma venvDirs_owned inp owned :
  venv_all inp owned = Some (venvDirs inp owned)
  ∧ ∀ d, In d (venvDirs inp owned) → owned d = true ∨ (owned (in_Cwd inp) = true ∧ d = Clean (in_Cwd inp)).
Proof.
  unfold venvDirs, venv_all. cbv zeta. set (dirs := if _ && _ then _ else _).
  destruct (venv_walk_enough owned (String.length (in_ProgramDir inp) + 3) (in_ProgramDir inp) dirs) as [out Hout]; [lia|].
  rewrite Hout. split; [done|]. cbn. intros d Hin. destruct (venv_walk_owned _ _ _ _ _ Hout d Hin) as [Hd|?]; [|by left].
  unfold dirs in Hd. destruct (negb (in_Cwd inp =?s "") && owned (in_Cwd inp)) eqn:E; [|done].
  apply andb_true_iff in E as [_ E]. destruct Hd as [<-|[]]. by right.
Qed.

(** ** What is run *)

Section resolve.
Context (e : pythonEnv) (m : Manifest) (py : Python) (inp : PythonInput).

(** A virtual environment only the user can write. *)
Definition trusted (root : string) : Prop :=
  stat e (Join root "pyvenv.cfg") = None ∧ trust e root = None ∧ trust e (Join root "bin") = None ∧ trust e (Join root "pyvenv.cfg") = None.

Inductive may_run : list string → Prop :=
  | run_option exe : in_Interpreter inp ≠ ""%string → command e (in_Interpreter inp) = inr exe → may_run [exe]
  | run_env exe : in_Interpreter inp = ""%string → py_Env py ≠ ""%string → command e (getenv e (py_Env py)) = inr exe → may_run [exe]
  | run_virtualenv : in_Interpreter inp = ""%string → in_VirtualEnv inp ≠ ""%string → trusted (in_VirtualEnv inp) →
      may_run [Join (Join (in_VirtualEnv inp) "bin") "python"]
  | run_venv dir name : in_Interpreter inp = ""%string → in_VirtualEnv inp = ""%string →
      In name (py_Venvs py) → owned e dir = true ∨ (owned e (in_Cwd inp) = true ∧ dir = Clean (in_Cwd inp)) →
      trusted (Join dir name) → may_run [Join (Join (Join dir name) "bin") "python"]
  | run_command cmd exe : in_Interpreter inp = ""%string → in_VirtualEnv inp = ""%string →
      In cmd (py_Commands py) → lookPath e (hd ""%string cmd) = inr exe → may_run (exe :: tl cmd).

Lemma venvRoot_trusted root bin exe : venvRoot e root = Venv bin exe → trusted root ∧ bin = Join root "bin" ∧ exe = "python"%string.
Proof.
  unfold venvRoot, trusted. cbv zeta. destruct (stat e _); [done|]. destruct (trust e root); [done|].
  destruct (trust e (Join root "bin")); [done|]. destruct (trust e (Join root "pyvenv.cfg")); [done|]. by intros [= <- <-].
Qed.

Lemma first_venv_candidate roots c :
  first_venv e roots = Ok (Some c) → ∃ root, In root roots ∧ trusted root ∧ cd_argv c = [Join (Join root "bin") "python"].
Proof.
  induction roots as [|root roots IH]; [done|]. cbn [first_venv]. destruct (venvRoot e root) as [|why|bin exe] eqn:E; [|done|].
  - intros H. destruct (IH H) as (r & Hr & ?). exists r. split; [by right|done].
  - intros [= <-]. destruct (venvRoot_trusted _ _ _ E) as (Ht & -> & ->). exists root. split; [by left|done].
Qed.

Lemma candidate_may_run c :
  first_candidate [explicit e py inp; virtualEnv e inp; venv e py inp] = Ok (Some c) → may_run (cd_argv c).
Proof.
  unfold explicit. destruct (String.eqb_spec (in_Interpreter inp) "") as [Hi|Hi]; cbn [negb].
  2:{ destruct (command e (in_Interpreter inp)) as [why|exe] eqn:E; [done|]. cbn [first_candidate]. intros [= <-]. by apply run_option. }
  assert (Hrest : first_candidate [virtualEnv e inp; venv e py inp] = Ok (Some c) → may_run (cd_argv c)).
  { unfold virtualEnv. destruct (String.eqb_spec (in_VirtualEnv inp) "") as [Hv|Hv].
    - unfold venv. cbn [first_candidate]. destruct (first_venv e _) as [[c'|]|] eqn:E; cbn [first_candidate]; [|done..]. intros [= ->].
      apply first_venv_candidate in E as (root & (dir & Hd & (name & <- & Hn)%List.in_map_iff)%List.in_flat_map & Ht & ->).
      apply run_venv; [done..| |done]. by apply (venvDirs_owned inp (owned e)).
    - destruct (venvRoot e (in_VirtualEnv inp)) as [|why|bin exe] eqn:E; [done..|]. cbn [first_candidate]. intros [= <-].
      destruct (venvRoot_trusted _ _ _ E) as (Ht & -> & ->). by apply run_virtualenv. }
  destruct (String.eqb_spec (py_Env py) "") as [He|He]; [exact Hrest|]. cbv zeta.
  destruct (getenv e (py_Env py) =?s ""); [exact Hrest|].
  destruct (command e (getenv e (py_Env py))) as [why|exe] eqn:E; [done|]. cbn [first_candidate]. intros [= <-]. by apply run_env.
Qed.

Lemma no_candidate :
  first_candidate [explicit e py inp; virtualEnv e inp; venv e py inp] = Ok None → in_Interpreter inp = ""%string ∧ in_VirtualEnv inp = ""%string.
Proof.
  unfold explicit, virtualEnv. destruct (String.eqb_spec (in_Interpreter inp) "") as [Hi|Hi]; cbn [negb].
  2:{ by destruct (command e (in_Interpreter inp)). }
  destruct (String.eqb_spec (in_VirtualEnv inp) "") as [Hv|Hv]; [done|]. cbv zeta. intros H. exfalso. revert H.
  destruct (venvRoot e (in_VirtualEnv inp)); repeat case_match; simplify_eq; cbn in *; done.
Qed.

Definition runtime_of (argv : list string) (rt : Runtime) : Prop :=
  ∃ p, probe e argv (in_Cwd inp) (py_Module py) = inr p ∧ rt_Version rt = pb_Version p
    ∧ rt_Exe rt = (if pb_Executable p =?s "" then hd ""%string argv else pb_Executable p).

Lemma withRoot_runtime c p rt :
  probe e (cd_argv c) (in_Cwd inp) (py_Module py) = inr p → withRoot e m py c p = Ok rt → runtime_of (cd_argv c) rt.
Proof.
  intros Hp H. exists p. split; [done|]. unfold withRoot in H. cbv zeta in H.
  repeat case_match; simplify_eq; cbn; done.
Qed.

Lemma try_commands_spec cmds ran r :
  (∀ cmd, In cmd cmds → In cmd (py_Commands py)) → in_Interpreter inp = ""%string → in_VirtualEnv inp = ""%string →
  try_commands e m py (in_Cwd inp) cmds = (ran, r) →
  (∀ argv, In argv ran → may_run argv) ∧ ∀ rt, r = Some (Ok rt) → ∃ pre argv, ran = pre ++ [argv] ∧ runtime_of argv rt.
Proof.
  intros Hin Hi Hv. revert ran r. induction cmds as [|cmd cmds IH]; intros ran r; cbn [try_commands].
  { by intros [= <- <-]. }
  specialize (IH (fun c Hc => Hin c (or_intror Hc))).
  destruct (lookPath e (hd ""%string cmd)) as [why|exe] eqn:El; [apply IH|]. cbv zeta.
  assert (Hm : may_run (exe :: tl cmd)) by (apply (run_command cmd); [done|done|apply Hin; by left|done]).
  destruct (probe e (exe :: tl cmd) (in_Cwd inp) (py_Module py)) as [why|p] eqn:Ep.
  - destruct (try_commands _ _ _ _ cmds) as [ran' r'] eqn:Et. intros [= <- <-]. destruct (IH _ _ eq_refl) as [H1 H2]. split.
    + intros argv [<-|Ha]; [done|by apply H1].
    + intros rt Hr. destruct (H2 rt Hr) as (pre & argv & -> & Ha). by exists ((exe :: tl cmd) :: pre), argv.
  - intros [= <- <-]. split; [by intros argv [<-|[]]|]. intros rt [= Hr]. exists [], (exe :: tl cmd). split; [done|].
    by apply (withRoot_runtime (mkCandidate (exe :: tl cmd) PythonFromPath) p).
Qed.
End resolve.

(** C36: every interpreter that discovery runs is the one the option names; or
    else the one of the manifest's environment variable; or else that of
    $VIRTUAL_ENV or of a project's virtual environment in the user's own
    directories, which only the user can write; or else a command of the
    manifest on PATH. Those after the option are run only without it, and
    the project's and the commands only without $VIRTUAL_ENV. What is
    settled on is the last that was run, as it reported itself. *)
Theorem resolve_safe e m py inp :
  mf_Python m = Some py →
  let '(ran, r) := resolve e m inp in
  (∀ argv, In argv ran → may_run e py inp argv)
  ∧ ∀ rt, r = Ok rt → ∃ pre argv, ran = pre ++ [argv] ∧ runtime_of e py inp argv rt.
Proof.
  intros Hp. unfold resolve, resolve_with. rewrite Hp.
  destruct (first_candidate _) as [[c|]|why] eqn:E; [| |done].
  - apply candidate_may_run in E. unfold run_candidate. split; [by intros argv [<-|[]]|].
    intros rt. destruct (probe e (cd_argv c) _ _) as [why|p] eqn:Ep; [done|]. intros Hr. exists [], (cd_argv c). split; [done|].
    by apply (withRoot_runtime e m py inp c p).
  - apply no_candidate in E as [Hi Hv]. destruct (try_commands e m py (in_Cwd inp) (py_Commands py)) as [ran r] eqn:Et.
    destruct (try_commands_spec e m py inp _ _ _ (fun c Hc => Hc) Hi Hv Et) as [H1 H2]. split; [done|].
    intros rt Hr. destruct r as [r|]; [|done]. apply H2. by rewrite Hr.
Qed.

(** ** A project with a virtual environment *)

Definition debugpy : Python := mkPython "EYEDBG_PYTHON" "python" [["python3"]; ["python"]] [".venv"] "3.8" "debugpy"%string.
Definition python_manifest : Manifest :=
  go_manifest <| mf_Name := "debugpy"%string |> <| mf_Python := Some debugpy |>
    <| mf_Adapter := mkAdapter "debugpy" "" RuntimePython "debugpy/adapter" [] [] "" false []%string |>.
Definition in_project : PythonInput := mkPythonInput "" "/w/app" "/w/app/src" ""%string.
Definition project_env : pythonEnv :=
  mkPythonEnv (fun _ => ""%string) (fun s => inr ("/usr/bin/" +:+ s))
    (fun p => if bool_decide (p ∈ ["/w/.venv/pyvenv.cfg"; "/data/debugpy/1.26.0/debugpy/adapter"]%string) then None else Some "no such file"%string)
    (Some "/data"%string) (fun argv _ _ => inr (mkProbe "" "3.12.1" "" "")) (fun _ => None) (fun d => negb (d =?s "/")).

Lemma resolve_safe_witness :
  (resolve project_env python_manifest in_project).1 = [["/w/.venv/bin/python"%string]]
  ∧ may_run project_env debugpy in_project ["/w/.venv/bin/python"%string].
Proof.
  split; [vm_compute; reflexivity|].
  pose proof (resolve_safe project_env python_manifest debugpy in_project eq_refl) as H.
  destruct (resolve project_env python_manifest in_project) as [ran r] eqn:E. destruct H as [H _]. apply H.
  assert (Hr : ran = [["/w/.venv/bin/python"%string]]) by (apply (f_equal fst) in E; cbn [fst] in E; rewrite <- E; vm_compute; reflexivity).
  rewrite Hr. left. reflexivity.
Defined.
