(* ===== verification/EditorEvents.v ===== *)
(** * What an editor is told (internal/facade)

    The DAP events, capabilities and errors the facade sends an editor that
    joined a session: the translation of the session's event log (events.go),
    the custom eyedbg/* bodies (custom.go), what initialize declares (caps.go)
    and the stable error ids (errors.go). A DAP message is a constructor with
    the fields the facade fills; the others are at their zero value. *)

From S2P Require Import Prelude GoStrings Api Session Present Exec.
From Stdlib Require Import Bool.

Open Scope Z_scope.

(** ** Breakpoints as DAP shows them

    go-dap's [Breakpoint]; [d_Source] is the path of its source, if it has
    one. *)
Record dapBp := mkBpEvent {
  d_Id : Z; d_Verified : bool; d_Line : Z; d_Column : Z; d_Source : option string; d_Message : string }.
#[global] Instance eta_dapBp : Eta dapBp :=
  fun r => mkBpEvent (d_Id r) (d_Verified r) (d_Line r) (d_Column r) (d_Source r) (d_Message r).
#[global] Instance dapBp_eq_dec : EqDecision dapBp.
Proof. solve_decision. Defined.
Definition zeroDapBp : dapBp := mkBpEvent 0 false 0 0 None "".

Definition dapBreakpoint_of (b : Breakpoint) : dapBp :=
  let msg := b_Message b in
  let msg := if negb (b_Note b =?s "") then (if negb (msg =?s "") then msg +:+ "; " else msg) +:+ b_Note b else msg in
  let line := if negb (b_Function b =?s "") then 0 else b_Line b in
  mkBpEvent (b_ID b) (b_Verified b) line 0 None msg.

(** ** Capabilities (caps.go)

    go-dap's capabilities: the ones the facade sets, and the rest as the
    adapter declared them. *)
Record dapCaps := mkDapCaps {
  dc_ConfigurationDone : bool; dc_HitConditional : bool; dc_LogPoints : bool; dc_Terminate : bool;
  dc_Restart : bool; dc_DataBreakpoints : bool; dc_StepBack : bool; dc_GotoTargets : bool; dc_RestartFrame : bool;
  dc_Cancel : bool; dc_TerminateThreads : bool; dc_WriteMemory : bool; dc_InstructionBreakpoints : bool;
  dc_ExceptionOptions : bool; dc_ExceptionFilterOptions : bool; dc_SteppingGranularity : bool;
  dc_SingleThread : bool; dc_StepInTargets : bool; dc_ClipboardContext : bool; dc_TerminateDebuggee : bool;
  dc_SuspendDebuggee : bool; dc_ExceptionFilters : list (string * string); dc_rest : string }.
#[global] Instance eta_dapCaps : Eta dapCaps := fun r =>
  mkDapCaps (dc_ConfigurationDone r) (dc_HitConditional r) (dc_LogPoints r) (dc_Terminate r) (dc_Restart r)
    (dc_DataBreakpoints r) (dc_StepBack r) (dc_GotoTargets r) (dc_RestartFrame r) (dc_Cancel r)
    (dc_TerminateThreads r) (dc_WriteMemory r) (dc_InstructionBreakpoints r) (dc_ExceptionOptions r)
    (dc_ExceptionFilterOptions r) (dc_SteppingGranularity r) (dc_SingleThread r) (dc_StepInTargets r)
    (dc_ClipboardContext r) (dc_TerminateDebuggee r) (dc_SuspendDebuggee r) (dc_ExceptionFilters r) (dc_rest r).

Definition mode_filter (m : ExceptionMode) : list (string * string) :=
  match m with
  | ExceptionsAll => [(exception_mode_name ExceptionsAll, "All exceptions"%string)]
  | ExceptionsUncaught => [(exception_mode_name ExceptionsUncaught, "Uncaught exceptions"%string)]
  | ExceptionsNone => []
  end.

Definition capabilities (adapter : dapCaps) (modes : list ExceptionMode) : dapCaps :=
  adapter <| dc_ConfigurationDone := true |> <| dc_HitConditional := true |> <| dc_LogPoints := true |>
          <| dc_Terminate := true |>
          <| dc_Restart := false |> <| dc_DataBreakpoints := false |> <| dc_StepBack := false |>
          <| dc_GotoTargets := false |> <| dc_RestartFrame := false |> <| dc_Cancel := false |>
          <| dc_TerminateThreads := false |> <| dc_WriteMemory := false |> <| dc_InstructionBreakpoints := false |>
          <| dc_ExceptionOptions := false |> <| dc_ExceptionFilterOptions := false |>
          <| dc_SteppingGranularity := false |> <| dc_SingleThread := false |> <| dc_StepInTargets := false |>
          <| dc_ClipboardContext := false |> <| dc_TerminateDebuggee := false |> <| dc_SuspendDebuggee := false |>
          <| dc_ExceptionFilters := concat (map mode_filter modes) |>.

(** [all] ends the loop; [uncaught] is kept until then. *)
Fixpoint exceptionMode_go (filters : list string) (mode : ExceptionMode) : ExceptionMode :=
  match filters with
  | [] => mode
  | f :: filters =>
    if f =?s exception_mode_name ExceptionsAll then ExceptionsAll
    else exceptionMode_go filters (if f =?s exception_mode_name ExceptionsUncaught then ExceptionsUncaught else mode)
  end.
Definition exceptionMode (filters : list string) : ExceptionMode := exceptionMode_go filters ExceptionsNone.

(** ** Custom bodies (custom.go) *)

Definition maxListedBreakpoints : Z := 1000.
Record BreakpointsBody := mkBreakpointsBody { bb_Breakpoints : list Breakpoint; bb_More : Z; bb_Removed : Z }.
#[global] Instance eta_BreakpointsBody : Eta BreakpointsBody :=
  fun r => mkBreakpointsBody (bb_Breakpoints r) (bb_More r) (bb_Removed r).
Definition breakpointsBody (bps : list Breakpoint) : BreakpointsBody :=
  if maxListedBreakpoints <? Z.of_nat (length bps) then
    mkBreakpointsBody (take (Z.to_nat maxListedBreakpoints) bps) (Z.of_nat (length bps) - maxListedBreakpoints) 0
  else mkBreakpointsBody bps 0 0.

Record TerminalEventBody := mkTerminalBody {
  tb_ID : Z; tb_Title : string; tb_Cwd : string; tb_Args : list string; tb_Env : list (string * option string) }.
#[global] Instance eta_TerminalEventBody : Eta TerminalEventBody :=
  fun r => mkTerminalBody (tb_ID r) (tb_Title r) (tb_Cwd r) (tb_Args r) (tb_Env r).

(** ** Events *)

Inductive dapEvent :=
  | StoppedEvent (reason : string) (thread : Z) (description text : string) (all hint : bool) (hit : list Z)
  | ContinuedEvent (thread : Z)
  | OutputEvent (category text : string)
  | ThreadEvent (reason : string) (thread : Z)
  | ExitedEvent (code : Z)
  | TerminatedEvent
  | InvalidatedEvent (areas : list string)
  | BreakpointEvent (reason : string) (b : dapBp)
  | InitializedEvent
  | CapabilitiesEvent (c : dapCaps)
  | LeaseEvent (l : LeaseInfo)
  | ClientsEvent (c : list ClientInfo)
  | BreakpointsEvent (b : BreakpointsBody)
  | ActivityEvent (e : Event)
  | SessionEvent (id : string)
  | TerminalEvent (b : TerminalEventBody).

(** What translating the log needs besides the events. *)
Record followState := mkFollow { fw_self : string; fw_invalidated : bool; fw_lastThread : Z; fw_lastExec : string }.
#[global] Instance eta_followState : Eta followState :=
  fun r => mkFollow (fw_self r) (fw_invalidated r) (fw_lastThread r) (fw_lastExec r).

Definition outputEvent (category text : string) : dapEvent :=
  OutputEvent (if category =?s "logpoint" then "console" else category) text.
Definition line_feed : string := String (ascii_of 10) "".
Definition consoleLine (text : string) : dapEvent := outputEvent "console" ("eyedbg: " +:+ text +:+ line_feed).

Definition hitIDs (bps : list StopBreakpoint) : list Z := map sb_ID bps.

Definition stoppedEvent (stop : option StopInfo) (st : followState) (hint : bool) : list dapEvent * followState :=
  match stop with
  | None => ([], st)
  | Some s =>
    ([StoppedEvent (si_Reason s) (si_ThreadID s) (si_Description s) (si_Text s) (si_AllThreadsStopped s) hint
        (hitIDs (si_Breakpoints s))],
     st <| fw_lastThread := si_ThreadID s |>)
  end.

Definition resumes (action : string) : bool :=
  existsb (fun k => exec_name k =?s action) [ExecContinue; ExecNext; ExecStepIn; ExecStepOut; ExecRunUntil].
Definition runs (action : string) : bool := resumes action || (action =?s exec_name ExecPause).

Definition continuedEvent (thread : Z) (st : followState) : dapEvent :=
  ContinuedEvent (if thread =? 0 then fw_lastThread st else thread).

Definition execEvent (ev : Event) (st : followState) : list dapEvent :=
  if ev_Client ev =?s fw_self st then []
  else if resumes (ev_Action ev) then [continuedEvent (ev_ThreadID ev) st]
  else if (ev_Action ev =?s exec_name ExecEval) || (ev_Action ev =?s exec_name ExecSet) then
    if negb (fw_invalidated st) then [] else [InvalidatedEvent ["variables"%string]]
  else [].

(** [translate] (events.go): one event of the log, for its events alone. *)
Definition translate (ev : Event) (st : followState) : list dapEvent * followState :=
  match ev_Kind ev with
  | EventStopped =>
    let hint := negb (fw_lastExec st =?s "") && negb (fw_lastExec st =?s fw_self st) in
    stoppedEvent (ev_Stop ev) (st <| fw_lastExec := ""%string |>) hint
  | EventExec =>
    let st := if runs (ev_Action ev) then st <| fw_lastExec := ev_Client ev |> else st in
    (execEvent ev st, st)
  | EventContinued => ([continuedEvent (ev_ThreadID ev) st], st)
  | EventOutput => ([outputEvent (ev_Category ev) (ev_Text ev)], st)
  | EventThread => ([ThreadEvent (ev_Reason ev) (ev_ThreadID ev)], st)
  | EventExited => (match ev_ExitCode ev with Some code => [ExitedEvent code] | None => [] end, st)
  | EventEnded => ([TerminatedEvent], st)
  | EventStarted | EventClient | EventLease | EventExceptions | EventBreakpoint => ([], st)
  end.

Definition resync (dropped : Z) (info : SessionInfo) (st : followState) : list dapEvent * followState :=
  let out := [consoleLine (itoa dropped +:+ " session events were missed")] in
  let st := st <| fw_lastExec := ""%string |> in
  match i_State info with
  | StateStopped => let '(evs, st) := stoppedEvent (i_Stop info) st false in (out ++ evs, st)
  | StateRunning => (out ++ [continuedEvent 0 st], st)
  | StateStarting | StateExited | StateLost => (out, st)
  end.

(** Another client's action (custom.go). *)
Definition activity (ev : Event) (self : string) : bool :=
  if (ev_Client ev =?s "") || (ev_Client ev =?s self) then false
  else match ev_Kind ev with
       | EventExec | EventBreakpoint | EventExceptions | EventLease | EventClient => true
       | EventStarted | EventContinued | EventStopped | EventOutput | EventThread | EventExited | EventEnded => false
       end.
Definition activityEvent (ev : Event) : dapEvent :=
  ActivityEvent
    (if EventTextLimit <? rune_count (ev_Text ev)
     then ev <| ev_Text := cut_runes (Z.to_nat EventTextLimit) (ev_Text ev) |> <| ev_Truncated := true |> else ev).

(** ** Errors (errors.go) *)

Definition code_text (c : Code) : string :=
  match c with
  | CodeInvalidRequest => "INVALID_REQUEST" | CodeNoSession => "NO_SESSION" | CodeNotStopped => "NOT_STOPPED"
  | CodeNotRunning => "NOT_RUNNING" | CodeSessionExited => "SESSION_EXITED" | CodeAdapterFailed => "ADAPTER_ERROR"
  | CodeInternal => "INTERNAL" | CodeLeaseHeld => "LEASE_HELD" | CodeNotOwner => "NOT_OWNER"
  | CodeUnsupported => "UNSUPPORTED_BY_ADAPTER" | CodeSideEffects => "SIDE_EFFECTS" | CodeAttachFailed => "ATTACH_FAILED"
  | CodeAnchorNotFound => "ANCHOR_NOT_FOUND" | CodeAnchorAmbiguous => "ANCHOR_AMBIGUOUS"
  | CodeAdapterMissing => "ADAPTER_NOT_INSTALLED"
  end.
Definition errorID (code : Code) : Z :=
  match code with
  | CodeInvalidRequest => 7001 | CodeNoSession => 7002 | CodeNotStopped => 7003 | CodeNotRunning => 7004
  | CodeSessionExited => 7005 | CodeLeaseHeld => 7006 | CodeNotOwner => 7007 | CodeUnsupported => 7008
  | CodeSideEffects => 7009 | CodeAdapterFailed => 7010 | CodeInternal => 7099
  | CodeAdapterMissing | CodeAttachFailed | CodeAnchorNotFound | CodeAnchorAmbiguous => 7000
  end.

Definition internalError (command : string) : Error := NewError CodeInternal ("eyedbg failed to handle " +:+ command).

(** The body of an error response: go-dap's [ErrorMessage], its variables
    the code and, for a lease held, its holder. *)
Record errorBody := mkErrorBody { eb_Id : Z; eb_Format : string; eb_Code : string; eb_Holder : option string; eb_ShowUser : bool }.

(** An error with its hint and output; [None] is one that is no [*api.Error]. *)
Record apiError := mkApiError { ae : Error; ae_Hint : string; ae_Output : string }.
Definition em_dash : string := String (ascii_of 226) (String (ascii_of 128) (String (ascii_of 148) "")).
Definition errorResponse (command : string) (err : option apiError) (holder : string) (showUser : bool) : string * errorBody :=
  let e := default (mkApiError (internalError command) "see 'eyedbg daemon logs'" "") err in
  let format := e_message (ae e) in
  let format := if negb (ae_Hint e =?s "") then format +:+ " " +:+ em_dash +:+ " " +:+ ae_Hint e else format in
  let format := if negb (ae_Output e =?s "") then format +:+ line_feed +:+ ae_Output e else format in
  let code := e_code (ae e) in
  (code_text code,
   mkErrorBody (errorID code) format (code_text code)
     (if decide (code = CodeLeaseHeld) then (if negb (holder =?s "") then Some holder else None) else None) showUser).
