(* ===== verification/Mirrors.v ===== *)
(** * Other clients' breakpoints in an editor (internal/facade/mirrors.go)

    A connection's view of the session's breakpoints: the ones its own
    requests reported, and mirrors, the line breakpoints of others that it
    announced. Go's maps are finite maps; a loop over a map folds over its
    bindings, in an order nothing it returns depends on (what is sent is
    sorted by id). *)

From S2P Require Import Prelude GoStrings Api Present EditorEvents.
From Stdlib Require Import Ascii Bool.

Open Scope Z_scope.

Definition retractMessage : string := "eyedbg: a leftover copy of another client's breakpoint; removed".
Definition duplicateMessage : string :=
  "another breakpoint of this request is on the same line: eyedbg keeps one per line per client (columns are ignored)".
Definition hideHint : string := " " +:+ em_dash +:+ " removing it here only hides it".
Definition maxMirrorMessage : Z := 300.
Definition markColumn : Z := 1.

Definition actionChanged : string := "changed".
Definition actionRemoved : string := "removed".
Definition actionNew : string := "new".

(** ** The view *)

Record mirror := mkMirror { m_key : string; m_path : string; m_line : Z; m_told : dapBp }.
#[global] Instance eta_mirror : Eta mirror := fun r => mkMirror (m_key r) (m_path r) (m_line r) (m_told r).

(** [bpsKey]: whether it is the function breakpoints', and the source path. *)
Abbreviation bpsKey := (bool * string)%type.
Definition funcBreakpoints : bpsKey := (true, ""%string).

Record view := mkView {
  lists : gmap bpsKey (list Z); reported : gmap Z dapBp;
  v_files : gmap string string; latest : gmap string string;
  mirrors : gmap Z mirror; hidden : gset Z;
  lastRetract : Z; configured : bool; leaving : bool; after : list dapEvent }.
#[global] Instance eta_view : Eta view := fun v =>
  mkView (lists v) (reported v) (v_files v) (latest v) (mirrors v) (hidden v) (lastRetract v) (configured v)
    (leaving v) (after v).
Definition newView : view := mkView ∅ ∅ ∅ ∅ ∅ ∅ 0 false false [].

(** [track]: [got] is [None] for a nil list, of a session that exited. *)
Definition report (v : view) (b : Breakpoint) : view :=
  if b_ID b =? 0 then v else v <| reported ::= <[b_ID b := dapBreakpoint_of b]> |>.
Definition listed (v : view) : list Z := concat (map_to_list (lists v)).*2.
Definition track (key : bpsKey) (got : option (list Breakpoint)) (v : view) : list dapBp * view :=
  match got with
  | None => ([], v)
  | Some got =>
    let out := map dapBreakpoint_of got in
    let v := fold_left report got v in
    let ids := List.filter (fun id => negb (id =? 0)) (map b_ID got) in
    let old := default [] (lists v !! key) in
    let v := v <| lists ::= <[key := ids]> |> in
    let all := listed v in
    (out, fold_left (fun v id => if bool_decide (id ∈ all) then v else v <| reported ::= delete id |>) old v)
  end.

Definition sourceSeen (path key : string) (own : bool) (v : view) : view :=
  let v := v <| v_files ::= <[path := key]> |> in
  if own then v <| latest ::= <[key := path]> |> else v.

(** [keep]; the order of the ids is the map's. *)
Definition keep (key path : string) (v : view) : list Z :=
  concat (map (fun x => if (x.2 =?s key) && negb (x.1 =?s path) then default [] (lists v !! (false, x.1)) else [])
            (map_to_list (v_files v))).

Definition announcePath (key : string) (v : view) : string := default key (latest v !! key).

Definition forget (id : Z) (v : view) : view :=
  v <| reported ::= delete id |> <| lists ::= fmap (delete_func (Z.eqb id)) |>.

(** ** What the editor should be shown *)

Definition mirrorable (b : Breakpoint) (self : string) (v : view) : bool :=
  (0 <? b_ID b) && (b_Function b =?s "") && negb (b_File b =?s "") && negb (b_Temporary b)
  && negb (bool_decide (is_Some (reported v !! b_ID b))) && (negb (b_Owner b =?s self) || negb (b_Editor b)).

Abbreviation fileLine := (string * Z)%type.

Definition middle_dot : string := " " +:+ String (ascii_of 194) (String (ascii_of 183) " ").
Definition mirrorMessage (b : Breakpoint) (self : string) : string :=
  let opt (s prefix suffix : string) := if negb (s =?s "") then [prefix +:+ s +:+ suffix] else [] in
  let parts := [if b_Owner b =?s self then "your breakpoint, set outside this editor" else b_Owner b +:+ "'s breakpoint"]
    ++ opt (b_Condition b) "if " "" ++ opt (b_HitCondition b) "hit " ""
    ++ opt (b_LogMessage b) "logs " ", doesn't stop" ++ opt (b_Message b) "" "" ++ opt (b_Note b) "" "" in
  let body := join middle_dot parts in
  let limit := maxMirrorMessage - rune_count hideHint in
  let body := if limit <? rune_count body then cut_runes (Z.to_nat (limit - 1)) body +:+ ellipsis else body in
  body +:+ hideHint.

Definition mirrorBreakpoint (b : Breakpoint) (self path : string) : dapBp :=
  mkBpEvent (b_ID b) (b_Verified b) (b_Line b) markColumn (Some path) (mirrorMessage b self).

(** The lines the connection has a breakpoint of its own at. *)
Definition own_lines (bps : list Breakpoint) (v : view) : list fileLine :=
  concat (map (fun b => if bool_decide (is_Some (reported v !! b_ID b)) && (b_Function b =?s "")
                        then [(b_File b, b_Line b); (b_File b, b_RequestedLine b)] else []) bps).

Definition mirror_path (b : Breakpoint) (v : view) : string :=
  match mirrors v !! b_ID b with Some m => m_path m | None => announcePath (b_File b) v end.

Fixpoint wanted_go (self : string) (own : list fileLine) (v : view) (bps : list Breakpoint)
    (taken : list fileLine) (out : gmap Z dapBp) : gmap Z dapBp :=
  match bps with
  | [] => out
  | b :: bps =>
    let at_ := (b_File b, b_Line b) in
    if negb (mirrorable b self v) || bool_decide (at_ ∈ own) || bool_decide (at_ ∈ taken)
    then wanted_go self own v bps taken out
    else if bool_decide (b_ID b ∈ hidden v) then wanted_go self own v bps (at_ :: taken) out
    else wanted_go self own v bps (at_ :: taken)
           (<[b_ID b := mirrorBreakpoint b self (mirror_path b v)]> out)
  end.
Definition wanted (self : string) (bps : list Breakpoint) (v : view) : gmap Z dapBp :=
  wanted_go self (own_lines bps v) v bps [] ∅.

Definition source_path (b : dapBp) : string := default ""%string (d_Source b).
Definition sameBreakpoint (a b : dapBp) : bool :=
  bool_decide (a <| d_Source := None |> = b <| d_Source := None |>) && (source_path a =?s source_path b).

(** ** Bringing the editor up to date *)

Definition breakpointEvent (reason : string) (b : dapBp) : dapEvent := BreakpointEvent reason b.
Definition removed_bp (id : Z) : dapBp := zeroDapBp <| d_Id := id |>.
Definition removedEvent (id : Z) : dapEvent := breakpointEvent actionRemoved (removed_bp id).

(** The loops carry the view, and what is removed and changed so far. *)
Abbreviation reconciling := (view * list dapBp * list dapBp)%type.

Definition reported_step (byID : gmap Z Breakpoint) (st : reconciling) (e : Z * dapBp) : reconciling :=
  let '(v, removed, changed) := st in
  match byID !! e.1 with
  | None => (forget e.1 v, removed ++ [removed_bp e.1], changed)
  | Some b =>
    let now := dapBreakpoint_of b in
    if bool_decide (now = e.2) then st else (v <| reported ::= <[e.1 := now]> |>, removed, changed ++ [now])
  end.
Definition reconcileReported (byID : gmap Z Breakpoint) (v : view) : reconciling :=
  fold_left (reported_step byID) (map_to_list (reported v)) (v, [], []).

Definition mirror_step (want : gmap Z dapBp) (st : reconciling) (e : Z * mirror) : reconciling :=
  let '(v, removed, changed) := st in
  match want !! e.1 with
  | None => (v <| mirrors ::= delete e.1 |>, removed ++ [removed_bp e.1], changed)
  | Some w =>
    if sameBreakpoint w (m_told e.2) then st
    else (v <| mirrors ::= <[e.1 := e.2 <| m_told := w |>]> |>, removed, changed ++ [w])
  end.

Definition new_step (byID : gmap Z Breakpoint) (st : view * list dapBp) (e : Z * dapBp) : view * list dapBp :=
  let '(v, added) := st in
  match mirrors v !! e.1 with
  | Some _ => st
  | None =>
    let file := match byID !! e.1 with Some b => b_File b | None => ""%string end in
    (v <| mirrors ::= <[e.1 := mkMirror file (source_path e.2) (d_Line e.2) e.2]> |>, added ++ [e.2])
  end.

Definition by_id (bps : list Breakpoint) : gmap Z Breakpoint :=
  fold_left (fun m b => <[b_ID b := b]> m) bps ∅.

Definition id_le (a b : dapBp) : Prop := d_Id a <= d_Id b.
#[global] Instance id_le_dec a b : Decision (id_le a b).
Proof. unfold id_le. apply _. Defined.

Definition reconcile (self : string) (bps : list Breakpoint) (v : view) : list dapEvent * view :=
  let byID := by_id bps in
  let '(v, removed, changed) := reconcileReported byID v in
  let want := wanted self bps v in
  let '(v, removed, changed) := fold_left (mirror_step want) (map_to_list (mirrors v)) (v, removed, changed) in
  let '(v, added) := fold_left (new_step byID) (map_to_list want) (v, []) in
  let v := v <| hidden ::= fun h => filter (fun id => is_Some (byID !! id)) h |> in
  let group (reason : string) (l : list dapBp) := map (breakpointEvent reason) (merge_sort id_le l) in
  (group actionRemoved removed ++ group actionChanged changed ++ group actionNew added, v).

(** [retractMirrors]: every mirror's id, sorted; the view has none left. *)
Definition retractMirrors (v : view) : list dapEvent * view :=
  (map removedEvent (merge_sort Z.le (map_to_list (mirrors v)).*1), v <| mirrors := ∅ |>).

(** ** Classifying the entries of a setBreakpoints *)

(** go-dap's [SourceBreakpoint]. *)
Record sourceBreakpoint := mkSourceBp {
  sb_Line : Z; sb_Column : Z; sb_Condition : string; sb_HitCondition : string; sb_LogMessage : string }.

Inductive entryKind := entryOwn | entryEcho | entryRetract | entryDuplicate.
#[global] Instance entryKind_eq_dec : EqDecision entryKind.
Proof. solve_decision. Defined.

(** [id] and [told] are an echo's. *)
Record entryClass := mkClass { en_kind : entryKind; en_id : Z; en_told : dapBp }.
Definition ownClass : entryClass := mkClass entryOwn 0 zeroDapBp.
Definition retractClass : entryClass := mkClass entryRetract 0 zeroDapBp.
Definition duplicateClass : entryClass := mkClass entryDuplicate 0 zeroDapBp.

Definition plain (e : sourceBreakpoint) : bool :=
  (sb_Condition e =?s "") && (sb_HitCondition e =?s "") && (sb_LogMessage e =?s "").
Definition marked (e : sourceBreakpoint) : bool := plain e && (sb_Column e =? markColumn).

Record fileIndex := mkIndex {
  fi_path : string; fi_self : string; fi_view : view;
  fi_shown : gmap Z Z; fi_here : gmap Z Z; fi_byID : gmap Z Breakpoint; fi_at : gmap Z (list Breakpoint) }.

Definition lowest (line id : Z) (m : gmap Z Z) : gmap Z Z :=
  match m !! line with Some cur => if id <? cur then <[line := id]> m else m | None => <[line := id]> m end.
Definition index_mirrors (key : string) (p : mirror → bool) (v : view) : gmap Z Z :=
  fold_left (fun acc e => if (m_key e.2 =?s key) && p e.2 then lowest (m_line e.2) e.1 acc else acc)
    (map_to_list (mirrors v)) ∅.
Definition push_at (line : Z) (b : Breakpoint) (m : gmap Z (list Breakpoint)) : gmap Z (list Breakpoint) :=
  <[line := default [] (m !! line) ++ [b]]> m.
Definition indexFile (key path : string) (v : view) (bps : list Breakpoint) (self : string) : fileIndex :=
  let mine := List.filter (fun b => b_File b =?s key) bps in
  mkIndex path self v
    (index_mirrors key (fun _ => true) v) (index_mirrors key (fun m => m_path m =?s path) v)
    (by_id mine)
    (fold_left (fun m b =>
       let m := push_at (b_Line b) b m in
       if b_RequestedLine b =? b_Line b then m else push_at (b_RequestedLine b) b m) mine ∅).

(** A missing line of an index is id 0, which no breakpoint has. *)
Definition idx (m : gmap Z Z) (l : Z) : Z := default 0 (m !! l).

Definition candidate (f : fileIndex) (used : list Z) (l : Z) : option dapBp :=
  let free id := negb (bool_decide (id ∈ used)) in
  let known id := if id =? 0 then None
                  else match fi_byID f !! id with Some b => if free id then Some b else None | None => None end in
  let best :=
    match known (idx (fi_here f) l) with
    | Some b => Some b
    | None =>
      match known (idx (fi_shown f) l) with
      | Some b => Some b
      | None => List.find (fun b => mirrorable b (fi_self f) (fi_view f) && free (b_ID b)) (default [] (fi_at f !! l))
      end
    end in
  (fun b => mirrorBreakpoint b (fi_self f) (fi_path f)) <$> best.

Definition echoOf (b : option dapBp) (fallback : option mirror) (used : list Z) : entryClass * list Z :=
  match b, fallback with
  | Some b, _ => (mkClass entryEcho (d_Id b) b, d_Id b :: used)
  | None, Some m =>
    if bool_decide (d_Id (m_told m) ∈ used) then (retractClass, used)
    else (mkClass entryEcho (d_Id (m_told m)) (m_told m), d_Id (m_told m) :: used)
  | None, None => (retractClass, used)
  end.

(** [classifyLine]: [idxs] are the entries at line [l], in order; the classes
    it sets (every other is own, as it was), and the ids echoed so far. *)
Definition entry_at (entries : list sourceBreakpoint) (i : nat) : sourceBreakpoint :=
  default (mkSourceBp 0 0 "" "" "") (entries !! i).
Definition classifyLine (f : fileIndex) (entries : list sourceBreakpoint) (idxs : list nat) (l : Z) (used : list Z)
    : list (nat * entryClass) * list Z :=
  let allMarked := forallb (fun i => marked (entry_at entries i)) idxs in
  let allUnmarked := forallb (fun i => plain (entry_at entries i) && negb (marked (entry_at entries i))) idxs in
  let shown := idx (fi_here f) l in
  match idxs with
  | [] => ([], used)
  | i :: rest =>
    if allMarked then
      let '(c, used) := echoOf (candidate f used l) None used in
      ((i, c) :: map (fun i => (i, retractClass)) rest, used)
    else if allUnmarked && negb (shown =? 0) then
      let '(c, used) := echoOf (candidate f used l) (mirrors (fi_view f) !! shown) used in
      ((i, c) :: map (fun i => (i, duplicateClass)) rest, used)
    else (map (fun i => (i, retractClass)) (List.filter (fun i => marked (entry_at entries i)) idxs), used)
  end.

(** The lines of the entries in the order they first occur, and the entries
    at each. *)
Fixpoint lines_of (entries : list sourceBreakpoint) (seen : list Z) : list Z :=
  match entries with
  | [] => []
  | e :: entries =>
    if bool_decide (sb_Line e ∈ seen) then lines_of entries seen
    else sb_Line e :: lines_of entries (sb_Line e :: seen)
  end.
Definition entries_at (entries : list sourceBreakpoint) (l : Z) : list nat :=
  List.filter (fun i => sb_Line (entry_at entries i) =? l) (seq 0 (length entries)).

Definition set_classes (upd : list (nat * entryClass)) (classes : list entryClass) : list entryClass :=
  fold_left (fun cs x => <[x.1 := x.2]> cs) upd classes.
Definition line_step (f : fileIndex) (entries : list sourceBreakpoint) (st : list entryClass * list Z) (l : Z)
    : list entryClass * list Z :=
  let '(upd, used) := classifyLine f entries (entries_at entries l) l st.2 in (set_classes upd st.1, used).
Definition classify (entries : list sourceBreakpoint) (key path : string) (v : view) (bps : list Breakpoint)
    (self : string) : list entryClass :=
  let classes := map (fun _ => ownClass) entries in
  if key =?s "" then classes
  else (fold_left (line_step (indexFile key path v bps self) entries) (lines_of entries []) (classes, [])).1.

(** ** After a setBreakpoints *)

Definition settle_entry (key path : string) (v : view) (ec : sourceBreakpoint * entryClass) : view :=
  let '(e, c) := ec in
  match en_kind c with
  | entryEcho =>
    v <| mirrors ::= <[en_id c := mkMirror key path (sb_Line e) (en_told c)]> |> <| hidden ::= fun h => h ∖ {[en_id c]} |>
  | _ => v
  end.
Definition settle_mirror (key path : string) (lines echoed : list Z) (v : view) (x : Z * mirror) : view :=
  let '(id, m) := x in
  if negb (m_key m =?s key) || negb (m_path m =?s path) || bool_decide (id ∈ echoed) then v
  else
    let v := v <| mirrors ::= delete id |> in
    if bool_decide (m_line m ∈ lines) then v else v <| hidden ::= fun h => {[id]} ∪ h |>.
Definition echoed_ids (classes : list entryClass) : list Z :=
  map en_id (List.filter (fun c => bool_decide (en_kind c = entryEcho)) classes).
Definition settle (key path : string) (entries : list sourceBreakpoint) (classes : list entryClass) (v : view) : view :=
  if key =?s "" then v
  else
    let v := fold_left (settle_entry key path) (zip entries classes) v in
    fold_left (settle_mirror key path (map sb_Line entries) (echoed_ids classes)) (map_to_list (mirrors v)) v.

Definition retracted (id l : Z) : dapBp := zeroDapBp <| d_Id := id |> <| d_Line := l |> <| d_Message := retractMessage |>.
Definition nextRetractID (v : view) : Z * view := (lastRetract v - 1, v <| lastRetract ::= Z.pred |>).
