(* ===== verification/MirrorsSpec.v ===== *)
(** * What an editor holds of others' breakpoints

    [reconcile] as a refinement: the editor, that handles the events sent to
    it, holds what the view says it was told, before and after; and what the
    view says is what the session's breakpoints are now. [classify]: a copy
    of another client's breakpoint never becomes the user's own. *)

From S2P Require Import Prelude GoStrings Api Present EditorEvents Mirrors.
From Stdlib Require Import Ascii Bool Permutation.

Open Scope Z_scope.

(** ** The editor

    It keeps the breakpoints it was told of by id: DAP's removed, changed
    and new. A change of one it does not have is nothing. *)
Definition editor_step (ed : gmap Z dapBp) (e : dapEvent) : gmap Z dapBp :=
  match e with
  | BreakpointEvent reason b =>
    if reason =?s actionRemoved then delete (d_Id b) ed
    else if reason =?s actionChanged then alter (fun _ => b) (d_Id b) ed
    else <[d_Id b := b]> ed
  | _ => ed
  end.
Definition editor_run (evs : list dapEvent) (ed : gmap Z dapBp) : gmap Z dapBp := fold_left editor_step evs ed.

(** What the view says the editor holds. *)
Definition shown (v : view) : gmap Z dapBp := reported v ∪ (m_told <$> mirrors v).

(** What was told of an id is about that id, of a mirror (of a breakpoint
    that has an id) under its path. Every view a connection can have is so:
    [reached_told] (ClassifySpec.v). *)
Definition told_ok (v : view) : Prop :=
  (∀ id b, reported v !! id = Some b → d_Id b = id)
  ∧ (∀ id m, mirrors v !! id = Some m → 0 < id ∧ d_Id (m_told m) = id ∧ d_Source (m_told m) = Some (m_path m)).
(** Both reported and mirrored, which a connection's view can come to:
    [adopted_mirror_removed] (HandlersSafe.v). *)
Definition twice (v : view) (id : Z) : bool := bool_decide (is_Some (reported v !! id)) && bool_decide (is_Some (mirrors v !! id)).

Definition ids (l : list dapBp) : list Z := map d_Id l.

Lemma elem_ids k l : k ∈ ids l ↔ ∃ b, b ∈ l ∧ d_Id b = k.
Proof. unfold ids. change (map d_Id l) with (d_Id <$> l). rewrite list_elem_of_fmap. naive_solver. Qed.

Lemma run_cons reason b l ed :
  editor_run (map (breakpointEvent reason) (b :: l)) ed
  = editor_run (map (breakpointEvent reason) l) (editor_step ed (BreakpointEvent reason b)).
Proof. done. Qed.

Lemma run_removed l ed k :
  (editor_run (map (breakpointEvent actionRemoved) l) ed) !! k = if bool_decide (k ∈ ids l) then None else ed !! k.
Proof.
  revert ed. induction l as [|b l IH]; intros ed; [done|]. rewrite run_cons.
  cbn [editor_step]. rewrite String.eqb_refl, IH. destruct (decide (k = d_Id b)) as [->|Hne].
  - rewrite lookup_delete_eq, (bool_decide_eq_true_2 (_ ∈ ids (b :: l))) by (cbn; set_solver). by case_match.
  - rewrite lookup_delete_ne by done. erewrite bool_decide_ext; [done|]. cbn. set_solver.
Qed.

Lemma run_changed l ed k :
  List.NoDup (ids l) →
  (∀ b, b ∈ l → d_Id b = k → (editor_run (map (breakpointEvent actionChanged) l) ed) !! k = (fun _ => b) <$> ed !! k)
  ∧ (k ∉ ids l → (editor_run (map (breakpointEvent actionChanged) l) ed) !! k = ed !! k).
Proof.
  revert ed. induction l as [|b l IH]; intros ed Hnd; [split; [intros b Hb; set_solver|done]|].
  cbn [ids map] in Hnd. apply List.NoDup_cons_iff in Hnd as [Hb Hnd]. rewrite <- list_elem_of_In in Hb.
  setoid_rewrite run_cons.
  change (editor_step ed (BreakpointEvent actionChanged b)) with (alter (fun _ => b) (d_Id b) ed).
  destruct (IH (alter (fun _ => b) (d_Id b) ed) Hnd) as [IH1 IH2]. split.
  - intros b' [->|Hb']%elem_of_cons Hk.
    + rewrite IH2 by (by rewrite <- Hk). subst k. apply lookup_alter_eq.
    + rewrite (IH1 b') by done. rewrite lookup_alter_ne; [done|]. intros E. apply Hb, elem_ids. exists b'. split; [done|congruence].
  - cbn [ids map]. intros Hk. apply not_elem_of_cons in Hk as [Hk1 Hk2]. rewrite IH2 by done. by apply lookup_alter_ne.
Qed.

Lemma run_new l ed k :
  List.NoDup (ids l) →
  (∀ b, b ∈ l → d_Id b = k → (editor_run (map (breakpointEvent actionNew) l) ed) !! k = Some b)
  ∧ (k ∉ ids l → (editor_run (map (breakpointEvent actionNew) l) ed) !! k = ed !! k).
Proof.
  revert ed. induction l as [|b l IH]; intros ed Hnd; [split; [intros b Hb; set_solver|done]|].
  cbn [ids map] in Hnd. apply List.NoDup_cons_iff in Hnd as [Hb Hnd]. rewrite <- list_elem_of_In in Hb.
  setoid_rewrite run_cons.
  change (editor_step ed (BreakpointEvent actionNew b)) with (<[d_Id b := b]> ed).
  destruct (IH (<[d_Id b := b]> ed) Hnd) as [IH1 IH2]. split.
  - intros b' [->|Hb']%elem_of_cons Hk; [|by apply IH1]. rewrite IH2 by (by rewrite <- Hk). subst k. apply lookup_insert_eq.
  - cbn [ids map]. intros Hk. apply not_elem_of_cons in Hk as [Hk1 Hk2]. rewrite IH2 by done. by apply lookup_insert_ne.
Qed.

(** ** The loops of [reconcile] *)

(** A loop over bindings that sets or deletes each of their keys. *)
Definition set_key {V} (m : gmap Z V) (k : Z) (x : option V) : gmap Z V := partial_alter (fun _ => x) k m.
Lemma set_key_same {V} (m : gmap Z V) k x : m !! k = Some x → set_key m k (Some x) = m.
Proof. intros H. apply map_eq. intros i. unfold set_key. destruct (decide (i = k)) as [->|]; by rewrite ?lookup_partial_alter_eq, ?lookup_partial_alter_ne. Qed.

Lemma fold_set_key {V W} (F : Z → W → option V) (l : list (Z * W)) (m : gmap Z V) k :
  List.NoDup l.*1 →
  (fold_left (fun m e => set_key m e.1 (F e.1 e.2)) l m) !! k
  = match (list_to_map l : gmap Z W) !! k with Some x => F k x | None => m !! k end.
Proof.
  revert m. induction l as [|[k' x] l IH]; intros m Hnd; [done|]. cbn in Hnd. apply List.NoDup_cons_iff in Hnd as [Hk Hnd].
  cbn [fold_left list_to_map fst snd]. rewrite IH by done. cbn. unfold set_key. destruct (decide (k' = k)) as [->|Hne].
  - rewrite lookup_insert_eq, lookup_partial_alter_eq. rewrite not_elem_of_list_to_map_1; [done|].
    by rewrite list_elem_of_In.
  - rewrite lookup_insert_ne, lookup_partial_alter_ne by done. done.
Qed.

(** What a loop sends: the bindings without a wanted state, and the wanted
    states that differ. *)
Section loop.
Context {W : Type} (want : Z → option dapBp) (told : W → dapBp) (same : dapBp → dapBp → bool).
Definition gone (l : list (Z * W)) : list dapBp :=
  omap (fun e => match want e.1 with None => Some (removed_bp e.1) | Some _ => None end) l.
Definition differ (l : list (Z * W)) : list dapBp :=
  omap (fun e => match want e.1 with Some w => if same w (told e.2) then None else Some w | None => None end) l.

Lemma gone_cons k x l : gone ((k, x) :: l) = match want k with None => removed_bp k :: gone l | Some _ => gone l end.
Proof. unfold gone. cbn. by destruct (want k). Qed.
Lemma differ_cons k x l :
  differ ((k, x) :: l)
  = match want k with Some w => if same w (told x) then differ l else w :: differ l | None => differ l end.
Proof. unfold differ. cbn. destruct (want k); [|done]. by destruct (same _ _). Qed.

Context (Hwant : ∀ k w, want k = Some w → d_Id w = k).

Lemma gone_ids l k : k ∈ ids (gone l) ↔ k ∈ l.*1 ∧ want k = None.
Proof.
  rewrite elem_ids. unfold gone. split.
  - intros (b & (e & He & Hb)%list_elem_of_omap & <-). destruct (want e.1) eqn:E; [done|]. injection Hb as <-. cbn. split; [|done].
    apply list_elem_of_fmap. eauto.
  - intros [(e & -> & He)%list_elem_of_fmap Hk]. exists (removed_bp e.1). split; [|done].
    apply list_elem_of_omap. exists e. by rewrite Hk.
Qed.

Lemma differ_spec l b :
  b ∈ differ l ↔ ∃ e, e ∈ l ∧ want e.1 = Some b ∧ same b (told e.2) = false.
Proof.
  unfold differ. rewrite list_elem_of_omap. split.
  - intros (e & He & Hb). destruct (want e.1) as [w|] eqn:E; [|done]. destruct (same w _) eqn:Es; [done|]. injection Hb as <-. eauto.
  - intros (e & He & Hw & Hs). exists e. by rewrite Hw, Hs.
Qed.

Lemma differ_ids l : List.NoDup l.*1 → List.NoDup (ids (differ l)) ∧ (∀ k, k ∈ ids (differ l) → k ∈ l.*1).
Proof.
  induction l as [|e l IH]; [split; [constructor|done]|]. cbn [fmap list_fmap map]. intros [He Hl]%List.NoDup_cons_iff.
  destruct (IH Hl) as [IH1 IH2]. unfold differ. cbn. destruct (want e.1) as [w|] eqn:E; [|split; [done|set_solver]].
  destruct (same w (told e.2)); [split; [done|set_solver]|]. cbn. rewrite (Hwant _ _ E). split; [|set_solver].
  constructor; [|done]. intros Hin. apply He. rewrite <- list_elem_of_In in *. auto.
Qed.
End loop.

Definition now_of (byID : gmap Z Breakpoint) (id : Z) : option dapBp := dapBreakpoint_of <$> byID !! id.
Definition eqb_bp (a b : dapBp) : bool := bool_decide (a = b).

Lemma reported_loop byID l v r c :
  List.NoDup l.*1 → (∀ e, e ∈ l → reported v !! e.1 = Some e.2) →
  ∃ ls, fold_left (reported_step byID) l (v, r, c)
    = (v <| reported := fold_left (fun m e => set_key m e.1 (now_of byID e.1)) l (reported v) |> <| lists := ls |>,
       r ++ gone (now_of byID) l, c ++ differ (now_of byID) id eqb_bp l).
Proof.
  revert v r c. induction l as [|[k x] l IH]; intros v r c Hnd Hl.
  { exists (lists v). cbn. rewrite !app_nil_r. by destruct v. }
  cbn [fmap list_fmap map fst] in Hnd. apply List.NoDup_cons_iff in Hnd as [Hk Hnd]. rewrite <- list_elem_of_In in Hk.
  pose proof (Hl (k, x) ltac:(set_solver)) as Hx. cbn in Hx.
  rewrite gone_cons, differ_cons. cbn [fold_left reported_step fst snd]. unfold eqb_bp at 1, id at 1.
  cbn [fst snd]. rewrite (eq_refl : now_of byID k = dapBreakpoint_of <$> byID !! k).
  destruct (byID !! k) as [b|]; cbn [fmap option_fmap option_map].
  - destruct (bool_decide (dapBreakpoint_of b = x)) eqn:E.
    + apply bool_decide_eq_true in E. destruct (IH v r c Hnd) as [ls ->]; [intros; apply Hl; set_solver|]. exists ls. by rewrite E, set_key_same by done.
    + destruct (IH (v <| reported ::= <[k:=dapBreakpoint_of b]> |>) r (c ++ [dapBreakpoint_of b]) Hnd) as [ls ->].
      { intros e He. cbn. rewrite lookup_insert_ne; [apply Hl; set_solver|]. intros ->. apply Hk, list_elem_of_fmap. eauto. }
      exists ls. by rewrite <- app_assoc.
  - destruct (IH (forget k v) (r ++ [removed_bp k]) c Hnd) as [ls ->].
    { intros e He. cbn. rewrite lookup_delete_ne; [apply Hl; set_solver|]. intros ->. apply Hk, list_elem_of_fmap. eauto. }
    exists ls. by rewrite <- app_assoc.
Qed.

Definition wants (want : gmap Z dapBp) (k : Z) : option dapBp := want !! k.
Definition kept_mirror (want : gmap Z dapBp) (k : Z) (m : mirror) : option mirror :=
  (fun w => if sameBreakpoint w (m_told m) then m else m <| m_told := w |>) <$> want !! k.

Lemma mirror_loop want l v r c :
  List.NoDup l.*1 → (∀ e, e ∈ l → mirrors v !! e.1 = Some e.2) →
  fold_left (mirror_step want) l (v, r, c)
  = (v <| mirrors := fold_left (fun m e => set_key m e.1 (kept_mirror want e.1 e.2)) l (mirrors v) |>,
     r ++ gone (wants want) l, c ++ differ (wants want) m_told sameBreakpoint l).
Proof.
  revert v r c. induction l as [|[k x] l IH]; intros v r c Hnd Hl.
  { cbn. rewrite !app_nil_r. by destruct v. }
  cbn [fmap list_fmap map fst] in Hnd. apply List.NoDup_cons_iff in Hnd as [Hk Hnd]. rewrite <- list_elem_of_In in Hk.
  pose proof (Hl (k, x) ltac:(set_solver)) as Hx. cbn in Hx.
  assert (Hne : ∀ e, e ∈ l → k ≠ e.1) by (intros e He ->; apply Hk, list_elem_of_fmap; eauto).
  rewrite gone_cons, differ_cons. cbn [fold_left mirror_step fst snd].
  rewrite (eq_refl : kept_mirror want k x = (fun w => if sameBreakpoint w (m_told x) then x else x <| m_told := w |>) <$> want !! k).
  rewrite (eq_refl : wants want k = want !! k).
  destruct (want !! k) as [w|]; cbn [fmap option_fmap option_map].
  - destruct (sameBreakpoint w (m_told x)).
    + rewrite IH by (try done; intros; apply Hl; set_solver). by rewrite set_key_same.
    + rewrite IH; [by rewrite <- app_assoc|done|].
      intros e He. cbn. rewrite lookup_insert_ne by (by apply Hne). apply Hl; set_solver.
  - rewrite IH; [by rewrite <- app_assoc|done|].
    intros e He. cbn. rewrite lookup_delete_ne by (by apply Hne). apply Hl; set_solver.
Qed.

Lemma omap_ext_in {A B} (f g : A → option B) (l : list A) : (∀ x, x ∈ l → f x = g x) → omap f l = omap g l :> list B.
Proof.
  induction l as [|x l IH]; intros H; [done|]. cbn. rewrite (H x) by set_solver.
  case_match; rewrite IH; try done; intros; apply H; set_solver.
Qed.

Definition new_mirror (byID : gmap Z Breakpoint) (k : Z) (w : dapBp) : mirror :=
  mkMirror (match byID !! k with Some b => b_File b | None => "" end) (source_path w) (d_Line w) w.

Lemma new_loop byID l v a :
  List.NoDup l.*1 →
  ∃ ms, fold_left (new_step byID) l (v, a)
    = (v <| mirrors := ms |>,
       a ++ omap (fun e => match mirrors v !! e.1 with Some _ => None | None => Some e.2 end) l)
  ∧ ∀ k, ms !! k = match mirrors v !! k with
                   | Some m => Some m
                   | None => new_mirror byID k <$> (list_to_map l : gmap Z dapBp) !! k
                   end.
Proof.
  revert v a. induction l as [|[k x] l IH]; intros v a Hnd.
  { exists (mirrors v). split; [cbn; rewrite app_nil_r; by destruct v|]. intros k. cbn. rewrite lookup_empty. by destruct (mirrors v !! k). }
  cbn [fmap list_fmap map fst] in Hnd. apply List.NoDup_cons_iff in Hnd as [Hk Hnd]. rewrite <- list_elem_of_In in Hk.
  cbn [fold_left new_step fst snd omap list_omap]. destruct (mirrors v !! k) as [m|] eqn:Em.
  - destruct (IH v a Hnd) as (ms & -> & Hms). exists ms. split; [done|]. intros k'. rewrite Hms. cbn.
    destruct (decide (k = k')) as [->|Hne]; [by rewrite Em|]. by rewrite lookup_insert_ne.
  - edestruct (IH (v <| mirrors ::= <[k:=new_mirror byID k x]> |>) (a ++ [x]) Hnd) as (ms & Heq & Hms).
    exists ms. split.
    + unfold new_mirror in Heq. rewrite Heq, <- app_assoc. cbn [app]. do 3 f_equal. apply omap_ext_in.
      intros e He. cbn. rewrite lookup_insert_ne; [done|]. intros ->. apply Hk, list_elem_of_fmap. eauto.
    + intros k'. rewrite Hms. cbn. destruct (decide (k = k')) as [->|Hne].
      * by rewrite !lookup_insert_eq, Em.
      * by rewrite !lookup_insert_ne.
Qed.

(** ** What is wanted *)

Lemma wanted_go_keys self own v bps taken out k w :
  (wanted_go self own v bps taken out) !! k = Some w →
  out !! k = Some w
  ∨ ∃ b, b ∈ bps ∧ b_ID b = k ∧ mirrorable b self v = true ∧ (k ∉ hidden v)
      ∧ w = mirrorBreakpoint b self (mirror_path b v).
Proof.
  revert taken out. induction bps as [|b bps IH]; intros taken out; cbn [wanted_go]; [by left|].
  destruct (negb _ || _ || _) eqn:E; [intros [?|(b' & ? & ?)]%IH; [by left|]; right; exists b'; set_solver|].
  apply orb_false_iff in E as [E _]. apply orb_false_iff in E as [E _]. apply negb_false_iff in E.
  case_bool_decide as Eh; intros [Hw|(b' & ? & ?)]%IH; [by left|right; exists b'; set_solver| |right; exists b'; set_solver].
  apply lookup_insert_Some in Hw as [[<- <-]|[_ ?]]; [|by left]. right. exists b. split_and!; [set_solver|done..].
Qed.

Lemma mirrorable_unreported b self v : mirrorable b self v = true → reported v !! b_ID b = None ∧ 0 < b_ID b.
Proof.
  unfold mirrorable. rewrite !andb_true_iff. intros (((((H0 & _) & _) & _) & H) & _).
  apply negb_true_iff, bool_decide_eq_false in H. split; [|lia]. by apply eq_None_not_Some.
Qed.

Lemma wanted_told self bps v k w :
  (wanted self bps v) !! k = Some w →
  d_Id w = k ∧ reported v !! k = None ∧ (k ∉ hidden v)
  ∧ ∃ b, b ∈ bps ∧ (b_ID b = k ∧ 0 < k) ∧ d_Source w = Some (mirror_path b v).
Proof.
  unfold wanted. intros [H|(b & Hb & <- & Hm & Hh & ->)]%wanted_go_keys; [by rewrite lookup_empty in H|].
  destruct (mirrorable_unreported _ _ _ Hm) as [Hr ?]. split_and!; [done|done|done|eauto 6].
Qed.

Lemma by_id_spec bps k b : List.NoDup (map b_ID bps) → by_id bps !! k = Some b ↔ b ∈ bps ∧ b_ID b = k.
Proof.
  intros Hnd. split.
  - intros H. unfold by_id in H. destruct (decide (k ∈ map b_ID bps)) as [Hk|Hk].
    + apply list_elem_of_In, List.in_map_iff in Hk as (b' & <- & Hb').
      rewrite (lookup_fold_insert b_ID (fun b => b)) in H by done. injection H as <-. by rewrite list_elem_of_In.
    + rewrite (lookup_fold_insert_other b_ID (fun b => b)) in H; [by rewrite lookup_empty in H|]. by rewrite <- list_elem_of_In.
  - intros [Hb <-]. apply (lookup_fold_insert b_ID (fun b => b)); [done|]. by rewrite <- list_elem_of_In.
Qed.

(** A breakpoint of the list that takes its line: the first mirrorable one
    there, where the connection has none of its own. *)
Definition first_at (self : string) (own taken : list fileLine) (v : view) (bps : list Breakpoint) (b : Breakpoint) : Prop :=
  ∃ before rest, bps = before ++ b :: rest ∧ mirrorable b self v = true
    ∧ ((b_File b, b_Line b) ∉ own) ∧ ((b_File b, b_Line b) ∉ taken)
    ∧ ∀ b', b' ∈ before → mirrorable b' self v = true → (b_File b', b_Line b') ≠ (b_File b, b_Line b).

Lemma first_at_cons self own taken v x bps b :
  first_at self own taken v (x :: bps) b ↔
  (b = x ∧ mirrorable x self v = true ∧ ((b_File x, b_Line x) ∉ own) ∧ ((b_File x, b_Line x) ∉ taken))
  ∨ (first_at self own taken v bps b ∧ (mirrorable x self v = true → (b_File x, b_Line x) ≠ (b_File b, b_Line b))).
Proof.
  unfold first_at. split.
  - intros (before & rest & E & Hm & Ho & Ht & Hb). destruct before as [|y before]; injection E as -> ->; [by left|].
    right. split; [|apply Hb; set_solver]. exists before, rest. split_and!; try done. intros; apply Hb; set_solver.
  - intros [(-> & Hm & Ho & Ht)|[(before & rest & -> & Hm & Ho & Ht & Hb) Hx]].
    + exists [], bps. split_and!; try done. set_solver.
    + exists (x :: before), rest. split_and!; try done. intros b' [->|Hb']%elem_of_cons; auto.
Qed.

Lemma first_at_taken self own x taken v bps b :
  first_at self own (x :: taken) v bps b ↔ first_at self own taken v bps b ∧ x ≠ (b_File b, b_Line b).
Proof.
  unfold first_at. split.
  - intros (before & rest & -> & Hm & Ho & Ht & Hb). split; [|set_solver]. exists before, rest. split_and!; try done. set_solver.
  - intros [(before & rest & -> & Hm & Ho & Ht & Hb) Hx]. exists before, rest. split_and!; try done. set_solver.
Qed.

Lemma first_at_In self own taken v bps b : first_at self own taken v bps b → b ∈ bps.
Proof. intros (before & rest & -> & _). set_solver. Qed.

Lemma wanted_go_spec self own v bps taken out k w :
  List.NoDup (map b_ID bps) → (∀ b, b ∈ bps → out !! b_ID b = None) →
  (wanted_go self own v bps taken out) !! k = Some w ↔
  out !! k = Some w
  ∨ ∃ b, first_at self own taken v bps b ∧ b_ID b = k ∧ (k ∉ hidden v) ∧ w = mirrorBreakpoint b self (mirror_path b v).
Proof.
  revert taken out. induction bps as [|x bps IH]; intros taken out Hnd Hout; cbn [wanted_go].
  { split; [by left|]. intros [?|(b & Hf%first_at_In & _)]; [done|set_solver]. }
  cbn [map] in Hnd. apply List.NoDup_cons_iff in Hnd as [Hx Hnd].
  assert (Hout' : ∀ b, b ∈ bps → out !! b_ID b = None) by (intros; apply Hout; set_solver).
  assert (Hne : ∀ b, b ∈ bps → b_ID b ≠ b_ID x).
  { intros b Hb E. apply Hx, List.in_map_iff. exists b. by rewrite <- list_elem_of_In. }
  setoid_rewrite first_at_cons.
  destruct (negb _ || _ || _) eqn:E.
  { rewrite IH by done. apply or_iff_compat_l. apply exist_proper. intros b. apply and_iff_compat_r.
    rewrite !orb_true_iff, negb_true_iff, !bool_decide_eq_true in E. split; [|intros [(-> & Hm & Ho & Ht)|[H _]]; [|done]].
    - intros Hf. right. split; [done|]. intros Hm Heq. pose proof Hf as (before & rest & _ & Hm' & Ho & Ht & _).
      rewrite <- Heq in *. naive_solver congruence.
    - naive_solver congruence. }
  apply orb_false_iff in E as [E Et]. apply orb_false_iff in E as [Em Eo].
  apply negb_false_iff in Em. apply bool_decide_eq_false in Eo, Et.
  assert (Hxk : ∀ b, b ∈ bps → ¬ (b = x ∧ mirrorable x self v = true ∧ ((b_File x, b_Line x) ∉ own) ∧ ((b_File x, b_Line x) ∉ taken))).
  { intros b Hb [-> _]. by apply (Hne x). }
  case_bool_decide as Eh.
  - rewrite IH by done. setoid_rewrite first_at_taken. apply or_iff_compat_l. split.
    + intros (b & [Hf Hn] & <- & Hh & ->). exists b. split_and!; [|done..]. right. split; [done|]. auto.
    + intros (b & [(-> & _)|[Hf Hn]] & <- & Hh & ->); [done|]. exists b. split_and!; auto.
  - rewrite IH; [|done|].
    2:{ intros b Hb. rewrite lookup_insert_ne by (by apply not_eq_sym, Hne). by apply Hout'. }
    setoid_rewrite first_at_taken. split.
    + intros [Hw|(b & [Hf Hn] & <- & Hh & ->)].
      * apply lookup_insert_Some in Hw as [[<- <-]|[_ ?]]; [|by left]. right. exists x. split_and!; [by left|done..].
      * right. exists b. split_and!; [|done..]. right. split; auto.
    + intros [Hw|(b & [(-> & _)|[Hf Hn]] & <- & Hh & ->)].
      * left. apply lookup_insert_Some. right. split; [|done]. intros <-. rewrite (Hout x) in Hw by set_solver. done.
      * left. apply lookup_insert_eq.
      * right. exists b. split_and!; auto.
Qed.

Lemma wanted_spec self bps v k w :
  List.NoDup (map b_ID bps) →
  (wanted self bps v) !! k = Some w ↔
  ∃ b, first_at self (own_lines bps v) [] v bps b ∧ b_ID b = k ∧ (k ∉ hidden v) ∧ w = mirrorBreakpoint b self (mirror_path b v).
Proof.
  intros Hnd. unfold wanted. rewrite wanted_go_spec; [|done|intros; apply lookup_empty].
  rewrite lookup_empty. naive_solver.
Qed.

(** What is wanted depends on what is reported, which of the breakpoints are
    hidden, and under which path the wanted ones are shown. *)
Lemma own_lines_ext bps v v' : reported v' = reported v → own_lines bps v' = own_lines bps v.
Proof. intros H. unfold own_lines. by rewrite H. Qed.

Lemma mirrorable_ext b self v v' : reported v' = reported v → mirrorable b self v' = mirrorable b self v.
Proof. intros H. unfold mirrorable. by rewrite H. Qed.

Lemma first_at_ext self own v v' bps b :
  reported v' = reported v → first_at self own [] v' bps b ↔ first_at self own [] v bps b.
Proof. intros H. unfold first_at. by setoid_rewrite (mirrorable_ext _ _ _ _ H). Qed.

Lemma wanted_ext self bps v v' :
  List.NoDup (map b_ID bps) → reported v' = reported v →
  (∀ b, b ∈ bps → b_ID b ∈ hidden v' ↔ b_ID b ∈ hidden v) →
  (∀ b w, b ∈ bps → (wanted self bps v) !! b_ID b = Some w → mirror_path b v' = mirror_path b v) →
  wanted self bps v' = wanted self bps v.
Proof.
  intros Hnd Hr Hh Hp. apply map_eq. intros k. apply option_eq. intros w. rewrite !wanted_spec by done.
  rewrite (own_lines_ext _ _ _ Hr). setoid_rewrite (first_at_ext _ _ _ _ _ _ Hr).
  apply exist_proper. intros b. split; intros (Hf & <- & Hk & ->); pose proof (first_at_In _ _ _ _ _ _ Hf) as Hb;
    rewrite (Hh b Hb) in *; (split_and!; [done..|]); f_equal; [|symmetry];
    (eapply Hp; [done|apply wanted_spec; [done|]; eauto 6]).
Qed.

(** ** The events of a reconcile *)

Definition group (reason : string) (l : list dapBp) : list dapEvent := map (breakpointEvent reason) (merge_sort id_le l).

Lemma elem_sorted b l : b ∈ merge_sort id_le l ↔ b ∈ l.
Proof. by rewrite merge_sort_Permutation. Qed.
Lemma elem_ids_sorted k l : k ∈ ids (merge_sort id_le l) ↔ k ∈ ids l.
Proof. rewrite !elem_ids. by setoid_rewrite elem_sorted. Qed.
Lemma NoDup_ids_sorted l : List.NoDup (ids l) → List.NoDup (ids (merge_sort id_le l)).
Proof.
  intros H. eapply Permutation_NoDup; [|exact H]. unfold ids. apply Permutation_map. symmetry. apply merge_sort_Permutation.
Qed.

Lemma editor_run_app e1 e2 ed : editor_run (e1 ++ e2) ed = editor_run e2 (editor_run e1 ed).
Proof. apply fold_left_app. Qed.

(** What the editor holds of an id after the three groups. *)
Lemma editor_run_groups removed changed added ed k :
  List.NoDup (ids changed) → List.NoDup (ids added) →
  let ed' := editor_run (group actionRemoved removed ++ group actionChanged changed ++ group actionNew added) ed in
  let left := if bool_decide (k ∈ ids removed) then None else ed !! k in
  (∀ b, b ∈ added → d_Id b = k → ed' !! k = Some b)
  ∧ (k ∉ ids added → ∀ b, b ∈ changed → d_Id b = k → ed' !! k = (fun _ => b) <$> left)
  ∧ (k ∉ ids added → k ∉ ids changed → ed' !! k = left).
Proof.
  intros Hc Ha ed' left. subst ed'. rewrite !editor_run_app. unfold group.
  set (ed1 := editor_run _ ed). set (ed2 := editor_run _ ed1).
  assert (H1 : ed1 !! k = left).
  { unfold ed1, left. rewrite run_removed. by erewrite bool_decide_ext by apply elem_ids_sorted. }
  destruct (run_changed (merge_sort id_le changed) ed1 k) as [C1 C2]; [by apply NoDup_ids_sorted|].
  destruct (run_new (merge_sort id_le added) ed2 k) as [N1 N2]; [by apply NoDup_ids_sorted|].
  rewrite elem_ids_sorted in C2, N2. setoid_rewrite elem_sorted in C1. setoid_rewrite elem_sorted in N1.
  split_and!; [done| |].
  - intros Hk b Hb Hbk. rewrite N2 by done. unfold ed2. by rewrite (C1 b), H1.
  - intros Hk Hk'. rewrite N2 by done. unfold ed2. by rewrite C2.
Qed.

Lemma same_eq a b p q : d_Source a = Some p → d_Source b = Some q → sameBreakpoint a b = true → a = b.
Proof.
  unfold sameBreakpoint, source_path. rewrite andb_true_iff, bool_decide_eq_true. intros Ha Hb [He Hs%String.eqb_eq].
  rewrite Ha, Hb in Hs. cbn in Hs. subst q. destruct a, b. cbn in *. injection He. intros. congruence.
Qed.

(** The parts of a [reconcile]: the view's maps afterwards, and the groups. *)
Record reconciled (self : string) (bps : list Breakpoint) (v v' : view) (removed changed added : list dapBp) : Prop := {
  rc_reported : ∀ k, reported v' !! k = match reported v !! k with Some _ => now_of (by_id bps) k | None => None end;
  rc_mirrors : ∀ k, mirrors v' !! k = match mirrors v !! k with
    | Some m => kept_mirror (wanted self bps v') k m
    | None => new_mirror (by_id bps) k <$> (wanted self bps v') !! k
    end;
  rc_hidden : hidden v' = filter (fun id => is_Some (by_id bps !! id)) (hidden v);
  rc_latest : latest v' = latest v;
  rc_wanted : ∀ v1, reported v1 = reported v' → latest v1 = latest v → hidden v1 = hidden v → mirrors v1 = mirrors v →
    wanted self bps v' = wanted self bps v1;
  rc_removed : ∀ k, k ∈ ids removed ↔ (is_Some (reported v !! k) ∧ now_of (by_id bps) k = None)
                                     ∨ (is_Some (mirrors v !! k) ∧ (wanted self bps v') !! k = None);
  rc_changed : ∀ b, b ∈ changed ↔
    (∃ told, reported v !! d_Id b = Some told ∧ now_of (by_id bps) (d_Id b) = Some b ∧ b ≠ told)
    ∨ (∃ m, mirrors v !! d_Id b = Some m ∧ (wanted self bps v') !! d_Id b = Some b ∧ sameBreakpoint b (m_told m) = false);
  rc_added : ∀ b, b ∈ added ↔ mirrors v !! d_Id b = None ∧ (wanted self bps v') !! d_Id b = Some b;
  rc_nodup : List.NoDup (ids added) ∧ List.NoDup (ids changed) }.

Lemma map_to_list_nodup {V} (m : gmap Z V) : List.NoDup (map_to_list m).*1.
Proof. apply NoDup_ListNoDup, NoDup_fst_map_to_list. Qed.

Lemma list_to_map_lookup {V} (m : gmap Z V) k : (list_to_map (map_to_list m) : gmap Z V) !! k = m !! k.
Proof. by rewrite list_to_map_to_list. Qed.

Lemma fold_map_set {V} (F : Z → V → option V) (m : gmap Z V) k :
  (fold_left (fun m e => set_key m e.1 (F e.1 e.2)) (map_to_list m) m) !! k = match m !! k with Some x => F k x | None => None end.
Proof.
  rewrite (fold_set_key F) by apply map_to_list_nodup. rewrite list_to_map_lookup. by destruct (m !! k).
Qed.

Lemma elem_gone_map {W} want (m : gmap Z W) k : k ∈ ids (gone want (map_to_list m)) ↔ is_Some (m !! k) ∧ want k = None.
Proof.
  rewrite gone_ids. f_equiv. rewrite list_elem_of_fmap. split.
  - intros ([k' x] & -> & H%elem_of_map_to_list). eauto.
  - intros [x Hx]. exists (k, x). split; [done|]. by apply elem_of_map_to_list.
Qed.

Lemma elem_differ_map {W} want (told : W → dapBp) same (m : gmap Z W) b :
  (∀ k w, want k = Some w → d_Id w = k) →
  b ∈ differ want told same (map_to_list m)
  ↔ ∃ x, m !! d_Id b = Some x ∧ want (d_Id b) = Some b ∧ same b (told x) = false.
Proof.
  intros Hw. rewrite differ_spec. split.
  - intros ([k x] & H%elem_of_map_to_list & Hb & Hs). cbn in *. rewrite (Hw _ _ Hb). eauto.
  - intros (x & Hx & Hb & Hs). exists (d_Id b, x). by rewrite elem_of_map_to_list.
Qed.

Lemma differ_ids_map {W} want (told : W → dapBp) same (m : gmap Z W) :
  (∀ k w, want k = Some w → d_Id w = k) →
  List.NoDup (ids (differ want told same (map_to_list m)))
  ∧ ∀ k, k ∈ ids (differ want told same (map_to_list m)) → is_Some (m !! k).
Proof.
  intros Hw. destruct (differ_ids want told same Hw (map_to_list m) (map_to_list_nodup m)) as [H1 H2].
  split; [done|]. intros k Hk. apply H2, list_elem_of_fmap in Hk as ([k' x] & -> & H%elem_of_map_to_list). eauto.
Qed.

Lemma now_of_id byID k w : (∀ k b, byID !! k = Some b → b_ID b = k) → now_of byID k = Some w → d_Id w = k.
Proof. intros H. unfold now_of. destruct (byID !! k) as [b|] eqn:E; [|done]. intros [= <-]. by apply H in E. Qed.

Lemma NoDup_app_ids l1 l2 :
  List.NoDup (ids l1) → List.NoDup (ids l2) → (∀ k, k ∈ ids l1 → k ∉ ids l2) → List.NoDup (ids (l1 ++ l2)).
Proof.
  intros H1 H2 H. unfold ids. rewrite map_app. apply List.NoDup_app; [done..|]. intros k Hk.
  rewrite <- !list_elem_of_In in *. by apply H.
Qed.

(** The bindings of a wanted map that are not there yet. *)
Lemma added_spec (want : gmap Z dapBp) (have : gmap Z mirror) :
  (∀ k w, want !! k = Some w → d_Id w = k) →
  let l := omap (fun e => match have !! e.1 with Some _ => None | None => Some e.2 end) (map_to_list want) in
  (∀ b, b ∈ l ↔ have !! d_Id b = None ∧ want !! d_Id b = Some b) ∧ List.NoDup (ids l).
Proof.
  intros Hw l. split.
  - intros b. unfold l. rewrite list_elem_of_omap. split.
    + intros ([k w] & H%elem_of_map_to_list & Hb). cbn in Hb. destruct (have !! k) eqn:E; [done|]. injection Hb as <-.
      by rewrite (Hw _ _ H).
    + intros [Hh Hb]. exists (d_Id b, b). rewrite elem_of_map_to_list. cbn. by rewrite Hh.
  - unfold l. pose proof (map_to_list_nodup want) as Hnd.
    assert (Hin : ∀ e, e ∈ map_to_list want → d_Id e.2 = e.1) by (intros [k w] H%elem_of_map_to_list; by apply Hw).
    revert Hnd Hin. generalize (map_to_list want) as es. clear. intros es. induction es as [|e es IH]; [constructor|].
    cbn [fmap list_fmap map omap list_omap]. intros [He Hnd]%List.NoDup_cons_iff Hin.
    specialize (IH Hnd ltac:(intros; apply Hin; set_solver)). destruct (have !! e.1); [done|]. cbn. constructor; [|done].
    intros Hk. rewrite <- list_elem_of_In in Hk. apply elem_ids in Hk as (b & (e' & He' & Hb)%list_elem_of_omap & Hk).
    destruct (have !! e'.1); [done|]. injection Hb as <-. apply He. rewrite <- list_elem_of_In, list_elem_of_fmap.
    exists e'. split; [|done]. rewrite <- (Hin e), <- (Hin e') by set_solver. done.
Qed.

Lemma wanted_id self bps v k w : (wanted self bps v) !! k = Some w → d_Id w = k.
Proof. intros H. by apply wanted_told in H as [? _]. Qed.

(** A mirror the loops left is under the path it is wanted under. *)
Lemma wanted_left self bps v v1 :
  List.NoDup (map b_ID bps) →
  reported v = reported v1 → latest v = latest v1 →
  hidden v = filter (fun id => is_Some (by_id bps !! id)) (hidden v1) →
  (∀ k, mirrors v !! k = match mirrors v1 !! k with
        | Some m => kept_mirror (wanted self bps v1) k m
        | None => new_mirror (by_id bps) k <$> (wanted self bps v1) !! k end) →
  wanted self bps v = wanted self bps v1.
Proof.
  intros Hnd Hr Hl Hh Hm. apply wanted_ext; [done..| |].
  - intros b Hb. rewrite Hh, elem_of_filter. split; [tauto|]. intros ?. split; [|done]. exists b. by apply by_id_spec.
  - intros b w Hb Hw. unfold mirror_path, announcePath. rewrite Hm, Hl.
    destruct (wanted_told _ _ _ _ _ Hw) as (_ & _ & _ & b' & Hb' & [Hid _] & Hs).
    assert (b' = b) as ->.
    { assert (H1 : by_id bps !! b_ID b = Some b') by (by apply by_id_spec).
      assert (H2 : by_id bps !! b_ID b = Some b) by (by apply by_id_spec). congruence. }
    destruct (mirrors v1 !! b_ID b) as [m|] eqn:Em.
    + unfold kept_mirror. rewrite Hw. cbn. by destruct (sameBreakpoint _ _).
    + rewrite Hw. cbn. unfold source_path. rewrite Hs. cbn. unfold mirror_path, announcePath. by rewrite Em.
Qed.

Lemma reconcile_parts self bps v :
  List.NoDup (map b_ID bps) →
  ∃ removed changed added v', reconcile self bps v
      = (group actionRemoved removed ++ group actionChanged changed ++ group actionNew added, v')
    ∧ reconciled self bps v v' removed changed added.
Proof.
  intros Hnd. unfold reconcile, reconcileReported.
  destruct (reported_loop (by_id bps) (map_to_list (reported v)) v [] [] (map_to_list_nodup _)) as [ls ->].
  { intros [k x]. by rewrite elem_of_map_to_list. }
  cbn [app]. set (v1 := v <| reported := _ |> <| lists := ls |>). change (mirrors v1) with (mirrors v).
  set (want := wanted self bps v1).
  rewrite (mirror_loop want) by (try apply map_to_list_nodup; intros [k x]; by rewrite elem_of_map_to_list).
  change (mirrors v1) with (mirrors v).
  set (v2 := v1 <| mirrors := _ |>).
  destruct (new_loop (by_id bps) (map_to_list want) v2 [] (map_to_list_nodup _)) as (ms & -> & Hms). cbn [app].
  assert (Hid : ∀ k b, by_id bps !! k = Some b → b_ID b = k) by (intros k b H; apply by_id_spec in H as [_ ?]; done).
  assert (Hnow : ∀ k w, now_of (by_id bps) k = Some w → d_Id w = k) by (intros k w Hk; exact (now_of_id _ _ _ Hid Hk)).
  assert (Hwant : ∀ k w, wants want k = Some w → d_Id w = k) by (intros k w; apply wanted_id).
  assert (Hm2 : ∀ k, mirrors v2 !! k = match mirrors v !! k with Some m => kept_mirror want k m | None => None end).
  { intros k. cbn. apply fold_map_set. }
  eexists _, _, _, _. split; [reflexivity|]. set (v' := v2 <| mirrors := ms |> <| hidden ::= _ |>).
  assert (Hmir : ∀ k, mirrors v' !! k = match mirrors v1 !! k with
        | Some m => kept_mirror want k m | None => new_mirror (by_id bps) k <$> want !! k end).
  { intros k. cbn. rewrite Hms, list_to_map_lookup, Hm2. destruct (mirrors v !! k) as [m|]; [|done].
    unfold kept_mirror. by destruct (want !! k). }
  assert (Hw : wanted self bps v' = want) by (by apply wanted_left).
  destruct (added_spec want (mirrors v2) Hwant) as [Ha Hna].
  destruct (differ_ids_map (now_of (by_id bps)) id eqb_bp (reported v) Hnow) as [Hn1 Hi1].
  destruct (differ_ids_map (wants want) m_told sameBreakpoint (mirrors v) Hwant) as [Hn2 Hi2].
  split; rewrite ?Hw.
  5:{ intros v3 H1 H2 H3 H4. symmetry. apply wanted_ext; [done|done| |].
      - intros b _. by rewrite H3.
      - intros b w _ _. unfold mirror_path, announcePath. by rewrite H4, H2. }
  - intros k. cbn. apply (fold_map_set (fun k _ => now_of (by_id bps) k)).
  - exact Hmir.
  - done.
  - done.
  - intros k. unfold ids. rewrite map_app, elem_of_app. fold (ids (gone (now_of (by_id bps)) (map_to_list (reported v)))).
    fold (ids (gone (wants want) (map_to_list (mirrors v)))). by rewrite !elem_gone_map.
  - intros b. rewrite elem_of_app, !elem_differ_map by done. unfold eqb_bp, id. by setoid_rewrite bool_decide_eq_false.
  - intros b. rewrite Ha, Hm2. unfold wants. split; intros [H1 H2]; (split; [|done]).
    + destruct (mirrors v !! d_Id b); [|done]. unfold kept_mirror in H1. by rewrite H2 in H1.
    + by rewrite H1.
  - split; [done|]. apply NoDup_app_ids; [done..|]. intros k [t Ht]%Hi1 (b & (m & _ & Hb & _)%elem_differ_map & Hk)%elem_ids; [|done].
    unfold wants in Hb. rewrite Hk in Hb. apply wanted_told in Hb as (_ & Hr & _ & x & Hx & [Hxk _] & _).
    change (reported v1 !! k) with ((fold_left (fun m e => set_key m e.1 (now_of (by_id bps) e.1)) (map_to_list (reported v)) (reported v)) !! k) in Hr.
    rewrite (fold_map_set (fun k _ => now_of (by_id bps) k)), Ht in Hr. unfold now_of in Hr.
    by rewrite (proj2 (by_id_spec bps k x Hnd)) in Hr by done.
Qed.

Lemma kept_told w m p q :
  d_Source w = Some p → d_Source (m_told m) = Some q →
  m_told (if sameBreakpoint w (m_told m) then m else m <| m_told := w |>) = w.
Proof. intros Hp Hq. destruct (sameBreakpoint w (m_told m)) eqn:E; [|done]. symmetry. by eapply same_eq. Qed.

Section told.
Context (self : string) (bps : list Breakpoint) (v v' : view) (removed changed added : list dapBp).
Context (Hwf : told_ok v) (Hnd : List.NoDup (map b_ID bps)) (Hrc : reconciled self bps v v' removed changed added).
Let want := wanted self bps v'.

Lemma reported_unwanted k : is_Some (reported v !! k) → want !! k = None.
Proof.
  intros [t Ht]. destruct (want !! k) as [w|] eqn:E; [|done]. apply wanted_told in E as (_ & Hr & _ & b & Hb & [Hid _] & _).
  rewrite (rc_reported _ _ _ _ _ _ _ Hrc), Ht in Hr. unfold now_of in Hr.
  rewrite (proj2 (by_id_spec bps k b Hnd)) in Hr by done. done.
Qed.

Lemma mirrors_told : m_told <$> mirrors v' = want.
Proof.
  destruct Hwf as [_ Hwm]. apply map_eq. intros k. rewrite lookup_fmap, (rc_mirrors _ _ _ _ _ _ _ Hrc). fold want.
  destruct (mirrors v !! k) as [m|] eqn:Em.
  - unfold kept_mirror. destruct (want !! k) as [w|] eqn:E; [|done]. cbn. f_equal.
    destruct (Hwm _ _ Em) as (_ & _ & Hs). apply wanted_told in E as (_ & _ & _ & b & _ & _ & Hw). by eapply kept_told.
  - by destruct (want !! k).
Qed.

Lemma shown_after k :
  shown v' !! k = match reported v !! k with Some _ => now_of (by_id bps) k | None => want !! k end.
Proof.
  unfold shown. rewrite lookup_union, mirrors_told, (rc_reported _ _ _ _ _ _ _ Hrc).
  destruct (reported v !! k) as [t|] eqn:E; [|by rewrite (left_id_L None (∪))].
  rewrite reported_unwanted by (by rewrite E). by rewrite (right_id_L None (∪)).
Qed.

Lemma shown_before k :
  shown v !! k = match reported v !! k with Some t => Some t | None => m_told <$> mirrors v !! k end.
Proof. unfold shown. rewrite lookup_union, lookup_fmap. destruct (reported v !! k), (mirrors v !! k); done. Qed.

Let told_run : gmap Z dapBp :=
  editor_run (group actionRemoved removed ++ group actionChanged changed ++ group actionNew added) (shown v).

Lemma told_run_groups k :
  let left := if bool_decide (k ∈ ids removed) then None else shown v !! k in
  (∀ b, b ∈ added → d_Id b = k → told_run !! k = Some b)
  ∧ (k ∉ ids added → ∀ b, b ∈ changed → d_Id b = k → told_run !! k = (fun _ => b) <$> left)
  ∧ (k ∉ ids added → k ∉ ids changed → told_run !! k = left).
Proof. destruct (rc_nodup _ _ _ _ _ _ _ Hrc) as [Hna Hnc]. by apply editor_run_groups. Qed.

Lemma reported_not_added k t : reported v !! k = Some t → k ∉ ids added.
Proof.
  intros Et (b & Hb & <-)%elem_ids. apply (rc_added _ _ _ _ _ _ _ Hrc) in Hb as [_ Hb].
  fold want in Hb. by rewrite reported_unwanted in Hb by (by rewrite Et).
Qed.

(** An id that was both. *)
Lemma told_twice k t m : reported v !! k = Some t → mirrors v !! k = Some m → told_run !! k = None.
Proof.
  intros Et Em. destruct (told_run_groups k) as (_ & HC & HR). pose proof (reported_not_added _ _ Et) as Hna.
  assert (Hr : k ∈ ids removed).
  { apply (rc_removed _ _ _ _ _ _ _ Hrc). right. split; [by eexists|]. apply reported_unwanted. by eexists. }
  rewrite bool_decide_eq_true_2 in HC, HR by done. destruct (decide (k ∈ ids changed)) as [(b & Hb & Hbk)%elem_ids|Hk]; [|by apply HR].
  by rewrite (HC Hna b Hb Hbk).
Qed.

(** An id that was reported. *)
Lemma told_reported k t : reported v !! k = Some t → mirrors v !! k = None → told_run !! k = now_of (by_id bps) k.
Proof.
  intros Et Hmk. destruct (told_run_groups k) as (_ & HC & HR). pose proof (reported_not_added _ _ Et) as Hna.
  pose proof (rc_changed _ _ _ _ _ _ _ Hrc) as Hch. pose proof (rc_removed _ _ _ _ _ _ _ Hrc k) as Hrm. rewrite Hmk in Hrm.
  assert (Hc : ∀ b, b ∈ changed → d_Id b = k → now_of (by_id bps) k = Some b ∧ b ≠ t).
  { intros b Hb Hbk. apply Hch in Hb. rewrite Hbk, Et, Hmk in Hb. destruct Hb as [(? & [= <-] & ?)|(? & ? & _)]; done. }
  assert (Hs : shown v !! k = Some t) by (by rewrite shown_before, Et).
  destruct (now_of (by_id bps) k) as [n|] eqn:En.
  - assert (Hid : d_Id n = k) by (eapply now_of_id; [|done]; intros i b H; apply by_id_spec in H as [_ ?]; done).
    assert (Hr : k ∉ ids removed) by (rewrite Hrm; intros [[_ ?]|[[? ?] _]]; done).
    rewrite bool_decide_eq_false_2, Hs in HC, HR by done.
    destruct (decide (n = t)) as [->|Hne].
    + rewrite HR; [done|done|]. intros (b & Hb & Hbk)%elem_ids. destruct (Hc b Hb Hbk); congruence.
    + rewrite (HC Hna n); [done| |done]. apply Hch. left. rewrite Hid. eauto.
  - rewrite HR; [|done|intros (b & Hb & Hbk)%elem_ids; destruct (Hc b Hb Hbk); congruence].
    rewrite bool_decide_eq_true_2; [done|]. apply Hrm. left. eauto.
Qed.

(** An id that was not. *)
Lemma told_mirrored k : reported v !! k = None → told_run !! k = want !! k.
Proof.
  intros Et. destruct (told_run_groups k) as (HA & HC & HR). destruct Hwf as [_ Hwm].
  pose proof (rc_changed _ _ _ _ _ _ _ Hrc) as Hch. pose proof (rc_added _ _ _ _ _ _ _ Hrc) as Had.
  pose proof (rc_removed _ _ _ _ _ _ _ Hrc k) as Hrm. fold want in Hch, Had, Hrm.
  assert (Hc : ∀ b, b ∈ changed → d_Id b = k → ∃ m, mirrors v !! k = Some m ∧ want !! k = Some b ∧ sameBreakpoint b (m_told m) = false).
  { intros b Hb Hbk. apply Hch in Hb. rewrite Hbk, Et in Hb. destruct Hb as [(? & ? & _)|?]; done. }
  destruct (mirrors v !! k) as [m|] eqn:Em.
  - assert (Hna : k ∉ ids added) by (intros (b & Hb & <-)%elem_ids; apply Had in Hb as [Hb _]; congruence).
    destruct (want !! k) as [w|] eqn:Ew.
    + pose proof (wanted_id _ _ _ _ _ Ew) as Hid.
      assert (Hr : k ∉ ids removed) by (rewrite Hrm; intros [[[? ?] _]|[_ ?]]; congruence).
      rewrite bool_decide_eq_false_2, shown_before, Et, Em in HC, HR by done.
      destruct (sameBreakpoint w (m_told m)) eqn:Es; [|rewrite (HC Hna w); [done|apply Hch; right; rewrite Hid; eauto|done]].
      rewrite HR; [|done|intros (b & Hb & Hbk)%elem_ids; destruct (Hc b Hb Hbk) as (? & ? & ? & ?); congruence]. cbn. f_equal.
      apply wanted_told in Ew as (_ & _ & _ & b & _ & _ & Hw). symmetry. eapply same_eq; [done|apply (Hwm _ _ Em)|done].
    + rewrite HR; [|done|intros (b & Hb & Hbk)%elem_ids; destruct (Hc b Hb Hbk) as (? & ? & ? & ?); congruence].
      rewrite bool_decide_eq_true_2; [done|]. apply Hrm. right. eauto.
  - destruct (want !! k) as [w|] eqn:Ew.
    + pose proof (wanted_id _ _ _ _ _ Ew) as Hid. apply HA; [|done]. apply Had. by rewrite Hid.
    + rewrite HR.
      * rewrite shown_before, Et, Em. by case_bool_decide.
      * intros (b & Hb & <-)%elem_ids. apply Had in Hb as [_ Hb]. congruence.
      * intros (b & Hb & Hbk)%elem_ids. by destruct (Hc b Hb Hbk) as (? & ? & _).
Qed.

Lemma editor_told k : told_run !! k = if twice v k then None else shown v' !! k.
Proof.
  unfold twice. rewrite shown_after. destruct (reported v !! k) as [t|] eqn:Et; [|by apply told_mirrored in Et].
  rewrite (bool_decide_eq_true_2 (is_Some (Some t))) by done. destruct (mirrors v !! k) as [m|] eqn:Em.
  - by apply (told_twice _ t m).
  - by apply (told_reported _ t).
Qed.

Lemma reconciled_once k : twice v' k = false.
Proof.
  unfold twice. rewrite <- not_true_iff_false, andb_true_iff, !bool_decide_eq_true. intros [[t Ht] [m Hm]].
  assert (Hw : want !! k = Some (m_told m)) by (by rewrite <- mirrors_told, lookup_fmap, Hm).
  rewrite (rc_reported _ _ _ _ _ _ _ Hrc) in Ht. destruct (reported v !! k) as [t0|] eqn:E; [|done].
  by rewrite reported_unwanted in Hw by (by rewrite E).
Qed.

Lemma reconciled_told : told_ok v'.
Proof.
  split.
  - intros k b Hb. rewrite (rc_reported _ _ _ _ _ _ _ Hrc) in Hb. destruct (reported v !! k) as [t|] eqn:Et; [|done].
    eapply now_of_id; [|done]; intros i x H; apply by_id_spec in H as [_ ?]; done.
  - intros k m Hm. assert (Hw : want !! k = Some (m_told m)) by (by rewrite <- mirrors_told, lookup_fmap, Hm).
    apply wanted_told in Hw as (Hid & _ & _ & b & Hb & [Hbk ?] & Hs). split_and!; [done..|]. rewrite Hs. f_equal.
    unfold mirror_path. by rewrite Hbk, Hm.
Qed.
End told.

(** Once the editor is up to date, a reconcile sends nothing. *)
Lemma reconcile_quiet self bps v v' r c a :
  told_ok v → List.NoDup (map b_ID bps) → reconciled self bps v v' r c a → (reconcile self bps v').1 = [].
Proof.
  intros Hwf Hnd Hrc. destruct (reconcile_parts self bps v' Hnd)
    as (r2 & c2 & a2 & v2 & -> & Hrc2). cbn.
  assert (Hrep : ∀ k t, reported v' !! k = Some t → now_of (by_id bps) k = Some t).
  { intros k t Ht. rewrite (rc_reported _ _ _ _ _ _ _ Hrc) in Ht. by destruct (reported v !! k). }
  assert (Hsame : reported v2 = reported v').
  { apply map_eq. intros k. rewrite (rc_reported _ _ _ _ _ _ _ Hrc2). destruct (reported v' !! k) eqn:E; [by apply Hrep in E|done]. }
  assert (Hw : wanted self bps v2 = m_told <$> mirrors v').
  { rewrite (mirrors_told _ _ _ _ _ _ _ Hwf Hrc). by apply (rc_wanted _ _ _ _ _ _ _ Hrc2). }
  assert (r2 = []) as ->.
  { destruct r2 as [|b r2]; [done|]. exfalso. assert (Hb : d_Id b ∈ ids (b :: r2)) by (cbn; set_solver).
    apply (rc_removed _ _ _ _ _ _ _ Hrc2) in Hb as [[[t Ht] Hn]|[[m Hm] Hn]].
    - apply Hrep in Ht. congruence.
    - by rewrite Hw, lookup_fmap, Hm in Hn. }
  assert (c2 = []) as ->.
  { destruct c2 as [|b c2]; [done|]. exfalso. assert (Hb : b ∈ b :: c2) by set_solver.
    apply (rc_changed _ _ _ _ _ _ _ Hrc2) in Hb as [(t & Ht & Hn & Hne)|(m & Hm & Hn & Hs)].
    - apply Hrep in Ht. congruence.
    - rewrite Hw, lookup_fmap, Hm in Hn. injection Hn as <-. unfold sameBreakpoint in Hs.
      by rewrite bool_decide_eq_true_2, String.eqb_refl in Hs. }
  assert (a2 = []) as ->; [|done].
  destruct a2 as [|b a2]; [done|]. exfalso. assert (Hb : b ∈ b :: a2) by set_solver.
  apply (rc_added _ _ _ _ _ _ _ Hrc2) in Hb as [Hm Hn]. by rewrite Hw, lookup_fmap, Hm in Hn.
Qed.

(** ** What the editor should be shown, said apart from the code *)

(** A breakpoint that may be shown as another's: a permanent line breakpoint
    of a file, not one the connection reported, nor an editor breakpoint of
    its own client. *)
Record announceable (self : string) (rep : gmap Z dapBp) (b : Breakpoint) : Prop := {
  an_id : 0 < b_ID b; an_line : b_Function b = ""%string; an_file : b_File b ≠ ""%string;
  an_permanent : b_Temporary b = false; an_unreported : rep !! b_ID b = None;
  an_other : b_Owner b ≠ self ∨ b_Editor b = false }.
(** One that is: the first such of its file and line, where the connection
    has none of its own, placed or requested. *)
Record to_show (self : string) (rep : gmap Z dapBp) (bps : list Breakpoint) (b : Breakpoint) : Prop := {
  sw_may : announceable self rep b;
  sw_first : ∃ before rest, bps = before ++ b :: rest ∧
    ∀ x, x ∈ before → announceable self rep x → b_File x = b_File b → b_Line x ≠ b_Line b;
  sw_own : ∀ x, x ∈ bps → is_Some (rep !! b_ID x) → b_Function x = ""%string → b_File x = b_File b →
    b_Line x ≠ b_Line b ∧ b_RequestedLine x ≠ b_Line b }.

Lemma mirrorable_spec self v b : mirrorable b self v = true ↔ announceable self (reported v) b.
Proof.
  unfold mirrorable. rewrite !andb_true_iff, orb_true_iff, Z.ltb_lt, !negb_true_iff, String.eqb_eq, !String.eqb_neq, bool_decide_eq_false, <- eq_None_not_Some.
  split; [intros (((((? & ?) & ?) & ?) & ?) & ?); by split|intros []; by split_and!].
Qed.
Lemma own_lines_spec bps v file l :
  ((file, l) ∉ own_lines bps v) ↔ ∀ x, x ∈ bps → is_Some (reported v !! b_ID x) → b_Function x = ""%string → b_File x = file →
    b_Line x ≠ l ∧ b_RequestedLine x ≠ l.
Proof.
  unfold own_lines. rewrite list_elem_of_In, in_concat. setoid_rewrite in_map_iff. split.
  - intros H x Hx Hr Hf <-. assert (Hi : ∀ e, In e [(b_File x, b_Line x); (b_File x, b_RequestedLine x)] → e ≠ (b_File x, l)).
    { intros e He ->. apply H. eexists. split; [exists x; split; [reflexivity|by apply list_elem_of_In]|].
      by rewrite bool_decide_eq_true_2, Hf. }
    split; intros <-; (eapply Hi; [|reflexivity]); cbn; auto.
  - intros H (es & (x & <- & Hx) & He). apply list_elem_of_In in Hx. destruct (_ && _) eqn:E; [|done].
    apply andb_true_iff in E as [Hr%bool_decide_eq_true Hf%String.eqb_eq].
    destruct He as [[= <- <-]|[[= <- <-]|[]]]; destruct (H x Hx Hr Hf eq_refl); done.
Qed.
Lemma first_at_to_show self v bps b : first_at self (own_lines bps v) [] v bps b ↔ to_show self (reported v) bps b.
Proof.
  unfold first_at. setoid_rewrite mirrorable_spec. setoid_rewrite own_lines_spec. split.
  - intros (before & rest & E & Hm & Ho & _ & Hb). split; [done| |done]. exists before, rest. split; [done|].
    intros x Hx Ha Hf Hl. apply (Hb x Hx Ha). congruence.
  - intros [Hm (before & rest & E & Hb) Ho]. exists before, rest. split_and!; [done|done|done|set_solver|].
    intros x Hx Ha [= ? ?]. by apply (Hb x).
Qed.

(** C13: the editor refines the view. When the view says what it holds,
    then after handling the events of a reconcile it holds what the new view
    says, but for a breakpoint that was both reported and mirrored, which it
    is told is gone. The view is then the connection's reported breakpoints
    that still exist, as they are now, and a mirror of exactly the
    breakpoints to show that the user did not hide, under the path the
    editor has them; nothing is both, and a second reconcile sends nothing. *)
Theorem reconcile_spec self bps v :
  told_ok v → List.NoDup (map b_ID bps) →
  let '(evs, v') := reconcile self bps v in
  (∀ k, editor_run evs (shown v) !! k = if twice v k then None else shown v' !! k)
  ∧ told_ok v' ∧ (∀ k, twice v' k = false)
  ∧ (∀ k, reported v' !! k = match reported v !! k with Some _ => dapBreakpoint_of <$> by_id bps !! k | None => None end)
  ∧ (∀ k w, m_told <$> mirrors v' !! k = Some w ↔
       ∃ b, to_show self (reported v') bps b ∧ b_ID b = k ∧ (k ∉ hidden v)
         ∧ w = mkBpEvent k (b_Verified b) (b_Line b) 1
                 (Some match mirrors v !! k with Some m => m_path m | None => announcePath (b_File b) v end) (mirrorMessage b self))
  ∧ (reconcile self bps v').1 = [].
Proof.
  intros Hwf Hnd. destruct (reconcile_parts self bps v Hnd) as (r & c & a & v' & -> & Hrc). split_and!.
  - intros k. by apply (editor_told self bps).
  - by eapply reconciled_told.
  - intros k. by eapply reconciled_once.
  - apply (rc_reported _ _ _ _ _ _ _ Hrc).
  - intros k w. rewrite <- lookup_fmap, (mirrors_told _ _ _ _ _ _ _ Hwf Hrc).
    rewrite (rc_wanted _ _ _ _ _ _ _ Hrc (v <| reported := reported v' |>)) by done. rewrite wanted_spec by done.
    setoid_rewrite first_at_to_show. apply exist_proper. intros b. unfold mirrorBreakpoint, mirror_path.
    split; intros (? & <- & ? & ->); split_and!; done.
  - by eapply reconcile_quiet.
Qed.

(** A line breakpoint of an agent's, announced to an editor of a human. *)
Definition agents : list Breakpoint :=
  [zeroBreakpoint <| b_ID := 5 |> <| b_File := "/src/a.py"%string |> <| b_RequestedLine := 12 |> <| b_Line := 12 |>
     <| b_Owner := "agent"%string |>].

Example agents_announced : map (fun e => match e with BreakpointEvent r b => (r, d_Id b, d_Line b) | _ => (""%string, 0, 0) end)
  (reconcile "human" agents newView).1 = [("new"%string, 5, 12)].
Proof. vm_compute. reflexivity. Qed.

Lemma newView_told : told_ok newView.
Proof. split; intros; cbn in *; by rewrite lookup_empty in *. Qed.

Lemma reconcile_spec_witness :
  let '(evs, v') := reconcile "human" agents newView in
  told_ok newView ∧ editor_run evs (shown newView) !! 5 = shown v' !! 5 ∧ is_Some (shown v' !! 5).
Proof.
  assert (Hnd : List.NoDup (map b_ID agents)) by (cbn; repeat constructor; cbn; intuition discriminate).
  pose proof (reconcile_spec "human" agents newView newView_told Hnd) as H.
  assert (Hs : is_Some (shown (reconcile "human" agents newView).2 !! 5)) by (vm_compute; by eexists).
  destruct (reconcile "human" agents newView) as [evs v']. destruct H as [H _]. split_and!; [apply newView_told|exact (H 5)|exact Hs].
Defined.
