(* ===== verification/ClassifySpec.v ===== *)
(** * An editor's copies are told from the user's breakpoints

    [classify] (mirrors.go), entry by entry: which entries of a
    setBreakpoints request are the user's own, and what the others are
    answered with. *)

From S2P Require Import Prelude GoStrings Api Present EditorEvents Mirrors MirrorsSpec.
From Stdlib Require Import Ascii Bool.

Open Scope Z_scope.

(** ** The indexes of a file *)

Lemma by_id_sound bps k b : by_id bps !! k = Some b → b ∈ bps ∧ b_ID b = k.
Proof.
  unfold by_id. assert (∀ m : gmap Z Breakpoint, (fold_left (fun m b => <[b_ID b := b]> m) bps m) !! k = Some b → m !! k = Some b ∨ b ∈ bps ∧ b_ID b = k) as H.
  { induction bps as [|x bps IH]; intros m; [by left|]. cbn. intros [Hx|[? ?]]%IH; [|right; split; [set_solver|done]].
    apply lookup_insert_Some in Hx as [[<- <-]|[_ ?]]; [right; split; [set_solver|done]|by left]. }
  intros [Hm|?]%H; [by rewrite lookup_empty in Hm|done].
Qed.

Lemma lowest_spec line id m l x :
  (lowest line id m) !! l = Some x → m !! l = Some x ∨ (x = id ∧ l = line).
Proof. unfold lowest. repeat case_match; rewrite ?lookup_insert_Some; naive_solver. Qed.

Lemma lowest_some line id m l : is_Some ((lowest line id m) !! l) ↔ is_Some (m !! l) ∨ l = line.
Proof.
  unfold lowest. destruct (m !! line) as [cur|] eqn:E.
  - assert (is_Some (m !! line)) by (by rewrite E). destruct (id <? cur).
    + rewrite lookup_insert_is_Some'. naive_solver.
    + naive_solver.
  - rewrite lookup_insert_is_Some'. naive_solver.
Qed.

(** The ids indexed at a line are ids of such mirrors, and there is one if
    there is such a mirror. *)
Lemma index_mirrors_spec key p v l :
  (∀ id, (index_mirrors key p v) !! l = Some id →
     ∃ m, mirrors v !! id = Some m ∧ m_key m = key ∧ p m = true ∧ m_line m = l)
  ∧ (∀ id m, mirrors v !! id = Some m → m_key m = key → p m = true → m_line m = l → is_Some ((index_mirrors key p v) !! l)).
Proof.
  unfold index_mirrors. set (step := fun (acc : gmap Z Z) (e : Z * mirror) => _).
  assert (H : ∀ es acc,
    (∀ id, (fold_left step es acc) !! l = Some id → acc !! l = Some id
       ∨ ∃ m, (id, m) ∈ es ∧ m_key m = key ∧ p m = true ∧ m_line m = l)
    ∧ (is_Some (acc !! l) → is_Some ((fold_left step es acc) !! l))
    ∧ (∀ id m, (id, m) ∈ es → m_key m = key → p m = true → m_line m = l → is_Some ((fold_left step es acc) !! l))).
  { induction es as [|[k m] es IH]; intros acc; [split_and!; [by left|done|set_solver]|]. cbn [fold_left].
    destruct (IH (step acc (k, m))) as (IH1 & IH2 & IH3).
    assert (Hs : step acc (k, m) = if (m_key m =?s key) && p m then lowest (m_line m) k acc else acc) by done.
    split_and!.
    - intros id Hid. apply IH1 in Hid as [Hid|(m' & Hin & ?)]; [|right; exists m'; split; [set_solver|done]].
      rewrite Hs in Hid. destruct ((m_key m =?s key) && p m) eqn:E; [|by left].
      apply andb_true_iff in E as [E%String.eqb_eq Ep]. apply lowest_spec in Hid as [?|[-> ->]]; [by left|].
      right. exists m. split; [set_solver|done].
    - intros Ha. apply IH2. rewrite Hs. case_match; [|done]. apply lowest_some. by left.
    - intros id m' [[= -> ->]|Hin]%elem_of_cons Hk Hp Hl; [|by eapply IH3]. apply IH2. rewrite Hs, Hk, String.eqb_refl, Hp.
      cbn. apply lowest_some. by right. }
  destruct (H (map_to_list (mirrors v)) ∅) as (H1 & _ & H3). split.
  - intros id Hid. apply H1 in Hid as [Hid|(m & Hin & ?)]; [by rewrite lookup_empty in Hid|].
    exists m. split; [by apply elem_of_map_to_list|done].
  - intros id m Hm. apply elem_of_map_to_list in Hm. by eapply H3.
Qed.

Lemma push_at_spec line b m l x : x ∈ default [] ((push_at line b m) !! l) → x ∈ default [] (m !! l) ∨ (x = b ∧ l = line).
Proof.
  unfold push_at. destruct (decide (l = line)) as [->|]; [|rewrite lookup_insert_ne by done; by left].
  rewrite lookup_insert_eq. cbn. set_solver.
Qed.

Section file.
Context (key path self : string) (v : view) (bps : list Breakpoint).
Let f : fileIndex := indexFile key path v bps self.
Let mine : list Breakpoint := List.filter (fun b => b_File b =?s key) bps.

Lemma mine_spec b : b ∈ mine ↔ b ∈ bps ∧ b_File b = key.
Proof. unfold mine. rewrite list_elem_of_In, List.filter_In, <- list_elem_of_In, String.eqb_eq. done. Qed.

Lemma at_spec l b : b ∈ default [] (fi_at f !! l) → b ∈ mine ∧ (b_Line b = l ∨ b_RequestedLine b = l).
Proof.
  cbn. fold mine. set (step := fun (m : gmap Z (list Breakpoint)) (b : Breakpoint) => _).
  assert (H : ∀ bs m, b ∈ default [] ((fold_left step bs m) !! l) →
    b ∈ default [] (m !! l) ∨ b ∈ bs ∧ (b_Line b = l ∨ b_RequestedLine b = l)).
  { induction bs as [|x bs IH]; intros m; [by left|]. cbn [fold_left]. intros [Hx|[? ?]]%IH; [|right; split; [set_solver|done]].
    unfold step in Hx. revert Hx. case_match; [|intros [Hx|[-> ->]]%push_at_spec; [|right; split; [set_solver|by right]]; revert Hx];
      (intros [Hx|[-> ->]]%push_at_spec; [by left|right; split; [set_solver|by left]]). }
  intros [Hb|?]%H; [by rewrite lookup_empty in Hb; set_solver|done].
Qed.

(** Mirrors shown at a line: of the file, or under the request's path. *)
Definition mirror_at (p : mirror → bool) (l : Z) (id : Z) : Prop :=
  ∃ m, mirrors v !! id = Some m ∧ m_key m = key ∧ p m = true ∧ m_line m = l.
Definition under_path (m : mirror) : bool := m_path m =?s path.
Definition anywhere (m : mirror) : bool := true.

Lemma here_spec l : told_ok v → (idx (fi_here f) l =? 0) = false ↔ ∃ id, mirror_at under_path l id.
Proof.
  intros [_ Hwm]. cbn. fold under_path. destruct (index_mirrors_spec key under_path v l) as [H1 H2]. unfold idx. split.
  - intros H. destruct (index_mirrors key under_path v !! l) as [id|] eqn:E; [|done]. exists id. by apply H1.
  - intros (id & m & Hm & Hk & Hp & Hl). destruct (H2 id m Hm Hk Hp Hl) as [x Hx]. rewrite Hx. cbn.
    destruct (H1 x Hx) as (m' & Hm' & _). destruct (Hwm _ _ Hm'). lia.
Qed.

Lemma here_sound l : (idx (fi_here f) l =? 0) = false → mirror_at under_path l (idx (fi_here f) l).
Proof.
  cbn. fold under_path. unfold idx. intros H. destruct (index_mirrors key under_path v !! l) as [id|] eqn:E; [|done].
  by apply (index_mirrors_spec key under_path v l).
Qed.

Lemma shown_sound l : (idx (fi_shown f) l =? 0) = false → mirror_at anywhere l (idx (fi_shown f) l).
Proof.
  cbn. unfold idx. intros H. destruct (index_mirrors key (fun _ => true) v !! l) as [id|] eqn:E; [|done].
  by apply (index_mirrors_spec key (fun _ => true) v l).
Qed.

(** What an editor's copy at line [l] may stand for: a breakpoint of the
    file, mirrored there or that may be. *)
Definition stands_for (l : Z) (b : Breakpoint) : Prop :=
  b ∈ bps ∧ b_File b = key
  ∧ ((∃ p, mirror_at p l (b_ID b)) ∨ (mirrorable b self v = true ∧ (b_Line b = l ∨ b_RequestedLine b = l))).

Lemma candidate_spec used l told :
  candidate f used l = Some told →
  ∃ b, stands_for l b ∧ (b_ID b ∉ used) ∧ told = mirrorBreakpoint b self path.
Proof.
  unfold candidate. intros (b & Hb & ->)%fmap_Some.
  assert (Hknown : ∀ p i x, ((i =? 0) = false → mirror_at p l i) →
    (if i =? 0 then None else match fi_byID f !! i with
      | Some b => if negb (bool_decide (i ∈ used)) then Some b else None | None => None end) = Some x →
    stands_for l x ∧ (b_ID x ∉ used)).
  { intros p i x Hm. destruct (i =? 0) eqn:Ei; [done|]. destruct (fi_byID f !! i) as [y|] eqn:Ey; [|done].
    apply by_id_sound in Ey as [Hy Hid]. fold mine in Hy. apply mine_spec in Hy as [Hy Hk]. destruct (bool_decide (i ∈ used)) eqn:Eu; cbn; [done|]. apply bool_decide_eq_false in Eu. intros [= <-].
    split; [|by rewrite Hid]. split_and!; [done..|]. left. exists p. rewrite Hid. by apply Hm. }
  assert (Hfind : ∀ x, List.find (fun b => mirrorable b (fi_self f) (fi_view f) && negb (bool_decide (b_ID b ∈ used)))
    (default [] (fi_at f !! l)) = Some x → stands_for l x ∧ (b_ID x ∉ used)).
  { intros x [Hx Hm]%List.find_some. rewrite <- list_elem_of_In in Hx. apply at_spec in Hx as [[Hx Hk]%mine_spec Hl].
    apply andb_true_iff in Hm as [Hm Hu]. apply negb_true_iff, bool_decide_eq_false in Hu.
    split; [|done]. split_and!; [done..|]. right. done. }
  exists b. cut (stands_for l b ∧ (b_ID b ∉ used)); [naive_solver|].
  revert Hb. match goal with |- context [match ?u with _ => _ end = Some b] => destruct u as [y|] eqn:E1 end.
  { intros [= <-]. by apply (Hknown under_path _ _ (here_sound l)). }
  match goal with |- context [match ?u with _ => _ end = Some b] => destruct u as [y|] eqn:E2 end.
  { intros [= <-]. by apply (Hknown anywhere _ _ (shown_sound l)). }
  apply Hfind.
Qed.
End file.

(** ** The entries of one line *)

Lemma echoOf_spec b fallback used c used' :
  echoOf b fallback used = (c, used') →
  (c = retractClass ∧ used' = used)
  ∨ (en_kind c = entryEcho ∧ used' = en_id c :: used ∧ d_Id (en_told c) = en_id c
     ∧ (b = Some (en_told c) ∨ (∃ m, fallback = Some m ∧ m_told m = en_told c ∧ (en_id c ∉ used)))).
Proof.
  unfold echoOf. destruct b as [b|]; [intros [= <- <-]; right; cbn; eauto|].
  destruct fallback as [m|]; [|intros [= <- <-]; by left].
  destruct (bool_decide _) eqn:E; intros [= <- <-]; [by left|]. apply bool_decide_eq_false in E. right. cbn. split_and!; eauto.
Qed.

Lemma entry_at_Some entries i e : entries !! i = Some e → entry_at entries i = e.
Proof. unfold entry_at. by intros ->. Qed.

Lemma entries_at_spec entries l i : i ∈ entries_at entries l ↔ ∃ e, entries !! i = Some e ∧ sb_Line e = l.
Proof.
  unfold entries_at. rewrite list_elem_of_In, List.filter_In, List.in_seq, Z.eqb_eq. split.
  - intros [Hi Hl]. destruct (lookup_lt_is_Some_2 entries i ltac:(lia)) as [e He]. rewrite (entry_at_Some _ _ _ He) in Hl. eauto.
  - intros (e & He & <-). rewrite (entry_at_Some _ _ _ He). split; [|done]. apply lookup_lt_Some in He. lia.
Qed.

Lemma entries_at_nodup entries l : List.NoDup (entries_at entries l).
Proof. apply List.NoDup_filter, List.seq_NoDup. Qed.

Lemma fst_map_const {B C} (g : B) (l : list C) : (map (fun i => (i, g)) l).*1 = l.
Proof. induction l as [|x l IH]; cbn; [done|]. by f_equal. Qed.
Lemma elem_map_const {B C} (g c : B) (l : list C) i : (i, c) ∈ map (fun i => (i, g)) l ↔ i ∈ l ∧ c = g.
Proof. rewrite list_elem_of_In, List.in_map_iff, list_elem_of_In. naive_solver. Qed.

Lemma marked_plain e : marked e = true → plain e = true.
Proof. unfold marked. by intros [? _]%andb_true_iff. Qed.

Lemma set_classes_length upd cs : length (set_classes upd cs) = length cs.
Proof. revert cs. induction upd as [|[i c] upd IH]; intros cs; [done|]. cbn [set_classes fold_left]. unfold set_classes in IH. by rewrite IH, length_insert. Qed.

Lemma set_classes_other upd cs i : (i ∉ upd.*1) → set_classes upd cs !! i = cs !! i.
Proof.
  revert cs. induction upd as [|[j c] upd IH]; intros cs; [done|]. cbn. intros Hi. apply not_elem_of_cons in Hi as [Hne Hi].
  unfold set_classes in *. cbn [fold_left]. rewrite IH by done. cbn. by apply list_lookup_insert_ne, not_eq_sym.
Qed.

Lemma set_classes_at upd cs i c :
  List.NoDup upd.*1 → (i, c) ∈ upd → (i < length cs)%nat → set_classes upd cs !! i = Some c.
Proof.
  revert cs. induction upd as [|[j d] upd IH]; intros cs Hnd; [set_solver|]. cbn in Hnd. apply List.NoDup_cons_iff in Hnd as [Hj Hnd].
  unfold set_classes in *. cbn [fold_left fst snd]. intros [[= -> ->]|Hin]%elem_of_cons Hlt.
  - rewrite (set_classes_other upd) by (by rewrite list_elem_of_In). by apply list_lookup_insert_eq.
  - apply IH; [done..|]. by rewrite length_insert.
Qed.

Lemma lines_of_spec es seen :
  List.NoDup (lines_of es seen) ∧ (∀ l, l ∈ lines_of es seen → l ∉ seen)
  ∧ (∀ e, e ∈ es → sb_Line e ∈ seen ∨ sb_Line e ∈ lines_of es seen).
Proof.
  revert seen. induction es as [|e es IH]; intros seen; [split_and!; [constructor|set_solver..]|]. cbn [lines_of]. case_bool_decide as H.
  - destruct (IH seen) as (H1 & H2 & H3). split_and!; [done..|]. intros x [->|?]%elem_of_cons; [by left|by apply H3].
  - destruct (IH (sb_Line e :: seen)) as (H1 & H2 & H3). split_and!.
    + constructor; [|done]. rewrite <- list_elem_of_In. intros Hin%H2. set_solver.
    + intros l [->|Hl%H2]%elem_of_cons; [done|set_solver].
    + intros x [->|Hx]%elem_of_cons; [right; set_solver|]. destruct (H3 x Hx) as [[->|?]%elem_of_cons|?]; [right; set_solver|by left|right; set_solver].
Qed.

Section line.
Context (key path self : string) (v : view) (bps : list Breakpoint) (entries : list sourceBreakpoint) (Hwf : told_ok v).
Let f : fileIndex := indexFile key path v bps self.

(** The entry is not the line's only kind: some entry there is a copy, or
    has a condition. *)
Definition mixed_line (l : Z) : Prop := ∃ e, e ∈ entries ∧ sb_Line e = l ∧ (marked e = true ∨ plain e = false).
(** What an echo is answered with. *)
Definition echoes (e : sourceBreakpoint) (c : entryClass) : Prop :=
  d_Id (en_told c) = en_id c ∧ d_Source (en_told c) = Some path
  ∧ ((∃ b, stands_for key self v bps (sb_Line e) b ∧ en_told c = mirrorBreakpoint b self path)
     ∨ (∃ m, mirrors v !! en_id c = Some m ∧ m_key m = key ∧ m_path m = path ∧ m_line m = sb_Line e ∧ en_told c = m_told m)).
(** What entry [e] may be taken for. *)
Definition answer_ok (e : sourceBreakpoint) (c : entryClass) : Prop :=
  (plain e = false → c = ownClass)
  ∧ (marked e = true → en_kind c = entryEcho ∨ en_kind c = entryRetract)
  ∧ (plain e = true → marked e = false →
     (en_kind c = entryOwn ↔ mixed_line (sb_Line e) ∨ ¬ ∃ id, mirror_at key v (under_path path) (sb_Line e) id))
  ∧ (en_kind c = entryOwn → c = ownClass)
  ∧ (en_kind c = entryEcho → echoes e c).

Lemma echo_answered used l c used' fallback e :
  sb_Line e = l → echoOf (candidate f used l) fallback used = (c, used') →
  (∀ m, fallback = Some m → mirrors v !! d_Id (m_told m) = Some m ∧ m_key m = key ∧ m_path m = path ∧ m_line m = l
     ∧ d_Source (m_told m) = Some path) →
  (c = retractClass ∧ used' = used)
  ∨ (en_kind c = entryEcho ∧ used' = en_id c :: used ∧ (en_id c ∉ used) ∧ echoes e c).
Proof.
  intros <- Hc Hf. apply echoOf_spec in Hc as [?|(Hk & -> & Hid & Hc)]; [by left|]. right. split_and!; [done..| |].
  - destruct Hc as [Hc|(m & _ & _ & ?)]; [|done]. apply candidate_spec in Hc as (b & _ & Hb & Ht). rewrite <- Hid, Ht. done.
  - split; [done|]. destruct Hc as [Hc|(m & Hm & Ht & _)].
    + apply candidate_spec in Hc as (b & Hb & _ & Ht). rewrite Ht. split; [done|]. left. eauto.
    + destruct (Hf m Hm) as (H1 & H2 & H3 & H4 & H5). rewrite Ht in *. rewrite Hid in H1. split; [done|]. right. eauto 10.
Qed.

(** The updates of a line: at most one echo, of a new id, and the answers. *)
Definition line_ok (l : Z) (used : list Z) (upd : list (nat * entryClass)) (used' : list Z) : Prop :=
  (∀ i, i ∈ upd.*1 → i ∈ entries_at entries l) ∧ List.NoDup upd.*1 ∧ used ⊆ used'
  ∧ (∀ i c, (i, c) ∈ upd → en_kind c = entryEcho → (en_id c ∈ used') ∧ (en_id c ∉ used))
  ∧ (∀ i j c d, (i, c) ∈ upd → (j, d) ∈ upd → en_kind c = entryEcho → en_kind d = entryEcho → i = j)
  ∧ (∀ i e, entries !! i = Some e → sb_Line e = l →
       (∀ c, (i, c) ∈ upd → answer_ok e c) ∧ ((i ∉ upd.*1) → answer_ok e ownClass)).

(** A line whose first entry is an echo or retracted, the others alike. *)
Lemma line_ok_head l used i rest c other used' :
  entries_at entries l = i :: rest → en_kind other ≠ entryEcho →
  (c = retractClass ∧ used' = used ∨ en_kind c = entryEcho ∧ used' = en_id c :: used ∧ (en_id c ∉ used)) →
  (∀ e, entries !! i = Some e → sb_Line e = l → answer_ok e c) →
  (∀ j e, entries !! j = Some e → sb_Line e = l → j ∈ rest → answer_ok e other) →
  line_ok l used ((i, c) :: map (fun j => (j, other)) rest) used'.
Proof.
  intros Hat Hother Hc Hi Hrest. pose proof (entries_at_nodup entries l) as Hnd. rewrite Hat in Hnd.
  assert (Hoth : ∀ j d, (j, d) ∈ map (fun j => (j, other)) rest → en_kind d ≠ entryEcho).
  { intros j d [_ ->]%elem_map_const. done. }
  split_and!.
  - intros j. cbn. rewrite fst_map_const, Hat. done.
  - cbn. by rewrite fst_map_const.
  - destruct Hc as [[_ ->]|(_ & -> & _)]; set_solver.
  - intros j d [[= -> ->]|Hd]%elem_of_cons Hk; [|by apply Hoth in Hd].
    destruct Hc as [[-> _]|(_ & -> & ?)]; [done|]. split; [set_solver|done].
  - intros j k d d' [[= -> ->]|Hd]%elem_of_cons Hd' Hk Hk'; [|by apply Hoth in Hd].
    apply elem_of_cons in Hd' as [[= -> ->]|Hd']; [done|by apply Hoth in Hd'].
  - intros j e He Hl. split.
    + intros d [[= -> ->]|[Hd ->]%elem_map_const]%elem_of_cons; [by apply Hi|by eapply Hrest].
    + cbn. rewrite fst_map_const, <- Hat. intros []. apply entries_at_spec. eauto.
Qed.

Lemma forall_at (p : sourceBreakpoint → bool) l :
  forallb (fun i => p (entry_at entries i)) (entries_at entries l) = true ↔ ∀ e, e ∈ entries → sb_Line e = l → p e = true.
Proof.
  rewrite List.forallb_forall. split.
  - intros H e He Hl. apply list_elem_of_lookup in He as [i Hi]. rewrite <- (entry_at_Some _ _ _ Hi). apply H.
    rewrite <- list_elem_of_In. apply entries_at_spec. eauto.
  - intros H i Hi. rewrite <- list_elem_of_In in Hi. apply entries_at_spec in Hi as (e & He & Hl).
    rewrite (entry_at_Some _ _ _ He). apply H; [by eapply list_elem_of_lookup_2|done].
Qed.

(** A copy is answered with an echo or retracted. *)
Lemma marked_ok e c : marked e = true → c = retractClass ∨ (en_kind c = entryEcho ∧ echoes e c) → answer_ok e c.
Proof.
  intros Hm Hc. pose proof (marked_plain _ Hm) as Hp. split_and!; [congruence| |congruence| |].
  - intros _. destruct Hc as [->|[? _]]; [by right|by left].
  - intros Ho. destruct Hc as [->|[He _]]; [done|congruence].
  - intros He. destruct Hc as [->|[_ ?]]; done.
Qed.

(** A plain entry where the editor shows a mirror is taken for its copy. *)
Lemma plain_ok l e c :
  (∀ e, e ∈ entries → sb_Line e = l → plain e = true ∧ marked e = false) → (∃ id, mirror_at key v (under_path path) l id) →
  e ∈ entries → sb_Line e = l → en_kind c ≠ entryOwn → (en_kind c = entryEcho → echoes e c) → answer_ok e c.
Proof.
  intros Hall Hshown He Hl Hc Hecho. destruct (Hall e He Hl) as [Hp Hm]. split_and!; [congruence|congruence| |done|done].
  intros _ _. split; [done|]. rewrite Hl. intros [(e' & He' & Hl' & [H|H])|H]; [..|done];
    destruct (Hall e' He' Hl') as [H1 H2]; congruence.
Qed.

Lemma not_forall_at (p : sourceBreakpoint → bool) l :
  forallb (fun i => p (entry_at entries i)) (entries_at entries l) = false → ∃ e, e ∈ entries ∧ sb_Line e = l ∧ p e = false.
Proof.
  intros H. assert (∃ i, In i (entries_at entries l) ∧ p (entry_at entries i) = false) as (i & Hi & Hp).
  { induction (entries_at entries l) as [|i js IH]; [done|]. cbn in H. apply andb_false_iff in H as [H|H]; [exists i; split; [by left|done]|].
    destruct (IH H) as (j & ? & ?). exists j. split; [by right|done]. }
  rewrite <- list_elem_of_In in Hi. apply entries_at_spec in Hi as (e & He & Hl). rewrite (entry_at_Some _ _ _ He) in Hp.
  exists e. split_and!; [by eapply list_elem_of_lookup_2|done..].
Qed.

(** Any other line: its copies are retracted, the rest is the user's. *)
Lemma line_ok_mixed l used :
  mixed_line l ∨ ¬ (∃ id, mirror_at key v (under_path path) l id) →
  line_ok l used (map (fun i => (i, retractClass)) (List.filter (fun i => marked (entry_at entries i)) (entries_at entries l))) used.
Proof.
  intros Hmix. set (copies := List.filter _ _).
  assert (Hcp : ∀ j, j ∈ copies ↔ ∃ e, entries !! j = Some e ∧ sb_Line e = l ∧ marked e = true).
  { intros j. unfold copies. rewrite list_elem_of_In, List.filter_In, <- list_elem_of_In, entries_at_spec. split.
    - intros [(e & He & Hl) Hm]. rewrite (entry_at_Some _ _ _ He) in Hm. eauto.
    - intros (e & He & Hl & Hm). rewrite (entry_at_Some _ _ _ He). eauto. }
  split_and!.
  - intros j. rewrite fst_map_const, Hcp, entries_at_spec. naive_solver.
  - rewrite fst_map_const. apply List.NoDup_filter, entries_at_nodup.
  - done.
  - intros j c [_ ->]%elem_map_const. done.
  - intros j k c d [_ ->]%elem_map_const. done.
  - intros j e He Hl. split.
    + intros c [(e' & He' & _ & Hm)%Hcp ->]%elem_map_const. rewrite He in He'. injection He' as <-. apply marked_ok; auto.
    + rewrite fst_map_const. intros Hj. assert (Hm : marked e = false).
      { destruct (marked e) eqn:Em; [|done]. destruct Hj. apply Hcp. eauto. }
      split_and!; [done|congruence| |done|done]. intros _ _. split; [|done]. intros _. by rewrite Hl.
Qed.

Lemma classifyLine_spec l used upd used' :
  classifyLine f entries (entries_at entries l) l used = (upd, used') → line_ok l used upd used'.
Proof.
  unfold classifyLine. destruct (entries_at entries l) as [|i rest] eqn:Hat.
  { intros [= <- <-]. split_and!; try (intros; set_solver); [constructor|]. intros i e He Hl.
    assert (i ∈ entries_at entries l) by (apply entries_at_spec; eauto). rewrite Hat in *. set_solver. }
  rewrite <- Hat. destruct (forallb (fun i => marked (entry_at entries i)) _) eqn:Em.
  { rewrite forall_at in Em. destruct (echoOf _ _ _) as [c u] eqn:Ec. intros [= <- <-].
    assert (Hc : ∀ e, sb_Line e = l → c = retractClass ∧ u = used ∨ en_kind c = entryEcho ∧ u = en_id c :: used ∧ (en_id c ∉ used) ∧ echoes e c).
    { intros e He. by eapply echo_answered. }
    apply line_ok_head; [done|done| | |].
    - assert (Hi : i ∈ entries_at entries l) by (rewrite Hat; set_solver). apply entries_at_spec in Hi as (e & _ & Hl).
      destruct (Hc e Hl) as [?|(? & ? & ? & _)]; auto.
    - intros e He Hl. apply marked_ok; [apply Em; [by eapply list_elem_of_lookup_2|done]|].
      destruct (Hc e Hl) as [[-> _]|(? & _ & _ & ?)]; auto.
    - intros j e He Hl _. apply marked_ok; [apply Em; [by eapply list_elem_of_lookup_2|done]|by left]. }
  destruct (forallb (fun i => plain (entry_at entries i) && negb (marked (entry_at entries i))) _) eqn:Eu; cbn [andb];
    [destruct (idx (fi_here f) l =? 0) eqn:Es; cbn [negb]|].
  2:{ rewrite (forall_at (fun e => plain e && negb (marked e))) in Eu.
    assert (Hall : ∀ e, e ∈ entries → sb_Line e = l → plain e = true ∧ marked e = false).
    { intros e He Hl. pose proof (Eu e He Hl) as H. apply andb_true_iff in H as [H1 H2]. apply negb_true_iff in H2. done. }
    assert (Hs : mirror_at key v (under_path path) l (idx (fi_here f) l)) by (by apply here_sound).
    destruct (echoOf _ _ _) as [c u] eqn:Ec. intros [= <- <-].
    assert (Hc : ∀ e, sb_Line e = l → c = retractClass ∧ u = used ∨ en_kind c = entryEcho ∧ u = en_id c :: used ∧ (en_id c ∉ used) ∧ echoes e c).
    { intros e He. eapply echo_answered; [done|exact Ec|]. intros m Hm. destruct Hs as (m' & Hm' & Hk & Hp%String.eqb_eq & Hl).
      change (fi_view f) with v in Hm. rewrite Hm' in Hm. injection Hm as <-. destruct (proj2 Hwf _ _ Hm') as (_ & Hid & Hsrc). rewrite Hid, Hsrc. by rewrite <- Hp. }
    apply line_ok_head; [done|done| | |].
    - assert (Hi : i ∈ entries_at entries l) by (rewrite Hat; set_solver). apply entries_at_spec in Hi as (e & _ & Hl).
      destruct (Hc e Hl) as [?|(? & ? & ? & _)]; auto.
    - intros e He Hl. eapply plain_ok; [exact Hall|by eexists|by eapply list_elem_of_lookup_2|done| |];
        destruct (Hc e Hl) as [[-> _]|(H & _ & _ & ?)]; try done; by rewrite H.
    - intros j e He Hl _. eapply plain_ok; [exact Hall|by eexists|by eapply list_elem_of_lookup_2|done..]. }
  - intros [= <- <-]. apply line_ok_mixed. right. intros Hs. apply (here_spec key path self v bps l Hwf) in Hs.
    fold f in Hs. congruence.
  - intros [= <- <-]. apply line_ok_mixed. left.
    apply (not_forall_at (fun e => plain e && negb (marked e))) in Eu as (e & He & Hl & Hp).
    exists e. split_and!; [done..|]. apply andb_false_iff in Hp as [Hp|Hp]; [by right|left]. by apply negb_false_iff in Hp.
Qed.

(** ** All lines *)

Record classified (done_lines : list Z) (st : list entryClass * list Z) : Prop := {
  cl_length : length st.1 = length entries;
  cl_entry : ∀ i e, entries !! i = Some e → ∃ c, st.1 !! i = Some c
    ∧ ((sb_Line e ∈ done_lines) → answer_ok e c) ∧ ((sb_Line e ∉ done_lines) → c = ownClass);
  cl_used : ∀ i c, st.1 !! i = Some c → en_kind c = entryEcho → en_id c ∈ st.2;
  cl_distinct : ∀ i j c d, st.1 !! i = Some c → st.1 !! j = Some d → en_kind c = entryEcho → en_kind d = entryEcho →
    en_id c = en_id d → i = j }.

Lemma line_step_classified ls l st :
  classified ls st → (l ∉ ls) → classified (l :: ls) (line_step f entries st l).
Proof.
  intros [Hlen Hent Hused Hdis] Hl. destruct st as [cs used]. unfold line_step. cbn [fst snd] in *.
  destruct (classifyLine _ _ _ _ _) as [upd used'] eqn:E. apply classifyLine_spec in E as (Hdom & Hnd & Hsub & Hecho & Hone & Hans).
  assert (Hat : ∀ i c, set_classes upd cs !! i = Some c → (i, c) ∈ upd ∨ ((i ∉ upd.*1) ∧ cs !! i = Some c)).
  { intros i c Hc. destruct (decide (i ∈ upd.*1)) as [Hi|Hi]; [|by rewrite set_classes_other in Hc by done; right].
    apply list_elem_of_fmap in Hi as ([i' d] & -> & Hd). cbn in *. left.
    rewrite (set_classes_at _ _ _ d) in Hc; [by injection Hc as <-|done|done|].
    apply lookup_lt_Some in Hc. by rewrite set_classes_length in Hc. }
  split; cbn [fst snd].
  - by rewrite set_classes_length.
  - intros i e He. destruct (Hent i e He) as (c0 & Hc0 & Hok & Hown). pose proof (lookup_lt_Some _ _ _ Hc0) as Hlt.
    destruct (lookup_lt_is_Some_2 (set_classes upd cs) i) as [c Hc]; [by rewrite set_classes_length|]. exists c. split; [done|].
    destruct (decide (sb_Line e = l)) as [Hle|Hle].
    + split; [|set_solver]. intros _. destruct (Hans i e He Hle) as [Hu Hn]. destruct (Hat i c Hc) as [?|[Hi Hci]]; [by apply Hu|].
      rewrite Hc0 in Hci. injection Hci as <-. rewrite Hown by (by rewrite Hle). by apply Hn.
    + assert (Hci : cs !! i = Some c).
      { destruct (Hat i c Hc) as [Hu|[_ ?]]; [|done]. destruct Hle. assert (Hi : i ∈ upd.*1) by (apply list_elem_of_fmap; by exists (i, c)).
        apply Hdom, entries_at_spec in Hi as (e' & He' & <-). by rewrite He in He'; injection He' as ->. }
      rewrite Hc0 in Hci. injection Hci as ->. split; [|set_solver]. intros [?|?]%elem_of_cons; [done|by apply Hok].
  - intros i c Hc Hk. destruct (Hat i c Hc) as [Hu|[_ Hc0]]; [by apply (Hecho i c Hu)|]. apply Hsub. by eapply Hused.
  - intros i j c d Hc Hd Hkc Hkd Hid.
    destruct (Hat i c Hc) as [Hu|[_ Hc0]], (Hat j d Hd) as [Hu'|[_ Hd0]]; [by eapply Hone|..|by eapply Hdis].
    + destruct (Hecho i c Hu Hkc) as [_ Hn]. destruct Hn. rewrite Hid. by eapply Hused.
    + destruct (Hecho j d Hu' Hkd) as [_ Hn]. destruct Hn. rewrite <- Hid. by eapply Hused.
Qed.

Lemma classify_lines ls st done_lines :
  classified done_lines st → List.NoDup ls → (∀ l, l ∈ ls → l ∉ done_lines) →
  classified (rev ls ++ done_lines) (fold_left (line_step f entries) ls st).
Proof.
  revert st done_lines. induction ls as [|l ls IH]; intros st dl Hc Hnd Hdis; [done|].
  apply List.NoDup_cons_iff in Hnd as [Hl Hnd]. rewrite <- list_elem_of_In in Hl. cbn [fold_left rev]. rewrite <- app_assoc. apply IH.
  - apply line_step_classified; [done|]. apply Hdis. set_solver.
  - done.
  - intros l' Hl'. apply not_elem_of_cons. split; [by intros ->|]. apply Hdis. set_solver.
Qed.
End line.

Lemma classified_entries entries key path v bps self :
  told_ok v → key ≠ ""%string →
  let classes := classify entries key path v bps self in
  length classes = length entries
  ∧ (∀ i e c, entries !! i = Some e → classes !! i = Some c → answer_ok key path self v bps entries e c)
  ∧ (∀ i j c d, classes !! i = Some c → classes !! j = Some d → en_kind c = entryEcho → en_kind d = entryEcho →
       en_id c = en_id d → i = j).
Proof.
  intros Hwf Hkey classes. unfold classes, classify. rewrite (proj2 (String.eqb_neq _ _)) by done.
  destruct (lines_of_spec entries []) as (Hnd & _ & Hall).
  set (start := map (fun _ => ownClass) entries).
  assert (H0 : classified key path self v bps entries [] (start, [])).
  { split; cbn [fst snd].
    - apply List.length_map.
    - intros i e He. exists ownClass. split; [|split; [set_solver|done]]. unfold start. by rewrite list_lookup_fmap, He.
    - intros i c Hc. unfold start in Hc. rewrite list_lookup_fmap in Hc. destruct (entries !! i); [|done]. by injection Hc as <-.
    - intros i j c d Hc. unfold start in Hc. rewrite list_lookup_fmap in Hc. destruct (entries !! i); [|done]. by injection Hc as <-. }
  destruct (classify_lines key path self v bps entries Hwf _ _ _ H0 Hnd ltac:(set_solver)) as [Hlen Hent Hused Hdis].
  split_and!; [done| |done]. intros i e c He Hc. destruct (Hent i e He) as (c' & Hc' & Hok & _).
  rewrite Hc in Hc'. injection Hc' as <-. apply Hok. rewrite app_nil_r, list_elem_of_In, <- List.in_rev, <- list_elem_of_In.
  destruct (Hall e) as [?|?]; [by eapply list_elem_of_lookup_2|set_solver|done].
Qed.


(** ** After the request *)

(** What [settle] leaves: each echo a mirror under the request's path, at the
    line the editor sent; the path's other mirrors gone, hidden where no
    entry took their line over; everything else as it was. *)
Lemma settle_entries key path v ecs :
  List.NoDup (echoed_ids ecs.*2) →
  let v' := fold_left (settle_entry key path) ecs v in
  (∀ id, (id ∉ echoed_ids ecs.*2) → mirrors v' !! id = mirrors v !! id ∧ (id ∈ hidden v' ↔ id ∈ hidden v))
  ∧ (∀ e c, (e, c) ∈ ecs → en_kind c = entryEcho →
       mirrors v' !! en_id c = Some (mkMirror key path (sb_Line e) (en_told c)) ∧ (en_id c ∉ hidden v')).
Proof.
  revert v. induction ecs as [|[e c] ecs IH]; intros v; [split; [done|set_solver]|]. cbn [fmap list_fmap map fst snd].
  unfold echoed_ids. cbn [List.filter]. case_bool_decide as Hk; cbn [map]; fold (echoed_ids ecs.*2).
  - intros [Hid Hnd]%List.NoDup_cons_iff. rewrite <- list_elem_of_In in Hid. cbn [fold_left].
    set (v1 := settle_entry key path v (e, c)).
    assert (H1 : mirrors v1 = <[en_id c := mkMirror key path (sb_Line e) (en_told c)]> (mirrors v) ∧ hidden v1 = hidden v ∖ {[en_id c]}).
    { unfold v1. cbn. by rewrite Hk. }
    destruct (IH v1 Hnd) as [IH1 IH2]. destruct H1 as [Hm Hh]. split.
    + intros id Hni. apply not_elem_of_cons in Hni as [Hne Hni]. destruct (IH1 id Hni) as [-> Hhid]. rewrite Hm, Hhid, Hh.
      split; [by rewrite lookup_insert_ne|set_solver].
    + intros e' c' [[= -> ->]|Hin]%elem_of_cons Hk'; [|by apply IH2]. destruct (IH1 _ Hid) as [-> Hhid].
      rewrite Hm, lookup_insert_eq, Hhid, Hh. split; [done|set_solver].
  - intros Hnd. cbn [fold_left]. assert (Hs : settle_entry key path v (e, c) = v) by (cbn; by destruct (en_kind c)). rewrite Hs.
    destruct (IH v Hnd) as [IH1 IH2]. split; [done|]. intros e' c' [[= -> ->]|Hin]%elem_of_cons Hk'; [done|by apply IH2].
Qed.

Lemma settle_rest key path lines echoed l v :
  List.NoDup l.*1 → (∀ id m, (id, m) ∈ l → mirrors v !! id = Some m) →
  let v' := fold_left (settle_mirror key path lines echoed) l v in
  ∀ id, (mirrors v' !! id = match (list_to_map l : gmap Z mirror) !! id with
           | Some m => if (m_key m =?s key) && (m_path m =?s path) && negb (bool_decide (id ∈ echoed)) then None else Some m
           | None => mirrors v !! id
           end)
  ∧ (id ∈ hidden v' ↔ id ∈ hidden v ∨ ∃ m, (id, m) ∈ l ∧ m_key m = key ∧ m_path m = path ∧ (id ∉ echoed) ∧ (m_line m ∉ lines)).
Proof.
  revert v. induction l as [|[k m] l IH]; intros v Hnd Hl v' id; [split; [done|set_solver]|]. cbn [fmap list_fmap map fst] in Hnd.
  apply List.NoDup_cons_iff in Hnd as [Hk Hnd]. rewrite <- list_elem_of_In in Hk. subst v'. cbn [fold_left].
  set (v1 := settle_mirror key path lines echoed v (k, m)).
  set (drop := (m_key m =?s key) && (m_path m =?s path) && negb (bool_decide (k ∈ echoed))).
  assert (H1 : mirrors v1 = (if drop then delete k (mirrors v) else mirrors v)
               ∧ ∀ i, i ∈ hidden v1 ↔ i ∈ hidden v ∨ (i = k ∧ drop = true ∧ (m_line m ∉ lines))).
  { unfold v1, drop. cbn [settle_mirror]. destruct (m_key m =?s key), (m_path m =?s path), (bool_decide (k ∈ echoed)); cbn;
      try (split; [done|naive_solver]). case_bool_decide; cbn; (split; [done|]); set_solver. }
  destruct H1 as [Hm Hh]. clearbody v1.
  destruct (IH v1 Hnd) with (id := id) as [IH1 IH2].
  { intros i x Hi. rewrite Hm. assert (i ≠ k) by (intros ->; apply Hk, list_elem_of_fmap; by exists (k, x)).
    destruct drop; [rewrite lookup_delete_ne by done|]; apply Hl; set_solver. }
  assert (Hdrop : drop = true ↔ m_key m = key ∧ m_path m = path ∧ k ∉ echoed).
  { unfold drop. rewrite !andb_true_iff, !String.eqb_eq, negb_true_iff, bool_decide_eq_false. tauto. }
  split.
  - rewrite IH1. cbn [list_to_map foldr]. destruct (decide (id = k)) as [->|Hne].
    + cbn. rewrite lookup_insert_eq, not_elem_of_list_to_map_1 by done. fold drop. rewrite Hm.
      destruct drop; [apply lookup_delete_eq|]. apply Hl. set_solver.
    + cbn. rewrite lookup_insert_ne by done. case_match; [done|]. rewrite Hm. destruct drop; [by apply lookup_delete_ne|done].
  - rewrite IH2, Hh. setoid_rewrite elem_of_cons. split.
    + intros [[?|(-> & Hd & Hln)]|(x & Hin & ?)]; [by left| |right; eauto]. apply Hdrop in Hd as (? & ? & ?). right. exists m. auto.
    + intros [?|(x & [[= -> ->]|Hin] & ? & ? & ? & ?)]; [auto| |right; eauto 10]. left. right. split_and!; [done| |done]. by apply Hdrop.
Qed.

Lemma echoed_nodup classes :
  (∀ i j c d, classes !! i = Some c → classes !! j = Some d → en_kind c = entryEcho → en_kind d = entryEcho →
     en_id c = en_id d → i = j) → List.NoDup (echoed_ids classes).
Proof.
  induction classes as [|c classes IH]; intros H; [constructor|]. unfold echoed_ids. cbn [List.filter].
  assert (Hcl : List.NoDup (echoed_ids classes)).
  { apply IH. intros i j x y Hi Hj Hx Hy Hid. specialize (H (S i) (S j) x y Hi Hj Hx Hy Hid). lia. }
  case_bool_decide as Hk; [|done]. cbn [map]. constructor; [|done].
  intros (d & Hid & [Hd Hkd%bool_decide_eq_true]%List.filter_In)%List.in_map_iff. rewrite <- list_elem_of_In in Hd.
  apply list_elem_of_lookup in Hd as [j Hj]. specialize (H 0%nat (S j) c d eq_refl Hj Hk Hkd (eq_sym Hid)). lia.
Qed.

Lemma settle_spec key path entries classes v :
  key ≠ ""%string → length classes = length entries → List.NoDup (echoed_ids classes) →
  let v' := settle key path entries classes v in
  (∀ i e c, entries !! i = Some e → classes !! i = Some c → en_kind c = entryEcho →
     mirrors v' !! en_id c = Some (mkMirror key path (sb_Line e) (en_told c)) ∧ (en_id c ∉ hidden v'))
  ∧ (∀ id, (id ∉ echoed_ids classes) →
       mirrors v' !! id = (match mirrors v !! id with
                           | Some m => if (m_key m =?s key) && (m_path m =?s path) then None else Some m
                           | None => None end)
       ∧ (id ∈ hidden v' ↔ id ∈ hidden v ∨ ∃ m, mirrors v !! id = Some m ∧ m_key m = key ∧ m_path m = path
                                                   ∧ (m_line m ∉ map sb_Line entries))).
Proof.
  intros Hkey Hlen Hnd v'. unfold v', settle. rewrite (proj2 (String.eqb_neq _ _)) by done.
  assert (Hsnd : (zip entries classes).*2 = classes) by (apply snd_zip; lia).
  destruct (settle_entries key path v (zip entries classes)) as [HE1 HE2]; [by rewrite Hsnd|]. rewrite Hsnd in HE1.
  set (v1 := fold_left (settle_entry key path) (zip entries classes) v) in *.
  pose proof (settle_rest key path (map sb_Line entries) (echoed_ids classes) (map_to_list (mirrors v1)) v1 (map_to_list_nodup _)) as HR.
  cbn zeta in HR. specialize (HR (fun id m => proj1 (elem_of_map_to_list _ _ _))). setoid_rewrite list_to_map_lookup in HR.
  setoid_rewrite elem_of_map_to_list in HR. split.
  - intros i e c He Hc Hk. destruct (HE2 e c) as [Hm Hh]; [|done|].
    { apply list_elem_of_lookup. exists i. apply lookup_zip_with_Some. eauto. }
    assert (Hin : en_id c ∈ echoed_ids classes).
    { apply list_elem_of_In, List.in_map_iff. exists c. split; [done|]. apply List.filter_In. rewrite <- list_elem_of_In, bool_decide_eq_true.
      split; [by eapply list_elem_of_lookup_2|done]. }
    destruct (HR (en_id c)) as [-> ->]. rewrite Hm, (bool_decide_eq_true_2 (en_id c ∈ _)), andb_false_r by done. split; [done|].
    intros [?|(m & _ & _ & _ & ? & _)]; done.
  - intros id Hid. destruct (HR id) as [-> ->], (HE1 id Hid) as [-> ->]. rewrite (bool_decide_eq_false_2 _ Hid). split.
    + destruct (mirrors v !! id); [|done]. cbn. by rewrite andb_true_r.
    + naive_solver.
Qed.

(** ** Every view a connection can have

    What its requests and the log's events do to a view; what no mirror and
    nothing reported is in ([rv_rest]: the flags, what to send after an
    answer) may change in any way. The classes are those of the view when the
    request came, the view is settled after the session's answer. *)
Inductive reached (self : string) : view → Prop :=
  | rv_new : reached self newView
  | rv_track key got v : reached self v → reached self (track key got v).2
  | rv_settle entries key path bps v0 v : reached self v0 → reached self v →
      reached self (settle key path entries (classify entries key path v0 bps self) v)
  | rv_reconcile bps v : List.NoDup (map b_ID bps) → reached self v → reached self (reconcile self bps v).2
  | rv_retract v : reached self v → reached self (retractMirrors v).2
  | rv_rest v v' : reported v' = reported v → mirrors v' = mirrors v → reached self v → reached self v'.

Lemma told_ext v v' : reported v' = reported v → mirrors v' = mirrors v → told_ok v → told_ok v'.
Proof. unfold told_ok. by intros -> ->. Qed.
Lemma fold_told {X} (f : view → X → view) l v :
  (∀ v x, x ∈ l → told_ok v → told_ok (f v x)) → told_ok v → told_ok (fold_left f l v).
Proof.
  revert v. induction l as [|x l IH]; intros v Hf Hv; [done|]. cbn. apply IH; [intros; apply Hf; [set_solver|done]|]. apply Hf; [set_solver|done].
Qed.
Lemma track_told key got v : told_ok v → told_ok (track key got v).2.
Proof.
  intros Hv. unfold track. destruct got as [got|]; [|done]. cbn. apply fold_told.
  - intros v' id _ [Hr Hm]. case_bool_decide; [by split|]. split; [|exact Hm]. cbn. intros k b [_ Hb]%lookup_delete_Some. by apply (Hr k).
  - eapply told_ext; [reflexivity|reflexivity|]. apply fold_told; [|done]. intros v' b _ [Hr Hm]. unfold report.
    destruct (b_ID b =? 0); [by split|]. split; [|exact Hm]. cbn. intros k b' [[<- <-]|[_ Hb]]%lookup_insert_Some; [done|by apply Hr].
Qed.

(** An echo is of an id, and told under the request's path. *)
Lemma echo_told entries key path v bps self i e c :
  told_ok v → key ≠ ""%string → entries !! i = Some e → classify entries key path v bps self !! i = Some c → en_kind c = entryEcho →
  0 < en_id c ∧ d_Id (en_told c) = en_id c ∧ d_Source (en_told c) = Some path.
Proof.
  intros Hv Hkey He Hc Hk. destruct (classified_entries entries key path v bps self Hv Hkey) as (_ & Hok & _).
  destruct (Hok i e c He Hc) as (_ & _ & _ & _ & Hecho). destruct (Hecho Hk) as (Hid & Hs & Hor). split_and!; [|done|done].
  destruct Hor as [(b & (Hb & _ & Hst) & Ht)|(m & Hm & _)]; [|by apply (proj2 Hv) in Hm as [? _]].
  rewrite <- Hid, Ht. cbn. destruct Hst as [(p & m & Hm & _)|[Hm _]]; [by apply (proj2 Hv) in Hm as [? _]|].
  by apply mirrorable_spec in Hm as [? _].
Qed.
Lemma settle_told entries key path v0 bps self v :
  told_ok v0 → told_ok v → told_ok (settle key path entries (classify entries key path v0 bps self) v).
Proof.
  intros H0 Hv. unfold settle. destruct (String.eqb_spec key "") as [->|Hkey]; [done|]. apply fold_told.
  - intros v' [id m] _ [Hr Hm]. unfold settle_mirror. destruct (_ || _); [by split|].
    assert (told_ok (v' <| mirrors ::= delete id |>)) as Hd.
    { split; [exact Hr|]. cbn. intros k m' [_ Hb]%lookup_delete_Some. by apply Hm. }
    by case_bool_decide.
  - apply fold_told; [|done]. intros v' [e c] Hin [Hr Hm]. cbn. destruct (en_kind c) eqn:Ek; try by split.
    apply list_elem_of_lookup in Hin as [i (e' & c' & [= <- <-] & He & Hc)%lookup_zip_with_Some].
    split; [exact Hr|]. cbn. intros k m [[<- <-]|[_ Hb]]%lookup_insert_Some; [|by apply Hm]. cbn. exact (echo_told _ _ _ _ _ _ _ _ _ H0 Hkey He Hc Ek).
Qed.
Lemma reached_told self v : reached self v → told_ok v.
Proof.
  induction 1 as [|key got v _ IH|entries key path bps v0 v _ IH0 _ IH|bps v Hnd _ IH|v _ IH|v v' Hr Hm _ IH].
  - apply newView_told.
  - by apply track_told.
  - by apply settle_told.
  - destruct (reconcile_parts self bps v Hnd) as (r & c & a & v' & -> & Hrc). by eapply reconciled_told.
  - split; [apply IH|]. intros id m. cbn. by rewrite lookup_empty.
  - by eapply told_ext.
Qed.

(** ** A concrete file

    Another client's breakpoints at lines 12 and 30; the editor shows the
    first as 5, and the user sets a conditional breakpoint at 20, a plain one
    where 30's was requested, and re-sends the copy of the first. *)
Definition others : list Breakpoint :=
  [zeroBreakpoint <| b_ID := 5 |> <| b_File := "/src/a.py"%string |> <| b_RequestedLine := 12 |> <| b_Line := 12 |>
     <| b_Verified := true |> <| b_Owner := "agent:x"%string |>;
   zeroBreakpoint <| b_ID := 7 |> <| b_File := "/src/a.py"%string |> <| b_RequestedLine := 29 |> <| b_Line := 30 |>
     <| b_Owner := "agent:x"%string |> <| b_Condition := "n > 1"%string |>].
Definition joined : view := (reconcile "human" others newView).2.
Definition request : list sourceBreakpoint :=
  [mkSourceBp 12 1 "" "" ""; mkSourceBp 20 0 "n == 2" "" ""; mkSourceBp 29 4 "" "" ""; mkSourceBp 50 1 "" "" ""].

Example request_classes : map en_kind (classify request "/src/a.py" "/src/a.py" joined others "human")
  = [entryEcho; entryOwn; entryOwn; entryRetract].
Proof. vm_compute. reflexivity. Qed.

Lemma others_ids : List.NoDup (map b_ID others).
Proof. cbn. repeat constructor; cbn; intuition discriminate. Qed.

Lemma joined_reached : reached "human" joined.
Proof. apply rv_reconcile; [apply others_ids|apply rv_new]. Qed.

