(* ===== verification/Terminal.v ===== *)
(** * A launch in the editor's terminal

    The debug adapter asks, with DAP's runInTerminal, to run the program in a
    terminal; the launching editor is asked to, and answers with a process id
    or an error. What the adapter may ask (internal/facade/terminal.go), the
    exchange with the editor, and the session's side: a start's route to its
    terminal (internal/session/launch.go). *)

From S2P Require Import Prelude GoStrings Api Present Manifest EditorEvents.
From Stdlib Require Import Ascii Bool Permutation.
Open Scope Z_scope.

Definition maxTerminalArgs : Z := 1000.
Definition maxTerminalEnv : Z := 1000.
Definition maxTerminalBytes : Z := 256 * 1024.
Definition maxTerminalTitle : Z := 200.
Definition maxTerminalErrorLen : Z := 1000.
Definition defaultTermTitle : string := "eyedbg".
Definition goosWindows : string := "windows".

(** go-dap's [RunInTerminalRequestArguments]; the environment's map is a
    list, its values whatever the JSON held. *)
Record RunInTerminalArgs := mkTerminalArgs {
  ta_Kind : string; ta_Title : string; ta_Cwd : string; ta_Args : list string;
  ta_Env : list (string * value); ta_Shell : bool }.
#[global] Instance eta_RunInTerminalArgs : Eta RunInTerminalArgs :=
  fun r => mkTerminalArgs (ta_Kind r) (ta_Title r) (ta_Cwd r) (ta_Args r) (ta_Env r) (ta_Shell r).

(** ** The rules *)

Definition isTerminalControl (r : Z) : bool :=
  (r <=? 31) || ((127 <=? r) && (r <=? 159)) || (r =? 8232) || (r =? 8233).

(** The rule that was broken, or "". *)
Definition checkKind (a : RunInTerminalArgs) : string :=
  if negb (ta_Kind a =?s "") && negb (ta_Kind a =?s "integrated") then "rule 1: only the integrated terminal"
  else if ta_Shell a then "rule 2: its arguments would go through a shell"
  else "".

Definition checkCount (a : RunInTerminalArgs) : string :=
  if (Z.of_nat (length (ta_Args a)) <? 1) || (maxTerminalArgs <? Z.of_nat (length (ta_Args a)))
  then "rule 3: it needs 1 to 1000 arguments" else "".

Definition env_strings (e : string * value) : list string :=
  match e.2 with VString s => [e.1; s] | _ => [e.1] end.
Definition terminal_strings (a : RunInTerminalArgs) : list string :=
  ta_Title a :: ta_Cwd a :: ta_Args a ++ concat (map env_strings (ta_Env a)).
Definition has_control (s : string) : bool := existsb isTerminalControl (runes s).
Definition checkChars (a : RunInTerminalArgs) : string :=
  if existsb has_control (terminal_strings a) then "rule 4: it holds a control character"
  else if maxTerminalBytes <? list_sum_Z slen (terminal_strings a) then "rule 5: it is larger than 256 KiB"
  else "".

Definition is_sep (c : ascii) : bool := Ascii.eqb c "/" || Ascii.eqb c (ascii_of 92).
Definition sep_at (i : nat) (p : string) : bool := match snth i p with Some c => is_sep c | None => false end.
(** [p[0]|0x20] *)
Definition drive_letter (c : ascii) : bool :=
  let b := Z.lor (byte_of c) 32 in (97 <=? b) && (b <=? 122).
Definition localAbsolute (p goos : string) : bool :=
  if sep_at 0 p && sep_at 1 p then false
  else if negb (goos =?s goosWindows) then has_prefix "/" p
  else (3 <=? slen p) && match snth 0 p with Some c => drive_letter c | None => false end
       && bool_decide (snth 1 p = Some (":"%char)) && sep_at 2 p.
Definition program_of (a : RunInTerminalArgs) : string := match ta_Args a with p :: _ => p | [] => "" end.
Definition checkPaths (a : RunInTerminalArgs) (goos : string) : string :=
  if negb (localAbsolute (program_of a) goos) || negb (localAbsolute (ta_Cwd a) goos)
  then "rule 6: its program and working directory must be local absolute paths" else "".

Fixpoint check_windows_args (args : list string) : string :=
  match args with
  | [] => ""
  | arg :: args =>
    if arg =?s " " then "rule 7: on Windows no argument may be a single space"
    else if (1 <? slen arg) && has_prefix dquote arg && has_suffix dquote arg && contains_byte " " arg
    then "rule 7: on Windows no argument may start and end with " +:+ dquote +:+ " while holding a space"
    else check_windows_args args
  end.
Definition checkWindowsArgs (a : RunInTerminalArgs) (goos : string) : string :=
  if negb (goos =?s goosWindows) then ""
  else if negb (has_suffix ".exe" (to_lower (program_of a))) then "rule 7: on Windows its program must be an .exe"
  else check_windows_args (ta_Args a).

(** [envName]: ^[A-Za-z_][A-Za-z0-9_]{0,127}$ *)
Definition name_head (c : ascii) : bool :=
  let b := byte_of c in ((65 <=? b) && (b <=? 90)) || ((97 <=? b) && (b <=? 122)) || (b =? 95).
Definition name_tail (c : ascii) : bool := name_head c || is_digit c.
Definition envName (k : string) : bool :=
  match k with String c r => name_head c && all_bytes name_tail r && (slen r <=? 127) | EmptyString => false end.
Fixpoint check_env (env : list (string * value)) : string :=
  match env with
  | [] => ""
  | (k, v) :: env =>
    if negb (envName k) then "rule 8: an environment variable's name isn't a plain name"
    else match v with
         | VString _ | VNull => check_env env
         | _ => "rule 8: an environment variable's value isn't a string or null"
         end
  end.
Definition checkEnv (a : RunInTerminalArgs) : string :=
  if maxTerminalEnv <? Z.of_nat (length (ta_Env a)) then "rule 8: it sets more than 1000 environment variables"
  else check_env (ta_Env a).

Definition checkTitle (a : RunInTerminalArgs) : string :=
  if maxTerminalTitle <? rune_count (ta_Title a) then "rule 9: its title is longer than 200 characters" else "".

(** The first rule broken, the later checks not made. *)
Fixpoint first_rule (checks : list (RunInTerminalArgs → string)) (a : RunInTerminalArgs) : string :=
  match checks with
  | [] => ""
  | check :: checks => let rule := check a in if negb (rule =?s "") then rule else first_rule checks a
  end.
Definition terminal_checks (goos : string) : list (RunInTerminalArgs → string) :=
  [checkKind; checkCount; checkChars; fun a => checkPaths a goos; fun a => checkWindowsArgs a goos; checkEnv; checkTitle].

Definition env_value (e : string * value) : string * option string :=
  (e.1, match e.2 with VString s => Some s | _ => None end).
Definition checkTerminal (a : RunInTerminalArgs) (goos : string) : string + TerminalEventBody :=
  let rule := first_rule (terminal_checks goos) a in
  if negb (rule =?s "") then inl rule
  else inr (mkTerminalBody 0 (if ta_Title a =?s "" then defaultTermTitle else ta_Title a) (ta_Cwd a) (ta_Args a)
              (map env_value (ta_Env a))).

(** ** The exchange with the editor *)

Record terminalAnswer := mkAnswer { an_pid : Z; an_err : string }.
#[global] Instance terminalAnswer_eq_dec : EqDecision terminalAnswer.
Proof. solve_decision. Defined.

(** [terminalState]: a pending event is its id; [answers] is what its
    channel, of capacity 1, holds. *)
Record terminalState := mkTerminal { t_lastID : Z; t_pending : option Z; t_answers : gmap Z (list terminalAnswer) }.
#[global] Instance eta_terminalState : Eta terminalState := fun r => mkTerminal (t_lastID r) (t_pending r) (t_answers r).
Definition noTerminal : terminalState := mkTerminal 0 None ∅.

Definition open (t : terminalState) : option Z * terminalState :=
  match t_pending t with
  | Some _ => (None, t)
  | None =>
    let id := t_lastID t + 1 in
    (Some id, t <| t_lastID := id |> <| t_pending := Some id |> <| t_answers ::= <[id := []]> |>)
  end.
Definition close (p : Z) (t : terminalState) : terminalState :=
  if decide (t_pending t = Some p) then t <| t_pending := None |> else t.
Definition deliver (id : Z) (a : terminalAnswer) (t : terminalState) : bool * terminalState :=
  if decide (t_pending t = Some id) then
    (true, t <| t_answers ::= alter (fun l => l ++ [a]) id |> <| t_pending := None |>)
  else (false, t).

(** [sanitizeTerminalError] *)
Definition sanitize_seg (x : Z * string) : string := if isTerminalControl x.1 then " " else reencode x.
Definition sanitizeTerminalError (s : string) : string :=
  trim_space (String.concat "" (map sanitize_seg (take (Z.to_nat maxTerminalErrorLen) (segs s)))).

Definition MaxInt32 : Z := 2 ^ 31 - 1.
Record TerminalArguments := mkTerminalArguments { ra_ID : Z; ra_ProcessID : option Z; ra_Error : option string }.
Definition terminalAnswerOf (a : TerminalArguments) : terminalAnswer * bool :=
  match ra_Error a, ra_ProcessID a with
  | Some e, None =>
    let msg := sanitizeTerminalError e in
    (mkAnswer 0 (if msg =?s "" then "no reason given" else msg), true)
  | None, Some pid =>
    if (1 <=? pid) && (pid <=? MaxInt32) then (mkAnswer pid "", true) else (mkAnswer 0 "its answer was invalid", false)
  | _, _ => (mkAnswer 0 "its answer was invalid", false)
  end.

(** [terminalAnswered], of a connection with a launch that was started: the
    error of the response, if it is one. *)
Definition terminalAnswered (started : bool) (a : TerminalArguments) (t : terminalState) : option Error * terminalState :=
  let refuse msg := Some (NewError CodeInvalidRequest msg) in
  if negb started then (refuse "no terminal was asked for on this connection", t)
  else
    let '(answer, valid) := terminalAnswerOf a in
    match deliver (ra_ID a) answer t with
    | (false, t) => (refuse "no terminal with that id waits for an answer", t)
    | (true, t) =>
      (if negb valid then refuse "answer with a processId from 1 to 2147483647, or an error" else None, t)
    end.

(** [runInTerminal], until it waits: refused, or what the editor is sent. *)
Definition adapterFailed (msg : string) : Error := NewError CodeAdapterFailed msg.
Definition runInTerminal (goos : string) (a : RunInTerminalArgs) (t : terminalState)
    : (Error + TerminalEventBody) * terminalState :=
  match checkTerminal a goos with
  | inl rule =>
    (inl (adapterFailed ("the debug adapter asked to run a command eyedbg won't run in a terminal: " +:+ rule)), t)
  | inr body =>
    match open t with
    | (None, t) => (inl (adapterFailed "the debug adapter asked for a second terminal"), t)
    | (Some id, t) => (inr (body <| tb_ID := id |>), t)
    end
  end.

(** Its result: [TermOther] is an error that is no [*api.Error]. *)
Inductive terminalResult := TermPid (pid : Z) | TermFailed (e : Error) | TermOther (text : string).
Definition ErrTerminalTimeout : string := "no answer within 30s".
Definition answer_result (a : terminalAnswer) : terminalResult :=
  if negb (an_err a =?s "") then TermFailed (adapterFailed ("the editor didn't start the program's terminal: " +:+ an_err a))
  else TermPid (an_pid a).
(** Of a wait that ended with its context, by the time limit or another way. *)
Definition ended_result (timedOut : bool) (err : string) : terminalResult :=
  if timedOut then TermFailed (adapterFailed ("the editor didn't start the program's terminal: " +:+ ErrTerminalTimeout))
  else TermOther err.

(** ** The route of a start *)

(** A reply to an adapter's request: the process id, or why not. *)
Inductive terminalReply := ReplyPid (pid : Z) | ReplyRefused (message : string).
Definition terminalRefusal (err : string) : terminalReply := ReplyRefused ("eyedbg: " +:+ err).

(** [serveTerminal], once its hook returned: the reply, and the error that
    fails the start. *)
Definition served (r : terminalResult) (timedOut : bool) : terminalReply * option Error :=
  let failed (e : Error) := (terminalRefusal (e_message e), Some e) in
  match r with
  | TermPid pid => if pid <? 1 then failed (adapterFailed "the terminal reported no process id") else (ReplyPid pid, None)
  | TermFailed e => failed e
  | TermOther text =>
    failed (adapterFailed (if timedOut then "the terminal didn't start the program within 30s" else text))
  end.

(** The start, its route ([term]: taken or not; [None] once closed), the
    request handed over, the server, and the replies so far. A request is
    its number. *)
Inductive serverState := ServerWaits | ServerRuns (req : nat) | ServerDone.
Inductive startState := StartRuns | StartClosed | StartDrained.
Record route := mkRoute {
  rt_term : option bool; rt_reqs : option nat; rt_server : serverState; rt_start : startState; rt_ended : bool;
  rt_failure : option Error; rt_sent : nat; rt_ran : list nat; rt_replies : list (nat * terminalReply) }.
#[global] Instance eta_route : Eta route := fun r =>
  mkRoute (rt_term r) (rt_reqs r) (rt_server r) (rt_start r) (rt_ended r) (rt_failure r) (rt_sent r) (rt_ran r) (rt_replies r).
Definition openRoute : route := mkRoute (Some false) None ServerWaits StartRuns false None 0 [] [].

(** [onReverse] of the [n]th request: taken by the open route, or refused by
    the client. *)
Definition onReverse (r : route) : route :=
  let n := rt_sent r in
  let r := r <| rt_sent := S n |> in
  match rt_term r with
  | Some false => r <| rt_term := Some true |> <| rt_reqs := Some n |>
  | _ => r <| rt_replies ::= fun l => l ++ [(n, ReplyRefused "not supported")] |>
  end.

Inductive route_step : route → route → Prop :=
  | rs_request r : route_step r (onReverse r)
  | rs_take r n :                    (* the server takes what is handed over *)
    rt_server r = ServerWaits → rt_reqs r = Some n →
    route_step r (r <| rt_reqs := None |> <| rt_server := ServerRuns n |> <| rt_ran ::= fun l => l ++ [n] |>)
  | rs_give_up r :                   (* or ends with the start's context *)
    rt_server r = ServerWaits → rt_ended r = true → route_step r (r <| rt_server := ServerDone |>)
  | rs_served r n res timedOut :     (* its hook returned; a failure is the cause of the context's first end *)
    rt_server r = ServerRuns n →
    route_step r (r <| rt_server := ServerDone |> <| rt_replies ::= fun l => l ++ [(n, (served res timedOut).1)] |>
                    <| rt_failure := if rt_ended r then rt_failure r else (served res timedOut).2 |>
                    <| rt_ended := rt_ended r || bool_decide (is_Some (served res timedOut).2) |>)
  | rs_canceled r : route_step r (r <| rt_ended := true |>)   (* the caller left, or the time is over *)
  | rs_close r :                     (* the start is over: no request from here on, then the context's end *)
    rt_start r = StartRuns → route_step r (r <| rt_start := StartClosed |> <| rt_term := None |> <| rt_ended := true |>)
  | rs_drain r :                     (* the server is done: what it did not take is refused *)
    rt_start r = StartClosed → rt_server r = ServerDone →
    route_step r (match rt_reqs r with
                  | Some n => r <| rt_start := StartDrained |> <| rt_reqs := None |>
                                <| rt_replies ::= fun l => l ++ [(n, terminalRefusal "the start is over")] |>
                  | None => r <| rt_start := StartDrained |>
                  end).

(** [runWithTerminal]'s result: the start's, or the terminal's error, and
    whether it ends a start that was done. *)
Definition start_result {A} (started : result A) (failure : option Error) : result A * bool :=
  match failure with
  | None => (started, false)
  | Some e => (Err e, is_ok started)
  end.

(** * What an editor's terminal is asked to run

    The checks of a terminal request as one statement, the editor's answer,
    the exchange over any order of its operations, and a start's route. *)

Open Scope Z_scope.

(** ** The rules *)

(** A request the editor may be asked to run. *)
Record terminal_ok (a : RunInTerminalArgs) (goos : string) : Prop := {
  to_kind : ta_Kind a = ""%string ∨ ta_Kind a = "integrated"%string;
  to_no_shell : ta_Shell a = false;
  to_count : 1 ≤ Z.of_nat (length (ta_Args a)) ≤ 1000;
  to_chars : ∀ s r, s ∈ terminal_strings a → r ∈ runes s → isTerminalControl r = false;
  to_size : list_sum_Z slen (terminal_strings a) ≤ 262144;
  to_paths : localAbsolute (program_of a) goos = true ∧ localAbsolute (ta_Cwd a) goos = true;
  to_windows : goos = goosWindows →
    has_suffix ".exe" (to_lower (program_of a)) = true ∧ check_windows_args (ta_Args a) = ""%string;
  to_env_count : Z.of_nat (length (ta_Env a)) ≤ 1000;
  to_env : ∀ k v, (k, v) ∈ ta_Env a → envName k = true ∧ (v = VNull ∨ ∃ s, v = VString s);
  to_title : rune_count (ta_Title a) ≤ 200 }.

Lemma first_rule_none checks a : first_rule checks a = ""%string ↔ ∀ c, In c checks → c a = ""%string.
Proof.
  induction checks as [|c checks IH]; cbn [first_rule]; [by split|]. destruct (String.eqb_spec (c a) "") as [E|E]; cbn [negb].
  - rewrite IH. split; [intros H x [<-|?]; auto|intros H x ?; apply H; by right].
  - split; [intros H; by rewrite H in E|intros H; destruct E; apply H; by left].
Qed.

Lemma checkKind_spec a : checkKind a = ""%string ↔ (ta_Kind a = "" ∨ ta_Kind a = "integrated")%string ∧ ta_Shell a = false.
Proof.
  unfold checkKind. destruct (String.eqb_spec (ta_Kind a) ""), (String.eqb_spec (ta_Kind a) "integrated"), (ta_Shell a); cbn; naive_solver.
Qed.

Lemma checkCount_spec a : checkCount a = ""%string ↔ 1 ≤ Z.of_nat (length (ta_Args a)) ≤ 1000.
Proof. unfold checkCount, maxTerminalArgs. destruct (_ || _) eqn:E; split; intros; try done; lia. Qed.

Lemma checkChars_spec a :
  checkChars a = ""%string ↔ (∀ s r, s ∈ terminal_strings a → r ∈ runes s → isTerminalControl r = false)
                           ∧ list_sum_Z slen (terminal_strings a) ≤ 262144.
Proof.
  unfold checkChars. change maxTerminalBytes with 262144. destruct (existsb has_control _) eqn:E.
  - split; [done|]. intros [H _]. exfalso. apply List.existsb_exists in E as (s & Hs & (r & Hr & Hc)%List.existsb_exists).
    apply list_elem_of_In in Hs, Hr. specialize (H s r Hs Hr). congruence.
  - assert (H : ∀ s r, s ∈ terminal_strings a → r ∈ runes s → isTerminalControl r = false).
    { intros s r Hs Hr. destruct (isTerminalControl r) eqn:Hc; [|done]. apply list_elem_of_In in Hs, Hr.
      assert (existsb has_control (terminal_strings a) = true); [|congruence].
      apply List.existsb_exists. exists s. split; [done|]. apply List.existsb_exists. eauto. }
    destruct (262144 <? _) eqn:Es; split; intros; try done; [lia|]. split; [done|lia].
Qed.

Lemma checkPaths_spec a goos :
  checkPaths a goos = ""%string ↔ localAbsolute (program_of a) goos = true ∧ localAbsolute (ta_Cwd a) goos = true.
Proof. unfold checkPaths. destruct (localAbsolute (program_of a) goos), (localAbsolute (ta_Cwd a) goos); cbn; naive_solver. Qed.

Lemma checkWindowsArgs_spec a goos :
  checkWindowsArgs a goos = ""%string ↔
  (goos = goosWindows → has_suffix ".exe" (to_lower (program_of a)) = true ∧ check_windows_args (ta_Args a) = ""%string).
Proof.
  unfold checkWindowsArgs. destruct (String.eqb_spec goos goosWindows) as [E|E]; cbn [negb]; [|naive_solver].
  destruct (has_suffix _ _); cbn [negb]; naive_solver.
Qed.

Lemma check_env_spec env :
  check_env env = ""%string ↔ ∀ k v, (k, v) ∈ env → envName k = true ∧ (v = VNull ∨ ∃ s, v = VString s).
Proof.
  induction env as [|[k v] env IH]; cbn [check_env]; [split; [set_solver|done]|].
  destruct (envName k) eqn:Ek; cbn [negb].
  - assert (Hv : (v = VNull ∨ ∃ s, v = VString s) → check_env env = ""%string ↔
      ∀ k' v', (k', v') ∈ (k, v) :: env → envName k' = true ∧ (v' = VNull ∨ ∃ s, v' = VString s)).
    { intros Hv. rewrite IH. split; [intros H k' v' [[= -> ->]|?]%elem_of_cons; auto|intros H k' v' ?; apply H; set_solver]. }
    destruct v; try (apply Hv; eauto);
      (split; [done|]; intros H; destruct (H k _ ltac:(apply elem_of_cons; by left)) as [_ [?|[? ?]]]; done).
  - split; [done|]. intros H. destruct (H k v ltac:(set_solver)). congruence.
Qed.

Lemma checkEnv_spec a :
  checkEnv a = ""%string ↔ Z.of_nat (length (ta_Env a)) ≤ 1000
    ∧ ∀ k v, (k, v) ∈ ta_Env a → envName k = true ∧ (v = VNull ∨ ∃ s, v = VString s).
Proof.
  unfold checkEnv, maxTerminalEnv. destruct (1000 <? _) eqn:E; [split; [done|lia]|]. rewrite check_env_spec.
  split; [intros; split; [lia|done]|naive_solver].
Qed.

Lemma checkTitle_spec a : checkTitle a = ""%string ↔ rune_count (ta_Title a) ≤ 200.
Proof. unfold checkTitle, maxTerminalTitle. destruct (200 <? _) eqn:E; split; intros; try done; lia. Qed.

Lemma checkTerminal_ok a goos :
  first_rule (terminal_checks goos) a = ""%string ↔ terminal_ok a goos.
Proof.
  rewrite first_rule_none. unfold terminal_checks. cbn [In]. split.
  - intros H. pose proof (proj1 (checkKind_spec a) ltac:(auto)) as [? ?].
    pose proof (proj1 (checkChars_spec a) ltac:(auto)) as [? ?]. pose proof (proj1 (checkEnv_spec a) ltac:(auto 10)) as [? ?].
    split; try done.
    + apply checkCount_spec; auto.
    + apply checkPaths_spec. apply (H (fun a => checkPaths a goos)). auto.
    + apply checkWindowsArgs_spec. apply (H (fun a => checkWindowsArgs a goos)). auto 10.
    + apply checkTitle_spec. auto 10.
  - intros [] c Hc. destruct Hc as [<-|[<-|[<-|[<-|[<-|[<-|[<-|[]]]]]]]];
      [apply checkKind_spec|apply checkCount_spec|apply checkChars_spec|apply checkPaths_spec|apply checkWindowsArgs_spec
      |apply checkEnv_spec|apply checkTitle_spec]; done.
Qed.

(** ** The editor's error text *)

(** A rune of a string is encoded there, or is a byte that is no UTF-8. *)
Lemma segs_elem s r b : (r, b) ∈ segs s → (r = rune_error ∧ String.length b = 1%nat) ∨ encodes b r.
Proof.
  remember (String.length s) as n eqn:Hn. revert s Hn. induction (lt_wf n) as [n _ IH]. intros s -> Hin.
  destruct s as [|c s]; [cbn in Hin; set_solver|]. destruct (decode_rune_inv c s) as [Hbad|(t & s' & x & -> & Hd & He)].
  - unfold segs in Hin. cbn [segs_go] in Hin. rewrite Hbad in Hin. cbn [Nat.sub] in Hin.
    apply elem_of_cons in Hin as [[= -> ->]|Hin]; [left; split; [done|cbn; by destruct s]|]. eapply IH; [|done|exact Hin]. cbn. lia.
  - change (String c (t +:+ s')) with (String c t +:+ s') in Hin. rewrite (segs_encodes _ x) in Hin by done.
    apply elem_of_cons in Hin as [[= -> ->]|Hin]; [by right|]. eapply IH; [|done|exact Hin]. cbn. rewrite string_app_length. lia.
Qed.

Lemma rune_error_encodes : encodes rune_error_bytes rune_error.
Proof.
  unfold rune_error_bytes, rune_error. eexists _, _. split_and!; [done|done|done| |left; cbn; lia|cbn; lia]. intros rest. done.
Qed.

Lemma reencode_encodes s x : x ∈ segs s → encodes (reencode x) x.1.
Proof.
  destruct x as [r b]. intros Hx. apply segs_elem in Hx as [[-> Hb]|He]; unfold reencode; cbn [fst snd].
  - rewrite Hb. cbn. apply rune_error_encodes.
  - destruct (_ && _) eqn:E; [|done]. apply andb_true_iff in E as [->%Z.eqb_eq _]. apply rune_error_encodes.
Qed.

Lemma runes_of_concat {A} (f : A → string) (g : A → Z) l :
  (∀ x, x ∈ l → encodes (f x) (g x)) → runes_of (String.concat "" (map f l)) (map (fun x => (g x, f x)) l).
Proof.
  induction l as [|x l IH]; intros H; [constructor|]. cbn [map].
  assert (String.concat "" (f x :: map f l) = f x +:+ String.concat "" (map f l)) as ->.
  { cbn. destruct (map f l); [by rewrite string_app_nil_r|done]. }
  constructor; [apply H; set_solver|]. apply IH. intros; apply H; set_solver.
Qed.

Lemma runes_of_encodes s l x : runes_of s l → x ∈ l → encodes x.2 x.1.
Proof. induction 1 as [|b r s l He _ IH]; [set_solver|]. intros [->|?]%elem_of_cons; [done|auto]. Qed.

Lemma drop_while_sub {A} (p : A → bool) l : drop_while p l `sublist_of` l.
Proof. induction l as [|x l IH]; cbn; [done|]. destruct (p x); [by apply sublist_cons|done]. Qed.

Lemma sublist_rev {A} (l k : list A) : l `sublist_of` k → rev l `sublist_of` rev k.
Proof.
  induction 1 as [|x l k _ IH|x l k _ IH]; cbn; [done| |].
  - by apply sublist_app.
  - by apply sublist_inserts_r.
Qed.

Lemma trim_space_segs s l : runes_of s l → segs (trim_space s) `sublist_of` l.
Proof.
  intros H. unfold trim_space. rewrite (runes_of_segs _ _ H). set (sp := fun x : Z * string => is_space x.1).
  set (l' := rev (drop_while sp (rev (drop_while sp l)))).
  assert (Hsub : l' `sublist_of` l).
  { unfold l'. etrans; [|apply (drop_while_sub sp)]. rewrite <- (rev_involutive (drop_while sp l)) at 2.
    apply sublist_rev. apply drop_while_sub. }
  assert (Hr : runes_of (String.concat "" (map snd l')) (map (fun x => (x.1, x.2)) l')).
  { apply runes_of_concat. intros x Hx. eapply runes_of_encodes; [exact H|]. by eapply elem_of_sublist. }
  change (l'.*2) with (map snd l'). rewrite (runes_of_segs _ _ Hr).
  replace (map (fun x => (x.1, x.2)) l') with l'; [done|]. clear. induction l' as [|[] l2 IH]; [done|]. cbn. by f_equal.
Qed.

(** The editor's error text holds no control character, and is bounded. *)
Lemma sanitizeTerminalError_spec s :
  rune_count (sanitizeTerminalError s) ≤ 1000 ∧ ∀ r, r ∈ runes (sanitizeTerminalError s) → isTerminalControl r = false.
Proof.
  set (rune := fun x : Z * string => if isTerminalControl x.1 then 32 else x.1).
  set (kept := take (Z.to_nat maxTerminalErrorLen) (segs s)).
  assert (Hr : runes_of (String.concat "" (map sanitize_seg kept)) (map (fun x => (rune x, sanitize_seg x)) kept)).
  { apply runes_of_concat. intros x Hx. unfold sanitize_seg, rune. destruct (isTerminalControl x.1); [by apply encodes_ascii|].
    apply (reencode_encodes s). apply elem_of_take in Hx as (i & Hi & _). by eapply list_elem_of_lookup_2. }
  assert (Hsub : segs (sanitizeTerminalError s) `sublist_of` map (fun x => (rune x, sanitize_seg x)) kept) by exact (trim_space_segs _ _ Hr).
  split.
  - unfold rune_count. apply sublist_length in Hsub. rewrite List.length_map in Hsub. unfold kept in Hsub.
    rewrite length_take in Hsub. apply Nat.le_trans with (p := Z.to_nat maxTerminalErrorLen) in Hsub; [|apply Nat.le_min_l].
    change 1000 with maxTerminalErrorLen. apply Nat2Z.inj_le in Hsub. by rewrite Z2Nat.id in Hsub.
  - intros r Hin. unfold runes in Hin. apply list_elem_of_fmap in Hin as (x & -> & Hx). eapply elem_of_sublist in Hx; [|exact Hsub].
    apply list_elem_of_In, List.in_map_iff in Hx as (y & <- & _). unfold rune. cbn. by destruct (isTerminalControl y.1) eqn:E.
Qed.

(** What an answer may hold: a process id in range, or a failure that says
    why, in bounded printable text. *)
Lemma terminalAnswerOf_spec a ans valid :
  terminalAnswerOf a = (ans, valid) →
  match answer_result ans with
  | TermPid pid => valid = true ∧ ra_ProcessID a = Some pid ∧ ra_Error a = None ∧ 1 ≤ pid ≤ 2147483647
  | TermFailed _ => an_err ans ≠ ""%string
  | TermOther _ => False
  end.
Proof.
  unfold terminalAnswerOf, answer_result, MaxInt32. destruct (ra_Error a) as [e|], (ra_ProcessID a) as [pid|];
    try (intros [= <- <-]; cbn; discriminate).
  - intros [= <- <-]. cbn. destruct (String.eqb_spec (sanitizeTerminalError e) "") as [E|E]; cbn; [discriminate|].
    destruct (String.eqb_spec (sanitizeTerminalError e) ""); [done|]. done.
  - destruct (_ && _) eqn:E; intros [= <- <-]; cbn; [|discriminate]. split_and!; try done; lia.
Qed.

(** ** The exchange *)

Inductive term_op := OpOpen | OpClose (id : Z) | OpDeliver (id : Z) (a : terminalAnswer).
Definition term_step (t : terminalState) (op : term_op) : terminalState :=
  match op with OpOpen => (open t).2 | OpClose id => close id t | OpDeliver id a => (deliver id a t).2 end.

(** A pending event's channel is empty, so that an answer never waits for
    room; no channel holds two; ids are never used again. *)
Definition wf_terminal (t : terminalState) : Prop :=
  0 ≤ t_lastID t
  ∧ (∀ id, t_pending t = Some id → id = t_lastID t ∧ t_answers t !! id = Some [])
  ∧ (∀ id l, t_answers t !! id = Some l → id ≤ t_lastID t ∧ (length l ≤ 1)%nat).

Lemma term_step_wf t op : wf_terminal t → wf_terminal (term_step t op).
Proof.
  intros (H0 & Hp & Ha). destruct op as [|id|id a]; cbn [term_step].
  - unfold open. destruct (t_pending t) as [p|] eqn:E; [cbn; unfold wf_terminal; rewrite E; auto|]. split_and!; cbn; [lia| |].
    + intros id [= <-]. split; [done|apply lookup_insert_eq].
    + intros id l [[<- <-]|[_ H]]%lookup_insert_Some; [cbn; lia|]. apply Ha in H. lia.
  - unfold close. case_decide; [|unfold wf_terminal; auto]. split_and!; cbn; done.
  - unfold deliver. case_decide as E; [|cbn; unfold wf_terminal; auto]. destruct (Hp id E) as [-> Hid]. split_and!; cbn; [done|done|].
    intros id l. destruct (decide (id = t_lastID t)) as [->|Hne].
    + rewrite lookup_alter_eq, Hid. cbn. intros [= <-]. cbn. lia.
    + rewrite lookup_alter_ne by done. apply Ha.
Qed.

Lemma term_run_wf ops t : wf_terminal t → wf_terminal (fold_left term_step ops t).
Proof. revert t. induction ops as [|op ops IH]; intros t H; [done|]. cbn. by apply IH, term_step_wf. Qed.

Lemma noTerminal_wf : wf_terminal noTerminal.
Proof. split_and!; cbn; [lia|done|]. intros id l. by rewrite lookup_empty. Qed.

(** ** A start's route *)

Definition running (r : route) : list nat := match rt_server r with ServerRuns n => [n] | _ => [] end.
Definition handed (r : route) : list nat := match rt_reqs r with Some n => [n] | None => [] end.
Definition untaken (r : route) : nat := match rt_term r with Some false => 1 | _ => 0 end.
Definition over (r : route) : Prop := rt_term r = None.

Record route_inv (r : route) : Prop := {
  ri_answered : map fst (rt_replies r) ++ handed r ++ running r ≡ₚ seq 0 (rt_sent r);
  ri_once : (length (rt_ran r) + length (handed r) + untaken r ≤ 1)%nat;
  ri_runs : ∀ n, n ∈ running r → n ∈ rt_ran r;
  ri_pid : ∀ n pid, (n, ReplyPid pid) ∈ rt_replies r → 1 ≤ pid ∧ n ∈ rt_ran r;
  ri_closed : rt_start r ≠ StartRuns → rt_term r = None;
  ri_drained : rt_start r = StartDrained → handed r = [] ∧ rt_server r = ServerDone;
  ri_failure : ∀ e, rt_failure r = Some e → ∃ n, (n, terminalRefusal (e_message e)) ∈ rt_replies r ∧ n ∈ rt_ran r }.

Lemma served_spec res timedOut :
  (∃ pid, served res timedOut = (ReplyPid pid, None) ∧ 1 ≤ pid)
  ∨ (∃ e, served res timedOut = (terminalRefusal (e_message e), Some e)).
Proof.
  unfold served. destruct res as [pid|e|text]; [|right; by exists e|right; by exists (adapterFailed (if timedOut then "the terminal didn't start the program within 30s" else text))].
  destruct (pid <? 1) eqn:E; [|left; exists pid; split; [done|lia]].
  right. by exists (adapterFailed "the terminal reported no process id").
Qed.

Lemma seq_snoc (n : nat) l : l ≡ₚ seq 0 n → n :: l ≡ₚ seq 0 (S n).
Proof. intros ->. rewrite seq_S. cbn. apply Permutation_cons_append. Qed.

Ltac route_cases := unfold handed, running, untaken in *; cbn in *.

Lemma onReverse_inv r : route_inv r → route_inv (onReverse r).
Proof.
  destruct r as [term reqs server start ended failure sent ran replies]. intros [Ha Ho Hr Hp Hc Hd Hf]. unfold onReverse. route_cases.
  assert (Hrefuse : route_inv (mkRoute term reqs server start ended failure (S sent) ran
    (replies ++ [(sent, ReplyRefused "not supported")]))).
  { split; route_cases; try done.
    - rewrite map_app. cbn. rewrite <- (seq_snoc _ _ Ha). solve_Permutation.
    - intros n pid [?|[=]%list_elem_of_singleton]%elem_of_app. by apply Hp.
    - intros e (n & ? & ?)%Hf. exists n. split; [apply elem_of_app; by left|done]. }
  destruct term as [[]|]; cbn; [done| |done]. split; route_cases; try done.
  - rewrite <- (seq_snoc _ _ Ha). destruct reqs; cbn in Ho; [lia|]. cbn. solve_Permutation.
  - destruct reqs; cbn in *; lia.
  - intros Hs. by apply Hc in Hs.
  - intros ->. by specialize (Hc ltac:(discriminate)).
Qed.

Lemma route_step_inv r r' : route_inv r → route_step r r' → route_inv r'.
Proof.
  intros Hinv Hs. destruct Hs as [r|r n Hw Hq|r Hw He|r n res timedOut Hn|r|r Hst|r Hst Hsv]; [by apply onReverse_inv| | | | | |];
    destruct r as [term reqs server start ended failure sent ran replies]; destruct Hinv as [Ha Ho Hr Hp Hc Hd Hf]; route_cases; subst.
  - split; route_cases; try done.
    + rewrite length_app. cbn. lia.
    + intros m ->%list_elem_of_singleton. set_solver.
    + intros m pid [? ?]%Hp. split; [done|set_solver].
    + intros [? _]%Hd. done.
    + intros e (m & ? & ?)%Hf. exists m. set_solver.
  - split; route_cases; try done. intros [? _]%Hd. done.
  - assert (Hran : n ∈ ran) by (apply Hr; set_solver). split; route_cases; try done.
    + rewrite map_app. cbn. rewrite <- Ha. solve_Permutation.
    + set_solver.
    + intros m pid [?|Hin%list_elem_of_singleton]%elem_of_app; [by apply Hp|]. injection Hin as -> Hpid.
      destruct (served_spec res timedOut) as [(p & Hs & ?)|(e & Hs)]; rewrite Hs in Hpid; cbn in Hpid; [by injection Hpid as ->|done].
    + intros [? ?]%Hd. done.
    + intros e. destruct ended.
      * intros (m & ? & ?)%Hf. exists m. split; [apply elem_of_app; by left|done].
      * destruct (served_spec res timedOut) as [(p & Hs & ?)|(e' & Hs)]; rewrite Hs; cbn; [done|]. intros [= <-].
        exists n. split; [apply elem_of_app; right; set_solver|done].
  - by split.
  - split; route_cases; try done. lia.
  - split; destruct reqs as [n|]; route_cases; try done.
    + rewrite map_app. cbn. rewrite <- Ha. solve_Permutation.
    + lia.
    + intros m pid [?|[=]%list_elem_of_singleton]%elem_of_app. by apply Hp.
    + intros _. by apply Hc.
    + intros _. by apply Hc.
    + intros e (m & ? & ?)%Hf. exists m. split; [apply elem_of_app; by left|done].
Qed.

Lemma openRoute_inv : route_inv openRoute.
Proof. split; cbn; try done; try set_solver. Qed.

Lemma route_reachable r : rtc route_step openRoute r → route_inv r.
Proof.
  intros H. assert (∀ r0, route_inv r0 → rtc route_step r0 r → route_inv r) as Hg; [|by apply (Hg openRoute openRoute_inv)].
  clear. intros r0 Hi H. induction H as [|? ? ? Hs _ IH]; [done|]. by apply IH; eapply route_step_inv.
Qed.

(** Over any order of openings, answers and ends, every answer taken went to
    an event that waited for it, into an empty channel. *)
Lemma exchange_wf ops : wf_terminal (fold_left term_step ops noTerminal).
Proof. apply term_run_wf, noTerminal_wf. Qed.

Lemma deliver_spec id a t :
  wf_terminal t →
  (deliver id a t).1 = true ↔ t_pending t = Some id ∧ t_answers (deliver id a t).2 !! id = Some [a] ∧ t_pending (deliver id a t).2 = None.
Proof.
  intros (_ & Hp & _). unfold deliver. case_decide as E; cbn; [|naive_solver]. split; [|done]. intros _.
  destruct (Hp id E) as [_ Hid]. rewrite lookup_alter_eq, Hid. done.
Qed.

(** The adapter's runInTerminal is refused, and nothing changes, unless
    it keeps every rule and no terminal is waited for; then the editor is
    asked to run exactly its arguments, in its directory with its
    environment, under an id never used before. *)
Theorem terminal_request_spec goos a t :
  match runInTerminal goos a t with
  | (inl _, t') => t' = t ∧ (¬ terminal_ok a goos ∨ t_pending t ≠ None)
  | (inr body, t') =>
    terminal_ok a goos ∧ t_pending t = None
    ∧ tb_Args body = ta_Args a ∧ tb_Cwd body = ta_Cwd a ∧ tb_Env body = map env_value (ta_Env a)
    ∧ tb_Title body = (if ta_Title a =?s "" then "eyedbg" else ta_Title a)%string
    ∧ tb_ID body = t_lastID t + 1 ∧ t_pending t' = Some (tb_ID body) ∧ t_lastID t' = tb_ID body
  end.
Proof.
  unfold runInTerminal, checkTerminal. pose proof (checkTerminal_ok a goos) as Hok.
  destruct (String.eqb_spec (first_rule (terminal_checks goos) a) "") as [E|E]; cbn [negb].
  - unfold open. destruct (t_pending t) as [p|] eqn:Ep; cbn; [split; [done|by right]|]. by apply Hok in E.
  - split; [done|]. left. by rewrite <- Hok.
Qed.

(** A start's route to its terminal, in any state it can come to. *)
Definition routed (r : route) : Prop := rtc route_step openRoute r.

(** C15: whatever the order of the adapter's requests, the terminal's end, the
    start's and its cancelation: at most one request is run, only it can be
    answered with a process id (a positive one), no request is answered
    twice, and once the start returned every one was answered; a terminal
    that failed the start also refused the request. *)
Theorem route_spec r :
  routed r →
  (length (rt_ran r) ≤ 1)%nat ∧ List.NoDup (map fst (rt_replies r))
  ∧ (∀ n pid, (n, ReplyPid pid) ∈ rt_replies r → 1 ≤ pid ∧ n ∈ rt_ran r)
  ∧ (rt_start r = StartDrained → map fst (rt_replies r) ≡ₚ seq 0 (rt_sent r))
  ∧ (∀ e, rt_failure r = Some e → ∃ n, n ∈ rt_ran r ∧ (n, terminalRefusal (e_message e)) ∈ rt_replies r).
Proof.
  intros [Ha Ho Hr Hp Hc Hd Hf]%route_reachable. split_and!.
  - lia.
  - assert (Hnd : List.NoDup (map fst (rt_replies r) ++ handed r ++ running r)).
    { eapply Permutation_NoDup; [symmetry; exact Ha|apply List.seq_NoDup]. }
    by apply List.NoDup_app_remove_r in Hnd.
  - done.
  - intros Hs. destruct (Hd Hs) as [Hh Hsv]. unfold running in Ha. rewrite Hh, Hsv in Ha. cbn in Ha. by rewrite app_nil_r in Ha.
  - intros e (n & ? & ?)%Hf. eauto.
Qed.

(** A start whose terminal ran the program, the second request refused. *)
Definition one_run : route :=
  mkRoute None None ServerDone StartDrained true None 2 [0%nat] [(1%nat, ReplyRefused "not supported"); (0%nat, ReplyPid 4711)].

Lemma one_run_reached : rtc route_step openRoute one_run.
Proof.
  eapply rtc_l; [apply rs_request|]. eapply rtc_l; [by apply (rs_take _ 0)|]. eapply rtc_l; [apply rs_request|].
  eapply rtc_l; [by apply (rs_served _ 0 (TermPid 4711) false)|]. eapply rtc_l; [by apply rs_close|].
  eapply rtc_l; [by apply rs_drain|]. apply rtc_refl.
Qed.

Lemma route_spec_witness : routed one_run ∧ map fst (rt_replies one_run) ≡ₚ seq 0 2.
Proof.
  split; [apply one_run_reached|]. destruct (route_spec one_run one_run_reached) as (_ & _ & _ & H & _). by apply H.
Defined.

Definition python_terminal : RunInTerminalArgs :=
  mkTerminalArgs "integrated" "" "/work" ["/usr/bin/python3"; "app.py"]%string [("LANG"%string, VString "C"); ("FOO"%string, VNull)] false.
Example python_asked : (runInTerminal "linux" python_terminal noTerminal).1
  = inr (mkTerminalBody 1 "eyedbg" "/work" ["/usr/bin/python3"; "app.py"]%string [("LANG"%string, Some "C"%string); ("FOO"%string, None)]).
Proof. vm_compute. reflexivity. Qed.
Example unc_refused : checkTerminal (python_terminal <| ta_Cwd := "//server/share"%string |>) "linux"
  = inl "rule 6: its program and working directory must be local absolute paths"%string.
Proof. vm_compute. reflexivity. Qed.
