(* ===== verification/BuildOutput.v ===== *)
(** * A launch's build output (internal/facade/launch.go)

    What a build writes, in chunks of any size, becomes lines on the editor's
    console, within bounds. A writer's state with the events it sent so far;
    whether the connection still takes them is the connection's. *)

From S2P Require Import Prelude GoStrings Present EditorEvents.
From Stdlib Require Import Ascii Bool.

Open Scope Z_scope.

Definition maxBuildLine : Z := 4096.
Definition maxBuildLines : Z := 10000.
Definition maxBuildBytes : Z := 2 ^ 20.
Definition UTFMax : Z := 4.

Record buildOutput := mkBuild {
  bo_line : string; bo_cut : bool; bo_lines : Z; bo_bytes : Z; bo_done : bool; bo_sent : list dapEvent }.
#[global] Instance eta_buildOutput : Eta buildOutput := fun r =>
  mkBuild (bo_line r) (bo_cut r) (bo_lines r) (bo_bytes r) (bo_done r) (bo_sent r).
Definition newBuildOutput : buildOutput := mkBuild "" false 0 0 false [].

Definition nl : ascii := ascii_of 10.
Definition carriage_return : string := String (ascii_of 13) "".

(** [add] *)
Definition room (o : buildOutput) : Z := maxBuildLine + UTFMax - slen (bo_line o).
Definition add (b : string) (o : buildOutput) : buildOutput :=
  if room o <? slen b then o <| bo_line ::= fun l => l +:+ stake (Z.to_nat (room o)) b |> <| bo_cut := true |>
  else o <| bo_line ::= fun l => l +:+ b |>.

(** The text [emit] shows of a line. *)
Definition cut_line (line : string) (cut : bool) : string :=
  let line := trim_suffix carriage_return line in
  if cut || (maxBuildLine <? slen line)
  then stake (prev_boundary line (Z.to_nat (Z.min (slen line) maxBuildLine))) line +:+ ellipsis
  else line.
Definition moreOutput : dapEvent := consoleLine "more build output isn't shown".
Definition lineEvent (text : string) : dapEvent := outputEvent "console" (text +:+ String nl "").
Definition emit (o : buildOutput) : buildOutput :=
  let text := cut_line (bo_line o) (bo_cut o) in
  let o := o <| bo_line := ""%string |> <| bo_cut := false |> in
  if (maxBuildLines <? bo_lines o + 1) || (maxBuildBytes <? bo_bytes o + slen text)
  then o <| bo_done := true |> <| bo_sent ::= fun l => l ++ [moreOutput] |>
  else o <| bo_lines ::= Z.succ |> <| bo_bytes ::= fun n => n + slen text |>
         <| bo_sent ::= fun l => l ++ [lineEvent text] |>.

(** [Write]: the chunk at its newlines; every piece but the last ends a line. *)
Fixpoint write_pieces (ps : list string) (o : buildOutput) : buildOutput :=
  match ps with
  | [] => o
  | [p] => if bo_done o then o else add p o
  | p :: ps => if bo_done o then o else write_pieces ps (emit (add p o))
  end.
Definition Write (p : string) (o : buildOutput) : buildOutput := write_pieces (split_on nl p) o.

Definition finish (o : buildOutput) : buildOutput :=
  let o := if negb (bo_done o) && (negb (bo_line o =?s "") || bo_cut o) then emit o else o in
  o <| bo_done := true |>.

(** ** The reference

    The lines of the whole output, each cut alone, up to the bounds. *)
Definition build_lines (s : string) : list string :=
  let ps := split_on nl s in
  removelast ps ++ (if List.last ps "" =?s "" then [] else [List.last ps ""%string]).
(** A line as it is shown. *)
Definition shown_line (l : string) : string :=
  let most := maxBuildLine + UTFMax in
  cut_line (stake (Z.to_nat most) l) (most <? slen l).
Fixpoint show_lines (ls : list string) (n bytes : Z) : list dapEvent :=
  match ls with
  | [] => []
  | l :: ls =>
    let text := shown_line l in
    if (maxBuildLines <? n + 1) || (maxBuildBytes <? bytes + slen text) then [moreOutput]
    else lineEvent text :: show_lines ls (n + 1) (bytes + slen text)
  end.

(** ** Chunks do not matter *)

Definition most : Z := maxBuildLine + UTFMax.
(** The line so far is what is kept of [l]. *)
Definition line_is (l : string) (o : buildOutput) : Prop :=
  bo_line o = stake (Z.to_nat most) l ∧ bo_cut o = (most <? slen l).

Lemma stake_whole n s : (String.length s ≤ n)%nat → stake n s = s.
Proof. revert n. induction s as [|c s IH]; intros [|n] H; cbn in *; try done; [lia|]. f_equal. apply IH. lia. Qed.

Lemma stake_app_more n s t : (String.length s ≤ n)%nat → stake n (s +:+ t) = s +:+ stake (n - String.length s) t.
Proof. revert n. induction s as [|c s IH]; intros [|n] H; cbn in *; try done; [lia|]. f_equal. apply IH. lia. Qed.

Lemma stake_app_less n s t : (n ≤ String.length s)%nat → stake n (s +:+ t) = stake n s.
Proof. revert n. induction s as [|c s IH]; intros [|n] H; cbn in *; try done; [lia|]. f_equal. apply IH. lia. Qed.

Lemma add_line l b o : line_is l o → line_is (l +:+ b) (add b o).
Proof.
  intros [Hl Hc]. unfold line_is, add, room. fold most. rewrite Hl.
  assert (Hlen : slen (stake (Z.to_nat most) l) = Z.min most (slen l)).
  { unfold slen. rewrite stake_length. assert (0 ≤ most) by (unfold most, maxBuildLine, UTFMax; lia). lia. }
  assert (Hslen : slen (l +:+ b) = slen l + slen b) by (unfold slen; rewrite string_app_length; lia).
  rewrite Hlen, Hslen. assert (0 ≤ most ∧ 0 ≤ slen l ∧ 0 ≤ slen b) by (unfold most, maxBuildLine, UTFMax, slen; lia).
  destruct (most <? slen l) eqn:E.
  - destruct (_ <? slen b) eqn:E2; cbn; rewrite ?Hl, ?Hc; (split; [|lia]).
    + rewrite stake_app_less by (unfold slen in *; lia). replace (most - Z.min most (slen l)) with 0 by lia. cbn. apply string_app_nil_r.
    + assert (Hb : slen b = 0) by lia. assert (b = ""%string) as ->; [destruct b; [done|unfold slen in Hb; cbn [String.length] in Hb; lia]|]. by rewrite !string_app_nil_r.
  - rewrite Z.min_r by lia.
    destruct (_ <? slen b) eqn:E2; cbn; rewrite ?Hl, ?Hc; rewrite (stake_whole _ l) by (unfold slen in *; lia); (split; [|lia]).
    + rewrite stake_app_more by (unfold slen in *; lia). f_equal. f_equal. unfold slen in *. lia.
    + rewrite stake_whole; [done|]. rewrite string_app_length. unfold slen in *. lia.
Qed.

Lemma cut_line_shown l o : line_is l o → cut_line (bo_line o) (bo_cut o) = shown_line l.
Proof. intros [-> ->]. done. Qed.

(** The state between lines, and with a line begun. *)
Definition clean (o : buildOutput) : Prop := bo_line o = ""%string ∧ bo_cut o = false.
Definition with_line (l : string) (o : buildOutput) : buildOutput :=
  if bo_done o then o else o <| bo_line := stake (Z.to_nat most) l |> <| bo_cut := most <? slen l |>.
Definition put_line (o : buildOutput) (l : string) : buildOutput := if bo_done o then o else emit (with_line l o).
Definition put_lines (ls : list string) (o : buildOutput) : buildOutput := fold_left put_line ls o.

Lemma with_nothing o : clean o → with_line "" o = o.
Proof. intros [H1 H2]. unfold with_line. destruct (bo_done o); [done|]. destruct o; cbn in *. by subst. Qed.

Lemma emit_clean o : clean (emit o).
Proof. unfold emit. by destruct (_ || _). Qed.

Lemma put_line_clean l o : clean o → clean (put_line o l).
Proof. intros H. unfold put_line. destruct (bo_done o); [done|apply emit_clean]. Qed.

Lemma put_lines_clean ls o : clean o → clean (put_lines ls o).
Proof. revert o. induction ls as [|l ls IH]; intros o H; [done|]. by apply IH, put_line_clean. Qed.

Lemma put_done ls o : bo_done o = true → put_lines ls o = o.
Proof. intros H. induction ls as [|l ls IH]; [done|]. cbn. unfold put_line at 2. by rewrite H. Qed.

Lemma add_fields p o : add p o = o <| bo_line := bo_line (add p o) |> <| bo_cut := bo_cut (add p o) |>.
Proof. unfold add. destruct (_ <? _); by destruct o. Qed.

Lemma add_with_line l p o : bo_done o = false → add p (with_line l o) = with_line (l +:+ p) o.
Proof.
  intros Hd. assert (H : line_is (l +:+ p) (add p (with_line l o))).
  { apply add_line. unfold with_line. rewrite Hd. done. }
  destruct H as [H1 H2]. rewrite add_fields, H1, H2. unfold with_line. by rewrite Hd.
Qed.

(** A chunk after a line begun with [l]. *)
Lemma write_pieces_spec p ps l o :
  clean o →
  write_pieces (p :: ps) (with_line l o)
  = with_line (List.last ((l +:+ p) :: ps) "") (put_lines (removelast ((l +:+ p) :: ps)) o).
Proof.
  revert p l o. induction ps as [|p2 ps IH]; intros p l o Hc.
  - cbn [write_pieces removelast List.last put_lines fold_left]. destruct (bo_done o) eqn:Hd.
    + unfold with_line. by rewrite Hd, Hd.
    + assert (bo_done (with_line l o) = false) as -> by (unfold with_line; by rewrite Hd). by apply add_with_line.
  - destruct (bo_done o) eqn:Hd.
    + rewrite put_done by done. unfold with_line. rewrite Hd. cbn. by rewrite Hd.
    + assert (bo_done (with_line l o) = false) as Hd' by (unfold with_line; by rewrite Hd).
      change (write_pieces (p :: p2 :: ps) (with_line l o)) with
        (if bo_done (with_line l o) then with_line l o else write_pieces (p2 :: ps) (emit (add p (with_line l o)))).
      rewrite Hd', add_with_line by done.
      assert (He : emit (with_line (l +:+ p) o) = put_line o (l +:+ p)) by (unfold put_line; by rewrite Hd). rewrite He.
      rewrite <- (with_nothing (put_line o (l +:+ p))) by (by apply put_line_clean).
      rewrite IH by (by apply put_line_clean). done.
Qed.

Lemma split_on_chunks s q :
  ∃ ps p qs, split_on nl s = ps ++ [p] ∧ split_on nl q = qs ∧ split_on nl (s +:+ q) = ps ++ match qs with q :: qs => (p +:+ q) :: qs | [] => [p] end.
Proof.
  induction s as [|c s (ps & p & qs & Hs & Hq & Hsq)].
  - exists [], ""%string, (split_on nl q). cbn. split_and!; [done..|]. by destruct (split_on _ q) eqn:E; [apply split_on_nonempty in E|].
  - cbn [String.append split_on]. rewrite Hs, Hsq. destruct (Ascii.eqb nl c) eqn:Ec.
    + exists (""%string :: ps), p, qs. cbn. split_and!; done.
    + destruct ps as [|p1 ps]; cbn.
      * exists [], (String c p), qs. split_and!; [done..|]. destruct qs; done.
      * exists (String c p1 :: ps), p, qs. split_and!; done.
Qed.

Lemma last_app_cons (ps : list string) x l d : List.last (ps ++ x :: l) d = List.last (x :: l) d.
Proof. induction ps as [|y ps IH]; [done|]. cbn [app]. rewrite <- IH. cbn. by destruct (ps ++ x :: l) eqn:E; [destruct ps|]. Qed.

(** What the writer is after the whole of [s]. *)
Definition written (s : string) : buildOutput :=
  let ps := split_on nl s in with_line (List.last ps "") (put_lines (removelast ps) newBuildOutput).

Lemma Write_written s q : Write q (written s) = written (s +:+ q).
Proof.
  destruct (split_on_chunks s q) as (ps & p & qs & Hs & Hq & Hsq). unfold written, Write. rewrite Hs, Hsq, Hq.
  rewrite List.last_last, removelast_last. destruct qs as [|q1 qs]; [by apply split_on_nonempty in Hq|].
  rewrite write_pieces_spec by (by apply put_lines_clean).
  rewrite removelast_app, last_app_cons by done. unfold put_lines. by rewrite fold_left_app.
Qed.

Lemma writes_written chunks : fold_left (fun o p => Write p o) chunks newBuildOutput = written (String.concat "" chunks).
Proof.
  assert (H : ∀ s, fold_left (fun o p => Write p o) chunks (written s) = written (s +:+ String.concat "" chunks)).
  { induction chunks as [|c cs IH]; intros s; cbn [fold_left]; [cbn; by rewrite string_app_nil_r|]. rewrite Write_written, IH, string_app_assoc.
    f_equal. f_equal. cbn. destruct cs; cbn; [apply string_app_nil_r|done]. }
  apply (H ""%string).
Qed.

(** ** The lines shown *)

Lemma emit_shown l o :
  bo_done o = false →
  bo_sent (emit (with_line l o)) = bo_sent o ++ (if (maxBuildLines <? bo_lines o + 1) || (maxBuildBytes <? bo_bytes o + slen (shown_line l))
                                                 then [moreOutput] else [lineEvent (shown_line l)])
  ∧ bo_done (emit (with_line l o)) = ((maxBuildLines <? bo_lines o + 1) || (maxBuildBytes <? bo_bytes o + slen (shown_line l)))
  ∧ (bo_done (emit (with_line l o)) = false →
     bo_lines (emit (with_line l o)) = bo_lines o + 1 ∧ bo_bytes (emit (with_line l o)) = bo_bytes o + slen (shown_line l)).
Proof.
  intros Hd. unfold emit, with_line. rewrite Hd. cbn [bo_line bo_cut]. unfold shown_line. fold most.
  change (bo_lines (o <| bo_line := _ |> <| bo_cut := _ |> <| bo_line := _ |> <| bo_cut := _ |>)) with (bo_lines o).
  set (text := cut_line _ _). destruct (_ || _) eqn:E; cbn in *; rewrite ?E; split_and!; try done; rewrite ?Hd; done.
Qed.

Lemma put_lines_sent ls o :
  bo_sent (put_lines ls o) = bo_sent o ++ (if bo_done o then [] else show_lines ls (bo_lines o) (bo_bytes o)).
Proof.
  revert o. induction ls as [|l ls IH]; intros o; cbn [put_lines fold_left show_lines]; [destruct (bo_done o); by rewrite app_nil_r|].
  fold (put_lines ls (put_line o l)). rewrite IH. unfold put_line. destruct (bo_done o) eqn:Hd; [by rewrite Hd|].
  destruct (emit_shown l o Hd) as (H1 & H2 & H3). rewrite H1, <- app_assoc. f_equal. rewrite H2 in *.
  destruct (_ || _) eqn:E; [done|]. destruct (H3 eq_refl) as [-> ->]. done.
Qed.

Lemma finish_written s : bo_sent (finish (written s)) = show_lines (build_lines s) 0 0.
Proof.
  unfold written, build_lines. cbn zeta. set (ps := split_on nl s). set (o := put_lines (removelast ps) newBuildOutput).
  set (l := List.last ps ""%string).
  assert (Ho : clean o) by (by apply put_lines_clean).
  assert (Hsent : ∀ ls, bo_sent (put_lines ls o) = show_lines (removelast ps ++ ls) 0 0).
  { intros ls. unfold o, put_lines. rewrite <- fold_left_app. apply (put_lines_sent _ newBuildOutput). }
  assert (Hfin : bo_sent (finish (with_line l o)) = bo_sent (put_lines (if l =?s "" then [] else [l]) o)); [|by rewrite Hfin, Hsent].
  unfold finish. cbn [bo_sent]. destruct (bo_done o) eqn:Hd.
  - rewrite put_done by done. unfold with_line. by rewrite Hd, Hd.
  - assert (Hw : bo_done (with_line l o) = false) by (unfold with_line; by rewrite Hd).
    assert (Hlc : negb (bo_line (with_line l o) =?s "") || bo_cut (with_line l o) = negb (l =?s "")).
    { unfold with_line. rewrite Hd. cbn. destruct l as [|c l']; [done|]. done. }
    rewrite Hw, Hlc. cbn [negb andb]. destruct (l =?s "") eqn:El; cbn [negb].
    + apply String.eqb_eq in El. rewrite El, with_nothing by done. done.
    + cbn. unfold put_line. by rewrite Hd.
Qed.

Lemma shown_line_length l : slen (shown_line l) ≤ maxBuildLine + 3.
Proof.
  unfold shown_line, cut_line. set (line := trim_suffix _ _). destruct (_ || _) eqn:E.
  - assert (Hp : (prev_boundary line (Z.to_nat (Z.min (slen line) maxBuildLine)) ≤ Z.to_nat (Z.min (slen line) maxBuildLine))%nat)
      by apply prev_boundary_spec.
    unfold slen. rewrite string_app_length, stake_length. change (String.length ellipsis) with 3%nat.
    unfold slen in *. unfold maxBuildLine in *. lia.
  - apply orb_false_iff in E as [_ E]. lia.
Qed.

(** The bytes of the first [k] lines as they are shown. *)
Definition bytes_of (k : nat) (ls : list string) : Z := list_sum_Z (fun l => slen (shown_line l)) (take k ls).

(** The lines shown are the longest prefix within both bounds. *)
Lemma show_lines_prefix ls n b :
  n ≤ maxBuildLines → b ≤ maxBuildBytes →
  ∃ k, (k ≤ length ls)%nat ∧ n + Z.of_nat k ≤ maxBuildLines ∧ b + bytes_of k ls ≤ maxBuildBytes
    ∧ show_lines ls n b = map (fun l => lineEvent (shown_line l)) (take k ls)
                          ++ (if (k <? length ls)%nat then [moreOutput] else [])
    ∧ ((k < length ls)%nat → n + Z.of_nat k = maxBuildLines ∨ maxBuildBytes < b + bytes_of (S k) ls).
Proof.
  revert n b. induction ls as [|l ls IH]; intros n b Hn Hb; cbn [show_lines].
  - exists 0%nat. split_and!; cbn; try lia. done.
  - destruct (_ || _) eqn:E.
    + exists 0%nat. split_and!; cbn -[Z.add]; try lia; [done|]. intros _. apply orb_true_iff in E as [E|E]; [left; lia|right].
      unfold bytes_of. cbn. rewrite take_0. cbn. lia.
    + apply orb_false_iff in E as [E1 E2].
      destruct (IH (n + 1) (b + slen (shown_line l))) as (k & Hk & Hkn & Hkb & Hs & Hmax); [lia|lia|].
      assert (Hbytes : ∀ j, bytes_of (S j) (l :: ls) = slen (shown_line l) + bytes_of j ls) by done.
      exists (S k). rewrite !Hbytes. split_and!; [cbn; lia|lia|lia| |].
      * cbn. by rewrite Hs.
      * cbn [length]. intros Hlt. destruct Hmax as [?|?]; [lia|left; lia|right; lia].
Qed.

(** However a build's output comes in chunks, the editor's console shows
    its lines, each cut alone (at a rune's start, to 4096 bytes and an
    ellipsis): the longest prefix of them within 10,000 lines and 1 MiB, and
    one line more when there were others. *)
Theorem buildOutput_spec chunks :
  let ls := build_lines (String.concat "" chunks) in
  ∃ k, (k ≤ length ls)%nat ∧ Z.of_nat k ≤ 10000 ∧ bytes_of k ls ≤ 1048576
    ∧ bo_sent (finish (fold_left (fun o p => Write p o) chunks newBuildOutput))
      = map (fun l => lineEvent (shown_line l)) (take k ls) ++ (if (k <? length ls)%nat then [moreOutput] else [])
    ∧ ((k < length ls)%nat → Z.of_nat k = 10000 ∨ 1048576 < bytes_of (S k) ls)
    ∧ (∀ l, slen (shown_line l) ≤ 4099) ∧ (∀ l, slen l ≤ 4096 → has_suffix carriage_return l = false → shown_line l = l).
Proof.
  cbn zeta. rewrite writes_written, finish_written.
  destruct (show_lines_prefix (build_lines (String.concat "" chunks)) 0 0) as (k & Hk & Hn & Hb & Hs & Hmax); [done|done|].
  exists k. split_and!; [done|exact Hn|exact Hb|done|exact Hmax|exact shown_line_length|].
  intros l Hl Hcr. unfold shown_line, cut_line. unfold slen in Hl. rewrite stake_whole by (change (Z.to_nat _) with 4100%nat; lia).
  assert (trim_suffix carriage_return l = l) as -> by (unfold trim_suffix; by rewrite Hcr).
  unfold slen. unfold maxBuildLine, UTFMax. destruct (_ || _) eqn:E; [|done].
  apply orb_true_iff in E as [E|E]; lia.
Qed.

Example build_shown :
  map (fun e => match e with OutputEvent _ t => t | _ => ""%string end)
    (bo_sent (finish (fold_left (fun o p => Write p o) ["Restor"; "ing" +:+ String nl "Build "; "done"]%string newBuildOutput)))
  = ["Restoring" +:+ String nl ""; "Build done" +:+ String nl ""]%string.
Proof. vm_compute. reflexivity. Qed.
