(* ===== verification/LaunchArgs.v ===== *)
(** * A launch request's arguments (internal/facade/launch.go)

    The arguments an editor sends with launch, checked and turned into the
    parameters of a start. Reading JSON is the decoder's: the arguments are
    a list of keys, each with what its value decodes to ([None]: a value the
    decoder refuses), an object's members in the order in which the map is
    walked. The path functions are the host's. *)

From S2P Require Import Prelude GoStrings GoPath Api PathMap Message Session Manager Manifest Generic Terminal.
From Stdlib Require Import Ascii Bool.
Open Scope Z_scope.

(** What the daemon adds to a launch (internal/api/facade.go). *)
Record FacadeLaunch := mkFacadeLaunch {
  d_ClientDir : string; d_VirtualEnv : string; d_NoRecord : bool; d_DotnetAdapter : string }.

(** The host's [filepath] functions. *)
Class PathFns := mkPathFns {
  goos : string; IsAbs : string → bool; VolumeName : string → string; FJoin : string → string → string }.
(** What is used of them: joining to an absolute directory gives an absolute path. *)
Class PathLaws (P : PathFns) : Prop := {
  Volume_windows p : goos ≠ goosWindows → VolumeName p = ""%string;
  Join_abs dir p : IsAbs dir = true → VolumeName p = ""%string → IsAbs (FJoin dir p) = true }.

Definition unixPaths : PathFns := mkPathFns "linux" is_abs (fun _ => ""%string) Join.
#[global] Instance unixPaths_laws : PathLaws unixPaths.
Proof.
  constructor; [done|]. cbn. intros dir p H _. unfold Join. assert ((dir =?s "") = false) as -> by (by destruct dir).
  assert (∀ q, is_abs q = true → is_abs (Clean q) = true) as Hc by (intros q Hq; by rewrite (Clean_rooted _ Hq)).
  destruct (p =?s ""); apply Hc; [done|]. unfold is_abs in *. by apply has_prefix_more.
Qed.

(** ** Names *)

Definition langDotnet : string := "dotnet".
Definition argLang : string := "lang".
Definition argProgram : string := "program".
Definition argProject : string := "project".
Definition argCwd : string := "cwd".
Definition argArgs : string := "args".
Definition argEnv : string := "env".
Definition argOpts : string := "opts".
Definition argStopOnEntry : string := "stopOnEntry".
Definition argNoBuild : string := "noBuild".
Definition argLeasePolicy : string := "leasePolicy".
Definition argExceptions : string := "exceptions".
Definition argAdapter : string := "adapter".
Definition argConsole : string := "console".
Definition launchNames : list string :=
  [argLang; argProgram; argProject; argCwd; argArgs; argEnv; argOpts; argStopOnEntry; argNoBuild;
   argLeasePolicy; argExceptions; argAdapter; argConsole].

(** [strings.EqualFold], exact where one side is ASCII: the runes that fold
    to an ASCII letter are its two cases, U+212A (k) and U+017F (s). *)
Definition fold_rune (r : Z) : Z :=
  if (65 <=? r) && (r <=? 90) then r + 32 else if r =? 8490 then 107 else if r =? 383 then 115 else r.
Definition EqualFold (a b : string) : bool := bool_decide (map fold_rune (runes a) = map fold_rune (runes b)).

Definition launchKey (k : string) : option string := List.find (EqualFold k) launchNames.

Definition lower_or_digit (r : Z) : bool := ((97 <=? r) && (r <=? 122)) || ((48 <=? r) && (r <=? 57)).
Definition isName (s extra : string) : bool :=
  match s with
  | "" => false
  | String c _ =>
    if (32 <? slen s) || (byte_of c <? 97) || (122 <? byte_of c) then false
    else forallb (fun r => lower_or_digit r || bool_decide (r ∈ runes extra)) (runes s)
  end.

(** ** Values *)

Definition invalidLaunch (msg : string) : Error := NewError CodeInvalidRequest msg.
Definition argument (name what : string) : Error := invalidLaunch ("launch argument " +:+ name +:+ what).
Definition holds_nul (s : string) : bool := contains_byte (ascii_of 0) s.

Definition noNUL (name s : string) : result unit :=
  if holds_nul s then Err (argument name " holds a NUL character") else Ok ().
Definition stringArg (name : string) (v : value) : result string :=
  match v with
  | VString s => try _ := noNUL name s in Ok s
  | _ => Err (argument name " must be a string")
  end.
Fixpoint strings_of (name : string) (l : list value) : result (list string) :=
  match l with
  | [] => Ok []
  | VString s :: l => try _ := noNUL name s in try out := strings_of name l in Ok (s :: out)
  | _ :: _ => Err (argument name " must be a list of strings")
  end.
Definition stringsArg (name : string) (v : value) : result (list string) :=
  match v with VArray l => strings_of name l | _ => Err (argument name " must be a list of strings") end.
Fixpoint members_of (name : string) (l : list (string * value)) : result (list (string * string)) :=
  match l with
  | [] => Ok []
  | (k, VString s) :: l =>
    try _ := noNUL name (k +:+ s) in
    if (k =?s "") || contains_byte "=" k
    then Err (argument name (" has an empty name or one holding " +:+ dquote +:+ "=" +:+ dquote))
    else try out := members_of name l in Ok ((k, s) :: out)
  | _ :: _ => Err (argument name " must be an object of strings")
  end.
Definition mapArg (name : string) (v : value) : result (list (string * string)) :=
  match v with VObject m => members_of name m | _ => Err (argument name " must be an object of strings") end.
Definition boolArg (name : string) (v : value) : result bool :=
  match v with VBool b => Ok b | _ => Err (argument name " must be true or false") end.

(** ** The arguments *)

Record launchArgs := mkLaunchArgs {
  la_lang : string; la_program : string; la_project : string; la_cwd : string; la_leasePolicy : string;
  la_exceptions : string; la_adapter : string; la_console : string; la_args : list string;
  la_env : list (string * string); la_opts : list (string * string); la_stopOnEntry : bool; la_noBuild : bool }.
#[global] Instance eta_launchArgs : Eta launchArgs := fun r =>
  mkLaunchArgs (la_lang r) (la_program r) (la_project r) (la_cwd r) (la_leasePolicy r) (la_exceptions r)
    (la_adapter r) (la_console r) (la_args r) (la_env r) (la_opts r) (la_stopOnEntry r) (la_noBuild r).
Definition noArgs : launchArgs := mkLaunchArgs "" "" "" "" "" "" "" "" [] [] [] false false.

Definition set (name : string) (v : option value) (a : launchArgs) : result launchArgs :=
  match v with
  | None => Err (argument name " is not valid JSON")
  | Some v =>
    if name =?s argLang then try s := stringArg name v in Ok (a <| la_lang := s |>)
    else if name =?s argProgram then try s := stringArg name v in Ok (a <| la_program := s |>)
    else if name =?s argProject then try s := stringArg name v in Ok (a <| la_project := s |>)
    else if name =?s argCwd then try s := stringArg name v in Ok (a <| la_cwd := s |>)
    else if name =?s argLeasePolicy then try s := stringArg name v in Ok (a <| la_leasePolicy := s |>)
    else if name =?s argExceptions then try s := stringArg name v in Ok (a <| la_exceptions := s |>)
    else if name =?s argAdapter then try s := stringArg name v in Ok (a <| la_adapter := s |>)
    else if name =?s argConsole then try s := stringArg name v in Ok (a <| la_console := s |>)
    else if name =?s argArgs then try l := stringsArg name v in Ok (a <| la_args := l |>)
    else if name =?s argEnv then try m := mapArg name v in Ok (a <| la_env := m |>)
    else if name =?s argOpts then try m := mapArg name v in Ok (a <| la_opts := m |>)
    else if name =?s argStopOnEntry then try b := boolArg name v in Ok (a <| la_stopOnEntry := b |>)
    else if name =?s argNoBuild then try b := boolArg name v in Ok (a <| la_noBuild := b |>)
    else Ok a
  end.

Definition consoleInternal : string := "internalConsole".
Definition consoleTerminal : string := "integratedTerminal".
Definition check (a : launchArgs) : result unit :=
  if negb (la_console a =?s "") && negb (la_console a =?s consoleInternal) && negb (la_console a =?s consoleTerminal)
  then Err (invalidLaunch "launch argument console must be internalConsole or integratedTerminal")
  else if la_lang a =?s "" then Err (invalidLaunch "launch needs lang (dotnet, python, ...: see 'eyedbg adapters ls')")
  else if negb (isName (la_lang a) "_+-")
  then Err (invalidLaunch "launch argument lang must be a language name: lowercase letters, digits and _ + -, up to 32")
  else if negb (la_adapter a =?s "") && negb (isName (la_adapter a) "-")
  then Err (invalidLaunch "launch argument adapter must be an adapter name: lowercase letters, digits and -, up to 32")
  else Ok ().

(** One known key after another, in sorted order. *)
Fixpoint read_keys (fields : list (string * option value)) (ks : list string) (a : launchArgs) : result launchArgs :=
  match ks with
  | [] => Ok a
  | k :: ks =>
    match launchKey k with
    | None => read_keys fields ks a
    | Some name =>
      if negb (name =?s k)
      then Err (invalidLaunch ("launch argument " +:+ quote k +:+ ": did you mean " +:+ quote name
                               +:+ "? (names are case-sensitive)"))
      else try a := set name (default None (assoc k fields)) a in read_keys fields ks a
    end
  end.

Section paths.
Context {P : PathFns}.

Definition drive_relative (p : string) : bool :=
  negb (VolumeName p =?s "") || has_prefix (String (ascii_of 92) "") p || has_prefix "/" p.
Definition resolvePath (dir p : string) : result string :=
  if (p =?s "") || IsAbs p then Ok p
  else if (goos =?s goosWindows) && drive_relative p
  then Err (invalidLaunch ("launch path " +:+ p +:+ " is relative to a drive or its root: give it in full"))
  else Ok (FJoin dir p).

Definition params (a : launchArgs) (d : FacadeLaunch) : result StartParams :=
  try program := resolvePath (d_ClientDir d) (la_program a) in
  try project := resolvePath (d_ClientDir d) (la_project a) in
  try cwd := resolvePath (d_ClientDir d) (la_cwd a) in
  let project := if (program =?s "") && (project =?s "") then d_ClientDir d else project in
  let adapter := if (la_adapter a =?s "") && (la_lang a =?s langDotnet) then d_DotnetAdapter d else la_adapter a in
  Ok (mkStartParams
        (mkLaunchSpec project program (la_args a) cwd (la_env a) (la_noBuild a) (la_stopOnEntry a) (la_opts a)
           (d_ClientDir d) (d_VirtualEnv d))
        (la_lang a) [] (la_leasePolicy a) (d_NoRecord d) (la_exceptions a) None None None adapter "").

(** [None]: the arguments are no object. *)
Definition launchParams (fields : option (list (string * option value))) (d : FacadeLaunch)
    : result (StartParams * bool) :=
  match fields with
  | None => Err (invalidLaunch "launch needs its arguments as an object, with lang at least")
  | Some fields =>
    try a := read_keys fields (merge_sort string_le (map fst fields)) noArgs in
    try _ := check a in
    try p := params a d in
    Ok (p, la_console a =?s consoleTerminal)
  end.
End paths.

(** ** What a launch's arguments say, read by name

    The reference: each known name's value, and what makes the arguments
    acceptable, whatever the order of the keys. *)

Section reading.
Variable fields : list (string * option value).

Definition the_value (name : string) : option value := default None (assoc name fields).
Definition the_string (name : string) : string := match the_value name with Some (VString s) => s | _ => "" end.
Definition the_strings (name : string) : list string :=
  match the_value name with
  | Some (VArray l) => omap (fun v => match v with VString s => Some s | _ => None end) l
  | _ => []
  end.
Definition the_map (name : string) : list (string * string) :=
  match the_value name with
  | Some (VObject m) => omap (fun x => match x.2 with VString s => Some (x.1, s) | _ => None end) m
  | _ => []
  end.
Definition the_bool (name : string) : bool := match the_value name with Some (VBool b) => b | _ => false end.
Definition read_args : launchArgs :=
  mkLaunchArgs (the_string argLang) (the_string argProgram) (the_string argProject) (the_string argCwd)
    (the_string argLeasePolicy) (the_string argExceptions) (the_string argAdapter) (the_string argConsole)
    (the_strings argArgs) (the_map argEnv) (the_map argOpts) (the_bool argStopOnEntry) (the_bool argNoBuild).

Definition text_ok (v : value) : bool := match v with VString s => negb (holds_nul s) | _ => false end.
Definition member_ok (x : string * value) : bool :=
  text_ok x.2 && negb (holds_nul x.1) && negb (x.1 =?s "") && negb (contains_byte "=" x.1).
(** The value has the type of its argument. *)
Definition typed (name : string) (v : value) : bool :=
  if bool_decide (name ∈ [argArgs]) then match v with VArray l => forallb text_ok l | _ => false end
  else if bool_decide (name ∈ [argEnv; argOpts]) then match v with VObject m => forallb member_ok m | _ => false end
  else if bool_decide (name ∈ [argStopOnEntry; argNoBuild]) then match v with VBool _ => true | _ => false end
  else text_ok v.
Definition field_ok (x : string * option value) : bool :=
  match launchKey x.1 with
  | None => true
  | Some name => (name =?s x.1) && match x.2 with Some v => typed name v | None => false end
  end.
End reading.

(** * What an accepted launch asks for

    Reading the sorted keys one after another gives each argument the value
    of its own name, and refuses exactly the arguments that are not
    acceptable, whatever their order. *)

Open Scope Z_scope.

Definition invalid_request (e : Error) : Prop := e_code e = CodeInvalidRequest.

(** ** Values *)

Lemma noNUL_spec name s : noNUL name s = if holds_nul s then Err (argument name " holds a NUL character") else Ok ().
Proof. done. Qed.



Lemma strings_of_spec name l :
  match strings_of name l with
  | Ok out => forallb text_ok l = true ∧ out = omap (fun v => match v with VString s => Some s | _ => None end) l
  | Err e => forallb text_ok l = false ∧ invalid_request e
  end.
Proof.
  induction l as [|v l IH]; [done|]. destruct v as [| | |s| | | | |]; try by (split; [|done]).
  cbn. unfold noNUL. destruct (holds_nul s) eqn:Hs; cbn; [by split|].
  destruct (strings_of name l) as [out|e]; cbn; [destruct IH as [-> ->]|destruct IH as [-> He]]; by split.
Qed.

Lemma member_ok_text k s :
  member_ok (k, VString s)
  = negb (holds_nul s) && negb (holds_nul k) && negb (k =?s "") && negb (contains_byte "=" k).
Proof. done. Qed.

Lemma members_of_spec name l :
  match members_of name l with
  | Ok out => forallb member_ok l = true ∧
              out = omap (fun x => match x.2 with VString s => Some (x.1, s) | _ => None end) l
  | Err e => forallb member_ok l = false ∧ invalid_request e
  end.
Proof.
  induction l as [|[k v] l IH]; [done|]. destruct v as [| | |s| | | | |]; try by (split; [|done]).
  cbn -[member_ok noNUL dquote]. unfold noNUL, holds_nul. rewrite contains_byte_app.
  rewrite member_ok_text. unfold holds_nul.
  destruct (contains_byte (ascii_of 0) s), (contains_byte (ascii_of 0) k), (k =?s ""), (contains_byte "=" k);
    cbn -[contains_byte members_of]; try done.
  destruct (members_of name l) as [out|e]; cbn; [destruct IH as [-> ->]|destruct IH as [-> He]]; by split.
Qed.

(** ** Setting one argument *)

Lemma launchKey_known k n : launchKey k = Some n → n ∈ launchNames.
Proof. intros H. apply List.find_some in H as [H _]. by apply list_elem_of_In. Qed.

Lemma launchKey_unknown k : launchKey k = None → k ∉ launchNames.
Proof.
  intros H Hk. apply list_elem_of_In in Hk. apply (List.find_none _ _ H) in Hk.
  unfold EqualFold in Hk. by rewrite bool_decide_eq_false in Hk.
Qed.

(** What reading one value comes to. *)
Definition accepts (r : result launchArgs) (ok : bool) : Prop :=
  match r with Ok _ => ok = true | Err e => ok = false ∧ invalid_request e end.

Lemma string_case name v (f : string → launchArgs) : accepts (try s := stringArg name v in Ok (f s)) (text_ok v).
Proof.
  destruct v as [| | |s| | | | |]; try by split. cbn -[holds_nul]. unfold noNUL. by destruct (holds_nul s).
Qed.
Lemma strings_case name v (f : list string → launchArgs) :
  accepts (try l := stringsArg name v in Ok (f l)) match v with VArray l => forallb text_ok l | _ => false end.
Proof.
  destruct v as [| | | |l| | | |]; try by split. cbn -[strings_of]. pose proof (strings_of_spec name l) as H.
  destruct (strings_of name l); cbn -[text_ok]; tauto.
Qed.
Lemma map_case name v (f : list (string * string) → launchArgs) :
  accepts (try l := mapArg name v in Ok (f l)) match v with VObject m => forallb member_ok m | _ => false end.
Proof.
  destruct v as [| | | | |m| | |]; try by split. cbn -[members_of]. pose proof (members_of_spec name m) as H.
  destruct (members_of name m); cbn -[member_ok]; tauto.
Qed.
Lemma bool_case name v (f : bool → launchArgs) :
  accepts (try b := boolArg name v in Ok (f b)) match v with VBool _ => true | _ => false end.
Proof. by destruct v. Qed.

Ltac each_name Hk :=
  unfold launchNames in Hk; repeat (apply elem_of_cons in Hk as [->|Hk]); [..|by apply elem_of_nil in Hk].

Lemma set_spec k v a : k ∈ launchNames → accepts (set k (Some v) a) (typed k v).
Proof.
  intros Hk. each_name Hk.
  all: first [exact (string_case _ v _) | exact (strings_case _ v _) | exact (map_case _ v _) | exact (bool_case _ v _)].
Qed.

(** ** Reading by name *)

Lemma assoc_snoc {A} k (v : A) done name :
  k ∉ map fst done → assoc name (done ++ [(k, v)]) = if k =?s name then Some v else assoc name done.
Proof.
  induction done as [|[k' v'] done IH]; cbn; intros Hk.
  - unfold assoc. cbn. by destruct (k =?s name).
  - unfold assoc in *. cbn. destruct (k' =?s name) eqn:E1; cbn; [|apply IH; set_solver].
    apply String.eqb_eq in E1 as ->. destruct (k =?s name) eqn:E2; [|done].
    apply String.eqb_eq in E2 as ->. set_solver.
Qed.

Lemma the_value_snoc done_ k v name :
  k ∉ map fst done_ → the_value (done_ ++ [(k, v)]) name = if k =?s name then v else the_value done_ name.
Proof. intros Hk. unfold the_value. rewrite assoc_snoc by done. by destruct (k =?s name). Qed.

Lemma read_snoc_unknown done_ k v :
  k ∉ map fst done_ → k ∉ launchNames → read_args (done_ ++ [(k, v)]) = read_args done_.
Proof.
  intros Hk Hn. unfold read_args, the_string, the_strings, the_map, the_bool. rewrite !the_value_snoc by done.
  unfold launchNames in Hn. rewrite !not_elem_of_cons in Hn. destruct_and! Hn.
  repeat match goal with H : k ≠ ?n |- _ => apply String.eqb_neq in H; rewrite H; clear H end. done.
Qed.

Lemma stringArg_ok name v s : stringArg name v = Ok s → v = VString s.
Proof. destruct v; try done. cbn. unfold noNUL. case_match; [done|]. by intros [= ->]. Qed.
Lemma stringsArg_ok name v out :
  stringsArg name v = Ok out →
  ∃ l, v = VArray l ∧ out = omap (fun v => match v with VString s => Some s | _ => None end) l.
Proof.
  destruct v as [| | | |l| | | |]; try done. cbn -[strings_of]. intros H.
  pose proof (strings_of_spec name l) as Hs. rewrite H in Hs. destruct Hs as [_ ->]. by exists l.
Qed.
Lemma mapArg_ok name v out :
  mapArg name v = Ok out →
  ∃ m, v = VObject m ∧ out = omap (fun x => match x.2 with VString s => Some (x.1, s) | _ => None end) m.
Proof.
  destruct v as [| | | | |m| | |]; try done. cbn -[members_of]. intros H.
  pose proof (members_of_spec name m) as Hs. rewrite H in Hs. destruct Hs as [_ ->]. by exists m.
Qed.
Lemma boolArg_ok name v b : boolArg name v = Ok b → v = VBool b.
Proof. destruct v; try done. by intros [= ->]. Qed.

Lemma read_snoc_known done_ k v a :
  k ∉ map fst done_ → k ∈ launchNames → set k (Some v) (read_args done_) = Ok a →
  a = read_args (done_ ++ [(k, Some v)]).
Proof.
  intros Hk Hn Ha. unfold read_args, the_string, the_strings, the_map, the_bool. rewrite !the_value_snoc by done.
  each_name Hn; cbn -[stringArg stringsArg mapArg boolArg read_args] in Ha; apply rbind_ok_inv in Ha as (x & Hx & [= <-]);
    first [apply stringArg_ok in Hx as -> | apply stringsArg_ok in Hx as (l & -> & ->)
          | apply mapArg_ok in Hx as (m & -> & ->) | apply boolArg_ok in Hx as ->]; done.
Qed.

(** ** Reading every key *)

Definition pick (fields : list (string * option value)) (k : string) : string * option value :=
  (k, default None (assoc k fields)).

Lemma read_keys_spec fields ks done_ :
  List.NoDup (map fst done_ ++ ks) →
  match read_keys fields ks (read_args done_) with
  | Ok a => forallb field_ok (map (pick fields) ks) = true ∧ a = read_args (done_ ++ map (pick fields) ks)
  | Err e => forallb field_ok (map (pick fields) ks) = false ∧ invalid_request e
  end.
Proof.
  revert done_. induction ks as [|k ks IH]; intros done_ Hnd; cbn -[read_args launchKey field_ok]; [by rewrite app_nil_r|].
  assert (k ∉ map fst done_) as Hk.
  { rewrite list_elem_of_In. intros Hin. apply NoDup_remove_2 in Hnd. apply Hnd, in_app_iff. by left. }
  specialize (IH (done_ ++ [pick fields k])). rewrite map_app, <- !app_assoc in IH. cbn [map fst app pick] in IH.
  specialize (IH Hnd). unfold field_ok at 1 3. cbn [fst snd pick]. destruct (launchKey k) as [name|] eqn:Hn.
  - destruct (name =?s k) eqn:Hq; [|by split]. apply String.eqb_eq in Hq as ->. cbn [negb andb].
    destruct (default None (assoc k fields)) as [v|] eqn:Hv; [|by split].
    pose proof (set_spec k v (read_args done_) (launchKey_known _ _ Hn)) as Hs.
    destruct (set k (Some v) (read_args done_)) as [a|e] eqn:Ha; cbn [accepts] in Hs; cbn [rbind].
    + rewrite Hs. cbn [andb]. rewrite (read_snoc_known _ _ _ _ Hk (launchKey_known _ _ Hn) Ha).
      unfold pick at 1 in IH. by rewrite Hv in IH.
    + destruct Hs as [-> He]. by split.
  - rewrite <- (read_snoc_unknown done_ k (default None (assoc k fields)) Hk (launchKey_unknown _ Hn)). exact IH.
Qed.

Lemma picked_fields fields ks :
  List.NoDup (map fst fields) → ks ≡ₚ map fst fields → map (pick fields) ks ≡ₚ fields.
Proof.
  intros Hnd ->. rewrite map_map. assert (map (fun x => pick fields x.1) fields = fields) as ->; [|done].
  rewrite <- (map_id fields) at 2. apply map_ext_in. intros [k v] Hin.
  unfold pick. cbn. by rewrite (assoc_of_In _ _ _ Hnd Hin).
Qed.

Lemma assoc_perm {A} (l l' : list (string * A)) k : List.NoDup (map fst l) → l ≡ₚ l' → assoc k l' = assoc k l.
Proof.
  intros Hnd Hp. destruct (assoc k l) as [v|] eqn:Hv.
  - apply assoc_of_In; [by rewrite <- Hp|]. rewrite <- Hp. by apply assoc_In.
  - apply assoc_None. intros x Hin. rewrite <- Hp in Hin. by apply (proj1 (assoc_None k l) Hv x).
Qed.

Lemma read_args_perm l l' : List.NoDup (map fst l) → l ≡ₚ l' → read_args l' = read_args l.
Proof.
  intros Hnd Hp. unfold read_args, the_string, the_strings, the_map, the_bool, the_value. by rewrite !(assoc_perm l l').
Qed.

Lemma forallb_perm {A} (f : A → bool) l l' : l ≡ₚ l' → forallb f l = forallb f l'.
Proof. intros Hp. apply eq_true_iff_eq. rewrite !forallb_forall. by setoid_rewrite Hp. Qed.

Lemma check_refused a e : check a = Err e → invalid_request e.
Proof. unfold check. repeat case_match; try done; by intros [= <-]. Qed.

Section paths.
Context {P : PathFns} {HP : PathLaws P}.

Definition given_path (p : string) : Prop := p = ""%string ∨ IsAbs p = true.

Lemma resolvePath_spec dir p :
  IsAbs dir = true →
  match resolvePath dir p with
  | Ok q => given_path q ∧ (q = p ∨ (p ≠ ""%string ∧ IsAbs p = false ∧ q = FJoin dir p))
  | Err e => goos = goosWindows ∧ invalid_request e
  end.
Proof.
  intros Hd. unfold resolvePath, given_path. destruct (p =?s "") eqn:Hp; cbn [orb].
  { apply String.eqb_eq in Hp. split; by left. }
  destruct (IsAbs p) eqn:Ha; [split; [by right|by left]|].
  apply String.eqb_neq in Hp. unfold drive_relative. destruct (goos =?s goosWindows) eqn:Hg; cbn [andb].
  - destruct (VolumeName p =?s "") eqn:Hv; cbn [negb orb]; [|apply String.eqb_eq in Hg; by split].
    destruct (_ || _); [apply String.eqb_eq in Hg; by split|]. apply String.eqb_eq in Hv.
    split; [right; by apply Join_abs|by right].
  - apply String.eqb_neq in Hg. split; [right; apply Join_abs; [done|]; by apply Volume_windows|by right].
Qed.

(** What a launch may ask for. *)
Definition launch_paths (p : StartParams) : list string :=
  [l_Program (p_Launch p); l_Project (p_Launch p); l_Cwd (p_Launch p)].

Lemma params_spec a d :
  IsAbs (d_ClientDir d) = true →
  match params a d with
  | Ok p => Forall given_path (launch_paths p) ∧ (l_Program (p_Launch p) ≠ "" ∨ IsAbs (l_Project (p_Launch p)) = true)
  | Err e => goos = goosWindows ∧ invalid_request e
  end.
Proof.
  intros Hd. unfold params. pose proof (resolvePath_spec (d_ClientDir d) (la_program a) Hd) as H1.
  pose proof (resolvePath_spec (d_ClientDir d) (la_project a) Hd) as H2.
  pose proof (resolvePath_spec (d_ClientDir d) (la_cwd a) Hd) as H3.
  destruct (resolvePath _ (la_program a)) as [p1|]; [|done]. cbn [rbind].
  destruct (resolvePath _ (la_project a)) as [p2|]; [|done]. cbn [rbind].
  destruct (resolvePath _ (la_cwd a)) as [p3|]; [|done]. cbn [rbind launch_paths p_Launch l_Program l_Project l_Cwd].
  destruct H1 as [H1 _], H2 as [H2 _], H3 as [H3 _]. unfold launch_paths; cbn. rewrite !list.Forall_cons, list.Forall_nil.
  destruct (p1 =?s "") eqn:E1; cbn [andb].
  - destruct (p2 =?s "") eqn:E2; [repeat split; try done; [by right|by right]|].
    apply String.eqb_neq in E2. destruct H2 as [H2|H2]; [done|]. repeat split; try done; by right.
  - apply String.eqb_neq in E1. repeat split; try done. by left.
Qed.
End paths.

(** A launch's arguments are accepted exactly when each key that names
    an argument is spelled as it is, each known argument has its type, no
    string holds NUL (nor a name of env or opts is empty or holds =), and
    the language, adapter and console are valid names, whatever the order of
    the keys; a refusal is always invalidRequest. The start then asks for
    exactly the values of the known names, its paths empty or absolute, with
    a program or an absolute project; only where the host is Windows can a
    path still be refused. *)
Theorem launchParams_spec {P : PathFns} {HP : PathLaws P} fields d :
  List.NoDup (map fst fields) → IsAbs (d_ClientDir d) = true →
  let acceptable := forallb field_ok fields = true ∧ check (read_args fields) = Ok () in
  match launchParams (Some fields) d with
  | Ok (p, terminal) =>
    acceptable ∧ params (read_args fields) d = Ok p ∧
    Forall given_path (launch_paths p) ∧ (l_Program (p_Launch p) ≠ "" ∨ IsAbs (l_Project (p_Launch p)) = true) ∧
    terminal = (la_console (read_args fields) =?s consoleTerminal)
  | Err e => invalid_request e ∧ (¬ acceptable ∨ goos = goosWindows)
  end.
Proof.
  intros Hnd Hd acceptable. unfold launchParams. set (ks := merge_sort string_le (map fst fields)).
  assert (ks ≡ₚ map fst fields) as Hks by apply merge_sort_Permutation.
  pose proof (picked_fields _ _ Hnd Hks) as Hp.
  pose proof (read_keys_spec fields ks []) as Hr. cbn [map app] in Hr. change (read_args []) with noArgs in Hr.
  rewrite (read_args_perm fields) in Hr by done. rewrite (forallb_perm _ _ _ Hp) in Hr.
  specialize (Hr (Permutation_NoDup (symmetry Hks) Hnd)). destruct (read_keys fields ks noArgs) as [a|e]; cbn [rbind].
  2:{ destruct Hr as [Hr He]. split; [done|]. left. intros [? _]. congruence. }
  destruct Hr as [Hf ->]. destruct (check (read_args fields)) as [[]|e] eqn:Hc; cbn [rbind].
  2:{ split; [by apply check_refused in Hc|]. left. intros [_ ?]. congruence. }
  pose proof (params_spec (read_args fields) d Hd) as Hs.
  destruct (params (read_args fields) d) as [p|e]; cbn [rbind]; [|destruct Hs; split; [done|by right]].
  destruct Hs as [Hs1 Hs2]. by unfold acceptable.
Qed.

Definition sample_fields : list (string * option value) :=
  [("program"%string, Some (VString "app.py")); ("lang"%string, Some (VString "python"));
   ("__configurationTarget"%string, Some (VNumber "1")); ("console"%string, Some (VString "integratedTerminal"));
   ("args"%string, Some (VArray [VString "-x"])); ("env"%string, Some (VObject [("A"%string, VString "1")]))].
Definition sample_defaults : FacadeLaunch := mkFacadeLaunch "/home/u" "" false "".

Lemma launchParams_spec_witness :
  (∃ p, launchParams (P := unixPaths) (Some sample_fields) sample_defaults = Ok (p, true) ∧
        l_Program (p_Launch p) = "/home/u/app.py"%string ∧ l_Args (p_Launch p) = ["-x"%string] ∧
        Forall (given_path (P := unixPaths)) (launch_paths p)) ∧
  is_ok (launchParams (P := unixPaths) (Some [("Lang"%string, Some (VString "python"))]) sample_defaults) = false.
Proof.
  assert (List.NoDup (map fst sample_fields)) as Hnd.
  { apply NoDup_ListNoDup. by apply (bool_decide_unpack (NoDup _)); vm_compute. }
  pose proof (launchParams_spec (P := unixPaths) sample_fields sample_defaults Hnd eq_refl) as H.
  split; [|by vm_compute].
  destruct (launchParams (P := unixPaths) (Some sample_fields) sample_defaults) as [[p t]|e] eqn:He; [|by vm_compute in He].
  destruct H as (_ & _ & H & _). vm_compute in He. injection He as <- <-. eexists. split; [reflexivity|]. done.
Defined.
