(* ===== verification/Threads.v ===== *)
(** * Threads that share a state, a gate and a service

    A connection's goroutines share its state; some sections hold a mutex
    (the gate) across calls to the session, which goes on meanwhile. A
    [tprog] keeps that structure, its calls typed by their answers. [trun]
    executes a program alone; [tsafe] is what it guarantees, and under which
    conditions it makes its calls, when others run between its steps. *)

From S2P Require Import Prelude.

Inductive tprog (C : Type) (Q : Type → Type) (A : Type) : Type :=
  | TRet (a : A)
  | TLocal (X : Type) (f : C → X * C) (k : X → tprog C Q A)   (* one atomic access *)
  | TCall (X : Type) (q : Q X) (k : X → tprog C Q A)          (* a call of the service *)
  | TWait (b : C → bool) (k : tprog C Q A)                    (* blocks until [b] holds *)
  | TLock (k : tprog C Q A)
  | TUnlock (k : tprog C Q A).
Arguments TRet {C Q A} a.
Arguments TLocal {C Q A X} f k.
Arguments TCall {C Q A X} q k.
Arguments TWait {C Q A} b k.
Arguments TLock {C Q A} k.
Arguments TUnlock {C Q A} k.

Section threads.
Context {C : Type} {Q : Type → Type}.

Fixpoint tbind {A B} (p : tprog C Q A) (k : A → tprog C Q B) : tprog C Q B :=
  match p with
  | TRet a => k a
  | TLocal f k' => TLocal f (fun x => tbind (k' x) k)
  | TCall q k' => TCall q (fun x => tbind (k' x) k)
  | TWait b p => TWait b (tbind p k)
  | TLock p => TLock (tbind p k)
  | TUnlock p => TUnlock (tbind p k)
  end.

Definition local {X} (f : C → X * C) : tprog C Q X := TLocal f TRet.
Definition reads {X} (f : C → X) : tprog C Q X := TLocal (fun c => (f c, c)) TRet.
Definition writes (f : C → C) : tprog C Q () := TLocal (fun c => ((), f c)) TRet.
Definition call {X} (q : Q X) : tprog C Q X := TCall q TRet.
(** A section under the gate. *)
Definition gated {A} (p : tprog C Q A) : tprog C Q A := TLock (tbind p (fun a => TUnlock (TRet a))).

(** Every result the program can have satisfies [ok]. *)
Fixpoint returns {A} (ok : A → Prop) (p : tprog C Q A) : Prop :=
  match p with
  | TRet a => ok a
  | TLocal f k => ∀ x, returns ok (k x)
  | TCall q k => ∀ x, returns ok (k x)
  | TWait _ p | TLock p | TUnlock p => returns ok p
  end.
Lemma returns_any {A} (p : tprog C Q A) : returns (fun _ => True) p.
Proof. induction p; cbn; auto. Qed.
Lemma returns_bind {A B} (ok : B → Prop) (p : tprog C Q A) (k : A → tprog C Q B) :
  (∀ a, returns ok (k a)) → returns ok (tbind p k).
Proof. intros Hk. induction p; cbn; auto. Qed.

(** ** Running alone *)

Fixpoint trun {S A} (serve : ∀ X, Q X → S → X * S) (p : tprog C Q A) (s : S) (c : C) : option (A * S * C) :=
  match p with
  | TRet a => Some (a, s, c)
  | TLocal f k => let '(x, c) := f c in trun serve (k x) s c
  | TCall q k => let '(x, s) := serve _ q s in trun serve (k x) s c
  | TWait b p => if b c then trun serve p s c else None
  | TLock p | TUnlock p => trun serve p s c
  end.

(** ** Rely and guarantee

    [rely held] is what others may do to the shared state while the thread
    holds the gate or not, [guar held] what a step of the thread does,
    [allowed] when a call may be made, [waits] when and for what the
    thread may block, and [releases] when it may give the gate back. [serves q s x s']: the service, in
    state [s], may answer [x] and go to [s']. *)
Section safe.
Context {S : Type} (serves : ∀ X, Q X → S → X → S → Prop).
Context (rely guar : bool → S * C → S * C → Prop) (allowed : bool → ∀ X, Q X → S * C → Prop).
Context (waits : bool → (C → bool) → S * C → Prop) (releases : S * C → Prop).

Fixpoint tsafe {A} (held : bool) (p : tprog C Q A) (post : A → bool → S * C → Prop) (w0 : S * C) : Prop :=
  match p with
  | TRet a => ∀ w, rely held w0 w → post a held w
  | TLocal f k => ∀ w, rely held w0 w → let w' := (w.1, (f w.2).2) in guar held w w' ∧ tsafe held (k (f w.2).1) post w'
  | TCall q k => ∀ w, rely held w0 w → allowed held _ q w ∧
                 ∀ x s', serves _ q w.1 x s' → guar held w (s', w.2) ∧ tsafe held (k x) post (s', w.2)
  | TWait b k => ∀ w, rely held w0 w → waits held b w ∧ (b w.2 = true → tsafe held k post w)
  | TLock k => held = false ∧ ∀ w, rely false w0 w → tsafe true k post w
  | TUnlock k => held = true ∧ ∀ w, rely true w0 w → releases w ∧ tsafe false k post w
  end.

Context {Hpre : ∀ held, PreOrder (rely held)}.

Lemma tsafe_rely {A} held (p : tprog C Q A) post w w' :
  rely held w w' → tsafe held p post w → tsafe held p post w'.
Proof.
  intros Hr. destruct p; cbn; intros H.
  - intros w2 H2. apply H. by etrans.
  - intros w2 H2. apply H. by etrans.
  - intros w2 H2. apply H. by etrans.
  - intros w2 H2. apply H. by etrans.
  - destruct H as [-> H]. split; [done|]. intros w2 H2. apply H. by etrans.
  - destruct H as [-> H]. split; [done|]. intros w2 H2. apply H. by etrans.
Qed.

Lemma tsafe_post {A} held (p : tprog C Q A) (post post' : A → bool → S * C → Prop) w :
  (∀ a h w, post a h w → post' a h w) → tsafe held p post w → tsafe held p post' w.
Proof.
  intros Hp. revert held w. induction p as [a|X f k IH|X q k IH|b k IH|k IH|k IH]; intros held w; cbn.
  - intros H w2 H2. eauto.
  - intros H w2 H2. destruct (H w2 H2). eauto.
  - intros H w2 H2. destruct (H w2 H2) as [Ha Hk]. split; [done|]. intros x s' Hs. destruct (Hk x s' Hs). eauto.
  - intros H w2 H2. destruct (H w2 H2). eauto.
  - intros [-> H]. eauto.
  - intros [-> H]. split; [done|]. intros w2 H2. destruct (H w2 H2). eauto.
Qed.

Lemma tsafe_bind {A B} held (p : tprog C Q A) (k : A → tprog C Q B) post post' w :
  tsafe held p post w → (∀ a h w, post a h w → tsafe h (k a) post' w) → tsafe held (tbind p k) post' w.
Proof.
  intros Hp Hk. revert held w Hp.
  induction p as [a|X f k' IH|X q k' IH|b k' IH|k' IH|k' IH]; intros held w; cbn.
  - intros H. by apply Hk, H.
  - intros H w2 H2. destruct (H w2 H2). eauto.
  - intros H w2 H2. destruct (H w2 H2) as [Ha Hk']. split; [done|]. intros x s' Hs. destruct (Hk' x s' Hs). eauto.
  - intros H w2 H2. destruct (H w2 H2). eauto.
  - intros [-> H]. eauto.
  - intros [-> H]. split; [done|]. intros w2 H2. destruct (H w2 H2). eauto.
Qed.
Lemma tsafe_returns {A} held (p : tprog C Q A) post (ok : A → Prop) w :
  returns ok p → tsafe held p post w → tsafe held p (fun a h w => post a h w ∧ ok a) w.
Proof.
  revert held w. induction p as [a|X f k IH|X q k IH|b k IH|k IH|k IH]; intros held w; cbn; intros Hr.
  - intros H w2 H2. auto.
  - intros H w2 H2. destruct (H w2 H2). auto.
  - intros H w2 H2. destruct (H w2 H2) as [Ha Hk]. split; [done|]. intros x s' Hs. destruct (Hk x s' Hs). auto.
  - intros H w2 H2. destruct (H w2 H2). auto.
  - intros [-> H]. auto.
  - intros [-> H]. split; [done|]. intros w2 H2. destruct (H w2 H2). auto.
Qed.
End safe.
End threads.

Declare Scope thread_scope.
Delimit Scope thread_scope with thread.
Bind Scope thread_scope with tprog.
Notation "x <- p ;; k" := (tbind p (fun x => k))
  (at level 100, p at next level, right associativity) : thread_scope.
Notation "p ;;; k" := (tbind p (fun _ => k)) (at level 100, right associativity) : thread_scope.
