(* ===== verification/Facade.v ===== *)
(** * An editor's connection (internal/facade: facade.go, requests.go)

    What a connection keeps, how its reader dispatches a request, and what
    handling each request does: its calls of the session and the messages it
    writes, as programs over the connection's state ([Threads]). A section
    under the event gate is between [TLock] and [TUnlock]. Following the log
    is in [LaunchConn], a launch in [LaunchConn]; what the goroutines do together
    is in [FacadeSystem]. *)

From S2P Require Import Prelude GoStrings Api EventLog Prog Message Session Lease Exec Forward EditorEvents Mirrors Threads.
From S2P Require Import Manager Manifest Terminal LaunchArgs.
From Stdlib Require Import Ascii Bool.

Open Scope Z_scope.

Definition maxInFlight : nat := 32.
Definition maxRequestBreakpoints : Z := 1000.
Definition replayChunks : Z := 200.
Definition replayBytes : Z := 64 * 1024.

(** ** The session, as the connection calls it

    A call's error: one of the session's, another, or the end of the
    request's context. *)
Inductive fault := FaultApi (e : apiError) | FaultOther (text : string) | FaultContext.
Definition fault_code (e : fault) : option Code := match e with FaultApi e => Some (e_code (ae e)) | _ => None end.

(** The calls, each typed by its answer; all act as the connection's client.
    [CPick]: which of several ready channels a [select] takes. [CLaunch]
    runs a launch until it ends or calls its Configure hook, [CLaunchRest]
    goes on after the hook. *)
Inductive sessionCall : Type → Type :=
  | CTouch : sessionCall ()
  | CConnect : sessionCall ()
  | CReady : sessionCall (fault + dapCaps)
  | CModes : sessionCall (list ExceptionMode)
  | CJoinPoint : sessionCall (SessionInfo * Z)
  | COutputBefore (seq chunks bytes : Z) : sessionCall (list OutputLine * Z)
  | CInfo : sessionCall SessionInfo
  | CBreakpoints : sessionCall (list Breakpoint)
  | CFileKey (path : string) : sessionCall (option string)
  | CExec (kind : exec_kind) (thread : Z) : sessionCall (option fault)
  | CTerminate : sessionCall (option fault)
  | CStop : sessionCall (option fault)
  | CReplace (path : string) (specs : list BreakpointSpec) (keep : list Z) : sessionCall (option (list Breakpoint) * option fault)
  | CReplaceFunctions (specs : list BreakpointSpec) : sessionCall (option (list Breakpoint) * option fault)
  | CExceptions (mode : ExceptionMode) : sessionCall (option fault)
  | CExceptionsSet (mode : ExceptionMode) : sessionCall ()
  | CLease : sessionCall LeaseInfo
  | CLeaseOp (op : lease_op) : sessionCall (fault + LeaseInfo)
  | CRemove (id : Z) (force : bool) : sessionCall (fault + Z)
  | CForward (r : Dap.request) : sessionCall (fault + answer)
  | CFollow (since : Z) : sessionCall (list Event * Z)
  | CPick : sessionCall bool
  | CLeave (restart : bool) : sessionCall ()
  | CLaunch (p : StartParams) (terminal : bool) : sessionCall (fault + (string * (dapCaps * list ExceptionMode)))
  | CLaunchRest (hook : option string) : sessionCall (fault + ()).

(** ** Requests and messages *)

Record initializeArguments := mkInitialize {
  ia_LinesStartAt1 : bool; ia_ColumnsStartAt1 : bool; ia_PathFormat : string; ia_InvalidatedEvent : bool }.
Record functionBreakpoint := mkFunctionBp { fb_Name : string; fb_Condition : string; fb_HitCondition : string }.
Record LeaseArguments := mkLeaseArguments {
  lq_Action : string; lq_To : string; lq_Policy : string; lq_Force : bool; lq_Message : string }.
Record BreakpointsArguments := mkBreakpointsArguments { ba_Action : string; ba_ID : Z; ba_Force : bool }.

(** [AttachRequest]: [None] is what doesn't decode, [Some None] names no session. *)
Inductive editorRequest :=
  | InitializeRequest (a : initializeArguments)
  | AttachRequest (session : option (option string))
  | LaunchRequest (fields : option (list (string * option value)))
  | ConfigurationDoneRequest
  | TerminalRequest (a : TerminalArguments)
  | DisconnectRequest (restart : bool)
  | ContinueRequest (thread : Z) | NextRequest (thread : Z) | StepInRequest (thread : Z) | StepOutRequest (thread : Z)
  | PauseRequest (thread : Z) | TerminateRequest
  | SetBreakpointsRequest (path : string) (breakpoints : option (list sourceBreakpoint)) (lines : list Z)
  | SetFunctionBreakpointsRequest (breakpoints : list functionBreakpoint)
  | SetExceptionBreakpointsRequest (filters : list string)
  | LeaseRequest (a : LeaseArguments) | ClientsRequest | BreakpointsRequest (a : BreakpointsArguments)
  | OtherEditorRequest (r : Dap.request).

Definition CommandLease : string := "eyedbg/lease".
Definition CommandClients : string := "eyedbg/clients".
Definition CommandBreakpoints : string := "eyedbg/breakpoints".
Definition CommandRunInTerminal : string := "eyedbg/runInTerminal".
Definition command_of (req : editorRequest) : string :=
  match req with
  | InitializeRequest _ => "initialize" | AttachRequest _ => "attach" | LaunchRequest _ => "launch"
  | ConfigurationDoneRequest => "configurationDone" | TerminalRequest _ => CommandRunInTerminal
  | DisconnectRequest _ => "disconnect" | ContinueRequest _ => "continue" | NextRequest _ => "next"
  | StepInRequest _ => "stepIn" | StepOutRequest _ => "stepOut" | PauseRequest _ => "pause"
  | TerminateRequest => "terminate" | SetBreakpointsRequest _ _ _ => "setBreakpoints"
  | SetFunctionBreakpointsRequest _ => "setFunctionBreakpoints"
  | SetExceptionBreakpointsRequest _ => "setExceptionBreakpoints" | LeaseRequest _ => CommandLease
  | ClientsRequest => CommandClients | BreakpointsRequest _ => CommandBreakpoints
  | OtherEditorRequest r => Dap.Command r
  end.

Inductive dapResponse :=
  | InitializeResponse (c : dapCaps) | AttachResponse | LaunchResponse | ConfigurationDoneResponse | TerminalResponse
  | DisconnectResponse
  | ContinueResponse (allThreads : bool) | NextResponse | StepInResponse | StepOutResponse | PauseResponse
  | TerminateResponse
  | SetBreakpointsResponse (b : list dapBp) | SetFunctionBreakpointsResponse (b : list dapBp)
  | SetExceptionBreakpointsResponse
  | LeaseResponse (l : LeaseInfo) | ClientsResponse (c : list ClientInfo) (l : LeaseInfo)
  | BreakpointsResponse (b : BreakpointsBody)
  | OtherResponse (a : answer).

(** What the connection wrote: a response or an error to the request of that
    number, and an event, of one of the log's events or not. *)
Inductive message :=
  | Answered (id : nat) (r : dapResponse)
  | Failed (id : nat) (message : string) (body : errorBody)
  | Sent (seq : option Z) (ev : dapEvent).

(** ** The connection *)

Inductive phase := phaseNew | phaseInitialized | phaseLaunching | phaseAttached | phaseConfigured | phaseFailed.
#[global] Instance phase_eq_dec : EqDecision phase.
Proof. solve_decision. Defined.

(** [started], [done], [configured] and [launched] as in the code; [running]:
    the launch goroutine was started; [cancelled]: the launch's context was canceled; [configOnce]: a first
    configurationDone was handled. *)
Record launchState := mkLaunch {
  ls_defaults : FacadeLaunch; ls_started : bool; ls_running : bool; ls_cancelled : bool; ls_done : bool; ls_configured : bool;
  ls_configOnce : bool; ls_launched : bool; ls_unservable : option ExceptionMode; ls_terminal : bool;
  ls_term : terminalState }.
#[global] Instance eta_launchState : Eta launchState := fun r =>
  mkLaunch (ls_defaults r) (ls_started r) (ls_running r) (ls_cancelled r) (ls_done r) (ls_configured r) (ls_configOnce r)
    (ls_launched r) (ls_unservable r) (ls_terminal r) (ls_term r).
Definition newLaunchState (d : FacadeLaunch) : launchState :=
  mkLaunch d false false false false false false false None false noTerminal.

(** [cn_sess] is the id of the session, once there is one; [cn_follow] where
    the follower stands; [cn_broken]: writing fails; [cn_ended]: the
    connection's context was canceled; [cn_out] what was written, [cn_dropped]
    the requests left unanswered (and logged) because it is closing. *)
Record connection := mkConnection {
  cn_client : Client; cn_sess : option string; cn_launch : option launchState; cn_phase : phase;
  cn_invalidated : bool; cn_restart : bool; cn_view : view; cn_follow : option (Z * followState);
  cn_broken : bool; cn_closed : bool; cn_ended : bool; cn_out : list message; cn_dropped : list nat }.
#[global] Instance eta_connection : Eta connection := fun r =>
  mkConnection (cn_client r) (cn_sess r) (cn_launch r) (cn_phase r) (cn_invalidated r) (cn_restart r) (cn_view r)
    (cn_follow r) (cn_broken r) (cn_closed r) (cn_ended r) (cn_out r) (cn_dropped r).

Definition self (c : connection) : string := c_ID (cn_client c).
Definition isSome {A} (x : option A) : bool := match x with Some _ => true | None => false end.
Definition launching (c : connection) : bool := isSome (cn_launch c).
Definition with_launch (f : launchState → launchState) (c : connection) : connection := c <| cn_launch ::= option_map f |>.
Definition of_launch {X} (d : X) (f : launchState → X) (c : connection) : X :=
  match cn_launch c with Some l => f l | None => d end.

(** A connection to a session, or to launch one ([Serve]). *)
Definition attached_conn (cl : Client) (session : string) : connection :=
  mkConnection cl (Some session) None phaseNew false false newView None false false false [] [].
Definition launch_conn (cl : Client) (d : FacadeLaunch) : connection :=
  mkConnection cl None (Some (newLaunchState d)) phaseNew false false newView None false false false [] [].

Abbreviation cprog A := (tprog connection sessionCall A).

(** ** Writing *)

Definition write (m : message) (c : connection) : bool * connection :=
  if cn_broken c then (false, c <| cn_closed := true |>) else (true, c <| cn_out ::= fun l => l ++ [m] |>).
Definition respond (id : nat) (r : dapResponse) : cprog bool := local (write (Answered id r)).
Definition send (ev : dapEvent) : cprog bool := local (write (Sent None ev)).
Fixpoint sendAll (evs : list dapEvent) : cprog () :=
  match evs with [] => TRet () | ev :: evs => (send ev ;;; sendAll evs)%thread end.

Definition drop_request (id : nat) : cprog () := writes (fun c => c <| cn_dropped ::= cons id |>).
Definition api_fault (e : fault) : option apiError := match e with FaultApi e => Some e | _ => None end.
(** [abandoned] *)
Definition abandoned (e : fault) (c : connection) : bool :=
  cn_ended c && match e with FaultContext => true | _ => false end.
Definition fail (id : nat) (command : string) (e : fault) (showUser : bool) : cprog () :=
  (gone <- reads (abandoned e) ;;
   if gone : bool then drop_request id
   else
     bound <- reads (fun c => isSome (cn_sess c)) ;;
     holder <- (if (bound : bool) && bool_decide (fault_code e = Some CodeLeaseHeld)
                then l <- call CLease ;; TRet (li_Holder l) else TRet ""%string) ;;
     let '(message, body) := errorResponse command (api_fault e) holder showUser in
     local (write (Failed id message body)) ;;;
     TRet ())%thread.
Definition refusal (msg hint : string) : fault := FaultApi (mkApiError (NewError CodeInvalidRequest msg) hint "").

(** [relay]: events under the gate, none once the connection is leaving.
    Its result: whether the connection still writes, and what [events]
    computed ([d] if it didn't run). *)
Fixpoint send_until (seq : option Z) (evs : list dapEvent) : cprog bool :=
  match evs with
  | [] => TRet true
  | ev :: evs => (ok <- local (write (Sent seq ev)) ;; if ok : bool then send_until seq evs else TRet false)%thread
  end.
Definition relay {X} (seq : option Z) (d : X) (events : cprog (list dapEvent * X)) : cprog (bool * X) :=
  gated (
    gone <- reads (fun c => leaving (cn_view c)) ;;
    if gone : bool then TRet (true, d)
    else
      out <- events ;;
      ok <- send_until seq out.1 ;;
      TRet (ok, out.2))%thread.

(** ** Which request is which *)

Definition isExecution (req : editorRequest) : bool :=
  match req with
  | ContinueRequest _ | NextRequest _ | StepInRequest _ | StepOutRequest _ | PauseRequest _ | TerminateRequest => true
  | OtherEditorRequest r => ForwardsAsExecution r
  | _ => false
  end.
Definition changesBreakpoints (req : editorRequest) : bool :=
  match req with
  | SetBreakpointsRequest _ _ _ | SetFunctionBreakpointsRequest _ => true
  | BreakpointsRequest a => ba_Action a =?s "remove"
  | _ => false
  end.
Definition isGated (req : editorRequest) : bool :=
  match req with
  | SetBreakpointsRequest _ _ _ | SetFunctionBreakpointsRequest _ => true
  | LeaseRequest a => negb (lq_Action a =?s "status")
  | BreakpointsRequest _ => changesBreakpoints req
  | _ => isExecution req
  end.
Definition isOrdered (req : editorRequest) : bool :=
  match req with SetExceptionBreakpointsRequest _ => true | _ => isGated req end.

Definition admissible (req : editorRequest) (c : connection) : option fault :=
  let refuse msg := Some (refusal msg "") in
  match cn_phase c with
  | phaseNew => refuse "send initialize first"
  | phaseInitialized => refuse (if launching c then "send launch first" else "attach to the session first")
  | phaseLaunching => refuse "the session is still starting: wait for the initialized event"
  | phaseFailed => refuse "this connection's launch failed: disconnect, then launch again"
  | phaseAttached => if isExecution req then refuse (command_of req +:+ " needs configurationDone first") else None
  | phaseConfigured => None
  end.
