(* ===== verification/Handlers.v ===== *)
(** * Handling an editor's requests (internal/facade/requests.go)

    The handshake (initialize, attach, configurationDone), leaving, and what
    every other request does. Programs over the connection's state, in the
    order of the code's calls and writes. *)

From S2P Require Import Prelude GoStrings Api EventLog Prog Message Session Lease Exec Forward EditorEvents Mirrors Threads.
From S2P Require Import Manager Manifest Terminal LaunchArgs Facade.
From Stdlib Require Import Ascii Bool.

Open Scope Z_scope.
Open Scope thread_scope.

Definition view_of (c : connection) : view := cn_view c.
Definition with_view {X} (f : view → X * view) (c : connection) : X * connection :=
  let '(x, v) := f (cn_view c) in (x, c <| cn_view := v |>).

(** ** The editor's view *)

(** [connection.reconcile] *)
Definition reconcileNow : cprog (list dapEvent) :=
  conf <- reads (fun c => configured (cn_view c)) ;;
  if negb conf then TRet []
  else
    bps <- call CBreakpoints ;;
    local (fun c => with_view (reconcile (self c) bps) c).
Definition breakpointsEvent : cprog dapEvent :=
  bps <- call CBreakpoints ;; TRet (BreakpointsEvent (breakpointsBody bps)).

(** [afterBreakpoints] *)
Definition afterBreakpoints (answered : bool) : cprog () :=
  next <- local (with_view (fun v => (after v, v <| after := [] |>))) ;;
  gone <- reads (fun c => leaving (cn_view c)) ;;
  if gone : bool then TRet ()
  else
    (if answered then sendAll next else TRet ()) ;;;
    evs <- reconcileNow ;;
    sendAll evs.

(** ** The handshake *)

Definition noCaps : dapCaps :=
  mkDapCaps false false false false false false false false false false false false false false false false false
    false false false false [] "".
Definition launchExceptionModes : list ExceptionMode := [ExceptionsAll; ExceptionsUncaught].

Definition initialized (a : initializeArguments) (c : connection) : connection :=
  c <| cn_invalidated := ia_InvalidatedEvent a |> <| cn_phase := phaseInitialized |>.
Definition initialize (id : nat) (a : initializeArguments) : cprog () :=
  ph <- reads cn_phase ;;
  l <- reads launching ;;
  if negb (bool_decide (ph = phaseNew)) then fail id "initialize" (refusal "initialize was already sent" "") false
  else if negb (ia_LinesStartAt1 a) || negb (ia_ColumnsStartAt1 a)
          || (negb (ia_PathFormat a =?s "") && negb (ia_PathFormat a =?s "path"))
  then fail id "initialize"
         (refusal "eyedbg's DAP facade needs linesStartAt1, columnsStartAt1 and pathFormat path" "") false
  else if l : bool then
    writes (initialized a) ;;;
    respond id (InitializeResponse (capabilities noCaps launchExceptionModes)) ;;;
    TRet ()
  else
    ready <- call CReady ;;
    match ready with
    | inl e => fail id "initialize" e false
    | inr caps =>
      writes (initialized a) ;;;
      modes <- call CModes ;;
      respond id (InitializeResponse (capabilities caps modes)) ;;;
      TRet ()
    end.

Definition attach (id : nat) (args : option (option string)) : cprog () :=
  ph <- reads cn_phase ;;
  sid <- reads (fun c => default ""%string (cn_sess c)) ;;
  let refuse msg hint := fail id "attach" (refusal msg hint) false in
  if negb (bool_decide (ph = phaseInitialized)) then refuse "attach needs initialize first, once" ""
  else
    match args with
    | None => refuse "invalid attach arguments" ""
    | Some named =>
      let other := default sid named in
      if negb (other =?s sid)
      then refuse ("this connection joined session " +:+ sid +:+ ", not " +:+ other)
             "run 'eyedbg dap -s ID' for another session"
      else
        writes (fun c => c <| cn_phase := phaseAttached |>) ;;;
        ok <- respond id AttachResponse ;;
        if ok : bool then send InitializedEvent ;;; TRet () else TRet ()
    end%string.

(** [replayOutput] *)
Definition replayed (lines : list OutputLine) (omitted : Z) : list dapEvent :=
  (if 0 <? omitted
   then [consoleLine (itoa omitted +:+ " earlier output chunks aren't shown ('eyedbg output' has them)")] else [])
  ++ map (fun l => outputEvent (ol_Category l) (ol_Text l)) lines.
Definition replayOutput (seq : Z) : cprog (list dapEvent) :=
  out <- call (COutputBefore seq replayChunks replayBytes) ;;
  TRet (replayed out.1 out.2).

(** The end of [join], of a session that goes on: the follower starts. *)
Definition join_live (info : SessionInfo) (seq : Z) (st : followState) : cprog () :=
  local (with_view (fun v => ((), v <| configured := true |>))) ;;;
  evs <- reconcileNow ;;
  sendAll evs ;;;
  send (LeaseEvent (i_Lease info)) ;;;
  send (ClientsEvent (i_Clients info)) ;;;
  ev <- breakpointsEvent ;;
  send ev ;;;
  writes (fun c => c <| cn_follow := Some (seq, st) |>).
Definition join (info : SessionInfo) (seq : Z) : cprog () :=
  st <- reads (fun c => mkFollow (self c) (cn_invalidated c) 0 "") ;;
  out <- replayOutput seq ;;
  sendAll out ;;;
  match i_State info with
  | StateStopped =>
    let '(evs, st) := stoppedEvent (i_Stop info) st false in
    sendAll evs ;;; join_live info seq st
  | StateExited =>
    sendAll match i_ExitCode info with Some code => [ExitedEvent code] | None => [] end ;;;
    send TerminatedEvent ;;;
    TRet ()
  | StateStarting | StateRunning | StateLost => join_live info seq st
  end.

Definition configurationDone (id : nat) : cprog () :=
  ph <- reads cn_phase ;;
  if negb (bool_decide (ph = phaseAttached))
  then fail id "configurationDone" (refusal "configurationDone needs attach first, once" "") false
  else
    point <- call CJoinPoint ;;
    writes (fun c => c <| cn_phase := phaseConfigured |>) ;;;
    ok <- respond id ConfigurationDoneResponse ;;
    if negb ok then TRet () else gated (join point.1 point.2).

(** [forgetExited]; an error of the stop is only logged. *)
Definition forgetExited : cprog () :=
  launched <- reads (of_launch false ls_launched) ;;
  if negb launched then TRet ()
  else
    info <- call CInfo ;;
    if negb (bool_decide (i_State info = StateExited)) then TRet ()
    else call CStop ;;; TRet ().

Definition disconnect (id : nat) (restart : bool) : cprog () :=
  writes (fun c => c <| cn_restart := restart |>) ;;;
  l <- reads launching ;;
  (if l : bool then forgetExited else TRet ()) ;;;
  gated (
    evs <- local (with_view retractMirrors) ;;
    sendAll evs ;;;
    local (with_view (fun v => ((), v <| leaving := true |>))) ;;;
    respond id DisconnectResponse ;;;
    TRet ()).

(** ** Breakpoints *)

Abbreviation served := (cprog (dapResponse + fault)).
Definition answered_by {X} (r : X → dapResponse) (x : fault + X) : dapResponse + fault :=
  match x with inl e => inr e | inr x => inl (r x) end.
Definition or_fault (r : dapResponse) (e : option fault) : dapResponse + fault :=
  match e with Some e => inr e | None => inl r end.

Definition tooManyBreakpoints (n : Z) : fault :=
  refusal (itoa n +:+ " breakpoints in one request: eyedbg takes at most " +:+ itoa maxRequestBreakpoints) "".

Definition is_own (c : entryClass) : bool := bool_decide (en_kind c = entryOwn).
Definition own_specs (entries : list sourceBreakpoint) (classes : list entryClass) : list BreakpointSpec :=
  omap (fun ec : sourceBreakpoint * entryClass =>
          let '(e, c) := ec in
          if is_own c then Some (mkSpec "" (sb_Line e) (sb_Condition e) "" "" (sb_HitCondition e) (sb_LogMessage e))
          else None) (zip entries classes).
(** The own entries' answers, in order; an entry without one is zero. *)
Fixpoint place (classes : list entryClass) (placed : list dapBp) : list dapBp :=
  match classes with
  | [] => []
  | c :: classes =>
    if is_own c then
      match placed with
      | b :: placed => b :: place classes placed
      | [] => zeroDapBp :: place classes []
      end
    else zeroDapBp :: place classes placed
  end.

(** [answerCopies]: the answers with the other entries' filled in, how many
    were retracted, and the view with what to send after the response. *)
Definition answer_copy (e : sourceBreakpoint) (c : entryClass) (b : dapBp) (v : view) : dapBp * Z * view :=
  match en_kind c with
  | entryEcho => (en_told c, 0, v)
  | entryRetract =>
    let '(id, v) := nextRetractID v in
    (retracted id (sb_Line e), 1, v <| after ::= fun l => l ++ [removedEvent id] |>)
  | entryDuplicate => (zeroDapBp <| d_Line := sb_Line e |> <| d_Message := duplicateMessage |>, 0, v)
  | entryOwn => (b, 0, v)
  end.
Fixpoint answer_copies (l : list (sourceBreakpoint * entryClass * dapBp)) (v : view) : list dapBp * Z * view :=
  match l with
  | [] => ([], 0, v)
  | (e, c, b) :: l =>
    let '(b, n, v) := answer_copy e c b v in
    let '(out, retracts, v) := answer_copies l v in
    (b :: out, n + retracts, v)
  end.
Definition leftoverLine (retracts : Z) (path : string) : dapEvent :=
  consoleLine ("removed " +:+ itoa retracts +:+ " leftover copies of other clients' breakpoints from " +:+ path
               +:+ " (column 1 marks eyedbg's copies)").
Definition answerCopies (path : string) (entries : list sourceBreakpoint) (classes : list entryClass) (out : list dapBp)
    (v : view) : list dapBp * view :=
  let '(out, retracts, v) := answer_copies (zip (zip entries classes) out) v in
  (out, if 0 <? retracts then v <| after ::= fun l => l ++ [leftoverLine retracts path] |> else v).

(** What becomes of the view once the session answered. *)
Definition record_answers (path key : string) (entries : list sourceBreakpoint) (classes : list entryClass)
    (got : option (list Breakpoint)) (v : view) : list dapBp * view :=
  let '(placed, v) := track (false, path) got v in
  let '(out, v) := answerCopies path entries classes (place classes placed) v in
  (out, settle key path entries classes v).

Definition entries_of (breakpoints : option (list sourceBreakpoint)) (lines : list Z) : list sourceBreakpoint :=
  match breakpoints with Some es => es | None => map (fun l => mkSourceBp l 0 "" "" "") lines end.
Definition setBreakpoints (path : string) (entries : list sourceBreakpoint) : served :=
  if maxRequestBreakpoints <? Z.of_nat (length entries) then TRet (inr (tooManyBreakpoints (Z.of_nat (length entries))))
  else
    found <- call (CFileKey path) ;;
    let key := default ""%string found in
    bps <- (if isSome found then call CBreakpoints else TRet []) ;;
    classes <- reads (fun c => classify entries key path (cn_view c) bps (self c)) ;;
    let specs := own_specs entries classes in
    kept <- (if key =?s "" then TRet []
             else local (with_view (fun v => (keep key path v, sourceSeen path key (existsb is_own classes) v)))) ;;
    got <- call (CReplace path specs kept) ;;
    out <- local (with_view (record_answers path key entries classes got.1)) ;;
    TRet (or_fault (SetBreakpointsResponse out) got.2).

Definition setFunctionBreakpoints (bps : list functionBreakpoint) : served :=
  if maxRequestBreakpoints <? Z.of_nat (length bps) then TRet (inr (tooManyBreakpoints (Z.of_nat (length bps))))
  else
    got <- call (CReplaceFunctions (map (fun b => mkSpec "" 0 (fb_Condition b) (fb_Name b) "" (fb_HitCondition b) "") bps)) ;;
    out <- local (with_view (track funcBreakpoints got.1)) ;;
    TRet (or_fault (SetFunctionBreakpointsResponse out) got.2).

(** On a launch connection, a mode the adapter can't serve is none. *)
Definition servable (mode : ExceptionMode) : cprog ExceptionMode :=
  l <- reads launching ;;
  if l && negb (bool_decide (mode = ExceptionsNone)) then
    modes <- call CModes ;;
    if bool_decide (mode ∈ modes) then TRet mode
    else writes (with_launch (fun l => l <| ls_unservable := Some mode |>)) ;;; TRet ExceptionsNone
  else TRet mode.
Definition setExceptionBreakpoints (filters : list string) : served :=
  mode <- servable (exceptionMode filters) ;;
  err <- call (CExceptions mode) ;;
  match err with
  | Some e => TRet (inr e)
  | None => call (CExceptionsSet mode) ;;; TRet (inl SetExceptionBreakpointsResponse)
  end.
(** [afterExceptions] *)
Definition afterExceptions : cprog () :=
  mode <- reads (of_launch None ls_unservable) ;;
  match mode with
  | None => TRet ()
  | Some mode =>
    writes (with_launch (fun l => l <| ls_unservable := None |>)) ;;;
    relay None () (TRet ([consoleLine ("the debug adapter can't stop on " +:+ exception_mode_name mode
                                        +:+ " exceptions: exception stops are off for you")], ())) ;;;
    TRet ()
  end.

(** ** The lease, the breakpoint list *)

Definition lease (a : LeaseArguments) : served :=
  let act := lq_Action a in
  let op o := (r <- call (CLeaseOp o) ;; TRet (answered_by LeaseResponse r)) in
  if act =?s "status" then l <- call CLease ;; TRet (inl (LeaseResponse l))
  else if act =?s "take" then op (OpTake (lq_Force a))
  else if act =?s "release" then op OpRelease
  else if act =?s "request" then op (OpRequest (lq_Message a))
  else if act =?s "grant" then op (OpGrant (lq_To a) (lq_Force a))
  else if act =?s "policy" then
    if lq_Policy a =?s ""
    then TRet (inr (refusal (CommandLease +:+ " policy needs a policy: free, handoff or human-priority") ""))
    else op (OpPolicy (lq_Policy a) (lq_Force a))
  else TRet (inr (refusal (CommandLease +:+ " needs an action: status, take, release, request, grant or policy") "")).

Definition breakpoints (a : BreakpointsArguments) : served :=
  let act := ba_Action a in
  if (act =?s "") || (act =?s "list") then
    bps <- call CBreakpoints ;; TRet (inl (BreakpointsResponse (breakpointsBody bps)))
  else if act =?s "remove" then
    if ba_ID a <? 1 then TRet (inr (refusal (CommandBreakpoints +:+ " remove needs a breakpoint id from 1") ""))
    else
      removed <- call (CRemove (ba_ID a) (ba_Force a)) ;;
      match removed with
      | inl e => TRet (inr e)
      | inr n =>
        bps <- call CBreakpoints ;;
        TRet (inl (BreakpointsResponse ((breakpointsBody bps) <| bb_Removed := n |>)))
      end
  else TRet (inr (refusal (CommandBreakpoints +:+ " needs an action: list or remove") "")).

(** ** Any other request *)

Definition exec (kind : exec_kind) (thread : Z) (r : dapResponse) : served :=
  err <- call (CExec kind thread) ;; TRet (or_fault r err).

(** [stopLaunched]: a session already gone is no error. *)
Definition stopLaunched : cprog (option fault) :=
  err <- call CStop ;;
  TRet (match err with
        | Some e => if bool_decide (fault_code e = Some CodeNoSession) then None else Some e
        | None => None
        end).

Definition serve (req : editorRequest) : served :=
  match req with
  | ContinueRequest t => exec ExecContinue t (ContinueResponse true)
  | NextRequest t => exec ExecNext t NextResponse
  | StepInRequest t => exec ExecStepIn t StepInResponse
  | StepOutRequest t => exec ExecStepOut t StepOutResponse
  | PauseRequest t => exec ExecPause t PauseResponse
  | TerminateRequest =>
    l <- reads launching ;;
    err <- (if l : bool then stopLaunched else call CTerminate) ;;
    TRet (or_fault TerminateResponse err)
  | SetBreakpointsRequest path bps lines => setBreakpoints path (entries_of bps lines)
  | SetFunctionBreakpointsRequest bps => setFunctionBreakpoints bps
  | SetExceptionBreakpointsRequest filters => setExceptionBreakpoints filters
  | LeaseRequest a => lease a
  | ClientsRequest => info <- call CInfo ;; TRet (inl (ClientsResponse (i_Clients info) (i_Lease info)))
  | BreakpointsRequest a => breakpoints a
  | OtherEditorRequest r => x <- call (CForward r) ;; TRet (answered_by OtherResponse x)
  | InitializeRequest _ | AttachRequest _ | LaunchRequest _ | ConfigurationDoneRequest | TerminalRequest _
  | DisconnectRequest _ => TRet (inr (FaultOther "a lifecycle request"))
  end.

Definition setsExceptions (req : editorRequest) : bool :=
  match req with SetExceptionBreakpointsRequest _ => true | _ => false end.
Definition handle_body (id : nat) (req : editorRequest) : cprog () :=
  r <- serve req ;;
  answered <- match r with
              | inl resp => respond id resp
              | inr e => fail id (command_of req) e (isExecution req) ;;; TRet false
              end ;;
  (if setsExceptions req && answered then afterExceptions else TRet ()) ;;;
  if changesBreakpoints req then afterBreakpoints answered else TRet ().
Definition handle (id : nat) (req : editorRequest) : cprog () :=
  if isGated req then gated (handle_body id req) else handle_body id req.
