(* ===== verification/LaunchConn.v ===== *)
(** * Following the log, a launch and the reader (internal/facade/events.go, launch.go, requests.go)

    The follower sends the log's events as DAP events, each translated and
    written in one section under the event gate. [follow_batch] is one turn
    of its loop. Then the launch of a launch connection, and what the reader
    does with each request. *)

From S2P Require Import Prelude GoStrings Api EventLog Prog Message Session Lease Exec Manager Manifest EditorEvents Mirrors Terminal LaunchArgs Threads Facade Handlers.
From Stdlib Require Import Ascii Bool.
Open Scope Z_scope.
Open Scope thread_scope.

(** [reconcileOnce]: the events, and whether the batch has reconciled. *)
Definition reconcileOnce (ran : bool) : cprog (list dapEvent * bool) :=
  if ran then TRet ([], true)
  else
    conf <- reads (fun c => configured (cn_view c)) ;;
    out <- reconcileNow ;;
    TRet (out, conf).

Definition tells (id : Z) (ev : dapEvent) : bool := match ev with BreakpointEvent _ b => d_Id b =? id | _ => false end.
(** The changed event of a breakpoint the connection reported, unless [out]
    already tells of it. *)
Definition told_again (id : Z) (out : list dapEvent) (c : connection) : list dapEvent :=
  if negb (configured (cn_view c)) then out
  else
    match reported (cn_view c) !! id with
    | None => out
    | Some told => if existsb (tells id) out then out else out ++ [breakpointEvent actionChanged told]
    end.
Definition breakpointChanged (ev : Event) (ran : bool) : cprog (list dapEvent * bool) :=
  out <- reconcileOnce ran ;;
  match ev_Breakpoint ev with
  | Some b =>
    if (ev_Action ev =?s actionChanged) && (ev_Client ev =?s "") then
      evs <- reads (told_again (b_ID b) out.1) ;; TRet (evs, out.2)
    else TRet out
  | None => TRet out
  end.

(** What an event of the log sends besides its translation. *)
Definition connectionEvents (ev : Event) (ran : bool) : cprog (list dapEvent * bool) :=
  match ev_Kind ev with
  | EventBreakpoint => breakpointChanged ev ran
  | EventLease => TRet (match ev_Lease ev with Some l => [LeaseEvent l] | None => [] end, ran)
  | EventClient => info <- call CInfo ;; TRet ([ClientsEvent (i_Clients info)], ran)
  | EventStarted | EventExec | EventContinued | EventStopped | EventOutput | EventThread | EventExited | EventEnded
  | EventExceptions => TRet ([], ran)
  end.
(** [connection.translate] *)
Definition translateEvent (ev : Event) (st : followState) (ran : bool) : cprog (list dapEvent * (followState * bool)) :=
  retracts <- (if decide (ev_Kind ev = EventEnded) then local (with_view retractMirrors) else TRet []) ;;
  let '(own, st) := translate ev st in
  more <- connectionEvents ev ran ;;
  self <- reads self ;;
  TRet (retracts ++ own ++ more.1 ++ (if activity ev self then [activityEvent ev] else []), (st, more.2)).

(** The resync of a client that missed events. *)
Definition resyncEvents (dropped : Z) (st : followState) : cprog (list dapEvent * (followState * bool)) :=
  info <- call CInfo ;;
  let '(out, st) := resync dropped info st in
  more <- reconcileOnce false ;;
  TRet (out ++ more.1, (st, more.2)).

(** The events of a batch: whether the follower goes on. *)
Fixpoint follow_events (evs : list Event) (st : followState) (ran : bool) : cprog (bool * followState) :=
  match evs with
  | [] => TRet (true, st)
  | ev :: evs =>
    r <- relay (Some (ev_Seq ev)) (st, ran) (translateEvent ev st ran) ;;
    let '(ok, (st, ran)) := r in
    if negb ok || bool_decide (ev_Kind ev = EventEnded) then TRet (false, st)
    else follow_events evs st ran
  end.

Definition stop_following : cprog () := writes (fun c => c <| cn_follow := None |>).
Definition is_breakpoint_event (ev : Event) : bool := bool_decide (ev_Kind ev = EventBreakpoint).
Definition follow_got (evs : list Event) (dropped : Z) (st : followState) : cprog () :=
  ended <- reads cn_ended ;;
  match last evs with
  | None => stop_following
  | Some newest =>
    if ended : bool then stop_following
    else
      r <- (if 0 <? dropped then relay None (st, false) (resyncEvents dropped st) else TRet (true, (st, false))) ;;
      let '(ok, (st, ran)) := r in
      if negb ok then stop_following
      else
        r <- follow_events evs st ran ;;
        let '(ok, st) := r in
        if negb ok then stop_following
        else
          r <- (if existsb is_breakpoint_event evs
                then relay None () (ev <- breakpointsEvent ;; TRet ([ev], ())) else TRet (true, ())) ;;
          let '(ok, _) := r in
          if negb ok then stop_following
          else writes (fun c => c <| cn_follow := Some (ev_Seq newest, st) |>)
  end.
Definition follow_batch (since : Z) (st : followState) : cprog () :=
  got <- call (CFollow since) ;;
  follow_got got.1 got.2 st.

(** * A launch connection, and the reader (internal/facade/launch.go, requests.go)

    A launch connection starts its session itself: the launch goroutine runs
    the session manager's launch, binds the session from its Configure hook,
    and joins once the launch succeeded. [dispatch] is what the reader does
    with a request. *)

Open Scope Z_scope.
Open Scope thread_scope.

(** What the reader does after handling a request: read the next one, stop,
    or hand a program to the worker ([ordered]) or a goroutine of its own;
    or start the launch goroutine. *)
Inductive reading :=
  | ReadOn
  | Leave
  | HandOver (ordered : bool) (p : cprog ())
  | StartLaunch (p : cprog ()).

(** What the goroutines of the connection's end do ([Serve]): the client
    leaves, after a grace for a restart. *)
Definition closing : cprog () :=
  restart <- reads cn_restart ;;
  joined <- reads (fun c => isSome (cn_sess c)) ;;
  l <- reads launching ;;
  (if joined : bool then call (CLeave restart) else TRet ()) ;;;
  if l : bool then forgetExited else TRet ().

Section launch.
Context {P : PathFns}.

Definition launch_flag (f : launchState → bool) (c : connection) : bool := of_launch false f c.

(** ** The launch goroutine *)

(** [bind], the Configure hook: its error, if any. *)
Definition bound (id : string) (c : connection) : connection := c <| cn_sess := Some id |>.
Definition bind_session (sid : string) (caps : dapCaps) (modes : list ExceptionMode) : cprog bool :=
  gated (
    gone <- reads (fun c => leaving (cn_view c)) ;;
    if gone : bool then TRet false
    else
      writes (bound sid) ;;;
      call CConnect ;;;
      send (SessionEvent sid) ;;;
      send (CapabilitiesEvent (capabilities caps modes)) ;;;
      writes (fun c => c <| cn_phase := phaseAttached |>) ;;;
      send InitializedEvent ;;;
      TRet true).
Definition over (c : connection) : bool := launch_flag ls_cancelled c || cn_ended c.
Definition configured_or_over (c : connection) : bool := launch_flag ls_configured c || over c.
Definition bind (sid : string) (caps : dapCaps) (modes : list ExceptionMode) : cprog (option string) :=
  ok <- bind_session sid caps modes ;;
  if negb ok then TRet (Some "the editor disconnected"%string)
  else
    TWait configured_or_over (
      pick <- call CPick ;;
      go <- reads (fun c => launch_flag ls_configured c && (pick || negb (over c))) ;;
      TRet (if go : bool then None else Some "wait for configurationDone: context canceled"%string)).

(** [launchFailed], under the gate. *)
Definition launchFailed (id : nat) (e : fault) (stopped : bool) : cprog () :=
  gone <- reads (fun c => leaving (cn_view c) || cn_ended c) ;;
  if gone : bool then drop_request id
  else if stopped then fail id "launch" (refusal "the launch was stopped" "") false
  else
    fail id "launch"
      match e with
      | FaultApi _ => e
      | FaultOther text =>
        FaultApi (mkApiError (NewError CodeInternal ("the launch failed: " +:+ text)) "see 'eyedbg daemon logs'" "")
      | FaultContext =>
        FaultApi (mkApiError (NewError CodeInternal "the launch failed: context canceled") "see 'eyedbg daemon logs'" "")
      end true.

(** [runLaunch] once the launch returned; [done] closes last. *)
Definition launch_succeeded (id : nat) : cprog () :=
  writes (with_launch (fun l => l <| ls_launched := true |>)) ;;;
  point <- call CJoinPoint ;;
  writes (fun c => c <| cn_phase := phaseConfigured |>) ;;;
  gone <- reads (fun c => leaving (cn_view c)) ;;
  if gone : bool then drop_request id
  else
    ok <- respond id LaunchResponse ;;
    if negb ok then TRet () else join point.1 point.2.
Definition launch_end (id : nat) (r : fault + ()) : cprog () :=
  stopped <- reads over ;;
  r <- (match r with
        | inr _ => if stopped : bool then stopLaunched ;;; TRet (inl FaultContext) else TRet r
        | inl _ => TRet r
        end) ;;
  gated (
    match r with
    | inl e =>
      writes (fun c => c <| cn_phase := phaseFailed |>) ;;;
      stopped <- reads over ;;
      launchFailed id e stopped
    | inr _ => launch_succeeded id
    end) ;;;
  writes (with_launch (fun l => l <| ls_done := true |> <| ls_cancelled := true |>)).
Definition runLaunch (id : nat) (p : StartParams) (terminal : bool) : cprog () :=
  start <- call (CLaunch p terminal) ;;
  r <- match start with
       | inl e => TRet (inl e)
       | inr (sid, (caps, modes)) =>
         hook <- bind sid caps modes ;;
         call (CLaunchRest hook)
       end ;;
  launch_end id r.

(** ** The reader's part *)

Definition startLaunch (id : nat) (fields : option (list (string * option value))) : cprog reading :=
  ph <- reads cn_phase ;;
  started <- reads (launch_flag ls_started) ;;
  if negb (bool_decide (ph = phaseInitialized)) || started
  then fail id "launch" (refusal "launch needs initialize first, once" "") false ;;; TRet ReadOn
  else
    d <- reads (of_launch (mkFacadeLaunch "" "" false "") ls_defaults) ;;
    match launchParams fields d with
    | Err e => fail id "launch" (FaultApi (mkApiError e "" "")) false ;;; TRet ReadOn
    | Ok (p, terminal) =>
      writes (fun c => with_launch (fun l => l <| ls_started := true |> <| ls_terminal := terminal |>)
                         (c <| cn_phase := phaseLaunching |>)) ;;;
      TRet (StartLaunch (runLaunch id p terminal))
    end.

Definition launchConfigured (id : nat) : cprog () :=
  first <- local (fun c => (negb (launch_flag ls_configOnce c), with_launch (fun l => l <| ls_configOnce := true |>) c)) ;;
  if negb first then fail id "configurationDone" (refusal "configurationDone was already sent" "") false
  else
    respond id ConfigurationDoneResponse ;;;
    writes (with_launch (fun l => l <| ls_configured := true |>)).
Definition launchConfigurationDone (id : nat) : cprog reading :=
  ph <- reads cn_phase ;;
  if negb (bool_decide (ph = phaseAttached))
  then fail id "configurationDone" (refusal "configurationDone needs the initialized event first, once" "") false ;;;
       TRet ReadOn
  else TRet (HandOver true (launchConfigured id)).

(** [terminateLaunch]: not answered once the connection is over or leaving. *)
Definition done_or_ended (c : connection) : bool := launch_flag ls_done c || cn_ended c.
Definition terminateLaunch (id : nat) : cprog () :=
  writes (with_launch (fun l => l <| ls_cancelled := true |>)) ;;;
  TWait done_or_ended (
    pick <- call CPick ;;
    go <- reads (fun c => if cn_ended c then launch_flag ls_done c && pick else true) ;;
    if negb go then drop_request id
    else
      gated (
        gone <- reads (fun c => leaving (cn_view c)) ;;
        if gone : bool then drop_request id
        else
          launched <- reads (launch_flag ls_launched) ;;
          err <- (if launched : bool then stopLaunched else TRet None) ;;
          match err with
          | Some e => fail id "terminate" e true
          | None => respond id TerminateResponse ;;; TRet ()
          end)).

Definition dispatchOther (id : nat) (req : editorRequest) : cprog reading :=
  refused <- reads (admissible req) ;;
  match refused with
  | Some e => fail id (command_of req) e false ;;; TRet ReadOn
  | None => TRet (HandOver (isOrdered req) (handle id req))
  end.
Definition launchTerminate (id : nat) : cprog reading :=
  started <- reads (launch_flag ls_started) ;;
  done <- reads (launch_flag ls_done) ;;
  launched <- reads (launch_flag ls_launched) ;;
  if negb started || (done && negb launched) then respond id TerminateResponse ;;; TRet ReadOn
  else if negb done then TRet (HandOver false (terminateLaunch id))
  else dispatchOther id TerminateRequest.

(** [terminalAnswered] *)
Definition terminal_answered (id : nat) (a : TerminalArguments) : cprog () :=
  err <- local (fun c =>
    match cn_launch c with
    | None => ((terminalAnswered false a noTerminal).1, c)
    | Some l =>
      let '(err, t) := terminalAnswered (ls_started l) a (ls_term l) in
      (err, c <| cn_launch := Some (l <| ls_term := t |>) |>)
    end) ;;
  match err with
  | Some e => fail id CommandRunInTerminal (FaultApi (mkApiError e "" "")) false
  | None => respond id TerminalResponse ;;; TRet ()
  end.

(** [sendTerminal], and a line of the build's output: on goroutines of the
    launch's. *)
Definition sendTerminal (body : TerminalEventBody) : cprog bool :=
  gated (
    gone <- reads (fun c => leaving (cn_view c)) ;;
    if gone : bool then TRet false else send (TerminalEvent body)).
Definition relayLine (ev : dapEvent) : cprog bool := (r <- relay None () (TRet ([ev], ())) ;; TRet r.1).

Definition on (p : cprog ()) : cprog reading := p ;;; TRet ReadOn.
Definition dispatch (id : nat) (req : editorRequest) : cprog reading :=
  l <- reads launching ;;
  match req with
  | InitializeRequest a => on (initialize id a)
  | AttachRequest args =>
    if l : bool
    then on (fail id "attach" (refusal "this connection launches a session: send launch, or join one with 'eyedbg dap -s ID'" "") false)
    else on (attach id args)
  | LaunchRequest fields =>
    if l : bool then startLaunch id fields
    else on (fail id "launch" (refusal "this connection joined a session: attach to it, or launch with 'eyedbg dap --launch'" "") false)
  | ConfigurationDoneRequest => if l : bool then launchConfigurationDone id else on (configurationDone id)
  | TerminalRequest a => on (terminal_answered id a)
  | DisconnectRequest restart => disconnect id restart ;;; TRet Leave
  | TerminateRequest => if l : bool then launchTerminate id else dispatchOther id req
  | _ => dispatchOther id req
  end.

(** What the reader reads: a request, or one that doesn't decode ([unknown]:
    its command isn't known). *)
Inductive incoming := Request (req : editorRequest) | Undecodable (command : string) (unknown : bool).
Definition failDecode (id : nat) (command : string) (unknown : bool) : cprog () :=
  let msg := if unknown then "eyedbg's DAP facade does not support " +:+ command
             else "invalid arguments for " +:+ command in
  fail id command (refusal msg "") false.
Definition read_one (id : nat) (m : incoming) : cprog reading :=
  match m with
  | Undecodable command unknown => on (failDecode id command unknown)
  | Request req =>
    joined <- reads (fun c => isSome (cn_sess c)) ;;
    (if joined : bool then call CTouch else TRet ()) ;;;
    dispatch id req
  end.
End launch.
