(* ===== verification/FacadeSystem.v ===== *)
(** * The goroutines of an editor's connection, together

    The connection's reader, its one worker, the goroutines of its requests
    and of its launch and the follower, over one state, with the session
    going on meanwhile: the step relation of their interleavings. *)

From S2P Require Import Prelude GoStrings Api EventLog Prog Message Session Lease Exec Forward EditorEvents Mirrors Threads.
From S2P Require Import Manager Manifest Terminal LaunchArgs Facade Handlers LaunchConn.
From Stdlib Require Import Bool.

Open Scope Z_scope.

(** ** What the connection needs of a session

    [last_seq] is the number of the log's newest event; [serves c q s x s']:
    the call [q] of the client [c] may answer [x] and take [s] to [s'];
    [others]: what everybody else may do. *)
Class Serves (S : Type) := mkServes {
  last_seq : S → Z;
  serves : Client → ∀ X, sessionCall X → S → X → S → Prop;
  others : S → S → Prop }.
Class ServesLaws (S : Type) `{!Serves S} : Prop := mkLaws {
  others_grow s s' : others s s' → last_seq s ≤ last_seq s';
  serves_grow c X (q : sessionCall X) s x s' : serves c X q s x s' → last_seq s ≤ last_seq s';
  follow_logged c since s evs dropped s' :
    serves c _ (CFollow since) s (evs, dropped) s' → Forall (fun ev => ev_Seq ev ≤ last_seq s') evs }.

(** ** Goroutines *)

(** The goroutine of a request, under its number; the follower; those of the
    launch that write to the editor (its terminal, its build's output); the
    connection's end. *)
Inductive tid := Req (id : nat) | Follower | Side (n : nat) | Closer.
#[global] Instance tid_eq_dec : EqDecision tid.
Proof. solve_decision. Defined.
#[global] Instance tid_countable : Countable tid.
Proof.
  refine (inj_countable'
    (fun t => match t with Req n => inl (inl n) | Side n => inl (inr n) | Follower => inr true | Closer => inr false end)
    (fun x => match x with inl (inl n) => Req n | inl (inr n) => Side n | inr true => Follower | inr false => Closer end) _).
  by intros [].
Defined.

(** [Waiting]: in the ordered worker's queue. *)
Inductive role := Reader | Waiting | Worker | Aux | Launcher | FollowerRole | SideRole.
#[global] Instance role_eq_dec : EqDecision role.
Proof. solve_decision. Defined.

Abbreviation thread := (role * cprog reading)%type.
Definition quiet (p : cprog ()) : cprog reading := (p ;;; TRet ReadOn)%thread.

Section system.
Context {P : PathFns} {S : Type} `{!Serves S}.

(** [y_reading]: the reader goes on; [y_closed]: every goroutine was waited
    for; [y_next] is the next request's number;
    [y_mark] is where the log stood when the gate was taken last. *)
Record sys := mkSys {
  y_sess : S; y_conn : connection; y_gate : option tid; y_threads : gmap tid thread;
  y_next : nat; y_reading : bool; y_closed : bool; y_mark : Z }.
#[global] Instance eta_sys : Eta sys := fun y =>
  mkSys (y_sess y) (y_conn y) (y_gate y) (y_threads y) (y_next y) (y_reading y) (y_closed y) (y_mark y).

Definition held_by (t : tid) (y : sys) : bool := bool_decide (y_gate y = Some t).
Definition has_role (r : role) (y : sys) : Prop := ∃ t p, y_threads y !! t = Some (r, p).
(** The requests handed over and not finished: each holds a slot. *)
Definition in_slot (r : role) : bool := match r with Waiting | Worker | Aux => true | _ => false end.
Definition in_flight (y : sys) : nat := length (List.filter (fun x => in_slot x.2.1) (map_to_list (y_threads y))).

Definition put (t : tid) (r : role) (p : cprog reading) (y : sys) : sys := y <| y_threads ::= <[t := (r, p)]> |>.
Definition ends (t : tid) (y : sys) : sys := y <| y_threads ::= delete t |>.

Inductive fstep : sys → sys → Prop :=
  (* the session goes on without the connection *)
  | st_others y s : others (y_sess y) s → fstep y (y <| y_sess := s |>)
  (* the editor goes away, the daemon stops *)
  | st_break y : fstep y (y <| y_conn ::= fun c => c <| cn_broken := true |> |>)
  | st_cancel y : fstep y (y <| y_conn ::= fun c => c <| cn_ended := true |> |>)
  (* the reader reads a request, or nothing more *)
  | st_read y m : y_reading y = true → ¬ has_role Reader y →
      fstep y (put (Req (y_next y)) Reader (read_one (y_next y) m) y <| y_next ::= Datatypes.S |>)
  | st_eof y : y_reading y = true → ¬ has_role Reader y →
      fstep y (y <| y_reading := false |> <| y_conn ::= fun c => c <| cn_ended := true |> |>)
  (* a goroutine runs; a request in the queue doesn't *)
  | st_local y t r X (f : connection → X * connection) k : y_threads y !! t = Some (r, TLocal f k) → r ≠ Waiting →
      fstep y (put t r (k (f (y_conn y)).1) y <| y_conn := (f (y_conn y)).2 |>)
  | st_call y t r X (q : sessionCall X) k x s : y_threads y !! t = Some (r, TCall q k) → r ≠ Waiting →
      serves (cn_client (y_conn y)) X q (y_sess y) x s →
      fstep y (put t r (k x) y <| y_sess := s |>)
  | st_wait y t r b k : y_threads y !! t = Some (r, TWait b k) → r ≠ Waiting → b (y_conn y) = true →
      fstep y (put t r k y)
  | st_lock y t r k : y_threads y !! t = Some (r, TLock k) → r ≠ Waiting → y_gate y = None →
      fstep y (put t r k y <| y_gate := Some t |> <| y_mark := last_seq (y_sess y) |>)
  | st_unlock y t r k : y_threads y !! t = Some (r, TUnlock k) → r ≠ Waiting →
      fstep y (put t r k y <| y_gate := None |>)
  (* a goroutine ends *)
  | st_end y t r a : y_threads y !! t = Some (r, TRet a) → r ≠ Waiting → r ≠ Reader → fstep y (ends t y)
  (* the reader is done with a request: it reads on, stops, or hands it over *)
  | st_read_on y t : y_threads y !! t = Some (Reader, TRet ReadOn) → fstep y (ends t y)
  | st_leave y t : y_threads y !! t = Some (Reader, TRet Leave) →
      fstep y (ends t y <| y_reading := false |> <| y_conn ::= fun c => c <| cn_ended := true |> |>)
  | st_hand_over y t ordered p : y_threads y !! t = Some (Reader, TRet (HandOver ordered p)) → (in_flight y < maxInFlight)%nat →
      fstep y (put t (if ordered then Waiting else Aux) (quiet p) y)
  | st_drop y id ordered p : y_threads y !! Req id = Some (Reader, TRet (HandOver ordered p)) → cn_ended (y_conn y) = true →
      fstep y (ends (Req id) y <| y_conn ::= fun c => c <| cn_dropped ::= cons id |> |>)
  | st_launch y t p : y_threads y !! t = Some (Reader, TRet (StartLaunch p)) →
      fstep y (put t Launcher (quiet p) y <| y_conn ::= with_launch (fun l => l <| ls_running := true |>) |>)
  (* the worker takes the oldest request of its queue *)
  | st_work y id p : y_threads y !! Req id = Some (Waiting, p) → ¬ has_role Worker y →
      (∀ id' p', y_threads y !! Req id' = Some (Waiting, p') → (id ≤ id')%nat) →
      fstep y (put (Req id) Worker p y)
  (* the follower, the launch's other goroutines, the end *)
  | st_follow y since st : y_threads y !! Follower = None → cn_follow (y_conn y) = Some (since, st) →
      fstep y (put Follower FollowerRole (quiet (follow_batch since st)) y)
  | st_side y n ev : y_threads y !! Side n = None → has_role Launcher y →
      fstep y (put (Side n) SideRole (quiet (relayLine ev ;;; TRet ())%thread) y)
  | st_terminal y n body : y_threads y !! Side n = None → has_role Launcher y →
      fstep y (put (Side n) SideRole (quiet (sendTerminal body ;;; TRet ())%thread) y)
  | st_close y : y_reading y = false → y_threads y = ∅ → cn_follow (y_conn y) = None → y_closed y = false →
      fstep y (put Closer SideRole (quiet closing) y <| y_closed := true |>).

Definition initial (s : S) (c : connection) : sys := mkSys s c None ∅ 0 true false 0.
Definition reachable (s : S) (c : connection) (y : sys) : Prop := rtc fstep (initial s c) y.
End system.
