(* ===== verification/FacadeRun.v ===== *)
(** * Running a connection

    A scheduler of [FacadeSystem]'s goroutines, given who goes next, and that
    what it runs is reachable; a small session to run one against. *)

From S2P Require Import Prelude GoStrings Api EventLog Prog Message Session Lease Exec Forward EditorEvents Mirrors Threads.
From S2P Require Import Manager Manifest Terminal LaunchArgs Facade Handlers LaunchConn FacadeSystem.
From Stdlib Require Import Bool.

Open Scope Z_scope.

(** ** The scheduler *)

(** Who goes next: the reader, with what it reads; a goroutine, a step or as
    far as it gets; the worker, on that request of its queue; the follower. *)
Inductive choice := Read (m : incoming) | Step (t : tid) | Run (t : tid) | Work (id : nat) | Follows | Breaks.

Section run.
Context {P : PathFns} {S : Type} `{!Serves S}.
Abbreviation sys := (sys (S := S)).
(** The answers the session gives. *)
Context (answer : Client → ∀ X, sessionCall X → S → X * S).
Arguments answer _ {X}.
Context (answers_right : ∀ cl X (q : sessionCall X) s, serves cl X q s (answer cl q s).1 (answer cl q s).2).

Definition some_role (r : role) (y : sys) : bool :=
  existsb (fun x : tid * thread => bool_decide (x.2.1 = r)) (map_to_list (y_threads y)).
Definition oldest (id : nat) (y : sys) : bool :=
  forallb (fun x : tid * thread =>
             match x with (Req id', (Waiting, _)) => (id <=? id')%nat | _ => true end) (map_to_list (y_threads y)).

(** What becomes of a goroutine that ended, of the reader's by its result. *)
Definition ended (t : tid) (r : role) (a : reading) (y : sys) : option sys :=
  match r, a with
  | Reader, ReadOn => Some (ends t y)
  | Reader, Leave => Some (ends t y <| y_reading := false |> <| y_conn ::= fun c => c <| cn_ended := true |> |>)
  | Reader, HandOver ordered p =>
    if (in_flight y <? maxInFlight)%nat then Some (put t (if ordered then Waiting else Aux) (quiet p) y) else None
  | Reader, StartLaunch p =>
    Some (put t Launcher (quiet p) y <| y_conn ::= with_launch (fun l => l <| ls_running := true |>) |>)
  | _, _ => Some (ends t y)
  end.
Definition step_thread (t : tid) (y : sys) : option sys :=
  match y_threads y !! t with
  | None | Some (Waiting, _) => None
  | Some (r, p) =>
    match p with
    | TLocal f k => let '(x, c) := f (y_conn y) in Some (put t r (k x) y <| y_conn := c |>)
    | TCall q k => let '(x, s) := answer (cn_client (y_conn y)) q (y_sess y) in Some (put t r (k x) y <| y_sess := s |>)
    | TWait b k => if b (y_conn y) then Some (put t r k y) else None
    | TLock k =>
      if decide (y_gate y = None) then Some (put t r k y <| y_gate := Some t |> <| y_mark := last_seq (y_sess y) |>) else None
    | TUnlock k => Some (put t r k y <| y_gate := None |>)
    | TRet a => ended t r a y
    end
  end.
Fixpoint run_thread (fuel : nat) (t : tid) (y : sys) : sys :=
  match fuel with
  | O => y
  | Datatypes.S fuel => match step_thread t y with Some y => run_thread fuel t y | None => y end
  end.
Definition run1 (ch : choice) (y : sys) : option sys :=
  match ch with
  | Read m =>
    if y_reading y && negb (some_role Reader y)
    then Some (put (Req (y_next y)) Reader (read_one (y_next y) m) y <| y_next ::= Datatypes.S |>) else None
  | Step t => step_thread t y
  | Run t => Some (run_thread 1000 t y)
  | Work id =>
    match y_threads y !! Req id with
    | Some (Waiting, p) => if negb (some_role Worker y) && oldest id y then Some (put (Req id) Worker p y) else None
    | _ => None
    end
  | Follows =>
    match y_threads y !! Follower, cn_follow (y_conn y) with
    | None, Some (since, st) => Some (put Follower FollowerRole (quiet (follow_batch since st)) y)
    | _, _ => None
    end
  | Breaks => Some (y <| y_conn ::= fun c => c <| cn_broken := true |> |>)
  end.
Fixpoint run (l : list choice) (y : sys) : option sys :=
  match l with
  | [] => Some y
  | ch :: l => match run1 ch y with Some y => run l y | None => None end
  end.

(** ** It takes the system's steps *)

Lemma some_role_spec r y : some_role r y = false → ¬ has_role r y.
Proof.
  intros H (t & p & Ht). apply not_true_iff_false in H. apply H. apply existsb_exists. exists (t, (r, p)).
  split; [|by apply bool_decide_eq_true]. by apply list_elem_of_In, elem_of_map_to_list.
Qed.
Lemma oldest_spec id y :
  oldest id y = true → ∀ id' p', y_threads y !! Req id' = Some (Waiting, p') → (id ≤ id')%nat.
Proof.
  unfold oldest. rewrite forallb_forall. intros H id' p' Hp. apply Nat.leb_le.
  apply (H (Req id', (Waiting, p'))). by apply list_elem_of_In, elem_of_map_to_list.
Qed.

Lemma ended_sound t r a y y' :
  y_threads y !! t = Some (r, TRet a) → r ≠ Waiting → ended t r a y = Some y' → fstep y y'.
Proof.
  intros Ht Hr H. destruct r; try done; unfold ended in H.
  2-6: by simplify_eq; eapply st_end.
  destruct a; [| |destruct (_ <? _)%nat eqn:Hf; [|done]|]; simplify_eq.
  - by apply st_read_on.
  - by apply st_leave.
  - apply st_hand_over; [done|by apply Nat.ltb_lt].
  - by apply st_launch.
Qed.
Lemma step_thread_sound t y y' : step_thread t y = Some y' → fstep y y'.
Proof.
  unfold step_thread. destruct (y_threads y !! t) as [[r p]|] eqn:Ht; [|done].
  destruct (decide (r = Waiting)) as [->|Hr]; [done|]. intros H.
  assert (match p with
    | TLocal f k => let '(x, c) := f (y_conn y) in Some (put t r (k x) y <| y_conn := c |>)
    | TCall q k => let '(x, s) := answer (cn_client (y_conn y)) q (y_sess y) in Some (put t r (k x) y <| y_sess := s |>)
    | TWait b k => if b (y_conn y) then Some (put t r k y) else None
    | TLock k =>
      if decide (y_gate y = None) then Some (put t r k y <| y_gate := Some t |> <| y_mark := last_seq (y_sess y) |>) else None
    | TUnlock k => Some (put t r k y <| y_gate := None |>)
    | TRet a => ended t r a y
    end = Some y') as H' by by destruct r. clear H.
  destruct p as [a|X f k|X q k|b k|k|k].
  - by eapply ended_sound.
  - destruct (f (y_conn y)) as [x c] eqn:E. simplify_eq. pose proof (st_local y t r X f k Ht Hr) as Hs. by rewrite E in Hs.
  - pose proof (answers_right (cn_client (y_conn y)) X q (y_sess y)) as Ha.
    destruct (answer _ q _) as [x s]. simplify_eq. by apply (st_call y t r X q k x s).
  - destruct (b (y_conn y)) eqn:E; [|done]. simplify_eq. by apply (st_wait y t r b k).
  - destruct (decide (y_gate y = None)); [|done]. simplify_eq. by apply st_lock.
  - simplify_eq. by apply st_unlock.
Qed.
Lemma run_thread_sound n t y : rtc fstep y (run_thread n t y).
Proof.
  revert y. induction n as [|n IH]; intros y; cbn; [done|]. destruct (step_thread t y) as [y'|] eqn:E; [|done].
  eapply rtc_l; [by eapply step_thread_sound|apply IH].
Qed.
Lemma run1_sound ch y y' : run1 ch y = Some y' → rtc fstep y y'.
Proof.
  destruct ch as [m|t|t|id| |]; unfold run1.
  - destruct (y_reading y && negb (some_role Reader y)) eqn:E; [|done]. intros [= <-].
    apply andb_true_iff in E as [Hr Hn]. apply rtc_once, st_read; [done|by apply some_role_spec, negb_true_iff].
  - intros H. by eapply rtc_once, step_thread_sound.
  - intros H. apply (inj Some) in H as <-. apply run_thread_sound.
  - destruct (y_threads y !! Req id) as [[[] p]|] eqn:Ht; try done.
    destruct (negb (some_role Worker y) && oldest id y) eqn:E; [|done]. intros [= <-].
    apply andb_true_iff in E as [Hw Ho].
    apply rtc_once, st_work; [done|by apply some_role_spec, negb_true_iff|by apply oldest_spec].
  - destruct (y_threads y !! Follower) eqn:Ht; [done|]. destruct (cn_follow (y_conn y)) as [[since st]|] eqn:Hc; [|done].
    intros [= <-]. by apply rtc_once, st_follow.
  - intros [= <-]. apply rtc_once, st_break.
Qed.
Lemma run_sound l y y' : run l y = Some y' → rtc fstep y y'.
Proof.
  revert y. induction l as [|ch l IH]; intros y; cbn; [by intros [= <-]|].
  destruct (run1 ch y) as [y1|] eqn:E; [|done]. intros H. etrans; [by eapply run1_sound|by apply IH].
Qed.
Lemma run_reachable l s c y : run l (initial s c) = Some y → reachable s c y.
Proof. apply run_sound. Qed.
End run.

(** ** A session to run against

    Its state is the number of its newest event; continuing the program
    appends one, which following returns. *)
Definition sample_info : SessionInfo := infoLocked (sample_session LeaseFree).
Definition sample_answer (cl : Client) {X} (q : sessionCall X) (s : Z) : X * Z :=
  match q in sessionCall X return X * Z with
  | CTouch => ((), s)
  | CConnect => ((), s + 1)
  | CReady => (inr noCaps, s)
  | CModes => ([ExceptionsUncaught], s)
  | CJoinPoint => ((sample_info, s), s)
  | COutputBefore _ _ _ => (([], 0), s)
  | CInfo => (sample_info, s)
  | CBreakpoints => ([], s)
  | CFileKey path => (Some path, s)
  | CExec _ _ => (None, s + 1)
  | CTerminate => (None, s)
  | CStop => (None, s)
  | CReplace _ _ _ => ((None, None), s)
  | CReplaceFunctions _ => ((None, None), s)
  | CExceptions _ => (None, s)
  | CExceptionsSet _ => ((), s)
  | CLease => (i_Lease sample_info, s)
  | CLeaseOp _ => (inr (i_Lease sample_info), s + 1)
  | CRemove _ _ => (inr 0, s)
  | CForward _ => (inl (FaultOther "no adapter"), s)
  | CFollow since => ((if since <? s then [(event EventExec) <| ev_Seq := s |> <| ev_Action := "continue" |>] else [], 0), s)
  | CPick => (true, s)
  | CLeave _ => ((), s)
  | CLaunch _ _ => (inl (FaultOther "no adapter"), s)
  | CLaunchRest _ => (inr (), s)
  end.
#[global] Instance sample_serves : Serves Z :=
  mkServes Z id (fun cl X q s x s' => (x, s') = sample_answer cl q s) Z.le.
#[global] Instance sample_laws : ServesLaws Z.
Proof.
  constructor; cbn.
  - done.
  - intros c X q s x s' H. destruct q; cbn in H; simplify_eq; lia.
  - intros c since s evs dropped s' H. simplify_eq/=. destruct (since <? s); [|done]. apply Forall_singleton. cbn. lia.
Qed.
Lemma sample_right cl X (q : sessionCall X) s : serves cl X q s (sample_answer cl q s).1 (sample_answer cl q s).2.
Proof. cbn. by destruct (sample_answer cl q s). Qed.

(** An editor attaches, continues, and leaves while the program's event comes. *)
Definition sample_editor : Client := mkClient "e1" "editor" "Editor".
Definition editor_session : list choice :=
  [Read (Request (InitializeRequest (mkInitialize true true "path" false))); Run (Req 0);
   Read (Request (AttachRequest (Some None))); Run (Req 1);
   Read (Request ConfigurationDoneRequest); Run (Req 2);
   Read (Request (ContinueRequest 1)); Run (Req 3); Work 3; Run (Req 3);
   Follows; Run Follower].
Definition editor_leaves : list choice := [Read (Request (DisconnectRequest false)); Run (Req 4); Follows; Run Follower].
(** The worker is about to continue the program. *)
Definition editor_continues : list choice := firstn 8 editor_session ++ [Work 3; Step (Req 3)].
Definition sample_start : connection := attached_conn sample_editor "s1".
Definition sample_state (l : list choice) : sys (S := Z) :=
  default (initial 0 sample_start) (run (P := unixPaths) (@sample_answer) l (initial 0 sample_start)).
Lemma sample_reachable l : reachable (P := unixPaths) 0 sample_start (sample_state l).
Proof.
  unfold sample_state. destruct (run _ l _) as [y|] eqn:E; cbn; [|apply rtc_refl].
  by apply (run_reachable (P := unixPaths) (@sample_answer) sample_right l).
Qed.
