(* ===== verification/FacadeSafe.v ===== *)
(** * What each goroutine of a connection guarantees

    A step's guarantee and what a goroutine relies on ([step_of], [seen_by]),
    that they fit ([seen_step]), and that every handler keeps its own. *)

From S2P Require Import Prelude GoStrings Api EventLog Prog Message Session Lease Exec Forward EditorEvents Mirrors Threads.
From S2P Require Import Manager Manifest Terminal LaunchArgs Facade Handlers LaunchConn FacadeSystem.
From Stdlib Require Import Bool.

Open Scope Z_scope.

(** ** What was written *)

Definition answers (m : message) : list nat := match m with Answered id _ | Failed id _ _ => [id] | Sent _ _ => [] end.
Definition answered (id : nat) (c : connection) : Prop := id ∈ concat (map answers (cn_out c)).
(** A request's handling is over: answered, or left because the connection closes. *)
Definition settled (id : nat) (c : connection) : Prop := answered id c ∨ id ∈ cn_dropped c ∨ cn_closed c = true.

(** Until the launch goroutine runs, only the reader moves the phase. *)
Definition early (c : connection) : bool := negb (of_launch false ls_running c).
Definition phase_inv (c : connection) : Prop :=
  early c = false → cn_phase c ≠ phaseNew ∧ cn_phase c ≠ phaseInitialized.
Definition is_leaving (c : connection) : bool := leaving (cn_view c).

(** The connection is closing: it leaves, or its context ended. *)
Definition is_closing (c : connection) : bool := is_leaving c || cn_ended c.

(** ** The calls that change something *)

Definition runs_program {X} (q : sessionCall X) : bool :=
  match q with CExec _ _ | CTerminate => true | CForward r => ForwardsAsExecution r | _ => false end.
(** What changes the program's run, the breakpoints or the lease for a
    request: a session is stopped for one that is handled by the worker or a
    goroutine of its own (terminate). A launch's goroutine stops the session
    of its own cancelled launch, and the reader and the closing goroutine
    have the manager forget one that exited. *)
Definition changes {X} (r : role) (q : sessionCall X) : bool :=
  match q with
  | CReplace _ _ _ | CReplaceFunctions _ | CLeaseOp _ | CRemove _ _ => true
  | CStop => match r with Worker | Aux => true | Reader | Waiting | Launcher | FollowerRole | SideRole => false end
  | _ => runs_program q
  end.
(** The exception mode, and the client's end: its editor breakpoints and its lease. *)
Definition sets_exceptions {X} (q : sessionCall X) : bool :=
  match q with CExceptions _ | CExceptionsSet _ => true | _ => false end.
Definition leaves {X} (q : sessionCall X) : bool := match q with CLeave _ => true | _ => false end.
(** A call that none of this is about. *)
Definition asks {X} (q : sessionCall X) : bool :=
  match q with CStop => false | _ => negb (changes Worker q || sets_exceptions q || leaves q) end.

Section safe.
Context {P : PathFns} {S : Type} `{!Serves S}.

Abbreviation world := (S * connection)%type.

Definition may_call (t : tid) (r : role) (held : bool) (X : Type) (q : sessionCall X) (w : world) : Prop :=
  (changes r q = true → held = true) ∧ (runs_program q = true → cn_phase w.2 = phaseConfigured) ∧
  (sets_exceptions q = true → r = Worker) ∧ (leaves q = true → t = Closer).
(** The gate is given back once the request is settled; a launch's goroutine
    also gives it back when it bound its session. *)
Definition binding (c : connection) : Prop := cn_phase c = phaseLaunching ∨ cn_phase c = phaseAttached.
Definition may_release (t : tid) (r : role) (w : world) : Prop :=
  match t with Req id => settled id w.2 ∨ r = Launcher ∧ binding w.2 | Follower | Side _ | Closer => True end.

(** A goroutine blocks only on a launch, without the gate, and not once the
    connection's context ended. *)
Definition may_wait (held : bool) (b : connection → bool) (w : world) : Prop :=
  held = false ∧ launching w.2 = true ∧ (cn_ended w.2 = true → b w.2 = true).

(** A message the goroutine [t] of role [r] may write. *)
Definition may_write (t : tid) (r : role) (held : bool) (w : world) (m : message) : Prop :=
  match m with
  | Answered id resp => t = Req id ∧ ¬ answered id w.2 ∧ (resp = DisconnectResponse → is_leaving w.2 = true)
  | Failed id _ _ => t = Req id ∧ ¬ answered id w.2
  | Sent None _ => is_leaving w.2 = false
  | Sent (Some seq) _ => is_leaving w.2 = false ∧ r = FollowerRole ∧ held = true ∧ seq ≤ last_seq w.1
  end.

Record step_of (t : tid) (r : role) (held : bool) (w w' : world) : Prop := {
  so_log : last_seq w.1 ≤ last_seq w'.1;
  so_client : cn_client w'.2 = cn_client w.2;
  so_launch : launching w'.2 = launching w.2;
  so_out : cn_out w'.2 = cn_out w.2 ∨ ∃ m, cn_out w'.2 = cn_out w.2 ++ [m] ∧ may_write t r held w m;
  so_dropped : ∀ id, id ∈ cn_dropped w.2 → id ∈ cn_dropped w'.2;
  so_drops id : id ∈ cn_dropped w'.2 → id ∈ cn_dropped w.2 ∨ is_closing w.2 = true;
  so_closed : cn_closed w.2 = true → cn_closed w'.2 = true;
  so_closes : cn_closed w'.2 = true → cn_closed w.2 = true ∨ cn_broken w.2 = true;
  so_broken : cn_broken w'.2 = cn_broken w.2;
  so_ended : cn_ended w'.2 = cn_ended w.2;
  so_view : held = false → cn_view w'.2 = cn_view w.2;
  so_leaving : is_leaving w'.2 = is_leaving w.2 ∨ (r = Reader ∧ is_leaving w'.2 = true);
  so_phase : cn_phase w'.2 = cn_phase w.2 ∨
             (cn_phase w.2 ≠ phaseConfigured ∧ if early w.2 then r = Reader else r = Launcher);
  so_early : early w'.2 = early w.2;
  so_inv : phase_inv w.2 → phase_inv w'.2 }.

(** What the goroutine sees the others do. *)
Record seen_by (t : tid) (r : role) (held : bool) (w w' : world) : Prop := {
  se_log : last_seq w.1 ≤ last_seq w'.1;
  se_client : cn_client w'.2 = cn_client w.2;
  se_launch : launching w'.2 = launching w.2;
  se_out : ∀ id, answered id w.2 → answered id w'.2;
  se_own : ∀ id, t = Req id → answered id w'.2 → answered id w.2;
  se_dropped : ∀ id, id ∈ cn_dropped w.2 → id ∈ cn_dropped w'.2;
  se_closed : cn_closed w.2 = true → cn_closed w'.2 = true;
  se_view : held = true → cn_view w'.2 = cn_view w.2;
  se_leaving : is_leaving w.2 = true → is_leaving w'.2 = true;
  se_reader_leaving : r = Reader → is_leaving w'.2 = is_leaving w.2;
  se_configured : cn_phase w.2 = phaseConfigured → cn_phase w'.2 = phaseConfigured;
  se_phase : (if early w.2 then r = Reader else r = Launcher) → cn_phase w'.2 = cn_phase w.2;
  se_early : r = Reader ∨ r = Launcher → early w'.2 = early w.2;
  se_inv : phase_inv w.2 → phase_inv w'.2;
  se_ended : cn_ended w.2 = true → cn_ended w'.2 = true }.

#[global] Instance seen_by_preorder t r held : PreOrder (seen_by t r held).
Proof.
  split; [by constructor|]. intros w1 w2 w3 H1 H2. constructor.
  - etrans; [apply H1|apply H2].
  - etrans; [apply H2|apply H1].
  - etrans; [apply H2|apply H1].
  - intros id H. by apply H2, H1.
  - intros id Hid H. by apply (se_own _ _ _ _ _ H1 id Hid), (se_own _ _ _ _ _ H2 id Hid).
  - intros id H. by apply H2, H1.
  - intros H. by apply H2, H1.
  - intros H. rewrite (se_view _ _ _ _ _ H2 H). apply H1, H.
  - intros H. by apply H2, H1.
  - intros H. rewrite (se_reader_leaving _ _ _ _ _ H2 H). apply H1, H.
  - intros H. by apply H2, H1.
  - intros H. rewrite <- (se_phase _ _ _ _ _ H1 H). apply H2.
    rewrite (se_early _ _ _ _ _ H1); [done|]. destruct (early w1.2); auto.
  - intros H. rewrite (se_early _ _ _ _ _ H2 H). by apply H1.
  - intros H. by apply H2, H1.
  - intros H. by apply H2, H1.
Qed.

Lemma answered_snoc id l m : id ∈ concat (map answers (l ++ [m])) ↔ id ∈ concat (map answers l) ∨ id ∈ answers m.
Proof. rewrite map_app, concat_app. cbn. by rewrite app_nil_r, elem_of_app. Qed.

(** A step of one goroutine is what the others see. *)
Lemma seen_step t r held t' r' held' w w' :
  t ≠ t' → (held = true → held' = false) → (r = Reader → r' ≠ Reader) → (r = Launcher → r' ≠ Launcher) →
  step_of t r held w w' → seen_by t' r' held' w w'.
Proof.
  intros Ht Hh Hr Hl H. constructor; try apply H.
  - intros id Hid. unfold answered in *. destruct (so_out _ _ _ _ _ H) as [->|(m & -> & _)]; [done|].
    apply answered_snoc. by left.
  - intros id -> Hid. unfold answered in *. destruct (so_out _ _ _ _ _ H) as [Ho|(m & Ho & Hm)]; rewrite Ho in Hid; [done|].
    apply answered_snoc in Hid as [Hid|Hid]; [done|]. destruct m; cbn in *.
    + apply list_elem_of_singleton in Hid as ->. by destruct Hm.
    + apply list_elem_of_singleton in Hid as ->. by destruct Hm.
    + by apply elem_of_nil in Hid.
  - intros ->. apply H. destruct held; [|done]. by specialize (Hh eq_refl).
  - intros Hlv. destruct (so_leaving _ _ _ _ _ H) as [->|[_ ?]]; done.
  - intros ->. destruct (so_leaving _ _ _ _ _ H) as [?|[Hrr _]]; [done|]. by specialize (Hr Hrr).
  - intros Hc. destruct (so_phase _ _ _ _ _ H) as [->|[? _]]; done.
  - intros He. destruct (so_phase _ _ _ _ _ H) as [?|[_ Hp]]; [done|]. destruct (early w.2); subst.
    + by specialize (Hr eq_refl).
    + by specialize (Hl eq_refl).
  - intros _. apply H.
  - by rewrite (so_ended _ _ _ _ _ H).
Qed.

(** ** Programs of one goroutine *)

Context {HL : ServesLaws S}.
Definition any_client (X : Type) (q : sessionCall X) (s : S) (x : X) (s' : S) : Prop := ∃ cl, serves cl X q s x s'.

Section goroutine.
Variables (t : tid) (r : role).

Definition safe {A} (held : bool) (p : cprog A) (post : A → bool → world → Prop) (w : world) : Prop :=
  tsafe any_client (seen_by t r) (step_of t r) (may_call t r) may_wait (may_release t r) held p post w.

Lemma thread_bind {A B} held (p : cprog A) (k : A → cprog B) post post' w :
  safe held p post w → (∀ a h w, post a h w → safe h (k a) post' w) → safe held (tbind p k) post' w.
Proof. apply tsafe_bind. apply _. Qed.
Lemma thread_post {A} held (p : cprog A) (post post' : A → bool → world → Prop) w :
  (∀ a h w, post a h w → post' a h w) → safe held p post w → safe held p post' w.
Proof. apply tsafe_post. Qed.

Lemma safe_returns {A} held (p : cprog A) post (ok : A → Prop) w :
  returns ok p → safe held p post w → safe held p (fun a h w => post a h w ∧ ok a) w.
Proof. apply tsafe_returns. Qed.

(** What holds of a goroutine's own steps too, as long as it neither answers
    its request nor moves the phase. *)
Record moved (held : bool) (w w' : world) : Prop := {
  mv_log : last_seq w.1 ≤ last_seq w'.1;
  mv_launch : launching w'.2 = launching w.2;
  mv_out : ∀ id, answered id w.2 → answered id w'.2;
  mv_dropped : ∀ id, id ∈ cn_dropped w.2 → id ∈ cn_dropped w'.2;
  mv_closed : cn_closed w.2 = true → cn_closed w'.2 = true;
  mv_leaving : held = true ∨ r = Reader → is_leaving w'.2 = is_leaving w.2;
  mv_configured : cn_phase w.2 = phaseConfigured → cn_phase w'.2 = phaseConfigured;
  mv_phase : (if early w.2 then r = Reader else r = Launcher) → cn_phase w'.2 = cn_phase w.2;
  mv_early : r = Reader ∨ r = Launcher → early w'.2 = early w.2;
  mv_inv : phase_inv w.2 → phase_inv w'.2;
  mv_gone : is_leaving w.2 = true → is_leaving w'.2 = true;
  mv_ended : cn_ended w.2 = true → cn_ended w'.2 = true }.
Definition kept (held : bool) (w w' : world) : Prop :=
  moved held w w' ∧ ∀ id, t = Req id → answered id w'.2 → answered id w.2.

#[global] Instance moved_preorder held : PreOrder (moved held).
Proof.
  split; [by constructor|]. intros w1 w2 w3 H1 H2. constructor.
  - etrans; [apply H1|apply H2].
  - etrans; [apply H2|apply H1].
  - intros id H. by apply H2, H1.
  - intros id H. by apply H2, H1.
  - intros H. by apply H2, H1.
  - intros H. rewrite (mv_leaving _ _ _ H2 H). by apply H1.
  - intros H. by apply H2, H1.
  - intros H. rewrite <- (mv_phase _ _ _ H1 H). apply H2.
    rewrite (mv_early _ _ _ H1); [done|]. destruct (early w1.2); auto.
  - intros H. rewrite (mv_early _ _ _ H2 H). by apply H1.
  - intros H. by apply H2, H1.
  - intros H. by apply H2, H1.
  - intros H. by apply H2, H1.
Qed.
#[global] Instance kept_preorder held : PreOrder (kept held).
Proof.
  split; [by split|]. intros w1 w2 w3 [H1 K1] [H2 K2]. split; [by etrans|]. intros id Hid H. eauto.
Qed.

Lemma seen_moved held w w' : seen_by t r held w w' → moved held w w'.
Proof.
  intros H. constructor; try apply H. intros [Hh|Hr]; [|by apply H].
  unfold is_leaving. by rewrite (se_view _ _ _ _ _ H Hh).
Qed.
Lemma seen_kept held w w' : seen_by t r held w w' → kept held w w'.
Proof. intros H. split; [by apply seen_moved|apply H]. Qed.

(** A call leaves the connection as it is. *)
Lemma called_moved held s s' c : last_seq s ≤ last_seq s' → moved held (s, c) (s', c).
Proof. by constructor. Qed.
Lemma called_step held s s' c : last_seq s ≤ last_seq s' → step_of t r held (s, c) (s', c).
Proof. intros H. constructor; try done; by left. Qed.

Definition settled_in (id : nat) (w : world) : Prop := settled id w.2.
Lemma settled_moved held id w w' : moved held w w' → settled_in id w → settled_in id w'.
Proof. intros H [Ha|[Hd|Hc]]; [left|right; left|right; right]; by apply H. Qed.

(** [keeps held p pre]: from [pre], the program does nothing the others may
    not see, without answering. *)
Definition keeps {A} (held : bool) (p : cprog A) (pre : world → Prop) : Prop :=
  ∀ w, pre w → safe held p (fun _ h w' => h = held ∧ kept held w w') w.
Definition lasting (held : bool) (pre : world → Prop) : Prop := ∀ w w', kept held w w' → pre w → pre w'.

Definition calm (w : world) : Prop := is_leaving w.2 = false.
Lemma calm_lasting : lasting true calm.
Proof. intros w w' [H _] Hc. unfold calm. rewrite (mv_leaving _ _ _ H); auto. Qed.
Lemma true_lasting held : lasting held (fun _ => True).
Proof. done. Qed.

Lemma keeps_ret {A} held (a : A) pre : keeps held (TRet a) pre.
Proof. intros w _ w' H. split; [done|by apply seen_kept]. Qed.
Lemma keeps_bind {A B} held (p : cprog A) (k : A → cprog B) pre :
  lasting held pre → keeps held p pre → (∀ a, keeps held (k a) pre) → keeps held (tbind p k) pre.
Proof.
  intros Hl Hp Hk w Hw. eapply thread_bind; [exact (Hp w Hw)|]. intros a h w' [-> Hkp].
  eapply thread_post; [|exact (Hk a w' (Hl _ _ Hkp Hw))]. intros b h w2 [-> H2]. split; [done|by etrans].
Qed.
Lemma keeps_weaken {A} held (p : cprog A) (pre pre' : world → Prop) :
  (∀ w, pre' w → pre w) → keeps held p pre → keeps held p pre'.
Proof. intros H Hp w Hw. apply Hp, H, Hw. Qed.

(** *** The steps *)

Lemma step_refl held w : step_of t r held w w.
Proof. constructor; try done; by left. Qed.

(** An access whose result and change the others don't care about. *)
Record meek (f : connection → connection) : Prop := {
  mk_client c : cn_client (f c) = cn_client c;
  mk_launch c : launching (f c) = launching c;
  mk_out c : cn_out (f c) = cn_out c;
  mk_dropped c : cn_dropped (f c) = cn_dropped c;
  mk_closed c : cn_closed (f c) = cn_closed c;
  mk_view c : cn_view (f c) = cn_view c;
  mk_phase c : cn_phase (f c) = cn_phase c;
  mk_early c : early (f c) = early c;
  mk_broken c : cn_broken (f c) = cn_broken c;
  mk_ended c : cn_ended (f c) = cn_ended c }.
Lemma meek_step held f w : meek f → step_of t r held w (w.1, f w.2).
Proof.
  intros H. constructor; cbn; unfold is_leaving.
  - done.
  - apply H.
  - apply H.
  - left. apply H.
  - by rewrite (mk_dropped _ H).
  - rewrite (mk_dropped _ H). by left.
  - by rewrite (mk_closed _ H).
  - rewrite (mk_closed _ H). by left.
  - apply H.
  - apply H.
  - intros _. apply H.
  - left. by rewrite (mk_view _ H).
  - left. apply H.
  - apply H.
  - unfold phase_inv. by rewrite (mk_early _ H), (mk_phase _ H).
Qed.
Lemma meek_kept held f w : meek f → kept held w (w.1, f w.2).
Proof.
  intros H. split.
  - constructor; cbn; unfold answered, is_leaving.
    + done.
    + apply H.
    + by rewrite (mk_out _ H).
    + by rewrite (mk_dropped _ H).
    + by rewrite (mk_closed _ H).
    + by rewrite (mk_view _ H).
    + by rewrite (mk_phase _ H).
    + intros _. apply H.
    + intros _. apply H.
    + unfold phase_inv. by rewrite (mk_early _ H), (mk_phase _ H).
    + by rewrite (mk_view _ H).
    + by rewrite (mk_ended _ H).
  - intros id _. unfold answered. cbn. by rewrite (mk_out _ H).
Qed.

Lemma keeps_local {X} held (f : connection → X * connection) pre : meek (fun c => (f c).2) → keeps held (local f) pre.
Proof.
  intros Hf w _ w1 H1. split; [by apply (meek_step held _ w1 Hf)|]. intros w2 H2. split; [done|].
  etrans; [by apply seen_kept|]. etrans; [by apply (meek_kept held _ w1 Hf)|by apply seen_kept].
Qed.
Lemma keeps_reads {X} held (f : connection → X) pre : keeps held (reads f) pre.
Proof. by apply (keeps_local held (fun c => (f c, c))). Qed.
Lemma keeps_writes held f pre : meek f → keeps held (writes f) pre.
Proof. intros Hf. by apply (keeps_local held (fun c => ((), f c))). Qed.

(** A change of the view, under the gate. *)
Lemma keeps_view {X} (f : connection → view → X * view) pre :
  (∀ c v, leaving (f c v).2 = leaving v) → keeps true (local (fun c => with_view (f c) c)) pre.
Proof.
  intros Hf w _ w1 H1. set (w2 := (w1.1, (with_view (f w1.2) w1.2).2) : world).
  assert (cn_view w2.2 = (f w1.2 (cn_view w1.2)).2 ∧ w2.2 = w1.2 <| cn_view := (f w1.2 (cn_view w1.2)).2 |>) as [Hv Hw].
  { unfold w2, with_view. cbn. by destruct (f w1.2 (cn_view w1.2)). }
  assert (is_leaving w2.2 = is_leaving w1.2) as Hl by (unfold is_leaving; by rewrite Hv, Hf).
  split.
  - constructor; rewrite ?Hw; try done; try (by left). left. by rewrite <- Hw.
  - intros w3 H3. split; [done|]. etrans; [by apply seen_kept|]. etrans; [|by apply seen_kept].
    split; [|unfold answered; by rewrite Hw]. constructor; unfold answered; rewrite ?Hw; try done; rewrite <- Hw, Hl; done.
Qed.

Lemma keeps_call {X} held (q : sessionCall X) pre :
  (changes r q = true → held = true) → (sets_exceptions q = true → r = Worker) → (leaves q = true → t = Closer) →
  (∀ w w', pre w → seen_by t r held w w' → runs_program q = true → cn_phase w'.2 = phaseConfigured) →
  keeps held (call q) pre.
Proof.
  intros Hc Hx Hv Hp w Hw w1 H1. split; [split_and!; try done; by apply (Hp w)|].
  intros x s' [cl Hs]. apply serves_grow in Hs. destruct w1 as [s c]. split; [by apply called_step|].
  intros w2 H2. split; [done|]. etrans; [by apply seen_kept|]. etrans; [|by apply seen_kept].
  split; [by apply called_moved|done].
Qed.
Lemma keeps_asks {X} held (q : sessionCall X) pre : asks q = true → keeps held (call q) pre.
Proof.
  intros Hq. assert (changes r q || runs_program q || sets_exceptions q || leaves q = false) as Hn.
  { destruct q; try done; cbn in *; try (by destruct r); by destruct (ForwardsAsExecution _). }
  repeat (apply orb_false_iff in Hn as [Hn ?]). apply keeps_call; intros; congruence.
Qed.
Lemma keeps_changes {X} (q : sessionCall X) pre :
  runs_program q || sets_exceptions q || leaves q = false → keeps true (call q) pre.
Proof. intros Hq. repeat (apply orb_false_iff in Hq as [Hq ?]). apply keeps_call; intros; congruence. Qed.
Lemma keeps_stop held pre : (r = Worker ∨ r = Aux → held = true) → keeps held (call CStop) pre.
Proof. intros Hh. apply keeps_call; try done. intros Hc. apply Hh. destruct r; cbn in Hc; auto; done. Qed.

(** Writing an event; the seq of one of the log's is in the log. *)
Definition may_send (held : bool) (seq : option Z) (w : world) : Prop :=
  calm w ∧ match seq with Some n => r = FollowerRole ∧ held = true ∧ n ≤ last_seq w.1 | None => True end.
Lemma may_send_lasting seq : lasting true (may_send true seq).
Proof.
  intros w w' Hk [Hc Hs]. split; [by apply (calm_lasting _ _ Hk)|]. destruct seq as [n|]; [|done].
  destruct Hs as (? & ? & ?), Hk as [Hm _]. split_and!; try done. pose proof (mv_log _ _ _ Hm). lia.
Qed.

(** What [write] does. *)
Lemma write_cases m c :
  ((write m c).2 = c <| cn_closed := true |> ∧ cn_broken c = true) ∨
  ((write m c).2 = c <| cn_out ::= fun l => l ++ [m] |> ∧ (write m c).1 = true).
Proof. unfold write. destruct (cn_broken c); [by left|by right]. Qed.
Lemma write_step held m w : may_write t r held w m → step_of t r held w (w.1, (write m w.2).2).
Proof.
  intros Hm. destruct (write_cases m w.2) as [[-> Hb]|[-> _]]; constructor; cbn; try done; try (by left); try (by right).
  right. by exists m.
Qed.
Lemma write_moved held m w : moved held w (w.1, (write m w.2).2).
Proof.
  destruct (write_cases m w.2) as [[-> _]|[-> _]]; constructor; cbn; try done.
  intros id H. apply answered_snoc. by left.
Qed.
Lemma write_sent held seq ev w : kept held w (w.1, (write (Sent seq ev) w.2).2).
Proof.
  split; [apply write_moved|]. intros id _ H. destruct (write_cases (Sent seq ev) w.2) as [[Hw _]|[Hw _]]; rewrite Hw in H; [done|].
  apply answered_snoc in H as [H|H]; [done|]. by apply elem_of_nil in H.
Qed.
Lemma keeps_sent seq ev : keeps true (local (write (Sent seq ev))) (may_send true seq).
Proof.
  intros w Hw w1 H1. pose proof (may_send_lasting _ _ _ (seen_kept _ _ _ H1) Hw) as [Hc Hs]. split.
  - apply write_step. destruct seq; cbn; [|done]. by destruct Hs as (? & ? & ?).
  - intros w2 H2. split; [done|]. etrans; [by apply seen_kept|]. etrans; [by apply write_sent|by apply seen_kept].
Qed.
Lemma keeps_send ev : keeps true (send ev) calm.
Proof. apply (keeps_weaken _ _ (may_send true None)); [by split|apply keeps_sent]. Qed.
Lemma keeps_sendAll evs : keeps true (sendAll evs) calm.
Proof.
  induction evs as [|ev evs IH]; [apply keeps_ret|]. apply keeps_bind; [apply calm_lasting|apply keeps_send|done].
Qed.
Lemma keeps_send_until seq evs : keeps true (send_until seq evs) (may_send true seq).
Proof.
  induction evs as [|ev evs IH]; [apply keeps_ret|].
  apply keeps_bind; [apply may_send_lasting|apply keeps_sent|]. intros []; [done|apply keeps_ret].
Qed.

(** *** Under the gate *)

Lemma moved_gate w w' : moved true w w' → moved false w w'.
Proof. intros H. constructor; try apply H. intros [?|?]; [done|]. apply H. by right. Qed.
Lemma kept_gate w w' : kept true w w' → kept false w w'.
Proof. intros [H Hk]. split; [by apply moved_gate|done]. Qed.

Lemma keeps_gated {A} (p : cprog A) (pre : world → Prop) :
  lasting false pre → lasting true pre → (∀ w, pre w → may_release t r w) → keeps true p pre → keeps false (gated p) pre.
Proof.
  intros Hl Hlt Hm Hp w Hw. split; [done|]. intros w1 H1. pose proof (Hl _ _ (seen_kept _ _ _ H1) Hw) as Hw1.
  eapply thread_bind; [apply (Hp _ Hw1)|]. intros a h w2 [-> H2]. split; [done|]. intros w3 H3.
  split; [apply Hm, (Hlt w2); [by apply seen_kept|]; by apply (Hlt w1)|]. intros w4 H4. split; [done|].
  etrans; [by apply seen_kept|]. etrans; [by apply kept_gate|].
  etrans; [by eapply kept_gate, seen_kept|by apply seen_kept].
Qed.

(** The check whether the connection is leaving. *)
Lemma keeps_check {A} (p q : cprog A) (pre : world → Prop) :
  lasting true pre → keeps true p pre → keeps true q (fun w => pre w ∧ calm w) →
  keeps true (gone <- reads (fun c => leaving (cn_view c)) ;; if gone : bool then p else q)%thread pre.
Proof.
  intros Hl Hp Hq w Hw [s1 c1] H1. split; [apply step_refl|]. pose proof (seen_kept _ _ _ H1) as K1. cbn.
  pose proof (Hl _ _ K1 Hw) as Hw1. destruct (leaving (cn_view c1)) eqn:E.
  - eapply thread_post; [|exact (Hp _ Hw1)]. intros a h w2 [-> H2]. split; [done|by etrans].
  - eapply thread_post; [|exact (Hq _ (conj Hw1 E))]. intros a h w2 [-> H2]. split; [done|by etrans].
Qed.
Lemma lasting_and held pre pre' : lasting held pre → lasting held pre' → lasting held (fun w => pre w ∧ pre' w).
Proof. intros H H' w w' K [? ?]. eauto. Qed.

Lemma keeps_relay {X} seq (d : X) (events : cprog (list dapEvent * X)) (pre : world → Prop) :
  lasting false pre → lasting true pre → (∀ w, pre w → may_release t r w) → (∀ w, pre w → calm w → may_send true seq w) →
  keeps true events (fun w => pre w ∧ calm w) → keeps false (relay seq d events) pre.
Proof.
  intros Hf Ht Hm Hs He. apply keeps_gated; [done..|]. apply keeps_check; [done|apply keeps_ret|].
  apply keeps_bind; [by apply lasting_and, calm_lasting|done|]. intros out.
  apply keeps_bind; [by apply lasting_and, calm_lasting| |intros; apply keeps_ret].
  eapply keeps_weaken; [|apply keeps_send_until]. intros w [H1 H2]. auto.
Qed.

(** *** Answering *)

Definition open_in (id : nat) (w : world) : Prop := ¬ answered id w.2.
Lemma open_lasting held id : t = Req id → lasting held (open_in id).
Proof. intros -> w w' [_ Hk] H Ha. apply H. by apply Hk. Qed.

(** A request is left unanswered only by a connection that closes. *)
Definition gone (w : world) : Prop := is_closing w.2 = true.
Lemma gone_lasting held : lasting held gone.
Proof.
  intros w w' [H _] Hg. unfold gone, is_closing in *. apply orb_true_iff in Hg as [Hg|Hg]; apply orb_true_iff; [left|right]; by apply H.
Qed.
(** [answering held id p pre]: from [pre], the goroutine answers its request
    and nothing else. *)
Definition answering {A} (held : bool) (id : nat) (p : cprog A) (pre : world → Prop) : Prop :=
  ∀ w, open_in id w → pre w → safe held p (fun _ h w' => h = held ∧ moved held w w' ∧ settled_in id w') w.

Lemma answering_weaken {A} held id (p : cprog A) (pre pre' : world → Prop) :
  (∀ w, pre' w → pre w) → answering held id p pre → answering held id p pre'.
Proof. intros H Hp w Ho Hw. apply Hp; auto. Qed.
Lemma answering_any {A} held id (p : cprog A) pre : answering held id p (fun _ => True) → answering held id p pre.
Proof. by apply answering_weaken. Qed.
Lemma keeps_answering_ok {A B} held id (p : cprog A) (k : A → cprog B) (ok : A → Prop) pre :
  t = Req id → lasting held pre → keeps held p pre → returns ok p → (∀ a, ok a → answering held id (k a) pre) →
  answering held id (tbind p k) pre.
Proof.
  intros Ht Hl Hp Hr Hk w Ho Hw. eapply thread_bind; [exact (safe_returns _ _ _ _ _ Hr (Hp w Hw))|].
  intros a h w1 [[-> H1] Ha].
  eapply thread_post; [|exact (Hk a Ha w1 (open_lasting _ _ Ht _ _ H1 Ho) (Hl _ _ H1 Hw))]. intros b h w2 (-> & H2 & Hs).
  split_and!; [done| |done]. by etrans; [apply H1|].
Qed.
Lemma keeps_answering {A B} held id (p : cprog A) (k : A → cprog B) pre :
  t = Req id → lasting held pre → keeps held p pre → (∀ a, answering held id (k a) pre) →
  answering held id (tbind p k) pre.
Proof. intros Ht Hl Hp Hk. apply (keeps_answering_ok _ _ _ _ (fun _ => True)); auto using returns_any. Qed.
Lemma answering_then {A B} held id (p : cprog A) (k : A → cprog B) pre :
  answering held id p pre → (∀ a, keeps held (k a) (settled_in id)) → answering held id (tbind p k) pre.
Proof.
  intros Hp Hk w Ho Hw. eapply thread_bind; [apply (Hp w Ho Hw)|]. intros a h w1 (-> & H1 & Hs).
  eapply thread_post; [|exact (Hk a w1 Hs)]. intros b h w2 [-> [H2 _]].
  split_and!; [done|by etrans|by apply (settled_moved held _ w1)].
Qed.
Lemma answering_keeps {A B} held id (p : cprog A) (k : A → cprog B) pre :
  answering held id p pre → (∀ a, keeps held (k a) (fun _ => True)) → answering held id (tbind p k) pre.
Proof. intros Hp Hk. apply answering_then; [done|]. intros a. by apply (keeps_weaken _ _ (fun _ => True)). Qed.
Lemma answering_check {A} id (p q : cprog A) (pre : world → Prop) :
  t = Req id → lasting true pre → answering true id p gone → answering true id q (fun w => pre w ∧ calm w) →
  answering true id (gone <- reads (fun c => leaving (cn_view c)) ;; if gone : bool then p else q)%thread pre.
Proof.
  intros Ht Hl Hp Hq w Ho Hw [s1 c1] H1. split; [apply step_refl|]. pose proof (seen_kept _ _ _ H1) as K1. cbn.
  pose proof (Hl _ _ K1 Hw) as Hw1. pose proof (open_lasting true id Ht _ _ K1 Ho) as Ho1.
  assert (∀ w2, moved true (s1, c1) w2 → moved true w w2) as Hm by (intros w2 H2; etrans; [apply K1|done]).
  destruct (leaving (cn_view c1)) eqn:E.
  - eapply thread_post; [|apply (Hp _ Ho1)]; [|by unfold gone, is_closing, is_leaving; cbn; rewrite E].
    intros a h w2 (-> & H2 & Hs). auto.
  - eapply thread_post; [|exact (Hq _ Ho1 (conj Hw1 E))]. intros a h w2 (-> & H2 & Hs). auto.
Qed.
Lemma answering_gated {A} id (p : cprog A) (pre : world → Prop) :
  t = Req id → lasting false pre → answering true id p pre → answering false id (gated p) pre.
Proof.
  intros Ht Hl Hp w Ho Hw. split; [done|]. intros w1 H1. pose proof (seen_kept _ _ _ H1) as K1.
  eapply thread_bind; [apply (Hp _ (open_lasting _ _ Ht _ _ K1 Ho) (Hl _ _ K1 Hw))|]. intros a h w2 (-> & H2 & Hs).
  split; [done|]. intros w3 H3.
  split; [rewrite Ht; left; by apply (settled_moved true id w2); [apply seen_moved|]|]. intros w4 H4. split_and!; [done| |].
  - etrans; [by apply seen_moved|]. etrans; [by apply moved_gate|].
    etrans; [by eapply moved_gate, seen_moved|by apply seen_moved].
  - eapply settled_moved; [by apply seen_moved|]. by eapply (settled_moved true); [apply seen_moved|].
Qed.

Lemma write_settles id m c : answers m = [id] → settled id (write m c).2.
Proof.
  intros Hm. destruct (write_cases m c) as [[-> _]|[-> _]]; [by right; right|]. left. unfold answered. cbn.
  apply answered_snoc. right. rewrite Hm. by apply list_elem_of_singleton.
Qed.
Lemma answering_write held id m pre :
  t = Req id → lasting held pre → answers m = [id] → (∀ w, open_in id w → pre w → may_write t r held w m) →
  answering held id (local (write m)) pre.
Proof.
  intros Ht Hl Hm Hw w Ho Hp w1 H1. pose proof (seen_kept _ _ _ H1) as K1.
  split; [apply write_step, Hw; [by apply (open_lasting held id Ht w)|by apply (Hl w)]|].
  intros w2 H2. split_and!; [done| |].
  - etrans; [by apply seen_moved|]. etrans; [apply write_moved|by apply seen_moved].
  - eapply settled_moved; [by apply seen_moved|]. by apply write_settles.
Qed.
Lemma answering_respond held id resp pre :
  t = Req id → resp ≠ DisconnectResponse → answering held id (respond id resp) pre.
Proof. intros Ht Hr. apply answering_any. by apply answering_write. Qed.

Lemma answering_look {A X} held id (f : connection → X) (φ : X → world → Prop) (k : X → cprog A) :
  t = Req id → (∀ w, φ (f w.2) w) → (∀ x, answering held id (k x) (φ x)) →
  answering held id (tbind (reads f) k) (fun _ => True).
Proof.
  intros Ht Hf Hk w Ho _ [s1 c1] H1. split; [apply step_refl|]. pose proof (seen_kept _ _ _ H1) as K1.
  eapply thread_post; [|exact (Hk _ (s1, c1) (open_lasting _ _ Ht _ _ K1 Ho) (Hf (s1, c1)))].
  intros a h w2 (-> & H2 & Hs). split_and!; [done| |done]. etrans; [apply K1|done].
Qed.
Lemma answering_drop held id : answering held id (drop_request id) gone.
Proof.
  intros w Ho Hg w1 H1. pose proof (gone_lasting held _ _ (seen_kept _ _ _ H1) Hg) as Hg1.
  split; [constructor; try done; try (by left); [intros i Hi; by apply elem_of_cons; right|by right]|].
  intros w2 H2. split_and!; [done| |].
  - etrans; [by apply seen_moved|]. etrans; [|by apply seen_moved]. constructor; try done. intros i Hi. by apply elem_of_cons; right.
  - eapply settled_moved; [by apply seen_moved|]. right. left. by apply elem_of_cons; left.
Qed.
Lemma answering_fail held id command e show pre : t = Req id → answering held id (fail id command e show) pre.
Proof.
  intros Ht. apply answering_any. unfold fail.
  apply (answering_look _ _ _ (fun b w => b = true → gone w)); [done| |].
  { intros w Ha. unfold abandoned in Ha. apply andb_true_iff in Ha as [Ha _]. unfold gone, is_closing. by rewrite Ha, orb_true_r. }
  intros []; [apply (answering_weaken _ _ _ gone); [auto|apply answering_drop]|]. apply answering_any.
  apply keeps_answering; [done..|apply keeps_reads|]. intros bound. apply keeps_answering; [done..| |].
  { destruct (_ && _); [|apply keeps_ret].
    apply keeps_bind; [done|by apply keeps_asks|]. intros l. apply keeps_ret. }
  intros holder. destruct (errorResponse _ _ _ _) as [msg body].
  apply answering_keeps; [by apply answering_write|]. intros ok. apply keeps_ret.
Qed.
End goroutine.
End safe.

#[export] Hint Resolve calm_lasting lasting_and may_send_lasting true_lasting : eyedbg.
#[export] Hint Resolve keeps_ret keeps_reads keeps_send keeps_sendAll : eyedbg.

(** Programs whose steps keep what they must whatever they start from. *)
Ltac keep :=
  repeat first
    [ progress intros
    | solve [auto 2 with eyedbg nocore]
    | apply keeps_ret | apply keeps_reads | apply keeps_sendAll | apply keeps_send
    | apply keeps_asks; reflexivity
    | apply keeps_changes; reflexivity
    | apply keeps_writes; constructor; intros []; reflexivity
    | apply keeps_bind; [solve [done | auto with eyedbg]| |]
    | case_match ].
