(* ===== verification/HandlersSafe.v ===== *)
(** * Every handler keeps its goroutine's guarantee

    Each request handed over is answered, once, by the goroutine that
    handles it; the calls that change something are made under the gate, the
    ones that run the program once the handshake is over. *)

From S2P Require Import Prelude GoStrings Api EventLog Prog Message Session Lease Exec Forward EditorEvents Mirrors Threads.
From S2P Require Import Manager Manifest Terminal LaunchArgs Facade Handlers LaunchConn FacadeSystem FacadeSafe.
From Stdlib Require Import Bool.

Open Scope Z_scope.

(** ** What leaves the connection's leaving as it is *)

Lemma fold_leaving {X} (f : view → X → view) l v :
  (∀ v x, leaving (f v x) = leaving v) → leaving (fold_left f l v) = leaving v.
Proof. intros H. revert v. induction l as [|x l IH]; intros v; [done|]. cbn. by rewrite IH, H. Qed.

Lemma track_leaving key got v : leaving (track key got v).2 = leaving v.
Proof.
  unfold track. destruct got as [got|]; [|done]. cbn. rewrite fold_leaving.
  - cbn. apply fold_leaving. intros v' b. unfold report. by destruct (_ =? _).
  - intros v' x. by destruct (bool_decide _).
Qed.
Lemma sourceSeen_leaving path key own v : leaving (sourceSeen path key own v) = leaving v.
Proof. unfold sourceSeen. by destruct own. Qed.

Lemma answer_copies_leaving l v : leaving (answer_copies l v).2 = leaving v.
Proof.
  revert v. induction l as [|[[e c] b] l IH]; intros v; [done|]. cbn.
  destruct (answer_copy e c b v) as [[b' n] v1] eqn:E. specialize (IH v1).
  destruct (answer_copies l v1) as [[out k] v2]. cbn in *. rewrite IH.
  unfold answer_copy, nextRetractID in E. destruct (en_kind c); by simplify_eq/=.
Qed.
Lemma settle_leaving key path entries classes v : leaving (settle key path entries classes v) = leaving v.
Proof.
  unfold settle. destruct (key =?s ""); [done|]. rewrite fold_leaving, fold_leaving; [done|..].
  - intros v' [e c]. unfold settle_entry. by destruct (en_kind c).
  - intros v' [id m]. unfold settle_mirror. destruct (_ || _); [done|]. by destruct (bool_decide _).
Qed.
Lemma record_answers_leaving path key entries classes got v :
  leaving (record_answers path key entries classes got v).2 = leaving v.
Proof.
  unfold record_answers, answerCopies. pose proof (track_leaving (false, path) got v) as Ht.
  destruct (track (false, path) got v) as [placed v1]. cbn in Ht.
  pose proof (answer_copies_leaving (zip (zip entries classes) (place classes placed)) v1) as Ha.
  destruct (answer_copies _ v1) as [[out n] v2]. cbn in *. rewrite settle_leaving. by destruct (0 <? n); cbn; rewrite Ha.
Qed.

Lemma reconcile_leaving self bps v : leaving (reconcile self bps v).2 = leaving v.
Proof.
  assert (∀ byID l st, leaving (fold_left (reported_step byID) l st).1.1 = leaving st.1.1) as H1.
  { intros byID l. induction l as [|[id b] l IH]; intros st; [done|]. cbn. rewrite IH.
    destruct st as [[v0 rm] ch]. cbn. by repeat case_match. }
  assert (∀ want l st, leaving (fold_left (mirror_step want) l st).1.1 = leaving st.1.1) as H2.
  { intros want l. induction l as [|[id m] l IH]; intros st; [done|]. cbn. rewrite IH.
    destruct st as [[v0 rm] ch]. cbn. by repeat case_match. }
  assert (∀ byID l st, leaving (fold_left (new_step byID) l st).1 = leaving st.1) as H3.
  { intros byID l. induction l as [|[id b] l IH]; intros st; [done|]. cbn. rewrite IH.
    destruct st as [v0 ad]. cbn. by repeat case_match. }
  unfold reconcile, reconcileReported. set (byID := by_id bps).
  specialize (H1 byID (map_to_list (reported v)) (v, [], [])).
  destruct (fold_left (reported_step byID) _ _) as [[v1 r1] c1]. cbn in H1.
  specialize (H2 (wanted self bps v1) (map_to_list (mirrors v1)) (v1, r1, c1)).
  destruct (fold_left (mirror_step _) _ _) as [[v2 r2] c2]. cbn in H2.
  specialize (H3 byID (map_to_list (wanted self bps v1)) (v2, [])).
  destruct (fold_left (new_step _) _ _) as [v3 a3]. cbn in *. congruence.
Qed.

(** ** Handlers *)

Section handlers.
Context {P : PathFns} {S : Type} `{!Serves S} {HL : ServesLaws S}.
Variables (t : tid) (r : role).
Abbreviation world := (S * connection)%type.
Abbreviation keeps := (keeps t r).
Abbreviation answering := (answering t r).

Lemma keeps_reconcileNow pre : keeps true reconcileNow pre.
Proof.
  apply (keeps_weaken _ _ _ _ (fun _ => True)); [done|]. unfold reconcileNow. keep.
  apply (keeps_view _ _ (fun c => reconcile (self c) _)). intros. apply reconcile_leaving.
Qed.
Lemma keeps_breakpointsEvent held pre : keeps held breakpointsEvent pre.
Proof. apply (keeps_weaken _ _ _ _ (fun _ => True)); [done|]. unfold breakpointsEvent. keep. Qed.

Lemma keeps_afterBreakpoints answered pre : keeps true (afterBreakpoints answered) pre.
Proof.
  apply (keeps_weaken _ _ _ _ (fun _ => True)); [done|]. unfold afterBreakpoints. apply keeps_bind; [done| |].
  { by apply (keeps_view _ _ (fun _ v => (after v, v <| after := [] |>))). }
  intros next. apply keeps_check; [done|keep|]. apply (keeps_weaken _ _ _ _ calm); [by intros w [_ ?]|].
  apply keeps_bind; [auto with eyedbg|keep|]. intros _.
  apply keeps_bind; [auto with eyedbg|apply keeps_reconcileNow|]. keep.
Qed.

(** *** Serving a request *)

Definition ready (req : editorRequest) (w : world) : Prop := isExecution req = true → cn_phase w.2 = phaseConfigured.
Lemma ready_lasting held req : lasting t r held (ready req).
Proof. intros w w' [H _] Hr He. by apply H, Hr. Qed.

Lemma keeps_exec k th resp req held pre :
  isExecution req = true → held = true → (∀ w, pre w → ready req w) → lasting t r held pre → keeps held (exec k th resp) pre.
Proof.
  intros He -> Hp Hl. unfold exec. apply keeps_bind; [done| |keep]. apply keeps_call; [done..|].
  intros w w' Hw H _. apply (Hp w'); [|done]. apply (Hl w); [by apply seen_kept|done].
Qed.

Lemma keeps_setBreakpoints path entries pre : keeps true (setBreakpoints path entries) pre.
Proof.
  apply (keeps_weaken _ _ _ _ (fun _ => True)); [done|]. unfold setBreakpoints. keep.
  - apply (keeps_view _ _ (fun _ v => (Mirrors.keep _ path v, sourceSeen path _ _ v))). intros c v. apply sourceSeen_leaving.
  - apply (keeps_view _ _ (fun _ => record_answers path _ entries _ _)). intros c v. apply record_answers_leaving.
Qed.
Lemma keeps_setFunctionBreakpoints bps pre : keeps true (setFunctionBreakpoints bps) pre.
Proof.
  apply (keeps_weaken _ _ _ _ (fun _ => True)); [done|]. unfold setFunctionBreakpoints. keep.
  apply (keeps_view _ _ (fun _ => track funcBreakpoints _)). intros c v. apply track_leaving.
Qed.

Lemma with_launch_meek f : (∀ l, ls_running (f l) = ls_running l) → meek (with_launch f).
Proof.
  intros Hf. constructor; intros []; unfold with_launch; try done; [by destruct cn_launch|].
  unfold early. destruct cn_launch as [l|]; [|done]. cbn. by rewrite Hf.
Qed.
Lemma keeps_setExceptionBreakpoints filters held pre : r = Worker → keeps held (setExceptionBreakpoints filters) pre.
Proof.
  intros Hr. apply (keeps_weaken _ _ _ _ (fun _ => True)); [done|]. unfold setExceptionBreakpoints, servable. keep.
  - by apply keeps_writes, with_launch_meek.
  - by apply keeps_call.
  - by apply keeps_call.
Qed.
Lemma keeps_afterExceptions id : t = Req id → keeps false afterExceptions (settled_in id).
Proof.
  intros Ht. assert (∀ held, lasting t r held (settled_in (S := S) id)) as Hl by (intros held w w' [H _]; by apply (settled_moved r held)).
  unfold afterExceptions. apply keeps_bind; [apply Hl|keep|]. intros [mode|]; [|keep].
  apply keeps_bind; [apply Hl|by apply keeps_writes, with_launch_meek|]. intros _. apply keeps_bind; [apply Hl| |keep].
  apply keeps_relay; [apply Hl..| | |keep]; [|by intros w _ ?]. intros w Hs. rewrite Ht. by left.
Qed.
Lemma keeps_lease a held pre :
  (isGated (LeaseRequest a) = true → held = true) → keeps held (lease a) pre.
Proof.
  intros Hg. apply (keeps_weaken _ _ _ _ (fun _ => True)); [done|]. unfold lease. cbn [isGated] in Hg.
  destruct (lq_Action a =?s "status"); [keep|]. rewrite (Hg eq_refl). keep.
Qed.
Lemma keeps_breakpoints a held pre :
  (isGated (BreakpointsRequest a) = true → held = true) → keeps held (breakpoints a) pre.
Proof.
  intros Hg. apply (keeps_weaken _ _ _ _ (fun _ => True)); [done|]. unfold breakpoints. cbn in Hg.
  destruct (ba_Action a =?s "remove"); [rewrite (Hg eq_refl)|]; keep.
Qed.
Lemma keeps_stopLaunched held pre : (r = Worker ∨ r = Aux → held = true) → keeps held stopLaunched pre.
Proof.
  intros Hh. apply (keeps_weaken _ _ _ _ (fun _ => True)); [done|]. unfold stopLaunched.
  apply keeps_bind; [done|by apply keeps_stop|keep].
Qed.

(** A request that may run the program does so under the gate, once the
    handshake is over; the worker's is the one that sets the exceptions. *)
Lemma keeps_serve req held :
  (isGated req = true → held = true) → (isOrdered req = true → r = Worker) → keeps held (serve req) (ready req).
Proof.
  intros Hg Hord. destruct req; cbn [serve];
    try match goal with
        | |- context [exec _ _ _] => rewrite (Hg eq_refl); eapply keeps_exec; [|done|intros w Hw; exact Hw|apply ready_lasting]; done
        end;
    try apply keeps_ret.
  - rewrite (Hg eq_refl). apply keeps_bind; [apply ready_lasting|keep|]. intros l.
    apply keeps_bind; [apply ready_lasting| |keep]. destruct l; [by apply keeps_stopLaunched|].
    apply keeps_call; [done..|]. intros w w' Hr H _. by apply (ready_lasting _ _ _ _ (seen_kept _ _ _ _ _ H) Hr).
  - rewrite (Hg eq_refl). apply keeps_setBreakpoints.
  - rewrite (Hg eq_refl). apply keeps_setFunctionBreakpoints.
  - by apply keeps_setExceptionBreakpoints, Hord.
  - by apply keeps_lease.
  - keep.
  - by apply keeps_breakpoints.
  - apply keeps_bind; [apply ready_lasting| |keep]. apply keeps_call; [exact Hg|done..|].
    intros w w' Hr H He. by apply (ready_lasting _ _ _ _ (seen_kept _ _ _ _ _ H) Hr).
Qed.

(** A request that was handed over is never answered as a disconnect. *)
Lemma serve_returns req : returns (fun resp => resp ≠ inl DisconnectResponse) (serve req).
Proof.
  assert (∀ (e : option fault) resp, resp ≠ DisconnectResponse → or_fault resp e ≠ inl DisconnectResponse) as Ho.
  { intros [e|] resp H; cbn; congruence. }
  destruct req; cbn [serve]; unfold exec, setBreakpoints, setFunctionBreakpoints, setExceptionBreakpoints, Handlers.lease, Handlers.breakpoints;
    repeat first [ apply returns_bind; intros | apply Ho; done | case_match | progress cbn ]; try done;
    try (unfold answered_by; case_match; done).
Qed.

Lemma answering_handle id req : t = Req id → (isOrdered req = true → r = Worker) → answering false id (handle id req) (ready req).
Proof.
  intros Ht Hw. assert (∀ held, (isGated req = true → held = true) → (held = true → isGated req = true) →
    answering held id (handle_body id req) (ready req)) as Hb.
  { intros held Hg Hh. unfold handle_body.
    apply (keeps_answering_ok _ _ _ _ _ _ _ _ Ht (ready_lasting _ _) (keeps_serve _ _ Hg Hw) (serve_returns req)).
    assert (∀ h, lasting t r h (settled_in (S := S) id)) as Hl by (intros h w w' [H _]; by apply (settled_moved r h)).
    intros resp Hr. apply answering_then.
    - destruct resp as [resp|e]; [|apply answering_keeps; [by apply answering_fail|intros; apply keeps_ret]].
      apply answering_respond; [done|congruence].
    - intros ans. apply keeps_bind; [apply Hl| |].
      + destruct (setsExceptions req) eqn:E, ans; try apply keeps_ret. destruct req; try done. cbn.
        destruct held; [by specialize (Hh eq_refl)|]. by apply keeps_afterExceptions.
      + intros _. destruct (changesBreakpoints req) eqn:E; [|apply keeps_ret].
        assert (isGated req = true) as Hgr by (by destruct req). rewrite (Hg Hgr). apply keeps_afterBreakpoints. }
  unfold handle. destruct (isGated req) eqn:E.
  - apply answering_gated; [done|apply ready_lasting|]. by apply Hb.
  - apply Hb; done.
Qed.
End handlers.

#[export] Hint Resolve keeps_reconcileNow keeps_breakpointsEvent : eyedbg.

(** ** A mirror that becomes the editor's own

    The editor's client has a breakpoint set from the CLI, asked for at line 9
    and placed at 10, which is mirrored there. Its user then sets one at line
    9: the session adopts the breakpoint for that entry (it matches the line
    asked for), and the copy, sent along, is answered with the same id. The
    id is now both reported and mirrored, and the next reconcile tells the
    editor that it was removed, which it is not. *)
Definition cli_breakpoint : Breakpoint :=
  zeroBreakpoint <| b_ID := 5 |> <| b_Owner := "e1" |> <| b_File := "/a.cs" |> <| b_RequestedLine := 9 |> <| b_Line := 10 |>.
Definition with_copy : list sourceBreakpoint := [mkSourceBp 9 0 "" "" ""; mkSourceBp 10 1 "" "" ""].
Lemma adopted_mirror_removed :
  let '(announced, v) := reconcile "e1" [cli_breakpoint] (newView <| configured := true |>) in
  let classes := classify with_copy "/a.cs" "/a.cs" v [cli_breakpoint] "e1" in
  let adopted := cli_breakpoint <| b_Editor := true |> in
  let '(answers, v) := record_answers "/a.cs" "/a.cs" with_copy classes (Some [adopted]) v in
  let '(evs, v) := reconcile "e1" [adopted] v in
  map (fun e => match e with BreakpointEvent reason b => (reason, d_Id b, d_Line b) | _ => (""%string, 0, 0) end) announced
    = [(actionNew, 5, 10)] ∧
  map d_Id answers = [5; 5] ∧ evs = [removedEvent 5] ∧ reported v !! 5 = Some (dapBreakpoint_of adopted).
Proof. vm_compute. done. Qed.
