(* ===== verification/ReaderSafe.v ===== *)
(** * The reader, the launch and the follower keep their guarantees

    The goroutines that move the handshake on ([dispatch], the launch), leave
    ([disconnect]) or relay the log ([follow_batch]). *)

From S2P Require Import Prelude GoStrings Api EventLog Prog Message Session Lease Exec Forward EditorEvents Mirrors Threads.
From S2P Require Import Manager Manifest Terminal LaunchArgs Facade Handlers LaunchConn FacadeSystem FacadeSafe HandlersSafe.
From Stdlib Require Import Bool.

Open Scope Z_scope.

(** ** Joining and following *)

Section joining.
Context {P : PathFns} {S : Type} `{!Serves S} {HL : ServesLaws S}.
Variables (t : tid) (r : role).
Abbreviation world := (S * connection)%type.

Lemma keeps_join_live info seq st : keeps t r true (join_live info seq st) calm.
Proof.
  unfold join_live. apply keeps_bind; [auto with eyedbg| |intros _].
  { by apply (keeps_view _ _ (fun _ v => ((), v <| configured := true |>))). }
  apply keeps_bind; [auto with eyedbg|apply keeps_reconcileNow|]. intros evs.
  do 3 (apply keeps_bind; [auto with eyedbg|keep|intros _]).
  apply keeps_bind; [auto with eyedbg|apply keeps_breakpointsEvent|]. keep.
Qed.
Lemma keeps_join info seq : keeps t r true (join info seq) calm.
Proof.
  unfold join. apply keeps_bind; [auto with eyedbg|keep|]. intros st.
  apply keeps_bind; [auto with eyedbg|unfold replayOutput; keep|]. intros out.
  apply keeps_bind; [auto with eyedbg|keep|]. intros _. destruct (i_State info); try apply keeps_join_live; [|keep].
  destruct (stoppedEvent _ _ _) as [evs st']. apply keeps_bind; [auto with eyedbg|keep|]. intros _. apply keeps_join_live.
Qed.

Lemma keeps_reconcileOnce ran pre : keeps t r true (reconcileOnce ran) pre.
Proof.
  apply (keeps_weaken _ _ _ _ (fun _ => True)); [done|]. unfold reconcileOnce. keep.
Qed.
Lemma keeps_translateEvent ev st ran pre : keeps t r true (translateEvent ev st ran) pre.
Proof.
  apply (keeps_weaken _ _ _ _ (fun _ => True)); [done|].
  unfold translateEvent, connectionEvents, breakpointChanged. apply keeps_bind; [done| |intros retracts].
  { destruct (decide _); [|keep]. by apply (keeps_view _ _ (fun _ => retractMirrors)). }
  destruct (translate ev st) as [own st']. apply keeps_bind; [done| |keep].
  destruct (ev_Kind ev); keep; apply keeps_reconcileOnce.
Qed.
Lemma keeps_resyncEvents dropped st pre : keeps t r true (resyncEvents dropped st) pre.
Proof.
  apply (keeps_weaken _ _ _ _ (fun _ => True)); [done|]. unfold resyncEvents. keep; apply keeps_reconcileOnce.
Qed.
Lemma keeps_relayed {X} (d : X) (events : cprog (list dapEvent * X)) :
  (∀ id, t ≠ Req id) → keeps t r true events (fun _ => True) → keeps t r false (relay None d events) (fun _ => True).
Proof.
  intros Ht He. apply keeps_relay; [done..| | |by apply (keeps_weaken _ _ _ _ (fun _ => True))]; [|by intros w _ ?].
  intros w _. unfold may_release. destruct t; [by destruct (Ht id)|done..].
Qed.
End joining.

Section follower.
Context {P : PathFns} {S : Type} `{!Serves S} {HL : ServesLaws S}.
Abbreviation world := (S * connection)%type.
Abbreviation following := (keeps (S := S) Follower FollowerRole false).

(** The events still to relay are in the log. *)
Definition logged (evs : list Event) (w : world) : Prop := Forall (fun ev => ev_Seq ev ≤ last_seq w.1) evs.
Lemma logged_lasting held evs : lasting Follower FollowerRole held (logged evs).
Proof.
  intros w w' [Hm _] H. unfold logged in *. rewrite Forall_forall in *. intros ev Hev. specialize (H ev Hev).
  pose proof (mv_log _ _ _ _ Hm). cbn in *. lia.
Qed.

Lemma keeps_follow_events evs st ran : following (follow_events evs st ran) (logged evs).
Proof.
  revert st ran. induction evs as [|ev evs IH]; intros st ran; cbn [follow_events]; [apply keeps_ret|].
  apply keeps_bind; [apply logged_lasting| |].
  - apply keeps_relay; [apply logged_lasting..|done| |apply keeps_translateEvent].
    intros w Hl Hc. split; [done|]. apply Forall_cons in Hl as [Hl _]. by split_and!.
  - intros [ok [st' ran']]. destruct (_ || _); [apply keeps_ret|]. eapply keeps_weaken; [|apply IH].
    intros w Hl. by apply Forall_cons in Hl as [_ ?].
Qed.

Lemma keeps_stop_following pre : following stop_following pre.
Proof. unfold stop_following. keep. Qed.
Lemma keeps_follow_got evs dropped st : following (follow_got evs dropped st) (logged evs).
Proof.
  unfold follow_got. apply keeps_bind; [apply logged_lasting|keep|]. intros ended.
  destruct (last evs) as [newest|]; [|apply keeps_stop_following]. destruct ended; [apply keeps_stop_following|].
  apply keeps_bind; [apply logged_lasting| |].
  { apply (keeps_weaken _ _ _ _ (fun _ => True)); [done|]. destruct (_ <? _); [|keep].
    apply keeps_relayed; [done|apply keeps_resyncEvents]. }
  intros [ok [st' ran]]. destruct (negb ok); [apply keeps_stop_following|].
  apply keeps_bind; [apply logged_lasting|apply keeps_follow_events|].
  intros [ok' st2]. destruct (negb ok'); [apply keeps_stop_following|].
  apply (keeps_weaken _ _ _ _ (fun _ => True)); [done|]. apply keeps_bind; [done| |].
  { destruct (existsb _ _); [|keep]. apply keeps_relayed; [done|keep]. }
  intros [ok2 u]. destruct (negb ok2); [apply keeps_stop_following|keep].
Qed.
Lemma keeps_follow_batch since st : following (follow_batch since st) (fun _ => True).
Proof.
  intros w _ w1 H1. split; [done|]. intros [evs dropped] s' [cl Hs].
  pose proof (serves_grow _ _ _ _ _ _ Hs) as Hg. apply follow_logged in Hs. destruct w1 as [s1 c1].
  split; [by apply called_step|].
  eapply thread_post; [|exact (keeps_follow_got evs dropped st (s', c1) Hs)]. intros a h w2 [-> H2]. split; [done|].
  etrans; [by apply seen_kept|]. etrans; [|exact H2]. split; [by apply called_moved|done].
Qed.
End follower.

(** ** Programs that move the handshake on *)

Section triples.
Context {P : PathFns} {S : Type} `{!Serves S} {HL : ServesLaws S}.
Variables (t : tid) (r : role).
Abbreviation world := (S * connection)%type.
Abbreviation kept := (kept t r).
Abbreviation lasting := (lasting t r).

(** From [I], the program ends with [J], the gate as before. *)
Definition triple {A} (held : bool) (p : cprog A) (I J : world → Prop) : Prop :=
  ∀ w, I w → safe t r held p (fun _ h w' => h = held ∧ J w') w.

Lemma triple_weaken {A} held (p : cprog A) (I I' J J' : world → Prop) :
  (∀ w, I' w → I w) → (∀ w, J w → J' w) → triple held p I J → triple held p I' J'.
Proof. intros HI HJ H w Hw. eapply thread_post; [|exact (H w (HI w Hw))]. intros a h w' [-> Hj]. auto. Qed.
Lemma triple_bind {A B} held (p : cprog A) (k : A → cprog B) I J K :
  triple held p I J → (∀ a, triple held (k a) J K) → triple held (tbind p k) I K.
Proof.
  intros Hp Hk w Hw. eapply thread_bind; [exact (Hp w Hw)|]. intros a h w' [-> Hj]. exact (Hk a w' Hj).
Qed.
Lemma triple_keeps {A} held (p : cprog A) I : lasting held I → keeps t r held p I → triple held p I I.
Proof. intros Hl Hp w Hw. eapply thread_post; [|exact (Hp w Hw)]. intros a h w' [-> Hk]. eauto. Qed.
Lemma triple_keeps_bind {A B} held (p : cprog A) (k : A → cprog B) I J :
  lasting held I → keeps t r held p I → (∀ a, triple held (k a) I J) → triple held (tbind p k) I J.
Proof. intros Hl Hp Hk. eapply triple_bind; [by apply triple_keeps|done]. Qed.
Lemma triple_answering {A} held id (p : cprog A) (pre : world → Prop) :
  answering t r held id p pre → (∀ w w', moved r held w w' → pre w → pre w') →
  triple held p (fun w => open_in id w ∧ pre w) (fun w => settled_in id w ∧ pre w).
Proof.
  intros Hp Hm w [Ho Hw]. eapply thread_post; [|exact (Hp w Ho Hw)]. intros a h w' (-> & H1 & H2). eauto.
Qed.
Lemma triple_wait {A} b (p : cprog A) I J :
  lasting false I → (∀ w, I w → launching w.2 = true) → (∀ c, cn_ended c = true → b c = true) →
  triple false p I J → triple false (TWait b p) I J.
Proof.
  intros Hl Hi Hb Hp w Hw w' H'. assert (I w') as Hw' by (apply (Hl w); [by apply seen_kept|done]).
  split; [split_and!; auto|]. intros _. by apply Hp.
Qed.
Lemma triple_gated {A} (p : cprog A) I J :
  lasting false I → lasting true J → lasting false J → (∀ w, J w → may_release t r w) → triple true p I J → triple false (gated p) I J.
Proof.
  intros Hl Hj Hj' Hm Hp w Hw. split; [done|]. intros w1 H1.
  eapply thread_bind; [exact (Hp w1 (Hl _ _ (seen_kept _ _ _ _ _ H1) Hw))|]. intros a h w2 [-> H2].
  split; [done|]. intros w3 H3. assert (J w3) as Hw3 by (apply (Hj w2); [by apply seen_kept|done]).
  split; [by apply Hm|]. intros w4 H4. split; [done|]. apply (Hj' w3); [by apply seen_kept|done].
Qed.
Lemma triple_check {A} (p q : cprog A) I J :
  lasting true I → triple true p (fun w => I w ∧ gone w) J → triple true q (fun w => I w ∧ calm w) J →
  triple true (gone <- reads (fun c => leaving (cn_view c)) ;; if gone : bool then p else q)%thread I J.
Proof.
  intros Hl Hp Hq w Hw [s1 c1] H1. split; [apply step_refl|]. pose proof (Hl _ _ (seen_kept _ _ _ _ _ H1) Hw) as Hw1.
  cbn. destruct (leaving (cn_view c1)) eqn:E; [apply Hp|by apply Hq].
  split; [done|]. by unfold gone, is_closing, is_leaving; cbn; rewrite E.
Qed.

(** A change of the phase, by the goroutine that may. *)
Record shift (f : connection → connection) : Prop := {
  sh_client c : cn_client (f c) = cn_client c;
  sh_launch c : launching (f c) = launching c;
  sh_out c : cn_out (f c) = cn_out c;
  sh_dropped c : cn_dropped (f c) = cn_dropped c;
  sh_closed c : cn_closed (f c) = cn_closed c;
  sh_view c : cn_view (f c) = cn_view c;
  sh_early c : early (f c) = early c;
  sh_broken c : cn_broken (f c) = cn_broken c;
  sh_ended c : cn_ended (f c) = cn_ended c }.
Definition mine (w : world) : Prop :=
  cn_phase w.2 ≠ phaseConfigured ∧ if early w.2 then r = Reader else r = Launcher.
Lemma kept_early held w w' :
  kept held w w' → (if early w.2 then r = Reader else r = Launcher) → cn_phase w'.2 = cn_phase w.2 ∧ early w'.2 = early w.2.
Proof.
  intros [H _] Hr. split; [by apply (mv_phase _ _ _ _ H)|]. apply (mv_early _ _ _ _ H). destruct (early w.2); auto.
Qed.
Lemma mine_lasting held : lasting held mine.
Proof. intros w w' H [Hp Hr]. destruct (kept_early _ _ _ H Hr) as [Hp' He]. unfold mine. by rewrite Hp', He. Qed.

Lemma triple_shift held f (I J : world → Prop) :
  shift f → lasting held I → lasting held J → (∀ w, I w → mine w) →
  (∀ w, I w → phase_inv w.2 → phase_inv (f w.2)) → (∀ w, I w → J (w.1, f w.2)) →
  triple held (writes f) I J.
Proof.
  intros Hf Hl Hlj Hm Hi Hj w Hw w1 H1. pose proof (Hl _ _ (seen_kept _ _ _ _ _ H1) Hw) as Hw1.
  destruct (Hm _ Hw1) as [Hp Hr]. split.
  - constructor; cbn; unfold is_leaving.
    + done.
    + apply Hf.
    + apply Hf.
    + left. apply Hf.
    + by rewrite (sh_dropped _ Hf).
    + rewrite (sh_dropped _ Hf). by left.
    + by rewrite (sh_closed _ Hf).
    + rewrite (sh_closed _ Hf). by left.
    + apply Hf.
    + apply Hf.
    + intros _. apply Hf.
    + left. by rewrite (sh_view _ Hf).
    + by right.
    + apply Hf.
    + by apply Hi.
  - intros w2 H2. split; [done|]. apply (Hlj (w1.1, f w1.2)); [by apply seen_kept|by apply Hj].
Qed.
Lemma shift_open f id w : shift f → open_in id w → open_in (S := S) id (w.1, f w.2).
Proof. intros Hf Ho. unfold open_in, answered in *. cbn. by rewrite (sh_out _ Hf). Qed.
End triples.

Section answers.
Context {P : PathFns} {S : Type} `{!Serves S} {HL : ServesLaws S}.
Variables (t : tid) (r : role) (id : nat) (Ht : t = Req id).
Abbreviation world := (S * connection)%type.

Lemma settled_lasting held : lasting t r held (settled_in (S := S) id).
Proof. intros w w' [H _]. by apply (settled_moved r held). Qed.

(** The program answers, whatever became of the phase. *)
Lemma triple_answers {A} held (p : cprog A) :
  answering t r held id p (fun _ => True) → triple t r held p (open_in id) (settled_in id).
Proof.
  intros Hp. eapply triple_weaken; [| |exact (triple_answering t r held id p _ Hp ltac:(done))]; naive_solver.
Qed.
Lemma triple_answered {A B} held (p : cprog A) (k : A → cprog B) I :
  triple t r held p I (settled_in id) → (∀ a, keeps t r held (k a) (fun _ => True)) →
  triple t r held (tbind p k) I (settled_in id).
Proof.
  intros Hp Hk. eapply triple_bind; [exact Hp|]. intros a. apply triple_keeps; [apply settled_lasting|].
  by apply (keeps_weaken _ _ _ _ (fun _ => True)).
Qed.

Lemma triple_drop held : triple t r held (drop_request id) (fun w => open_in id w ∧ gone w) (settled_in id).
Proof.
  intros w [Ho Hg]. eapply thread_post; [|exact (answering_drop t r held id w Ho Hg)]. by intros a h w' (-> & _ & Hs).
Qed.

(** A response after which the log is joined, if it was written. *)
Lemma triple_respond_join resp point :
  resp ≠ DisconnectResponse →
  triple t r true (ok <- respond id resp ;; if negb ok then TRet () else join point.1 point.2)%thread
    (fun w => open_in id w ∧ calm w) (settled_in id).
Proof.
  intros Hr. eapply triple_bind.
  { apply triple_answering; [by apply answering_respond|]. intros w w' H. unfold calm.
    rewrite (mv_leaving _ _ _ _ H); [done|by left]. }
  intros ok. eapply (triple_weaken _ _ _ _ (fun w => settled_in id w ∧ calm w) _ (fun w => settled_in id w ∧ calm w));
    [done|by intros w []|].
  apply triple_keeps; [apply lasting_and; [apply settled_lasting|apply calm_lasting]|].
  apply (keeps_weaken _ _ _ _ calm); [by intros w []|]. destruct ok; [apply keeps_join|apply keeps_ret].
Qed.
End answers.

Section launcher.
Context {P : PathFns} {S : Type} `{!Serves S} {HL : ServesLaws S}.
Variable id : nat.
Abbreviation world := (S * connection)%type.
Abbreviation launches := (triple (S := S) (Req id) Launcher).

(** While the launch runs, its goroutine alone moves the phase. *)
Definition launching_in (w : world) : Prop := open_in id w ∧ early w.2 = false ∧ binding w.2.
Lemma late_launching c : early c = false → launching c = true.
Proof. unfold early, of_launch, launching. by destruct (cn_launch c). Qed.
Lemma launching_mine w : launching_in w → mine (S := S) Launcher w.
Proof. intros (_ & He & Hp). split; [destruct Hp; congruence|]. by rewrite He. Qed.
Lemma launching_lasting held : lasting (Req id) Launcher held launching_in.
Proof.
  intros w w' H (Ho & He & Hp). destruct (kept_early (Req id) Launcher held w w' H) as [Hp' He']; [by rewrite He|].
  split; [by apply (open_lasting (Req id) Launcher held id eq_refl w)|]. unfold binding in *. by rewrite He', Hp'.
Qed.

Lemma launches_bind_session sid caps modes : launches false (bind_session sid caps modes) launching_in launching_in.
Proof.
  unfold bind_session. apply triple_gated; [apply launching_lasting..|intros w (_ & _ & Hp); by right|].
  apply triple_check; [apply launching_lasting| |].
  { eapply triple_weaken; [|done|apply triple_keeps; [apply launching_lasting|keep]]. by intros w []. }
  assert (lasting (Req id) Launcher true (fun w : world => launching_in w ∧ calm w)) as Hl.
  { apply lasting_and; [apply launching_lasting|apply calm_lasting]. }
  assert (∀ A (p : cprog A), keeps (Req id) Launcher true p (calm (S := S)) →
    keeps (Req id) Launcher true p (fun w => launching_in w ∧ calm w)) as Hk.
  { intros A p. apply keeps_weaken. by intros w []. }
  do 4 (apply triple_keeps_bind; [exact Hl|apply Hk; keep|intros _]).
  eapply triple_bind.
  { apply (triple_shift _ _ _ _ _ (fun w => launching_in w ∧ calm w)); [by constructor|exact Hl|exact Hl| | |].
    - intros w [H _]. by apply launching_mine.
    - done.
    - intros w [(Ho & He & Hp) Hc]. split; [|done]. split_and!; [done|done|by right]. }
  intros _. apply triple_keeps_bind; [exact Hl|apply Hk; keep|intros _].
  eapply triple_weaken; [..|apply (triple_keeps _ _ _ _ _ Hl), keeps_ret]; [done|by intros w []].
Qed.
Lemma launches_bind sid caps modes : launches false (bind sid caps modes) launching_in launching_in.
Proof.
  unfold bind. eapply triple_bind; [apply launches_bind_session|]. intros [].
  - apply triple_wait; [apply launching_lasting|intros w (_ & He & _); by apply late_launching| |].
    { intros c Hc. unfold configured_or_over, over. by rewrite Hc, !orb_true_r. }
    apply triple_keeps; [apply launching_lasting|].
    apply (keeps_weaken _ _ _ _ (fun _ => True)); [done|]. keep.
  - apply triple_keeps; [apply launching_lasting|keep].
Qed.

Lemma answering_launchFailed e stopped pre : answering (S := S) (Req id) Launcher true id (launchFailed id e stopped) pre.
Proof.
  apply (answering_weaken _ _ _ _ _ (fun _ => True)); [done|]. unfold launchFailed.
  apply (answering_look _ _ _ _ _ (fun b w => b = true → gone w)); [done|done|]. intros [].
  - apply (answering_weaken _ _ _ _ _ gone); [auto|apply answering_drop].
  - by destruct stopped; apply answering_fail.
Qed.
Lemma launches_succeeded : launches true (launch_succeeded id) launching_in (settled_in id).
Proof.
  unfold launch_succeeded.
  apply triple_keeps_bind; [apply launching_lasting|by apply keeps_writes, with_launch_meek|intros _].
  apply triple_keeps_bind; [apply launching_lasting|keep|intros point].
  eapply (triple_bind _ _ _ _ _ _ (open_in id)).
  { apply triple_shift; [by constructor|apply launching_lasting|by apply open_lasting|apply launching_mine|done|].
    by intros w (Ho & _). }
  intros _. apply triple_check; [by apply open_lasting| |by apply triple_respond_join].
  apply triple_drop.
Qed.
Lemma launches_end res : launches false (launch_end id res) launching_in (settled_in id).
Proof.
  unfold launch_end. apply triple_keeps_bind; [apply launching_lasting|keep|intros stopped].
  apply triple_keeps_bind; [apply launching_lasting| |intros res'].
  { apply (keeps_weaken _ _ _ _ (fun _ => True)); [done|]. destruct res; [keep|]. destruct stopped; [|keep].
    apply keeps_bind; [done|apply keeps_stopLaunched; by intros []|keep]. }
  apply triple_answered; [|intros _; by apply keeps_writes, with_launch_meek].
  apply triple_gated; [apply launching_lasting|apply settled_lasting..|by left|].
  destruct res' as [e|u]; [|apply launches_succeeded].
  eapply (triple_bind _ _ _ _ _ _ (open_in id)).
  { apply triple_shift; [by constructor|apply launching_lasting|by apply open_lasting|apply launching_mine|done|].
    by intros w (Ho & _). }
  intros _. apply triple_keeps_bind; [by apply open_lasting|keep|]. intros st. apply triple_answers; [done|]. apply answering_launchFailed.
Qed.
Lemma launches_runLaunch p terminal : launches false (runLaunch id p terminal) launching_in (settled_in id).
Proof.
  unfold runLaunch. apply triple_keeps_bind; [apply launching_lasting|keep|]. intros start.
  eapply triple_bind; [|intros res; apply launches_end].
  destruct start as [e|[sid [caps modes]]]; [apply triple_keeps; [apply launching_lasting|keep]|].
  eapply triple_bind; [apply launches_bind|]. intros hook. apply triple_keeps; [apply launching_lasting|keep].
Qed.
End launcher.

Section reader.
Context {P : PathFns} {S : Type} `{!Serves S} {HL : ServesLaws S}.
Variable id : nat.
Abbreviation world := (S * connection)%type.
Abbreviation reads_one := (triple (S := S) (Req id) Reader false).

(** While it handles a request, and the phases it may rely on. *)
Definition fresh (w : world) : Prop := open_in id w ∧ calm w ∧ phase_inv w.2.
Definition done_with (w : world) : Prop := settled_in id w ∧ calm w ∧ phase_inv w.2.
Definition at_phase (ph : phase) (w : world) : Prop := early w.2 = true ∧ cn_phase w.2 = ph.

Lemma reader_calm_moved w w' : moved Reader false w w' → calm w → calm w'.
Proof. intros H. unfold calm. rewrite (mv_leaving _ _ _ _ H); [done|by right]. Qed.
Lemma reader_inv_moved (w w' : world) : moved Reader false w w' → phase_inv w.2 → phase_inv w'.2.
Proof. intros H. apply H. Qed.
Lemma reader_calm_lasting : lasting (Req id) Reader false (calm (S := S)).
Proof. intros w w' [H _]. by apply reader_calm_moved. Qed.
Lemma inv_lasting held : lasting (Req id) Reader held (fun w : world => phase_inv w.2).
Proof. intros w w' [H _]. apply H. Qed.
Lemma fresh_lasting : lasting (Req id) Reader false fresh.
Proof.
  apply lasting_and; [by apply open_lasting|]. apply lasting_and; [apply reader_calm_lasting|apply inv_lasting].
Qed.
Lemma done_lasting : lasting (Req id) Reader false done_with.
Proof.
  apply lasting_and; [apply settled_lasting|]. apply lasting_and; [apply reader_calm_lasting|apply inv_lasting].
Qed.
Lemma at_phase_lasting ph held : lasting (Req id) Reader held (at_phase ph).
Proof.
  intros w w' H [He Hp]. destruct (kept_early (Req id) Reader held w w' H) as [Hp' He']; [by rewrite He|].
  split; congruence.
Qed.

(** What the reader looked at holds on. *)
Lemma reads_look {A X} (f : connection → X) (φ : X → world → Prop) (k : X → cprog A) J :
  (∀ w, fresh w → φ (f w.2) w) → (∀ x, reads_one (k x) (fun w => fresh w ∧ φ x w) J) →
  reads_one (x <- reads f ;; k x)%thread fresh J.
Proof.
  intros Hf Hk w Hw [s1 c1] H1. split; [apply step_refl|]. pose proof (fresh_lasting _ _ (seen_kept _ _ _ _ _ H1) Hw) as Hw1.
  apply Hk. split; [done|]. by apply (Hf (s1, c1)).
Qed.
(** The phase it read: before a launch runs it stays. *)
Definition read_phase (ph : phase) (w : world) : Prop :=
  (ph = phaseNew ∨ ph = phaseInitialized ∨ early w.2 = true) → at_phase ph w.
Lemma read_phase_now w : fresh w → read_phase (cn_phase w.2) w.
Proof.
  intros (_ & _ & Hi) Hp. split; [|done]. destruct (early w.2) eqn:E; [done|].
  destruct (Hi E) as [H1 H2]. naive_solver.
Qed.

Lemma reads_answering {A} (p : cprog A) :
  answering (Req id) Reader false id p (fun _ => True) → reads_one p fresh done_with.
Proof.
  intros Hp. eapply triple_weaken; [..|apply (triple_answering _ _ _ id p (fun w => calm w ∧ phase_inv w.2))].
  - intros w Hw. exact Hw.
  - intros w Hw. exact Hw.
  - by apply (answering_weaken _ _ _ _ _ (fun _ => True)).
  - intros w w' H [Hc Hi]. split; [by apply (reader_calm_moved w)|by apply (reader_inv_moved w)].
Qed.
Lemma reads_keeps_bind {A B} (p : cprog A) (k : A → cprog B) (ψ : world → Prop) J :
  lasting (Req id) Reader false ψ → keeps (Req id) Reader false p (fun _ => True) →
  (∀ a, reads_one (k a) (fun w => fresh w ∧ ψ w) J) → reads_one (tbind p k) (fun w => fresh w ∧ ψ w) J.
Proof.
  intros Hl Hp Hk. apply triple_keeps_bind; [by apply lasting_and; [apply fresh_lasting|]| |done].
  by apply (keeps_weaken _ _ _ _ (fun _ => True)).
Qed.
Lemma reads_done_bind {A B} (p : cprog A) (k : A → cprog B) I :
  reads_one p I done_with → (∀ a, keeps (Req id) Reader false (k a) calm) → reads_one (tbind p k) I done_with.
Proof.
  intros Hp Hk. eapply triple_bind; [exact Hp|]. intros a. apply triple_keeps; [apply done_lasting|].
  apply (keeps_weaken _ _ _ _ calm); [by intros w (_ & ? & _)|done].
Qed.
Lemma reads_done_then {A B} (p : cprog A) (k : A → cprog B) I :
  reads_one p I done_with → (∀ a, keeps (Req id) Reader false (k a) done_with) → reads_one (tbind p k) I done_with.
Proof. intros Hp Hk. eapply triple_bind; [exact Hp|]. intros a. apply triple_keeps; [apply done_lasting|done]. Qed.
Lemma reads_fail command e show : reads_one (fail id command e show) fresh done_with.
Proof. apply reads_answering. by apply answering_fail. Qed.
Lemma reads_respond resp : resp ≠ DisconnectResponse → reads_one (respond id resp) fresh done_with.
Proof. intros Hr. apply reads_answering. by apply answering_respond. Qed.
Lemma reads_only {A} (p : cprog A) I J : reads_one p fresh J → (∀ w, I w → fresh w) → reads_one p I J.
Proof. intros Hp HI. eapply triple_weaken; [exact HI| |exact Hp]. done. Qed.

Lemma reads_shift {B} f ph (k : cprog B) J :
  shift f → ph ≠ phaseConfigured → reads_one k fresh J →
  reads_one (writes f ;;; k)%thread (fun w => fresh w ∧ at_phase ph w) J.
Proof.
  intros Hf Hph Hk. eapply triple_bind; [|intros _; exact Hk].
  apply triple_shift; [done|apply lasting_and; [apply fresh_lasting|apply at_phase_lasting]|apply fresh_lasting|..].
  - intros w [_ [He Hp]]. split; [congruence|by rewrite He].
  - intros w [_ [He _]] _ Hc. rewrite (sh_early _ Hf) in Hc. congruence.
  - intros w [(Ho & Hc & Hi) [He Hp]]. split_and!; [by apply shift_open| |].
    + unfold calm, is_leaving in *. cbn. by rewrite (sh_view _ Hf).
    + intros Hn. cbn in *. rewrite (sh_early _ Hf) in Hn. congruence.
Qed.

(** An event the reader sends outside the gate: it alone leaves. *)
Lemma keeps_reader_send ev : keeps (S := S) (Req id) Reader false (send ev) calm.
Proof.
  intros w Hw w1 H1. pose proof (reader_calm_lasting _ _ (seen_kept _ _ _ _ _ H1) Hw) as Hc.
  split; [by apply write_step|]. intros w2 H2. split; [done|].
  etrans; [by apply seen_kept|]. etrans; [by apply write_sent|by apply seen_kept].
Qed.

Lemma reads_initialize a : reads_one (initialize id a) fresh done_with.
Proof.
  unfold initialize. apply (reads_look _ read_phase); [apply read_phase_now|]. intros ph.
  apply triple_keeps_bind; [|keep|intros l].
  { apply lasting_and; [apply fresh_lasting|]. intros w w' H Hp Hph. apply (at_phase_lasting _ _ _ _ H), Hp.
    destruct H as [H _]. destruct Hph as [?|[?|He]]; [by left|by right; left|]. right; right.
    by rewrite <- (mv_early _ _ _ _ H) by (by left). }
  destruct (decide (ph = phaseNew)) as [->|Hn].
  2:{ rewrite bool_decide_eq_false_2 by done. apply (reads_only _ _ _ (reads_fail _ _ _)). by intros w []. }
  rewrite bool_decide_eq_true_2 by done. cbn [negb].
  destruct (_ || _); [apply (reads_only _ _ _ (reads_fail _ _ _)); by intros w []|].
  eapply (triple_weaken _ _ _ _ (fun w => fresh w ∧ at_phase phaseNew w)); [intros w [Hf Hp]; split; [done|apply Hp; by left]|done|].
  destruct l.
  - eapply reads_shift; [by constructor|done|]. apply reads_done_bind; [by apply reads_respond|intros; keep].
  - apply reads_keeps_bind; [apply at_phase_lasting|keep|]. intros [e|caps].
    { apply (reads_only _ _ _ (reads_fail _ _ _)). by intros w []. }
    eapply reads_shift; [by constructor|done|].
    apply triple_keeps_bind; [apply fresh_lasting|keep|]. intros modes.
    apply reads_done_bind; [by apply reads_respond|intros; keep].
Qed.

Lemma read_phase_lasting ph held : lasting (Req id) Reader held (read_phase ph).
Proof.
  intros w w' H Hp Hph. apply (at_phase_lasting _ _ _ _ H), Hp. destruct H as [H _].
  destruct Hph as [?|[?|He]]; [by left|by right; left|]. right; right.
  by rewrite <- (mv_early _ _ _ _ H) by (by left).
Qed.
Lemma reads_attach args : reads_one (attach id args) fresh done_with.
Proof.
  unfold attach. apply (reads_look _ read_phase); [apply read_phase_now|]. intros ph.
  apply reads_keeps_bind; [apply read_phase_lasting|keep|intros sid].
  destruct (decide (ph = phaseInitialized)) as [->|Hn].
  2:{ rewrite bool_decide_eq_false_2 by done. apply (reads_only _ _ _ (reads_fail _ _ _)). by intros w []. }
  rewrite bool_decide_eq_true_2 by done. cbn [negb].
  destruct args as [named|]; [|apply (reads_only _ _ _ (reads_fail _ _ _)); by intros w []].
  destruct (negb _); [apply (reads_only _ _ _ (reads_fail _ _ _)); by intros w []|].
  eapply (triple_weaken _ _ _ _ (fun w => fresh w ∧ at_phase phaseInitialized w));
    [intros w [Hf Hp]; split; [done|apply Hp; by right; left]|done|].
  eapply reads_shift; [by constructor|done|]. apply reads_done_bind; [by apply reads_respond|].
  intros []; [|keep]. apply keeps_bind; [apply reader_calm_lasting|apply keeps_reader_send|keep].
Qed.

(** On a connection that joined a session, or one that launches. *)
Definition kind_of (l : bool) (w : world) : Prop := launching w.2 = l.
Lemma kind_lasting l held : lasting (Req id) Reader held (kind_of l).
Proof. intros w w' [H _] <-. apply H. Qed.
Lemma joined_early w : kind_of false w → early w.2 = true.
Proof. unfold kind_of, launching, early, of_launch. by destruct (cn_launch w.2). Qed.

Lemma reads_look_in {A X} (f : connection → X) (φ : X → world → Prop) (ψ : world → Prop) (k : X → cprog A) J :
  lasting (Req id) Reader false ψ → (∀ w, fresh w → φ (f w.2) w) →
  (∀ x, reads_one (k x) (fun w => fresh w ∧ φ x w ∧ ψ w) J) →
  reads_one (x <- reads f ;; k x)%thread (fun w => fresh w ∧ ψ w) J.
Proof.
  intros Hl Hf Hk w [Hw Hp] [s1 c1] H1. split; [apply step_refl|]. pose proof (seen_kept _ _ _ _ _ H1) as K1.
  pose proof (fresh_lasting _ _ K1 Hw) as Hw1. apply Hk. split_and!; [done|by apply (Hf (s1, c1))|by apply (Hl w)].
Qed.

Lemma reads_configurationDone : reads_one (configurationDone id) (fun w => fresh w ∧ kind_of false w) done_with.
Proof.
  unfold configurationDone. apply (reads_look_in _ read_phase); [apply kind_lasting|apply read_phase_now|]. intros ph.
  destruct (decide (ph = phaseAttached)) as [->|Hn].
  2:{ rewrite bool_decide_eq_false_2 by done. apply (reads_only _ _ _ (reads_fail _ _ _)). by intros w []. }
  rewrite bool_decide_eq_true_2 by done. cbn [negb].
  eapply (triple_weaken _ _ _ _ (fun w => fresh w ∧ at_phase phaseAttached w));
    [intros w (Hf & Hp & Hj); split; [done|apply Hp; right; right; by apply joined_early]|done|].
  apply reads_keeps_bind; [apply at_phase_lasting|keep|intros point].
  eapply reads_shift; [by constructor|done|]. apply reads_done_then; [by apply reads_respond|].
  intros []; [|keep]. apply keeps_gated; [apply done_lasting| |intros w [Hs _]; by left|].
  - apply lasting_and; [apply settled_lasting|]. apply lasting_and; [apply calm_lasting|apply inv_lasting].
  - apply (keeps_weaken _ _ _ _ calm); [by intros w (_ & ? & _)|apply keeps_join].
Qed.

Lemma keeps_forgetExited held : keeps (S := S) (Req id) Reader held forgetExited (fun _ => True).
Proof. unfold forgetExited. keep. apply keeps_stop. by intros []. Qed.

(** Leaving: the mirrors are retracted, and nothing is sent after the response. *)
Lemma reads_disconnect restart : reads_one (disconnect id restart) fresh (settled_in id).
Proof.
  unfold disconnect. apply triple_keeps_bind; [apply fresh_lasting|keep|intros _].
  apply triple_keeps_bind; [apply fresh_lasting|keep|intros l].
  apply triple_keeps_bind; [apply fresh_lasting| |intros _].
  { apply (keeps_weaken _ _ _ _ (fun _ => True)); [done|]. destruct l; [apply keeps_forgetExited|keep]. }
  apply triple_gated; [apply fresh_lasting|apply settled_lasting..|by left|].
  assert (lasting (Req id) Reader true fresh) as Hl.
  { apply lasting_and; [by apply open_lasting|]. apply lasting_and; [apply calm_lasting|apply inv_lasting]. }
  apply triple_keeps_bind; [exact Hl| |intros evs].
  { by apply (keeps_view _ _ (fun _ => retractMirrors)). }
  apply triple_keeps_bind; [exact Hl| |intros _].
  { apply (keeps_weaken _ _ _ _ calm); [by intros w (_ & ? & _)|keep]. }
  set (gone := fun w : world => open_in id w ∧ is_leaving w.2 = true).
  assert (lasting (Req id) Reader true gone) as Hg.
  { apply lasting_and; [by apply open_lasting|]. intros w w' [H _] Hlv.
    by rewrite (mv_leaving _ _ _ _ H) by (by left). }
  eapply (triple_bind _ _ _ _ _ _ gone).
  { intros w Hw w1 H1. pose proof (Hl _ _ (seen_kept _ _ _ _ _ H1) Hw) as (Ho & Hc & Hi). split.
    - constructor; try done; try (by left). by right.
    - intros w2 H2. split; [done|]. apply (Hg _ _ (seen_kept _ _ _ _ _ H2)). by split. }
  intros _. apply triple_answered; [|intros; keep].
  eapply triple_weaken; [..|apply (triple_answering _ _ _ id _ (fun w => is_leaving w.2 = true))].
  - intros w Hw. exact Hw.
  - by intros w [? _].
  - apply answering_write; [done| |done|by intros w Ho Hlv].
    intros w w' [H _] Hlv. by rewrite (mv_leaving _ _ _ _ H) by (by left).
  - intros w w' H Hlv. by rewrite (mv_leaving _ _ _ _ H) by (by left).
Qed.

(** ** Handing requests over *)

Lemma answering_wait r b {A} (p : cprog A) :
  (∀ c, cn_ended c = true → b c = true) → answering (S := S) (Req id) r false id p (fun _ => True) →
  answering (Req id) r false id (TWait b p) (kind_of true).
Proof.
  intros Hb Hp w Ho Hk w1 H1. pose proof (seen_kept _ _ _ _ _ H1) as K1.
  assert (launching w1.2 = true) as Hk1 by (rewrite (mv_launch _ _ _ _ (proj1 K1)); exact Hk).
  split; [by split_and!; auto|]. intros _.
  eapply thread_post; [|exact (Hp w1 (open_lasting (Req id) r false id eq_refl _ _ K1 Ho) I)].
  intros a h w2 (-> & H2 & Hs). split_and!; [done| |done]. by etrans; [apply K1|].
Qed.
Lemma answering_launchConfigured r : answering (S := S) (Req id) r false id (launchConfigured id) (fun _ => True).
Proof.
  unfold launchConfigured. apply keeps_answering; [done..| |].
  { by apply keeps_local, (with_launch_meek (fun l => l <| ls_configOnce := true |>)). }
  intros first. destruct (negb first); [by apply answering_fail|].
  apply answering_keeps; [by apply answering_respond|]. intros _. by apply keeps_writes, with_launch_meek.
Qed.
Lemma answering_terminateLaunch r : answering (S := S) (Req id) r false id (terminateLaunch id) (kind_of true).
Proof.
  unfold terminateLaunch. apply keeps_answering; [done| |by apply keeps_writes, with_launch_meek|intros _].
  { intros w w' [H _] <-. apply H. }
  apply answering_wait; [intros c Hc; unfold done_or_ended; by rewrite Hc, orb_true_r|]. apply keeps_answering; [done..|keep|intros pick].
  apply (answering_look _ _ _ _ _ (fun b w => b = false → gone w)); [done| |].
  { intros w. unfold gone, is_closing. destruct (cn_ended w.2); [by rewrite orb_true_r|done]. }
  intros go. destruct go; cbn [negb]; [|by apply (answering_weaken _ _ _ _ _ gone); [auto|apply answering_drop]].
  apply answering_any, answering_gated; [done..|].
  apply answering_check; [done..|apply answering_drop|]. apply answering_any.
  apply keeps_answering; [done..|keep|intros launched]. apply keeps_answering; [done..| |].
  { destruct launched; [by apply keeps_stopLaunched|keep]. }
  intros [e|]; [by apply answering_fail|]. apply answering_keeps; [by apply answering_respond|keep].
Qed.

(** What the reader leaves behind, by its result. *)
Definition settles (r : role) (p : cprog ()) (w : world) : Prop :=
  safe (Req id) r false (quiet p) (fun _ h w' => h = false ∧ settled_in id w') w.
Definition left_with (a : reading) (w : world) : Prop :=
  match a with
  | ReadOn => done_with w
  | Leave => settled_in id w
  | HandOver o p => fresh w ∧ settles (if o : bool then Worker else Aux) p w
  | StartLaunch p => fresh w ∧ kind_of true w ∧ at_phase phaseLaunching w ∧ ∀ w', launching_in id w' → settles Launcher p w'
  end.
Definition reads_to (p : cprog reading) (I : world → Prop) : Prop :=
  ∀ w, I w → safe (Req id) Reader false p (fun a h w' => h = false ∧ left_with a w') w.

Lemma quiet_settles r p w :
  safe (Req id) r false p (fun _ h w' => h = false ∧ settled_in id w') w → settles r p w.
Proof.
  intros Hp. eapply thread_bind; [exact Hp|]. intros a h w' [-> Hs] w2 H2. split; [done|].
  by apply (settled_lasting (Req id) r id false w'), Hs; apply seen_kept.
Qed.
Lemma answering_settles r p pre w : answering (Req id) r false id p pre → open_in id w → pre w → settles r p w.
Proof.
  intros Hp Ho Hw. apply quiet_settles. eapply thread_post; [|exact (Hp w Ho Hw)]. by intros a h w' (-> & _ & Hs).
Qed.

Lemma reads_to_bind {A} (p : cprog A) (k : A → cprog reading) I J :
  reads_one p I J → (∀ a, reads_to (k a) J) → reads_to (tbind p k) I.
Proof. intros Hp Hk w Hw. eapply thread_bind; [exact (Hp w Hw)|]. intros a h w' [-> Hj]. exact (Hk a w' Hj). Qed.
Lemma reads_to_ret a (I : world → Prop) :
  lasting (Req id) Reader false I → (∀ w, I w → left_with a w) → reads_to (TRet a) I.
Proof. intros Hl Hi w Hw w1 H1. split; [done|]. apply Hi, (Hl w); [by apply seen_kept|done]. Qed.
Lemma reads_to_on (p : cprog ()) I : reads_one p I done_with → reads_to (on p) I.
Proof. intros Hp. eapply reads_to_bind; [exact Hp|]. intros _. by apply reads_to_ret; [apply done_lasting|]. Qed.
Lemma reads_to_fail command e show I :
  (∀ w, I w → fresh w) → reads_to (fail id command e show ;;; TRet ReadOn)%thread I.
Proof. intros HI. apply reads_to_on, (reads_only _ _ _ (reads_fail _ _ _)), HI. Qed.
Lemma reads_to_look {X} (f : connection → X) (φ : X → world → Prop) (ψ : world → Prop) (k : X → cprog reading) :
  lasting (Req id) Reader false ψ → (∀ w, fresh w → φ (f w.2) w) →
  (∀ x, reads_to (k x) (fun w => fresh w ∧ φ x w ∧ ψ w)) →
  reads_to (x <- reads f ;; k x)%thread (fun w => fresh w ∧ ψ w).
Proof.
  intros Hl Hf Hk w [Hw Hp] [s1 c1] H1. split; [apply step_refl|]. pose proof (seen_kept _ _ _ _ _ H1) as K1.
  pose proof (fresh_lasting _ _ K1 Hw) as Hw1. apply Hk. split_and!; [done|by apply (Hf (s1, c1))|by apply (Hl w)].
Qed.
Lemma reads_to_weaken p (I I' : world → Prop) : (∀ w, I' w → I w) → reads_to p I → reads_to p I'.
Proof. intros H Hp w Hw. by apply Hp, H. Qed.

Lemma reads_dispatchOther req : reads_to (dispatchOther id req) fresh.
Proof.
  unfold dispatchOther.
  apply (reads_to_weaken _ (fun w => fresh w ∧ True)); [by split|].
  apply (reads_to_look _ (fun refused w => refused = None → ready req w)); [done| |].
  - intros w _ Ha He. unfold admissible in Ha. destruct (cn_phase w.2); try done. by rewrite He in Ha.
  - intros [e|]; [apply reads_to_fail; by intros w []|].
    apply (reads_to_weaken _ (fun w => fresh w ∧ ready req w)); [naive_solver|].
    apply reads_to_ret; [apply lasting_and; [apply fresh_lasting|apply ready_lasting]|].
    intros w [Hf Hr]. split; [done|]. eapply answering_settles; [|apply Hf|done]. apply answering_handle; [done|by intros ->].
Qed.
Lemma reads_startLaunch fields : reads_to (startLaunch id fields) (fun w => fresh w ∧ kind_of true w).
Proof.
  unfold startLaunch. apply (reads_to_look _ read_phase); [apply kind_lasting|apply read_phase_now|]. intros ph.
  assert (∀ ψ : world → Prop, lasting (Req id) Reader false ψ →
    ∀ {A} (p : cprog A) (k : A → cprog reading), keeps (Req id) Reader false p (fun _ => True) →
    (∀ a, reads_to (k a) (fun w => fresh w ∧ ψ w)) → reads_to (tbind p k) (fun w => fresh w ∧ ψ w)) as Hkb.
  { intros ψ Hl A p k Hp Hk. eapply reads_to_bind; [|exact Hk]. apply triple_keeps.
    - by apply lasting_and; [apply fresh_lasting|].
    - by apply (keeps_weaken _ _ _ _ (fun _ => True)). }
  apply Hkb; [apply lasting_and; [apply read_phase_lasting|apply kind_lasting]|keep|intros started].
  destruct (decide (ph = phaseInitialized)) as [->|Hn].
  2:{ rewrite bool_decide_eq_false_2 by done. apply reads_to_fail. by intros w []. }
  rewrite bool_decide_eq_true_2 by done. cbn [negb orb]. destruct started; [apply reads_to_fail; by intros w []|].
  apply (reads_to_weaken _ (fun w => fresh w ∧ at_phase phaseInitialized w ∧ kind_of true w)).
  { intros w (Hf & Hp & Hk). split_and!; [done|apply Hp; by right; left|done]. }
  apply Hkb; [apply lasting_and; [apply at_phase_lasting|apply kind_lasting]|keep|intros d].
  destruct (launchParams fields d) as [[p terminal]|e]; [|apply reads_to_fail; by intros w []].
  set (f := fun c => with_launch _ _). assert (shift f) as Hf.
  { constructor; intros []; unfold f, with_launch; cbn; try done; [by destruct cn_launch|].
    unfold early. by destruct cn_launch. }
  eapply (reads_to_bind _ _ _ (fun w => fresh w ∧ kind_of true w ∧ at_phase phaseLaunching w)).
  - apply triple_shift; [done|..].
    + apply lasting_and; [apply fresh_lasting|]. apply lasting_and; [apply at_phase_lasting|apply kind_lasting].
    + apply lasting_and; [apply fresh_lasting|]. apply lasting_and; [apply kind_lasting|apply at_phase_lasting].
    + intros w (_ & [He Hp] & _). split; [congruence|by rewrite He].
    + intros w (_ & [He _] & _) _ Hc. rewrite (sh_early _ Hf) in Hc. congruence.
    + intros w ((Ho & Hc & Hi) & [He Hp] & Hk). split_and!; [split_and!; [by apply shift_open|done|]| |].
      * intros Hn. cbn in *. rewrite (sh_early _ Hf) in Hn. congruence.
      * unfold kind_of in *. cbn. by rewrite (sh_launch _ Hf).
      * split; cbn; [by rewrite (sh_early _ Hf)|]. done.
  - intros _. apply reads_to_ret.
    + apply lasting_and; [apply fresh_lasting|]. apply lasting_and; [apply kind_lasting|apply at_phase_lasting].
    + intros w (Hw & Hk & Hp). split_and!; [done..|]. intros w' Hl. apply quiet_settles. by apply launches_runLaunch.
Qed.
Lemma reads_launchConfigurationDone : reads_to (launchConfigurationDone id) fresh.
Proof.
  unfold launchConfigurationDone. eapply reads_to_bind; [apply triple_keeps; [apply fresh_lasting|keep]|]. intros ph.
  destruct (negb _); [by apply reads_to_fail|]. apply reads_to_ret; [apply fresh_lasting|].
  intros w Hw. split; [done|]. eapply answering_settles; [apply answering_launchConfigured|apply Hw|done].
Qed.
Lemma reads_launchTerminate : reads_to (launchTerminate id) (fun w => fresh w ∧ kind_of true w).
Proof.
  assert (lasting (Req id) Reader false (fun w => fresh w ∧ kind_of true w)) as Hl.
  { apply lasting_and; [apply fresh_lasting|apply kind_lasting]. }
  unfold launchTerminate. do 3 (eapply reads_to_bind; [apply triple_keeps; [exact Hl|keep]|]; intros ?).
  destruct (_ || _).
  { eapply reads_to_bind; [apply (reads_only _ _ _ (reads_respond TerminateResponse ltac:(done))); by intros w []|].
    intros _. by apply reads_to_ret; [apply done_lasting|]. }
  destruct (negb _); [|eapply reads_to_weaken; [|apply reads_dispatchOther]; by intros w []].
  apply reads_to_ret; [exact Hl|].
  intros w [Hw Hk]. split; [done|]. eapply answering_settles; [apply answering_terminateLaunch|apply Hw|done].
Qed.
Lemma reads_terminal_answered a : reads_one (terminal_answered id a) fresh done_with.
Proof.
  unfold terminal_answered. apply triple_keeps_bind; [apply fresh_lasting| |].
  - apply keeps_local. constructor; intros []; cbn; destruct cn_launch as [l|]; try done;
      cbn; by destruct (terminalAnswered _ _ _).
  - intros [e|]; [apply reads_fail|]. apply reads_done_bind; [by apply reads_respond|keep].
Qed.

(** Whatever the reader reads, it is answered or handed over. *)
Lemma reads_read_one m : reads_to (read_one id m) fresh.
Proof.
  destruct m as [req|command unknown]; cbn [read_one]; [|by apply reads_to_on, reads_fail].
  eapply reads_to_bind; [apply triple_keeps; [apply fresh_lasting|keep]|]. intros joined.
  eapply reads_to_bind; [apply triple_keeps; [apply fresh_lasting|keep]|]. intros _.
  unfold dispatch. apply (reads_to_weaken _ (fun w => fresh w ∧ True)); [by split|].
  apply (reads_to_look _ kind_of); [done|done|]. intros l.
  assert (∀ p, reads_to p fresh → reads_to p (fun w => fresh w ∧ kind_of l w ∧ True)) as Hw.
  { intros p. apply reads_to_weaken. by intros w []. }
  destruct req; try (apply Hw, reads_dispatchOther).
  - apply Hw, reads_to_on, reads_initialize.
  - destruct l; apply Hw, reads_to_on; [apply reads_fail|apply reads_attach].
  - destruct l; [|apply Hw, reads_to_on, reads_fail]. eapply reads_to_weaken; [|apply reads_startLaunch]. naive_solver.
  - destruct l; [apply Hw, reads_launchConfigurationDone|]. apply reads_to_on.
    eapply triple_weaken; [|done|apply reads_configurationDone]. naive_solver.
  - apply Hw, reads_to_on, reads_terminal_answered.
  - apply Hw. eapply reads_to_bind; [apply reads_disconnect|]. intros _. apply reads_to_ret; [apply settled_lasting|done].
  - destruct l; [eapply reads_to_weaken; [|apply reads_launchTerminate]; naive_solver|apply Hw, reads_dispatchOther].
Qed.
End reader.
