(* ===== verification/FacadeSpec.v ===== *)
(** * What an editor's connection promises

    Over every interleaving of a connection's goroutines with the session:
    each request is answered at most once and never forgotten; what changes
    the program, the breakpoints or the lease is called under the gate, and
    the program only once the handshake is over; while a request's section
    runs, nothing of the log past its start is sent; and nothing is sent
    after the response to disconnect. *)

From S2P Require Import Prelude GoStrings Api EventLog Prog Message Session Lease Exec Forward EditorEvents Mirrors Threads.
From S2P Require Import Manager Manifest Terminal LaunchArgs Facade Handlers LaunchConn FacadeSystem FacadeRun FacadeSafe.
From S2P Require Import HandlersSafe ReaderSafe.
From Stdlib Require Import Bool.

Open Scope Z_scope.

(** ** What is said of the output *)

Definition is_sent (m : message) : Prop := match m with Sent _ _ => True | _ => False end.
(** Nothing is sent once a disconnect was answered. *)
Definition silent_after (out : list message) : Prop :=
  ∀ o1 id o2, out = o1 ++ Answered id DisconnectResponse :: o2 → Forall (fun m => ¬ is_sent m) o2.
Definition disconnected (out : list message) : Prop := ∃ id, Answered id DisconnectResponse ∈ out.
(** The log's events sent so far are at most number [n]. *)
Definition relayed_to (n : Z) (out : list message) : Prop := ∀ k ev, Sent (Some k) ev ∈ out → k ≤ n.
Definition answered_ids (out : list message) : list nat := concat (map answers out).

Section spec.
Context {P : PathFns} {S : Type} `{!Serves S} {HL : ServesLaws S}.
Abbreviation world := (S * connection)%type.
Abbreviation sys := (sys (S := S)).

Definition world_of (y : sys) : world := (y_sess y, y_conn y).

(** A request in the queue will be the worker's. *)
Definition eff (r : role) : role := match r with Waiting => Worker | _ => r end.
Definition fits (t : tid) (r : role) : Prop :=
  match t with
  | Req _ => r ≠ FollowerRole ∧ r ≠ SideRole
  | Follower => r = FollowerRole
  | Side _ | Closer => r = SideRole
  end.
Definition ends_as (t : tid) (r : role) (a : reading) (h : bool) (w : world) : Prop :=
  h = false ∧
  match t with
  | Req id => match r with Reader => left_with id a w | _ => settled_in id w end
  | _ => True
  end.
Definition runs_safe (t : tid) (r : role) (held : bool) (p : cprog reading) (w : world) : Prop :=
  safe t (eff r) held p (ends_as t r) w.

(** ** The invariant *)

Record out_ok (n : nat) (w : world) : Prop := {
  oo_answered : ∀ id, answered id w.2 → (id < n)%nat;
  oo_once : NoDup (answered_ids (cn_out w.2));
  oo_phase : phase_inv w.2;
  oo_silent : silent_after (cn_out w.2);
  oo_gone : disconnected (cn_out w.2) → is_leaving w.2 = true;
  oo_dropped id : id ∈ cn_dropped w.2 → is_closing w.2 = true;
  oo_closed : cn_closed w.2 = true → cn_broken w.2 = true;
  oo_logged : relayed_to (last_seq w.1) (cn_out w.2) }.

Record sys_ok (y : sys) : Prop := {
  ok_threads t r p : y_threads y !! t = Some (r, p) → fits t r ∧ runs_safe t r (held_by t y) p (world_of y);
  ok_gate t : y_gate y = Some t → is_Some (y_threads y !! t);
  ok_reader t t' p p' : y_threads y !! t = Some (Reader, p) → y_threads y !! t' = Some (Reader, p') → t = t';
  ok_launcher t t' p p' : y_threads y !! t = Some (Launcher, p) → y_threads y !! t' = Some (Launcher, p') → t = t';
  ok_worker t t' p p' : y_threads y !! t = Some (Worker, p) → y_threads y !! t' = Some (Worker, p') → t = t';
  ok_closer x : y_threads y !! Closer = Some x → y_reading y = false ∧ ∀ id, y_threads y !! Req id = None;
  ok_running t p : y_threads y !! t = Some (Launcher, p) → early (y_conn y) = false;
  ok_reading : y_reading y = true → ¬ has_role Reader y → is_leaving (y_conn y) = false;
  ok_waiting t p : y_threads y !! t = Some (Waiting, p) → held_by t y = false;
  ok_reads t p : y_threads y !! t = Some (Reader, p) → y_reading y = true;
  ok_next id x : y_threads y !! Req id = Some x → (id < y_next y)%nat;
  ok_settled id : (id < y_next y)%nat → is_Some (y_threads y !! Req id) ∨ settled id (y_conn y);
  ok_out : out_ok (y_next y) (world_of y);
  ok_mark t : y_gate y = Some t → y_mark y ≤ last_seq (y_sess y) ∧
              ∀ r p, y_threads y !! t = Some (r, p) → r ≠ FollowerRole → relayed_to (y_mark y) (cn_out (y_conn y)) }.

(** *** A step of a goroutine keeps the output's part *)

Lemma silent_snoc out m : silent_after out → (is_sent m → ¬ disconnected out) → silent_after (out ++ [m]).
Proof.
  intros Hs Hm o1 id o2 E. destruct o2 as [|x o2 _] using rev_ind; [done|].
  rewrite app_comm_cons, app_assoc in E. apply app_inj_tail in E as [-> ->].
  apply Forall_app. split; [by apply (Hs o1 id o2)|]. apply Forall_singleton. intros Hi. apply (Hm Hi).
  exists id. apply elem_of_app. right. apply elem_of_cons. by left.
Qed.
Lemma answered_ids_snoc out m : answered_ids (out ++ [m]) = answered_ids out ++ answers m.
Proof. unfold answered_ids. rewrite map_app, concat_app. cbn. by rewrite app_nil_r. Qed.
Lemma relayed_weaken n n' out : n ≤ n' → relayed_to n out → relayed_to n' out.
Proof. intros Hn H k ev Hin. specialize (H k ev Hin). lia. Qed.
Lemma relayed_snoc n out m : relayed_to n out → (∀ k ev, m = Sent (Some k) ev → k ≤ n) → relayed_to n (out ++ [m]).
Proof.
  intros H Hm k ev Hin. apply elem_of_app in Hin as [Hin|Hin]; [by apply (H k ev)|].
  apply list_elem_of_singleton in Hin. by eapply Hm.
Qed.
Lemma disconnected_snoc out m : disconnected (out ++ [m]) → disconnected out ∨ ∃ id, m = Answered id DisconnectResponse.
Proof.
  intros [id H]. apply elem_of_app in H as [H|H]; [left; by exists id|]. right. exists id.
  by apply list_elem_of_singleton in H.
Qed.

Lemma out_step t r held n w w' :
  step_of t r held w w' → (∀ id, t = Req id → (id < n)%nat) → out_ok n w → out_ok n w'.
Proof.
  intros H Ht Hok. assert (is_leaving w.2 = true → is_leaving w'.2 = true) as Hlv.
  { intros Hl. destruct (so_leaving _ _ _ _ _ H) as [->|[_ ?]]; done. }
  assert (∀ id, id ∈ cn_dropped w'.2 → is_closing w'.2 = true) as Hdr.
  { intros id Hin. assert (is_closing w.2 = true) as Hc by (destruct (so_drops _ _ _ _ _ H id Hin); [by apply Hok in H0|done]).
    unfold is_closing in *. rewrite (so_ended _ _ _ _ _ H). apply orb_true_iff in Hc as [Hc|Hc]; apply orb_true_iff; auto. }
  assert (cn_closed w'.2 = true → cn_broken w'.2 = true) as Hcl.
  { intros Hc. rewrite (so_broken _ _ _ _ _ H). destruct (so_closes _ _ _ _ _ H Hc); [by apply Hok|done]. }
  destruct (so_out _ _ _ _ _ H) as [Ho|(m & Ho & Hm)].
  { constructor; unfold answered; rewrite ?Ho; try done; try apply Hok.
    - by apply H, Hok.
    - intros Hd. by apply Hlv, Hok.
    - eapply relayed_weaken; [apply H|apply Hok]. }
  assert (∀ id, id ∈ answers m → t = Req id ∧ ¬ answered id w.2) as Hans.
  { intros i Hi. destruct m; cbn in Hi, Hm; [| |by apply elem_of_nil in Hi];
      apply list_elem_of_singleton in Hi as ->; naive_solver. }
  constructor; unfold answered; rewrite ?Ho, ?answered_ids_snoc.
  - intros id Hin. apply answered_snoc in Hin as [Hin|Hin]; [by apply Hok|]. by apply Ht, Hans.
  - apply NoDup_app. split_and!; [apply Hok| |].
    + intros id Hin Hid. by apply Hans in Hid as [_ Hid].
    + destruct m; cbn; [apply NoDup_singleton..|apply NoDup_nil_2].
  - by apply H, Hok.
  - apply silent_snoc; [apply Hok|]. intros Hs Hd. apply Hok in Hd. destruct m as [| |[k|] ev]; try done; cbn in Hm.
    + destruct Hm as [Hc _]. congruence.
    + congruence.
  - intros [Hd|[id ->]]%disconnected_snoc; [by apply Hlv, Hok|]. apply Hlv. by apply Hm.
  - exact Hdr.
  - exact Hcl.
  - apply relayed_snoc; [eapply relayed_weaken; [apply H|apply Hok]|]. intros k ev ->. cbn in Hm.
    destruct Hm as (_ & _ & _ & Hk). pose proof (so_log _ _ _ _ _ H). lia.
Qed.

Lemma settled_step t r held w w' id : step_of t r held w w' → settled id w.2 → settled id w'.2.
Proof.
  intros H [Ha|[Hd|Hc]]; [left|right; left|right; right]; try by apply H.
  unfold answered in *. destruct (so_out _ _ _ _ _ H) as [->|(m & -> & _)]; [done|]. apply answered_snoc. by left.
Qed.
Lemma relayed_step t r held w w' n :
  step_of t r held w w' → r ≠ FollowerRole ∨ held = false → relayed_to n (cn_out w.2) → relayed_to n (cn_out w'.2).
Proof.
  intros H Hr Hn. destruct (so_out _ _ _ _ _ H) as [->|(m & -> & Hm)]; [done|]. apply relayed_snoc; [done|].
  intros k ev ->. cbn in Hm. naive_solver.
Qed.
Lemma eff_role r r' : eff r = r' → r' ≠ Worker → r = r'.
Proof. by destruct r. Qed.

Lemma put_lookup t r p (y : sys) t' :
  y_threads (put t r p y) !! t' = if decide (t' = t) then Some (r, p) else y_threads y !! t'.
Proof.
  unfold put. cbn. destruct (decide (t' = t)) as [->|Hn]; [apply lookup_insert_eq|by apply lookup_insert_ne].
Qed.

(** A goroutine's step: its program goes on, its role stays. *)
Lemma advance y t r p p' s' c' :
  sys_ok y → y_threads y !! t = Some (r, p) →
  step_of t (eff r) (held_by t y) (world_of y) (s', c') → runs_safe t r (held_by t y) p' (s', c') →
  sys_ok (put t r p' (y <| y_sess := s' |> <| y_conn := c' |>)).
Proof.
  intros Hok Ht Hstep Hsafe. set (y' := put t r p' _).
  assert (∀ t' r' q, y_threads y' !! t' = Some (r', q) →
    ∃ q', y_threads y !! t' = Some (r', q') ∧ (t' = t ∧ q = p' ∨ t' ≠ t ∧ q = q')) as Hback.
  { intros t' r' q. unfold y'. rewrite put_lookup. destruct (decide (t' = t)) as [->|Hn]; cbn.
    - intros [= <- <-]. exists p. naive_solver.
    - intros H. exists q. naive_solver. }
  assert (∀ t', is_Some (y_threads y !! t') → is_Some (y_threads y' !! t')) as Hfwd.
  { intros t' Hs. unfold y'. rewrite put_lookup. by destruct (decide (t' = t)). }
  destruct (ok_threads y Hok t r p Ht) as [Hfit _]. constructor.
  - intros t' r' q Hq. destruct (Hback _ _ _ Hq) as (q' & Hq' & [[-> ->]|[Hn ->]]); [by simplify_eq|].
    destruct (ok_threads y Hok t' r' q' Hq') as [Hf Hs]. split; [done|].
    eapply tsafe_rely; [apply _| |exact Hs]. apply (seen_step t (eff r) (held_by t y)); try done.
    + unfold held_by. intros Hg%bool_decide_eq_true. apply bool_decide_eq_false. cbn. congruence.
    + intros Hr Hr'. apply eff_role in Hr, Hr'; try done. subst. apply Hn. by eapply (ok_reader y Hok).
    + intros Hr Hr'. apply eff_role in Hr, Hr'; try done. subst. apply Hn. by eapply (ok_launcher y Hok).
  - intros t' Hg. apply Hfwd. by apply (ok_gate y Hok).
  - intros t1 t2 q1 q2 H1 H2. destruct (Hback _ _ _ H1) as (? & ? & _), (Hback _ _ _ H2) as (? & ? & _).
    by eapply (ok_reader y Hok).
  - intros t1 t2 q1 q2 H1 H2. destruct (Hback _ _ _ H1) as (? & ? & _), (Hback _ _ _ H2) as (? & ? & _).
    by eapply (ok_launcher y Hok).
  - intros t1 t2 q1 q2 H1 H2. destruct (Hback _ _ _ H1) as (? & ? & _), (Hback _ _ _ H2) as (? & ? & _).
    by eapply (ok_worker y Hok).
  - intros [r' q] H1. destruct (Hback _ _ _ H1) as (q' & Hq & _). destruct (ok_closer y Hok _ Hq) as [? Hno].
    split; [done|]. intros id. destruct (y_threads y' !! Req id) as [[r2 q2]|] eqn:E; [|done].
    destruct (Hback _ _ _ E) as (? & Hid & _). by rewrite Hno in Hid.
  - intros t1 q1 H1. destruct (Hback _ _ _ H1) as (q & Hq & _).
    pose proof (so_early _ _ _ _ _ Hstep) as He. cbn in *. rewrite He. by eapply (ok_running y Hok).
  - intros Hr Hno. assert (¬ has_role Reader y) as Hno'.
    { intros (t' & q & Hq). apply Hno. unfold has_role, y'. destruct (decide (t' = t)) as [->|Hn].
      - exists t, p'. rewrite put_lookup, decide_True by done. naive_solver.
      - exists t', q. by rewrite put_lookup, decide_False by done. }
    pose proof (ok_reading y Hok Hr Hno') as Hl. destruct (so_leaving _ _ _ _ _ Hstep) as [He|[He _]].
    + cbn in *. by rewrite He.
    + exfalso. apply Hno'. apply eff_role in He; [|done]. subst. by exists t, p.
  - intros t1 q1 H1. destruct (Hback _ _ _ H1) as (q & Hq & _). by apply (ok_waiting y Hok t1 q).
  - intros t1 q1 H1. destruct (Hback _ _ _ H1) as (q & Hq & _). by eapply (ok_reads y Hok).
  - intros id [r' q] H1. destruct (Hback _ _ _ H1) as (q' & Hq & _). by eapply (ok_next y Hok).
  - intros id Hid. destruct (ok_settled y Hok id Hid) as [Hs|Hs]; [left; by apply Hfwd|right].
    by apply (settled_step _ _ _ _ _ _ Hstep).
  - apply (out_step _ _ _ _ _ _ Hstep); [|apply Hok]. intros id ->. by eapply (ok_next y Hok).
  - intros t' Hg. destruct (ok_mark y Hok t' Hg) as [Hm Hrel]. pose proof (so_log _ _ _ _ _ Hstep) as Hlog.
    split; [cbn in *; lia|]. intros r' q Hq Hr'. destruct (Hback _ _ _ Hq) as (q' & Hq' & [[-> ->]|[Hn ->]]).
    + simplify_eq. apply (relayed_step _ _ _ _ _ _ Hstep); [|by eapply Hrel]. left. intros He. apply eff_role in He; done.
    + apply (relayed_step _ _ _ _ _ _ Hstep); [|by eapply Hrel]. right. unfold held_by. cbn in Hg.
      apply bool_decide_eq_false. congruence.
Qed.

(** *** What happens outside the goroutines' programs *)

(** The connection as the goroutines see it is the same. *)
Record idle (c c' : connection) : Prop := {
  id_client : cn_client c' = cn_client c;
  id_launch : launching c' = launching c;
  id_out : cn_out c' = cn_out c;
  id_dropped id : id ∈ cn_dropped c → id ∈ cn_dropped c';
  id_drops id : id ∈ cn_dropped c' → id ∈ cn_dropped c ∨ is_closing c' = true;
  id_ended : cn_ended c = true → cn_ended c' = true;
  id_broken : cn_broken c = true → cn_broken c' = true;
  id_closed : cn_closed c' = cn_closed c;
  id_view : cn_view c' = cn_view c;
  id_phase : cn_phase c' = cn_phase c }.
Lemma idle_refl c : idle c c.
Proof. constructor; try done. by left. Qed.
Lemma idle_ended c : idle c (c <| cn_ended := true |>).
Proof. constructor; try done. by left. Qed.
Lemma idle_broken c : idle c (c <| cn_broken := true |>).
Proof. constructor; try done. by left. Qed.
Lemma idle_seen t r held s s' c c' :
  last_seq s ≤ last_seq s' → idle c c' → phase_inv c' → early c' = early c ∨ (r ≠ Reader ∧ r ≠ Launcher) →
  seen_by t r held (s, c) (s', c').
Proof.
  intros Hs H Hi He. constructor; unfold answered, is_leaving; cbn.
  - done.
  - apply H.
  - apply H.
  - by rewrite (id_out _ _ H).
  - by rewrite (id_out _ _ H).
  - apply H.
  - by rewrite (id_closed _ _ H).
  - intros _. apply H.
  - by rewrite (id_view _ _ H).
  - by rewrite (id_view _ _ H).
  - by rewrite (id_phase _ _ H).
  - intros _. apply H.
  - intros [->| ->]; naive_solver.
  - done.
  - apply H.
Qed.
Lemma idle_settled c c' id : idle c c' → settled id c → settled id c'.
Proof.
  intros H [Ha|[Hd|Hc]]; [left|right; left|right; right].
  - unfold answered in *. by rewrite (id_out _ _ H).
  - by apply H.
  - by rewrite (id_closed _ _ H).
Qed.
Lemma idle_out n n' s s' c c' :
  last_seq s ≤ last_seq s' → idle c c' → phase_inv c' → (n ≤ n')%nat → out_ok n (s, c) → out_ok n' (s', c').
Proof.
  intros Hs H Hi Hn Hok. constructor; unfold answered, is_leaving; cbn; rewrite ?(id_out _ _ H).
  - intros id Ha. pose proof (oo_answered _ _ Hok id Ha). lia.
  - apply Hok.
  - done.
  - apply Hok.
  - intros Hd. rewrite (id_view _ _ H). by apply (oo_gone _ _ Hok).
  - intros id Hin. apply (id_drops _ _ H) in Hin as [Hin|Hin]; [|done]. apply (oo_dropped _ _ Hok) in Hin.
    unfold is_closing, is_leaving in *. cbn in *. rewrite (id_view _ _ H). apply orb_true_iff in Hin as [Hl|He]; apply orb_true_iff; [by left|].
    right. by apply H.
  - rewrite (id_closed _ _ H). intros Hc. by apply H, (oo_closed _ _ Hok).
  - eapply relayed_weaken; [exact Hs|apply Hok].
Qed.

(** The session goes on, the editor goes away. *)
Lemma outside y s' c' rd' :
  sys_ok y → last_seq (y_sess y) ≤ last_seq s' → idle (y_conn y) c' → early c' = early (y_conn y) →
  rd' = y_reading y ∨ rd' = false ∧ ¬ has_role Reader y →
  sys_ok (mkSys s' c' (y_gate y) (y_threads y) (y_next y) rd' (y_closed y) (y_mark y)).
Proof.
  intros Hok Hs Hc He Hrd. assert (phase_inv c') as Hi.
  { unfold phase_inv. rewrite He, (id_phase _ _ Hc). apply (oo_phase _ _ (ok_out y Hok)). }
  constructor; try apply Hok.
  - intros t r p Ht. destruct (ok_threads y Hok t r p Ht) as [Hf Hsafe]. split; [done|].
    eapply tsafe_rely; [apply _| |exact Hsafe]. apply idle_seen; try done. by left.
  - intros x Hx. destruct (ok_closer y Hok x Hx) as [Hr Hno]. split; [|exact Hno]. cbn. destruct Hrd as [->|[-> _]]; done.
  - intros t p Ht. cbn. rewrite He. by apply (ok_running y Hok t p).
  - intros Hr Hno. cbn in *. unfold is_leaving. rewrite (id_view _ _ Hc). apply (ok_reading y Hok); [|done]. naive_solver.
  - intros t p Ht. cbn in *. destruct Hrd as [->|[-> Hno]]; [by eapply (ok_reads y Hok)|]. exfalso. apply Hno. by exists t, p.
  - intros id Hid. destruct (ok_settled y Hok id Hid) as [?|Hset]; [by left|right]. by apply (idle_settled _ _ _ Hc).
  - by apply (idle_out (y_next y) _ (y_sess y) _ (y_conn y)); [..|apply Hok].
  - intros t Hg. destruct (ok_mark y Hok t Hg) as [Hm Hrel]. split; [cbn; lia|].
    intros r p Ht Hr. cbn. rewrite (id_out _ _ Hc). by apply (Hrel r p).
Qed.

(** The gate is taken or given back. *)
Lemma regate y t r p p' g m :
  sys_ok y → y_threads y !! t = Some (r, p) →
  (∀ t', t' ≠ t → bool_decide (g = Some t') = held_by t' y) → (g = None ∨ g = Some t) →
  runs_safe t r (bool_decide (g = Some t)) p' (world_of y) →
  (g = Some t → m = last_seq (y_sess y)) → r ≠ Waiting →
  sys_ok (put t r p' (y <| y_gate := g |> <| y_mark := m |>)).
Proof.
  intros Hok Ht Hheld Hg Hsafe Hm Hrw. destruct (ok_threads y Hok t r p Ht) as [Hfit _].
  assert (∀ t' r' q, y_threads (put t r p' (y <| y_gate := g |> <| y_mark := m |>)) !! t' = Some (r', q) →
    ∃ q', y_threads y !! t' = Some (r', q') ∧ (t' = t ∧ q = p' ∨ t' ≠ t ∧ q = q')) as Hback.
  { intros t' r' q. rewrite put_lookup. destruct (decide (t' = t)) as [->|Hn]; cbn.
    - intros [= <- <-]. exists p. naive_solver.
    - intros H. exists q. naive_solver. }
  constructor.
  - intros t' r' q Hq. destruct (Hback _ _ _ Hq) as (q' & Hq' & [[-> ->]|[Hn ->]]); [by simplify_eq|].
    destruct (ok_threads y Hok t' r' q' Hq') as [Hf Hs]. split; [done|]. unfold held_by. cbn.
    by rewrite (Hheld t' Hn).
  - intros t' Hgt. rewrite put_lookup. destruct (decide (t' = t)) as [->|Hn]; [done|]. cbn in Hgt. naive_solver.
  - intros t1 t2 q1 q2 H1 H2. destruct (Hback _ _ _ H1) as (? & ? & _), (Hback _ _ _ H2) as (? & ? & _).
    by eapply (ok_reader y Hok).
  - intros t1 t2 q1 q2 H1 H2. destruct (Hback _ _ _ H1) as (? & ? & _), (Hback _ _ _ H2) as (? & ? & _).
    by eapply (ok_launcher y Hok).
  - intros t1 t2 q1 q2 H1 H2. destruct (Hback _ _ _ H1) as (? & ? & _), (Hback _ _ _ H2) as (? & ? & _).
    by eapply (ok_worker y Hok).
  - intros [r' q] H1. destruct (Hback _ _ _ H1) as (q' & Hq & _). destruct (ok_closer y Hok _ Hq) as [? Hno].
    split; [done|]. intros id. destruct (y_threads (put t r p' (y <| y_gate := g |> <| y_mark := m |>)) !! Req id) as [[r2 q2]|] eqn:E; [|done].
    destruct (Hback _ _ _ E) as (? & Hid & _). by rewrite Hno in Hid.
  - intros t1 q1 H1. destruct (Hback _ _ _ H1) as (q & Hq & _). by eapply (ok_running y Hok).
  - intros Hr Hno. apply (ok_reading y Hok); [done|]. intros (t' & q & Hq). apply Hno.
    destruct (decide (t' = t)) as [->|Hn].
    + exists t, p'. rewrite put_lookup, decide_True by done. naive_solver.
    + exists t', q. by rewrite put_lookup, decide_False by done.
  - intros t1 q1 H1. destruct (Hback _ _ _ H1) as (q & Hq & [[-> _]|[Hn _]]); [by simplify_eq|].
    unfold held_by. cbn. rewrite (Hheld t1 Hn). by apply (ok_waiting y Hok t1 q).
  - intros t1 q1 H1. destruct (Hback _ _ _ H1) as (q & Hq & _). by eapply (ok_reads y Hok).
  - intros id [r' q] H1. destruct (Hback _ _ _ H1) as (q' & Hq & _). by eapply (ok_next y Hok).
  - intros id Hid. destruct (ok_settled y Hok id Hid) as [Hs|Hs]; [left|by right].
    rewrite put_lookup. by destruct (decide _).
  - apply Hok.
  - intros t' Hgt. cbn in *. destruct Hg as [->| ->]; [done|]. simplify_eq. specialize (Hm eq_refl) as ->.
    split; [done|]. intros r' q _ _. apply (oo_logged _ _ (ok_out y Hok)).
Qed.

(** A goroutine starts, ends or takes another role. *)
Definition rethreaded (t : tid) (x : option thread) (c' : connection) (n' : nat) (rd' cl' : bool) (y : sys) : sys :=
  mkSys (y_sess y) c' (y_gate y) (match x with Some th => <[t := th]> (y_threads y) | None => delete t (y_threads y) end)
    n' rd' cl' (y_mark y).
Lemma rethreaded_lookup t x c' n' rd' cl' y t' :
  y_threads (rethreaded t x c' n' rd' cl' y) !! t' = if decide (t' = t) then x else y_threads y !! t'.
Proof.
  unfold rethreaded. cbn. destruct (decide (t' = t)) as [->|Hn]; destruct x.
  - apply lookup_insert_eq.
  - apply lookup_delete_eq.
  - by apply lookup_insert_ne.
  - by apply lookup_delete_ne.
Qed.
Lemma rethread y t x c' n' rd' cl' :
  sys_ok y → idle (y_conn y) c' → phase_inv c' → held_by t y = false →
  early c' = early (y_conn y) ∨ (∃ p, y_threads y !! t = Some (Reader, p)) ∧ early (y_conn y) = true ∧ early c' = false →
  (∀ r p, x = Some (r, p) → fits t r ∧ runs_safe t r false p (y_sess y, c')) →
  (∀ p, x = Some (Reader, p) → rd' = true ∧ ∀ t' p', y_threads y !! t' ≠ Some (Reader, p')) →
  (∀ p, x = Some (Launcher, p) → early c' = false ∧ ∀ t' p', y_threads y !! t' ≠ Some (Launcher, p')) →
  (∀ p, x = Some (Worker, p) → ∀ t' p', y_threads y !! t' ≠ Some (Worker, p')) →
  (t = Closer → rd' = false ∧ ∀ id, y_threads y !! Req id = None) →
  (∀ id, t = Req id → is_Some x → is_Some (y_threads y !! Req id) ∨ y_reading y = true) →
  (rd' = true → y_reading y = true ∧
     ((∀ p, x ≠ Some (Reader, p)) → (∃ p, y_threads y !! t = Some (Reader, p)) → is_leaving c' = false)) →
  (rd' = y_reading y ∨ ∃ p, y_threads y !! t = Some (Reader, p) ∧ ∀ p', x ≠ Some (Reader, p')) →
  (y_next y ≤ n')%nat → (∀ id, t = Req id → (id < n')%nat) →
  (∀ id, (y_next y ≤ id < n')%nat → t = Req id ∧ is_Some x) →
  (∀ id, t = Req id → x = None → settled id c') →
  sys_ok (rethreaded t x c' n' rd' cl' y).
Proof.
  intros Hok Hidle Hinv Hheld Hearly Hnew Hreader Hlauncher Hworker Hcloser Hreq Hrd Hsame Hn Hid Hfresh Hend.
  assert (∀ t' r q, y_threads (rethreaded t x c' n' rd' cl' y) !! t' = Some (r, q) →
    t' = t ∧ x = Some (r, q) ∨ t' ≠ t ∧ y_threads y !! t' = Some (r, q)) as Hback.
  { intros t' r q. rewrite rethreaded_lookup. destruct (decide (t' = t)); naive_solver. }
  constructor.
  - intros t' r q Hq. destruct (Hback _ _ _ Hq) as [[-> Hx]|[Hne Hq']].
    + destruct (Hnew _ _ Hx) as [Hf Hs]. split; [done|]. unfold held_by in *. cbn. by rewrite Hheld.
    + destruct (ok_threads y Hok t' r q Hq') as [Hf Hs]. split; [done|].
      eapply tsafe_rely; [apply _| |exact Hs]. apply idle_seen; try done.
      destruct Hearly as [He|[[p Hp] [He _]]]; [by left|right]. split; intros Hr; apply eff_role in Hr; try done; subst.
      * apply Hne. by eapply (ok_reader y Hok).
      * pose proof (ok_running y Hok _ _ Hq'). congruence.
  - intros t' Hg. cbn in Hg. rewrite rethreaded_lookup. destruct (decide (t' = t)) as [->|Hne].
    + unfold held_by in Hheld. by rewrite bool_decide_eq_true_2 in Hheld.
    + by apply (ok_gate y Hok).
  - intros t1 t2 q1 q2 H1 H2. destruct (Hback _ _ _ H1) as [[-> Hx]|[Hn1 H1']], (Hback _ _ _ H2) as [[-> Hx']|[Hn2 H2']]; try done.
    + by destruct (Hreader _ Hx) as [_ Hno]; apply Hno in H2'.
    + by destruct (Hreader _ Hx') as [_ Hno]; apply Hno in H1'.
    + by eapply (ok_reader y Hok).
  - intros t1 t2 q1 q2 H1 H2. destruct (Hback _ _ _ H1) as [[-> Hx]|[Hn1 H1']], (Hback _ _ _ H2) as [[-> Hx']|[Hn2 H2']]; try done.
    + by destruct (Hlauncher _ Hx) as [_ Hno]; apply Hno in H2'.
    + by destruct (Hlauncher _ Hx') as [_ Hno]; apply Hno in H1'.
    + by eapply (ok_launcher y Hok).
  - intros t1 t2 q1 q2 H1 H2. destruct (Hback _ _ _ H1) as [[-> Hx]|[Hn1 H1']], (Hback _ _ _ H2) as [[-> Hx']|[Hn2 H2']]; try done.
    + by apply (Hworker _ Hx) in H2'.
    + by apply (Hworker _ Hx') in H1'.
    + by eapply (ok_worker y Hok).
  - intros [r' q] H1. destruct (Hback _ _ _ H1) as [[<- Hx]|[Hn1 H1']].
    + destruct (Hcloser eq_refl) as [-> Hno]. split; [done|]. intros id. by rewrite rethreaded_lookup, decide_False.
    + destruct (ok_closer y Hok _ H1') as [Hr Hno]. split.
      * destruct rd'; [|done]. destruct (Hrd eq_refl) as [? _]. congruence.
      * intros id. rewrite rethreaded_lookup. destruct (decide (Req id = t)) as [<-|]; [|done].
        destruct x; [|done]. destruct (Hreq id eq_refl) as [[? ?]|?]; [by eexists|congruence..].
  - intros t1 q1 H1. cbn. destruct (Hback _ _ _ H1) as [[-> Hx]|[Hn1 H1']]; [by eapply Hlauncher|].
    pose proof (ok_running y Hok _ _ H1'). destruct Hearly as [->|(_ & _ & ->)]; done.
  - intros Hr Hno. cbn in Hr |- *. destruct (Hrd Hr) as [Hry Hlv].
    assert (∀ p, x ≠ Some (Reader, p)) as Hxr.
    { intros p Hx. apply Hno. exists t, p. by rewrite rethreaded_lookup, decide_True. }
    destruct (y_threads y !! t) as [[r0 p0]|] eqn:Et; [destruct (decide (r0 = Reader)) as [->|Hr0]|].
    + apply Hlv; [done|by exists p0].
    + unfold is_leaving. rewrite (id_view _ _ Hidle). apply (ok_reading y Hok Hry). intros (t' & q & Hq).
      apply Hno. exists t', q. rewrite rethreaded_lookup. destruct (decide (t' = t)) as [->|]; [naive_solver|done].
    + unfold is_leaving. rewrite (id_view _ _ Hidle). apply (ok_reading y Hok Hry). intros (t' & q & Hq).
      apply Hno. exists t', q. rewrite rethreaded_lookup. destruct (decide (t' = t)) as [->|]; [naive_solver|done].
  - intros t1 q1 H1. destruct (Hback _ _ _ H1) as [[-> Hx]|[Hn1 H1']]; [done|]. by apply (ok_waiting y Hok t1 q1).
  - intros t1 q1 H1. cbn. destruct (Hback _ _ _ H1) as [[-> Hx]|[Hn1 H1']]; [by eapply Hreader|].
    destruct Hsame as [->|(p & Hp & Hxr)]; [by eapply (ok_reads y Hok)|].
    exfalso. apply Hn1. by eapply (ok_reader y Hok).
  - intros id [r q] Hq. destruct (Hback _ _ _ Hq) as [[He Hx]|[Hn1 H1']]; [by apply Hid|].
    cbn. pose proof (ok_next y Hok _ _ H1'). lia.
  - intros id Hlt. cbn in Hlt. rewrite rethreaded_lookup. destruct (decide (Req id = t)) as [<-|Hne].
    + destruct x as [th|]; [by left|right]. by apply Hend.
    + destruct (decide (id < y_next y)%nat) as [Hl|Hl].
      * destruct (ok_settled y Hok id Hl) as [?|?]; [by left|right]. by apply (idle_settled _ _ _ Hidle).
      * destruct (Hfresh id) as [? _]; [lia|]. by exfalso; apply Hne.
  - by apply (idle_out (y_next y) _ (y_sess y) _ (y_conn y)); [..|apply Hok].
  - intros t' Hg. cbn in Hg. destruct (ok_mark y Hok t' Hg) as [Hm Hrel]. split; [done|].
    intros r q Hq Hr. cbn. rewrite (id_out _ _ Hidle). destruct (Hback _ _ _ Hq) as [[-> Hx]|[Hn1 H1']]; [|by eapply Hrel].
    unfold held_by in Hheld. by rewrite bool_decide_eq_true_2 in Hheld.
Qed.

(** *** Every step keeps the invariant *)

Lemma held_true t (y : sys) : held_by t y = true ↔ y_gate y = Some t.
Proof. apply bool_decide_eq_true. Qed.
Lemma absent_held t y : sys_ok y → y_threads y !! t = None → held_by t y = false.
Proof.
  intros Hok Ht. apply bool_decide_eq_false. intros Hg. destruct (ok_gate y Hok t Hg) as [x Hx]. congruence.
Qed.
Lemma reader_only y t p : sys_ok y → y_threads y !! t = Some (Reader, p) → ∃ id, t = Req id.
Proof. intros Hok Ht. destruct (ok_threads y Hok t Reader p Ht) as [Hf _]. destruct t; cbn in Hf; try done. by exists id. Qed.
Lemma fresh_request y : sys_ok y → y_threads y !! Req (y_next y) = None.
Proof.
  intros Hok. destruct (y_threads y !! Req (y_next y)) as [x|] eqn:E; [|done]. pose proof (ok_next y Hok _ _ E). lia.
Qed.

(** What a goroutine that is done left behind. *)
Lemma ended y t r a : sys_ok y → y_threads y !! t = Some (r, TRet a) → ends_as t r a (held_by t y) (world_of y).
Proof. intros Hok Ht. destruct (ok_threads y Hok t r _ Ht) as [_ Hs]. by apply Hs. Qed.

(** A goroutine that needs no request's number starts. *)
Lemma start_side y t r p cl' :
  sys_ok y → y_threads y !! t = None → (∀ id, t ≠ Req id) → fits t r →
  (t = Closer → y_reading y = false ∧ ∀ id, y_threads y !! Req id = None) →
  keeps t r false p (fun _ : world => True) →
  sys_ok (rethreaded t (Some (r, quiet p)) (y_conn y) (y_next y) (y_reading y) cl' y).
Proof.
  intros Hok Ht Hid Hfit Hcl Hk.
  assert (r = FollowerRole ∨ r = SideRole) as Hr by (destruct t; naive_solver).
  apply rethread; try apply idle_refl; try done.
  - apply (oo_phase _ _ (ok_out y Hok)).
  - by apply absent_held.
  - by left.
  - intros r' p' [= <- <-]. split; [done|]. unfold runs_safe. replace (eff r) with r by (destruct Hr; by subst).
    eapply thread_bind; [exact (Hk _ I)|]. intros a h w [-> _] w' _. split; [done|]. by destruct t; [edestruct Hid|..].
  - intros p' [= ? _]. naive_solver.
  - intros p' [= ? _]. naive_solver.
  - intros p' [= ? _]. naive_solver.
  - intros id He. by destruct (Hid id).
  - intros Hrd. split; [done|]. intros _ [p' Hp']. congruence.
  - by left.
  - intros id He. by destruct (Hid id).
  - intros id ?. lia.
Qed.

(** The reader is done with a request, and nothing is left to do. *)
Lemma reader_done y id a c' rd' :
  sys_ok y → y_threads y !! Req id = Some (Reader, TRet a) → idle (y_conn y) c' → early c' = early (y_conn y) →
  settled id c' → rd' = y_reading y ∧ is_leaving (y_conn y) = false ∨ rd' = false →
  sys_ok (rethreaded (Req id) None c' (y_next y) rd' (y_closed y) y).
Proof.
  intros Hok Ht Hc He Hset Hrd. pose proof (ended y _ _ a Hok Ht) as [Hh _].
  pose proof (ok_reads y Hok _ _ Ht) as Hry.
  apply rethread; try apply idle_refl; try done.
  - unfold phase_inv. rewrite He, (id_phase _ _ Hc). apply (oo_phase _ _ (ok_out y Hok)).
  - by left.
  - intros Hr. split; [done|]. intros _ _. unfold is_leaving. rewrite (id_view _ _ Hc).
    destruct Hrd as [[_ Hl]| ->]; done.
  - right. by exists (TRet a).
  - intros i [= <-]. by eapply (ok_next y Hok).
  - intros i ?. lia.
  - intros i [= <-] _. done.
Qed.

(** The reader hands a request over to another goroutine. *)
Lemma handed_over y id a r p c' :
  sys_ok y → y_threads y !! Req id = Some (Reader, TRet a) → idle (y_conn y) c' → phase_inv c' →
  early c' = early (y_conn y) ∨ early (y_conn y) = true ∧ early c' = false →
  is_leaving (y_conn y) = false → settles id (eff r) p (y_sess y, c') →
  r = Waiting ∨ r = Aux ∨ r = Launcher ∧ early c' = false ∧ early (y_conn y) = true →
  sys_ok (rethreaded (Req id) (Some (r, quiet p)) c' (y_next y) (y_reading y) (y_closed y) y).
Proof.
  intros Hok Ht Hc Hi He Hl Hs Hr. pose proof (ended y _ _ a Hok Ht) as [Hh _].
  apply rethread; try apply idle_refl; try done.
  - destruct He as [?|[? ?]]; [by left|right]. split_and!; try done. by exists (TRet a).
  - intros r' p' [= <- <-]. split; [destruct Hr as [->|[->|[-> _]]]; done|].
    eapply thread_post; [|exact Hs]. intros b h w [-> Hset]. split; [done|]. destruct Hr as [->|[->|[-> _]]]; done.
  - intros p' [= -> _]. naive_solver.
  - intros p' [= -> _]. destruct Hr as [?|[?|(_ & He' & Hy)]]; [done..|]. split; [done|].
    intros t' p2 Hp2. pose proof (ok_running y Hok _ _ Hp2). congruence.
  - intros p' [= -> _]. naive_solver.
  - intros i [= <-] _. left. by eexists.
  - intros Hrd. split; [done|]. intros _ _. unfold is_leaving. by rewrite (id_view _ _ Hc).
  - by left.
  - intros i [= <-]. by eapply (ok_next y Hok).
  - intros i ?. lia.
Qed.

Lemma step_ok y y' : sys_ok y → fstep y y' → sys_ok y'.
Proof.
  intros Hok Hstep. destruct Hstep as
    [y s Hs|y|y|y m Hr Hno|y Hr Hno|y t r X f k Ht Hrw|y t r X q k x s Ht Hrw Hs|y t r b k Ht Hrw Hb|y t r k Ht Hrw Hg
    |y t r k Ht Hrw|y t r a Ht Hrw Hrr|y t Ht|y t Ht|y t o p Ht Hfl|y id o p Ht He|y t p Ht|y id p Ht Hno Hold
    |y since st Ht Hf|y n ev Ht Hl|y n body Ht Hl|y Hr Hth Hf Hcl].
  - apply (outside y s (y_conn y) (y_reading y)); [done| |apply idle_refl|done|by left]. by apply others_grow.
  - apply (outside y (y_sess y) _ (y_reading y) Hok); [done|apply idle_broken|done|by left].
  - apply (outside y (y_sess y) _ (y_reading y) Hok); [done|apply idle_ended|done|by left].
  - apply (rethread y (Req (y_next y)) (Some (Reader, read_one (y_next y) m)) (y_conn y) (Datatypes.S (y_next y)) (y_reading y) (y_closed y));
      try apply idle_refl; try done.
    + apply (oo_phase _ _ (ok_out y Hok)).
    + apply absent_held; [done|by apply fresh_request].
    + by left.
    + intros r p [= <- <-]. split; [done|]. apply reads_read_one. split_and!.
      * intros Ha. pose proof (oo_answered _ _ (ok_out y Hok) _ Ha). lia.
      * by apply (ok_reading y Hok).
      * apply (oo_phase _ _ (ok_out y Hok)).
    + intros p _. split; [done|]. intros t' p' H'. apply Hno. by exists t', p'.
    + by right.
    + intros _. split; [done|]. intros _ [p Hp]. rewrite fresh_request in Hp; done.
    + by left.
    + lia.
    + intros id [= <-]. lia.
    + intros id ?. split; [f_equal; lia|done].
  - apply (outside y (y_sess y) _ false Hok); [done|apply idle_ended|done|by right].
  - destruct (ok_threads y Hok t r _ Ht) as [_ Hs]. destruct (Hs (world_of y) (reflexivity _)) as [Hst Hk].
    exact (advance y t r _ _ (y_sess y) _ Hok Ht Hst Hk).
  - destruct (ok_threads y Hok t r _ Ht) as [_ Hsafe]. destruct (Hsafe (world_of y) (reflexivity _)) as [_ Hk].
    destruct (Hk x s) as [Hst Hk']; [by exists (cn_client (y_conn y))|].
    exact (advance y t r _ _ s (y_conn y) Hok Ht Hst Hk').
  - destruct (ok_threads y Hok t r _ Ht) as [_ Hsafe].
    exact (advance y t r _ _ (y_sess y) (y_conn y) Hok Ht (step_refl t (eff r) _ _)
             (proj2 (Hsafe (world_of y) (reflexivity _)) Hb)).
  - destruct (ok_threads y Hok t r _ Ht) as [_ [Hh Hsafe]].
    apply (regate y t r (TLock k) k (Some t) (last_seq (y_sess y))); try done; [|by right|].
    + intros t' Hn. unfold held_by. rewrite Hg. rewrite bool_decide_eq_false_2 by congruence. by rewrite bool_decide_eq_false_2.
    + rewrite bool_decide_eq_true_2 by done. by apply Hsafe.
  - destruct (ok_threads y Hok t r _ Ht) as [_ [Hh Hsafe]]. apply held_true in Hh.
    apply (regate y t r (TUnlock k) k None (y_mark y)); try done; [|by left|].
    + intros t' Hn. unfold held_by. rewrite Hh. rewrite bool_decide_eq_false_2 by done. rewrite bool_decide_eq_false_2; congruence.
    + rewrite bool_decide_eq_false_2 by done. by apply Hsafe.
  - pose proof (ended y t r a Hok Ht) as [Hh Hend].
    apply (rethread y t None (y_conn y) (y_next y) (y_reading y) (y_closed y)); try apply idle_refl; try done.
    + apply (oo_phase _ _ (ok_out y Hok)).
    + by left.
    + intros ->. by eapply (ok_closer y Hok).
    + intros Hrd. split; [done|]. intros _ [p' Hp']. congruence.
    + by left.
    + intros id ->. by eapply (ok_next y Hok).
    + intros id ?. lia.
    + intros id -> _. destruct r; done.
  - destruct (reader_only y t _ Hok Ht) as [id ->]. pose proof (ended y _ _ _ Hok Ht) as [_ (Hset & Hc & _)].
    by apply (reader_done y id ReadOn (y_conn y) (y_reading y)); [..|apply idle_refl| | |left].
  - destruct (reader_only y t _ Hok Ht) as [id ->]. pose proof (ended y _ _ _ Hok Ht) as [_ Hset].
    by apply (reader_done y id Leave ((y_conn y) <| cn_ended := true |>) false); [..|apply idle_ended| | |right].
  - destruct (reader_only y t _ Hok Ht) as [id ->]. pose proof (ended y _ _ _ Hok Ht) as [_ [(_ & Hc & Hi) Hp]].
    apply (handed_over y id (HandOver o p) (if o then Waiting else Aux) p (y_conn y)); try apply idle_refl; try done.
    + by left.
    + by destruct o.
    + destruct o; auto.
  - pose proof (ended y _ _ _ Hok Ht) as [_ [(_ & Hc & Hi) Hp]].
    apply (reader_done y id (HandOver o p) ((y_conn y) <| cn_dropped ::= cons id |>) (y_reading y)); try done.
    + constructor; try done; intros i Hin; [apply elem_of_cons; by right|]. right. unfold is_closing. cbn. by rewrite He, orb_true_r.
    + right; left. apply elem_of_cons. by left.
    + by left.
  - destruct (reader_only y t _ Hok Ht) as [id ->]. pose proof (ended y _ _ _ Hok Ht) as [_ [(Ho & Hc & Hi) (Hk & [He Hph] & Hp)]].
    cbn in He, Hph. unfold kind_of, launching in Hk. cbn in Hk. destruct (cn_launch (y_conn y)) as [l|] eqn:El; [|done].
    set (c' := with_launch (fun l => l <| ls_running := true |>) (y_conn y)).
    assert (early c' = false) as He' by (unfold c', with_launch, early, of_launch; cbn; by rewrite El).
    assert (idle (y_conn y) c') as Hidle.
    { constructor; try done; [|by left]. unfold c', with_launch, launching. cbn. by rewrite El. }
    apply (handed_over y id (StartLaunch p) Launcher p c'); try done.
    + intros _. change (cn_phase c') with (cn_phase (y_conn y)). rewrite Hph. done.
    + right. by split.
    + apply Hp. split_and!; [done|done|by left].
    + by right; right.
  - destruct (ok_threads y Hok _ _ _ Ht) as [_ Hsafe]. pose proof (ok_waiting y Hok _ _ Ht) as Hh. rewrite Hh in Hsafe.
    apply (rethread y (Req id) (Some (Worker, p)) (y_conn y) (y_next y) (y_reading y) (y_closed y)); try apply idle_refl; try done.
    + apply (oo_phase _ _ (ok_out y Hok)).
    + by left.
    + intros r' p' [= <- <-]. split; [done|exact Hsafe].
    + intros p' _ t' p2 Hp2. apply Hno. by exists t', p2.
    + intros i [= <-] _. left. by eexists.
    + intros Hrd. split; [done|]. intros _ [p' Hp']. congruence.
    + by left.
    + intros i [= <-]. by eapply (ok_next y Hok).
    + intros i ?. lia.
  - apply (start_side y Follower FollowerRole (follow_batch since st) (y_closed y)); try done. apply keeps_follow_batch.
  - apply (start_side y (Side n) SideRole _ (y_closed y)); try done. apply keeps_bind; [done| |keep].
    unfold relayLine. apply keeps_bind; [done|apply keeps_relayed; [done|keep]|keep].
  - apply (start_side y (Side n) SideRole _ (y_closed y)); try done. apply keeps_bind; [done| |keep].
    unfold sendTerminal. apply keeps_gated; [done..|]. apply keeps_check; [done|keep|].
    apply (keeps_weaken _ _ _ _ calm); [by intros w [_ ?]|keep].
  - apply (start_side y Closer SideRole closing true); try done; [by rewrite Hth|intros _; split; [done|]; by rewrite Hth|].
    unfold closing, forgetExited. keep; [by apply keeps_call|apply keeps_stop; by intros []..].
Qed.

(** A connection just opened. *)
Definition start_ok (c : connection) : Prop :=
  cn_out c = [] ∧ cn_dropped c = [] ∧ cn_closed c = false ∧ early c = true ∧ is_leaving c = false.
Lemma initial_ok s c : start_ok c → sys_ok (initial s c).
Proof.
  intros (Ho & Hd & Hcl & He & Hl). constructor; try done.
  - intros id H. cbn in H. lia.
  - constructor; unfold answered; cbn; rewrite ?Ho.
    + intros id H. by apply elem_of_nil in H.
    + apply NoDup_nil_2.
    + intros H. congruence.
    + intros [|] id o2 E; done.
    + intros [id H]. by apply elem_of_nil in H.
    + intros id. rewrite Hd. by intros H%elem_of_nil.
    + by rewrite Hcl.
    + intros k ev H. by apply elem_of_nil in H.
Qed.
Lemma facade_ok s c y : start_ok c → reachable s c y → sys_ok y.
Proof.
  intros Hc Hr. assert (sys_ok (initial s c)) as H by by apply initial_ok.
  induction Hr as [y|y1 y2 y3 Hstep _ IH]; [done|]. by apply IH, (step_ok y1).
Qed.
Lemma attached_start cl sid : start_ok (attached_conn cl sid).
Proof. done. Qed.
Lemma launch_start cl d : start_ok (launch_conn cl d).
Proof. done. Qed.

(** ** What a connection promises *)

(** What became of a request: a goroutine is at it; it was answered; it was
    left because the connection is closing, or the editor can't be written
    to any more. *)
Definition accounted (y : sys) (id : nat) : Prop :=
  is_Some (y_threads y !! Req id) ∨ id ∈ answered_ids (cn_out (y_conn y)) ∨
  (id ∈ cn_dropped (y_conn y) ∧ is_closing (y_conn y) = true) ∨ (cn_closed (y_conn y) = true ∧ cn_broken (y_conn y) = true).

(** C10: every request the editor sends is answered at most once, and at any
    time it is answered, being handled, or left because the connection is
    closing: none is forgotten, whatever the goroutines' order. *)
Theorem requests_answered s c (y : sys) :
  start_ok c → reachable s c y →
  NoDup (answered_ids (cn_out (y_conn y))) ∧ (∀ id, (id < y_next y)%nat → accounted y id).
Proof.
  intros Hc Hr. pose proof (facade_ok s c y Hc Hr) as Hok. pose proof (ok_out y Hok) as Ho.
  split; [apply (oo_once _ _ Ho)|]. intros id Hid. unfold accounted.
  destruct (ok_settled y Hok id Hid) as [Hs|[Ha|[Hd|Hcl]]]; [by left|right; by left|right; right; left|right; right; right].
  - split; [done|]. by apply (oo_dropped _ _ Ho id).
  - split; [done|]. by apply (oo_closed _ _ Ho).
Qed.

(** C8: a call that changes the program's run, the breakpoints or the lease
    for a request is only ever made under the gate, which one goroutine at a
    time holds; one that runs the program only once the handshake is over.
    The exception mode is only set by the worker, of which there is one, and
    the client only leaves once the reader stopped and no request is left. *)
Theorem changes_in_section s c (y : sys) t r X (q : sessionCall X) k :
  start_ok c → reachable s c y → y_threads y !! t = Some (r, TCall q k) → r ≠ Waiting →
  (changes r q = true → y_gate y = Some t) ∧
  (runs_program q = true → cn_phase (y_conn y) = phaseConfigured) ∧
  (sets_exceptions q = true → r = Worker ∧ ∀ t' p, y_threads y !! t' = Some (Worker, p) → t' = t) ∧
  (leaves q = true → t = Closer ∧ y_reading y = false ∧ ∀ id, y_threads y !! Req id = None).
Proof.
  intros Hc Hr Ht Hw. pose proof (facade_ok s c y Hc Hr) as Hok.
  destruct (ok_threads y Hok t r _ Ht) as [_ Hs]. destruct (Hs (world_of y) (reflexivity _)) as [(Hh & Hp & Hx & Hl) _].
  assert (eff r = r) as He by by destruct r. rewrite He in *. split_and!.
  - intros Hq. by apply held_true, Hh.
  - exact Hp.
  - intros Hq. specialize (Hx Hq) as ->. split; [done|]. intros t' p Hp'. by eapply (ok_worker y Hok).
  - intros Hq. specialize (Hl Hq) as ->. split; [done|]. by eapply (ok_closer y Hok).
Qed.

(** What became of a request whose handling is over. *)
Definition handled (y : sys) (id : nat) : Prop :=
  id ∈ answered_ids (cn_out (y_conn y)) ∨
  (id ∈ cn_dropped (y_conn y) ∧ is_closing (y_conn y) = true) ∨ (cn_closed (y_conn y) = true ∧ cn_broken (y_conn y) = true).
Lemma settled_handled y id : sys_ok y → settled id (y_conn y) → handled y id.
Proof.
  intros Hok [Ha|[Hd|Hcl]]; [by left|right; left|right; right]; split; try done; [by apply (oo_dropped _ _ (ok_out y Hok) id)|].
  by apply (oo_closed _ _ (ok_out y Hok)).
Qed.

(** C9: the response to a request comes before the events it causes. While a
    goroutine other than the follower holds the gate, the editor has seen
    nothing of the log past where the section began; and a request's
    goroutine only gives the gate back once the request is answered (or the
    connection closes), but for a launch's, which also does once it bound
    its session. *)
Theorem gate_orders s c (y : sys) t :
  start_ok c → reachable s c y → y_gate y = Some t → t ≠ Follower →
  relayed_to (y_mark y) (cn_out (y_conn y)) ∧ y_mark y ≤ last_seq (y_sess y) ∧
  ∀ id r k, t = Req id → y_threads y !! t = Some (r, TUnlock k) → handled y id ∨ (r = Launcher ∧ binding (y_conn y)).
Proof.
  intros Hc Hr Hg Ht. pose proof (facade_ok s c y Hc Hr) as Hok. destruct (ok_mark y Hok t Hg) as [Hm Hrel].
  destruct (ok_gate y Hok t Hg) as [[r p] Hp]. destruct (ok_threads y Hok t r p Hp) as [Hf Hs]. split_and!; [|done|].
  - apply (Hrel r p Hp). destruct t; cbn in Hf; naive_solver.
  - intros id r' k -> Hk. rewrite Hk in Hp. injection Hp as -> <-. destruct Hs as [_ Hs].
    destruct (Hs (world_of y) (reflexivity _)) as [[Hset|[He Hb]] _]; [left; by apply settled_handled|right].
    split; [by apply eff_role in He|done].
Qed.

(** C12: once the response to disconnect is written, no event is: not one of
    the log's, nor of a launch's terminal or build. *)
Theorem silent_after_disconnect s c (y : sys) :
  start_ok c → reachable s c y → silent_after (cn_out (y_conn y)).
Proof. intros Hc Hr. apply (oo_silent _ _ (ok_out y (facade_ok s c y Hc Hr))). Qed.
End spec.

(** ** An editor that attaches, continues and leaves *)

Definition editor_left : list choice := editor_session ++ editor_leaves.
Lemma sample_started : start_ok sample_start.
Proof. apply attached_start. Qed.

Lemma requests_answered_witness :
  let y := sample_state editor_left in
  answered_ids (cn_out (y_conn y)) = [0; 1; 2; 3; 4]%nat ∧ NoDup (answered_ids (cn_out (y_conn y))) ∧ accounted y 3.
Proof.
  intros y. destruct (requests_answered 0 sample_start y sample_started (sample_reachable editor_left)) as [Hn Ha].
  split_and!; [vm_compute; reflexivity|exact Hn|]. apply Ha. vm_compute. lia.
Defined.

Lemma changes_in_section_witness :
  let y := sample_state editor_continues in y_gate y = Some (Req 3) ∧ cn_phase (y_conn y) = phaseConfigured.
Proof.
  intros y. assert (∃ k, y_threads y !! Req 3 = Some (Worker, TCall (CExec ExecContinue 1) k)) as [k Hk].
  { eexists. vm_compute. reflexivity. }
  destruct (changes_in_section 0 sample_start y (Req 3) Worker _ _ k sample_started (sample_reachable _) Hk) as (Hg & Hp & _); [done|].
  split; [by apply Hg|by apply Hp].
Defined.

(** The program goes on, which the editor isn't told yet; its request is
    answered before the gate is given back. *)
Lemma gate_orders_witness :
  let y := sample_state (editor_continues ++ [Step (Req 3)]) in
  let y' := sample_state (editor_continues ++ [Step (Req 3); Step (Req 3)]) in
  y_gate y = Some (Req 3) ∧ last_seq (y_sess y) = 1 ∧ relayed_to 0 (cn_out (y_conn y)) ∧
  handled y' 3 ∧ relayed_to 0 (cn_out (y_conn y')).
Proof.
  intros y y'. assert (y_gate y = Some (Req 3)) as Hg by (vm_compute; reflexivity).
  assert (y_gate y' = Some (Req 3)) as Hg' by (vm_compute; reflexivity).
  assert (∃ k, y_threads y' !! Req 3 = Some (Worker, TUnlock k)) as [k Hk] by (eexists; vm_compute; reflexivity).
  destruct (gate_orders 0 sample_start y (Req 3) sample_started (sample_reachable _) Hg) as (Hr & _ & _); [done|].
  destruct (gate_orders 0 sample_start y' (Req 3) sample_started (sample_reachable _) Hg') as (Hr' & _ & Hs); [done|].
  split_and!; [exact Hg|vm_compute; reflexivity|exact Hr| |exact Hr'].
  destruct (Hs 3%nat Worker k eq_refl Hk) as [H|[H _]]; [exact H|done].
Defined.

Lemma silent_after_disconnect_witness :
  let y := sample_state editor_left in disconnected (cn_out (y_conn y)) ∧ silent_after (cn_out (y_conn y)).
Proof.
  intros y. split; [|apply (silent_after_disconnect 0 sample_start y sample_started (sample_reachable _))].
  exists 4%nat. apply list_elem_of_In. vm_compute. repeat (first [left; reflexivity | right]).
Defined.
