(* ===== verification/FacadeProgress.v ===== *)
(** * A connection never deadlocks

    Whatever its goroutines are in the middle of, a connection can run until
    every request it read is settled and no goroutine is left: a section
    under the gate never blocks, the queue's worker and the reader find
    their turn, and what waits for a launch goes on once the connection's
    context ended. *)

From S2P Require Import Prelude GoStrings Api EventLog Prog Message Session Lease Exec Forward EditorEvents Mirrors Threads.
From S2P Require Import Manager Manifest Terminal LaunchArgs Facade Handlers LaunchConn FacadeSystem FacadeRun FacadeSafe.
From S2P Require Import HandlersSafe ReaderSafe FacadeSpec.
From Stdlib Require Import Bool.

Open Scope Z_scope.

(** The session answers every call. *)
Definition answers_all (S : Type) `{!Serves S} : Prop :=
  ∀ c X (q : sessionCall X) s, ∃ x s', serves c X q s x s'.
(** The connection joined a session, or its context ended. *)
Definition unblocked (c : connection) : Prop := cn_ended c = true ∨ launching c = false.

Section progress.
Context {P : PathFns} {S : Type} `{!Serves S} {HL : ServesLaws S}.
Abbreviation sys := (sys (S := S)).
Context (Hall : answers_all S).

(** [reaches y y']: and [y'] is of the same connection, which has read the
    same requests. *)
Record reaches (y y' : sys) : Prop := {
  re_steps : rtc fstep y y';
  re_ok : sys_ok y';
  re_free : unblocked (y_conn y');
  re_next : y_next y' = y_next y }.

Lemma reaches_refl (y : sys) : sys_ok y → unblocked (y_conn y) → reaches y y.
Proof. by constructor. Qed.
Lemma reaches_trans (y1 y2 y3 : sys) : reaches y1 y2 → reaches y2 y3 → reaches y1 y3.
Proof.
  intros H1 H2. constructor; try apply H2.
  - etrans; [apply H1|apply H2].
  - rewrite (re_next _ _ H2). apply H1.
Qed.
Lemma reaches_step (y y' : sys) :
  sys_ok y → fstep y y' → unblocked (y_conn y') → y_next y' = y_next y → reaches y y'.
Proof. intros Hok Hs Hu Hn. constructor; [by apply rtc_once|by eapply step_ok|done|done]. Qed.

(** A goroutine's own step leaves what it may block on. *)
Lemma step_unblocked t r held (w w' : S * connection) : step_of t r held w w' → unblocked w.2 → unblocked w'.2.
Proof. intros H Hu. unfold unblocked. by rewrite (so_ended _ _ _ _ _ H), (so_launch _ _ _ _ _ H). Qed.

(** *** A goroutine runs to its end *)

Definition finished (y : sys) (t : tid) (r : role) (y' : sys) : Prop :=
  ∃ a, reaches y y' ∧ y_gate y' = None ∧ y_threads y' = <[t := (r, TRet a)]> (y_threads y).
Definition can_finish (t : tid) (r : role) (p : cprog reading) : Prop :=
  ∀ y, sys_ok y → unblocked (y_conn y) → y_threads y !! t = Some (r, p) → y_gate y = None ∨ y_gate y = Some t →
    ∃ y', finished y t r y'.
Lemma goroutine_step (y y1 : sys) t r q :
  sys_ok y → fstep y y1 → y_threads y1 = <[t := (r, q)]> (y_threads y) → unblocked (y_conn y1) →
  y_next y1 = y_next y → y_gate y1 = None ∨ y_gate y1 = Some t → can_finish t r q → ∃ y', finished y t r y'.
Proof.
  intros Hok Hs Ht Hu Hn Hg Hq. destruct (Hq y1) as (y' & a & H & Hg' & Hth).
  - by eapply step_ok.
  - done.
  - rewrite Ht. apply lookup_insert_eq.
  - done.
  - exists y', a. split_and!; [|done|by rewrite Hth, Ht, insert_insert_eq].
    eapply reaches_trans; [by apply reaches_step|done].
Qed.

Lemma not_held t (y : sys) : held_by t y = false → y_gate y = None ∨ y_gate y = Some t → y_gate y = None.
Proof. intros Hh [?|Hg]; [done|]. apply held_true in Hg. congruence. Qed.

Lemma finish t r (p : cprog reading) : r ≠ Waiting → can_finish t r p.
Proof.
  intros Hr. induction p as [a|X f k IH|X q k IH|b k IH|k IH|k IH]; intros y Hok Hu Ht Hg;
    destruct (ok_threads y Hok t r _ Ht) as [_ Hs].
  - exists y, a. split_and!; [by apply reaches_refl| |by rewrite insert_id].
    destruct (ended y t r a Hok Ht) as [Hh _]. by eapply not_held.
  - destruct (Hs (world_of y) (reflexivity _)) as [Hst _].
    eapply goroutine_step; [done|by eapply st_local|done|by apply (step_unblocked _ _ _ _ _ Hst)|done|done|apply IH].
  - destruct (Hall (cn_client (y_conn y)) X q (y_sess y)) as (x & s & Hx).
    eapply goroutine_step; [done|by eapply st_call|done|done|done|done|apply IH].
  - destruct (Hs (world_of y) (reflexivity _)) as [(_ & Hl & Hb) _]. cbn in Hl, Hb.
    eapply goroutine_step; [done|eapply st_wait; [done|done|]|done|done|done|done|apply IH].
    apply Hb. destruct Hu as [?|Hf]; [done|congruence].
  - destruct Hs as [Hh _]. pose proof (not_held _ _ Hh Hg).
    eapply goroutine_step; [done|by eapply st_lock|done|done|done|by right|apply IH].
  - eapply goroutine_step; [done|by eapply st_unlock|done|done|done|by left|apply IH].
Qed.

(** So the gate is given back. *)
Lemma gate_released (y : sys) : sys_ok y → unblocked (y_conn y) → ∃ y', reaches y y' ∧ y_gate y' = None.
Proof.
  intros Hok Hu. destruct (y_gate y) as [t|] eqn:Hg; [|exists y; split; [by apply reaches_refl|done]].
  destruct (ok_gate y Hok t Hg) as [[r p] Ht]. destruct (finish t r p) with (y := y) as (y' & a & H & Hg' & _); try done.
  - intros ->. pose proof (ok_waiting y Hok t p Ht) as Hh. apply held_true in Hg. congruence.
  - by right.
  - by exists y'.
Qed.

(** *** Every goroutine ends *)

(** How many turns a goroutine of that role still needs. *)
Definition turns (r : role) : nat := match r with Reader => 3 | Waiting => 2 | _ => 1 end.
Definition add_turns (t : tid) (x : thread) (n : nat) : nat := (turns x.1 + n)%nat.
Definition work_left (m : gmap tid thread) : nat := map_fold add_turns 0%nat m.
Lemma work_insert t x (m : gmap tid thread) : m !! t = None → work_left (<[t := x]> m) = (turns x.1 + work_left m)%nat.
Proof. intros H. unfold work_left. rewrite (map_fold_insert_L add_turns); [done| |done]. unfold add_turns. intros. lia. Qed.
Lemma work_delete t x (m : gmap tid thread) : m !! t = Some x → work_left m = (turns x.1 + work_left (delete t m))%nat.
Proof.
  intros H. rewrite <- (insert_delete_id m t x H) at 1. apply work_insert, lookup_delete_eq.
Qed.
Lemma work_put t r p r' p' (m : gmap tid thread) :
  m !! t = Some (r, p) → (work_left (<[t := (r', p')]> m) + turns r = turns r' + work_left m)%nat.
Proof.
  intros H. rewrite (work_delete t _ _ H), <- insert_delete_eq, work_insert by apply lookup_delete_eq. cbn. lia.
Qed.
Lemma turns_pos r : (0 < turns r)%nat.
Proof. destruct r; cbn; lia. Qed.

(** A step that leaves less to do, the gate free. *)
Definition closer (y y' : sys) : Prop :=
  reaches y y' ∧ y_gate y' = None ∧ (work_left (y_threads y') < work_left (y_threads y))%nat.

Lemma closer_end (y y1 y' : sys) t r p a :
  y_threads y !! t = Some (r, p) → reaches y y1 → y_gate y1 = None →
  y_threads y1 = <[t := (r, TRet a)]> (y_threads y) → fstep y1 y' → y_gate y' = y_gate y1 → y_next y' = y_next y1 →
  unblocked (y_conn y') → (work_left (y_threads y') < work_left (y_threads y1))%nat → closer y y'.
Proof.
  intros Ht H1 Hg1 Hth1 Hs Hg Hn Hu Hw. split_and!.
  - eapply reaches_trans; [exact H1|]. apply reaches_step; [apply H1|done|done|done].
  - congruence.
  - rewrite Hth1 in Hw. pose proof (work_put t r p r (TRet a) _ Ht). lia.
Qed.

Lemma closer_other (y : sys) t r p :
  sys_ok y → unblocked (y_conn y) → y_gate y = None → y_threads y !! t = Some (r, p) → r ≠ Waiting → r ≠ Reader →
  ∃ y', closer y y'.
Proof.
  intros Hok Hu Hg Ht Hw Hr. destruct (finish t r p Hw y Hok Hu Ht) as (y1 & a & H1 & Hg1 & Hth1); [by left|].
  assert (y_threads y1 !! t = Some (r, TRet a)) as Ht1 by (rewrite Hth1; apply lookup_insert_eq).
  exists (ends t y1). eapply closer_end; [done..|by eapply st_end|done|done|apply H1|].
  cbn. rewrite (work_delete t _ (y_threads y1) Ht1). pose proof (turns_pos r). cbn. lia.
Qed.
Lemma in_flight_none (y : sys) : (∀ t r p, y_threads y !! t = Some (r, p) → r = Reader) → in_flight y = 0%nat.
Proof.
  intros H. unfold in_flight. assert (List.filter (fun x : tid * thread => in_slot x.2.1) (map_to_list (y_threads y)) = []) as ->; [|done].
  assert (Forall (fun x : tid * thread => x.2.1 = Reader) (map_to_list (y_threads y))) as Hf.
  { apply Forall_forall. intros [t [r p]] Hin. apply elem_of_map_to_list in Hin. by eapply H. }
  induction Hf as [|[t [r p]] l Hx _ IH]; [done|]. cbn in *. by rewrite Hx.
Qed.
Lemma closer_reader (y : sys) t p :
  sys_ok y → unblocked (y_conn y) → y_gate y = None → y_threads y !! t = Some (Reader, p) →
  (∀ t' r' p', y_threads y !! t' = Some (r', p') → r' = Reader) → ∃ y', closer y y'.
Proof.
  intros Hok Hu Hg Ht Hall'. destruct (finish t Reader p ltac:(done) y Hok Hu Ht) as (y1 & a & H1 & Hg1 & Hth1); [by left|].
  assert (y_threads y1 !! t = Some (Reader, TRet a)) as Ht1 by (rewrite Hth1; apply lookup_insert_eq).
  pose proof (work_delete t _ (y_threads y1) Ht1) as Hw. cbn in Hw.
  assert (in_flight y1 = 0%nat) as Hfl.
  { apply in_flight_none. intros t' r' p'. rewrite Hth1. destruct (decide (t' = t)) as [->|Hn].
    - rewrite lookup_insert_eq. naive_solver.
    - rewrite lookup_insert_ne by done. apply Hall'. }
  destruct a as [| |ordered q|q].
  - exists (ends t y1). eapply closer_end; [done..|by apply st_read_on|done|done|apply H1|cbn; lia].
  - eexists. eapply closer_end; [done..|by apply st_leave|done|done|by left|cbn; lia].
  - eexists. eapply closer_end; [done..|apply st_hand_over; [done|rewrite Hfl; unfold maxInFlight; lia]|done|done|apply H1|].
    cbn. pose proof (work_put t Reader (TRet (HandOver ordered q)) (if ordered then Waiting else Aux) (quiet q) _ Ht1).
    destruct ordered; cbn in *; lia.
  - eexists. eapply closer_end; [done..|by apply st_launch|done|done| |].
    + destruct (re_free _ _ H1) as [He|Hl]; [by left|right]. unfold with_launch, launching in *. cbn.
      by destruct (cn_launch (y_conn y1)).
    + cbn. pose proof (work_put t Reader (TRet (StartLaunch q)) Launcher (quiet q) _ Ht1). cbn in *. lia.
Qed.

Definition waits_at (y : sys) (id : nat) : bool := match y_threads y !! Req id with Some (Waiting, _) => true | _ => false end.
Lemma waits_at_spec (y : sys) id : waits_at y id = true ↔ ∃ p, y_threads y !! Req id = Some (Waiting, p).
Proof. unfold waits_at. destruct (y_threads y !! Req id) as [[[] p]|]; naive_solver. Qed.
Lemma oldest_waiting (y : sys) id :
  waits_at y id = true → ∃ id', waits_at y id' = true ∧ ∀ i, waits_at y i = true → (id' ≤ i)%nat.
Proof.
  induction id as [id IH] using lt_wf_ind. intros H. destruct (existsb (waits_at y) (seq 0 id)) eqn:E.
  - apply existsb_exists in E as (i & Hi & Hwi). apply in_seq in Hi. apply (IH i); [lia|done].
  - exists id. split; [done|]. intros i Hi. destruct (decide (id ≤ i)%nat); [done|]. apply not_true_iff_false in E.
    exfalso. apply E, existsb_exists. exists i. split; [apply in_seq; lia|done].
Qed.
Lemma closer_waiting (y : sys) t p :
  sys_ok y → unblocked (y_conn y) → y_gate y = None → y_threads y !! t = Some (Waiting, p) →
  ¬ has_role Worker y → ∃ y', closer y y'.
Proof.
  intros Hok Hu Hg Ht Hno. assert (∃ id, t = Req id) as [i ->].
  { destruct (ok_threads y Hok t Waiting p Ht) as [Hf _]. destruct t; cbn in Hf; try done. by exists id. }
  destruct (oldest_waiting y i) as (id & Hid & Hold); [apply waits_at_spec; by exists p|].
  apply waits_at_spec in Hid as [q Hq]. exists (put (Req id) Worker q y). split_and!; [|done|].
  - apply reaches_step; [done| |done|done]. apply st_work; [done|done|].
    intros id' p' H'. apply Hold, waits_at_spec. by exists p'.
  - pose proof (work_put _ _ _ Worker q _ Hq). cbn in *. lia.
Qed.

Definition has_other (x : tid * thread) : bool := match x.2.1 with Reader | Waiting => false | _ => true end.
Lemma some_thread (f : tid * thread → bool) (y : sys) :
  (∃ t r p, y_threads y !! t = Some (r, p) ∧ f (t, (r, p)) = true) ∨
  (∀ t r p, y_threads y !! t = Some (r, p) → f (t, (r, p)) = false).
Proof.
  destruct (existsb f (map_to_list (y_threads y))) eqn:E; [left|right].
  - apply existsb_exists in E as ([t [r p]] & Hin & Hf). exists t, r, p. split; [|done].
    by apply elem_of_map_to_list, list_elem_of_In.
  - intros t r p Ht. apply not_true_iff_false. intros Hf. apply not_true_iff_false in E. apply E, existsb_exists.
    exists (t, (r, p)). split; [|done]. by apply list_elem_of_In, elem_of_map_to_list.
Qed.
Lemma get_closer (y : sys) :
  sys_ok y → unblocked (y_conn y) → y_gate y = None → y_threads y ≠ ∅ → ∃ y', closer y y'.
Proof.
  intros Hok Hu Hg Hne. destruct (some_thread has_other y) as [(t & r & p & Ht & Hf)|Hno].
  { eapply closer_other; try done; by intros ->. }
  destruct (some_thread (fun x => bool_decide (x.2.1 = Waiting)) y) as [(t & r & p & Ht & Hf)|Hnw].
  { apply bool_decide_eq_true in Hf. cbn in Hf. subst. eapply closer_waiting; try done. intros (t' & p' & H').
    by apply Hno in H'. }
  apply map_choose in Hne as (t & [r p] & Ht). assert (∀ t' r' p', y_threads y !! t' = Some (r', p') → r' = Reader) as Hr.
  { intros t' r' p' H'. pose proof (Hno _ _ _ H'). pose proof (Hnw _ _ _ H') as Hw. cbn in *. by destruct r'. }
  pose proof (Hr _ _ _ Ht). subst. by eapply closer_reader.
Qed.
Lemma all_end (y : sys) :
  sys_ok y → unblocked (y_conn y) → y_gate y = None → ∃ y', reaches y y' ∧ y_gate y' = None ∧ y_threads y' = ∅.
Proof.
  remember (work_left (y_threads y)) as n eqn:Hn. revert y Hn. induction n as [n IH] using lt_wf_ind. intros y -> Hok Hu Hg.
  destruct (decide (y_threads y = ∅)) as [He|Hne]; [exists y; split; [by apply reaches_refl|done]|].
  destruct (get_closer y Hok Hu Hg Hne) as (y1 & H1 & Hg1 & Hlt).
  destruct (IH _ Hlt y1 eq_refl) as (y' & H & Hg' & Ht); [apply H1|apply H1|done|].
  exists y'. split; [by eapply reaches_trans|done].
Qed.

(** C11: no deadlock: if the session answers its calls, an attached
    connection, or one whose context ended, can from any state run on until
    every request it read is answered, or was left because it is closing;
    the gate is free then and no goroutine left. *)
Theorem requests_settle s c (y : sys) :
  start_ok c → reachable s c y → unblocked (y_conn y) →
  ∃ y', rtc fstep y y' ∧ y_gate y' = None ∧ y_threads y' = ∅ ∧ y_next y' = y_next y ∧
        ∀ id, (id < y_next y)%nat → settled id (y_conn y').
Proof.
  intros Hc Hr Hu. pose proof (facade_ok s c y Hc Hr) as Hok.
  destruct (gate_released y Hok Hu) as (y1 & H1 & Hg1).
  destruct (all_end y1 (re_ok _ _ H1) (re_free _ _ H1) Hg1) as (y' & H2 & Hg2 & Ht).
  pose proof (reaches_trans _ _ _ H1 H2) as H. exists y'. split_and!; [apply H|done|done|apply H|].
  intros id Hid. rewrite <- (re_next _ _ H) in Hid.
  destruct (ok_settled y' (re_ok _ _ H) id Hid) as [[x Hx]|Hs]; [|done]. by rewrite Ht in Hx.
Qed.
End progress.

Lemma sample_answers_all : answers_all Z.
Proof. intros c X q s. exists (sample_answer c q s).1, (sample_answer c q s).2. apply sample_right. Qed.
(** From the middle of continuing the program. *)
Lemma requests_settle_witness :
  let y := sample_state editor_continues in
  y_gate y = Some (Req 3) ∧ ∃ y' : sys (S := Z), rtc (fstep (P := unixPaths)) y y' ∧ y_threads y' = ∅ ∧ settled 3 (y_conn y').
Proof.
  intros y. split; [vm_compute; reflexivity|].
  destruct (requests_settle (P := unixPaths) sample_answers_all 0 sample_start y sample_started (sample_reachable _))
    as (y' & H & _ & Ht & _ & Hs); [right; vm_compute; reflexivity|].
  exists y'. split_and!; [exact H|exact Ht|]. apply Hs. vm_compute. lia.
Defined.
