(* ===== verification/Docker.v ===== *)
(** * What may reach a docker invocation (internal/container: validate.go, fast.go)

    Each name's grammar, then the invocations of an engine on one container
    and what it reads of the answers. The names a client, a container or a
    label gives: references, services, docker hosts, compose paths, assemblies,
    directories. For a Unix host, where a path of the container's and one of
    the host's are written alike. *)

From S2P Require Import Prelude GoStrings GoPath Api PathMap Threads.
From Stdlib Require Import Ascii Bool.
Open Scope Z_scope.

Definition maxRefLen : Z := 128.
Definition maxFullIDLen : Z := 64.
Definition minShortIDLen : Z := 12.
Definition maxContextLen : Z := 128.
Definition maxHostLen : Z := 1024.
Definition maxServiceLen : Z := 63.
Definition maxVersionLen : Z := 64.
Definition maxComposePath : Z := 4096.
Definition maxLabel : Z := 4096.

(** ** Bytes and grammars *)

Definition byte_in (lo hi : Z) (c : ascii) : bool := (lo <=? byte_of c) && (byte_of c <=? hi).
Definition isHex (c : ascii) : bool := byte_in 48 57 c || byte_in 97 102 c.
Definition isAlnum (c : ascii) : bool := byte_in 48 57 c || byte_in 97 122 c || byte_in 65 90 c.
Definition isNameChar (c : ascii) : bool := isAlnum c || Ascii.eqb c "_" || Ascii.eqb c "." || Ascii.eqb c "-".
Definition isLowerDigit (c : ascii) : bool := byte_in 97 122 c || byte_in 48 57 c.
Definition grammar (s : string) (first rest : ascii → bool) : bool :=
  match s with EmptyString => false | String c s => first c && all_bytes rest s end.

Definition isHexID (s : string) : bool := (minShortIDLen <=? slen s) && (slen s <=? maxFullIDLen) && all_bytes isHex s.
Definition isFullID (s : string) : bool := (slen s =? maxFullIDLen) && isHexID s.
Definition validImageID (s : string) : bool :=
  match cut_prefix "sha256:" s with Some hex => isFullID hex | None => isHexID s end.

(** ** Text shown in a message *)

(** [strings.ToValidUTF8]: a run of bytes that are no UTF-8 becomes one [by_]. *)
Definition broken_seg (x : Z * string) : bool := (x.1 =? rune_error) && (String.length x.2 =? 1)%nat.
Fixpoint to_valid_go (by_ : string) (broken : bool) (l : list (Z * string)) : string :=
  match l with
  | [] => ""
  | x :: l =>
    if broken_seg x then (if broken then "" else by_) +:+ to_valid_go by_ true l
    else x.2 +:+ to_valid_go by_ false l
  end.
Definition to_valid (s by_ : string) : string := to_valid_go by_ false (segs s).
(** [strings.Map] of a rune to a space. *)
Definition blank (p : Z → bool) (s : string) : string :=
  String.concat "" (map (fun x : Z * string => if p x.1 then " "%string else x.2) (segs s)).
(** [show] *)
Definition show (s : string) (n : nat) : string :=
  let s := if Z.of_nat n <? slen s then stake n s +:+ "..." else s in
  dquote +:+ blank (fun r => (r <? 32) || (r =? 127)) (to_valid s "?") +:+ dquote.

Definition refuse (msg : string) : Error := NewError CodeInvalidRequest msg.
(** [invalid]; the hint is left out. *)
Definition invalid_name (what value : string) : Error := refuse ("invalid " +:+ what +:+ " " +:+ show value 40).
Definition ensure (ok : bool) (e : Error) : result unit := if ok then Ok () else Err e.

(** ** The names *)

Definition valid_ref (ref : string) : bool :=
  isHexID ref || ((slen ref <=? maxRefLen) && grammar ref isAlnum isNameChar).
Definition ValidateRef (ref : string) : result unit := ensure (valid_ref ref) (invalid_name "container" ref).

Definition valid_context (name : string) : bool :=
  (slen name <=? maxContextLen) && grammar name isAlnum (fun c => isNameChar c || Ascii.eqb c "+").
Definition ValidateContext (name : string) : result unit := ensure (valid_context name) (invalid_name "docker context" name).

(** [strings.Contains] *)
Definition contains (s p : string) : bool := match index_str p s with Some _ => true | None => false end.
Definition valid_host (host : string) : bool :=
  (slen host <=? maxHostLen) && contains host "://" && negb (has_prefix "-" host)
  && all_bytes (fun c => (32 <? byte_of c) && negb (byte_of c =? 127)) host.
Definition ValidateHost (host : string) : result unit := ensure (valid_host host) (invalid_name "docker host" host).

Definition valid_service (name : string) : bool := (slen name <=? maxServiceLen) && grammar name isAlnum isNameChar.
Definition ValidateService (name : string) : result unit := ensure (valid_service name) (invalid_name "service" name).
Definition validVersion (v : string) : bool := (slen v <=? maxVersionLen) && grammar v isAlnum isNameChar.

(** What [ValidateSpec] reads of an [api.ContainerSpec]. *)
Record dockerSpec := mkDockerSpec {
  ds_Host : string; ds_Context : string; ds_Ref : string; ds_Service : string; ds_Project : string; ds_PID : Z }.
(** A check made only of what is given. *)
Definition given (s : string) (check : string → result unit) : result unit := if s =?s "" then Ok () else check s.
Definition ValidateSpec (k : dockerSpec) : result unit :=
  try _ := ValidateRef (ds_Ref k) in
  try _ := given (ds_Host k) ValidateHost in
  try _ := given (ds_Context k) ValidateContext in
  try _ := given (ds_Service k) ValidateService in
  try _ := given (ds_Project k) CheckGroup in
  ensure (0 <=? ds_PID k) (refuse "invalid process id").
Definition ValidateLaunchSpec (k : dockerSpec) : result unit :=
  ValidateSpec (mkDockerSpec (ds_Host k) (ds_Context k) (ds_Ref k) (ds_Service k) (ds_Project k) 0).

(** ** Paths and text *)

(** [hasControl] *)
Definition hasControl (s : string) : bool := negb (valid_utf8 s) || existsb is_control (runes s).
Definition plainAbsPath (p : string) : bool := negb (p =?s "") && (slen p <=? maxLabel) && negb (hasControl p) && is_abs p.
(** [engineAbsPath], of a Unix host's. *)
Definition engineAbsPath (p : string) : bool := plainAbsPath p.

Definition checkComposePath (flag v : string) : result unit :=
  if (v =?s "") || (maxComposePath <? slen v) || existsb is_control (runes v) || negb (valid_utf8 v)
  then Err (refuse ("invalid " +:+ flag +:+ " value " +:+ show v 40)) else Ok ().

Definition maxDLLName : Z := 255.
Definition maxAppDirLen : Z := 255.
Definition maxAppDirSegments : Z := 4.
Definition maxProjectRel : Z := 1024.

(** [strings.CutSuffix] *)
Definition cut_suffix (p s : string) : option string :=
  if has_suffix p s then Some (stake (String.length s - String.length p) s) else None.
Definition ValidDLL (name : string) : bool :=
  match cut_suffix ".dll" name with
  | Some base => negb (base =?s "") && (slen name <=? maxDLLName) && grammar base isNameChar isNameChar
  | None => false
  end.
Definition normalizeDLL (name : string) : string * bool :=
  let name := trim_prefix "./" name in (name, ValidDLL name).

Definition reservedTopDirs : list string :=
  ["bin"; "boot"; "dev"; "etc"; "lib"; "lib32"; "lib64"; "libx32"; "proc"; "run"; "sbin"; "sys"; "tmp"; "usr"; "var"]%string.
Definition reservedTopDir (s : string) : bool := existsb (String.eqb s) reservedTopDirs.

Definition app_segment (s : string) : bool :=
  negb ((s =?s "") || (s =?s ".") || (s =?s "..")) && grammar s isNameChar isNameChar.
Definition ValidAppDir (dir : string) : result unit :=
  let refuse why := Err (refuse ("the container's working directory " +:+ show dir 80 +:+ " can't hold the build: " +:+ why)) in
  if dir =?s "" then refuse "it has none"
  else if dir =?s "/" then refuse "it is the root directory"
  else if (maxAppDirLen <? slen dir) || negb (valid_utf8 dir) then refuse "it is too long or not text"
  else if negb (is_abs dir) || negb (Clean dir =?s dir) then refuse "it is not an absolute, clean path"
  else
    let segments := split_on slash (sdrop 1 dir) in
    if maxAppDirSegments <? Z.of_nat (length segments) then refuse ("it is more than 4 levels deep")
    else if negb (forallb app_segment segments) then refuse "a segment is not letters, digits, '_', '.' or '-'"
    else
      let top := hd ""%string segments in
      if reservedTopDir top || has_prefix ".eyedbg-" top
      then refuse (show top 40 +:+ " is a system directory or eyedbg's own") else Ok ().

Definition ProjectExts : list string := [".csproj"; ".fsproj"; ".vbproj"]%string.
Definition IsProjectFile (name : string) : bool :=
  existsb (fun ext => (slen ext <? slen name) && has_suffix ext name) ProjectExts.

(** [filepath.IsLocal], of a Unix host's. *)
Definition IsLocal (p : string) : bool :=
  negb (is_abs p) && negb (p =?s "")
  && negb ((Clean p =?s "..") || has_prefix "../" (Clean p)).
Definition ValidProjectRel (rel : string) : bool :=
  negb ((rel =?s "") || (maxProjectRel <? slen rel) || hasControl rel || contains_byte "\" rel || has_prefix "/" rel
        || negb (Clean rel =?s rel) || negb (IsProjectFile (Base rel)))
  && IsLocal rel.

(** [within]: inside, and not the root itself. *)
Definition inside_root (root p : string) : bool :=
  has_prefix (if has_suffix "/" root then root else root +:+ "/") p.

(** ** Facts *)

Lemma grammar_first s first rest : grammar s first rest = true → ∃ c t, s = String c t ∧ first c = true ∧ all_bytes rest t = true.
Proof. destruct s as [|c t]; cbn; [done|]. intros [? ?]%andb_true_iff. by exists c, t. Qed.

(** Nothing that starts with one of these bytes is read as a flag. *)
Definition no_flag (s : string) : bool := match s with EmptyString => false | String c _ => negb (Ascii.eqb c "-") end.
Lemma alnum_no_dash c : isAlnum c = true → Ascii.eqb c "-" = false.
Proof. destruct c as [[] [] [] [] [] [] [] []]; vm_compute; congruence. Qed.
Lemma hex_alnum c : isHex c = true → isAlnum c = true.
Proof. destruct c as [[] [] [] [] [] [] [] []]; vm_compute; congruence. Qed.
Lemma grammar_no_flag s rest : grammar s isAlnum rest = true → no_flag s = true.
Proof. intros (c & t & -> & Hc & _)%grammar_first. cbn. by rewrite (alnum_no_dash c Hc). Qed.
Lemma hex_no_flag s : isHexID s = true → no_flag s = true.
Proof.
  unfold isHexID. intros [[Hlen _]%andb_true_iff Hs]%andb_true_iff. destruct s as [|c s]; [done|].
  cbn in Hs |- *. apply andb_true_iff in Hs as [Hc _]. by rewrite (alnum_no_dash c (hex_alnum c Hc)).
Qed.
Lemma ref_no_flag s : valid_ref s = true → no_flag s = true.
Proof.
  unfold valid_ref. intros [H|[_ H]%andb_true_iff]%orb_true_iff; [by apply hex_no_flag|by eapply grammar_no_flag].
Qed.
Lemma service_no_flag s : valid_service s = true → no_flag s = true.
Proof. intros [_ H]%andb_true_iff. by eapply grammar_no_flag. Qed.
Lemma full_is_hex s : isFullID s = true → isHexID s = true.
Proof. by intros [_ H]%andb_true_iff. Qed.
Lemma image_no_flag s : validImageID s = true → no_flag s = true.
Proof.
  unfold validImageID. destruct (cut_prefix _ s) as [h|] eqn:E; [|apply hex_no_flag].
  by apply cut_prefix_Some in E as ->.
Qed.
Lemma ensure_ok ok e : is_ok (ensure ok e) = ok.
Proof. by destruct ok. Qed.

(** * The docker invocations (internal/container: engine.go, inspect.go, compose.go, recreate.go, top.go, fast.go, copy.go)

    Every operation of an engine, as a program of docker invocations
    ([Threads]'s, its calls typed by docker's answer): the arguments each
    passes, and what it reads of the answers. Decoding JSON, running the
    process and the files' answers are arguments. *)

Open Scope Z_scope.
Open Scope thread_scope.

(** A Go literal with its double quotes written as single ones. *)
Fixpoint quoted (s : string) : string :=
  match s with
  | EmptyString => ""
  | String c s => String (if Ascii.eqb c "'" then ascii_of 34 else c) (quoted s)
  end.

(** ** One invocation *)

Definition second : Z := 1000000000.
Definition QueryTimeout : Z := 15 * second.
Definition CopyTimeout : Z := 60 * second.
Definition ComposeTimeout : Z := 30 * second.
Definition UpWaitTimeout : Z := 180 * second.
Definition upSlack : Z := 60 * second.
Definition maxStdout : Z := 1048576.
Definition maxStderrTail : Z := 4096.
Definition shownStderr : nat := 400.

Record Engine := mkEngine { eg_Docker : string; eg_Host : string; eg_Context : string }.

(** [NewEngine]; [found] is [findDocker]'s answer. *)
Definition NewEngine (found : result string) (host context : string) : result Engine :=
  try _ := given host ValidateHost in
  try _ := given context ValidateContext in
  try docker := found in
  Ok (mkEngine docker host context).

Definition globalArgs (e : Engine) : list string :=
  if negb (eg_Host e =?s "") then ["--host=" +:+ eg_Host e]
  else if negb (eg_Context e =?s "") then ["--context=" +:+ eg_Context e]
  else [].
Definition Args (e : Engine) (sub : list string) : list string := globalArgs e ++ sub.
Definition ExecArgs (e : Engine) (id program : string) (args : list string) : list string :=
  Args e (["exec"; "-i"; id; program]%string ++ args).

(** The first argument that is no flag, for messages. *)
Definition subcommand (argv : list string) : string :=
  default "command"%string (List.find (fun a => negb (has_prefix "-" a)) argv).

(** What stderr's writer keeps, and how it is shown. *)
Definition tail_write (limit : Z) (buf p : string) : string :=
  let buf := buf +:+ p in sdrop (Z.to_nat (slen buf - limit)) buf.
(** [strings.Fields] *)
Fixpoint fields_go (cur : string) (l : list (Z * string)) : list string :=
  match l with
  | [] => if cur =?s "" then [] else [cur]
  | (r, b) :: l =>
    if is_space r then (if cur =?s "" then fields_go "" l else cur :: fields_go "" l) else fields_go (cur +:+ b) l
  end.
Definition fields (s : string) : list string := fields_go "" (segs s).
Definition tail_text (buf : string) : string := join " " (fields (blank is_control (to_valid buf "?"))).
Definition shortStderr (s : string) : string :=
  if Z.of_nat shownStderr <? slen s then "..." +:+ to_valid (sdrop (String.length s - shownStderr) s) "" else s.

Record failure := mkFailure { f_sub : string; f_stderr : string; f_err : string }.
(** An invocation: its error with stderr's tail, or stdout. *)
Inductive dockerCall : Type → Type :=
  | CDocker (timeout : Z) (stdin : string) (argv : list string) : dockerCall (string * string + string).
Abbreviation dprog A := (tprog unit dockerCall A).

(** [run] *)
Definition run_docker (timeout : Z) (stdin : string) (argv : list string) : dprog (failure + string) :=
  r <- call (CDocker timeout stdin argv) ;;
  TRet (match r with
        | inl (err, stderr) => inl (mkFailure (subcommand argv) stderr err)
        | inr out => inr out
        end).
Definition query (e : Engine) (sub : list string) : dprog (failure + string) := run_docker QueryTimeout "" (Args e sub).

Definition attach_failed (msg : string) : Error := NewError CodeAttachFailed msg.
(** A failure's error and stderr, as messages append them; the error of a
    failure is never empty. *)
Definition dockerError (f : failure) : Error :=
  attach_failed ("docker " +:+ f_sub f +:+ " failed (" +:+ f_err f +:+ ")"
                 +:+ (if f_stderr f =?s "" then "" else ": " +:+ shortStderr (f_stderr f))).
Definition unexpectedAnswer (what why : string) : Error := attach_failed ("unexpected answer from " +:+ what +:+ ": " +:+ why).

(** A step that may fail, and a failure as an error. *)
Definition dthen {A B} (m : result A) (k : A → dprog (result B)) : dprog (result B) :=
  match m with Ok a => k a | Err e => TRet (Err e) end.
Definition dask {B} (p : dprog (failure + string)) (err : failure → Error) (k : string → dprog (result B)) : dprog (result B) :=
  (r <- p ;; match r with inl f => TRet (Err (err f)) | inr out => k out end).

(** ** Inspecting a container *)

Definition labelProject : string := "com.docker.compose.project".
Definition labelService : string := "com.docker.compose.service".
Definition labelWorkingDir : string := "com.docker.compose.project.working_dir".
Definition labelConfigFiles : string := "com.docker.compose.project.config_files".
Definition labelFastPrefix : string := "dev.izzat.eyedbg.fast.".
Definition labelFastMode : string := labelFastPrefix +:+ "override".
Definition labelFastVersion : string := labelFastPrefix +:+ "version".
Definition labelFastDLL : string := labelFastPrefix +:+ "dll".
Definition labelFastWorkDir : string := labelFastPrefix +:+ "workdir".
Definition labelFastProject : string := labelFastPrefix +:+ "project".

Definition label_of (from l : string) : string := "{{json (index " +:+ from +:+ " " +:+ dquote +:+ l +:+ dquote +:+ ")}}".
Definition inspectTemplate : string :=
  quoted ("[{{json .Id}},{{json .Name}},{{json .Image}},{{json .Path}},"
  +:+ "{{json .State.Running}},{{json .State.Paused}},{{json .State.Restarting}},{{json (index .HostConfig 'Init')}},"
  +:+ "{{with index .Config 'Healthcheck'}}[{{json (index . 'Interval')}},{{json (index . 'Timeout')}},{{json (index . 'Retries')}},"
  +:+ "{{with index . 'Test'}}{{eq (index . 0) 'NONE'}}{{else}}false{{end}}]{{else}}null{{end}},")
  +:+ join "," (map (label_of ".Config.Labels") [labelProject; labelService; labelWorkingDir; labelFastMode; labelConfigFiles])
  +:+ "]".
Definition imageTemplate : string := "{{.Os}}/{{.Architecture}}/{{.Variant}}".
Definition fastInspectTemplate : string :=
  quoted ("[{{json .Id}},{{json .Name}},{{json .Image}},{{json .Platform}},"
  +:+ "{{json .State.Running}},{{json .State.Paused}},{{json .State.Restarting}},"
  +:+ "{{with .Config.Entrypoint}}{{if and (eq (len .) 2) (eq (index . 0) 'dotnet')}}{{json (index . 1)}}{{else}}null{{end}}{{else}}null{{end}},"
  +:+ "{{if .Config.Cmd}}true{{else}}false{{end}},{{json .Config.WorkingDir}},{{with .Config.Labels}}")
  +:+ join "," (map (label_of ".") [labelProject; labelService; labelWorkingDir; labelConfigFiles; labelFastVersion;
                                    labelFastMode; labelFastDLL; labelFastWorkDir; labelFastProject])
  +:+ "{{else}}null,null,null,null,null,null,null,null,null{{end}}]".

Definition noSuchContainer (ref : string) : Error := refuse ("no container " +:+ show ref 80).
Definition inspectOne (e : Engine) (ref template : string) : dprog (result string) :=
  dthen (ValidateRef ref) (fun _ =>
  dask (query e ["inspect"; "--type"; "container"; "--format"; template; "--"; ref]%string)
    (fun f => if contains (to_lower (f_stderr f)) "no such" then noSuchContainer ref else dockerError f)
    (fun out => TRet (Ok out))).

(** [splitConfigFiles] *)
Definition maxComposeFiles : Z := 16.
Definition labelError (what value : string) : Error := refuse ("the container's " +:+ what +:+ " is not valid: " +:+ show value 80).
Definition splitConfigFiles (v : string) : result (list string) :=
  if v =?s "" then Ok []
  else
    let files := split_on "," v in
    if (maxComposeFiles <? Z.of_nat (length files)) || negb (forallb plainAbsPath files)
    then Err (labelError labelConfigFiles v) else Ok files.

(** *** Its healthcheck

    Docker's numbers are [float64]; a whole one is taken as an integer, and
    one past the bound as the bound. *)
Record Health := mkHealth { hl_Interval : Z; hl_Timeout : Z; hl_Retries : Z }.
Definition defaultInterval : Z := 30 * second.
Definition defaultRetries : Z := 3.
Definition Health_UnhealthyAfter (h : Health) : Z :=
  let interval := if hl_Interval h <=? 0 then defaultInterval else hl_Interval h in
  let timeout := if hl_Timeout h <=? 0 then defaultInterval else hl_Timeout h in
  let retries := if hl_Retries h <=? 0 then defaultRetries else hl_Retries h in
  wrap64 (wrap64 (retries * interval) + timeout).
Definition maxSpan : Z := 24 * 3600 * second.
Definition maxRetries : Z := 1000.
Definition bounded (limit : Z) (x : option Z) : Z := match x with Some v => if 0 <? v then Z.min v limit else 0 | None => 0 end.
(** The healthcheck's values, once decoded: [None] for null. *)
Definition parseHealth (v : option (option Z * option Z * option Z * bool)) : option Health :=
  match v with
  | None => None
  | Some (interval, timeout, retries, none) =>
    if none : bool then None else Some (mkHealth (bounded maxSpan interval) (bounded maxSpan timeout) (bounded maxRetries retries))
  end.

(** [inspectTemplate]'s values, decoded. *)
Record rawInfo := mkRawInfo {
  ri_ID : string; ri_Name : string; ri_Image : string; ri_Path : string; ri_Running : bool; ri_Paused : bool;
  ri_Restarting : bool; ri_Init : option bool; ri_Health : option (option Z * option Z * option Z * bool);
  ri_Project : string; ri_Service : string; ri_WorkDir : string; ri_FastMode : string; ri_ConfigFiles : string }.
Record Info := mkInfo {
  in_ID : string; in_Name : string; in_Image : string; in_Path : string; in_Running : bool; in_Paused : bool;
  in_Restarting : bool; in_Init : bool; in_Health : option Health; in_Project : string; in_Service : string;
  in_WorkingDir : string; in_SourceDir : string; in_configFiles : string; in_FastMode : bool }.
#[global] Instance eta_Info : Eta Info := fun r =>
  mkInfo (in_ID r) (in_Name r) (in_Image r) (in_Path r) (in_Running r) (in_Paused r) (in_Restarting r) (in_Init r)
    (in_Health r) (in_Project r) (in_Service r) (in_WorkingDir r) (in_SourceDir r) (in_configFiles r) (in_FastMode r).

Definition keep_if (ok : bool) (s : string) : string := if ok then s else "".
Definition setComposeLabels (i : Info) (project service wdir configFiles : string) : Info :=
  i <| in_Project := keep_if (is_ok (CheckGroup project)) project |>
    <| in_Service := keep_if (valid_service service) service |>
    <| in_WorkingDir := keep_if ((slen wdir <=? maxLabel) && negb (existsb is_control (runes wdir))) wdir |>
    <| in_configFiles := keep_if (is_ok (splitConfigFiles configFiles)) configFiles |>.
Definition parse_info (r : rawInfo) : result Info :=
  let name := trim_prefix "/" (ri_Name r) in
  if negb (isFullID (ri_ID r)) || negb (validImageID (ri_Image r)) || negb (valid_ref name)
  then Err (attach_failed "the container's id, image or name is not in docker's usual form")
  else
    let i := mkInfo (ri_ID r) name (ri_Image r) (ri_Path r) (ri_Running r) (ri_Paused r) (ri_Restarting r)
               (default false (ri_Init r)) (parseHealth (ri_Health r)) "" "" "" "" "" (negb (ri_FastMode r =?s "")) in
    Ok (setComposeLabels i (ri_Project r) (ri_Service r) (ri_WorkDir r) (ri_ConfigFiles r)).

Definition maxName : nat := 64.
Definition Info_ProcessName (i : Info) : string := stake maxName (blank is_control (to_valid (Base (in_Path i)) "?")).
Definition Info_UnhealthyAfter (i : Info) : Z := match in_Health i with Some h => Health_UnhealthyAfter h | None => 0 end.

(** *** The project directory its labels name *)

Section files.
(** [filepath.EvalSymlinks], and [os.Stat]: a directory, a regular file. *)
Context (EvalSymlinks : string → option string) (is_dir is_regular : string → bool).

Definition isComposeFileName (p : string) : bool :=
  let base := to_lower (Base p) in
  existsb (fun ext => has_suffix ext base && (slen ext <? slen base)) [".yml"; ".yaml"]%string.
Definition corroborating (resolved f : string) : bool :=
  isComposeFileName f &&
  match EvalSymlinks (Clean f) with Some rf => inside_root resolved rf && is_regular rf | None => false end.
Definition cant_confirm (why : string) : Error := refuse ("eyedbg can't confirm the project directory " +:+ why).
Definition maxListedFiles : nat := 3.
Definition listedFiles (files : list string) : string :=
  match files with
  | [] => "the container lists no compose files"
  | _ =>
    let more := if (maxListedFiles <? length files)%nat then " and " +:+ itoa (Z.of_nat (length files - maxListedFiles)) +:+ " more" else "" in
    "none of the compose files the container lists (" +:+ join ", " (map (fun f => show f 80) (take maxListedFiles files))
    +:+ more +:+ ") is a compose file inside it"
  end.
Definition CorroborateComposeDir (dir : string) (files : list string) : result string :=
  if (dir =?s "") || negb (plainAbsPath dir) || (Dir dir =?s dir)
  then Err (refuse "eyedbg can't confirm the project directory: the container records none (an absolute directory below the root)")
  else
    match EvalSymlinks (Clean dir) with
    | None => Err (cant_confirm (show dir 80 +:+ ": it is not on this machine"))
    | Some resolved =>
      if negb (is_dir resolved) then Err (cant_confirm (show dir 80 +:+ ": it is not a directory"))
      else if existsb (corroborating resolved) files then Ok resolved
      else Err (cant_confirm (show dir 80 +:+ ": " +:+ listedFiles files))
    end.
Definition composeSourceDir (dir configFiles : string) : string :=
  match splitConfigFiles configFiles with
  | Ok files => match CorroborateComposeDir dir files with Ok resolved => resolved | Err _ => "" end
  | Err _ => ""
  end.

(** [Inspect]; [decode] is the JSON's: [parseInspect]'s errors up to its
    values' types. *)
Definition Inspect (decode : string → result rawInfo) (e : Engine) (ref : string) : dprog (result Info) :=
  out <- inspectOne e ref inspectTemplate ;;
  TRet (match out with
        | Err err => Err err
        | Ok out =>
          match (try r := decode out in parse_info r) with
          | Err err => Err (attach_failed ("unexpected answer from docker inspect: " +:+ e_message err))
          | Ok i => Ok (i <| in_SourceDir := composeSourceDir (in_WorkingDir i) (in_configFiles i) |>)
          end
        end).
End files.

Definition lower_word (s : string) : bool := grammar s isLowerDigit isLowerDigit.
Definition ImagePlatform (e : Engine) (image : string) : dprog (result (string * string * string)) :=
  dthen (ensure (validImageID image) (attach_failed ("unexpected image id " +:+ show image 80 +:+ " in docker's answer"))) (fun _ =>
  dask (query e ["image"; "inspect"; "--format"; imageTemplate; "--"; image]%string) dockerError (fun out =>
    TRet (match split_on slash (trim_space out) with
          | [os; arch; variant] =>
            if lower_word os && lower_word arch && ((variant =?s "") || lower_word variant) then Ok (os, arch, variant)
            else Err (attach_failed ("unexpected platform from docker image inspect: " +:+ show out 60))
          | _ => Err (attach_failed ("unexpected platform from docker image inspect: " +:+ show out 60))
          end))).
