(* ===== verification/DockerStack.v ===== *)
(** * A compose project's containers (internal/container: compose.go, recreate.go, top.go, fast.go, copy.go)

    Listing a project's containers, recreating services, a container's
    processes, where a project's containers can write on the host, and
    installing an adapter in a container. *)

From S2P Require Import Prelude GoStrings GoPath Api PathMap Threads Docker.
From Stdlib Require Import Ascii Bool.

Open Scope Z_scope.
Open Scope thread_scope.

(** ** docker compose ps *)

Record ComposeOptions := mkComposeOptions { co_Files : list string; co_ProjectName : string; co_ProjectDirectory : string }.
Record ComposeService := mkComposeService {
  cs_ID : string; cs_Name : string; cs_Service : string; cs_Project : string; cs_State : string }.
Record psRow := mkPsRow {
  pr_ID : string; pr_Name : string; pr_Service : string; pr_Project : string; pr_State : string; pr_Labels : string }.

(** A check of each, up to the first that fails. *)
Fixpoint check_each (check : string → result unit) (l : list string) : result unit :=
  match l with [] => Ok () | x :: l => try _ := check x in check_each check l end.
Definition invalidProject (name : string) : Error := refuse ("invalid project name " +:+ show name 40).
Definition ComposeOptions_Validate (o : ComposeOptions) : result unit :=
  try _ := ensure (Z.of_nat (length (co_Files o)) <=? maxComposeFiles) (refuse "more than 16 -f flags") in
  try _ := check_each (checkComposePath "-f") (co_Files o) in
  try _ := given (co_ProjectDirectory o) (checkComposePath "--project-directory") in
  given (co_ProjectName o) (fun name => ensure (is_ok (CheckGroup name)) (invalidProject name)).

Definition flag_given (flag v : string) : list string := if v =?s "" then [] else [flag +:+ v].
Definition psArgs (o : ComposeOptions) : list string :=
  ["compose"]%string ++ map (fun f => "--file=" +:+ f) (co_Files o)
  ++ flag_given "--project-name=" (co_ProjectName o) ++ flag_given "--project-directory=" (co_ProjectDirectory o)
  ++ ["ps"; "--format"; "json"]%string.

Definition composeError (f : failure) : Error :=
  if contains (to_lower (f_stderr f)) "no configuration file"
  then refuse "docker compose found no compose file here"
  else attach_failed ("docker compose ps failed (" +:+ f_err f +:+ ")"
                      +:+ (if f_stderr f =?s "" then "" else ": " +:+ shortStderr (f_stderr f))).

Definition labelPrefixProject : string := labelProject +:+ "=".
Definition projectLabel (labels : string) : string :=
  default ""%string (head (omap (cut_prefix labelPrefixProject) (split_on "," labels))).
Definition row_error (what : string) : Error := attach_failed ("its " +:+ what).
Definition psRow_service (r : psRow) : result ComposeService :=
  try _ := ensure (isHexID (pr_ID r)) (row_error "ID is not a container id") in
  try _ := ensure (valid_ref (pr_Name r)) (row_error "Name is not a container name") in
  try _ := ensure (valid_service (pr_Service r)) (row_error "Service is not a compose service name") in
  try _ := ensure (negb ((pr_State r =?s "") || (32 <? slen (pr_State r)) || existsb is_control (runes (pr_State r))))
             (row_error "State is missing") in
  let project := if pr_Project r =?s "" then projectLabel (pr_Labels r) else pr_Project r in
  try _ := ensure (is_ok (CheckGroup project)) (row_error "compose project is missing or not a valid project name") in
  Ok (mkComposeService (pr_ID r) (pr_Name r) (pr_Service r) project (pr_State r)).
Fixpoint read_rows (n : Z) (rows : list psRow) : result (list ComposeService) :=
  match rows with
  | [] => Ok []
  | r :: rows =>
    match psRow_service r with
    | Err e => Err (attach_failed ("container " +:+ itoa n +:+ ": " +:+ e_message e))
    | Ok s => try l := read_rows (n + 1) rows in Ok (s :: l)
    end
  end.
(** [decode_array], [decode_stream]: the JSON's, an array and one object
    after another. *)
Definition parseComposePS (decode_array decode_stream : string → option (list psRow)) (out : string) : result (list ComposeService) :=
  let out := trim_space out in
  if out =?s "" then Ok []
  else
    let rows := if has_prefix "[" out then decode_array out else decode_stream out in
    match rows with
    | None => Err (attach_failed (if has_prefix "[" out then "not a JSON array of containers" else "not one JSON object per line"))
    | Some rows => read_rows 1 rows
    end.
Definition ComposePS (decode_array decode_stream : string → option (list psRow)) (e : Engine) (o : ComposeOptions)
    : dprog (result (list ComposeService)) :=
  dthen (ComposeOptions_Validate o) (fun _ =>
  dask (run_docker ComposeTimeout "" (Args e (psArgs o))) composeError (fun out =>
    TRet (match parseComposePS decode_array decode_stream out with
          | Ok l => Ok l
          | Err err => Err (attach_failed ("unexpected answer from docker compose ps: " +:+ e_message err))
          end))).

(** ** docker compose up *)

Definition maxUpServices : Z := 64.
Record ProjectRef := mkProjectRef { pj_Name : string; pj_WorkDir : string; pj_Files : list string; pj_EnvFiles : list string }.
Definition ValidateEnvFiles (files : list string) : result unit :=
  try _ := ensure (Z.of_nat (length files) <=? maxComposeFiles) (refuse "more than 16 --env-file flags") in
  check_each (checkComposePath "--env-file") files.
Definition ProjectRef_validate (r : ProjectRef) : result unit :=
  try _ := ensure (is_ok (CheckGroup (pj_Name r))) (invalidProject (pj_Name r)) in
  try _ := ensure (is_ok (checkComposePath "--project-directory" (pj_WorkDir r)) && is_abs (pj_WorkDir r))
             (refuse ("invalid project directory " +:+ show (pj_WorkDir r) 80)) in
  try _ := ensure ((1 <=? Z.of_nat (length (pj_Files r))) && (Z.of_nat (length (pj_Files r)) <=? maxComposeFiles))
             (refuse "a compose project needs 1 to 16 compose files") in
  try _ := check_each (fun f => ensure (plainAbsPath f) (refuse ("invalid compose file " +:+ show f 80))) (pj_Files r) in
  ValidateEnvFiles (pj_EnvFiles r).

(** [Abs] is [filepath.Abs], which the current directory decides. *)
Fixpoint make_absolute (Abs : string → result string) (files : list string) : result (list string) :=
  match files with
  | [] => Ok []
  | f :: files =>
    match Abs f with
    | Err err => Err (attach_failed ("make " +:+ f +:+ " absolute: " +:+ e_message err))
    | Ok f => try l := make_absolute Abs files in Ok (f :: l)
    end
  end.
Definition upArgs (Abs : string → result string) (r : ProjectRef) (override : string) (services : list string) (wait : bool)
    : result (list string) :=
  try envFiles := make_absolute Abs (pj_EnvFiles r) in
  Ok (["compose"; "--project-name=" +:+ pj_Name r; "--project-directory=" +:+ pj_WorkDir r]%string
      ++ map (fun f => "--file=" +:+ f) (pj_Files r) ++ flag_given "--file=" override
      ++ map (fun f => "--env-file=" +:+ f) envFiles
      ++ ["up"; "--detach"; "--no-deps"; "--force-recreate"; "--no-build"]%string
      ++ (if wait then ["--wait"; "--wait-timeout=" +:+ itoa (UpWaitTimeout / second)]%string else []) ++ services).
Definition upError (f : failure) : Error :=
  attach_failed ("docker compose up failed (" +:+ f_err f +:+ ")" +:+ (if f_stderr f =?s "" then "" else ": " +:+ f_stderr f)).
Definition ComposeUp (Abs : string → result string) (e : Engine) (r : ProjectRef) (override : string) (services : list string)
    (wait : bool) : dprog (result unit) :=
  dthen (ProjectRef_validate r) (fun _ =>
  dthen (ensure ((override =?s "") || (plainAbsPath override && negb (existsb (String.eqb override) (pj_Files r))))
           (refuse ("invalid override file " +:+ show override 80))) (fun _ =>
  dthen (ensure ((1 <=? Z.of_nat (length services)) && (Z.of_nat (length services) <=? maxUpServices))
           (refuse "compose up needs 1 to 64 services")) (fun _ =>
  dthen (check_each ValidateService services) (fun _ =>
  dthen (upArgs Abs r override services wait) (fun args =>
  dask (run_docker (if wait then UpWaitTimeout + upSlack else 2 * upSlack) "" (Args e args)) upError (fun _ => TRet (Ok ()))))))).

(** ** docker top *)

Definition maxProcs : Z := 10000.
Record Proc := mkProc { tp_PID : Z; tp_Stat : string; tp_Comm : string }.

(** CRLF as LF, and [strings.TrimRight] of bytes. *)
Fixpoint unix_lines (s : string) : string :=
  match s with
  | String "013" (String "010" s') => String "010" (unix_lines s')
  | String c s => String c (unix_lines s)
  | EmptyString => ""
  end.
Definition newline : ascii := "010".
Fixpoint trim_right (cut : ascii → bool) (s : string) : string :=
  match s with
  | EmptyString => ""
  | String c s => let t := trim_right cut s in if (t =?s "") && cut c then "" else String c t
  end.
Definition is_newline (c : ascii) : bool := Ascii.eqb c newline.
Definition answer_lines (out : string) : list string :=
  split_on newline (trim_right (fun c => is_newline c || Ascii.eqb c "013") out).
(** [strings.EqualFold] of an upper-case ASCII word. *)
Definition equal_fold (s upper : string) : bool := to_lower s =?s to_lower upper.

Definition parseTopRow (line : string) : result Proc :=
  let bad msg := Err (attach_failed msg) in
  if existsb (fun r => negb (r =? 9) && is_control r) (runes line) then bad "a control character"%string
  else
    match fields line with
    | p :: stat :: ((_ :: _) as comm) =>
      match atoi p with
      | Some pid => if pid <=? 0 then bad "the process id is not a positive number"%string
                    else Ok (mkProc pid stat (join " " comm))
      | None => bad "the process id is not a positive number"%string
      end
    | _ => bad "fewer than 3 columns"%string
    end.
Fixpoint read_procs (n : Z) (lines : list string) : result (list Proc) :=
  match lines with
  | [] => Ok []
  | l :: lines =>
    match parseTopRow l with
    | Err e => Err (attach_failed ("row " +:+ itoa n +:+ ": " +:+ e_message e))
    | Ok p => try ps := read_procs (n + 1) lines in Ok (p :: ps)
    end
  end.
Definition parseTop (out : string) : result (list Proc) :=
  match split_on newline (trim_right is_newline (unix_lines out)) with
  | [] | EmptyString :: _ => Err (attach_failed "no header")
  | head :: rows =>
    match fields head with
    | pid :: stat :: _ :: _ =>
      if negb (equal_fold pid "PID") || negb (equal_fold stat "STAT") then Err (attach_failed "the header is not PID STAT COMMAND")
      else if maxProcs <? Z.of_nat (length rows) then Err (attach_failed "more than 10000 processes")
      else read_procs 1 rows
    | _ => Err (attach_failed "the header is not PID STAT COMMAND")
    end
  end.
Definition Top (e : Engine) (ref : string) : dprog (result (list Proc)) :=
  dthen (ValidateRef ref) (fun _ =>
  dask (query e ["top"; ref; "-o"; "pid,stat,comm"]%string) dockerError (fun out =>
    TRet (match parseTop out with
          | Ok l => Ok l
          | Err err => Err (attach_failed ("unexpected answer from docker top: " +:+ e_message err))
          end))).

Definition dotnetComm : string := "dotnet".
Definition Strays (procs : list Proc) : list Proc :=
  List.filter (fun p => (tp_Comm p =?s dotnetComm) && negb (has_prefix "Z" (tp_Stat p))) procs.

Definition ProbeIdle (e : Engine) (ref : string) : dprog (result unit) :=
  dthen (ValidateRef ref) (fun _ =>
  dask (query e ["exec"; ref; "tail"; "--version"]%string)
    (fun f => let lower := to_lower (f_stderr f) in
              if contains lower "not found" || contains lower "no such file"
              then refuse ("the image has no 'tail': chiseled or distroless images can't idle (" +:+ shortStderr (f_stderr f) +:+ ")")
              else dockerError f)
    (fun _ => TRet (Ok ()))).

(** ** The containers of a project *)

Record FastContainer := mkFastContainer { fc_ID : string; fc_Service : string }.
Definition fast_le (a b : FastContainer) : Prop :=
  String.compare (fc_Service a) (fc_Service b) = Lt
  ∨ (fc_Service a = fc_Service b ∧ String.leb (fc_ID a) (fc_ID b) = true).
#[global] Instance fast_le_dec a b : Decision (fast_le a b).
Proof. unfold fast_le. apply _. Defined.

Definition parse_fast_line (line : string) : result FastContainer :=
  let bad := Err (unexpectedAnswer "docker ps" (show line 100)) in
  match cut_at " " (trim_suffix (String "013" "") line) with
  | Some (id, service) => if isFullID id && valid_service service then Ok (mkFastContainer id service) else bad
  | None => bad
  end.
Fixpoint map_results {A B} (f : A → result B) (l : list A) : result (list B) :=
  match l with [] => Ok [] | a :: l => try b := f a in try bs := map_results f l in Ok (b :: bs) end.
Definition ends_line (c : ascii) : bool := is_newline c || Ascii.eqb c "013".
Definition parse_fast (out : string) : result (list FastContainer) :=
  let out := trim_right ends_line out in
  if out =?s "" then Ok []
  else try found := map_results parse_fast_line (split_on newline out) in Ok (merge_sort fast_le found).
Definition FastContainers (e : Engine) (project : string) : dprog (result (list FastContainer)) :=
  dthen (CheckGroup project) (fun _ =>
  dask (query e (["ps"; "--all"; "--no-trunc"; "--filter=label=" +:+ labelProject +:+ "=" +:+ project;
                  "--filter=label=" +:+ labelFastMode;
                  "--format={{.ID}} {{.Label " +:+ dquote +:+ labelService +:+ dquote +:+ "}}"]%string)) dockerError
    (fun out => TRet (parse_fast out))).

(** ** Where they can write on the host *)

Definition maxRWMountContainers : Z := 512.
Definition maxRWVolumes : Z := 512.
Definition maxVolumeName : Z := 255.
Definition rwMountsTemplate : string :=
  quoted ("{'bind':[{{range .Mounts}}{{if and .RW (eq .Type 'bind')}}{{json .Source}},{{end}}{{end}}null],"
  +:+ "'volume':[{{range .Mounts}}{{if and .RW (eq .Type 'volume') (eq .Driver 'local')}}{{json .Name}},{{end}}{{end}}null]}").
Definition volumeDeviceTemplate : string :=
  quoted ("{{if and (eq .Driver 'local') .Options}}"
  +:+ "{{with index .Options 'device'}}{{json .}}{{else}}null{{end}}{{else}}null{{end}}").

(** A line's JSON: [None] for a null element; a volume's device. *)
Record rwMounts := mkRwMounts { rm_Bind : option (list (option string)); rm_Volume : option (list (option string)) }.

Definition read_bind (p : option string) : result (list string) :=
  match p with
  | None => Ok []
  | Some p => if engineAbsPath p then Ok [p]
              else Err (unexpectedAnswer "docker inspect" ("a mount source is not a plain absolute path: " +:+ show p 80))
  end.
Definition valid_volume (v : string) : bool := (slen v <=? maxVolumeName) && grammar v isAlnum isNameChar.
Definition read_volume (v : option string) : result (list string) :=
  match v with
  | None => Ok []
  | Some v => if valid_volume v then Ok [v]
              else Err (unexpectedAnswer "docker inspect" ("a volume name is not valid: " +:+ show v 80))
  end.
Definition parseRWMountsLine (decode : string → option rwMounts) (line : string) : result (list string * list string) :=
  match decode line with
  | Some (mkRwMounts (Some binds) (Some volumes)) =>
    try bs := map_results read_bind binds in
    try vs := map_results read_volume volumes in
    Ok (concat bs, concat vs)
  | _ => Err (unexpectedAnswer "docker inspect" "a container's mounts are not the JSON eyedbg asked for")
  end.
Definition string_leb (a b : string) : Prop := String.leb a b = true.
#[global] Instance string_leb_dec a b : Decision (string_leb a b).
Proof. unfold string_leb. apply _. Defined.
(** [slices.Sort], then [slices.Compact]. *)
Fixpoint compact (l : list string) : list string :=
  match l with
  | x :: ((y :: _) as l') => if x =?s y then compact l' else x :: compact l'
  | _ => l
  end.
Definition sorted_compact (l : list string) : list string := compact (merge_sort string_leb l).

Definition strip_cr (line : string) : string := trim_suffix (String "013" "") line.
Definition parseRWMounts (decode : string → option rwMounts) (out : string) (want : nat) : result (list string * list string) :=
  let lines := answer_lines out in
  if negb (length lines =? want)%nat
  then Err (unexpectedAnswer "docker inspect" (itoa (Z.of_nat (length lines)) +:+ " answers for " +:+ itoa (Z.of_nat want) +:+ " containers"))
  else
    try parts := map_results (fun l => parseRWMountsLine decode (strip_cr l)) lines in
    let volumes := sorted_compact (concat (map snd parts)) in
    if maxRWVolumes <? Z.of_nat (length volumes)
    then Err (attach_failed ("the project's containers mount " +:+ itoa (Z.of_nat (length volumes)) +:+ " volumes read-write; eyedbg reads at most 512"))
    else Ok (concat (map fst parts), volumes).

Definition isSlash (c : ascii) : bool := Ascii.eqb c "/" || Ascii.eqb c "\".
Definition isShare (device : string) : bool :=
  match device with String a (String b _) => isSlash a && isSlash b | _ => false end.
(** [decode]: [None] for no JSON string or null. *)
Definition read_device (decode : string → option (option string)) (line : string) : result (list string) :=
  match decode (strip_cr line) with
  | None => Err (unexpectedAnswer "docker volume inspect" "a volume's device is not a JSON string")
  | Some None => Ok []
  | Some (Some d) =>
    if d =?s "" then Ok []
    else if (maxLabel <? slen d) || hasControl d
    then Err (unexpectedAnswer "docker volume inspect" ("a volume's device is not plain text: " +:+ show d 80))
    else if isShare d || negb (engineAbsPath d) then Ok []
    else Ok [d]
  end.
Definition read_devices (decode : string → option (option string)) (names : list string) (out : string) : result (list string) :=
  let lines := answer_lines out in
  if negb (length lines =? length names)%nat
  then Err (unexpectedAnswer "docker volume inspect"
              (itoa (Z.of_nat (length lines)) +:+ " answers for " +:+ itoa (Z.of_nat (length names)) +:+ " volumes"))
  else try ds := map_results (read_device decode) lines in Ok (concat ds).
Definition volumeDevices (decode : string → option (option string)) (e : Engine) (names : list string) : dprog (result (list string)) :=
  match names with
  | [] => TRet (Ok [])
  | _ => dask (query e (["volume"; "inspect"; "--format"; volumeDeviceTemplate; "--"]%string ++ names)) dockerError
           (fun out => TRet (read_devices decode names out))
  end.

Definition check_ids (project : string) (ids : list string) : result (list string) :=
  if maxRWMountContainers <? Z.of_nat (length ids)
  then Err (attach_failed ("project " +:+ project +:+ " has " +:+ itoa (Z.of_nat (length ids))
                           +:+ " containers; eyedbg reads the mounts of at most 512"))
  else try _ := check_each (fun id => ensure (isFullID id) (unexpectedAnswer "docker ps" (show id 100))) ids in Ok ids.
Definition projectContainerIDs (e : Engine) (project : string) : dprog (result (list string)) :=
  dthen (CheckGroup project) (fun _ =>
  dask (query e ["ps"; "--all"; "--no-trunc"; "--quiet"; "--filter=label=" +:+ labelProject +:+ "=" +:+ project]%string) dockerError
    (fun out => TRet (check_ids project (fields out)))).

(** A source's spellings: the engine's, then Docker Desktop's host path. *)
Definition dockerDesktopHostMount : string := "/host_mnt".
Definition spellings (p : string) : list string :=
  p :: match cut_prefix dockerDesktopHostMount p with Some host => if has_prefix "/" host then [host] else [] | None => [] end.
Definition writableSources (paths : list string) : list (list string) := map spellings (sorted_compact paths).

Section decoders.
Context (decode_mounts : string → option rwMounts) (decode_device : string → option (option string)).
Definition WritableSources (e : Engine) (project : string) : dprog (result (list (list string))) :=
  found <- projectContainerIDs e project ;;
  match found with
  | Err err => TRet (Err err)
  | Ok [] => TRet (Ok [])
  | Ok ids =>
    dask (query e (["inspect"; "--type"; "container"; "--format"; rwMountsTemplate; "--"]%string ++ ids)) dockerError (fun out =>
    dthen (parseRWMounts decode_mounts out (length ids)) (fun mounts =>
    devices <- volumeDevices decode_device e mounts.2 ;;
    TRet (try ds := devices in Ok (writableSources (mounts.1 ++ ds)))))
  end.
End decoders.

(** ** An adapter in a container *)

Record Adapter := mkAdapter { ad_Name : string; ad_Version : string; ad_Entry : string; ad_ProbeArgs : list string }.
Definition Adapter_check (a : Adapter) : result unit :=
  try _ := ensure (grammar (ad_Name a) isAlnum isNameChar && (slen (ad_Name a) <=? maxVersionLen) && validVersion (ad_Version a))
             (refuse ("the adapter's name or version is not fit to name a directory: " +:+ show (ad_Name a +:+ " " +:+ ad_Version a) 80)) in
  ensure (negb ((ad_Entry a =?s "") || has_prefix "/" (ad_Entry a) || contains (ad_Entry a) ".."))
    (refuse "the adapter's entry is not a relative path inside its directory").
Definition TopDir (a : Adapter) : string := ".eyedbg-" +:+ ad_Name a +:+ "-" +:+ ad_Version a.
Definition ContainerPath (a : Adapter) : string := "/" +:+ TopDir a +:+ "/" +:+ ad_Entry a.
Definition failureText (f : failure) : string :=
  f_err f +:+ (if f_stderr f =?s "" then "" else (if f_err f =?s "" then "" else ": ") +:+ shortStderr (f_stderr f)).
Definition internal (msg : string) : Error := NewError CodeInternal msg.
Definition ProbeAdapter (e : Engine) (id : string) (a : Adapter) : dprog (result unit) :=
  dthen (ensure (isFullID id) (internal "probe an adapter in a container with a non-full id")) (fun _ =>
  dthen (Adapter_check a) (fun _ =>
  dask (query e (["exec"; id; ContainerPath a]%string ++ ad_ProbeArgs a))
    (fun f => attach_failed (ad_Name a +:+ " doesn't run in the container: " +:+ failureText f)) (fun _ => TRet (Ok ())))).
(** [tar] is [BuildTar]'s once its check passed: packing the files. *)
Definition InstallAdapter (tar : result string) (e : Engine) (id : string) (a : Adapter) : dprog (result unit) :=
  dthen (ensure (isFullID id) (internal "install into a container with a non-full id")) (fun _ =>
  dthen (Adapter_check a) (fun _ =>
  dthen tar (fun data =>
  dask (run_docker CopyTimeout data (Args e ["cp"; "-"; id +:+ ":/"]%string))
    (fun f => attach_failed ("can't copy " +:+ ad_Name a +:+ " into the container: " +:+ failureText f))
    (fun _ => ProbeAdapter e id a)))).
