(* ===== verification/Fast.v ===== *)
(** * Fast mode's labels and override (internal/container: fast.go, override.go)

    A container's fast-mode labels are untrusted: what eyedbg reads of them,
    the project file they name, the override file eyedbg writes for compose,
    and the check that a container's labels are the override's. *)

From S2P Require Import Prelude GoStrings GoPath Api PathMap Threads Docker DockerStack.
From Stdlib Require Import Ascii Bool.
Open Scope Z_scope.
Open Scope thread_scope.

Definition FastVersion : string := "1".

(** ** What is read of a container *)

Record FastLabels := mkFastLabels {
  fl_Version : string; fl_Override : string; fl_DLL : string; fl_WorkDir : string; fl_Project : string;
  fl_ProjectPath : string; fl_ProjectLabel : string }.
#[global] Instance eta_FastLabels : Eta FastLabels := fun r =>
  mkFastLabels (fl_Version r) (fl_Override r) (fl_DLL r) (fl_WorkDir r) (fl_Project r) (fl_ProjectPath r) (fl_ProjectLabel r).
Record FastInfo := mkFastInfo {
  fi_ID : string; fi_Name : string; fi_Image : string; fi_Platform : string; fi_Running : bool; fi_Paused : bool;
  fi_Restarting : bool; fi_DLL : string; fi_HasCmd : bool; fi_WorkDir : string; fi_WorkDirErr : option Error;
  fi_Project : string; fi_Service : string; fi_ComposeDir : string; fi_ConfigFiles : list string;
  fi_Fast : option FastLabels }.
#[global] Instance eta_FastInfo : Eta FastInfo := fun r =>
  mkFastInfo (fi_ID r) (fi_Name r) (fi_Image r) (fi_Platform r) (fi_Running r) (fi_Paused r) (fi_Restarting r) (fi_DLL r)
    (fi_HasCmd r) (fi_WorkDir r) (fi_WorkDirErr r) (fi_Project r) (fi_Service r) (fi_ComposeDir r) (fi_ConfigFiles r) (fi_Fast r).

(** [fastInspectTemplate]'s values, decoded: a label that isn't there is
    null ([None]). *)
Record rawFast := mkRawFast {
  rf_id : string; rf_name : string; rf_image : string; rf_platform : string; rf_running : bool; rf_paused : bool;
  rf_restarting : bool; rf_dll : option string; rf_hasCmd : bool; rf_workDir : option string;
  rf_project : option string; rf_service : option string; rf_composeDir : option string; rf_configFiles : option string;
  rf_fastVersion : option string; rf_fastOverride : option string; rf_fastDLL : option string;
  rf_fastWorkDir : option string; rf_fastProject : option string }.
Definition str (s : option string) : string := default ""%string s.

Definition readEntrypoint (raw : rawFast) (i : FastInfo) : result FastInfo :=
  try i := match rf_dll raw with
           | None => Ok i
           | Some d =>
             if hasControl d then Err (labelError "entrypoint" d)
             else let '(dll, ok) := normalizeDLL d in Ok (if ok : bool then i <| fi_DLL := dll |> else i)
           end in
  let wd := str (rf_workDir raw) in
  if hasControl wd then Err (labelError "working directory" wd)
  else match ValidAppDir wd with
       | Ok _ => Ok (i <| fi_WorkDir := wd |>)
       | Err e => Ok (i <| fi_WorkDirErr := Some e |>)
       end.

Definition readCompose (raw : rawFast) (i : FastInfo) : result FastInfo :=
  let checked (label v : string) (ok : string → bool) := given v (fun v => ensure (ok v) (labelError label v)) in
  try _ := checked labelProject (str (rf_project raw)) (fun p => negb (hasControl p) && is_ok (CheckGroup p)) in
  try _ := checked labelService (str (rf_service raw)) (fun s => negb (hasControl s) && valid_service s) in
  try _ := checked labelWorkingDir (str (rf_composeDir raw)) plainAbsPath in
  try files := splitConfigFiles (str (rf_configFiles raw)) in
  Ok (i <| fi_Project := str (rf_project raw) |> <| fi_Service := str (rf_service raw) |>
        <| fi_ComposeDir := str (rf_composeDir raw) |> <| fi_ConfigFiles := files |>).

Definition basic_labels (version override dll wd project : string) : list (string * string) :=
  [(labelFastVersion, version); (labelFastMode, override); (labelFastDLL, dll); (labelFastWorkDir, wd); (labelFastProject, project)].
Fixpoint check_labels (l : list (string * string)) : result unit :=
  match l with
  | [] => Ok ()
  | (label, v) :: l => if hasControl v || (maxLabel <? slen v) then Err (labelError label v) else check_labels l
  end.
Definition checkFastBasics (version override dll wd project : string) : result unit :=
  try _ := check_labels (basic_labels version override dll wd project) in
  try _ := ensure (negb (override =?s "") && plainAbsPath override) (labelError labelFastMode override) in
  ensure (grammar version is_digit is_digit && (slen version <=? 3)) (labelError labelFastVersion version).

(** ** The project file *)

Section files.
(** [filepath.EvalSymlinks] (its error: [None] for a file that isn't there),
    and [os.Lstat]: a regular file, and its name. *)
Inductive resolution := Resolved (p : string) | NotThere | Unresolvable (msg : string).
Context (EvalSymlinks : string → resolution) (is_regular : string → bool).

Inductive project_result := ProjectFound (abs rel : string) | ProjectGone | ProjectRefused (msg : string).
Definition outside_dir (p : string) : project_result := ProjectRefused (p +:+ ": outside the compose directory").
Definition ResolveProject (root p : string) : project_result :=
  match EvalSymlinks root with
  | NotThere => ProjectGone
  | Unresolvable msg => ProjectRefused ("resolve " +:+ root +:+ ": " +:+ msg)
  | Resolved realRoot =>
    let p := if is_abs p then p else Join realRoot p in
    match EvalSymlinks p with
    | NotThere => ProjectGone
    | Unresolvable msg => ProjectRefused ("resolve " +:+ p +:+ ": " +:+ msg)
    | Resolved abs =>
      if negb (inside_root realRoot abs) then outside_dir abs
      else if negb (is_regular abs) || negb (IsProjectFile (Base abs)) then outside_dir (abs +:+ " is not a project file")
      else match Rel realRoot abs with
           | None => ProjectRefused ("relate " +:+ abs +:+ " to " +:+ realRoot)
           | Some rel => if ValidProjectRel rel then ProjectFound abs rel else outside_dir (rel +:+ ": not a path eyedbg records")
           end
    end
  end.

Definition readFastProject (composeDir project : string) (fl : FastLabels) : result FastLabels :=
  if project =?s "" then Ok fl
  else if negb (ValidProjectRel project) then Err (labelError labelFastProject project)
  else if composeDir =?s "" then Ok fl
  else match ResolveProject composeDir project with
       | ProjectGone => Ok fl
       | ProjectRefused _ => Err (labelError labelFastProject project)
       | ProjectFound abs rel =>
         if rel =?s project then Ok (fl <| fl_Project := rel |> <| fl_ProjectPath := abs |>)
         else Err (labelError labelFastProject project)
       end.

Definition readFast (raw : rawFast) (i : FastInfo) : result FastInfo :=
  let version := str (rf_fastVersion raw) in
  let override := str (rf_fastOverride raw) in
  let dll := str (rf_fastDLL raw) in
  let wd := str (rf_fastWorkDir raw) in
  let project := str (rf_fastProject raw) in
  if (version =?s "") && (override =?s "") && (dll =?s "") && (wd =?s "") && (project =?s "") then Ok i
  else
    try _ := checkFastBasics version override dll wd project in
    let fl := mkFastLabels version override "" "" "" "" "" in
    if negb (version =?s FastVersion) then Ok (i <| fi_Fast := Some fl |>)
    else
      let '(n, ok) := normalizeDLL dll in
      try _ := ensure (ok && (n =?s dll)) (labelError labelFastDLL dll) in
      try _ := ensure (is_ok (ValidAppDir wd)) (labelError labelFastWorkDir wd) in
      let fl := fl <| fl_DLL := dll |> <| fl_WorkDir := wd |> <| fl_ProjectLabel := project |> in
      try fl := readFastProject (fi_ComposeDir i) project fl in
      Ok (i <| fi_Fast := Some fl |>).

(** [parseFastInspect], of the decoded values. *)
Definition parse_fast_info (raw : rawFast) : result FastInfo :=
  let name := trim_prefix "/" (rf_name raw) in
  if negb (isFullID (rf_id raw)) || negb (validImageID (rf_image raw)) || negb (valid_ref name)
     || negb (lower_word (rf_platform raw))
  then Err (unexpectedAnswer "docker inspect" "the container's id, name, image or platform is not in docker's usual form")
  else
    let i := mkFastInfo (rf_id raw) name (rf_image raw) (rf_platform raw) (rf_running raw) (rf_paused raw) (rf_restarting raw)
               "" (rf_hasCmd raw) "" None "" "" "" [] None in
    try i := readEntrypoint raw i in
    try i := readCompose raw i in
    readFast raw i.
(** [InspectFast]; [decode] is the JSON's. *)
Definition InspectFast (decode : string → result rawFast) (e : Engine) (ref : string) : dprog (result FastInfo) :=
  out <- inspectOne e ref fastInspectTemplate ;;
  TRet (try out := out in
        match decode out with
        | Err err => Err (unexpectedAnswer "docker inspect" (e_message err))
        | Ok raw => parse_fast_info raw
        end).
End files.

(** ** The override file *)

Definition OverrideHeader : string :=
  "# Generated by eyedbg compose launch; 'eyedbg compose restore' undoes it. Do not edit.".
Definition OverrideName : string := "override.yml".
Definition maxOverrideServices : Z := 64.

Record FastService := mkFastService {
  sv_Name : string; sv_DLL : string; sv_WorkDir : string; sv_Project : string; sv_Source : string }.
Record overrideMount := mkMount { mt_Type : string; mt_Source : string; mt_Target : string; mt_ReadOnly : bool; mt_CreateHostPath : bool }.
Record overrideService := mkOverrideService {
  os_Entrypoint : list string; os_Command : list string; os_Init : bool; os_Volumes : list overrideMount;
  os_Labels : gmap string string }.
(** The document: compose services by name. *)
Abbreviation overrideDoc := (gmap string overrideService).

(** [composeEscape] *)
Definition dollar : ascii := "$".
Fixpoint composeEscape (s : string) : string :=
  match s with
  | EmptyString => ""
  | String c s => if Ascii.eqb c dollar then String dollar (String dollar (composeEscape s)) else String c (composeEscape s)
  end.

Definition fast_labels (path : string) (s : FastService) : list (string * string) :=
  [(labelFastVersion, FastVersion); (labelFastMode, composeEscape path); (labelFastDLL, composeEscape (sv_DLL s));
   (labelFastWorkDir, composeEscape (sv_WorkDir s)); (labelFastProject, composeEscape (sv_Project s))].
Definition fastOverrideService (path : string) (s : FastService) : overrideService :=
  mkOverrideService ["tail"; "-f"; "/dev/null"]%string [] true
    [mkMount "bind" (composeEscape (sv_Source s)) (composeEscape (sv_WorkDir s)) true false]
    (list_to_map (fast_labels path s)).

Section override.
(** [os.Lstat] of a directory: its identity ([os.SameFile]'s); [None]: not
    there, or no directory. *)
Context (dir_id : string → option Z).

Definition checkFastService (dir : string) (s : FastService) : result Z :=
  try _ := ValidateService (sv_Name s) in
  let bad what v n := refuse ("service " +:+ sv_Name s +:+ ": the " +:+ what +:+ ": " +:+ show v n) in
  try _ := ensure (ValidDLL (sv_DLL s)) (bad "assembly name is not valid" (sv_DLL s) 60%nat) in
  try _ := ValidAppDir (sv_WorkDir s) in
  try _ := ensure (ValidProjectRel (sv_Project s)) (bad "project path is not valid" (sv_Project s) 80%nat) in
  let want := Join (Join dir "services") (sv_Name s) in
  try _ := ensure ((sv_Source s =?s want) && plainAbsPath (sv_Source s))
             (refuse ("service " +:+ sv_Name s +:+ ": the build directory must be " +:+ show want 120 +:+ ", not " +:+ show (sv_Source s) 120)) in
  match dir_id (sv_Source s) with
  | Some id => Ok id
  | None => Err (refuse ("service " +:+ sv_Name s +:+ ": the build directory " +:+ show (sv_Source s) 120 +:+ " is not an existing directory"))
  end.

Definition name_le (a b : FastService) : Prop := string_leb (sv_Name a) (sv_Name b).
#[global] Instance name_le_dec a b : Decision (name_le a b).
Proof. unfold name_le. apply _. Defined.
Definition sortedServices (svcs : list FastService) : list FastService := merge_sort name_le svcs.

Fixpoint override_go (path dir : string) (svcs : list FastService) (seen : list Z) (doc : overrideDoc) : result overrideDoc :=
  match svcs with
  | [] => Ok doc
  | s :: svcs =>
    if bool_decide (is_Some (doc !! sv_Name s)) then Err (refuse ("service " +:+ show (sv_Name s) 40 +:+ " is twice in the override"))
    else
      try info := checkFastService dir s in
      if existsb (Z.eqb info) seen
      then Err (refuse ("service " +:+ show (sv_Name s) 40 +:+ " has the same build directory as another service (names that differ only in case?)"))
      else override_go path dir svcs (seen ++ [info]) (<[sv_Name s := fastOverrideService path s]> doc)
  end.
Definition overrideFor (path : string) (svcs : list FastService) : result overrideDoc :=
  if (Z.of_nat (length svcs) =? 0) || (maxOverrideServices <? Z.of_nat (length svcs))
  then Err (refuse "an override holds 1 to 64 services")
  else override_go path (Dir path) (sortedServices svcs) [] ∅.

(** [WriteOverride]: the file's text; [encode] is the JSON's. Writing it,
    through a temporary file renamed over it, is the file system's. *)
Definition override_path_ok (path : string) : bool :=
  plainAbsPath path && (Base path =?s OverrideName) && (Clean path =?s path).
Definition WriteOverride (encode : overrideDoc → string) (path : string) (svcs : list FastService) : result string :=
  try _ := ensure (override_path_ok path)
             (refuse ("the override path is not a clean absolute path ending in " +:+ OverrideName +:+ ": " +:+ show path 80)) in
  try doc := overrideFor path svcs in
  Ok (OverrideHeader +:+ String newline (encode doc)).
End override.

(** ** Reading it back *)

Definition maxOverrideBytes : Z := 1048576.
Record Recorded := mkRecorded { rc_path : string; rc_labels : gmap string (gmap string string) }.
(** What is at a path: nothing, a regular file with its text, anything else. *)
Inductive found_file := FileMissing | FileText (text : string) | FileOther.
(** [bytes.Cut] at the first newline. *)
Definition cut_first_line (raw : string) : string * string := default (raw, ""%string) (cut_at newline raw).
Definition ReadRecorded (decode : string → option overrideDoc) (path : string) (at_path : found_file) : Recorded * option string :=
  let none := mkRecorded path ∅ in
  match at_path with
  | FileMissing => (none, None)
  | FileOther => (none, Some (path +:+ " is not a regular file of the size eyedbg writes")%string)
  | FileText raw =>
    if maxOverrideBytes <? slen raw then (none, Some (path +:+ " is not a regular file of the size eyedbg writes")%string)
    else
      let '(header, body) := cut_first_line raw in
      if negb (header =?s OverrideHeader) then (none, Some (path +:+ " does not start with eyedbg's override header")%string)
      else match decode body with
           | None => (none, Some (path +:+ " is not eyedbg's override")%string)
           | Some doc => (mkRecorded path (os_Labels <$> doc), None)
           end
  end.

Definition wanted_labels (fl : FastLabels) : list (string * string) :=
  [(labelFastVersion, fl_Version fl); (labelFastMode, fl_Override fl)]
  ++ (if fl_Version fl =?s FastVersion
      then [(labelFastDLL, fl_DLL fl); (labelFastWorkDir, fl_WorkDir fl); (labelFastProject, fl_ProjectLabel fl)] else []).
Definition label_is (l : gmap string string) (w : string * string) : bool := bool_decide (l !! w.1 = Some (composeEscape w.2)).
Definition Corroborates (rec : Recorded) (service : string) (fl : option FastLabels) : bool :=
  match rc_labels rec !! service, fl with
  | Some l, Some fl =>
    negb (rc_path rec =?s "") && (fl_Override fl =?s rc_path rec) && forallb (label_is l) (wanted_labels fl)
  | _, _ => false
  end.

(** [OverrideAt]: whether something is at the path, and whether it is an
    override eyedbg wrote. [start]: the first bytes of the file opened, as
    many as the header's line, if they could be read of a regular file that
    is the one at the path. *)
Definition OverrideAt (path : string) (at_path : found_file) (start : option string) : bool * bool :=
  if negb (plainAbsPath path) then (true, false)
  else
    match at_path with
    | FileMissing => (false, false)
    | FileOther => (true, false)
    | FileText _ =>
      if negb (Base path =?s OverrideName) then (true, false)
      else (true, bool_decide (start = Some (OverrideHeader +:+ String newline "")))
    end.

(** * Fast mode's safety and its override's corroboration

    Which directories a build may be mounted over; what a container's labels
    can make eyedbg keep; and that the labels which match an override are
    those of a service it was written for. *)

Open Scope Z_scope.

(** ** Directories a build is mounted over *)

Lemma name_char_facts c : isNameChar c = true → byte_of c < 128 ∧ Ascii.eqb slash c = false.
Proof. destruct c as [[] [] [] [] [] [] [] []]; vm_compute; intros; split; congruence. Qed.
Definition path_char (c : ascii) : bool := isNameChar c || Ascii.eqb c slash.
Lemma path_char_low c : path_char c = true → byte_of c < 128.
Proof. destruct c as [[] [] [] [] [] [] [] []]; vm_compute; intros; congruence. Qed.

Lemma ascii_encodes c : byte_of c < 128 → encodes (String c "") (byte_of c).
Proof.
  intros Hc. exists c, ""%string. split_and!; [done|apply lead_start; lia|done| |right; unfold rune_error; lia|cbn; lia].
  intros rest. unfold decode_rune. destruct (Z.ltb_spec (byte_of c) 128); [done|lia].
Qed.
Lemma ascii_runes p s : (∀ c, p c = true → byte_of c < 128) → all_bytes p s = true → ∃ l, runes_of s l.
Proof.
  intros Hp. induction s as [|c s IH]; cbn; [exists []; constructor|]. intros [Hc Hs]%andb_true_iff.
  destruct (IH Hs) as [l Hl]. exists ((byte_of c, String c "") :: l). apply (ro_cons (String c "")); [|done].
  by apply ascii_encodes, Hp.
Qed.
Lemma ascii_valid p s : (∀ c, p c = true → byte_of c < 128) → all_bytes p s = true → valid_utf8 s = true.
Proof. intros Hp Hs. destruct (ascii_runes p s Hp Hs) as [l Hl]. by eapply runes_of_valid. Qed.

Lemma all_bytes_weaken p q s : (∀ c, p c = true → q c = true) → all_bytes p s = true → all_bytes q s = true.
Proof. intros H. induction s as [|c s IH]; cbn; [done|]. intros [? ?]%andb_true_iff. apply andb_true_iff; auto. Qed.
Lemma grammar_all s p : grammar s p p = true → all_bytes p s = true.
Proof. by destruct s. Qed.
Lemma segment_plain s : app_segment s = true → plain_elem s = true.
Proof.
  unfold app_segment, plain_elem. intros [H Hg]%andb_true_iff. rewrite H. cbn. apply negb_true_iff.
  apply (all_bytes_contains isNameChar); [by apply grammar_all|done].
Qed.
Lemma segments_path l : forallb app_segment l = true → all_bytes path_char (join "/" l) = true.
Proof.
  induction l as [|s l IH]; [done|]. cbn [forallb]. intros [Hs Hl]%andb_true_iff.
  assert (Hp : all_bytes path_char s = true).
  { apply andb_true_iff in Hs as [_ Hg%grammar_all]. revert Hg. apply all_bytes_weaken. intros c Hc. unfold path_char. by rewrite Hc. }
  destruct l as [|t l]; [done|]. change (join "/" (s :: t :: l)) with (s +:+ "/" +:+ join "/" (t :: l)).
  by rewrite !all_bytes_app, Hp, IH.
Qed.
Lemma forallb_Forall_true {A} (p : A → bool) l : forallb p l = true ↔ Forall (fun x => p x = true) l.
Proof. rewrite forallb_forall, Forall_forall. by setoid_rewrite list_elem_of_In. Qed.

(** The directories [ValidAppDir] takes: below the root, of one to four
    segments of name characters, not in one the system or eyedbg has. *)
Definition app_dir (segments : list string) : Prop :=
  (1 ≤ length segments ≤ 4)%nat ∧ forallb app_segment segments = true ∧
  reservedTopDir (hd ""%string segments) = false ∧ has_prefix ".eyedbg-" (hd ""%string segments) = false.

(** [ValidAppDir] takes a directory exactly when it is an absolute, clean
    path of one to four segments of name characters, of at most 255 bytes,
    whose first one is no system directory nor eyedbg's own. *)
Theorem ValidAppDir_spec dir :
  ValidAppDir dir = Ok () ↔ slen dir ≤ maxAppDirLen ∧ ∃ segments, dir = "/" +:+ join "/" segments ∧ app_dir segments.
Proof.
  split.
  - unfold ValidAppDir. destruct (dir =?s ""); [done|]. destruct (dir =?s "/"); [done|].
    destruct (Z.ltb_spec maxAppDirLen (slen dir)) as [|Hlen]; [done|]. cbn [orb].
    destruct (valid_utf8 dir); [|done]. cbn [negb]. destruct (is_abs dir) eqn:Ha; [|done]. cbn [negb orb].
    destruct (Clean dir =?s dir); [|done]. cbn [negb].
    destruct (Z.ltb_spec maxAppDirSegments (Z.of_nat (length (split_on slash (sdrop 1 dir))))) as [|Hseg]; [done|].
    destruct (forallb _ _) eqn:Hf; [|done]. cbn [negb]. destruct (_ || _) eqn:Ht; [done|]. intros _.
    apply orb_false_iff in Ht as [Hr He]. split; [done|]. exists (split_on slash (sdrop 1 dir)). split.
    + apply has_prefix_spec in Ha as [r ->]. change (sdrop 1 ("/" +:+ r)) with (sdrop 0 r).
      replace (sdrop 0 r) with r by (by destruct r). by rewrite (join_split slash).
    + split_and!; [|unfold maxAppDirSegments in Hseg; lia|done|done|done].
      pose proof (split_on_nonempty slash (sdrop 1 dir)). destruct (split_on _ _); [done|cbn; lia].
  - intros (Hlen & segs & -> & [Hn Hn'] & Hf & Hr & He). unfold ValidAppDir.
    assert (Hp : Forall (fun x => plain_elem x = true) segs).
    { eapply Forall_impl; [by apply forallb_Forall_true|]. apply segment_plain. }
    assert (Hne : segs ≠ []) by (by intros ->; cbn in Hn; lia).
    destruct (plain_elem_head segs Hp Hne) as [Hj _].
    destruct (String.eqb_spec ("/" +:+ join "/" segs) "/") as [E|_]; [by injection E|].
    destruct (Z.ltb_spec maxAppDirLen (slen ("/" +:+ join "/" segs))); [lia|]. cbn [orb].
    rewrite (ascii_valid path_char); [|apply path_char_low|by apply (segments_path segs)].
    rewrite Clean_rooted, elems_of_rooted by done. rewrite String.eqb_refl. cbn [negb orb].
    change (sdrop 1 ("/" +:+ join "/" segs)) with (sdrop 0 (join "/" segs)).
    replace (sdrop 0 (join "/" segs)) with (join "/" segs) by (by destruct (join "/" segs)).
    rewrite split_join; [|done|by apply plain_no_slash].
    destruct (Z.ltb_spec maxAppDirSegments (Z.of_nat (length segs))) as [Hl|_]; [unfold maxAppDirSegments in Hl; lia|].
    by rewrite Hf, Hr, He.
Qed.

(** ** What labels can make eyedbg keep *)

Section labels.
Context (EvalSymlinks : string → resolution) (is_regular : string → bool).
Abbreviation parsed_info := (parse_fast_info EvalSymlinks is_regular).

(** *** The grammars, in letters

    A text of given characters, and one that starts with others. *)
Definition over (chars s : string) : Prop := ∀ c, contains_byte c s = true → contains_byte c chars = true.
Definition word (first rest s : string) : Prop := ∃ c t, s = String c t ∧ contains_byte c first = true ∧ over rest t.
Definition digits : string := "0123456789".
Definition lower_digits : string := digits +:+ "abcdefghijklmnopqrstuvwxyz".
Definition alnum : string := lower_digits +:+ "ABCDEFGHIJKLMNOPQRSTUVWXYZ".
Definition name_chars : string := alnum +:+ "_.-".
Definition hex_text (lo hi : Z) (s : string) : Prop := lo ≤ slen s ≤ hi ∧ over (digits +:+ "abcdef") s.
Definition plain_text (s : string) : Prop := valid_utf8 s = true ∧ Forall (fun r => is_control r = false) (runes s).

Definition container_name (s : string) : Prop := hex_text 12 64 s ∨ (slen s ≤ 128 ∧ word alnum name_chars s).
Definition image_name (s : string) : Prop := hex_text 12 64 s ∨ ∃ h, s = "sha256:" +:+ h ∧ hex_text 64 64 h.
Definition project_name (s : string) : Prop := slen s ≤ 63 ∧ word lower_digits (lower_digits +:+ "_-") s.
Definition service_name (s : string) : Prop := slen s ≤ 63 ∧ word alnum name_chars s.
Definition host_path (s : string) : Prop := slen s ≤ 4096 ∧ plain_text s ∧ ∃ t, s = "/" +:+ t.
Definition assembly_name (s : string) : Prop := slen s ≤ 255 ∧ ∃ b, s = b +:+ ".dll" ∧ b ≠ ""%string ∧ over name_chars b.
(** Below the root, of one to four names; not in a directory the system or
    eyedbg has. *)
Definition system_dirs : list string :=
  ["bin"; "boot"; "dev"; "etc"; "lib"; "lib32"; "lib64"; "libx32"; "proc"; "run"; "sbin"; "sys"; "tmp"; "usr"; "var"]%string.
Definition build_dir (s : string) : Prop :=
  slen s ≤ 255 ∧ ∃ names, s = "/" +:+ join "/" names ∧ (1 ≤ length names ≤ 4)%nat ∧
    Forall (fun n => n ≠ ""%string ∧ n ≠ "."%string ∧ n ≠ ".."%string ∧ over name_chars n) names ∧
    ∀ top, head names = Some top → (top ∉ system_dirs) ∧ ∀ t, top ≠ ".eyedbg-" +:+ t.
(** A relative path, to a project file: nothing in it leads out. *)
Definition project_path (s : string) : Prop :=
  slen s ≤ 1024 ∧ plain_text s ∧ contains_byte "\" s = false ∧
  ∃ es file base ext, s = join "/" (es ++ [file]) ∧ Forall (fun x => plain_elem x = true) (es ++ [file]) ∧
    file = base +:+ ext ∧ base ≠ ""%string ∧ (ext ∈ [".csproj"; ".fsproj"; ".vbproj"]%string).

(** A project file named by a label: a regular one, which is what the
    label's path below the compose directory leads to, at that very path
    once both are resolved. *)
Definition below (root p : string) : Prop := (∃ t, p = root +:+ "/" +:+ t) ∨ ∃ r t, root = r +:+ "/" ∧ p = root +:+ t.
Definition project_inside (composeDir : string) (fl : FastLabels) : Prop :=
  fl_Project fl = fl_ProjectLabel fl ∧ fl_Project fl ≠ ""%string ∧
  ∃ root, EvalSymlinks composeDir = Resolved root ∧ EvalSymlinks (Join root (fl_ProjectLabel fl)) = Resolved (fl_ProjectPath fl) ∧
    below root (fl_ProjectPath fl) ∧ is_regular (fl_ProjectPath fl) = true ∧ Rel root (fl_ProjectPath fl) = Some (fl_Project fl).
Definition empty_or (ok : string → Prop) (s : string) : Prop := s = ""%string ∨ ok s.
Definition safe_labels (composeDir : string) (fl : FastLabels) : Prop :=
  host_path (fl_Override fl) ∧ (slen (fl_Version fl) ≤ 3 ∧ word digits digits (fl_Version fl)) ∧
  if fl_Version fl =?s "1"
  then assembly_name (fl_DLL fl) ∧ build_dir (fl_WorkDir fl) ∧ empty_or project_path (fl_ProjectLabel fl) ∧
       ((fl_Project fl = ""%string ∧ fl_ProjectPath fl = ""%string) ∨ project_inside composeDir fl)
  else fl_DLL fl = ""%string ∧ fl_WorkDir fl = ""%string ∧ fl_ProjectLabel fl = ""%string ∧
       fl_Project fl = ""%string ∧ fl_ProjectPath fl = ""%string.
(** What nothing read of a container's labels touches. *)
Definition names_of (i : FastInfo) : string * string * string * string := (fi_ID i, fi_Name i, fi_Image i, fi_Platform i).
Definition safe_names (i : FastInfo) : Prop :=
  hex_text 64 64 (fi_ID i) ∧ container_name (fi_Name i) ∧ image_name (fi_Image i) ∧ word lower_digits lower_digits (fi_Platform i).
Definition safe_entry (i : FastInfo) : Prop :=
  empty_or assembly_name (fi_DLL i) ∧ (fi_WorkDirErr i = None → build_dir (fi_WorkDir i)).
Definition safe_compose (i : FastInfo) : Prop :=
  empty_or project_name (fi_Project i) ∧ empty_or service_name (fi_Service i) ∧
  empty_or host_path (fi_ComposeDir i) ∧ Forall host_path (fi_ConfigFiles i).

(** *** What passes the code's checks is in them *)

(** The bytes a predicate takes, decided by going through all. *)
Lemma all_over p chars s : (∀ c, p c = true → contains_byte c chars = true) → all_bytes p s = true → over chars s.
Proof.
  intros H Hs c. induction s as [|d s IH]; [done|]. cbn in Hs |- *. apply andb_true_iff in Hs as [Hd Hs].
  destruct (Ascii.eqb_spec c d) as [->|]; [by intros _; apply H|by apply IH].
Qed.
Ltac all_bytes_of := let c := fresh in intros c; destruct c as [[] [] [] [] [] [] [] []]; vm_compute; congruence.
Lemma is_hex_char c : isHex c = true → contains_byte c (digits +:+ "abcdef") = true.
Proof. revert c. all_bytes_of. Qed.
Lemma is_alnum_char c : isAlnum c = true → contains_byte c alnum = true.
Proof. revert c. all_bytes_of. Qed.
Lemma is_name_char c : isNameChar c = true → contains_byte c name_chars = true.
Proof. revert c. all_bytes_of. Qed.
Lemma is_lower_char c : isLowerDigit c = true → contains_byte c lower_digits = true.
Proof. revert c. all_bytes_of. Qed.
Lemma is_digit_char c : is_digit c = true → contains_byte c digits = true.
Proof. revert c. all_bytes_of. Qed.
Lemma is_lower_alnum c : isLowerAlnum (byte_of c) = true → contains_byte c lower_digits = true.
Proof. revert c. all_bytes_of. Qed.
Lemma is_project_char c : isLowerAlnum (byte_of c) || Ascii.eqb c "_" || Ascii.eqb c "-" = true → contains_byte c (lower_digits +:+ "_-") = true.
Proof. revert c. all_bytes_of. Qed.
Lemma grammar_word p q first rest s :
  (∀ c, p c = true → contains_byte c first = true) → (∀ c, q c = true → contains_byte c rest = true) →
  grammar s p q = true → word first rest s.
Proof. intros Hp Hq (c & t & -> & Hc & Ht)%grammar_first. exists c, t. split_and!; [done|by apply Hp|by eapply all_over]. Qed.
Lemma hex_id_text s : isHexID s = true → hex_text 12 64 s.
Proof.
  unfold isHexID. intros [[Hl%Z.leb_le Hh%Z.leb_le]%andb_true_iff Ha]%andb_true_iff. split; [done|]. eapply all_over; [apply is_hex_char|done].
Qed.
Lemma full_id_text s : isFullID s = true → hex_text 64 64 s.
Proof.
  unfold isFullID. intros [Hl%Z.eqb_eq Hh%hex_id_text]%andb_true_iff. change maxFullIDLen with 64 in Hl. split; [lia|apply Hh].
Qed.
Lemma ref_text s : valid_ref s = true → container_name s.
Proof.
  unfold valid_ref. intros [H%hex_id_text|[Hl%Z.leb_le Hg]%andb_true_iff]%orb_true_iff; [by left|right]. split; [done|].
  eapply grammar_word; [apply is_alnum_char|apply is_name_char|done].
Qed.
Lemma image_text s : validImageID s = true → image_name s.
Proof.
  unfold validImageID. destruct (cut_prefix _ s) as [h|] eqn:E; [|intros H; left; by apply hex_id_text].
  intros H. right. apply cut_prefix_Some in E as ->. exists h. split; [done|by apply full_id_text].
Qed.
Lemma service_text s : valid_service s = true → service_name s.
Proof.
  unfold valid_service. intros [Hl%Z.leb_le Hg]%andb_true_iff. split; [done|]. eapply grammar_word; [apply is_alnum_char|apply is_name_char|done].
Qed.
Lemma group_text s : is_ok (CheckGroup s) = true → project_name s.
Proof.
  unfold CheckGroup. destruct (_ && _) eqn:E; [|done]. intros _. apply andb_true_iff in E as [[[_ Hl%Z.leb_le]%andb_true_iff Hh]%andb_true_iff Ha].
  split; [done|]. destruct s as [|c t]; [done|]. cbn [all_bytes] in Ha. apply andb_true_iff in Ha as [_ Ha]. exists c, t.
  split_and!; [done|by apply is_lower_alnum|by eapply all_over; [apply is_project_char|]].
Qed.
Lemma control_text s : hasControl s = false → plain_text s.
Proof.
  unfold hasControl. intros [Hv%negb_false_iff Hc]%orb_false_iff. split; [done|]. apply Forall_forall. intros r Hr.
  destruct (is_control r) eqn:E; [|done]. rewrite <- Hc. symmetry. apply existsb_exists. exists r. by rewrite <- list_elem_of_In.
Qed.
Lemma abs_text s : plainAbsPath s = true → host_path s.
Proof.
  unfold plainAbsPath. intros [[[_ Hl%Z.leb_le]%andb_true_iff Hc%negb_true_iff]%andb_true_iff Ha]%andb_true_iff.
  split_and!; [done|by apply control_text|]. by apply has_prefix_spec in Ha.
Qed.
Lemma cut_suffix_split p s b : cut_suffix p s = Some b → s = b +:+ p.
Proof.
  unfold cut_suffix, has_suffix. destruct (_ && _) eqn:E; [|done]. intros [= <-]. apply andb_true_iff in E as [_ E%String.eqb_eq].
  rewrite <- E at 2. by rewrite stake_sdrop.
Qed.
Lemma has_suffix_split p s : has_suffix p s = true → s = stake (String.length s - String.length p) s +:+ p.
Proof. intros H. apply cut_suffix_split. unfold cut_suffix. by rewrite H. Qed.
Lemma dll_text s : ValidDLL s = true → assembly_name s.
Proof.
  unfold ValidDLL. destruct (cut_suffix ".dll" s) as [b|] eqn:E; [|done]. apply cut_suffix_split in E.
  intros [[Hb%negb_true_iff%String.eqb_neq Hl%Z.leb_le]%andb_true_iff Hg%grammar_all]%andb_true_iff. split; [done|].
  exists b. split_and!; [done|done|]. eapply all_over; [apply is_name_char|done].
Qed.
Lemma dir_text s : ValidAppDir s = Ok () → build_dir s.
Proof.
  intros (Hl & segs & -> & Hn & Hf & Hr & He)%ValidAppDir_spec. split; [done|]. exists segs. split_and!; [done|lia|lia| |].
  - apply forallb_Forall_true in Hf. eapply Forall_impl; [exact Hf|]. intros n. unfold app_segment.
    rewrite andb_true_iff, negb_true_iff, !orb_false_iff, !String.eqb_neq. intros [[[? ?] ?] Hg%grammar_all].
    split_and!; [done..|]. eapply all_over; [apply is_name_char|done].
  - intros top Ht. destruct segs as [|x segs]; [done|]. injection Ht as ->. cbn [hd] in *. split.
    + intros Hin. assert (reservedTopDir top = true); [|congruence]. apply existsb_exists. exists top. split; [by apply list_elem_of_In|apply String.eqb_refl].
    + intros t ->. by rewrite has_prefix_app in He.
Qed.
Lemma rel_text s : ValidProjectRel s = true → project_path s.
Proof.
  unfold ValidProjectRel, IsLocal. rewrite andb_true_iff, negb_true_iff, !orb_false_iff, !negb_false_iff, !andb_true_iff, !negb_true_iff, orb_false_iff.
  intros [[[[[[[He Hl%Z.ltb_ge] Hc] Hb] Ha] Hcl%String.eqb_eq] Hf] [_ [Hdd Hdp]]].
  split_and!; [done|by apply control_text|done|]. rewrite Hcl in *. apply String.eqb_neq in Hdd.
  destruct (clean_relative s Ha Hcl Hdd Hdp) as [->|(es & Hne & Hes & ->)]; [done|]. rewrite Base_join in Hf by done.
  destruct (exists_last Hne) as (front & file & ->). rewrite List.last_last in Hf. unfold IsProjectFile in Hf.
  apply existsb_exists in Hf as (ext & Hin & [Hlt%Z.ltb_lt Hs%has_suffix_split]%andb_true_iff).
  exists front, file, (stake (String.length file - String.length ext) file), ext. split_and!; [done|done|done| |by apply list_elem_of_In].
  intros E. rewrite E in Hs. cbn in Hs. rewrite Hs in Hlt. lia.
Qed.
Lemma inside_below root p : inside_root root p = true → below root p.
Proof.
  unfold inside_root. destruct (has_suffix "/" root) eqn:E; intros [t ->]%has_prefix_spec.
  - right. apply has_suffix_split in E. eexists _, t. split; [exact E|done].
  - left. exists t. by rewrite string_app_assoc.
Qed.

Lemma given_checked s ok e : given s (fun v => ensure (ok v) e) = Ok () → empty_or (fun v => ok v = true) s.
Proof. unfold given, empty_or. destruct (String.eqb_spec s ""); [by left|]. destruct (ok s); [by right|done]. Qed.
Lemma resolved_project root p abs rel :
  ResolveProject EvalSymlinks is_regular root p = ProjectFound abs rel → is_abs p = false →
  ∃ real, EvalSymlinks root = Resolved real ∧ EvalSymlinks (Join real p) = Resolved abs ∧ inside_root real abs = true ∧
    is_regular abs = true ∧ Rel real abs = Some rel.
Proof.
  unfold ResolveProject, outside_dir. intros H Hp. rewrite Hp in H. revert H. destruct (EvalSymlinks root) as [real| |]; [|done..].
  destruct (EvalSymlinks (Join real p)) as [a| |] eqn:Ep; [|done..]. destruct (inside_root real a) eqn:Hin; [|done]. cbn [negb].
  destruct (negb (is_regular a) || negb (IsProjectFile (Base a))) eqn:Hf; [done|].
  apply orb_false_iff in Hf as [Hr%negb_false_iff _].
  destruct (Rel real a) as [r|] eqn:Hrel; [|done]. destruct (ValidProjectRel r); [|done]. intros [= <- <-].
  exists real. by split_and!.
Qed.
Lemma rel_not_abs s : ValidProjectRel s = true → is_abs s = false.
Proof. unfold ValidProjectRel, IsLocal. rewrite !andb_true_iff, !negb_true_iff. tauto. Qed.
Lemma read_project_safe dir project fl fl' :
  fl_ProjectLabel fl = project →
  readFastProject EvalSymlinks is_regular dir project fl = Ok fl' →
  empty_or project_path project ∧
  (fl' = fl ∨ (∃ abs, fl' = fl <| fl_Project := project |> <| fl_ProjectPath := abs |> ∧ project_inside dir fl')).
Proof.
  intros Hl. unfold readFastProject. destruct (String.eqb_spec project "") as [->|Hne]; [intros [= <-]; split; by left|].
  destruct (ValidProjectRel project) eqn:Hv; cbn [negb]; [|done]. assert (Hp : empty_or project_path project) by (right; by apply rel_text).
  destruct (dir =?s ""); [intros [= <-]; split; [done|by left]|].
  destruct (ResolveProject _ _ dir project) as [abs rel| |msg] eqn:E; [|intros [= <-]; split; [done|by left]|done].
  destruct (String.eqb_spec rel project) as [->|]; [|done]. intros [= <-]. split; [done|]. right. exists abs. split; [done|].
  apply resolved_project in E as (real & H1 & H2 & H3%inside_below & H4 & H5); [|by apply rel_not_abs].
  split; [done|]. split; [done|]. exists real. cbn. rewrite Hl. by split_and!.
Qed.

Lemma basics_safe version override dll wd project :
  checkFastBasics version override dll wd project = Ok () → host_path override ∧ slen version ≤ 3 ∧ word digits digits version.
Proof.
  unfold checkFastBasics. destruct (check_labels _); cbn; [|done]. destruct (override =?s ""); [done|].
  destruct (plainAbsPath override) eqn:Ea; cbn; [|done]. intros H. split; [by apply abs_text|].
  destruct (grammar version is_digit is_digit) eqn:Eg; [|done]. destruct (Z.leb_spec (slen version) 3); [|done]. split; [done|].
  eapply grammar_word; [apply is_digit_char|apply is_digit_char|done].
Qed.
Lemma entry_safe raw i i' :
  readEntrypoint raw i = Ok i' → fi_DLL i = ""%string →
  names_of i' = names_of i ∧ safe_entry i' ∧ fi_Fast i' = fi_Fast i.
Proof.
  unfold readEntrypoint. intros H Hd.
  assert (Hi : ∃ j, (names_of j = names_of i ∧ fi_Fast j = fi_Fast i ∧ empty_or assembly_name (fi_DLL j)) ∧
                 (if hasControl (str (rf_workDir raw)) then Err (labelError "working directory" (str (rf_workDir raw)))
                  else match ValidAppDir (str (rf_workDir raw)) with
                       | Ok _ => Ok (j <| fi_WorkDir := str (rf_workDir raw) |>)
                       | Err e => Ok (j <| fi_WorkDirErr := Some e |>)
                       end) = Ok i').
  { destruct (rf_dll raw) as [d|]; cbn in H; [|exists i; split; [split_and!; [done|done|by left]|done]].
    destruct (hasControl d); [done|]. unfold normalizeDLL in H.
    destruct (ValidDLL (trim_prefix "./" d)) eqn:Hv; cbn in H; eexists; (split; [|exact H]);
      split_and!; try done; [right; by apply dll_text|by left]. }
  destruct Hi as (j & (Hn & Hf & Hdll) & Hj). destruct (hasControl (str (rf_workDir raw))); [done|].
  destruct (ValidAppDir (str (rf_workDir raw))) as [[]|e] eqn:Hw; injection Hj as <-; split_and!; try done.
  split; [done|]. intros _. by apply dir_text.
Qed.
Lemma compose_safe raw i i' :
  readCompose raw i = Ok i' →
  names_of i' = names_of i ∧ safe_compose i' ∧ fi_Fast i' = fi_Fast i ∧ fi_DLL i' = fi_DLL i ∧ fi_WorkDir i' = fi_WorkDir i
  ∧ fi_WorkDirErr i' = fi_WorkDirErr i.
Proof.
  unfold readCompose. destruct (given _ _) as [[]|] eqn:H1; cbn; [|done]. destruct (given (str (rf_service raw)) _) as [[]|] eqn:H2; cbn; [|done].
  destruct (given (str (rf_composeDir raw)) _) as [[]|] eqn:H3; cbn; [|done].
  destruct (splitConfigFiles _) as [files|] eqn:H4; cbn; [|done]. intros [= <-].
  apply (given_checked _ (fun p => negb (hasControl p) && is_ok (CheckGroup p))) in H1.
  apply (given_checked _ (fun s => negb (hasControl s) && valid_service s)) in H2.
  apply (given_checked _ plainAbsPath) in H3. split_and!; try done. split_and!; cbn.
  - destruct H1 as [H|[_ H]%andb_true_iff]; [by left|right; by apply group_text].
  - destruct H2 as [H|[_ H]%andb_true_iff]; [by left|right; by apply service_text].
  - destruct H3 as [H|H]; [by left|right; by apply abs_text].
  - unfold splitConfigFiles in H4. destruct (_ =?s ""); [by simplify_eq; constructor|]. destruct (_ || _) eqn:E; [done|].
    apply orb_false_iff in E as [_ E%negb_false_iff]. simplify_eq. apply forallb_Forall_true in E.
    eapply Forall_impl; [exact E|]. apply abs_text.
Qed.

(** The version of labels made from others is theirs. *)
Ltac keep_version Hv :=
  match type of Hv with String.eqb ?version _ = _ =>
    match goal with |- context [fl_Version ?x] => change (fl_Version x) with version; rewrite Hv end
  end.
Lemma fast_safe raw i i' :
  readFast EvalSymlinks is_regular raw i = Ok i' → fi_Fast i = None →
  (∃ fast, i' = i <| fi_Fast := fast |>) ∧ (∀ fl, fi_Fast i' = Some fl → safe_labels (fi_ComposeDir i) fl).
Proof.
  unfold readFast. set (version := str (rf_fastVersion raw)). set (override := str (rf_fastOverride raw)).
  set (dll := str (rf_fastDLL raw)). set (wd := str (rf_fastWorkDir raw)). set (project := str (rf_fastProject raw)).
  intros H Hn. destruct (_ && _ && _ && _ && _).
  { injection H as <-. split; [exists None; destruct i; cbn in *; by subst|]. by rewrite Hn. }
  destruct (checkFastBasics _ _ _ _ _) as [[]|] eqn:Hb; cbn in H; [|done]. apply basics_safe in Hb as [Ho Hver].
  change FastVersion with "1"%string in H. destruct (String.eqb version "1") eqn:Hv; cbn in H.
  - destruct (ensure (ValidDLL _ && _) _) as [[]|] eqn:Hd; cbn in H; [|done].
    destruct (ensure (is_ok (ValidAppDir wd)) _) as [[]|] eqn:Hw; cbn in H; [|done].
    destruct (readFastProject _ _ _ _ _) as [fl'|] eqn:Hp; cbn in H; [|done]. injection H as <-. split; [by eexists|].
    intros fl [= <-].
    assert (Hdll : ValidDLL dll = true).
    { destruct (ValidDLL (trim_prefix "./" dll)) eqn:E; [|done]. cbn in Hd.
      destruct (String.eqb_spec (trim_prefix "./" dll) dll) as [Eq|]; [by rewrite <- Eq|done]. }
    assert (Hwd : ValidAppDir wd = Ok ()) by (destruct (ValidAppDir wd) as [[]|]; done). apply dll_text in Hdll. apply dir_text in Hwd.
    apply read_project_safe in Hp as [Hlab [->|(abs & -> & Hin)]]; [| |done]; (split; [done|]; split; [exact Hver|]);
      keep_version Hv; (split_and!; [done|done|exact Hlab|]); [by left|by right].
  - injection H as <-. split; [by eexists|]. intros fl [= <-]. split; [done|]. split; [exact Hver|]. by keep_version Hv.
Qed.

(** C25: whatever a container's inspection says, each value [InspectFast]
    keeps of it is in its grammar: the container's own names, the entrypoint's
    assembly and the directory a build is mounted over, the compose project's
    names and paths, and of the fast-mode labels the version's digits, an
    absolute override path and, of eyedbg's own version only, an assembly, a
    directory and a project's relative path, which is taken for a project
    only when it leads to that very path, regular and inside the compose
    directory, both resolved. *)
Theorem fast_info_safe raw i :
  parsed_info raw = Ok i →
  safe_names i ∧ safe_entry i ∧ safe_compose i ∧ ∀ fl, fi_Fast i = Some fl → safe_labels (fi_ComposeDir i) fl.
Proof.
  unfold parse_fast_info. destruct (negb _ || _ || _ || _) eqn:Hnames; [done|].
  apply orb_false_iff in Hnames as [[[H1 H2]%orb_false_iff H3]%orb_false_iff H4]. rewrite !negb_false_iff in *.
  set (i0 := mkFastInfo _ _ _ _ _ _ _ _ _ _ _ _ _ _ _ _).
  destruct (readEntrypoint raw i0) as [i1|] eqn:E1; cbn; [|done]. apply entry_safe in E1 as (Hn1 & He & Hf1); [|done].
  destruct (readCompose raw i1) as [i2|] eqn:E2; cbn; [|done].
  apply compose_safe in E2 as (Hn2 & Hc & Hf2 & Hd & Hw & Hwe). intros E3.
  apply fast_safe in E3 as [[fast ->] Hl]; [|by rewrite Hf2, Hf1].
  assert (Hn : names_of i2 = names_of i0) by congruence. unfold names_of in Hn. cbn in Hn. injection Hn as N1 N2 N3 N4.
  split_and!; [|by unfold safe_entry in *; cbn; rewrite Hd, Hw, Hwe|exact Hc|exact Hl].
  unfold safe_names. cbn. rewrite N1, N2, N3, N4. split_and!; [by apply full_id_text|by apply ref_text|by apply image_text|].
  eapply grammar_word; [apply is_lower_char|apply is_lower_char|exact H4].
Qed.
End labels.

(** The labels of a service in /app, its project below /src. *)
Definition sample_id : string := "0123456789012345678901234567890123456789012345678901234567890123".
Definition sample_raw : rawFast :=
  mkRawFast sample_id "/shop-web-1" sample_id "linux" true false false (Some "tail"%string) true (Some "/app"%string)
    (Some "shop"%string) (Some "web"%string) (Some "/src"%string) (Some "/src/compose.yaml"%string)
    (Some "1"%string) (Some "/home/u/override.yml"%string) (Some "web.dll"%string) (Some "/app"%string) (Some "web/web.csproj"%string).
Definition sample_labels : FastLabels :=
  mkFastLabels "1" "/home/u/override.yml" "web.dll" "/app" "web/web.csproj" "/src/web/web.csproj" "web/web.csproj".
Example fast_info_safe_witness : ∃ i,
  parse_fast_info Resolved (fun _ => true) sample_raw = Ok i ∧ fi_Fast i = Some sample_labels ∧ safe_names i
  ∧ safe_labels Resolved (fun _ => true) (fi_ComposeDir i) sample_labels.
Proof.
  eexists. split; [vm_compute; reflexivity|]. split; [vm_compute; reflexivity|].
  destruct (fast_info_safe Resolved (fun _ => true) sample_raw _ ltac:(vm_compute; reflexivity)) as (Hn & _ & _ & Hl).
  split; [exact Hn|]. apply Hl. vm_compute. reflexivity.
Defined.

(** ** The override's labels, read back *)

Lemma composeEscape_inj : Inj (=) (=) composeEscape.
Proof.
  intros s. induction s as [|c s IH]; intros [|d t]; cbn; [done|by destruct (Ascii.eqb d dollar)|by destruct (Ascii.eqb c dollar)|].
  destruct (Ascii.eqb_spec c dollar) as [->|], (Ascii.eqb_spec d dollar) as [->|]; intros [= ?]; simplify_eq; f_equal; auto.
Qed.
Lemma label_keys path s : NoDup (fast_labels path s).*1.
Proof. apply (bool_decide_unpack _). vm_compute. exact I. Qed.
Lemma label_at path s label v :
  (label, v) ∈ fast_labels path s → (list_to_map (fast_labels path s) : gmap string string) !! label = Some v.
Proof. apply elem_of_list_to_map_1, label_keys. Qed.
Lemma label_matches path s label v w :
  (label, composeEscape v) ∈ fast_labels path s → label_is (list_to_map (fast_labels path s)) (label, w) = true ↔ w = v.
Proof.
  intros Hin. unfold label_is, fst, snd. rewrite (label_at path s _ _ Hin), bool_decide_eq_true.
  split; [by intros [= H%composeEscape_inj]|by intros ->].
Qed.

Section override.
Context (dir_id : string → option Z).

Lemma override_go_entries path dir svcs seen doc doc' :
  override_go dir_id path dir svcs seen doc = Ok doc' → ∀ name o,
  doc' !! name = Some o ↔ doc !! name = Some o ∨ ∃ s, s ∈ svcs ∧ sv_Name s = name ∧ o = fastOverrideService path s.
Proof.
  revert seen doc. induction svcs as [|s svcs IH]; cbn; intros seen doc.
  { intros [= <-] name o. split; [by left|]. by intros [H|(s & Hs%elem_of_nil & _)]. }
  case_bool_decide as Hdup; [done|]. destruct (checkFastService dir_id dir s) as [info|]; cbn; [|done].
  destruct (existsb _ seen); [done|]. intros H name o. rewrite (IH _ _ H). destruct (decide (name = sv_Name s)) as [->|Hne].
  - rewrite lookup_insert_eq. split; [intros [[= <-]|(s' & Hs & ? & ?)]|intros [Hs|(s' & Hs & Hn & ->)]].
    + right. exists s. split; [by left|done].
    + right. exists s'. split; [by right|done].
    + exfalso. apply Hdup. by eexists.
    + apply elem_of_cons in Hs as [->|Hs]; [by left|]. right. by exists s'.
  - rewrite lookup_insert_ne by done. split; (intros [Hd|(s' & Hs & Hn & ->)]; [by left|right; exists s'; split; [|done]]).
    + by right.
    + by apply elem_of_cons in Hs as [->|Hs].
Qed.
Lemma override_entries path svcs doc name o :
  overrideFor dir_id path svcs = Ok doc →
  doc !! name = Some o ↔ ∃ s, s ∈ svcs ∧ sv_Name s = name ∧ o = fastOverrideService path s.
Proof.
  unfold overrideFor. destruct (_ || _); [done|]. intros H. rewrite (override_go_entries _ _ _ _ _ _ H). rewrite lookup_empty.
  unfold sortedServices. assert (Hp : ∀ s, s ∈ merge_sort name_le svcs ↔ s ∈ svcs) by (intros s; by rewrite merge_sort_Permutation).
  setoid_rewrite Hp. naive_solver.
Qed.

(** The labels a container made by the override carries. *)
Definition labels_of (path : string) (s : FastService) (fl : FastLabels) : Prop :=
  fl_Version fl = FastVersion ∧ fl_Override fl = path ∧ fl_DLL fl = sv_DLL s ∧ fl_WorkDir fl = sv_WorkDir s
  ∧ fl_ProjectLabel fl = sv_Project s.
Ltac is_label := unfold fast_labels; repeat (first [by left | right]).
Lemma corroborates_service path s fl l rec :
  path ≠ ""%string → rc_path rec = path → rc_labels rec !! sv_Name s = Some l → l = list_to_map (fast_labels path s) →
  Corroborates rec (sv_Name s) (Some fl) = true ↔ labels_of path s fl.
Proof.
  intros Hne Hp Hl ->. unfold Corroborates. rewrite Hl, Hp. destruct (String.eqb_spec path ""); [done|]. cbn [negb andb].
  unfold labels_of, wanted_labels. rewrite andb_true_iff, String.eqb_eq, forallb_app. cbn [forallb].
  rewrite !andb_true_iff, (label_matches path s labelFastMode path) by is_label.
  rewrite (label_matches path s labelFastVersion FastVersion) by is_label.
  destruct (String.eqb_spec (fl_Version fl) FastVersion) as [Hv|Hv]; [|naive_solver]. cbn [forallb]. rewrite !andb_true_iff.
  rewrite (label_matches path s labelFastDLL (sv_DLL s)), (label_matches path s labelFastWorkDir (sv_WorkDir s)),
    (label_matches path s labelFastProject (sv_Project s)) by is_label.
  naive_solver.
Qed.

Context (encode : overrideDoc → string) (decode : string → option overrideDoc) (path : string) (svcs : list FastService).

Lemma first_line s : cut_first_line (OverrideHeader +:+ String newline s) = (OverrideHeader, s).
Proof. unfold cut_first_line. by rewrite cut_at_app. Qed.
Lemma written_text text :
  WriteOverride dir_id encode path svcs = Ok text →
  ∃ doc, override_path_ok path = true ∧ overrideFor dir_id path svcs = Ok doc ∧ text = OverrideHeader +:+ String newline (encode doc).
Proof.
  unfold WriteOverride. destruct (override_path_ok path); [|done]. destruct (overrideFor dir_id path svcs) as [doc|]; [|done].
  intros H. exists doc. split_and!; [done|done|by injection H].
Qed.

(** The JSON library reads back what it wrote. *)
Hypothesis decode_encode : ∀ doc, overrideFor dir_id path svcs = Ok doc → decode (encode doc) = Some doc.

(** C27: an override eyedbg wrote, read back by eyedbg, corroborates exactly the
    labels it gives its services' containers: the version, its own path, and
    that service's assembly, directory and project, whatever '$' they hold. *)
Theorem override_corroborates text :
  WriteOverride dir_id encode path svcs = Ok text → slen text ≤ maxOverrideBytes →
  ∃ rec, ReadRecorded decode path (FileText text) = (rec, None) ∧ ∀ service fl,
    Corroborates rec service (Some fl) = true ↔ ∃ s, s ∈ svcs ∧ sv_Name s = service ∧ labels_of path s fl.
Proof.
  intros (doc & Hok & Hdoc & ->)%written_text Hlen.
  exists (mkRecorded path (os_Labels <$> doc)). split.
  - unfold ReadRecorded. destruct (Z.ltb_spec maxOverrideBytes (slen (OverrideHeader +:+ String newline (encode doc)))); [lia|].
    rewrite first_line. rewrite String.eqb_refl. cbn [negb].
    by rewrite (decode_encode doc).
  - set (rec := mkRecorded path (os_Labels <$> doc)).
    assert (Hne : path ≠ ""%string) by (intros E; by rewrite E in Hok). intros service fl.
    assert (Hrec : ∀ s, doc !! sv_Name s = Some (fastOverrideService path s) →
                        Corroborates rec (sv_Name s) (Some fl) = true ↔ labels_of path s fl).
    { intros s Hs. eapply corroborates_service; [done|done| |reflexivity]. cbn. by rewrite lookup_fmap, Hs. }
    split.
    + intros Hc. destruct (doc !! service) as [o|] eqn:Ho.
      * destruct (proj1 (override_entries _ _ _ _ _ Hdoc) Ho) as (s & Hs & <- & ->). exists s. rewrite <- Hrec; done.
      * exfalso. unfold Corroborates in Hc. cbn [rc_labels rec] in Hc. by rewrite lookup_fmap, Ho in Hc.
    + intros (s & Hs & <- & Hl). apply Hrec; [|done]. apply (override_entries _ _ _ _ _ Hdoc). by exists s.
Qed.
End override.

(** A service whose project has a '$' in its path. *)
Definition sample_path : string := "/home/u/p1/override.yml".
Definition sample_service : FastService := mkFastService "web" "web.dll" "/app" "a$b/web.csproj" "/home/u/p1/services/web".
Definition sample_carried : FastLabels := mkFastLabels "1" sample_path "web.dll" "/app" "" "" "a$b/web.csproj".
Definition one_dir (p : string) : option Z := if p =?s sv_Source sample_service then Some 1 else None.
Definition sample_doc : overrideDoc := {["web"%string := fastOverrideService sample_path sample_service]}.
Definition sample_encode (doc : overrideDoc) : string := if bool_decide (is_Some (doc !! "web"%string)) then "{web}" else "{}".
Definition sample_decode (s : string) : option overrideDoc :=
  if s =?s "{web}" then Some sample_doc else if s =?s "{}" then Some ∅ else None.
Lemma sample_decodes doc :
  overrideFor one_dir sample_path [sample_service] = Ok doc → sample_decode (sample_encode doc) = Some doc.
Proof.
  intros H. assert (E : overrideFor one_dir sample_path [sample_service] = Ok sample_doc) by (vm_compute; reflexivity).
  rewrite E in H. injection H as <-. vm_compute. reflexivity.
Defined.
Example override_corroborates_witness : ∃ text rec,
  WriteOverride one_dir sample_encode sample_path [sample_service] = Ok text ∧
  ReadRecorded sample_decode sample_path (FileText text) = (rec, None) ∧
  Corroborates rec "web" (Some sample_carried) = true ∧
  Corroborates rec "web" (Some (sample_carried <| fl_DLL := "other.dll"%string |>)) ≠ true.
Proof.
  destruct (WriteOverride one_dir sample_encode sample_path [sample_service]) as [text|e] eqn:E; [|vm_compute in E; discriminate].
  destruct (override_corroborates one_dir sample_encode sample_decode sample_path [sample_service] sample_decodes text E)
    as (rec & Hr & Hc).
  { vm_compute in E. injection E as <-. vm_compute. discriminate. }
  exists text, rec. split; [reflexivity|]. split; [exact Hr|]. split.
  - apply Hc. exists sample_service. split_and!; [by left|done|]. by split_and!.
  - rewrite Hc. intros (s & Hs & _ & Hl). apply list_elem_of_singleton in Hs as ->. destruct Hl as (_ & _ & H & _). discriminate.
Defined.
