(* ===== verification/DockerSpec.v ===== *)
(** * What docker is asked, and what its answers list

    No name that a client, a container or a label gives becomes a flag or
    another command of docker's; and the sources a project's containers can
    write are exactly the ones docker reports. *)

From S2P Require Import Prelude GoStrings GoPath Api PathMap Threads Docker DockerStack Fast.
From Stdlib Require Import Ascii Bool.
Open Scope Z_scope.
Open Scope thread_scope.

(** ** Every invocation of a program *)

Definition argv_of {X} (q : dockerCall X) : list string := match q with CDocker _ _ argv => argv end.
Fixpoint invocations {A} (ok : list string → Prop) (p : dprog A) : Prop :=
  match p with
  | TRet _ => True
  | TLocal f k => ∀ x, invocations ok (k x)
  | TCall q k => ok (argv_of q) ∧ ∀ x, invocations ok (k x)
  | TWait _ p | TLock p | TUnlock p => invocations ok p
  end.

Lemma invocations_bind {A B} ok (p : dprog A) (k : A → dprog B) :
  invocations ok p → (∀ a, invocations ok (k a)) → invocations ok (tbind p k).
Proof. intros Hp Hk. induction p; cbn in *; naive_solver. Qed.
Lemma invocations_run ok timeout stdin argv : ok argv → invocations ok (run_docker timeout stdin argv).
Proof. by split. Qed.
Lemma invocations_dthen {A B} ok (m : result A) (k : A → dprog (result B)) :
  (∀ a, m = Ok a → invocations ok (k a)) → invocations ok (dthen m k).
Proof. destruct m; cbn; auto. Qed.
Lemma invocations_ensure {B} ok b e (k : () → dprog (result B)) :
  (b = true → invocations ok (k ())) → invocations ok (dthen (ensure b e) k).
Proof. destruct b; cbn; auto. Qed.
Lemma invocations_dask {B} ok timeout stdin argv err (k : string → dprog (result B)) :
  ok argv → (∀ out, invocations ok (k out)) → invocations ok (dask (run_docker timeout stdin argv) err k).
Proof.
  intros Ha Hk. apply invocations_bind; [by apply invocations_run|]. by intros [f|out]; [|apply Hk].
Qed.

(** ** The operations *)

Section operations.
Context (EvalSymlinks : string → option string) (is_dir is_regular : string → bool) (resolve_link : string → resolution).
Context (decode_info : string → result rawInfo) (decode_fast : string → result rawFast).
Context (decode_array decode_stream : string → option (list psRow)).
Context (decode_mounts : string → option rwMounts) (decode_device : string → option (option string)).
Context (Abs : string → result string).

Inductive operation :=
  | OpInspect (ref : string) | OpImagePlatform (image : string) | OpInspectFast (ref : string) | OpTop (ref : string)
  | OpProbeIdle (ref : string) | OpComposePS (o : ComposeOptions)
  | OpComposeUp (r : ProjectRef) (override : string) (services : list string) (wait : bool)
  | OpFastContainers (project : string) | OpWritableSources (project : string)
  | OpInstallAdapter (tar : result string) (id : string) (a : Adapter) | OpProbeAdapter (id : string) (a : Adapter).
Definition perform (e : Engine) (op : operation) : dprog bool :=
  let done {A} (p : dprog (result A)) : dprog bool := (r <- p ;; TRet (is_ok r)) in
  match op with
  | OpInspect ref => done (Inspect EvalSymlinks is_dir is_regular decode_info e ref)
  | OpImagePlatform image => done (ImagePlatform e image)
  | OpInspectFast ref => done (InspectFast resolve_link is_regular decode_fast e ref)
  | OpTop ref => done (Top e ref)
  | OpProbeIdle ref => done (ProbeIdle e ref)
  | OpComposePS o => done (ComposePS decode_array decode_stream e o)
  | OpComposeUp r override services wait => done (ComposeUp Abs e r override services wait)
  | OpFastContainers project => done (FastContainers e project)
  | OpWritableSources project => done (WritableSources decode_mounts decode_device e project)
  | OpInstallAdapter tar id a => done (InstallAdapter tar e id a)
  | OpProbeAdapter id a => done (ProbeAdapter e id a)
  end.

(** *** The command lines

    Written out for each operation, with the places a value stands in: as the
    rest of a flag's word, or as a word of its own where docker takes no more
    flags or where it can't be read as one. *)

(** Not empty, and no flag. *)
Definition operand (v : string) : Prop := ∃ c t, v = String c t ∧ c ≠ "-"%char.
Definition container_id (v : string) : Prop := String.length v = 64%nat ∧ all_bytes isHex v = true.
(** The values a flag is given in, in order. *)
Definition values_of (flag : string) (words : list string) : list string := omap (cut_prefix flag) words.
Definition flag_values (v : string) : list string := if v =?s "" then [] else [v].
(** The flags [docker compose] itself takes, before its command. *)
Definition compose_flags : list string := ["--file="; "--project-name="; "--project-directory="; "--env-file="]%string.
Record compose_named (name dir : string) (files envs flags : list string) : Prop := {
  cn_flags w : w ∈ flags → ∃ f v, f ∈ compose_flags ∧ w = f +:+ v;
  cn_name : values_of "--project-name=" flags = flag_values name;
  cn_dir : values_of "--project-directory=" flags = flag_values dir;
  cn_files : values_of "--file=" flags = files;
  cn_envs : values_of "--env-file=" flags = envs }.
Definition of_project (project : string) : string := "--filter=label=com.docker.compose.project=" +:+ project.

Inductive runs : operation → list string → Prop :=
  | run_inspect ref : operand ref →
      runs (OpInspect ref) ["inspect"; "--type"; "container"; "--format"; inspectTemplate; "--"; ref]%string
  | run_inspect_fast ref : operand ref →
      runs (OpInspectFast ref) ["inspect"; "--type"; "container"; "--format"; fastInspectTemplate; "--"; ref]%string
  | run_image image : operand image →
      runs (OpImagePlatform image) ["image"; "inspect"; "--format"; imageTemplate; "--"; image]%string
  | run_top ref : operand ref → runs (OpTop ref) ["top"; ref; "-o"; "pid,stat,comm"]%string
  | run_idle ref : operand ref → runs (OpProbeIdle ref) ["exec"; ref; "tail"; "--version"]%string
  | run_compose_ps o flags : compose_named (co_ProjectName o) (co_ProjectDirectory o) (co_Files o) [] flags →
      runs (OpComposePS o) (["compose"%string] ++ flags ++ ["ps"; "--format"; "json"]%string)
  (* only the named services, the override last of the files *)
  | run_compose_up r override services (wait : bool) envs flags :
      pj_Name r ≠ ""%string → pj_WorkDir r ≠ ""%string → Forall2 (fun f v => Abs f = Ok v) (pj_EnvFiles r) envs →
      compose_named (pj_Name r) (pj_WorkDir r) (pj_Files r ++ flag_values override) envs flags →
      services ≠ [] → Forall operand services →
      runs (OpComposeUp r override services wait)
        (["compose"%string] ++ flags ++ ["up"; "--detach"; "--no-deps"; "--force-recreate"; "--no-build"]%string
         ++ (if wait then ["--wait"; "--wait-timeout=180"]%string else []) ++ services)
  | run_fast project :
      runs (OpFastContainers project)
        ["ps"; "--all"; "--no-trunc"; of_project project; "--filter=label=dev.izzat.eyedbg.fast.override";
         quoted "--format={{.ID}} {{.Label 'com.docker.compose.service'}}"]%string
  | run_ids project : runs (OpWritableSources project) ["ps"; "--all"; "--no-trunc"; "--quiet"; of_project project]%string
  | run_mounts project ids : ids ≠ [] → Forall container_id ids →
      runs (OpWritableSources project) (["inspect"; "--type"; "container"; "--format"; rwMountsTemplate; "--"]%string ++ ids)
  | run_volumes project names : names ≠ [] → Forall operand names →
      runs (OpWritableSources project) (["volume"; "inspect"; "--format"; volumeDeviceTemplate; "--"]%string ++ names)
  | run_copy tar id a : container_id id → runs (OpInstallAdapter tar id a) ["cp"; "-"; id +:+ ":/"]%string
  | run_installed tar id a : container_id id → runs (OpInstallAdapter tar id a) (["exec"; id; ContainerPath a]%string ++ ad_ProbeArgs a)
  | run_probe id a : container_id id → runs (OpProbeAdapter id a) (["exec"; id; ContainerPath a]%string ++ ad_ProbeArgs a).

(** The engine's flags, its host's before its context's. *)
Definition engine_flags (e : Engine) (flags : list string) : Prop :=
  (eg_Host e ≠ ""%string → flags = ["--host=" +:+ eg_Host e]) ∧
  (eg_Host e = ""%string → eg_Context e ≠ ""%string → flags = ["--context=" +:+ eg_Context e]) ∧
  (eg_Host e = ""%string → eg_Context e = ""%string → flags = []).
Definition allowed (e : Engine) (op : operation) (argv : list string) : Prop :=
  ∃ flags line, argv = flags ++ line ∧ engine_flags e flags ∧ runs op line.
Abbreviation safe e op := (invocations (allowed e op)).

Lemma allowed_args e op line : runs op line → allowed e op (Args e line).
Proof.
  intros H. exists (globalArgs e), line. split_and!; [done| |done]. unfold globalArgs, engine_flags.
  destruct (String.eqb_spec (eg_Host e) ""), (String.eqb_spec (eg_Context e) ""); by split_and!.
Qed.
Lemma no_flag_operand v : no_flag v = true → operand v.
Proof. destruct v as [|c t]; [done|]. cbn. intros H%negb_true_iff. exists c, t. split; [done|]. by intros ->. Qed.
Lemma ref_operand ref : valid_ref ref = true → operand ref.
Proof. intros H. by apply no_flag_operand, ref_no_flag. Qed.
Lemma full_container id : isFullID id = true → container_id id.
Proof.
  unfold isFullID, isHexID, slen. intros [Hl%Z.eqb_eq [_ Hh]%andb_true_iff]%andb_true_iff. split; [|done].
  change maxFullIDLen with 64 in Hl. lia.
Qed.

Lemma safe_inspectOne e op ref template :
  (operand ref → runs op ["inspect"; "--type"; "container"; "--format"; template; "--"; ref]%string) → safe e op (inspectOne e ref template).
Proof.
  intros Ht. apply invocations_ensure. intros Hr. apply invocations_dask; [|done]. by apply allowed_args, Ht, ref_operand.
Qed.

(** *** The words of the compose flags *)

Lemma values_app f l l' : values_of f (l ++ l') = values_of f l ++ values_of f l'.
Proof. apply omap_app. Qed.
Lemma values_map f l : values_of f (map (fun v => f +:+ v) l) = l.
Proof. induction l as [|v l IH]; [done|]. unfold values_of in *. cbn [map omap list_omap]. by rewrite cut_prefix_app, IH. Qed.
Lemma values_others f g l : (∀ v, cut_prefix f (g +:+ v) = None) → values_of f (map (fun v => g +:+ v) l) = [].
Proof. intros H. induction l as [|v l IH]; [done|]. unfold values_of in *. cbn [map omap list_omap]. by rewrite H, IH. Qed.
Lemma flag_given_map f v : flag_given f v = map (fun v => f +:+ v) (flag_values v).
Proof. unfold flag_given, flag_values. by destruct (v =?s ""). Qed.
(** A flag's values, of words that are some flags' values in order. *)
Ltac values := rewrite ?values_app, ?values_map, ?values_others by (intros; reflexivity); rewrite ?app_nil_r.
Lemma in_map_flag f l w : f ∈ compose_flags → w ∈ map (fun v => f +:+ v) l → ∃ f v, f ∈ compose_flags ∧ w = f +:+ v.
Proof. intros Hf (v & -> & _)%list_elem_of_fmap. by exists f, v. Qed.
Ltac flag_in := unfold compose_flags; repeat (first [by left | right]).

Lemma safe_psArgs e o : allowed e (OpComposePS o) (Args e (psArgs o)).
Proof.
  set (flags := map (fun v => "--file=" +:+ v) (co_Files o) ++ map (fun v => "--project-name=" +:+ v) (flag_values (co_ProjectName o))
    ++ map (fun v => "--project-directory=" +:+ v) (flag_values (co_ProjectDirectory o))).
  assert (psArgs o = ["compose"%string] ++ flags ++ ["ps"; "--format"; "json"]%string) as ->.
  { unfold psArgs, flags. rewrite !flag_given_map. by rewrite <- !app_assoc. }
  apply allowed_args, run_compose_ps. unfold flags. split; [|by values..].
  intros w [Hw|[Hw|Hw]%elem_of_app]%elem_of_app; (eapply in_map_flag; [|exact Hw]; flag_in).
Qed.

Lemma check_each_ok check l : check_each check l = Ok () → Forall (fun x => check x = Ok ()) l.
Proof.
  induction l as [|x l IH]; [by intros _|]. cbn. destruct (check x) as [[]|] eqn:E; cbn; [|done].
  intros H. apply list.Forall_cons. auto.
Qed.
Lemma ensure_true b e : ensure b e = Ok () → b = true.
Proof. by destruct b. Qed.
Lemma up_envs l envs : make_absolute Abs l = Ok envs → Forall2 (fun f v => Abs f = Ok v) l envs.
Proof.
  revert envs. induction l as [|f l IH]; intros envs; cbn; [by intros [= <-]|]. destruct (Abs f) as [v|] eqn:E; [|done].
  destruct (make_absolute Abs l) as [vs|]; cbn; [|done]. intros [= <-]. constructor; [done|by apply IH].
Qed.
Lemma safe_upArgs e r override services wait args :
  pj_Name r ≠ ""%string → pj_WorkDir r ≠ ""%string → services ≠ [] → check_each ValidateService services = Ok () →
  upArgs Abs r override services wait = Ok args → allowed e (OpComposeUp r override services wait) (Args e args).
Proof.
  intros Hn Hd Hne Hs Ha. unfold upArgs in Ha. destruct (make_absolute _ _) as [envs|] eqn:Ee; [|done]. apply up_envs in Ee.
  rewrite flag_given_map in Ha.
  set (flags := map (fun v => "--project-name=" +:+ v) [pj_Name r] ++ map (fun v => "--project-directory=" +:+ v) [pj_WorkDir r]
    ++ map (fun v => "--file=" +:+ v) (pj_Files r) ++ map (fun v => "--file=" +:+ v) (flag_values override)
    ++ map (fun v => "--env-file=" +:+ v) envs).
  assert (args = (["compose"%string] ++ flags ++ ["up"; "--detach"; "--no-deps"; "--force-recreate"; "--no-build"]%string
         ++ (if wait then ["--wait"; "--wait-timeout=180"]%string else []) ++ services)) as ->.
  { unfold flags. injection Ha as <-. cbn [map app]. by rewrite <- !app_assoc. }
  apply allowed_args. apply (run_compose_up r override services wait envs); [done|done|done| |done|].
  - unfold flags. split.
    + intros w [Hw|[Hw|[Hw|[Hw|Hw]%elem_of_app]%elem_of_app]%elem_of_app]%elem_of_app; (eapply in_map_flag; [|exact Hw]; flag_in).
    + values. by destruct (pj_Name r).
    + values. by destruct (pj_WorkDir r).
    + by values.
    + by values.
  - apply check_each_ok in Hs. eapply Forall_impl; [exact Hs|]. intros x Hx%ensure_true. by apply no_flag_operand, service_no_flag.
Qed.

Lemma full_ids_ok project ids ids' : check_ids project ids = Ok ids' → ids' = ids ∧ Forall (fun id => isFullID id = true) ids.
Proof.
  unfold check_ids. destruct (_ <? _); [done|]. destruct (check_each _ ids) as [[]|] eqn:E; [|done]. intros [= <-].
  split; [done|]. apply check_each_ok in E. eapply Forall_impl; [exact E|]. by intros x Hx%ensure_true.
Qed.
Lemma map_results_In {A B} (f : A → result B) l l' : map_results f l = Ok l' → ∀ b, b ∈ l' → ∃ a, a ∈ l ∧ f a = Ok b.
Proof.
  revert l'. induction l as [|a l IH]; intros l'; cbn; [by intros [= <-] b Hb%elem_of_nil|].
  destruct (f a) as [b0|] eqn:E; cbn; [|done]. destruct (map_results f l) as [bs|]; cbn; [|done]. intros [= <-] b.
  intros [->|Hb]%elem_of_cons; [exists a; split; [by left|done]|].
  destruct (IH bs eq_refl b Hb) as (a' & ? & ?). exists a'. split; [by right|done].
Qed.
Lemma compact_incl l x : x ∈ compact l → x ∈ l.
Proof.
  induction l as [|a l IH]; [done|]. destruct l as [|b l]; [done|]. cbn [compact]. destruct (a =?s b).
  - intros H%IH. by right.
  - intros [->|H%IH]%elem_of_cons; [by left|by right].
Qed.
Lemma volumes_valid out want binds volumes :
  parseRWMounts decode_mounts out want = Ok (binds, volumes) → Forall (fun v => valid_volume v = true) volumes.
Proof.
  unfold parseRWMounts. destruct (negb _); [done|]. destruct (map_results _ _) as [parts|] eqn:E; cbn; [|done].
  destruct (_ <? _); [done|]. intros [= <- <-]. apply Forall_forall. intros v Hv.
  apply compact_incl in Hv. apply list_elem_of_In, (Permutation_in _ (merge_sort_Permutation _ _)), list_elem_of_In in Hv.
  apply list_elem_of_In, in_concat in Hv as (vs & Hvs & Hv). apply in_map_iff in Hvs as ([bs vs'] & <- & Hp).
  apply list_elem_of_In, (map_results_In _ _ _ E) in Hp as (line & _ & Hl). unfold parseRWMountsLine in Hl.
  destruct (decode_mounts _) as [[[bl|] [vl|]]|]; try done. destruct (map_results read_bind bl) as [bs0|]; [|done]. cbn in Hl.
  destruct (map_results read_volume vl) as [vs0|] eqn:Ev; [|done]. cbn in Hl. simplify_eq. cbn in Hv.
  apply in_concat in Hv as (one & Ho & Hv). apply list_elem_of_In, (map_results_In _ _ _ Ev) in Ho as (vo & _ & Hr).
  destruct vo as [v0|]; cbn in Hr; [|by simplify_eq]. destruct (valid_volume v0) eqn:Hval; [|done]. simplify_eq.
  by destruct Hv as [<-|[]].
Qed.
Lemma volume_no_flag v : valid_volume v = true → no_flag v = true.
Proof. intros [_ H]%andb_true_iff. by eapply grammar_no_flag. Qed.

Lemma invocations_returns {A B} ok (good : A → Prop) (p : dprog A) (k : A → dprog B) :
  invocations ok p → returns good p → (∀ a, good a → invocations ok (k a)) → invocations ok (tbind p k).
Proof. intros Hp Hg Hk. induction p; cbn in *; naive_solver. Qed.
Lemma safe_volumeDevices e project names :
  Forall (fun v => valid_volume v = true) names → safe e (OpWritableSources project) (volumeDevices decode_device e names).
Proof.
  intros Hv. destruct names as [|n names]; [done|]. apply invocations_dask; [|done]. apply allowed_args, run_volumes; [done|].
  eapply Forall_impl; [exact Hv|]. intros v H. by apply no_flag_operand, volume_no_flag.
Qed.
Definition full_ids (r : result (list string)) : Prop :=
  match r with Ok ids => Forall (fun id => isFullID id = true) ids | Err _ => True end.
Lemma returns_ids e project : returns full_ids (projectContainerIDs e project).
Proof.
  unfold projectContainerIDs. destruct (CheckGroup project); cbn; [|done]. intros [[err stderr]|out]; cbn; [done|].
  destruct (check_ids project (fields out)) as [ids|] eqn:E; [|done]. by apply full_ids_ok in E as [-> H].
Qed.
Lemma safe_writable e project : safe e (OpWritableSources project) (WritableSources decode_mounts decode_device e project).
Proof.
  apply (invocations_returns _ full_ids); [|apply returns_ids|].
  - apply invocations_dthen. intros _ _. apply invocations_dask; [|done]. apply allowed_args. apply run_ids.
  - intros [[|id ids]|err] Hids; [done| |done]. apply invocations_dask.
    + apply allowed_args, run_mounts; [done|]. eapply Forall_impl; [exact Hids|]. apply full_container.
    + intros out. apply invocations_dthen. intros [binds volumes] Hm.
      apply invocations_bind; [|done]. apply safe_volumeDevices. by eapply volumes_valid.
Qed.
Lemma safe_probe e op id a :
  (container_id id → runs op (["exec"; id; ContainerPath a]%string ++ ad_ProbeArgs a)) → safe e op (ProbeAdapter e id a).
Proof.
  intros Hr. apply invocations_ensure. intros Hid. apply invocations_dthen. intros _ _. apply invocations_dask; [|done].
  by apply allowed_args, Hr, full_container.
Qed.
Lemma project_ok r : ProjectRef_validate r = Ok () → pj_Name r ≠ ""%string ∧ pj_WorkDir r ≠ ""%string.
Proof.
  unfold ProjectRef_validate. destruct (CheckGroup (pj_Name r)) as [[]|] eqn:Eg; [|done]. cbn [is_ok ensure].
  destruct (checkComposePath _ _) as [[]|] eqn:Ed; [|done]. intros _. split; intros E.
  - by rewrite E in Eg.
  - by rewrite E in Ed.
Qed.

(** C24: whatever names a client gives and whatever docker answers, each
    docker invocation of an operation is the engine's flags, then the command
    lines written out for that operation: its own command and flags, a value
    only where it is not read as a flag or as another command, [compose up]
    with services named, and with the files of its project, the override
    last. *)
Theorem engine_argv_safe e op : invocations (allowed e op) (perform e op).
Proof.
  destruct op as [ref|image|ref|ref|ref|o|r override services wait|project|project|tar id a|id a];
    (apply invocations_bind; [|done]).
  - apply invocations_bind; [|done]. apply safe_inspectOne. apply run_inspect.
  - apply invocations_ensure. intros Hi. apply invocations_dask; [|done]. by apply allowed_args, run_image, no_flag_operand, image_no_flag.
  - apply invocations_bind; [|done]. apply safe_inspectOne. apply run_inspect_fast.
  - apply invocations_ensure. intros Hr. apply invocations_dask; [|done]. by apply allowed_args, run_top, ref_operand.
  - apply invocations_ensure. intros Hr. apply invocations_dask; [|done]. by apply allowed_args, run_idle, ref_operand.
  - apply invocations_dthen. intros _ _. apply invocations_dask; [|done]. apply safe_psArgs.
  - apply invocations_dthen. intros [] [Hn Hd]%project_ok. apply invocations_dthen. intros _ _.
    apply invocations_ensure. intros [Hl _]%andb_true_iff. apply invocations_dthen. intros [] Hs. apply invocations_dthen. intros args Ha.
    apply invocations_dask; [|done]. apply (safe_upArgs e r override services wait); [done|done| |done|done]. by intros ->.
  - apply invocations_dthen. intros _ _. apply invocations_dask; [|done]. apply allowed_args. apply run_fast.
  - apply safe_writable.
  - apply invocations_ensure. intros Hid. do 2 (apply invocations_dthen; intros ? _). apply invocations_dask.
    + by apply allowed_args, run_copy, full_container.
    + intros _. apply safe_probe. apply run_installed.
  - apply safe_probe. apply run_probe.
Qed.
End operations.

(** * Where a project's containers can write: nothing is left out

    The sources eyedbg lists are those docker reports, of every container of
    the project: its read-write binds, and the host directories behind its
    read-write volumes. *)

Open Scope Z_scope.
Open Scope thread_scope.

(** ** An operation on a docker that answers *)

Abbreviation docker_answers := (Z → string → list string → string * string + string).
Definition docker_serve (docker : docker_answers) : ∀ X, dockerCall X → () → X * () :=
  fun X q _ => match q in dockerCall X return X * () with CDocker timeout stdin argv => (docker timeout stdin argv, ()) end.
Definition asked {A} (docker : docker_answers) (p : dprog A) : option A :=
  (fun x => x.1.1) <$> trun (docker_serve docker) p () ().

Lemma asked_bind {A B} docker (p : dprog A) (k : A → dprog B) :
  asked docker (tbind p k) = (a ← asked docker p; asked docker (k a)).
Proof.
  unfold asked. induction p as [a|X f k' IH|X q k' IH|b p IH|p IH|p IH]; cbn; [done| | | |done|done].
  - destruct (f ()) as [x []]. apply IH.
  - destruct (docker_serve docker X q ()) as [x []]. apply IH.
  - by destruct (b ()).
Qed.
Lemma asked_dthen {A B} docker (m : result A) (k : A → dprog (result B)) b :
  asked docker (dthen m k) = Some (Ok b) → ∃ a, m = Ok a ∧ asked docker (k a) = Some (Ok b).
Proof. destruct m as [a|e]; [by exists a|done]. Qed.
Lemma asked_dask {B} docker e sub err (k : string → dprog (result B)) b :
  asked docker (dask (query e sub) err k) = Some (Ok b) →
  ∃ out, docker QueryTimeout ""%string (Args e sub) = inr out ∧ asked docker (k out) = Some (Ok b).
Proof.
  unfold dask, query, run_docker. rewrite !asked_bind. unfold asked at 1. cbn.
  destruct (docker QueryTimeout ""%string (Args e sub)) as [[msg stderr]|out]; [done|]. intros H. by exists out.
Qed.

(** ** The sources docker reports *)

Section reported.
Context (decode_mounts : string → option rwMounts) (decode_device : string → option (option string)).
Context (docker : docker_answers) (e : Engine).

(** The answer about the containers, and its lines' mounts. *)
Definition about_containers (ids : list string) : list string :=
  Args e (["inspect"; "--type"; "container"; "--format"; rwMountsTemplate; "--"]%string ++ ids).
Definition mounts_listed (out : string) (binds volumes : list (option string)) : Prop :=
  ∃ line, line ∈ answer_lines out ∧ decode_mounts (strip_cr line) = Some (mkRwMounts (Some binds) (Some volumes)).
Definition bind_listed (out p : string) : Prop := ∃ binds volumes, mounts_listed out binds volumes ∧ Some p ∈ binds.
Definition volume_listed (out v : string) : Prop := ∃ binds volumes, mounts_listed out binds volumes ∧ Some v ∈ volumes.
(** A volume's device that is a directory of the host's. *)
Definition about_volumes (names : list string) : list string :=
  Args e (["volume"; "inspect"; "--format"; volumeDeviceTemplate; "--"]%string ++ names).
Definition host_device (d : string) : Prop := d ≠ ""%string ∧ isShare d = false ∧ engineAbsPath d = true.
Definition device_listed (names : list string) (d : string) : Prop :=
  names ≠ [] ∧ ∃ out line, docker QueryTimeout ""%string (about_volumes names) = inr out ∧
    length (answer_lines out) = length names ∧ line ∈ answer_lines out ∧
    decode_device (strip_cr line) = Some (Some d) ∧ host_device d.

(** *** Each step of the reading *)

Lemma map_results_spec {A B} (f : A → result B) l l' :
  map_results f l = Ok l' → Forall2 (fun a b => f a = Ok b) l l'.
Proof.
  revert l'. induction l as [|a l IH]; cbn; intros l'; [by intros [= <-]|].
  destruct (f a) as [b|] eqn:Ea; cbn; [|done]. destruct (map_results f l) as [bs|]; cbn; [|done]. intros [= <-].
  constructor; [done|by apply IH].
Qed.
Lemma map_results_concat {A B} (f : A → result (list B)) l l' b :
  map_results f l = Ok l' → b ∈ concat l' ↔ ∃ a bs, a ∈ l ∧ f a = Ok bs ∧ b ∈ bs.
Proof.
  intros H%map_results_spec. rewrite list_elem_of_In, in_concat. split.
  - intros (bs & Hbs%list_elem_of_In & Hb%list_elem_of_In). apply list_elem_of_lookup in Hbs as [i Hi].
    destruct (Forall2_lookup_r _ _ _ _ _ H Hi) as (a & Ha & Hf). exists a, bs.
    split_and!; [by eapply list_elem_of_lookup_2|done|done].
  - intros (a & bs & Ha & Hf & Hb). apply list_elem_of_lookup in Ha as [i Hi].
    destruct (Forall2_lookup_l _ _ _ _ _ H Hi) as (bs' & Hbs' & Hf'). assert (bs' = bs) as -> by congruence. exists bs.
    split; apply list_elem_of_In; [by eapply list_elem_of_lookup_2|done].
Qed.
Lemma map_results_all {A B} (f : A → result B) l l' a : map_results f l = Ok l' → a ∈ l → ∃ b, f a = Ok b.
Proof.
  intros H%map_results_spec (i & Hi)%list_elem_of_lookup.
  destruct (Forall2_lookup_l _ _ _ _ _ H Hi) as (b & _ & Hb). by exists b.
Qed.
Lemma compact_elem l x : x ∈ compact l ↔ x ∈ l.
Proof.
  split; [apply compact_incl|]. induction l as [|a l IH]; [done|]. destruct l as [|b l]; [done|]. cbn [compact].
  intros [->|H]%elem_of_cons; destruct (String.eqb_spec a b) as [->|]; [apply IH; by left|by left|by apply IH|].
  right. by apply IH.
Qed.
Lemma sorted_compact_elem l x : x ∈ sorted_compact l ↔ x ∈ l.
Proof. unfold sorted_compact. by rewrite compact_elem, merge_sort_Permutation. Qed.

Lemma read_bind_elem o ps p : read_bind o = Ok ps → p ∈ ps ↔ o = Some p.
Proof.
  destruct o as [q|]; cbn; [|by intros [= <-]; split; [intros H%elem_of_nil|]]. destruct (engineAbsPath q); [|done].
  intros [= <-]. rewrite list_elem_of_singleton. naive_solver.
Qed.
Lemma read_volume_elem o vs v : read_volume o = Ok vs → v ∈ vs ↔ o = Some v.
Proof.
  destruct o as [q|]; cbn; [|by intros [= <-]; split; [intros H%elem_of_nil|]]. destruct (valid_volume q); [|done].
  intros [= <-]. rewrite list_elem_of_singleton. naive_solver.
Qed.
(** What a line gives is what it lists. *)
Lemma concat_listed {A} (f : option A → result (list A)) l l' x :
  (∀ o xs y, f o = Ok xs → y ∈ xs ↔ o = Some y) → map_results f l = Ok l' → x ∈ concat l' ↔ Some x ∈ l.
Proof.
  intros Hf Hl. rewrite (map_results_concat f l l' x Hl). split.
  - intros (o & xs & Ho & Hxs & Hx). by rewrite (Hf _ _ _ Hxs) in Hx; subst.
  - intros Hx. destruct (map_results_all f l l' _ Hl Hx) as [xs Hxs]. exists (Some x), xs.
    split_and!; [done|done|by rewrite (Hf _ _ _ Hxs)].
Qed.
Lemma line_mounts line bs vs :
  parseRWMountsLine decode_mounts (strip_cr line) = Ok (bs, vs) →
  ∃ binds volumes, decode_mounts (strip_cr line) = Some (mkRwMounts (Some binds) (Some volumes)) ∧
    (∀ p, p ∈ bs ↔ Some p ∈ binds) ∧ (∀ v, v ∈ vs ↔ Some v ∈ volumes).
Proof.
  unfold parseRWMountsLine. destruct (decode_mounts _) as [[[binds|] [volumes|]]|]; try done.
  destruct (map_results read_bind binds) as [bl|] eqn:Eb; cbn; [|done].
  destruct (map_results read_volume volumes) as [vl|] eqn:Ev; cbn; [|done]. intros [= <- <-].
  exists binds, volumes. split_and!; [done| |]; intros x.
  - by apply (concat_listed read_bind); [intros; by apply read_bind_elem|].
  - by apply (concat_listed read_volume); [intros; by apply read_volume_elem|].
Qed.
Lemma mounts_read out want binds volumes :
  parseRWMounts decode_mounts out want = Ok (binds, volumes) →
  length (answer_lines out) = want ∧ (∀ p, p ∈ binds ↔ bind_listed out p) ∧ (∀ v, v ∈ volumes ↔ volume_listed out v).
Proof.
  unfold parseRWMounts. destruct (Nat.eqb_spec (length (answer_lines out)) want) as [Hlen|]; [|done]. cbn [negb].
  destruct (map_results _ (answer_lines out)) as [parts|] eqn:E; cbn; [|done]. destruct (_ <? _); [done|]. intros [= <- <-].
  apply map_results_spec in E. split; [done|].
  assert (Hl : ∀ line, line ∈ answer_lines out → ∃ part, part ∈ parts ∧ parseRWMountsLine decode_mounts (strip_cr line) = Ok part).
  { intros line [i Hi]%list_elem_of_lookup. destruct (Forall2_lookup_l _ _ _ _ _ E Hi) as (part & ? & ?).
    exists part. split; [by eapply list_elem_of_lookup_2|done]. }
  assert (Hr : ∀ part, part ∈ parts → ∃ line, line ∈ answer_lines out ∧ parseRWMountsLine decode_mounts (strip_cr line) = Ok part).
  { intros part [i Hi]%list_elem_of_lookup. destruct (Forall2_lookup_r _ _ _ _ _ E Hi) as (line & ? & ?).
    exists line. split; [by eapply list_elem_of_lookup_2|done]. }
  split; intros x; rewrite ?sorted_compact_elem, list_elem_of_In, in_concat; setoid_rewrite in_map_iff; setoid_rewrite <- list_elem_of_In;
    split.
  - intros (? & ([bs vs] & <- & Hp) & Hx). destruct (Hr _ Hp) as (line & Hline & Hd).
    apply line_mounts in Hd as (bl & vl & Hdec & Hb & _). exists bl, vl. split; [by exists line|by apply Hb].
  - intros (bl & vl & (line & Hline & Hdec) & Hx). destruct (Hl _ Hline) as ([bs vs] & Hp & Hd). exists bs.
    apply line_mounts in Hd as (bl' & vl' & Hdec' & Hb & _). simplify_eq. split; [by exists (bs, vs)|by apply Hb].
  - intros (? & ([bs vs] & <- & Hp) & Hx). destruct (Hr _ Hp) as (line & Hline & Hd).
    apply line_mounts in Hd as (bl & vl & Hdec & _ & Hv). exists bl, vl. split; [by exists line|by apply Hv].
  - intros (bl & vl & (line & Hline & Hdec) & Hx). destruct (Hl _ Hline) as ([bs vs] & Hp & Hd). exists vs.
    apply line_mounts in Hd as (bl' & vl' & Hdec' & _ & Hv). simplify_eq. split; [by exists (bs, vs)|by apply Hv].
Qed.

Lemma device_read line ds d :
  read_device decode_device line = Ok ds → d ∈ ds ↔ decode_device (strip_cr line) = Some (Some d) ∧ host_device d.
Proof.
  unfold read_device, host_device. destruct (decode_device (strip_cr line)) as [[d'|]|]; [|by intros [= <-]; split; [intros ?%elem_of_nil|intros []]|done].
  destruct (String.eqb_spec d' "") as [->|Hne].
  { intros [= <-]. split; [by intros ?%elem_of_nil|]. by intros ([= <-] & Hn & _). }
  destruct (_ || _); [done|]. destruct (isShare d') eqn:Hs; cbn [orb].
  { intros [= <-]. split; [by intros ?%elem_of_nil|]. intros ([= ->] & _ & Hn & _). congruence. }
  destruct (engineAbsPath d') eqn:Ha; cbn [negb]; intros [= <-].
  - rewrite list_elem_of_singleton. split; [by intros ->|by intros ([= <-] & _)].
  - split; [by intros ?%elem_of_nil|]. intros ([= ->] & _ & _ & Hn). congruence.
Qed.
Lemma devices_read names ds :
  asked docker (volumeDevices decode_device e names) = Some (Ok ds) → ∀ d, d ∈ ds ↔ device_listed names d.
Proof.
  unfold volumeDevices, device_listed. destruct names as [|n names].
  { intros [= <-] d. split; [by intros ?%elem_of_nil|by intros []]. }
  intros (out & Hout & H)%asked_dask d. change (Some (read_devices decode_device (n :: names) out) = Some (Ok ds)) in H.
  injection H as H. unfold read_devices in H.
  destruct (Nat.eqb_spec (length (answer_lines out)) (length (n :: names))) as [Hlen|]; [|done]. cbn [negb] in H.
  destruct (map_results (read_device decode_device) (answer_lines out)) as [dss|] eqn:E; [|done]. injection H as <-.
  rewrite (map_results_concat _ _ _ _ E). split.
  - intros (line & ds & Hl & Hr & Hd). split; [done|]. exists out, line. apply (device_read _ _ _ Hr) in Hd as [Hdec Hh]. by split_and!.
  - intros (_ & out' & line & Ho & _ & Hl & Hdec & Hh). unfold about_volumes in Ho. rewrite Hout in Ho. injection Ho as <-.
    destruct (map_results_all _ _ _ _ E Hl) as [ds Hr]. exists line, ds. split_and!; [done|done|].
    by apply (device_read _ _ _ Hr).
Qed.
Definition volumes_asked (names : list string) : Prop :=
  names ≠ [] → ∃ out, docker QueryTimeout ""%string (about_volumes names) = inr out ∧ length (answer_lines out) = length names ∧
    ∀ line, line ∈ answer_lines out → ∃ ds, read_device decode_device line = Ok ds.
Lemma devices_asked names ds : asked docker (volumeDevices decode_device e names) = Some (Ok ds) → volumes_asked names.
Proof.
  intros H Hne. destruct names as [|n names]; [done|]. apply asked_dask in H as (out & Hout & H). exists out. split; [exact Hout|].
  change (Some (read_devices decode_device (n :: names) out) = Some (Ok ds)) in H. injection H as H. unfold read_devices in H.
  destruct (Nat.eqb_spec (length (answer_lines out)) (length (n :: names))) as [Hlen|]; [|done]. cbn [negb] in H. split; [done|].
  destruct (map_results (read_device decode_device) (answer_lines out)) as [dss|] eqn:E; [|done].
  intros line Hl. by eapply map_results_all.
Qed.

(** The sources the containers can write: bound to one, or behind a volume
    of one's. *)
Definition all_listed (ids : list string) (groups : list (list string)) : Prop :=
  if decide (ids = []) then groups = []
  else ∃ out names, docker QueryTimeout ""%string (about_containers ids) = inr out ∧
    length (answer_lines out) = length ids ∧ (∀ v, v ∈ names ↔ volume_listed out v) ∧ volumes_asked names ∧
    ∀ g, g ∈ groups ↔ ∃ p, g = spellings p ∧ (bind_listed out p ∨ device_listed names p).

Lemma ids_asked project ids :
  asked docker (projectContainerIDs e project) = Some (Ok ids) →
  ∃ out, docker QueryTimeout ""%string (Args e ["ps"; "--all"; "--no-trunc"; "--quiet"; of_project project]%string) = inr out ∧ ids = fields out.
Proof.
  unfold projectContainerIDs. intros (_ & _ & H)%asked_dthen. apply asked_dask in H as (out & Hout & H). exists out. split; [exact Hout|].
  change (Some (check_ids project (fields out)) = Some (Ok ids)) in H. injection H as H. by apply full_ids_ok in H as [-> _].
Qed.

(** The groups, from docker's answers. *)
Lemma writable_listed project groups :
  asked docker (WritableSources decode_mounts decode_device e project) = Some (Ok groups) →
  ∃ ids, asked docker (projectContainerIDs e project) = Some (Ok ids) ∧ all_listed ids groups.
Proof.
  unfold WritableSources. rewrite asked_bind. destruct (asked docker (projectContainerIDs e project)) as [[ids|]|] eqn:Ei; [|done..].
  cbn [mbind option_bind]. intros H. exists ids. split; [done|]. unfold all_listed.
  destruct ids as [|id ids]; cbn [decide]; [by injection H as <-|]. destruct (decide _) as [|_]; [done|].
  apply asked_dask in H as (out & Hout & H). apply asked_dthen in H as ([binds names] & Hm & H).
  apply mounts_read in Hm as (Hlen & Hb & Hv). rewrite asked_bind in H. cbn [fst snd] in H.
  destruct (asked docker (volumeDevices decode_device e names)) as [[ds|]|] eqn:Ed; [|done..].
  change (Some (Ok (A := list (list string)) (writableSources (binds ++ ds))) = Some (Ok groups)) in H. injection H as <-.
  exists out, names. split_and!; [done|done|done|by eapply devices_asked|]. intros g. unfold writableSources.
  rewrite list_elem_of_fmap. setoid_rewrite sorted_compact_elem. setoid_rewrite elem_of_app. setoid_rewrite Hb.
  by setoid_rewrite (devices_read names ds Ed).
Qed.
(** *** Docker's own containers and volumes

    What docker knows, and what it answers to these command lines, as it
    documents them: [ps --all] with a label filter names every container with
    the label, in whatever state; [inspect] and [volume inspect] execute the
    template for each name, in order, and end each with a newline. The
    templates are written out: of another one nothing is assumed. *)

Record mount := mkDockerMount { mo_Type : string; mo_RW : bool; mo_Driver : string; mo_Name : string; mo_Source : string }.
Record container := mkContainer { ct_ID : string; ct_Project : string; ct_Running : bool; ct_Mounts : list mount }.
Record volume := mkVolume { vo_Name : string; vo_Driver : string; vo_Device : option string }.
Context (containers : list container) (volumes : list volume).

Definition bound (m : mount) : bool := mo_RW m && (mo_Type m =?s "bind").
Definition from_volume (m : mount) : bool := mo_RW m && (mo_Type m =?s "volume") && (mo_Driver m =?s "local").
(** A template's [with] takes an empty text for none. *)
Definition device_of (v : volume) : option string :=
  match vo_Device v with Some d => if (vo_Driver v =?s "local") && negb (d =?s "") then Some d else None | None => None end.
Definition mounts_asked : string :=
  quoted ("{'bind':[{{range .Mounts}}{{if and .RW (eq .Type 'bind')}}{{json .Source}},{{end}}{{end}}null],"
  +:+ "'volume':[{{range .Mounts}}{{if and .RW (eq .Type 'volume') (eq .Driver 'local')}}{{json .Name}},{{end}}{{end}}null]}").
Definition device_asked : string :=
  quoted ("{{if and (eq .Driver 'local') .Options}}"
  +:+ "{{with index .Options 'device'}}{{json .}}{{else}}null{{end}}{{else}}null{{end}}").
(** Lines of JSON, each ended by a newline. *)
Definition json_line (l : string) : Prop := ∃ a c, l = a +:+ String c "" ∧ contains_byte newline l = false ∧ c ≠ "013"%char.
Definition printed (lines : list string) (out : string) : Prop :=
  out = join (String newline "") lines +:+ String newline "" ∧ Forall json_line lines.

Record truthful (project : string) : Prop := {
  tr_ids c c' : c ∈ containers → c' ∈ containers → ct_ID c = ct_ID c' → c = c';
  tr_names v v' : v ∈ volumes → v' ∈ volumes → vo_Name v = vo_Name v' → v = v';
  tr_ps timeout stdin flags out : engine_flags e flags →
    docker timeout stdin (flags ++ ["ps"; "--all"; "--no-trunc"; "--quiet"; of_project project]%string) = inr out →
    ∀ id, id ∈ fields out ↔ ∃ c, c ∈ containers ∧ ct_Project c = project ∧ ct_ID c = id;
  tr_inspect timeout stdin flags ids out : engine_flags e flags →
    docker timeout stdin (flags ++ ["inspect"; "--type"; "container"; "--format"; mounts_asked; "--"]%string ++ ids) = inr out →
    ∃ lines, printed lines out ∧ Forall2 (fun id line => ∃ c, c ∈ containers ∧ ct_ID c = id ∧
      decode_mounts line = Some (mkRwMounts (Some (map (fun m => Some (mo_Source m)) (List.filter bound (ct_Mounts c)) ++ [None]))
                                            (Some (map (fun m => Some (mo_Name m)) (List.filter from_volume (ct_Mounts c)) ++ [None])))) ids lines;
  tr_volumes timeout stdin flags names out : engine_flags e flags →
    docker timeout stdin (flags ++ ["volume"; "inspect"; "--format"; device_asked; "--"]%string ++ names) = inr out →
    ∃ lines, printed lines out ∧ Forall2 (fun name line => ∃ v, v ∈ volumes ∧ vo_Name v = name ∧ decode_device line = Some (device_of v)) names lines }.

(** A directory of the host's, and no network share. *)
Definition host_dir (d : string) : Prop := ∃ rest, d = "/" +:+ rest ∧ ∀ t, rest ≠ "/" +:+ t ∧ rest ≠ "\" +:+ t.
(** A source's spellings: Docker Desktop's, and the host's own. *)
Definition spelled (p : string) (g : list string) : Prop :=
  (∃ x, p = "/host_mnt/" +:+ x ∧ g = [p; "/" +:+ x]) ∨ ((∀ x, p ≠ "/host_mnt/" +:+ x) ∧ g = [p]).
(** What a container of the project can write on the host. *)
Definition can_write (project p : string) : Prop :=
  ∃ c m, c ∈ containers ∧ ct_Project c = project ∧ m ∈ ct_Mounts c ∧ mo_RW m = true ∧
    ((mo_Type m = "bind"%string ∧ mo_Source m = p) ∨
     (mo_Type m = "volume"%string ∧ mo_Driver m = "local"%string ∧ host_dir p ∧
      ∃ v, v ∈ volumes ∧ vo_Name v = mo_Name m ∧ vo_Driver v = "local"%string ∧ vo_Device v = Some p)).

(** *** What the answers' lines are *)

Lemma trim_right_end cut a c rest :
  cut c = false → all_bytes cut rest = true → trim_right cut (a +:+ String c rest) = a +:+ String c "".
Proof.
  intros Hc Hr. assert (trim_right cut rest = ""%string) as E.
  { induction rest as [|x rest IH]; [done|]. cbn in Hr |- *. apply andb_true_iff in Hr as [Hx Hr]. rewrite IH by done. by rewrite Hx. }
  induction a as [|x a IH]; [cbn; by rewrite E, Hc|]. cbn. rewrite IH. by destruct a.
Qed.
Lemma join_end lines : lines ≠ [] → Forall json_line lines → ∃ a c, join (String newline "") lines = a +:+ String c "" ∧ c ≠ newline ∧ c ≠ "013"%char.
Proof.
  intros Hne Hl. induction Hl as [|l lines (a & c & -> & Hn & Hc) Hl IH]; [done|]. destruct lines as [|l' lines].
  - exists a, c. split_and!; [done| |done]. intros ->. by rewrite contains_byte_app, orb_true_r in Hn.
  - destruct IH as (a' & c' & E & Hn' & Hc'); [done|]. exists ((a +:+ String c "") +:+ String newline a'), c'. split_and!; [|done..].
    change (join (String newline "") ((a +:+ String c "") :: l' :: lines))
      with ((a +:+ String c "") +:+ String newline (join (String newline "") (l' :: lines))).
    by rewrite E, !string_app_assoc.
Qed.
Lemma printed_lines lines out : lines ≠ [] → printed lines out → answer_lines out = lines.
Proof.
  intros Hne [-> Hl]. unfold answer_lines. destruct (join_end lines Hne Hl) as (a & c & E & Hn & Hc).
  rewrite E, string_app_assoc. cbn [String.append]. rewrite trim_right_end; [|by apply orb_false_iff; split; apply Ascii.eqb_neq|done].
  rewrite <- E. apply split_join; [done|]. eapply Forall_impl; [exact Hl|]. by intros l (? & ? & _ & ? & _).
Qed.
Lemma json_line_strip l : json_line l → strip_cr l = l.
Proof.
  intros (a & c & -> & _ & Hc). unfold strip_cr, trim_suffix, has_suffix. rewrite string_app_length. cbn [String.length].
  replace (String.length a + 1 - 1)%nat with (String.length a) by lia. rewrite sdrop_app.
  destruct (String.eqb_spec (String c "") (String "013" "")) as [[= E]|_]; [by subst|]. by rewrite andb_false_r.
Qed.
(** A line for each name, as docker answers it. *)
Lemma answered_lines (names lines : list string) out :
  names ≠ [] → printed lines out → length lines = length names → answer_lines out = lines ∧ ∀ l, l ∈ lines → strip_cr l = l.
Proof.
  intros Hne Hp Hl. split; [apply printed_lines; [|done]; intros ->; by destruct names|].
  intros l Hin. apply json_line_strip. destruct Hp as [_ Hp]. by eapply Forall_forall in Hp.
Qed.
Lemma engine_args sub : ∃ flags, Args e sub = flags ++ sub ∧ engine_flags e flags.
Proof.
  exists (globalArgs e). split; [done|]. unfold globalArgs, engine_flags.
  destruct (String.eqb_spec (eg_Host e) ""), (String.eqb_spec (eg_Context e) ""); by split_and!.
Qed.
Lemma some_listed {X} (f : X → string) p l y : Some y ∈ map (fun m => Some (f m)) (List.filter p l) ++ [None] ↔ ∃ m, m ∈ l ∧ p m = true ∧ f m = y.
Proof.
  rewrite elem_of_app, list_elem_of_singleton. change (map ?g ?l) with (g <$> l). rewrite list_elem_of_fmap.
  setoid_rewrite list_elem_of_In. setoid_rewrite List.filter_In. split.
  - intros [(m & [= ->] & ? & ?)|]; [|done]. by exists m.
  - intros (m & ? & ? & <-). left. by exists m.
Qed.
Lemma spelled_iff p g : g = spellings p ↔ spelled p g.
Proof.
  unfold spellings, spelled, dockerDesktopHostMount.
  assert (Hm : ∀ x, cut_prefix "/host_mnt" ("/host_mnt/" +:+ x) = Some (String "/" x)) by (intros x; apply (cut_prefix_app "/host_mnt" (String "/" x))).
  destruct (cut_prefix "/host_mnt" p) as [host|] eqn:E.
  - apply cut_prefix_Some in E as ->. destruct host as [|c x].
    { cbn. split; [intros ->; right; split; [by intros x|done]|by intros [(x & [=] & _)|[_ ->]]]. }
    assert (has_prefix "/" (String c x) = Ascii.eqb "/" c) as -> by (cbn [has_prefix]; apply andb_true_r).
    destruct (Ascii.eqb_spec "/" c) as [<-|Hc].
    + split; [intros ->; left; by exists x|]. intros [(y & [= ->] & ->)|[H _]]; [done|]. by destruct (H x).
    + split; [intros ->; right; split; [|done]; by intros y [= -> _]|]. by intros [(y & [= -> _] & _)|[_ ->]].
  - split; [intros ->; right|intros [(x & -> & _)|[_ ->]]; [|done]].
    + split; [|done]. intros x ->. by rewrite Hm in E.
    + by rewrite Hm in E.
Qed.
Lemma host_device_dir d : host_device d → host_dir d.
Proof.
  intros (_ & Hs & Ha). unfold engineAbsPath, plainAbsPath, is_abs in Ha. apply andb_true_iff in Ha as [_ Ha].
  destruct d as [|c rest]; [done|]. cbn [has_prefix] in Ha. destruct (Ascii.eqb_spec "/" c) as [<-|]; [|done]. exists rest. split; [done|].
  intros t. split; intros ->; by vm_compute in Hs.
Qed.
Lemma host_dir_read d ds line :
  host_dir d → decode_device line = Some (Some d) → strip_cr line = line → read_device decode_device line = Ok ds → host_device d.
Proof.
  intros (rest & -> & Hr) Hd Hs. unfold read_device. rewrite Hs, Hd. cbn [String.append String.eqb].
  destruct (_ || _) eqn:E; [done|]. apply orb_false_iff in E as [El Ec]. apply Z.ltb_ge in El. intros _. split_and!; [done| |].
  - destruct rest as [|c t]; [done|]. cbn. destruct (Hr t) as [H1 H2]. unfold isSlash. apply orb_false_iff.
    split; apply Ascii.eqb_neq; intros ->; auto.
  - unfold engineAbsPath, plainAbsPath. cbn [is_abs has_prefix Ascii.eqb String.eqb]. rewrite Ec. cbn [String.append] in *.
    by rewrite (proj2 (Z.leb_le _ _) El).
Qed.
(** *** The answers, in terms of docker's containers *)

Definition in_project (project : string) (c : container) : Prop := c ∈ containers ∧ ct_Project c = project.
Lemma lines_mounts project ids out :
  truthful project → ids ≠ [] → (∀ id, id ∈ ids ↔ ∃ c, c ∈ containers ∧ ct_Project c = project ∧ ct_ID c = id) →
  docker QueryTimeout ""%string (about_containers ids) = inr out → length (answer_lines out) = length ids →
  ∀ binds vols, mounts_listed out binds vols ↔ ∃ c, in_project project c ∧
    binds = map (fun m => Some (mo_Source m)) (List.filter bound (ct_Mounts c)) ++ [None] ∧
    vols = map (fun m => Some (mo_Name m)) (List.filter from_volume (ct_Mounts c)) ++ [None].
Proof.
  intros Ht Hne Hids Hout Hlen binds vols. unfold about_containers in Hout.
  destruct (engine_args (["inspect"; "--type"; "container"; "--format"; rwMountsTemplate; "--"]%string ++ ids)) as (flags & E & Hf).
  rewrite E in Hout. apply (tr_inspect _ Ht) in Hout as (lines & Hp & Hl); [|done].
  destruct (answered_lines ids lines out Hne Hp) as [Ha Hstrip]; [by rewrite (Forall2_length _ _ _ Hl)|].
  unfold mounts_listed. rewrite Ha. split.
  - intros (line & [i Hi]%list_elem_of_lookup & Hd). rewrite Hstrip in Hd by (by eapply list_elem_of_lookup_2).
    destruct (Forall2_lookup_r _ _ _ _ _ Hl Hi) as (id & Hid & c & Hc & <- & Hdec). rewrite Hdec in Hd. injection Hd as <- <-.
    exists c. split; [|done]. split; [done|]. apply list_elem_of_lookup_2, Hids in Hid as (c' & Hc' & Hp' & Heq).
    by rewrite <- (tr_ids _ Ht c' c Hc' Hc Heq).
  - intros (c & [Hc Hpr] & -> & ->). assert (ct_ID c ∈ ids) as [i Hi]%list_elem_of_lookup by (apply Hids; by exists c).
    destruct (Forall2_lookup_l _ _ _ _ _ Hl Hi) as (line & Hline & c' & Hc' & Heq & Hdec). exists line.
    pose proof (list_elem_of_lookup_2 _ _ _ Hline) as Hin. split; [done|]. by rewrite (Hstrip _ Hin), <- (tr_ids _ Ht c' c Hc' Hc Heq).
Qed.
Lemma lines_devices project names :
  truthful project → volumes_asked names →
  ∀ d, device_listed names d ↔ host_dir d ∧ ∃ v, v ∈ volumes ∧ (vo_Name v ∈ names) ∧ device_of v = Some d.
Proof.
  intros Ht Hasked d. unfold device_listed. split.
  - intros (Hne & out & line & Hout & Hlen & Hin & Hd & Hh). split; [by apply host_device_dir|]. unfold about_volumes in Hout.
    destruct (engine_args (["volume"; "inspect"; "--format"; volumeDeviceTemplate; "--"]%string ++ names)) as (flags & E & Hf).
    rewrite E in Hout. apply (tr_volumes _ Ht) in Hout as (lines & Hp & Hl); [|done].
    destruct (answered_lines names lines out Hne Hp) as [Ha Hstrip]; [by rewrite (Forall2_length _ _ _ Hl)|].
    rewrite Ha in Hin. rewrite (Hstrip _ Hin) in Hd. apply list_elem_of_lookup in Hin as [i Hi].
    destruct (Forall2_lookup_r _ _ _ _ _ Hl Hi) as (name & Hn & v & Hv & <- & Hdec). exists v.
    split_and!; [done|by eapply list_elem_of_lookup_2|congruence].
  - intros (Hh & v & Hv & Hn & Hd). assert (Hne : names ≠ []) by (intros ->; by apply elem_of_nil in Hn).
    destruct (Hasked Hne) as (out & Hout & Hlen & Hread). split; [done|]. pose proof Hout as Hout'. unfold about_volumes in Hout'.
    destruct (engine_args (["volume"; "inspect"; "--format"; volumeDeviceTemplate; "--"]%string ++ names)) as (flags & E & Hf).
    rewrite E in Hout'. apply (tr_volumes _ Ht) in Hout' as (lines & Hp & Hl); [|done].
    destruct (answered_lines names lines out Hne Hp) as [Ha Hstrip]; [by rewrite (Forall2_length _ _ _ Hl)|].
    apply list_elem_of_lookup in Hn as [i Hi]. destruct (Forall2_lookup_l _ _ _ _ _ Hl Hi) as (line & Hline & v' & Hv' & Heq & Hdec).
    rewrite (tr_names _ Ht v' v Hv' Hv Heq), Hd in Hdec. apply list_elem_of_lookup_2 in Hline. exists out, line.
    split_and!; [done|done|by rewrite Ha|by rewrite (Hstrip _ Hline)|].
    destruct (Hread line) as [ds Hds]; [by rewrite Ha|]. eapply host_dir_read; [done|exact Hdec|by apply Hstrip|exact Hds].
Qed.
Lemma device_of_Some v d : d ≠ ""%string → device_of v = Some d ↔ vo_Driver v = "local"%string ∧ vo_Device v = Some d.
Proof.
  intros Hd. unfold device_of. destruct (vo_Device v) as [d'|]; [|naive_solver].
  destruct (String.eqb_spec (vo_Driver v) "local"), (String.eqb_spec d' ""); cbn; naive_solver.
Qed.

(** C28: when eyedbg lists the sources a project's containers can write, they
    are all there and nothing else is: with its spellings, each source of a
    read-write bind of one of the project's containers, in whatever state,
    and each host directory that is the device of a local volume one mounts
    read-write. *)
Theorem writable_complete project groups :
  truthful project → asked docker (WritableSources decode_mounts decode_device e project) = Some (Ok groups) →
  ∀ g, g ∈ groups ↔ ∃ p, spelled p g ∧ can_write project p.
Proof.
  intros Ht (ids & Hi & Ha)%writable_listed g. apply ids_asked in Hi as (out0 & Hout0 & ->).
  destruct (engine_args ["ps"; "--all"; "--no-trunc"; "--quiet"; of_project project]%string) as (flags & E & Hf). rewrite E in Hout0.
  pose proof (tr_ps _ Ht _ _ _ _ Hf Hout0) as Hids. unfold all_listed in Ha. destruct (decide _) as [En|Hne].
  { rewrite Ha. split; [by intros ?%elem_of_nil|]. intros (p & _ & c & m & Hc & Hp & _). exfalso. specialize (Hids (ct_ID c)).
    rewrite En in Hids. eapply elem_of_nil, Hids. by exists c. }
  destruct Ha as (out & names & Hout & Hlen & Hnames & Hasked & ->). setoid_rewrite spelled_iff.
  pose proof (lines_mounts project _ out Ht Hne Hids Hout Hlen) as Hm. setoid_rewrite (lines_devices project names Ht Hasked).
  setoid_rewrite Hnames. unfold bind_listed, volume_listed. setoid_rewrite Hm. split.
  - intros (p & Hg & [(bs & vs & (c & [Hc Hp] & -> & _) & (m & Hin & [Hr Hb%String.eqb_eq]%andb_true_iff & Hs)%some_listed)|
                      (Hh & v & Hv & (bs & vs & (c & [Hc Hp] & _ & ->) & (m & Hin & [[Hr Hty%String.eqb_eq]%andb_true_iff Hdr%String.eqb_eq]%andb_true_iff & Hs)%some_listed) & Hd)]).
    + exists p. split; [done|]. exists c, m. split_and!; [done|done|done|done|by left].
    + exists p. split; [done|]. exists c, m. split_and!; [done|done|done|done|]. right. split_and!; [done|done|done|].
      apply device_of_Some in Hd as [? ?]; [|by destruct Hh as (? & -> & _)]. by exists v.
  - intros (p & Hg & c & m & Hc & Hp & Hin & Hr & Hw). exists p. split; [done|]. destruct Hw as [[Hb Hs]|(Hty & Hdr & Hh & v & Hv & Hn & Hvd & Hd)].
    + left. eexists _, _. split; [by exists c|]. apply some_listed. exists m. unfold bound. by rewrite Hr, Hb.
    + right. split; [done|]. exists v. split_and!; [done| |apply device_of_Some; [by destruct Hh as (? & -> & _)|done]].
      eexists _, _. split; [by exists c|]. apply some_listed. exists m. unfold from_volume. by rewrite Hr, Hty, Hdr.
Qed.
End reported.

(** A stopped container, bound to a directory of Docker Desktop's host and
    with a volume that is one. *)
Definition shop_id : string := "0123456789012345678901234567890123456789012345678901234567890123".
Definition shop : container :=
  mkContainer shop_id "shop" false [mkDockerMount "bind" true "" "" "/host_mnt/c/src"; mkDockerMount "bind" false "" "" "/etc";
                                    mkDockerMount "volume" true "local" "data" ""].
Definition shop_data : volume := mkVolume "data" "local" (Some "/srv/data"%string).
Definition shop_docker : docker_answers := fun _ _ argv =>
  if bool_decide (argv = ["ps"; "--all"; "--no-trunc"; "--quiet"; of_project "shop"]%string) then inr (shop_id +:+ String newline "")
  else if bool_decide (argv = ["inspect"; "--type"; "container"; "--format"; mounts_asked; "--"; shop_id]%string) then inr ("mounts" +:+ String newline "")
  else if bool_decide (argv = ["volume"; "inspect"; "--format"; device_asked; "--"; "data"]%string) then inr ("device" +:+ String newline "")
  else inl ("exit status 1", "")%string.
Definition shop_mounts (line : string) : option rwMounts :=
  if line =?s "mounts" then Some (mkRwMounts (Some [Some "/host_mnt/c/src"%string; None]) (Some [Some "data"%string; None])) else None.
Definition shop_device (line : string) : option (option string) :=
  if line =?s "device" then Some (Some "/srv/data"%string) else None.
Definition shop_engine : Engine := mkEngine "docker" "" "".
Lemma shop_line l out : json_line l → out = l +:+ String newline "" → printed [l] out.
Proof. intros Hl ->. split; [done|by repeat constructor]. Qed.
Lemma shop_truthful : truthful shop_mounts shop_device shop_docker shop_engine [shop] [shop_data] "shop".
Proof.
  split.
  - by intros c c' ->%list_elem_of_singleton ->%list_elem_of_singleton.
  - by intros c c' ->%list_elem_of_singleton ->%list_elem_of_singleton.
  - intros t i flags out (_ & _ & ->) H id; [|done..]. unfold shop_docker in H. cbn [app] in H. rewrite bool_decide_eq_true_2 in H by done.
    injection H as H. assert (fields out = [shop_id]) as -> by (rewrite <- H; vm_compute; reflexivity). rewrite list_elem_of_singleton.
    split; [intros ->; exists shop; split_and!; [by left|done|done]|by intros (c & ->%list_elem_of_singleton & _ & <-)].
  - intros t i flags ids out (_ & _ & ->) H; [|done..]. unfold shop_docker in H. cbn [app] in H.
    rewrite bool_decide_eq_false_2 in H by done. case_bool_decide as E; [|by rewrite bool_decide_eq_false_2 in H by done].
    injection E as ->. injection H as <-. exists ["mounts"%string]. split; [apply shop_line; [|done]; by exists "mount"%string, "s"%char|].
    constructor; [|constructor]. exists shop. split_and!; [by left|done|done].
  - intros t i flags names out (_ & _ & ->) H; [|done..]. unfold shop_docker in H. cbn [app] in H.
    do 2 rewrite bool_decide_eq_false_2 in H by done. case_bool_decide as E; [|done].
    injection E as ->. injection H as <-. exists ["device"%string]. split; [apply shop_line; [|done]; by exists "devic"%string, "e"%char|].
    constructor; [|constructor]. exists shop_data. split_and!; [by left|done|done].
Qed.
Example writable_complete_witness :
  let groups := [["/host_mnt/c/src"; "/c/src"]; ["/srv/data"]]%string in
  asked shop_docker (WritableSources shop_mounts shop_device shop_engine "shop") = Some (Ok groups) ∧
  can_write [shop] [shop_data] "shop" "/srv/data".
Proof.
  intros groups. assert (H : asked shop_docker (WritableSources shop_mounts shop_device shop_engine "shop") = Some (Ok groups))
    by (vm_compute; reflexivity).
  split; [exact H|].
  destruct (proj1 (writable_complete shop_mounts shop_device shop_docker shop_engine [shop] [shop_data] "shop" groups shop_truthful H ["/srv/data"]%string))
    as (p & [(x & _ & [=])|[_ [= <-]]] & Hw); [by right; left|exact Hw].
Defined.
