(* ===== verification/Files.v ===== *)
(** * A file system, as eyedbg's own files use it

    Directories, files and symlinks by the names on the way to them, and the
    operating system's calls on them (Go's [os], and [os.Root]: relative
    to an opened directory, following nothing out of it). Any call may fail
    ([fails], by its number): a [RemoveAll] that fails leaves what it likes
    ([spares]). Nobody else changes the files meanwhile. No definition of
    this file models code of the repository. *)

From S2P Require Import Prelude GoStrings.
From Stdlib Require Import Ascii.

Open Scope Z_scope.

(** ** Files *)

Inductive ikind := KDir | KFile | KLink | KOther.
#[global] Instance ikind_eq_dec : EqDecision ikind.
Proof. solve_decision. Defined.
Record inode := mkInode { nd_kind : ikind; nd_mode : Z; nd_uid : Z; nd_mtime : Z; nd_data : string }.
#[global] Instance eta_inode : Eta inode := fun i => mkInode (nd_kind i) (nd_mode i) (nd_uid i) (nd_mtime i) (nd_data i).
Abbreviation path := (list string).
Abbreviation tree := (gmap path inode).

Definition kind_at (t : tree) (p : path) : option ikind := nd_kind <$> t !! p.
Definition is_dir_at (t : tree) (p : path) : Prop := kind_at t p = Some KDir.
#[global] Instance is_dir_at_dec t p : Decision (is_dir_at t p).
Proof. unfold is_dir_at. apply _. Defined.
(** Everything is in a directory; what is not there has nothing below it. *)
Definition wf_tree (t : tree) : Prop := ∀ p n, is_Some (t !! (p ++ [n])) → is_dir_at t p.
(** The name of [q] if it is directly in [p]. *)
Definition name_in (p q : path) : option string :=
  match last q with Some n => if decide (q = p ++ [n]) then Some n else None | None => None end.
Definition names_in (p : path) (t : tree) : list string := omap (fun x : path * inode => name_in p x.1) (map_to_list t).

(** ** Calls *)

Inductive cause := NotExist | Exist | Other.
#[global] Instance cause_eq_dec : EqDecision cause.
Proof. solve_decision. Defined.
Record ferr := mkErr { fe_cause : cause; fe_text : string }.
(** [fmt.Errorf] with %w: what the error is stays. *)
Definition wrap (text : string) (e : ferr) : ferr := mkErr (fe_cause e) (text +:+ ": " +:+ fe_text e).
Definition plain_error (text : string) : ferr := mkErr Other text.

Record disk := mkDisk { dk_tree : tree; dk_calls : nat; dk_now : Z; dk_uid : Z }.
#[global] Instance eta_disk : Eta disk := fun d => mkDisk (dk_tree d) (dk_calls d) (dk_now d) (dk_uid d).
Definition fsM (A : Type) : Type := disk → (ferr + A) * disk.
#[global] Instance fsM_ret : MRet fsM := fun A a d => (inr a, d).
#[global] Instance fsM_bind : MBind fsM := fun A B k m d =>
  match m d with (inl e, d) => (inl e, d) | (inr a, d) => k a d end.
Definition throw {A} (e : ferr) : fsM A := fun d => (inl e, d).
(** An error's text extended; an error looked at. *)
Definition wrapping {A} (text : string) (m : fsM A) : fsM A := fun d =>
  match m d with (inl e, d) => (inl (wrap text e), d) | r => r end.
Definition trying {A} (m : fsM A) : fsM (ferr + A) := fun d => let '(r, d) := m d in (inr r, d).

Section calls.
Context (fails : nat → bool) (spares : nat → path → bool) (listing : list string → list string) (random : nat → string).

Definition next_call (d : disk) : disk := d <| dk_calls ::= S |>.
Definition io_error : ferr := mkErr Other "input/output error".
Definition sys {A} (f : disk → (ferr + A) * disk) : fsM A := fun d =>
  if fails (dk_calls d) then (inl io_error, next_call d) else f (next_call d).
Definition not_there : ferr := mkErr NotExist "no such file or directory".
Definition there : ferr := mkErr Exist "file exists".

Definition parent_is_dir (t : tree) (p : path) : bool := match p with [] => false | _ => bool_decide (is_dir_at t (removelast p)) end.
Definition has_entries (t : tree) (p : path) : bool := match names_in p t with [] => false | _ => true end.
Definition at_tree (f : tree → tree) (d : disk) : disk := d <| dk_tree ::= f |>.

Definition lstat (p : path) : fsM inode := sys (fun d =>
  (match dk_tree d !! p with Some i => inr i | None => inl not_there end, d)).
(** In the directory's own order. *)
Definition read_dir (p : path) : fsM (list string) := sys (fun d =>
  (if decide (is_dir_at (dk_tree d) p) then inr (listing (names_in p (dk_tree d))) else inl not_there, d)).
Definition mkdir (p : path) (mode : Z) : fsM unit := sys (fun d =>
  match dk_tree d !! p with
  | Some _ => (inl there, d)
  | None => if parent_is_dir (dk_tree d) p
            then (inr (), at_tree <[p := mkInode KDir mode (dk_uid d) (dk_now d) ""]> d) else (inl not_there, d)
  end).
(** Of a real directory or file: a symlink isn't one. *)
Definition chmod (p : path) (mode : Z) : fsM unit := sys (fun d =>
  match dk_tree d !! p with
  | Some i => match nd_kind i with KLink => (inl io_error, d) | _ => (inr (), at_tree <[p := i <| nd_mode := mode |>]> d) end
  | None => (inl not_there, d)
  end).
Definition remove (p : path) : fsM unit := sys (fun d =>
  match dk_tree d !! p with
  | Some _ => if has_entries (dk_tree d) p then (inl io_error, d) else (inr (), at_tree (delete p) d)
  | None => (inl not_there, d)
  end).
(** What is left of a directory that goes, by a test on what is below it. *)
Definition keeping (keep : path → bool) (p : path) (t : tree) : tree :=
  filter (fun x : path * inode => ¬ p `prefix_of` x.1 ∨ keep x.1 = true) t.
Definition remove_all (p : path) : fsM unit := fun d =>
  if fails (dk_calls d) then (inl io_error, at_tree (keeping (spares (dk_calls d)) p) (next_call d))
  else (inr (), at_tree (keeping (fun _ => false) p) (next_call d)).
(** [O_CREATE|O_EXCL]: a file nobody had. *)
Definition create_excl (p : path) (mode : Z) : fsM unit := sys (fun d =>
  match dk_tree d !! p with
  | Some _ => (inl there, d)
  | None => if parent_is_dir (dk_tree d) p
            then (inr (), at_tree <[p := mkInode KFile mode (dk_uid d) (dk_now d) ""]> d) else (inl not_there, d)
  end).
Definition read_file (p : path) : fsM string := sys (fun d =>
  match dk_tree d !! p with
  | Some i => match nd_kind i with KFile => (inr (nd_data i), d) | _ => (inl io_error, d) end
  | None => (inl not_there, d)
  end).
Definition write_file (p : path) (data : string) : fsM unit := sys (fun d =>
  match dk_tree d !! p with
  | Some i => match nd_kind i with
              | KFile => (inr (), at_tree <[p := i <| nd_data := data |> <| nd_mtime := dk_now d |>]> d)
              | _ => (inl io_error, d)
              end
  | None => (inl not_there, d)
  end).
(** Of a file, over anything but a directory. *)
Definition rename_file (p q : path) : fsM unit := sys (fun d =>
  match dk_tree d !! p with
  | Some i =>
    if bool_decide (kind_at (dk_tree d) q = Some KDir) || negb (parent_is_dir (dk_tree d) q) || bool_decide (nd_kind i = KDir)
    then (inl io_error, d) else (inr (), at_tree (fun t => <[q := i]> (delete p t)) d)
  | None => (inl not_there, d)
  end).
(** A hard link: another name of a file. *)
Definition hard_link (p q : path) : fsM unit := sys (fun d =>
  match dk_tree d !! p with
  | None => (inl not_there, d)
  | Some i =>
    match dk_tree d !! q with
    | Some _ => (inl there, d)
    | None => if negb (parent_is_dir (dk_tree d) q) || bool_decide (nd_kind i = KDir) then (inl io_error, d)
              else (inr (), at_tree <[q := i]> d)
    end
  end).
(** Random bytes, by the number of the call. *)
Definition rand_bytes (n : nat) : fsM string := sys (fun d => (inr (stake n (random (dk_calls d))), d)).
End calls.

Definition hex_digit (d : Z) : ascii := if d <? 10 then ascii_of (48 + d) else ascii_of (87 + d).
(** [hex.EncodeToString] *)
Fixpoint hex_of (s : string) : string :=
  match s with
  | EmptyString => ""
  | String c s => String (hex_digit (byte_of c / 16)) (String (hex_digit (byte_of c mod 16)) (hex_of s))
  end.

(** [for range n]: tries a step until it answers; [Some] ends the loop. *)
Fixpoint attempts {A} (n : nat) (step : fsM (option A)) (exhausted : ferr) : fsM A :=
  match n with
  | O => throw exhausted
  | S n => r ← step; match r with Some a => mret a | None => attempts n step exhausted end
  end.
Fixpoint each {A} (f : A → fsM unit) (l : list A) : fsM unit :=
  match l with [] => mret () | a :: l => _ ← f a; each f l end.

(** ** Running a call *)

(** A run that succeeded, and its parts. *)
Definition runs {A} (m : fsM A) (d : disk) (a : A) (d' : disk) : Prop := m d = (inr a, d').
Lemma runs_bind {A B} (m : fsM A) (k : A → fsM B) d b d' :
  runs (a ← m; k a) d b d' ↔ ∃ a d1, runs m d a d1 ∧ runs (k a) d1 b d'.
Proof.
  unfold runs, mbind, fsM_bind. destruct (m d) as [[e|a] d1]; split.
  - done.
  - by intros (a & d2 & ? & _).
  - intros H. by exists a, d1.
  - by intros (a' & d2 & [= <- <-] & H).
Qed.
Lemma runs_ret {A} (a : A) d b d' : runs (mret a) d b d' ↔ a = b ∧ d = d'.
Proof. unfold runs, mret, fsM_ret. split; [by intros [= -> ->]|by intros [-> ->]]. Qed.
Lemma runs_throw {A} e d (a : A) d' : ¬ runs (throw e) d a d'.
Proof. done. Qed.
Lemma runs_wrapping {A} text (m : fsM A) d a d' : runs (wrapping text m) d a d' ↔ runs m d a d'.
Proof. unfold runs, wrapping. by destruct (m d) as [[e|x] d1]. Qed.
Lemma runs_sys {A} fails (f : disk → (ferr + A) * disk) d a d' :
  runs (sys fails f) d a d' ↔ fails (dk_calls d) = false ∧ f (next_call d) = (inr a, d').
Proof. unfold runs, sys. destruct (fails _); split; naive_solver. Qed.

(** Peels a run into its parts. *)
Ltac run_parts :=
  repeat match goal with
  | H : runs (mbind _ _) _ _ _ |- _ => apply runs_bind in H as (? & ? & ? & ?)
  | H : runs (wrapping _ _) _ _ _ |- _ => apply runs_wrapping in H
  | H : runs (mret _) _ _ _ |- _ => apply runs_ret in H as [? ?]; subst
  | H : runs (throw _) _ _ _ |- _ => by destruct (runs_throw _ _ _ _ H)
  end.

Section run_calls.
Context (fails : nat → bool) (spares : nat → path → bool) (listing : list string → list string) (random : nat → string).

Lemma runs_lstat p d i d' : runs (lstat fails p) d i d' → dk_tree d !! p = Some i ∧ dk_tree d' = dk_tree d.
Proof. intros [_ H]%runs_sys. cbn in H. destruct (dk_tree d !! p) as [j|]; [|done]. by injection H as -> <-. Qed.
Lemma runs_read_dir p d l d' :
  runs (read_dir fails listing p) d l d' →
  is_dir_at (dk_tree d) p ∧ l = listing (names_in p (dk_tree d)) ∧ dk_tree d' = dk_tree d.
Proof. intros [_ H]%runs_sys. cbn in H. destruct (decide _); [|done]. by injection H as <- <-. Qed.
Lemma runs_mkdir p mode d u d' :
  runs (mkdir fails p mode) d u d' →
  dk_tree d !! p = None ∧ parent_is_dir (dk_tree d) p = true ∧
  dk_tree d' = <[p := mkInode KDir mode (dk_uid d) (dk_now d) ""]> (dk_tree d).
Proof.
  intros [_ H]%runs_sys. cbn in H. destruct (dk_tree d !! p) eqn:E; [done|]. destruct (parent_is_dir _ _) eqn:Ep; [|done].
  by injection H as _ <-.
Qed.
Lemma runs_chmod p mode d u d' :
  runs (chmod fails p mode) d u d' →
  ∃ i, dk_tree d !! p = Some i ∧ nd_kind i ≠ KLink ∧ dk_tree d' = <[p := i <| nd_mode := mode |>]> (dk_tree d).
Proof.
  intros [_ H]%runs_sys. cbn in H. destruct (dk_tree d !! p) as [i|] eqn:E; [|done]. exists i.
  destruct (nd_kind i) eqn:Ek; try done; by injection H as _ <-.
Qed.
Lemma runs_remove p d u d' :
  runs (remove fails p) d u d' →
  is_Some (dk_tree d !! p) ∧ has_entries (dk_tree d) p = false ∧ dk_tree d' = delete p (dk_tree d).
Proof.
  intros [_ H]%runs_sys. cbn in H. destruct (dk_tree d !! p) as [i|] eqn:E; [|done].
  destruct (has_entries (dk_tree d) p) eqn:Ee; [done|]. by injection H as _ <-.
Qed.
Lemma runs_remove_all p d u d' :
  runs (remove_all fails spares p) d u d' → dk_tree d' = keeping (fun _ => false) p (dk_tree d).
Proof. unfold runs, remove_all. destruct (fails _); [done|]. by intros [= _ <-]. Qed.
Lemma runs_create p mode d u d' :
  runs (create_excl fails p mode) d u d' →
  dk_tree d !! p = None ∧ parent_is_dir (dk_tree d) p = true ∧
  dk_tree d' = <[p := mkInode KFile mode (dk_uid d) (dk_now d) ""]> (dk_tree d).
Proof.
  intros [_ H]%runs_sys. cbn in H. destruct (dk_tree d !! p) eqn:E; [done|]. destruct (parent_is_dir _ _) eqn:Ep; [|done].
  by injection H as _ <-.
Qed.
Lemma runs_read_file p d s d' :
  runs (read_file fails p) d s d' →
  (∃ i, dk_tree d !! p = Some i ∧ nd_kind i = KFile ∧ nd_data i = s) ∧ dk_tree d' = dk_tree d.
Proof.
  intros [_ H]%runs_sys. cbn in H. destruct (dk_tree d !! p) as [i|] eqn:E; [|done].
  destruct (nd_kind i) eqn:Ek; try done. injection H as <- <-. split; [by exists i|done].
Qed.
Lemma runs_write_file p s d u d' :
  runs (write_file fails p s) d u d' →
  ∃ i, dk_tree d !! p = Some i ∧ nd_kind i = KFile ∧
       dk_tree d' = <[p := i <| nd_data := s |> <| nd_mtime := dk_now d |>]> (dk_tree d).
Proof.
  intros [_ H]%runs_sys. cbn in H. destruct (dk_tree d !! p) as [i|] eqn:E; [|done].
  destruct (nd_kind i) eqn:Ek; try done. injection H as _ <-. by exists i.
Qed.
Lemma runs_rename p q d u d' :
  runs (rename_file fails p q) d u d' →
  ∃ i, dk_tree d !! p = Some i ∧ nd_kind i ≠ KDir ∧ kind_at (dk_tree d) q ≠ Some KDir ∧
       dk_tree d' = <[q := i]> (delete p (dk_tree d)).
Proof.
  intros [_ H]%runs_sys. cbn in H. destruct (dk_tree d !! p) as [i|] eqn:E; [|done].
  destruct (_ || _) eqn:Eb; [done|]. apply orb_false_iff in Eb as [[H1 _]%orb_false_iff H2].
  apply bool_decide_eq_false in H1, H2. injection H as _ <-. by exists i.
Qed.
Lemma runs_rand n d s d' : runs (rand_bytes fails random n) d s d' → dk_tree d' = dk_tree d.
Proof. intros [_ H]%runs_sys. by injection H as _ <-. Qed.
(** What a call that may fail did, tried: its answer, or nothing changed. *)
Lemma runs_trying {A} (m : fsM A) d r d' :
  runs (trying m) d r d' → match r with inr a => runs m d a d' | inl e => m d = (inl e, d') end.
Proof. unfold runs, trying. destruct (m d) as [[e|a] d1]; by intros [= <- <-]. Qed.
Lemma tries {A : Type} (m : fsM A) d : ∃ r d', runs (trying m) d r d'.
Proof. unfold runs, trying. destruct (m d) as [r d']. by exists r, d'. Qed.
Lemma failed_lstat p d e d' : lstat fails p d = (inl e, d') → dk_tree d' = dk_tree d.
Proof. unfold lstat, sys. destruct (fails _); [by intros [= _ <-]|]. cbn. destruct (_ !! _); by intros [= _ <-]. Qed.
Lemma failed_remove p d e d' : remove fails p d = (inl e, d') → dk_tree d' = dk_tree d.
Proof.
  unfold remove, sys. destruct (fails _); [by intros [= _ <-]|]. cbn.
  destruct (_ !! _); [|by intros [= _ <-]]. destruct (has_entries _ _); by intros [= _ <-].
Qed.
Lemma failed_create p mode d e d' : create_excl fails p mode d = (inl e, d') → dk_tree d' = dk_tree d.
Proof.
  unfold create_excl, sys. destruct (fails _); [by intros [= _ <-]|]. cbn.
  destruct (_ !! _); [by intros [= _ <-]|]. destruct (parent_is_dir _ _); by intros [= _ <-].
Qed.
Lemma runs_attempts {A} n (step : fsM (option A)) e d a d' (inv : disk → Prop) :
  (∀ d d', inv d → runs step d None d' → inv d') → inv d → runs (attempts n step e) d a d' →
  ∃ d1, inv d1 ∧ runs step d1 (Some a) d'.
Proof.
  intros Hinv. revert d. induction n as [|n IH]; cbn; intros d Hd H; run_parts.
  destruct x as [b|]; run_parts; [by exists d|]. eapply IH; [|done]. by eapply Hinv.
Qed.
Lemma runs_each {A} (f : A → fsM unit) l d u d' (inv : list A → disk → Prop) :
  (∀ before a after d d', l = before ++ a :: after → inv before d → runs (f a) d () d' → inv (before ++ [a]) d') →
  inv [] d → runs (each f l) d u d' → inv l d'.
Proof.
  intros Hstep Hnil Hrun. enough (∀ after before d, l = before ++ after → inv before d → runs (each f after) d u d' → inv l d') as H
    by (by apply (H l [] d)).
  clear d Hnil Hrun. intros after. induction after as [|a after IH]; intros before d Hl Hb Hrun; cbn in Hrun; run_parts.
  - by rewrite app_nil_r.
  - destruct x. eapply (IH (before ++ [a])); [by rewrite <- app_assoc| |done]. by eapply Hstep.
Qed.
End run_calls.

(** ** Trees *)

Lemma kind_at_some (t : tree) q k i : t !! q = Some i → nd_kind i = k → kind_at t q = Some k.
Proof. unfold kind_at. by intros -> <-. Qed.
Lemma name_in_Some p q n : name_in p q = Some n ↔ q = p ++ [n].
Proof.
  unfold name_in. split.
  - destruct (last q) as [m|]; [|done]. destruct (decide _) as [->|]; [by intros [= ->]|done].
  - intros ->. rewrite last_snoc. by destruct (decide _).
Qed.
Lemma names_in_spec p t n : n ∈ names_in p t ↔ is_Some (t !! (p ++ [n])).
Proof.
  unfold names_in. rewrite list_elem_of_omap. split.
  - intros ([q i] & Hq & Hn%name_in_Some). cbn in Hn. subst. apply elem_of_map_to_list in Hq. by exists i.
  - intros [i Hi]. exists (p ++ [n], i). split; [by apply elem_of_map_to_list|by apply name_in_Some].
Qed.
Lemma wf_above t p q : wf_tree t → q ≠ [] → is_Some (t !! (p ++ q)) → is_dir_at t p.
Proof.
  intros Hwf. induction q as [|n q IH] using rev_ind; [done|]. intros _ H. rewrite app_assoc in H. apply Hwf in H.
  destruct q as [|m q]; [by rewrite app_nil_r in H|]. apply IH; [done|].
  unfold is_dir_at, kind_at in H. apply fmap_Some in H as (i & Hi & _). by exists i.
Qed.
Lemma wf_new (t : tree) p i : wf_tree t → t !! p = None → parent_is_dir t p = true → wf_tree (<[p:=i]> t).
Proof.
  intros Hwf Hn Hp q n Hs. assert (Hne : is_dir_at t q).
  { destruct (decide (q ++ [n] = p)) as [<-|Hne].
    - unfold parent_is_dir in Hp. destruct (q ++ [n]) eqn:E; [done|]. rewrite <- E, removelast_last in Hp. by apply bool_decide_eq_true in Hp.
    - rewrite lookup_insert_ne in Hs by done. by apply (Hwf q n). }
  unfold is_dir_at, kind_at in *. rewrite lookup_insert_ne; [done|]. intros ->. by rewrite Hn in Hne.
Qed.
Lemma wf_same_kind (t : tree) p i j : wf_tree t → t !! p = Some j → nd_kind i = nd_kind j → wf_tree (<[p:=i]> t).
Proof.
  intros Hwf Hp Hk q n Hs. assert (Hd : is_dir_at t q).
  { apply (Hwf q n). destruct (decide (p = q ++ [n])) as [->|Hne]; [by exists j|by rewrite lookup_insert_ne in Hs]. }
  unfold is_dir_at, kind_at in *. destruct (decide (p = q)) as [->|]; [|by rewrite lookup_insert_ne].
  rewrite lookup_insert_eq. rewrite Hp in Hd. cbn in *. congruence.
Qed.
Lemma wf_delete (t : tree) p : wf_tree t → has_entries t p = false → wf_tree (delete p t).
Proof.
  intros Hwf He q n Hs. destruct (decide (p = q ++ [n])) as [->|Hne]; [rewrite lookup_delete_eq in Hs; by destruct Hs|].
  rewrite lookup_delete_ne in Hs by done. pose proof (Hwf q n Hs) as Hd. unfold is_dir_at, kind_at in *.
  rewrite lookup_delete_ne; [done|]. intros ->. unfold has_entries in He. apply names_in_spec in Hs.
  destruct (names_in q t); [by apply not_elem_of_nil in Hs|done].
Qed.
Lemma keeping_lookup keep p t q :
  keeping keep p t !! q = if decide (¬ p `prefix_of` q ∨ keep q = true) then t !! q else None.
Proof.
  unfold keeping. rewrite map_lookup_filter. destruct (t !! q) as [i|]; cbn; [|by destruct (decide _)].
  destruct (decide (¬ p `prefix_of` q ∨ keep q = true)) as [H|H]; [by rewrite option_guard_True|by rewrite option_guard_False].
Qed.

(** [wf_tree], decided. *)
Definition wf_check (t : tree) : bool :=
  forallb (fun x : path * inode => match x.1 with [] => true | p => bool_decide (is_dir_at t (removelast p)) end) (map_to_list t).
Lemma wf_checked t : wf_check t = true → wf_tree t.
Proof.
  unfold wf_check. rewrite forallb_forall. intros H p n [i Hi]. specialize (H (p ++ [n], i)).
  destruct (p ++ [n]) as [|a l] eqn:E; [by destruct p|].
  assert (Hr : removelast (a :: l) = p) by (rewrite <- E; apply removelast_last). unfold fst in H. rewrite Hr in H.
  apply (bool_decide_eq_true_1 _), H, list_elem_of_In, elem_of_map_to_list. exact Hi.
Defined.

(** ** What changes nothing *)

Create HintDb quiet.

Definition quiet {A} (m : fsM A) : Prop := ∀ d, dk_tree (m d).2 = dk_tree d.
Lemma quiet_ret {A} (a : A) : quiet (mret a).
Proof. done. Qed.
Lemma quiet_throw {A} e : quiet (throw e : fsM A).
Proof. done. Qed.
Lemma quiet_bind {A B} (m : fsM A) (k : A → fsM B) : quiet m → (∀ a, quiet (k a)) → quiet (a ← m; k a).
Proof.
  intros Hm Hk d. unfold mbind, fsM_bind. specialize (Hm d). destruct (m d) as [[e|a] d1]; cbn in *; [done|]. by rewrite Hk.
Qed.
Lemma quiet_wrapping {A} text (m : fsM A) : quiet m → quiet (wrapping text m).
Proof. intros Hm d. unfold wrapping. specialize (Hm d). by destruct (m d) as [[e|a] d1]. Qed.
Lemma quiet_trying {A} (m : fsM A) : quiet m → quiet (trying m).
Proof. intros Hm d. unfold trying. specialize (Hm d). by destruct (m d) as [r d1]. Qed.
Lemma quiet_lstat fails p : quiet (lstat fails p).
Proof. intros d. unfold lstat, sys. by destruct (fails _). Qed.
Lemma quiet_read_dir fails listing p : quiet (read_dir fails listing p).
Proof. intros d. unfold read_dir, sys. by destruct (fails _). Qed.
Lemma quiet_read_file fails p : quiet (read_file fails p).
Proof.
  intros d. unfold read_file, sys. destruct (fails _); [done|]. cbn. destruct (_ !! p) as [i|]; [|done]. by destruct (nd_kind i).
Qed.
Lemma quiet_rand fails random n : quiet (rand_bytes fails random n).
Proof. intros d. unfold rand_bytes, sys. by destruct (fails _). Qed.
#[export] Hint Resolve quiet_ret quiet_throw quiet_bind quiet_wrapping quiet_trying quiet_lstat quiet_read_dir quiet_read_file quiet_rand : quiet.

(** A run, or what it left when it failed. *)
Lemma run_or_failed {A} (m : fsM A) d : (∃ a d', runs m d a d') ∨ (∃ e d', m d = (inl e, d')).
Proof. destruct (m d) as [[e|a] d'] eqn:E; [right; by exists e, d'|left; by exists a, d']. Qed.
Lemma quiet_run {A} (m : fsM A) d a d' : quiet m → runs m d a d' → dk_tree d' = dk_tree d.
Proof. intros Hq H. specialize (Hq d). by rewrite H in Hq. Qed.

(** ** When no call fails *)

Abbreviation never := (fun _ : nat => false).
Section never_fails.
Lemma run_lstat p d i : dk_tree d !! p = Some i → runs (lstat never p) d i (next_call d).
Proof. intros H. unfold runs, lstat, sys. cbn. by rewrite H. Qed.
Lemma run_lstat_none p d : dk_tree d !! p = None → lstat never p d = (inl not_there, next_call d).
Proof. intros H. unfold lstat, sys. cbn. by rewrite H. Qed.
Lemma run_read_dir listing p d :
  is_dir_at (dk_tree d) p → runs (read_dir never listing p) d (listing (names_in p (dk_tree d))) (next_call d).
Proof. intros H. unfold runs, read_dir, sys. cbn. by destruct (decide _). Qed.
Lemma run_mkdir p mode d :
  dk_tree d !! p = None → parent_is_dir (dk_tree d) p = true → ∃ d', runs (mkdir never p mode) d () d'.
Proof. intros H Hp. eexists. unfold runs, mkdir, sys. cbn. by rewrite H, Hp. Qed.
Lemma run_chmod p mode d i : dk_tree d !! p = Some i → nd_kind i ≠ KLink → ∃ d', runs (chmod never p mode) d () d'.
Proof. intros H Hk. unfold runs, chmod, sys. cbn. rewrite H. destruct (nd_kind i); [by eexists|by eexists|done|by eexists]. Qed.
Lemma run_remove p d : is_Some (dk_tree d !! p) → has_entries (dk_tree d) p = false → ∃ d', runs (remove never p) d () d'.
Proof. intros [i H] He. eexists. unfold runs, remove, sys. cbn. by rewrite H, He. Qed.
Lemma run_remove_all spares p d : ∃ d', runs (remove_all never spares p) d () d'.
Proof. by eexists. Qed.
Lemma run_create p mode d :
  dk_tree d !! p = None → parent_is_dir (dk_tree d) p = true → ∃ d', runs (create_excl never p mode) d () d'.
Proof. intros H Hp. eexists. unfold runs, create_excl, sys. cbn. by rewrite H, Hp. Qed.
Lemma run_read_file p d i : dk_tree d !! p = Some i → nd_kind i = KFile → runs (read_file never p) d (nd_data i) (next_call d).
Proof. intros H Hk. unfold runs, read_file, sys. cbn. by rewrite H, Hk. Qed.
Lemma run_write_file p s d i : dk_tree d !! p = Some i → nd_kind i = KFile → ∃ d', runs (write_file never p s) d () d'.
Proof. intros H Hk. eexists. unfold runs, write_file, sys. cbn. by rewrite H, Hk. Qed.
Lemma run_rename p q d i :
  dk_tree d !! p = Some i → nd_kind i ≠ KDir → kind_at (dk_tree d) q ≠ Some KDir → parent_is_dir (dk_tree d) q = true →
  ∃ d', runs (rename_file never p q) d () d'.
Proof.
  intros H Hk Hq Hp. eexists. unfold runs, rename_file, sys. cbn. rewrite H, Hp.
  rewrite (bool_decide_eq_false_2 _ Hq), (bool_decide_eq_false_2 _ Hk). done.
Qed.
Lemma run_rand random n d : runs (rand_bytes never random n) d (stake n (random (S (dk_calls d)))) (next_call d).
Proof. done. Qed.
Lemma bind_runs {A B} (m : fsM A) (k : A → fsM B) d a d1 (P : B → disk → Prop) :
  runs m d a d1 → (∃ b d', runs (k a) d1 b d' ∧ P b d') → ∃ b d', runs (a ← m; k a) d b d' ∧ P b d'.
Proof. intros Hm (b & d' & Hk & HP). exists b, d'. split; [|done]. apply runs_bind. by exists a, d1. Qed.
Lemma run_bind_unit {A} (m : fsM A) (k : A → fsM unit) d a d1 :
  runs m d a d1 → (∃ d', runs (k a) d1 () d') → ∃ d', runs (a ← m; k a) d () d'.
Proof. intros Hm [d' Hk]. exists d'. apply runs_bind. by exists a, d1. Qed.
Lemma each_runs {A : Type} (f : A → fsM unit) l d (inv : list A → disk → Prop) :
  (∀ before a after d, l = before ++ a :: after → inv before d → ∃ d', runs (f a) d () d' ∧ inv (before ++ [a]) d') →
  inv [] d → ∃ d', runs (each f l) d () d' ∧ inv l d'.
Proof.
  intros Hstep Hnil. enough (∀ after before d, l = before ++ after → inv before d → ∃ d', runs (each f after) d () d' ∧ inv l d') as H
    by (by apply (H l [])).
  clear d Hnil. intros after. induction after as [|a after IH]; intros before d Hl Hb.
  - exists d. rewrite Hl, app_nil_r. split; [done|]. by rewrite app_nil_r in Hl; subst.
  - destruct (Hstep before a after d Hl Hb) as (d1 & H1 & Hinv). 
    assert (Hl' : l = (before ++ [a]) ++ after) by (by rewrite <- app_assoc).
    destruct (IH (before ++ [a]) d1 Hl' Hinv) as (d' & H' & ?). exists d'. split; [|done]. cbn. apply runs_bind. by exists (), d1.
Qed.
End never_fails.
Lemma no_entries t p : wf_tree t → ¬ is_dir_at t p → has_entries t p = false.
Proof.
  intros Hwf Hp. unfold has_entries. destruct (names_in p t) as [|n l] eqn:E; [done|]. exfalso. apply Hp, (Hwf p n), names_in_spec.
  rewrite E. by left.
Qed.
Lemma parent_dir t p n : is_dir_at t p → parent_is_dir t (p ++ [n]) = true.
Proof.
  intros H. unfold parent_is_dir. rewrite removelast_last. destruct (p ++ [n]) eqn:E; [by destruct p|]. by apply bool_decide_eq_true_2.
Qed.
Lemma names_in_NoDup p t : NoDup (names_in p t).
Proof.
  unfold names_in. pose proof (NoDup_fst_map_to_list t) as H. induction (map_to_list t) as [|[q i] l IH]; cbn in *; [constructor|].
  apply NoDup_cons in H as [Hq Hl]. destruct (name_in p q) as [n|] eqn:E; [|by apply IH]. constructor; [|by apply IH].
  intros (x & Hx & Hn)%list_elem_of_omap. apply name_in_Some in E, Hn. apply Hq. apply list_elem_of_fmap. exists x. split; [congruence|done].
Qed.

(** ** What holds however a computation ends

    [hoare P m Q E]: from [P], an answer [a] leaves [Q a], an error [E]. *)

Definition hoare {A : Type} (P : tree → Prop) (m : fsM A) (Q : A → tree → Prop) (E : tree → Prop) : Prop :=
  ∀ d, P (dk_tree d) → match m d with (inr a, d') => Q a (dk_tree d') | (inl _, d') => E (dk_tree d') end.
Section hoare.
Context {A B : Type}.
Lemma hoare_ret (a : A) (P E : tree → Prop) : hoare P (mret a) (fun b t => b = a ∧ P t) E.
Proof. by intros d H. Qed.
Lemma hoare_throw (e : ferr) (P : tree → Prop) (Q : A → tree → Prop) : hoare P (throw e) Q P.
Proof. by intros d H. Qed.
Lemma hoare_bind (P : tree → Prop) (m : fsM A) (k : A → fsM B) (Q : A → tree → Prop) (Q' : B → tree → Prop) (E : tree → Prop) :
  hoare P m Q E → (∀ a, hoare (Q a) (k a) Q' E) → hoare P (a ← m; k a) Q' E.
Proof.
  intros Hm Hk d Hd. specialize (Hm d Hd). unfold mbind, fsM_bind. destruct (m d) as [[e|a] d1]; [done|]. by apply Hk.
Qed.
Lemma hoare_weaken (P P' : tree → Prop) (m : fsM A) (Q Q' : A → tree → Prop) (E E' : tree → Prop) :
  hoare P m Q E → (∀ t, P' t → P t) → (∀ a t, Q a t → Q' a t) → (∀ t, E t → E' t) → hoare P' m Q' E'.
Proof. intros Hm HP HQ HE d Hd. specialize (Hm d (HP _ Hd)). destruct (m d) as [[e|a] d1]; auto. Qed.
Lemma hoare_wrapping (text : string) (P : tree → Prop) (m : fsM A) (Q : A → tree → Prop) (E : tree → Prop) : hoare P m Q E → hoare P (wrapping text m) Q E.
Proof. intros Hm d Hd. specialize (Hm d Hd). unfold wrapping. by destruct (m d) as [[e|a] d1]. Qed.
Lemma hoare_trying (P : tree → Prop) (m : fsM A) (Q : A → tree → Prop) (E E' : tree → Prop) :
  hoare P m Q E → hoare P (trying m) (fun r t => match r with inr a => Q a t | inl _ => E t end) E'.
Proof. intros Hm d Hd. specialize (Hm d Hd). unfold trying. by destruct (m d) as [[e|a] d1]. Qed.
Lemma hoare_quiet (P : tree → Prop) (m : fsM A) : quiet m → hoare P m (fun _ => P) P.
Proof. intros Hq d Hd. specialize (Hq d). destruct (m d) as [[e|a] d1]; cbn in Hq; by rewrite Hq. Qed.
(** What a computation answers, of what it must find there. *)
Lemma hoare_pure (P : tree → Prop) (m : fsM A) (Q : A → tree → Prop) (E : tree → Prop) (F : Prop) : (F → hoare P m Q E) → hoare (fun t => F ∧ P t) m Q E.
Proof. intros H d [HF Hd]. by apply H. Qed.
End hoare.
Lemma hoare_each {A : Type} (f : A → fsM unit) (l : list A) (I E : tree → Prop) :
  (∀ a, a ∈ l → hoare I (f a) (fun _ => I) E) → hoare I (each f l) (fun _ => I) E.
Proof.
  induction l as [|a l IH]; intros H; cbn; [by intros d Hd|]. eapply hoare_bind; [apply H; by left|]. intros []. apply IH. intros b Hb. apply H. by right.
Qed.
Lemma hoare_attempts {A : Type} (n : nat) (step : fsM (option A)) (e : ferr) (I : tree → Prop) (Q : A → tree → Prop) (E : tree → Prop) :
  hoare I step (fun r t => match r with Some a => Q a t | None => I t end) E → (∀ t, I t → E t) → hoare I (attempts n step e) Q E.
Proof.
  intros Hs HE. induction n as [|n IH]; cbn; [intros d Hd; by apply HE|]. eapply hoare_bind; [exact Hs|].
  intros [a|]; [by intros d Hd|exact IH].
Qed.
Lemma hoare_sys {A : Type} (fails : nat → bool) (f : disk → (ferr + A) * disk) (P : tree → Prop) (Q : A → tree → Prop) (E : tree → Prop) :
  (∀ d, P (dk_tree d) → match f d with (inr a, d') => Q a (dk_tree d') | (inl _, d') => E (dk_tree d') end) → (∀ t, P t → E t) →
  hoare P (sys fails f) Q E.
Proof. intros Hf HE d Hd. unfold sys. destruct (fails _); [by apply HE|]. by apply Hf. Qed.
