(* ===== verification/Mirror.v ===== *)
(** * Mirroring a build into a service's directory (internal/artifacts/mirror.go)

    Fast mode copies a build over the directory a container has mounted:
    [Mirror] makes it hold exactly what the build holds. The two directories
    are real paths of one file system (Files.v); a path inside one is the
    list of its names. *)

From S2P Require Import Prelude GoStrings Files.
From Stdlib Require Import Ascii.

Open Scope Z_scope.

Definition maxMirrorEntries : Z := 200000.
Definition maxMirrorDepth : nat := 64.
Definition mirrorDirMode : Z := 493.   (* 0o755 *)
Definition mirrorFileMode : Z := 420.  (* 0o644 *)
Definition mirrorExecMode : Z := 493.
Definition mirrorTempMode : Z := 384.  (* 0o600 *)
Definition mirrorTempName : string := ".eyedbg-tmp-".
Definition nameTries : nat := 5.

Inductive kind := kindDir | kindFile.
#[global] Instance kind_eq_dec : EqDecision kind.
Proof. solve_decision. Defined.
Record srcFile := mkSrcFile { sf_rel : path; sf_exec : bool }.
(** The scanner's: how many entries it counted, and the tree it read. *)
Record srcTree := mkTree { st_count : Z; st_dirs : list path; st_files : list srcFile; st_kinds : gmap path kind }.
#[global] Instance eta_srcTree : Eta srcTree := fun s => mkTree (st_count s) (st_dirs s) (st_files s) (st_kinds s).

Section mirror.
Context (fails : nat → bool) (spares : nat → path → bool) (listing : list string → list string) (random : nat → string).
(** [strings.ToLower], and [filepath.IsLocal] of one name. *)
Context (to_lower : string → string) (is_local : string → bool).

Abbreviation lstat := (lstat fails).
Abbreviation read_dir := (read_dir fails listing).

(** *** The source, scanned *)

Definition checkName (fold : bool) (entries : Z) (name : string) (seen : gmap string string) (s : srcTree) :
    fsM (gmap string string * srcTree) :=
  let s := s <| st_count ::= Z.succ |> in
  if entries <? st_count s then throw (plain_error "too many entries")
  else if negb (is_local name) then throw (plain_error "not a name a file system keeps here")
  else if fold : bool
  then match seen !! to_lower name with
       | Some _ => throw (plain_error "names that differ only in case")
       | None => mret (<[to_lower name := name]> seen, s)
       end
  else mret (seen, s).
Definition exec_bits (mode : Z) : bool := negb (Z.land mode 73 =? 0).   (* 0o111 *)

(** [walk]'s loop over a directory's names. *)
Fixpoint visit_names (visit : path → srcTree → fsM srcTree) (fold : bool) (entries : Z) (dir : path) (names : list string)
    (seen : gmap string string) (s : srcTree) : fsM srcTree :=
  match names with
  | [] => mret s
  | name :: names =>
    seen_s ← checkName fold entries name seen s;
    s ← visit (dir ++ [name]) seen_s.2;
    visit_names visit fold entries dir names seen_s.1 s
  end.
(** [walk] is given how many levels are left: one more than its depth may
    still grow. *)
Definition visit (descend : path → srcTree → fsM srcTree) (root rel : path) (s : srcTree) : fsM srcTree :=
  info ← wrapping "stat" (lstat (root ++ rel));
  match nd_kind info with
  | KDir => descend rel (s <| st_dirs ::= fun l => l ++ [rel] |> <| st_kinds ::= <[rel := kindDir]> |>)
  | KFile => mret (s <| st_files ::= fun l => l ++ [mkSrcFile rel (exec_bits (nd_mode info))] |> <| st_kinds ::= <[rel := kindFile]> |>)
  | _ => throw (plain_error "not a regular file or a directory")
  end.
Fixpoint walk (fold : bool) (entries : Z) (root : path) (levels : nat) (dir : path) (s : srcTree) : fsM srcTree :=
  match levels with
  | O => throw (plain_error "directories too deep")
  | S levels =>
    names ← read_dir (root ++ dir);
    visit_names (visit (walk fold entries root levels) root) fold entries dir names ∅ s
  end.
Definition scanTree (fold : bool) (entries : Z) (depth : nat) (root : path) : fsM srcTree :=
  walk fold entries root (S depth) [] (mkTree 0 [] [] ∅).

(** *** The destination, cleared *)

Definition pruneEntry (enter : path → fsM unit) (root rel : path) (kinds : gmap path kind) : fsM unit :=
  info ← wrapping "stat" (lstat (root ++ rel));
  match nd_kind info, kinds !! rel with
  | KDir, Some kindDir => enter rel
  | KFile, Some kindFile => mret ()
  | KDir, _ => wrapping "remove" (remove_all fails spares (root ++ rel))
  | _, _ => wrapping "remove" (remove fails (root ++ rel))
  end.
(** It enters only directories the source has, as many levels down as the
    source has ([prune_deep_enough]). *)
Fixpoint pruneDst (levels : nat) (root dir : path) (kinds : gmap path kind) : fsM unit :=
  match levels with
  | O => throw (plain_error "directories too deep")
  | S levels =>
    names ← read_dir (root ++ dir);
    each (fun name => pruneEntry (fun rel => pruneDst levels root rel kinds) root (dir ++ [name]) kinds) names
  end.

(** *** And filled *)

Definition ensureDstDir (root rel : path) : fsM unit :=
  info ← trying (lstat (root ++ rel));
  _ ← match info with
      | inl e => if bool_decide (fe_cause e = NotExist) then wrapping "mkdir" (mkdir fails (root ++ rel) mirrorDirMode)
                 else throw (wrap "stat" e)
      | inr i => if bool_decide (nd_kind i = KDir) then mret () else throw (plain_error "it is not a real directory")
      end;
  wrapping "chmod" (chmod fails (root ++ rel) mirrorDirMode).

Definition createDstTemp (root dir : path) : fsM path :=
  attempts nameTries
    (b ← wrapping "pick a file name" (rand_bytes fails random 8);
     let rel := dir ++ [mirrorTempName +:+ hex_of b] in
     r ← trying (create_excl fails (root ++ rel) mirrorTempMode);
     match r with
     | inl e => if bool_decide (fe_cause e = Exist) then mret None else throw (wrap "create a temporary file" e)
     | inr _ => mret (Some rel)
     end)
    (plain_error "create a temporary file: names taken").

(** On an error once the temporary file is there, it is removed, if that
    works. *)
Definition undoing {A} (p : path) (m : fsM A) : fsM A :=
  r ← trying m;
  match r with
  | inr a => mret a
  | inl e => _ ← trying (remove fails p); throw e
  end.
Definition copyFileTo (src dst : path) (f : srcFile) : fsM unit :=
  data ← wrapping "open" (read_file fails (src ++ sf_rel f));
  tmp ← createDstTemp dst (removelast (sf_rel f));
  undoing (dst ++ tmp)
    (_ ← wrapping "write" (write_file fails (dst ++ tmp) data);
     _ ← wrapping "chmod" (chmod fails (dst ++ tmp) (if sf_exec f then mirrorExecMode else mirrorFileMode));
     wrapping "rename" (rename_file fails (dst ++ tmp) (dst ++ sf_rel f))).

(** *** All of it *)

(** [openRealDir] (compose.go), of a path whose parents are resolved. *)
Definition openRealDir (dir : path) : fsM unit :=
  info ← wrapping "stat" (lstat dir);
  if bool_decide (nd_kind info = KDir) then mret () else throw (plain_error "not a real directory").
(** [within], of resolved paths: also the directory itself. *)
Definition apart (src dst : path) : bool := bool_decide (¬ src `prefix_of` dst ∧ ¬ dst `prefix_of` src).
Definition distinct (src dst : path) : fsM unit :=
  if apart src dst then mret () else throw (plain_error "the same directory or one is inside the other").

Definition mirror (src dst : path) (fold : bool) : fsM unit :=
  _ ← wrapping "mirror source" (openRealDir src);
  _ ← wrapping "mirror destination" (openRealDir dst);
  _ ← distinct src dst;
  t ← wrapping "scan" (scanTree fold maxMirrorEntries maxMirrorDepth src);
  _ ← wrapping "set the mode" (chmod fails dst mirrorDirMode);
  _ ← wrapping "clear" (pruneDst (S (S maxMirrorDepth)) dst [] (st_kinds t));
  _ ← each (fun d => wrapping "create" (ensureDstDir dst d)) (st_dirs t);
  each (fun f => wrapping "copy" (copyFileTo src dst f)) (st_files t).
End mirror.

(** ** Reading the source *)

Section scan_facts.
Context (t : tree) (root : path) (fold : bool) (entries : Z).
Hypothesis t_wf : wf_tree t.

(** What a scan has recorded is what is there. *)
Record recorded (s : srcTree) : Prop := {
  rec_dir q : st_kinds s !! q = Some kindDir ↔ q ∈ st_dirs s;
  rec_file q : st_kinds s !! q = Some kindFile ↔ ∃ f, f ∈ st_files s ∧ sf_rel f = q;
  rec_is_dir q : q ∈ st_dirs s → is_dir_at t (root ++ q);
  rec_is_file f : f ∈ st_files s → ∃ i, t !! (root ++ sf_rel f) = Some i ∧ nd_kind i = KFile ∧ sf_exec f = exec_bits (nd_mode i) }.
Definition in_scan (s : srcTree) (q : path) : Prop := is_Some (st_kinds s !! q).
(** A scan goes on: it forgets nothing, and reads all below [q], for each
    [q] of [read]. *)
Definition grows (s s' : srcTree) (read : path → Prop) : Prop :=
  recorded s' ∧ (∀ q, in_scan s q → in_scan s' q) ∧ (∀ q, read q → is_Some (t !! (root ++ q)) → in_scan s' q).

Lemma recorded_add_dir s q :
  recorded s → is_dir_at t (root ++ q) → recorded (s <| st_dirs ::= fun l => l ++ [q] |> <| st_kinds ::= <[q := kindDir]> |>).
Proof.
  intros [Hd Hf Hid Hif] Hq. split; cbn.
  - intros q'. rewrite elem_of_app, list_elem_of_singleton, <- Hd. destruct (decide (q' = q)) as [->|Hne].
    + rewrite lookup_insert_eq. naive_solver.
    + rewrite lookup_insert_ne by done. naive_solver.
  - intros q'. rewrite <- Hf. destruct (decide (q' = q)) as [->|Hne]; [|by rewrite lookup_insert_ne].
    rewrite lookup_insert_eq. split; [done|]. intros (f & Hfi & <-)%Hf. destruct (Hif _ Hfi) as (i & Hi & Hk & _).
    unfold is_dir_at, kind_at in Hq. rewrite Hi in Hq. cbn in Hq. congruence.
  - intros q' [Hq'|Hq']%elem_of_app; [auto|]. by apply list_elem_of_singleton in Hq' as ->.
  - done.
Qed.
Lemma recorded_add_file s q i :
  recorded s → t !! (root ++ q) = Some i → nd_kind i = KFile →
  recorded (s <| st_files ::= fun l => l ++ [mkSrcFile q (exec_bits (nd_mode i))] |> <| st_kinds ::= <[q := kindFile]> |>).
Proof.
  intros [Hd Hf Hid Hif] Hi Hk. split; cbn.
  - intros q'. rewrite <- Hd. destruct (decide (q' = q)) as [->|Hne]; [|by rewrite lookup_insert_ne].
    rewrite lookup_insert_eq. split; [done|]. intros Hq%Hd%Hid. unfold is_dir_at, kind_at in Hq. rewrite Hi in Hq. cbn in Hq. congruence.
  - intros q'. setoid_rewrite elem_of_app. setoid_rewrite list_elem_of_singleton. destruct (decide (q' = q)) as [->|Hne].
    + rewrite lookup_insert_eq. split; [|done]. intros _. eexists. split; [by right|done].
    + rewrite lookup_insert_ne, Hf by done. split; [naive_solver|]. intros (f & [Hfi| ->] & <-); [by exists f|done].
  - done.
  - intros f [Hf'|Hf']%elem_of_app; [auto|]. apply list_elem_of_singleton in Hf' as ->. by exists i.
Qed.
Lemma recorded_count s n : recorded s → recorded (s <| st_count := n |>).
Proof. by intros []; split. Qed.
Lemma grows_weaken s s' (P Q : path → Prop) : (∀ q, Q q → P q) → grows s s' P → grows s s' Q.
Proof. unfold grows. naive_solver. Qed.
Lemma grows_trans s s1 s' (P Q : path → Prop) : grows s s1 P → grows s1 s' Q → grows s s' (fun q => P q ∨ Q q).
Proof. unfold grows. naive_solver. Qed.
Lemma in_scan_insert s q k q' : in_scan s q' → is_Some (<[q := k]> (st_kinds s) !! q').
Proof. intros H. destruct (decide (q' = q)) as [->|]; [by rewrite lookup_insert_eq|by rewrite lookup_insert_ne]. Qed.

(** Strictly below a directory. *)
Definition inside (dir q : path) : Prop := ∃ r, r ≠ [] ∧ q = dir ++ r.

Context (fails : nat → bool) (to_lower : string → string) (is_local : string → bool).
Lemma visit_reads descend q s s' d d' :
  (∀ s s' d d', runs (descend q s) d s' d' → dk_tree d = t → recorded s → dk_tree d' = t ∧ grows s s' (inside q)) →
  runs (visit fails descend root q s) d s' d' → dk_tree d = t → recorded s →
  dk_tree d' = t ∧ grows s s' (fun p => p = q ∨ inside q p).
Proof.
  intros Hdesc H Ht Hs. unfold visit in H. run_parts. apply runs_lstat in H as [Hi Ht1]. rewrite Ht in Hi.
  destruct (nd_kind x) eqn:Hk; run_parts.
  - assert (Hq : is_dir_at t (root ++ q)) by (by eapply kind_at_some).
    apply Hdesc in H0 as [? (Hs' & Hm & Hc)]; [|congruence|by apply (recorded_add_dir s q)]. split; [done|]. split_and!; [done| |].
    + intros p Hp. apply Hm. by apply in_scan_insert.
    + intros p [->|Hp] Hsome; [|auto]. apply Hm. unfold in_scan. cbn. by rewrite lookup_insert_eq.
  - split; [congruence|]. split_and!; [by apply (recorded_add_file s q x)| |].
    + intros p Hp. by apply in_scan_insert.
    + intros p [->|(r & Hr & ->)] Hsome; [unfold in_scan; cbn; by rewrite lookup_insert_eq|exfalso].
      rewrite app_assoc in Hsome. apply (wf_above t _ _ t_wf Hr) in Hsome. unfold is_dir_at, kind_at in Hsome.
      rewrite Hi in Hsome. cbn in Hsome. congruence.
Qed.
Lemma checkName_reads name seen s seen_s d d' :
  runs (checkName to_lower is_local fold entries name seen s) d seen_s d' → recorded s →
  d' = d ∧ recorded seen_s.2 ∧ (∀ q, in_scan s q → in_scan seen_s.2 q).
Proof.
  unfold checkName. intros H Hs. destruct (_ <? _); [done|]. destruct (negb _); [done|]. destruct fold.
  - destruct (seen !! to_lower name); [done|]. run_parts. split_and!; [done|by apply recorded_count|done].
  - run_parts. split_and!; [done|by apply recorded_count|done].
Qed.
Lemma names_read descend dir names seen s s' d d' :
  (∀ q s s' d d', runs (descend q s) d s' d' → dk_tree d = t → recorded s → dk_tree d' = t ∧ grows s s' (inside q)) →
  runs (visit_names to_lower is_local (visit fails descend root) fold entries dir names seen s) d s' d' →
  dk_tree d = t → recorded s →
  dk_tree d' = t ∧ grows s s' (fun p => ∃ n, n ∈ names ∧ (p = dir ++ [n] ∨ inside (dir ++ [n]) p)).
Proof.
  intros Hdesc. revert seen s d. induction names as [|n names IH]; intros seen s d H Ht Hs; cbn in H; run_parts.
  - split; [done|]. split_and!; [done|done|]. by intros p (n & Hn%elem_of_nil & _).
  - apply checkName_reads in H as (-> & Hs0 & Hm0); [|done]. destruct x as [seen' s0]. cbn in *.
    apply visit_reads in H0 as [Ht1 Hg1]; [|apply Hdesc|done|done].
    apply IH in H1 as [Ht2 Hg2]; [|done|apply Hg1]. split; [done|].
    assert (Hg : grows s0 s' (fun p => (p = dir ++ [n] ∨ inside (dir ++ [n]) p) ∨ ∃ m, m ∈ names ∧ (p = dir ++ [m] ∨ inside (dir ++ [m]) p)))
      by (by eapply grows_trans).
    destruct Hg as (? & Hm & Hc). split_and!; [done|auto|]. intros p (m & [->|Hm']%elem_of_cons & Hp); apply Hc; [by left|right; by exists m].
Qed.
Context (listing : list string → list string).
Hypothesis listing_all : ∀ l n, n ∈ listing l ↔ n ∈ l.
Lemma walk_reads levels dir s s' d d' :
  runs (walk fails listing to_lower is_local fold entries root levels dir s) d s' d' → dk_tree d = t → recorded s →
  dk_tree d' = t ∧ grows s s' (inside dir).
Proof.
  revert dir s s' d d'. induction levels as [|levels IH]; intros dir s s' d d' H Ht Hs; cbn in H; [done|]. run_parts.
  apply runs_read_dir in H as (_ & -> & Ht1). apply names_read in H0 as [Ht2 Hg]; [|exact IH|congruence|done].
  split; [done|]. destruct Hg as (Hs' & Hm & Hc). split_and!; [done|done|]. intros p (r & Hr & ->) Hsome. apply Hc; [|done].
  destruct r as [|n r]; [done|]. exists n. split.
  - apply listing_all, names_in_spec. rewrite Ht. destruct r as [|m r]; [by rewrite <- app_assoc|].
    change (n :: m :: r) with ([n] ++ m :: r) in Hsome. rewrite !app_assoc in Hsome. apply (wf_above t) in Hsome; [|done|done].
    unfold is_dir_at, kind_at in Hsome. apply fmap_Some in Hsome as (i & Hi & _). by exists i.
  - destruct r as [|m r]; [by left|]. right. exists (m :: r). split; [done|]. by rewrite <- app_assoc.
Qed.

(** A scan that succeeds has recorded all of the source, and the source is
    directories and regular files only. *)
Definition scanned (s : srcTree) : Prop := recorded s ∧ ∀ q, q ≠ [] → is_Some (t !! (root ++ q)) → in_scan s q.
Lemma scan_reads depth s d d' :
  runs (scanTree fails listing to_lower is_local fold entries depth root) d s d' → dk_tree d = t → dk_tree d' = t ∧ scanned s.
Proof.
  intros H Ht. apply walk_reads in H as [Ht' (Hs & _ & Hc)]; [|done|].
  - split; [done|]. split; [done|]. intros q Hq Hsome. apply Hc; [by exists q|done].
  - split; cbn.
    + intros q. rewrite lookup_empty. split; [done|by intros ?%elem_of_nil].
    + intros q. rewrite lookup_empty. split; [done|by intros (f & ?%elem_of_nil & _)].
    + by intros q ?%elem_of_nil.
    + by intros f ?%elem_of_nil.
Qed.
End scan_facts.

(** Directories are recorded before what is in them, and none too deep. *)
Definition top_down (s : srcTree) : Prop :=
  ∀ l1 q l2, st_dirs s = l1 ++ q :: l2 → removelast q = [] ∨ removelast q ∈ l1.
Definition goes_on (bound : nat) (s s' : srcTree) : Prop :=
  top_down s' ∧ (∀ q, q ∈ st_dirs s → q ∈ st_dirs s') ∧ ∀ q, q ∈ st_dirs s' → q ∈ st_dirs s ∨ (length q < bound)%nat.

Section scan_order.
Context (fails : nat → bool) (to_lower : string → string) (is_local : string → bool) (fold : bool) (entries : Z) (root : path).

Lemma goes_on_refl bound s : top_down s → goes_on bound s s.
Proof. intros H. split_and!; auto. Qed.
Lemma goes_on_trans bound s s1 s' : goes_on bound s s1 → goes_on bound s1 s' → goes_on bound s s'.
Proof.
  intros (_ & Hm1 & Hb1) (Ht2 & Hm2 & Hb2). split_and!; [done|auto|]. intros q [Hq|Hq]%Hb2; [by apply Hb1|by right].
Qed.
Lemma top_down_snoc s q f :
  top_down s → removelast q = [] ∨ removelast q ∈ st_dirs s →
  top_down (s <| st_dirs ::= fun l => l ++ [q] |> <| st_kinds ::= f |>).
Proof.
  intros Ht Hq l1 q' l2 E. cbn in E. destruct l2 as [|x l2 _] using rev_ind.
  - apply app_inj_tail in E as [<- <-]. done.
  - rewrite app_comm_cons, app_assoc in E. apply app_inj_tail in E as [E _]. by eapply Ht.
Qed.
Lemma visit_order bound descend dir n s s' d d' :
  (∀ s d s' d', runs (descend (dir ++ [n]) s) d s' d' → top_down s → dir ++ [n] ∈ st_dirs s →
                (length (dir ++ [n]) < bound)%nat ∧ goes_on bound s s') →
  runs (visit fails descend root (dir ++ [n]) s) d s' d' → top_down s → dir = [] ∨ dir ∈ st_dirs s → goes_on bound s s'.
Proof.
  intros Hdesc H Ht Hdir. unfold visit in H. run_parts.
  assert (Hparent : removelast (dir ++ [n]) = [] ∨ removelast (dir ++ [n]) ∈ st_dirs s) by (by rewrite removelast_last).
  destruct (nd_kind x); run_parts.
  - apply Hdesc in H0 as [Hlen (Ht' & Hm & Hb)]; [|by apply top_down_snoc|cbn; set_solver]. split_and!; [done| |].
    + intros q Hq. apply Hm. cbn. set_solver.
    + intros q [Hq|Hq]%Hb; [|by right]. cbn in Hq. apply elem_of_app in Hq as [Hq| ->%list_elem_of_singleton]; [by left|by right].
  - split_and!; cbn; auto.
Qed.
Lemma names_order bound descend dir names seen s s' d d' :
  (∀ n s d s' d', runs (descend (dir ++ [n]) s) d s' d' → top_down s → dir ++ [n] ∈ st_dirs s →
                  (length (dir ++ [n]) < bound)%nat ∧ goes_on bound s s') →
  runs (visit_names to_lower is_local (visit fails descend root) fold entries dir names seen s) d s' d' →
  top_down s → dir = [] ∨ dir ∈ st_dirs s → goes_on bound s s'.
Proof.
  intros Hdesc. revert seen s d. induction names as [|n names IH]; intros seen s d H Ht Hdir; cbn in H; run_parts.
  { by apply goes_on_refl. }
  assert (Hc : st_dirs x.2 = st_dirs s).
  { unfold checkName in H. destruct (_ <? _); [done|]. destruct (negb _); [done|]. destruct fold; [|by run_parts].
    destruct (seen !! _); by run_parts. }
  assert (Ht1 : top_down x.2) by (intros l1 q l2 E; rewrite Hc in E; by eapply Ht).
  apply (visit_order bound) in H0 as Hg; [|by apply Hdesc|done|by rewrite Hc].
  eapply (goes_on_trans bound s x1); [split_and!; [apply Hg|rewrite <- Hc; apply Hg|rewrite <- Hc; apply Hg]|].
  eapply IH; [exact H1|apply Hg|]. destruct Hdir as [->|Hd]; [by left|right]. apply Hg. by rewrite Hc.
Qed.
Context (listing : list string → list string).
Lemma walk_order levels dir s s' d d' :
  runs (walk fails listing to_lower is_local fold entries root levels dir s) d s' d' → top_down s →
  dir = [] ∨ dir ∈ st_dirs s → (0 < levels)%nat ∧ goes_on (length dir + levels) s s'.
Proof.
  revert dir s s' d d'. induction levels as [|levels IH]; intros dir s s' d d' H Ht Hdir; cbn in H; [done|]. run_parts.
  split; [lia|]. eapply names_order; [|exact H0|done|done]. intros n s1 d1 s2 d2 H1 Ht1 Hin.
  apply IH in H1 as [Hl Hg]; [|done|by right]. rewrite length_app in Hg |- *. cbn in Hg |- *. split; [lia|].
  by replace (length dir + S levels)%nat with (length dir + 1 + levels)%nat by lia.
Qed.
Lemma scan_order depth s d d' :
  runs (scanTree fails listing to_lower is_local fold entries depth root) d s d' →
  top_down s ∧ ∀ q, q ∈ st_dirs s → (length q ≤ depth)%nat.
Proof.
  intros H. apply walk_order in H as [_ (Ht & _ & Hb)]; [| |by left].
  - split; [done|]. intros q [H%elem_of_nil|H]%Hb; [done|cbn in H; lia].
  - intros l1 q l2 E. by destruct l1.
Qed.
End scan_order.

(** ** Clearing the destination *)

Section prune_facts.
Context (kinds : gmap path kind) (dst : path).

(** A change that removes some of what [P] allows, and nothing else. *)
Definition shrinks (P : path → Prop) (t t' : tree) : Prop := ∀ p, t' !! p = t !! p ∨ (t' !! p = None ∧ P p).
Lemma shrinks_refl P t : shrinks P t t.
Proof. by left. Qed.
Lemma shrinks_trans P t t1 t2 : shrinks P t t1 → shrinks P t1 t2 → shrinks P t t2.
Proof. intros H1 H2 p. destruct (H1 p) as [E1|[E1 ?]], (H2 p) as [E2|[E2 ?]]; rewrite ?E2, ?E1; auto. Qed.
Lemma shrinks_weaken (P Q : path → Prop) t t' : (∀ p, P p → Q p) → shrinks P t t' → shrinks Q t t'.
Proof. intros HPQ H p. destruct (H p) as [|[]]; auto. Qed.
Lemma shrinks_some P t t' p i : shrinks P t t' → t' !! p = Some i → t !! p = Some i.
Proof. intros H Hp. destruct (H p) as [<-|[E _]]; [done|congruence]. Qed.

(** What the source has there too, as the same kind. *)
Definition same_kind (i : inode) (k : option kind) : Prop :=
  match nd_kind i, k with KDir, Some kindDir | KFile, Some kindFile => True | _, _ => False end.
Definition conforms (t : tree) (q : path) : Prop := ∀ i, t !! (dst ++ q) = Some i → same_kind i (kinds !! q).
Lemma conforms_shrinks P t t' q : shrinks P t t' → conforms t q → conforms t' q.
Proof. intros H Hc i Hi. by eapply Hc, shrinks_some. Qed.
Lemma conforms_below t q r : wf_tree t → r ≠ [] → ¬ is_dir_at t (dst ++ q) → conforms t (q ++ r).
Proof.
  intros Hwf Hr Hn i Hi. exfalso. apply Hn. apply (wf_above t _ r Hwf Hr). rewrite <- app_assoc. by exists i.
Qed.

Lemma delete_shrinks t p : shrinks (eq p) t (delete p t).
Proof. intros q. destruct (decide (q = p)) as [->|]; [right; by rewrite lookup_delete_eq|left; by rewrite lookup_delete_ne]. Qed.
Lemma delete_wf t p : wf_tree t → ¬ is_dir_at t p → wf_tree (delete p t).
Proof.
  intros Hwf Hp q n [i [Hne Hi]%lookup_delete_Some]. assert (Hq : is_dir_at t q) by (apply (Hwf q n); by exists i).
  unfold is_dir_at, kind_at in *. rewrite lookup_delete_ne; [done|]. by intros ->.
Qed.
Lemma remove_all_shrinks t p : shrinks (fun q => p `prefix_of` q) t (keeping (fun _ => false) p t).
Proof.
  intros q. rewrite keeping_lookup. destruct (decide _) as [|H]; [by left|right]. split; [done|].
  destruct (decide (p `prefix_of` q)); [done|]. exfalso. apply H. by left.
Qed.
Lemma remove_all_wf t p : wf_tree t → wf_tree (keeping (fun _ => false) p t).
Proof.
  intros Hwf q n [i Hi]. rewrite keeping_lookup in Hi. destruct (decide _) as [[H|]|]; [|done|done].
  assert (Hq : is_dir_at t q) by (apply (Hwf q n); by exists i). unfold is_dir_at, kind_at in *. rewrite keeping_lookup.
  destruct (decide _) as [_|Hn]; [done|]. exfalso. apply Hn. left. intros Hp. apply H. by apply prefix_app_r.
Qed.

(** A directory or an entry of the destination, cleared. *)
Definition cleared (dir : path) (t t' : tree) : Prop :=
  wf_tree t' ∧ shrinks (fun p => ∃ q, inside dir q ∧ p = dst ++ q) t t' ∧ ∀ q, inside dir q → conforms t' q.
Definition entry_cleared (rel : path) (t t' : tree) : Prop :=
  wf_tree t' ∧ shrinks (fun p => ∃ r, p = dst ++ rel ++ r) t t' ∧ ∀ r, conforms t' (rel ++ r).

Context (fails : nat → bool) (spares : nat → path → bool).
Lemma entry_prunes enter rel d d' :
  (∀ d d', runs (enter rel) d () d' → wf_tree (dk_tree d) → cleared rel (dk_tree d) (dk_tree d')) →
  runs (pruneEntry fails spares enter dst rel kinds) d () d' → wf_tree (dk_tree d) →
  entry_cleared rel (dk_tree d) (dk_tree d').
Proof.
  intros Henter H Hwf. unfold pruneEntry in H. run_parts. apply runs_lstat in H as [Hi Ht]. rewrite <- Ht in *.
  assert (Hremoved : runs (remove fails (dst ++ rel)) x0 () d' → nd_kind x ≠ KDir → entry_cleared rel (dk_tree x0) (dk_tree d')).
  { intros (_ & _ & ->)%runs_remove Hk. split_and!.
    - apply delete_wf; [done|]. unfold is_dir_at, kind_at. rewrite Hi. cbn. congruence.
    - eapply shrinks_weaken; [|apply delete_shrinks]. intros p <-. exists []. by rewrite app_nil_r.
    - intros r i Hr. exfalso. apply lookup_delete_Some in Hr as [Hne Hr]. destruct r as [|n r]; [by rewrite app_nil_r in Hne|].
      assert (is_dir_at (dk_tree x0) (dst ++ rel)) as Hd by (eapply (wf_above _ _ (n :: r)); [done|done|rewrite <- app_assoc; by exists i]).
      unfold is_dir_at, kind_at in Hd. rewrite Hi in Hd. cbn in Hd. congruence. }
  assert (Hall : runs (remove_all fails spares (dst ++ rel)) x0 () d' → entry_cleared rel (dk_tree x0) (dk_tree d')).
  { intros ->%runs_remove_all. split_and!; [by apply remove_all_wf| |].
    - eapply shrinks_weaken; [|apply remove_all_shrinks]. intros p [r ->]. exists r. by rewrite app_assoc.
    - intros r i Hr. exfalso. rewrite keeping_lookup in Hr. destruct (decide _) as [[Hn|]|]; [|done|done].
      apply Hn. rewrite app_assoc. by apply prefix_app_r. }
  destruct (nd_kind x) eqn:Hk; destruct (kinds !! rel) as [[]|] eqn:Hkinds; run_parts; auto; try (by apply Hremoved).
  - apply Henter in H0 as (Hwf' & Hs & Hc); [|done]. split_and!; [done| |].
    + eapply shrinks_weaken; [|exact Hs]. intros p (q & (r & _ & ->) & ->). by exists r.
    + intros [|n r]; [|apply Hc; by exists (n :: r)]. rewrite app_nil_r. intros i Hi'.
      apply (shrinks_some _ _ _ _ _ Hs) in Hi'. unfold same_kind. rewrite Hi' in Hi. simplify_eq. by rewrite Hk, Hkinds.
  - split_and!; [done|apply shrinks_refl|]. intros [|n r].
    + rewrite app_nil_r. intros i Hi'. rewrite Hi' in Hi. simplify_eq. unfold same_kind. by rewrite Hk, Hkinds.
    + apply conforms_below; [done|done|]. unfold is_dir_at, kind_at. rewrite Hi. cbn. congruence.
Qed.

Context (listing : list string → list string).
Hypothesis listing_all : ∀ l n, n ∈ listing l ↔ n ∈ l.
Lemma prune_clears levels dir d d' :
  runs (pruneDst fails spares listing levels dst dir kinds) d () d' → wf_tree (dk_tree d) →
  cleared dir (dk_tree d) (dk_tree d').
Proof.
  revert dir d d'. induction levels as [|levels IH]; intros dir d d' H Hwf; cbn in H; [done|]. run_parts.
  apply runs_read_dir in H as (_ & -> & Ht). rewrite <- Ht in *. set (names := listing _) in *.
  apply (runs_each _ _ _ _ _ (fun before d2 => wf_tree (dk_tree d2) ∧
    shrinks (fun p => ∃ q, inside dir q ∧ p = dst ++ q) (dk_tree x0) (dk_tree d2) ∧
    ∀ n r, n ∈ before → conforms (dk_tree d2) (dir ++ n :: r))) in H0 as (Hwf' & Hs & Hc).
  - split_and!; [done|done|]. intros q ([|n r] & Hr & ->); [done|]. destruct (decide (n ∈ names)) as [Hn|Hn]; [by apply Hc|].
    intros i Hi. exfalso. apply Hn, listing_all, names_in_spec. apply (shrinks_some _ _ _ _ _ Hs) in Hi. rewrite <- app_assoc.
    destruct r as [|m r]; [by exists i|]. assert (is_dir_at (dk_tree x0) (dst ++ dir ++ [n])) as Hd.
    { apply (wf_above _ _ (m :: r)); [done|done|]. rewrite <- !app_assoc. by exists i. }
    unfold is_dir_at, kind_at in Hd. apply fmap_Some in Hd as (j & Hj & _). by exists j.
  - intros before n after d1 d2 _ (Hwf1 & Hs1 & Hc1) Hrun.
    apply entry_prunes in Hrun as (Hwf2 & Hs2 & Hc2); [|intros; by eapply IH|done]. split_and!; [done| |].
    + eapply shrinks_trans; [exact Hs1|]. eapply shrinks_weaken; [|exact Hs2]. intros p (r & ->). exists (dir ++ [n] ++ r).
      split; [|by rewrite <- app_assoc]. by exists (n :: r).
    + intros m r [Hm|Hm]%elem_of_app.
      * eapply conforms_shrinks; [exact Hs2|]. by apply Hc1.
      * apply list_elem_of_singleton in Hm as ->. specialize (Hc2 r). by rewrite <- app_assoc in Hc2.
  - split_and!; [done|apply shrinks_refl|]. by intros n r ?%elem_of_nil.
Qed.
End prune_facts.

(** ** Filling it *)

Section fill_facts.
Context (dst : path) (fails : nat → bool) (random : nat → string).

Definition dir_made (t : tree) (q : path) : Prop := ∃ i, t !! (dst ++ q) = Some i ∧ nd_kind i = KDir ∧ nd_mode i = mirrorDirMode.
Definition file_made (t : tree) (f : srcFile) (data : string) : Prop :=
  ∃ i, t !! (dst ++ sf_rel f) = Some i ∧ nd_kind i = KFile ∧ nd_data i = data
    ∧ nd_mode i = if sf_exec f then mirrorExecMode else mirrorFileMode.
(** Nothing else changed. *)
Definition only_at (p : path) (t t' : tree) : Prop := ∀ q, q ≠ p → t' !! q = t !! q.

Lemma ensure_makes rel d d' :
  runs (ensureDstDir fails dst rel) d () d' → only_at (dst ++ rel) (dk_tree d) (dk_tree d') ∧ dir_made (dk_tree d') rel.
Proof.
  unfold ensureDstDir. intros H. run_parts. apply runs_chmod in H1 as (i & Hi & Hk & ->).
  enough (only_at (dst ++ rel) (dk_tree d) (dk_tree x2) ∧ nd_kind i = KDir) as [Ho Hki].
  { split; [intros q Hq; rewrite lookup_insert_ne by done; by apply Ho|]. eexists. by rewrite lookup_insert_eq. }
  apply runs_trying in H. destruct x as [e|j].
  - apply failed_lstat in H. destruct (bool_decide _); run_parts. apply runs_mkdir in H0 as (_ & _ & E). rewrite E in Hi |- *.
    rewrite lookup_insert_eq in Hi. simplify_eq. split; [|done]. intros q Hq. rewrite lookup_insert_ne by done. by rewrite H.
  - apply runs_lstat in H as [Hj Ht]. case_bool_decide as Hkj; run_parts. rewrite Ht in Hi |- *. rewrite Hj in Hi. simplify_eq.
    split; [by intros q _|done].
Qed.

Lemma temp_created dir d tmp d' :
  runs (createDstTemp fails random dst dir) d tmp d' → 
  dk_tree d !! (dst ++ tmp) = None ∧ ∃ i, nd_kind i = KFile ∧ dk_tree d' = <[dst ++ tmp := i]> (dk_tree d).
Proof.
  intros H. apply (runs_attempts _ _ _ _ _ _ (fun d1 => dk_tree d1 = dk_tree d)) in H as (d1 & Hd1 & H); [| |done].
  - run_parts. apply runs_rand in H. apply runs_trying in H0. destruct x1 as [e|u]; [by case_bool_decide; run_parts|].
    run_parts. simplify_eq. apply runs_create in H0 as (Hn & _ & E). rewrite H, Hd1 in *. split; [done|]. eexists. by split; [|exact E].
  - clear H. intros d1 d2 Hd H. run_parts. apply runs_rand in H. apply runs_trying in H0. destruct x1 as [e|u]; [|by run_parts].
    apply failed_create in H0. case_bool_decide; run_parts. congruence.
Qed.
Lemma runs_undoing {A} p (m : fsM A) d a d' : runs (undoing fails p m) d a d' → runs m d a d'.
Proof.
  unfold undoing. intros H. run_parts. apply runs_trying in H. destruct x as [e|b]; run_parts; done.
Qed.

Lemma copy_makes src f d d' :
  runs (copyFileTo fails random src dst f) d () d' →
  only_at (dst ++ sf_rel f) (dk_tree d) (dk_tree d') ∧
  ∃ i, dk_tree d !! (src ++ sf_rel f) = Some i ∧ nd_kind i = KFile ∧ file_made (dk_tree d') f (nd_data i).
Proof.
  unfold copyFileTo. intros H. run_parts. apply runs_read_file in H as [(i & Hi & Hk & Hdata) Ht].
  apply temp_created in H0 as [Hnone (j & _ & Hj)]. rewrite Ht in Hnone, Hj. apply runs_undoing in H1. run_parts.
  apply runs_write_file in H as (j1 & Hj1 & Hkj & E1). rewrite Hj in Hj1. rewrite lookup_insert_eq in Hj1. simplify_eq.
  apply runs_chmod in H0 as (j2 & Hj2 & _ & E2). rewrite E1, lookup_insert_eq in Hj2. simplify_eq.
  apply runs_rename in H1 as (j3 & Hj3 & _ & _ & E3). rewrite E2, lookup_insert_eq in Hj3. simplify_eq.
  rewrite E3, E2, E1, Hj. split.
  - intros q Hq. rewrite lookup_insert_ne by done. destruct (decide (q = dst ++ x1)) as [->|Hqt].
    + by rewrite lookup_delete_eq, Hnone.
    + by rewrite lookup_delete_ne, !lookup_insert_ne by done.
  - exists i. split_and!; [done|done|]. eexists. rewrite lookup_insert_eq. split_and!; done.
Qed.

(** A loop of such changes, which keep [inv]. *)
Lemma each_only {A : Type} (inv : tree → Prop) (f : A → fsM unit) (at_ : A → path) (made : tree → A → Prop) l d d' :
  (∀ t t' a p, only_at p t t' → p ≠ at_ a → made t a → made t' a) →
  (∀ t t' a, a ∈ l → only_at (at_ a) t t' → inv t → inv t') → inv (dk_tree d) →
  (∀ a d d', a ∈ l → inv (dk_tree d) → runs (f a) d () d' → only_at (at_ a) (dk_tree d) (dk_tree d') ∧ 
             (∀ b, b ∈ l → at_ b = at_ a → made (dk_tree d') b)) →
  runs (each f l) d () d' →
  (∀ p, (∀ a, a ∈ l → p ≠ at_ a) → dk_tree d' !! p = dk_tree d !! p) ∧ ∀ a, a ∈ l → made (dk_tree d') a.
Proof.
  intros Hkeep Hinv Hinv0 Hstep H.
  apply (runs_each f _ _ _ _ (fun before d2 => inv (dk_tree d2) ∧ (∀ p, (∀ a, a ∈ before → p ≠ at_ a) → dk_tree d2 !! p = dk_tree d !! p) ∧
    ∀ a, a ∈ before → made (dk_tree d2) a)) in H; [by destruct H as (_ & ? & ?)| |].
  - intros before a after d1 d2 -> (Hi & Hother & Hmade) Hrun. apply Hstep in Hrun as [Ho Hm]; [|set_solver|done]. split_and!.
    + apply (Hinv (dk_tree d1) _ a); [set_solver|done|done].
    + intros p Hp. rewrite Ho by (apply Hp; set_solver). apply Hother. intros b Hb. apply Hp. set_solver.
    + intros b [Hb|Hb%list_elem_of_singleton]%elem_of_app; [|subst; apply Hm; [set_solver|done]].
      destruct (decide (at_ b = at_ a)) as [E|Hne]; [apply Hm; [set_solver|done]|]. by eapply Hkeep, Hmade.
  - split_and!; [done|done|]. by intros a ?%elem_of_nil.
Qed.
Lemma dirs_ensured text l d d' :
  runs (each (fun q => wrapping text (ensureDstDir fails dst q)) l) d () d' →
  (∀ p, (∀ q, q ∈ l → p ≠ dst ++ q) → dk_tree d' !! p = dk_tree d !! p) ∧ ∀ q, q ∈ l → dir_made (dk_tree d') q.
Proof.
  apply (each_only (fun _ => True) _ (fun q => dst ++ q) dir_made); [|done|done|].
  - intros t t' q p Ho Hne (i & Hi & ?). exists i. by rewrite Ho by done.
  - intros q d1 d2 _ _ H%runs_wrapping. apply ensure_makes in H as [Ho Hm]. split; [done|].
    intros b _ E. apply (inj (app dst)) in E as ->. done.
Qed.
End fill_facts.

(** ** What mirroring promises *)

Section mirror_facts.
Context (fails : nat → bool) (spares : nat → path → bool) (listing : list string → list string) (random : nat → string).
Context (to_lower : string → string) (is_local : string → bool) (src dst : path) (fold : bool).

Abbreviation mirror_run := (mirror fails spares listing random to_lower is_local src dst fold).

Lemma openRealDir_quiet p : quiet (openRealDir fails p).
Proof. apply quiet_bind; [auto with quiet|]. intros i. case_bool_decide; auto with quiet. Qed.
Lemma distinct_quiet : quiet (distinct src dst).
Proof. unfold distinct. destruct (apart src dst); auto with quiet. Qed.
Lemma checkName_quiet entries name seen s : quiet (checkName to_lower is_local fold entries name seen s).
Proof.
  unfold checkName. destruct (_ <? _); [auto with quiet|]. destruct (negb _); [auto with quiet|]. destruct fold; [|auto with quiet].
  destruct (seen !! _); auto with quiet.
Qed.
Lemma visit_quiet descend root q s : (∀ s, quiet (descend q s)) → quiet (visit fails descend root q s).
Proof. intros Hd. apply quiet_bind; [auto with quiet|]. intros i. destruct (nd_kind i); auto with quiet. Qed.
Lemma walk_quiet entries root levels dir s : quiet (walk fails listing to_lower is_local fold entries root levels dir s).
Proof.
  revert dir s. induction levels as [|levels IH]; intros dir s; cbn; [auto with quiet|]. apply quiet_bind; [auto with quiet|].
  intros names. generalize (∅ : gmap string string). revert s. induction names as [|n names IHn]; intros s seen; cbn; [auto with quiet|].
  apply quiet_bind; [apply checkName_quiet|]. intros [seen' s']. apply quiet_bind; [apply visit_quiet; auto|]. auto.
Qed.

(** The part before the destination is touched. *)
Definition mirror_checks : fsM srcTree :=
  _ ← wrapping "mirror source" (openRealDir fails src);
  _ ← wrapping "mirror destination" (openRealDir fails dst);
  _ ← distinct src dst;
  wrapping "scan" (scanTree fails listing to_lower is_local fold maxMirrorEntries maxMirrorDepth src).
Lemma checks_quiet : quiet mirror_checks.
Proof.
  unfold mirror_checks. repeat (apply quiet_bind; [auto using openRealDir_quiet, distinct_quiet with quiet|intros _]).
  apply quiet_wrapping, walk_quiet.
Qed.
Lemma bind_assoc {A B C} (m : fsM A) (k : A → fsM B) (l : B → fsM C) d :
  (b ← (a ← m; k a); l b) d = (a ← m; b ← k a; l b) d.
Proof. unfold mbind, fsM_bind. by destruct (m d) as [[e|a] d1]. Qed.
Lemma checks_first d :
  mirror_run d = (t ← mirror_checks;
    _ ← wrapping "set the mode" (chmod fails dst mirrorDirMode);
    _ ← wrapping "clear" (pruneDst fails spares listing (S (S maxMirrorDepth)) dst [] (st_kinds t));
    _ ← each (fun q => wrapping "create" (ensureDstDir fails dst q)) (st_dirs t);
    each (fun f => wrapping "copy" (copyFileTo fails random src dst f)) (st_files t)) d.
Proof.
  unfold mirror_checks, mirror, mbind, fsM_bind. 
  destruct (wrapping _ (openRealDir fails src) d) as [[e|u] d1]; [done|].
  destruct (wrapping _ (openRealDir fails dst) d1) as [[e|u'] d2]; [done|]. by destruct (distinct src dst d2) as [[e|u''] d3].
Qed.

Hypothesis listing_all : ∀ l n, n ∈ listing l ↔ n ∈ l.

Lemma checks_pass d s d' :
  runs mirror_checks d s d' → wf_tree (dk_tree d) →
  dk_tree d' = dk_tree d ∧ is_dir_at (dk_tree d) src ∧ is_dir_at (dk_tree d) dst ∧ apart src dst = true ∧ scanned (dk_tree d) src s.
Proof.
  intros H Hwf. unfold mirror_checks, openRealDir, distinct in H. run_parts.
  repeat match goal with H : runs (lstat _ _) _ _ _ |- _ => apply runs_lstat in H as [? ?] end.
  repeat (case_bool_decide; run_parts). destruct (apart src dst) eqn:Ha; run_parts.
  assert (Ed : dk_tree x4 = dk_tree d) by congruence.
  apply (scan_reads (dk_tree d) src fold _ Hwf) in H2 as [Ht Hs]; [|done|done].
  assert (Hdir : ∀ p i, dk_tree d !! p = Some i → nd_kind i = KDir → is_dir_at (dk_tree d) p) by (intros p i; apply kind_at_some).
  split_and!; [congruence|by eauto| |done|done].
  match goal with E : dk_tree ?y !! dst = Some ?i |- _ => apply (Hdir dst i); [rewrite <- E; congruence|done] end.
Qed.

(** What the destination has for what the source has: a file with its data,
    executable if the source's is, a directory, or nothing. *)
Definition mirrored (o o' : option inode) : Prop :=
  match o with
  | None => o' = None
  | Some i => ∃ i', o' = Some i' ∧ nd_kind i' = nd_kind i ∧
    match nd_kind i with
    | KDir => nd_mode i' = mirrorDirMode
    | KFile => nd_data i' = nd_data i ∧ nd_mode i' = if exec_bits (nd_mode i) then mirrorExecMode else mirrorFileMode
    | _ => False
    end
  end.

Lemma files_copied text s t l d d' :
  recorded t src s → (∀ p, src `prefix_of` p → dk_tree d !! p = t !! p) → (∀ f, f ∈ l → f ∈ st_files s) → apart src dst = true →
  runs (each (fun f => wrapping text (copyFileTo fails random src dst f)) l) d () d' →
  (∀ p, (∀ f, f ∈ l → p ≠ dst ++ sf_rel f) → dk_tree d' !! p = dk_tree d !! p) ∧
  ∀ f, f ∈ l → mirrored (t !! (src ++ sf_rel f)) (dk_tree d' !! (dst ++ sf_rel f)).
Proof.
  intros Hs Hsrc Hl Ha. apply bool_decide_eq_true in Ha as [Ha1 Ha2].
  apply (each_only (fun t1 => ∀ p, src `prefix_of` p → t1 !! p = t !! p) _ (fun f => dst ++ sf_rel f)
    (fun t' f => mirrored (t !! (src ++ sf_rel f)) (t' !! (dst ++ sf_rel f)))); [| |done|].
  - intros t1 t2 f p Ho Hne. by rewrite Ho by done.
  - intros t1 t2 f Hf Ho Ht p Hp. rewrite Ho; [by apply Ht|]. intros ->.
    destruct (prefix_weak_total src dst (dst ++ sf_rel f)); [done|by apply prefix_app_r|done|done].
  - intros f d1 d2 Hf Hinv H%runs_wrapping. apply copy_makes in H as [Ho (i & Hi & Hk & i' & Hi' & Hk' & Hd' & Hm')].
    split; [done|]. intros g Hg E. apply (inj (app dst)) in E.
    rewrite Hinv in Hi by (by apply prefix_app_r). destruct (rec_is_file _ _ _ Hs f (Hl f Hf)) as (i0 & Hi0 & _ & He). simplify_eq.
    rewrite E, Hi, Hi'. exists i'. split_and!; [done|congruence|]. rewrite Hk. by rewrite He in Hm'.
Qed.

(** The destination after the scan [s] of [t] and the steps, by what each
    left. *)
Lemma assembled (t : tree) (s : srcTree) (t4 t6 t' : tree) (q : path) :
  recorded t src s → (∀ q, q ≠ [] → is_Some (t !! (src ++ q)) → in_scan s q) → q ≠ [] →
  conforms (st_kinds s) dst t4 q →
  (∀ p, (∀ q, q ∈ st_dirs s → p ≠ dst ++ q) → t6 !! p = t4 !! p) → (∀ q, q ∈ st_dirs s → dir_made dst t6 q) →
  (∀ p, (∀ f, f ∈ st_files s → p ≠ dst ++ sf_rel f) → t' !! p = t6 !! p) →
  (∀ f, f ∈ st_files s → mirrored (t !! (src ++ sf_rel f)) (t' !! (dst ++ sf_rel f))) →
  mirrored (t !! (src ++ q)) (t' !! (dst ++ q)).
Proof.
  intros Hs Hall Hq Hconf Ho2 Hm2 Ho3 Hm3. destruct (st_kinds s !! q) as [[]|] eqn:Hk.
  - assert (Hf : ∀ f, f ∈ st_files s → dst ++ q ≠ dst ++ sf_rel f).
    { intros f Hf E%(inj (app dst)). assert (st_kinds s !! q = Some kindFile) as Hk' by (apply (rec_file _ _ _ Hs); by exists f). congruence. }
    apply (rec_dir _ _ _ Hs) in Hk. rewrite (Ho3 _ Hf). destruct (Hm2 q Hk) as (i' & Hi' & Hki & Hmi).
    pose proof (rec_is_dir _ _ _ Hs q Hk) as Hd. apply fmap_Some in Hd as (i & Hi & Hdi).
    rewrite Hi, Hi'. exists i'. by rewrite <- Hdi.
  - apply (rec_file _ _ _ Hs) in Hk as (f & Hf & <-). by apply Hm3.
  - destruct (t !! (src ++ q)) as [i|] eqn:Hi.
    { destruct (Hall q Hq) as [k Hk']; [by exists i|congruence]. }
    rewrite Ho3, Ho2.
    + destruct (t4 !! (dst ++ q)) as [i|] eqn:Hi4; [|done]. specialize (Hconf i Hi4). unfold same_kind in Hconf. rewrite Hk in Hconf.
      by destruct (nd_kind i).
    + intros q' Hq' E%(inj (app dst)). subst. apply (rec_dir _ _ _ Hs) in Hq'. congruence.
    + intros f Hf E%(inj (app dst)). assert (st_kinds s !! q = Some kindFile) by (apply (rec_file _ _ _ Hs); by exists f). congruence.
Qed.
Lemma root_is_no_file t s f : recorded t src s → is_dir_at t src → f ∈ st_files s → dst ≠ dst ++ sf_rel f.
Proof.
  intros Hs Hd Hf E. rewrite <- (app_nil_r dst) in E at 1. apply (inj (app dst)) in E.
  destruct (rec_is_file _ _ _ Hs f Hf) as (i & Hi & Hk & _). rewrite <- E, app_nil_r in Hi.
  unfold is_dir_at, kind_at in Hd. rewrite Hi in Hd. cbn in Hd. congruence.
Qed.

(** C20: when mirroring succeeds the destination holds exactly what the source
    holds, directories 0755 and files 0644 or 0755, copied byte by byte; the
    source holds nothing but directories and regular files; and nothing
    outside the destination changed, the source included. *)
Theorem mirror_exact d d' :
  wf_tree (dk_tree d) → runs mirror_run d () d' →
  (∀ p, ¬ dst `prefix_of` p → dk_tree d' !! p = dk_tree d !! p) ∧
  (∃ i, dk_tree d' !! dst = Some i ∧ nd_kind i = KDir ∧ nd_mode i = mirrorDirMode) ∧
  ∀ q, q ≠ [] → mirrored (dk_tree d !! (src ++ q)) (dk_tree d' !! (dst ++ q)).
Proof.
  intros Hwf H. unfold runs in H. rewrite checks_first in H. change (runs (t ← mirror_checks;
    _ ← wrapping "set the mode" (chmod fails dst mirrorDirMode);
    _ ← wrapping "clear" (pruneDst fails spares listing (S (S maxMirrorDepth)) dst [] (st_kinds t));
    _ ← each (fun q => wrapping "create" (ensureDstDir fails dst q)) (st_dirs t);
    each (fun f => wrapping "copy" (copyFileTo fails random src dst f)) (st_files t)) d () d') in H.
  run_parts. rename x into s. apply checks_pass in H as (Ht & Hsrc & Hdst & Ha & Hs & Hall); [|done].
  apply runs_chmod in H0 as (i0 & Hi0 & _ & E0). rewrite Ht in Hi0, E0.
  assert (Hk0 : nd_kind i0 = KDir).
  { unfold is_dir_at, kind_at in Hdst. rewrite Hi0 in Hdst. by injection Hdst. }
  assert (Hwf1 : wf_tree (dk_tree x2)).
  { rewrite E0. intros p n Hp. unfold is_dir_at, kind_at. destruct (decide (p = dst)) as [->|Hne].
    - rewrite lookup_insert_eq. cbn. by rewrite Hk0.
    - rewrite lookup_insert_ne by done. apply (Hwf p n). destruct (decide (p ++ [n] = dst)) as [<-|]; [by exists i0|].
      by rewrite lookup_insert_ne in Hp by done. }
  destruct x3, x5. apply prune_clears in H1 as (_ & Hshr & Hconf); [|done|done].
  apply dirs_ensured in H2 as [Ho2 Hm2].
  assert (Hsrc_same : ∀ p, src `prefix_of` p → dk_tree x6 !! p = dk_tree d !! p).
  { apply bool_decide_eq_true in Ha as [Ha1 Ha2]. intros p Hp.
    assert (Hn : ∀ q, p ≠ dst ++ q) by (intros q ->; destruct (prefix_weak_total src dst (dst ++ q)); [done|by apply prefix_app_r|done|done]).
    rewrite Ho2 by (by intros q _). destruct (Hshr p) as [->|[_ (q & _ & Hq)]]; [|by destruct (Hn q)].
    rewrite E0, lookup_insert_ne; [done|]. intros ->. by apply (Hn []); rewrite app_nil_r. }
  apply (files_copied "copy" s (dk_tree d)) in H3 as [Ho3 Hm3]; [|done|done|done|done].
  assert (Hout : ∀ p q, ¬ dst `prefix_of` p → p ≠ dst ++ q) by (intros p q Hp ->; by apply Hp, prefix_app_r).
  split_and!.
  - intros p Hp. rewrite Ho3, Ho2 by (intros; by apply Hout). destruct (Hshr p) as [->|[_ (q & _ & Hq)]]; [|by destruct (Hout p q)].
    rewrite E0, lookup_insert_ne; [done|]. intros ->. by apply Hp.
  - rewrite (Ho3 dst) by (intros f; by apply (root_is_no_file (dk_tree d) s)). destruct (decide ([] ∈ st_dirs s)) as [Hr|Hr].
    { specialize (Hm2 [] Hr). unfold dir_made in Hm2. by rewrite app_nil_r in Hm2. }
    rewrite Ho2; [|intros q Hq E; rewrite <- (app_nil_r dst) in E at 1; by apply (inj (app dst)) in E as <-].
    destruct (Hshr dst) as [->|[_ (q & (r & Hr' & ->) & E)]].
    + rewrite E0, lookup_insert_eq. by eexists.
    + cbn in E. rewrite <- (app_nil_r dst) in E at 1. by apply (inj (app dst)) in E as <-.
  - intros q Hq. eapply assembled; [done|done|done| |done|done|done|done]. apply Hconf. by exists q.
Qed.

(** What mirroring refuses: directories inside each other, and a source with
    anything that is neither a directory nor a regular file. *)
Definition refused (t : tree) : Prop :=
  apart src dst = false ∨ ∃ q i, q ≠ [] ∧ t !! (src ++ q) = Some i ∧ nd_kind i ≠ KDir ∧ nd_kind i ≠ KFile.

(** C40: a mirror that is refused fails before anything is touched: no file
    changed, whatever else went wrong. *)
Theorem mirror_refuses d :
  wf_tree (dk_tree d) → refused (dk_tree d) → ∃ e d', mirror_run d = (inl e, d') ∧ dk_tree d' = dk_tree d.
Proof.
  intros Hwf Href. destruct (run_or_failed mirror_checks d) as [(s & d1 & H)|(e & d1 & H)].
  - exfalso. apply checks_pass in H as (_ & _ & _ & Ha & Hs & Hall); [|done].
    destruct Href as [Hn|(q & i & Hq & Hi & Hd & Hf)]; [congruence|]. destruct (Hall q Hq) as [[] Hk]; [by exists i| |].
    + apply (rec_dir _ _ _ Hs), (rec_is_dir _ _ _ Hs) in Hk. unfold is_dir_at, kind_at in Hk. rewrite Hi in Hk. by injection Hk.
    + apply (rec_file _ _ _ Hs) in Hk as (f & Hf' & <-). destruct (rec_is_file _ _ _ Hs f Hf') as (j & Hj & Hkj & _). congruence.
  - pose proof (checks_quiet d) as Hq. rewrite H in Hq. exists e, d1. split; [|done].
    rewrite checks_first. unfold mbind, fsM_bind. by rewrite H.
Qed.
End mirror_facts.

(** ** Mirroring succeeds

    When no call fails, a source that passed its checks is mirrored. *)

Section mirror_total.
Context (dst : path) (kinds : gmap path kind) (spares : nat → path → bool) (listing : list string → list string).
Hypothesis listing_perm : ∀ l, listing l ≡ₚ l.
Lemma listing_same l n : n ∈ listing l ↔ n ∈ l.
Proof. by rewrite listing_perm. Qed.

Lemma entry_runs enter rel d i :
  (is_dir_at (dk_tree d) (dst ++ rel) → kinds !! rel = Some kindDir → ∀ d1, dk_tree d1 = dk_tree d → ∃ d', runs (enter rel) d1 () d') →
  dk_tree d !! (dst ++ rel) = Some i → wf_tree (dk_tree d) → ∃ d', runs (pruneEntry never spares enter dst rel kinds) d () d'.
Proof.
  intros Henter Hi Hwf. unfold pruneEntry. eapply run_bind_unit; [apply runs_wrapping; by apply run_lstat|].
  assert (Hremove : nd_kind i ≠ KDir → ∃ d', runs (wrapping "remove" (remove never (dst ++ rel))) (next_call d) () d').
  { intros Hk. destruct (run_remove (dst ++ rel) (next_call d)) as [d' H]; [by exists i| |exists d'; by apply runs_wrapping].
    apply no_entries; [done|]. cbn. unfold is_dir_at, kind_at. rewrite Hi. cbn. congruence. }
  assert (Hall : ∃ d', runs (wrapping "remove" (remove_all never spares (dst ++ rel))) (next_call d) () d').
  { destruct (run_remove_all spares (dst ++ rel) (next_call d)) as [d' H]. exists d'. by apply runs_wrapping. }
  destruct (nd_kind i) eqn:Hk; destruct (kinds !! rel) as [[]|] eqn:Hr; auto; try (by apply Hremove).
  - apply Henter; [by eapply kind_at_some|done|done].
  - by eexists.
Qed.
Lemma prune_runs levels dir d :
  wf_tree (dk_tree d) → is_dir_at (dk_tree d) (dst ++ dir) → (0 < levels)%nat →
  (∀ q, kinds !! q = Some kindDir → (length q < length dir + levels)%nat) →
  ∃ d', runs (pruneDst never spares listing levels dst dir kinds) d () d'.
Proof.
  revert dir d. induction levels as [|levels IH]; intros dir d Hwf Hd Hlev Hlen; [lia|]. cbn.
  eapply run_bind_unit; [by apply run_read_dir|]. set (names := listing _).
  assert (Hnd : NoDup names) by (unfold names; rewrite listing_perm; apply names_in_NoDup).
  edestruct (each_runs (fun name => pruneEntry never spares (fun rel => pruneDst never spares listing levels dst rel kinds) dst (dir ++ [name]) kinds)
    names (next_call d) (fun before d2 => wf_tree (dk_tree d2) ∧
      ∀ n, n ∈ names → n ∉ before → dk_tree d2 !! (dst ++ dir ++ [n]) = dk_tree d !! (dst ++ dir ++ [n]))) as (d' & Hrun & _);
    [|done|by exists d'].
  intros before n after d2 E [Hwf2 Hsame].
  assert (Hn : (n ∉ before) ∧ n ∈ names).
  { rewrite E in Hnd |- *. apply NoDup_app in Hnd as (_ & Hdis & _). split; [|set_solver]. intros Hn. apply (Hdis n Hn). by left. }
  assert (Hi : is_Some (dk_tree d2 !! (dst ++ dir ++ [n]))).
  { rewrite Hsame by apply Hn. destruct Hn as [_ Hn]. apply listing_same, names_in_spec in Hn. by rewrite <- app_assoc in Hn. }
  destruct Hi as [i Hi]. destruct (entry_runs (fun rel => pruneDst never spares listing levels dst rel kinds) (dir ++ [n]) d2 i) as [d3 H3];
    [|done|done|].
  - intros Hdir Hk d1 E1. pose proof (Hlen _ Hk) as Hl. rewrite length_app in Hl. cbn in Hl.
    apply IH; [by rewrite E1|by rewrite E1|lia|]. intros q Hq. rewrite length_app. cbn. specialize (Hlen q Hq). lia.
  - exists d3. split; [done|]. apply entry_prunes in H3 as (Hwf3 & Hs & _); [|intros; by eapply prune_clears; [apply listing_same|..]|done].
    split; [done|]. intros m Hm Hm'. rewrite <- Hsame by set_solver. destruct (Hs (dst ++ dir ++ [m])) as [->|[_ (r & Er)]]; [done|].
    apply (inj (app dst)) in Er. rewrite <- app_assoc in Er. apply (inj (app dir)) in Er. injection Er as ->. set_solver.
Qed.
End mirror_total.

Section fill_total.
Context (src dst : path) (random : nat → string) (t : tree) (s : srcTree).
Hypothesis s_recorded : recorded t src s.
Hypothesis s_ordered : top_down s.

Lemma ensure_runs q d :
  (∀ i, dk_tree d !! (dst ++ q) = Some i → nd_kind i = KDir) →
  (dk_tree d !! (dst ++ q) = None → parent_is_dir (dk_tree d) (dst ++ q) = true) →
  ∃ d', runs (ensureDstDir never dst q) d () d'.
Proof.
  intros Hdir Hparent.
  assert (Hchmod : ∀ d3 i, dk_tree d3 !! (dst ++ q) = Some i → nd_kind i = KDir →
    ∃ d4, runs (wrapping "chmod" (chmod never (dst ++ q) mirrorDirMode)) d3 () d4).
  { intros d3 i Hi Hk. destruct (run_chmod (dst ++ q) mirrorDirMode d3 i Hi) as [d4 H4]; [congruence|]. exists d4. by apply runs_wrapping. }
  unfold ensureDstDir. destruct (dk_tree d !! (dst ++ q)) as [i|] eqn:Hi.
  - pose proof (Hdir i eq_refl) as Hk.
    eapply (run_bind_unit _ _ _ (inr i) (next_call d)); [unfold trying, runs; by rewrite (run_lstat _ _ _ Hi)|].
    eapply run_bind_unit; [by rewrite bool_decide_eq_true_2|]. by eapply Hchmod.
  - eapply (run_bind_unit _ _ _ (inl not_there) (next_call d)); [unfold trying, runs; by rewrite (run_lstat_none _ _ Hi)|].
    destruct (run_mkdir (dst ++ q) mirrorDirMode (next_call d)) as [d3 H3]; [done|by apply Hparent|].
    eapply run_bind_unit; [cbn; apply runs_wrapping; exact H3|]. apply runs_mkdir in H3 as (_ & _ & E3).
    eapply Hchmod; [rewrite E3; apply lookup_insert_eq|done].
Qed.

(** After clearing. *)
Definition ready (t1 : tree) : Prop := is_dir_at t1 dst ∧ ∀ q, q ≠ [] → conforms (st_kinds s) dst t1 q.
Lemma dirs_run d text :
  ready (dk_tree d) → ∃ d', runs (each (fun q => wrapping text (ensureDstDir never dst q)) (st_dirs s)) d () d'.
Proof.
  intros [Hdst Hconf].
  edestruct (each_runs (fun q => wrapping text (ensureDstDir never dst q)) (st_dirs s) d (fun before d2 =>
    (∀ p, (∀ q, q ∈ before → p ≠ dst ++ q) → dk_tree d2 !! p = dk_tree d !! p) ∧ ∀ q, q ∈ before → dir_made dst (dk_tree d2) q))
    as (d' & H & _); [|split; [done|by intros q ?%elem_of_nil]|by exists d'].
  intros before q after d2 E [Ho Hm].
  assert (Hdir : ∀ q', q' = [] ∨ q' ∈ before → is_dir_at (dk_tree d2) (dst ++ q')).
  { intros q' Hq'. destruct (decide (q' ∈ before)) as [Hb|Hb].
    - destruct (Hm q' Hb) as (i & Hi & Hk & _). by eapply kind_at_some.
    - destruct Hq' as [->|]; [|done]. rewrite app_nil_r. unfold is_dir_at, kind_at. rewrite Ho; [done|].
      intros q' Hq' Ed. rewrite <- (app_nil_r dst) in Ed at 1. by apply (inj (app dst)) in Ed as <-. }
  assert (Hq : st_kinds s !! q = Some kindDir) by (apply (rec_dir _ _ _ s_recorded); rewrite E; set_solver).
  enough (∃ d3, runs (ensureDstDir never dst q) d2 () d3) as [d3 H3].
  { exists d3. rewrite runs_wrapping. split; [done|]. apply ensure_makes in H3 as [Ho3 Hm3]. split.
    - intros p Hp. rewrite Ho3 by (apply Hp; set_solver). apply Ho. intros q' Hq'. apply Hp. set_solver.
    - intros q' [Hq'|Hq'%list_elem_of_singleton]%elem_of_app; [|by subst]. destruct (decide (q' = q)) as [->|Hne]; [done|].
      destruct (Hm q' Hq') as (i & Hi & ?). exists i. rewrite Ho3; [done|]. by intros ?%(inj (app dst)). }
  apply ensure_runs.
  - intros i Hi. destruct (decide (q = [] ∨ q ∈ before)) as [Hb|Hb].
    + specialize (Hdir q Hb). unfold is_dir_at, kind_at in Hdir. rewrite Hi in Hdir. by injection Hdir.
    + rewrite Ho in Hi by (intros q' Hq' Ed%(inj (app dst)); subst; auto).
      specialize (Hconf q ltac:(naive_solver) i Hi). unfold same_kind in Hconf. rewrite Hq in Hconf. by destruct (nd_kind i).
  - intros Hi. destruct q as [|n q _] using rev_ind; [specialize (Hdir [] ltac:(by left)); unfold is_dir_at, kind_at in Hdir; by rewrite Hi in Hdir|].
    rewrite app_assoc. apply parent_dir, Hdir. destruct (s_ordered _ _ _ E) as [Hp|Hp]; rewrite removelast_last in Hp; auto.
Qed.

Hypothesis t_wf : wf_tree t.
Hypothesis t_src : is_dir_at t src.
Hypothesis s_all : ∀ q, q ≠ [] → is_Some (t !! (src ++ q)) → in_scan s q.
(** No file of the source has a temporary file's name. *)
Definition temp_free : Prop := ∀ n q, t !! (src ++ q ++ [mirrorTempName +:+ hex_of (stake 8 (random n))]) = None.
Hypothesis names_free : temp_free.

(** After the directories are made, and some of the files. *)
Definition filled (before : list srcFile) (t1 : tree) : Prop :=
  (∀ p, src `prefix_of` p → t1 !! p = t !! p) ∧ is_dir_at t1 dst ∧ (∀ q, q ∈ st_dirs s → dir_made dst t1 q) ∧
  ∀ q, q ≠ [] → conforms (st_kinds s) dst t1 q.
Lemma kind_in_source q k : st_kinds s !! q = Some k → is_Some (t !! (src ++ q)).
Proof.
  destruct k; intros H.
  - apply (rec_dir _ _ _ s_recorded), (rec_is_dir _ _ _ s_recorded), fmap_Some in H as (i & Hi & _). by exists i.
  - apply (rec_file _ _ _ s_recorded) in H as (f & Hf & <-). destruct (rec_is_file _ _ _ s_recorded f Hf) as (i & Hi & _). by exists i.
Qed.
Lemma temp_absent before t1 n q : filled before t1 → t1 !! (dst ++ q ++ [mirrorTempName +:+ hex_of (stake 8 (random n))]) = None.
Proof.
  intros (_ & _ & _ & Hconf). set (p := q ++ _). destruct (t1 !! (dst ++ p)) as [i|] eqn:Hi; [|done]. exfalso.
  assert (Hp : p ≠ []) by (by destruct q). specialize (Hconf p Hp i Hi). unfold same_kind in Hconf.
  destruct (st_kinds s !! p) as [k|] eqn:Hk; [|by destruct (nd_kind i)].
  destruct (kind_in_source p k Hk) as [j Hj]. unfold p in Hj. by rewrite names_free in Hj.
Qed.
Lemma copied_fills before f d d' :
  apart src dst = true → f ∈ st_files s → filled before (dk_tree d) → runs (copyFileTo never random src dst f) d () d' →
  filled (before ++ [f]) (dk_tree d').
Proof.
  intros Ha Hf (Hsrc & Hdst & Hdirs & Hconf) H. apply copy_makes in H as [Ho (i & _ & _ & i' & Hi' & Hk' & _)].
  apply bool_decide_eq_true in Ha as [Ha1 Ha2].
  assert (Hkf : st_kinds s !! sf_rel f = Some kindFile) by (apply (rec_file _ _ _ s_recorded); by exists f).
  pose proof (root_is_no_file src dst t s f s_recorded t_src Hf) as Hroot. split_and!.
  - intros p Hp. rewrite Ho; [by apply Hsrc|]. intros ->.
    destruct (prefix_weak_total src dst (dst ++ sf_rel f)); [done|by apply prefix_app_r|done|done].
  - unfold is_dir_at, kind_at. by rewrite Ho.
  - intros q Hq. destruct (Hdirs q Hq) as (j & Hj & ?). exists j. rewrite Ho; [done|]. intros E%(inj (app dst)). subst.
    apply (rec_dir _ _ _ s_recorded) in Hq. congruence.
  - intros q Hq j Hj. destruct (decide (q = sf_rel f)) as [->|Hne].
    + rewrite Hi' in Hj. injection Hj as <-. unfold same_kind. by rewrite Hk', Hkf.
    + rewrite Ho in Hj by (by intros ?%(inj (app dst))). by apply Hconf.
Qed.
Lemma create_runs before q d :
  filled before (dk_tree d) → is_dir_at (dk_tree d) (dst ++ q) →
  ∃ n d', runs (createDstTemp never random dst q) d (q ++ [mirrorTempName +:+ hex_of (stake 8 (random n))]) d'.
Proof.
  intros Hf Hq. unfold createDstTemp, nameTries. cbn [attempts]. set (name := q ++ [mirrorTempName +:+ hex_of (stake 8 (random (S (dk_calls d))))]).
  destruct (run_create (dst ++ name) mirrorTempMode (next_call d)) as [d' H'].
  - by apply (temp_absent before).
  - unfold name. rewrite app_assoc. by apply parent_dir.
  - exists (S (dk_calls d)), d'. apply runs_bind. exists (Some name), d'. split; [|done]. apply runs_bind.
    exists (stake 8 (random (S (dk_calls d)))), (next_call d). split; [done|]. apply runs_bind. exists (inr ()), d'.
    split; [|done]. unfold runs in H'. unfold trying, runs. unfold name in H'. by rewrite H'.
Qed.
Lemma parent_made before q n d :
  filled before (dk_tree d) → is_Some (t !! (src ++ q ++ [n])) → is_dir_at (dk_tree d) (dst ++ q).
Proof.
  intros (_ & Hdst & Hdirs & _) Hsome. destruct (decide (q = [])) as [->|Hq]; [by rewrite app_nil_r|].
  rewrite app_assoc in Hsome. apply t_wf in Hsome. pose proof Hsome as Hd. apply fmap_Some in Hd as (i & Hi & Hk).
  destruct (s_all q Hq) as [[] Hs]; [by exists i| |].
  - apply (rec_dir _ _ _ s_recorded) in Hs. destruct (Hdirs q Hs) as (j & Hj & Hkj & _). by eapply kind_at_some.
  - apply (rec_file _ _ _ s_recorded) in Hs as (f & Hf & <-). destruct (rec_is_file _ _ _ s_recorded f Hf) as (j & Hj & Hkj & _). congruence.
Qed.
Lemma rename_runs before q n tmp d d3 i f :
  f ∈ st_files s → sf_rel f = q ++ [n] → filled before (dk_tree d) → is_dir_at (dk_tree d) (dst ++ q) →
  only_at (dst ++ tmp) (dk_tree d) (dk_tree d3) → dk_tree d3 !! (dst ++ tmp) = Some i → nd_kind i ≠ KDir →
  tmp ≠ q ++ [n] → (dst ++ q ≠ dst ++ tmp) → ∃ d', runs (wrapping "rename" (rename_file never (dst ++ tmp) (dst ++ q ++ [n]))) d3 () d'.
Proof.
  intros Hf Er Hd Hpar Eo Hi Hk Hne Hneq.
  destruct (run_rename (dst ++ tmp) (dst ++ q ++ [n]) d3 i Hi Hk) as [d' H'].
  - unfold kind_at. rewrite Eo by (by intros ?%(inj (app dst))). destruct (dk_tree d !! (dst ++ q ++ [n])) as [j|] eqn:Hj; [|done].
    destruct Hd as (_ & _ & _ & Hconf). specialize (Hconf (q ++ [n]) ltac:(by destruct q) j Hj). unfold same_kind in Hconf.
    assert (st_kinds s !! (q ++ [n]) = Some kindFile) as Hkf by (apply (rec_file _ _ _ s_recorded); by exists f).
    rewrite Hkf in Hconf. cbn. by destruct (nd_kind j).
  - rewrite app_assoc. apply parent_dir. unfold is_dir_at, kind_at. by rewrite Eo.
  - exists d'. by apply runs_wrapping.
Qed.
Lemma copy_runs before f d :
  f ∈ st_files s → filled before (dk_tree d) → ∃ d', runs (copyFileTo never random src dst f) d () d'.
Proof.
  intros Hf Hd. destruct (rec_is_file _ _ _ s_recorded f Hf) as (i & Hi & Hk & _).
  destruct (exists_last (l := sf_rel f)) as (q & n & Er).
  { intros Er. rewrite Er, app_nil_r in Hi. unfold is_dir_at, kind_at in t_src. rewrite Hi in t_src. cbn in t_src. congruence. }
  assert (Hpar : is_dir_at (dk_tree d) (dst ++ q)) by (eapply (parent_made before _ n); [done|]; rewrite <- Er; by exists i).
  assert (Hi' : dk_tree d !! (src ++ sf_rel f) = Some i) by (rewrite <- Hi; apply Hd, prefix_app_r; done).
  unfold copyFileTo. eapply run_bind_unit; [apply runs_wrapping; by apply run_read_file|]. rewrite Er, removelast_last.
  destruct (create_runs before q (next_call d)) as (m & d1 & H1); [done|done|]. eapply run_bind_unit; [exact H1|].
  set (tmp := q ++ [mirrorTempName +:+ _]) in *. apply temp_created in H1 as [_ (j & Hkj & Hj)]. cbn in Hj.
  assert (Htmp : dk_tree d1 !! (dst ++ tmp) = Some j) by (rewrite Hj; apply lookup_insert_eq).
  assert (Hundo : ∀ m d2, runs m d1 () d2 → ∃ d', runs (undoing never (dst ++ tmp) m) d1 () d').
  { intros m2 d2 H2. exists d2. apply runs_bind. exists (inr ()), d2. split; [unfold trying, runs in *; by rewrite H2|done]. }
  enough (∃ d', runs (_ ← wrapping "write" (write_file never (dst ++ tmp) (nd_data i));
     _ ← wrapping "chmod" (chmod never (dst ++ tmp) (if sf_exec f then mirrorExecMode else mirrorFileMode));
     wrapping "rename" (rename_file never (dst ++ tmp) (dst ++ q ++ [n]))) d1 () d') as [d' H'] by (by eapply Hundo).
  destruct (run_write_file (dst ++ tmp) (nd_data i) d1 j Htmp Hkj) as [d2 H2].
  eapply run_bind_unit; [apply runs_wrapping; exact H2|]. apply runs_write_file in H2 as (j1 & Hj1 & Hk1 & E2).
  assert (Htmp2 : dk_tree d2 !! (dst ++ tmp) = Some (j1 <| nd_data := nd_data i |> <| nd_mtime := dk_now d1 |>))
    by (rewrite E2; apply lookup_insert_eq).
  destruct (run_chmod (dst ++ tmp) (if sf_exec f then mirrorExecMode else mirrorFileMode) d2 _ Htmp2) as [d3 H3]; [cbn; congruence|].
  eapply run_bind_unit; [apply runs_wrapping; exact H3|]. apply runs_chmod in H3 as (j2 & Hj2 & _ & E3).
  assert (Eo : only_at (dst ++ tmp) (dk_tree d) (dk_tree d3)).
  { intros p Hp. by rewrite E3, E2, Hj, !lookup_insert_ne. }
  rewrite Htmp2 in Hj2. injection Hj2 as <-.
  eapply (rename_runs before q n tmp d d3 _ f Hf Er Hd Hpar Eo); [rewrite E3; apply lookup_insert_eq|cbn; congruence| |].
  2:{ intros E%(inj (app dst)). unfold tmp in E. apply (f_equal length) in E. rewrite length_app in E. cbn in E. lia. }
  intros E. assert (t !! (src ++ q ++ [n]) = Some i) as Hs by (by rewrite <- Er). rewrite <- E in Hs. unfold tmp in Hs. by rewrite names_free in Hs.
Qed.
Lemma files_run text d :
  apart src dst = true → filled [] (dk_tree d) →
  ∃ d', runs (each (fun f => wrapping text (copyFileTo never random src dst f)) (st_files s)) d () d'.
Proof.
  intros Ha Hd. edestruct (each_runs (fun f => wrapping text (copyFileTo never random src dst f)) (st_files s) d
    (fun before d2 => filled before (dk_tree d2))) as (d' & H & _); [|done|by exists d'].
  intros before f after d2 E Hd2. assert (Hf : f ∈ st_files s) by (rewrite E; set_solver).
  destruct (copy_runs before f d2 Hf Hd2) as [d3 H3]. exists d3. rewrite runs_wrapping. split; [done|].
  by apply (copied_fills before f d2).
Qed.
Lemma dirs_fill t3 t4 :
  apart src dst = true → (∀ p, src `prefix_of` p → t3 !! p = t !! p) → ready t3 →
  (∀ p, (∀ q, q ∈ st_dirs s → p ≠ dst ++ q) → t4 !! p = t3 !! p) → (∀ q, q ∈ st_dirs s → dir_made dst t4 q) → filled [] t4.
Proof.
  intros Ha Hsrc [Hdst Hconf] Ho Hm. apply bool_decide_eq_true in Ha as [Ha1 Ha2]. split_and!.
  - intros p Hp. rewrite Ho; [by apply Hsrc|]. intros q _ ->.
    destruct (prefix_weak_total src dst (dst ++ q)); [done|by apply prefix_app_r|done|done].
  - destruct (decide ([] ∈ st_dirs s)) as [Hr|Hr].
    + destruct (Hm [] Hr) as (i & Hi & Hk & _). rewrite app_nil_r in Hi. by eapply kind_at_some.
    + unfold is_dir_at, kind_at. rewrite Ho; [done|]. intros q Hq E. rewrite <- (app_nil_r dst) in E at 1. by apply (inj (app dst)) in E as <-.
  - done.
  - intros q Hq i Hi. destruct (decide (q ∈ st_dirs s)) as [Hd|Hd].
    + destruct (Hm q Hd) as (j & Hj & Hk & _). rewrite Hj in Hi. injection Hi as <-. apply (rec_dir _ _ _ s_recorded) in Hd.
      unfold same_kind. by rewrite Hk, Hd.
    + rewrite Ho in Hi by (intros q' Hq' E%(inj (app dst)); by subst). by apply Hconf.
Qed.
End fill_total.

Section mirror_end.
Context (spares : nat → path → bool) (listing : list string → list string) (random : nat → string).
Context (to_lower : string → string) (is_local : string → bool) (src dst : path) (fold : bool).
Hypothesis listing_perm : ∀ l, listing l ≡ₚ l.
Abbreviation checks := (mirror_checks never listing to_lower is_local src dst fold).

Lemma checks_order d s d' : runs checks d s d' → top_down s ∧ ∀ q, q ∈ st_dirs s → (length q ≤ maxMirrorDepth)%nat.
Proof. unfold mirror_checks. intros H. run_parts. by eapply scan_order. Qed.
Lemma wf_mode t p i mode : wf_tree t → t !! p = Some i → wf_tree (<[p := i <| nd_mode := mode |>]> t).
Proof.
  intros Hwf Hi q n Hq. unfold is_dir_at, kind_at in *.
  assert (Hd : nd_kind <$> t !! q = Some KDir).
  { apply (Hwf q n). destruct (decide (q ++ [n] = p)) as [->|]; [by exists i|by rewrite lookup_insert_ne in Hq]. }
  destruct (decide (q = p)) as [->|]; [|by rewrite lookup_insert_ne]. rewrite lookup_insert_eq. rewrite Hi in Hd. done.
Qed.

(** C38: when no call fails, what passed the checks is mirrored: clearing enters
    no directory deeper than the scan went, every directory is made after
    the one it is in, and a temporary file's name is free unless the source
    has a file of that name. *)
Theorem mirror_completes d s d1 :
  wf_tree (dk_tree d) → temp_free src random (dk_tree d) → runs checks d s d1 →
  ∃ d', runs (mirror never spares listing random to_lower is_local src dst fold) d () d'.
Proof.
  intros Hwf Hfree H. pose proof (checks_order _ _ _ H) as [Hord Hlen]. pose proof H as Hc.
  apply checks_pass in Hc as (Ht & Hsrc & Hdst & Ha & Hs & Hall); [|apply listing_same, listing_perm|done].
  unfold runs. setoid_rewrite checks_first. eapply run_bind_unit; [exact H|]. pose proof Hdst as Hd. apply fmap_Some in Hd as (i0 & Hi0 & Hk0).
  destruct (run_chmod dst mirrorDirMode d1 i0) as [d2 H2]; [by rewrite Ht|congruence|].
  eapply run_bind_unit; [apply runs_wrapping; exact H2|]. apply runs_chmod in H2 as (i & Hi & _ & E2). rewrite Ht in Hi, E2. simplify_eq.
  assert (Hwf2 : wf_tree (dk_tree d2)) by (rewrite E2; by apply wf_mode).
  assert (Hdst2 : dk_tree d2 !! dst = Some (i0 <| nd_mode := mirrorDirMode |>)) by (rewrite E2; apply lookup_insert_eq).
  destruct (prune_runs dst (st_kinds s) spares listing listing_perm (S (S maxMirrorDepth)) [] d2) as [d3 H3];
    [done|rewrite app_nil_r; by eapply kind_at_some|unfold maxMirrorDepth; lia| |].
  { intros q Hq. apply (rec_dir _ _ _ Hs), Hlen in Hq. cbn. unfold maxMirrorDepth in *. lia. }
  eapply run_bind_unit; [apply runs_wrapping; exact H3|].
  apply prune_clears in H3 as (_ & Hshr & Hconf); [|apply listing_same, listing_perm|done].
  assert (Hcleared : ∀ p, (∀ q, q ≠ [] → p ≠ dst ++ q) → dk_tree d3 !! p = dk_tree d2 !! p).
  { intros p Hp. destruct (Hshr p) as [|[_ (q & (r & Hr & ->) & E)]]; [done|]. by destruct (Hp r). }
  assert (Hdst3 : dk_tree d3 !! dst = Some (i0 <| nd_mode := mirrorDirMode |>)).
  { rewrite Hcleared; [done|]. intros q Hq E. rewrite <- (app_nil_r dst) in E at 1. by apply (inj (app dst)) in E as <-. }
  assert (Hready : ready dst s (dk_tree d3)).
  { split; [by eapply kind_at_some|]. intros q Hq. apply Hconf. by exists q. }
  destruct (dirs_run src dst (dk_tree d) s Hs Hord d3 "create" Hready) as [d4 H4]. eapply run_bind_unit; [exact H4|].
  apply dirs_ensured in H4 as [Ho4 Hm4].
  apply (files_run src dst random (dk_tree d) s Hs Hord Hwf Hsrc Hall Hfree "copy" d4 Ha).
  eapply (dirs_fill src dst (dk_tree d) s Hs (dk_tree d3)); [done| |done|done|done].
  apply bool_decide_eq_true in Ha as [Ha1 Ha2]. intros p Hp.
  assert (Hn : ∀ q, p ≠ dst ++ q) by (intros q ->; destruct (prefix_weak_total src dst (dst ++ q)); [done|by apply prefix_app_r|done|done]).
  rewrite Hcleared by auto. rewrite E2, lookup_insert_ne; [done|]. intros ->. by apply (Hn []); rewrite app_nil_r.
Qed.
End mirror_end.

(** A build of a library and its data over an older one. *)
Definition plain_dir : inode := mkInode KDir 448 1000 0 "".
Definition plain_file (mode : Z) (data : string) : inode := mkInode KFile mode 1000 0 data.
Definition sample_tree : tree := list_to_map
  [([], plain_dir); (["b"%string], plain_dir); (["s"%string], plain_dir); (["b"; "app"]%string, plain_file 457 "new");
   (["b"; "lib"]%string, plain_dir); (["b"; "lib"; "x"]%string, plain_file 384 "data");
   (["s"; "app"]%string, plain_file 420 "old"); (["s"; "gone"]%string, plain_dir); (["s"; "gone"; "y"]%string, plain_file 420 "");
   (["s"; "lib"]%string, mkInode KLink 511 1000 0 "/etc")].
Definition sample_disk : disk := mkDisk sample_tree 0 5 1000.
Definition sample_mirror : disk → (ferr + ()) * disk :=
  mirror (fun _ => false) (fun _ _ => true) id (fun n => String (ascii_of (Z.of_nat n)) "") id (fun _ => true) ["b"%string] ["s"%string] false.
Example mirror_exact_witness :
  let d' := (sample_mirror sample_disk).2 in
  runs sample_mirror sample_disk () d' ∧ (∀ q, q ≠ [] → mirrored (sample_tree !! (["b"%string] ++ q)) (dk_tree d' !! (["s"%string] ++ q))) ∧
  dk_tree d' !! ["s"; "app"]%string = Some (mkInode KFile mirrorExecMode 1000 5 "new") ∧ dk_tree d' !! ["s"; "gone"; "y"]%string = None.
Proof.
  intros d'. assert (H : runs sample_mirror sample_disk () d') by (vm_compute; reflexivity). split; [exact H|]. split; [|split; vm_compute; reflexivity].
  destruct (mirror_exact (fun _ => false) (fun _ _ => true) id (fun n => String (ascii_of (Z.of_nat n)) "") id (fun _ => true)
    ["b"%string] ["s"%string] false (fun l n => iff_refl (n ∈ l)) sample_disk d') as (_ & _ & Hm).
  - apply wf_checked. vm_compute. reflexivity.
  - exact H.
  - exact Hm.
Defined.
Example mirror_refuses_witness :
  let d := sample_disk <| dk_tree ::= <[["b"; "pipe"]%string := mkInode KOther 420 1000 0 ""]> |> in
  ∃ e d', sample_mirror d = (inl e, d') ∧ dk_tree d' = dk_tree d.
Proof.
  intros d. apply (mirror_refuses (fun _ => false) (fun _ _ => true) id (fun n => String (ascii_of (Z.of_nat n)) "") id (fun _ => true)
    ["b"%string] ["s"%string] false (fun l n => iff_refl (n ∈ l)) d).
  - apply wf_checked. vm_compute. reflexivity.
  - right. exists ["pipe"%string], (mkInode KOther 420 1000 0 ""). split_and!; [done|vm_compute; reflexivity|done|done].
Defined.
Example mirror_completes_witness : ∃ d', runs sample_mirror sample_disk () d'.
Proof.
  destruct (mirror_checks never id id (fun _ => true) ["b"%string] ["s"%string] false sample_disk) as [[e|s] d1] eqn:E;
    [vm_compute in E; discriminate|].
  apply (mirror_completes (fun _ _ => true) id (fun n => String (ascii_of (Z.of_nat n)) "") id (fun _ => true) ["b"%string] ["s"%string] false
    (fun l => Permutation_refl l) sample_disk s d1); [apply wf_checked; vm_compute; reflexivity| |exact E].
  intros n q. apply eq_None_not_Some. intros [i Hi].
  assert (Hall : forallb (fun x : path * inode => negb (has_prefix mirrorTempName (default "" (last x.1)))) (map_to_list sample_tree) = true)
    by (vm_compute; reflexivity).
  rewrite forallb_forall in Hall. apply elem_of_map_to_list, list_elem_of_In, Hall in Hi.
  unfold fst in Hi. rewrite app_assoc, last_snoc in Hi. cbn [default] in Hi. unfold default, from_option, id in Hi. by rewrite has_prefix_app in Hi.
Defined.
