(* ===== verification/Artifacts.v ===== *)
(** * eyedbg's own files (internal/artifacts: artifacts.go, place.go, dir_unix.go, compose.go)

    Dumps, traces and fast mode's builds live in private directories below
    eyedbg's home: how those are made, named, kept to a number and an age,
    and removed. Paths are real ones, lists of names (Files.v), on a Unix
    host. *)

From S2P Require Import Prelude GoStrings GoPath Api PathMap Files Docker Mirror.
From Stdlib Require Import Ascii Bool.

Open Scope Z_scope.

(** ** Names (artifacts.go) *)

Definition Dumps : string := "dumps".
Definition Traces : string := "traces".
Definition Compose : string := "compose".
Definition hour : Z := 3600 * second.
Definition MaxAge : Z := 7 * 24 * hour.
Definition Keep : nat := 10.
Definition ScratchMaxAge : Z := hour.
Definition scratchExt : string := ".etlx".
Definition scratchNext : string := ".new".

(** The patterns, read from the left: a run of digits, so many bytes of a
    class, a text, one of some words. *)
Definition eat (n : nat) (p : ascii → bool) (s : string) : option string :=
  if (n <=? String.length s)%nat && all_bytes p (stake n s) then Some (sdrop n s) else None.
Fixpoint eat_all (p : ascii → bool) (s : string) : string :=
  match s with String c s' => if p c then eat_all p s' else s | EmptyString => s end.
Definition eat_digits (s : string) : option string := s ← eat 1 is_digit s; Some (eat_all is_digit s).
Definition lower_hex (c : ascii) : bool := isHex c.
Fixpoint eat_word (words : list string) (s : string) : option (string * string) :=
  match words with
  | [] => None
  | w :: words => match cut_prefix w s with Some rest => Some (w, rest) | None => eat_word words s end
  end.
(** [namePrefix], the types, [nameRandom]: the type, and what follows. *)
Definition eat_name (types : list string) (s : string) : option (string * string) :=
  s ← eat_digits s; s ← cut_prefix "-" s; s ← eat 8 is_digit s; s ← cut_prefix "T" s; s ← eat 6 is_digit s; s ← cut_prefix "Z-" s;
  typ ← eat_word types s; s ← cut_prefix "-" typ.2; s ← eat 8 lower_hex s; Some (typ.1, s).

Definition extension (kind : string) : string :=
  if kind =?s Dumps then ".dmp" else if kind =?s Traces then ".nettrace" else "".
Definition name_types (kind : string) : list string :=
  if kind =?s Dumps then ["heap"; "mini"; "triage"; "full"]%string else if kind =?s Traces then ["cpu"; "gc"]%string else [].
Definition TypeOf (kind name : string) : string :=
  match eat_name (name_types kind) name with
  | Some (typ, rest) => if rest =?s extension kind then typ else ""
  | None => ""
  end.
Definition IsName (kind name : string) : bool :=
  match eat_name (name_types kind) name with Some (_, rest) => rest =?s extension kind | None => false end.
Definition isScratch (kind name : string) : bool :=
  (kind =?s Traces) &&
  match eat_name ["cpu"; "gc"; "file"]%string name with
  | Some (_, rest) => (rest =?s scratchExt) || (rest =?s scratchExt +:+ scratchNext)
  | None => false
  end.

Section artifacts.
Context (fails : nat → bool) (spares : nat → path → bool) (listing : list string → list string) (random : nat → string).
Abbreviation lstat := (lstat fails).

(** [free]: nothing there, by the answer. *)
Fixpoint free (dir : path) (names : list string) : fsM bool :=
  match names with
  | [] => mret true
  | n :: names =>
    r ← trying (lstat (dir ++ [n]));
    match r with
    | inl e => if bool_decide (fe_cause e = NotExist) then free dir names else mret false
    | inr _ => mret false
    end
  end.
(** [stamp]: the time, formatted. *)
Definition freshName (dir : path) (known : string → bool) (ext pid typ stamp : string) (suffixes : list string) : fsM string :=
  attempts nameTries
    (b ← wrapping "pick a file name" (rand_bytes fails random 4);
     let name := pid +:+ "-" +:+ stamp +:+ "-" +:+ typ +:+ "-" +:+ hex_of b +:+ ext in
     if negb (known name) then throw (plain_error "not a name eyedbg keeps")
     else f ← free dir (name :: map (fun s => name +:+ s) suffixes); mret (if f : bool then Some name else None))
    (plain_error "names taken").
Definition Name (dir : path) (kind pid typ stamp : string) : fsM string :=
  freshName dir (IsName kind) (extension kind) pid typ stamp [].
(** [scratchPattern] also takes the sibling's name; [freshName] makes none. *)
Definition ScratchName (dir : path) (pid typ stamp : string) : fsM string :=
  freshName dir (isScratch Traces) scratchExt pid typ stamp [scratchNext].

(** ** Keeping few (artifacts.go) *)

Record entry := mkEntry { et_name : string; et_mod : Z }.
(** Newest first, then by name; names differ. *)
Definition newer (a b : entry) : Prop := et_mod b < et_mod a ∨ (et_mod a = et_mod b ∧ String.leb (et_name b) (et_name a) = true).
#[global] Instance newer_dec a b : Decision (newer a b).
Proof. unfold newer. apply _. Defined.

(** What of the names are regular files eyedbg names so: artifacts, and
    scratch files. *)
Fixpoint listed (dir : path) (kind : string) (names : list string) : fsM (list entry * list entry) :=
  match names with
  | [] => mret ([], [])
  | n :: names =>
    if negb (IsName kind n || isScratch kind n) then listed dir kind names
    else
      r ← trying (lstat (dir ++ [n]));
      l ← listed dir kind names;
      mret (match r with
            | inr i => match nd_kind i with
                       | KFile => if IsName kind n then (mkEntry n (nd_mtime i) :: l.1, l.2) else (l.1, mkEntry n (nd_mtime i) :: l.2)
                       | _ => l
                       end
            | inl _ => l
            end)
  end.
(** [list] *)
Definition list_kind (dir : path) (kind : string) : fsM (list entry * list entry) :=
  r ← trying (read_dir fails listing dir);
  match r with inl _ => mret ([], []) | inr names => listed dir kind names end.
(** Removes each; the names of those it could. *)
Fixpoint remove_each (dir : path) (names : list string) : fsM (list string) :=
  match names with
  | [] => mret []
  | n :: names =>
    r ← trying (remove fails (dir ++ [n]));
    l ← remove_each dir names;
    mret (match r with inr _ => n :: l | inl _ => l end)
  end.
(** Those that go, of the sorted ones, from place [i]. *)
Fixpoint expired (protected : string) (now maxAge : Z) (keep i : nat) (l : list entry) : list string :=
  match l with
  | [] => []
  | a :: l =>
    (if negb (et_name a =?s protected) && ((keep <=? i)%nat || (maxAge <? now - et_mod a)) then [et_name a] else [])
    ++ expired protected now maxAge keep (S i) l
  end.
Definition stale_scratch (protected : string) (now : Z) (l : list entry) : list string :=
  map et_name (List.filter (fun s => negb (et_name s =?s protected) && (ScratchMaxAge <? now - et_mod s)) l).
Definition protected_name (protect : path) : string := default ""%string (last protect).
Definition Prune (dir : path) (kind : string) (now maxAge : Z) (keep : nat) (protect : path) : fsM (list string) :=
  l ← list_kind dir kind;
  let protected := protected_name protect in
  a ← remove_each dir (expired protected now maxAge keep 0 (merge_sort newer l.1));
  b ← remove_each dir (stale_scratch protected now l.2);
  mret (a ++ b).

(** [Own]: [resolve] is [filepath.EvalSymlinks]. *)
Definition Own (resolve : path → option path) (dir : path) (kind : string) (p : path) : fsM (option path) :=
  match resolve p, resolve dir with
  | Some resolved, Some real =>
    match last resolved with
    | Some name =>
      if negb (bool_decide (removelast resolved = real)) || negb (IsName kind name) then mret None
      else r ← trying (lstat resolved);
           mret (match r with inr i => match nd_kind i with KFile => Some resolved | _ => None end | inl _ => None end)
    | None => mret None
    end
  | _, _ => mret None
  end.

(** ** Putting an artifact where the user wants it (place.go) *)

Definition ErrExists : ferr := mkErr Exist "exists".
Definition copyExclusive (src out : path) : fsM unit :=
  data ← wrapping "open" (read_file fails src);
  r ← trying (create_excl fails out 384);
  match r with
  | inl e =>
    s ← trying (lstat out);
    if bool_decide (fe_cause e = Exist) || match s with inr _ => true | inl _ => false end then throw ErrExists else throw (wrap "create" e)
  | inr _ => undoing fails out (wrapping "copy the dump" (write_file fails out data))
  end.
Definition Place (src out : path) : fsM unit :=
  r ← trying (hard_link fails src out);
  match r with
  | inr _ => _ ← trying (remove fails src); mret ()
  | inl e =>
    if bool_decide (fe_cause e = Exist) then throw ErrExists
    else _ ← copyExclusive src out; _ ← trying (remove fails src); mret ()
  end.

(** ** Private directories (artifacts.go, dir_unix.go) *)

(** [os.MkdirAll], from the top; [leads_to_dir] answers for a symlink. *)
Context (leads_to_dir : path → bool).
Fixpoint mkdir_all (base : path) (rest : list string) (mode : Z) : fsM unit :=
  match rest with
  | [] => mret ()
  | n :: rest =>
    let p := base ++ [n] in
    r ← trying (lstat p);
    _ ← match r with
        | inr i => match nd_kind i with
                   | KDir => mret ()
                   | KLink => if leads_to_dir p then mret () else throw (plain_error "not a directory")
                   | _ => throw (plain_error "not a directory")
                   end
        | inl e => if bool_decide (fe_cause e = NotExist) then mkdir fails p mode else throw e
        end;
    mkdir_all p rest mode
  end.
Definition checkOwner (uid me : Z) : fsM unit := if uid =? me then mret () else throw (plain_error "owned by another user").
Definition privateMode : Z := 448.   (* 0o700 *)
Definition checkPrivate (me : Z) (dir : path) (info : inode) : fsM unit :=
  _ ← checkOwner (nd_uid info) me;
  if Z.land (nd_mode info) 63 =? 0 then mret () else wrapping "restrict" (chmod fails dir privateMode).
Definition prepare (me : Z) (dir : path) : fsM unit :=
  _ ← wrapping "create" (mkdir_all [] dir privateMode);
  info ← wrapping "stat" (lstat dir);
  match nd_kind info with
  | KLink => throw (plain_error "a symlink")
  | KDir => checkPrivate me dir info
  | _ => throw (plain_error "not a directory")
  end.
(** [Dir]: [home] is [HomeDir]'s answer. *)
Definition Dir (home : ferr + path) (me : Z) (kind : string) : fsM path :=
  match home with
  | inl e => throw (wrap "locate the directory" e)
  | inr home => _ ← prepare me (home ++ [kind]); mret (home ++ [kind])
  end.

(** ** A compose project's directories (compose.go) *)

Definition servicesDir : string := "services".
Definition stagePrefix : string := "stage-".
Definition serviceDirMode : Z := 493.
Definition refusal (e : Error) : ferr := plain_error (e_message e).
Definition checked (r : result unit) : fsM unit := match r with Ok _ => mret () | Err e => throw (refusal e) end.

Definition ProjectDir (me : Z) (root : path) (project : string) : fsM path :=
  _ ← checked (CheckGroup project);
  _ ← prepare me (root ++ [project]);
  mret (root ++ [project]).
Definition requireRealDir (dir : path) : fsM unit := openRealDir fails dir.
Definition ensureDir (dir : path) (mode : Z) : fsM unit :=
  r ← trying (mkdir fails dir mode);
  _ ← match r with inl e => if bool_decide (fe_cause e = Exist) then mret () else throw (wrap "create" e) | inr _ => mret () end;
  _ ← requireRealDir dir;
  wrapping "set the mode" (chmod fails dir mode).
(** [fold]: the host's file systems fold case; [to_lower]: [strings.ToLower],
    [equal_fold]: [strings.EqualFold]. *)
Context (fold : bool) (to_lower : string → string) (equal_fold : string → string → bool).
Definition checkAlias (dir : path) (name : string) : fsM unit :=
  names ← wrapping "read" (read_dir fails listing dir);
  if existsb (fun n => negb (n =?s name) && equal_fold n name) names then throw (plain_error "names that differ only in case") else mret ().
Definition noCaseAlias (dir : path) (name : string) : fsM unit := if fold then checkAlias dir name else mret ().
Definition ServiceDir (projectDir : path) (service : string) : fsM path :=
  _ ← checked (ValidateService service);
  _ ← requireRealDir projectDir;
  let services := projectDir ++ [servicesDir] in
  _ ← ensureDir services privateMode;
  _ ← noCaseAlias services service;
  _ ← ensureDir (services ++ [service]) serviceDirMode;
  mret (services ++ [service]).
Fixpoint fold_names (names : list string) (seen : gmap string string) : bool :=
  match names with
  | [] => true
  | n :: names =>
    match seen !! to_lower n with
    | Some other => if other =?s n then fold_names names (<[to_lower n := n]> seen) else false
    | None => fold_names names (<[to_lower n := n]> seen)
    end
  end.
(** [CheckServiceNames] *)
Definition checkFold (names : list string) : bool := negb fold || fold_names names ∅.

Definition isStageName (name : string) : bool :=
  match cut_prefix stagePrefix name with Some hex => (String.length hex =? 8)%nat && all_bytes isHex hex | None => false end.
Definition NewStage (projectDir : path) : fsM path :=
  _ ← requireRealDir projectDir;
  attempts nameTries
    (b ← wrapping "pick a staging directory name" (rand_bytes fails random 4);
     let dir := projectDir ++ [stagePrefix +:+ hex_of b] in
     r ← trying (mkdir fails dir privateMode);
     match r with
     | inl e => if bool_decide (fe_cause e = Exist) then mret None else throw (wrap "create" e)
     | inr _ => mret (Some dir)
     end)
    (plain_error "names taken").
Definition removeChildDir (dir : path) (name : string) : fsM unit :=
  _ ← openRealDir fails dir;
  r ← trying (lstat (dir ++ [name]));
  match r with
  | inl e => if bool_decide (fe_cause e = NotExist) then mret () else throw (wrap "stat" e)
  | inr i => match nd_kind i with
             | KDir => wrapping "remove" (remove_all fails spares (dir ++ [name]))
             | _ => throw (plain_error "not a real directory")
             end
  end.
Definition RemoveStage (projectDir stage : path) : fsM unit :=
  match last stage with
  | Some name =>
    if negb (bool_decide (stage = projectDir ++ [name])) || negb (isStageName name) then throw (plain_error "not a staging directory")
    else removeChildDir projectDir name
  | None => throw (plain_error "not a staging directory")
  end.
Fixpoint remove_children (dir : path) (names : list string) : fsM (list string) :=
  match names with
  | [] => mret []
  | n :: names =>
    r ← trying (info ← lstat (dir ++ [n]);
                match nd_kind info with KDir => remove_all fails spares (dir ++ [n]) | _ => throw (plain_error "not a real directory") end);
    l ← remove_children dir names;
    mret (match r with inr _ => n :: l | inl _ => l end)
  end.
Definition pruneChildren (dir : path) (pick : string → bool) : fsM (list string) :=
  r ← trying (_ ← openRealDir fails dir; read_dir fails listing dir);
  match r with inl _ => mret [] | inr names => remove_children dir (List.filter pick names) end.
(** [keep]: a path, or none. *)
Definition PruneStages (projectDir : path) (keep : option path) : fsM (list string) :=
  pruneChildren projectDir (fun name => isStageName name && match keep with Some k => negb (bool_decide (last k = Some name)) | None => true end).
Definition inKeep (keep : list string) (name : string) : bool :=
  existsb (String.eqb name) keep || (fold && existsb (fun k => equal_fold k name) keep).
Definition PruneServices (projectDir : path) (keep : list string) : fsM (list string) :=
  pruneChildren (projectDir ++ [servicesDir]) (fun name => is_ok (ValidateService name) && negb (inKeep keep name)).
Definition RemoveProjectDir (root : path) (project : string) : fsM unit :=
  _ ← checked (CheckGroup project);
  removeChildDir root project.
End artifacts.

(** ** What pruning removes *)

Section prune.
Context (fails : nat → bool) (listing : list string → list string).

(** A regular file in the directory. *)
Definition file_in (t : tree) (dir : path) (n : string) (i : inode) : Prop := t !! (dir ++ [n]) = Some i ∧ nd_kind i = KFile.
Definition entry_in (t : tree) (dir : path) (a : entry) : Prop := ∃ i, file_in t dir (et_name a) i ∧ nd_mtime i = et_mod a.

Lemma listed_reads dir kind names d l d' :
  runs (listed fails dir kind names) d l d' →
  dk_tree d' = dk_tree d ∧ (map et_name l.1 `sublist_of` names) ∧
  (∀ a, a ∈ l.1 → IsName kind (et_name a) = true ∧ entry_in (dk_tree d) dir a) ∧
  (∀ a, a ∈ l.2 → IsName kind (et_name a) = false ∧ isScratch kind (et_name a) = true ∧ entry_in (dk_tree d) dir a).
Proof.
  revert d l. induction names as [|n names IH]; intros d l H; cbn in H; [run_parts; split_and!; [done|constructor|set_solver..]|].
  destruct (IsName kind n) eqn:En, (isScratch kind n) eqn:Es; cbn in H.
  4: { apply IH in H as (? & ? & ? & ?). split_and!; try done. by constructor. }
  all: run_parts; apply IH in H0 as (Ht & Hs & Ha & Hb); apply runs_trying in H; destruct x as [e|i].
  all: try (apply failed_lstat in H; rewrite Ht, H in *; split_and!; [done|by constructor|done|done]).
  all: apply runs_lstat in H as [Hi H]; rewrite H in *; destruct (nd_kind i) eqn:Ek.
  all: try (split_and!; [done|by constructor|done|done]).
  all: cbn; split_and!; try done; try (by constructor).
  all: intros a [->|?]%elem_of_cons; [|by auto]; split_and!; try done; by exists i.
Qed.
Lemma list_reads dir kind d l d' :
  runs (list_kind fails listing dir kind) d l d' →
  dk_tree d' = dk_tree d ∧ (map et_name l.1 `sublist_of` listing (names_in dir (dk_tree d))) ∧
  (∀ a, a ∈ l.1 → IsName kind (et_name a) = true ∧ entry_in (dk_tree d) dir a) ∧
  (∀ a, a ∈ l.2 → IsName kind (et_name a) = false ∧ isScratch kind (et_name a) = true ∧ entry_in (dk_tree d) dir a).
Proof.
  unfold list_kind. intros H. apply runs_bind in H as (x & d1 & H1 & H). apply runs_trying in H1. destruct x as [e|names].
  - run_parts. pose proof (quiet_read_dir fails listing dir d) as Hq. rewrite H1 in Hq.
    split_and!; [done|apply sublist_nil_l|set_solver..].
  - apply runs_read_dir in H1 as (_ & -> & Ht). apply listed_reads in H. by rewrite Ht in H.
Qed.

Lemma removes dir names d gone d' :
  runs (remove_each fails dir names) d gone d' →
  (∀ n, n ∈ gone → n ∈ names) ∧ shrinks (fun q => ∃ n, n ∈ gone ∧ q = dir ++ [n]) (dk_tree d) (dk_tree d') ∧
  ∀ n, n ∈ gone → dk_tree d' !! (dir ++ [n]) = None.
Proof.
  clear listing. revert d gone. induction names as [|n names IH]; intros d gone H; cbn in H; run_parts.
  - split_and!; [set_solver|apply shrinks_refl|set_solver].
  - apply IH in H0 as (Hin & Hs & Hgone). apply runs_trying in H. destruct x as [e|[]].
    + apply failed_remove in H as Hq.
      rewrite <- Hq. split_and!; [set_solver|done|done].
    + apply runs_remove in H as (_ & _ & Ht). rewrite Ht in Hs. split_and!; [set_solver| |].
      * eapply shrinks_trans; [eapply shrinks_weaken, delete_shrinks|eapply shrinks_weaken, Hs].
        -- intros q <-. exists n. split; [by left|done].
        -- intros q (m & ? & ->). exists m. split; [by right|done].
      * intros m [->|?]%elem_of_cons; [|by apply Hgone]. destruct (Hs (dir ++ [n])) as [E|[E _]]; [|done]. by rewrite E, lookup_delete_eq.
Qed.

Lemma expired_spec protected now maxAge keep i l n :
  n ∈ expired protected now maxAge keep i l ↔
  ∃ before a after, l = before ++ a :: after ∧ n = et_name a ∧ n ≠ protected ∧
                    ((keep ≤ i + length before)%nat ∨ maxAge < now - et_mod a).
Proof.
  revert i. induction l as [|b l IH]; intros i; cbn; [split; [intros H; by apply not_elem_of_nil in H|by intros ([|? ?] & a & ? & ? & _)]|].
  rewrite elem_of_app, IH. split.
  - intros [H|(before & a & after & -> & H)].
    + destruct (_ && _) eqn:E; [|by apply not_elem_of_nil in H]. apply list_elem_of_singleton in H as ->.
      apply andb_prop in E as [En%negb_true_iff%String.eqb_neq E]. exists [], b, l. split_and!; try done.
      apply orb_prop in E as [E%Nat.leb_le|E%Z.ltb_lt]; [left; cbn; lia|by right].
    + exists (b :: before), a, after. split; [done|]. cbn. rewrite Nat.add_succ_r. done.
  - intros ([|c before] & a & after & E & -> & Hn & H); injection E as -> ->.
    + left. assert (En : negb (et_name a =?s protected) = true) by (by apply negb_true_iff, String.eqb_neq).
      rewrite En. assert (Eb : (keep <=? i)%nat || (maxAge <? now - et_mod a) = true).
      { apply orb_true_iff. destruct H; [left; apply Nat.leb_le; cbn in *; lia|right; by apply Z.ltb_lt]. }
      rewrite Eb. by left.
    + right. exists before, a, after. split_and!; try done. by rewrite Nat.add_succ_comm.
Qed.
Lemma stale_spec protected now l n :
  n ∈ stale_scratch protected now l ↔ ∃ a, a ∈ l ∧ n = et_name a ∧ n ≠ protected ∧ ScratchMaxAge < now - et_mod a.
Proof.
  unfold stale_scratch. split.
  - intros (a & -> & Ha)%list_elem_of_fmap. apply list_elem_of_In, filter_In in Ha as [Ha H]. apply list_elem_of_In in Ha.
    apply andb_prop in H as [H%negb_true_iff%String.eqb_neq H2%Z.ltb_lt]. by exists a.
  - intros (a & Ha & -> & Hn & Hm). apply list_elem_of_fmap. exists a. split; [done|]. apply list_elem_of_In, filter_In.
    split; [by apply list_elem_of_In|]. apply andb_true_iff. split; [by apply negb_true_iff, String.eqb_neq|by apply Z.ltb_lt].
Qed.

#[global] Instance newer_total : Total newer.
Proof.
  intros a b. unfold newer. destruct (Z.lt_total (et_mod a) (et_mod b)) as [|[|]]; [auto| |auto].
  destruct (String.leb_total (et_name a) (et_name b)); auto.
Qed.
Lemma Sorted_weaken {A : Type} (R S : A → A → Prop) l : (∀ x y, R x y → S x y) → Sorted R l → Sorted S l.
Proof. intros H. induction 1 as [|a l Hl IH Hh]; constructor; [done|]. destruct Hh; constructor; auto. Qed.
(** Those before a place are no older. *)
Lemma sorted_newer l before a after b : merge_sort newer l = before ++ a :: after → b ∈ before → et_mod a ≤ et_mod b.
Proof.
  intros E Hb. set (R := fun x y => et_mod y ≤ et_mod x). assert (Htr : Transitive R) by (intros x y z; unfold R; lia).
  assert (Hs : StronglySorted R (merge_sort newer l)).
  { apply Sorted_StronglySorted; [done|]. apply (Sorted_weaken newer); [intros x y [|[]]; unfold R; lia|]. apply Sorted_merge_sort, _. }
  rewrite E in Hs. eapply (StronglySorted_app_1_elem_of R); [exact Hs|done|by left].
Qed.
End prune.

(** What pruning may take: an artifact that is too old or has [keep] others
    that are no older, or a scratch file nobody writes any more. *)
Definition outdated (t : tree) (dir : path) (kind : string) (now maxAge : Z) (keep : nat) (n : string) : Prop :=
  ∃ i, file_in t dir n i ∧
  ((IsName kind n = true ∧
    (maxAge < now - nd_mtime i ∨
     ∃ others, NoDup others ∧ length others = keep ∧ (n ∉ others) ∧
               ∀ m, m ∈ others → IsName kind m = true ∧ ∃ j, file_in t dir m j ∧ nd_mtime i ≤ nd_mtime j)) ∨
   (isScratch kind n = true ∧ ScratchMaxAge < now - nd_mtime i)).
Section pruned.
Context (fails : nat → bool) (listing : list string → list string).
Hypothesis (Hlisting : ∀ l, listing l ≡ₚ l).

Lemma listing_nodup dir t : NoDup (listing (names_in dir t)).
Proof. rewrite Hlisting. apply names_in_NoDup. Qed.
Lemma expired_outdated dir kind d l d' protected now maxAge keep n :
  runs (list_kind fails listing dir kind) d l d' →
  n ∈ expired protected now maxAge keep 0 (merge_sort newer l.1) → outdated (dk_tree d) dir kind now maxAge keep n.
Proof.
  intros Hl He. apply list_reads in Hl as (_ & Hsub & Ha & _).
  assert (Hnd : NoDup (map et_name (merge_sort newer l.1))).
  { rewrite (Permutation_map et_name (merge_sort_Permutation newer l.1)). eapply sublist_NoDup; [apply listing_nodup|exact Hsub]. }
  apply expired_spec in He as (before & a & after & E & -> & _ & H).
  assert (Hin : ∀ b, b ∈ merge_sort newer l.1 → b ∈ l.1) by (intros b; by rewrite (merge_sort_Permutation newer)).
  destruct (Ha a) as (Hn & i & Hi & Hm); [apply Hin; rewrite E; set_solver|].
  exists i. split; [done|]. left. split; [done|]. destruct H as [H|H]; [right|left; by rewrite Hm].
  rewrite E, map_app in Hnd. apply NoDup_app in Hnd as (Hnd & Hdis & _).
  exists (take keep (map et_name before)). split_and!.
  - eapply sublist_NoDup; [done|apply sublist_take].
  - rewrite length_take, length_map. lia.
  - intros Hx%elem_of_take. destruct Hx as (k & Hx & _). apply list_elem_of_lookup_2, Hdis in Hx. apply Hx. by left.
  - intros m (k & Hx & _)%elem_of_take. apply list_elem_of_lookup_2, list_elem_of_fmap in Hx as (b & -> & Hb).
    destruct (Ha b) as (Hbn & j & Hj & Hbm); [apply Hin; rewrite E; set_solver|]. split; [done|]. exists j. split; [done|].
    rewrite Hm, Hbm. by eapply sorted_newer.
Qed.

Lemma list_runs dir kind d : ∃ l d', runs (list_kind fails listing dir kind) d l d'.
Proof.
  unfold list_kind. destruct (tries (read_dir fails listing dir) d) as (r & d1 & H1).
  enough (∃ l d', runs match r with inl _ => mret ([], []) | inr names => listed fails dir kind names end d1 l d') as (l & d' & H2)
    by (exists l, d'; apply runs_bind; by exists r, d1).
  destruct r as [e|names]; [by do 2 eexists|]. clear H1. revert d1. induction names as [|n names IH]; intros d1; cbn; [by do 2 eexists|].
  destruct (negb _); [by apply IH|]. destruct (tries (lstat fails (dir ++ [n])) d1) as (r & d2 & H2), (IH d2) as (l & d3 & H3).
  do 2 eexists. apply runs_bind. exists r, d2. split; [done|]. apply runs_bind. by exists l, d3.
Qed.
Lemma remove_runs dir names d : ∃ gone d', runs (remove_each fails dir names) d gone d'.
Proof.
  revert d. induction names as [|n names IH]; intros d; cbn; [by do 2 eexists|].
  destruct (tries (remove fails (dir ++ [n])) d) as (r & d2 & H2), (IH d2) as (l & d3 & H3).
  do 2 eexists. apply runs_bind. exists r, d2. split; [done|]. apply runs_bind. by exists l, d3.
Qed.
Lemma prune_parts dir kind now maxAge keep protect d :
  ∃ l d1 a d2 b d', let protected := protected_name protect in
  runs (list_kind fails listing dir kind) d l d1 ∧
  runs (remove_each fails dir (expired protected now maxAge keep 0 (merge_sort newer l.1))) d1 a d2 ∧
  runs (remove_each fails dir (stale_scratch protected now l.2)) d2 b d' ∧
  runs (Prune fails listing dir kind now maxAge keep protect) d (a ++ b) d'.
Proof.
  destruct (list_runs dir kind d) as (l & d1 & Hl).
  destruct (remove_runs dir (expired (protected_name protect) now maxAge keep 0 (merge_sort newer l.1)) d1) as (a & d2 & Ha).
  destruct (remove_runs dir (stale_scratch (protected_name protect) now l.2) d2) as (b & d' & Hb).
  exists l, d1, a, d2, b, d'. split_and!; try done. unfold Prune.
  apply runs_bind. exists l, d1. split; [done|]. apply runs_bind. exists a, d2. split; [done|]. apply runs_bind. by exists b, d'.
Qed.

(** [Prune] removes nothing that may still matter, whatever calls fail.
    Everything else in the file system stays as it was; each name it returns
    is gone, was a regular file of that directory other than the protected
    one, and was outdated: a scratch file older than an hour, or an artifact
    older than [maxAge] or with [keep] other artifacts that are no older. *)
Theorem prune_safe dir kind now maxAge keep protect d :
  ∃ gone d', runs (Prune fails listing dir kind now maxAge keep protect) d gone d' ∧
  shrinks (fun q => ∃ n, n ∈ gone ∧ q = dir ++ [n]) (dk_tree d) (dk_tree d') ∧
  ∀ n, n ∈ gone → dk_tree d' !! (dir ++ [n]) = None ∧ n ≠ protected_name protect ∧ outdated (dk_tree d) dir kind now maxAge keep n.
Proof.
  destruct (prune_parts dir kind now maxAge keep protect d) as (l & d1 & a & d2 & b & d' & Hl & Ha & Hb & H).
  exists (a ++ b), d'. split; [done|]. pose proof Hl as (Ht & _ & _ & Hs)%list_reads.
  apply removes in Ha as (Hain & Has & Hagone), Hb as (Hbin & Hbs & Hbgone). rewrite Ht in Has. split.
  - eapply shrinks_trans; [eapply shrinks_weaken, Has|eapply shrinks_weaken, Hbs]; intros q (n & ? & ->); exists n; set_solver.
  - intros n [Hn|Hn]%elem_of_app; split_and!.
    + destruct (Hbs (dir ++ [n])) as [->|[-> _]]; [by apply Hagone|done].
    + apply Hain, expired_spec in Hn as (_ & _ & _ & _ & _ & ? & _). done.
    + by eapply expired_outdated, Hain.
    + by apply Hbgone.
    + apply Hbin, stale_spec in Hn as (_ & _ & _ & ? & _). done.
    + apply Hbin, stale_spec in Hn as (s & Hin & -> & _ & Hm). destruct (Hs s Hin) as (_ & Hk & i & Hi & Hmod).
      exists i. split; [done|]. right. by rewrite Hmod.
Qed.

(** *** All that is outdated goes *)

Lemma files_removed dir names d gone d' :
  wf_tree (dk_tree d) → (∀ n, n ∈ names → dk_tree d !! (dir ++ [n]) = None ∨ ∃ i, file_in (dk_tree d) dir n i) →
  runs (remove_each never dir names) d gone d' →
  wf_tree (dk_tree d') ∧ ∀ n, n ∈ names → dk_tree d' !! (dir ++ [n]) = None.
Proof.
  clear Hlisting listing fails. revert d gone. induction names as [|n names IH]; intros d gone Hwf Hf H; cbn in H; [run_parts; set_solver|].
  run_parts. apply runs_trying in H. destruct x as [e|[]].
  - pose proof H as Hq%failed_remove. assert (Hn : dk_tree d !! (dir ++ [n]) = None).
    { destruct (Hf n) as [|(i & Hi & Hk)]; [by left|done|]. exfalso. destruct (run_remove (dir ++ [n]) d) as [d1 H1]; [by exists i| |].
      - apply no_entries; [done|]. unfold is_dir_at. by rewrite (kind_at_some _ _ _ _ Hi Hk).
      - unfold runs in H1. by rewrite H in H1. }
    pose proof H0 as (_ & Hs & _)%removes. apply IH in H0 as [Hw Hall]; [|by rewrite Hq|intros m Hm; rewrite Hq; apply Hf; by right].
    split; [done|]. intros m [->|Hm]%elem_of_cons; [|by apply Hall]. rewrite Hq in Hs. destruct (Hs (dir ++ [n])) as [->|[-> _]]; done.
  - apply runs_remove in H as (_ & He & Ht).
    assert (Hnd : ¬ is_dir_at (dk_tree d) (dir ++ [n])).
    { intros Hd. destruct (Hf n) as [E|(i & Hi & Hk)]; [by left| |]; unfold is_dir_at, kind_at in Hd.
      - by rewrite E in Hd.
      - rewrite Hi in Hd. cbn in Hd. congruence. }
    pose proof H0 as (_ & Hs & _)%removes. rewrite Ht in Hs. apply IH in H0 as [Hw Hall].
    + split; [done|]. intros m [->|Hm]%elem_of_cons; [|by apply Hall].
      destruct (Hs (dir ++ [n])) as [->|[-> _]]; [by rewrite lookup_delete_eq|done].
    + rewrite Ht. by apply delete_wf.
    + intros m Hm. rewrite Ht. destruct (decide (m = n)) as [->|Hmn]; [left; by rewrite lookup_delete_eq|].
      assert (dir ++ [n] ≠ dir ++ [m]) by (intros E; by simplify_list_eq). unfold file_in.
      rewrite lookup_delete_ne by done. apply Hf. by right.
Qed.

Lemma listed_all dir kind names d l d' n i :
  runs (listed never dir kind names) d l d' → n ∈ names → file_in (dk_tree d) dir n i →
  (IsName kind n = true → mkEntry n (nd_mtime i) ∈ l.1) ∧
  (IsName kind n = false → isScratch kind n = true → mkEntry n (nd_mtime i) ∈ l.2).
Proof.
  revert d l. induction names as [|m names IH]; intros d l H Hn Hf; cbn in H; [by apply not_elem_of_nil in Hn|].
  apply elem_of_cons in Hn as [<-|Hn].
  - destruct (IsName kind n) eqn:En, (isScratch kind n) eqn:Es; cbn in H; try done.
    all: destruct Hf as [Hi Hk]; run_parts; unfold runs, trying in H; rewrite (run_lstat (dir ++ [n]) d i Hi) in H.
    all: injection H as <- _; rewrite Hk; split; intros; try done; by left.
  - destruct (negb _); [by eapply IH|]. run_parts. assert (Ht : dk_tree x0 = dk_tree d).
    { pose proof (quiet_trying _ (quiet_lstat never (dir ++ [m])) d) as Hq. by rewrite H in Hq. }
    rewrite <- Ht in Hf. destruct (IH _ _ H0 Hn Hf) as [Ha Hb]. destruct x as [e|j]; [done|].
    destruct (nd_kind j); try done. destruct (IsName kind m); cbn; split; intros; try (by auto); right; auto.
Qed.
End pruned.
Section prune_all.
Context (listing : list string → list string).
Hypothesis (Hlisting : ∀ l, listing l ≡ₚ l).

(** [Prune] bounds what is kept. When every call works, of the artifacts
    that may go at most [keep] are left in the directory, none of them older
    than [maxAge], and no scratch file that may go is older than an hour. *)
Theorem prune_bounds dir kind now maxAge keep protect d :
  wf_tree (dk_tree d) → is_dir_at (dk_tree d) dir →
  ∃ gone d', runs (Prune never listing dir kind now maxAge keep protect) d gone d' ∧
  (∀ left, NoDup left →
     (∀ n, n ∈ left → IsName kind n = true ∧ n ≠ protected_name protect ∧ ∃ i, file_in (dk_tree d') dir n i) →
     (length left ≤ keep)%nat) ∧
  ∀ n i, file_in (dk_tree d') dir n i → n ≠ protected_name protect →
    (IsName kind n = true → now - nd_mtime i ≤ maxAge) ∧
    (IsName kind n = false → isScratch kind n = true → now - nd_mtime i ≤ ScratchMaxAge).
Proof.
  intros Hwf Hdir. destruct (prune_parts never listing dir kind now maxAge keep protect d) as (l & d1 & a & d2 & b & d' & Hl & Ha & Hb & H).
  exists (a ++ b), d'. split; [done|]. set (p := protected_name protect) in *.
  pose proof Hl as (Ht & _ & Hl1 & Hl2)%list_reads.
  assert (Hfound : ∀ n i, file_in (dk_tree d) dir n i →
    (IsName kind n = true → mkEntry n (nd_mtime i) ∈ l.1) ∧ (IsName kind n = false → isScratch kind n = true → mkEntry n (nd_mtime i) ∈ l.2)).
  { intros n i Hi. unfold list_kind in Hl. apply runs_bind in Hl as (r & d0 & Hr & Hl). unfold runs, trying in Hr.
    rewrite (run_read_dir listing dir d Hdir) in Hr. injection Hr as <- <-. eapply (listed_all _ _ _ _ _ _ _ _ Hl); [|done].
    rewrite Hlisting, names_in_spec. destruct Hi. by exists i. }
  pose proof Ha as (_ & Has & _)%removes. pose proof Hb as (_ & Hbs & _)%removes. rewrite <- Ht in Hwf, Hl1, Hl2.
  apply files_removed in Ha as [Hwf2 Hagone]; [|done|].
  2:{ intros n (before & e & after & E & -> & _)%expired_spec. right. destruct (Hl1 e) as (_ & i & Hi & _); [|by exists i].
      rewrite <- (merge_sort_Permutation newer), E. set_solver. }
  apply files_removed in Hb as [_ Hbgone]; [|done|].
  2:{ intros n (e & He & -> & _)%stale_spec. destruct (Hl2 e He) as (_ & _ & i & [Hi Hk] & _). destruct (Has (dir ++ [et_name e])) as [E|[E _]];
      [right; exists i; split; [by rewrite E|done]|by left]. }
  assert (Hback : ∀ n i, file_in (dk_tree d') dir n i → file_in (dk_tree d) dir n i).
  { intros n i [Hi Hk]. split; [|done]. rewrite <- Ht. by eapply shrinks_some, shrinks_some. }
  assert (Hkept : ∀ n i, file_in (dk_tree d') dir n i → (n ∉ expired p now maxAge keep 0 (merge_sort newer l.1)) ∧ (n ∉ stale_scratch p now l.2)).
  { intros n i Hi. split; intros Hx; destruct Hi as [Hi _].
    - apply Hagone in Hx. destruct (Hbs (dir ++ [n])) as [E|[E _]]; congruence.
    - apply Hbgone in Hx. congruence. }
  split.
  - intros left Hnd Hleft. enough (∀ n, n ∈ left → n ∈ map et_name (take keep (merge_sort newer l.1))) as Hsub.
    { apply NoDup_submseteq, submseteq_length in Hsub; [|done]. rewrite length_map, length_take in Hsub. lia. }
    intros n Hn. destruct (Hleft n Hn) as (Hname & Hp & i & Hi). destruct (Hkept n i Hi) as [Hx _].
    destruct (Hfound n i (Hback n i Hi)) as [He _]. specialize (He Hname). rewrite <- (merge_sort_Permutation newer) in He.
    apply list_elem_of_split in He as (before & after & E). destruct (decide (keep ≤ length before)%nat) as [Hk|Hk].
    + exfalso. apply Hx, expired_spec. exists before, (mkEntry n (nd_mtime i)), after. auto.
    + apply list_elem_of_fmap. exists (mkEntry n (nd_mtime i)). split; [done|]. rewrite E.
      rewrite take_app_ge by lia. apply elem_of_app. right. destruct (keep - length before)%nat eqn:En; [lia|]. by left.
  - intros n i Hi Hp. destruct (Hkept n i Hi) as [Hx Hy]. destruct (Hfound n i (Hback n i Hi)) as [He Hs]. split.
    + intros Hname. specialize (He Hname). destruct (decide (maxAge < now - nd_mtime i)) as [Hage|]; [|lia]. exfalso. apply Hx.
      rewrite <- (merge_sort_Permutation newer) in He. apply list_elem_of_split in He as (before & after & E).
      apply expired_spec. exists before, (mkEntry n (nd_mtime i)), after. auto.
    + intros Hn Hsc. specialize (Hs Hn Hsc). destruct (decide (ScratchMaxAge < now - nd_mtime i)) as [Hage|]; [|lia].
      exfalso. apply Hy, stale_spec. by exists (mkEntry n (nd_mtime i)).
Qed.
End prune_all.

(** ** A dump is never lost *)

Section placed.
Context (fails : nat → bool).

(** Nothing but what is at [p] differs. *)
Definition differs_at (p : path) (t t' : tree) : Prop := ∀ q, q ≠ p → t' !! q = t !! q.
Lemma insert_differs p i t : differs_at p t (<[p := i]> t).
Proof. intros q Hq. by rewrite lookup_insert_ne. Qed.
Lemma delete_differs p t : differs_at p t (delete p t).
Proof. intros q Hq. by rewrite lookup_delete_ne. Qed.
Lemma differs_trans p t t1 t2 : differs_at p t t1 → differs_at p t1 t2 → differs_at p t t2.
Proof. intros H1 H2 q Hq. by rewrite H2, H1. Qed.
Lemma removed_differs p d r d' : runs (trying (remove fails p)) d r d' → differs_at p (dk_tree d) (dk_tree d').
Proof.
  intros H. apply runs_trying in H. destruct r as [e|u].
  - apply failed_remove in H. intros q _. by rewrite H.
  - apply runs_remove in H as (_ & _ & ->). apply delete_differs.
Qed.
Lemma linked src out d u d' i :
  runs (hard_link fails src out) d u d' → dk_tree d !! src = Some i →
  dk_tree d !! out = None ∧ dk_tree d' = <[out := i]> (dk_tree d).
Proof.
  intros [_ H]%runs_sys Hi. cbn in H. rewrite Hi in H. destruct (dk_tree d !! out); [done|].
  destruct (_ || _); [done|]. by injection H as _ <-.
Qed.
Lemma not_linked src out d e d' :
  hard_link fails src out d = (inl e, d') → dk_tree d' = dk_tree d.
Proof.
  unfold hard_link, sys. destruct (fails _); [by intros [= _ <-]|]. cbn. destruct (dk_tree d !! src); [|by intros [= _ <-]].
  destruct (dk_tree d !! out); [by intros [= _ <-]|]. destruct (_ || _); by intros [= _ <-].
Qed.

Lemma copied src out d i :
  dk_tree d !! src = Some i → nd_kind i = KFile →
  match copyExclusive fails src out d with
  | (inr _, d') => dk_tree d !! out = None ∧ ∃ j, dk_tree d' = <[out := j]> (dk_tree d) ∧ nd_kind j = KFile ∧ nd_data j = nd_data i
  | (inl _, d') => differs_at out (dk_tree d) (dk_tree d') ∧ (is_Some (dk_tree d !! out) → dk_tree d' = dk_tree d)
  end.
Proof.
  intros Hi Hk. destruct (copyExclusive fails src out d) as [[e|u] d'] eqn:E.
  - unfold copyExclusive, mbind, fsM_bind in E.
    pose proof (quiet_wrapping "open" _ (quiet_read_file fails src) d) as Hq. destruct (wrapping "open" _ d) as [[e0|data] d1]; cbn in Hq.
    { injection E as _ <-. rewrite Hq. split; [by intros ?|done]. }
    unfold trying at 1 in E. destruct (create_excl fails out 384 d1) as [[e0|[]] d2] eqn:Ec.
    + apply failed_create in Ec. assert (dk_tree d' = dk_tree d) as ->; [|split; [by intros ?|done]].
      rewrite <- Hq, <- Ec. pose proof (quiet_trying _ (quiet_lstat fails out) d2) as Hq2.
      destruct (trying (lstat fails out) d2) as [[e1|s] d3]; [by injection E as _ <-|].
      destruct (_ || _); injection E as _ <-; done.
    + pose proof Ec as (Hn & _ & Ht)%(runs_create fails). rewrite Hq in Hn, Ht. split; [|rewrite Hn; by intros [? ?]].
      assert (Hd2 : differs_at out (dk_tree d) (dk_tree d2)) by (rewrite Ht; apply insert_differs).
      unfold undoing, mbind, fsM_bind in E. unfold trying at 1 in E.
      destruct (wrapping _ _ d2) as [[e1|[]] d3] eqn:Ew; [|done].
      assert (Hd3 : dk_tree d3 = dk_tree d2).
      { unfold wrapping in Ew. destruct (write_file fails out data d2) as [[e2|[]] d4] eqn:E4; [|done]. injection Ew as _ <-.
        unfold write_file, sys in E4. destruct (fails _); [by injection E4 as _ <-|]. cbn in E4. rewrite Ht, lookup_insert_eq in E4. done. }
      destruct (tries (remove fails out) d3) as (r & d4 & Er). pose proof (removed_differs out d3 r d4 Er) as Hr.
      unfold runs in Er. rewrite Er in E. injection E as _ <-. rewrite Hd3 in Hr. by eapply differs_trans.
  - change (runs (copyExclusive fails src out) d u d') in E. unfold copyExclusive in E. run_parts.
    apply runs_read_file in H as ((i' & Hi' & _ & <-) & Hq). rewrite Hi in Hi'. injection Hi' as <-. apply runs_trying in H0. destruct x1 as [e|[]].
    + run_parts. destruct (_ || _); run_parts.
    + apply runs_undoing in H1. run_parts. apply runs_create in H0 as (Hn & _ & Ht). rewrite Hq in Hn, Ht. split; [done|].
      apply runs_write_file in H1 as (j & Hj & Hjk & ->). eexists. rewrite Ht, insert_insert_eq. done.
Qed.

(** C21: [Place] neither loses a dump nor replaces a file, whatever calls
    fail. If it succeeds, nothing was at [out] and [out] is now a regular
    file with the dump's bytes; if it fails, the dump is where it was,
    as it was, and what was at [out], if anything, is untouched. Either way
    nothing else in the file system changes. *)
Theorem place_safe src out d i :
  dk_tree d !! src = Some i → nd_kind i = KFile →
  match Place fails src out d with
  | (inr _, d') =>
    dk_tree d !! out = None ∧ (∃ j, dk_tree d' !! out = Some j ∧ nd_kind j = KFile ∧ nd_data j = nd_data i) ∧
    ∀ q, q ≠ src → q ≠ out → dk_tree d' !! q = dk_tree d !! q
  | (inl _, d') =>
    dk_tree d' !! src = Some i ∧ (is_Some (dk_tree d !! out) → dk_tree d' = dk_tree d) ∧
    ∀ q, q ≠ out → dk_tree d' !! q = dk_tree d !! q
  end.
Proof.
  intros Hi Hk. unfold Place, mbind, fsM_bind. unfold trying at 1. destruct (hard_link fails src out d) as [[e|[]] d1] eqn:El.
  - pose proof El as Ht%not_linked. case_bool_decide as Hc; [unfold throw; by rewrite Ht|].
    pose proof (copied src out d1 i) as H. rewrite Ht in H. specialize (H Hi Hk).
    destruct (copyExclusive fails src out d1) as [[e1|u] d2].
    + destruct H as [Hd Hs]. split_and!; [|done|done]. destruct (decide (src = out)) as [<-|Hne]; [by rewrite Hs|by rewrite Hd].
    + destruct H as (Hn & j & Hj & Hjk & Hdata). destruct (tries (remove fails src) d2) as (r & d3 & Er).
      pose proof (removed_differs src d2 r d3 Er) as Hr. rewrite Hj in Hr. unfold runs in Er. rewrite Er. assert (src ≠ out) by congruence. split_and!; [done| |].
      * exists j. by rewrite Hr, lookup_insert_eq.
      * intros q Hqs Hqo. by rewrite Hr, lookup_insert_ne.
  - pose proof (linked _ _ _ _ _ i El Hi) as [Hn Hj].
    destruct (tries (remove fails src) d1) as (r & d3 & Er).
    pose proof (removed_differs src d1 r d3 Er) as Hr. rewrite Hj in Hr. unfold runs in Er. rewrite Er. assert (src ≠ out) by congruence. split_and!; [done| |].
    + exists i. by rewrite Hr, lookup_insert_eq.
    + intros q Hqs Hqo. by rewrite Hr, lookup_insert_ne.
Qed.
End placed.

(** ** Only real directories go, and nothing outside them *)

Section children.
Context (fails : nat → bool) (spares : nat → path → bool) (listing : list string → list string).

(** Inside a real directory of the real directory [dir] that [pick] takes. *)
Definition picked (t : tree) (dir : path) (pick : string → bool) (q : path) : Prop :=
  is_dir_at t dir ∧ ∃ n, pick n = true ∧ is_dir_at t (dir ++ [n]) ∧ (dir ++ [n]) `prefix_of` q.
Lemma dir_stays P t t' p : shrinks P t t' → is_dir_at t' p → is_dir_at t p.
Proof.
  unfold is_dir_at, kind_at. intros Hs (i & Hi & Hk)%fmap_Some. by rewrite (shrinks_some _ _ _ _ _ Hs Hi), Hk.
Qed.
Lemma keeping_shrinks keep p t : shrinks (fun q => p `prefix_of` q) t (keeping keep p t).
Proof.
  intros q. rewrite keeping_lookup. destruct (decide _) as [|H]; [by left|right]. split; [done|].
  destruct (decide (p `prefix_of` q)); [done|]. exfalso. apply H. by left.
Qed.
Lemma real_dir dir d u d' : runs (openRealDir fails dir) d u d' → is_dir_at (dk_tree d) dir ∧ dk_tree d' = dk_tree d.
Proof.
  intros H. split; [|by apply (quiet_run _ _ _ _ (openRealDir_quiet fails dir) H)]. unfold openRealDir in H. run_parts.
  apply runs_lstat in H as [Hi _]. case_bool_decide as Hk; run_parts. unfold is_dir_at. by rewrite (kind_at_some _ _ _ _ Hi Hk).
Qed.

(** A directory looked at, then removed. *)
Definition remove_dir (p : path) : fsM unit :=
  info ← lstat fails p;
  match nd_kind info with KDir => remove_all fails spares p | _ => throw (plain_error "not a real directory") end.
Lemma dir_removed p d r d' :
  remove_dir p d = (r, d') →
  shrinks (fun q => is_dir_at (dk_tree d) p ∧ p `prefix_of` q) (dk_tree d) (dk_tree d') ∧
  match r with inr _ => ∀ q, p `prefix_of` q → dk_tree d' !! q = None | inl _ => True end.
Proof.
  unfold remove_dir, mbind, fsM_bind. destruct (lstat fails p d) as [[e|i] d1] eqn:E.
  { intros [= <- <-]. apply failed_lstat in E as ->. split; [apply shrinks_refl|done]. }
  apply runs_lstat in E as [Hi Ht]. destruct (nd_kind i) eqn:Ek; try by intros [= <- <-]; rewrite Ht; split; [apply shrinks_refl|].
  assert (Hd : is_dir_at (dk_tree d) p) by (unfold is_dir_at; by rewrite (kind_at_some _ _ _ _ Hi Ek)).
  unfold remove_all. destruct (fails _); intros [= <- <-]; cbn; rewrite Ht.
  - split; [|done]. eapply shrinks_weaken, keeping_shrinks. auto.
  - split; [eapply shrinks_weaken, keeping_shrinks; auto|]. intros q Hq. rewrite keeping_lookup, decide_False; [done|]. by intros [|].
Qed.

Lemma children_removed dir names d gone d' :
  runs (remove_children fails spares dir names) d gone d' →
  shrinks (fun q => ∃ n, n ∈ names ∧ is_dir_at (dk_tree d) (dir ++ [n]) ∧ (dir ++ [n]) `prefix_of` q) (dk_tree d) (dk_tree d') ∧
  ∀ n, n ∈ gone → n ∈ names ∧ ∀ q, (dir ++ [n]) `prefix_of` q → dk_tree d' !! q = None.
Proof.
  revert d gone. induction names as [|n names IH]; intros d gone H; cbn in H; [run_parts; split; [apply shrinks_refl|set_solver]|].
  run_parts. unfold runs, trying in H. destruct (remove_dir (dir ++ [n]) d) as [r d1] eqn:E. unfold remove_dir in E. rewrite E in H.
  injection H as <- <-. apply dir_removed in E as [Hs Hr]. apply IH in H0 as [Hs2 Hgone]. split.
  - eapply shrinks_trans; eapply shrinks_weaken; try done; cbn.
    + intros q [? ?]. exists n. split_and!; [by left|done|done].
    + intros q (m & ? & Hm & ?). exists m. split_and!; [by right|by eapply dir_stays|done].
  - destruct r as [e|u]; intros m Hm; [split; [right|]; by apply Hgone|]. apply elem_of_cons in Hm as [->|Hm].
    + split; [by left|]. intros q Hq. destruct (Hs2 q) as [->|[-> _]]; [by apply Hr|done].
    + split; [right|]; by apply Hgone.
Qed.
Lemma children_pruned dir pick d :
  ∃ gone d', runs (pruneChildren fails spares listing dir pick) d gone d' ∧
  shrinks (picked (dk_tree d) dir pick) (dk_tree d) (dk_tree d') ∧
  ∀ n, n ∈ gone → pick n = true ∧ ∀ q, (dir ++ [n]) `prefix_of` q → dk_tree d' !! q = None.
Proof.
  unfold pruneChildren. destruct (tries (_ ← openRealDir fails dir; read_dir fails listing dir) d) as (r & d1 & H1).
  destruct r as [e|names].
  - exists [], d1. split; [apply runs_bind; by exists (inl e), d1|]. apply runs_trying in H1.
    assert (Hq : dk_tree d1 = dk_tree d).
    { assert (Hq : quiet (_ ← openRealDir fails dir; read_dir fails listing dir)) by (apply quiet_bind; [apply openRealDir_quiet|auto with quiet]).
      specialize (Hq d). by rewrite H1 in Hq. }
    rewrite Hq. split; [apply shrinks_refl|set_solver].
  - assert (Hrun : ∃ gone d', runs (remove_children fails spares dir (List.filter pick names)) d1 gone d').
    { generalize d1. generalize (List.filter pick names) as l. clear. induction l as [|n l IH]; intros d; cbn; [by do 2 eexists|].
      destruct (tries (remove_dir (dir ++ [n])) d) as (r & d2 & H2). destruct (IH d2) as (g & d3 & H3). do 2 eexists. apply runs_bind. eexists _, _.
      split; [exact H2|]. apply runs_bind. by exists g, d3. }
    destruct Hrun as (gone & d' & H2). exists gone, d'. split; [apply runs_bind; by exists (inr names), d1|].
    apply runs_trying in H1. run_parts. apply real_dir in H as [Hd Ht]. pose proof (quiet_run _ _ _ _ (quiet_read_dir fails listing dir) H0) as Ht1.
    rewrite Ht in Ht1. apply children_removed in H2 as [Hs Hgone]. rewrite Ht1 in Hs.
    assert (Hpick : ∀ n, n ∈ List.filter pick names → pick n = true) by (by intros n [_ Hp]%list_elem_of_In%filter_In). split.
    + eapply shrinks_weaken, Hs. intros q (n & Hn & Hnd & Hq). split; [done|]. exists n. auto.
    + intros n Hn. destruct (Hgone n Hn). auto.
Qed.
Lemma child_removed dir name d :
  let '(r, d') := removeChildDir fails spares dir name d in
  shrinks (picked (dk_tree d) dir (String.eqb name)) (dk_tree d) (dk_tree d').
Proof.
  unfold removeChildDir, mbind, fsM_bind. destruct (openRealDir fails dir d) as [[e|u] d1] eqn:E.
  { pose proof (openRealDir_quiet fails dir d) as Hq. rewrite E in Hq. cbn in Hq. rewrite Hq. apply shrinks_refl. }
  apply real_dir in E as [Hd Ht]. unfold trying. destruct (lstat fails (dir ++ [name]) d1) as [[e|i] d2] eqn:E2.
  { apply failed_lstat in E2. case_bool_decide; cbn; rewrite E2, Ht; apply shrinks_refl. }
  apply runs_lstat in E2 as [Hi Ht2]. rewrite Ht in Ht2, Hi.
  destruct (nd_kind i) eqn:Ek; try (cbn; rewrite Ht2; apply shrinks_refl).
  assert (Hk : is_dir_at (dk_tree d) (dir ++ [name])) by (unfold is_dir_at; by rewrite (kind_at_some _ _ _ _ Hi Ek)).
  unfold wrapping, remove_all. destruct (fails _); cbn; rewrite Ht2; eapply shrinks_weaken, keeping_shrinks; intros q Hq;
    (split; [done|]; exists name; by rewrite String.eqb_refl).
Qed.

(** Staging directories are removed alone, whatever calls fail.
    [PruneStages] and [RemoveStage] only remove what is in a real directory
    with a staging name directly in the real project directory (the one to
    keep apart), and leave everything else in the file system as it was;
    nothing is left of a stage [PruneStages] says it removed. *)
Theorem stages_safe projectDir keep stage d :
  (∃ gone d', runs (PruneStages fails spares listing projectDir keep) d gone d' ∧
    shrinks (picked (dk_tree d) projectDir (fun n => isStageName n && negb (bool_decide ((k ← keep; last k) = Some n)))) (dk_tree d) (dk_tree d') ∧
    ∀ n, n ∈ gone → ∀ q, (projectDir ++ [n]) `prefix_of` q → dk_tree d' !! q = None) ∧
  (let '(r, d') := RemoveStage fails spares projectDir stage d in
   shrinks (fun q => picked (dk_tree d) projectDir isStageName q ∧ stage `prefix_of` q) (dk_tree d) (dk_tree d')).
Proof.
  split.
  - destruct (children_pruned projectDir
      (fun n => isStageName n && match keep with Some k => negb (bool_decide (last k = Some n)) | None => true end) d) as (gone & d' & H & Hs & Hg).
    exists gone, d'. split_and!; [done| |intros n Hn; by apply Hg]. eapply shrinks_weaken, Hs. intros q (Hd & n & Hn & Hnd). split; [done|].
    exists n. split; [|done]. by destruct keep.
  - unfold RemoveStage. destruct (last stage) as [name|]; [|apply shrinks_refl].
    destruct (_ || _) eqn:E; [apply shrinks_refl|]. apply orb_false_iff in E as [E%negb_false_iff%bool_decide_eq_true En%negb_false_iff].
    pose proof (child_removed projectDir name d) as H. destruct (removeChildDir fails spares projectDir name d) as [r d'].
    eapply shrinks_weaken, H. intros q (Hd & n & <-%String.eqb_eq & Hnd & Hq). split; [|by rewrite E]. split; [done|]. by exists name.
Qed.
End children.

(** A private directory is the user's alone. If [ProjectDir] answers,
    and [Dir] likewise, whatever was there before, the directory it names
    is a real one (no symlink), owned by the user and closed to everyone
    else. *)
Theorem private_dirs fails leads_to_dir me home kind root project d p d' :
  runs (Dir fails leads_to_dir home me kind) d p d' ∨ runs (ProjectDir fails leads_to_dir me root project) d p d' →
  ∃ i, dk_tree d' !! p = Some i ∧ nd_kind i = KDir ∧ nd_uid i = me ∧ Z.land (nd_mode i) 63 = 0.
Proof.
  assert (H : ∀ dir d u d', runs (prepare fails leads_to_dir me dir) d u d' →
    ∃ i, dk_tree d' !! dir = Some i ∧ nd_kind i = KDir ∧ nd_uid i = me ∧ Z.land (nd_mode i) 63 = 0).
  { clear. intros dir d u d' H. unfold prepare in H. run_parts. apply runs_lstat in H0 as [Hi Ht]. destruct (nd_kind x1) eqn:Ek; run_parts.
    unfold checkPrivate, checkOwner in H1. run_parts. destruct (Z.eqb_spec (nd_uid x1) me) as [Hu|]; run_parts.
    destruct (Z.eqb_spec (Z.land (nd_mode x1) 63) 0); run_parts; [exists x1; by rewrite Ht|].
    apply runs_chmod in H1 as (i & Hi2 & _ & ->). rewrite Ht, Hi in Hi2. injection Hi2 as <-.
    eexists. rewrite lookup_insert_eq. split_and!; done. }
  intros [Hr|Hr].
  - unfold Dir in Hr. destruct home as [e|home]; run_parts. by eapply H.
  - unfold ProjectDir in Hr. run_parts. by eapply H.
Qed.

(** A directory of dumps: one too old, one over the number to keep. *)
Definition dump_name (n : Z) : string := "7-20260101T00000" +:+ String (digit_char n) "Z-heap-0000000f.dmp".
Definition dumps_disk : disk := mkDisk (list_to_map
  [([], plain_dir); (["d"%string], mkInode KDir 448 1000 0 ""); (["d"%string; dump_name 1], mkInode KFile 384 1000 100 "1");
   (["d"%string; dump_name 2], mkInode KFile 384 1000 200 "2"); (["d"%string; dump_name 3], mkInode KFile 384 1000 300 "3");
   (["d"; "notes.dmp"]%string, mkInode KFile 384 1000 0 "mine")]) 0 400 1000.
Example prune_safe_witness :
  ∃ gone d', runs (Prune never id ["d"%string] Dumps 400 250 1 []) dumps_disk gone d' ∧ gone = [dump_name 2; dump_name 1] ∧
  ∀ n, n ∈ gone → outdated (dk_tree dumps_disk) ["d"%string] Dumps 400 250 1 n.
Proof.
  destruct (prune_safe never id (fun l => Permutation_refl l) ["d"%string] Dumps 400 250 1 [] dumps_disk) as (gone & d' & H & _ & Hg).
  exists gone, d'. split; [exact H|]. split; [|intros n Hn; by apply Hg].
  assert (E : match Prune never id ["d"%string] Dumps 400 250 1 [] dumps_disk with
              | (inr g, _) => g = [dump_name 2; dump_name 1] | _ => False end) by (vm_compute; reflexivity).
  unfold runs in H. rewrite H in E. exact E.
Defined.
Example prune_bounds_witness :
  ∃ gone d', runs (Prune never id ["d"%string] Dumps 400 250 1 []) dumps_disk gone d' ∧
  ∀ n i, file_in (dk_tree d') ["d"%string] n i → n ≠ protected_name [] → IsName Dumps n = true → 400 - nd_mtime i ≤ 250.
Proof.
  destruct (prune_bounds id (fun l => Permutation_refl l) ["d"%string] Dumps 400 250 1 [] dumps_disk) as (gone & d' & H & _ & Hg).
  - apply wf_checked. vm_compute. reflexivity.
  - vm_compute. reflexivity.
  - exists gone, d'. split; [exact H|]. intros n i Hi Hn. by apply Hg.
Defined.
Example place_safe_witness :
  ∃ d' j, runs (Place never ["d"%string; dump_name 1] ["out"%string]) dumps_disk () d' ∧ dk_tree d' !! ["out"%string] = Some j ∧ nd_data j = "1"%string ∧
  dk_tree d' !! ["d"%string; dump_name 1] = None.
Proof.
  assert (E : match Place never ["d"%string; dump_name 1] ["out"%string] dumps_disk with
              | (inr _, d') => dk_tree d' !! ["d"%string; dump_name 1] = None | _ => False end) by (vm_compute; reflexivity).
  pose proof (place_safe never ["d"%string; dump_name 1] ["out"%string] dumps_disk (mkInode KFile 384 1000 100 "1")) as H.
  unfold runs. destruct (Place never ["d"%string; dump_name 1] ["out"%string] dumps_disk) as [[e|[]] d']; [by destruct E|].
  destruct H as (_ & (j & Hj & _ & Hd) & _); [vm_compute; reflexivity|reflexivity|]. exists d', j. by split_and!.
Defined.
Example private_dirs_witness :
  ∃ d' i, runs (ProjectDir never (fun _ => false) 1000 [] "web") dumps_disk ["web"%string] d' ∧
  dk_tree d' !! ["web"%string] = Some i ∧ nd_uid i = 1000.
Proof.
  destruct (ProjectDir never (fun _ => false) 1000 [] "web" dumps_disk) as [[e|p] d'] eqn:E; [vm_compute in E; discriminate|].
  assert (Hp : p = ["web"%string]).
  { assert (E2 : match ProjectDir never (fun _ => false) 1000 [] "web" dumps_disk with (inr p, _) => p = ["web"%string] | _ => False end)
      by (vm_compute; reflexivity). by rewrite E in E2. }
  subst p. destruct (private_dirs never (fun _ => false) 1000 (inr []) Dumps [] "web" dumps_disk ["web"%string] d') as (i & Hi & _ & Hu & _);
    [right; exact E|]. by exists d', i.
Defined.
