(* ===== verification/DirLock.v ===== *)
(** * The lock of a compose project's directory (internal/artifacts/compose.go)

    Runs of eyedbg's compose commands exclude each other by a file they
    create exclusively: each run is a program of the file system's calls
    (Threads.v), and any number of them, of any processes, interleave between
    the calls. A file is an object that lives on while it is open, whatever
    its name; inode numbers are reused, so comparing two files answers
    anything unless they are one. *)

From S2P Require Import Prelude GoStrings Threads Files Artifacts.
From Stdlib Require Import Ascii.

Open Scope Z_scope.

Definition lockName : string := "lock".
Definition LockMaxAge : Z := hour.
Definition lockReadMax : nat := 256.
Definition newline : ascii := ascii_of 10.

(** ** The directory *)

(** [lf_owner], [ld_lines] are for the proofs: the run that created a file,
    and who made a line, no one for what was there before. *)
Record lfile := mkLfile { lf_regular : bool; lf_mtime : Z; lf_content : string; lf_owner : option nat }.
#[global] Instance eta_lfile : Eta lfile := fun f => mkLfile (lf_regular f) (lf_mtime f) (lf_content f) (lf_owner f).
Record lockdir := mkLockdir { ld_names : gmap string nat; ld_files : gmap nat lfile; ld_now : Z; ld_lines : gmap string (option nat) }.
#[global] Instance eta_lockdir : Eta lockdir := fun s => mkLockdir (ld_names s) (ld_files s) (ld_now s) (ld_lines s).

(** What a call answers: the causes the code tells apart. *)
Inductive answer (A : Type) := Done (a : A) | Missing | Taken | Failed.
Arguments Done {A}. Arguments Missing {A}. Arguments Taken {A}. Arguments Failed {A}.

Inductive lq : Type → Type :=
  | QOpenRoot : lq (answer unit)                        (* openRealDir *)
  | QNow : lq Z                                         (* time.Now *)
  | QToken (pid : Z) : lq (answer string)               (* 16 random bytes *)
  | QSuffix : lq (answer string)                        (* 8 random bytes *)
  | QCreate : lq (answer nat)                           (* OpenFile(lockName, O_CREATE|O_EXCL) *)
  | QWrite (h : nat) (data : string) : lq bool          (* Write and Close *)
  | QRemove (name : string) : lq unit
  | QLstat (name : string) : lq (answer (nat * bool * Z))
  | QOpen (name : string) : lq (answer nat)
  | QStat (seen h : nat) : lq (option Z)                (* f.Stat, and SameFile *)
  | QRead (h : nat) : lq (answer string)
  | QRename (want moved : string) : lq bool             (* of lockName; want says what was checked *)
  | QLink (moved : string) : lq unit                    (* to lockName *)
  | QWork (line : string) : lq unit.                    (* what the lock is held for *)
Abbreviation lprog := (tprog unit lq).
Open Scope thread_scope.

(** ** The code *)

(** This run's line: [strconv.Itoa(os.Getpid())], the token. *)
Definition lockLine (pid : Z) (token : string) : string := itoa pid +:+ " " +:+ hex_of token +:+ String newline "".
Definition createLock (pid : Z) : lprog (answer string) :=
  t <- call (QToken pid);;
  match t with
  | Done token =>
    let content := lockLine pid token in
    f <- call QCreate;;
    match f with
    | Done h =>
      ok <- call (QWrite h content);;
      if ok : bool then TRet (Done content) else call (QRemove lockName) ;;; TRet Failed
    | Missing => TRet Missing
    | Taken => TRet Taken
    | Failed => TRet Failed
    end
  | _ => TRet Failed
  end.

(** One complete line, not too long. *)
Definition complete (content : string) : bool :=
  negb ((slen content =? 0) || (Z.of_nat lockReadMax <? slen content)) &&
  match index_byte newline content with Some i => Z.of_nat i =? slen content - 1 | None => false end.
(** [readLock]'s answers: no lock there; an error, with the file's age; the
    line and its age. *)
Inductive heldLock := NoLock | NotLock (mtime : option Z) | Held (line : string) (mtime : Z).
Definition readLock (name : string) : lprog heldLock :=
  seen <- call (QLstat name);;
  match seen with
  | Missing => TRet NoLock
  | Done (o, regular, mtime) =>
    if negb regular then TRet (NotLock (Some mtime))
    else
      f <- call (QOpen name);;
      match f with
      | Missing => TRet NoLock
      | Done h =>
        info <- call (QStat o h);;
        match info with
        | None => TRet (NotLock (Some mtime))
        | Some mtime =>
          content <- call (QRead h);;
          TRet (match content with
                | Done content => if complete content then Held content mtime else NotLock (Some mtime)
                | _ => NotLock (Some mtime)
                end)
        end
      | _ => TRet (NotLock (Some mtime))
      end
  | _ => TRet (NotLock None)
  end.
Definition holds_line (h : heldLock) (want : string) : bool := match h with Held c _ => c =?s want | _ => false end.
Definition movedName (suffix : string) : string := lockName +:+ ".stale-" +:+ hex_of suffix.
Definition removeLock (want : string) : lprog bool :=
  cur <- readLock lockName;;
  if negb (holds_line cur want) then TRet false
  else
    b <- call QSuffix;;
    match b with
    | Done b =>
      let moved := movedName b in
      ok <- call (QRename want moved);;
      if negb ok then TRet false
      else
        got <- readLock moved;;
        if holds_line got want then call (QRemove moved) ;;; TRet true
        else call (QLink moved) ;;; call (QRemove moved) ;;; TRet false
    | _ => TRet false
    end.

(** [lock]'s answers: [busyError] says how old the lock is, if known. *)
Inductive lockResult := Locked (content : string) | Busy (age : option Z) | LockError.
Fixpoint lock_loop (pid now : Z) (attempt more : nat) : lprog lockResult :=
  match more with
  | O => TRet (Busy None)
  | S more =>
    c <- createLock pid;;
    match c with
    | Done content => TRet (Locked content)
    | Taken =>
      h <- readLock lockName;;
      match h with
      | NoLock => lock_loop pid now (S attempt) more
      | NotLock mtime => TRet (Busy (Z.sub now <$> mtime))
      | Held line mtime =>
        if (0 <? attempt)%nat || (now - mtime <=? LockMaxAge) then TRet (Busy (Some (now - mtime)))
        else
          ok <- removeLock line;;
          if ok : bool then lock_loop pid now (S attempt) more else TRet (Busy (Some (now - mtime)))
      end
    | _ => TRet LockError
    end
  end.
Definition lock (pid now : Z) : lprog lockResult :=
  root <- call QOpenRoot;;
  match root with Done _ => lock_loop pid now 0 2 | _ => TRet LockError end.
(** [Lock] *)
Definition LockProject (pid : Z) : lprog lockResult := now <- call QNow;; lock pid now.
Definition unlockFunc (content : string) : lprog unit :=
  root <- call QOpenRoot;;
  match root with Done _ => removeLock content ;;; TRet () | _ => TRet () end.
(** A run: what it does under the lock, then the deferred unlock. *)
Definition locked_run (pid : Z) : lprog unit :=
  r <- LockProject pid;;
  match r with Locked content => call (QWork content) ;;; unlockFunc content | _ => TRet () end.

(** ** Running together *)

Definition set_names (f : gmap string nat → gmap string nat) (s : lockdir) : lockdir := s <| ld_names ::= f |>.
(** What run [i]'s call may answer and do: any call may fail, and a write
    may break off; random bytes make a line, and a name, nobody used. *)
Definition does (i : nat) (X : Type) (q : lq X) (s : lockdir) : X → lockdir → Prop :=
  match q in lq X return X → lockdir → Prop with
  | QOpenRoot | QWork _ => fun _ s' => s' = s
  | QNow => fun x s' => x = ld_now s ∧ s' = s
  | QToken pid => fun x s' =>
    match x with
    | Done b => String.length b = 16%nat ∧ ld_lines s !! lockLine pid b = None ∧ s' = s <| ld_lines ::= <[lockLine pid b := Some i]> |>
    | _ => s' = s
    end
  | QSuffix => fun x s' => s' = s ∧ match x with Done b => ld_names s !! movedName b = None | _ => True end
  | QCreate => fun x s' =>
    match x with
    | Done h => ld_names s !! lockName = None ∧ ld_files s !! h = None ∧
                s' = set_names <[lockName := h]> s <| ld_files ::= <[h := mkLfile true (ld_now s) "" (Some i)]> |>
    | Taken => is_Some (ld_names s !! lockName) ∧ s' = s
    | _ => s' = s
    end
  | QWrite h data => fun x s' =>
    (x = false ∧ s' = s) ∨
    ∃ f written rest, ld_files s !! h = Some f ∧ data = written +:+ rest ∧ (x = true → rest = ""%string) ∧
      s' = s <| ld_files ::= <[h := f <| lf_content := written |> <| lf_mtime := ld_now s |>]> |>
  | QRemove name => fun _ s' => s' = s ∨ s' = set_names (delete name) s
  | QLstat name => fun x s' => s' = s ∧
    match x with
    | Done (h, regular, mtime) => ∃ f, ld_names s !! name = Some h ∧ ld_files s !! h = Some f ∧ regular = lf_regular f ∧ mtime = lf_mtime f
    | Missing => ld_names s !! name = None
    | _ => True
    end
  | QOpen name => fun x s' => s' = s ∧
    match x with
    | Done h => is_Some (ld_files s !! h) ∧ ∃ h' f, ld_names s !! name = Some h' ∧ ld_files s !! h' = Some f ∧ (lf_regular f = true → h = h')
    | Missing => ld_names s !! name = None
    | _ => True
    end
  | QStat seen h => fun x s' => s' = s ∧
    match x with Some mtime => ∃ f, ld_files s !! h = Some f ∧ mtime = lf_mtime f | None => True end
  | QRead h => fun x s' => s' = s ∧
    match x with Done c => ∃ f, ld_files s !! h = Some f ∧ c = stake (S lockReadMax) (lf_content f) | _ => True end
  | QRename want moved => fun x s' =>
    if x : bool then ∃ h, ld_names s !! lockName = Some h ∧ s' = set_names (fun n => <[moved := h]> (delete lockName n)) s else s' = s
  | QLink moved => fun _ s' =>
    s' = s ∨ ∃ h, ld_names s !! moved = Some h ∧ ld_names s !! lockName = None ∧ s' = set_names <[lockName := h]> s
  end.

(** One call of one run, or time going by. *)
Inductive lstep : list (lprog unit) * lockdir → list (lprog unit) * lockdir → Prop :=
  | step_call i ps X (q : lq X) k s x s' :
      ps !! i = Some (TCall q k) → does i X q s x s' → lstep (ps, s) (<[i := k x]> ps, s')
  | step_time ps s now : ld_now s ≤ now → lstep (ps, s) (ps, s <| ld_now := now |>).

(** Run [i] holds the lock and is at its work. *)
Definition working (ps : list (lprog unit)) (i : nat) : Prop := ∃ line k, ps !! i = Some (TCall (QWork line) k).

(** What may be there when the runs start. *)
Definition untouched (s : lockdir) : Prop :=
  (∀ h f, ld_files s !! h = Some f → lf_regular f = true ∧ lf_owner f = None ∧ ld_lines s !! lf_content f = Some None) ∧
  (∀ name h, ld_names s !! name = Some h → is_Some (ld_files s !! h)).
(** No run's lock is older than [LockMaxAge]. *)
Definition in_time (s : lockdir) : Prop :=
  ∀ h f i, ld_names s !! lockName = Some h → ld_files s !! h = Some f → lf_owner f = Some i → ld_now s - lf_mtime f ≤ LockMaxAge.
(** A run that died before left its lock: the line of one was there. *)
Definition left_behind (s : lockdir) : Prop := ∃ line, ld_lines s !! line = Some None.
(** What a run that takes a lock over moves away is what it checked. *)
Definition undisturbed (c : list (lprog unit) * lockdir) : Prop :=
  ∀ i want moved k h f, c.1 !! i = Some (TCall (QRename want moved) k) → ld_names c.2 !! lockName = Some h → ld_files c.2 !! h = Some f →
    lf_owner f = Some i ∨ lf_content f = want.

(** ** What a run relies on *)

Record good (s : lockdir) : Prop := {
  good_line h f : ld_files s !! h = Some f → lf_regular f = true ∧ (complete (lf_content f) = true → ld_lines s !! lf_content f = Some (lf_owner f));
  good_mtime h f i : ld_files s !! h = Some f → lf_owner f = Some i → lf_mtime f ≤ ld_now s;
  good_name name h : ld_names s !! name = Some h → is_Some (ld_files s !! h);
  good_time : in_time s }.
(** Files stay who made them and grow younger, lines stay whose they are. *)
Record goes_on (s s' : lockdir) : Prop := {
  go_files h f : ld_files s !! h = Some f → ∃ f', ld_files s' !! h = Some f' ∧ lf_owner f' = lf_owner f ∧ lf_mtime f ≤ lf_mtime f' ;
  go_lines : ld_lines s ⊆ ld_lines s';
  go_now : ld_now s ≤ ld_now s';
  go_good : good s → good s' }.
Definition owned_lock (i : nat) (s : lockdir) : Prop :=
  ∃ h f, ld_names s !! lockName = Some h ∧ ld_files s !! h = Some f ∧ lf_owner f = Some i.
Definition keeps_lock (i : nat) (s s' : lockdir) : Prop := owned_lock i s → ld_names s' !! lockName = ld_names s !! lockName.
Definition relies (i : nat) (_ : bool) (w w' : lockdir * unit) : Prop := goes_on w.1 w'.1 ∧ keeps_lock i w.1 w'.1.
Definition guards (i : nat) (_ : bool) (w w' : lockdir * unit) : Prop := goes_on w.1 w'.1 ∧ ∀ j, j ≠ i → keeps_lock j w.1 w'.1.

Lemma go_refl s : goes_on s s.
Proof. split; [|done|lia|done]. intros h f Hf. exists f. split_and!; [done|done|lia]. Qed.
Lemma go_trans s s1 s2 : goes_on s s1 → goes_on s1 s2 → goes_on s s2.
Proof.
  intros [F1 L1 N1 G1] [F2 L2 N2 G2]. split; [|by etrans|lia|auto]. intros h f Hf. destruct (F1 h f Hf) as (f1 & Hf1 & E1 & M1).
  destruct (F2 h f1 Hf1) as (f2 & Hf2 & E2 & M2). exists f2. split_and!; [done|congruence|lia].
Qed.
Lemma owned_kept i s s' : goes_on s s' → keeps_lock i s s' → owned_lock i s → owned_lock i s'.
Proof.
  intros Hg Hk Ho. pose proof (Hk Ho) as E. destruct Ho as (h & f & Hn & Hf & Hi). destruct (go_files _ _ Hg h f Hf) as (f' & Hf' & Eo & _).
  exists h, f'. rewrite E, Eo. done.
Qed.
#[global] Instance relies_preorder i held : PreOrder (relies i held).
Proof.
  split; [intros w; split; [apply go_refl|done]|]. intros w w1 w2 [G1 K1] [G2 K2]. split; [by eapply go_trans|].
  intros Ho. rewrite (K2 (owned_kept _ _ _ G1 K1 Ho)). by apply K1.
Qed.
Lemma one_owner i j s : owned_lock i s → owned_lock j s → i = j.
Proof. intros (h & f & Hn & Hf & Hi) (h' & f' & Hn' & Hf' & Hj). congruence. Qed.

(** What a call must find: the work is done under the lock, and what is
    renamed is the run's own lock or one it checked. *)
Definition finds (i : nat) (_ : bool) (X : Type) (q : lq X) (w : lockdir * unit) : Prop :=
  match q with QWork _ => owned_lock i w.1 | _ => True end.
(** The answers of an undisturbed interleaving. *)
Definition answers (i : nat) (X : Type) (q : lq X) (s : lockdir) (x : X) (s' : lockdir) : Prop :=
  does i X q s x s' ∧ in_time s' ∧
  match q with
  | QRename want _ => left_behind s →
      ∀ h f, ld_names s !! lockName = Some h → ld_files s !! h = Some f → lf_owner f = Some i ∨ lf_content f = want
  | _ => True
  end.
Abbreviation safe_run i := (tsafe (answers i) (relies i) (guards i) (finds i) (fun _ _ _ => True) (fun _ => True) false).


(** *** A line is complete only when it is whole *)

Lemma before_newline s i : index_byte newline s = Some i → contains_byte newline (stake i s) = false.
Proof.
  revert i. induction s as [|c s IH]; intros i; cbn [index_byte]; [done|]. destruct (Ascii.eqb newline c) eqn:E; [intros H; by injection H as <-|].
  destruct (index_byte newline s) as [j|]; [|done]. intros H; injection H as <-. cbn [stake contains_byte]. rewrite E. by apply IH.
Qed.
Lemma whole_line a written rest :
  contains_byte newline a = false → a +:+ String newline "" = written +:+ rest → complete written = true → written = a +:+ String newline "".
Proof.
  intros Ha E Hc. unfold complete in Hc. apply andb_prop in Hc as [_ Hc]. destruct (index_byte newline written) as [i|] eqn:Hi; [|done].
  apply Z.eqb_eq in Hc. assert (Hw := Hi). apply index_byte_split in Hw. pose proof (index_byte_app newline a "" Ha) as Hx.
  rewrite E, Hw, string_app_assoc in Hx. cbn in Hx. rewrite index_byte_app in Hx by (by eapply before_newline).
  assert (Hlen : String.length written = S (String.length a)).
  { injection Hx as Hx. rewrite stake_length in Hx. apply index_byte_lt in Hi. unfold slen in Hc. lia. }
  assert (rest = ""%string) as ->; [|by rewrite string_app_nil_r in E].
  apply (f_equal String.length) in E. rewrite !string_app_length, Hlen in E. cbn in E. destruct rest; [done|]. cbn in E. lia.
Qed.
Lemma hex_plain s : contains_byte newline (hex_of s) = false.
Proof.
  induction s as [|c s IH]; [done|]. cbn [hex_of contains_byte]. rewrite IH.
  destruct c as [[] [] [] [] [] [] [] []]; vm_compute; reflexivity.
Qed.
Lemma line_whole pid b written rest :
  0 ≤ pid → lockLine pid b = written +:+ rest → complete written = true → written = lockLine pid b.
Proof.
  intros Hp E. unfold lockLine in *. rewrite <- !string_app_assoc in *. intros Hc. eapply whole_line; [|exact E|exact Hc].
  rewrite !contains_byte_app, hex_plain, (all_bytes_contains is_digit newline _ (itoa_digits pid Hp)); done.
Qed.

(** *** Each procedure, among the others *)

Section safe.
Context (i : nat).

Definition since (s s' : lockdir) : Prop := goes_on s s' ∧ keeps_lock i s s'.
Lemma since_refl s : since s s.
Proof. split; [apply go_refl|done]. Qed.
Lemma since_trans s s1 s2 : since s s1 → since s1 s2 → since s s2.
Proof. intros H1 H2. apply (PreOrder_Transitive (R := relies i false) (s, ()) (s1, ()) (s2, ()) H1 H2). Qed.
Lemma safe_call {A X} (q : lq X) (k : X → lprog A) post s0 :
  (∀ s, since s0 s → finds i false X q (s, ()) ∧
     ∀ x s', answers i X q s x s' → guards i false (s, ()) (s', ()) ∧ safe_run i (k x) post (s', ())) →
  safe_run i (TCall q k) post (s0, ()).
Proof.
  intros H [s []] Hr. destruct (H s Hr) as [Hf Ha]. split; [done|]. intros x s' Hx. by apply Ha.
Qed.
Lemma safe_ret {A} (a : A) (post : A → bool → lockdir * unit → Prop) s0 : (∀ s, since s0 s → post a false (s, ())) → safe_run i (TRet a) post (s0, ()).
Proof. intros H [s []] Hr. by apply H. Qed.
(** A call that changes nothing. *)
Lemma safe_quiet {A X} (q : lq X) (k : X → lprog A) post s0 :
  (∀ s x s', does i X q s x s' → s' = s) → (∀ s, since s0 s → finds i false X q (s, ())) →
  (∀ s x, since s0 s → does i X q s x s → safe_run i (k x) post (s, ())) → safe_run i (TCall q k) post (s0, ()).
Proof.
  intros Hq Hf Hk. apply safe_call. intros s Hs. split; [by apply Hf|]. intros x s' (Hd & _ & _). pose proof (Hq _ _ _ Hd) as ->.
  split; [split; [apply go_refl|done]|]. by apply Hk.
Qed.

(** What is read of the lock: a line that is older than [LockMaxAge] was
    there before the runs. *)
Definition read_fact (s0 : lockdir) (r : heldLock) (s : lockdir) : Prop :=
  match r with
  | Held line mtime => complete line = true ∧ ∀ now, now ≤ ld_now s0 → LockMaxAge < now - mtime → ld_lines s !! line = Some None
  | _ => True
  end.
Lemma read_fact_since s0 r s s' : read_fact s0 r s → goes_on s s' → read_fact s0 r s'.
Proof.
  destruct r as [|m|line m]; [done..|]. intros [Hc H] Hg. split; [done|]. intros now Hn Ha. eapply lookup_weaken; [by eapply H|apply Hg].
Qed.
Lemma stake_short n s c : c = stake (S n) s → (String.length c ≤ n)%nat → c = s.
Proof.
  intros -> Hl. rewrite stake_length in Hl. rewrite <- (stake_sdrop (S n) s) at 2.
  assert (sdrop (S n) s = ""%string) as ->; [|by rewrite string_app_nil_r].
  pose proof (f_equal String.length (stake_sdrop (S n) s)) as E. rewrite string_app_length, stake_length in E.
  destruct (sdrop (S n) s); [done|]. cbn [String.length] in E. lia.
Qed.
Lemma readLock_safe name s0 :
  good s0 →
  safe_run i (readLock name) (fun r h w => h = false ∧ since s0 w.1 ∧ (name = lockName → read_fact s0 r w.1)) (s0, ()).
Proof.
  intros Hg0. assert (Hend : ∀ r s, since s0 s → (name = lockName → read_fact s0 r s) →
    safe_run i (TRet r) (fun r h w => h = false ∧ since s0 w.1 ∧ (name = lockName → read_fact s0 r w.1)) (s, ())).
  { intros r s Hs Hr. apply safe_ret. intros s' Hs'. split_and!; [done|by eapply since_trans|]. intros Hn. eapply read_fact_since; [by apply Hr|apply Hs']. }
  unfold readLock, call. cbn [tbind]. apply safe_quiet; [by intros s x s' []|done|]. intros s1 seen H1 (_ & Hseen).
  destruct seen as [[[o regular] m0]| | |]; [|by apply Hend..]. destruct regular; cbn [negb tbind]; [|by apply Hend].
  apply safe_quiet; [by intros s x s' []|done|]. intros s2 f H2 (_ & Hf). pose proof (since_trans _ _ _ H1 H2) as H02.
  destruct f as [h| | |]; [|by apply Hend..]. destruct Hf as (_ & h' & f2 & Hn2 & Hf2 & Hreg).
  pose proof (go_good _ _ (proj1 H02) Hg0) as Hg2. destruct (good_line _ Hg2 h' f2 Hf2) as [Hr2 _]. specialize (Hreg Hr2) as <-.
  apply safe_quiet; [by intros s x s' []|done|]. intros s3 info H3 (_ & Hinfo). pose proof (since_trans _ _ _ H02 H3) as H03.
  destruct info as [m|]; [|by apply Hend]. destruct Hinfo as (f3 & Hf3 & ->).
  apply safe_quiet; [by intros s x s' []|done|]. intros s4 content H4 (_ & Hc). pose proof (since_trans _ _ _ H03 H4) as H04.
  apply Hend; [done|]. intros ->. destruct content as [c| | |]; [|done..]. destruct (complete c) eqn:Ec; [|done].
  split; [done|]. intros now Hnow Hage. destruct Hc as (f4 & Hf4 & Hc). pose proof (go_good _ _ (proj1 H04) Hg0) as Hg4.
  assert (c = lf_content f4) as ->.
  { eapply stake_short; [exact Hc|]. unfold complete in Ec. apply andb_prop in Ec as [[_ Hl%Z.ltb_ge]%negb_true_iff%orb_false_iff _].
    unfold slen in Hl. lia. }
  destruct (good_line _ Hg4 h f4 Hf4) as [_ Hl]. rewrite (Hl Ec). f_equal.
  destruct (go_files _ _ (proj1 H3) h f2 Hf2) as (f3' & Hf3' & Ho3 & Hm3). rewrite Hf3 in Hf3'. injection Hf3' as <-.
  destruct (go_files _ _ (proj1 H4) h f3 Hf3) as (f4' & Hf4' & Ho4 & _). rewrite Hf4 in Hf4'. injection Hf4' as <-.
  rewrite Ho4, Ho3. destruct (lf_owner f2) as [j|] eqn:Hown; [|done]. pose proof (good_time _ Hg2 h f2 j Hn2 Hf2 Hown).
  pose proof (go_now _ _ (proj1 H02)). lia.
Qed.
Lemma names_go s f :
  (∀ name h, f (ld_names s) !! name = Some h → ∃ name', ld_names s !! name' = Some h) → in_time (set_names f s) → goes_on s (set_names f s).
Proof.
  intros Hf Ht. split; [|done|done|].
  - intros h g Hg. exists g. split_and!; [done|done|lia].
  - intros [H1 H2 H3 H4]. split; [exact H1|exact H2| |exact Ht]. intros name h Hn. destruct (Hf name h Hn) as [name' Hn']. by eapply H3.
Qed.
Lemma moved_not_lock b : movedName b ≠ lockName.
Proof. done. Qed.
Lemma remove_go name s s' :
  answers i unit (QRemove name) s () s' → (name = lockName → owned_lock i s) → guards i false (s, ()) (s', ()).
Proof.
  intros ([->| ->] & Ht & _) Hown; [split; [apply go_refl|done]|]. split; cbn.
  - apply names_go; [|done]. intros n h [_ Hn]%lookup_delete_Some. by exists n.
  - intros j Hj Ho. cbn. destruct (decide (name = lockName)) as [->|Hn]; [|by rewrite lookup_delete_ne].
    exfalso. apply Hj. by eapply one_owner, Hown.
Qed.

(** The run's own lock, or one it read that no run here made. *)
Definition removable (want : string) (s : lockdir) : Prop :=
  owned_lock i s ∨ (complete want = true ∧ ld_lines s !! want = Some None).
Lemma removable_since want s s' : since s s' → removable want s → removable want s'.
Proof.
  intros [Hg Hk] [Ho|[Hc Hl]]; [left; by eapply owned_kept|right]. split; [done|]. eapply lookup_weaken; [done|apply Hg].
Qed.
Lemma rename_go want moved s s' :
  good s → removable want s → answers i bool (QRename want moved) s true s' → guards i false (s, ()) (s', ()).
Proof.
  intros Hg Hr ((h & Hn & ->) & Ht & Hhit). split; cbn.
  - apply names_go; [|done]. intros n h' [[-> ->]|[_ [_ Hn']%lookup_delete_Some]]%lookup_insert_Some; by eexists.
  - intros j Hj (h' & f & Hn' & Hf & Ho). exfalso. rewrite Hn in Hn'. injection Hn' as <-.
    assert (lf_owner f = Some i) as Hi; [|congruence]. destruct Hr as [(h' & f' & Hn' & Hf' & Hi)|[Hc Hl]].
    + congruence.
    + destruct (Hhit (ex_intro _ _ Hl) h f Hn Hf) as [?|Hw]; [done|]. destruct (good_line _ Hg h f Hf) as [_ Hl']. rewrite Hw in Hl'. specialize (Hl' Hc). congruence.
Qed.
Lemma link_go moved s s' : answers i unit (QLink moved) s () s' → guards i false (s, ()) (s', ()).
Proof.
  intros ([->|(h & Hn & Hnone & ->)] & Ht & _); [split; [apply go_refl|done]|]. split; cbn.
  - apply names_go; [|done]. intros n h' [[<- <-]|[_ Hn']]%lookup_insert_Some; by eexists.
  - intros j Hj (h' & f & Hn' & _). congruence.
Qed.

Definition leaves (s0 : lockdir) {A} (_ : A) (h : bool) (w : lockdir * unit) : Prop := h = false ∧ goes_on s0 w.1.
Lemma removeLock_safe want s0 : good s0 → removable want s0 → safe_run i (removeLock want) (leaves s0) (s0, ()).
Proof.
  intros Hg0 Hr0. assert (Hend : ∀ (b : bool) s, goes_on s0 s → safe_run i (TRet b) (leaves s0) (s, ())).
  { intros b s Hs. apply safe_ret. intros s' Hs'. split; [done|]. eapply go_trans; [done|apply Hs']. }
  unfold removeLock, call. eapply tsafe_bind; [apply _|by apply readLock_safe|]. intros cur h [s1 []] (-> & H1 & _). cbn in H1.
  destruct (negb _); [apply Hend, H1|]. cbn [tbind]. apply safe_quiet; [by intros s x s' []|done|]. intros s2 b H2 _.
  destruct b as [b| | |]; [|apply Hend; eapply since_trans; done..]. pose proof (since_trans _ _ _ H1 H2) as H02. clear s1 H1 H2.
  apply safe_call. intros s3 H3. split; [done|]. pose proof (since_trans _ _ _ H02 H3) as H03. intros ok s4 Hren.
  destruct ok; cbn [negb].
  2:{ destruct Hren as [-> _]. split; [split; [apply go_refl|done]|]. apply Hend, H03. }
  pose proof (rename_go want _ s3 s4 (go_good _ _ (proj1 H03) Hg0) (removable_since _ _ _ H03 Hr0) Hren) as Hgd. split; [done|].
  assert (H04 : goes_on s0 s4) by (eapply go_trans; [apply H03|apply Hgd]).
  eapply tsafe_bind; [apply _|apply readLock_safe; by apply (go_good _ _ H04)|]. intros got h [s5 []] (-> & H5 & _). cbn in H5.
  pose proof (go_trans _ _ _ H04 (proj1 H5)) as H05. clear s3 s4 H03 H3 Hren Hgd H04 H5.
  destruct (holds_line got want); cbn [tbind].
  - apply safe_call. intros s6 H6. split; [done|]. intros [] s7 Hrem. pose proof (remove_go _ _ _ Hrem (fun E => match moved_not_lock b E with end)) as Hgd.
    split; [done|]. apply Hend. eapply go_trans; [exact H05|]. eapply go_trans; [apply H6|apply Hgd].
  - apply safe_call. intros s6 H6. split; [done|]. intros [] s7 Hl. pose proof (link_go _ _ _ Hl) as Hgd. split; [done|].
    assert (H07 : goes_on s0 s7) by (eapply go_trans; [exact H05|]; eapply go_trans; [apply H6|apply Hgd]).
    apply safe_call. intros s8 H8. split; [done|]. intros [] s9 Hrem. pose proof (remove_go _ _ _ Hrem (fun E => match moved_not_lock b E with end)) as Hgd'.
    split; [done|]. apply Hend. eapply go_trans; [exact H07|]. eapply go_trans; [apply H8|apply Hgd'].
Qed.

Lemma create_go s h s' :
  answers i (answer nat) QCreate s (Done h) s' → guards i false (s, ()) (s', ()) ∧
  owned_lock i s' ∧ ld_names s' !! lockName = Some h.
Proof.
  intros ((Hn & Hf & ->) & Ht & _). split.
  2:{ split; [|by cbn; rewrite lookup_insert_eq]. exists h. cbn. rewrite !lookup_insert_eq. by eexists. }
  split; cbn; [|intros j Hj (h' & f & Hn' & _); congruence]. split; cbn; [|done|lia|].
  - intros h' f Hf'. exists f. rewrite lookup_insert_ne by congruence. split_and!; [done|done|lia].
  - intros [H1 H2 H3 H4]. split; cbn; [| | |done].
    + intros h' f [[<- <-]|[_ Hf']]%lookup_insert_Some; [done|by eapply H1].
    + intros h' f j [[<- <-]|[_ Hf']]%lookup_insert_Some; [cbn; lia|by eapply H2].
    + intros name h' Hn'. destruct (decide (h' = h)) as [->|Hne]; [by rewrite lookup_insert_eq|rewrite lookup_insert_ne by done].
      apply lookup_insert_Some in Hn' as [[_ ->]|[_ Hn']]; [done|by eapply H3].
Qed.
Lemma write_go pid b h s ok s' :
  0 ≤ pid → ld_lines s !! lockLine pid b = Some (Some i) → (∃ f, ld_files s !! h = Some f ∧ lf_owner f = Some i) → good s →
  answers i bool (QWrite h (lockLine pid b)) s ok s' → guards i false (s, ()) (s', ()).
Proof.
  intros Hpid Hline (f & Hf & Ho) Hg ([[_ ->]|(f' & written & rest & Hf' & Hw & _ & ->)] & Ht & _); [split; [apply go_refl|done]|].
  rewrite Hf in Hf'. injection Hf' as <-.
  pose proof (good_mtime _ Hg h f i Hf Ho) as Hm. split; cbn; [|by intros j _ _]. split; cbn; [|done|lia|].
  - intros h' g Hg'. destruct (decide (h' = h)) as [->|Hne]; [rewrite lookup_insert_eq|rewrite lookup_insert_ne by done; exists g; split_and!; [done|done|lia]].
    rewrite Hf in Hg'. injection Hg' as <-. eexists. split_and!; [done|done|cbn; lia].
  - intros [H1 H2 H3 H4]. split; cbn; [| | |done].
    + intros h' g [[<- <-]|[_ Hg']]%lookup_insert_Some; [|by eapply H1]. cbn. split; [by destruct (H1 h f Hf)|].
      intros Hc. rewrite (line_whole _ _ _ _ Hpid Hw Hc), Ho. done.
    + intros h' g j [[<- <-]|[_ Hg']]%lookup_insert_Some; [cbn; lia|by eapply H2].
    + intros name h' Hn'. destruct (decide (h' = h)) as [->|Hne]; [by rewrite lookup_insert_eq|rewrite lookup_insert_ne by done; by eapply H3].
Qed.
Lemma token_go pid b s s' :
  answers i (answer string) (QToken pid) s (Done b) s' → guards i false (s, ()) (s', ()) ∧ ld_lines s' !! lockLine pid b = Some (Some i).
Proof.
  intros ((_ & Hn & ->) & Ht & _). split; [|cbn; by rewrite lookup_insert_eq]. split; cbn; [|done]. split; cbn; [|by apply insert_subseteq|lia|].
  - intros h f Hf. exists f. split_and!; [done|done|lia].
  - intros [H1 H2 H3 H4]. split; cbn; [|done|done|done]. intros h f Hf. destruct (H1 h f Hf) as [Hr Hl]. split; [done|].
    intros Hc. specialize (Hl Hc). rewrite lookup_insert_ne; [done|]. congruence.
Qed.

Definition takes (s0 : lockdir) {A} (got : A → Prop) (r : A) (h : bool) (w : lockdir * unit) : Prop :=
  h = false ∧ goes_on s0 w.1 ∧ (got r → owned_lock i w.1).
Lemma takes_ret {A} (got : A → Prop) r s0 s : goes_on s0 s → (got r → owned_lock i s) → safe_run i (TRet r) (takes s0 got) (s, ()).
Proof.
  intros Hs Hr. apply safe_ret. intros s' [Hg Hk]. split_and!; [done|by eapply go_trans|]. intros Hx. by eapply owned_kept, Hr.
Qed.
Definition created (r : answer string) : Prop := match r with Done _ => True | _ => False end.
Lemma createLock_safe pid s0 : 0 ≤ pid → good s0 → safe_run i (createLock pid) (takes s0 created) (s0, ()).
Proof.
  intros Hpid Hg0. unfold createLock, call. cbn [tbind]. apply safe_call. intros s1 H1. split; [done|]. intros t s2 Ht.
  destruct t as [b| | |]; [|destruct Ht as [-> _]; split; [split; [apply go_refl|done]|apply takes_ret; [apply H1|done]]..].
  apply token_go in Ht as [Hgd Hline]. split; [done|]. pose proof (go_trans _ _ _ (proj1 H1) (proj1 Hgd)) as H02. clear s1 H1 Hgd.
  apply safe_call. intros s3 H3. split; [done|]. pose proof (go_trans _ _ _ H02 (proj1 H3)) as H03. intros x s4 Hc.
  destruct x as [h| | |].
  2-4: assert (s4 = s3) as -> by (destruct Hc as [Hc _]; try (by destruct Hc); done); split; [split; [apply go_refl|done]|by apply takes_ret].
  apply create_go in Hc as (Hgd & Hown & Hnh). split; [done|]. pose proof (go_trans _ _ _ H03 (proj1 Hgd)) as H04.
  pose proof (lookup_weaken _ _ _ _ (lookup_weaken _ _ _ _ Hline (go_lines _ _ (proj1 H3))) (go_lines _ _ (proj1 Hgd))) as Hline4.
  clear s3 H3 H03 Hgd Hline. apply safe_call. intros s5 H5. split; [done|]. intros ok s6 Hw. pose proof (go_trans _ _ _ H04 (proj1 H5)) as H05.
  assert (Hf5 : ∃ f, ld_files s5 !! h = Some f ∧ lf_owner f = Some i).
  { destruct Hown as (h' & f & Hn & Hf & Ho). rewrite Hnh in Hn. injection Hn as <-. destruct (go_files _ _ (proj1 H5) h f Hf) as (f' & Hf' & E & _).
    exists f'. by rewrite E. }
  pose proof (lookup_weaken _ _ _ _ Hline4 (go_lines _ _ (proj1 H5))) as Hline5.
  pose proof (write_go pid b h s5 ok s6 Hpid Hline5 Hf5 (go_good _ _ H05 Hg0) Hw) as Hgd. split; [done|].
  pose proof (go_trans _ _ _ H05 (proj1 Hgd)) as H06.
  assert (Hown6 : owned_lock i s6).
  { assert (Hown5 : owned_lock i s5) by (by eapply owned_kept; [apply H5|apply H5|]).
    eapply owned_kept; [apply Hgd| |exact Hown5]. intros _. by destruct Hw as ([[_ ->]|(f' & ? & ? & _ & _ & _ & ->)] & _). }
  destruct ok; cbn [tbind]; [by apply takes_ret|]. apply safe_call. intros s7 H7. split; [done|]. intros [] s8 Hrem.
  pose proof (remove_go _ _ _ Hrem (fun _ => owned_kept _ _ _ (proj1 H7) (proj2 H7) Hown6)) as Hgd8. split; [done|].
  apply takes_ret; [|done]. eapply go_trans; [exact H06|]. eapply go_trans; [apply H7|apply Hgd8].
Qed.
Definition is_locked (r : lockResult) : Prop := match r with Locked _ => True | _ => False end.
Lemma lock_loop_safe pid now more : ∀ attempt s0,
  0 ≤ pid → now ≤ ld_now s0 → good s0 → safe_run i (lock_loop pid now attempt more) (takes s0 is_locked) (s0, ()).
Proof.
  induction more as [|more IH]; intros attempt s0 Hpid Hnow Hg0; [by apply takes_ret; [apply go_refl|]|]. cbn [lock_loop].
  assert (Hagain : ∀ s, goes_on s0 s → safe_run i (lock_loop pid now (S attempt) more) (takes s0 is_locked) (s, ())).
  { intros s Hs. eapply tsafe_post; [|apply IH; [done|pose proof (go_now _ _ Hs); lia|by apply (go_good _ _ Hs)]].
    intros r h w (-> & Hg & Ho). split_and!; [done|by eapply go_trans|done]. }
  eapply tsafe_bind; [apply _|by apply createLock_safe|]. intros c h [s1 []] (-> & H1 & Hc). cbn in H1, Hc.
  destruct c as [content| | |]; [apply takes_ret; [done|by intros _; apply Hc]|by apply takes_ret| |by apply takes_ret].
  eapply tsafe_bind; [apply _|apply readLock_safe; by apply (go_good _ _ H1)|]. intros hd h [s2 []] (-> & H2 & Hfact). cbn in H2, Hfact.
  specialize (Hfact eq_refl). pose proof (go_trans _ _ _ H1 (proj1 H2)) as H02.
  destruct hd as [|m|line m]; [by apply Hagain|by apply takes_ret|]. destruct (_ || _) eqn:E; [by apply takes_ret|].
  apply orb_false_iff in E as [_ Hage%Z.leb_gt]. destruct Hfact as [Hcl Hl].
  eapply tsafe_bind; [apply _|apply removeLock_safe; [by apply (go_good _ _ H02)|]|].
  - right. split; [done|]. apply (Hl now); [|lia]. pose proof (go_now _ _ H1). lia.
  - intros ok h [s3 []] (-> & H3). cbn in H3. pose proof (go_trans _ _ _ H02 H3) as H03. destruct ok; [by apply Hagain|by apply takes_ret].
Qed.
Lemma locked_run_safe pid s0 : 0 ≤ pid → good s0 → safe_run i (locked_run pid) (leaves s0) (s0, ()).
Proof.
  intros Hpid Hg0. unfold locked_run. eapply tsafe_bind; [apply _| |].
  - instantiate (1 := takes s0 is_locked). unfold LockProject, lock, call. cbn [tbind]. apply safe_quiet; [by intros s x s' []|done|]. intros s1 now H1 [-> _].
    apply safe_quiet; [done|done|]. intros s2 root H2 _. pose proof (since_trans _ _ _ H1 H2) as H02.
    destruct root as [u| | |]; [|by apply takes_ret; [apply H02|]..].
    eapply tsafe_post; [|apply lock_loop_safe; [done|apply (go_now _ _ (proj1 H2))|by apply (go_good _ _ (proj1 H02))]].
    intros r h w (-> & Hg & Ho). split_and!; [done|by eapply go_trans; [apply H02|]|done].
  - intros r h [s1 []] (-> & H1 & Ho). cbn in H1, Ho.
    assert (Hend : ∀ s, goes_on s0 s → safe_run i (TRet ()) (leaves s0) (s, ())).
    { intros s Hs. apply safe_ret. intros s' Hs'. split; [done|]. eapply go_trans; [done|apply Hs']. }
    destruct r as [content|age|]; [|by apply Hend..]. specialize (Ho I). unfold unlockFunc, call. cbn [tbind].
    apply safe_quiet; [done| |].
    + intros s Hs. by eapply owned_kept; [apply Hs|apply Hs|].
    + intros s2 x H2 _. pose proof (go_trans _ _ _ H1 (proj1 H2)) as H02. apply safe_quiet; [done|done|]. intros s3 root H3 _.
      pose proof (go_trans _ _ _ H02 (proj1 H3)) as H03. destruct root as [u| | |]; [|by apply Hend..].
      eapply tsafe_bind; [apply _|apply removeLock_safe; [by apply (go_good _ _ H03)|]|].
      * left. destruct (since_trans _ _ _ H2 H3) as [Hg Hk]. by eapply owned_kept.
      * intros ok h [s4 []] (-> & H4). cbn in H4. apply Hend. by eapply go_trans.
Qed.
End safe.

(** *** Together *)

Lemma time_go s now i : ld_now s ≤ now → in_time (s <| ld_now := now |>) → goes_on s (s <| ld_now := now |>) ∧ keeps_lock i s (s <| ld_now := now |>).
Proof.
  intros Hn Ht. split; [|done]. split; cbn; [|done|done|].
  - intros h f Hf. exists f. split_and!; [done|done|lia].
  - intros [H1 H2 H3 H4]. split; cbn; [done| |done|done]. intros h f j Hf Ho. specialize (H2 h f j Hf Ho). lia.
Qed.
(** Every run of the pool is still to be safe, from here. *)
Definition all_safe (c : list (lprog unit) * lockdir) : Prop :=
  good c.2 ∧ ∀ i p, c.1 !! i = Some p → ∃ s0, safe_run i p (leaves s0) (c.2, ()).
Lemma all_safe_step c c' : lstep c c' → (left_behind c.2 → undisturbed c) → in_time c'.2 → all_safe c → all_safe c'.
Proof.
  intros Hstep Hund Ht [Hg Hs]. destruct Hstep as [i ps X q k s x s' Hi Hd|ps s now Hn]; cbn in *.
  - destruct (Hs i _ Hi) as [s0 Hsafe]. cbn in Hsafe. destruct (Hsafe (s, ())) as [_ Ha]; [reflexivity|].
    destruct (Ha x s') as [[Hgo Hkeep] Hk].
    { split_and!; [done|done|]. destruct q; try done. intros Hl h f Hn Hf. by eapply (Hund Hl i want moved k h f). }
    split; [by apply (go_good _ _ Hgo)|]. intros j p Hj. cbn in Hj. destruct (decide (j = i)) as [->|Hne].
    + rewrite list_lookup_insert_eq in Hj by (by eapply lookup_lt_Some). injection Hj as <-. by exists s0.
    + rewrite list_lookup_insert_ne in Hj by done. destruct (Hs j p Hj) as [s1 H1]. exists s1.
      eapply tsafe_rely; [apply _| |exact H1]. split; [done|]. by apply Hkeep.
  - split; [by apply (go_good _ _ (proj1 (time_go s now 0 Hn Ht)))|]. intros j p Hj. destruct (Hs j p Hj) as [s1 H1]. exists s1.
    eapply tsafe_rely; [apply _| |exact H1]. by apply time_go.
Qed.
Definition runs_of (pids : list Z) : list (lprog unit) := map locked_run pids.
(** No run makes a line that was there before. *)
Lemma left_before c c' : lstep c c' → left_behind c'.2 → left_behind c.2.
Proof.
  intros [i ps X q k s x s' _ Hd|ps s now _]; [|done]. cbn. intros [line Hl]. exists line. revert Hl.
  destruct q; cbn in Hd; [by rewrite Hd|by destruct Hd as [_ ->]|..]; try (by rewrite (proj1 Hd)); try (by rewrite Hd).
  - destruct x as [b| | |]; [|by rewrite Hd..]. destruct Hd as (_ & _ & ->). cbn. by intros [[_ ?]|[_ ?]]%lookup_insert_Some.
  - destruct x as [b| | |]; [destruct Hd as (_ & _ & ->)|by rewrite Hd|by destruct Hd as [_ ->]|by rewrite Hd]; done.
  - by destruct Hd as [[_ ->]|(f & w & r & _ & _ & _ & ->)].
  - by destruct Hd as [->| ->].
  - destruct x; [|by rewrite Hd]. by destruct Hd as (h & _ & ->).
  - by destruct Hd as [->|(h & _ & _ & ->)].
Qed.

(** A step that leaves no run's lock older than [LockMaxAge]; where a lock
    was left when the runs started, from no disturbed takeover. *)
Definition calm_step (s0 : lockdir) (c c' : list (lprog unit) * lockdir) : Prop :=
  lstep c c' ∧ in_time c'.2 ∧ (left_behind s0 → undisturbed c).

(** C19: the lock of a compose project is held by one run at a time, as long
    as no run's lock gets older than [LockMaxAge]: always when no lock was
    left there before the runs started, however the file system calls of any
    number of them interleave and whichever fail; and when one was, unless a
    run takes it over between another's last check and its rename (the race
    the code documents, [lock_race] below). *)
Theorem lock_exclusive pids s0 c i j :
  Forall (fun pid => 0 ≤ pid) pids → untouched s0 → rtc (calm_step s0) (runs_of pids, s0) c → working c.1 i → working c.1 j → i = j.
Proof.
  intros Hpids [Hfiles Hnames] Hrun (li & ki & Hi) (lj & kj & Hj).
  assert (all_safe c ∧ (left_behind c.2 → left_behind s0)) as [[_ Hs] _].
  { assert (Hg0 : good s0).
    { split; [intros h f Hf; by destruct (Hfiles h f Hf) as (? & -> & ?)| |done|].
      - intros h f k Hf Ho. destruct (Hfiles h f Hf) as (_ & E & _). congruence.
      - intros h f k _ Hf Ho. destruct (Hfiles h f Hf) as (_ & E & _). congruence. }
    assert (H0 : all_safe (runs_of pids, s0)).
    { split; [done|]. intros k p Hk. exists s0. unfold runs_of in Hk. cbn in Hk. apply list_lookup_fmap_Some in Hk as (pid & -> & Hk).
      apply locked_run_safe; [|done]. by eapply (Forall_lookup_1 _ _ _ _ Hpids). }
    assert (left_behind (runs_of pids, s0).2 → left_behind s0) as Hl0 by done. clear -Hrun H0 Hl0.
    induction Hrun as [|c1 c2 c3 (Hl & Ht & Hu) _ IH]; [done|]. apply IH; [eapply all_safe_step; eauto|]. intros H. by eapply Hl0, left_before. }
  destruct (Hs i _ Hi) as [s1 H1], (Hs j _ Hj) as [s2 H2]. cbn in H1, H2.
  destruct (H1 (c.2, ())) as [O1 _]; [reflexivity|]. destruct (H2 (c.2, ())) as [O2 _]; [reflexivity|]. by eapply one_owner.
Qed.

(** ** Running alone, when no call fails *)

Definition works (i : nat) (X : Type) (q : lq X) (s : lockdir) (x : X) (s' : lockdir) : Prop :=
  does i X q s x s' ∧
  match q in lq X return X → Prop with
  | QOpenRoot => fun x => x = Done ()
  | QToken _ => fun x => ∃ b, x = Done b
  | QSuffix => fun x => ∃ b, x = Done b
  | QCreate => fun x => x ≠ Missing ∧ x ≠ Failed
  | QWrite _ _ => fun x => x = true
  | QRemove name => fun _ => s' = set_names (delete name) s
  | QLstat _ => fun x => x ≠ Taken ∧ x ≠ Failed
  | QOpen _ => fun x => x ≠ Taken ∧ x ≠ Failed
  | QStat seen h => fun x => seen = h → x ≠ None
  | QRead _ => fun x => ∃ c, x = Done c
  | QRename _ _ => fun x => x = true
  | _ => fun _ => True
  end x.
Definition stays (_ : bool) (w w' : lockdir * unit) : Prop := w' = w.
#[global] Instance stays_preorder held : PreOrder (stays held).
Proof. split; [done|]. by intros w w1 w2 -> ->. Qed.
Definition alone (i : nat) {A} (p : lprog A) (post : A → lockdir → Prop) (s : lockdir) : Prop :=
  tsafe (works i) stays (fun _ _ _ => True) (fun _ _ _ _ => True) (fun _ _ _ => True) (fun _ => True) false p (fun a h w => h = false ∧ post a w.1) (s, ()).

Section alone_facts.
Context (i : nat).
Lemma alone_call {A X} (q : lq X) (k : X → lprog A) post s :
  (∀ x s', works i X q s x s' → alone i (k x) post s') → alone i (TCall q k) post s.
Proof. intros H w ->. split; [done|]. intros x s' Hx. split; [done|]. by apply H. Qed.
Lemma alone_ret {A} (a : A) (post : A → lockdir → Prop) s : post a s → alone i (TRet a) post s.
Proof. by intros H w ->. Qed.
Lemma alone_bind {A B} (p : lprog A) (k : A → lprog B) post post' s :
  alone i p post s → (∀ a s', post a s' → alone i (k a) post' s') → alone i (tbind p k) post' s.
Proof. intros Hp Hk. eapply tsafe_bind; [apply _|exact Hp|]. intros a h [s' []] [-> Ha]. by apply Hk. Qed.

(** What [readLock] finds. *)
Definition found (s : lockdir) (name : string) : heldLock :=
  match ld_names s !! name ≫= fun h => ld_files s !! h with
  | Some f => if lf_regular f && complete (lf_content f) then Held (lf_content f) (lf_mtime f) else NotLock (Some (lf_mtime f))
  | None => NoLock
  end.
Lemma complete_stake c : complete (stake (S lockReadMax) c) = complete c ∧ (complete c = true → stake (S lockReadMax) c = c).
Proof.
  destruct (Nat.le_gt_cases (String.length c) (S lockReadMax)) as [Hl|Hl].
  - assert (stake (S lockReadMax) c = c) as ->; [|done]. rewrite <- (stake_sdrop (S lockReadMax) c) at 2.
    assert (sdrop (S lockReadMax) c = ""%string) as ->; [|by rewrite string_app_nil_r].
    pose proof (f_equal String.length (stake_sdrop (S lockReadMax) c)) as E. rewrite string_app_length, stake_length in E.
    destruct (sdrop (S lockReadMax) c); [done|]. cbn [String.length] in E. lia.
  - assert (H : ∀ d, (lockReadMax < String.length d)%nat → complete d = false).
    { intros d Hd. unfold complete. assert (Hb : (Z.of_nat lockReadMax <? slen d) = true) by (apply Z.ltb_lt; unfold slen; lia).
      by rewrite Hb, orb_true_r. }
    rewrite !H; [done|lia|rewrite stake_length; lia].
Qed.
Lemma readLock_alone name s : alone i (readLock name) (fun r s' => s' = s ∧ r = found s name) s.
Proof.
  unfold readLock, call. cbn [tbind]. apply alone_call. intros seen s1 [(-> & Hseen) [Ht Hf]]. unfold found.
  destruct seen as [[[o regular] m]| | |]; [|apply alone_ret; by rewrite Hseen|done..].
  destruct Hseen as (f & Hn & Hfile & -> & ->). rewrite Hn. cbn [option_bind mbind]. rewrite Hfile.
  destruct (lf_regular f) eqn:Hr; cbn [negb tbind andb]; [|by apply alone_ret].
  apply alone_call. intros x s2 [(-> & Hx) [Ht2 Hf2]]. destruct x as [h| | |]; [|congruence|done..].
  destruct Hx as (_ & h' & f' & Hn' & Hfile' & Hreg). rewrite Hn in Hn'. injection Hn' as <-. rewrite Hfile in Hfile'. injection Hfile' as <-.
  specialize (Hreg Hr) as <-. apply alone_call. intros info s3 [(-> & Hi) Hsame]. destruct info as [m|]; [|by destruct (Hsame eq_refl)].
  destruct Hi as (f' & Hf' & ->). rewrite Hfile in Hf'. injection Hf' as <-.
  apply alone_call. intros c s4 [(-> & Hc) [content ->]]. destruct Hc as (f' & Hf' & ->). rewrite Hfile in Hf'. injection Hf' as <-.
  apply alone_ret. split; [done|]. destruct (complete_stake (lf_content f)) as [-> E]. destruct (complete _); [by rewrite E|done].
Qed.

(** The lock with this content is there; any other file is as it was. *)
Definition now_locked (s : lockdir) (content : string) (s' : lockdir) : Prop :=
  (∃ mtime, found s' lockName = Held content mtime) ∧ (∀ n, n ≠ lockName → ld_names s' !! n = ld_names s !! n) ∧ ld_files s ⊆ ld_files s'.
Lemma hex_length s : String.length (hex_of s) = (2 * String.length s)%nat.
Proof. induction s as [|c s IH]; cbn [hex_of String.length]; lia. Qed.
Lemma line_complete pid b :
  0 ≤ pid → (String.length (itoa pid) ≤ 20)%nat → String.length b = 16%nat → complete (lockLine pid b) = true.
Proof.
  intros Hp Hpl Hb. unfold lockLine. rewrite <- !string_app_assoc. set (a := (itoa pid +:+ " ") +:+ hex_of b).
  assert (Ha : contains_byte newline a = false).
  { unfold a. rewrite !contains_byte_app, hex_plain, (all_bytes_contains is_digit newline _ (itoa_digits pid Hp)); done. }
  assert (Hl : (String.length a ≤ 53)%nat) by (unfold a; rewrite !string_app_length, hex_length; cbn [String.length]; lia).
  unfold complete. rewrite index_byte_app by done. unfold slen, lockReadMax. rewrite string_app_length. cbn [String.length].
  apply andb_true_iff. split; [|apply Z.eqb_eq; lia]. apply negb_true_iff, orb_false_iff. split; [apply Z.eqb_neq; lia|apply Z.ltb_ge; lia].
Qed.

Lemma createLock_alone pid s :
  0 ≤ pid → (String.length (itoa pid) ≤ 20)%nat →
  alone i (createLock pid) (fun r s' =>
    match ld_names s !! lockName with
    | None => ∃ content, r = Done content ∧ now_locked s content s'
    | Some _ => r = Taken ∧ ld_names s' = ld_names s ∧ ld_files s' = ld_files s ∧ ld_now s' = ld_now s
    end) s.
Proof.
  intros Hp Hpl. unfold createLock, call. cbn [tbind]. apply alone_call. intros t s1 [Ht [b ->]]. destruct Ht as (Hb & _ & ->).
  apply alone_call. intros x s2 [Hx [Hm Hf]]. destruct x as [h| | |]; [| done| |done].
  - destruct Hx as (Hn & Hh & ->). apply alone_call. intros ok s3 [[[? ?]|(f & written & rest & Hf3 & Hw & Hok & ->)] ->]; [done|]. apply alone_ret.
    cbn in Hn. rewrite Hn. exists (lockLine pid b). split; [done|]. rewrite (Hok eq_refl), string_app_nil_r in Hw. subst written.
    cbn in Hf3. rewrite lookup_insert_eq in Hf3. injection Hf3 as <-. split_and!.
    + eexists. unfold found. cbn. rewrite lookup_insert_eq. cbn. rewrite lookup_insert_eq. cbn. by rewrite line_complete.
    + intros n Hne. cbn. by rewrite lookup_insert_ne.
    + cbn. rewrite insert_insert_eq. apply insert_subseteq. exact Hh.
  - destruct Hx as [[h Hn] ->]. apply alone_ret. cbn in Hn. rewrite Hn. done.
Qed.
Lemma removeLock_alone want s :
  alone i (removeLock want) (fun r s' =>
    r = holds_line (found s lockName) want ∧ ld_files s' = ld_files s ∧ ld_now s' = ld_now s ∧
    (∀ n, n ≠ lockName → ld_names s' !! n = ld_names s !! n) ∧
    ld_names s' !! lockName = if holds_line (found s lockName) want then None else ld_names s !! lockName) s.
Proof.
  unfold removeLock, call. eapply alone_bind; [apply readLock_alone|]. intros cur s1 [-> ->]. destruct (holds_line (found s lockName) want) eqn:Hl;
    cbn [negb]; [|by apply alone_ret]. cbn [tbind].
  apply alone_call. intros x s1 [[-> Hfresh] [b ->]]. assert (Hne : movedName b ≠ lockName) by done. revert Hfresh Hne. generalize (movedName b) as moved.
  intros moved Hfresh Hne. apply alone_call. intros ok s1 [Hren ->]. destruct Hren as (h & Hn & ->). cbn [negb].
  eapply alone_bind; [apply readLock_alone|]. intros got s1 [-> ->].
  assert (Hsame : found (set_names (fun n => <[moved:=h]> (delete lockName n)) s) moved = found s lockName).
  { unfold found. cbn. by rewrite lookup_insert_eq, Hn. }
  rewrite Hsame, Hl. cbn [tbind]. apply alone_call. intros [] s1 [_ ->]. apply alone_ret. cbn. split_and!; try done.
  - intros n Hnl. destruct (decide (n = moved)) as [->|Hnm]; [by rewrite lookup_delete_eq|].
    by rewrite lookup_delete_ne, lookup_insert_ne, lookup_delete_ne.
  - by rewrite lookup_delete_ne, lookup_insert_ne, lookup_delete_eq.
Qed.
Definition free_to_take (s : lockdir) : bool :=
  match found s lockName with NoLock => true | Held _ mtime => LockMaxAge <? ld_now s - mtime | NotLock _ => false end.

(** C23: what one run alone makes of the lock, whatever is there, when no
    call fails. It takes the lock exactly when there is none or a complete
    one older than [LockMaxAge]: its line is there then, and every other
    file as it was. Otherwise (a younger lock, or anything else there,
    however old) it answers that the lock is busy and the directory is
    unchanged. Unlocking removes the lock if it holds the run's line, and
    otherwise leaves it; nothing else changes. *)
Theorem lock_alone pid s :
  0 ≤ pid → (String.length (itoa pid) ≤ 20)%nat → (∀ h, ld_names s !! lockName = Some h → is_Some (ld_files s !! h)) →
  alone i (LockProject pid) (fun r s' =>
    if free_to_take s then ∃ content, r = Locked content ∧ now_locked s content s'
    else (∃ age, r = Busy age) ∧ ld_names s' = ld_names s ∧ ld_files s' = ld_files s) s ∧
  ∀ content, alone i (unlockFunc content) (fun _ s' =>
    ld_files s' = ld_files s ∧ (∀ n, n ≠ lockName → ld_names s' !! n = ld_names s !! n) ∧
    ld_names s' !! lockName = if holds_line (found s lockName) content then None else ld_names s !! lockName) s.
Proof.
  intros Hp Hpl Hex. split.
  2:{ intros content. unfold unlockFunc, call. cbn [tbind]. apply alone_call. intros root s1 [-> ->].
      eapply alone_bind; [apply removeLock_alone|]. intros ok s1 (_ & H1 & _ & H2 & H3). by apply alone_ret. }
  unfold LockProject, lock, call. cbn [tbind]. apply alone_call. intros now s1 [[-> ->] _]. apply alone_call. intros root s1 [-> ->].
  cbn [lock_loop]. eapply alone_bind; [by apply createLock_alone|]. intros c s1 H1. cbn beta in H1. unfold free_to_take.
  destruct (ld_names s !! lockName) as [h|] eqn:Hn.
  2:{ destruct H1 as (content & -> & H1). apply alone_ret. assert (found s lockName = NoLock) as -> by (unfold found; by rewrite Hn). by exists content. }
  destruct H1 as (-> & E1 & E2 & E3). destruct (Hex h eq_refl) as [f Hf]. eapply alone_bind; [apply readLock_alone|]. intros hd s2 [-> ->].
  assert (Hfound : found s1 lockName = found s lockName) by (unfold found; by rewrite E1, E2). rewrite Hfound.
  destruct (found s lockName) as [|m|line m] eqn:Ef; [by unfold found in Ef; rewrite Hn in Ef; cbn in Ef; rewrite Hf in Ef; destruct (_ && _)| |].
  { apply alone_ret. split; [by eexists|done]. }
  cbn [Nat.ltb Nat.leb orb]. rewrite Z.leb_antisym. destruct (LockMaxAge <? ld_now s - m) eqn:Ha; cbn [negb]; [|apply alone_ret; split; [by eexists|done]].
  eapply alone_bind; [apply removeLock_alone|]. intros ok s2 (-> & F1 & F2 & F3 & F4). cbn beta in F3, F4. rewrite Hfound in *.
  cbn [holds_line] in *. rewrite String.eqb_refl in *. eapply alone_bind; [by apply createLock_alone|]. intros c s3 H3. cbn beta in H3. rewrite F4 in H3.
  destruct H3 as (content & -> & H3 & H4 & H5). apply alone_ret. exists content. split; [done|]. split_and!; [done| |].
  - intros n Hne. rewrite H4, F3, E1 by done. done.
  - rewrite <- E2, <- F1. done.
Qed.
End alone_facts.

(** ** Interleavings, run *)

(** A system that fails no call, its random bytes a count. *)
Definition count_bytes (n : nat) (s : lockdir) : string :=
  stake n (String (ascii_of (Z.of_nat (size (ld_lines s) + size (ld_files s)))) "_______________").
Definition next_handle (s : lockdir) : nat := S (foldr max O (map fst (map_to_list (ld_files s)))).
Definition serve (i : nat) (X : Type) (q : lq X) (s : lockdir) : X * lockdir :=
  match q in lq X return X * lockdir with
  | QOpenRoot => (Done (), s)
  | QNow => (ld_now s, s)
  | QToken pid =>
    let b := count_bytes 16 s in
    match ld_lines s !! lockLine pid b with
    | None => if bool_decide (String.length b = 16%nat) then (Done b, s <| ld_lines ::= <[lockLine pid b := Some i]> |>) else (Failed, s)
    | Some _ => (Failed, s)
    end
  | QSuffix => let b := count_bytes 8 s in match ld_names s !! movedName b with None => (Done b, s) | Some _ => (Failed, s) end
  | QCreate =>
    match ld_names s !! lockName with
    | Some _ => (Taken, s)
    | None =>
      let h := next_handle s in
      match ld_files s !! h with
      | None => (Done h, set_names <[lockName := h]> s <| ld_files ::= <[h := mkLfile true (ld_now s) "" (Some i)]> |>)
      | Some _ => (Failed, s)
      end
    end
  | QWrite h data =>
    match ld_files s !! h with
    | Some f => (true, s <| ld_files ::= <[h := f <| lf_content := data |> <| lf_mtime := ld_now s |>]> |>)
    | None => (false, s)
    end
  | QRemove name => ((), set_names (delete name) s)
  | QLstat name =>
    match ld_names s !! name with
    | None => (Missing, s)
    | Some h => match ld_files s !! h with Some f => (Done (h, lf_regular f, lf_mtime f), s) | None => (Failed, s) end
    end
  | QOpen name =>
    match ld_names s !! name with
    | None => (Missing, s)
    | Some h => match ld_files s !! h with Some _ => (Done h, s) | None => (Failed, s) end
    end
  | QStat _ h => (lf_mtime <$> ld_files s !! h, s)
  | QRead h => match ld_files s !! h with Some f => (Done (stake (S lockReadMax) (lf_content f)), s) | None => (Failed, s) end
  | QRename _ moved =>
    match ld_names s !! lockName with
    | Some h => (true, set_names (fun n => <[moved := h]> (delete lockName n)) s)
    | None => (false, s)
    end
  | QLink moved =>
    match ld_names s !! moved, ld_names s !! lockName with
    | Some h, None => ((), set_names <[lockName := h]> s)
    | _, _ => ((), s)
    end
  | QWork _ => ((), s)
  end.
Lemma serve_does i X (q : lq X) s : does i X q s (serve i X q s).1 (serve i X q s).2.
Proof.
  destruct q as [| |pid| | |h data|name|name|name|seen h|h|want moved|moved|line].
  - done.
  - done.
  - cbn. destruct (ld_lines s !! _) eqn:E; [done|]. by case_bool_decide.
  - cbn. by destruct (ld_names s !! _) eqn:E.
  - cbn. destruct (ld_names s !! _) eqn:E; [done|]. by destruct (ld_files s !! _) eqn:F.
  - cbn. destruct (ld_files s !! h) as [f|] eqn:E; [right|by left]. exists f, data, ""%string. by rewrite string_app_nil_r.
  - cbn. by right.
  - cbn. destruct (ld_names s !! name) as [h|] eqn:E; [|done]. destruct (ld_files s !! h) as [f|] eqn:F; [|done]. split; [done|]. by exists f.
  - cbn. destruct (ld_names s !! name) as [h|] eqn:E; [|done]. destruct (ld_files s !! h) as [f|] eqn:F; [|done]. split; [done|].
    split; [by eexists|]. by exists h, f.
  - cbn. split; [done|]. destruct (ld_files s !! h) as [f|]; [|done]. by exists f.
  - cbn. destruct (ld_files s !! h) as [f|] eqn:E; [|done]. split; [done|]. by exists f.
  - cbn. destruct (ld_names s !! lockName) as [h|] eqn:E; [|done]. by exists h.
  - cbn. destruct (ld_names s !! moved) as [h|] eqn:E; [|by left]. destruct (ld_names s !! lockName) eqn:F; [by left|right]. by exists h.
  - done.
Qed.

(** The next call of each run a schedule names, while [ok] holds before and
    after. *)
Definition turn (i : nat) (c : list (lprog unit) * lockdir) : option (list (lprog unit) * lockdir) :=
  match c.1 !! i with
  | Some (TCall q k) => let '(x, s) := serve i _ q c.2 in Some (<[i := k x]> c.1, s)
  | _ => None
  end.
Fixpoint play (ok : list (lprog unit) * lockdir → bool) (l : list nat) (c : list (lprog unit) * lockdir) : option (list (lprog unit) * lockdir) :=
  match l with
  | [] => Some c
  | i :: l => c' ← turn i c; if ok c && ok c' then play ok l c' else None
  end.
Lemma turn_step i c c' : turn i c = Some c' → lstep c c'.
Proof.
  unfold turn. destruct c as [ps s]; cbn. destruct (ps !! i) as [p|] eqn:E; [|done]. destruct p as [|X f k|X q k| | |]; try done.
  pose proof (serve_does i X q s) as Hd. destruct (serve i X q s) as [x s']. intros [= <-]. by eapply step_call.
Qed.
Lemma play_steps ok l c c' : play ok l c = Some c' → rtc (fun c c' => lstep c c' ∧ ok c = true ∧ ok c' = true) c c'.
Proof.
  revert c. induction l as [|i l IH]; intros c; cbn; [by intros [= ->]|]. intros (c1 & Ht & H)%bind_Some.
  destruct (ok c && ok c1) eqn:E; [|done]. apply andb_prop in E as [E1 E2]. eapply rtc_l; [split_and!; [by eapply turn_step|done|done]|by apply IH].
Qed.
(** [undisturbed] and [in_time], checked. *)
Definition calm (c : list (lprog unit) * lockdir) : bool :=
  match ld_names c.2 !! lockName ≫= fun h => ld_files c.2 !! h with
  | None => true
  | Some f =>
    match lf_owner f with Some _ => ld_now c.2 - lf_mtime f <=? LockMaxAge | None => true end &&
    forallb (fun x : nat * lprog unit =>
      match x.2 with
      | TCall q _ => match q with QRename want _ => bool_decide (lf_owner f = Some x.1) || (lf_content f =?s want) | _ => true end
      | _ => true
      end) (zip (seq 0 (length c.1)) c.1)
  end.
Lemma calm_spec c : calm c = true → undisturbed c ∧ in_time c.2.
Proof.
  unfold calm. intros H. split.
  - intros i want moved k h f Hi Hn Hf. rewrite Hn in H. cbn [option_bind mbind] in H. rewrite Hf in H. apply andb_prop in H as [_ H].
    rewrite forallb_forall in H. specialize (H (i, TCall (QRename want moved) k)). cbn in H.
    assert (Hin : In (i, TCall (QRename want moved) k) (zip (seq 0 (length c.1)) c.1)).
    { apply list_elem_of_In, list_elem_of_lookup. exists i. apply lookup_zip_with_Some. exists i, (TCall (QRename want moved) k).
      split_and!; [done| |done]. apply lookup_seq. split; [done|]. by eapply lookup_lt_Some. }
    apply H, orb_prop in Hin as [Ho%bool_decide_eq_true|Hc%String.eqb_eq]; auto.
  - intros h f i Hn Hf Ho. rewrite Hn in H. cbn [option_bind mbind] in H. rewrite Hf, Ho in H. apply andb_prop in H as [H%Z.leb_le _]. done.
Qed.

(** A lock of a run that died two hours ago. *)
Definition dead_line : string := lockLine 41 "0123456789abcdef".
Definition stale_dir : lockdir :=
  mkLockdir {[lockName := O]} {[O := mkLfile true 0 dead_line None]} (2 * LockMaxAge) {[dead_line := None]}.
Lemma stale_untouched : untouched stale_dir.
Proof.
  split.
  - unfold stale_dir. cbn [ld_files ld_lines]. intros h f [<- <-]%lookup_singleton_Some. split_and!; [done|done|apply lookup_singleton_eq].
  - unfold stale_dir. cbn [ld_files ld_names]. intros name h [_ <-]%lookup_singleton_Some. eexists. apply lookup_singleton_eq.
Defined.
(** Its takeover, with every call of the first run up to its work, then
    another run's. *)
Definition takeover : list nat := repeat 0%nat 22 ++ repeat 1%nat 8.
Definition is_working (ps : list (lprog unit)) (i : nat) : bool :=
  match (ps !! i : option (lprog unit)) with Some (TCall q _) => match q with QWork _ => true | _ => false end | _ => false end.
Lemma is_working_spec ps i : is_working ps i = true → working ps i.
Proof.
  unfold is_working, working. destruct (ps !! i) as [[|X f k|X q k| | |]|]; try done. destruct q; try done. intros _. by eexists _, _.
Defined.
Definition played (ok : list (lprog unit) * lockdir → bool) (l : list nat) (pids : list Z) (ends : list (lprog unit) * lockdir → bool) : bool :=
  match play ok l (runs_of pids, stale_dir) with Some c => ends c | None => false end.
Lemma played_spec ok l pids ends : played ok l pids ends = true → ∃ c, play ok l (runs_of pids, stale_dir) = Some c ∧ ends c = true.
Proof. unfold played. destruct (play _ _ _) as [c|]; [by exists c|done]. Defined.
Lemma played_steps ok l pids c : play ok l (runs_of pids, stale_dir) = Some c → rtc lstep (runs_of pids, stale_dir) c.
Proof. intros E%play_steps. revert E. apply rtc_subrel. by intros c1 c2 [Hs _]. Qed.
Example lock_exclusive_witness :
  ∃ c, rtc (calm_step stale_dir) (runs_of [7; 8], stale_dir) c ∧ working c.1 0 ∧ ∀ j, working c.1 j → j = 0%nat.
Proof.
  assert (H : played calm takeover [7; 8] (fun c => is_working c.1 0) = true) by (vm_compute; reflexivity).
  apply played_spec in H as (c & E & Hw%is_working_spec).
  assert (Hrun : rtc (calm_step stale_dir) (runs_of [7; 8], stale_dir) c).
  { apply play_steps in E. revert E. apply rtc_subrel. intros c1 c2 (Hs & H1 & H2). apply calm_spec in H1 as [H1 _], H2 as [_ H2]. by split_and!. }
  exists c. split_and!; [exact Hrun|exact Hw|]. intros j Hj. symmetry.
  apply (lock_exclusive [7; 8] stale_dir c 0 j); [by repeat constructor|exact stale_untouched|exact Hrun|exact Hw|exact Hj].
Defined.
Example lock_alone_witness :
  alone 0 (LockProject 7) (fun r s' => ∃ content, r = Locked content ∧ now_locked stale_dir content s') stale_dir ∧
  ∃ r s', trun (serve 0) (LockProject 7) stale_dir () = Some (r, s', ()) ∧ is_locked r.
Proof.
  split.
  - destruct (lock_alone 0 7 stale_dir) as [H _]; [done|vm_compute; lia| |].
    + unfold stale_dir. cbn [ld_files ld_names]. intros h [_ <-]%lookup_singleton_Some. eexists. apply lookup_singleton_eq.
    + assert (E : free_to_take stale_dir = true) by (vm_compute; reflexivity). rewrite E in H. exact H.
  - assert (H : match trun (serve 0) (LockProject 7) stale_dir () with Some (r, _, _) => is_locked r | _ => False end) by (vm_compute; exact I).
    destruct (trun (serve 0) (LockProject 7) stale_dir ()) as [[[r s'] []]|]; [|destruct H]. exists r, s'. split; [reflexivity|exact H].
Defined.

(** *** What a disturbed takeover does *)

(** Two runs check the stale lock; the first takes it over while the second
    is about to move it. *)
Definition disturbed : list nat := repeat 1%nat 13 ++ repeat 0%nat 22 ++ [1%nat].
Definition in_timeb (c : list (lprog unit) * lockdir) : bool :=
  match ld_names c.2 !! lockName ≫= fun h => ld_files c.2 !! h with
  | Some f => match lf_owner f with Some _ => ld_now c.2 - lf_mtime f <=? LockMaxAge | None => true end
  | None => true
  end.
(** The documented race: a third run takes the lock while the first, whose
    lock was moved away, is at work. *)
Lemma lock_race : ∃ c, rtc lstep (runs_of [7; 8; 9], stale_dir) c ∧ working c.1 0 ∧ working c.1 2.
Proof.
  assert (H : played in_timeb (disturbed ++ repeat 2%nat 5) [7; 8; 9] (fun c => is_working c.1 0 && is_working c.1 2) = true) by (vm_compute; reflexivity).
  apply played_spec in H as (c & E & [H0 H2]%andb_prop). exists c. split_and!; [by eapply played_steps|by apply is_working_spec..].
Qed.
(** Two runs are enough to leave a lock no run holds: the first unlocks
    while its lock is moved away, and the second puts it back. *)
Definition ended (ps : list (lprog unit)) : bool := forallb (fun p : lprog unit => match p with TRet _ => true | _ => false end) ps.
Lemma lock_left : ∃ c, rtc lstep (runs_of [7; 8], stale_dir) c ∧ ended c.1 = true ∧ free_to_take c.2 = false.
Proof.
  assert (H : played in_timeb (disturbed ++ repeat 0%nat 3 ++ repeat 1%nat 6) [7; 8] (fun c => ended c.1 && negb (free_to_take c.2)) = true)
    by (vm_compute; reflexivity).
  apply played_spec in H as (c & E & [H0 H1%negb_true_iff]%andb_prop). exists c. split_and!; [by eapply played_steps|done|done].
Qed.
