(* ===== verification/Install.v ===== *)
(** * Installing an adapter (internal/adapters/install.go, dirs.go, trust_unix.go)

    A manifest pins an adapter's build by its digest: [install] downloads it,
    checks it, extracts it beside where it goes and renames it into place.
    HTTP, the digest and reading archives are arguments; the file system is
    that of Files.v, on a Unix host. *)

From S2P Require Import Prelude GoStrings GoPath Api Files Docker Mirror Artifacts Manifest Validate Discovery.
From Stdlib Require Import Ascii Bool.

Open Scope Z_scope.

(** ** Where it goes (dirs.go) *)

Definition platformDirName : string := "_platform".
Definition isPlatformName (s : string) : bool := all_bytes isLowerDigit s.
Definition CheckPlatform (platform : string) : bool :=
  match cut_at slash platform with
  | Some (goos, arch) => negb (goos =?s "") && negb (arch =?s "") && isPlatformName goos && isPlatformName arch
  | None => false
  end.
(** [filepath.Join] of a clean directory and a text (see [below_elems]). *)
Definition below (dir : path) (name : string) : path := rev (fold_left (clean_step true) (split_on slash name) (rev dir)).
(** [data]: [DataDir]'s answer; [host]: [HostPlatform]. *)
Definition InstallDirFor (data : option path) (host : string) (m : Manifest) (platform : string) : option path :=
  if negb (CheckPlatform platform) then None
  else
    data ← data;
    if platform =?s host then Some (below (below data (mf_Name m)) (mf_Version m))
    else
      let os_arch := match cut_at slash platform with Some (goos, arch) => goos +:+ "-" +:+ arch | None => platform end in
      Some (below (below (data ++ [platformDirName; os_arch]) (mf_Name m)) (mf_Version m)).
Definition installedEntryFor (m : Manifest) (dir : path) (goos : string) : path :=
  let a := mf_Adapter m in
  if (ad_Runtime a =?s RuntimePython) || (ad_Runtime a =?s RuntimeDotnet) then below dir (ad_Entry a)
  else if goos =?s "windows" then below dir (ad_Entry a +:+ ".exe") else below dir (ad_Entry a).

(** ** Archives *)

Inductive entry_type := TypeDir | TypeReg | TypeOther.
(** An entry; [en_cut]: reading its data fails after what is here;
    [en_opens]: a zip's can be read at all. *)
Record arEntry := mkArEntry { en_name : string; en_type : entry_type; en_mode : Z; en_data : string; en_cut : bool; en_opens : bool }.

(** [safeJoin]; names lead down from a clean directory. *)
Definition safeJoin (dir : path) (name : string) : option path :=
  let p := below dir name in if bool_decide (dir `prefix_of` p) then Some p else None.

Record response := mkResponse { rs_ok : bool; rs_body : string; rs_broken : bool }.
Definition maxDownload : Z := 1073741824.
Definition tempTries : nat := Z.to_nat 10000.
Definition adapterDirMode : Z := 488.   (* 0o750 *)

Section install.
Context (fails : nat → bool) (spares : nat → path → bool) (random : nat → string) (follows : path → option inode).
Definition leads_to_dir (p : path) : bool := match follows p with Some i => bool_decide (nd_kind i = KDir) | None => false end.
(** SHA-256 in hex; [url.Parse]'s scheme; [client.Do]; what a tar.gz holds up
    to its end or an error, and a zip. *)
Context (sha256 : string → string) (url_scheme : string → option string) (fetch : string → ferr + response).
Context (tar_entries : string → ferr + (list arEntry * option ferr)) (zip_entries : string → ferr + list arEntry).

(** [O_CREATE|O_TRUNC], not through a symlink: none is extracted. *)
Definition create_trunc (p : path) (mode : Z) : fsM unit := sys fails (fun d =>
  match dk_tree d !! p with
  | Some i => match nd_kind i with
              | KFile => (inr (), at_tree <[p := i <| nd_data := "" |> <| nd_mtime := dk_now d |>]> d)
              | _ => (inl io_error, d)
              end
  | None => if parent_is_dir (dk_tree d) p
            then (inr (), at_tree <[p := mkInode KFile mode (dk_uid d) (dk_now d) ""]> d) else (inl not_there, d)
  end).
(** A directory's entries, under another name. *)
Definition moved (p q : path) (t : tree) : tree :=
  list_to_map ((fun x : path * inode => (q ++ drop (length p) x.1, x.2)) <$> map_to_list (filter (fun x : path * inode => p `prefix_of` x.1) t)).
Definition rename_tree (p q : path) (t : tree) : tree :=
  moved p q t ∪ filter (fun x : path * inode => ¬ p `prefix_of` x.1 ∧ ¬ q `prefix_of` x.1) t.
(** [os.Rename]: a directory over nothing or an empty directory, anything
    else over anything but a directory. *)
Definition rename (p q : path) : fsM unit := sys fails (fun d =>
  let t := dk_tree d in
  match t !! p with
  | None => (inl not_there, d)
  | Some _ =>
    if (if bool_decide (is_dir_at t p) then bool_decide (t !! q = None ∨ is_dir_at t q) else negb (bool_decide (is_dir_at t q))) &&
       bool_decide (¬ p `prefix_of` q) && negb (has_entries t q) && parent_is_dir t q
    then (inr (), at_tree (rename_tree p q) d) else (inl io_error, d)
  end).
(** [os.MkdirTemp] and [os.CreateTemp], whose random text cannot fail. *)
Definition temp_text : fsM string := fun d => (inr (random (dk_calls d)), next_call d).
Definition temp_name (make : path → fsM unit) (parent : path) (prefix : string) : fsM path :=
  attempts tempTries
    (b ← temp_text;
     let p := parent ++ [prefix +:+ b] in
     r ← trying (make p);
     match r with
     | inl e => if bool_decide (fe_cause e = Exist) then mret None else throw e
     | inr _ => mret (Some p)
     end)
    (plain_error "names taken").

Abbreviation MkdirAll p := (mkdir_all fails leads_to_dir [] p adapterDirMode).
Definition writeFile (p : path) (e : arEntry) (mode : Z) : fsM unit :=
  _ ← MkdirAll (removelast p);
  _ ← create_trunc p mode;
  _ ← write_file fails p (en_data e);
  if en_cut e then throw (plain_error "broken archive") else mret ().
Definition join_or_fail (dir : path) (name : string) : fsM path :=
  match safeJoin dir name with Some p => mret p | None => throw (plain_error "archive entry escapes the target directory") end.
Definition tar_entry (dir : path) (e : arEntry) : fsM unit :=
  p ← join_or_fail dir (en_name e);
  match en_type e with
  | TypeDir => MkdirAll p
  | TypeReg => writeFile p e (Z.land (en_mode e) 511)
  | TypeOther => mret ()
  end.
Definition extractTarGz (archive dir : path) : fsM unit :=
  data ← read_file fails archive;
  match tar_entries data with
  | inl e => throw e
  | inr (l, last) => _ ← each (tar_entry dir) l; match last with Some e => throw e | None => mret () end
  end.
Definition zip_entry (dir : path) (e : arEntry) : fsM unit :=
  p ← join_or_fail dir (en_name e);
  match en_type e with
  | TypeDir => MkdirAll p
  | _ =>
    let mode := Z.land (en_mode e) 511 in
    if negb (en_opens e) then throw (plain_error "broken archive") else writeFile p e (Z.lor (if mode =? 0 then 420 else mode) 64)
  end.
Definition extractZip (archive dir : path) : fsM unit :=
  data ← read_file fails archive;
  match zip_entries data with inl e => throw e | inr l => each (zip_entry dir) l end.

(** [defer]: whatever comes of it, then. *)
Definition deferring {A} (after : fsM unit) (m : fsM A) : fsM A :=
  r ← trying m; _ ← trying after; match r with inr a => mret a | inl e => throw e end.
Definition unpack (m : Manifest) (d : Download) (archive parent dir : path) : fsM unit :=
  staging ← wrapping "create staging directory" (temp_name (fun p => mkdir fails p 448) parent ("." +:+ mf_Name m +:+ "-"));
  deferring (remove_all fails spares staging)
    (_ ← wrapping "extract" (if dl_Archive d =?s archiveZip then extractZip archive staging else extractTarGz archive staging);
     wrapping "install" (rename (if dl_Root d =?s "" then staging else below staging (dl_Root d)) dir)).

(** [io.LimitReader]: no more than [n] bytes. *)
Definition limited (n : Z) (s : string) : string := stake (Z.to_nat (Z.min n (slen s))) s.
(** [copyVerified] *)
Definition limit_of (d : Download) : Z := if 0 <? dl_Size d then dl_Size d else maxDownload.
Definition copyVerified (f : path) (rs : response) (d : Download) : fsM unit :=
  let most := wrap64 (limit_of d + 1) in
  let read := limited most (rs_body rs) in
  _ ← write_file fails f read;
  if rs_broken rs && (slen (rs_body rs) <? most) then throw (plain_error "the connection broke")
  else if limit_of d <? slen read then throw (plain_error "larger than expected")
  else if negb (sha256 read =?s dl_SHA256 d) then throw (plain_error "not the pinned sha256")
  else mret ().
Definition download (d : Download) (dir : path) : fsM path :=
  if negb (bool_decide (url_scheme (dl_URL d) = Some "https"%string)) then throw (plain_error "only https URLs are fetched")
  else
    match fetch (dl_URL d) with
    | inl e => throw (wrap "download" e)
    | inr rs =>
      if negb (rs_ok rs) then throw (plain_error "download: an error status")
      else
        f ← wrapping "create download file" (temp_name (fun p => create_excl fails p 384) dir ".download-");
        _ ← undoing fails f (wrapping "download" (copyVerified f rs d));
        mret f
    end.

(** [os.Stat]: [follows] is what a symlink leads to. *)
Definition stat (p : path) : fsM inode :=
  i ← lstat fails p;
  match nd_kind i with
  | KLink => match follows p with Some j => mret j | None => throw not_there end
  | _ => mret i
  end.
Definition is_there (p : path) : fsM bool := r ← trying (stat p); mret (match r with inr _ => true | inl _ => false end).
Definition install (m : Manifest) (platform : string) (dir : path) : fsM path :=
  let '(goos, goarch) := match cut_at slash platform with Some x => x | None => (platform, ""%string) end in
  match DownloadFor m goos goarch with
  | None => throw (plain_error "no prebuilt release")
  | Some d =>
    if (ad_Runtime (mf_Adapter m) =?s RuntimeNative) && is_abs (ad_Entry (mf_Adapter m)) then throw (plain_error "there is nothing to install")
    else
      let entry := installedEntryFor m dir goos in
      there ← is_there entry;
      if there : bool then mret entry
      else
        let parent := removelast dir in
        _ ← wrapping "create adapter directory" (MkdirAll parent);
        archive ← download d parent;
        deferring (remove fails archive)
          (_ ← unpack m d archive parent dir;
           there ← is_there entry;
           if there : bool then mret entry
           else _ ← trying (remove_all fails spares dir); throw (plain_error "installed archive has no entry"))
  end.
Definition InstallFor (data : option path) (host : string) (m : Manifest) (platform : string) : fsM path :=
  match InstallDirFor data host m platform with None => throw (plain_error "no directory") | Some dir => install m platform dir end.
(** [InstalledFor]: a regular file where the entry is installed. *)
Definition InstalledFor (data : option path) (host : string) (m : Manifest) (platform : string) : fsM (path * path) :=
  match InstallDirFor data host m platform with
  | None => throw (plain_error "no directory")
  | Some dir =>
    let goos := match cut_at slash platform with Some (g, _) => g | None => platform end in
    let entry := installedEntryFor m dir goos in
    r ← trying (stat entry);
    match r with
    | inr i => match nd_kind i with KFile => mret (dir, entry) | _ => throw (plain_error "not installed") end
    | inl _ => throw (plain_error "not installed")
    end
  end.
End install.

(** [trustChecker.check] (trust_unix.go): why a file is not trusted. *)
Definition trustChecker_check (uid : Z) (i : inode) : option string :=
  if negb (nd_uid i =? uid) then Some "owned by another user"%string
  else if negb (Z.land (nd_mode i) 18 =? 0) then Some "writable by others"%string else None.

(** ** Where an archive's entries go *)

(** [below] is [Join]. *)
Lemma below_elems dir name :
  Forall (fun x => plain_elem x = true) dir → dir ≠ [] → elems (("/" +:+ join "/" dir) +:+ "/" +:+ name) = below dir name.
Proof.
  intros Hd Hne. unfold elems, below. change (is_abs _) with true.
  change (split_on slash (("/" +:+ join "/" dir) +:+ "/" +:+ name)) with (""%string :: split_on slash (join "/" dir +:+ String slash name)).
  assert (split_on slash (join "/" dir +:+ String slash name) = dir ++ split_on slash name) as ->
    by (apply (split_on_join_app slash); [exact Hne|by apply plain_no_slash]).
  cbn [fold_left]. change (clean_step true [] ""%string) with ([] : list string).
  rewrite fold_left_app, (fold_clean_plain true dir), app_nil_r by done. done.
Qed.
Lemma below_plain dir name es : es ≠ [] → Forall (fun x => plain_elem x = true) es → name = join "/" es → below dir name = dir ++ es.
Proof.
  intros Hne Hes ->. unfold below. rewrite split_join by (done || by apply plain_no_slash). rewrite fold_clean_plain by done.
  by rewrite rev_app_distr, !rev_involutive.
Qed.
Lemma below_root dir root : checkRelative root = None → dir `prefix_of` below dir root.
Proof.
  intros [->|(es & Hne & Hes & ->)]%relative_plain; [unfold below; cbn; by rewrite rev_involutive|].
  erewrite below_plain by done. by apply prefix_app_r.
Qed.
Lemma safeJoin_inside dir name p : safeJoin dir name = Some p → dir `prefix_of` p.
Proof. unfold safeJoin. case_bool_decide; [|done]. by intros [= <-]. Qed.

(** ** A directory, moved *)

Lemma moved_lookup (p q : path) (t : tree) (k : path) :
  moved p q t !! k = if decide (q `prefix_of` k) then t !! (p ++ drop (length q) k) else None.
Proof.
  unfold moved. set (B := filter (fun x : path * inode => p `prefix_of` x.1) t).
  assert (HB : ∀ r i, t !! (p ++ r) = Some i ↔ (p ++ r, i) ∈ map_to_list B).
  { intros r i. rewrite elem_of_map_to_list. unfold B. rewrite map_lookup_filter_Some. split; [|by intros []]. intros H. split; [done|]. by apply prefix_app_r. }
  assert (Hsh : ∀ x, x ∈ map_to_list B → ∃ r, x.1 = p ++ r).
  { intros [k' i] Hx. apply elem_of_map_to_list, map_lookup_filter_Some in Hx as [_ [r Hr]]. by exists r. }
  assert (Hnd : NoDup (((fun x : path * inode => (q ++ drop (length p) x.1, x.2)) <$> map_to_list B).*1)).
  { rewrite <- list_fmap_compose. apply NoDup_fmap_2_strong; [|apply NoDup_map_to_list]. intros [k1 i1] [k2 i2] H1 H2 E. cbn in E.
    destruct (Hsh _ H1) as [r1 E1], (Hsh _ H2) as [r2 E2]. cbn in E1, E2. subst. rewrite !drop_app_length in E. apply app_inv_head in E as ->.
    apply elem_of_map_to_list in H1, H2. congruence. }
  apply option_eq. intros i. rewrite <- elem_of_list_to_map by done. rewrite list_elem_of_fmap. split.
  - intros ([k' j] & [= -> ->] & Hx). destruct (Hsh _ Hx) as [r Hr]. cbn in Hr. subst k'. rewrite drop_app_length.
    rewrite decide_True by (by apply prefix_app_r). rewrite drop_app_length. by apply HB.
  - destruct (decide _) as [[r ->]|]; [|done]. rewrite drop_app_length. intros Hi. exists (p ++ r, i). cbn [fst snd]. rewrite drop_app_length.
    split; [done|]. by apply HB.
Qed.
Lemma rename_lookup (p q : path) (t : tree) (k : path) :
  rename_tree p q t !! k = if decide (q `prefix_of` k) then t !! (p ++ drop (length q) k) else if decide (p `prefix_of` k) then None else t !! k.
Proof.
  unfold rename_tree. rewrite lookup_union, moved_lookup, map_lookup_filter. destruct (decide (q `prefix_of` k)) as [Hq|Hq].
  - destruct (t !! (p ++ _)); [by rewrite union_Some_l|]. rewrite (left_id None union). destruct (t !! k); [|done]. cbn.
    rewrite option_guard_False; [done|]. by intros [].
  - rewrite (left_id None union). destruct (t !! k); cbn; [|by destruct (decide _)]. destruct (decide (p `prefix_of` k)).
    + rewrite option_guard_False; [done|]. by intros [].
    + by rewrite option_guard_True.
Qed.
Lemma rename_wf (p q : path) (t : tree) : wf_tree t → ¬ p `prefix_of` q → parent_is_dir t q = true → wf_tree (rename_tree p q t).
Proof.
  intros Hwf Hpq Hpar k n [i Hi]. rewrite rename_lookup in Hi. unfold is_dir_at, kind_at. rewrite rename_lookup.
  destruct (decide (q `prefix_of` k ++ [n])) as [Hq|Hq].
  - destruct (decide (q `prefix_of` k)) as [[r ->]|Hk].
    + rewrite <- app_assoc, drop_app_length in Hi. rewrite drop_app_length. rewrite app_assoc in Hi. apply (Hwf (p ++ r) n). by exists i.
    + assert (k ++ [n] = q) as <-.
      { destruct Hq as [r Hr]. destruct r as [|a r _] using rev_ind; [by rewrite app_nil_r in Hr|]. rewrite app_assoc in Hr.
        apply app_inj_tail in Hr as [-> _]. destruct Hk. by apply prefix_app_r. }
      rewrite decide_False; [|intros Hp; apply Hpq; by apply prefix_app_r]. unfold parent_is_dir in Hpar.
      destruct (k ++ [n]) eqn:E; [done|]. rewrite <- E, removelast_last in Hpar. by apply bool_decide_eq_true in Hpar.
  - rewrite decide_False by (intros Hk; apply Hq; by apply prefix_app_r).
    destruct (decide (p `prefix_of` k ++ [n])) as [|Hp]; [done|]. rewrite decide_False by (intros Hk; apply Hp; by apply prefix_app_r).
    apply (Hwf k n). by exists i.
Qed.

(** ** What installing may change *)

Section safety.
Context (fails : nat → bool) (spares : nat → path → bool) (random : nat → string) (follows : path → option inode).
(** [t0]: the files before; [dir] is [v] in [parent]. *)
Context (t0 : tree) (parent : path) (v : string).
Hypothesis (t0_wf : wf_tree t0) (v_plain : has_prefix "." v = false).
Abbreviation dir := (parent ++ [v]).
Context (all_well : Prop).
Hypothesis (well : all_well → ∀ n, fails n = false).

(** What was there is as it was, but for [dir]; what is new leads to the
    parent directory, or is in [R]. *)
Definition kept (R : path → Prop) (t : tree) : Prop :=
  (∀ q, q ≠ dir → is_Some (t0 !! q) → t !! q = t0 !! q) ∧
  (∀ q, t0 !! q = None → is_Some (t !! q) → q `prefix_of` parent ∨ R q).
Definition sound (R : path → Prop) (t : tree) : Prop := wf_tree t ∧ kept R t.
Lemma kept_more (R R' : path → Prop) t : (∀ q, R q → R' q) → kept R t → kept R' t.
Proof. intros H [H1 H2]. split; [done|]. intros q Hq Hs. destruct (H2 q Hq Hs); auto. Qed.
Lemma sound_more (R R' : path → Prop) t : (∀ q, R q → R' q) → sound R t → sound R' t.
Proof. intros H [Hw Hk]. split; [done|by eapply kept_more]. Qed.

Lemma sound_new R t p i :
  sound R t → t !! p = None → parent_is_dir t p = true → p `prefix_of` parent ∨ R p → sound R (<[p:=i]> t).
Proof.
  intros (Hwf & H1 & H2) Hn Hp HR. split; [by apply wf_new|]. split.
  - intros q Hq Hs. rewrite lookup_insert_ne; [by apply H1|]. intros <-. destruct Hs as [j Hj]. rewrite (H1 p Hq) in Hn; [congruence|by exists j].
  - intros q Hq Hs. destruct (decide (p = q)) as [<-|Hne]; [done|]. rewrite lookup_insert_ne in Hs by done. by apply H2.
Qed.
Lemma sound_own R t p i j :
  sound R t → t !! p = Some j → nd_kind i = nd_kind j → t0 !! p = None → sound R (<[p:=i]> t).
Proof.
  intros (Hwf & H1 & H2) Hp Hk H0. split; [by eapply wf_same_kind|]. split.
  - intros q Hq Hs. rewrite lookup_insert_ne; [by apply H1|]. intros <-. rewrite H0 in Hs. by destruct Hs.
  - intros q Hq Hs. destruct (decide (p = q)) as [<-|Hne]; [|rewrite lookup_insert_ne in Hs by done; by apply H2].
    apply H2; [done|by exists j].
Qed.
(** Nothing was below what was not there. *)
Lemma none_below p : t0 !! p = None → ∀ q, p `prefix_of` q → t0 !! q = None.
Proof.
  intros Hp q [r ->]. destruct r as [|n r]; [by rewrite app_nil_r|]. apply eq_None_not_Some. intros Hs.
  apply (wf_above t0 p (n :: r)) in Hs; [|done|done]. unfold is_dir_at, kind_at in Hs. by rewrite Hp in Hs.
Qed.

(** *** The calls *)

Lemma mkdir_sound R p mode : p `prefix_of` parent ∨ R p → hoare (sound R) (mkdir fails p mode) (fun _ => sound R) (sound R).
Proof.
  intros HR. apply hoare_sys; [|done]. intros d Hd. destruct (dk_tree d !! p) eqn:E; [done|].
  destruct (parent_is_dir _ _) eqn:Ep; [|done]. cbn. by apply sound_new.
Qed.
Lemma mkdir_all_sound R base rest mode :
  (∀ q, q `prefix_of` base ++ rest → q `prefix_of` parent ∨ R q) →
  hoare (sound R) (mkdir_all fails (leads_to_dir follows) base rest mode) (fun _ => sound R) (sound R).
Proof.
  revert base. induction rest as [|n rest IH]; intros base HR; cbn; [by intros d Hd|].
  eapply hoare_bind; [apply hoare_quiet; auto with quiet|]. intros r. cbn beta. eapply (hoare_bind _ _ _ (fun _ => sound R)).
  - destruct r as [e|i].
    + case_bool_decide; [|by intros d Hd]. apply mkdir_sound, HR. exists rest. by rewrite <- app_assoc.
    + destruct (nd_kind i); try (by intros d Hd). destruct (leads_to_dir _ _); by intros d Hd.
  - intros []. apply IH. intros q Hq. apply HR. by rewrite <- app_assoc in Hq.
Qed.
Lemma create_sound R p mode : p `prefix_of` parent ∨ R p → hoare (sound R) (create_excl fails p mode) (fun _ => sound R) (sound R).
Proof.
  intros HR. apply hoare_sys; [|done]. intros d Hd. destruct (dk_tree d !! p) eqn:E; [done|].
  destruct (parent_is_dir _ _) eqn:Ep; [|done]. cbn. by apply sound_new.
Qed.
Lemma trunc_sound R p mode : R p → t0 !! p = None → hoare (sound R) (create_trunc fails p mode) (fun _ => sound R) (sound R).
Proof.
  intros HR H0. apply hoare_sys; [|done]. intros d Hd. destruct (dk_tree d !! p) as [i|] eqn:E.
  - destruct (nd_kind i) eqn:Ek; try done. cbn. eapply sound_own; [done|exact E|by rewrite Ek|done].
  - destruct (parent_is_dir _ _) eqn:Ep; [|done]. cbn. apply sound_new; auto.
Qed.
Lemma write_sound R p data : t0 !! p = None → hoare (sound R) (write_file fails p data) (fun _ => sound R) (sound R).
Proof.
  intros H0. apply hoare_sys; [|done]. intros d Hd. destruct (dk_tree d !! p) as [i|] eqn:E; [|done].
  destruct (nd_kind i) eqn:Ek; try done. cbn. eapply sound_own; [done|exact E|by rewrite Ek|done].
Qed.
(** A fresh name in the parent directory. *)
Definition fresh (prefix : string) (p : path) : Prop := (∃ b, p = parent ++ [prefix +:+ b]) ∧ t0 !! p = None.
Lemma fresh_not_dir prefix p : has_prefix "." prefix = true → fresh prefix p → p ≠ dir.
Proof.
  intros Hp ((b & ->) & _) E. apply app_inj_tail in E as [_ E]. subst v. by rewrite has_prefix_more in v_plain.
Qed.
Definition with_below (p : path) (R : path → Prop) (q : path) : Prop := R q ∨ p `prefix_of` q.
Definition with_at (p : path) (R : path → Prop) (q : path) : Prop := R q ∨ q = p.
Lemma absent_before R t p : sound R t → t !! p = None → p ≠ dir → t0 !! p = None.
Proof. intros (_ & H1 & _) Hp Hne. apply eq_None_not_Some. intros Hs. rewrite <- (H1 p Hne Hs) in Hs. rewrite Hp in Hs. by destruct Hs. Qed.
(** Made where nothing was. *)
Lemma make_sound (R R' : path → Prop) p (make : path → fsM unit) mode :
  make = (fun p => mkdir fails p mode) ∨ make = (fun p => create_excl fails p mode) → (∀ q, R q → R' q) → R' p →
  hoare (sound R) (make p) (fun _ t => (p ≠ dir → t0 !! p = None) ∧ sound R' t) (sound R).
Proof.
  intros Hmake HR Hp. destruct Hmake as [->| ->]; (apply hoare_sys; [|done]); intros d Hd; (destruct (dk_tree d !! p) eqn:E; [done|]);
    (destruct (parent_is_dir _ _) eqn:Ep; [|done]); cbn; (split; [intros Hne; by eapply absent_before|]);
    (apply sound_new; [by eapply sound_more|done|done|by right]).
Qed.
Lemma temp_sound R (RR : path → path → Prop) (make : path → fsM unit) mode prefix :
  make = (fun p => mkdir fails p mode) ∨ make = (fun p => create_excl fails p mode) → has_prefix "." prefix = true →
  (∀ p q, R q → RR p q) → (∀ p, RR p p) →
  hoare (sound R) (temp_name random make parent prefix) (fun p t => fresh prefix p ∧ sound (RR p) t) (sound R).
Proof.
  intros Hmake Hp HR Hpp. apply (hoare_attempts _ _ _ (sound R)); [|done]. eapply (hoare_bind _ _ _ (fun _ => sound R)); [by intros d Hd|]. intros b.
  eapply hoare_bind; [apply hoare_trying, (make_sound R (RR (parent ++ [prefix +:+ b])) _ _ mode); [exact Hmake|apply HR|apply Hpp]|]. intros r. cbn beta. destruct r as [e|[]].
  - case_bool_decide; by intros d Hd.
  - intros d [H0 Hd]. split; [|done]. split; [by exists b|]. apply H0. intros E. apply app_inj_tail in E as [_ E].
    pose proof (has_prefix_more "." prefix b Hp) as Hx. rewrite E in Hx. congruence.
Qed.

(** *** Extraction *)

Section extract.
Context (staging : path) (R : path → Prop) (prefix : string).
Hypothesis (Hfresh : fresh prefix staging) (HR : ∀ q, staging `prefix_of` q → R q).

Lemma staged_path p : staging `prefix_of` p → ∀ q, q `prefix_of` p → q `prefix_of` parent ∨ R q.
Proof.
  intros Hp q Hq. destruct Hfresh as [[b ->] _]. destruct (prefix_weak_total q (parent ++ [prefix +:+ b]) p) as [H|H]; [done|done| |right; by apply HR].
  destruct H as [r Hr]. destruct r as [|x r _] using rev_ind; [rewrite app_nil_r in Hr; right; apply HR; by rewrite Hr|].
  rewrite app_assoc in Hr. apply app_inj_tail in Hr as [-> _]. left. by apply prefix_app_r.
Qed.
Lemma writeFile_sound p e mode : staging `prefix_of` p → hoare (sound R) (writeFile fails follows p e mode) (fun _ => sound R) (sound R).
Proof.
  intros Hp. assert (H0 : t0 !! p = None) by (eapply none_below, Hp; apply Hfresh). unfold writeFile.
  eapply (hoare_bind _ _ _ (fun _ => sound R)); [|intros []].
  { apply mkdir_all_sound. intros q Hq. apply (staged_path p Hp). cbn in Hq. etrans; [exact Hq|]. destruct p as [|x p _] using rev_ind; [done|].
    rewrite removelast_last. by apply prefix_app_r. }
  eapply (hoare_bind _ _ _ (fun _ => sound R)); [by apply trunc_sound; [apply HR|]|intros []].
  eapply (hoare_bind _ _ _ (fun _ => sound R)); [by apply write_sound|intros []]. destruct (en_cut e); by intros d Hd.
Qed.
Lemma join_sound name : hoare (sound R) (join_or_fail staging name) (fun p t => staging `prefix_of` p ∧ sound R t) (sound R).
Proof. unfold join_or_fail. destruct (safeJoin staging name) eqn:E; intros d Hd; [split; [by eapply safeJoin_inside|done]|done]. Qed.
Lemma entry_sound (e : arEntry) (m : path → fsM unit) :
  (∀ p, staging `prefix_of` p → hoare (sound R) (m p) (fun _ => sound R) (sound R)) →
  hoare (sound R) (p ← join_or_fail staging (en_name e); m p) (fun _ => sound R) (sound R).
Proof. intros Hm. eapply hoare_bind; [apply join_sound|]. intros p. cbn beta. apply hoare_pure. intros Hp. by apply Hm. Qed.
Lemma dir_sound p : staging `prefix_of` p → hoare (sound R) (mkdir_all fails (leads_to_dir follows) [] p adapterDirMode) (fun _ => sound R) (sound R).
Proof. intros Hp. apply mkdir_all_sound. intros q Hq. by apply (staged_path p). Qed.
Lemma tar_sound tar_entries archive : hoare (sound R) (extractTarGz fails follows tar_entries archive staging) (fun _ => sound R) (sound R).
Proof.
  unfold extractTarGz. eapply (hoare_bind _ _ _ (fun _ => sound R)); [apply hoare_quiet; auto with quiet|]. intros data.
  destruct (tar_entries data) as [e|[l last]]; [by intros d Hd|]. eapply (hoare_bind _ _ _ (fun _ => sound R)).
  - apply hoare_each. intros e _. apply entry_sound. intros p Hp.
    destruct (en_type e); [by apply dir_sound|by apply writeFile_sound|by intros d Hd].
  - intros []. destruct last; by intros d Hd.
Qed.
Lemma zip_sound zip_entries archive : hoare (sound R) (extractZip fails follows zip_entries archive staging) (fun _ => sound R) (sound R).
Proof.
  unfold extractZip. eapply (hoare_bind _ _ _ (fun _ => sound R)); [apply hoare_quiet; auto with quiet|]. intros data.
  destruct (zip_entries data) as [e|l]; [by intros d Hd|]. apply hoare_each. intros e _. apply entry_sound. intros p Hp.
  destruct (en_type e); [by apply dir_sound| |]; (destruct (negb _); [by intros d Hd|by apply writeFile_sound]).
Qed.
End extract.

(** Into place: a directory of the staging one. *)
Definition empty_before : Prop := ∀ n r, t0 !! (dir ++ n :: r) = None.
Lemma rename_sound (R R' : path → Prop) staging prefix src :
  fresh prefix staging → staging `prefix_of` src → (∀ q, R q → R' q) → (∀ q, dir `prefix_of` q → R' q) →
  hoare (sound R) (rename fails src dir) (fun _ t => empty_before ∧ sound R' t) (sound R).
Proof.
  intros Hfr Hsrc HRR HR. apply hoare_sys; [|done]. intros d Hd0. cbv zeta. pose proof Hd0 as (Hwf & H1 & H2). destruct (dk_tree d !! src) eqn:E; [|done].
  destruct (_ && _) eqn:Eb; [|done]. apply andb_prop in Eb as [[[_ Hne%bool_decide_eq_true]%andb_prop He%negb_true_iff]%andb_prop Hpar].
  assert (Hempty : empty_before).
  { intros n r. apply eq_None_not_Some. intros Hs.
    assert (Hq : dir ++ n :: r ≠ dir) by (intros Hx; apply (f_equal length) in Hx; rewrite !length_app in Hx; cbn in Hx; lia).
    assert (Hs' : is_Some (dk_tree d !! (dir ++ n :: r))) by (by rewrite (H1 _ Hq Hs)).
    assert (Hn : n ∈ names_in dir (dk_tree d)).
    { apply names_in_spec. destruct r as [|m r]; [exact Hs'|]. assert (Hx : is_dir_at (dk_tree d) (dir ++ [n])).
      { apply (wf_above _ _ (m :: r)); [exact Hwf|discriminate|]. rewrite <- (app_assoc dir [n]). exact Hs'. }
      unfold is_dir_at, kind_at in Hx. apply fmap_Some in Hx as (j & Hj & _). by exists j. }
    unfold has_entries in He. destruct (names_in dir (dk_tree d)); [by apply not_elem_of_nil in Hn|done]. }
  cbn. split; [exact Hempty|]. split; [by apply rename_wf|]. split.
  - intros q Hq Hs. rewrite rename_lookup. destruct (decide (dir `prefix_of` q)) as [[r ->]|Hnd].
    + exfalso. destruct r as [|n r]; [by rewrite app_nil_r in Hq|]. rewrite (Hempty n r) in Hs. by destruct Hs.
    + destruct (decide (src `prefix_of` q)) as [Hsq|]; [|by apply H1]. exfalso.
      assert (t0 !! q = None) as Hn; [|rewrite Hn in Hs; by destruct Hs]. eapply none_below; [apply Hfr|by etrans].
  - intros q Hq Hs. destruct (decide (dir `prefix_of` q)) as [Hdq|Hdq]; [right; by apply HR|].
    rewrite rename_lookup in Hs. rewrite decide_False in Hs by done. destruct (decide (src `prefix_of` q)); [by destruct Hs|].
    destruct (H2 q Hq Hs); auto.
Qed.

(** *** What is removed again *)

(** What a failed removal may leave. *)
Definition left_over (q : path) : Prop := ¬ all_well ∧ parent `prefix_of` q.
Section removal.
Context (R : path → Prop).
Hypothesis (HR : ∀ q, left_over q → R q).

Lemma failed_call d (P : Prop) : (¬ all_well → P) → fails (dk_calls d) = true → P.
Proof. intros H Hf. apply H. intros Hw. by rewrite well in Hf. Qed.
Lemma archive_removed prefix f E :
  has_prefix "." prefix = true → fresh prefix f → (∀ q, R q → f `prefix_of` q → ¬ all_well) →
  hoare (kept (with_at f R)) (trying (remove fails f)) (fun _ => kept R) E.
Proof.
  intros Hp Hf Hsep d [H1 H2]. pose proof Hf as [[b Hb] H0]. unfold trying, remove, sys.
  assert (Hpar : parent `prefix_of` f) by (rewrite Hb; by apply prefix_app_r).
  assert (Hall : ∀ t, (∀ q, q ≠ f → t !! q = dk_tree d !! q) → (is_Some (t !! f) → ¬ all_well) → kept R t).
  { intros t Ht Hfl. split.
    - intros q Hq Hs. rewrite Ht; [by apply H1|]. intros ->. rewrite H0 in Hs. by destruct Hs.
    - intros q Hq Hs. destruct (decide (q = f)) as [->|Hne]; [right; apply HR; split; [by apply Hfl|done]|].
      rewrite Ht in Hs by done. destruct (H2 q Hq Hs) as [|[|]]; [by left|by right|done]. }
  destruct (fails (dk_calls d)) eqn:Ef; [apply Hall; [done|]; intros _ Hw; by rewrite well in Ef|]. cbn.
  destruct (dk_tree d !! f) eqn:E1; [|apply Hall; [done|]; intros Hs; cbn in Hs; rewrite E1 in Hs; by destruct Hs].
  destruct (has_entries (dk_tree d) f) eqn:Ee; cbn.
  - apply Hall; [done|]. intros _. unfold has_entries in Ee. destruct (names_in f (dk_tree d)) as [|n l] eqn:En; [done|].
    assert (Hs : is_Some (dk_tree d !! (f ++ [n]))) by (apply names_in_spec; rewrite En; by left).
    assert (Hq : f `prefix_of` f ++ [n]) by (by apply prefix_app_r).
    destruct (H2 (f ++ [n])) as [Hx|[Hx|Hx]]; [by eapply none_below, Hq|done| | |].
    + exfalso. assert (f ++ [n] `prefix_of` f) by (by etrans). by apply (prefix_snoc_not f n).
    + by eapply Hsep.
    + exfalso. apply (f_equal length) in Hx. rewrite length_app in Hx. cbn in Hx. lia.
  - apply Hall; [intros q Hq; by rewrite lookup_delete_ne|]. rewrite lookup_delete_eq. by intros [].
Qed.
(** A directory with all in it: nothing of it was there but [dir]. *)
Lemma tree_removed p E :
  parent `prefix_of` p → (∀ q, p `prefix_of` q → q ≠ dir → t0 !! q = None) →
  hoare (kept (with_below p R)) (trying (remove_all fails spares p)) (fun _ => kept R) E.
Proof.
  intros Hpar H0 d [H1 H2]. unfold trying, remove_all.
  assert (Hall : ∀ keep, (¬ all_well ∨ ∀ q, keep q = false) → kept R (keeping keep p (dk_tree d))).
  { intros keep Hk. split.
    - intros q Hq Hs. rewrite keeping_lookup, decide_True; [by apply H1|]. left. intros Hpq. rewrite (H0 q Hpq Hq) in Hs. by destruct Hs.
    - intros q Hq Hs. rewrite keeping_lookup in Hs. destruct (decide _) as [Hd|]; [|by destruct Hs].
      destruct (H2 q Hq Hs) as [|[|Hpq]]; [by left|by right|]. right. apply HR. split; [|by etrans].
      destruct Hd as [|Hd]; [done|]. destruct Hk as [|Hk]; [done|]. by rewrite Hk in Hd. }
  destruct (fails (dk_calls d)) eqn:Ef; cbn; apply Hall; [left; intros Hw; by rewrite well in Ef|by right].
Qed.
End removal.

(** *** The steps together *)

Context (sha256 : string → string) (url_scheme : string → option string) (fetch : string → ferr + response).
Context (tar_entries : string → ferr + (list arEntry * option ferr)) (zip_entries : string → ferr + list arEntry).

(** What was kept is the pinned build: all there is, unless the limit is the
    largest integer, past which nothing would be read. *)
Definition pinned (d : Download) (body : string) : Prop :=
  ∃ read, slen read ≤ limit_of d ∧ sha256 read = dl_SHA256 d ∧ (limit_of d < max_int → read = body).
Definition verified (d : Download) : Prop :=
  url_scheme (dl_URL d) = Some "https"%string ∧ ∃ rs, fetch (dl_URL d) = inr rs ∧ rs_ok rs = true ∧ pinned d (rs_body rs).
Lemma limited_all n s : 0 ≤ n → slen (limited (n + 1) s) ≤ n → limited (n + 1) s = s.
Proof.
  unfold limited. intros Hn. set (k := Z.to_nat (Z.min (n + 1) (slen s))). unfold slen in *. rewrite stake_length. intros Hk.
  assert (sdrop k s = ""%string) as E; [|by rewrite <- (stake_sdrop k s) at 2; rewrite E, string_app_nil_r].
  pose proof (f_equal String.length (stake_sdrop k s)) as E. rewrite string_app_length, stake_length in E.
  destruct (sdrop k s); [done|]. cbn [String.length] in E. lia.
Qed.
Lemma copyVerified_spec R f rs d :
  t0 !! f = None → hoare (sound R) (copyVerified fails sha256 f rs d) (fun _ t => pinned d (rs_body rs) ∧ sound R t) (sound R).
Proof.
  intros H0. unfold copyVerified. eapply (hoare_bind _ _ _ (fun _ => sound R)); [by apply write_sound|]. intros [].
  destruct (_ && _); [by intros x Hx|]. destruct (limit_of d <? _) eqn:El; [by intros x Hx|]. destruct (negb _) eqn:Es; [by intros x Hx|].
  intros x Hx. split; [|done]. apply negb_false_iff, String.eqb_eq in Es. apply Z.ltb_ge in El.
  assert (Hl : 0 ≤ limit_of d) by (unfold limit_of, maxDownload; destruct (Z.ltb_spec 0 (dl_Size d)); lia).
  eexists. split; [exact El|]. split; [exact Es|]. intros Hm. assert (E : wrap64 (limit_of d + 1) = limit_of d + 1).
  { apply wrap64_id. unfold min_int, max_int in *. lia. }
  rewrite E in *. by apply limited_all.
Qed.
Lemma undoing_spec {A : Type} (p : path) (m : fsM A) (P : tree → Prop) (Q : A → tree → Prop) (E E' : tree → Prop) :
  hoare P m Q E → hoare E (trying (remove fails p)) (fun _ => E') E' → hoare P (undoing fails p m) Q E'.
Proof.
  intros Hm Hr. unfold undoing. eapply hoare_bind; [by apply hoare_trying|]. intros [e|a]; cbn beta.
  - eapply hoare_bind; [exact Hr|]. intros r. by intros d Hd.
  - by intros d Hd.
Qed.
Lemma deferring_spec {A : Type} (after : fsM unit) (m : fsM A) (P : tree → Prop) (Q Q' : A → tree → Prop) (E E' : tree → Prop) :
  hoare P m Q E → (∀ a, hoare (Q a) (trying after) (fun _ => Q' a) E') → hoare E (trying after) (fun _ => E') E' → hoare P (deferring after m) Q' E'.
Proof.
  intros Hm Hq He. unfold deferring. eapply hoare_bind; [by apply hoare_trying|]. intros [e|a]; cbn beta.
  - eapply hoare_bind; [exact He|]. intros r. by intros d Hd.
  - eapply hoare_bind; [apply Hq|]. intros r. by intros d Hd.
Qed.
Lemma left_over_more p q : left_over q → with_below p left_over q.
Proof. by left. Qed.
Lemma download_spec d :
  hoare (sound left_over) (download fails random sha256 url_scheme fetch d parent)
    (fun f t => (fresh ".download-" f ∧ verified d) ∧ sound (with_at f left_over) t) (kept left_over).
Proof.
  unfold download. case_bool_decide as Hu; cbn [negb]; [|by intros x [_ Hx]]. destruct (fetch (dl_URL d)) as [e|rs] eqn:Ef; [by intros x [_ Hx]|].
  destruct (rs_ok rs) eqn:Eo; cbn [negb]; [|by intros x [_ Hx]].
  eapply hoare_bind.
  { eapply hoare_weaken; [apply hoare_wrapping, (temp_sound left_over (fun f => with_at f left_over) _ 384); [by right|done|by left|by right]|done| |by intros t [_ Hk]].
    intros f t Hx. exact Hx. }
  intros f. cbn beta. apply hoare_pure. intros Hf. eapply hoare_bind.
  - apply (undoing_spec f _ _ (fun _ t => pinned d (rs_body rs) ∧ sound (with_at f left_over) t) (sound (with_at f left_over))).
    + apply hoare_wrapping, copyVerified_spec, Hf.
    + eapply hoare_weaken; [apply (archive_removed left_over (fun _ H => H) ".download-" f (kept left_over)); [done|done|by intros q []]|by intros t [_ Hk]|done|done].
  - intros []. intros x [Hp Hx]. split; [|done]. split; [done|]. split; [done|]. by exists rs.
Qed.
Lemma unpack_spec m d archive R :
  (∀ q, left_over q → R q) → dl_Root d = ""%string ∨ checkRelative (dl_Root d) = None →
  hoare (sound R) (unpack fails spares random follows tar_entries zip_entries m d archive parent dir)
    (fun _ t => empty_before ∧ kept (with_below dir R) t) (kept R).
Proof.
  intros HR Hroot. unfold unpack. set (prefix := "." +:+ mf_Name m +:+ "-"). eapply hoare_bind.
  { eapply hoare_weaken; [apply hoare_wrapping, (temp_sound R (fun p => with_below p R) _ 448 prefix); [by left|done|by left|by right]|done| |by intros t [_ Hk]].
    intros p t Hx. exact Hx. }
  intros staging. cbn beta. apply hoare_pure. intros Hf. set (Rs := with_below staging R).
  assert (Hpar : parent `prefix_of` staging) by (destruct Hf as [[b ->] _]; by apply prefix_app_r).
  assert (Hnone : ∀ q, staging `prefix_of` q → t0 !! q = None) by (intros q Hq; eapply none_below, Hq; apply Hf).
  eapply (deferring_spec _ _ _ (fun _ t => empty_before ∧ kept (with_below staging (with_below dir R)) t) _ (kept Rs)).
  - eapply (hoare_bind _ _ _ (fun _ => sound Rs)).
    { assert (Hx : hoare (sound Rs) (if dl_Archive d =?s archiveZip then extractZip fails follows zip_entries archive staging
                                       else extractTarGz fails follows tar_entries archive staging) (fun _ => sound Rs) (sound Rs)).
      { destruct (_ =?s _); [apply (zip_sound staging Rs prefix)|apply (tar_sound staging Rs prefix)]; [done|by right|done|by right]. }
      eapply hoare_weaken; [apply hoare_wrapping, Hx|done|done|by intros t [_ Hk]]. }
    intros []. eapply hoare_weaken; [apply hoare_wrapping, (rename_sound Rs (with_below staging (with_below dir R)) staging prefix); [done| | |]|done| |].
    + destruct Hroot as [->|Hroot]; [done|]. destruct (dl_Root d =?s ""); [done|by apply below_root].
    + intros q [|]; [left; by left|by right].
    + intros q Hq. left. by right.
    + cbn beta. intros _ t [He [_ Hk]]. by split.
    + intros t [_ Hk]. exact Hk.
  - intros []. cbn beta. apply hoare_pure. intros He. eapply hoare_weaken; [apply (tree_removed (with_below dir R)); [|exact Hpar|]| | |].
    + intros q Hq. left. by apply HR.
    + intros q Hq _. by apply Hnone.
    + done.
    + cbn beta. intros _ t Hk. by split.
    + done.
  - apply tree_removed; [exact HR|exact Hpar|]. intros q Hq _. by apply Hnone.
Qed.
Lemma is_there_spec (p : path) (P E : tree → Prop) : hoare P (is_there fails follows p) (fun b t => P t ∧ (b = true → is_Some (t !! p))) E.
Proof.
  intros d Hd. unfold is_there, mbind, fsM_bind. unfold trying. destruct (stat fails follows p d) as [[e|i] d1] eqn:Es; cbn.
  - split; [|done]. assert (Hq : quiet (stat fails follows p)).
    { unfold stat. apply quiet_bind; [auto with quiet|]. intros i. destruct (nd_kind i); try auto with quiet. destruct (follows p); auto with quiet. }
    specialize (Hq d). rewrite Es in Hq. cbn in Hq. by rewrite Hq.
  - change (runs (stat fails follows p) d i d1) in Es. unfold stat in Es. run_parts. apply runs_lstat in H as [Hi Ht].
    assert (Hq : dk_tree d1 = dk_tree x0).
    { destruct (nd_kind x); try by run_parts. destruct (follows p); by run_parts. }
    rewrite Hq, Ht. split; [done|]. intros _. by exists x.
Qed.

Definition goos_of (platform : string) : string * string := match cut_at slash platform with Some x => x | None => (platform, ""%string) end.
Lemma install_spec m platform :
  (∀ d, DownloadFor m (goos_of platform).1 (goos_of platform).2 = Some d → dl_Root d = ""%string ∨ checkRelative (dl_Root d) = None) →
  dir `prefix_of` installedEntryFor m dir (goos_of platform).1 →
  hoare (fun t => t = t0) (install fails spares random follows sha256 url_scheme fetch tar_entries zip_entries m platform dir)
    (fun p t => p = installedEntryFor m dir (goos_of platform).1 ∧ is_Some (t !! p) ∧ kept (with_below dir left_over) t ∧
       (is_Some (t0 !! p) ∨ ∃ d, DownloadFor m (goos_of platform).1 (goos_of platform).2 = Some d ∧ verified d))
    (kept left_over).
Proof.
  intros Hroots Hentry. assert (Hstart : ∀ R, kept R t0) by (intros R; split; [done|]; intros q Hq Hs; rewrite Hq in Hs; by destruct Hs).
  unfold install. unfold goos_of in *. destruct (match cut_at slash platform with Some x => x | None => _ end) as [goos goarch]. cbn [fst snd] in *.
  destruct (DownloadFor m goos goarch) as [d|] eqn:Ed; [|intros x Hx; cbn; rewrite Hx; apply Hstart]. specialize (Hroots d eq_refl).
  destruct (_ && _); [intros x Hx; cbn; rewrite Hx; apply Hstart|]. set (entry := installedEntryFor m dir goos) in *.
  eapply hoare_bind; [apply (is_there_spec entry (fun t => t = t0))|].
  intros [|]; cbn beta.
  { intros x [Hx He]. specialize (He eq_refl). rewrite Hx in He. cbn. rewrite Hx. split_and!; [done|exact He|apply Hstart|left; exact He]. }
  rewrite removelast_last. eapply (hoare_bind _ _ _ (fun _ => sound left_over)).
  { eapply hoare_weaken; [apply hoare_wrapping, (mkdir_all_sound left_over)| | |].
    - intros q Hq. left. exact Hq.
    - intros t [-> _]. split; [exact t0_wf|apply Hstart].
    - done.
    - by intros t [_ Hk]. }
  intros []. eapply hoare_bind; [apply download_spec|]. intros archive. cbn beta. apply hoare_pure. intros [Hf Hv].
  set (Ra := with_at archive left_over). assert (Hne : archive ≠ entry).
  { intros ->. destruct Hf as [[b Hb] _]. rewrite Hb in Hentry. destruct Hentry as [r Hr]. rewrite <- app_assoc in Hr. apply app_inv_head in Hr.
    cbn in Hr. injection Hr as Hr _. assert (Hx : has_prefix "." v = true) by (rewrite <- Hr; reflexivity). congruence. }
  eapply (deferring_spec _ _ _ (fun p t => p = entry ∧ is_Some (t !! entry) ∧ kept (with_at archive (with_below dir left_over)) t) _ (kept Ra)).
  - eapply (hoare_bind _ _ _ (fun _ t => empty_before ∧ kept (with_below dir Ra) t)).
    { eapply hoare_weaken; [apply (unpack_spec m d archive Ra); [by left|done]|done|done|done]. }
    intros []. apply hoare_pure. intros He. eapply hoare_bind; [apply (is_there_spec entry (kept (with_below dir Ra)))|].
    assert (Hmove : ∀ t, kept (with_below dir Ra) t → kept (with_at archive (with_below dir left_over)) t).
    { intros t. apply kept_more. intros q [[|]|]; [left; by left|by right|left; by right]. }
    intros [|]; cbn beta.
    + intros x [Hk Hs]. cbn. split_and!; [done|by apply Hs|by apply Hmove].
    + eapply (hoare_bind _ _ _ (fun _ => kept Ra)); [|intros r x Hx; exact Hx]. eapply hoare_weaken; [apply (tree_removed Ra (fun q H => or_introl H) dir (kept Ra))| | |].
      * by apply prefix_app_r.
      * intros q [[|n r] ->] Hq; [by rewrite app_nil_r in Hq|apply He].
      * by intros t [Hk _].
      * done.
      * done.
  - intros p. cbn beta. intros x (-> & Hs & Hk).
    assert (Hr : hoare (kept (with_at archive (with_below dir left_over))) (trying (remove fails archive)) (fun _ => kept (with_below dir left_over)) (kept left_over)).
    { apply (archive_removed _ (fun q H => or_introl H) ".download-"); [done|done|]. intros q [[Hw _]|Hd] Ha; [done|]. exfalso.
      destruct Hf as [[b Hb] _]. rewrite Hb in Ha. destruct Hd as [r1 E1], Ha as [r2 E2]. rewrite E1, <- !app_assoc in E2. apply app_inv_head in E2.
      cbn in E2. injection E2 as E2 _. assert (Hx : has_prefix "." v = true) by (rewrite E2; reflexivity). congruence. }
    specialize (Hr x Hk). destruct (tries (remove fails archive) x) as (r & d' & Er). unfold runs in Er. rewrite Er in *.
    assert (Hd' : dk_tree d' !! entry = dk_tree x !! entry).
    { apply runs_trying in Er. destruct r as [e|u]; [by rewrite (failed_remove _ _ _ _ _ Er)|]. apply runs_remove in Er as (_ & _ & ->).
      by rewrite lookup_delete_ne. }
    split_and!; [done|by rewrite Hd'|done|]. right. by exists d.
  - apply (archive_removed left_over (fun _ H => H) ".download-"); [done|done|by intros q []].
Qed.
End safety.

(** C22: installing an adapter, whatever the download holds and whichever
    calls fail. Everything that was there is as it was, except an empty
    directory where the adapter goes. When it fails, nothing new is left but
    the directories on the way there and, if some call failed, files
    beside it. When it succeeds the adapter's entry is there, and it was there
    before or the pinned download was fetched over HTTPS, of the pinned
    digest and no longer than its size; nothing is new but its directory,
    those on the way and, if some call failed, files beside it. No
    archive writes anywhere else, whatever its entries' names. *)
Theorem install_safe (fails : nat → bool) (spares : nat → path → bool) random follows sha256 url_scheme fetch tar_entries zip_entries
    m platform (parent : path) (v : string) (d : disk) :
  wf_tree (dk_tree d) → has_prefix "." v = false →
  (∀ dl, DownloadFor m (goos_of platform).1 (goos_of platform).2 = Some dl → dl_Root dl = ""%string ∨ checkRelative (dl_Root dl) = None) →
  (parent ++ [v]) `prefix_of` installedEntryFor m (parent ++ [v]) (goos_of platform).1 →
  let left_over := left_over parent (∀ n, fails n = false) in
  match install fails spares random follows sha256 url_scheme fetch tar_entries zip_entries m platform (parent ++ [v]) d with
  | (inr p, d') =>
    p = installedEntryFor m (parent ++ [v]) (goos_of platform).1 ∧ is_Some (dk_tree d' !! p) ∧
    kept (dk_tree d) parent v (with_below (parent ++ [v]) left_over) (dk_tree d') ∧
    (is_Some (dk_tree d !! p) ∨
     ∃ dl, DownloadFor m (goos_of platform).1 (goos_of platform).2 = Some dl ∧ verified sha256 url_scheme fetch dl)
  | (inl _, d') => kept (dk_tree d) parent v left_over (dk_tree d')
  end.
Proof.
  intros Hwf Hv Hroots Hentry left.
  pose proof (install_spec fails spares random follows (dk_tree d) parent v Hwf Hv (∀ n, fails n = false) (fun H => H)
    sha256 url_scheme fetch tar_entries zip_entries m platform Hroots Hentry d eq_refl) as H.
  by destruct (install _ _ _ _ _ _ _ _ _ _ _ _ d) as [[e|p] d'].
Qed.


(** A debugger in a zip, with an entry that would climb out and is never
    reached. *)
Definition tools_disk : disk :=
  mkDisk (list_to_map [([], plain_dir); (["tools"%string], plain_dir); (["tools"; "x"]%string, plain_file 420 "mine")]) 0 5 1000.
Definition dlv_zip : list arEntry :=
  [mkArEntry "dlv/bin/" TypeDir 493 "" false true; mkArEntry "dlv/bin/dlv" TypeReg 0 "ELF" false true;
   mkArEntry "dlv/README" TypeReg 420 "text" false true].
Definition sample_install (zip : list arEntry) : disk → (ferr + path) * disk :=
  install never (fun _ _ => true) (fun n => itoa (Z.of_nat n)) (fun _ => None) (fun _ => join "" (repeat "ab" 32)) (fun _ => Some "https"%string)
    (fun _ => inr (mkResponse true "zip" false)) (fun _ => inl io_error) (fun _ => inr zip) go_manifest "linux/amd64"
    ["tools"; "delve"; "1.26.0"]%string.
Lemma tools_wf : wf_tree (dk_tree tools_disk).
Proof. apply wf_checked. vm_compute. reflexivity. Defined.
Lemma dlv_roots dl : DownloadFor go_manifest (goos_of "linux/amd64").1 (goos_of "linux/amd64").2 = Some dl → dl_Root dl = ""%string ∨ checkRelative (dl_Root dl) = None.
Proof.
  assert (H : match DownloadFor go_manifest (goos_of "linux/amd64").1 (goos_of "linux/amd64").2 with
              | Some dl => checkRelative (dl_Root dl) = None | None => True end) by (vm_compute; reflexivity).
  intros E. rewrite E in H. by right.
Defined.
Lemma dlv_entry : (["tools"; "delve"]%string ++ ["1.26.0"%string]) `prefix_of`
  installedEntryFor go_manifest (["tools"; "delve"]%string ++ ["1.26.0"%string]) (goos_of "linux/amd64").1.
Proof. eexists ["dlv"%string]. vm_compute. reflexivity. Defined.
Example install_safe_witness :
  (∃ d', sample_install dlv_zip tools_disk = (inr ["tools"; "delve"; "1.26.0"; "dlv"]%string, d') ∧
    dk_tree d' !! ["tools"; "delve"; "1.26.0"; "dlv"]%string = Some (mkInode KFile 484 1000 5 "ELF") ∧
    dk_tree d' !! ["tools"; "x"]%string = Some (plain_file 420 "mine")) ∧
  ∃ e d', sample_install (mkArEntry "../../x" TypeReg 420 "evil" false true :: dlv_zip) tools_disk = (inl e, d') ∧
    dk_tree d' !! ["tools"; "x"]%string = Some (plain_file 420 "mine").
Proof.
  pose proof (fun zip => install_safe never (fun _ _ => true) (fun n => itoa (Z.of_nat n)) (fun _ => None) (fun _ => join "" (repeat "ab"%string 32))
    (fun _ => Some "https"%string) (fun _ => inr (mkResponse true "zip" false)) (fun _ => inl io_error) (fun _ => inr zip) go_manifest "linux/amd64"
    ["tools"; "delve"]%string "1.26.0" tools_disk tools_wf eq_refl dlv_roots
    dlv_entry) as Hsafe.
  cbv zeta in Hsafe. change (["tools"; "delve"]%string ++ ["1.26.0"%string]) with ["tools"; "delve"; "1.26.0"]%string in Hsafe. split.
  - specialize (Hsafe dlv_zip). change (install _ _ _ _ _ _ _ _ _ _ _ _ _) with (sample_install dlv_zip tools_disk) in Hsafe.
    assert (E : match sample_install dlv_zip tools_disk with
                | (inr _, d') => dk_tree d' !! ["tools"; "delve"; "1.26.0"; "dlv"]%string = Some (mkInode KFile 484 1000 5 "ELF") | _ => False end)
      by (vm_compute; reflexivity).
    destruct (sample_install dlv_zip tools_disk) as [[e|p] d']; [destruct E|]. destruct Hsafe as (-> & _ & [Hk _] & _).
    exists d'. split; [reflexivity|]. split; [exact E|]. rewrite Hk; [vm_compute; reflexivity|discriminate|vm_compute; by eexists].
  - specialize (Hsafe (mkArEntry "../../x" TypeReg 420 "evil" false true :: dlv_zip)).
    change (install _ _ _ _ _ _ _ _ _ _ _ _ _) with (sample_install (mkArEntry "../../x" TypeReg 420 "evil" false true :: dlv_zip) tools_disk) in Hsafe.
    assert (E : match sample_install (mkArEntry "../../x" TypeReg 420 "evil" false true :: dlv_zip) tools_disk with (inl _, _) => True | _ => False end)
      by (vm_compute; exact I).
    destruct (sample_install _ tools_disk) as [[e|p] d']; [|destruct E]. destruct Hsafe as [Hk _].
    exists e, d'. split; [reflexivity|]. rewrite Hk; [vm_compute; reflexivity|discriminate|vm_compute; by eexists].
Defined.

(** Validation takes any version of letters, digits and dots: with "..",
    the directory is that of all adapters. *)
Lemma version_escapes : let m := go_manifest <| mf_Version := ".."%string |> in
  validate any_url any_glob m = None ∧ InstallDirFor (Some ["home"; "tools"]%string) "linux/amd64" m "linux/amd64" = Some ["home"; "tools"]%string.
Proof. split; vm_compute; reflexivity. Qed.
