(* ===== verification/Dotnet.v ===== *)
(** * Finding a .NET adapter and its runtime (internal/adapters/dotnet.go)

    An adapter that is a .dll runs on the dotnet host: which .dll, which host
    and which runtime. What the system answers is [dotnetEnv], as in the
    code. [resolve_newest]: what is resolved, and when. *)

From S2P Require Import Prelude GoStrings GoPath Docker Manifest Validate Discovery.
From Stdlib Require Import Ascii Bool.
Open Scope Z_scope.

Definition netCoreApp : string := "Microsoft.NETCore.App".

Record DotnetRuntime := mkDotnet { dr_Host : string; dr_Entry : string; dr_Source : string; dr_Runtime : string }.
Definition FoundEnv : string := "env".
Definition FoundInstalled : string := "installed".

(** [de_stat]: why not, or whether it is a regular file; [de_listRuntimes]:
    what [host --list-runtimes] prints, in a directory. *)
Record dotnetEnv := mkDotnetEnv {
  de_getenv : string → string; de_lookPath : string → option string; de_stat : string → string + bool;
  de_userHomeDir : option string; de_dataDir : option string; de_listRuntimes : string → string → string + string }.

(** ** Versions *)

(** What [netCoreVersions] reads of a line. *)
Definition version_of (line : string) : option string :=
  match fields line with
  | name :: v :: _ => if (name =?s netCoreApp) && bool_decide (is_Some (majorMinor v)) then Some v else None
  | _ => None
  end.
Definition netCoreVersions (out : string) : list string :=
  fold_left (fun versions line => match version_of line with
                                  | Some v => if bool_decide (v ∈ versions) then versions else versions ++ [v]
                                  | None => versions
                                  end) (split_on "010" out) [].

(** The loop over a part's digits, in [int]. *)
Fixpoint digits_of (n : Z) (p : string) : Z :=
  match p with
  | String c t => if is_digit c then digits_of (wrap64 (n * 10 + (byte_of c - 48))) t else n
  | EmptyString => n
  end.
(** [SplitN] of three and the numbers of what there is. *)
Definition splitVersion (v : string) : list Z * string :=
  let '(core, pre) := match cut_at "-" v with Some x => x | None => (v, ""%string) end in
  match split_on "." core with
  | a :: b :: c :: _ => ([digits_of 0 a; digits_of 0 b; digits_of 0 c], pre)
  | [a; b] => ([digits_of 0 a; digits_of 0 b; 0], pre)
  | [a] => ([digits_of 0 a; 0; 0], pre)
  | [] => ([0; 0; 0], pre)
  end.
(** [slices.Compare] *)
Fixpoint compare_list (a b : list Z) : comparison :=
  match a, b with
  | [], [] => Eq
  | [], _ => Lt
  | _, [] => Gt
  | x :: a, y :: b => match x ?= y with Eq => compare_list a b | c => c end
  end.
Definition compare_pre (a b : string) : comparison :=
  if a =?s b then Eq else if a =?s "" then Gt else if b =?s "" then Lt else String.compare a b.
Definition compare_keys (a b : list Z * string) : comparison :=
  match compare_list a.1 b.1 with Eq => compare_pre a.2 b.2 | c => c end.
Definition compareVersions (a b : string) : comparison := compare_keys (splitVersion a) (splitVersion b).
Definition newestAtLeast (versions : list string) (minimum : string) : string :=
  fold_left (fun best v =>
    if versionAtLeast v minimum && ((best =?s "") || bool_decide (compareVersions v best = Gt)) then v else best) versions ""%string.

(** ** Where *)

Definition dotnetInstallHint (m : Manifest) : string :=
  let ways :=
    match mf_Install m with
    | Some _ => ["run 'eyedbg adapters install " +:+ mf_Name m +:+ "' (downloads " +:+ mf_Name m +:+ " " +:+ mf_Version m +:+ " once)"]%string
    | None => []
    end ++
    (if ad_Env (mf_Adapter m) =?s "" then []
     else ["set " +:+ ad_Env (mf_Adapter m) +:+ " to its " +:+ Base (ad_Entry (mf_Adapter m)) +:+ " for the daemon"]%string) in
  match ways with [] => "see 'eyedbg adapters ls'" | _ => join ", or " ways end.

(** A missing .dll is [ErrNotInstalled] in the chain. *)
Inductive resolved := Resolved (rt : DotnetRuntime) | NotInstalled (why : string) | Unresolved (why : Error) | NotDotnet.

Section resolve_dotnet.
Context (e : dotnetEnv).

Definition exists_ (p : string) : bool := match de_stat e p with inr _ => true | inl _ => false end.
Definition findHost : result string :=
  let name := "dotnet"%string in
  if negb (de_getenv e "DOTNET_HOST_PATH" =?s "") then Ok (de_getenv e "DOTNET_HOST_PATH")
  else match de_lookPath e name with
  | Some p => Ok p
  | None =>
    let root := de_getenv e "DOTNET_ROOT" in
    let candidates := (if root =?s "" then [] else [Join root name]) ++
                      match de_userHomeDir e with Some home => [Join3 home ".dotnet" name] | None => [] end in
    match List.find exists_ candidates with
    | Some c => Ok c
    | None => Err (NewError CodeAdapterMissing "the dotnet host was not found")
    end
  end.

(** Why a file is no .dll. *)
Definition checkEntry (p : string) : option string :=
  if negb (map_bytes lower_ascii (Ext p) =?s ".dll") then Some "not a .dll"%string
  else match de_stat e p with
       | inl why => Some ("not found: " +:+ why)%string
       | inr regular => if regular : bool then None else Some "not a file"%string
       end.

(** [entry]: the .dll and where it was found; [None]: not installed. *)
Definition entry (m : Manifest) : result (option (string * string)) :=
  let v := ad_Env (mf_Adapter m) in
  let p := if v =?s "" then ""%string else de_getenv e v in
  if negb (p =?s "") then
    match checkEntry p with
    | Some why => Err (NewError CodeAdapterMissing (v +:+ "=" +:+ p +:+ ": " +:+ why))
    | None => Ok (Some (p, FoundEnv))
    end
  else match de_dataDir e with
  | None => Ok None
  | Some data =>
    let p := installedEntry m (Join3 data (mf_Name m) (mf_Version m)) in
    match de_stat e p with inr true => Ok (Some (p, FoundInstalled)) | _ => Ok None end
  end.

Definition resolve_host (m : Manifest) (minRuntime dll source : string) : resolved :=
  match findHost with
  | Err why => Unresolved why
  | Ok host =>
    match de_listRuntimes e host (Dir dll) with
    | inl why => Unresolved (NewError CodeAdapterMissing (host +:+ " --list-runtimes failed: " +:+ why))
    | inr out =>
      let versions := netCoreVersions out in
      let best := newestAtLeast versions minRuntime in
      if best =?s "" then
        let found := match versions with [] => "none"%string | _ => join ", " versions end in
        Unresolved (NewError CodeAdapterMissing
          (mf_Name m +:+ " " +:+ mf_Version m +:+ " needs the .NET " +:+ minRuntime +:+ "+ runtime, and " +:+ host +:+ " has " +:+ netCoreApp +:+ " " +:+ found))
      else Resolved (mkDotnet host dll source best)
    end
  end.
Definition resolveDotnet (m : Manifest) : resolved :=
  match mf_Dotnet m with
  | Some minRuntime =>
    if negb (ad_Runtime (mf_Adapter m) =?s RuntimeDotnet) then NotDotnet
    else match entry m with
         | Err why => Unresolved why
         | Ok None => NotInstalled (mf_Name m +:+ " is not installed")
         | Ok (Some (dll, source)) => resolve_host m minRuntime dll source
         end
  | None => NotDotnet
  end.
End resolve_dotnet.

(** ** The order of versions *)

(** A comparison that orders. *)
Class Orders {A : Type} (cmp : A → A → comparison) : Prop := {
  orders_refl x : cmp x x = Eq;
  orders_eq x y : cmp x y = Eq → x = y;
  orders_sym x y : cmp y x = CompOpp (cmp x y);
  orders_trans x y z : cmp x y = Lt → cmp y z = Lt → cmp x z = Lt }.

#[global] Instance Z_orders : Orders Z.compare.
Proof.
  split; [apply Z.compare_refl|apply Z.compare_eq|intros; apply Z.compare_antisym|].
  intros x y z. rewrite !Z.compare_lt_iff. lia.
Qed.
#[global] Instance list_orders : Orders compare_list.
Proof.
  split.
  - induction x as [|a x IH]; cbn; [done|]. by rewrite Z.compare_refl.
  - induction x as [|a x IH]; intros [|b y]; cbn; try done. destruct (Z.compare_spec a b) as [->| |]; try done. intros H. f_equal. by apply IH.
  - induction x as [|a x IH]; intros [|b y]; cbn; try done. rewrite (Z.compare_antisym a b). destruct (a ?= b); cbn; auto.
  - induction x as [|a x IH]; intros [|b y] [|c z]; cbn; try done. destruct (Z.compare_spec a b) as [->|Hab|]; try done.
    + destruct (b ?= c); try done. apply IH.
    + intros _. destruct (Z.compare_spec b c) as [->|Hbc|]; try done; intros _; by rewrite (proj2 (Z.compare_lt_iff _ _)) by lia.
Qed.
(** Bytes, one by one. *)
Definition text_bytes (s : string) : list Z := byte_of <$> String.list_ascii_of_string s.
Lemma string_compare_bytes a b : String.compare a b = compare_list (text_bytes a) (text_bytes b).
Proof.
  revert b. induction a as [|c a IH]; intros [|d b]; cbn; try done. rewrite IH.
  assert (Ascii.compare c d = (byte_of c ?= byte_of d)) as -> by (unfold Ascii.compare, byte_of; by rewrite N2Z.inj_compare). done.
Qed.
Lemma text_bytes_inj a b : text_bytes a = text_bytes b → a = b.
Proof.
  intros H. apply String.compare_eq_iff. rewrite string_compare_bytes, H. apply orders_refl.
Qed.
#[global] Instance string_orders : Orders String.compare.
Proof.
  split; intros *; rewrite !string_compare_bytes; [apply orders_refl| |apply orders_sym|apply orders_trans].
  intros H. by apply text_bytes_inj, orders_eq.
Qed.
#[global] Instance pre_orders : Orders compare_pre.
Proof.
  unfold compare_pre. split.
  - intros x. by rewrite String.eqb_refl.
  - intros x y. destruct (String.eqb_spec x y); [done|]. destruct (x =?s ""), (y =?s ""); try done. apply orders_eq.
  - intros x y. rewrite (String.eqb_sym y x). destruct (String.eqb_spec x y) as [|Hne]; [done|].
    destruct (String.eqb_spec x ""), (String.eqb_spec y ""); subst; try done. apply orders_sym.
  - intros x y z. destruct (String.eqb_spec x y) as [|Hxy]; [done|]. destruct (String.eqb_spec y z) as [|Hyz]; [done|].
    destruct (String.eqb_spec x "") as [|Hx]; [done|]. destruct (String.eqb_spec y "") as [|Hy]; [done|].
    destruct (String.eqb_spec z "") as [->|Hz]; [by destruct (String.eqb_spec x "")|].
    destruct (String.eqb_spec x z) as [->|]; [|apply orders_trans]. intros H1 H2. by rewrite (orders_sym z y), H1 in H2.
Qed.
#[global] Instance keys_orders : Orders compare_keys.
Proof.
  unfold compare_keys. split.
  - intros x. by rewrite !orders_refl.
  - intros [a p] [b q]; cbn. destruct (compare_list a b) eqn:E; try done. apply orders_eq in E as ->. intros H%orders_eq. by subst.
  - intros x y. rewrite (orders_sym x.1 y.1). destruct (compare_list x.1 y.1); cbn; [apply orders_sym|done|done].
  - intros [a p] [b q] [c r]; cbn. destruct (compare_list a b) eqn:E1; try done.
    + apply orders_eq in E1 as ->. destruct (compare_list b c); try done. apply orders_trans.
    + intros _. destruct (compare_list b c) eqn:E2; try done.
      * apply orders_eq in E2 as ->. by rewrite E1.
      * intros _. by rewrite (orders_trans _ _ _ E1 E2).
Qed.
(** No later than. *)
Definition no_newer (a b : string) : Prop := compareVersions a b ≠ Gt.
#[global] Instance no_newer_preorder : PreOrder no_newer.
Proof.
  unfold no_newer, compareVersions. split; [intros a; by rewrite orders_refl|]. intros a b c.
  generalize (splitVersion a) (splitVersion b) (splitVersion c). clear a b c. intros x y z H1 H2 H3.
  destruct (compare_keys x y) eqn:E1; [apply orders_eq in E1; by subst| |done].
  destruct (compare_keys y z) eqn:E2; [apply orders_eq in E2; subst; congruence| |done].
  by rewrite (orders_trans _ _ _ E1 E2) in H3.
Qed.
Lemma no_newer_total a b : no_newer a b ∨ no_newer b a.
Proof.
  unfold no_newer, compareVersions. rewrite (orders_sym (splitVersion a) (splitVersion b)).
  destruct (compare_keys _ _); cbn; by (left + right).
Qed.

(** ** The newest that is new enough *)

Definition listed (out v : string) : Prop := ∃ line, line ∈ split_on "010" out ∧ version_of line = Some v.
Lemma netCoreVersions_spec out : NoDup (netCoreVersions out) ∧ ∀ v, v ∈ netCoreVersions out ↔ listed out v.
Proof.
  unfold netCoreVersions, listed. generalize (split_on "010" out) as lines. intros lines.
  assert (H : ∀ l, NoDup l → let r := fold_left (fun versions line => match version_of line with
      | Some v => if bool_decide (v ∈ versions) then versions else versions ++ [v] | None => versions end) lines l in
      NoDup r ∧ ∀ v, v ∈ r ↔ v ∈ l ∨ ∃ line, line ∈ lines ∧ version_of line = Some v).
  { induction lines as [|line lines IH]; intros l Hl; cbn.
    - split; [done|]. intros v. split; [by left|]. intros [|(x & Hx & _)]; [done|]. by apply not_elem_of_nil in Hx.
    - assert (Hstep : NoDup (match version_of line with Some v => if bool_decide (v ∈ l) then l else l ++ [v] | None => l end) ∧
        ∀ v, v ∈ (match version_of line with Some v => if bool_decide (v ∈ l) then l else l ++ [v] | None => l end) ↔ v ∈ l ∨ version_of line = Some v).
      { destruct (version_of line) as [w|]; [|split; [done|]; intros v; naive_solver]. case_bool_decide as Hw.
        - split; [done|]. intros v. split; [by left|]. by intros [|[= <-]].
        - split; [apply NoDup_app; repeat split; [done| |apply NoDup_singleton]|].
          + intros x Hx ->%list_elem_of_singleton. done.
          + intros v. rewrite elem_of_app, list_elem_of_singleton. naive_solver. }
      destruct Hstep as [Hn Hv]. destruct (IH _ Hn) as [Hn' Hv']. split; [exact Hn'|]. intros v. rewrite Hv', Hv. split.
      + intros [[|]|(x & Hx & E)]; [by left|right; exists line; split; [by left|done]|right; exists x; split; [by right|done]].
      + intros [|(x & [->|Hx]%elem_of_cons & E)]; eauto. }
  destruct (H [] (NoDup_nil_2)) as [Hn Hv]. split; [exact Hn|]. intros v. rewrite Hv. split; [intros [Hx|]; [by apply not_elem_of_nil in Hx|done]|by right].
Qed.

(** The newest of [versions]; nothing: none is new enough. *)
Definition newest (fits : string → Prop) (v : string) : Prop := fits v ∧ ∀ w, fits w → no_newer w v.
Lemma newestAtLeast_spec versions minimum :
  let fits v := v ∈ versions ∧ versionAtLeast v minimum = true in
  let best := newestAtLeast versions minimum in
  if best =?s "" then ∀ v, ¬ fits v else newest fits best.
Proof.
  cbv zeta. unfold newestAtLeast. induction versions as [|v l IH] using rev_ind; cbn.
  - intros v [Hv _]. by apply not_elem_of_nil in Hv.
  - rewrite fold_left_app. cbn [fold_left]. set (best := fold_left _ l _) in *. destruct (versionAtLeast v minimum) eqn:Ev; cbn [andb].
    + assert (Hne : (v =?s "") = false) by (apply String.eqb_neq; by intros ->).
      destruct (String.eqb_spec best "") as [Eb|Eb]; cbn [orb].
      * rewrite Hne. split; [split; [rewrite elem_of_app, list_elem_of_singleton; by right|done]|].
        intros w [[Hw| ->%list_elem_of_singleton]%elem_of_app Hm]; [by destruct (IH w)|done].
      * destruct IH as [[Hb Hm] Hmax]. case_bool_decide as Hc.
        -- rewrite Hne. split; [split; [rewrite elem_of_app, list_elem_of_singleton; by right|done]|].
           intros w [[Hw| ->%list_elem_of_singleton]%elem_of_app Hwm]; [|done]. etrans; [by apply Hmax|].
           destruct (no_newer_total v best) as [H|H]; [by destruct (H Hc)|done].
        -- rewrite (proj2 (String.eqb_neq best "")) by done. split; [split; [by apply elem_of_app; left|done]|].
           intros w [[Hw| ->%list_elem_of_singleton]%elem_of_app Hwm]; [by apply Hmax|done].
    + destruct (String.eqb_spec best "") as [Eb|Eb].
      * intros w [[Hw| ->%list_elem_of_singleton]%elem_of_app Hwm]; [by destruct (IH w)|congruence].
      * destruct IH as [[Hb Hm] Hmax]. split; [split; [by apply elem_of_app; left|done]|].
        intros w [[Hw| ->%list_elem_of_singleton]%elem_of_app Hwm]; [by apply Hmax|congruence].
Qed.
(** Suffixes are compared as text: the ninth preview is newer than the tenth. *)
Lemma previews_as_text : newestAtLeast ["10.0.0-preview.9"; "10.0.0-preview.10"]%string "10.0" = "10.0.0-preview.9"%string.
Proof. vm_compute. reflexivity. Qed.

(** ** What is resolved *)

Section resolve_dotnet_spec.
Context (e : dotnetEnv) (m : Manifest).

Definition regular (p : string) : Prop := de_stat e p = inr true.
(** The adapter's variable, when it has one that is set. *)
Definition named : string := let v := ad_Env (mf_Adapter m) in if v =?s "" then ""%string else de_getenv e v.
Definition dll_ok (p : string) : Prop := map_bytes lower_ascii (Ext p) = ".dll"%string ∧ regular p.
Definition installed_at (p : string) : Prop := ∃ data, de_dataDir e = Some data ∧ p = installedEntry m (Join3 data (mf_Name m) (mf_Version m)) ∧ regular p.
Definition dll_at (dll source : string) : Prop :=
  (named ≠ "" ∧ dll = named ∧ dll_ok dll ∧ source = FoundEnv) ∨ (named = ""%string ∧ installed_at dll ∧ source = FoundInstalled).
Lemma entry_spec :
  match entry e m with
  | Ok (Some (dll, source)) => dll_at dll source
  | Ok None => named = ""%string ∧ ∀ p, ¬ installed_at p
  | Err why => e_code why = CodeAdapterMissing ∧ named ≠ "" ∧ ¬ dll_ok named
  end.
Proof.
  unfold entry. fold named. unfold dll_at. cbv zeta. destruct (String.eqb_spec named "") as [E|E]; cbn [negb].
  - destruct (de_dataDir e) as [data|] eqn:Ed.
    + destruct (de_stat e (installedEntry m (Join3 data (mf_Name m) (mf_Version m)))) as [why|[]] eqn:Es;
        try (split; [done|]; intros p (x & Hx & -> & Hr); unfold regular in Hr; congruence).
      right. split; [done|]. split; [|done]. by exists data.
    + split; [done|]. intros p (x & Hx & _). congruence.
  - unfold checkEntry, dll_ok, regular. destruct (String.eqb_spec (map_bytes lower_ascii (Ext named)) ".dll") as [Hx|Hx]; cbn [negb].
    + destruct (de_stat e named) as [why|[]] eqn:Es; [split; [done|]; split; [done|]; intros []; congruence|by left|split; [done|]; split; [done|]; intros []; congruence].
    + split; [done|]. split; [done|]. by intros [].
Qed.

(** The host: the variable's, that on PATH, or one of two places. *)
Definition host_place (p : string) : Prop :=
  (de_getenv e "DOTNET_ROOT" ≠ "" ∧ p = Join (de_getenv e "DOTNET_ROOT") "dotnet") ∨
  ∃ home, de_userHomeDir e = Some home ∧ p = Join3 home ".dotnet" "dotnet".
Definition host_at (p : string) : Prop :=
  let v := de_getenv e "DOTNET_HOST_PATH" in
  if decide (v = ""%string) then
    match de_lookPath e "dotnet" with Some q => p = q | None => host_place p ∧ exists_ e p = true end
  else p = v.
Lemma findHost_spec :
  match findHost e with Ok p => host_at p | Err why => e_code why = CodeAdapterMissing ∧ ∀ p, ¬ host_at p end.
Proof.
  unfold findHost, host_at. cbv zeta. destruct (decide (de_getenv e "DOTNET_HOST_PATH" = ""%string)) as [E|E].
  - rewrite (proj2 (String.eqb_eq _ _) E). cbn [negb]. destruct (de_lookPath e "dotnet") as [p|]; [done|]. set (places := _ ++ _).
    assert (Hp : ∀ p, p ∈ places ↔ host_place p).
    { intros p. unfold places, host_place. rewrite elem_of_app. destruct (String.eqb_spec (de_getenv e "DOTNET_ROOT") "") as [Er|Er];
        destruct (de_userHomeDir e) as [h|]; rewrite ?list_elem_of_singleton, ?elem_of_nil; naive_solver. }
    destruct (List.find (exists_ e) places) as [p|] eqn:Ef.
    + apply find_some in Ef as [Hi Hx]. split; [|done]. apply Hp. by apply list_elem_of_In.
    + split; [done|]. intros p [Hpl Hx]. apply Hp, list_elem_of_In in Hpl. apply (find_none _ _ Ef) in Hpl. congruence.
  - by rewrite (proj2 (String.eqb_neq _ _) E).
Qed.

Definition runtime_fits (out minRuntime v : string) : Prop := listed out v ∧ versionAtLeast v minRuntime = true.

(** An adapter resolves to its .dll, the dotnet host and the newest
    runtime that host lists and the manifest allows; it fails only when one
    of them is missing, and says so. *)
Theorem resolve_newest :
  match resolveDotnet e m with
  | Resolved rt =>
    ad_Runtime (mf_Adapter m) = RuntimeDotnet ∧ dll_at (dr_Entry rt) (dr_Source rt) ∧ host_at (dr_Host rt) ∧
    ∃ minRuntime out, mf_Dotnet m = Some minRuntime ∧ de_listRuntimes e (dr_Host rt) (Dir (dr_Entry rt)) = inr out ∧
      newest (runtime_fits out minRuntime) (dr_Runtime rt)
  | NotInstalled _ => named = ""%string ∧ ∀ p, ¬ installed_at p
  | Unresolved why =>
    e_code why = CodeAdapterMissing ∧
    ((named ≠ "" ∧ ¬ dll_ok named) ∨ (∀ p, ¬ host_at p) ∨
     ∃ dll source host minRuntime, dll_at dll source ∧ host_at host ∧ mf_Dotnet m = Some minRuntime ∧
       ∀ out v, de_listRuntimes e host (Dir dll) = inr out → ¬ runtime_fits out minRuntime v)
  | NotDotnet => ad_Runtime (mf_Adapter m) ≠ RuntimeDotnet ∨ mf_Dotnet m = None
  end.
Proof.
  unfold resolveDotnet. destruct (mf_Dotnet m) as [minRuntime|] eqn:Em; [|by right].
  destruct (String.eqb_spec (ad_Runtime (mf_Adapter m)) RuntimeDotnet) as [Er|Er]; cbn [negb]; [|by left].
  pose proof entry_spec as He. destruct (entry e m) as [[[dll source]|]|why]; [|done|destruct He as [Hc He]; split; [done|by left]].
  unfold resolve_host. pose proof findHost_spec as Hh. destruct (findHost e) as [host|why]; [|destruct Hh as [Hc Hh]; split; [done|]; right; by left].
  destruct (de_listRuntimes e host (Dir dll)) as [why|out] eqn:El.
  { split; [done|]. right; right. exists dll, source, host, minRuntime. split; [done|]. split; [done|]. split; [done|]. congruence. }
  pose proof (newestAtLeast_spec (netCoreVersions out) minRuntime) as Hn. cbv zeta in Hn. pose proof (proj2 (netCoreVersions_spec out)) as Hl.
  destruct (_ =?s "").
  - split; [done|]. right; right. exists dll, source, host, minRuntime. split; [done|]. split; [done|]. split; [done|].
    intros out' v E [Hv Hm]. rewrite El in E. injection E as <-. apply (Hn v). split; [by apply Hl|done].
  - cbn. split; [done|]. split; [done|]. split; [done|]. exists minRuntime, out. split; [done|]. split; [done|].
    destruct Hn as [[Hv Hm] Hmax]. split; [split; [by apply Hl|done]|]. intros w [Hw Hwm]. apply Hmax. split; [by apply Hl|done].
Qed.
End resolve_dotnet_spec.

(** A host with three runtimes. *)
Example resolve_sample :
  let e := mkDotnetEnv (fun v => if v =?s "SHARP" then "/opt/sharp/Sharp.DLL" else "") (fun _ => Some "/usr/bin/dotnet"%string) (fun _ => inr true) None None
    (fun _ _ => inr (join (String "010" "") ["Microsoft.NETCore.App 8.0.28 [/usr/share/dotnet]"; "Microsoft.AspNetCore.App 11.0.0 [/x]";
      "Microsoft.NETCore.App 10.0.0-rc.1 [/y]"; "Microsoft.NETCore.App 10.0.0 [/y]"; ""]%string)) in
  let m := go_manifest <| mf_Adapter := mkAdapter "sharp" "stdio" RuntimeDotnet "Sharp.dll" [] [] "SHARP" false [] |> <| mf_Dotnet := Some "8.0"%string |> in
  resolveDotnet e m = Resolved (mkDotnet "/usr/bin/dotnet" "/opt/sharp/Sharp.DLL" FoundEnv "10.0.0").
Proof. vm_compute. reflexivity. Qed.
