(* ===== verification/FileStore.v ===== *)
(** * The daemon's store of sessions (internal/daemon/store.go)

    A session's metadata and recording are files of one directory. JSON is a
    parameter: what a record is encoded to, and what a text decodes to.
    [store_refines]: the files are a table of sessions and of recordings,
    whatever calls fail. [prune_recordings]: which recordings pruning
    removes. *)

From S2P Require Import Prelude GoStrings Api Exec Files Docker.
From Stdlib Require Import Ascii Bool.

Open Scope Z_scope.

Definition metadataExt : string := ".json".
Definition recordingExt : string := ".jsonl".
Definition metadataVersion : Z := 1.
Definition RecordingMaxAge : Z := 7 * 24 * 3600 * 1000000000.
Definition maxIDLength : Z := 32.

Record metadata := mkMetadata {
  mt_Version : Z; mt_ID : string; mt_Lang : string; mt_Program : string; mt_CreatedAt : Z; mt_DaemonPID : Z;
  mt_State : SessionState; mt_ExitCode : option Z; mt_EndReason : string; mt_Recording : string }.

Definition store_id_byte (c : ascii) : bool := isLowerDigit c || Ascii.eqb c "-".
Definition validID (id : string) : bool := negb ((id =?s "") || (maxIDLength <? slen id)) && all_bytes store_id_byte id.

Definition metadata_of (pid : Z) (info : SessionInfo) : metadata :=
  mkMetadata metadataVersion (i_ID info) (i_Lang info) (i_Program info) (i_CreatedAt info) pid (i_State info) (i_ExitCode info)
    (i_EndReason info) (i_Recording info).
(** The fields of a lost session's [SessionInfo]; the others are zero. *)
Record lostInfo := mkLostInfo {
  lo_ID : string; lo_Lang : string; lo_Program : string; lo_State : SessionState; lo_CreatedAt : Z; lo_ExitCode : option Z;
  lo_EndReason : string; lo_Recording : string }.
Definition info_of (m : metadata) : lostInfo :=
  mkLostInfo (mt_ID m) (mt_Lang m) (mt_Program m) (mt_State m) (mt_CreatedAt m) (mt_ExitCode m) (mt_EndReason m) (mt_Recording m).

(** [errors.Join] *)
Fixpoint join_errors (l : list (ferr + unit)) : option ferr :=
  match l with
  | [] => None
  | inr _ :: l => join_errors l
  | inl e :: l => Some (match join_errors l with None => e | Some e' => mkErr (fe_cause e) (fe_text e +:+ String "010" (fe_text e')) end)
  end.
(** [Time.Sub], to the nearest duration. *)
Definition time_sub (now t : Z) : Z := Z.max min_int (Z.min max_int (now - t)).
Definition name_le (a b : string * ikind) : Prop := String.leb a.1 b.1 = true.
#[global] Instance name_le_dec a b : Decision (name_le a b).
Proof. unfold name_le. apply _. Defined.
Definition tempTries : nat := Z.to_nat 10000.

Section store.
Context (fails : nat → bool) (random : nat → string).
Context (dir : path) (pid : Z) (encode : metadata → option string) (decode : string → option metadata).

Definition file_of (id ext : string) : path := dir ++ [id +:+ ext].
Definition store_path (id ext : string) : fsM path :=
  if validID id then mret (file_of id ext) else throw (plain_error ("invalid session id " +:+ quote id)).

(** [os.CreateTemp] of a pattern with the random text in its middle. *)
Definition CreateTemp (dir : path) (prefix suffix : string) : fsM path :=
  attempts tempTries
    (b ← (fun d => (inr (random (dk_calls d)), next_call d)) : fsM string;
     let p := dir ++ [prefix +:+ b +:+ suffix] in
     r ← trying (create_excl fails p 384);
     match r with
     | inl e => if bool_decide (fe_cause e = Exist) then mret None else throw e
     | inr _ => mret (Some p)
     end)
    (plain_error "names taken").
Definition close : fsM unit := sys fails (fun d => (inr (), d)).
(** [writeFileAtomic] (server.go) *)
Definition writeFileAtomic (dir : path) (base data : string) : fsM unit :=
  tmp ← CreateTemp dir (base +:+ ".") ".tmp";
  w ← trying (write_file fails tmp data);
  c ← trying close;
  h ← trying (chmod fails tmp 384);
  match join_errors [w; c; h] with
  | Some e => _ ← trying (remove fails tmp); throw e
  | None =>
    r ← trying (rename_file fails tmp (dir ++ [base]));
    match r with
    | inr _ => mret ()
    | inl e => _ ← trying (remove fails tmp); throw e
    end
  end.

Definition Save (info : SessionInfo) : fsM unit :=
  _ ← store_path (i_ID info) metadataExt;
  match encode (metadata_of pid info) with
  | None => throw (plain_error "encode session metadata")
  | Some b => wrapping "save session metadata" (writeFileAtomic dir (i_ID info +:+ metadataExt) (b +:+ String "010" ""))
  end.
Definition Remove (id : string) : fsM unit :=
  p ← store_path id metadataExt;
  r ← trying (remove fails p);
  match r with
  | inl e => if bool_decide (fe_cause e = NotExist) then mret () else throw (wrap "remove session metadata" e)
  | inr _ => mret ()
  end.
Definition Record_ (id : string) : fsM path :=
  p ← store_path id recordingExt;
  _ ← wrapping "create recording" (create_excl fails p 384);
  mret p.

(** [os.ReadDir]: sorted, with what each entry is. *)
Definition ReadDir (p : path) : fsM (list (string * ikind)) := sys fails (fun d =>
  match kind_at (dk_tree d) p with
  | None => (inl not_there, d)
  | Some KDir => (inr (merge_sort name_le (omap (fun n => (fun k => (n, k)) <$> kind_at (dk_tree d) (p ++ [n])) (names_in p (dk_tree d)))), d)
  | Some _ => (inl io_error, d)
  end).
(** A regular file of a session, by its extension. *)
Definition session_file (ext : string) (e : string * ikind) : option string :=
  match cut_suffix ext e.1 with
  | Some id => if validID id && bool_decide (e.2 = KFile) then Some id else None
  | None => None
  end.
Definition decode_info (id b : string) : option lostInfo :=
  match decode b with
  | Some m => if (mt_Version m =? metadataVersion) && (mt_ID m =?s id) then Some (info_of m) else None
  | None => None
  end.
Definition read (id : string) : fsM (option lostInfo) :=
  r ← trying (read_file fails (file_of id metadataExt));
  mret (match r with inr b => decode_info id b | inl _ => None end).
Fixpoint read_each (l : list (string * ikind)) : fsM (list lostInfo) :=
  match l with
  | [] => mret []
  | e :: l =>
    match session_file metadataExt e with
    | None => read_each l
    | Some id => r ← read id; out ← read_each l; mret (match r with Some info => info :: out | None => out end)
    end
  end.
Definition Lost : fsM (list lostInfo) :=
  r ← trying (ReadDir dir);
  match r with
  | inl e => if bool_decide (fe_cause e = NotExist) then mret [] else throw (wrap "read sessions directory" e)
  | inr entries => read_each entries
  end.

Definition prune_one (now maxAge : Z) (e : string * ikind) : fsM (ferr + unit) :=
  match session_file recordingExt e with
  | None => mret (inr ())
  | Some id =>
    m ← trying (lstat fails (file_of id metadataExt));
    if match m with inl e => negb (bool_decide (fe_cause e = NotExist)) | inr _ => true end then mret (inr ())
    else
      i ← trying (lstat fails (dir ++ [e.1]));
      match i with
      | inl _ => mret (inr ())
      | inr i =>
        if time_sub now (nd_mtime i) <=? maxAge then mret (inr ())
        else
          r ← trying (remove fails (dir ++ [e.1]));
          mret (match r with inl e => if bool_decide (fe_cause e = NotExist) then inr () else inl e | inr _ => inr () end)
      end
  end.
Fixpoint prune_each (now maxAge : Z) (l : list (string * ikind)) : fsM (list (ferr + unit)) :=
  match l with
  | [] => mret []
  | e :: l => r ← prune_one now maxAge e; rs ← prune_each now maxAge l; mret (r :: rs)
  end.
Definition Prune (now maxAge : Z) : fsM unit :=
  r ← trying (ReadDir dir);
  match r with
  | inl e => if bool_decide (fe_cause e = NotExist) then mret () else throw (wrap "read sessions directory" e)
  | inr entries =>
    errs ← prune_each now maxAge entries;
    match join_errors errs with Some e => throw (wrap "prune recordings" e) | None => mret () end
  end.
End store.

(** ** Names *)

Lemma append_last x y a b : x +:+ String a "" = y +:+ String b "" → a = b.
Proof.
  revert y. induction x as [|c x IH]; intros [|d y]; cbn; intros H; injection H; intros; subst; [done|by destruct y|by destruct x|by eapply IH].
Qed.
Lemma cut_suffix_Some p s x : cut_suffix p s = Some x ↔ s = x +:+ p.
Proof.
  unfold cut_suffix, has_suffix. split.
  - destruct (_ && _) eqn:E; [|done]. intros [= <-]. apply andb_prop in E as [_ E%String.eqb_eq]. rewrite <- E at 2. by rewrite stake_sdrop.
  - intros ->. rewrite string_app_length. replace (_ + _ - _)%nat with (String.length x) by lia.
    pose proof (stake_sdrop (String.length x) (x +:+ p)) as E. rewrite stake_app in E. rewrite stake_app.
    assert (sdrop (String.length x) (x +:+ p) = p) as ->. { clear E. induction x; cbn; auto. }
    rewrite String.eqb_refl. by rewrite (proj2 (Nat.leb_le _ _)) by lia.
Qed.
Lemma session_file_Some ext name k id : session_file ext (name, k) = Some id ↔ name = id +:+ ext ∧ validID id = true ∧ k = KFile.
Proof.
  unfold session_file. cbn. destruct (cut_suffix ext name) as [x|] eqn:E.
  - apply cut_suffix_Some in E as ->. split.
    + destruct (_ && _) eqn:Eb; [|done]. apply andb_prop in Eb as [Hv Hk%bool_decide_eq_true]. by intros [= ->].
    + intros (Heq & Hv & ->). assert (x = id) as ->.
      { assert (Some x = Some id) as [= ->]; [|done]. rewrite <- !(proj2 (cut_suffix_Some ext (x +:+ ext) _)); [done|exact Heq|done]. }
      by rewrite Hv, bool_decide_eq_true_2 by done.
  - split; [done|]. intros (-> & _ & _). by rewrite (proj2 (cut_suffix_Some _ _ _) eq_refl) in E.
Qed.

Section store_spec.
Context (fails : nat → bool) (random : nat → string).
Context (dir : path) (pid : Z) (encode : metadata → option string) (decode : string → option metadata).
Abbreviation meta id := (file_of dir id metadataExt).
Abbreviation recording id := (file_of dir id recordingExt).

Lemma file_of_inj ext id id' : file_of dir id ext = file_of dir id' ext → id = id'.
Proof.
  intros [_ H]%app_inj_tail. assert (Some id = Some id') as [= ->]; [|done].
  rewrite <- !(proj2 (cut_suffix_Some ext (id +:+ ext) _)); [done|exact H|done].
Qed.
Lemma meta_not_recording id id' : meta id ≠ recording id'.
Proof.
  unfold file_of, metadataExt, recordingExt. intros [_ H]%app_inj_tail. change ".json"%string with (".jso" +:+ String "n" "") in H.
  change ".jsonl"%string with (".json" +:+ String "l" "") in H. rewrite <- !string_app_assoc in H. by apply append_last in H.
Qed.
Definition scratch (p : path) : Prop := ∃ x, p = dir ++ [x +:+ ".tmp"].
Lemma scratch_not_meta p id : scratch p → p ≠ meta id.
Proof.
  unfold file_of, metadataExt. intros [x ->] [_ H]%app_inj_tail. change ".json"%string with (".jso" +:+ String "n" "") in H.
  change ".tmp"%string with (".tm" +:+ String "p" "") in H. rewrite <- !string_app_assoc in H. by apply append_last in H.
Qed.
Lemma scratch_not_recording p id : scratch p → p ≠ recording id.
Proof.
  unfold file_of, recordingExt. intros [x ->] [_ H]%app_inj_tail. change ".jsonl"%string with (".json" +:+ String "l" "") in H.
  change ".tmp"%string with (".tm" +:+ String "p" "") in H. rewrite <- !string_app_assoc in H. by apply append_last in H.
Qed.

(** ** The table the files are *)

Definition info_at (t : tree) (id : string) : option lostInfo :=
  if validID id then
    match t !! meta id with
    | Some i => match nd_kind i with KFile => decode_info decode id (nd_data i) | _ => None end
    | None => None
    end
  else None.
(** What the store keeps: what its metadata files say, each metadata file,
    of whatever version, and each recording. *)
Record table := mkTable { tb_sessions : gmap string lostInfo; tb_files : gmap string inode; tb_recordings : gmap string inode }.
Definition kept_at (t : tree) (id ext : string) : option inode := if validID id then t !! file_of dir id ext else None.
Definition represents (M : table) (t : tree) : Prop := ∀ id,
  tb_sessions M !! id = info_at t id ∧ tb_files M !! id = kept_at t id metadataExt ∧ tb_recordings M !! id = kept_at t id recordingExt.
(** A file only its user can read. *)
Definition private (i : inode) : Prop := nd_kind i = KFile ∧ nd_mode i = 384.
(** The store's own files. *)
Definition own (p : path) : Prop := ∃ id, validID id = true ∧ (p = meta id ∨ p = recording id).
(** Other files are as they were, and new ones are scratch files. *)
Definition frame (t0 t : tree) : Prop :=
  (∀ p, ¬ own p → is_Some (t0 !! p) → t !! p = t0 !! p) ∧ (∀ p, ¬ own p → t0 !! p = None → is_Some (t !! p) → scratch p).
Definition stored (t0 : tree) (M : table) (t : tree) : Prop := wf_tree t ∧ represents M t ∧ frame t0 t.

Lemma scratch_not_own p : scratch p → ¬ own p.
Proof. intros Hs (id & _ & [ ->| ->]); [by eapply scratch_not_meta|by eapply scratch_not_recording]. Qed.
Lemma frame_refl t : frame t t.
Proof. split; [done|]. intros p _ H [i Hi]. congruence. Qed.

(** A table follows from the store's own files alone. *)
Lemma represents_same M t t' :
  (∀ id, t' !! meta id = t !! meta id) → (∀ id, t' !! recording id = t !! recording id) → represents M t → represents M t'.
Proof. intros H H' HM id. specialize (HM id). unfold info_at, kept_at in *. by rewrite H, H'. Qed.
Lemma frame_step t0 t t' :
  frame t0 t → (∀ p, ¬ own p → t' !! p = t !! p ∨ (scratch p ∧ t0 !! p = None)) → frame t0 t'.
Proof.
  intros [H1 H2] H. split.
  - intros p Hp Hs. destruct (H p Hp) as [ ->|[_ Hn]]; [by apply H1|]. rewrite Hn in Hs. by destruct Hs.
  - intros p Hp Hn Hs. destruct (H p Hp) as [E|[Hx _]]; [|done]. rewrite E in Hs. by apply H2.
Qed.
Lemma absent_in t0 t p : frame t0 t → scratch p → t !! p = None → t0 !! p = None.
Proof. intros [H1 _] Hs Hn. apply eq_None_not_Some. intros Hx. rewrite <- (H1 p (scratch_not_own p Hs) Hx) in Hx. rewrite Hn in Hx. by destruct Hx. Qed.

(** ** Writing *)

Section writing.
Context (t0 : tree) (M : table).
Abbreviation ok := (stored t0 M).
Lemma put_represents (t : tree) p (i : inode) : scratch p → represents M t → represents M (<[p:=i]> t).
Proof.
  intros Hs. apply represents_same; intros id; apply lookup_insert_ne; [by apply scratch_not_meta|by apply scratch_not_recording].
Qed.
Lemma drop_represents (t : tree) p : scratch p → represents M t → represents M (delete p t).
Proof.
  intros Hs. apply represents_same; intros id; apply lookup_delete_ne; [by apply scratch_not_meta|by apply scratch_not_recording].
Qed.
Lemma ok_put (t : tree) p i : ok t → scratch p → t0 !! p = None → wf_tree (<[p:=i]> t) → ok (<[p:=i]> t).
Proof.
  intros (Hwf & HM & Hf) Hs Hn Hw. split; [done|]. split; [by apply put_represents|].
  eapply frame_step; [exact Hf|]. intros q _. destruct (decide (p = q)) as [<-|]; [by right|]. left. by rewrite lookup_insert_ne.
Qed.
(** A scratch file of the store, and what is known of it. *)
Definition temp (p : path) (data : inode → Prop) (t : tree) : Prop := ok t ∧ ∃ i, t !! p = Some i ∧ nd_kind i = KFile ∧ data i.
Definition holds (s : string) (i : inode) : Prop := nd_data i = s.
Definition scrap (p : path) : Prop := scratch p ∧ t0 !! p = None.
Lemma temp_put (t : tree) p s i j data :
  temp p s t → scrap p → t !! p = Some j → nd_kind i = KFile → data i → temp p data (<[p:=i]> t).
Proof.
  intros [Hok (k & Hk & Hf & _)] [Hs Hn] Hj Hi Hd. split; [|exists i; by rewrite lookup_insert_eq].
  apply ok_put; [done|done|done|]. eapply wf_same_kind; [apply Hok|exact Hj|congruence].
Qed.
Lemma create_temp_spec base :
  hoare ok (CreateTemp fails random dir (base +:+ ".") ".tmp") (fun p t => scrap p ∧ temp p (fun _ => True) t) ok.
Proof.
  apply (hoare_attempts _ _ _ ok); [|done]. eapply (hoare_bind _ _ _ (fun _ => ok)); [by intros d Hd|]. intros b. cbv zeta. set (p := dir ++ _).
  assert (Hs : scratch p) by (exists ((base +:+ ".") +:+ b); unfold p; by rewrite !string_app_assoc).
  eapply (hoare_bind _ _ _ (fun r t => match r with inl _ => ok t | inr _ => scrap p ∧ temp p (fun _ => True) t end)).
  - apply (hoare_trying _ _ (fun _ t => scrap p ∧ temp p (fun _ => True) t)). apply hoare_sys; [|done]. intros d Hd.
    destruct (dk_tree d !! p) eqn:E; [done|]. destruct (parent_is_dir _ _) eqn:Ep; [|done]. cbn. pose proof Hd as (Hwf & _ & Hf).
    assert (Hn : t0 !! p = None) by (by eapply absent_in). split; [done|]. split; [apply ok_put; auto; by apply wf_new|].
    eexists. by rewrite lookup_insert_eq.
  - intros [e|[]]; [case_bool_decide|]; by intros d Hd.
Qed.
Lemma write_temp (p : path) s : scrap p → hoare (temp p (fun _ => True)) (write_file fails p s) (fun _ => temp p (holds s)) (temp p (fun _ => True)).
Proof.
  intros Hp. apply hoare_sys; [|done]. intros d Hd. pose proof Hd as [_ (i & Hi & Hk & _)]. rewrite Hi, Hk. cbn. eapply temp_put; [done|done|exact Hi|done|done].
Qed.
Lemma chmod_temp (p : path) (data : inode → Prop) mode :
  scrap p → (∀ i, data i → data (i <| nd_mode := mode |>)) →
  hoare (temp p data) (chmod fails p mode) (fun _ => temp p (fun i => data i ∧ nd_mode i = mode)) (temp p data).
Proof.
  intros Hp Hm. apply hoare_sys; [|done]. intros d Hd. pose proof Hd as [_ (i & Hi & Hk & Hx)]. rewrite Hi, Hk. cbn.
  eapply temp_put; [done|done|exact Hi|done|split; [by apply Hm|done]].
Qed.
Lemma remove_temp (p : path) (data : inode → Prop) (E : tree → Prop) : scrap p → hoare (temp p data) (trying (remove fails p)) (fun _ => ok) E.
Proof.
  intros [Hs Hn]. eapply hoare_weaken; [apply (hoare_trying _ _ (fun _ => ok) ok)|done|by intros []|done].
  eapply (hoare_weaken (temp p data) _ _ (fun _ => ok) _ (temp p data)); [|done|done|by intros t []]. apply hoare_sys; [|done].
  intros d Hd. pose proof Hd as [Hok (i & Hi & Hk & _)]. pose proof Hok as (Hwf & HM & Hf). rewrite Hi. destruct (has_entries _ _) eqn:He; [done|]. cbn.
  split; [by apply wf_delete|]. split; [by apply drop_represents|].
  eapply frame_step; [exact Hf|]. intros q _. destruct (decide (p = q)) as [<-|]; [by right|]. left. by rewrite lookup_delete_ne.
Qed.

Lemma wf_over (t : tree) (p q : path) i :
  wf_tree t → t !! p = Some i → nd_kind i ≠ KDir → kind_at t q ≠ Some KDir → parent_is_dir t q = true → wf_tree (<[q:=i]> (delete p t)).
Proof.
  intros Hwf Hp Hi Hq Hpar k n Hs. assert (Hd : is_dir_at t k).
  { destruct (decide (k ++ [n] = q)) as [<-|Hne].
    - unfold parent_is_dir in Hpar. destruct (k ++ [n]) eqn:E; [done|]. rewrite <- E, removelast_last in Hpar. by apply bool_decide_eq_true in Hpar.
    - rewrite lookup_insert_ne in Hs by done. destruct (decide (p = k ++ [n])) as [ ->|]; [rewrite lookup_delete_eq in Hs; by destruct Hs|].
      rewrite lookup_delete_ne in Hs by done. by apply (Hwf k n). }
  unfold is_dir_at, kind_at in *. rewrite lookup_insert_ne by (intros ->; congruence). rewrite lookup_delete_ne; [done|].
  intros ->. rewrite Hp in Hd. cbn in Hd. congruence.
Qed.
(** The table with a session's metadata saved. *)
Definition with_session (id : string) (info : lostInfo) (M' : table) : Prop :=
  ∃ i, private i ∧ M' = mkTable (<[id := info]> (tb_sessions M)) (<[id := i]> (tb_files M)) (tb_recordings M).
Definition ready (s : string) (i : inode) : Prop := holds s i ∧ nd_mode i = 384.
Lemma replace_meta (p : path) s id m :
  scrap p → validID id = true → decode s = Some m → mt_Version m = metadataVersion → mt_ID m = id →
  hoare (temp p (ready s)) (rename_file fails p (meta id)) (fun _ t => ∃ M', with_session id (info_of m) M' ∧ stored t0 M' t) (temp p (ready s)).
Proof.
  intros [Hs Hn] Hid Hdec Hv Hm. apply hoare_sys; [|done]. intros d Hd. pose proof Hd as [(Hwf & HM & Hf) (i & Hi & Hk & Hdata & Hmode)]. rewrite Hi.
  destruct (_ || _) eqn:Eb; [done|]. apply orb_false_iff in Eb as [[Hq%bool_decide_eq_false Hpar%negb_false_iff]%orb_false_iff _]. cbn.
  eexists. split; [exists i; split; [done|reflexivity]|].
  split; [apply wf_over; [done|done|congruence|done|done]|]. split.
  - intros id'. destruct (HM id') as (H1 & H2 & H3). unfold info_at, kept_at in *. cbn.
    rewrite (lookup_insert_ne _ (meta id) (recording id')), (lookup_delete_ne _ p (recording id'))
      by (apply meta_not_recording || by apply scratch_not_recording).
    destruct (decide (id = id')) as [<-|Hne].
    + rewrite !lookup_insert_eq, Hid, Hk in *. unfold holds in Hdata. rewrite Hdata. unfold decode_info. rewrite Hdec, Hv, Hm, Z.eqb_refl, String.eqb_refl. done.
    + rewrite !lookup_insert_ne by (done || by intros ?%file_of_inj). rewrite lookup_delete_ne by (by apply scratch_not_meta). done.
  - eapply frame_step; [exact Hf|]. intros q Hq'. destruct (decide (p = q)) as [<-|Hne]; [by right|]. left.
    rewrite lookup_insert_ne; [by rewrite lookup_delete_ne|]. intros <-. apply Hq'. exists id. split; [done|by left].
Qed.
Lemma write_atomic_spec s id m :
  validID id = true → decode s = Some m → mt_Version m = metadataVersion → mt_ID m = id →
  hoare ok (writeFileAtomic fails random dir (id +:+ metadataExt) s) (fun _ t => ∃ M', with_session id (info_of m) M' ∧ stored t0 M' t) ok.
Proof.
  intros Hid Hdec Hv Hm. unfold writeFileAtomic. eapply hoare_bind; [apply create_temp_spec|]. intros tmp. cbn beta. apply hoare_pure. intros Hp.
  eapply hoare_bind; [apply hoare_trying, (write_temp tmp s Hp)|]. intros w. cbn beta.
  set (D := match w with inr _ => holds s | inl _ => fun _ => True end).
  eapply (hoare_bind _ _ _ (fun _ => temp tmp D)).
  { eapply hoare_weaken; [apply hoare_trying, (hoare_sys fails _ (temp tmp D) (fun _ => temp tmp D) (temp tmp D)); [by intros d Hd|done]| | |done].
    - unfold D. by destruct w.
    - by intros []. }
  intros c. cbn beta. assert (HD : ∀ i, D i → D (i <| nd_mode := 384 |>)) by (intros i; unfold D; by destruct w).
  eapply hoare_bind; [apply hoare_trying, (chmod_temp tmp D 384 Hp HD)|].
  intros h. cbn beta. destruct (join_errors _) as [e|] eqn:Ej.
  { eapply (hoare_bind _ _ _ (fun _ => ok)); [|intros r; by intros d Hd]. destruct h; by apply remove_temp. }
  destruct w as [e|[]]; [cbn in Ej; by destruct c, h|]. destruct h as [e|[]]; [cbn in Ej; by destruct c|]. subst D.
  eapply hoare_bind; [apply hoare_trying, (replace_meta tmp s id m Hp Hid Hdec Hv Hm)|]. intros [e|[]]; cbn beta; [|by intros d Hd].
  eapply hoare_bind; [by apply remove_temp|]. intros r. by intros d Hd.
Qed.

(** A record's texts are UTF-8: what [encoding/json] keeps. *)
Definition texts_valid (m : metadata) : Prop :=
  Forall (fun s => valid_utf8 s = true) [mt_ID m; mt_Lang m; mt_Program m; mt_EndReason m; mt_Recording m].
(** A record that was encoded, decoded. *)
Definition json_law : Prop := ∀ m b, texts_valid m → encode m = Some b → decode (b +:+ String "010" "") = Some m.
Definition saved (info : SessionInfo) : lostInfo := info_of (metadata_of pid info).
(** The texts of a session that are saved, but for its id, which is checked. *)
Definition info_valid (info : SessionInfo) : Prop :=
  Forall (fun s => valid_utf8 s = true) [i_Lang info; i_Program info; i_EndReason info; i_Recording info].
Lemma id_utf8 id : validID id = true → valid_utf8 id = true.
Proof.
  unfold validID. intros [_ Ha]%andb_true_iff. enough (∃ l, runes_of id l) as [l Hl] by (by eapply runes_of_valid).
  induction id as [|c id IH]; [exists []; constructor|]. cbn in Ha. apply andb_true_iff in Ha as [Hc Ha]. destruct (IH Ha) as [l Hl].
  exists ((byte_of c, String c "") :: l). apply (ro_cons (String c "")); [|done]. apply encodes_ascii.
  destruct c as [[] [] [] [] [] [] [] []]; vm_compute in Hc |- *; congruence.
Qed.
Lemma Save_spec info :
  json_law → info_valid info →
  hoare ok (Save fails random dir pid encode info)
    (fun _ t => validID (i_ID info) = true ∧ ∃ M', with_session (i_ID info) (saved info) M' ∧ stored t0 M' t) ok.
Proof.
  intros Hjson Ht. unfold Save, store_path. destruct (validID (i_ID info)) eqn:Hid; [|by intros d Hd].
  eapply (hoare_bind _ _ _ (fun _ => ok)); [by intros d Hd|]. intros _. destruct (encode _) as [b|] eqn:Eb; [|by intros d Hd].
  eapply hoare_weaken; [apply hoare_wrapping, (write_atomic_spec _ (i_ID info) (metadata_of pid info)); [done|apply Hjson; [|done]|done|done]|done|by intros []|done].
  apply list.Forall_cons. split; [by apply id_utf8|exact Ht].
Qed.

(** ** Removing, recording, reading *)

Lemma own_meta id : validID id = true → own (meta id).
Proof. intros H. exists id. split; [done|by left]. Qed.
Lemma own_recording id : validID id = true → own (recording id).
Proof. intros H. exists id. split; [done|by right]. Qed.
Definition without_session (id : string) : table := mkTable (delete id (tb_sessions M)) (delete id (tb_files M)) (tb_recordings M).
Lemma Remove_spec id : hoare ok (Remove fails dir id) (fun _ t => validID id = true ∧ stored t0 (without_session id) t) ok.
Proof.
  unfold Remove, store_path. destruct (validID id) eqn:Hid; [|by intros d Hd]. eapply (hoare_bind _ _ _ (fun p t => p = meta id ∧ ok t)); [by intros d Hd|].
  intros p. cbn beta. apply hoare_pure. intros ->. intros d Hd. unfold mbind, fsM_bind, trying, remove, sys. pose proof Hd as (Hwf & HM & Hf).
  destruct (fails (dk_calls d)); [cbn; by rewrite bool_decide_eq_false_2|]. cbn. destruct (dk_tree d !! meta id) as [i|] eqn:E.
  - destruct (has_entries _ _) eqn:He; cbn; [by rewrite bool_decide_eq_false_2|]. split; [done|]. split; [by apply wf_delete|]. split.
    + intros id'. destruct (HM id') as (H1 & H2 & H3). unfold info_at, kept_at in *. cbn.
      rewrite (lookup_delete_ne _ (meta id) (recording id')) by apply meta_not_recording. destruct (decide (id = id')) as [<-|Hne].
      * rewrite Hid in *. rewrite !lookup_delete_eq. by split_and!.
      * by rewrite !lookup_delete_ne by (done || by intros ?%file_of_inj).
    + eapply frame_step; [exact Hf|]. intros q Hq. left. rewrite lookup_delete_ne; [done|]. intros <-. by apply Hq, own_meta.
  - cbn. rewrite bool_decide_eq_true_2 by done. cbn. split; [done|]. split; [done|]. split; [|done]. intros id'.
    destruct (HM id') as (H1 & H2 & H3). cbn. split_and!; [| |done].
    + destruct (decide (id = id')) as [<-|Hne]; [|by rewrite lookup_delete_ne]. rewrite lookup_delete_eq. unfold info_at. by rewrite Hid, E.
    + destruct (decide (id = id')) as [<-|Hne]; [|by rewrite lookup_delete_ne]. rewrite lookup_delete_eq. unfold kept_at. by rewrite Hid, E.
Qed.
(** A recording is new, empty and the user's own. *)
Definition with_recording (id : string) (M' : table) : Prop :=
  tb_recordings M !! id = None ∧ ∃ i, private i ∧ nd_data i = ""%string ∧ M' = mkTable (tb_sessions M) (tb_files M) (<[id := i]> (tb_recordings M)).
Lemma Record_spec id :
  hoare ok (Record_ fails dir id) (fun p t => p = recording id ∧ validID id = true ∧ ∃ M', with_recording id M' ∧ stored t0 M' t) ok.
Proof.
  unfold Record_, store_path. destruct (validID id) eqn:Hid; [|by intros d Hd]. eapply (hoare_bind _ _ _ (fun p t => p = recording id ∧ ok t)); [by intros d Hd|].
  intros p. cbn beta. apply hoare_pure. intros ->. eapply (hoare_bind _ _ _ (fun _ t => ∃ M', with_recording id M' ∧ stored t0 M' t)).
  - apply hoare_wrapping, hoare_sys; [|done]. intros d Hd. pose proof Hd as (Hwf & HM & Hf). destruct (dk_tree d !! _) eqn:E; [done|].
    destruct (parent_is_dir _ _) eqn:Ep; [|done]. cbn. eexists. split.
    { split; [|exists (mkInode KFile 384 (dk_uid d) (dk_now d) ""); done]. destruct (HM id) as (_ & _ & ->). unfold kept_at. by rewrite Hid. }
    split; [by apply wf_new|]. split.
    + intros id'. destruct (HM id') as (H1 & H2 & H3). unfold info_at, kept_at in *. cbn.
      rewrite (lookup_insert_ne _ (recording id) (meta id')) by (apply not_eq_sym, meta_not_recording). split_and!; [done|done|].
      destruct (decide (id = id')) as [<-|Hne]; [by rewrite Hid, !lookup_insert_eq|]. by rewrite !lookup_insert_ne by (done || by intros ?%file_of_inj).
    + eapply frame_step; [exact Hf|]. intros q Hq. left. rewrite lookup_insert_ne; [done|]. intros <-. by apply Hq, own_recording.
  - intros _. by intros d Hd.
Qed.

Lemma quiet_ReadDir (p : path) : quiet (ReadDir fails p).
Proof. intros d. unfold ReadDir, sys. destruct (fails _); [done|]. cbn. by destruct (kind_at _ _) as [[]|]. Qed.
(** *** Listing *)

Abbreviation well := (∀ n, fails n = false).
Lemma decode_info_id id b info : decode_info decode id b = Some info → lo_ID info = id.
Proof.
  unfold decode_info. destruct (decode b) as [m|]; [|done]. destruct (_ && _) eqn:E; [|done]. apply andb_prop in E as [_ E%String.eqb_eq].
  by intros [= <-].
Qed.
Lemma info_at_id t id info : info_at t id = Some info → lo_ID info = id.
Proof.
  unfold info_at. destruct (validID id); [|done]. destruct (t !! _) as [i|]; [|done]. destruct (nd_kind i); try done. apply decode_info_id.
Qed.
Lemma read_spec id d :
  validID id = true → ∃ r d', read fails dir decode id d = (inr r, d') ∧ dk_tree d' = dk_tree d ∧ (r = None ∨ r = info_at (dk_tree d) id) ∧ (well → r = info_at (dk_tree d) id).
Proof.
  intros Hid. unfold read, mbind, fsM_bind, trying, read_file, sys. destruct (fails (dk_calls d)) eqn:Ef; cbn.
  { do 2 eexists. split; [done|]. split; [done|]. split; [by left|]. intros Hw. by rewrite Hw in Ef. }
  unfold info_at. rewrite Hid. destruct (dk_tree d !! meta id) as [i|]; [destruct (nd_kind i)|]; cbn; do 2 eexists; (split; [done|]; split; [done|]; split; [by right|done]).
Qed.
Definition ids (l : list (string * ikind)) : list string := omap (session_file metadataExt) l.
#[local] Arguments session_file : simpl never.
#[local] Arguments ids : simpl never.
Lemma ids_cons e l : ids (e :: l) = match session_file metadataExt e with Some id => id :: ids l | None => ids l end.
Proof. done. Qed.
Lemma read_each_spec l d :
  ∃ out d', read_each fails dir decode l d = (inr out, d') ∧ dk_tree d' = dk_tree d ∧
    out `sublist_of` omap (info_at (dk_tree d)) (ids l) ∧ (well → out = omap (info_at (dk_tree d)) (ids l)).
Proof.
  revert d. induction l as [|[name k] l IH]; intros d; cbn.
  - exists [], d. split; [done|]. split; [done|]. by split; [apply sublist_nil_l|].
  - rewrite ids_cons. destruct (session_file metadataExt (name, k)) as [id|] eqn:E.
    + pose proof (proj1 (session_file_Some _ _ _ _) E) as (_ & Hid & _).
      destruct (read_spec id d Hid) as (r & d1 & E1 & Ht1 & Hr & Hrw). destruct (IH d1) as (out & d2 & E2 & Ht2 & Ho & How).
      unfold mbind, fsM_bind. rewrite E1, E2. do 2 eexists. split; [done|]. rewrite Ht1 in *. split; [done|].
      cbn [omap list_omap].
      split; [|intros Hw; rewrite (Hrw Hw), (How Hw); done]. destruct Hr as [ ->| ->].
      * destruct (info_at _ id); [by apply sublist_cons|done].
      * destruct (info_at _ id); [by apply sublist_skip|done].
    + destruct (IH d) as (out & d2 & E2 & Ht2 & Ho & How). exists out, d2. split; [exact E2|]. by split.
Qed.
Definition entries (t : tree) : list (string * ikind) := omap (fun n => (fun k => (n, k)) <$> kind_at t (dir ++ [n])) (names_in dir t).
Lemma entries_spec t n k : (n, k) ∈ entries t ↔ kind_at t (dir ++ [n]) = Some k.
Proof.
  unfold entries. rewrite list_elem_of_omap. split.
  - intros (m & _ & H). apply fmap_Some in H as (k' & Hk & [= -> ->]). done.
  - intros H. exists n. rewrite H. split; [|done]. apply names_in_spec. unfold kind_at in H. apply fmap_Some in H as (i & Hi & _). by exists i.
Qed.
Lemma ids_spec l id : id ∈ ids l ↔ validID id = true ∧ (id +:+ metadataExt, KFile) ∈ l.
Proof.
  unfold ids. rewrite list_elem_of_omap. split.
  - intros ([name k] & Hx & (-> & Hid & ->)%session_file_Some). done.
  - intros [Hid Hx]. exists (id +:+ metadataExt, KFile). split; [done|]. by apply session_file_Some.
Qed.
Lemma ids_NoDup l : NoDup l.*1 → NoDup (ids l).
Proof.
  induction l as [|[name k] l IH]; cbn; [constructor|]. intros [Hn Hl]%NoDup_cons.
  rewrite ids_cons. destruct (session_file _ _) as [id|] eqn:E; [|by apply IH]. apply session_file_Some in E as (-> & _ & _). constructor; [|by apply IH].
  intros [_ Hx]%ids_spec. apply Hn. apply list_elem_of_fmap. by exists (id +:+ metadataExt, KFile).
Qed.
Lemma entries_NoDup t : NoDup (entries t).*1.
Proof.
  unfold entries. pose proof (names_in_NoDup dir t) as H. induction (names_in dir t) as [|n l IH]; cbn; [constructor|].
  apply NoDup_cons in H as [Hn Hl]. destruct (kind_at t (dir ++ [n])) as [k|]; cbn; [|by apply IH]. constructor; [|by apply IH].
  intros ([m k'] & -> & Hx)%list_elem_of_fmap. apply list_elem_of_omap in Hx as (y & Hy & E). apply fmap_Some in E as (k2 & _ & [= -> ->]). done.
Qed.
(** What is listed is in the table, once; and all of it, when no call fails. *)
Definition lists (l : list lostInfo) : Prop :=
  NoDup (lo_ID <$> l) ∧ (∀ info, info ∈ l → tb_sessions M !! lo_ID info = Some info) ∧ (well → ∀ id info, tb_sessions M !! id = Some info → info ∈ l).
Lemma Lost_spec : hoare ok (Lost fails dir decode) (fun l t => lists l ∧ ok t) ok.
Proof.
  intros d Hd. pose proof Hd as (Hwf & HM & Hf). unfold Lost, mbind at 1, fsM_bind at 1, trying. unfold ReadDir at 1, sys.
  destruct (fails (dk_calls d)) eqn:Ef; [cbn; by rewrite bool_decide_eq_false_2|]. change (dk_tree (next_call d)) with (dk_tree d). destruct (kind_at (dk_tree d) dir) as [[]|] eqn:Ek;
    try (cbn; by rewrite bool_decide_eq_false_2); cbn match.
  - set (l := merge_sort name_le _). destruct (read_each_spec l (next_call d)) as (out & d' & -> & Ht & Ho & How).
    change (dk_tree (next_call d)) with (dk_tree d) in *. rewrite Ht. split; [|done].
    assert (Hp : l ≡ₚ entries (dk_tree d)) by apply merge_sort_Permutation.
    assert (Hids : ∀ xs, (lo_ID <$> omap (info_at (dk_tree d)) xs) `sublist_of` xs).
    { intros xs. induction xs as [|id xs IH]; cbn; [done|]. destruct (info_at (dk_tree d) id) as [info|] eqn:Ev; cbn; [|by apply sublist_cons].
      rewrite (info_at_id _ _ _ Ev). by apply sublist_skip. }
    split; [|split].
    + eapply sublist_NoDup; [|apply (fmap_sublist lo_ID), Ho]. eapply sublist_NoDup; [|apply Hids]. apply ids_NoDup. rewrite Hp. apply entries_NoDup.
    + intros info Hin. eapply elem_of_sublist in Hin; [|exact Ho]. apply list_elem_of_omap in Hin as (id & _ & Hv).
      destruct (HM (lo_ID info)) as (-> & _). by rewrite (info_at_id _ _ _ Hv).
    + intros Hw id info Hi. rewrite (How Hw). rewrite (proj1 (HM id)) in Hi. apply list_elem_of_omap. exists id. split; [|done]. apply ids_spec.
      unfold info_at in Hi. destruct (validID id) eqn:Hid; [|done]. split; [done|]. rewrite Hp. apply entries_spec. unfold kind_at.
      change (dir ++ [id +:+ metadataExt]) with (meta id). destruct (dk_tree d !! meta id) as [i|]; [|done]. cbn. by destruct (nd_kind i).
  - cbn. rewrite bool_decide_eq_true_2 by done. split; [|done]. split; [constructor|]. split; [by intros info ?%not_elem_of_nil|].
    intros _ id info Hi. rewrite (proj1 (HM id)) in Hi. unfold info_at in Hi. destruct (validID id); [|done]. destruct (dk_tree d !! meta id) as [i|] eqn:Em; [|done].
    exfalso. assert (Hs : is_Some (dk_tree d !! (dir ++ [id +:+ metadataExt]))) by (by exists i). apply Hwf in Hs. unfold is_dir_at in Hs. congruence.
Qed.
End writing.
End store_spec.

(** ** What pruning removes *)

Section pruning.
Context (fails : nat → bool) (dir : path) (now maxAge : Z) (t0 : tree).
Abbreviation meta id := (file_of dir id metadataExt).
Abbreviation recording id := (file_of dir id recordingExt).

(** An ended session's recording that is too old. *)
Definition prunable (q : path) : Prop :=
  ∃ id i, q = recording id ∧ validID id = true ∧ t0 !! q = Some i ∧ nd_kind i = KFile ∧ t0 !! meta id = None ∧ maxAge < time_sub now (nd_mtime i).
(** Some of them are gone, those of [gone] among them when no call fails. *)
Definition pruned (gone : path → Prop) (t : tree) : Prop :=
  (∀ q, t !! q = t0 !! q ∨ (prunable q ∧ t !! q = None)) ∧ ((∀ n, fails n = false) → ∀ q, gone q → prunable q → t !! q = None).
Lemma pruned_meta gone t id : pruned gone t → t !! meta id = t0 !! meta id.
Proof. intros [H _]. destruct (H (meta id)) as [|[(id' & i & E & _) _]]; [done|]. by apply meta_not_recording in E. Qed.
Lemma pruned_more (gone gone' : path → Prop) t : (∀ q, gone' q → gone q ∨ ((∀ n, fails n = false) → prunable q → t !! q = None)) → pruned gone t → pruned gone' t.
Proof. intros Hg [H1 H2]. split; [done|]. intros Hw q Hq Hp. destruct (Hg q Hq); auto. Qed.

Lemma prune_one_removes gone name k d :
  wf_tree t0 → kind_at t0 (dir ++ [name]) = Some k → pruned gone (dk_tree d) →
  ∃ r d', prune_one fails dir now maxAge (name, k) d = (inr r, d') ∧ pruned (fun q => gone q ∨ q = dir ++ [name]) (dk_tree d').
Proof.
  intros Hwf Hk Hd. set (q0 := dir ++ [name]) in *.
  assert (Hstay : ∀ t, t = dk_tree d → ((∀ n, fails n = false) → prunable q0 → t !! q0 = None) → pruned (fun q => gone q ∨ q = q0) t).
  { intros t -> Hn. eapply pruned_more, Hd. intros q [| ->]; [by left|by right]. }
  unfold prune_one. destruct (session_file recordingExt (name, k)) as [id|] eqn:Es.
  2:{ do 2 eexists. split; [done|]. apply Hstay; [done|]. intros _ (id & i & E & Hid & Hi & Hki & _). exfalso.
      apply app_inj_tail in E as [_ E]. unfold kind_at in Hk. rewrite Hi in Hk. injection Hk as <-.
      by rewrite (proj2 (session_file_Some recordingExt name (nd_kind i) id)) in Es. }
  apply session_file_Some in Es as (-> & Hid & ->). change q0 with (recording id) in *. clear q0.
  change (dir ++ [(id +:+ recordingExt, KFile).1]) with (recording id).
  pose proof (pruned_meta _ _ id Hd) as Hmeta.
  unfold mbind, fsM_bind. unfold trying at 1. unfold lstat at 1, sys at 1. destruct (fails (dk_calls d)) eqn:F1.
  { cbn. do 2 eexists. split; [done|]. apply Hstay; [done|]. intros Hw. by rewrite Hw in F1. }
  change (dk_tree (next_call d)) with (dk_tree d). destruct (dk_tree d !! meta id) as [j|] eqn:Em.
  { cbn. do 2 eexists. split; [done|]. apply Hstay; [done|]. intros _ (id' & i & E & _ & _ & _ & Hn & _). apply file_of_inj in E as <-. congruence. }
  cbn [fe_cause not_there]. rewrite bool_decide_eq_true_2 by done. cbn [negb].
  unfold trying at 1. unfold lstat at 1, sys at 1. destruct (fails (dk_calls (next_call d))) eqn:F2.
  { cbn. do 2 eexists. split; [done|]. apply Hstay; [done|]. intros Hw. by rewrite Hw in F2. }
  set (d2 := next_call (next_call d)). change (dk_tree d2) with (dk_tree d).
  destruct (dk_tree d !! recording id) as [i|] eqn:Er; [|cbn; do 2 eexists; split; [done|]; by apply Hstay].
  assert (Hi : t0 !! recording id = Some i) by (destruct Hd as [Hd _]; destruct (Hd (recording id)) as [|[_ E]]; congruence).
  cbn match. destruct (Z.leb_spec (time_sub now (nd_mtime i)) maxAge) as [Ha|Ha].
  { do 2 eexists. split; [done|]. apply Hstay; [done|]. intros _ (id' & i' & E & _ & Hi' & _ & _ & Hx). rewrite Hi in Hi'. injection Hi' as <-. lia. }
  assert (Hki : nd_kind i = KFile) by (unfold kind_at in Hk; rewrite Hi in Hk; by injection Hk).
  unfold trying, remove, sys. destruct (fails (dk_calls d2)) eqn:F3.
  { cbn. do 2 eexists. split; [done|]. apply Hstay; [done|]. intros Hw. by rewrite Hw in F3. }
  change (dk_tree (next_call d2)) with (dk_tree d). rewrite Er.
  assert (He : has_entries (dk_tree d) (recording id) = false).
  { unfold has_entries. destruct (names_in (recording id) (dk_tree d)) as [|n l] eqn:En; [done|]. exfalso.
    assert (Hs : is_Some (dk_tree d !! (recording id ++ [n]))) by (apply names_in_spec; rewrite En; by left).
    assert (Hs0 : is_Some (t0 !! (recording id ++ [n]))).
    { destruct Hd as [Hd _]. destruct (Hd (recording id ++ [n])) as [E|[_ E]]; [by rewrite <- E|rewrite E in Hs; by destruct Hs]. }
    apply Hwf in Hs0. unfold is_dir_at, kind_at in Hs0. rewrite Hi in Hs0. cbn in Hs0. congruence. }
  rewrite He. do 2 eexists. split; [done|]. cbn. destruct Hd as [H1 H2].
  assert (Hp : prunable (recording id)) by (exists id, i; repeat split; try done; congruence). split.
  - intros q. destruct (decide (q = recording id)) as [ ->|Hne]; [right; split; [done|apply lookup_delete_eq]|]. rewrite lookup_delete_ne by done. apply H1.
  - intros Hw q Hq Hpq. destruct (decide (q = recording id)) as [ ->|Hne]; [apply lookup_delete_eq|]. rewrite lookup_delete_ne by done.
    destruct Hq as [|]; [by apply H2|done].
Qed.
Lemma prune_each_removes l gone d :
  wf_tree t0 → (∀ e, e ∈ l → kind_at t0 (dir ++ [e.1]) = Some e.2) → pruned gone (dk_tree d) →
  ∃ r d', prune_each fails dir now maxAge l d = (inr r, d') ∧ pruned (fun q => gone q ∨ ∃ e, e ∈ l ∧ q = dir ++ [e.1]) (dk_tree d').
Proof.
  intros Hwf. revert gone d. induction l as [|[name k] l IH]; intros gone d Hl Hd.
  - exists [], d. split; [done|]. eapply pruned_more, Hd. intros q [|(e & He & _)]; [by left|]. by apply not_elem_of_nil in He.
  - destruct (prune_one_removes gone name k d Hwf) as (r & d1 & E1 & H1); [apply (Hl (name, k)); by left|done|].
    destruct (IH (fun q => gone q ∨ q = dir ++ [name]) d1) as (rs & d2 & E2 & H2); [intros e He; apply Hl; by right|exact H1|].
    exists (r :: rs), d2. split; [cbn; unfold mbind, fsM_bind; by rewrite E1, E2|]. eapply pruned_more, H2. intros q [|(e & [ ->|He]%elem_of_cons & ->)].
    + by left; left; left.
    + left; left; by right.
    + left; right. by exists e.
Qed.
End pruning.

(** Pruning removes recordings of ended sessions older than [maxAge] and
    nothing else, whatever calls fail; all of them when none does. *)
Theorem prune_recordings (fails : nat → bool) (dir : path) (now maxAge : Z) (d : disk) :
  wf_tree (dk_tree d) →
  pruned fails dir now maxAge (dk_tree d) (fun _ => True) (dk_tree (Prune fails dir now maxAge d).2).
Proof.
  intros Hwf. set (t0 := dk_tree d).
  assert (Hnone : ∀ t, t = t0 → ((∀ n, fails n = false) → ∀ q, ¬ prunable dir now maxAge t0 q) → pruned fails dir now maxAge t0 (fun _ => True) t).
  { intros t -> Hn. split; [by left|]. intros Hw q _ Hp. by destruct (Hn Hw q). }
  assert (Hin : ∀ q, prunable dir now maxAge t0 q → ∃ n, q = dir ++ [n] ∧ kind_at t0 q = Some KFile).
  { intros q (id & i & -> & _ & Hi & Hk & _). eexists. split; [done|]. unfold kind_at. rewrite Hi. cbn. by rewrite Hk. }
  assert (Hdir : ∀ q, prunable dir now maxAge t0 q → kind_at t0 dir = Some KDir).
  { intros q (n & -> & Hk)%Hin. apply (Hwf dir n). unfold kind_at in Hk. apply fmap_Some in Hk as (i & Hi & _). by exists i. }
  unfold Prune, mbind at 1, fsM_bind at 1, trying. unfold ReadDir, sys. destruct (fails (dk_calls d)) eqn:Ef.
  { cbn. rewrite bool_decide_eq_false_2 by done. apply Hnone; [done|]. intros Hw. by rewrite Hw in Ef. }
  change (dk_tree (next_call d)) with t0. destruct (kind_at t0 dir) as [[]|] eqn:Ek; cbn match;
    try (case_bool_decide; (apply Hnone; [done|]; intros _ q Hq; by apply Hdir in Hq)).
  set (l := merge_sort name_le _). assert (Hl : l ≡ₚ entries dir t0) by apply merge_sort_Permutation.
  destruct (prune_each_removes fails dir now maxAge t0 l (fun _ => False) (next_call d) Hwf) as (r & d' & E & Hp).
  - intros [n k] He. rewrite Hl in He. by apply entries_spec.
  - split; [by left|]. by intros _ q [].
  - unfold mbind, fsM_bind. rewrite E. assert (Hx : pruned fails dir now maxAge t0 (fun _ => True) (dk_tree d')).
    { destruct Hp as [H1 H2]. split; [done|]. intros Hw q _ Hq. apply (H2 Hw); [|done]. right. destruct (Hin q Hq) as (n & -> & Hk).
      exists (n, KFile). split; [rewrite Hl; by apply entries_spec|done]. }
    by destruct (join_errors r).
Qed.

(** ** The store is a table of sessions *)

Section operations.
Context (fails : nat → bool) (random : nat → string).
Context (dir : path) (pid : Z) (encode : metadata → option string) (decode : string → option metadata).

Inductive store_operation := OSave (info : SessionInfo) | ORemove (id : string) | ORecord (id : string) | OLost | OPrune (now maxAge : Z).
Inductive answer := Failed | Done | Recorded (p : path) | Listed (l : list lostInfo).
Definition answered {A} (m : fsM A) (f : A → answer) : fsM answer := r ← trying m; mret (match r with inr a => f a | inl _ => Failed end).
Definition perform (o : store_operation) : fsM answer :=
  match o with
  | OSave info => answered (Save fails random dir pid encode info) (fun _ => Done)
  | ORemove id => answered (Remove fails dir id) (fun _ => Done)
  | ORecord id => answered (Record_ fails dir id) Recorded
  | OLost => answered (Lost fails dir decode) Listed
  | OPrune now maxAge => answered (Prune fails dir now maxAge) (fun _ => Done)
  end.
Fixpoint perform_all (l : list store_operation) : fsM (list answer) :=
  match l with [] => mret [] | o :: l => a ← perform o; rest ← perform_all l; mret (a :: rest) end.

(** An ended session's recording that is too old: no metadata file of the
    session is left, and it was last written more than [maxAge] before. *)
Definition old_recording (now maxAge : Z) (M : table) (id : string) : Prop :=
  ∃ i, tb_recordings M !! id = Some i ∧ nd_kind i = KFile ∧ tb_files M !! id = None ∧ maxAge < now - nd_mtime i.
(** Pruning, failing or not: some of them are gone, all when no call fails. *)
Definition prunes (now maxAge : Z) (M M' : table) : Prop :=
  tb_sessions M' = tb_sessions M ∧ tb_files M' = tb_files M ∧
  (∀ id, tb_recordings M' !! id = tb_recordings M !! id ∨ (tb_recordings M' !! id = None ∧ old_recording now maxAge M id)) ∧
  ((∀ n, fails n = false) → ∀ id, old_recording now maxAge M id → tb_recordings M' !! id = None).
(** What an operation does to the table, by its answer. *)
Definition table_step (o : store_operation) (a : answer) (M M' : table) : Prop :=
  match o, a with
  | OPrune now maxAge, (Done | Failed) => prunes now maxAge M M'
  | _, Failed => M' = M
  | OSave info, Done => validID (i_ID info) = true ∧ with_session M (i_ID info) (saved pid info) M'
  | ORemove id, Done => validID id = true ∧ M' = without_session M id
  | ORecord id, Recorded p => validID id = true ∧ p = file_of dir id recordingExt ∧ with_recording M id M'
  | OLost, Listed l => lists fails M l ∧ M' = M
  | _, _ => False
  end.
Inductive table_run : list store_operation → list answer → table → table → Prop :=
  | run_nil M : table_run [] [] M M
  | run_step o a l answers M M1 M' : table_step o a M M1 → table_run l answers M1 M' → table_run (o :: l) (a :: answers) M M'.
(** Texts that JSON keeps, and a duration. *)
Definition storable (o : store_operation) : Prop :=
  match o with OSave info => info_valid info | OPrune _ maxAge => min_int ≤ maxAge < max_int | _ => True end.

Lemma pruned_prunes t0 M t now maxAge t' :
  min_int ≤ maxAge < max_int → stored dir decode t0 M t → pruned fails dir now maxAge t (fun _ => True) t' →
  ∃ M', prunes now maxAge M M' ∧ stored dir decode t0 M' t'.
Proof.
  intros Hage (Hwf & HM & Hf) [Hp Hall].
  assert (Hold : ∀ id, old_recording now maxAge M id ↔ prunable dir now maxAge t (file_of dir id recordingExt)).
  { intros id. destruct (HM id) as (_ & H2 & H3). unfold old_recording, prunable, kept_at, time_sub in *. split.
    - intros (i & Hi & Hk & Hn & Ho). rewrite H3 in Hi. rewrite H2 in Hn. destruct (validID id) eqn:Hid; [|done]. exists id, i. split_and!; try done. lia.
    - intros (id' & i & E & Hid & Hi & Hk & Hn & Ho). apply file_of_inj in E as <-. rewrite Hid in *. exists i. rewrite H3, H2. split_and!; try done. lia. }
  assert (Hmeta : ∀ id, t' !! file_of dir id metadataExt = t !! file_of dir id metadataExt).
  { intros id. eapply pruned_meta. split; [exact Hp|exact Hall]. }
  set (left := fun x : string * inode => is_Some (t' !! file_of dir x.1 recordingExt)).
  assert (Hleft : ∀ id, kept_at dir t' id recordingExt = filter left (tb_recordings M) !! id).
  { intros id. destruct (HM id) as (_ & _ & H3). unfold kept_at in *. symmetry. destruct (validID id).
    - destruct (Hp (file_of dir id recordingExt)) as [E|[_ E]]; rewrite E.
      + rewrite map_lookup_filter, H3. destruct (t !! _) as [i|] eqn:Ei; [|done]. cbn. unfold left. cbn. rewrite option_guard_True; [done|]. rewrite E. by eexists.
      + apply map_lookup_filter_None_2. right. intros i Hi [j Hj]. cbn in Hj. congruence.
    - rewrite map_lookup_filter, H3. done. }
  exists (mkTable (tb_sessions M) (tb_files M) (filter left (tb_recordings M))). split.
  - split_and!; [done|done| |]; cbn; intros; rewrite <- Hleft; unfold kept_at.
    + destruct (HM id) as (_ & _ & H3). unfold kept_at in H3. rewrite H3. destruct (validID id); [|by left].
      destruct (Hp (file_of dir id recordingExt)) as [E|[Hq E]]; [by left|right]. split; [done|]. by apply Hold.
    + destruct (validID id); [|done]. apply Hall; [done|done|]. by apply Hold.
  - split; [|split].
    + intros k n Hs. assert (Hs0 : is_Some (t !! (k ++ [n]))) by (destruct (Hp (k ++ [n])) as [E|[_ E]]; rewrite E in Hs; [done|by destruct Hs]).
      apply Hwf in Hs0. unfold is_dir_at, kind_at in *. destruct (Hp k) as [->|[(id & i & _ & _ & Hi & Hk & _) _]]; [done|]. rewrite Hi in Hs0. cbn in Hs0. congruence.
    + intros id. destruct (HM id) as (H1 & H2 & _). cbn. split_and!; [|unfold kept_at in *; by rewrite Hmeta|by rewrite Hleft].
      rewrite H1. unfold info_at. by rewrite Hmeta.
    + eapply frame_step; [exact Hf|]. intros q Hq. left. destruct (Hp q) as [|[(id & i & -> & Hid & _) _]]; [done|]. destruct Hq. exists id. split; [done|by right].
Qed.

Lemma answered_hoare {A : Type} (m : fsM A) (f : A → answer) (P E : tree → Prop) (Q : A → tree → Prop) (R : answer → tree → Prop) d :
  hoare P m Q E → P (dk_tree d) → (∀ a t, Q a t → R (f a) t) → (∀ t, E t → R Failed t) →
  ∃ a d', answered m f d = (inr a, d') ∧ R a (dk_tree d').
Proof.
  intros Hm Hd HQ HE. specialize (Hm d Hd). unfold answered, mbind, fsM_bind, trying. destruct (m d) as [[e|a] d']; do 2 eexists; (split; [done|]); auto.
Qed.
Lemma perform_spec o t0 M d :
  json_law encode decode → storable o → stored dir decode t0 M (dk_tree d) →
  ∃ a d' M', perform o d = (inr a, d') ∧ table_step o a M M' ∧ stored dir decode t0 M' (dk_tree d').
Proof.
  intros Hjson Ho Hd. pose (R a t := ∃ M', table_step o a M M' ∧ stored dir decode t0 M' t).
  enough (∃ a d', perform o d = (inr a, d') ∧ R a (dk_tree d')) as (a & d' & E & M' & H1 & H2) by (by exists a, d', M').
  assert (HR : match o with OPrune _ _ => True | _ => ∀ t, stored dir decode t0 M t → R Failed t end) by (destruct o; try done; intros t Ht; by exists M).
  destruct o as [info|id|id| |now maxAge]; cbn [perform].
  - eapply (answered_hoare _ _ _ _ _ R); [by apply Save_spec|exact Hd| |exact HR]. intros _ t (Hid & M' & HM' & Ht). by exists M'.
  - eapply (answered_hoare _ _ _ _ _ R); [by apply Remove_spec|exact Hd| |exact HR]. intros _ t [Hid Ht]. by eexists.
  - eapply (answered_hoare _ _ _ _ _ R); [by apply Record_spec|exact Hd| |exact HR]. intros p t (-> & Hid & M' & HM' & Ht). by exists M'.
  - eapply (answered_hoare _ _ _ _ _ R); [by apply Lost_spec|exact Hd| |exact HR]. intros l t (Hl & Ht). by exists M.
  - cbn in Ho. destruct (pruned_prunes t0 M _ now maxAge _ Ho Hd (prune_recordings fails dir now maxAge d (proj1 Hd))) as (M' & Hp & Ht).
    unfold answered, mbind, fsM_bind, trying. destruct (Prune fails dir now maxAge d) as [[e|[]] d']; do 2 eexists; (split; [reflexivity|]); by exists M'.
Qed.
Lemma perform_all_spec l t0 M d :
  json_law encode decode → Forall storable l → stored dir decode t0 M (dk_tree d) →
  ∃ answers M' d', perform_all l d = (inr answers, d') ∧ table_run l answers M M' ∧ stored dir decode t0 M' (dk_tree d').
Proof.
  intros Hjson Hl. revert M d. induction Hl as [|o l Ho Hl IH]; intros M d Hd; [exists [], M, d; split; [done|]; by split; [constructor|]|].
  destruct (perform_spec o t0 M d Hjson Ho Hd) as (a & d1 & M1 & E1 & Hs & H1). destruct (IH M1 d1 H1) as (answers & M' & d' & E' & Hr & H').
  exists (a :: answers), M', d'. cbn. unfold mbind, fsM_bind. rewrite E1, E'. split; [done|]. split; [by econstructor|done].
Qed.
End operations.

(** C29: the files of the store are a table of sessions and of recordings:
    whatever calls fail, a sequence of operations does to what the files hold
    exactly what its answers say of the table. A save or a removal changes one
    session's metadata or, failing, nothing; a recording is new and empty,
    both the user's alone; the listing is the table when no call fails; and
    pruning, failing or not, takes only recordings of sessions with no
    metadata left, last written more than [maxAge] before, and all of them
    when no call fails. No file but the store's own is changed. *)
Theorem store_refines (fails : nat → bool) (random : nat → string) (dir : path) (pid : Z) encode decode
    (ops : list store_operation) (M : table) (d : disk) :
  json_law encode decode → Forall storable ops → wf_tree (dk_tree d) → represents dir decode M (dk_tree d) →
  ∃ answers M' d', perform_all fails random dir pid encode decode ops d = (inr answers, d') ∧
    table_run fails dir pid ops answers M M' ∧ represents dir decode M' (dk_tree d') ∧ frame dir (dk_tree d) (dk_tree d').
Proof.
  intros Hjson Hops Hwf HM.
  destruct (perform_all_spec fails random dir pid encode decode ops (dk_tree d) M d Hjson Hops) as (answers & M' & d' & E & Hr & _ & HM' & Hf);
    [split; [done|]; split; [done|]; by apply frame_refl|]. by exists answers, M', d'.
Qed.

(** ** When nothing fails *)

Section nothing_fails.
Context (random : nat → string) (dir : path) (pid : Z) (encode : metadata → option string) (decode : string → option metadata).

(** The name a save takes first. *)
Definition first_name (id : string) (d : disk) : path := dir ++ [(id +:+ metadataExt) +:+ "." +:+ random (dk_calls d) +:+ ".tmp"].
Lemma create_temp_first id d :
  is_dir_at (dk_tree d) dir → dk_tree d !! first_name id d = None →
  ∃ d', runs (CreateTemp never random dir ((id +:+ metadataExt) +:+ ".") ".tmp") d (first_name id d) d' ∧
    dk_tree d' = <[first_name id d := mkInode KFile 384 (dk_uid d) (dk_now d) ""]> (dk_tree d).
Proof.
  intros Hdir Hn. destruct (run_create (first_name id d) 384 (next_call d)) as [d' H]; [exact Hn|by apply parent_dir|].
  exists d'. split; [|by apply runs_create in H as (_ & _ & ->)].
  unfold CreateTemp. change tempTries with (S (pred tempTries)). cbn [attempts].
  apply runs_bind. exists (Some (first_name id d)), d'. split; [|by apply runs_ret]. apply runs_bind. exists (random (dk_calls d)), (next_call d). split; [done|].
  cbv zeta. replace (dir ++ _) with (first_name id d) by (unfold first_name; by rewrite !string_app_assoc).
  apply runs_bind. exists (inr ()), d'. split; [|by apply runs_ret]. unfold runs, trying in *. by rewrite H.
Qed.
(** A save succeeds. *)
Lemma Save_completes info b d :
  validID (i_ID info) = true → encode (metadata_of pid info) = Some b → is_dir_at (dk_tree d) dir →
  kind_at (dk_tree d) (file_of dir (i_ID info) metadataExt) ≠ Some KDir → dk_tree d !! first_name (i_ID info) d = None →
  ∃ d', runs (Save never random dir pid encode info) d () d'.
Proof.
  intros Hid Hb Hdir Hq Hn. unfold Save, store_path. rewrite Hid, Hb. set (id := i_ID info) in *. set (data := b +:+ _).
  enough (∃ d', runs (writeFileAtomic never random dir (id +:+ metadataExt) data) d () d') as [d' H].
  { exists d'. apply runs_bind. exists (file_of dir id metadataExt), d. split; [done|]. by apply runs_wrapping. }
  destruct (create_temp_first id d Hdir Hn) as (d1 & H1 & E1). set (p := first_name id d) in *.
  assert (Hp : ∀ q, q ≠ p → dk_tree d1 !! q = dk_tree d !! q) by (intros q Hne; rewrite E1; by rewrite lookup_insert_ne).
  unfold writeFileAtomic. eapply run_bind_unit; [exact H1|]. 
  destruct (run_write_file p data d1 (mkInode KFile 384 (dk_uid d) (dk_now d) "")) as [d2 H2]; [rewrite E1; apply lookup_insert_eq|done|].
  pose proof H2 as (i2 & Hi2 & Hk2 & E2)%runs_write_file.
  eapply (run_bind_unit _ _ _ (inr ())); [unfold runs, trying; by rewrite H2|].
  eapply (run_bind_unit _ _ _ (inr ()) (next_call d2)); [done|].
  destruct (run_chmod p 384 (next_call d2) (i2 <| nd_data := data |> <| nd_mtime := dk_now d1 |>)) as [d3 H3];
    [cbn; rewrite E2; apply lookup_insert_eq|cbn; by rewrite Hk2|].
  pose proof H3 as (i3 & Hi3 & _ & E3)%runs_chmod. change (dk_tree (next_call d2)) with (dk_tree d2) in *.
  eapply (run_bind_unit _ _ _ (inr ())); [unfold runs, trying; by rewrite H3|]. cbn [join_errors].
  assert (Hs : ∀ q, q ≠ p → dk_tree d3 !! q = dk_tree d !! q) by (intros q Hne; rewrite E3, E2; rewrite !lookup_insert_ne by done; by apply Hp).
  assert (Hdirp : dir ≠ p) by (intros E; apply (f_equal length) in E; unfold p, first_name in E; rewrite length_app in E; cbn in E; lia).
  assert (Hmeta : file_of dir id metadataExt ≠ p) by (apply not_eq_sym, scratch_not_meta; exists ((id +:+ metadataExt) +:+ "." +:+ random (dk_calls d));
    unfold p, first_name; by rewrite !string_app_assoc).
  rewrite E2, lookup_insert_eq in Hi3. injection Hi3 as <-.
  destruct (run_rename p (file_of dir id metadataExt) d3 (i2 <| nd_data := data |> <| nd_mtime := dk_now d1 |> <| nd_mode := 384 |>)) as [d4 H4].
  - rewrite E3. apply lookup_insert_eq.
  - cbn. by rewrite Hk2.
  - unfold kind_at. by rewrite Hs.
  - apply parent_dir. unfold is_dir_at, kind_at. by rewrite Hs.
  - eapply (run_bind_unit _ _ _ (inr ())); [unfold runs, trying; by rewrite H4|]. by exists d4.
Qed.
End nothing_fails.

(** ** A daemon that saves a session, fails to save its end, and removes it *)

Definition sample_info (st : SessionState) (code : option Z) : SessionInfo :=
  mkSessionInfo "s-1" "go" "/w/app" st 4242 1000 code (mkLeaseInfo LeaseFree "" None []) [] "/run/sessions/s-1.jsonl" ModeLaunch "" "" None None None "".
#[global] Instance metadata_eq_dec : EqDecision metadata.
Proof. solve_decision. Defined.
Definition sample_records : list metadata := [metadata_of 7 (sample_info StateRunning None); metadata_of 7 (sample_info StateExited (Some 0))].
Definition sample_texts : list string := ["{running}"; "{exited}"]%string.
Definition sample_encode (m : metadata) : option string := '(i, _) ← list_find (eq m) sample_records; sample_texts !! i.
Definition sample_decode (s : string) : option metadata :=
  if s =?s "{running}" +:+ String "010" "" then sample_records !! 0%nat
  else if s =?s "{exited}" +:+ String "010" "" then sample_records !! 1%nat else None.
Lemma sample_law : json_law sample_encode sample_decode.
Proof.
  intros m b _. unfold sample_encode. destruct (list_find (eq m) sample_records) as [[i m']|] eqn:E; [|done]. cbn.
  apply list_find_Some in E as (Hi & <- & _). destruct i as [|[|i]]; cbn in Hi; simplify_eq; intros [= <-]; vm_compute; reflexivity.
Defined.
Definition sample_disk : disk :=
  mkDisk (list_to_map [([], mkInode KDir 493 0 0 ""); (["run"%string], mkInode KDir 448 0 0 "");
    (["run"; "note"]%string, mkInode KFile 420 0 0 "mine"); (["run"; "old.jsonl"]%string, mkInode KFile 384 0 1 "{}")]) 0 1000 0.
Definition sample_ops : list store_operation :=
  [OSave (sample_info StateRunning None); ORecord "s-1"; OSave (sample_info StateExited (Some 0)); OLost; OPrune 900 100; ORemove "../note"; ORemove "s-1"; OLost].
(** The eleventh call fails: the second save's rename. *)
Definition sample_perform : disk → (ferr + list answer) * disk :=
  perform_all (fun n => bool_decide (n = 11%nat)) (fun n => itoa (Z.of_nat n)) ["run"%string] 7 sample_encode sample_decode sample_ops.
Lemma sample_wf : wf_tree (dk_tree sample_disk).
Proof. apply wf_checked. vm_compute. reflexivity. Defined.
Definition sample_table : table := mkTable ∅ ∅ {["old"%string := mkInode KFile 384 0 1 "{}"]}.
Lemma names_kept (t : tree) dir id ext i (p : string → bool) :
  t !! (file_of dir id ext) = Some i →
  forallb (fun n => match cut_suffix ext n with Some x => p x | None => true end) (names_in dir t) = true → p id = true.
Proof.
  intros E H. rewrite forallb_forall in H. specialize (H (id +:+ ext)). rewrite (proj2 (cut_suffix_Some _ _ _) eq_refl) in H.
  apply H, list_elem_of_In, names_in_spec. by exists i.
Qed.
Lemma sample_represents : represents ["run"%string] sample_decode sample_table (dk_tree sample_disk).
Proof.
  intros id. unfold info_at, kept_at. cbn [tb_sessions tb_files tb_recordings sample_table].
  assert (dk_tree sample_disk !! file_of ["run"%string] id metadataExt = None) as ->.
  { destruct (dk_tree sample_disk !! _) as [i|] eqn:E; [|done]. by apply (names_kept _ _ _ _ _ (fun _ => false)) in E; [|vm_compute; reflexivity]. }
  split_and!; [rewrite lookup_empty; by destruct (validID id)..|]. destruct (decide (id = "old"%string)) as [->|Hne]; [vm_compute; reflexivity|].
  rewrite lookup_singleton_ne by congruence. destruct (validID id); [|done].
  destruct (dk_tree sample_disk !! _) as [i|] eqn:E; [|done]. apply (names_kept _ _ _ _ _ (String.eqb "old")) in E; [|vm_compute; reflexivity].
  by apply String.eqb_eq in E.
Defined.
Example store_refines_witness :
  let info := saved 7 (sample_info StateRunning None) in
  let answers := [Done; Recorded ["run"; "s-1.jsonl"]%string; Failed; Listed [info]; Done; Failed; Done; Listed []] in
  ∃ M' d', sample_perform sample_disk = (inr answers, d') ∧
    table_run (fun n => bool_decide (n = 11%nat)) ["run"%string] 7 sample_ops answers sample_table M' ∧
    represents ["run"%string] sample_decode M' (dk_tree d') ∧ dk_tree d' !! ["run"; "note"]%string = Some (mkInode KFile 420 0 0 "mine") ∧
    dk_tree d' !! ["run"; "old.jsonl"]%string = None.
Proof.
  destruct (store_refines (fun n => bool_decide (n = 11%nat)) (fun n => itoa (Z.of_nat n)) ["run"%string] 7 sample_encode sample_decode sample_ops sample_table sample_disk
    sample_law) as (answers & M' & d' & E & Hr & HM & _ & _).
  - repeat (apply list.Forall_cons; split; [first [by repeat constructor | by vm_compute]|]). constructor.
  - exact sample_wf.
  - exact sample_represents.
  - change (sample_perform sample_disk = (inr answers, d')) in E.
    assert (Ha : (sample_perform sample_disk).1 = inr [Done; Recorded ["run"; "s-1.jsonl"]%string; Failed; Listed [saved 7 (sample_info StateRunning None)];
                   Done; Failed; Done; Listed []]) by (vm_compute; reflexivity).
    assert (Hn : dk_tree (sample_perform sample_disk).2 !! ["run"; "note"]%string = Some (mkInode KFile 420 0 0 "mine")) by (vm_compute; reflexivity).
    assert (Ho : dk_tree (sample_perform sample_disk).2 !! ["run"; "old.jsonl"]%string = None) by (vm_compute; reflexivity).
    rewrite E in Ha, Hn, Ho. injection Ha as ->. exists M', d'. exact (conj E (conj Hr (conj HM (conj Hn Ho)))).
Defined.
