(* ===== verification/DotnetDriver.v ===== *)
(** * The .NET driver: fast mode's build on the host (drivers/dotnet/fast.go)

    Fast mode builds a project on this machine, which runs the project's code:
    a project that a container could have written is never picked
    ([find_project_safe]), and what is built and how is what the paths say
    ([publish_safe]). The hints of its errors are left out; an error of the
    build is [BuildFailed], the caller's context's [Ended]. The host's file
    system is a parameter: what a path resolves to, what is at it, and the
    tree below a directory; so is what the build's command does. *)

From S2P Require Import Prelude GoStrings GoPath Docker Manifest Discovery.
From Stdlib Require Import Ascii Bool.
Open Scope Z_scope.

(** ** The project of an assembly (fast.go) *)

Definition maxProjectCandidates : nat := 10.
Definition pathMapTarget : string := "/src/".
Definition skippedProjectDir (name : string) : bool :=
  has_prefix "." name || (name =?s "bin") || (name =?s "obj") || (name =?s "node_modules").
Definition quote_path (s : string) : string :=
  let s := if 120 <? slen s then stake 120 s +:+ "..." else s in dquote +:+ blank is_control (to_valid s "?") +:+ dquote.

(** What [os.Stat] says: which file it is ([os.SameFile]), and whether it is
    a regular one. *)
Record finfo := mkFinfo { fi_id : Z; fi_regular : bool }.
(** What is below a directory, as [filepath.WalkDir] sees it, in its order. *)
Inductive dnode := NDir (readable : bool) (entries : list (string * dnode)) | NRegular | NOther.

Record mountPath := mkMountPath { mp_path : string; mp_shown : string; mp_info : option Z }.
Record search := mkSearch { ps_seen : Z; ps_found : list string; ps_written : list string }.

Definition isProjectOf (file name : string) : bool := existsb (fun ext => file =?s name +:+ ext) ProjectExts.

Section find_project.
Context (eval_symlinks : string → string + string) (stat : string → option finfo).

Definition newMountSet (sources : list (list string)) : list (list mountPath) :=
  map (map (fun p => mkMountPath (Clean p) p (if is_abs p then fi_id <$> stat p else None))) sources.
(** [unseen]; "": none. *)
Fixpoint unseen (m : list (list mountPath)) : string :=
  match m with
  | [] => ""
  | paths :: m =>
    match paths with
    | mp :: _ => if existsb (fun mp => bool_decide (is_Some (mp_info mp))) paths then unseen m else mp_shown mp
    | [] => unseen m
    end
  end.
Definition sameFile (p : string) (info : Z) : bool := match stat p with Some i => fi_id i =? info | None => false end.
Definition is_mount (cur : string) (mp : mountPath) : bool :=
  (cur =?s mp_path mp) || match mp_info mp with Some i => sameFile cur i | None => false end.
(** The source a path is, by its first spelling. *)
Fixpoint source_of (m : list (list mountPath)) (cur : string) : option string :=
  match m with
  | [] => None
  | paths :: m => if existsb (is_mount cur) paths then match paths with mp :: _ => Some (mp_path mp) | [] => None end else source_of m cur
  end.
(** The loop of [covering]; [None]: out of fuel. *)
Fixpoint covering_up (fuel : nat) (m : list (list mountPath)) (cur stop : string) : option string :=
  match source_of m cur with
  | Some src => Some src
  | None =>
    if (cur =?s stop) || (Dir cur =?s cur) then Some ""%string
    else match fuel with O => None | S n => covering_up n m (Dir cur) stop end
  end.
Definition covering (m : list (list mountPath)) (p stop : string) : string :=
  match m with [] => "" | _ => default ""%string (covering_up (S (String.length p)) m p stop) end.

(** [visit] and the walk; [None]: the limit was passed. *)
Section walk.
Context (name root : string) (limit : Z) (mounts : list (list mountPath)).
Definition count_entry (ps : search) : option search :=
  let seen := ps_seen ps + 1 in if limit <? seen then None else Some (mkSearch seen (ps_found ps) (ps_written ps)).
Definition sort_match (p : string) (ps : search) : search :=
  if covering mounts p root =?s "" then mkSearch (ps_seen ps) (ps_found ps ++ [p]) (ps_written ps)
  else mkSearch (ps_seen ps) (ps_found ps) (ps_written ps ++ [p]).
Fixpoint walk (n : dnode) (p base : string) (ps : search) : option search :=
  ps ← count_entry ps;
  match n with
  | NOther => Some ps
  | NRegular => Some (if isProjectOf base name then sort_match p ps else ps)
  | NDir readable entries =>
    if negb (p =?s root) && skippedProjectDir base then Some ps
    else if readable then
      (fix each (l : list (string * dnode)) (ps : search) : option search :=
         match l with
         | [] => Some ps
         | (x, c) :: l => match walk c (Join p x) x ps with Some ps => each l ps | None => None end
         end) entries ps
    else count_entry ps
  end.
End walk.

Definition writtenError (root dll : string) (written : list string) : Error :=
  refuse ("the only project for " +:+ dll +:+ " is in a directory a container can write (a read-write mount): "
          +:+ join ", " (map (fun p => quote_path (default p (Rel root p))) (take maxProjectCandidates written))).
Definition oneProject (found : list string) (root dll : string) : result string :=
  match found with
  | [p] => Ok p
  | [] => Err (refuse ("no project file for " +:+ dll +:+ " (a " +:+ trim_suffix ".dll" dll +:+ ".csproj) found under " +:+ quote_path root))
  | _ =>
    let more := if (maxProjectCandidates <? length found)%nat
                then " (and " +:+ itoa (Z.of_nat (length found - maxProjectCandidates)) +:+ " more)" else ""%string in
    Err (refuse (itoa (Z.of_nat (length found)) +:+ " projects build " +:+ dll +:+ ": "
                 +:+ join ", " (map quote_path (take maxProjectCandidates found)) +:+ more))
  end.
(** [tree_at]: what is at a path ([None]: it can't be read). *)
Definition FindContainerProject (tree_at : string → option dnode) (root dll : string) (limit : Z) (rw : list (list string)) : result string :=
  if negb (ValidDLL dll) then Err (refuse ("invalid assembly name " +:+ quote_path dll))
  else match eval_symlinks root with
  | inl why => Err (refuse ("can't search " +:+ quote_path root +:+ " for the project of " +:+ dll +:+ ": " +:+ why))
  | inr realRoot =>
    let mounts := newMountSet rw in
    let src := covering mounts realRoot "" in
    if negb (src =?s "") then
      Err (refuse ("the compose directory " +:+ quote_path realRoot +:+ " is at or under " +:+ quote_path src
                   +:+ ", a read-write mount of one of the stack's containers: a container could have written any project file there, so none is searched for the project of " +:+ dll))
    else if negb (unseen mounts =?s "") then
      Err (refuse (quote_path (unseen mounts) +:+ ", a read-write mount of one of the stack's containers, doesn't exist on this machine "
                   +:+ "(a remote engine's or Docker Desktop VM path, or removed since): "
                   +:+ "eyedbg can't tell whether it covers the compose directory, so no project is searched for " +:+ dll))
    else
      let ps := mkSearch 0 [] [] in
      match match tree_at realRoot with
            | Some n => walk (trim_suffix ".dll" dll) realRoot limit mounts n realRoot (Base realRoot) ps
            | None => count_entry limit ps
            end with
      | None => Err (refuse ("searched " +:+ itoa limit +:+ " entries of " +:+ quote_path realRoot +:+ " for the project of " +:+ dll +:+ " without finishing"))
      | Some ps =>
        match ps_found ps, ps_written ps with
        | [], _ :: _ => Err (writtenError realRoot dll (ps_written ps))
        | found, _ => oneProject found realRoot dll
        end
      end
  end.
End find_project.

(** ** The way up from a path *)

Definition plain (es : list string) : Prop := Forall (fun x => plain_elem x = true) es.
(** A rooted path, by its elements. *)
Definition rooted (es : list string) : string := "/" +:+ join "/" es.
Lemma rooted_inj es es' : plain es → plain es' → rooted es = rooted es' → es = es'.
Proof.
  intros H H' E. pose proof (elems_of_rooted es H) as H1. pose proof (elems_of_rooted es' H') as H2. unfold rooted in E. rewrite E in H1. congruence.
Qed.
Lemma Clean_plain es : plain es → Clean (rooted es) = rooted es.
Proof. intros H. rewrite Clean_rooted by done. unfold rooted. by rewrite elems_of_rooted. Qed.
Lemma Dir_up es x : plain (es ++ [x]) → Dir (rooted (es ++ [x])) = rooted es.
Proof.
  intros Hp. pose proof (proj1 (proj1 (Forall_app _ _ _) Hp)) as He. unfold Dir, rooted.
  change (split_on slash ("/" +:+ join "/" (es ++ [x]))) with (""%string :: split_on slash (join "/" (es ++ [x]))).
  rewrite split_join by first [by destruct es|by apply plain_no_slash]. change (""%string :: es ++ [x]) with ((""%string :: es) ++ [x]). rewrite rev_app_distr. cbn [rev app].
  destruct (rev es ++ [""%string]) as [|y l] eqn:E; [by destruct (rev es)|]. rewrite <- E, rev_app_distr, rev_involutive. cbn [rev app].
  destruct es as [|z es]; [done|]. change (join "/" (""%string :: z :: es)) with (rooted (z :: es)). rewrite Clean_slash by done. by apply Clean_plain.
Qed.
Lemma split_on_length a s : (length (split_on a s) ≤ S (String.length s))%nat.
Proof. induction s as [|c s IH]; cbn; [lia|]. destruct (Ascii.eqb a c); cbn; [lia|]. destruct (split_on a s); cbn in *; lia. Qed.
Lemma rooted_length es : plain es → (length es ≤ String.length (rooted es))%nat.
Proof.
  intros H. destruct es as [|e es]; [cbn; lia|]. rewrite <- (split_join slash (e :: es)) at 1 by first [done|by apply plain_no_slash].
  etrans; [apply split_on_length|]. unfold rooted. rewrite string_app_length. change (String slash "") with "/"%string. change (String.length "/") with 1%nat. lia.
Qed.

Section covering.
Context (stat : string → option finfo).
Lemma Clean_not_empty p : Clean p ≠ ""%string.
Proof. unfold Clean, of_elems. destruct (is_abs p); [done|]. by destruct (String.eqb_spec (join "/" (elems p)) ""). Qed.
Lemma source_of_some rw cur src : source_of stat (newMountSet stat rw) cur = Some src → src ≠ ""%string.
Proof.
  induction rw as [|paths rw IH]; cbn; [done|]. destruct (existsb _ _); [|exact IH]. destruct paths as [|p paths]; [done|]. cbn. intros [= <-]. apply Clean_not_empty.
Qed.
(** From where the loop stops to the path, nothing is a mount. *)
Definition clear_up (m : list (list mountPath)) (k : nat) (es : list string) : Prop :=
  ∀ j, (k ≤ j ≤ length es)%nat → source_of stat m (rooted (take j es)) = None.
Definition stops_at (stop : string) (k : nat) (es : list string) : Prop := (k ≤ length es)%nat ∧ (stop = rooted (take k es) ∨ (stop = ""%string ∧ k = 0%nat)).
Lemma covering_up_spec rw es n k stop :
  let m := newMountSet stat rw in
  plain es → (length es ≤ n)%nat → stops_at stop k es →
  ∃ src, covering_up stat n m (rooted es) stop = Some src ∧ (src = ""%string ↔ clear_up m k es).
Proof.
  intros m. revert n. induction es as [|x es IH] using rev_ind; intros n Hp Hn [Hk Hstop].
  - assert (k = 0%nat) as -> by (cbn in Hk; lia). destruct n; cbn [covering_up];
      (destruct (source_of stat m (rooted [])) as [src|] eqn:E;
       [exists src; split; [done|]; pose proof (source_of_some _ _ _ E); split; [done|]; intros Hc; specialize (Hc 0%nat (conj (le_n 0) (le_n 0))); change (take 0 []) with ([] : list string) in Hc; congruence
       |change (Dir (rooted [])) with (rooted []); rewrite String.eqb_refl, orb_true_r; exists ""%string; split; [done|]; split; [|done]; intros _ j Hj; assert (j = 0%nat) as -> by (cbn in Hj; lia); exact E]).
  - pose proof (proj1 (proj1 (Forall_app _ _ _) Hp)) as He. rewrite length_app in Hn. cbn in Hn. destruct n as [|n]; [lia|]. cbn [covering_up].
    assert (Hall : take (length (es ++ [x])) (es ++ [x]) = es ++ [x]) by apply take_ge, Nat.le_refl.
    destruct (source_of stat m (rooted (es ++ [x]))) as [src|] eqn:E.
    + exists src. split; [done|]. pose proof (source_of_some _ _ _ E). split; [done|]. intros Hc. specialize (Hc (length (es ++ [x])) ltac:(lia)). rewrite Hall, E in Hc. done.
    + destruct (decide (k = length (es ++ [x]))) as [->|Hne].
      * assert (rooted (es ++ [x]) = stop) as Es. { destruct Hstop as [->|[_ Hx]]; [by rewrite Hall|]. rewrite length_app in Hx. cbn in Hx. lia. }
        rewrite Es, String.eqb_refl. cbn [orb]. exists ""%string. split; [done|]. split; [|done]. intros _ j Hj. assert (j = length (es ++ [x])) as -> by lia. by rewrite Hall.
      * assert (Hk' : (k ≤ length es)%nat) by (rewrite length_app in Hk, Hne; cbn in Hk, Hne; lia).
        assert (Hst : stops_at stop k es). { split; [done|]. destruct Hstop as [->|]; [left|by right]. by rewrite take_app_le. }
        assert (Hns : (rooted (es ++ [x]) =? stop)%string = false).
        { apply String.eqb_neq. destruct Hst as [_ [->|[-> _]]]; [|done]. intros Hx%rooted_inj; [|done|by apply Forall_take].
          apply (f_equal length) in Hx. rewrite length_app, length_take in Hx. cbn in Hx. lia. }
        rewrite Hns, Dir_up by done.
        assert (Hnd : (rooted es =? rooted (es ++ [x]))%string = false).
        { apply String.eqb_neq. intros Hx%rooted_inj; [|done|done]. apply (f_equal length) in Hx. rewrite length_app in Hx. cbn in Hx. lia. }
        rewrite Hnd. cbn [orb]. destruct (IH n He ltac:(lia) Hst) as (src & -> & Hiff). exists src. split; [done|]. rewrite Hiff. unfold clear_up. split.
        -- intros Hc j Hj. destruct (decide (j = length (es ++ [x]))) as [->|]; [by rewrite Hall|]. rewrite length_app in *. cbn in *. rewrite take_app_le by lia. apply Hc. lia.
        -- intros Hc j Hj. specialize (Hc j). rewrite length_app in Hc. cbn in Hc. rewrite take_app_le in Hc by lia. apply Hc. lia.
Qed.
Lemma covering_spec rw es k stop :
  plain es → stops_at stop k es → covering stat (newMountSet stat rw) (rooted es) stop = ""%string ↔ clear_up (newMountSet stat rw) k es.
Proof.
  intros Hp Hs. unfold covering. destruct (newMountSet stat rw) as [|paths m] eqn:Em; [split; [|done]; intros _ j _; done|]. rewrite <- Em.
  destruct (covering_up_spec rw es (S (String.length (rooted es))) k stop Hp) as (src & -> & H); [pose proof (rooted_length es Hp); lia|done|]. exact H.
Qed.
End covering.

(** ** The walk *)

(** Induction on a tree and its entries. *)
Section dnode_ind.
Context (P : dnode → Prop).
Hypothesis (HDir : ∀ readable entries, Forall (fun e => P (snd e)) entries → P (NDir readable entries)) (HReg : P NRegular) (HOther : P NOther).
Fixpoint dnode_nested (n : dnode) : P n :=
  match n with
  | NDir readable entries =>
    HDir readable entries
      ((fix each (l : list (string * dnode)) : Forall (fun e => P (snd e)) l :=
          match l with [] => Forall_nil_2 _ | e :: l => Forall_cons_2 _ e l (dnode_nested (snd e)) (each l) end) entries)
  | NRegular => HReg
  | NOther => HOther
  end.
End dnode_ind.

(** Names in a directory are ordinary. *)
Fixpoint names_plain (n : dnode) : bool :=
  match n with NDir _ entries => forallb (fun e => plain_elem (fst e) && names_plain (snd e)) entries | _ => true end.
(** An assembly's project files, by the names down to them, and the entries
    the walk looks at. *)
Fixpoint projects (name : string) (top : bool) (n : dnode) (base : string) : list (list string) :=
  match n with
  | NOther => []
  | NRegular => if isProjectOf base name then [[]] else []
  | NDir readable entries =>
    if negb top && skippedProjectDir base then []
    else if readable then flat_map (fun e => map (cons (fst e)) (projects name false (snd e) (fst e))) entries else []
  end.
Fixpoint visits (top : bool) (n : dnode) (base : string) : Z :=
  match n with
  | NDir readable entries =>
    if negb top && skippedProjectDir base then 1
    else if readable then 1 + fold_right (fun e acc => visits false (snd e) (fst e) + acc) 0 entries else 2
  | _ => 1
  end.
Lemma visits_pos top n base : 1 ≤ visits top n base.
Proof.
  revert top base. induction n as [readable entries IH| |] using dnode_nested; intros top base; cbn; [|lia|lia].
  destruct (_ && _); [lia|]. destruct readable; [|lia]. enough (0 ≤ fold_right (fun e acc => visits false (snd e) (fst e) + acc) 0 entries) by lia.
  induction IH as [|e l He _ IH]; cbn; [lia|]. pose proof (He false (fst e)). lia.
Qed.

#[local] Arguments rooted : simpl never.
#[local] Arguments isProjectOf : simpl never.
Section walk_spec.
Context (stat : string → option finfo) (name : string) (limit : Z) (mounts : list (list mountPath)) (top : list string).
Hypothesis (top_plain : plain top).
Abbreviation root := (rooted top).
(** Nothing a container can write is above a path, as far as the root. *)
Definition free (es : list string) : bool := (covering stat mounts (rooted (top ++ es)) root =? "")%string.
Definition sorted_into (found : list (list string)) (n : Z) (ps : search) : search :=
  mkSearch (ps_seen ps + n) (ps_found ps ++ map (fun es => rooted (top ++ es)) (List.filter free found))
    (ps_written ps ++ map (fun es => rooted (top ++ es)) (List.filter (fun es => negb (free es)) found)).
Lemma sorted_into_app a b n m ps : sorted_into b m (sorted_into a n ps) = sorted_into (a ++ b) (n + m) ps.
Proof. unfold sorted_into. cbn. rewrite !List.filter_app, !map_app, !app_assoc. f_equal. lia. Qed.
Definition within_limit (ps : search) (n : Z) (out : search) : option search := if limit <? ps_seen ps + n then None else Some out.

Lemma walk_spec n es base ps :
  plain es → names_plain n = true →
  walk stat name root limit mounts n (rooted (top ++ es)) base ps =
  within_limit ps (visits (bool_decide (es = [])) n base)
    (sorted_into (map (app es) (projects name (bool_decide (es = [])) n base)) (visits (bool_decide (es = [])) n base) ps).
Proof.
  revert es base ps. induction n as [readable entries IH| |] using dnode_nested; intros es base ps Hes Hn.
  2:{ cbn. unfold count_entry, within_limit, sorted_into. destruct (limit <? ps_seen ps + 1); [done|]. cbn. destruct (isProjectOf base name); cbn.
      - rewrite app_nil_r. unfold sort_match. fold (free es). destruct (free es); cbn; by rewrite ?app_nil_r.
      - by rewrite !app_nil_r. }
  2:{ cbn. unfold count_entry, within_limit, sorted_into. destruct (limit <? ps_seen ps + 1); [done|]. cbn. by rewrite !app_nil_r. }
  assert (Htop : (rooted (top ++ es) =? root)%string = bool_decide (es = [])).
  { case_bool_decide as He; [subst; rewrite app_nil_r; apply String.eqb_refl|]. apply String.eqb_neq. intros H%rooted_inj; [|by apply Forall_app|done].
    apply He. apply (f_equal length) in H. rewrite length_app in H. destruct es; [done|cbn in H; lia]. }
  cbn [walk]. rewrite Htop. set (first := bool_decide (es = [])) in *. cbn [visits projects]. unfold mbind, option_bind.
  set (one := mkSearch (ps_seen ps + 1) (ps_found ps) (ps_written ps)).
  change (count_entry limit ps) with (if limit <? ps_seen ps + 1 then None else Some one).
  destruct (negb first && skippedProjectDir base).
  { unfold within_limit, sorted_into. cbn. destruct (limit <? _); [done|]. by rewrite !app_nil_r. }
  destruct readable.
  2:{ unfold within_limit, sorted_into, count_entry. cbn. destruct (Z.ltb_spec limit (ps_seen ps + 1)); destruct (Z.ltb_spec limit (ps_seen ps + 2)); cbn; try done; try lia.
      - by rewrite (proj2 (Z.ltb_lt _ _)) by lia.
      - rewrite (proj2 (Z.ltb_ge _ _)) by lia. rewrite !app_nil_r. do 2 f_equal. lia. }
  set (count := fold_right _ 0 entries). set (below := flat_map _ entries).
  assert (Hloop : ∀ ps0, (fix each (l : list (string * dnode)) (ps : search) : option search :=
      match l with [] => Some ps | (x, c) :: l =>
        match walk stat name root limit mounts c (Join (rooted (top ++ es)) x) x ps with Some ps => each l ps | None => None end end) entries ps0 =
      if bool_decide (entries = []) then Some ps0 else within_limit ps0 count (sorted_into (map (app es) below) count ps0)).
  { subst count below. clear Htop one. cbn [names_plain] in Hn. induction IH as [|[x c] l Hc Hl IHl]; intros ps0; [done|]. cbn [forallb fst snd] in Hn.
    apply andb_prop in Hn as [[Hx Hcn]%andb_prop Hln]. assert (HJ : Join (rooted (top ++ es)) x = rooted (top ++ (es ++ [x]))).
    { rewrite app_assoc. change x with (join "/" [x]) at 1. apply Join_rooted; [by apply Forall_app|by apply Forall_singleton|done]. }
    assert (Hex : plain (es ++ [x])) by (apply Forall_app; split; [done|by apply Forall_singleton]).
    cbn [snd] in Hc. rewrite HJ, (Hc (es ++ [x]) x ps0 Hex Hcn). rewrite (bool_decide_eq_false_2 (es ++ [x] = [])) by (by destruct es).
    cbn [fold_right flat_map fst snd]. rewrite bool_decide_eq_false_2 by done. specialize (IHl Hln).
    assert (Hm : map (app (es ++ [x])) (projects name false c x) = map (app es) (map (cons x) (projects name false c x))).
    { rewrite map_map. apply map_ext. intros y. by rewrite <- app_assoc. }
    rewrite Hm, map_app, <- sorted_into_app. set (now_ := sorted_into _ _ ps0). set (rest := fold_right _ 0 l).
    pose proof (visits_pos false c x) as Hv. assert (Hrest : 0 ≤ rest).
    { subst rest. clear. induction l as [|e l IH]; cbn; [lia|]. pose proof (visits_pos false (snd e) (fst e)). lia. }
    unfold within_limit at 1 2. destruct (Z.ltb_spec limit (ps_seen ps0 + visits false c x)); [by rewrite (proj2 (Z.ltb_lt _ _)) by lia|].
    rewrite IHl. unfold within_limit. change (ps_seen now_) with (ps_seen ps0 + visits false c x). rewrite Z.add_assoc.
    case_bool_decide as Hnil; [|done]. subst l. subst rest. cbn. rewrite (proj2 (Z.ltb_ge _ _)) by lia. unfold sorted_into. cbn. by rewrite !app_nil_r, Z.add_0_r. }
  destruct (Z.ltb_spec limit (ps_seen ps + 1)) as [Hl|Hl].
  { unfold within_limit. assert (0 ≤ count). { subst count. clear. induction entries as [|e l IH]; cbn; [lia|]. pose proof (visits_pos false (snd e) (fst e)). lia. }
    by rewrite (proj2 (Z.ltb_lt _ _)) by lia. }
  rewrite Hloop. unfold within_limit, sorted_into. subst one. cbn. rewrite Z.add_assoc.
  case_bool_decide as Hnil; [|done]. subst count below. subst entries. cbn. rewrite (proj2 (Z.ltb_ge _ _)) by lia. by rewrite !app_nil_r, Z.add_0_r.
Qed.
End walk_spec.

(** ** A project a container could have written is never found *)

Section found.
Context (stat : string → option finfo) (rw : list (list string)).

(** What a container can write: a source by its path, or the same file. *)
Definition writable (q : string) : Prop :=
  ∃ paths sp, paths ∈ rw ∧ sp ∈ paths ∧
    (q = Clean sp ∨ (is_abs sp = true ∧ ∃ i j, stat sp = Some i ∧ stat q = Some j ∧ fi_id i = fi_id j)).
Lemma is_mount_spec q sp :
  is_mount stat q (mkMountPath (Clean sp) sp (if is_abs sp then fi_id <$> stat sp else None)) = true ↔
  q = Clean sp ∨ (is_abs sp = true ∧ ∃ i j, stat sp = Some i ∧ stat q = Some j ∧ fi_id i = fi_id j).
Proof.
  unfold is_mount, sameFile. cbn [mp_path mp_info]. rewrite orb_true_iff, String.eqb_eq. apply or_iff_compat_l.
  destruct (is_abs sp); [|naive_solver]. destruct (stat sp) as [i|]; cbn; [|naive_solver]. destruct (stat q) as [j|]; [|naive_solver].
  rewrite Z.eqb_eq. naive_solver.
Qed.
Lemma source_of_None q : source_of stat (newMountSet stat rw) q = None ↔ ¬ writable q.
Proof.
  unfold writable. induction rw as [|paths l IH]; cbn [newMountSet map source_of]; [split; [|done]; intros _ (p & sp & H & _); by apply not_elem_of_nil in H|].
  destruct (existsb (is_mount stat q) _) eqn:E.
  - apply existsb_exists in E as (mp & (sp & <- & Hin)%in_map_iff & Hm). split.
    + destruct paths; [by destruct Hin|done].
    + intros Hn. destruct Hn. exists paths, sp. split; [by left|]. split; [by apply list_elem_of_In|]. by apply is_mount_spec.
  - change (map _ l) with (newMountSet stat l). rewrite IH. split; intros Hn (paths' & sp & Hp & Hs & Hw); apply Hn.
    + apply elem_of_cons in Hp as [->|Hp]; [|by exists paths', sp]. exfalso. apply is_mount_spec in Hw.
      assert (Ht : existsb (is_mount stat q) (map (fun p => mkMountPath (Clean p) p (if is_abs p then fi_id <$> stat p else None)) paths) = true)
        by (apply existsb_exists; eexists; split; [apply in_map_iff; exists sp; split; [done|by apply list_elem_of_In]|done]). congruence.
    + exists paths', sp. split; [by right|done].
Qed.
(** Every source has a spelling that names something here. *)
Definition all_seen : Prop := ∀ paths, paths ∈ rw → paths ≠ [] → ∃ sp, sp ∈ paths ∧ is_abs sp = true ∧ is_Some (stat sp).
Lemma unseen_spec : (∀ paths, paths ∈ rw → (""%string ∉ paths)) → unseen (newMountSet stat rw) = ""%string ↔ all_seen.
Proof.
  unfold all_seen. induction rw as [|paths l IH]; intros Hne; [split; [|done]; intros _ p Hp; by apply not_elem_of_nil in Hp|].
  specialize (IH (fun p Hp => Hne p (list_elem_of_further _ _ _ Hp))). cbn [newMountSet map unseen]. destruct paths as [|sp paths].
  - change (map _ l) with (newMountSet stat l). cbn [map]. rewrite IH. split; intros H p Hp; [|apply H; by right]. apply elem_of_cons in Hp as [->|Hp]; [done|by apply H].
  - cbn [map]. change (mkMountPath _ _ _ :: map _ paths) with (map (fun p => mkMountPath (Clean p) p (if is_abs p then fi_id <$> stat p else None)) (sp :: paths)).
    change (map (map _) l) with (newMountSet stat l). destruct (existsb _ _) eqn:E.
    + apply existsb_exists in E as (mp & (x & <- & Hin)%in_map_iff & Hm%bool_decide_eq_true). cbn [mp_info] in Hm.
      assert (Hx : x ∈ sp :: paths ∧ is_abs x = true ∧ is_Some (stat x)).
      { split; [by apply list_elem_of_In|]. destruct (is_abs x); [|by destruct Hm]. split; [done|]. by destruct (stat x); [eexists|destruct Hm]. }
      rewrite IH. split; intros H p Hp; [|apply H; by right]. apply elem_of_cons in Hp as [->|Hp]; [by exists x|by apply H].
    + cbn [mp_shown]. split.
      * intros ->. exfalso. apply (Hne (""%string :: paths)); by left.
      * intros H. exfalso. destruct (H (sp :: paths)) as (x & Hx & Ha & [i Hi]); [by left|done|].
        assert (Ht : existsb (fun mp => bool_decide (is_Some (mp_info mp))) (map (fun p => mkMountPath (Clean p) p (if is_abs p then fi_id <$> stat p else None)) (sp :: paths)) = true).
        { apply existsb_exists. eexists. split; [apply in_map_iff; exists x; split; [done|by apply list_elem_of_In]|]. cbn [mp_info]. rewrite Ha, Hi. by apply bool_decide_eq_true_2. }
        congruence.
Qed.

Context (eval_symlinks : string → string + string) (tree_at : string → option dnode) (root dll : string) (limit : Z) (top : list string) (n : dnode).
Hypothesis (Htop : plain top) (Hroot : eval_symlinks root = inr (rooted top)) (Hn : tree_at (rooted top) = Some n) (Hnames : names_plain n = true)
  (Hrw : ∀ paths, paths ∈ rw → (""%string ∉ paths)).
Abbreviation Find := (FindContainerProject eval_symlinks stat tree_at root dll limit rw).
Abbreviation candidates := (projects (trim_suffix ".dll" dll) true n (Base (rooted top))).
(** No container can write a path, nor anything above it from [k] names on. *)
Definition unwritten (k : nat) (es : list string) : Prop := ∀ j, (k ≤ j ≤ length es)%nat → ¬ writable (rooted (take j es)).
Lemma unwritten_spec k es stop :
  plain es → stops_at stop k es → covering stat (newMountSet stat rw) (rooted es) stop = ""%string ↔ unwritten k es.
Proof. intros Hp Hs. rewrite covering_spec by done. unfold clear_up, unwritten. split; intros H j Hj; [apply source_of_None|apply source_of_None]; by apply H. Qed.
Lemma projects_plain name first m base es : names_plain m = true → es ∈ projects name first m base → plain es.
Proof.
  revert first base es. induction m as [readable entries IH| |] using dnode_nested; intros first base es Hm; cbn.
  - destruct (_ && _); [by intros ?%not_elem_of_nil|]. destruct readable; [|by intros ?%not_elem_of_nil]. cbn in Hm.
    intros ((x & c) & Hx & (es' & <- & Hes')%in_map_iff)%list_elem_of_In%in_flat_map. cbn [fst snd] in *. rewrite forallb_forall in Hm.
    specialize (Hm _ Hx) as [Hx' Hc]%andb_prop. rewrite Forall_forall in IH. apply Forall_cons. split; [done|].
    eapply (IH (x, c)); [by apply list_elem_of_In|done|by apply list_elem_of_In].
  - destruct (isProjectOf _ _); [|by intros ?%not_elem_of_nil]. intros ->%list_elem_of_singleton. constructor.
  - by intros ?%not_elem_of_nil.
Qed.
Lemma free_spec es : plain es → free stat (newMountSet stat rw) top es = true ↔ unwritten (length top) (top ++ es).
Proof.
  intros Hes. unfold free. rewrite String.eqb_eq. apply unwritten_spec; [by apply Forall_app|]. split; [rewrite length_app; lia|]. left.
  by rewrite take_app_length.
Qed.
Lemma root_clear : covering stat (newMountSet stat rw) (rooted top) "" = ""%string ↔ unwritten 0 top.
Proof. apply unwritten_spec; [done|]. split; [lia|by right]. Qed.
(** When there is a search, it finds the one candidate that is free. *)
Lemma Find_searches p :
  Find = Ok p ↔ ValidDLL dll = true ∧ unwritten 0 top ∧ all_seen ∧ visits true n (Base (rooted top)) ≤ limit ∧
    map (fun es => rooted (top ++ es)) (List.filter (free stat (newMountSet stat rw) top) candidates) = [p].
Proof.
  unfold FindContainerProject. destruct (ValidDLL dll); cbn [negb]; [|split; [done|by intros []]]. rewrite Hroot, Hn.
  destruct (String.eqb_spec (covering stat (newMountSet stat rw) (rooted top) "") "") as [Ec|Ec]; cbn [negb].
  2:{ split; [done|]. intros (_ & H & _). by apply root_clear in H. }
  rewrite root_clear in Ec. destruct (String.eqb_spec (unseen (newMountSet stat rw)) "") as [Eu|Eu]; cbn [negb].
  2:{ split; [done|]. intros (_ & _ & H & _). by apply unseen_spec in H. }
  rewrite (unseen_spec Hrw) in Eu.
  pose proof (walk_spec stat (trim_suffix ".dll" dll) limit (newMountSet stat rw) top Htop n [] (Base (rooted top)) (mkSearch 0 [] []) (Forall_nil_2 _) Hnames) as Hw.
  rewrite app_nil_r in Hw. rewrite Hw. change (bool_decide ([] = [])) with true. unfold within_limit. cbn [ps_seen]. rewrite Z.add_0_l.
  destruct (Z.ltb_spec limit (visits true n (Base (rooted top)))) as [Hl|Hl]; [split; [done|]; intros (_ & _ & _ & H & _); lia|].
  unfold sorted_into. cbn [ps_found ps_written]. rewrite !app_nil_l. assert (Hid : map (app []) candidates = candidates) by apply map_id. rewrite Hid.
  set (found := map _ (List.filter _ _)). set (written := map _ (List.filter _ _)).
  assert (Hone : match found, written with [], _ :: _ => Err (writtenError (rooted top) dll written) | _, _ => oneProject found (rooted top) dll end = Ok p ↔ found = [p]).
  { destruct found as [|q [|q' l]]; [by destruct written| |by destruct written]. destruct written; cbn; split; by intros [= ->]. }
  split; [intros H; repeat split; try done; apply Hone; revert H; by destruct found, written|].
  intros (_ & _ & _ & _ & H). pose proof (proj2 Hone H) as H'. revert H'. by destruct found, written.
Qed.
End found.

(** C26: a project that builds an assembly is found only when no container of
    the stack can write it or any directory above it, under whatever spelling
    of a mount and through whatever link, when every mount is known here, and
    when it is the only such project below the compose directory. *)
Theorem find_project_safe eval_symlinks stat rw tree_at root dll limit (top : list string) (n : dnode) (p : string) :
  plain top → eval_symlinks root = inr (rooted top) → tree_at (rooted top) = Some n → names_plain n = true →
  (∀ paths, paths ∈ rw → (""%string ∉ paths)) →
  FindContainerProject eval_symlinks stat tree_at root dll limit rw = Ok p →
  ∃ es, p = rooted (top ++ es) ∧ es ∈ projects (trim_suffix ".dll" dll) true n (Base (rooted top)) ∧
    unwritten stat rw 0 (top ++ es) ∧ all_seen stat rw ∧
    ∀ es', es' ∈ projects (trim_suffix ".dll" dll) true n (Base (rooted top)) → es' ≠ es → ¬ unwritten stat rw 0 (top ++ es').
Proof.
  intros Htop Hroot Hn Hnames Hrw Hp. apply (Find_searches _ _ _ _ _ _ _ top n Htop Hroot Hn Hnames Hrw) in Hp as (_ & Hu & Hs & _ & Hp).
  destruct (List.filter _ _) as [|es [|]] eqn:Ef; [done| |done]. injection Hp as <-.
  assert (Hin : ∀ x, In x [es] ↔ x ∈ projects (trim_suffix ".dll" dll) true n (Base (rooted top)) ∧ free stat (newMountSet stat rw) top x = true).
  { intros x. rewrite <- Ef, filter_In. by rewrite list_elem_of_In. }
  destruct (proj1 (Hin es) (or_introl eq_refl)) as [Hes Hfree]. exists es. split; [done|]. split; [done|].
  assert (Hpl : plain es) by (by eapply projects_plain). apply (free_spec stat rw top Htop es Hpl) in Hfree. split; [|split; [done|]].
  - intros j Hj. destruct (decide (j ≤ length top)%nat) as [Hle|Hgt]; [|apply Hfree; lia]. rewrite take_app_le by done. apply Hu. lia.
  - intros es' Hes' Hne Hw. assert (Hpl' : plain es') by (by eapply projects_plain). destruct Hne.
    enough (Hx : In es' [es]) by (by destruct Hx as [|[]]). apply Hin. split; [done|]. apply (free_spec stat rw top Htop es' Hpl').
    intros j Hj. apply Hw. lia.
Qed.

(** A planted project and one in a skipped directory beside the real one. *)
Definition shop_tree : dnode :=
  NDir true [("bin", NDir true [("Shop.csproj", NRegular)]); ("data", NDir true [("Shop.csproj", NRegular)]);
    ("link", NOther); ("src", NDir true [("Shop.csproj", NRegular); ("Shop.sln", NRegular)])]%string.
Definition shop_stat (p : string) : option finfo :=
  if p =?s "/w/app/data" then Some (mkFinfo 7 false) else if p =?s "/mnt/d" then Some (mkFinfo 7 false)
  else if has_prefix "/host_mnt" p || (p =?s "/elsewhere/w") then None else Some (mkFinfo 1 false).
Example find_project_safe_witness :
  FindContainerProject inr shop_stat (fun _ => Some shop_tree) "/w/app" "Shop.dll" 100 [["/mnt/d"; "/host_mnt/d"]%string] = Ok "/w/app/src/Shop.csproj"%string ∧
  (∃ es, "/w/app/src/Shop.csproj"%string = rooted (["w"; "app"]%string ++ es) ∧ unwritten shop_stat [["/mnt/d"; "/host_mnt/d"]%string] 0 (["w"; "app"]%string ++ es)) ∧
  ∃ why, FindContainerProject inr shop_stat (fun _ => Some shop_tree) "/w/app" "Shop.dll" 100 [["/elsewhere/w"; "/w"]%string] = Err why.
Proof.
  assert (E : FindContainerProject inr shop_stat (fun _ => Some shop_tree) "/w/app" "Shop.dll" 100 [["/mnt/d"; "/host_mnt/d"]%string] = Ok "/w/app/src/Shop.csproj"%string)
    by (vm_compute; reflexivity).
  split; [exact E|]. split; [|eexists; vm_compute; reflexivity].
  destruct (find_project_safe inr shop_stat [["/mnt/d"; "/host_mnt/d"]%string] (fun _ => Some shop_tree) "/w/app" "Shop.dll" 100 ["w"; "app"]%string shop_tree
    "/w/app/src/Shop.csproj") as (es & Hp & _ & Hu & _); [repeat constructor|reflexivity|reflexivity|vm_compute; reflexivity| |exact E|by exists es].
  intros paths ->%list_elem_of_singleton. apply (bool_decide_eq_true_1 (""%string ∉ ["/mnt/d"; "/host_mnt/d"]%string)). vm_compute. reflexivity.
Defined.

(** ** Building it (fast.go) *)

Definition dotnetConfig : string := "Debug".
Definition msbuildNoLogo : string := "-nologo".
Definition buildOutputLines : nat := 40.
Definition publishLogTail : nat := Z.to_nat 65536.
Definition unreadableLog : string := "(the build log can't be read)".

(** A publish; the log is its name, [None] when there is none. *)
Record PublishSpec := mkPublishSpec {
  pb_Host : string; pb_Project : string; pb_Root : string; pb_Out : string; pb_Artifacts : string; pb_DLL : string; pb_Log : option string }.
(** How the command ended: the caller's context, the time limit, the build's
    exit, or another reason. *)
Inductive run_end := RanWell | Canceled (why : string) | TimedOut | ExitFailed | NotStarted (why : string).
Inductive published := Published | Refused (e : Error) | BuildFailed (msg : string) | Ended (msg : string).

(** [%q] of a rune. *)
Definition quote_rune (x : Z * string) : string :=
  "'" +:+ (if x.1 =? 34 then x.2
           else if (128 <=? x.1) && (x.1 <=? 159) then "\u00" +:+ String (hex_digit (x.1 / 16)) (String (hex_digit (x.1 mod 16)) "")
           else quote_seg x) +:+ "'".
Definition splits (r : Z) : bool := existsb (Z.eqb r) [44; 59; 37; 61; 34] || is_control r.
Definition checkMSBuildPath (what p : string) : result unit :=
  if negb (valid_utf8 p) then Err (refuse (what +:+ " " +:+ quote_path p +:+ " is not valid UTF-8"))
  else match List.find (fun x : Z * string => splits x.1) (segs p) with
       | Some x => Err (refuse (what +:+ " " +:+ quote_path p +:+ " holds a character MSBuild would split on (" +:+ quote_rune x +:+ ")"))
       | None => Ok ()
       end.
Definition internal_error (msg : string) : Error := NewError CodeInternal msg.

(** [tail] (dotnet.go): the last lines that are not blank. *)
Fixpoint trim_newlines (s : string) : string :=
  match s with EmptyString => "" | String c s => let t := trim_newlines s in if (t =?s "") && Ascii.eqb c "010" then "" else String c t end.
Definition tail_lines (s : string) (n : nat) : string :=
  let lines := List.filter (fun l => negb (trim_space l =?s "")) (split_on "010" (trim_newlines s)) in
  join (String "010" "") (drop (length lines - n) lines).

Section publish.
(** The links' targets, what is at a path, a regular file there ([Lstat]),
    running a command in a directory, and the log it left. *)
Context (eval_symlinks : string → string + string) (stat : string → option finfo) (lstat_regular : string → bool).
Context (run : list string → string → run_end) (log_text : string → option string).

Definition resolve_paths (s : PublishSpec) : result (string * string) :=
  if negb (is_abs (pb_Root s) && is_abs (pb_Project s)) then Err (internal_error "publish paths must be absolute")
  else match eval_symlinks (pb_Root s), eval_symlinks (pb_Project s) with
  | inl why, _ => Err (refuse ("the compose directory " +:+ quote_path (pb_Root s) +:+ " can't be resolved: " +:+ why))
  | _, inl why => Err (refuse ("the project " +:+ quote_path (pb_Project s) +:+ " can't be resolved: " +:+ why))
  | inr root, inr project =>
    if Dir root =?s root then Err (refuse ("the compose directory " +:+ quote_path root +:+ " is a file system root"))
    else if negb (has_prefix (root +:+ "/") project)
    then Err (refuse ("the project " +:+ quote_path project +:+ " is not inside the compose directory " +:+ quote_path root))
    else match stat project with
         | Some i => if fi_regular i && IsProjectFile (Base project) then Ok (root, project) else Err (refuse (quote_path project +:+ " is not a project file"))
         | None => Err (refuse (quote_path project +:+ " is not a project file"))
         end
  end.
Definition pathMapValue (root : string) : string := root +:+ "/=" +:+ pathMapTarget.
Definition publishArgs (s : PublishSpec) : result (list string * string) :=
  match pb_Log s with
  | None => Err (internal_error "publish without a dotnet host or a log file")
  | Some _ =>
    if pb_Host s =?s "" then Err (internal_error "publish without a dotnet host or a log file")
    else if negb (ValidDLL (pb_DLL s)) then Err (refuse ("invalid assembly name " +:+ quote_path (pb_DLL s)))
    else
      try paths := resolve_paths s in
      let '(root, project) := paths in
      try _ := checkMSBuildPath "the compose directory" root in
      try _ := checkMSBuildPath "the project" project in
      try _ := checkMSBuildPath "the output directory" (pb_Out s) in
      try _ := checkMSBuildPath "the artifacts directory" (pb_Artifacts s) in
      if negb (is_abs (pb_Out s) && is_abs (pb_Artifacts s)) then Err (internal_error "publish output paths must be absolute")
      else Ok (["publish"; project; "-c"; dotnetConfig; "-o"; pb_Out s; "--artifacts-path"; pb_Artifacts s; "-p:UseAppHost=false"; "-p:DebugType=portable";
                "-p:PathMap=" +:+ pathMapValue root; msbuildNoLogo; "-tl:off"]%string, root)
  end.
Definition logTail (log : string) : string :=
  match log_text log with
  | None => unreadableLog
  | Some data => tail_lines (blank (fun r => negb (r =? 10) && is_control r) (to_valid (sdrop (String.length data - publishLogTail) data) "?")) buildOutputLines
  end.
Definition publishError (s : PublishSpec) (log : string) (e : run_end) : published :=
  match e with
  | RanWell => Published
  | Canceled why => Ended ("dotnet publish " +:+ pb_Project s +:+ ": " +:+ why)
  | TimedOut => BuildFailed ("dotnet publish " +:+ quote_path (pb_Project s) +:+ " did not finish in time")
  | ExitFailed => BuildFailed ("dotnet publish " +:+ quote_path (pb_Project s) +:+ " failed:" +:+ String "010" (logTail log))
  | NotStarted why => BuildFailed ("dotnet publish " +:+ quote_path (pb_Project s) +:+ " failed: " +:+ why)
  end.
Definition outputs (s : PublishSpec) : list string := [pb_DLL s; trim_suffix ".dll" (pb_DLL s) +:+ ".pdb"]%string.
Definition checkOutputs (s : PublishSpec) : published :=
  match List.find (fun name => negb (lstat_regular (Join (pb_Out s) name))) (outputs s) with
  | Some name => BuildFailed ("dotnet publish " +:+ quote_path (pb_Project s) +:+ " succeeded but produced no " +:+ name)
  | None => Published
  end.
(** What is run, in which directory, and what comes of it. *)
Definition PublishForContainer (s : PublishSpec) : list (list string * string) * published :=
  match publishArgs s with
  | Err e => ([], Refused e)
  | Ok (argv, root) =>
    ([(pb_Host s :: argv, root)],
     match run (pb_Host s :: argv) root with
     | RanWell => checkOutputs s
     | e => publishError s (default ""%string (pb_Log s)) e
     end)
  end.
End publish.

(** A byte of ASCII in valid text is a rune of it. *)
Lemma ascii_rune a s : byte_of a < 128 → valid_utf8 s = true → contains_byte a s = true → byte_of a ∈ (segs s).*1.
Proof.
  intros Ha Hv. pose proof (valid_runes_of s Hv) as H. remember (segs s) as l eqn:El. clear El Hv. induction H as [|b r s l He H IH]; [done|]. intros Hc.
  assert (Happ : contains_byte a b || contains_byte a s = true).
  { revert Hc. clear. induction b as [|c b IH]; cbn; [done|]. destruct (Ascii.eqb a c); [done|exact IH]. }
  apply orb_true_iff in Happ as [Hb|Hs]; [|right; by apply IH]. destruct He as (c & t & -> & _ & Ht & Hd & _). cbn in Hb. apply orb_true_iff in Hb as [Hb|Hb].
  - apply Ascii.eqb_eq in Hb as <-. specialize (Hd ""%string). unfold decode_rune in Hd. rewrite (proj2 (Z.ltb_lt _ _) Ha) in Hd. injection Hd as <- _. by left.
  - exfalso. assert (Hn : not_start a = true). { revert Ht Hb. clear. induction t as [|d t IH]; cbn; [done|]. intros [Hd Ht]%andb_prop. destruct (Ascii.eqb_spec a d) as [->|]; [done|by apply IH]. }
    unfold not_start in Hn. by rewrite (lead_start a (or_intror Ha)) in Hn.
Qed.
(** A path MSBuild and Roslyn read as it is. *)
Definition msbuild_plain (p : string) : Prop := valid_utf8 p = true ∧ ∀ r, r ∈ (segs p).*1 → splits r = false.
Lemma checkMSBuildPath_spec what p : checkMSBuildPath what p = Ok () ↔ msbuild_plain p.
Proof.
  unfold checkMSBuildPath, msbuild_plain. destruct (valid_utf8 p); cbn [negb]; [|naive_solver]. destruct (List.find _ _) as [x|] eqn:E.
  - apply find_some in E as [Hx Hs]. split; [done|]. intros [_ H]. rewrite H in Hs; [done|]. apply list_elem_of_fmap. exists x. split; [done|by apply list_elem_of_In].
  - split; [|done]. intros _. split; [done|]. intros r (x & -> & Hx)%list_elem_of_fmap. by apply (find_none _ _ E), list_elem_of_In.
Qed.
Lemma msbuild_plain_byte p a : msbuild_plain p → byte_of a < 128 → splits (byte_of a) = true → contains_byte a p = false.
Proof. intros [Hv H] Ha Hs. destruct (contains_byte a p) eqn:E; [|done]. apply ascii_rune in E; [|done|done]. by rewrite (H _ E) in Hs. Qed.

(** How Roslyn reads a path map: pairs, at the commas. *)
Definition read_path_map (v : string) : list (option (string * string)) := map (cut_at "=") (split_on "," v).
Lemma cut_at_first a s t : contains_byte a s = false → cut_at a (s +:+ String a t) = Some (s, t).
Proof.
  induction s as [|c s IH]; cbn; [by rewrite Ascii.eqb_refl|]. destruct (Ascii.eqb_spec a c) as [->|Hne]; [done|]. intros H. cbn in IH. rewrite (IH H). done.
Qed.
Lemma path_map_read root : msbuild_plain root → read_path_map (pathMapValue root) = [Some (root +:+ "/", "/src/"%string)].
Proof.
  intros Hp. pose proof (msbuild_plain_byte root "," Hp ltac:(vm_compute; reflexivity) ltac:(vm_compute; reflexivity)) as Hc.
  pose proof (msbuild_plain_byte root "=" Hp ltac:(vm_compute; reflexivity) ltac:(vm_compute; reflexivity)) as He.
  assert (Happ : ∀ a b c, contains_byte a (b +:+ c) = contains_byte a b || contains_byte a c).
  { intros a b c. induction b as [|x b IH]; cbn; [done|]. destruct (Ascii.eqb a x); [done|exact IH]. }
  unfold read_path_map, pathMapValue. assert (Hs : split_on "," (root +:+ "/=" +:+ pathMapTarget) = [root +:+ "/=" +:+ pathMapTarget]).
  { apply split_on_none. rewrite Happ, Hc. vm_compute. reflexivity. }
  rewrite Hs. cbn [map]. replace (root +:+ "/=" +:+ pathMapTarget) with ((root +:+ "/") +:+ String "=" "/src/") by (by rewrite string_app_assoc).
  rewrite cut_at_first; [done|]. rewrite Happ, He. vm_compute. reflexivity.
Qed.

(** A publish runs at most one command, the build of a project below the
    compose directory as the links lead, with paths MSBuild reads as they are
    and the sources mapped to the container's; it counts as done only when the
    assembly and its symbols are there. *)
Theorem publish_safe eval_symlinks stat lstat_regular run log_text (s : PublishSpec) :
  let '(runs, res) := PublishForContainer eval_symlinks stat lstat_regular run log_text s in
  (runs = [] ∧ ∃ e, res = Refused e) ∨
  ∃ root project rel, eval_symlinks (pb_Root s) = inr root ∧ eval_symlinks (pb_Project s) = inr project ∧
    runs = [([pb_Host s; "publish"; project; "-c"; "Debug"; "-o"; pb_Out s; "--artifacts-path"; pb_Artifacts s; "-p:UseAppHost=false"; "-p:DebugType=portable";
              "-p:PathMap=" +:+ pathMapValue root; "-nologo"; "-tl:off"]%string, root)] ∧
    read_path_map (pathMapValue root) = [Some (root +:+ "/", "/src/"%string)] ∧
    project = (root +:+ "/") +:+ rel ∧ Dir root ≠ root ∧ IsProjectFile (Base project) = true ∧ (∃ i, stat project = Some i ∧ fi_regular i = true) ∧
    Forall msbuild_plain [root; project; pb_Out s; pb_Artifacts s] ∧ is_abs (pb_Out s) = true ∧ is_abs (pb_Artifacts s) = true ∧
    (res = Published → ∀ name, name ∈ outputs s → lstat_regular (Join (pb_Out s) name) = true).
Proof.
  unfold PublishForContainer, publishArgs. destruct (pb_Log s) as [log|]; [|cbn [rbind]; left; by eauto]. destruct (pb_Host s =?s ""); [cbn [rbind]; left; by eauto|].
  destruct (negb (ValidDLL (pb_DLL s))); [cbn [rbind]; left; by eauto|]. unfold resolve_paths. destruct (negb (_ && _)); [cbn [rbind]; left; by eauto|].
  destruct (eval_symlinks (pb_Root s)) as [why|root] eqn:Er; [cbn [rbind]; left; by eauto|].
  destruct (eval_symlinks (pb_Project s)) as [why|project] eqn:Ep; [cbn [rbind]; left; by eauto|].
  destruct (String.eqb_spec (Dir root) root) as [|Hd]; [cbn [rbind]; left; by eauto|]. destruct (has_prefix (root +:+ "/") project) eqn:Ei; cbn [negb]; [|cbn [rbind]; left; by eauto].
  destruct (stat project) as [i|] eqn:Es; [|cbn [rbind]; left; by eauto]. destruct (fi_regular i && IsProjectFile (Base project)) eqn:Ef; [|cbn [rbind]; left; by eauto].
  apply andb_prop in Ef as [Hi Hproj]. cbn [rbind].
  destruct (checkMSBuildPath "the compose directory" root) as [[]|] eqn:E1; [|cbn [rbind]; left; by eauto].
  destruct (checkMSBuildPath "the project" project) as [[]|] eqn:E2; [|cbn [rbind]; left; by eauto].
  destruct (checkMSBuildPath "the output directory" (pb_Out s)) as [[]|] eqn:E3; [|cbn [rbind]; left; by eauto].
  destruct (checkMSBuildPath "the artifacts directory" (pb_Artifacts s)) as [[]|] eqn:E4; [|cbn [rbind]; left; by eauto].
  apply checkMSBuildPath_spec in E1, E2, E3, E4. destruct (is_abs (pb_Out s) && is_abs (pb_Artifacts s)) eqn:Ea; cbn [negb]; [|cbn [rbind]; left; by eauto].
  apply andb_prop in Ea as [Ho Hart]. right. apply has_prefix_spec in Ei as [rel Hrel]. exists root, project, rel.
  split; [done|]. split; [done|]. split; [done|]. split; [by apply path_map_read|]. split; [done|]. split; [done|]. split; [done|]. split; [by exists i|].
  split; [do 4 (apply Forall_cons_2; [done|]); apply Forall_nil_2|]. split; [done|]. split; [done|]. intros Hres name Hname.
  destruct (run _ _); try done. unfold checkOutputs in Hres. destruct (List.find _ _) as [x|] eqn:Ex; [done|].
  apply list_elem_of_In in Hname. pose proof (find_none _ _ Ex name Hname) as Hf. by apply negb_false_iff in Hf.
Qed.
